(* ===== verification/_CoqProject ===== *)
-Q . S2P
Prelude.v
Pydict.v
Uint.v
Varint.v
GossipRpc.v
GossipRpcCorrect.v
GossipTopic.v
Snappy.v
SnappyCorrect.v
Ssz.v
SszCorrect.v
Sha256.v
Identity.v
Merkle.v
Containers.v
GossipState.v
GossipStateCorrect.v
StateTransition.v
Samples.v
StateCorrect.v
StateHistory.v
Poseidon.v
Shake128.v
Proofs.v
SszRecords.v
StateTyped.v
ReqResp.v
ReqRespCorrect.v
BlockCache.v
PeerManager.v
StateMonad.v
Multistream.v
Quic.v
QuicCorrect.v
Rlp.v
Enr.v
Storage.v
Gossipsub.v
GossipsubTheorems.v
Backfill.v
BackfillCorrect.v
Xmss.v
XmssCorrect.v
XmssTrees.v
XmssTheorems.v
XmssVerifier.v
Signatures.v
SignaturesCorrect.v
ForkChoice.v
ForkChoiceCorrect.v
StoreVotes.v
StoreCorrect.v
StoreHandlers.v
Aggregation.v
SyncService.v
ChainService.v
Duties.v
ValidatorService.v
Node.v
Api.v
CheckpointSync.v
SampleStores.v
StorageCorrect.v
AggregationCorrect.v
StoreReachable.v
DutiesCorrect.v
StoreTheorems.v
SyncTheorems.v
EventSource.v
Run.v
EventSourceCorrect.v
RunCorrect.v
DutyTheorems.v
EndToEnd.v
SyncSteps.v
ChainCorrect.v
Persistence.v
CheckpointCorrect.v
NodeCorrect.v
ValidatorCorrect.v
