(* ===== verification/Prelude.v ===== *)
(** * leanSpec: a verification development of the Lean Ethereum specification

    leanSpec (src/src/lean_spec) is the executable specification of a consensus
    protocol: a state machine that blocks advance, a store that chooses the head of
    a tree of blocks by votes, and the duties of the validators that produce both.
    A node around it connects to its peers over QUIC, gossips with them, speaks a
    request/response protocol with them, follows their chain with a sync service that feeds
    the store, ticks the store by the clock, performs the duties of its validators, persists
    what it imports and serves an HTTP API.
    This development translates the specification proper (the directory spec/), the
    signature scheme below it, the services, the network stack and the wire protocols of the
    node (directory node/) and its start (directory cli/) into executable functions in an error monad and proves what
    makes them correct.

    ** The program and the files that model it

    Paths are relative to src/src/lean_spec/spec, those under node/ and cli/ to
    src/src/lean_spec.

    - Prelude.v (this file): the exceptions of the code ([exn], with the reasons of
      forks/lstar/errors.py), the error monad [result] with the notations
      [x ← e; k], [check! b else e;; k] and [reject! reason when b;; k], the loop
      [while], and shared lemmas and tactics.  Pydict.v: Python's dict (an
      association list in insertion order) and set.
    - Uint.v, Ssz.v (ssz/): range-checked integers; the classes of SSZ as values of
      the record [SSZType] (serialize, deserialize, decode_bytes, validation); type
      descriptors [ssz_type] and their interpretation [class_of].  SszCorrect.v:
      [codec_ok] is what every class promises to the classes built from it.
    - Sha256.v, Merkle.v (crypto/merkleization.py): SHA-256, which the code takes
      from hashlib, [merkleize] and the dispatch of [hash_tree_root].
    - Containers.v (forks/lstar/containers/, slot.py, config.py): records for the
      containers, the class [SSZContainer] that gives their SSZ shape, slot and
      interval arithmetic, participation and justification bits.
    - StateTransition.v (forks/lstar/state_transition.py): [process_slots],
      [process_block_header], [process_attestations], [state_transition].
      StateCorrect.v has its invariant [state_inv], StateHistory.v the chains of
      accepted blocks ([reachable]) and the theorems about them, StateTyped.v that
      post-states are values of their SSZ class.
    - Proofs.v (containers/aggregation.py, crypto/xmss/containers.py) and
      Signatures.v (signatures.py): aggregate proofs and block signatures, over the
      class [Crypto] of the external prover ([Prover]) and a signature verifier.
      SignaturesCorrect.v: what a block's proof is checked against.
    - Poseidon.v (crypto/poseidon.py): the permutation in int64 arithmetic and its
      constants, against the permutation over the field.  Shake128.v: the function
      the code takes from hashlib.
    - Xmss.v (crypto/xmss/): tweaks, hash chains, the message encoding, the
      pseudorandom function, the sparse trees, key generation, signing, verification
      and the sliding window of a secret key.  XmssCorrect.v (chains, encodings,
      paths), XmssTrees.v (subtrees) and XmssTheorems.v (held keys and the theorems).
      XmssVerifier.v makes the verifier an instance of [Crypto]; EndToEnd.v signs a
      vote with the scheme and hands it to the store.
    - ForkChoice.v (fork_choice.py, containers/store.py): the record [Store] and its
      handlers.  ForkChoiceCorrect.v (the block tree), StoreVotes.v (latest votes),
      StoreCorrect.v ([store_inv]), StoreHandlers.v (the handlers keep it),
      StoreReachable.v (well-typed pools) and StoreTheorems.v (runs of handlers,
      [reachable_store], and their theorems).
    - Aggregation.v (aggregation.py, timeline.py) and Duties.v (block_production.py,
      validator_duties.py), with AggregationCorrect.v, DutiesCorrect.v and
      DutyTheorems.v.
    - Varint.v (node/networking/varint.py) and Snappy.v (node/snappy/), with
      SnappyCorrect.v: the length prefix, the compressor, the decompressor and the
      framing format with its checksum.
    - SszRecords.v: decoding of container classes to records ([SSZRecord]), the largest
      encoding of a class, and that values below 2^32 bytes encode.
    - ReqResp.v (node/networking/reqresp/, client/reqresp_client.py): the wire codec,
      the messages, the server on one inbound stream and the client's requests.
      ReqRespCorrect.v composes the two.
    - BlockCache.v, PeerManager.v (node/sync/block_cache.py, peer_manager.py): the
      cache of blocks without a parent and the scored peers, each with its invariant.
      StateMonad.v: functions that change a state and may raise, with the state at the
      raise ([M]), and Hoare triples over them.  Backfill.v (backfill_sync.py) and
      BackfillCorrect.v: fetching missing parents by root and by range.
    - SyncService.v (node/sync/head_sync.py, service.py, states.py,
      node/networking/service/): gossip blocks and votes, the recovery of proofs from
      blocks, the buffers, the phase and the dispatch of network events.
      SyncTheorems.v has its invariant [service_inv], the request/response client as the
      network of backfill and the runs of the service.
    - GossipRpc.v (node/networking/gossipsub/rpc.py): the protobuf codec of gossipsub;
      GossipState.v (message.py, mcache.py, mesh.py, parameters.py): message ids, the
      message and seen caches, meshes and fanouts; Gossipsub.v (behavior.py): the
      behavior with its handlers, heartbeat and framing, over the class [Environment]
      of the clock and the random choices.  GossipRpcCorrect.v, GossipStateCorrect.v and
      GossipsubTheorems.v (the invariant and the theorems).
      GossipTopic.v (topic.py): the names of topics, with int() and str().
    - Identity.v (node/networking/transport/peer_id.py, identity/, quic/tls.py): peer ids,
      identity keys and the certificates that bind them to a TLS key, over the class
      [Secp256k1] of the curve.  Multistream.v (quic/stream_adapter.py): buffered reads and
      the negotiation of a protocol.  Quic.v (quic/stream.py, connection.py): streams,
      connections, the handshake and dialing; aioquic is an arbitrary source of events.
      The proofs about the first two follow their models; QuicCorrect.v.
    - Rlp.v (node/networking/enr/rlp.py) with its theorem, Enr.v (enr.py, keys.py, eth2.py and
      the resolution of boot nodes in cli/bootstrap.py), over the class [EnrCrypto] of Keccak
      and the curve, with their proofs.
    - EventSource.v (node/networking/client/event_source/, service/service.py): the tasks of
      the event source, one step each up to where they wait ([task_step]), what happens to it
      from outside ([source_step]), and the network service with
      its publishing.  EventSourceCorrect.v: the invariant, and a block from one node to
      another.
    - Storage.v (node/storage/): the tables of the database and every statement on them,
      with transactions, over the class [Disk] that says which statements fail.
      StorageCorrect.v: the abstract snapshot it refines.
    - ChainService.v (node/chain/): the slot clock and the service that ticks the store;
      the class [World] has the readings of the clock and the events of other tasks.
      SyncSteps.v refines the sync service to few kinds of steps; ChainCorrect.v.
    - ValidatorService.v (node/validator/): the registry of keys, signing, the duty gate
      and the duty loop, over the class [Signer] of the signature scheme and [Tasks] of
      the clock and the work of other tasks.  ValidatorCorrect.v instantiates [Signer]
      with the modelled scheme.
    - Node.v (node/node.py, genesis.py): the boot sequence and the callbacks of the
      validator service.  Persistence.v: what the database holds after the imports of the
      sync service; NodeCorrect.v: a run, and the boot after it.
    - Api.v (node/api/): the HTTP handlers, routes and their wiring.
      CheckpointSync.v (node/sync/checkpoint_sync.py, node/anchor.py): the anchor of a boot
      from genesis or from another node.  CheckpointCorrect.v: what the API answers, and a
      boot from it.
      Run.v (cli/run.py, bootstrap.py, args.py, forks/registry.py): from the arguments of the
      command line to a node that serves; RunCorrect.v.
    - Samples.v and SampleStores.v: concrete chains and stores, computed by the
      model, on which the witnesses evaluate.

    Components call each other as in the source: a handler of the store calls
    [verify_signatures] and [state_transition], which hash containers through
    [hash_tree_root], which serializes through the SSZ classes; the sync service calls
    the handlers of the store and, through the class [Network], the client.

    ** How the code is modelled

    A Python function that may raise returns [result A]: [Ok v] or [Err e].  Every
    exception the modelled lines can raise is there, those of the interpreter
    (IndexError, KeyError, AssertionError) included, so that "raises only
    rejections" is a theorem and not a convention.  An unsigned integer is a [Z]
    that re-enters its class through the range check [uint_new]: overflow raises.
    Containers are immutable in the source (model_copy), so a record per version is
    faithful.  A dict keeps its order, since the choice among votes of equal slot
    depends on it; where the code iterates over a set, a theorem shows that the
    order does not matter ([select_proofs_order_independent]).

    External code is the class [Prover] (Proofs.v), the functions of the aggregation
    prover, which may accept, refuse or raise; with a signature verifier it is the
    class [Crypto].  The theorems hold for every instance; the witnesses use
    [sample_crypto] and the XMSS verifier.  The randomness of the operating system is
    a stream of draws.  A network stream is the list of chunks its reads return, and
    the answer of a peer an arbitrary such list; what the server writes is the list
    of its writes.  A timeout is a connection that raises.  The requests of backfill go
    to a class [Network] whose answers are arbitrary functions of the request's number,
    as are the outcomes of the random generator; the iteration order of a set is the
    class [SetOrder].  The network service awaits each event before it takes the next,
    so one event is one step and runs are sequences of events.  A batch of the database
    is, for the sync service, the list of its calls; Storage.v runs them.  Where a loop of
    a service yields, sleeps or awaits, the model runs the work of the other tasks found
    in a stream, so that theorems over every stream cover every interleaving at those
    points.  A loop without end is its first [turns] turns, for any number of them.  The
    tasks of the event source are a list from which a step runs one, so that runs are
    arbitrary interleavings; queues are recorded whole with the number of items taken.  A
    dial runs in the task of its caller, which stopping does not cancel; [start_serving]
    awaits its dials one after the other, then the listener, and starts gossipsub last.
    Closing a stream or a connection has an outcome that the caller meets where the code
    does not guard it.  The bound of a queue (4096 events in gossipsub), at which a put waits,
    and the interpreter's limit on nested calls (which RLP from its one caller cannot reach)
    are left out.
    aiohttp turns exceptions into statuses, httpx answers or raises; JSON bodies are the
    response models before they are printed.

    ** Bounds and fuel

    Loops that are not structural take fuel, and [OutOfFuel] is an error of the
    model that the theorems rule out.  process_slots and on_tick get the distance to
    the target, which each turn reduces by one; walks over the block tree get one
    more than the number of blocks, enough since parents have smaller slots; the
    selection of proofs gets the number of candidates, of which each turn removes
    one; the fixed point of block building gets the cap on distinct vote data, since
    each repeated turn accepts one more; merkleization gets the number of layers; the
    varint loops get their cap on bytes, and the loops of snappy the length of their
    input, of which each turn consumes at least one byte; so do the loops of RLP.  Draining the block cache gets
    one more than the number of cached blocks, since each further turn follows a block
    that left the cache; backfill recurses on the 512 levels of the source's own limit.
    The tick loop of the chain service gets the five intervals of a slot, since it skips
    to the last slot first.  The loop that prepares a key takes any fuel; a theorem says
    for which slots it ends, and with how much.

    ** What the theorems show

    - SSZ: decoding inverts encoding, every byte string that decodes is the unique
      encoding of its value, and decoding arbitrary bytes raises nothing but SSZ
      errors.  Merkleization with cached zero subtrees computes the root of the
      padded tree, and every valid value has a root.
    - State transition: every reachable state satisfies the invariant of the packed
      layout; a block is accepted or rejected with a documented reason, never by a
      crash; the packed vote table refines an abstract vote ledger whose steps are
      deterministic (what counts, what is added, when a target is justified and its source
      final); justified and finalized checkpoints are backed by included votes of two thirds of the
      registry; two conflicting justifications of one slot after genesis need a third of
      the registry voting for both; checkpoints never move back.
    - Fork choice: in every reachable store the blocks form a tree with the sound
      post-state of each block; the head is the LMD-GHOST head for the latest votes
      and does not depend on dict orders other than among votes of one slot; the
      safe target has two thirds of the votes at every block on its path; a vote is
      admitted exactly when it describes known blocks on one chain; no handler
      crashes.
    - Signatures: a block's proof is accepted exactly when it verifies against the
      registry's keys for the messages and slots of the block.  The int64 engine of
      Poseidon computes the permutation over the field; generated keys cover the
      requested slots, sign every slot of the window they are prepared for, and the
      signatures verify; two distinct codewords are incomparable; an honest vote is
      accepted by a store that verifies with the scheme.
    - Wire: snappy and the request/response codec invert within the documented sizes
      and refuse truncated input; arbitrary bytes raise only the codec's own error; a
      request is read back however the transport cuts it; a range request is answered
      by an honest node with the blocks it has, which the client accepts when each response
      arrives in one read and takes for a violation when one arrives in parts; and whatever
      a peer answers, the blocks accepted are a chain inside the requested range.
    - Sync: the index of the block cache is exact under eviction; a request goes to an
      available peer and every available peer can be chosen; backfill ends whatever peers
      send and releases all it took; over any events and answers the service never
      raises and keeps the invariants of the store, the cache, the peers and the
      buffers, and its phase moves only for the documented reasons.
    - Gossip: an RPC decodes to itself; over any history meshes, fanouts, caches and frames
      stay within their bounds and nothing raises; between two heartbeats a peer is sent at
      most three copies of a message, however often it asks; a message goes once to every mesh peer
      that has not declined it; a published message reaches a subscribed mesh peer as one
      event however the transport cuts the stream.
    - Network: topics, certificates and node records round trip, and RLP accepts exactly the
      texts of its items; a certificate proves the identity of its peer id (one whose
      extensions cannot be parsed stalls the handshake), and a connection is registered only under the identity proven in its handshake; both sides of a
      negotiation agree; the reads of a stream return its data; over any interleaving of its
      tasks the event source never raises, a registered peer was reported connected (and
      conversely, unless a close failed), and statuses and gossip are reported once each; a block that a node publishes reaches the sync service of a mesh peer.
    - API and boot: no request makes the server fail, apart from a body that cannot be read,
      or changes anything but one flag; a node
      that boots from another starts at its finalized checkpoint, in a store for which the
      theorems on reachable stores hold again.
    - Storage and node: the database is the abstract snapshot of the batches that
      returned, through failures and crashes; a node whose disk does not fail resumes at the head
      and the checkpoints that its last import left; the store follows the clock whatever other tasks do.
    - Validator service: a one-time key signs once per slot, under stated assumptions on
      the clock for proposals; signing ends exactly for the slots a key has left.
    - Aggregation, ticks and duties: the selection covers everyone coverable, a
      round merges all the evidence, ticks run every interval once, the block a
      proposer builds is accepted with the post-state it announced, and attesting gives a
      vote that validates or, exactly when the head's state has justified a slot past the
      target, the [AssertionError] of its sanity check, which does happen.

    The last section of DutyTheorems.v has two behaviours, on reachable stores,
    that comments of the source exclude: an aggregation round can drop a lone
    pending proof, and pruning votes can change the head.  ReqRespCorrect.v ends with two of the protocol: a response that
    spans two reads is taken for a violation, and a request without its length prefix
    is answered.  SyncTheorems.v ends with one of the sync service: blocks that backfill
    has fetched are not imported.  NodeCorrect.v shows that a resumed store cannot compute
    its head and stops the node, ValidatorCorrect.v a turn that misses its proposal.
    QuicCorrect.v shows that a half-closed stream keeps its connection from closing,
    Enr.v that a boot node given as a record is never dialed, and RunCorrect.v that a
    node run from the command line hears no aggregated vote and serves no block.

    ** What is not modelled

    Third-party code is a parameter: aioquic, the curve and Keccak, SQLite, aiohttp, httpx,
    the Prometheus client and the aggregation prover.  Of the repository itself are left out
    the metrics, which only wrap that client, and the observer callbacks and logging, which
    return nothing; the parsing of YAML, key files and the argument vector by libraries; task
    groups, signals and the life cycle of the HTTP server; pydantic schemas, JSON and repr; the
    power, inverse and division of field elements, which nothing calls.  Cost is not
    modelled. *)

From stdpp Require Export base tactics list numbers relations sorting.
From coqutil Require Export Byte Word.LittleEndianList.
From Stdlib Require Export ZArith Lia.

#[global] Open Scope Z_scope.

(** ** Exceptions

    The reasons of [RejectionReason] (errors.py), and the Python exceptions the
    modelled code can raise.  [OutOfFuel] is not an exception of the program: it
    is what a fuel-bounded loop of the model returns when its fuel runs out, and
    the theorems show where it is never returned. *)
Inductive RejectionReason :=
| BLOCK_SLOT_NOT_IN_FUTURE
| BLOCK_OLDER_THAN_LATEST_HEADER
| BLOCK_SLOT_MISMATCH
| PARENT_ROOT_MISMATCH
| STATE_ROOT_MISMATCH
| UNKNOWN_PARENT_BLOCK
| PROPOSER_INDEX_OUT_OF_RANGE
| EMPTY_VALIDATOR_REGISTRY
| WRONG_PROPOSER
| TOO_MANY_ATTESTATION_DATA
| DUPLICATE_ATTESTATION_DATA
| EMPTY_AGGREGATION_BITS
| UNKNOWN_SOURCE_BLOCK
| UNKNOWN_TARGET_BLOCK
| UNKNOWN_HEAD_BLOCK
| SOURCE_AFTER_TARGET
| HEAD_OLDER_THAN_TARGET
| SOURCE_SLOT_MISMATCH
| TARGET_SLOT_MISMATCH
| HEAD_SLOT_MISMATCH
| SOURCE_NOT_ANCESTOR_OF_TARGET
| TARGET_NOT_ANCESTOR_OF_HEAD
| ATTESTATION_TOO_FAR_IN_FUTURE
| ATTESTATION_SLOT_BEFORE_HEAD
| VALIDATOR_NOT_IN_STATE
| VALIDATOR_INDEX_OUT_OF_RANGE
| JUSTIFIED_SLOT_OUT_OF_RANGE
| INVALID_SIGNATURE
| INVALID_BLOCK_PROOF
| ANCHOR_STATE_ROOT_MISMATCH
| DECODE_ERROR.

Inductive exn :=
| SpecRejectionError (reason : RejectionReason)
| AssertionError
| KeyError
| IndexError
| ValueError
| TypeError
| ZeroDivisionError
| OverflowError
| SSZTypeError
| SSZValueError
| SSZSerializationError
| AggregationError
| RuntimeError
| UnicodeError
| VarintError
| SnappyDecompressionError
| CodecError
| ProtobufDecodeError
| RLPDecodingError
| SqliteError
| StorageReadError
| StorageWriteError
| StorageCorruptionError
| ForkMismatchError
| GossipMessageError
| CheckpointSyncError
| NegotiationError
| EOFError
| QuicTransportError
| DuplicateExtension
| StopAsyncIteration
| HTTPException (status : Z)
| HTTPStatusError
| RequestError
| JSONDecodeError
| OutOfFuel.

#[export] Instance RejectionReason_eq_dec : EqDecision RejectionReason.
Proof. solve_decision. Defined.
#[export] Instance exn_eq_dec : EqDecision exn.
Proof. solve_decision. Defined.

(** ** The error monad

    A function that may raise returns a [result]; stdpp's monad notation
    [x ← m; k] threads the exceptions. *)
Inductive result (A : Type) :=
| Ok (a : A)
| Err (e : exn).
Arguments Ok {A} a.
Arguments Err {A} e.

#[export] Instance result_eq_dec `{EqDecision A} : EqDecision (result A).
Proof. solve_decision. Defined.
#[export] Instance result_ret : MRet result := fun A a => Ok a.
#[export] Instance result_bind : MBind result := fun A B f m =>
  match m with Ok a => f a | Err e => Err e end.
#[export] Instance result_fmap : FMap result := fun A B f m =>
  match m with Ok a => Ok (f a) | Err e => Err e end.

Declare Scope spec_scope.
Delimit Scope spec_scope with spec.
Notation "'check!' b 'else' e ';;' k" := (if b then k else Err e)
  (at level 100, b at level 99, e at level 99, k at level 200,
   format "'[v' check!  b  else  e ;; '/' k ']'") : spec_scope.
Notation "'reject!' r 'when' b ';;' k" := (if b then Err (SpecRejectionError r) else k)
  (at level 100, r at level 99, b at level 99, k at level 200,
   format "'[v' reject!  r  when  b ;; '/' k ']'") : spec_scope.
#[global] Open Scope spec_scope.

(** A lookup that raises [e] when it finds nothing. *)
Definition of_option {A} (e : exn) (o : option A) : result A :=
  match o with Some a => Ok a | None => Err e end.

Definition is_Ok {A} (m : result A) : bool :=
  match m with Ok _ => true | Err _ => false end.

(** Left fold in the error monad: a Python [for] loop over a list whose body
    updates a local state. *)
Fixpoint foldM {A B} (f : B -> A -> result B) (b : B) (l : list A) : result B :=
  match l with
  | [] => Ok b
  | x :: l => b' ← f b x; foldM f b' l
  end.

(** A Python [while] loop with fuel. *)
Fixpoint while {A} (fuel : nat) (cond : A -> bool) (body : A -> result A) (a : A) : result A :=
  if cond a then
    match fuel with
    | O => Err OutOfFuel
    | S fuel => a' ← body a; while fuel cond body a'
    end
  else Ok a.

(** ** Tactics and hint databases *)
Create HintDb spec discriminated.
Create HintDb bounds discriminated.

(** [unbind H] takes a hypothesis that a computation returned [Ok] apart: each
    bind becomes a value and an equation, each guard a boolean fact. *)
Ltac unbind_step H :=
  simpl in H;
  lazymatch type of H with
  | Err _ = Ok _ => discriminate H
  | Ok _ = Ok _ => injection H as H; subst
  | mbind _ ?m = Ok _ =>
      let a := fresh "a" in let E := fresh "E" in
      destruct m as [a|] eqn:E; [|discriminate H]
  | (if ?b then _ else _) = Ok _ =>
      let E := fresh "E" in destruct b eqn:E; try discriminate H
  | (match ?m with Ok _ => _ | Err _ => _ end) = Ok _ =>
      let a := fresh "a" in let E := fresh "E" in
      destruct m as [a|] eqn:E; [|discriminate H]
  | (match ?m with Some _ => _ | None => _ end) = Ok _ =>
      let E := fresh "E" in destruct m eqn:E; try discriminate H
  | (let '(_, _) := ?p in _) = Ok _ => let E := fresh "E" in destruct p eqn:E
  | of_option _ ?o = Ok _ =>
      let E := fresh "E" in destruct o eqn:E; [|discriminate H]
  end.
Ltac unbind H := repeat unbind_step H.

(** Computes the monad's own operations and nothing else. *)
Ltac mcbn := cbn [mbind result_bind of_option head hd_error].
Ltac mcbn_in H := cbn [mbind result_bind of_option head hd_error] in H.

(** Linear arithmetic with [/] and [mod] by constants. *)
Ltac div_lia := Z.to_euclidean_division_equations; lia.

(** Boolean comparisons of the code to propositions, everywhere. *)
Ltac bool_to_prop :=
  repeat match goal with
  | H : (_ =? _) = true |- _ => apply Z.eqb_eq in H
  | H : (_ =? _) = false |- _ => apply Z.eqb_neq in H
  | H : (_ <? _) = true |- _ => apply Z.ltb_lt in H
  | H : (_ <? _) = false |- _ => apply Z.ltb_ge in H
  | H : (_ <=? _) = true |- _ => apply Z.leb_le in H
  | H : (_ <=? _) = false |- _ => apply Z.leb_gt in H
  | H : _ && _ = true |- _ => apply andb_true_iff in H as [? ?]
  | H : _ || _ = false |- _ => apply orb_false_iff in H as [? ?]
  | H : negb _ = true |- _ => apply negb_true_iff in H
  | H : negb _ = false |- _ => apply negb_false_iff in H
  | H : bool_decide _ = true |- _ => apply bool_decide_eq_true in H
  | H : bool_decide _ = false |- _ => apply bool_decide_eq_false in H
  end.

(** ** The error monad: lemmas *)
Lemma bind_Ok {A B} (m : result A) (f : A -> result B) (b : B) :
  m ≫= f = Ok b <-> exists a, m = Ok a /\ f a = Ok b.
Proof.
  split.
  - destruct m as [a|e]; simpl; [eauto | discriminate].
  - by intros (a & -> & Hf).
Qed.

Lemma bind_Err {A B} (m : result A) (f : A -> result B) (e : exn) :
  m ≫= f = Err e <-> m = Err e \/ exists a, m = Ok a /\ f a = Err e.
Proof.
  destruct m as [a|e']; simpl; split.
  - eauto.
  - by intros [?|(? & [= <-] & ?)].
  - intros [= ->]; eauto.
  - by intros [[= ->]|(? & ? & ?)].
Qed.

Lemma mbind_pair_Ok {A B C} (m : result (A * B)) (f : A -> B -> result C) c :
  ('(a, b) ← m; f a b) = Ok c <-> exists a b, m = Ok (a, b) /\ f a b = Ok c.
Proof. rewrite bind_Ok. split; [intros ([a b] & ? & ?) | intros (a & b & ? & ?)]; eauto. Qed.

Lemma fmap_Ok {A B} (f : A -> B) (m : result A) b :
  f <$> m = Ok b <-> exists a, m = Ok a /\ b = f a.
Proof. destruct m; simpl; split; naive_solver. Qed.

Lemma fmap_Err {A B} (f : A -> B) (m : result A) e : f <$> m = Err e <-> m = Err e.
Proof. destruct m; simpl; split; naive_solver. Qed.

Lemma of_option_Ok {A} (e : exn) (o : option A) a :
  of_option e o = Ok a <-> o = Some a.
Proof. destruct o; simpl; naive_solver. Qed.

Lemma is_Ok_exists {A} (m : result A) : is_Ok m = true <-> exists a, m = Ok a.
Proof. destruct m; naive_solver. Qed.

Lemma mapM_Ok {A B} (f : A -> result B) (l : list A) (k : list B) :
  mapM f l = Ok k <-> Forall2 (fun x y => f x = Ok y) l k.
Proof.
  revert k. induction l as [|x l IH]; intros k; simpl.
  - split; [intros [= <-]; constructor | by inversion 1].
  - split.
    + intros H. apply bind_Ok in H as (y & Hy & H). apply bind_Ok in H as (k' & Hk & [= <-]).
      constructor; [done | by apply IH].
    + inversion 1 as [|? y ? k' Hy Hk]; subst. rewrite Hy. simpl.
      by rewrite (proj2 (IH k') Hk).
Qed.

Lemma mapM_Ok_length {A B} (f : A -> result B) (l : list A) (k : list B) :
  mapM f l = Ok k -> length k = length l.
Proof. intros H%mapM_Ok. symmetry. by eapply Forall2_length. Qed.

(** Loop rule: an invariant preserved by the body holds of the result. *)
Lemma foldM_invariant {A B} (P : B -> Prop) (f : B -> A -> result B) l b b' :
  (forall b x b', x ∈ l -> P b -> f b x = Ok b' -> P b') ->
  P b -> foldM f b l = Ok b' -> P b'.
Proof.
  revert b. induction l as [|x l IH]; intros b Hstep Hb H; simpl in H.
  - by injection H as <-.
  - apply bind_Ok in H as (b1 & H1 & H).
    eapply (IH b1); [|by eapply Hstep; [left|..]|done].
    intros ??? Hin. by apply Hstep; right.
Qed.

Lemma foldM_app {A B} (f : B -> A -> result B) l1 l2 b :
  foldM f b (l1 ++ l2) = b' ← foldM f b l1; foldM f b' l2.
Proof.
  revert b. induction l1 as [|x l1 IH]; intros b; simpl; [done|].
  destruct (f b x); simpl; [apply IH | done].
Qed.

(** Loop rules for [while]: partial correctness and termination by a measure. *)
Lemma while_Ok {A} (P : A -> Prop) (cond : A -> bool) (body : A -> result A) fuel a b :
  (forall a b, P a -> cond a = true -> body a = Ok b -> P b) ->
  P a -> while fuel cond body a = Ok b -> P b /\ cond b = false.
Proof.
  intros Hstep. revert a. induction fuel as [|fuel IH]; intros a Ha H; simpl in H;
    destruct (cond a) eqn:Hc; try discriminate H; try (by injection H as <-).
  apply bind_Ok in H as (a' & Hb & H). eapply IH; [|done]. by eapply Hstep.
Qed.

Lemma while_terminates {A} (P : A -> Prop) (m : A -> nat) (cond : A -> bool)
    (body : A -> result A) fuel a :
  (forall a, P a -> cond a = true -> exists b, body a = Ok b /\ P b /\ (m b < m a)%nat) ->
  P a -> (m a <= fuel)%nat ->
  exists b, while fuel cond body a = Ok b /\ P b /\ cond b = false.
Proof.
  intros Hstep. revert a. induction fuel as [|fuel IH]; intros a Ha Hm; simpl.
  - destruct (cond a) eqn:Hc; [|eauto].
    destruct (Hstep a Ha Hc) as (b & _ & _ & Hlt). lia.
  - destruct (cond a) eqn:Hc; [|eauto].
    destruct (Hstep a Ha Hc) as (b & -> & Hb & Hlt). simpl. apply IH; [done|lia].
Qed.

(** The same for a body that may raise. *)
Lemma while_cases {A} (P : A -> Prop) (E : exn -> Prop) (m : A -> nat) (cond : A -> bool)
    (body : A -> result A) fuel a :
  (forall a, P a -> cond a = true ->
     (exists b, body a = Ok b /\ P b /\ (m b < m a)%nat) \/ (exists e, body a = Err e /\ E e)) ->
  P a -> (m a < fuel)%nat ->
  (exists b, while fuel cond body a = Ok b /\ P b /\ cond b = false) \/
  (exists e, while fuel cond body a = Err e /\ E e).
Proof.
  intros Hstep. revert a. induction fuel as [|fuel IH]; intros a Ha Hm; [lia|]. cbn [while].
  destruct (cond a) eqn:Hc; [|left; eauto].
  destruct (Hstep a Ha Hc) as [(b & -> & Hb & Hlt)|(e & -> & He)]; cbn [mbind result_bind]; [|right; eauto].
  apply IH; [done|lia].
Qed.

(** ** Bytes

    [bytes] is Python's [bytes]; [Bytes32] and friends are the same type with a
    length pinned by their class, checked where the code checks it.  Python
    compares byte strings lexicographically. *)
Abbreviation bytes := (list Byte.byte).
Abbreviation Bytes32 := (list Byte.byte).

#[export] Instance byte_eq_dec : EqDecision Byte.byte := Byte.byte_eq_dec.

Definition ZERO_HASH : Bytes32 := repeat Byte.x00 32.

Fixpoint bytes_compare (a b : bytes) : comparison :=
  match a, b with
  | [], [] => Eq
  | [], _ :: _ => Lt
  | _ :: _, [] => Gt
  | x :: a, y :: b =>
      match byte.unsigned x ?= byte.unsigned y with
      | Eq => bytes_compare a b
      | c => c
      end
  end.

Definition bytes_leb (a b : bytes) : bool :=
  match bytes_compare a b with Gt => false | _ => true end.
Definition bytes_ltb (a b : bytes) : bool :=
  match bytes_compare a b with Lt => true | _ => false end.

Lemma bytes_compare_eq a b : bytes_compare a b = Eq <-> a = b.
Proof.
  revert b. induction a as [|x a IH]; intros [|y b]; simpl; try done.
  destruct (Z.compare_spec (byte.unsigned x) (byte.unsigned y)) as [E|E|E].
  - apply byte.unsigned_inj in E as ->. rewrite IH. naive_solver.
  - split; [done|]. intros [= -> ->]. lia.
  - split; [done|]. intros [= -> ->]. lia.
Qed.

Lemma bytes_compare_antisym a b : bytes_compare b a = CompOpp (bytes_compare a b).
Proof.
  revert b. induction a as [|x a IH]; intros [|y b]; simpl; try done.
  rewrite (Z.compare_antisym (byte.unsigned x) (byte.unsigned y)).
  destruct (byte.unsigned x ?= byte.unsigned y); simpl; auto.
Qed.

Lemma bytes_compare_trans c1 a b c :
  bytes_compare a b = c1 -> bytes_compare b c = c1 -> bytes_compare a c = c1.
Proof.
  revert b c. induction a as [|x a IH]; intros [|y b] [|z c]; simpl; try congruence.
  intros H1 H2.
  destruct (Z.compare_spec (byte.unsigned x) (byte.unsigned y)) as [E1|E1|E1],
           (Z.compare_spec (byte.unsigned y) (byte.unsigned z)) as [E2|E2|E2];
    try (rewrite E1, E2, Z.compare_refl; by eapply IH); try congruence.
  - by rewrite E1, (proj2 (Z.compare_lt_iff _ _) E2).
  - by rewrite E1, (proj2 (Z.compare_gt_iff _ _) E2).
  - by rewrite <- E2, (proj2 (Z.compare_lt_iff _ _) E1).
  - by rewrite (proj2 (Z.compare_lt_iff _ _) (Z.lt_trans _ _ _ E1 E2)).
  - by rewrite <- E2, (proj2 (Z.compare_gt_iff _ _) E1).
  - by rewrite (proj2 (Z.compare_gt_iff _ _) (Z.lt_trans _ _ _ E2 E1)).
Qed.

Lemma bytes_leb_total a b : bytes_leb a b = true \/ bytes_leb b a = true.
Proof.
  unfold bytes_leb. rewrite (bytes_compare_antisym a b).
  destruct (bytes_compare a b); simpl; auto.
Qed.

Lemma bytes_leb_antisym a b : bytes_leb a b = true -> bytes_leb b a = true -> a = b.
Proof.
  unfold bytes_leb. rewrite (bytes_compare_antisym a b).
  destruct (bytes_compare a b) eqn:E; simpl; try done.
  intros _ _. by apply bytes_compare_eq.
Qed.

Lemma bytes_leb_trans a b c :
  bytes_leb a b = true -> bytes_leb b c = true -> bytes_leb a c = true.
Proof.
  unfold bytes_leb.
  destruct (bytes_compare a b) eqn:E1; [|destruct (bytes_compare b c) eqn:E2|done]; try done.
  - apply bytes_compare_eq in E1 as ->. done.
  - apply bytes_compare_eq in E2 as ->. by rewrite E1.
  - by rewrite (bytes_compare_trans _ _ _ _ E1 E2).
Qed.

(** ** Lists and integers *)
Lemma Zlength_nonneg {A} (l : list A) : 0 <= Z.of_nat (length l).
Proof. lia. Qed.
#[export] Hint Resolve Zlength_nonneg : bounds.

Lemma count_true_le (l : list bool) :
  (length (filter (fun b => b = true) l) <= length l)%nat.
Proof. apply length_filter. Qed.

Lemma mjoin_cons {A} (x : list A) l : mjoin (x :: l) = x ++ mjoin l.
Proof. done. Qed.

Lemma mapM_total {A B} (f : A -> result B) l :
  (forall x, x ∈ l -> is_Ok (f x) = true) -> exists k, mapM f l = Ok k.
Proof.
  induction l as [|x l IH]; intros H; [by exists []|]. cbn [mapM].
  destruct (proj1 (is_Ok_exists _) (H x ltac:(left))) as [y ->]. mcbn.
  destruct IH as [k ->]; [intros; apply H; by right|]. eauto.
Qed.

(** A shifted value and a shorter one do not overlap. *)
Lemma lor_shiftl a b k : 0 <= k -> 0 <= b < 2 ^ k -> Z.lor (Z.shiftl a k) b = a * 2 ^ k + b.
Proof.
  intros Hk Hb. rewrite <- Z.shiftl_mul_pow2 by done. symmetry.
  rewrite Z.add_nocarry_lxor; [apply Z.lxor_lor|]; apply Z.bits_inj'; intros n Hn;
    rewrite Z.land_spec, Z.bits_0, Z.shiftl_spec by done.
  all: destruct (Z.ltb_spec n k); [by rewrite Z.testbit_neg_r by lia|].
  all: rewrite <- (Z.mod_small b (2 ^ k)) by done; rewrite Z.mod_pow2_bits_high by lia; apply andb_false_r.
Qed.

(** Entries that a filter keeps once are at one position. *)
Lemma NoDup_filter_lookup {A} (P : A -> Prop) `{!forall x, Decision (P x)} (l : list A) p q x :
  NoDup (filter P l) -> P x -> l !! p = Some x -> l !! q = Some x -> p = q.
Proof.
  intros Hnd HP. revert p q. induction l as [|y l IH]; intros p q Hp Hq; [done|].
  assert (y = x -> x ∉ l) as Hy.
  { intros -> Hin. rewrite filter_cons_True in Hnd by done. apply NoDup_cons in Hnd as [Hn _]. apply Hn, list_elem_of_filter. by split. }
  destruct p as [|p], q as [|q]; cbn in Hp, Hq; [done|..].
  - injection Hp as Hp. destruct (Hy Hp). by eapply list_elem_of_lookup_2.
  - injection Hq as Hq. destruct (Hy Hq). by eapply list_elem_of_lookup_2.
  - f_equal. apply IH; [|done..]. rewrite filter_cons in Hnd. case_decide; [by apply NoDup_cons in Hnd as []|done].
Qed.
