(* ===== verification/Pydict.v ===== *)
(** * Python's [dict] and [set], and [itertools]

    A Python [dict] iterates in insertion order, and assigning to a present key
    keeps its position; the store's vote pools rely on that order (fork choice
    breaks equal-slot ties by it).  A [dict] is modelled as the association list
    of its items in that order, a [set] as a duplicate-free list.  A set's
    iteration order is not specified by Python: the theorems of the client files
    that matter are stated up to permutation of these lists. *)

From S2P Require Import Prelude.

Abbreviation dict K V := (list (K * V)).

Section Dict.
Context {K V : Type} `{EqDecision K}.
Implicit Types (d : dict K V) (k : K) (v : V).

(** [d.get(k)] *)
Fixpoint dget (k : K) (d : dict K V) : option V :=
  match d with
  | [] => None
  | (k', v) :: d => if decide (k = k') then Some v else dget k d
  end.

(** [k in d] *)
Definition dmem k d : bool := bool_decide (is_Some (dget k d)).

(** [d[k]], raising [KeyError] *)
Definition dgetitem k d : result V := of_option KeyError (dget k d).

(** [d[k] = v], also [d | {k: v}] *)
Fixpoint dset (k : K) (v : V) (d : dict K V) : dict K V :=
  match d with
  | [] => [(k, v)]
  | (k', v') :: d => if decide (k = k') then (k', v) :: d else (k', v') :: dset k v d
  end.

(** [del d[k]], for a present key *)
Definition ddel k d : dict K V := filter (fun p => p.1 <> k) d.

Definition dkeys d : list K := d.*1.
Definition dvalues d : list V := d.*2.

(** [d1 | d2]: the items of [d2] assigned in order into [d1] *)
Definition dunion (d1 d2 : dict K V) : dict K V :=
  foldl (fun d p => dset p.1 p.2 d) d1 d2.

(** A dict display or comprehension over (key, value) pairs. *)
Definition dict_of (l : list (K * V)) : dict K V := dunion [] l.

Definition dict_wf d : Prop := NoDup (dkeys d).

(** A comprehension [{k: v for k, v in d.items() if p k}]. *)
Definition dfilter (p : K -> bool) d : dict K V := filter (fun kv => p kv.1 = true) d.

Lemma dget_dset k k' v d :
  dget k (dset k' v d) = if decide (k = k') then Some v else dget k d.
Proof.
  induction d as [|[k1 v1] d IH]; simpl; [by repeat case_decide|].
  destruct (decide (k' = k1)) as [->|Hne]; simpl; [by repeat case_decide|].
  destruct (decide (k = k1)) as [->|]; [by rewrite decide_False|]. apply IH.
Qed.

Lemma dget_dset_eq k v d : dget k (dset k v d) = Some v.
Proof. by rewrite dget_dset, decide_True. Qed.

Lemma dget_dset_ne k k' v d : k <> k' -> dget k (dset k' v d) = dget k d.
Proof. intros. by rewrite dget_dset, decide_False. Qed.

Lemma dget_In k v d : dget k d = Some v -> (k, v) ∈ d.
Proof.
  induction d as [|[k1 v1] d IH]; simpl; [done|].
  case_decide as E; [intros [= ->]; subst; left | right; auto].
Qed.

Lemma dget_Some_key k v d : dget k d = Some v -> k ∈ dkeys d.
Proof. intros H%dget_In. by apply (list_elem_of_fmap_2 fst) in H. Qed.

Lemma dget_is_Some k d : is_Some (dget k d) <-> k ∈ dkeys d.
Proof.
  unfold dkeys. induction d as [|[k1 v1] d IH]; simpl.
  - split; [by intros [??] | by inversion 1].
  - rewrite elem_of_cons. case_decide; [naive_solver|]. rewrite IH. naive_solver.
Qed.

Lemma dget_None k d : dget k d = None <-> k ∉ dkeys d.
Proof. rewrite <- dget_is_Some, eq_None_not_Some. done. Qed.

Lemma dmem_true k d : dmem k d = true <-> is_Some (dget k d).
Proof. apply bool_decide_eq_true. Qed.

Lemma dmem_false k d : dmem k d = false <-> dget k d = None.
Proof. unfold dmem. rewrite bool_decide_eq_false, eq_None_not_Some. done. Qed.

Lemma In_dget k v d : dict_wf d -> (k, v) ∈ d -> dget k d = Some v.
Proof.
  unfold dict_wf, dkeys. induction d as [|[k1 v1] d IH]; simpl; [by inversion 2|].
  intros [Hn Hd]%NoDup_cons [E|Hin]%elem_of_cons.
  - injection E as -> ->. by rewrite decide_True.
  - rewrite decide_False; [by apply IH|]. intros ->. apply Hn.
    by apply (list_elem_of_fmap_2 fst) in Hin.
Qed.

Lemma dkeys_dset_in k v d : k ∈ dkeys d -> dkeys (dset k v d) = dkeys d.
Proof.
  unfold dkeys. induction d as [|[k1 v1] d IH]; simpl; [by inversion 1|].
  rewrite elem_of_cons. case_decide as E; [done|]. intros [->|H]; [done|].
  simpl. f_equal. by apply IH.
Qed.

Lemma dset_notin k v d : k ∉ dkeys d -> dset k v d = d ++ [(k, v)].
Proof.
  unfold dkeys. induction d as [|[k1 v1] d IH]; simpl; [done|].
  rewrite not_elem_of_cons. intros [Hne Hn]. rewrite decide_False by done.
  by rewrite IH.
Qed.

Lemma elem_of_dkeys_dset k k' v d : k' ∈ dkeys (dset k v d) <-> k' = k \/ k' ∈ dkeys d.
Proof.
  rewrite <- !dget_is_Some, dget_dset. case_decide; subst; [|naive_solver].
  split; eauto.
Qed.

Lemma dset_wf k v d : dict_wf d -> dict_wf (dset k v d).
Proof.
  unfold dict_wf. intros Hd. destruct (decide (k ∈ dkeys d)) as [Hin|Hn].
  - by rewrite dkeys_dset_in.
  - rewrite dset_notin by done. unfold dkeys. rewrite fmap_app. simpl.
    apply NoDup_app. split_and!; [done| |apply NoDup_singleton].
    intros x Hx ->%list_elem_of_singleton. done.
Qed.

Lemma dfilter_wf p d : dict_wf d -> dict_wf (dfilter p d).
Proof.
  unfold dict_wf, dkeys, dfilter. intros Hd. induction d as [|[k v] d IH]; [done|].
  simpl in Hd. apply NoDup_cons in Hd as [Hn Hd]. rewrite filter_cons.
  case_decide; simpl; [|by apply IH]. constructor; [|by apply IH].
  intros Hin. apply Hn. apply list_elem_of_fmap in Hin as ([k' v'] & -> & Hin).
  apply list_elem_of_filter in Hin as [_ Hin]. by apply (list_elem_of_fmap_2 fst) in Hin.
Qed.

Lemma dget_dfilter p k d : dget k (dfilter p d) = if p k then dget k d else None.
Proof.
  unfold dfilter. induction d as [|[k1 v1] d IH]; simpl; [by destruct (p k)|].
  rewrite filter_cons; simpl. destruct (decide (p k1 = true)) as [Hp|Hp]; simpl.
  - case_decide as E; [subst; by rewrite Hp|]. apply IH.
  - rewrite IH. case_decide as E; [subst; by destruct (p k1)|]. done.
Qed.

Lemma ddel_dfilter k d : ddel k d = dfilter (fun k' => negb (bool_decide (k' = k))) d.
Proof.
  apply list_filter_iff. intros [k' v]. simpl. by rewrite negb_true_iff, bool_decide_eq_false.
Qed.

Lemma ddel_wf k d : dict_wf d -> dict_wf (ddel k d).
Proof. rewrite ddel_dfilter. apply dfilter_wf. Qed.

Lemma dget_ddel k k' d : dget k (ddel k' d) = if decide (k = k') then None else dget k d.
Proof.
  rewrite ddel_dfilter, dget_dfilter. case_bool_decide; by case_decide.
Qed.

Lemma dunion_wf d1 d2 : dict_wf d1 -> dict_wf (dunion d1 d2).
Proof.
  unfold dunion. revert d1. induction d2 as [|[k v] d2 IH]; intros d1 H1; simpl; [done|].
  apply IH. by apply dset_wf.
Qed.

Lemma dict_of_wf l : dict_wf (dict_of l).
Proof. apply dunion_wf. constructor. Qed.

Lemma elem_of_dkeys_dunion k d1 d2 :
  k ∈ dkeys (dunion d1 d2) <-> k ∈ dkeys d1 \/ k ∈ dkeys d2.
Proof.
  unfold dunion. revert d1. induction d2 as [|[k' v] d2 IH]; intros d1; simpl.
  - unfold dkeys; simpl. rewrite elem_of_nil. naive_solver.
  - rewrite IH, elem_of_dkeys_dset. unfold dkeys; simpl. rewrite elem_of_cons. naive_solver.
Qed.

Lemma dget_dunion k d1 d2 : dict_wf d2 ->
  dget k (dunion d1 d2) = match dget k d2 with Some v => Some v | None => dget k d1 end.
Proof.
  unfold dunion, dict_wf, dkeys. revert d1.
  induction d2 as [|[k' v] d2 IH]; intros d1 Hd; simpl; [done|].
  simpl in Hd. apply NoDup_cons in Hd as [Hn Hd]. rewrite (IH _ Hd), dget_dset.
  case_decide as E; [subst|done]. by rewrite (proj2 (dget_None k' d2)).
Qed.

Lemma dget_dunion_notin k d1 d2 : k ∉ dkeys d2 -> dget k (dunion d1 d2) = dget k d1.
Proof.
  unfold dunion, dkeys. revert d1. induction d2 as [|[k' v] d2 IH]; intros d1; simpl; [done|].
  intros [Hne Hn]%not_elem_of_cons. rewrite IH by done. by rewrite dget_dset, decide_False.
Qed.

Lemma dict_of_keys k l : k ∈ dkeys (dict_of l) <-> k ∈ l.*1.
Proof.
  unfold dict_of. rewrite elem_of_dkeys_dunion. unfold dkeys; simpl.
  rewrite elem_of_nil. naive_solver.
Qed.

Lemma dget_dunion_In k v d1 d2 :
  dget k (dunion d1 d2) = Some v -> dget k d1 = Some v \/ (k, v) ∈ d2.
Proof.
  unfold dunion. revert d1. induction d2 as [|[k' v'] d2 IH]; intros d1; simpl; [auto|].
  intros [H|H]%IH; [|right; by right]. rewrite dget_dset in H. case_decide; [|auto].
  injection H as ->. subst. right. left.
Qed.

Lemma dget_dict_of_In k v l : dget k (dict_of l) = Some v -> (k, v) ∈ l.
Proof. intros [H|H]%dget_dunion_In; done. Qed.

Lemma dict_of_NoDup l : NoDup l.*1 -> dict_of l = l.
Proof.
  unfold dict_of, dunion. intros H. change l with ([] ++ l) at 2.
  assert (forall d, NoDup (dkeys d ++ l.*1) -> foldl (fun d p => dset p.1 p.2 d) d l = d ++ l) as Hd.
  { clear H. induction l as [|[k v] l IH]; intros d Hd; simpl; [by rewrite app_nil_r|].
    simpl in Hd. assert (k ∉ dkeys d) as Hk.
    { intros Hin. apply NoDup_app in Hd as (_ & Hd & _). apply (Hd k Hin). left. }
    rewrite dset_notin by done. rewrite IH.
    - by rewrite <- app_assoc.
    - unfold dkeys. rewrite fmap_app, <- app_assoc. done. }
  by apply Hd.
Qed.

Lemma elem_of_dkeys_dfilter p k d : k ∈ dkeys (dfilter p d) <-> k ∈ dkeys d /\ p k = true.
Proof.
  rewrite <- !dget_is_Some, dget_dfilter. destruct (p k); [naive_solver|].
  split; [by intros [? ?]|naive_solver].
Qed.

Lemma elem_of_dkeys_ddel k k' d : k ∈ dkeys (ddel k' d) <-> k ∈ dkeys d /\ k <> k'.
Proof.
  rewrite ddel_dfilter, elem_of_dkeys_dfilter, negb_true_iff, bool_decide_eq_false. done.
Qed.

End Dict.
#[global] Typeclasses Opaque dict_wf.

(** ** Sets *)
Section PySet.
Context {A : Type} `{EqDecision A}.
Implicit Types (s : list A) (x : A).

(** [s | {x}] *)
Definition sadd x s : list A := if decide (x ∈ s) then s else s ++ [x].
(** [s1 | s2] *)
Definition sunion (s1 s2 : list A) : list A := foldl (fun s x => sadd x s) s1 s2.
(** [s1 - s2] *)
Definition sdiff (s1 s2 : list A) : list A := filter (fun x => x ∉ s2) s1.
(** [s.discard(x)] *)
Definition sdiscard x s : list A := filter (fun y => y <> x) s.
(** [set(l)], also a set comprehension *)
Definition set_of (l : list A) : list A := sunion [] l.

Lemma elem_of_sadd x y s : y ∈ sadd x s <-> y = x \/ y ∈ s.
Proof.
  unfold sadd. case_decide; [naive_solver|].
  rewrite elem_of_app, list_elem_of_singleton. naive_solver.
Qed.

Lemma NoDup_sadd x s : NoDup s -> NoDup (sadd x s).
Proof.
  unfold sadd. case_decide; [done|]. intros Hs. apply NoDup_app.
  split_and!; [done| |apply NoDup_singleton]. by intros y ? ->%list_elem_of_singleton.
Qed.

Lemma elem_of_sunion y s1 s2 : y ∈ sunion s1 s2 <-> y ∈ s1 \/ y ∈ s2.
Proof.
  unfold sunion. revert s1. induction s2 as [|x s2 IH]; intros s1; simpl.
  - rewrite elem_of_nil. naive_solver.
  - rewrite IH, elem_of_sadd, elem_of_cons. naive_solver.
Qed.

Lemma NoDup_sunion s1 s2 : NoDup s1 -> NoDup (sunion s1 s2).
Proof.
  unfold sunion. revert s1. induction s2 as [|x s2 IH]; intros s1 H; simpl; [done|].
  apply IH. by apply NoDup_sadd.
Qed.

Lemma elem_of_set_of y l : y ∈ set_of l <-> y ∈ l.
Proof. unfold set_of. rewrite elem_of_sunion, elem_of_nil. naive_solver. Qed.

Lemma NoDup_set_of l : NoDup (set_of l).
Proof. apply NoDup_sunion. constructor. Qed.

Lemma elem_of_sdiff y s1 s2 : y ∈ sdiff s1 s2 <-> y ∈ s1 /\ y ∉ s2.
Proof. unfold sdiff. rewrite list_elem_of_filter. naive_solver. Qed.

Lemma NoDup_sdiff s1 s2 : NoDup s1 -> NoDup (sdiff s1 s2).
Proof. apply NoDup_filter. Qed.

Lemma elem_of_sdiscard x y s : y ∈ sdiscard x s <-> y ∈ s /\ y <> x.
Proof. unfold sdiscard. rewrite list_elem_of_filter. tauto. Qed.

Lemma NoDup_sdiscard x s : NoDup s -> NoDup (sdiscard x s).
Proof. apply NoDup_filter. Qed.

(** A list with as many distinct elements as elements has no duplicate. *)
Lemma set_of_length_le l : (length (set_of l) <= length l)%nat.
Proof.
  apply submseteq_length, NoDup_submseteq; [apply NoDup_set_of|].
  intros x. by rewrite elem_of_set_of.
Qed.

Lemma set_of_length_NoDup l : length (set_of l) = length l <-> NoDup l.
Proof.
  split.
  - intros H. assert (set_of l ≡ₚ l) as <-; [|apply NoDup_set_of].
    apply submseteq_length_Permutation; [|lia].
    apply NoDup_submseteq; [apply NoDup_set_of|]. intros x. by rewrite elem_of_set_of.
  - intros H. apply Permutation_length, NoDup_Permutation; [apply NoDup_set_of|done|].
    intros x. apply elem_of_set_of.
Qed.
End PySet.

(** An order in which sets of byte strings are iterated *)
Class SetOrder := {
  set_iter : list bytes -> list bytes;
  set_iter_perm l : set_iter l ≡ₚ l
}.
Definition insertion_order : SetOrder := {| set_iter := fun l => l; set_iter_perm := fun l => reflexivity l |}.

(** ** Iteration *)

(** [itertools.batched(l, n)] for [n >= 1] *)
Fixpoint batched_from {A} (fuel : nat) (n : nat) (l : list A) : list (list A) :=
  match fuel, l with
  | S fuel, _ :: _ => take n l :: batched_from fuel n (drop n l)
  | _, _ => []
  end.
Definition batched {A} (l : list A) (n : Z) : result (list (list A)) :=
  check! 1 <=? n else ValueError;;
  Ok (batched_from (length l) (Z.to_nat n) l).

(** [zip(l, k, strict=True)] *)
Definition zip_strict {A B} (l : list A) (k : list B) : result (list (A * B)) :=
  check! (length l =? length k)%nat else ValueError;; Ok (combine l k).

(** Whole batches of [n]. *)
Lemma batched_from_spec {A} (k n : nat) (l : list A) fuel :
  (0 < n)%nat -> length l = (k * n)%nat -> (k <= fuel)%nat ->
  length (batched_from fuel n l) = k /\ Forall (fun c => length c = n) (batched_from fuel n l) /\
  mjoin (batched_from fuel n l) = l.
Proof.
  intros Hn. revert fuel l. induction k as [|k IH]; intros fuel l Hl Hf.
  - destruct l; [|done]. by destruct fuel.
  - destruct fuel as [|fuel]; [lia|]. destruct l as [|x l]; [simpl in Hl; lia|].
    cbn [batched_from].
    destruct (IH fuel (drop n (x :: l))) as (H1 & H2 & H3); [rewrite length_drop; lia|lia|].
    split; [simpl; lia|]. split.
    + constructor; [|done]. rewrite length_take. lia.
    + rewrite mjoin_cons, H3. apply take_drop.
Qed.

(** Every batch has at most [n] elements, all from the list. *)
Lemma batched_from_Forall {A} (Q : list A -> Prop) (R : A -> Prop) fuel n (l : list A) :
  Forall R l -> (forall c, Forall R c -> (length c <= n)%nat -> Q c) ->
  Forall Q (batched_from fuel n l).
Proof.
  intros Hl HQ. revert l Hl. induction fuel as [|fuel IH]; intros [|x l] Hl; cbn [batched_from]; try constructor.
  - apply HQ; [by apply Forall_take|]. rewrite length_take. lia.
  - apply IH. by apply Forall_drop.
Qed.
