(* ===== verification/Uint.v ===== *)
(** * Fixed-width unsigned integers and booleans (spec/ssz/uint.py, boolean.py)

    A [BaseUint] subclass of width [bits] is a [Z] together with that width: each
    operation computes on Python's unbounded integers and re-enters the class
    through its range-checking constructor [uint_new], so overflow and underflow
    raise instead of wrapping.  Mixing two classes ([TypeError] in the source) is
    ruled out by passing one [bits] to both operands. *)

From S2P Require Import Prelude.

Abbreviation Zlen l := (Z.of_nat (length l)).

(** ** Python integers and bytes *)

(** [int.to_bytes(n, "little")] *)
Definition to_bytes_le (n : Z) (z : Z) : result bytes :=
  check! (0 <=? z) && (z <? 2 ^ (8 * n)) else OverflowError;;
  Ok (le_split (Z.to_nat n) z).

(** [int.from_bytes(data, "little")] *)
Definition from_bytes_le (data : bytes) : Z := le_combine data.

(** [int.bit_length()], of a non-negative integer *)
Definition bit_length (z : Z) : Z := if z =? 0 then 0 else Z.log2 z + 1.

(** ** BaseUint *)
Definition max_value (bits : Z) : Z := 2 ^ bits - 1.

(** [BaseUint.__new__] *)
Definition uint_new (bits z : Z) : result Z :=
  check! (0 <=? z) && (z <=? max_value bits) else SSZValueError;; Ok z.

Definition uint_add (bits a b : Z) : result Z := uint_new bits (a + b).
Definition uint_sub (bits a b : Z) : result Z := uint_new bits (a - b).
Definition uint_mul (bits a b : Z) : result Z := uint_new bits (a * b).
Definition uint_floordiv (bits a b : Z) : result Z :=
  check! negb (b =? 0) else ZeroDivisionError;; uint_new bits (a / b).
Definition uint_mod (bits a b : Z) : result Z :=
  check! negb (b =? 0) else ZeroDivisionError;; uint_new bits (a mod b).
(** [pow(a, b, m)]; a zero modulus raises [ValueError]. *)
Definition uint_pow (bits a b : Z) (m : option Z) : result Z :=
  match m with
  | None => uint_new bits (a ^ b)
  | Some m => check! negb (m =? 0) else ValueError;; uint_new bits (a ^ b mod m)
  end.
Definition uint_divmod (bits a b : Z) : result (Z * Z) :=
  check! negb (b =? 0) else ZeroDivisionError;;
  q ← uint_new bits (a / b);
  r ← uint_new bits (a mod b);
  Ok (q, r).
Definition uint_and (bits a b : Z) : result Z := uint_new bits (Z.land a b).
Definition uint_or (bits a b : Z) : result Z := uint_new bits (Z.lor a b).
Definition uint_xor (bits a b : Z) : result Z := uint_new bits (Z.lxor a b).
Definition uint_lshift (bits a b : Z) : result Z := uint_new bits (Z.shiftl a b).
Definition uint_rshift (bits a b : Z) : result Z := uint_new bits (Z.shiftr a b).

Definition uint_byte_length (bits : Z) : Z := bits / 8.

(** [BaseUint.encode_bytes] *)
Definition uint_encode_bytes (bits z : Z) : result bytes :=
  to_bytes_le (uint_byte_length bits) z.

(** [BaseUint.decode_bytes] *)
Definition uint_decode_bytes (bits : Z) (data : bytes) : result Z :=
  check! Zlen data =? uint_byte_length bits else SSZSerializationError;;
  uint_new bits (from_bytes_le data).

(** ** Boolean *)

(** [Boolean.__new__] on an integer *)
Definition boolean_new (z : Z) : result bool :=
  check! (z =? 0) || (z =? 1) else SSZValueError;; Ok (z =? 1).

(** [Boolean.encode_bytes] *)
Definition boolean_encode_bytes (b : bool) : bytes :=
  if b then [Byte.x01] else [Byte.x00].

(** [Boolean.decode_bytes] *)
Definition boolean_decode_bytes (data : bytes) : result bool :=
  match data with
  | [b] =>
      check! (byte.unsigned b =? 0) || (byte.unsigned b =? 1) else SSZSerializationError;;
      boolean_new (byte.unsigned b)
  | _ => Err SSZSerializationError
  end.

(** ** Lemmas *)
Definition in_range (bits z : Z) : Prop := 0 <= z < 2 ^ bits.

Lemma uint_new_Ok bits z z' : uint_new bits z = Ok z' <-> z' = z /\ in_range bits z.
Proof.
  unfold uint_new, in_range, max_value. split.
  - intros H. destruct (_ && _) eqn:E; [|done]. injection H as <-. bool_to_prop. lia.
  - intros [-> H]. rewrite (proj2 (andb_true_iff _ _)); [done|].
    split; apply Z.leb_le; lia.
Qed.

Lemma uint_new_in_range bits z : in_range bits z -> uint_new bits z = Ok z.
Proof. intros. by apply uint_new_Ok. Qed.

Lemma uint_new_Err bits z e : uint_new bits z = Err e -> e = SSZValueError.
Proof. unfold uint_new. destruct (_ && _); congruence. Qed.

#[export] Hint Resolve uint_new_in_range : bounds.

(** Subtraction of two in-range values fails exactly when it underflows. *)
Lemma uint_sub_Ok bits a b :
  in_range bits a -> in_range bits b -> b <= a -> uint_sub bits a b = Ok (a - b).
Proof. unfold in_range. intros. apply uint_new_in_range. unfold in_range. lia. Qed.

Lemma to_bytes_le_Ok n z bs :
  to_bytes_le n z = Ok bs <-> 0 <= z < 2 ^ (8 * n) /\ bs = le_split (Z.to_nat n) z.
Proof.
  unfold to_bytes_le. split.
  - intros H. destruct (_ && _) eqn:E; [|done]. injection H as <-. bool_to_prop. done.
  - intros [H ->]. rewrite (proj2 (andb_true_iff _ _)); [done|].
    split; [apply Z.leb_le | apply Z.ltb_lt]; lia.
Qed.

Lemma to_bytes_le_Err n z e : to_bytes_le n z = Err e -> e = OverflowError.
Proof. unfold to_bytes_le. destruct (_ && _); congruence. Qed.

Lemma to_bytes_le_length n z bs : 0 <= n -> to_bytes_le n z = Ok bs -> Zlen bs = n.
Proof. intros Hn [_ ->]%to_bytes_le_Ok. rewrite length_le_split. lia. Qed.

Lemma from_to_bytes_le n z bs : 0 <= n -> to_bytes_le n z = Ok bs -> from_bytes_le bs = z.
Proof.
  intros Hn [Hz ->]%to_bytes_le_Ok. unfold from_bytes_le. rewrite le_combine_split.
  apply Z.mod_small. by replace (Z.of_nat (Z.to_nat n) * 8) with (8 * n) by lia.
Qed.

Lemma to_from_bytes_le data : to_bytes_le (Zlen data) (from_bytes_le data) = Ok data.
Proof.
  apply to_bytes_le_Ok. split.
  - apply le_combine_bound.
  - unfold from_bytes_le. by rewrite Nat2Z.id, split_le_combine.
Qed.

Lemma from_bytes_le_range data : 0 <= from_bytes_le data < 2 ^ (8 * Zlen data).
Proof. apply le_combine_bound. Qed.
#[export] Hint Resolve from_bytes_le_range : bounds.

(** Widths of the concrete classes: a positive number of whole bytes. *)
Definition wf_bits (bits : Z) : Prop := 0 <= bits /\ bits mod 8 = 0.

Lemma wf_bits_bytes bits : wf_bits bits -> 8 * uint_byte_length bits = bits.
Proof. unfold wf_bits, uint_byte_length. intros [? H]. apply Z.div_exact in H; lia. Qed.

Lemma uint_encode_decode bits z bs :
  wf_bits bits -> uint_encode_bytes bits z = Ok bs -> uint_decode_bytes bits bs = Ok z.
Proof.
  intros Hb H. pose proof (wf_bits_bytes _ Hb) as E. destruct Hb as [Hb _].
  assert (0 <= uint_byte_length bits) as Hl by lia.
  unfold uint_encode_bytes in H. unfold uint_decode_bytes.
  rewrite (to_bytes_le_length _ _ _ Hl H), Z.eqb_refl, (from_to_bytes_le _ _ _ Hl H).
  apply to_bytes_le_Ok in H as [H _]. rewrite E in H. by apply uint_new_in_range.
Qed.

Lemma uint_decode_encode bits data z :
  uint_decode_bytes bits data = Ok z -> uint_encode_bytes bits z = Ok data.
Proof.
  unfold uint_decode_bytes. intros H. unbind H. bool_to_prop.
  apply uint_new_Ok in H as [-> _].
  unfold uint_encode_bytes. rewrite <- E. apply to_from_bytes_le.
Qed.

Lemma uint_encode_total bits z :
  wf_bits bits -> in_range bits z -> exists bs, uint_encode_bytes bits z = Ok bs.
Proof.
  intros Hb Hz. eexists. apply to_bytes_le_Ok. split; [|done].
  by rewrite (wf_bits_bytes _ Hb).
Qed.

Lemma boolean_decode_encode data b :
  boolean_decode_bytes data = Ok b -> boolean_encode_bytes b = data.
Proof.
  destruct data as [|x [|]]; simpl; try done.
  intros H. unfold boolean_new in H. unbind H.
  apply orb_true_iff in E as [E|E]; apply Z.eqb_eq in E; rewrite E; simpl.
  - f_equal. symmetry. by apply byte.unsigned_inj.
  - f_equal. symmetry. by apply byte.unsigned_inj.
Qed.
