(* ===== verification/Varint.v ===== *)
(** * Bytes on the wire: Python's [bytes] and LEB128 varints (node/networking/varint.py)

    Reading a byte string by position, building one from integers, and the varint
    codec that the snappy, request/response and gossip encodings share.  A varint
    decodes to the value it encodes, wherever it stands in a longer string. *)

From S2P Require Import Prelude Uint.

(** ** Python's bytes *)

(** [bytes([...])] and [bytearray.append]: an element outside 0..255 raises. *)
Definition byte_of (z : Z) : result Byte.byte :=
  check! (0 <=? z) && (z <? 256) else ValueError;; Ok (byte.of_Z z).
Definition bytes_of (l : list Z) : result bytes := mapM byte_of l.

(** [data[pos]], for a position that is not negative *)
Definition byte_at (data : bytes) (pos : Z) : result Z :=
  of_option IndexError (byte.unsigned <$> data !! Z.to_nat pos).

(** [data[start:stop]] for [0 <= start] and [0 <= stop] *)
Definition slice {A} (data : list A) (start stop : Z) : list A :=
  take (Z.to_nat (stop - start)) (drop (Z.to_nat start) data).

(** ** Varints *)

(** The loop of [encode_varint]: seven bits at a time, low groups first. *)
Fixpoint varint_groups (fuel : nat) (value : Z) : result bytes :=
  if value >=? 0x80 then
    match fuel with
    | O => Err OutOfFuel
    | S fuel =>
        b ← byte_of (Z.lor (Z.land value 0x7F) 0x80);
        rest ← varint_groups fuel (Z.shiftr value 7);
        Ok (b :: rest)
    end
  else b ← byte_of value; Ok [b].

(** The fuel is the cap on the bytes: a larger value was refused. *)
Definition encode_varint (value max_bytes : Z) : result bytes :=
  check! negb (value <? 0) else ValueError;;
  check! Z.shiftr value (7 * max_bytes) =? 0 else ValueError;;
  varint_groups (Z.to_nat max_bytes) value.

Fixpoint varint_loop (fuel : nat) (data : bytes) (offset max_bytes decoded_value shift pos : Z)
    : result (Z * Z) :=
  match fuel with
  | O => Err OutOfFuel
  | S fuel =>
      check! negb (Zlen data <=? pos) else VarintError;;
      b ← byte_at data pos;
      let pos := pos + 1 in
      let decoded_value := Z.lor decoded_value (Z.shiftl (Z.land b 0x7F) shift) in
      let shift := shift + 7 in
      if Z.land b 0x80 =? 0 then Ok (decoded_value, pos - offset)
      else if max_bytes <=? pos - offset then Err VarintError
      else varint_loop fuel data offset max_bytes decoded_value shift pos
  end.

(** The loop stops after [max_bytes] bytes. *)
Definition decode_varint (data : bytes) (offset max_bytes : Z) : result (Z * Z) :=
  varint_loop (S (Z.to_nat max_bytes)) data offset max_bytes 0 0 offset.

Example encode_300 : encode_varint 300 10 = Ok [Byte.xac; Byte.x02].
Proof. reflexivity. Qed.
Example decode_300 : decode_varint [Byte.xff; Byte.xac; Byte.x02; Byte.x07] 1 10 = Ok (300, 2).
Proof. reflexivity. Qed.
Example truncated_varint : decode_varint [Byte.xac] 0 10 = Err VarintError.
Proof. reflexivity. Qed.
Example long_varint : decode_varint (repeat Byte.xff 7) 0 5 = Err VarintError.
Proof. reflexivity. Qed.

(** ** Lemmas on positions *)
Lemma byte_of_Ok z b : byte_of z = Ok b <-> 0 <= z < 256 /\ b = byte.of_Z z.
Proof.
  unfold byte_of. destruct (Z.leb_spec 0 z), (Z.ltb_spec z 256); cbn [andb]; split; intros H'; try done;
    try (destruct H'; lia); [by injection H' as <-|]. by destruct H' as [_ ->].
Qed.

Lemma byte_of_small z : 0 <= z < 256 -> exists b, byte_of z = Ok b /\ byte.unsigned b = z.
Proof.
  intros H. exists (byte.of_Z z). split; [by apply byte_of_Ok|]. rewrite byte.unsigned_of_Z.
  by apply Z.mod_small.
Qed.

Lemma bytes_of_Ok l bs :
  bytes_of l = Ok bs <-> Forall (fun z => 0 <= z < 256) l /\ map byte.unsigned bs = l.
Proof.
  unfold bytes_of. rewrite mapM_Ok. split.
  - induction 1 as [|z b l bs [Hz ->]%byte_of_Ok _ [IH1 IH2]]; [by split|]. split; [by constructor|].
    simpl. rewrite byte.unsigned_of_Z, IH2. f_equal. by apply Z.mod_small.
  - intros [Hf <-]. induction bs as [|b bs IH]; [constructor|]. inversion Hf; subst. constructor; [|by apply IH].
    apply byte_of_Ok. split; [done|]. by rewrite byte.of_Z_unsigned.
Qed.

Lemma bytes_of_total l : Forall (fun z => 0 <= z < 256) l -> exists bs, bytes_of l = Ok bs.
Proof.
  intros Hf. exists (map byte.of_Z l). apply bytes_of_Ok. split; [done|]. rewrite map_map.
  rewrite <- (map_id l) at 2. apply map_ext_in. intros z Hz. rewrite byte.unsigned_of_Z. apply Z.mod_small.
  rewrite Forall_forall in Hf. by apply Hf, list_elem_of_In.
Qed.

Lemma bytes_of_length l bs : bytes_of l = Ok bs -> length bs = length l.
Proof. apply mapM_Ok_length. Qed.

(** Reading inside the middle part of a string *)
Lemma byte_at_middle pre t post k :
  0 <= k < Zlen t ->
  byte_at (pre ++ t ++ post) (Zlen pre + k) = of_option IndexError (byte.unsigned <$> t !! Z.to_nat k).
Proof.
  intros Hk. unfold byte_at. rewrite lookup_app_r by lia.
  replace (Z.to_nat (Zlen pre + k) - length pre)%nat with (Z.to_nat k) by lia.
  by rewrite lookup_app_l by lia.
Qed.

Lemma byte_at_total data pos : 0 <= pos < Zlen data -> exists z, byte_at data pos = Ok z /\ 0 <= z < 256.
Proof.
  intros H. unfold byte_at. destruct (lookup_lt_is_Some_2 data (Z.to_nat pos)) as [b ->]; [lia|].
  exists (byte.unsigned b). split; [done|apply byte.unsigned_range].
Qed.

Lemma slice_middle {A} (pre t post : list A) a b :
  a = Zlen pre -> b = a + Zlen t -> slice (pre ++ t ++ post) a b = t.
Proof.
  intros -> ->. unfold slice. replace (Z.to_nat (Zlen pre + Zlen t - Zlen pre)) with (length t) by lia.
  rewrite Nat2Z.id, drop_app_length, take_app_length. done.
Qed.

Lemma slice_to_end {A} (pre t : list A) a b : a = Zlen pre -> b = a + Zlen t -> slice (pre ++ t) a b = t.
Proof. intros Ha Hb. rewrite <- (app_nil_r t) at 1. by apply slice_middle. Qed.

Lemma lor_disjoint a b n : 0 <= n -> 0 <= a < 2 ^ n -> Z.lor a (Z.shiftl b n) = a + b * 2 ^ n.
Proof. intros Hn Ha. rewrite Z.lor_comm, lor_shiftl by done. ring. Qed.

(** ** Varints: lemmas *)
Lemma continuation_bit b : (Z.land (byte.unsigned b) 0x80 =? 0) = (byte.unsigned b <? 128).
Proof. by destruct b. Qed.
Lemma data_bits b : Z.land (byte.unsigned b) 0x7F = byte.unsigned b mod 128.
Proof. by apply (Z.land_ones _ 7). Qed.

Lemma group_byte value : Z.lor (Z.land value 0x7F) 0x80 = value mod 128 + 128.
Proof.
  change 0x7F with (Z.ones 7). rewrite Z.land_ones by done.
  apply (lor_disjoint _ 1 7); [done|]. by apply Z.mod_pos_bound.
Qed.

Lemma varint_groups_total n fuel value :
  0 <= value < 2 ^ (7 * Z.of_nat (S n)) -> (n <= fuel)%nat ->
  exists bs, varint_groups fuel value = Ok bs /\ 1 <= Zlen bs <= Z.of_nat (S n).
Proof.
  revert n value. induction fuel as [|fuel IH]; intros n value Hv Hn; cbn [varint_groups];
    destruct (Z.geb_spec value 128) as [H|H].
  - replace n with O in Hv by lia. change (2 ^ (7 * Z.of_nat 1)) with 128 in Hv. lia.
  - destruct (byte_of_small value) as (b & -> & _); [lia|]. mcbn. eexists. split; [done|]. cbn [length]; lia.
  - rewrite group_byte. pose proof (Z.mod_pos_bound value 128).
    destruct (byte_of_small (value mod 128 + 128)) as (b & -> & _); [lia|]. mcbn.
    rewrite Z.shiftr_div_pow2 by done.
    destruct n as [|n]; [change (2 ^ (7 * Z.of_nat 1)) with 128 in Hv; lia|].
    destruct (IH n (value / 2 ^ 7)) as (bs & -> & Hl); [|lia|].
    { split; [apply Z.div_pos; lia|]. apply Z.div_lt_upper_bound; [lia|]. rewrite <- Z.pow_add_r by lia.
      replace (7 + 7 * Z.of_nat (S n)) with (7 * Z.of_nat (S (S n))) by lia. lia. }
    mcbn. eexists. split; [done|]. cbn [length]. lia.
  - destruct (byte_of_small value) as (b & -> & _); [lia|]. mcbn. eexists. split; [done|]. cbn [length]; lia.
Qed.

Lemma varint_loop_step fuel data offset max_bytes decoded shift pre b post :
  data = pre ++ b :: post ->
  varint_loop (S fuel) data offset max_bytes decoded shift (Zlen pre) =
    let decoded := Z.lor decoded (Z.shiftl (byte.unsigned b mod 128) shift) in
    if byte.unsigned b <? 128 then Ok (decoded, Zlen pre + 1 - offset)
    else if max_bytes <=? Zlen pre + 1 - offset then Err VarintError
    else varint_loop fuel data offset max_bytes decoded (shift + 7) (Zlen pre + 1).
Proof.
  intros ->. cbn [varint_loop]. rewrite length_app. cbn [length].
  rewrite (proj2 (Z.leb_gt _ _)) by lia. cbn [negb].
  unfold byte_at. rewrite Nat2Z.id, list_lookup_middle by done. mcbn. cbn [fmap option_fmap option_map].
  mcbn. by rewrite continuation_bit, data_bits.
Qed.

Lemma varint_loop_groups fuel value bs :
  0 <= value -> varint_groups fuel value = Ok bs ->
  forall fuel' data offset max_bytes decoded shift pre post,
    data = pre ++ bs ++ post -> 0 <= shift -> 0 <= decoded < 2 ^ shift -> (length bs <= fuel')%nat ->
    Zlen pre - offset + Zlen bs <= max_bytes ->
    varint_loop fuel' data offset max_bytes decoded shift (Zlen pre) =
      Ok (decoded + value * 2 ^ shift, Zlen pre - offset + Zlen bs).
Proof.
  revert value bs. induction fuel as [|fuel IH]; intros value bs Hv E fuel' data offset max_bytes decoded shift
    pre post Hd Hs Hdec Hf Hm; cbn [varint_groups] in E; destruct (Z.geb_spec value 128) as [H|H]; [done| | |].
  2: { apply bind_Ok in E as (b & Eb & E). apply bind_Ok in E as (rest & Er & [= <-]).
    rewrite group_byte in Eb. pose proof (Z.mod_pos_bound value 128).
    destruct (byte_of_small (value mod 128 + 128)) as (b' & Eb' & Hb); [lia|].
    rewrite Eb in Eb'. injection Eb' as <-. destruct fuel' as [|fuel']; [cbn in Hf; lia|].
    cbn [app length] in Hd, Hf, Hm |- *. rewrite (varint_loop_step _ _ _ _ _ _ _ b (rest ++ post)) by done.
    cbn zeta. rewrite Hb, (proj2 (Z.ltb_ge _ _)) by lia.
    assert (1 <= Zlen rest) as Hr.
    { destruct fuel; cbn [varint_groups] in Er; destruct (_ >=? _); unbind Er; cbn; lia. }
    rewrite (proj2 (Z.leb_gt _ _)) by lia.
    replace ((value mod 128 + 128) mod 128) with (value mod 128) by div_lia. rewrite lor_disjoint by lia.
    rewrite Z.shiftr_div_pow2 in Er by done.
    replace (Zlen pre + 1) with (Zlen (pre ++ [b])) by (rewrite length_app; cbn; lia).
    rewrite (IH (value / 2 ^ 7) rest) with (post := post).
    - do 2 f_equal; [|rewrite length_app; cbn [length]; lia]. rewrite Z.pow_add_r by lia.
      rewrite (Z.div_mod value 128) at 3 by done. change (2 ^ 7) with 128. ring.
    - apply Z.div_pos; lia.
    - done.
    - by rewrite <- app_assoc.
    - lia.
    - rewrite Z.pow_add_r by lia. change (2 ^ 7) with 128. split; [nia|].
      assert (value mod 128 <= 127) by lia. nia.
    - lia.
    - rewrite length_app; cbn [length]; lia. }
  all: apply bind_Ok in E as (b & Eb & [= <-]).
  all: destruct (byte_of_small value) as (b' & Eb' & Hb); [lia|]; rewrite Eb in Eb'; injection Eb' as <-.
  all: destruct fuel' as [|fuel']; [cbn in Hf; lia|]; cbn [app length] in *.
  all: rewrite (varint_loop_step _ _ _ _ _ _ _ b post) by done; cbn zeta; rewrite Hb, (proj2 (Z.ltb_lt _ _)) by lia.
  all: rewrite Z.mod_small, lor_disjoint by lia; do 2 f_equal; lia.
Qed.

Lemma encode_varint_Ok value max_bytes :
  1 <= max_bytes -> 0 <= value < 2 ^ (7 * max_bytes) ->
  exists bs, encode_varint value max_bytes = Ok bs /\ 1 <= Zlen bs <= max_bytes.
Proof.
  intros Hm Hv. unfold encode_varint. rewrite (proj2 (Z.ltb_ge _ _)) by lia. cbn [negb].
  rewrite Z.shiftr_div_pow2, Z.div_small by lia. cbn [Z.eqb].
  replace max_bytes with (Z.of_nat (S (pred (Z.to_nat max_bytes)))) in Hv |- * by lia.
  apply varint_groups_total; [done|lia].
Qed.

Lemma encode_varint_inv value max_bytes bs :
  0 <= max_bytes -> encode_varint value max_bytes = Ok bs -> 0 <= value < 2 ^ (7 * max_bytes).
Proof.
  unfold encode_varint. intros Hm E. destruct (Z.ltb_spec value 0) as [|Hv]; [done|]. cbn [negb] in E.
  destruct (Z.eqb_spec (Z.shiftr value (7 * max_bytes)) 0) as [Hs|]; [|done].
  rewrite Z.shiftr_div_pow2 in Hs by lia. apply Z.div_small_iff in Hs; [|lia].
  pose proof (Z.pow_pos_nonneg 2 (7 * max_bytes)). lia.
Qed.

Lemma encode_varint_too_long value max_bytes :
  0 <= max_bytes -> 2 ^ (7 * max_bytes) <= value -> encode_varint value max_bytes = Err ValueError.
Proof.
  intros Hm Hv. pose proof (Z.pow_pos_nonneg 2 (7 * max_bytes)). unfold encode_varint.
  rewrite (proj2 (Z.ltb_ge _ _)) by lia. cbn [negb].
  destruct (Z.eqb_spec (Z.shiftr value (7 * max_bytes)) 0) as [Hs|]; [|done].
  rewrite Z.shiftr_div_pow2 in Hs by lia. apply Z.div_small_iff in Hs; lia.
Qed.

Lemma encode_varint_length value max_bytes bs :
  1 <= max_bytes -> encode_varint value max_bytes = Ok bs -> 1 <= Zlen bs <= max_bytes.
Proof.
  intros Hm E. destruct (encode_varint_Ok value max_bytes Hm) as (bs' & E' & Hl); [by eapply encode_varint_inv; [lia|]|].
  congruence.
Qed.

(** The round trip, wherever the varint stands *)
Lemma decode_encode_varint value max_bytes bs pre post :
  1 <= max_bytes -> encode_varint value max_bytes = Ok bs ->
  decode_varint (pre ++ bs ++ post) (Zlen pre) max_bytes = Ok (value, Zlen bs).
Proof.
  intros Hm E. pose proof (encode_varint_length _ _ _ Hm E) as Hl.
  pose proof (encode_varint_inv value max_bytes bs ltac:(lia) E) as Hv. unfold encode_varint in E.
  destruct (negb _); [|done]. destruct (_ =? 0); [|done]. unfold decode_varint.
  rewrite (varint_loop_groups _ value bs (proj1 Hv) E _ _ _ _ _ _ pre post); [|done|done|done|lia|lia].
  do 2 f_equal; [|lia]. change (2 ^ 0) with 1. ring.
Qed.

(** Decoding consumes between one byte and the cap, inside the data, and raises
    nothing but [VarintError]. *)
Lemma varint_loop_cases fuel data offset max_bytes decoded shift pos :
  0 <= pos -> 0 <= decoded -> 0 <= shift -> 1 <= max_bytes -> offset <= pos < offset + max_bytes ->
  offset + max_bytes - pos <= Z.of_nat fuel ->
  (exists value consumed, varint_loop fuel data offset max_bytes decoded shift pos = Ok (value, consumed) /\
     0 <= value /\ pos - offset < consumed <= max_bytes /\ offset + consumed <= Zlen data) \/
  varint_loop fuel data offset max_bytes decoded shift pos = Err VarintError.
Proof.
  revert decoded shift pos. induction fuel as [|fuel IH]; intros decoded shift pos Hp Hd Hs Hm Ho Hf; [lia|].
  cbn [varint_loop]. destruct (Z.leb_spec (Zlen data) pos) as [|Hlt]; cbn [negb]; [by right|].
  destruct (byte_at_total data pos) as (b & -> & Hb); [lia|]. mcbn.
  assert (0 <= Z.lor decoded (Z.shiftl (Z.land b 0x7F) shift)).
  { apply Z.lor_nonneg. split; [done|]. apply Z.shiftl_nonneg, Z.land_nonneg. left; lia. }
  destruct (_ =? 0).
  - left. do 2 eexists. split; [done|]. lia.
  - destruct (Z.leb_spec max_bytes (pos + 1 - offset)); [by right|].
    destruct (IH (Z.lor decoded (Z.shiftl (Z.land b 127) shift)) (shift + 7) (pos + 1)) as [(v & c & E & H')|E];
      [lia..| |by right].
    left. exists v, c. split; [done|]. lia.
Qed.

Lemma decode_varint_cases data offset max_bytes :
  0 <= offset -> 1 <= max_bytes ->
  (exists value consumed, decode_varint data offset max_bytes = Ok (value, consumed) /\
     0 <= value /\ 1 <= consumed <= max_bytes /\ offset + consumed <= Zlen data) \/
  decode_varint data offset max_bytes = Err VarintError.
Proof.
  intros Ho Hm. unfold decode_varint.
  destruct (varint_loop_cases (S (Z.to_nat max_bytes)) data offset max_bytes 0 0 offset) as [(v & c & E & H)|E];
    [lia..| |by right].
  left. exists v, c. split; [done|]. lia.
Qed.
