(* ===== verification/GossipRpc.v ===== *)
(** * Gossipsub RPCs on the wire (node/networking/gossipsub/rpc.py)

    The hand-written protobuf codec: tags, length-delimited fields, the messages and the
    loops that read them.  A Python [str] is represented by its UTF-8 bytes, so encoding
    a topic is the identity and decoding one checks validity. *)

From S2P Require Import Prelude Uint Varint.

(** ** UTF-8 *)
Definition byte_in (low high : Z) (b : Byte.byte) : bool := (low <=? byte.unsigned b) && (byte.unsigned b <=? high).
Definition continuation : Byte.byte -> bool := byte_in 0x80 0xBF.

(** Well-formed UTF-8: no overlong forms, no surrogates, nothing above U+10FFFF *)
Fixpoint utf8_valid (l : bytes) : bool :=
  match l with
  | [] => true
  | a :: l1 =>
      if byte_in 0x00 0x7F a then utf8_valid l1
      else match l1 with
      | [] => false
      | b :: l2 =>
          if byte_in 0xC2 0xDF a then continuation b && utf8_valid l2
          else match l2 with
          | [] => false
          | c :: l3 =>
              if byte_in 0xE0 0xEF a then
                byte_in (if byte_in 0xE0 0xE0 a then 0xA0 else 0x80) (if byte_in 0xED 0xED a then 0x9F else 0xBF) b &&
                continuation c && utf8_valid l3
              else match l3 with
              | [] => false
              | d :: l4 =>
                  byte_in 0xF0 0xF4 a &&
                  byte_in (if byte_in 0xF0 0xF0 a then 0x90 else 0x80) (if byte_in 0xF4 0xF4 a then 0x8F else 0xBF) b &&
                  continuation c && continuation d && utf8_valid l4
              end
          end
      end
  end.

Abbreviation TopicId := bytes.
(** [TopicId(data.decode("utf-8"))] *)
Definition decode_utf8 (data : bytes) : result TopicId :=
  check! utf8_valid data else UnicodeError;; Ok data.

(** ** Fields *)
Definition WIRE_TYPE_VARINT : Z := 0.
Definition WIRE_TYPE_64BIT : Z := 1.
Definition WIRE_TYPE_LENGTH_DELIMITED : Z := 2.
Definition WIRE_TYPE_32BIT : Z := 5.

(** The default cap of the varint functions *)
Definition VARINT_MAX_BYTES : Z := 10.

Definition _decode_length_at (data : bytes) (pos : Z) : result (Z * Z) :=
  '(length, consumed) ← decode_varint data pos VARINT_MAX_BYTES;
  let new_pos := pos + consumed in
  check! negb (Zlen data <? new_pos + length) else ProtobufDecodeError;;
  Ok (length, new_pos).

Definition encode_tag (field_number wire_type : Z) : result bytes :=
  encode_varint (Z.lor (Z.shiftl field_number 3) wire_type) VARINT_MAX_BYTES.

Definition decode_tag (data : bytes) (pos : Z) : result (Z * Z * Z) :=
  '(tag, consumed) ← decode_varint data pos VARINT_MAX_BYTES;
  Ok (Z.shiftr tag 3, Z.land tag 0x07, pos + consumed).

Definition encode_length_delimited (field_number : Z) (data : bytes) : result bytes :=
  tag ← encode_tag field_number WIRE_TYPE_LENGTH_DELIMITED;
  length ← encode_varint (Zlen data) VARINT_MAX_BYTES;
  Ok (tag ++ length ++ data).

Definition encode_string (field_number : Z) (value : TopicId) : result bytes := encode_length_delimited field_number value.
Definition encode_bytes (field_number : Z) (value : bytes) : result bytes := encode_length_delimited field_number value.

Definition encode_bool (field_number : Z) (value : bool) : result bytes :=
  tag ← encode_tag field_number WIRE_TYPE_VARINT;
  flag ← encode_varint (if value then 1 else 0) VARINT_MAX_BYTES;
  Ok (tag ++ flag).

Definition encode_uint64 (field_number value : Z) : result bytes :=
  tag ← encode_tag field_number WIRE_TYPE_VARINT;
  v ← encode_varint value VARINT_MAX_BYTES;
  Ok (tag ++ v).

Definition _skip_field (data : bytes) (pos wire_type : Z) : result Z :=
  if wire_type =? WIRE_TYPE_VARINT then
    '(_, consumed) ← decode_varint data pos VARINT_MAX_BYTES; Ok (pos + consumed)
  else if wire_type =? WIRE_TYPE_LENGTH_DELIMITED then
    '(length, pos) ← _decode_length_at data pos; Ok (pos + length)
  else if wire_type =? WIRE_TYPE_32BIT then Ok (pos + 4)
  else if wire_type =? WIRE_TYPE_64BIT then Ok (pos + 8)
  else Err ProtobufDecodeError.

(** The loop [while pos < len(data)] of every decoder: a tag, then the step of the
    message for its field number and wire type.  A tag takes at least one byte, so the
    length of the data is enough fuel. *)
Abbreviation field_step A := (bytes -> A -> Z -> Z -> Z -> result (A * Z)).

Fixpoint read_fields {A} (step : field_step A) (fuel : nat) (data : bytes) (st : A) (pos : Z) : result A :=
  if pos <? Zlen data then
    match fuel with
    | O => Err OutOfFuel
    | S fuel =>
        '(field_num, wire_type, pos) ← decode_tag data pos;
        '(st, pos) ← step data st field_num wire_type pos;
        read_fields step fuel data st pos
    end
  else Ok st.
Definition decode_fields {A} (step : field_step A) (init : A) (data : bytes) : result A :=
  read_fields step (length data) data init 0.

(** [for x in xs: encoded.extend(encode_length_delimited(n, x.encode()))] *)
Definition encode_all {A} (encode : A -> result bytes) (l : list A) : result bytes := mjoin <$> mapM encode l.
Definition encode_nested {A} (field_number : Z) (encode : A -> result bytes) (x : A) : result bytes :=
  data ← encode x; encode_length_delimited field_number data.
(** [if value: encoded.extend(encode_bytes(n, value))] *)
Definition encode_nonempty (field_number : Z) (value : bytes) : result bytes :=
  match value with [] => Ok [] | _ => encode_length_delimited field_number value end.

(** ** Messages *)
Record SubOpts := { so_subscribe : bool; so_topic_id : TopicId }.

Definition SubOpts_encode (self : SubOpts) : result bytes :=
  subscribe ← encode_bool 1 (so_subscribe self);
  topic ← encode_string 2 (so_topic_id self);
  Ok (subscribe ++ topic).

Definition SubOpts_field : field_step SubOpts := fun data st field_num wire_type pos =>
  if (field_num =? 1) && (wire_type =? WIRE_TYPE_VARINT) then
    '(subscribe_flag, consumed) ← decode_varint data pos VARINT_MAX_BYTES;
    Ok ({| so_subscribe := negb (subscribe_flag =? 0); so_topic_id := so_topic_id st |}, pos + consumed)
  else if (field_num =? 2) && (wire_type =? WIRE_TYPE_LENGTH_DELIMITED) then
    '(length, pos) ← _decode_length_at data pos;
    topic_id ← decode_utf8 (slice data pos (pos + length));
    Ok ({| so_subscribe := so_subscribe st; so_topic_id := topic_id |}, pos + length)
  else pos ← _skip_field data pos wire_type; Ok (st, pos).
Definition SubOpts_decode : bytes -> result SubOpts := decode_fields SubOpts_field {| so_subscribe := false; so_topic_id := [] |}.

Record Message := {
  ms_from_peer : bytes;
  ms_data : bytes;
  ms_seqno : bytes;
  ms_topic : TopicId;
  ms_signature : bytes;
  ms_key : bytes
}.
Definition empty_message : Message :=
  {| ms_from_peer := []; ms_data := []; ms_seqno := []; ms_topic := []; ms_signature := []; ms_key := [] |}.

Definition Message_encode (self : Message) : result bytes :=
  from_peer ← encode_nonempty 1 (ms_from_peer self);
  data ← encode_nonempty 2 (ms_data self);
  seqno ← encode_nonempty 3 (ms_seqno self);
  topic ← encode_nonempty 4 (ms_topic self);
  signature ← encode_nonempty 5 (ms_signature self);
  key ← encode_nonempty 6 (ms_key self);
  Ok (from_peer ++ data ++ seqno ++ topic ++ signature ++ key).

(** A step that reads a length-delimited field and hands it to [assign], or skips the field *)
Definition delimited {A} (assign : A -> Z -> bytes -> result A) : field_step A := fun data st field_num wire_type pos =>
  if wire_type =? WIRE_TYPE_LENGTH_DELIMITED then
    '(length, pos) ← _decode_length_at data pos;
    st ← assign st field_num (slice data pos (pos + length));
    Ok (st, pos + length)
  else pos ← _skip_field data pos wire_type; Ok (st, pos).

Definition Message_assign (m : Message) (field_num : Z) (field_data : bytes) : result Message :=
  match field_num with
  | 1 => Ok {| ms_from_peer := field_data; ms_data := ms_data m; ms_seqno := ms_seqno m; ms_topic := ms_topic m;
               ms_signature := ms_signature m; ms_key := ms_key m |}
  | 2 => Ok {| ms_from_peer := ms_from_peer m; ms_data := field_data; ms_seqno := ms_seqno m; ms_topic := ms_topic m;
               ms_signature := ms_signature m; ms_key := ms_key m |}
  | 3 => Ok {| ms_from_peer := ms_from_peer m; ms_data := ms_data m; ms_seqno := field_data; ms_topic := ms_topic m;
               ms_signature := ms_signature m; ms_key := ms_key m |}
  | 4 => topic ← decode_utf8 field_data;
         Ok {| ms_from_peer := ms_from_peer m; ms_data := ms_data m; ms_seqno := ms_seqno m; ms_topic := topic;
               ms_signature := ms_signature m; ms_key := ms_key m |}
  | 5 => Ok {| ms_from_peer := ms_from_peer m; ms_data := ms_data m; ms_seqno := ms_seqno m; ms_topic := ms_topic m;
               ms_signature := field_data; ms_key := ms_key m |}
  | 6 => Ok {| ms_from_peer := ms_from_peer m; ms_data := ms_data m; ms_seqno := ms_seqno m; ms_topic := ms_topic m;
               ms_signature := ms_signature m; ms_key := field_data |}
  | _ => Ok m
  end.
Definition Message_decode : bytes -> result Message := decode_fields (delimited Message_assign) empty_message.

Record ControlIHave := { ih_topic_id : TopicId; ih_message_ids : list bytes }.
Definition ControlIHave_encode (self : ControlIHave) : result bytes :=
  topic ← encode_nonempty 1 (ih_topic_id self);
  ids ← encode_all (encode_bytes 2) (ih_message_ids self);
  Ok (topic ++ ids).
Definition ControlIHave_assign (m : ControlIHave) (field_num : Z) (field_data : bytes) : result ControlIHave :=
  match field_num with
  | 1 => topic ← decode_utf8 field_data; Ok {| ih_topic_id := topic; ih_message_ids := ih_message_ids m |}
  | 2 => Ok {| ih_topic_id := ih_topic_id m; ih_message_ids := ih_message_ids m ++ [field_data] |}
  | _ => Ok m
  end.
Definition ControlIHave_decode : bytes -> result ControlIHave :=
  decode_fields (delimited ControlIHave_assign) {| ih_topic_id := []; ih_message_ids := [] |}.

(** [ControlIWant] and [ControlIDontWant] are lists of ids, coded the same way. *)
Definition ids_field : field_step (list bytes) := fun data ids field_num wire_type pos =>
  if (field_num =? 1) && (wire_type =? WIRE_TYPE_LENGTH_DELIMITED) then
    '(length, pos) ← _decode_length_at data pos;
    Ok (ids ++ [slice data pos (pos + length)], pos + length)
  else pos ← _skip_field data pos wire_type; Ok (ids, pos).

Record ControlIWant := { iw_message_ids : list bytes }.
Definition ControlIWant_encode (self : ControlIWant) : result bytes := encode_all (encode_bytes 1) (iw_message_ids self).
Definition ControlIWant_decode (data : bytes) : result ControlIWant :=
  ids ← decode_fields ids_field [] data; Ok {| iw_message_ids := ids |}.

Record ControlGraft := { cg_topic_id : TopicId }.
Definition ControlGraft_encode (self : ControlGraft) : result bytes := encode_nonempty 1 (cg_topic_id self).
Definition ControlGraft_field : field_step ControlGraft := fun data st field_num wire_type pos =>
  if (field_num =? 1) && (wire_type =? WIRE_TYPE_LENGTH_DELIMITED) then
    '(length, pos) ← _decode_length_at data pos;
    topic_id ← decode_utf8 (slice data pos (pos + length));
    Ok ({| cg_topic_id := topic_id |}, pos + length)
  else pos ← _skip_field data pos wire_type; Ok (st, pos).
Definition ControlGraft_decode : bytes -> result ControlGraft := decode_fields ControlGraft_field {| cg_topic_id := [] |}.

Record ControlPrune := { pr_topic_id : TopicId; pr_backoff : Z }.
Definition ControlPrune_encode (self : ControlPrune) : result bytes :=
  topic ← encode_nonempty 1 (pr_topic_id self);
  backoff ← (if 0 <? pr_backoff self then encode_uint64 3 (pr_backoff self) else Ok []);
  Ok (topic ++ backoff).
Definition ControlPrune_field : field_step ControlPrune := fun data st field_num wire_type pos =>
  if (field_num =? 1) && (wire_type =? WIRE_TYPE_LENGTH_DELIMITED) then
    '(length, pos) ← _decode_length_at data pos;
    topic_id ← decode_utf8 (slice data pos (pos + length));
    Ok ({| pr_topic_id := topic_id; pr_backoff := pr_backoff st |}, pos + length)
  else if (field_num =? 3) && (wire_type =? WIRE_TYPE_VARINT) then
    '(backoff, consumed) ← decode_varint data pos VARINT_MAX_BYTES;
    Ok ({| pr_topic_id := pr_topic_id st; pr_backoff := backoff |}, pos + consumed)
  else pos ← _skip_field data pos wire_type; Ok (st, pos).
Definition ControlPrune_decode : bytes -> result ControlPrune :=
  decode_fields ControlPrune_field {| pr_topic_id := []; pr_backoff := 0 |}.

Record ControlIDontWant := { dw_message_ids : list bytes }.
Definition ControlIDontWant_encode (self : ControlIDontWant) : result bytes := encode_all (encode_bytes 1) (dw_message_ids self).
Definition ControlIDontWant_decode (data : bytes) : result ControlIDontWant :=
  ids ← decode_fields ids_field [] data; Ok {| dw_message_ids := ids |}.

Record ControlMessage := {
  cm_ihave : list ControlIHave;
  cm_iwant : list ControlIWant;
  cm_graft : list ControlGraft;
  cm_prune : list ControlPrune;
  cm_idontwant : list ControlIDontWant
}.
Definition empty_control : ControlMessage :=
  {| cm_ihave := []; cm_iwant := []; cm_graft := []; cm_prune := []; cm_idontwant := [] |}.
Definition is_empty (self : ControlMessage) : bool :=
  match self with
  | {| cm_ihave := []; cm_iwant := []; cm_graft := []; cm_prune := []; cm_idontwant := [] |} => true
  | _ => false
  end.

Definition ControlMessage_encode (self : ControlMessage) : result bytes :=
  ihave ← encode_all (encode_nested 1 ControlIHave_encode) (cm_ihave self);
  iwant ← encode_all (encode_nested 2 ControlIWant_encode) (cm_iwant self);
  graft ← encode_all (encode_nested 3 ControlGraft_encode) (cm_graft self);
  prune ← encode_all (encode_nested 4 ControlPrune_encode) (cm_prune self);
  idontwant ← encode_all (encode_nested 5 ControlIDontWant_encode) (cm_idontwant self);
  Ok (ihave ++ iwant ++ graft ++ prune ++ idontwant).

Definition ControlMessage_assign (c : ControlMessage) (field_num : Z) (field_data : bytes) : result ControlMessage :=
  match field_num with
  | 1 => m ← ControlIHave_decode field_data;
         Ok {| cm_ihave := cm_ihave c ++ [m]; cm_iwant := cm_iwant c; cm_graft := cm_graft c; cm_prune := cm_prune c;
               cm_idontwant := cm_idontwant c |}
  | 2 => m ← ControlIWant_decode field_data;
         Ok {| cm_ihave := cm_ihave c; cm_iwant := cm_iwant c ++ [m]; cm_graft := cm_graft c; cm_prune := cm_prune c;
               cm_idontwant := cm_idontwant c |}
  | 3 => m ← ControlGraft_decode field_data;
         Ok {| cm_ihave := cm_ihave c; cm_iwant := cm_iwant c; cm_graft := cm_graft c ++ [m]; cm_prune := cm_prune c;
               cm_idontwant := cm_idontwant c |}
  | 4 => m ← ControlPrune_decode field_data;
         Ok {| cm_ihave := cm_ihave c; cm_iwant := cm_iwant c; cm_graft := cm_graft c; cm_prune := cm_prune c ++ [m];
               cm_idontwant := cm_idontwant c |}
  | 5 => m ← ControlIDontWant_decode field_data;
         Ok {| cm_ihave := cm_ihave c; cm_iwant := cm_iwant c; cm_graft := cm_graft c; cm_prune := cm_prune c;
               cm_idontwant := cm_idontwant c ++ [m] |}
  | _ => Ok c
  end.
Definition ControlMessage_decode : bytes -> result ControlMessage :=
  decode_fields (delimited ControlMessage_assign) empty_control.

Record RPC := {
  rpc_subscriptions : list SubOpts;
  rpc_publish : list Message;
  rpc_control : option ControlMessage
}.

Definition RPC_encode (self : RPC) : result bytes :=
  subscriptions ← encode_all (encode_nested 1 SubOpts_encode) (rpc_subscriptions self);
  publish ← encode_all (encode_nested 2 Message_encode) (rpc_publish self);
  control ← match rpc_control self with
            | Some c => if is_empty c then Ok [] else encode_nested 3 ControlMessage_encode c
            | None => Ok []
            end;
  Ok (subscriptions ++ publish ++ control).

Definition RPC_assign (r : RPC) (field_num : Z) (field_data : bytes) : result RPC :=
  match field_num with
  | 1 => s ← SubOpts_decode field_data;
         Ok {| rpc_subscriptions := rpc_subscriptions r ++ [s]; rpc_publish := rpc_publish r; rpc_control := rpc_control r |}
  | 2 => m ← Message_decode field_data;
         Ok {| rpc_subscriptions := rpc_subscriptions r; rpc_publish := rpc_publish r ++ [m]; rpc_control := rpc_control r |}
  | 3 => c ← ControlMessage_decode field_data;
         Ok {| rpc_subscriptions := rpc_subscriptions r; rpc_publish := rpc_publish r; rpc_control := Some c |}
  | _ => Ok r
  end.
Definition RPC_decode : bytes -> result RPC :=
  decode_fields (delimited RPC_assign) {| rpc_subscriptions := []; rpc_publish := []; rpc_control := None |}.

(** The classmethods [subscription] and [graft] *)
Definition RPC_subscription (topics : list TopicId) (subscribe : bool) : RPC := {|
  rpc_subscriptions := map (fun t => {| so_subscribe := subscribe; so_topic_id := t |}) topics;
  rpc_publish := []; rpc_control := None |}.
Definition RPC_graft (topics : list TopicId) : RPC := {|
  rpc_subscriptions := []; rpc_publish := [];
  rpc_control := Some {| cm_ihave := []; cm_iwant := []; cm_graft := map (fun t => {| cg_topic_id := t |}) topics;
                         cm_prune := []; cm_idontwant := [] |} |}.

Example subscription_roundtrip :
  (RPC_encode (RPC_subscription [[Byte.x61]; [Byte.xc3; Byte.xa9]] true) ≫= RPC_decode) =
  Ok (RPC_subscription [[Byte.x61]; [Byte.xc3; Byte.xa9]] true).
Proof. reflexivity. Qed.
Example graft_bytes : RPC_encode (RPC_graft [[Byte.x61]]) = Ok [Byte.x1a; Byte.x05; Byte.x1a; Byte.x03; Byte.x0a; Byte.x01; Byte.x61].
Proof. reflexivity. Qed.
Example surrogates_are_refused : utf8_valid [Byte.xed; Byte.xa0; Byte.x80] = false /\ utf8_valid [Byte.xf0; Byte.x9f; Byte.x92; Byte.xa1] = true.
Proof. split; reflexivity. Qed.
