(* ===== verification/GossipRpcCorrect.v ===== *)
(** * The gossipsub codec is inverted by its decoder

    A decoder's loop over the bytes of one field ends in the state after that field,
    whatever stands before and behind it ([consumes]); messages are sequences of fields,
    so each encoding is consumed as a whole.  Arbitrary bytes decode or raise one of
    three exceptions ([rpc_exn]). *)

From S2P Require Import Prelude Uint Varint GossipRpc.

Lemma Zlen_app {A} (a b : list A) : Zlen (a ++ b) = Zlen a + Zlen b.
Proof. rewrite length_app. lia. Qed.

(** ** One field *)
Lemma tag_bounds field_number wire_type :
  0 <= field_number < 2 ^ 60 -> 0 <= wire_type < 8 ->
  Z.lor (Z.shiftl field_number 3) wire_type = field_number * 8 + wire_type.
Proof. intros Hf Hw. rewrite Z.lor_comm, (lor_disjoint wire_type field_number 3) by lia. change (2 ^ 3) with 8. ring. Qed.

Lemma encode_tag_total field_number wire_type :
  0 <= field_number < 2 ^ 60 -> 0 <= wire_type < 8 ->
  exists bs, encode_tag field_number wire_type = Ok bs /\ 1 <= Zlen bs <= 10.
Proof.
  intros Hf Hw. unfold encode_tag. rewrite tag_bounds by done. apply encode_varint_Ok; [done|].
  change (2 ^ (7 * VARINT_MAX_BYTES)) with (2 ^ 70). lia.
Qed.

Lemma encode_tag_length field_number wire_type bs : encode_tag field_number wire_type = Ok bs -> 1 <= Zlen bs <= 10.
Proof. by apply encode_varint_length. Qed.

Lemma decode_encode_tag field_number wire_type bs pre post :
  0 <= field_number < 2 ^ 60 -> 0 <= wire_type < 8 -> encode_tag field_number wire_type = Ok bs ->
  decode_tag (pre ++ bs ++ post) (Zlen pre) = Ok (field_number, wire_type, Zlen pre + Zlen bs).
Proof.
  intros Hf Hw E. unfold encode_tag in E. rewrite tag_bounds in E by done. unfold decode_tag.
  rewrite (decode_encode_varint _ VARINT_MAX_BYTES _ _ _ ltac:(done) E). mcbn. do 2 f_equal. f_equal.
  - rewrite Z.shiftr_div_pow2 by done. change (2 ^ 3) with 8. rewrite Z.div_add_l by done. rewrite Z.div_small by done. ring.
  - change 0x07 with (Z.ones 3). rewrite Z.land_ones by done. change (2 ^ 3) with 8.
    rewrite Z.add_comm, Z.mod_add by done. by apply Z.mod_small.
Qed.

(** What a decoder reads at an encoded length-delimited field *)
Lemma delimited_read field_number payload bs pre post :
  0 <= field_number < 2 ^ 60 -> encode_length_delimited field_number payload = Ok bs ->
  let data := pre ++ bs ++ post in
  exists pos from,
    decode_tag data (Zlen pre) = Ok (field_number, WIRE_TYPE_LENGTH_DELIMITED, pos) /\
    _decode_length_at data pos = Ok (Zlen payload, from) /\
    slice data from (from + Zlen payload) = payload /\ from + Zlen payload = Zlen pre + Zlen bs.
Proof.
  intros Hf E. cbn zeta. unfold encode_length_delimited in E.
  apply bind_Ok in E as (tag & Et & E). apply bind_Ok in E as (len & El & [= <-]).
  exists (Zlen pre + Zlen tag), (Zlen pre + Zlen tag + Zlen len). split_and!.
  - rewrite <- !app_assoc. by apply decode_encode_tag.
  - unfold _decode_length_at. rewrite <- !app_assoc.
    pose proof (decode_encode_varint _ VARINT_MAX_BYTES _ (pre ++ tag) (payload ++ post) ltac:(done) El) as Hd.
    rewrite <- !app_assoc, Zlen_app in Hd. rewrite Hd. mcbn.
    rewrite (proj2 (Z.ltb_ge _ _)); [done|]. rewrite !Zlen_app. lia.
  - rewrite <- !app_assoc. rewrite (app_assoc tag), (app_assoc pre). apply slice_middle; rewrite ?Zlen_app; lia.
  - rewrite !Zlen_app. lia.
Qed.

Lemma varint_field_read field_number value tag v pre post :
  0 <= field_number < 2 ^ 60 -> encode_tag field_number WIRE_TYPE_VARINT = Ok tag ->
  encode_varint value VARINT_MAX_BYTES = Ok v ->
  let data := pre ++ (tag ++ v) ++ post in
  decode_tag data (Zlen pre) = Ok (field_number, WIRE_TYPE_VARINT, Zlen pre + Zlen tag) /\
  decode_varint data (Zlen pre + Zlen tag) VARINT_MAX_BYTES = Ok (value, Zlen v).
Proof.
  intros Hf Et Ev. cbn zeta. rewrite <- !app_assoc. split; [by apply decode_encode_tag|].
  rewrite (app_assoc pre), <- Zlen_app. by apply decode_encode_varint.
Qed.

(** ** Sequences of fields *)
Definition consumes {A} (step : field_step A) (bs : bytes) (st st' : A) : Prop :=
  exists n, (n <= length bs)%nat /\ forall pre post fuel,
    read_fields step (n + fuel) (pre ++ bs ++ post) st (Zlen pre) =
    read_fields step fuel (pre ++ bs ++ post) st' (Zlen pre + Zlen bs).

Lemma consumes_nil {A} (step : field_step A) st : consumes step [] st st.
Proof. exists O. split; [done|]. intros. by rewrite Z.add_0_r. Qed.

Lemma consumes_app {A} (step : field_step A) bs1 bs2 st st1 st2 :
  consumes step bs1 st st1 -> consumes step bs2 st1 st2 -> consumes step (bs1 ++ bs2) st st2.
Proof.
  intros (n1 & Hn1 & H1) (n2 & Hn2 & H2). exists (n1 + n2)%nat. split; [rewrite length_app; lia|]. intros pre post fuel.
  specialize (H1 pre (bs2 ++ post) (n2 + fuel)%nat). specialize (H2 (pre ++ bs1) post fuel).
  rewrite <- !app_assoc in *. rewrite <- Nat.add_assoc, H1. rewrite !Zlen_app in *. rewrite H2. f_equal. lia.
Qed.

Lemma consumes_decode {A} (step : field_step A) bs st st' :
  consumes step bs st st' -> decode_fields step st bs = Ok st'.
Proof.
  intros (n & Hn & H). specialize (H [] [] (length bs - n)%nat). rewrite app_nil_r in H. cbn [app] in H.
  unfold decode_fields. replace (length bs) with (n + (length bs - n))%nat by lia. etrans; [exact H|].
  destruct (length bs - n)%nat; cbn [read_fields]; by rewrite (proj2 (Z.ltb_ge _ _)) by done.
Qed.

(** A repeated field: [mk l] is the state once the elements of [l] have been read. *)
Lemma consumes_all {A B} (step : field_step A) (encode : B -> result bytes) (mk : list B -> A) l bs :
  (forall x bx done, x ∈ l -> encode x = Ok bx -> consumes step bx (mk done) (mk (done ++ [x]))) ->
  encode_all encode l = Ok bs -> consumes step bs (mk []) (mk l).
Proof.
  intros Hx E. unfold encode_all in E. apply fmap_Ok in E as (k & E%mapM_Ok & ->).
  assert (forall done, consumes step (mjoin k) (mk done) (mk (done ++ l))) as H; [|apply (H [])].
  induction E as [|x bx l k E _ IH]; intros done; [rewrite app_nil_r; apply consumes_nil|]. cbn [mjoin list_join].
  eapply consumes_app; [by apply Hx; [left|]|]. rewrite (app_assoc done [x] l : done ++ x :: l = _).
  apply IH. intros. by apply Hx; [right|].
Qed.

(** One field: the step after its tag *)
Lemma consumes_field {A} (step : field_step A) bs st st' field_number wire_type :
  (forall pre post, exists pos,
    decode_tag (pre ++ bs ++ post) (Zlen pre) = Ok (field_number, wire_type, pos) /\
    step (pre ++ bs ++ post) st field_number wire_type pos = Ok (st', Zlen pre + Zlen bs)) ->
  1 <= Zlen bs -> consumes step bs st st'.
Proof.
  intros H Hl. exists 1%nat. split; [lia|]. intros pre post fuel. destruct (H pre post) as (pos & Et & Es).
  cbn [Nat.add read_fields]. rewrite (proj2 (Z.ltb_lt _ _)).
  - rewrite Et. mcbn. rewrite Es. done.
  - rewrite !Zlen_app. lia.
Qed.

Lemma encode_length_delimited_length field_number payload bs :
  encode_length_delimited field_number payload = Ok bs -> 1 <= Zlen bs.
Proof.
  unfold encode_length_delimited. intros E. apply bind_Ok in E as (tag & Et%encode_tag_length & E).
  apply bind_Ok in E as (len & _ & [= <-]). rewrite !Zlen_app. lia.
Qed.

(** A length-delimited field, and a varint field, read by a step *)
Lemma consumes_payload {A} (step : field_step A) field_number payload bs st st' :
  0 <= field_number < 2 ^ 60 -> encode_length_delimited field_number payload = Ok bs ->
  (forall data pos from, _decode_length_at data pos = Ok (Zlen payload, from) ->
    slice data from (from + Zlen payload) = payload ->
    step data st field_number WIRE_TYPE_LENGTH_DELIMITED pos = Ok (st', from + Zlen payload)) ->
  consumes step bs st st'.
Proof.
  intros Hf E Hs. eapply consumes_field; [|by eapply encode_length_delimited_length]. intros pre post.
  destruct (delimited_read _ _ _ pre post Hf E) as (pos & from & Ht & Hl & Hsl & Hp). exists pos. split; [exact Ht|].
  rewrite <- Hp. by apply Hs.
Qed.

Lemma consumes_varint {A} (step : field_step A) field_number value tag v st st' :
  0 <= field_number < 2 ^ 60 -> encode_tag field_number WIRE_TYPE_VARINT = Ok tag ->
  encode_varint value VARINT_MAX_BYTES = Ok v ->
  (forall data pos consumed, decode_varint data pos VARINT_MAX_BYTES = Ok (value, consumed) ->
    step data st field_number WIRE_TYPE_VARINT pos = Ok (st', pos + consumed)) ->
  consumes step (tag ++ v) st st'.
Proof.
  intros Hf Et Ev Hs. eapply consumes_field; [|pose proof (encode_tag_length _ _ _ Et); rewrite Zlen_app; lia].
  intros pre post. destruct (varint_field_read _ _ _ _ pre post Hf Et Ev) as [Ht Hv]. eexists. split; [exact Ht|].
  rewrite (Hs _ _ _ Hv), Zlen_app. do 2 f_equal. lia.
Qed.

Lemma consumes_delimited {A} (assign : A -> Z -> bytes -> result A) field_number payload bs st st' :
  0 <= field_number < 2 ^ 60 -> encode_length_delimited field_number payload = Ok bs ->
  assign st field_number payload = Ok st' -> consumes (delimited assign) bs st st'.
Proof.
  intros Hf E Ha. eapply consumes_payload; [done|done|]. intros data pos from Hl Hs.
  unfold delimited. cbn [Z.eqb]. change (_ =? _) with true. cbn iota. rewrite Hl. mcbn. rewrite Hs, Ha. done.
Qed.

Lemma consumes_nonempty {A} (assign : A -> Z -> bytes -> result A) field_number value bs st st' :
  0 <= field_number < 2 ^ 60 -> encode_nonempty field_number value = Ok bs ->
  (value = [] -> st' = st) -> assign st field_number value = Ok st' -> consumes (delimited assign) bs st st'.
Proof.
  intros Hf E Hn Ha. destruct value as [|b value]; cbn [encode_nonempty] in E.
  - injection E as <-. rewrite Hn by done. apply consumes_nil.
  - by eapply consumes_delimited.
Qed.

(** ** Messages *)
Definition reads {A} (encode : A -> result bytes) (decode : bytes -> result A) (x : A) : Prop :=
  forall bs, encode x = Ok bs -> decode bs = Ok x.

Lemma consumes_nested {A B} (assign : A -> Z -> bytes -> result A) field_number (encode : B -> result bytes) decode x bs st st' :
  0 <= field_number < 2 ^ 60 -> reads encode decode x -> encode_nested field_number encode x = Ok bs ->
  (forall payload, decode payload = Ok x -> assign st field_number payload = Ok st') ->
  consumes (delimited assign) bs st st'.
Proof.
  intros Hf Hr E Ha. unfold encode_nested in E. apply bind_Ok in E as (payload & Ep & E).
  eapply consumes_delimited; [done|exact E|]. by apply Ha, Hr.
Qed.

Lemma decode_utf8_valid t : utf8_valid t = true -> decode_utf8 t = Ok t.
Proof. unfold decode_utf8. by intros ->. Qed.

(** Rewrites a field's reads inside a step. *)
Ltac run_step :=
  repeat match goal with
  | H : _decode_length_at _ _ = Ok _ |- _ => rewrite H; clear H
  | H : decode_varint _ _ _ = Ok _ |- _ => rewrite H; clear H
  | H : slice _ _ _ = _ |- _ => rewrite H; clear H
  | H : utf8_valid ?t = true |- context [decode_utf8 ?t] => rewrite (decode_utf8_valid t H)
  | |- _ => progress mcbn
  end.

Lemma SubOpts_reads s : utf8_valid (so_topic_id s) = true -> reads SubOpts_encode SubOpts_decode s.
Proof.
  intros Hu bs E. unfold SubOpts_encode, encode_bool, encode_string in E.
  apply bind_Ok in E as (sub & Es & E). apply bind_Ok in Es as (tag & Et & Es). apply bind_Ok in Es as (flag & Ef & [= <-]).
  apply bind_Ok in E as (topic & Eo & [= <-]). apply consumes_decode.
  eapply consumes_app; [eapply (consumes_varint _ 1); [done|exact Et|exact Ef|]|eapply (consumes_payload _ 2); [done|exact Eo|]].
  - intros data pos c H. unfold SubOpts_field. cbn -[decode_varint]. run_step. reflexivity.
  - intros data pos from H1 H2. unfold SubOpts_field. cbn -[_decode_length_at slice decode_utf8]. run_step.
    destruct s as [[] t]; done.
Qed.

Lemma Message_reads m : utf8_valid (ms_topic m) = true -> reads Message_encode Message_decode m.
Proof.
  intros Hu bs E. unfold Message_encode in E.
  apply bind_Ok in E as (b1 & E1 & E). apply bind_Ok in E as (b2 & E2 & E). apply bind_Ok in E as (b3 & E3 & E).
  apply bind_Ok in E as (b4 & E4 & E). apply bind_Ok in E as (b5 & E5 & E). apply bind_Ok in E as (b6 & E6 & [= <-]).
  destruct m as [from data seqno topic signature key]. cbn [ms_from_peer ms_data ms_seqno ms_topic ms_signature ms_key] in *.
  apply consumes_decode.
  eapply consumes_app; [eapply consumes_nonempty; [|exact E1| |reflexivity]; [done|by intros ->]|].
  eapply consumes_app; [eapply consumes_nonempty; [|exact E2| |reflexivity]; [done|by intros ->]|].
  eapply consumes_app; [eapply consumes_nonempty; [|exact E3| |reflexivity]; [done|by intros ->]|].
  eapply consumes_app; [eapply consumes_nonempty; [|exact E4| |cbn -[decode_utf8]; rewrite (decode_utf8_valid _ Hu); reflexivity]; [done|by intros ->]|].
  eapply consumes_app; [eapply consumes_nonempty; [|exact E5| |reflexivity]; [done|by intros ->]|].
  eapply consumes_nonempty; [|exact E6| |reflexivity]; [done|by intros ->].
Qed.

Lemma ids_read l bs : encode_all (encode_bytes 1) l = Ok bs -> decode_fields ids_field [] bs = Ok l.
Proof.
  intros E. apply consumes_decode. eapply (consumes_all _ _ (fun ids => ids)); [|exact E]. intros x bx st _ Ex.
  eapply (consumes_payload _ 1); [done|exact Ex|]. intros data pos from H1 H2. unfold ids_field.
  cbn -[_decode_length_at slice]. run_step. done.
Qed.

Lemma ControlIWant_reads m : reads ControlIWant_encode ControlIWant_decode m.
Proof. intros bs E. unfold ControlIWant_decode. rewrite (ids_read _ _ E). by destruct m. Qed.
Lemma ControlIDontWant_reads m : reads ControlIDontWant_encode ControlIDontWant_decode m.
Proof. intros bs E. unfold ControlIDontWant_decode. rewrite (ids_read _ _ E). by destruct m. Qed.

Lemma ControlIHave_reads m : utf8_valid (ih_topic_id m) = true -> reads ControlIHave_encode ControlIHave_decode m.
Proof.
  intros Hu bs E. unfold ControlIHave_encode in E. apply bind_Ok in E as (b1 & E1 & E). apply bind_Ok in E as (b2 & E2 & [= <-]).
  destruct m as [topic ids]. cbn [ih_topic_id ih_message_ids] in *. apply consumes_decode.
  eapply consumes_app; [eapply consumes_nonempty; [|exact E1| |cbn -[decode_utf8]; rewrite (decode_utf8_valid _ Hu); reflexivity]; [done|by intros ->]|].
  eapply (consumes_all _ _ (fun ids => {| ih_topic_id := topic; ih_message_ids := ids |})); [|exact E2].
  intros x bx st _ Ex. by eapply (consumes_delimited _ 2).
Qed.

Lemma ControlGraft_reads m : utf8_valid (cg_topic_id m) = true -> reads ControlGraft_encode ControlGraft_decode m.
Proof.
  intros Hu bs E. unfold ControlGraft_encode, encode_nonempty in E. destruct m as [topic]. cbn [cg_topic_id] in *.
  apply consumes_decode. destruct topic as [|b topic]; [injection E as <-; apply consumes_nil|].
  eapply (consumes_payload _ 1); [done|exact E|]. intros data pos from H1 H2. unfold ControlGraft_field.
  cbn -[_decode_length_at slice decode_utf8 length]. run_step. done.
Qed.

Lemma ControlPrune_reads m :
  utf8_valid (pr_topic_id m) = true -> 0 <= pr_backoff m -> reads ControlPrune_encode ControlPrune_decode m.
Proof.
  intros Hu Hb bs E. unfold ControlPrune_encode in E. apply bind_Ok in E as (b1 & E1 & E). apply bind_Ok in E as (b2 & E2 & [= <-]).
  destruct m as [topic backoff]. cbn [pr_topic_id pr_backoff] in *. apply consumes_decode.
  eapply (consumes_app _ _ _ _ {| pr_topic_id := topic; pr_backoff := 0 |}).
  - destruct topic as [|b topic]; [injection E1 as <-; apply consumes_nil|].
    eapply (consumes_payload _ 1); [done|exact E1|]. intros data pos from H1 H2. unfold ControlPrune_field.
    cbn -[_decode_length_at slice decode_utf8 length]. run_step. done.
  - destruct (Z.ltb_spec 0 backoff) as [Hp|Hp]; [|injection E2 as <-; replace backoff with 0 by lia; apply consumes_nil].
    unfold encode_uint64 in E2. apply bind_Ok in E2 as (tag & Et & E2). apply bind_Ok in E2 as (v & Ev & [= <-]).
    eapply (consumes_varint _ 3); [done|exact Et|exact Ev|]. intros data pos c H. unfold ControlPrune_field.
    cbn -[decode_varint]. run_step. done.
Qed.

(** Topics are strings; a backoff is a duration. *)
Record control_ok (c : ControlMessage) : Prop := {
  co_ihave : Forall (fun m => utf8_valid (ih_topic_id m) = true) (cm_ihave c);
  co_graft : Forall (fun m => utf8_valid (cg_topic_id m) = true) (cm_graft c);
  co_prune : Forall (fun m => utf8_valid (pr_topic_id m) = true /\ 0 <= pr_backoff m) (cm_prune c)
}.
Record rpc_ok (r : RPC) : Prop := {
  ro_subscriptions : Forall (fun s => utf8_valid (so_topic_id s) = true) (rpc_subscriptions r);
  ro_publish : Forall (fun m => utf8_valid (ms_topic m) = true) (rpc_publish r);
  ro_control c : rpc_control r = Some c -> control_ok c
}.

(** A repeated nested message *)
Lemma consumes_repeated {A B} (assign : A -> Z -> bytes -> result A) field_number (encode : B -> result bytes) decode
    (mk : list B -> A) l bs :
  0 <= field_number < 2 ^ 60 -> (forall x, x ∈ l -> reads encode decode x) ->
  (forall done x payload, decode payload = Ok x -> assign (mk done) field_number payload = Ok (mk (done ++ [x]))) ->
  encode_all (encode_nested field_number encode) l = Ok bs -> consumes (delimited assign) bs (mk []) (mk l).
Proof.
  intros Hf Hr Ha E. eapply consumes_all; [|exact E]. intros x bx done Hx Ex.
  eapply consumes_nested; [done|by apply Hr|exact Ex|]. intros payload. apply Ha.
Qed.

Lemma ControlMessage_reads c : control_ok c -> reads ControlMessage_encode ControlMessage_decode c.
Proof.
  intros [H1 H3 H4] bs E. unfold ControlMessage_encode in E.
  apply bind_Ok in E as (b1 & E1 & E). apply bind_Ok in E as (b2 & E2 & E). apply bind_Ok in E as (b3 & E3 & E).
  apply bind_Ok in E as (b4 & E4 & E). apply bind_Ok in E as (b5 & E5 & [= <-]).
  destruct c as [ihave iwant graft prune idontwant]. cbn [cm_ihave cm_iwant cm_graft cm_prune cm_idontwant] in *.
  rewrite !Forall_forall in *. apply consumes_decode.
  eapply consumes_app; [eapply (consumes_repeated _ 1 _ ControlIHave_decode (fun l => Build_ControlMessage l [] [] [] [])); [done| | |exact E1]|].
  { intros x Hx. by apply ControlIHave_reads, H1. }
  { intros done x payload Ex. cbn -[ControlIHave_decode]. by rewrite Ex. }
  eapply consumes_app; [eapply (consumes_repeated _ 2 _ ControlIWant_decode (fun l => Build_ControlMessage ihave l [] [] [])); [done| | |exact E2]|].
  { intros x Hx. apply ControlIWant_reads. }
  { intros done x payload Ex. cbn -[ControlIWant_decode]. by rewrite Ex. }
  eapply consumes_app; [eapply (consumes_repeated _ 3 _ ControlGraft_decode (fun l => Build_ControlMessage ihave iwant l [] [])); [done| | |exact E3]|].
  { intros x Hx. by apply ControlGraft_reads, H3. }
  { intros done x payload Ex. cbn -[ControlGraft_decode]. by rewrite Ex. }
  eapply consumes_app; [eapply (consumes_repeated _ 4 _ ControlPrune_decode (fun l => Build_ControlMessage ihave iwant graft l [])); [done| | |exact E4]|].
  { intros x Hx. by apply ControlPrune_reads; apply H4. }
  { intros done x payload Ex. cbn -[ControlPrune_decode]. by rewrite Ex. }
  eapply (consumes_repeated _ 5 _ ControlIDontWant_decode (fun l => Build_ControlMessage ihave iwant graft prune l)); [done| | |exact E5].
  { intros x Hx. apply ControlIDontWant_reads. }
  { intros done x payload Ex. cbn -[ControlIDontWant_decode]. by rewrite Ex. }
Qed.

(** An empty control message is not sent. *)
Definition normal_rpc (r : RPC) : RPC := {|
  rpc_subscriptions := rpc_subscriptions r; rpc_publish := rpc_publish r;
  rpc_control := match rpc_control r with Some c => if is_empty c then None else Some c | None => None end
|}.

Lemma RPC_reads r bs : rpc_ok r -> RPC_encode r = Ok bs -> RPC_decode bs = Ok (normal_rpc r).
Proof.
  intros [H1 H2 H3] E. unfold RPC_encode in E.
  apply bind_Ok in E as (b1 & E1 & E). apply bind_Ok in E as (b2 & E2 & E). apply bind_Ok in E as (b3 & E3 & [= <-]).
  destruct r as [subs publish control]. cbn [rpc_subscriptions rpc_publish rpc_control] in *.
  rewrite !Forall_forall in *. apply consumes_decode.
  eapply consumes_app; [eapply (consumes_repeated _ 1 _ SubOpts_decode (fun l => Build_RPC l [] None)); [done| | |exact E1]|].
  { intros x Hx. by apply SubOpts_reads, H1. }
  { intros done x payload Ex. cbn -[SubOpts_decode]. by rewrite Ex. }
  eapply consumes_app; [eapply (consumes_repeated _ 2 _ Message_decode (fun l => Build_RPC subs l None)); [done| | |exact E2]|].
  { intros x Hx. by apply Message_reads, H2. }
  { intros done x payload Ex. cbn -[Message_decode]. by rewrite Ex. }
  unfold normal_rpc. cbn [rpc_subscriptions rpc_publish rpc_control].
  destruct control as [c|]; [|injection E3 as <-; apply consumes_nil].
  destruct (is_empty c); [injection E3 as <-; apply consumes_nil|].
  eapply (consumes_nested _ 3 _ ControlMessage_decode); [done|by apply ControlMessage_reads, H3|exact E3|].
  intros payload Ex. cbn -[ControlMessage_decode]. by rewrite Ex.
Qed.

(** ** Sizes *)

(** The encoding of a field of [n] bytes takes at most [n + 20]. *)
Definition encodes_within (r : result bytes) (bound : Z) : Prop := exists bs, r = Ok bs /\ Zlen bs <= bound.

Definition field_weight (n : Z) : Z := n + 20.
Definition list_weight {A} (weight : A -> Z) (l : list A) : Z := foldr (fun x n => field_weight (weight x) + n) 0 l.
Definition ids_weight : list bytes -> Z := list_weight (fun id => Zlen id).
Definition message_weight (m : Message) : Z :=
  field_weight (Zlen (ms_from_peer m)) + field_weight (Zlen (ms_data m)) + field_weight (Zlen (ms_seqno m)) +
  field_weight (Zlen (ms_topic m)) + field_weight (Zlen (ms_signature m)) + field_weight (Zlen (ms_key m)).
Definition control_weight (c : ControlMessage) : Z :=
  list_weight (fun m => field_weight (Zlen (ih_topic_id m)) + ids_weight (ih_message_ids m)) (cm_ihave c) +
  list_weight (fun m => ids_weight (iw_message_ids m)) (cm_iwant c) +
  list_weight (fun m => field_weight (Zlen (cg_topic_id m))) (cm_graft c) +
  list_weight (fun m => field_weight (Zlen (pr_topic_id m)) + 20) (cm_prune c) +
  list_weight (fun m => ids_weight (dw_message_ids m)) (cm_idontwant c).
Definition rpc_weight (r : RPC) : Z :=
  list_weight (fun s => 20 + field_weight (Zlen (so_topic_id s))) (rpc_subscriptions r) +
  list_weight message_weight (rpc_publish r) +
  match rpc_control r with Some c => field_weight (control_weight c) | None => 0 end.

Lemma delimited_within field_number payload bound :
  0 <= field_number < 2 ^ 60 -> Zlen payload <= bound -> bound < 2 ^ 70 ->
  encodes_within (encode_length_delimited field_number payload) (field_weight bound).
Proof.
  intros Hf Hp Hb. unfold encode_length_delimited, field_weight.
  destruct (encode_tag_total field_number WIRE_TYPE_LENGTH_DELIMITED) as (tag & -> & Ht); [done..|]. mcbn.
  destruct (encode_varint_Ok (Zlen payload) VARINT_MAX_BYTES) as (len & -> & Hl); [done|change (2 ^ (7 * VARINT_MAX_BYTES)) with (2 ^ 70); lia|].
  mcbn. eexists. split; [done|]. unfold VARINT_MAX_BYTES in Hl. rewrite !Zlen_app. lia.
Qed.

Lemma nonempty_within field_number value bound :
  0 <= field_number < 2 ^ 60 -> field_weight (Zlen value) <= bound -> bound < 2 ^ 70 ->
  encodes_within (encode_nonempty field_number value) (field_weight (Zlen value)).
Proof.
  intros Hf Hv Hb. unfold field_weight in *. destruct value as [|b value]; [exists []; split; [done|cbn; lia]|].
  apply delimited_within; [done|lia|cbn in *; lia].
Qed.

Lemma within_bind {A} (r : result bytes) (k : bytes -> result A) w (P : result A -> Prop) :
  encodes_within r w -> (forall bs, Zlen bs <= w -> P (k bs)) -> P (bs ← r; k bs).
Proof. intros (bs & -> & Hb) Hk. by apply Hk. Qed.

Lemma list_weight_nonneg {A} (weight : A -> Z) l : (forall x, 0 <= weight x) -> 0 <= list_weight weight l.
Proof. intros Hw. unfold list_weight, field_weight. induction l as [|x l IH]; cbn; [lia|]. specialize (Hw x). lia. Qed.
Lemma ids_weight_nonneg l : 0 <= ids_weight l.
Proof. apply list_weight_nonneg. intros. lia. Qed.
Lemma list_weight_elem {A} (weight : A -> Z) l x :
  (forall x, 0 <= weight x) -> x ∈ l -> field_weight (weight x) <= list_weight weight l.
Proof.
  intros Hw. induction 1 as [x l|x y l _ IH]; unfold list_weight, field_weight in *; cbn.
  - pose proof (list_weight_nonneg weight l Hw). unfold list_weight, field_weight in *. lia.
  - specialize (Hw y). lia.
Qed.

Lemma all_within {A} (encode : A -> result bytes) (weight : A -> Z) l :
  (forall x, x ∈ l -> encodes_within (encode x) (field_weight (weight x))) ->
  encodes_within (encode_all encode l) (list_weight weight l).
Proof.
  intros Hx. induction l as [|x l IH]; [by exists []|].
  destruct (Hx x) as (bx & Ex & Hb); [left|]. destruct IH as (bs & Es & Hbs); [intros; apply Hx; by right|].
  unfold encode_all in *. apply fmap_Ok in Es as (k & Ek & ->). cbn [mapM]. rewrite Ex. mcbn.
  rewrite Ek. mcbn. eexists. split; [done|]. cbn [mjoin list_join].
  change (list_weight weight (x :: l)) with (field_weight (weight x) + list_weight weight l). rewrite Zlen_app. by apply Z.add_le_mono.
Qed.

Lemma nested_within {A} field_number (encode : A -> result bytes) (weight : A -> Z) l :
  0 <= field_number < 2 ^ 60 -> (forall x, 0 <= weight x) -> list_weight weight l < 2 ^ 70 ->
  (forall x, x ∈ l -> weight x < 2 ^ 70 -> encodes_within (encode x) (weight x)) ->
  encodes_within (encode_all (encode_nested field_number encode) l) (list_weight weight l).
Proof.
  intros Hf Hw Hl He. apply all_within. intros x Hx. pose proof (list_weight_elem weight l x Hw Hx) as Hle.
  unfold field_weight in Hle. unfold encode_nested. eapply within_bind; [apply He; [done|lia]|].
  intros bs Hb. apply delimited_within; [done|done|lia].
Qed.

Lemma ids_within field_number ids :
  0 <= field_number < 2 ^ 60 -> ids_weight ids < 2 ^ 70 ->
  encodes_within (encode_all (encode_bytes field_number) ids) (ids_weight ids).
Proof.
  intros Hf Hi. apply all_within. intros id Hid.
  pose proof (list_weight_elem (fun id : bytes => Zlen id) ids id (fun id => Zlength_nonneg id) Hid) as Hle. unfold field_weight, ids_weight in *.
  by apply delimited_within; [| |lia].
Qed.

(** Collects the parts of an encoding. *)
Ltac sum_parts :=
  match goal with
  | |- encodes_within (_ ← _; _) _ => eapply within_bind; [|intros ? ?; cbn beta; sum_parts]
  | |- encodes_within (Ok _) _ => eexists; split; [reflexivity|]
  | _ => idtac
  end.

Lemma SubOpts_within s :
  20 + field_weight (Zlen (so_topic_id s)) < 2 ^ 70 -> encodes_within (SubOpts_encode s) (20 + field_weight (Zlen (so_topic_id s))).
Proof.
  intros Hs. unfold SubOpts_encode, encode_bool, encode_string.
  destruct (encode_tag_total 1 WIRE_TYPE_VARINT) as (tag & -> & Ht); [done..|]. mcbn.
  destruct (encode_varint_Ok (if so_subscribe s then 1 else 0) VARINT_MAX_BYTES) as (flag & -> & Hl); [done|by destruct (so_subscribe s)|].
  mcbn. unfold VARINT_MAX_BYTES in Hl. unfold field_weight in *.
  eapply within_bind; [apply (delimited_within 2 _ (Zlen (so_topic_id s))); [done|lia..]|].
  intros bs Hb. unfold field_weight in Hb. eexists. split; [done|]. rewrite !Zlen_app. lia.
Qed.

Lemma Message_within m : message_weight m < 2 ^ 70 -> encodes_within (Message_encode m) (message_weight m).
Proof.
  unfold message_weight. intros Hm. assert (forall v : bytes, 0 <= field_weight (Zlen v)) as Hp by (unfold field_weight; lia).
  pose proof (Hp (ms_from_peer m)). pose proof (Hp (ms_data m)). pose proof (Hp (ms_seqno m)). pose proof (Hp (ms_topic m)).
  pose proof (Hp (ms_signature m)). pose proof (Hp (ms_key m)).
  unfold Message_encode. sum_parts; [by eapply nonempty_within; [|reflexivity|lia]..|]. rewrite !Zlen_app. lia.
Qed.

Lemma ControlPrune_within m :
  0 <= pr_backoff m < 2 ^ 70 -> field_weight (Zlen (pr_topic_id m)) + 20 < 2 ^ 70 ->
  encodes_within (ControlPrune_encode m) (field_weight (Zlen (pr_topic_id m)) + 20).
Proof.
  intros Hb Hw. unfold ControlPrune_encode. sum_parts; [by eapply nonempty_within; [|reflexivity|lia]| |].
  - destruct (0 <? pr_backoff m); [|instantiate (1 := 20); exists []; split; [done|cbn; lia]].
    unfold encode_uint64. destruct (encode_tag_total 3 WIRE_TYPE_VARINT) as (tag & -> & Ht); [done..|]. mcbn.
    destruct (encode_varint_Ok (pr_backoff m) VARINT_MAX_BYTES) as (v & -> & Hl); [done|done|]. mcbn.
    unfold VARINT_MAX_BYTES in Hl. eexists. split; [done|]. rewrite Zlen_app. lia.
  - rewrite Zlen_app. lia.
Qed.

Record backoffs_ok (c : ControlMessage) : Prop := { bo_prune : Forall (fun m => pr_backoff m < 2 ^ 70) (cm_prune c) }.

Lemma field_weight_nonneg (v : bytes) : 0 <= field_weight (Zlen v).
Proof. unfold field_weight. lia. Qed.
#[local] Hint Resolve field_weight_nonneg ids_weight_nonneg list_weight_nonneg Z.add_nonneg_nonneg : weights.

Lemma message_weight_nonneg m : 0 <= message_weight m.
Proof. unfold message_weight. auto 8 with weights. Qed.
#[local] Hint Resolve message_weight_nonneg : weights.

Lemma control_weight_nonneg c : 0 <= control_weight c.
Proof. unfold control_weight. repeat apply Z.add_nonneg_nonneg; apply list_weight_nonneg; intros; auto with weights zarith. Qed.

Lemma ControlMessage_within c :
  control_ok c -> backoffs_ok c -> control_weight c < 2 ^ 70 -> encodes_within (ControlMessage_encode c) (control_weight c).
Proof.
  intros Hc [Hb] Hw. unfold control_weight in *.
  set (w1 := list_weight _ (cm_ihave c)) in *. set (w2 := list_weight _ (cm_iwant c)) in *. set (w3 := list_weight _ (cm_graft c)) in *.
  set (w4 := list_weight _ (cm_prune c)) in *. set (w5 := list_weight _ (cm_idontwant c)) in *.
  assert (0 <= w1 /\ 0 <= w2 /\ 0 <= w3 /\ 0 <= w4 /\ 0 <= w5) as (? & ? & ? & ? & ?)
    by (split_and!; apply list_weight_nonneg; intros; auto with weights zarith).
  unfold ControlMessage_encode. sum_parts.
  - apply (nested_within 1 _ (fun m => field_weight (Zlen (ih_topic_id m)) + ids_weight (ih_message_ids m)));
      [done|intros; auto with weights|fold w1; lia|].
    intros m _ Hm. pose proof (field_weight_nonneg (ih_topic_id m)). pose proof (ids_weight_nonneg (ih_message_ids m)).
    unfold ControlIHave_encode. sum_parts; [by eapply nonempty_within; [|reflexivity|lia]|by apply ids_within; [|lia]|].
    rewrite Zlen_app. lia.
  - apply (nested_within 2 _ (fun m => ids_weight (iw_message_ids m))); [done|intros; auto with weights|fold w2; lia|].
    intros m _ Hm. by apply ids_within.
  - apply (nested_within 3 _ (fun m => field_weight (Zlen (cg_topic_id m)))); [done|intros; auto with weights|fold w3; lia|].
    intros m _ Hm. by eapply nonempty_within; [|reflexivity|].
  - apply (nested_within 4 _ (fun m => field_weight (Zlen (pr_topic_id m)) + 20)); [done|intros; auto with weights zarith|fold w4; lia|].
    intros m Hm Hw4. apply ControlPrune_within; [|done]. rewrite !Forall_forall in *. split; [|by apply Hb].
    pose proof (co_prune _ Hc) as Hp. rewrite Forall_forall in Hp. by apply Hp.
  - apply (nested_within 5 _ (fun m => ids_weight (dw_message_ids m))); [done|intros; auto with weights|fold w5; lia|].
    intros m _ Hm. by apply ids_within.
  - repeat match goal with H : Zlen _ <= _ |- _ => progress fold w1 w2 w3 w4 w5 in H end. rewrite !Zlen_app. lia.
Qed.

Lemma RPC_within r :
  rpc_ok r -> (forall c, rpc_control r = Some c -> backoffs_ok c) -> rpc_weight r < 2 ^ 70 ->
  encodes_within (RPC_encode r) (rpc_weight r).
Proof.
  intros [_ _ Hc] Hb Hw. unfold rpc_weight in *.
  set (w1 := list_weight _ (rpc_subscriptions r)) in *. set (w2 := list_weight _ (rpc_publish r)) in *.
  set (w3 := match rpc_control r with Some _ => _ | None => _ end) in *.
  assert (0 <= w1 /\ 0 <= w2) as (? & ?) by (split_and!; apply list_weight_nonneg; intros; auto with weights zarith).
  assert (0 <= w3).
  { subst w3. destruct (rpc_control r) as [c|]; [|done]. unfold field_weight. pose proof (control_weight_nonneg c). lia. }
  unfold RPC_encode. sum_parts.
  - apply (nested_within 1 _ (fun s => 20 + field_weight (Zlen (so_topic_id s)))); [done|intros; auto with weights zarith|fold w1; lia|].
    intros s _. apply SubOpts_within.
  - apply (nested_within 2 _ message_weight); [done|intros; auto with weights|fold w2; lia|]. intros m _. apply Message_within.
  - instantiate (1 := w3). subst w3. destruct (rpc_control r) as [c|]; [|by exists []].
    destruct (is_empty c); [exists []; split; [done|cbn; lia]|]. unfold encode_nested. unfold field_weight in *.
    eapply within_bind; [apply ControlMessage_within; [by apply Hc|by apply Hb|lia]|]. intros data Hdata.
    apply delimited_within; [done|done|lia].
  - repeat match goal with H : Zlen _ <= _ |- _ => progress fold w1 w2 in H end. rewrite !Zlen_app. lia.
Qed.

(** ** Arbitrary bytes *)
Definition rpc_exn (e : exn) : Prop := e = VarintError \/ e = ProtobufDecodeError \/ e = UnicodeError.

(** A step keeps the state well-formed and makes no step back, or raises. *)
Definition advances {A} (P : A -> Prop) (step : field_step A) : Prop := forall data st field_num wire_type pos,
  P st -> 0 <= pos ->
  match step data st field_num wire_type pos with
  | Ok (st', pos') => P st' /\ pos <= pos'
  | Err e => rpc_exn e
  end.
Definition decodes {A} (P : A -> Prop) (r : result A) : Prop := match r with Ok x => P x | Err e => rpc_exn e end.

Lemma decode_length_cases data pos :
  0 <= pos -> decodes (fun '(n, from) => 0 <= n /\ pos < from) (_decode_length_at data pos).
Proof.
  intros Hp. unfold _decode_length_at, rpc_exn, decodes.
  destruct (decode_varint_cases data pos VARINT_MAX_BYTES Hp ltac:(done)) as [(v & c & -> & Hv & Hc & Hl)| ->]; [|by left].
  mcbn. destruct (Z.ltb_spec (Zlen data) (pos + c + v)); cbn [negb]; [by right; left|]. lia.
Qed.

Lemma skip_field_cases data pos wire_type : 0 <= pos -> decodes (fun pos' => pos <= pos') (_skip_field data pos wire_type).
Proof.
  intros Hp. unfold _skip_field, decodes. destruct (wire_type =? _).
  - destruct (decode_varint_cases data pos VARINT_MAX_BYTES Hp ltac:(done)) as [(v & c & -> & Hv & Hc & Hl)| ->]; mcbn; [lia|by left].
  - destruct (wire_type =? _).
    + pose proof (decode_length_cases data pos Hp) as H. destruct (_decode_length_at data pos) as [[n from]|e]; mcbn; [cbn in H; lia|done].
    + destruct (wire_type =? _); [lia|]. destruct (wire_type =? _); [lia|]. by right; left.
Qed.

Lemma decode_fields_cases {A} (P : A -> Prop) (step : field_step A) init data :
  advances P step -> P init -> decodes P (decode_fields step init data).
Proof.
  intros Hs Hi. unfold decode_fields.
  assert (forall fuel st pos, P st -> 0 <= pos -> Zlen data - pos <= Z.of_nat fuel ->
    decodes P (read_fields step fuel data st pos)) as H; [|by apply H; [|lia..]].
  induction fuel as [|fuel IH]; intros st pos Hst Hp Hf; cbn [read_fields]; destruct (Z.ltb_spec pos (Zlen data)) as [Hl|]; [lia|done| |done].
  unfold decode_tag. destruct (decode_varint_cases data pos VARINT_MAX_BYTES Hp ltac:(done)) as [(v & c & -> & Hv & Hc & Hd)| ->]; mcbn; [|by left].
  specialize (Hs data st (Z.shiftr v 3) (Z.land v 7) (pos + c) Hst ltac:(lia)).
  destruct (step _ _ _ _ _) as [[st' pos']|e]; mcbn; [|done]. destruct Hs. apply IH; [done|lia..].
Qed.

Lemma skip_advances {A} (P : A -> Prop) data st wire_type pos :
  P st -> 0 <= pos ->
  match (pos ← _skip_field data pos wire_type; Ok (st, pos)) with Ok (st', pos') => P st' /\ pos <= pos' | Err e => rpc_exn e end.
Proof. intros Hst Hp. pose proof (skip_field_cases data pos wire_type Hp) as H. by destruct (_skip_field data pos wire_type). Qed.

Lemma decode_utf8_cases t : decodes (fun t => utf8_valid t = true) (decode_utf8 t).
Proof. unfold decode_utf8. destruct (utf8_valid t) eqn:E; [done|]. by right; right. Qed.

Lemma delimited_advances {A} (P : A -> Prop) (assign : A -> Z -> bytes -> result A) :
  (forall st n payload, P st -> decodes P (assign st n payload)) -> advances P (delimited assign).
Proof.
  intros Ha data st n w pos Hst Hp. unfold delimited. destruct (w =? _); [|by apply skip_advances].
  pose proof (decode_length_cases data pos Hp) as H. destruct (_decode_length_at data pos) as [[k from]|e]; mcbn; [|done].
  specialize (Ha st n (slice data from (from + k)) Hst). destruct (assign _ _ _); mcbn; [|done]. cbn in H. split; [done|lia].
Qed.

(** Steps that test the field number: a string field, or a varint field, or skipped *)
Ltac advance :=
  intros d st n w pos Hst Hp;
  repeat match goal with
  | |- match (if ?b then _ else _) with _ => _ end => destruct b
  end;
  [..|by apply skip_advances];
  first
  [ pose proof (decode_length_cases d pos Hp) as Hl; destruct (_decode_length_at d pos) as [[k from]|e]; mcbn; [|done];
    cbn in Hl;
    try (pose proof (decode_utf8_cases (slice d from (from + k))) as Hu; destruct (decode_utf8 _); mcbn; [|done]);
    (split; [|lia])
  | destruct (decode_varint_cases d pos VARINT_MAX_BYTES Hp ltac:(done)) as [(v & c & -> & Hv & Hc & Hd)| ->]; mcbn;
    [split; [|lia]|by left] ].

Lemma SubOpts_decode_cases data : decodes (fun s => utf8_valid (so_topic_id s) = true) (SubOpts_decode data).
Proof. apply decode_fields_cases; [|done]. unfold SubOpts_field. advance; done. Qed.
Lemma ControlGraft_decode_cases data : decodes (fun m => utf8_valid (cg_topic_id m) = true) (ControlGraft_decode data).
Proof. apply decode_fields_cases; [|done]. unfold ControlGraft_field. advance; done. Qed.
Lemma ControlPrune_decode_cases data :
  decodes (fun m => utf8_valid (pr_topic_id m) = true /\ 0 <= pr_backoff m) (ControlPrune_decode data).
Proof. apply decode_fields_cases; [|done]. unfold ControlPrune_field. advance; destruct Hst; done. Qed.
Lemma ids_decode_cases data : decodes (fun _ => True) (decode_fields ids_field [] data).
Proof. apply decode_fields_cases; [|done]. unfold ids_field. advance; done. Qed.

Lemma Message_decode_cases data : decodes (fun m => utf8_valid (ms_topic m) = true) (Message_decode data).
Proof.
  apply decode_fields_cases; [|done]. apply delimited_advances. intros st n payload Hst.
  pose proof (decode_utf8_cases payload) as Hu. unfold Message_assign.
  repeat case_match; try done. by destruct (decode_utf8 payload).
Qed.
Lemma ControlIHave_decode_cases data : decodes (fun m => utf8_valid (ih_topic_id m) = true) (ControlIHave_decode data).
Proof.
  apply decode_fields_cases; [|done]. apply delimited_advances. intros st n payload Hst.
  pose proof (decode_utf8_cases payload) as Hu. unfold ControlIHave_assign.
  repeat case_match; try done. by destruct (decode_utf8 payload).
Qed.

Lemma ControlMessage_decode_cases data : decodes control_ok (ControlMessage_decode data).
Proof.
  apply decode_fields_cases; [|by split]. apply delimited_advances. intros st n payload [H1 H3 H4].
  pose proof (ControlIHave_decode_cases payload). pose proof (ControlGraft_decode_cases payload).
  pose proof (ControlPrune_decode_cases payload). pose proof (ids_decode_cases payload).
  unfold ControlMessage_assign, ControlIWant_decode, ControlIDontWant_decode. repeat case_match; try by split.
  all: unfold mbind, result_bind in *; repeat case_match; simplify_eq; try done.
  all: split; cbn; try done; by apply Forall_app_2; [|constructor].
Qed.

Lemma RPC_decode_cases data : decodes rpc_ok (RPC_decode data).
Proof.
  apply decode_fields_cases; [|by split]. apply delimited_advances. intros st n payload [H1 H2 H3].
  pose proof (SubOpts_decode_cases payload). pose proof (Message_decode_cases payload). pose proof (ControlMessage_decode_cases payload).
  unfold RPC_assign. repeat case_match; try by split.
  all: unfold mbind, result_bind in *; repeat case_match; simplify_eq; try done.
  all: split; cbn; try done; try (by apply Forall_app_2; [|constructor]). by intros c [= <-].
Qed.

(** ** The theorems *)

(** An RPC whose topics are strings and whose sizes and backoffs fit a varint is
    encoded within 20 bytes per field more than its contents, and decoding the bytes
    gives it back; only an empty control message is lost. *)
Theorem gossip_rpc_roundtrip (r : RPC) :
  rpc_ok r -> (forall c, rpc_control r = Some c -> backoffs_ok c) -> rpc_weight r < 2 ^ 70 ->
  exists bs, RPC_encode r = Ok bs /\ Zlen bs <= rpc_weight r /\ RPC_decode bs = Ok (normal_rpc r).
Proof.
  intros Hr Hb Hw. destruct (RPC_within r Hr Hb Hw) as (bs & E & Hl). exists bs. split_and!; [done|done|by apply RPC_reads].
Qed.

Definition sample_rpc : RPC := {|
  rpc_subscriptions := [{| so_subscribe := true; so_topic_id := [Byte.x61] |}; {| so_subscribe := false; so_topic_id := [] |}];
  rpc_publish := [{| ms_from_peer := []; ms_data := [Byte.x00; Byte.xff]; ms_seqno := []; ms_topic := [Byte.xc3; Byte.xa9];
                     ms_signature := []; ms_key := [] |}];
  rpc_control := Some {| cm_ihave := [{| ih_topic_id := [Byte.x61]; ih_message_ids := [[Byte.x01]; []] |}]; cm_iwant := [];
                         cm_graft := [{| cg_topic_id := [Byte.x62] |}];
                         cm_prune := [{| pr_topic_id := [Byte.x62]; pr_backoff := 60 |}]; cm_idontwant := [] |} |}.

Lemma gossip_rpc_roundtrip_witness :
  exists bs, RPC_encode sample_rpc = Ok bs /\ Zlen bs <= rpc_weight sample_rpc /\ RPC_decode bs = Ok (normal_rpc sample_rpc).
Proof.
  apply (gossip_rpc_roundtrip sample_rpc).
  - split; [repeat constructor|repeat constructor|]. intros c [= <-]. split; repeat constructor. discriminate.
  - intros c [= <-]. repeat constructor.
  - vm_compute. reflexivity.
Defined.

(** Decoding arbitrary bytes ends, with an RPC whose topics are valid strings and
    whose backoffs are not negative, or with one of three exceptions: a bad varint, a
    length or wire type the format does not allow, or a topic that is not UTF-8. *)
Theorem gossip_rpc_decode_typed (data : bytes) :
  match RPC_decode data with
  | Ok r => rpc_ok r
  | Err e => e = VarintError \/ e = ProtobufDecodeError \/ e = UnicodeError
  end.
Proof. exact (RPC_decode_cases data). Qed.
