(* ===== verification/GossipTopic.v ===== *)
(** * Gossip topics (node/networking/gossipsub/topic.py, client/event_source/gossip.py)

    A topic names the fork and the kind of message, and travels as a string.  A Python
    [str] is its UTF-8 bytes, as in GossipRpc.v; the separator is one byte, so splitting
    bytes splits the string.  The subnet of a topic goes through [int(str)], which is here
    with everything it accepts. *)

From S2P Require Import Prelude Uint GossipRpc.
From Stdlib Require Import String.

Local Open Scope Z_scope.
Local Open Scope list_scope.

Abbreviation str := list_byte_of_string.
Definition slash : Byte.byte := Byte.x2f.

(** ** [int(str)] *)

(** The code points of a valid UTF-8 string *)
Fixpoint utf8_codes (l : bytes) : list Z :=
  match l with
  | [] => []
  | a :: l1 =>
      if byte_in 0x00 0x7F a then byte.unsigned a :: utf8_codes l1
      else match l1 with
      | [] => []
      | b :: l2 =>
          if byte_in 0xC2 0xDF a then byte.unsigned a mod 32 * 64 + byte.unsigned b mod 64 :: utf8_codes l2
          else match l2 with
          | [] => []
          | c :: l3 =>
              if byte_in 0xE0 0xEF a then
                byte.unsigned a mod 16 * 4096 + byte.unsigned b mod 64 * 64 + byte.unsigned c mod 64 :: utf8_codes l3
              else match l3 with
              | [] => []
              | d :: l4 =>
                  byte.unsigned a mod 8 * 262144 + byte.unsigned b mod 64 * 4096 + byte.unsigned c mod 64 * 64 +
                    byte.unsigned d mod 64 :: utf8_codes l4
              end
          end
      end
  end.

(** The zeros of the runs of decimal digits (category Nd of Unicode 15, of Python 3.12) *)
Definition decimal_zeros : list Z :=
  [0x30; 0x660; 0x6F0; 0x7C0; 0x966; 0x9E6; 0xA66; 0xAE6; 0xB66; 0xBE6; 0xC66; 0xCE6; 0xD66; 0xDE6; 0xE50; 0xED0;
   0xF20; 0x1040; 0x1090; 0x17E0; 0x1810; 0x1946; 0x19D0; 0x1A80; 0x1A90; 0x1B50; 0x1BB0; 0x1C40; 0x1C50; 0xA620;
   0xA8D0; 0xA900; 0xA9D0; 0xA9F0; 0xAA50; 0xABF0; 0xFF10; 0x104A0; 0x10D30; 0x11066; 0x110F0; 0x11136; 0x111D0;
   0x112F0; 0x11450; 0x114D0; 0x11650; 0x116C0; 0x11730; 0x118E0; 0x11950; 0x11C50; 0x11D50; 0x11DA0; 0x11F50;
   0x16A60; 0x16AC0; 0x16B50; 0x1D7CE; 0x1D7D8; 0x1D7E2; 0x1D7EC; 0x1D7F6; 0x1E140; 0x1E2F0; 0x1E4F0; 0x1E950; 0x1FBF0].
Definition decimal_value (c : Z) : option Z :=
  match filter (fun zero => zero <= c < zero + 10) decimal_zeros with
  | zero :: _ => Some (c - zero)
  | [] => None
  end.

(** Spaces beyond ASCII *)
Definition unicode_space (c : Z) : bool :=
  bool_decide (c ∈ [0x85; 0xA0; 0x1680; 0x2028; 0x2029; 0x202F; 0x205F; 0x3000]) || ((0x2000 <=? c) && (c <=? 0x200A)).

(** Digits and spaces are brought to ASCII, anything else beyond it to a question mark. *)
Definition to_ascii (c : Z) : Z :=
  if c <? 127 then c
  else if unicode_space c then 0x20
  else match decimal_value c with Some d => 0x30 + d | None => 0x3F end.

Definition ascii_space (c : Z) : bool := (c =? 0x20) || ((0x09 <=? c) && (c <=? 0x0D)).
Definition ascii_digit (c : Z) : bool := (0x30 <=? c) && (c <=? 0x39).

Fixpoint skip_spaces (l : list Z) : list Z :=
  match l with
  | c :: rest => if ascii_space c then skip_spaces rest else l
  | [] => []
  end.

(** Digits with single underscores between them: the value, the number of digits and what follows *)
Fixpoint read_digits (after_digit : bool) (value digits : Z) (l : list Z) : result (Z * Z * list Z) :=
  match l with
  | c :: rest =>
      if ascii_digit c then read_digits true (10 * value + (c - 0x30)) (digits + 1) rest
      else if c =? 0x5F then check! after_digit else ValueError;; read_digits false value digits rest
      else check! after_digit else ValueError;; Ok (value, digits, l)
  | [] => check! after_digit else ValueError;; Ok (value, digits, [])
  end.

(** [sys.int_info.default_max_str_digits] *)
Definition MAX_STR_DIGITS : Z := 4300.

Definition int_of_codes (codes : list Z) : result Z :=
  let text := skip_spaces (map to_ascii codes) in
  let '(sign, text) :=
    match text with
    | 0x2B :: rest => (1, rest)
    | 0x2D :: rest => (-1, rest)
    | _ => (1, text)
    end in
  '(value, digits, rest) ← read_digits false 0 0 text;
  check! digits <=? MAX_STR_DIGITS else ValueError;;
  match skip_spaces rest with
  | [] => Ok (sign * value)
  | _ => Err ValueError
  end.
Definition int_of_str (s : bytes) : result Z := int_of_codes (utf8_codes s).

(** [str(int)] for a number that is not negative *)
Fixpoint decimal (fuel : nat) (n : Z) : bytes :=
  match fuel with
  | O => [byte.of_Z (0x30 + n)]
  | S fuel => if n <? 10 then [byte.of_Z (0x30 + n)] else decimal fuel (n / 10) ++ [byte.of_Z (0x30 + n mod 10)]
  end.
(** Twenty digits hold every 64-bit number. *)
Definition str_of_uint64 (n : Z) : bytes := decimal 19 n.

(** ** Topics *)
Definition TOPIC_PREFIX : bytes := str "leanconsensus".
Definition ENCODING_POSTFIX : bytes := str "ssz_snappy".
Definition BLOCK_TOPIC_NAME : bytes := str "block".
Definition ATTESTATION_SUBNET_TOPIC_PREFIX : bytes := str "attestation".
Definition AGGREGATED_ATTESTATION_TOPIC_NAME : bytes := str "aggregation".

Inductive TopicKind := BLOCK | ATTESTATION_SUBNET | AGGREGATED_ATTESTATION.
Definition TopicKind_value (kind : TopicKind) : bytes :=
  match kind with
  | BLOCK => BLOCK_TOPIC_NAME
  | ATTESTATION_SUBNET => ATTESTATION_SUBNET_TOPIC_PREFIX
  | AGGREGATED_ATTESTATION => AGGREGATED_ATTESTATION_TOPIC_NAME
  end.
(** [TopicKind(topic_name)] *)
Definition TopicKind_of (topic_name : bytes) : result TopicKind :=
  if bool_decide (topic_name = BLOCK_TOPIC_NAME) then Ok BLOCK
  else if bool_decide (topic_name = ATTESTATION_SUBNET_TOPIC_PREFIX) then Ok ATTESTATION_SUBNET
  else if bool_decide (topic_name = AGGREGATED_ATTESTATION_TOPIC_NAME) then Ok AGGREGATED_ATTESTATION
  else Err ValueError.

Record GossipTopic := {
  gt_kind : TopicKind;
  gt_network_name : bytes;
  gt_subnet_id : option Z
}.
#[export] Instance TopicKind_eq_dec : EqDecision TopicKind.
Proof. solve_decision. Defined.

Definition join_topic (network_name topic_name : bytes) : TopicId :=
  [slash] ++ TOPIC_PREFIX ++ [slash] ++ network_name ++ [slash] ++ topic_name ++ [slash] ++ ENCODING_POSTFIX.

Definition to_topic_id (self : GossipTopic) : result TopicId :=
  topic_name ←
    match gt_kind self with
    | ATTESTATION_SUBNET => subnet_id ← of_option ValueError (gt_subnet_id self); Ok (str "attestation_" ++ str_of_uint64 subnet_id)
    | kind => Ok (TopicKind_value kind)
    end;
  Ok (join_topic (gt_network_name self) topic_name).

(** [topic_str.lstrip("/")] *)
Fixpoint lstrip (c : Byte.byte) (l : bytes) : bytes :=
  match l with
  | b :: rest => if bool_decide (b = c) then lstrip c rest else l
  | [] => []
  end.
(** [l.split(c)] *)
Fixpoint split (c : Byte.byte) (l : bytes) : list bytes :=
  match l with
  | [] => [[]]
  | b :: rest =>
      if bool_decide (b = c) then [] :: split c rest
      else match split c rest with
           | part :: parts => (b :: part) :: parts
           | [] => [[b]]
           end
  end.

Definition parse_topic_string (topic_str : bytes) : result (bytes * bytes * bytes * bytes) :=
  match split slash (lstrip slash topic_str) with
  | [a; b; c; d] => Ok (a, b, c, d)
  | _ => Err ValueError
  end.

(** [s.startswith(prefix)], with what follows *)
Fixpoint after_prefix (prefix s : bytes) : option bytes :=
  match prefix, s with
  | [], s => Some s
  | p :: prefix, b :: s => if bool_decide (p = b) then after_prefix prefix s else None
  | _ :: _, [] => None
  end.

Definition from_string (topic_str : bytes) : result GossipTopic :=
  '(prefix, network_name, topic_name, encoding) ← parse_topic_string topic_str;
  check! bool_decide (prefix = TOPIC_PREFIX) else ValueError;;
  check! bool_decide (encoding = ENCODING_POSTFIX) else ValueError;;
  let other := kind ← TopicKind_of topic_name; Ok {| gt_kind := kind; gt_network_name := network_name; gt_subnet_id := None |} in
  match after_prefix (str "attestation_") topic_name with
  | Some subnet_part =>
      match (n ← int_of_str subnet_part; uint_new 64 n) with
      | Ok subnet_id => Ok {| gt_kind := ATTESTATION_SUBNET; gt_network_name := network_name; gt_subnet_id := Some subnet_id |}
      | Err ValueError => other
      | Err e => Err e
      end
  | None => other
  end.

Definition validate_fork (self : GossipTopic) (expected_network_name : bytes) : result unit :=
  check! bool_decide (gt_network_name self = expected_network_name) else ForkMismatchError;; Ok tt.

Definition from_string_validated (topic_str expected_network_name : bytes) : result GossipTopic :=
  topic ← from_string topic_str;
  _ ← validate_fork topic expected_network_name;
  Ok topic.

Definition block (network_name : bytes) : GossipTopic :=
  {| gt_kind := BLOCK; gt_network_name := network_name; gt_subnet_id := None |}.
Definition committee_aggregation (network_name : bytes) : GossipTopic :=
  {| gt_kind := AGGREGATED_ATTESTATION; gt_network_name := network_name; gt_subnet_id := None |}.
Definition attestation_subnet (network_name : bytes) (subnet_id : Z) : GossipTopic :=
  {| gt_kind := ATTESTATION_SUBNET; gt_network_name := network_name; gt_subnet_id := Some subnet_id |}.

(** ** [GossipHandler.get_topic] *)
Definition get_topic (network_name topic_str : bytes) : result GossipTopic :=
  match from_string_validated topic_str network_name with
  | Err ValueError => Err GossipMessageError
  | r => r
  end.

(** ** Proofs *)
Example int_samples :
  map (fun s => int_of_str (str s)) ["7"; " +1_0 "; "-0"; "_1"; "1__0"; "1_"; "+"; ""; "1 2"; "0x1"]%string =
    [Ok 7; Ok 10; Ok 0; Err ValueError; Err ValueError; Err ValueError; Err ValueError; Err ValueError; Err ValueError; Err ValueError] /\
  int_of_str [Byte.xd9; Byte.xa3; Byte.x31] = Ok 31 /\ int_of_str [Byte.xc2; Byte.xa0; Byte.x35] = Ok 5.
Proof. vm_compute. repeat split. Qed.

Section Decimal.
Definition digit_byte (b : Byte.byte) : Prop := 0x30 <= byte.unsigned b <= 0x39.

Lemma digit_of n : 0 <= n < 10 -> byte.unsigned (byte.of_Z (0x30 + n)) = 0x30 + n.
Proof. intros Hn. rewrite byte.unsigned_of_Z. apply Z.mod_small. lia. Qed.

Lemma decimal_digits fuel : forall n, 0 <= n < 10 ^ Z.of_nat (S fuel) ->
  Forall digit_byte (decimal fuel n) /\ 1 <= Zlen (decimal fuel n) <= Z.of_nat (S fuel).
Proof.
  induction fuel as [|fuel IH]; intros n Hn; cbn [decimal].
  - change (10 ^ Z.of_nat 1) with 10 in Hn. split; [|cbn; lia]. constructor; [|constructor]. unfold digit_byte. rewrite digit_of by lia. lia.
  - destruct (Z.ltb_spec n 10); [split; [constructor; [unfold digit_byte; rewrite digit_of by lia; lia|constructor]|cbn; lia]|].
    destruct (IH (n / 10)) as [Hd Hl].
    { split; [apply Z.div_pos; lia|]. apply Z.div_lt_upper_bound; [lia|]. rewrite <- Z.pow_succ_r by lia.
      replace (Z.succ (Z.of_nat (S fuel))) with (Z.of_nat (S (S fuel))) by lia. lia. }
    pose proof (Z.mod_pos_bound n 10 ltac:(lia)). split.
    + apply Forall_app. split; [done|]. constructor; [unfold digit_byte; rewrite digit_of by lia; lia|constructor].
    + rewrite length_app. cbn [List.length]. lia.
Qed.

Lemma read_digit b v k d rest :
  0x30 <= d <= 0x39 -> read_digits b v k (d :: rest) = read_digits true (10 * v + (d - 0x30)) (k + 1) rest.
Proof. intros Hd. cbn [read_digits]. unfold ascii_digit. rewrite !(proj2 (Z.leb_le _ _)) by lia. done. Qed.

Lemma read_decimal fuel : forall n b v k rest, 0 <= n < 10 ^ Z.of_nat (S fuel) ->
  read_digits b v k (map byte.unsigned (decimal fuel n) ++ rest) =
    read_digits true (v * 10 ^ Zlen (decimal fuel n) + n) (k + Zlen (decimal fuel n)) rest.
Proof.
  induction fuel as [|fuel IH]; intros n b v k rest Hn; cbn [decimal].
  - change (10 ^ Z.of_nat 1) with 10 in Hn. cbn [map app List.length]. rewrite digit_of by lia. rewrite read_digit by lia.
    change (10 ^ Z.of_nat 1) with 10. f_equal; lia.
  - destruct (Z.ltb_spec n 10).
    { cbn [map app List.length]. rewrite digit_of by lia. rewrite read_digit by lia. change (10 ^ Z.of_nat 1) with 10. f_equal; lia. }
    assert (0 <= n / 10 < 10 ^ Z.of_nat (S fuel)) as Hq.
    { split; [apply Z.div_pos; lia|]. apply Z.div_lt_upper_bound; [lia|]. rewrite <- Z.pow_succ_r by lia.
      replace (Z.succ (Z.of_nat (S fuel))) with (Z.of_nat (S (S fuel))) by lia. lia. }
    pose proof (Z.mod_pos_bound n 10 ltac:(lia)). rewrite map_app, <- app_assoc, IH by done. cbn [map app]. rewrite digit_of by lia.
    rewrite read_digit by lia. rewrite length_app. cbn [List.length].
    replace (Z.of_nat (List.length (decimal fuel (n / 10)) + 1)) with (Z.succ (Zlen (decimal fuel (n / 10)))) by lia.
    rewrite Z.pow_succ_r by lia. pose proof (Z.div_mod n 10 ltac:(lia)). f_equal; [|lia].
    set (x := 10 ^ Zlen (decimal fuel (n / 10))). replace (v * (10 * x) + n) with (10 * (v * x + n / 10) + n mod 10) by lia. lia.
Qed.

Lemma ascii_codes l : Forall digit_byte l -> map to_ascii (utf8_codes l) = map byte.unsigned l.
Proof.
  induction 1 as [|b l Hb Hl IH]; [done|]. unfold digit_byte in Hb. cbn [utf8_codes].
  unfold byte_in at 1. rewrite !(proj2 (Z.leb_le _ _)) by lia. cbn [andb map]. rewrite IH. f_equal.
  unfold to_ascii. by rewrite (proj2 (Z.ltb_lt _ _)) by lia.
Qed.

Lemma int_of_decimal n : 0 <= n < 2 ^ 64 -> int_of_str (str_of_uint64 n) = Ok n.
Proof.
  intros Hn. unfold str_of_uint64. assert (0 <= n < 10 ^ Z.of_nat 20) as H20 by (change (10 ^ Z.of_nat 20) with 100000000000000000000; lia).
  destruct (decimal_digits 19 n H20) as [Hd Hl]. unfold int_of_str, int_of_codes. rewrite ascii_codes by done.
  pose proof (read_decimal 19 n false 0 0 [] H20) as Er. rewrite app_nil_r in Er.
  destruct (decimal 19 n) as [|b l] eqn:E; [cbn in Hl; lia|]. apply Forall_cons in Hd as [Hb _]. unfold digit_byte in Hb.
  rewrite <- E in Hl, Er |- *. assert (map byte.unsigned (decimal 19 n) = byte.unsigned b :: map byte.unsigned l) as Em by (by rewrite E).
  rewrite Em in Er |- *. cbn [skip_spaces]. unfold ascii_space. rewrite (proj2 (Z.eqb_neq _ _)), (proj2 (Z.leb_gt _ 0x0D)) by lia.
  rewrite andb_false_r. cbn [orb].
  assert (match byte.unsigned b :: map byte.unsigned l with 0x2B :: rest => (1, rest) | 0x2D :: rest => (-1, rest) | _ => (1, byte.unsigned b :: map byte.unsigned l) end
    = (1, byte.unsigned b :: map byte.unsigned l)) as ->.
  { assert (byte.unsigned b <> 43 /\ byte.unsigned b <> 45) as [? ?] by lia. destruct (byte.unsigned b) as [|p|p]; [done| |done].
    repeat (destruct p as [p|p|]; try done). }
  rewrite Er. cbn [read_digits]. mcbn. rewrite (proj2 (Z.leb_le _ _)) by (unfold MAX_STR_DIGITS; lia).
  cbn [skip_spaces]. f_equal. lia.
Qed.
End Decimal.

(** ** Splitting *)
Lemma split_single c a : c ∉ a -> split c a = [a].
Proof.
  induction a as [|b a IH]; intros Hc; cbn [split]; [done|]. rewrite bool_decide_eq_false_2 by set_solver. rewrite IH by set_solver. done.
Qed.
Lemma split_app c a l : c ∉ a -> split c (a ++ c :: l) = a :: split c l.
Proof.
  induction a as [|b a IH]; intros Hc; cbn [split app].
  - by rewrite bool_decide_eq_true_2.
  - rewrite bool_decide_eq_false_2 by set_solver. rewrite IH by set_solver. done.
Qed.

Lemma no_slash_digits l : Forall digit_byte l -> slash ∉ l.
Proof.
  intros Hd Hin. rewrite Forall_forall in Hd. specialize (Hd _ Hin). unfold digit_byte in Hd.
  change (byte.unsigned slash) with 47 in Hd. lia.
Qed.

Lemma after_prefix_app prefix s : after_prefix prefix (prefix ++ s) = Some s.
Proof. induction prefix as [|b prefix IH]; cbn [after_prefix app]; [done|]. by rewrite bool_decide_eq_true_2. Qed.

(** A parsed topic has the parts it was joined from. *)
Lemma parse_join network_name topic_name :
  slash ∉ network_name -> slash ∉ topic_name ->
  parse_topic_string (join_topic network_name topic_name) = Ok (TOPIC_PREFIX, network_name, topic_name, ENCODING_POSTFIX).
Proof.
  intros Hn Ht. unfold parse_topic_string, join_topic.
  change (lstrip slash ([slash] ++ TOPIC_PREFIX ++ [slash] ++ network_name ++ [slash] ++ topic_name ++ [slash] ++ ENCODING_POSTFIX))
    with (TOPIC_PREFIX ++ slash :: (network_name ++ slash :: (topic_name ++ slash :: ENCODING_POSTFIX))).
  rewrite !split_app by (try done; apply (bool_decide_unpack _); vm_compute; exact I).
  rewrite split_single by (apply (bool_decide_unpack _); vm_compute; exact I). done.
Qed.

(** Topics that the constructors make *)
Definition topic_ok (t : GossipTopic) : Prop :=
  slash ∉ gt_network_name t /\ utf8_valid (gt_network_name t) = true /\
  match gt_kind t with
  | ATTESTATION_SUBNET => exists subnet_id, gt_subnet_id t = Some subnet_id /\ 0 <= subnet_id < 2 ^ 64
  | _ => gt_subnet_id t = None
  end.

Lemma topic_parts t : topic_ok t ->
  exists name, to_topic_id t = Ok (join_topic (gt_network_name t) name) /\ slash ∉ name /\ Forall (fun b => byte.unsigned b < 128) name /\
    from_string (join_topic (gt_network_name t) name) = Ok t.
Proof.
  intros (Hs & _ & Hk). destruct t as [kind name subnet]. cbn [gt_kind gt_network_name gt_subnet_id] in *.
  destruct kind.
  2: { destruct Hk as (n & -> & Hn). exists (str "attestation_" ++ str_of_uint64 n).
    destruct (decimal_digits 19 n) as [Hd _]; [change (10 ^ Z.of_nat 20) with 100000000000000000000; lia|].
    assert (slash ∉ str "attestation_" ++ str_of_uint64 n) as Hns.
    { intros [Hi|Hi]%elem_of_app; [|by apply (no_slash_digits _ Hd)]. revert Hi. apply (bool_decide_unpack _). vm_compute. exact I. }
    split_and!; [done|done| |].
    - apply Forall_app. split; [repeat constructor|]. eapply Forall_impl; [exact Hd|]. unfold digit_byte. intros b. lia.
    - unfold from_string. rewrite parse_join by done. mcbn. rewrite !bool_decide_eq_true_2 by done.
      rewrite after_prefix_app, int_of_decimal by done. mcbn. by rewrite uint_new_in_range. }
  all: subst subnet.
  1: exists BLOCK_TOPIC_NAME.
  2: exists AGGREGATED_ATTESTATION_TOPIC_NAME.
  all: assert (slash ∉ BLOCK_TOPIC_NAME /\ slash ∉ AGGREGATED_ATTESTATION_TOPIC_NAME) as [? ?] by (split; apply (bool_decide_unpack _); vm_compute; exact I).
  all: split_and!; [done|done|repeat constructor|]; unfold from_string; rewrite parse_join by done; mcbn;
    rewrite !bool_decide_eq_true_2 by done; done.
Qed.

(** ** Valid strings *)
Lemma utf8_ascii b l : byte.unsigned b < 128 -> utf8_valid (b :: l) = utf8_valid l.
Proof.
  intros Hb. cbn [utf8_valid]. pose proof (byte.unsigned_range b). unfold byte_in at 1.
  by rewrite !(proj2 (Z.leb_le _ _)) by lia.
Qed.
Lemma utf8_ascii_app a l : Forall (fun b => byte.unsigned b < 128) a -> utf8_valid (a ++ l) = utf8_valid l.
Proof. induction 1 as [|b a Hb Ha IH]; [done|]. cbn [app]. by rewrite utf8_ascii. Qed.

(** Valid strings concatenate. *)
Lemma utf8_app n : forall a l, (List.length a <= n)%nat -> utf8_valid a = true -> utf8_valid (a ++ l) = utf8_valid l.
Proof.
  induction n as [|n IH]; intros a l Hn Ha; (destruct a as [|b0 a]; [done|]); cbn [List.length] in Hn; [lia|].
  cbn [utf8_valid app] in Ha |- *. destruct (byte_in 0x00 0x7F b0); [apply IH; [lia|done]|].
  destruct a as [|b1 a]; [done|]. cbn [List.length app] in *. destruct (byte_in 0xC2 0xDF b0).
  { destruct (continuation b1); [|done]. apply IH; [lia|done]. }
  destruct a as [|b2 a]; [done|]. cbn [List.length app] in *. destruct (byte_in 0xE0 0xEF b0).
  { apply andb_prop in Ha as [Ha1 Ha]. rewrite Ha1. apply IH; [lia|done]. }
  destruct a as [|b3 a]; [done|]. cbn [List.length app] in *. apply andb_prop in Ha as [Ha1 Ha]. rewrite Ha1. apply IH; [lia|done].
Qed.

Lemma join_valid network_name name :
  utf8_valid network_name = true -> Forall (fun b => byte.unsigned b < 128) name -> utf8_valid (join_topic network_name name) = true.
Proof.
  intros Hv Hn. unfold join_topic. rewrite !utf8_ascii_app by (try done; repeat constructor).
  rewrite (utf8_app _ network_name _ (le_n _) Hv), !utf8_ascii_app by (try done; repeat constructor). done.
Qed.

(** Topics round trip.  The string of every topic the constructors make, for a network
    name without a slash, is valid UTF-8 and parses back to the topic, through the printing
    and the parsing of the subnet number; the handler accepts it under its own network name
    and raises [ForkMismatchError] under any other. *)
Theorem topic_roundtrip (t : GossipTopic) :
  topic_ok t ->
  exists topic_id, to_topic_id t = Ok topic_id /\ utf8_valid topic_id = true /\ from_string topic_id = Ok t /\
    forall network_name, get_topic network_name topic_id =
      if bool_decide (gt_network_name t = network_name) then Ok t else Err ForkMismatchError.
Proof.
  intros Ht. destruct (topic_parts t Ht) as (name & E & Hs & Ha & Ef). eexists. split; [exact E|].
  split; [apply join_valid; [apply Ht|done]|]. split; [done|]. intros network_name.
  unfold get_topic, from_string_validated. rewrite Ef. mcbn. unfold validate_fork. by case_bool_decide.
Qed.

Lemma topic_roundtrip_witness : exists topic_id,
  to_topic_id (attestation_subnet (str "12345678") 1729) = Ok topic_id /\ utf8_valid topic_id = true /\
  from_string topic_id = Ok (attestation_subnet (str "12345678") 1729) /\
  forall network_name, get_topic network_name topic_id =
    if bool_decide (str "12345678" = network_name) then Ok (attestation_subnet (str "12345678") 1729) else Err ForkMismatchError.
Proof.
  apply (topic_roundtrip (attestation_subnet (str "12345678") 1729)). split; [|split].
  - apply (bool_decide_unpack _). vm_compute. exact I.
  - reflexivity.
  - exists 1729. split; [reflexivity|lia].
Defined.

(** Negative and large subnets raise the SSZ error, which the fallback does not catch; a
    topic name without a number parses to a topic that cannot be printed. *)
Example odd_topics :
  from_string (join_topic (str "x") (str "attestation_-1")) = Err SSZValueError /\
  from_string (join_topic (str "x") (str "attestation_18446744073709551616")) = Err SSZValueError /\
  from_string (join_topic (str "x") (str "attestation_ +0_7 ")) = Ok (attestation_subnet (str "x") 7) /\
  (t ← from_string (join_topic (str "x") (str "attestation")); to_topic_id t) = Err ValueError.
Proof. vm_compute. repeat split. Qed.
