(* ===== verification/Snappy.v ===== *)
(** * Snappy compression and framing (node/snappy)

    The raw codec: tags for literals and back references, the hash-table compressor
    of 64 KiB blocks, the decompressor; and the framing format with its masked
    CRC32C checksums. *)

From S2P Require Import Prelude Uint Varint.

(** ** Constants (constants.py) *)
Definition BLOCK_SIZE : Z := Z.shiftl 1 16.
Definition INPUT_MARGIN_BYTES : Z := 15.
Definition LITERAL : Z := 0.
Definition COPY_1_BYTE_OFFSET : Z := 1.
Definition COPY_2_BYTE_OFFSET : Z := 2.
Definition COPY_4_BYTE_OFFSET : Z := 3.
Definition MIN_HASH_TABLE_BITS : Z := 8.
Definition MAX_HASH_TABLE_BITS : Z := 15.
Definition HASH_MULTIPLIER : Z := 0x1E35A7BD.
Definition MAX_INLINE_LITERAL_LENGTH : Z := 60.
Definition LITERAL_LENGTH_1_BYTE : Z := 60.
Definition LITERAL_LENGTH_2_BYTES : Z := 61.
Definition LITERAL_LENGTH_3_BYTES : Z := 62.
Definition LITERAL_LENGTH_4_BYTES : Z := 63.
Definition MAX_COPY_1_LENGTH : Z := 11.
Definition MIN_COPY_1_LENGTH : Z := 4.
Definition MAX_COPY_1_OFFSET : Z := 2047.
Definition MAX_COPY_2_OFFSET : Z := 65535.
Definition SNAPPY_VARINT_MAX_BYTES : Z := 5.

(** ** Tags (encoding.py) *)
Definition encode_literal_tag (length : Z) : result bytes :=
  check! negb (length <? 1) else ValueError;;
  let length_minus_1 := length - 1 in
  if length <=? MAX_INLINE_LITERAL_LENGTH then
    bytes_of [Z.lor (Z.shiftl (length - 1) 2) LITERAL]
  else if length <=? 256 then
    bytes_of [Z.lor (Z.shiftl LITERAL_LENGTH_1_BYTE 2) LITERAL; length - 1]
  else if length <=? 65536 then
    bytes_of [Z.lor (Z.shiftl LITERAL_LENGTH_2_BYTES 2) LITERAL;
              Z.land length_minus_1 0xFF; Z.land (Z.shiftr length_minus_1 8) 0xFF]
  else if length <=? 16777216 then
    bytes_of [Z.lor (Z.shiftl LITERAL_LENGTH_3_BYTES 2) LITERAL;
              Z.land length_minus_1 0xFF; Z.land (Z.shiftr length_minus_1 8) 0xFF;
              Z.land (Z.shiftr length_minus_1 16) 0xFF]
  else if length <=? 4294967296 then
    bytes_of [Z.lor (Z.shiftl LITERAL_LENGTH_4_BYTES 2) LITERAL;
              Z.land length_minus_1 0xFF; Z.land (Z.shiftr length_minus_1 8) 0xFF;
              Z.land (Z.shiftr length_minus_1 16) 0xFF; Z.land (Z.shiftr length_minus_1 24) 0xFF]
  else Err ValueError.

Definition _encode_copy_1 (length offset : Z) : result bytes :=
  let offset_low := Z.land offset 0xFF in
  let offset_high := Z.land (Z.shiftr offset 8) 0x07 in
  let tag := Z.lor (Z.lor (Z.shiftl offset_high 5) (Z.shiftl (length - 4) 2)) COPY_1_BYTE_OFFSET in
  bytes_of [tag; offset_low].

Definition _encode_copy_2 (length offset : Z) : result bytes :=
  let tag := Z.lor (Z.shiftl (length - 1) 2) COPY_2_BYTE_OFFSET in
  bytes_of [tag; Z.land offset 0xFF; Z.land (Z.shiftr offset 8) 0xFF].

Definition _encode_copy_4 (length offset : Z) : result bytes :=
  let tag := Z.lor (Z.shiftl (length - 1) 2) COPY_4_BYTE_OFFSET in
  bytes_of [tag; Z.land offset 0xFF; Z.land (Z.shiftr offset 8) 0xFF;
            Z.land (Z.shiftr offset 16) 0xFF; Z.land (Z.shiftr offset 24) 0xFF].

Definition encode_copy_tag (length offset : Z) : result bytes :=
  check! negb (length <? 1) else ValueError;;
  check! negb (offset <? 1) else ValueError;;
  if (offset <=? MAX_COPY_1_OFFSET) && ((MIN_COPY_1_LENGTH <=? length) && (length <=? MAX_COPY_1_LENGTH))
  then _encode_copy_1 length offset
  else if (offset <=? MAX_COPY_2_OFFSET) && (length <=? 64) then _encode_copy_2 length offset
  else if length <=? 64 then _encode_copy_4 length offset
  else Err ValueError.

Inductive TagType := literal | copy.

(** Little-endian bytes at positions [pos ..], as the decoders combine them *)
Definition le_16 (data : bytes) (pos : Z) : result Z :=
  b0 ← byte_at data pos; b1 ← byte_at data (pos + 1); Ok (Z.lor b0 (Z.shiftl b1 8)).
Definition le_24 (data : bytes) (pos : Z) : result Z :=
  low ← le_16 data pos; b2 ← byte_at data (pos + 2); Ok (Z.lor low (Z.shiftl b2 16)).
Definition le_32 (data : bytes) (pos : Z) : result Z :=
  low ← le_24 data pos; b3 ← byte_at data (pos + 3); Ok (Z.lor low (Z.shiftl b3 24)).

Definition _decode_literal_tag (data : bytes) (offset tag : Z) : result (TagType * Z * Z * Z) :=
  let length_indicator := Z.shiftr tag 2 in
  if length_indicator <? LITERAL_LENGTH_1_BYTE then Ok (literal, length_indicator + 1, 0, 1)
  else if length_indicator =? LITERAL_LENGTH_1_BYTE then
    check! negb (Zlen data <=? offset + 1) else ValueError;;
    length ← byte_at data (offset + 1); Ok (literal, length + 1, 0, 2)
  else if length_indicator =? LITERAL_LENGTH_2_BYTES then
    check! negb (Zlen data <=? offset + 2) else ValueError;;
    length ← le_16 data (offset + 1); Ok (literal, length + 1, 0, 3)
  else if length_indicator =? LITERAL_LENGTH_3_BYTES then
    check! negb (Zlen data <=? offset + 3) else ValueError;;
    length ← le_24 data (offset + 1); Ok (literal, length + 1, 0, 4)
  else
    check! negb (Zlen data <=? offset + 4) else ValueError;;
    length ← le_32 data (offset + 1); Ok (literal, length + 1, 0, 5).

Definition _decode_copy_1_tag (data : bytes) (offset tag : Z) : result (TagType * Z * Z * Z) :=
  check! negb (Zlen data <=? offset + 1) else ValueError;;
  let length := Z.land (Z.shiftr tag 2) 0x07 + 4 in
  let offset_high := Z.land (Z.shiftr tag 5) 0x07 in
  offset_low ← byte_at data (offset + 1);
  Ok (copy, length, Z.lor (Z.shiftl offset_high 8) offset_low, 2).

Definition _decode_copy_2_tag (data : bytes) (offset tag : Z) : result (TagType * Z * Z * Z) :=
  check! negb (Zlen data <=? offset + 2) else ValueError;;
  copy_offset ← le_16 data (offset + 1);
  Ok (copy, Z.shiftr tag 2 + 1, copy_offset, 3).

Definition _decode_copy_4_tag (data : bytes) (offset tag : Z) : result (TagType * Z * Z * Z) :=
  check! negb (Zlen data <=? offset + 4) else ValueError;;
  copy_offset ← le_32 data (offset + 1);
  Ok (copy, Z.shiftr tag 2 + 1, copy_offset, 5).

Definition decode_tag (data : bytes) (offset : Z) : result (TagType * Z * Z * Z) :=
  check! negb (Zlen data <=? offset) else ValueError;;
  tag ← byte_at data offset;
  let tag_type := Z.land tag 0x03 in
  if tag_type =? LITERAL then _decode_literal_tag data offset tag
  else if tag_type =? COPY_1_BYTE_OFFSET then _decode_copy_1_tag data offset tag
  else if tag_type =? COPY_2_BYTE_OFFSET then _decode_copy_2_tag data offset tag
  else _decode_copy_4_tag data offset tag.

(** ** Decompression (decompress.py) *)

(** The copying loop of [_execute_copy]: each byte is read from the growing output. *)
Fixpoint copy_loop (length : nat) (output : bytes) (src_pos : Z) : result bytes :=
  match length with
  | O => Ok output
  | S length =>
      b ← of_option IndexError (output !! Z.to_nat src_pos);
      copy_loop length (output ++ [b]) (src_pos + 1)
  end.

Definition _execute_copy (output : bytes) (offset length max_length : Z) : result bytes :=
  check! negb (offset <? 1) else SnappyDecompressionError;;
  check! negb (Zlen output <? offset) else SnappyDecompressionError;;
  check! negb (max_length <? Zlen output + length) else SnappyDecompressionError;;
  copy_loop (Z.to_nat length) output (Zlen output - offset).

(** One turn of the loop of [decompress] *)
Definition decompress_step (data : bytes) (uncompressed_length : Z) (acc : bytes * Z) : result (bytes * Z) :=
  let '(output, pos) := acc in
  check! negb (Zlen data <=? pos) else SnappyDecompressionError;;
  '(tag_type, length, copy_offset, tag_bytes) ←
    match decode_tag data pos with Err ValueError => Err SnappyDecompressionError | r => r end;
  let pos := pos + tag_bytes in
  match tag_type with
  | literal =>
      check! negb (Zlen data <? pos + length) else SnappyDecompressionError;;
      Ok (output ++ slice data pos (pos + length), pos + length)
  | copy =>
      output ← _execute_copy output copy_offset length uncompressed_length;
      Ok (output, pos)
  end.

(** Each turn reads at least the tag byte, so the length of the data is enough fuel. *)
Definition decompress (data : bytes) : result bytes :=
  check! negb (Zlen data =? 0) else SnappyDecompressionError;;
  '(uncompressed_length, varint_bytes) ←
    match decode_varint data 0 SNAPPY_VARINT_MAX_BYTES with
    | Err VarintError => Err SnappyDecompressionError
    | r => r
    end;
  if uncompressed_length =? 0 then Ok []
  else
    '(output, _) ← while (length data) (fun acc => Zlen acc.1 <? uncompressed_length)
                     (decompress_step data uncompressed_length) ([], varint_bytes);
    check! Zlen output =? uncompressed_length else SnappyDecompressionError;;
    Ok output.

(** ** Compression (compress.py) *)
Definition _emit_literal (literal_data : bytes) : result bytes :=
  if Zlen literal_data =? 0 then Ok []
  else tag ← encode_literal_tag (Zlen literal_data); Ok (tag ++ literal_data).

Fixpoint table_bits_loop (n : nat) (target bits : Z) : Z :=
  match n with
  | O => bits
  | S n => if (Z.shiftl 1 bits <? target) && (bits <? MAX_HASH_TABLE_BITS)
           then table_bits_loop n target (bits + 1) else bits
  end.
Definition _compute_table_bits (block_size : Z) : Z :=
  table_bits_loop (Z.to_nat (MAX_HASH_TABLE_BITS - MIN_HASH_TABLE_BITS)) (block_size / 4) MIN_HASH_TABLE_BITS.

Definition _hash_4_bytes (data : bytes) (pos table_bits : Z) : result Z :=
  little_endian_word ← le_32 data pos;
  let hash_value := Z.land (little_endian_word * HASH_MULTIPLIER) 0xFFFFFFFF in
  Ok (Z.shiftr hash_value (32 - table_bits)).

Definition _matches_at (data : bytes) (pos1 pos2 : Z) : bool :=
  bool_decide (slice data pos1 (pos1 + 4) = slice data pos2 (pos2 + 4)).

(** The loop of [_extend_match]; [n] turns take the length to its maximum. *)
Fixpoint extend_loop (n : nat) (data : bytes) (match_pos current_pos length : Z) : result Z :=
  match n with
  | O => Ok length
  | S n =>
      if (length <? 64) && (current_pos + length <? Zlen data) then
        a ← byte_at data (match_pos + length);
        b ← byte_at data (current_pos + length);
        if a =? b then extend_loop n data match_pos current_pos (length + 1) else Ok length
      else Ok length
  end.
Definition _extend_match (data : bytes) (match_pos current_pos : Z) : result Z :=
  extend_loop 60 data match_pos current_pos 4.

(** [table[i]] and [table[i] = pos] *)
Definition table_get (table : list Z) (i : Z) : result Z := of_option IndexError (table !! Z.to_nat i).
Definition table_set (table : list Z) (i pos : Z) : result (list Z) :=
  check! i <? Zlen table else IndexError;; Ok (<[Z.to_nat i := pos]> table).

(** [range(start, stop, 2)] *)
Definition range_2 (start stop : Z) : list Z :=
  map (fun k => start + 2 * Z.of_nat k) (seq 0 (Z.to_nat ((stop - start + 1) / 2))).

Definition skip_insert (block : bytes) (table_bits : Z) (table : list Z) (skip_pos : Z) : result (list Z) :=
  if 0 <=? skip_pos then
    skip_hash ← _hash_4_bytes block skip_pos table_bits;
    table_set table skip_hash skip_pos
  else Ok table.

(** The local variables of [_compress_block] *)
Record BlockState := {
  bs_table : list Z;
  bs_output : bytes;
  bs_literal_start : Z;
  bs_input_position : Z
}.

(** A match: pending literals, the copy, and the positions inside the copied region *)
Definition compress_match (block : bytes) (table_bits : Z) (table : list Z) (st : BlockState)
    (match_pos : Z) : result BlockState :=
  let input_position := bs_input_position st in
  output ← (if bs_literal_start st <? input_position then
              lit ← _emit_literal (slice block (bs_literal_start st) input_position);
              Ok (bs_output st ++ lit)
            else Ok (bs_output st));
  match_length ← _extend_match block match_pos input_position;
  tag ← encode_copy_tag match_length (input_position - match_pos);
  let input_position := input_position + match_length in
  table ← (if (1 <? match_length) && (input_position <? Zlen block - INPUT_MARGIN_BYTES) then
             foldM (skip_insert block table_bits) table
               (range_2 (input_position - match_length + 1) (input_position - 1))
           else Ok table);
  Ok {| bs_table := table; bs_output := output ++ tag;
        bs_literal_start := input_position; bs_input_position := input_position |}.

Definition compress_step (block : bytes) (table_bits : Z) (st : BlockState) : result BlockState :=
  let input_position := bs_input_position st in
  hash_value ← _hash_4_bytes block input_position table_bits;
  match_pos ← table_get (bs_table st) hash_value;
  table ← table_set (bs_table st) hash_value input_position;
  if (0 <=? match_pos) && _matches_at block match_pos input_position
  then compress_match block table_bits table st match_pos
  else Ok {| bs_table := table; bs_output := bs_output st;
             bs_literal_start := bs_literal_start st; bs_input_position := input_position + 1 |}.

(** Each turn moves the position, so the length of the block is enough fuel. *)
Definition _compress_block (block : bytes) : result bytes :=
  if Zlen block <? 4 then _emit_literal block
  else
    let table_bits := _compute_table_bits (Zlen block) in
    let table_size := Z.shiftl 1 table_bits in
    st ← while (length block)
           (fun st => bs_input_position st <? Zlen block - INPUT_MARGIN_BYTES)
           (compress_step block table_bits)
           {| bs_table := repeat (-1) (Z.to_nat table_size); bs_output := [];
              bs_literal_start := 0; bs_input_position := 0 |};
    if bs_literal_start st <? Zlen block then
      lit ← _emit_literal (drop (Z.to_nat (bs_literal_start st)) block);
      Ok (bs_output st ++ lit)
    else Ok (bs_output st).

Definition compress_block_step (data : bytes) (acc : Z * bytes) : result (Z * bytes) :=
  let '(offset, output) := acc in
  let block_end := Z.min (offset + BLOCK_SIZE) (Zlen data) in
  compressed_block ← _compress_block (slice data offset block_end);
  Ok (block_end, output ++ compressed_block).

Definition compress (data : bytes) : result bytes :=
  if Zlen data =? 0 then encode_varint 0 SNAPPY_VARINT_MAX_BYTES
  else
    prefix ← encode_varint (Zlen data) SNAPPY_VARINT_MAX_BYTES;
    '(_, output) ← while (length data) (fun acc => acc.1 <? Zlen data) (compress_block_step data) (0, prefix);
    Ok output.

Definition max_compressed_length (source_bytes : Z) : Z := 5 + source_bytes + source_bytes / 6 + 1.

(** ** Framing (framing.py) *)
Definition SNAPPY_MAGIC : bytes := [Byte.x73; Byte.x4e; Byte.x61; Byte.x50; Byte.x70; Byte.x59].
Definition STREAM_IDENTIFIER : bytes := [Byte.xff; Byte.x06; Byte.x00; Byte.x00] ++ SNAPPY_MAGIC.
Definition CHUNK_TYPE_COMPRESSED : Z := 0x00.
Definition CHUNK_TYPE_UNCOMPRESSED : Z := 0x01.
Definition MAX_UNCOMPRESSED_CHUNK_SIZE : Z := 65536.
Definition CRC32C_MASK_DELTA : Z := 0xA282EAD8.

Definition crc_bit (crc : Z) : Z :=
  if Z.land crc 1 =? 0 then Z.shiftr crc 1 else Z.lxor (Z.shiftr crc 1) 0x82F63B78.
Definition _crc32c_table : list Z := map (fun i => Nat.iter 8 crc_bit (Z.of_nat i)) (seq 0 256).
Definition _CRC32C_TABLE : list Z := Eval vm_compute in _crc32c_table.

Definition crc_byte (crc : Z) (b : Byte.byte) : result Z :=
  entry ← of_option IndexError (_CRC32C_TABLE !! Z.to_nat (Z.land (Z.lxor crc (byte.unsigned b)) 0xFF));
  Ok (Z.lxor entry (Z.shiftr crc 8)).
Definition _crc32c (data : bytes) : result Z :=
  crc ← foldM crc_byte 0xFFFFFFFF data; Ok (Z.lxor crc 0xFFFFFFFF).

Definition _mask_crc (crc : Z) : Z :=
  Z.land (Z.lor (Z.shiftr crc 15) (Z.shiftl crc 17) + CRC32C_MASK_DELTA) 0xFFFFFFFF.

Definition frame_step (data : bytes) (acc : Z * bytes) : result (Z * bytes) :=
  let '(offset, output) := acc in
  let chunk_end := Z.min (offset + MAX_UNCOMPRESSED_CHUNK_SIZE) (Zlen data) in
  let chunk := slice data offset chunk_end in
  compressed ← compress chunk;
  crc ← _crc32c chunk;
  let crc := _mask_crc crc in
  let '(chunk_type, chunk_body) :=
    if Zlen compressed <? Zlen chunk then (CHUNK_TYPE_COMPRESSED, compressed)
    else (CHUNK_TYPE_UNCOMPRESSED, chunk) in
  let chunk_length := 4 + Zlen chunk_body in
  type_byte ← byte_of chunk_type;
  length_bytes ← to_bytes_le 3 chunk_length;
  crc_bytes ← to_bytes_le 4 crc;
  Ok (chunk_end, output ++ [type_byte] ++ length_bytes ++ crc_bytes ++ chunk_body).

Definition frame_compress (data : bytes) : result bytes :=
  '(_, output) ← while (length data) (fun acc => acc.1 <? Zlen data) (frame_step data) (0, STREAM_IDENTIFIER);
  Ok output.

(** The data of one chunk, by its type *)
Definition chunk_payload (chunk_type : Z) (chunk_data : bytes) : result bytes :=
  if chunk_type =? CHUNK_TYPE_COMPRESSED then
    check! negb (Zlen chunk_data <? 4) else SnappyDecompressionError;;
    let stored_crc := from_bytes_le (take 4 chunk_data) in
    uncompressed ← decompress (drop 4 chunk_data);
    check! negb (MAX_UNCOMPRESSED_CHUNK_SIZE <? Zlen uncompressed) else SnappyDecompressionError;;
    crc ← _crc32c uncompressed;
    check! stored_crc =? _mask_crc crc else SnappyDecompressionError;;
    Ok uncompressed
  else if chunk_type =? CHUNK_TYPE_UNCOMPRESSED then
    check! negb (Zlen chunk_data <? 4) else SnappyDecompressionError;;
    let stored_crc := from_bytes_le (take 4 chunk_data) in
    let raw_payload := drop 4 chunk_data in
    check! negb (MAX_UNCOMPRESSED_CHUNK_SIZE <? Zlen raw_payload) else SnappyDecompressionError;;
    crc ← _crc32c raw_payload;
    check! stored_crc =? _mask_crc crc else SnappyDecompressionError;;
    Ok raw_payload
  else if chunk_type =? 0xFF then
    check! Zlen chunk_data =? 6 else SnappyDecompressionError;;
    check! bool_decide (chunk_data = SNAPPY_MAGIC) else SnappyDecompressionError;;
    Ok []
  else if (0x02 <=? chunk_type) && (chunk_type <=? 0x7F) then Err SnappyDecompressionError
  else Ok [].

Definition unframe_step (data : bytes) (acc : bytes * Z) : result (bytes * Z) :=
  let '(output, pos) := acc in
  check! negb (Zlen data <? pos + 4) else SnappyDecompressionError;;
  chunk_type ← byte_at data pos;
  let chunk_length := from_bytes_le (slice data (pos + 1) (pos + 4)) in
  let pos := pos + 4 in
  check! negb (Zlen data <? pos + chunk_length) else SnappyDecompressionError;;
  payload ← chunk_payload chunk_type (slice data pos (pos + chunk_length));
  Ok (output ++ payload, pos + chunk_length).

(** Each turn reads a header of four bytes. *)
Definition frame_decompress (data : bytes) : result bytes :=
  check! negb (Zlen data <? Zlen STREAM_IDENTIFIER) else SnappyDecompressionError;;
  check! bool_decide (take (length STREAM_IDENTIFIER) data = STREAM_IDENTIFIER)
    else SnappyDecompressionError;;
  '(output, _) ← while (length data) (fun acc => acc.2 <? Zlen data) (unframe_step data)
                   ([], Zlen STREAM_IDENTIFIER);
  Ok output.
