(* ===== verification/SnappyCorrect.v ===== *)
(** * Snappy: what the compressor writes, the decompressor reads

    A compressed string is a sequence of operations (literals and copies) that
    rebuild the input; decompression executes any such sequence. *)

From S2P Require Import Prelude Uint Varint Snappy.

(** ** Tags *)
Lemma byte_at_tag l t pre post k z :
  bytes_of l = Ok t -> l !! k = Some z -> byte_at (pre ++ t ++ post) (Zlen pre + Z.of_nat k) = Ok z.
Proof.
  intros [_ <-]%bytes_of_Ok E. rewrite list_lookup_fmap in E.
  destruct (t !! k) as [b|] eqn:Eb; [|done]. injection E as <-.
  rewrite byte_at_middle by (pose proof (lookup_lt_Some _ _ _ Eb); lia). by rewrite Nat2Z.id, Eb.
Qed.

Lemma low_byte n : Z.land n 0xFF = n mod 256.
Proof. apply (Z.land_ones n 8). lia. Qed.
Lemma shifted_byte n k : 0 <= k -> Z.land (Z.shiftr n k) 0xFF = n / 2 ^ k mod 256.
Proof. intros Hk. by rewrite low_byte, Z.shiftr_div_pow2. Qed.

Ltac byte_bounds :=
  repeat match goal with
  | |- context [?a mod 256] => lazymatch goal with
      | H : 0 <= a mod 256 < 256 |- _ => fail
      | _ => pose proof (Z.mod_pos_bound a 256 eq_refl)
      end
  end.

Lemma le_16_split data pos n :
  byte_at data pos = Ok (n mod 256) -> byte_at data (pos + 1) = Ok (n / 2 ^ 8 mod 256) ->
  le_16 data pos = Ok (n mod 2 ^ 16).
Proof.
  intros E0 E1. unfold le_16. rewrite E0. mcbn. rewrite E1. mcbn. byte_bounds.
  rewrite lor_disjoint by lia. f_equal. change (2 ^ 16) with (256 * 256). change (2 ^ 8) with 256.
  rewrite Z.rem_mul_r by lia. ring.
Qed.

Lemma le_24_split data pos n :
  byte_at data pos = Ok (n mod 256) -> byte_at data (pos + 1) = Ok (n / 2 ^ 8 mod 256) ->
  byte_at data (pos + 2) = Ok (n / 2 ^ 16 mod 256) -> le_24 data pos = Ok (n mod 2 ^ 24).
Proof.
  intros E0 E1 E2. unfold le_24. rewrite (le_16_split _ _ _ E0 E1). mcbn. rewrite E2. mcbn.
  rewrite lor_disjoint by (try apply Z.mod_pos_bound; lia). f_equal. change (2 ^ 24) with (2 ^ 16 * 256).
  rewrite Z.rem_mul_r by lia. ring.
Qed.

Lemma le_32_split data pos n :
  0 <= n < 2 ^ 32 ->
  byte_at data pos = Ok (n mod 256) -> byte_at data (pos + 1) = Ok (n / 2 ^ 8 mod 256) ->
  byte_at data (pos + 2) = Ok (n / 2 ^ 16 mod 256) -> byte_at data (pos + 3) = Ok (n / 2 ^ 24 mod 256) ->
  le_32 data pos = Ok n.
Proof.
  intros Hn E0 E1 E2 E3. unfold le_32. rewrite (le_24_split _ _ _ E0 E1 E2). mcbn. rewrite E3. mcbn.
  rewrite lor_disjoint by (try apply Z.mod_pos_bound; lia). f_equal.
  rewrite (Z.mod_small (n / 2 ^ 24) 256) by (split; [apply Z.div_pos|apply Z.div_lt_upper_bound]; lia).
  rewrite Z.add_comm, Z.mul_comm. symmetry. apply Z.div_mod. lia.
Qed.

(** What decoding a tag finds in the middle of the data *)
Definition tag_reads (t : bytes) (r : TagType * Z * Z * Z) : Prop :=
  forall pre post, decode_tag (pre ++ t ++ post) (Zlen pre) = Ok r.

(** The tag byte selects the decoder. *)
Lemma decode_tag_head l t pre post z rest :
  bytes_of l = Ok t -> l = z :: rest ->
  let data := pre ++ t ++ post in
  decode_tag data (Zlen pre) =
    (if z mod 4 =? 0 then _decode_literal_tag data (Zlen pre) z
     else if z mod 4 =? 1 then _decode_copy_1_tag data (Zlen pre) z
     else if z mod 4 =? 2 then _decode_copy_2_tag data (Zlen pre) z
     else _decode_copy_4_tag data (Zlen pre) z) /\ Zlen pre + Zlen l <= Zlen data.
Proof.
  intros E El. cbn zeta. pose proof (bytes_of_length _ _ E) as Hl. rewrite !length_app. split; [|lia].
  unfold decode_tag. rewrite !length_app. rewrite El in Hl. cbn [length] in Hl.
  rewrite (proj2 (Z.leb_gt _ _)) by lia. cbn [negb].
  pose proof (byte_at_tag l t pre post 0 z E) as E0. rewrite El, Z.add_0_r in E0. rewrite (E0 eq_refl). mcbn.
  change 0x03 with (Z.ones 2). by rewrite Z.land_ones.
Qed.

(** Comparisons of constants, evaluated *)
Ltac closed_guard t :=
  let v := eval vm_compute in t in
  lazymatch v with true => change t with true | false => change t with false end; cbv iota.
Ltac closed_guards :=
  repeat match goal with
  | |- context [?a <? ?b] => closed_guard (a <? b)
  | |- context [?a =? ?b] => closed_guard (a =? b)
  | |- context [?a <=? ?b] => closed_guard (a <=? b)
  end.

(** Tags whose length follows in 1 to 4 bytes *)
Lemma decode_literal_long data o k (n : Z) :
  1 <= k <= 4 -> Zlen data > o + k ->
  (match k with 1 => byte_at data (o + 1) | 2 => le_16 data (o + 1)
   | 3 => le_24 data (o + 1) | _ => le_32 data (o + 1) end = Ok n) ->
  _decode_literal_tag data o (Z.shiftl (59 + k) 2) = Ok (literal, n + 1, 0, k + 1).
Proof.
  intros Hk Hd E. unfold _decode_literal_tag.
  rewrite Z.shiftl_mul_pow2, Z.shiftr_div_pow2, Z.div_mul by lia.
  assert (k = 1 \/ k = 2 \/ k = 3 \/ k = 4) as [->|[->|[->| ->]]] by lia; closed_guards;
    (rewrite (proj2 (Z.leb_gt _ _)) by lia); cbn [negb]; by rewrite E.
Qed.

Lemma literal_tag_bytes k n l t :
  1 <= k <= 4 -> 0 <= n < 2 ^ (8 * k) -> bytes_of (Z.shiftl (59 + k) 2 :: l) = Ok t ->
  l = take (Z.to_nat k) [n mod 256; n / 2 ^ 8 mod 256; n / 2 ^ 16 mod 256; n / 2 ^ 24 mod 256] ->
  tag_reads t (literal, n + 1, 0, k + 1).
Proof.
  intros Hk Hn E El pre post.
  destruct (decode_tag_head _ _ pre post _ _ E eq_refl) as [-> Hlen]. cbn [length] in Hlen.
  replace (Z.shiftl (59 + k) 2 mod 4) with 0 by (rewrite Z.shiftl_mul_pow2 by lia; div_lia). cbn [Z.eqb].
  assert (Zlen l = k) as Hl by (rewrite El, length_take; cbn [length]; lia).
  assert (forall i z, l !! i = Some z -> byte_at (pre ++ t ++ post) (Zlen pre + 1 + Z.of_nat i) = Ok z) as Hat.
  { intros i z Hi. replace (Zlen pre + 1 + Z.of_nat i) with (Zlen pre + Z.of_nat (S i)) by lia.
    by apply (byte_at_tag _ t pre post (S i) z E). }
  pose proof (Hat 0%nat) as Hat0. rewrite Z.add_0_r in Hat0.
  apply decode_literal_long; [done|lia|].
  assert (k = 1 \/ k = 2 \/ k = 3 \/ k = 4) as [->|[->|[->| ->]]] by lia; simpl in El; subst l.
  - rewrite (Hat0 _ eq_refl). f_equal. apply Z.mod_small. lia.
  - rewrite (le_16_split _ _ n); [f_equal; apply Z.mod_small; lia|by apply Hat0|by apply (Hat 1%nat)].
  - rewrite (le_24_split _ _ n);
      [f_equal; apply Z.mod_small; lia|by apply Hat0|by apply (Hat 1%nat)|by apply (Hat 2%nat)].
  - apply le_32_split; [done|by apply Hat0|by apply (Hat 1%nat)|by apply (Hat 2%nat)|by apply (Hat 3%nat)].
Qed.

(** A tag is written and read back; short literals have short tags. *)
Lemma literal_tag L :
  1 <= L <= 2 ^ 32 ->
  exists t, encode_literal_tag L = Ok t /\ tag_reads t (literal, L, 0, Zlen t) /\ 1 <= Zlen t <= 5 /\
    (L <= 60 -> Zlen t = 1) /\ (L <= 256 -> Zlen t <= 2) /\ (L <= 65536 -> Zlen t <= 3).
Proof.
  intros HL. unfold encode_literal_tag. rewrite (proj2 (Z.ltb_ge _ _)) by lia. cbn [negb].
  rewrite (shifted_byte (L - 1) 8), (shifted_byte (L - 1) 16), (shifted_byte (L - 1) 24), low_byte by lia.
  unfold LITERAL. rewrite !Z.lor_0_r. unfold MAX_INLINE_LITERAL_LENGTH.
  assert (forall k, 1 <= k <= 4 -> L - 1 < 2 ^ (8 * k) -> 60 < L -> (1 < k -> 256 < L) -> (2 < k -> 65536 < L) ->
    exists t, bytes_of (Z.shiftl (59 + k) 2 :: take (Z.to_nat k)
      [(L - 1) mod 256; (L - 1) / 2 ^ 8 mod 256; (L - 1) / 2 ^ 16 mod 256; (L - 1) / 2 ^ 24 mod 256]) = Ok t /\
      tag_reads t (literal, L, 0, Zlen t) /\ 1 <= Zlen t <= 5 /\
      (L <= 60 -> Zlen t = 1) /\ (L <= 256 -> Zlen t <= 2) /\ (L <= 65536 -> Zlen t <= 3)) as Hlong.
  { intros k Hk Hn H60 H1 H2. edestruct bytes_of_total as [t E]; [|exists t; split; [exact E|]].
    { constructor; [rewrite Z.shiftl_mul_pow2 by lia; lia|]. apply Forall_take.
      repeat constructor; by apply Z.mod_pos_bound. }
    pose proof (bytes_of_length _ _ E) as Hl. cbn [length] in Hl. rewrite length_take in Hl. cbn [length] in Hl.
    replace (Zlen t) with (k + 1) by lia. split_and!; [|lia..].
    replace L with (L - 1 + 1) at 1 by lia. eapply literal_tag_bytes; [done|lia|exact E|done]. }
  destruct (Z.leb_spec L 60).
  { rewrite Z.shiftl_mul_pow2 by lia. destruct (bytes_of_total [(L - 1) * 2 ^ 2]) as [t E]; [repeat constructor; lia|].
    exists t. pose proof (bytes_of_length _ _ E) as Hl. split; [done|]. rewrite Hl. cbn [length].
    split_and!; try lia. intros pre post.
    destruct (decode_tag_head _ _ pre post _ _ E eq_refl) as [-> _].
    rewrite (proj2 (Z.eqb_eq _ 0)) by div_lia. unfold _decode_literal_tag.
    rewrite Z.shiftr_div_pow2 by lia. change (2 ^ 2) with 4. rewrite Z.div_mul by lia.
    unfold LITERAL_LENGTH_1_BYTE. rewrite (proj2 (Z.ltb_lt _ _)) by lia. do 4 f_equal. lia. }
  destruct (Z.leb_spec L 256).
  { rewrite <- (Z.mod_small (L - 1) 256) by lia. apply (Hlong 1); lia. }
  destruct (Z.leb_spec L 65536); [apply (Hlong 2); lia|].
  destruct (Z.leb_spec L 16777216); [apply (Hlong 3); lia|].
  rewrite (proj2 (Z.leb_le _ _)) by lia. apply (Hlong 4); lia.
Qed.

(** The written bytes [l] read back as a copy of [L] bytes from [o] back. *)
Definition copy_bytes (l : list Z) (L o : Z) : Prop :=
  exists t, bytes_of l = Ok t /\ tag_reads t (copy, L, o, Zlen t) /\ Zlen t = Zlen l.

Lemma copy_1_bytes L o h :
  4 <= L <= 11 -> 0 <= h < 8 -> o = h * 256 + o mod 256 -> copy_bytes [h * 32 + (L - 4) * 4 + 1; o mod 256] L o.
Proof.
  intros HL Hh Ho. pose proof (Z.mod_pos_bound o 256 eq_refl) as Hm. edestruct bytes_of_total as [t E];
    [|exists t; split; [exact E|]; rewrite (bytes_of_length _ _ E); split; [|done]; intros pre post].
  { repeat constructor; lia. }
  destruct (decode_tag_head _ _ pre post _ _ E eq_refl) as [-> Hlen]. cbn [length] in Hlen |- *.
  replace ((h * 32 + (L - 4) * 4 + 1) mod 4) with 1 by div_lia. closed_guards. unfold _decode_copy_1_tag.
  rewrite (proj2 (Z.leb_gt _ _)) by lia. cbn [negb].
  rewrite (byte_at_tag _ t pre post 1 _ E eq_refl : byte_at _ (Zlen pre + 1) = _). mcbn.
  change 0x07 with (Z.ones 3). rewrite !Z.land_ones, !Z.shiftr_div_pow2 by lia.
  change (2 ^ 3) with 8. change (2 ^ 2) with 4. change (2 ^ 5) with 32.
  replace ((h * 32 + (L - 4) * 4 + 1) / 4 mod 8 + 4) with L by div_lia.
  replace ((h * 32 + (L - 4) * 4 + 1) / 32 mod 8) with h by div_lia.
  rewrite lor_shiftl by lia. do 3 f_equal. change (2 ^ 8) with 256. lia.
Qed.

Lemma copy_2_bytes L o :
  1 <= L <= 64 -> 0 <= o < 65536 -> copy_bytes [(L - 1) * 4 + 2; o mod 256; o / 2 ^ 8 mod 256] L o.
Proof.
  intros HL Ho. byte_bounds. edestruct bytes_of_total as [t E];
    [|exists t; split; [exact E|]; rewrite (bytes_of_length _ _ E); split; [|done]; intros pre post].
  { repeat constructor; lia. }
  destruct (decode_tag_head _ _ pre post _ _ E eq_refl) as [-> Hlen]. cbn [length] in Hlen |- *.
  replace (((L - 1) * 4 + 2) mod 4) with 2 by div_lia. closed_guards. unfold _decode_copy_2_tag.
  rewrite (proj2 (Z.leb_gt _ _)) by lia. cbn [negb].
  rewrite (le_16_split _ _ o); [|exact (byte_at_tag _ t pre post 1 _ E eq_refl)|].
  2: { rewrite <- Z.add_assoc. exact (byte_at_tag _ t pre post 2 _ E eq_refl). }
  mcbn. rewrite Z.shiftr_div_pow2, (Z.mod_small o) by lia. do 4 f_equal. change (2 ^ 2) with 4. div_lia.
Qed.

Lemma copy_4_bytes L o :
  1 <= L <= 64 -> 0 <= o < 2 ^ 32 ->
  copy_bytes [(L - 1) * 4 + 3; o mod 256; o / 2 ^ 8 mod 256; o / 2 ^ 16 mod 256; o / 2 ^ 24 mod 256] L o.
Proof.
  intros HL Ho. byte_bounds. edestruct bytes_of_total as [t E];
    [|exists t; split; [exact E|]; rewrite (bytes_of_length _ _ E); split; [|done]; intros pre post].
  { repeat constructor; lia. }
  destruct (decode_tag_head _ _ pre post _ _ E eq_refl) as [-> Hlen]. cbn [length] in Hlen |- *.
  replace (((L - 1) * 4 + 3) mod 4) with 3 by div_lia. closed_guards. unfold _decode_copy_4_tag.
  rewrite (proj2 (Z.leb_gt _ _)) by lia. cbn [negb].
  rewrite (le_32_split _ _ o); [|done|exact (byte_at_tag _ t pre post 1 _ E eq_refl)|rewrite <- Z.add_assoc..].
  - mcbn. rewrite Z.shiftr_div_pow2 by lia. do 4 f_equal. change (2 ^ 2) with 4. div_lia.
  - exact (byte_at_tag _ t pre post 2 _ E eq_refl).
  - exact (byte_at_tag _ t pre post 3 _ E eq_refl).
  - exact (byte_at_tag _ t pre post 4 _ E eq_refl).
Qed.

Lemma copy_tag L o :
  1 <= L <= 64 -> 1 <= o < 2 ^ 32 ->
  exists t, encode_copy_tag L o = Ok t /\ tag_reads t (copy, L, o, Zlen t) /\ 2 <= Zlen t <= 5 /\
    (o <= 65535 -> Zlen t <= 3).
Proof.
  intros HL Ho. unfold encode_copy_tag. rewrite !(proj2 (Z.ltb_ge _ _)) by lia. cbn [negb].
  unfold MAX_COPY_1_OFFSET, MIN_COPY_1_LENGTH, MAX_COPY_1_LENGTH, MAX_COPY_2_OFFSET.
  rewrite (proj2 (Z.leb_le L 64)) by lia. rewrite andb_true_r.
  destruct (_ && _) eqn:E1; [|destruct (Z.leb_spec o 65535)].
  - bool_to_prop. unfold _encode_copy_1, COPY_1_BYTE_OFFSET. cbn zeta.
    rewrite low_byte. change 0x07 with (Z.ones 3). rewrite Z.land_ones, (Z.shiftr_div_pow2 o 8) by lia.
    change (2 ^ 8) with 256. change (2 ^ 3) with 8. rewrite (Z.mod_small (o / 256) 8) by div_lia.
    rewrite lor_shiftl; [|lia|rewrite Z.shiftl_mul_pow2 by lia; change (2 ^ 2) with 4; lia].
    replace (o / 256 * 2 ^ 5 + Z.shiftl (L - 4) 2) with (Z.shiftl (o / 256 * 8 + (L - 4)) 2)
      by (rewrite !Z.shiftl_mul_pow2 by lia; change (2 ^ 5) with 32; change (2 ^ 2) with 4; lia).
    rewrite lor_shiftl by lia. change (2 ^ 2) with 4.
    replace ((o / 256 * 8 + (L - 4)) * 4 + 1) with (o / 256 * 32 + (L - 4) * 4 + 1) by ring.
    destruct (copy_1_bytes L o (o / 256)) as (t & E & Hr & Hl); [lia|div_lia|div_lia|].
    exists t. cbn [length] in Hl. split_and!; (done || lia).
  - unfold _encode_copy_2, COPY_2_BYTE_OFFSET. cbn zeta. rewrite lor_shiftl, low_byte, shifted_byte by lia.
    destruct (copy_2_bytes L o) as (t & E & Hr & Hl); [lia..|].
    exists t. cbn [length] in Hl. split_and!; (done || lia).
  - unfold _encode_copy_4, COPY_4_BYTE_OFFSET. cbn zeta.
    rewrite lor_shiftl, low_byte, (shifted_byte o 8), (shifted_byte o 16), (shifted_byte o 24) by lia.
    destruct (copy_4_bytes L o) as (t & E & Hr & Hl); [lia..|].
    exists t. cbn [length] in Hl. split_and!; (done || lia).
Qed.

(** ** Decompression of a sequence of operations *)

(** [writes bs out out']: the bytes [bs] are operations that extend [out] to [out']. *)
Inductive writes : bytes -> bytes -> bytes -> Prop :=
| writes_nil out : writes [] out out
| writes_literal t data rest out out' :
    1 <= Zlen data -> tag_reads t (literal, Zlen data, 0, Zlen t) ->
    writes rest (out ++ data) out' -> writes (t ++ data ++ rest) out out'
| writes_copy t L o rest out out1 out' :
    1 <= o <= Zlen out -> 1 <= L -> tag_reads t (copy, L, o, Zlen t) ->
    copy_loop (Z.to_nat L) out (Zlen out - o) = Ok out1 ->
    writes rest out1 out' -> writes (t ++ rest) out out'.

Lemma writes_app bs1 bs2 out out1 out2 :
  writes bs1 out out1 -> writes bs2 out1 out2 -> writes (bs1 ++ bs2) out out2.
Proof.
  induction 1; intros Hw2; cbn [app]; rewrite <- ?app_assoc; [done|by apply writes_literal; auto|].
  eapply writes_copy; eauto.
Qed.

Lemma copy_loop_length n out src out' : copy_loop n out src = Ok out' -> length out' = (length out + n)%nat.
Proof.
  revert out src. induction n as [|n IH]; intros out src E; cbn [copy_loop] in E; [injection E as <-; lia|].
  apply bind_Ok in E as (b & _ & E). apply IH in E. rewrite length_app in E. cbn [length] in E. lia.
Qed.

Lemma writes_length bs out out' : writes bs out out' -> (length out <= length out')%nat.
Proof.
  induction 1 as [|t data rest out out' _ _ _ IH|t L o rest out out1 out' _ _ _ E _ IH]; [done| |].
  - rewrite length_app in IH. lia.
  - apply copy_loop_length in E. lia.
Qed.

Lemma tag_reads_pos t r : tag_reads t r -> 1 <= Zlen t.
Proof.
  intros H. destruct t as [|b t]; [|cbn [length]; lia]. specialize (H [] []). by cbv in H.
Qed.

(** One operation is one turn of the loop. *)
Lemma step_literal pre t data post total out :
  1 <= Zlen data -> tag_reads t (literal, Zlen data, 0, Zlen t) ->
  decompress_step (pre ++ t ++ data ++ post) total (out, Zlen pre) =
    Ok (out ++ data, Zlen (pre ++ t ++ data)).
Proof.
  intros Hd Ht. unfold decompress_step. pose proof (tag_reads_pos _ _ Ht) as Hp. rewrite !length_app.
  rewrite (proj2 (Z.leb_gt _ _)) by lia. cbn [negb]. rewrite (Ht pre (data ++ post)). mcbn.
  rewrite (proj2 (Z.ltb_ge _ _)) by lia. cbn [negb]. rewrite (app_assoc pre t), slice_middle.
  - do 2 f_equal. lia.
  - rewrite length_app. lia.
  - done.
Qed.

Lemma step_copy pre t L o post total out out1 :
  1 <= o <= Zlen out -> 1 <= L -> tag_reads t (copy, L, o, Zlen t) ->
  copy_loop (Z.to_nat L) out (Zlen out - o) = Ok out1 -> Zlen out1 <= total ->
  decompress_step (pre ++ t ++ post) total (out, Zlen pre) = Ok (out1, Zlen (pre ++ t)).
Proof.
  intros Ho HL Ht Ec Hl. unfold decompress_step. pose proof (tag_reads_pos _ _ Ht) as Hp. rewrite !length_app.
  rewrite (proj2 (Z.leb_gt _ _)) by lia. cbn [negb]. rewrite (Ht pre post). mcbn.
  unfold _execute_copy. pose proof (copy_loop_length _ _ _ _ Ec).
  rewrite !(proj2 (Z.ltb_ge _ _)) by lia. cbn [negb]. rewrite Ec. mcbn. do 2 f_equal. lia.
Qed.

Lemma decompress_writes bs out out' :
  writes bs out out' -> forall fuel pre post total,
  Zlen out' = total -> (length bs <= fuel)%nat ->
  exists pos, while fuel (fun acc => Zlen acc.1 <? total) (decompress_step (pre ++ bs ++ post) total)
    (out, Zlen pre) = Ok (out', pos).
Proof.
  induction 1 as [out|t data rest out out' Hd Ht Hw IH|t L o rest out out1 out' Ho HL Ht Ec Hw IH];
    intros fuel pre post total Htot Hf.
  - exists (Zlen pre). destruct fuel; cbn [while fst]; by rewrite (proj2 (Z.ltb_ge _ _)) by lia.
  - pose proof (writes_length _ _ _ Hw) as Hlen. rewrite length_app in Hlen.
    pose proof (tag_reads_pos _ _ Ht). rewrite !length_app in Hf.
    destruct fuel as [|fuel]; [lia|]. cbn [while fst]. rewrite (proj2 (Z.ltb_lt _ _)) by lia.
    rewrite <- !app_assoc, (step_literal pre t data (rest ++ post)) by done. mcbn.
    destruct (IH fuel (pre ++ t ++ data) post total) as [pos E]; [done|lia|].
    rewrite <- !app_assoc in E. eauto.
  - pose proof (writes_length _ _ _ Hw) as Hlen. pose proof (copy_loop_length _ _ _ _ Ec).
    pose proof (tag_reads_pos _ _ Ht). rewrite !length_app in Hf.
    destruct fuel as [|fuel]; [lia|]. cbn [while fst]. rewrite (proj2 (Z.ltb_lt _ _)) by lia.
    rewrite <- !app_assoc, (step_copy pre t L o (rest ++ post) total out out1) by (done || lia). mcbn.
    destruct (IH fuel (pre ++ t) post total) as [pos E]; [done|lia|].
    rewrite <- !app_assoc in E. eauto.
Qed.

Lemma decompress_ok prefix bs data :
  encode_varint (Zlen data) SNAPPY_VARINT_MAX_BYTES = Ok prefix -> writes bs [] data -> 1 <= Zlen data ->
  decompress (prefix ++ bs) = Ok data.
Proof.
  intros Ep Hw Hd. pose proof (encode_varint_length _ SNAPPY_VARINT_MAX_BYTES _ ltac:(done) Ep) as Hl. unfold decompress.
  rewrite !length_app, (proj2 (Z.eqb_neq _ _)) by lia. cbn [negb].
  pose proof (decode_encode_varint _ SNAPPY_VARINT_MAX_BYTES _ [] bs ltac:(done) Ep) as E. cbn [app length] in E.
  change (Z.of_nat 0) with 0 in E. rewrite E. mcbn. rewrite (proj2 (Z.eqb_neq _ 0)) by lia.
  destruct (decompress_writes bs [] data Hw (length prefix + length bs) prefix [] (Zlen data)) as [pos E'];
    [done|lia|]. rewrite app_nil_r in E'. rewrite E'. mcbn. by rewrite Z.eqb_refl.
Qed.

(** ** Compression *)
Lemma emit_literal_writes data out :
  Zlen data <= 65536 ->
  exists bs, _emit_literal data = Ok bs /\ writes bs out (out ++ data) /\
    Zlen bs <= Zlen data + (if Zlen data =? 0 then 0 else if Zlen data <=? 60 then 1
                            else if Zlen data <=? 256 then 2 else 3).
Proof.
  intros Hd. unfold _emit_literal. destruct (Z.eqb_spec (Zlen data) 0) as [E|E].
  - exists []. split_and!; [done| |cbn; lia]. destruct data; [|done]. rewrite app_nil_r. constructor.
  - destruct (literal_tag (Zlen data)) as (t & -> & Hr & Hl & H1 & H2 & H3); [lia|]. mcbn.
    exists (t ++ data). split_and!; [done| |].
    + rewrite <- (app_nil_r data) at 1. apply writes_literal; [lia|done|]. constructor.
    + rewrite length_app. destruct (Z.leb_spec (Zlen data) 60); [lia|]. destruct (Z.leb_spec (Zlen data) 256); lia.
Qed.

Section Block.
Context (block : bytes) (out : bytes).
Abbreviation N := (Zlen block).

(** The bytes from [m] and from [i] agree for [L] positions. *)
Definition agree (m i L : Z) : Prop :=
  forall k, 0 <= k < L -> block !! Z.to_nat (m + k) = block !! Z.to_nat (i + k).

Lemma copy_loop_agree n m i :
  0 <= m < i -> i + Z.of_nat n <= N -> agree m i (Z.of_nat n) ->
  copy_loop n (out ++ take (Z.to_nat i) block) (Zlen out + m) =
    Ok (out ++ take (Z.to_nat (i + Z.of_nat n)) block).
Proof.
  revert m i. induction n as [|n IH]; intros m i Hm Hn Ha; cbn [copy_loop].
  - by rewrite Z.add_0_r.
  - rewrite lookup_app_r by lia. replace (Z.to_nat (Zlen out + m) - length out)%nat with (Z.to_nat m) by lia.
    rewrite lookup_take_lt by lia. pose proof (Ha 0 ltac:(lia)) as E. rewrite !Z.add_0_r in E. rewrite E.
    destruct (lookup_lt_is_Some_2 block (Z.to_nat i)) as [b Eb]; [lia|]. rewrite Eb. mcbn.
    rewrite <- app_assoc, <- take_S_r by done. replace (S (Z.to_nat i)) with (Z.to_nat (i + 1)) by lia.
    replace (Zlen out + m + 1) with (Zlen out + (m + 1)) by lia. rewrite IH; [|lia|lia|].
    + do 4 f_equal. lia.
    + intros k Hk. replace (m + 1 + k) with (m + (k + 1)) by lia. replace (i + 1 + k) with (i + (k + 1)) by lia.
      apply Ha. lia.
Qed.

Lemma matches_agree m i : 0 <= m -> 0 <= i -> _matches_at block m i = true -> agree m i 4.
Proof.
  unfold _matches_at, slice. intros Hm Hi H k Hk. bool_to_prop.
  replace (m + 4 - m) with 4 in H by lia. replace (i + 4 - i) with 4 in H by lia.
  apply (f_equal (fun l => l !! Z.to_nat k)) in H. rewrite !lookup_take_lt, !lookup_drop in H by lia.
  by rewrite !Z2Nat.inj_add by lia.
Qed.

Lemma extend_loop_ok n m i L :
  0 <= m < i -> 4 <= L -> L + Z.of_nat n = 64 -> i + L <= N -> agree m i L ->
  exists L', extend_loop n block m i L = Ok L' /\ 4 <= L' <= 64 /\ i + L' <= N /\ agree m i L'.
Proof.
  revert L. induction n as [|n IH]; intros L Hm HL Hn HN Ha; cbn [extend_loop].
  - exists L. split_and!; (done || lia).
  - rewrite (proj2 (Z.ltb_lt L 64)) by lia. cbn [andb]. destruct (Z.ltb_spec (i + L) N) as [Hlt|].
    2: { exists L. split_and!; (done || lia). }
    unfold byte_at. destruct (lookup_lt_is_Some_2 block (Z.to_nat (m + L))) as [a Ea]; [lia|].
    destruct (lookup_lt_is_Some_2 block (Z.to_nat (i + L))) as [b Eb]; [lia|]. rewrite Ea, Eb. mcbn.
    cbn [fmap option_fmap option_map]. mcbn. destruct (Z.eqb_spec (byte.unsigned a) (byte.unsigned b)) as [E|].
    2: { exists L. split_and!; (done || lia). }
    apply byte.unsigned_inj in E as ->. apply IH; [done|lia..|].
    intros k Hk. destruct (decide (k = L)) as [->|]; [by rewrite Ea, Eb|apply Ha; lia].
Qed.

Lemma le_32_total data pos : 0 <= pos -> pos + 3 < Zlen data -> exists w, le_32 data pos = Ok w.
Proof.
  intros H1 H2. unfold le_32, le_24, le_16.
  destruct (byte_at_total data pos) as (? & -> & _); [lia|]. destruct (byte_at_total data (pos + 1)) as (? & -> & _); [lia|].
  destruct (byte_at_total data (pos + 2)) as (? & -> & _); [lia|].
  destruct (byte_at_total data (pos + 3)) as (? & -> & _); [lia|]. mcbn. eauto.
Qed.

Lemma hash_ok pos bits :
  0 <= pos -> pos + 3 < N -> 0 <= bits <= 32 ->
  exists h, _hash_4_bytes block pos bits = Ok h /\ 0 <= h < 2 ^ bits.
Proof.
  intros H1 H2 Hb. unfold _hash_4_bytes. destruct (le_32_total block pos H1 H2) as [w ->]. mcbn.
  eexists. split; [done|]. change 0xFFFFFFFF with (Z.ones 32). rewrite Z.land_ones, Z.shiftr_div_pow2 by lia.
  pose proof (Z.mod_pos_bound (w * HASH_MULTIPLIER) (2 ^ 32) eq_refl).
  split; [apply Z.div_pos; lia|]. apply Z.div_lt_upper_bound; [lia|]. rewrite <- Z.pow_add_r by lia.
  replace (32 - bits + bits) with 32 by lia. lia.
Qed.

(** The hash table holds earlier positions. *)
Definition table_ok (bits pos : Z) (table : list Z) : Prop :=
  Zlen table = 2 ^ bits /\ Forall (fun e => -1 <= e < pos) table.

Lemma table_set_ok bits pos pos' table h e :
  table_ok bits pos table -> 0 <= h < 2 ^ bits -> -1 <= e < pos' -> pos <= pos' ->
  exists table', table_set table h e = Ok table' /\ table_ok bits pos' table'.
Proof.
  intros [Hl Hf] Hh He Hp. unfold table_set. rewrite (proj2 (Z.ltb_lt _ _)) by lia. eexists. split; [done|].
  split; [by rewrite length_insert|]. apply Forall_insert; [|lia].
  eapply Forall_impl; [done|]. simpl. lia.
Qed.

Lemma range_2_bounds start stop p : p ∈ range_2 start stop -> start <= p < stop.
Proof.
  unfold range_2. intros (k & -> & Hk)%list_elem_of_fmap. apply elem_of_seq in Hk. div_lia.
Qed.

Lemma skips_ok bits pos table l :
  table_ok bits pos table -> 0 <= bits <= 32 -> (forall p, p ∈ l -> 0 <= p < pos /\ p + 3 < N) ->
  exists table', foldM (skip_insert block bits) table l = Ok table' /\ table_ok bits pos table'.
Proof.
  intros Ht Hb. revert table Ht. induction l as [|p l IH]; intros table Ht Hl; cbn [foldM]; [eauto|].
  destruct (Hl p ltac:(left)) as [Hp1 Hp2]. destruct (hash_ok p bits) as (h & Eh & Hh); [lia..|].
  destruct (table_set_ok bits pos pos table h p Ht Hh) as (t' & Et & Ht'); [lia..|].
  assert (skip_insert block bits table p = Ok t') as ->.
  { unfold skip_insert. rewrite (proj2 (Z.leb_le _ _)) by lia. by rewrite Eh. }
  mcbn. apply IH; [done|]. intros q Hq. apply Hl. by right.
Qed.

(** ** The block loop *)

(** [literal_start] bytes are written, in at most seven sixths of their number. *)
Record block_inv (bits : Z) (st : BlockState) : Prop := {
  bi_table : table_ok bits (bs_input_position st) (bs_table st);
  bi_positions : 0 <= bs_literal_start st <= bs_input_position st;
  bi_in_block : bs_input_position st <= N;
  bi_writes : writes (bs_output st) out (out ++ take (Z.to_nat (bs_literal_start st)) block);
  bi_size : (bs_literal_start st = 0 /\ bs_output st = []) \/
            6 * Zlen (bs_output st) + 5 <= 7 * bs_literal_start st
}.

Lemma take_slice (a b : Z) :
  0 <= a <= b -> b <= N -> take (Z.to_nat a) block ++ slice block a b = take (Z.to_nat b) block.
Proof.
  intros Ha Hb. unfold slice. rewrite take_take_drop. f_equal. lia.
Qed.

Lemma slice_length {A} (l : list A) a b : 0 <= a <= b -> b <= Zlen l -> Zlen (slice l a b) = b - a.
Proof. intros Ha Hb. unfold slice. rewrite length_take, length_drop. lia. Qed.

(** The tag bytes of a literal *)
Definition literal_overhead (l : Z) : Z :=
  if l =? 0 then 0 else if l <=? 60 then 1 else if l <=? 256 then 2 else 3.

Lemma literal_overhead_le l : 0 <= l -> 0 <= literal_overhead l /\ 6 * literal_overhead l <= l + 5 /\
  (6 <= l -> 6 * literal_overhead l <= l).
Proof.
  intros Hl. unfold literal_overhead. destruct (Z.eqb_spec l 0); [lia|].
  destruct (Z.leb_spec l 60); [lia|]. destruct (Z.leb_spec l 256); lia.
Qed.

Lemma pending_writes st bits :
  block_inv bits st -> N <= 65536 ->
  exists o, (if bs_literal_start st <? bs_input_position st then
       lit ← _emit_literal (slice block (bs_literal_start st) (bs_input_position st)); Ok (bs_output st ++ lit)
     else Ok (bs_output st)) = Ok o /\
    writes o out (out ++ take (Z.to_nat (bs_input_position st)) block) /\
    let l := bs_input_position st - bs_literal_start st in
    Zlen o <= Zlen (bs_output st) + l + literal_overhead l.
Proof.
  intros Hi HN. pose proof (bi_positions _ _ Hi) as Hp. pose proof (bi_in_block _ _ Hi) as Hb.
  pose proof (bi_writes _ _ Hi) as Hw. cbn zeta.
  destruct (Z.ltb_spec (bs_literal_start st) (bs_input_position st)) as [Hlt|Hge].
  - pose proof (slice_length block (bs_literal_start st) (bs_input_position st) Hp Hb) as Hl.
    destruct (emit_literal_writes (slice block (bs_literal_start st) (bs_input_position st))
      (out ++ take (Z.to_nat (bs_literal_start st)) block)) as (lit & -> & Hw' & Hs); [lia|]. mcbn.
    eexists. split; [done|]. rewrite <- app_assoc, take_slice in Hw' by done. split; [by eapply writes_app|].
    rewrite length_app. rewrite Hl in Hs. unfold literal_overhead. lia.
  - eexists. split; [done|]. replace (bs_input_position st) with (bs_literal_start st) by lia.
    split; [done|]. rewrite Z.sub_diag. cbn. lia.
Qed.

Lemma compress_match_ok bits st table m :
  block_inv bits st -> N <= 65536 -> 0 <= bits <= 32 -> 0 <= m < bs_input_position st ->
  bs_input_position st + 4 <= N -> _matches_at block m (bs_input_position st) = true ->
  table_ok bits (bs_input_position st + 1) table ->
  exists st', compress_match block bits table st m = Ok st' /\ block_inv bits st' /\
    bs_input_position st < bs_input_position st'.
Proof.
  intros Hi HN Hbits Hm H4 Hmatch Ht. unfold compress_match.
  destruct (pending_writes st bits Hi HN) as (o & -> & Hw & Hs). mcbn. cbn zeta in Hs.
  pose proof (bi_positions _ _ Hi) as Hp. pose proof (bi_size _ _ Hi) as Hsz.
  set (i := bs_input_position st) in *.
  destruct (extend_loop_ok 60 m i 4) as (L & EL & HL & HiL & Ha); [lia..|by apply matches_agree; [lia..|]|].
  unfold _extend_match. rewrite EL. mcbn.
  destruct (copy_tag L (i - m)) as (tag & -> & Hr & Htl & Htl'); [lia..|]. mcbn.
  assert (table_ok bits (i + L) table) as Ht'.
  { destruct Ht as [H1 H2]. split; [done|]. eapply Forall_impl; [done|]. simpl. lia. }
  assert (exists table', (if (1 <? L) && (i + L <? N - INPUT_MARGIN_BYTES)
     then foldM (skip_insert block bits) table (range_2 (i + L - L + 1) (i + L - 1)) else Ok table) = Ok table' /\
     table_ok bits (i + L) table') as (table' & -> & Htab).
  { destruct (_ && _) eqn:E; [|eauto]. bool_to_prop. unfold INPUT_MARGIN_BYTES in *.
    apply skips_ok; [done..|]. intros p Hpp%range_2_bounds. lia. }
  mcbn. eexists. split; [done|]. split; [|cbn; lia].
  assert (writes tag (out ++ take (Z.to_nat i) block) (out ++ take (Z.to_nat (i + L)) block)) as Hcopy.
  { rewrite <- (app_nil_r tag). eapply writes_copy; [| |exact Hr| |constructor].
    - rewrite length_app, length_take. lia.
    - lia.
    - replace (Zlen (out ++ take (Z.to_nat i) block) - (i - m)) with (Zlen out + m)
        by (rewrite length_app, length_take; lia).
      rewrite copy_loop_agree; [by rewrite Z2Nat.id by lia|lia|lia|by rewrite Z2Nat.id by lia]. }
  destruct (literal_overhead_le (i - bs_literal_start st)) as (Ho & Ho5 & _); [lia|].
  split; cbn; [done|lia|lia|by eapply writes_app|].
  right. rewrite length_app. destruct Hsz as [[E1 E2]|Hsz]; [rewrite E2 in Hs; cbn [length] in Hs|]; lia.
Qed.

Lemma compress_step_ok bits st :
  block_inv bits st -> N <= 65536 -> 0 <= bits <= 32 -> bs_input_position st < N - INPUT_MARGIN_BYTES ->
  exists st', compress_step block bits st = Ok st' /\ block_inv bits st' /\
    bs_input_position st < bs_input_position st'.
Proof.
  unfold INPUT_MARGIN_BYTES. intros Hi HN Hb Hp. unfold compress_step.
  pose proof (bi_positions _ _ Hi). pose proof (bi_table _ _ Hi) as [Htl Htf].
  destruct (hash_ok (bs_input_position st) bits) as (h & -> & Hh); [lia..|]. mcbn.
  unfold table_get. destruct (lookup_lt_is_Some_2 (bs_table st) (Z.to_nat h)) as [m Em]; [lia|]. rewrite Em. mcbn.
  assert (-1 <= m < bs_input_position st) as Hm by (rewrite Forall_lookup in Htf; by eapply Htf).
  destruct (table_set_ok bits (bs_input_position st) (bs_input_position st + 1) (bs_table st) h
    (bs_input_position st) (bi_table _ _ Hi) Hh) as (table & -> & Ht); [lia..|]. mcbn.
  destruct (_ && _) eqn:E.
  - bool_to_prop. apply compress_match_ok; (done || lia).
  - eexists. split; [done|]. split; [|cbn; lia]. destruct Hi. split; cbn; (done || lia).
Qed.

Lemma compute_table_bits_range n : 8 <= _compute_table_bits n <= 15.
Proof.
  unfold _compute_table_bits. assert (forall k target bits, 8 <= bits <= 15 ->
    8 <= table_bits_loop k target bits <= 15) as H; [|apply H; done].
  induction k as [|k IH]; intros target bits Hb; cbn [table_bits_loop]; [done|].
  destruct (_ && _) eqn:E; [|done]. bool_to_prop. unfold MAX_HASH_TABLE_BITS in *. apply IH. lia.
Qed.

(** A block compresses to operations that append it to any output. *)
Lemma compress_block_ok :
  1 <= N <= 65536 ->
  exists bs, _compress_block block = Ok bs /\ writes bs out (out ++ block) /\
    6 * Zlen bs <= 7 * N + 5 /\ (6 <= N -> 6 * Zlen bs <= 7 * N).
Proof.
  intros HN. unfold _compress_block. destruct (Z.ltb_spec N 4).
  { destruct (emit_literal_writes block out) as (bs & E & Hw & Hs); [lia|]. exists bs. split; [done|]. split; [done|].
    fold (literal_overhead N) in Hs. destruct (literal_overhead_le N); lia. }
  set (bits := _compute_table_bits N). pose proof (compute_table_bits_range N) as Hbits. fold bits in Hbits.
  destruct (while_terminates (block_inv bits) (fun st => Z.to_nat (N - bs_input_position st))
    (fun st => bs_input_position st <? N - INPUT_MARGIN_BYTES) (compress_step block bits) (length block)
    {| bs_table := repeat (-1) (Z.to_nat (Z.shiftl 1 bits)); bs_output := [];
       bs_literal_start := 0; bs_input_position := 0 |}) as (st & E & Hi & _).
  - intros st Hi Hc%Z.ltb_lt. destruct (compress_step_ok bits st Hi) as (st' & E & Hi' & Hlt); [lia..|].
    exists st'. split_and!; [done|done|]. pose proof (bi_in_block _ _ Hi'). lia.
  - split; cbn; [split|lia|lia|rewrite app_nil_r; constructor|by left].
    + rewrite repeat_length, Z.shiftl_mul_pow2 by lia. lia.
    + apply Forall_forall. intros x Hx. apply list_elem_of_In, repeat_spec in Hx. lia.
  - cbn. lia.
  - rewrite E. mcbn. pose proof (bi_positions _ _ Hi) as Hp. pose proof (bi_in_block _ _ Hi) as Hb.
    pose proof (bi_writes _ _ Hi) as Hw. pose proof (bi_size _ _ Hi) as Hsz.
    destruct (Z.ltb_spec (bs_literal_start st) N) as [Hlt|Hge].
    + assert (Zlen (drop (Z.to_nat (bs_literal_start st)) block) = N - bs_literal_start st) as Hl
        by (rewrite length_drop; lia).
      destruct (emit_literal_writes (drop (Z.to_nat (bs_literal_start st)) block)
        (out ++ take (Z.to_nat (bs_literal_start st)) block)) as (lit & -> & Hw' & Hs); [lia|]. mcbn.
      eexists. split; [done|]. rewrite <- app_assoc, take_drop in Hw'. split; [by eapply writes_app|].
      rewrite Hl in Hs. fold (literal_overhead (N - bs_literal_start st)) in Hs. rewrite length_app.
      destruct (literal_overhead_le (N - bs_literal_start st)) as (H0 & H5 & H6); [lia|].
      destruct Hsz as [[E1 E2]|Hsz]; [rewrite E2; cbn [length]|]; lia.
    + eexists. split; [done|]. rewrite take_ge in Hw by lia. split; [done|].
      destruct Hsz as [[E1 E2]|Hsz]; lia.
Qed.
End Block.

(** ** Whole strings *)
Lemma slice_block (data : bytes) a b : 0 <= a <= b -> b <= Zlen data ->
  take (Z.to_nat a) data ++ slice data a b = take (Z.to_nat b) data.
Proof. intros Ha Hb. by apply (take_slice data). Qed.

Record compress_inv (data prefix : bytes) (acc : Z * bytes) : Prop := {
  ci_offset : 0 <= acc.1 <= Zlen data;
  ci_output : exists bs, acc.2 = prefix ++ bs /\ writes bs [] (take (Z.to_nat acc.1) data) /\
    6 * Zlen bs <= 7 * acc.1 + (if acc.1 =? Zlen data then 5 else 0)
}.

Lemma compress_block_step_ok data prefix acc :
  compress_inv data prefix acc -> acc.1 < Zlen data ->
  exists acc', compress_block_step data acc = Ok acc' /\ compress_inv data prefix acc' /\ acc.1 < acc'.1.
Proof.
  destruct acc as [offset output]. intros [Hoff (bs & Eo & Hw & Hs)] Hlt. cbn [fst snd] in *. subst output.
  unfold compress_block_step. unfold BLOCK_SIZE. change (Z.shiftl 1 16) with 65536.
  set (stop := Z.min (offset + 65536) (Zlen data)).
  pose proof (slice_length data offset stop ltac:(lia) ltac:(lia)) as Hl.
  destruct (compress_block_ok (slice data offset stop) (take (Z.to_nat offset) data))
    as (cb & -> & Hw' & Hs1 & Hs2); [lia|]. mcbn. eexists. split; [done|]. split; [|cbn [fst]; lia].
  split; cbn [fst snd]; [lia|]. exists (bs ++ cb). split; [by rewrite app_assoc|].
  rewrite slice_block in Hw' by lia. split; [by eapply writes_app|]. rewrite length_app.
  rewrite (proj2 (Z.eqb_neq offset (Zlen data))) in Hs by lia.
  destruct (Z.eqb_spec stop (Zlen data)); lia.
Qed.

Lemma snappy_compress_ok data :
  Zlen data < 2 ^ 35 ->
  exists out, compress data = Ok out /\ decompress out = Ok data /\
    Zlen out <= max_compressed_length (Zlen data).
Proof.
  intros Hd. unfold compress, max_compressed_length. destruct (Z.eqb_spec (Zlen data) 0) as [E|E].
  { destruct data; [|done]. exists [Byte.x00]. split_and!; [done|done|by vm_compute]. }
  destruct (encode_varint_Ok (Zlen data) SNAPPY_VARINT_MAX_BYTES) as (prefix & Ep & Hp);
    [done|change (2 ^ (7 * SNAPPY_VARINT_MAX_BYTES)) with (2 ^ 35); lia|]. rewrite Ep. mcbn.
  destruct (while_terminates (compress_inv data prefix) (fun acc => Z.to_nat (Zlen data - acc.1))
    (fun acc => acc.1 <? Zlen data) (compress_block_step data) (length data) (0, prefix))
    as ([offset output] & -> & [Hoff (bs & E2 & Hw & Hs)] & Hc).
  - intros acc Hi Hc%Z.ltb_lt. destruct (compress_block_step_ok data prefix acc Hi Hc) as (acc' & E' & Hi' & Hlt).
    exists acc'. split_and!; [done|done|]. pose proof (ci_offset _ _ _ Hi'). lia.
  - split; cbn [fst snd]; [lia|]. exists []. split_and!; [by rewrite app_nil_r|constructor|].
    rewrite (proj2 (Z.eqb_neq _ _)) by lia. cbn. lia.
  - cbn. lia.
  - cbn [fst snd] in *. apply Z.ltb_ge in Hc. mcbn. exists output. split; [done|].
    replace offset with (Zlen data) in * by lia. rewrite Nat2Z.id, firstn_all in Hw. subst output.
    split; [by apply decompress_ok; [| |lia]|]. rewrite length_app. rewrite Z.eqb_refl in Hs.
    unfold SNAPPY_VARINT_MAX_BYTES in Hp. assert (Zlen bs <= Zlen data + Zlen data / 6 + 1); [|lia]. div_lia.
Qed.

(** ** Framing *)
Lemma lxor_range a b n : 0 <= n -> 0 <= a < 2 ^ n -> 0 <= b < 2 ^ n -> 0 <= Z.lxor a b < 2 ^ n.
Proof.
  intros Hn Ha Hb. assert (0 <= Z.lxor a b) as H0 by (apply Z.lxor_nonneg; lia). split; [done|].
  destruct (Z.eq_dec (Z.lxor a b) 0) as [->|Hne]; [apply Z.pow_pos_nonneg; lia|].
  apply Z.log2_lt_pow2; [lia|]. eapply Z.le_lt_trans; [apply Z.log2_lxor; lia|].
  destruct (Z.eq_dec n 0) as [->|]; [change (2 ^ 0) with 1 in *; replace a with 0 in Hne by lia; replace b with 0 in Hne by lia; done|].
  assert (forall x, 0 <= x < 2 ^ n -> Z.log2 x < n) as Hlog; [|apply Z.max_lub_lt; by apply Hlog].
  intros x Hx. destruct (Z.eq_dec x 0) as [->|]; [change (Z.log2 0) with 0; lia|]. by apply Z.log2_lt_pow2; lia.
Qed.

Lemma crc_table_range : forallb (fun e => (0 <=? e) && (e <? 2 ^ 32)) _CRC32C_TABLE = true /\ length _CRC32C_TABLE = 256%nat.
Proof. by vm_compute. Qed.

Lemma crc_byte_ok crc b : 0 <= crc < 2 ^ 32 -> exists crc', crc_byte crc b = Ok crc' /\ 0 <= crc' < 2 ^ 32.
Proof.
  intros Hc. unfold crc_byte. destruct crc_table_range as [Hr Hl].
  pose proof (Z.mod_pos_bound (Z.lxor crc (byte.unsigned b)) 256 eq_refl) as Hm. rewrite low_byte.
  destruct (lookup_lt_is_Some_2 _CRC32C_TABLE (Z.to_nat (Z.lxor crc (byte.unsigned b) mod 256))) as [e Ee];
    [rewrite Hl; lia|]. rewrite Ee. mcbn. eexists. split; [done|].
  eapply forallb_forall in Hr; [|apply list_elem_of_In; by eapply list_elem_of_lookup_2]. bool_to_prop.
  apply lxor_range; [done|lia|]. rewrite Z.shiftr_div_pow2 by done. split; [apply Z.div_pos; lia|].
  apply Z.div_lt_upper_bound; lia.
Qed.

Lemma crc32c_ok data : exists crc, _crc32c data = Ok crc.
Proof.
  unfold _crc32c. assert (forall crc, 0 <= crc < 2 ^ 32 -> exists crc', foldM crc_byte crc data = Ok crc') as H.
  { induction data as [|b data IH]; intros crc Hc; cbn [foldM]; [eauto|].
    destruct (crc_byte_ok crc b Hc) as (crc' & -> & Hc'). mcbn. by apply IH. }
  destruct (H 0xFFFFFFFF ltac:(done)) as [crc ->]. mcbn. eauto.
Qed.

Lemma mask_crc_range crc : 0 <= _mask_crc crc < 2 ^ 32.
Proof. unfold _mask_crc. change 0xFFFFFFFF with (Z.ones 32). rewrite Z.land_ones by done. by apply Z.mod_pos_bound. Qed.

(** A chunk is read back as its payload, in the middle of any stream; cut off at the
    end of the stream, it is an error. *)
Record chunk_reads (chunk payload : bytes) : Prop := {
  cr_size : 1 <= Zlen chunk <= Zlen payload + 8;
  cr_payload : 1 <= Zlen payload;
  cr_reads pre post out :
    unframe_step (pre ++ chunk ++ post) (out, Zlen pre) = Ok (out ++ payload, Zlen (pre ++ chunk));
  cr_cut pre k out : (0 < k < length chunk)%nat ->
    unframe_step (pre ++ take k chunk) (out, Zlen pre) = Err SnappyDecompressionError
}.

(** The loop of [frame_decompress] *)
Definition while_unframe (data : bytes) (fuel : nat) (acc : bytes * Z) : result (bytes * Z) :=
  while fuel (fun acc => acc.2 <? Zlen data) (unframe_step data) acc.

Inductive frames : bytes -> bytes -> Prop :=
| frames_nil : frames [] []
| frames_snoc stream payload chunk data :
    frames stream payload -> chunk_reads chunk data -> frames (stream ++ chunk) (payload ++ data).

Section Chunk.
Context (ty : Z) (tb : Byte.byte) (body lb cb data : bytes).
Context (Hty : 0 <= ty < 256) (Etb : byte_of ty = Ok tb) (Elb : to_bytes_le 3 (4 + Zlen body) = Ok lb).
Context (Hcb : length cb = 4%nat).
Abbreviation chunk := ([tb] ++ lb ++ cb ++ body).

Lemma length_lb : Zlen lb = 3.
Proof. exact (to_bytes_le_length 3 _ _ ltac:(lia) Elb). Qed.

(** The header of a chunk, read from a stream that holds at least four of its bytes *)
Lemma chunk_header pre rest :
  let stream := pre ++ [tb] ++ lb ++ rest in
  byte_at stream (Zlen pre) = Ok ty /\
  from_bytes_le (slice stream (Zlen pre + 1) (Zlen pre + 4)) = 4 + Zlen body.
Proof.
  pose proof length_lb as Hlb. cbn zeta. split.
  - rewrite <- (Z.add_0_r (Zlen pre)). replace (pre ++ [tb] ++ lb ++ rest) with (pre ++ ([tb] ++ lb ++ rest) ++ [])
      by (by rewrite app_nil_r). rewrite byte_at_middle by (cbn [app length]; lia).
    destruct (byte_of_small ty Hty) as (tb' & Etb' & <-). rewrite Etb in Etb'. by injection Etb' as <-.
  - replace (pre ++ [tb] ++ lb ++ rest) with ((pre ++ [tb]) ++ lb ++ rest) by (by rewrite <- !app_assoc).
    rewrite slice_middle; [by apply (from_to_bytes_le 3)|rewrite length_app; cbn [length]; lia|lia].
Qed.

Lemma built_chunk_reads :
  1 <= Zlen data -> Zlen body <= Zlen data -> chunk_payload ty (cb ++ body) = Ok data -> chunk_reads chunk data.
Proof.
  intros Hd Hb Epl. pose proof length_lb as Hlb.
  assert (Zlen chunk = 8 + Zlen body) as Hlen by (cbn [app length]; rewrite !length_app; lia).
  split; [lia|done| |].
  - intros pre post out. rewrite <- !app_assoc. destruct (chunk_header pre (cb ++ body ++ post)) as [Ety En].
    unfold unframe_step. rewrite !length_app. cbn [length].
    rewrite (proj2 (Z.ltb_ge _ _)) by lia. cbn [negb]. rewrite Ety. mcbn. rewrite En, (proj2 (Z.ltb_ge _ _)) by lia.
    cbn [negb]. replace (pre ++ [tb] ++ lb ++ cb ++ body ++ post) with ((pre ++ [tb] ++ lb) ++ (cb ++ body) ++ post)
      by (by rewrite <- !app_assoc).
    rewrite slice_middle; [|rewrite !length_app; cbn [length]; lia|rewrite length_app; lia].
    rewrite Epl. mcbn. do 2 f_equal. lia.
  - intros pre k out Hk. unfold unframe_step. rewrite length_app, length_take_le by lia.
    destruct (Z.ltb_spec (Zlen pre + Z.of_nat k) (Zlen pre + 4)) as [|H4].
    { by rewrite (proj2 (Z.ltb_lt _ _)) by lia. }
    rewrite (proj2 (Z.ltb_ge _ _)) by lia. cbn [negb].
    assert (take k chunk = [tb] ++ lb ++ take (k - 4) (cb ++ body)) as ->.
    { rewrite (app_assoc [tb] lb), (app_assoc [tb] lb), take_app, take_ge by (rewrite length_app; cbn [length]; lia).
      f_equal. f_equal. rewrite length_app. cbn [length]. lia. }
    destruct (chunk_header pre (take (k - 4) (cb ++ body))) as [-> ->]. mcbn.
    by rewrite (proj2 (Z.ltb_lt _ _)) by lia.
Qed.
End Chunk.

(** The chunk that framing builds from at most 64 KiB *)
Lemma frame_step_ok data offset output :
  0 <= offset < Zlen data ->
  exists chunk, let stop := Z.min (offset + 65536) (Zlen data) in
    frame_step data (offset, output) = Ok (stop, output ++ chunk) /\
    chunk_reads chunk (slice data offset stop).
Proof.
  intros Hoff. cbn zeta. unfold frame_step, MAX_UNCOMPRESSED_CHUNK_SIZE.
  set (stop := Z.min (offset + 65536) (Zlen data)). set (chunk := slice data offset stop).
  assert (Zlen chunk = stop - offset) as Hl by (apply slice_length; lia).
  destruct (snappy_compress_ok chunk) as (compressed & -> & Hdec & _); [lia|]. mcbn.
  destruct (crc32c_ok chunk) as [crc Ecrc]. rewrite Ecrc. mcbn.
  pose proof (mask_crc_range crc) as Hmask.
  destruct (to_bytes_le 4 (_mask_crc crc)) as [cb|] eqn:Ecb; [|by unfold to_bytes_le in Ecb;
    rewrite (proj2 (Z.leb_le _ _)), (proj2 (Z.ltb_lt _ _)) in Ecb by lia].
  pose proof (to_bytes_le_length 4 _ _ ltac:(lia) Ecb) as Hcb. pose proof (from_to_bytes_le 4 _ _ ltac:(lia) Ecb) as Hcv.
  assert (forall ty body, (ty = 0 \/ ty = 1) -> Zlen body <= Zlen chunk -> chunk_payload ty (cb ++ body) = Ok chunk ->
    exists c, (type_byte ← byte_of ty; length_bytes ← to_bytes_le 3 (4 + Zlen body);
       crc_bytes ← Ok cb; Ok (stop, output ++ [type_byte] ++ length_bytes ++ crc_bytes ++ body)) =
      Ok (stop, output ++ c) /\ chunk_reads c chunk) as Hbuild.
  { intros ty body Hty Hb Epl. destruct (byte_of_small ty) as (tb & Etb & _); [lia|]. rewrite Etb. mcbn.
    destruct (to_bytes_le 3 (4 + Zlen body)) as [lb|] eqn:Elb; [|by unfold to_bytes_le in Elb;
      rewrite (proj2 (Z.leb_le _ _)), (proj2 (Z.ltb_lt _ _)) in Elb by lia]. mcbn.
    eexists. split; [done|]. eapply built_chunk_reads; [|exact Etb|exact Elb|lia..|done]. lia. }
  destruct (Z.ltb_spec (Zlen compressed) (Zlen chunk)).
  - apply Hbuild; [by left|lia|]. unfold chunk_payload. closed_guards.
    rewrite length_app, (proj2 (Z.ltb_ge _ 4)) by lia. cbn [negb]. replace 4%nat with (length cb) by lia.
    rewrite drop_app_length, take_app_length, Hdec. mcbn. unfold MAX_UNCOMPRESSED_CHUNK_SIZE.
    rewrite (proj2 (Z.ltb_ge _ _)) by lia. cbn [negb]. rewrite Ecrc. mcbn. by rewrite Hcv, Z.eqb_refl.
  - apply Hbuild; [by right|lia|]. unfold chunk_payload. closed_guards.
    rewrite length_app, (proj2 (Z.ltb_ge _ 4)) by lia. cbn [negb]. replace 4%nat with (length cb) by lia.
    rewrite drop_app_length, take_app_length. unfold MAX_UNCOMPRESSED_CHUNK_SIZE.
    rewrite (proj2 (Z.ltb_ge _ _)) by lia. cbn [negb]. rewrite Ecrc. mcbn. by rewrite Hcv, Z.eqb_refl.
Qed.

Lemma frame_compress_ok data :
  exists stream, frame_compress data = Ok (STREAM_IDENTIFIER ++ stream) /\ frames stream data /\
    Zlen stream <= Zlen data + 8 * ((Zlen data + 65535) / 65536).
Proof.
  unfold frame_compress.
  destruct (while_terminates (fun acc : Z * bytes => 0 <= acc.1 <= Zlen data /\
      (acc.1 < Zlen data -> acc.1 mod 65536 = 0) /\ exists stream,
      acc.2 = STREAM_IDENTIFIER ++ stream /\ frames stream (take (Z.to_nat acc.1) data) /\
      Zlen stream <= acc.1 + 8 * ((acc.1 + 65535) / 65536))
    (fun acc => Z.to_nat (Zlen data - acc.1)) (fun acc => acc.1 <? Zlen data) (frame_step data) (length data)
    (0, STREAM_IDENTIFIER)) as ([offset output] & -> & [Hoff (_ & stream & Eo & Hf & Hs)] & Hc).
  - intros [offset output] [Hoff (Hm & stream & Eo & Hf & Hs)] Hc%Z.ltb_lt. cbn [fst snd] in *. specialize (Hm Hc).
    destruct (frame_step_ok data offset output) as (chunk & -> & Hr); [lia|]. eexists. split; [done|]. cbn [fst snd].
    split; [|lia]. split; [lia|]. split; [intros; div_lia|].
    exists (stream ++ chunk). split; [by rewrite Eo, app_assoc|].
    rewrite <- (slice_block data offset) by lia. split; [by apply frames_snoc|].
    pose proof (cr_size _ _ Hr) as Hcr. rewrite slice_length in Hcr by lia. rewrite length_app. div_lia.
  - cbn [fst snd]. split; [lia|]. split; [done|]. exists []. split_and!; [by rewrite app_nil_r|exact frames_nil|done].
  - cbn [fst]. lia.
  - cbn [fst snd] in *. apply Z.ltb_ge in Hc. mcbn. exists stream. split; [by rewrite Eo|].
    replace offset with (Zlen data) in * by lia. rewrite Nat2Z.id, firstn_all in Hf. done.
Qed.

Lemma unframe_frames stream data :
  frames stream data ->
  exists k, (k <= length stream)%nat /\ forall fuel pre post out,
    let step := while_unframe (pre ++ stream ++ post) in
    step (k + fuel)%nat (out, Zlen pre) = step fuel (out ++ data, Zlen (pre ++ stream)).
Proof.
  induction 1 as [|stream data chunk payload _ (k & Hk & IH) [[Hc _] _ Hr _]].
  - exists O. split; [cbn; lia|]. intros. by rewrite !app_nil_r.
  - exists (k + 1)%nat. rewrite length_app. split; [lia|]. intros fuel pre post out. cbn zeta.
    rewrite <- app_assoc, <- Nat.add_assoc. specialize (IH (1 + fuel)%nat pre (chunk ++ post) out). cbn zeta in IH.
    rewrite IH. cbn [Nat.add]. unfold while_unframe at 1. cbn [while snd].
    rewrite (proj2 (Z.ltb_lt _ _)) by (rewrite !length_app; lia).
    rewrite (app_assoc pre stream), Hr. mcbn. by rewrite <- !app_assoc.
Qed.

Lemma frame_decompress_ok stream data :
  frames stream data -> frame_decompress (STREAM_IDENTIFIER ++ stream) = Ok data.
Proof.
  intros Hf. unfold frame_decompress. rewrite length_app, (proj2 (Z.ltb_ge _ _)) by lia. cbn [negb].
  rewrite take_app_length. rewrite bool_decide_true by done.
  destruct (unframe_frames stream data Hf) as (k & Hk & Hrun).
  specialize (Hrun (length STREAM_IDENTIFIER + length stream - k)%nat STREAM_IDENTIFIER [] []).
  cbn zeta in Hrun. unfold while_unframe in Hrun. rewrite app_nil_r in Hrun.
  replace (k + (length STREAM_IDENTIFIER + length stream - k))%nat
    with (length STREAM_IDENTIFIER + length stream)%nat in Hrun by lia.
  rewrite length_app in Hrun. rewrite Hrun. cbn [app].
  destruct (length STREAM_IDENTIFIER + length stream - k)%nat; cbn [while snd];
    rewrite (proj2 (Z.ltb_ge _ _)) by lia; done.
Qed.

(** A stream that is cut off yields an error or a shorter string. *)
Lemma frames_cut stream data k :
  frames stream data -> (k < length stream)%nat ->
  frame_decompress (STREAM_IDENTIFIER ++ take k stream) = Err SnappyDecompressionError \/
  exists out, frame_decompress (STREAM_IDENTIFIER ++ take k stream) = Ok out /\ Zlen out < Zlen data.
Proof.
  induction 1 as [|stream data chunk payload Hf IH Hc]; intros Hk; [cbn in Hk; lia|].
  rewrite length_app in Hk. rewrite length_app. pose proof (cr_payload _ _ Hc) as Hp.
  destruct (decide (k < length stream)%nat) as [Hlt|Hge].
  { rewrite take_app_le by lia. destruct (IH Hlt) as [|(out & ? & ?)]; [by left|right; exists out; split; [done|lia]]. }
  rewrite take_app, take_ge by lia. set (j := (k - length stream)%nat).
  destruct (decide (j = O)) as [->|Hj].
  { right. exists data. cbn [take]. rewrite app_nil_r. split; [by apply frame_decompress_ok|lia]. }
  left. unfold frame_decompress. rewrite length_app, (proj2 (Z.ltb_ge _ _)) by lia. cbn [negb].
  rewrite take_app_length. rewrite bool_decide_true by done. rewrite length_app.
  destruct (unframe_frames stream data Hf) as (n & Hn & Hrun).
  specialize (Hrun (length STREAM_IDENTIFIER + (length stream + length (take j chunk)) - n)%nat STREAM_IDENTIFIER
    (take j chunk) []). cbn zeta in Hrun. unfold while_unframe in Hrun.
  replace (n + (length STREAM_IDENTIFIER + (length stream + length (take j chunk)) - n))%nat
    with (length STREAM_IDENTIFIER + (length stream + length (take j chunk)))%nat in Hrun by lia.
  rewrite !length_app in Hrun. rewrite Hrun. cbn [app].
  replace (length STREAM_IDENTIFIER + (length stream + length (take j chunk)) - n)%nat
    with (S (length STREAM_IDENTIFIER + (length stream + length (take j chunk)) - n - 1))
    by (change (length STREAM_IDENTIFIER) with 10%nat; lia).
  cbn [while snd]. rewrite length_take. rewrite (proj2 (Z.ltb_lt _ _)) by lia.
  pose proof (cr_cut _ _ Hc (STREAM_IDENTIFIER ++ stream) j data ltac:(lia)) as E.
  rewrite <- app_assoc, length_app in E. by rewrite E.
Qed.

Lemma stream_cut stream data k :
  frames stream data -> (k < length (STREAM_IDENTIFIER ++ stream))%nat ->
  frame_decompress (take k (STREAM_IDENTIFIER ++ stream)) = Err SnappyDecompressionError \/
  exists out, frame_decompress (take k (STREAM_IDENTIFIER ++ stream)) = Ok out /\ Zlen out < Zlen data.
Proof.
  intros Hf Hk. rewrite length_app in Hk. destruct (decide (k < length STREAM_IDENTIFIER)%nat) as [Hi|Hi].
  - left. unfold frame_decompress. rewrite length_take. by rewrite (proj2 (Z.ltb_lt _ _)) by lia.
  - rewrite take_app, take_ge by lia. apply frames_cut; [done|lia].
Qed.

(** ** Malformed input *)
Lemma le_read data pos : 0 <= pos ->
  (pos + 1 < Zlen data -> exists n, le_16 data pos = Ok n /\ 0 <= n) /\
  (pos + 2 < Zlen data -> exists n, le_24 data pos = Ok n /\ 0 <= n) /\
  (pos + 3 < Zlen data -> exists n, le_32 data pos = Ok n /\ 0 <= n).
Proof.
  intros Hp. assert (forall k, 0 <= k -> pos + k < Zlen data -> exists b, byte_at data (pos + k) = Ok b /\ 0 <= b) as Hat.
  { intros k Hk Hd. destruct (byte_at_total data (pos + k)) as (b & -> & Hb); [lia|]. exists b. split; [done|lia]. }
  assert (forall a b k, 0 <= a -> 0 <= b -> 0 <= Z.lor a (Z.shiftl b k)) as Hlor.
  { intros a b k Ha Hb. apply Z.lor_nonneg. split; [done|by apply Z.shiftl_nonneg]. }
  assert (pos + 1 < Zlen data -> exists n, le_16 data pos = Ok n /\ 0 <= n) as H16.
  { intros H. unfold le_16. destruct (Hat 0) as (b0 & E0 & H0); [lia..|]. rewrite Z.add_0_r in E0. rewrite E0.
    destruct (Hat 1) as (b1 & -> & H1); [lia..|]. mcbn. eauto. }
  assert (pos + 2 < Zlen data -> exists n, le_24 data pos = Ok n /\ 0 <= n) as H24.
  { intros H. unfold le_24. destruct H16 as (n & -> & Hn); [lia|]. destruct (Hat 2) as (b2 & -> & H2); [lia..|].
    mcbn. eauto. }
  split_and!; [done|done|]. intros H. unfold le_32. destruct H24 as (n & -> & Hn); [lia|].
  destruct (Hat 3) as (b3 & -> & H3); [lia..|]. mcbn. eauto.
Qed.

(** A tag lies inside the data, or decoding it raises [ValueError]. *)
Definition tag_result (data : bytes) (pos : Z) (r : result (TagType * Z * Z * Z)) : Prop :=
  (exists ty L o tb, r = Ok (ty, L, o, tb) /\ 1 <= tb /\ pos + tb <= Zlen data /\ 1 <= L) \/ r = Err ValueError.

Lemma decode_literal_cases data pos tag :
  0 <= pos < Zlen data -> 0 <= tag -> tag_result data pos (_decode_literal_tag data pos tag).
Proof.
  intros Hp Ht. unfold _decode_literal_tag, tag_result. assert (0 <= Z.shiftr tag 2) by (apply Z.shiftr_nonneg; lia).
  destruct (le_read data (pos + 1)) as (H16 & H24 & H32); [lia|]. rewrite <- !Z.add_assoc in *.
  change (1 + 1) with 2 in *. change (1 + 2) with 3 in *. change (1 + 3) with 4 in *.
  destruct (_ <? _); [left; do 4 eexists; split; [done|lia]|].
  destruct (_ =? LITERAL_LENGTH_1_BYTE); [|destruct (_ =? LITERAL_LENGTH_2_BYTES); [|destruct (_ =? LITERAL_LENGTH_3_BYTES)]];
    match goal with |- context [Zlen data <=? ?k] => destruct (Z.leb_spec (Zlen data) k) as [|Hlt] end;
    cbn [negb]; try (by right); left.
  - destruct (byte_at_total data (pos + 1)) as (b & -> & Hb); [lia|]. mcbn. do 4 eexists. split; [done|lia].
  - destruct (H16 Hlt) as (n & -> & Hn). mcbn. do 4 eexists. split; [done|lia].
  - destruct (H24 Hlt) as (n & -> & Hn). mcbn. do 4 eexists. split; [done|lia].
  - destruct (H32 Hlt) as (n & -> & Hn). mcbn. do 4 eexists. split; [done|lia].
Qed.

Lemma decode_tag_cases data pos : 0 <= pos -> tag_result data pos (decode_tag data pos).
Proof.
  intros Hp. unfold decode_tag. destruct (Z.leb_spec (Zlen data) pos) as [|Hlt]; cbn [negb]; [by right|].
  destruct (byte_at_total data pos) as (tag & -> & Htag); [lia|]. mcbn.
  assert (0 <= Z.shiftr tag 2) by (apply Z.shiftr_nonneg; lia).
  destruct (le_read data (pos + 1)) as (H16 & _ & H32); [lia|]. rewrite <- !Z.add_assoc in *.
  change (1 + 1) with 2 in *. change (1 + 3) with 4 in *.
  destruct (_ =? LITERAL); [by apply decode_literal_cases; lia|].
  unfold _decode_copy_1_tag, _decode_copy_2_tag, _decode_copy_4_tag, tag_result.
  destruct (_ =? COPY_1_BYTE_OFFSET); [|destruct (_ =? COPY_2_BYTE_OFFSET)];
    match goal with |- context [Zlen data <=? ?k] => destruct (Z.leb_spec (Zlen data) k) as [|Hl] end;
    cbn [negb]; try (by right); left.
  - destruct (byte_at_total data (pos + 1)) as (b & -> & Hb); [lia|]. mcbn. do 4 eexists. split; [done|].
    assert (0 <= Z.land (Z.shiftr tag 2) 7) by (apply Z.land_nonneg; lia). lia.
  - destruct (H16 Hl) as (n & -> & Hn). mcbn. do 4 eexists. split; [done|lia].
  - destruct (H32 Hl) as (n & -> & Hn). mcbn. do 4 eexists. split; [done|lia].
Qed.

Lemma copy_loop_total n out src :
  0 <= src < Zlen out -> exists out', copy_loop n out src = Ok out' /\ length out' = (length out + n)%nat.
Proof.
  revert out src. induction n as [|n IH]; intros out src Hs; cbn [copy_loop]; [exists out; split; [done|lia]|].
  destruct (lookup_lt_is_Some_2 out (Z.to_nat src)) as [b ->]; [lia|]. mcbn.
  destruct (IH (out ++ [b]) (src + 1)) as (out' & -> & Hl); [rewrite length_app; cbn [length]; lia|].
  exists out'. split; [done|]. rewrite length_app in Hl. cbn [length] in Hl. lia.
Qed.

Lemma decompress_step_cases data total out pos :
  0 <= pos <= Zlen data ->
  (exists acc, decompress_step data total (out, pos) = Ok acc /\ pos < acc.2 <= Zlen data) \/
  decompress_step data total (out, pos) = Err SnappyDecompressionError.
Proof.
  intros Hp. unfold decompress_step. destruct (Z.leb_spec (Zlen data) pos) as [|Hlt]; cbn [negb]; [by right|].
  destruct (decode_tag_cases data pos) as [(ty & L & o & tb & -> & H1 & H2 & H3)| ->]; [lia| |by right].
  mcbn. destruct ty.
  - destruct (Z.ltb_spec (Zlen data) (pos + tb + L)); cbn [negb]; [by right|].
    left. eexists. split; [done|]. cbn [snd]. lia.
  - unfold _execute_copy. destruct (Z.ltb_spec o 1); cbn [negb]; [by right|].
    destruct (Z.ltb_spec (Zlen out) o); cbn [negb]; [by right|].
    destruct (Z.ltb_spec total (Zlen out + L)); cbn [negb]; [by right|].
    destruct (copy_loop_total (Z.to_nat L) out (Zlen out - o)) as (out' & -> & _); [lia|]. mcbn.
    left. eexists. split; [done|]. cbn [snd]. lia.
Qed.

Lemma decompress_cases data :
  (exists out, decompress data = Ok out) \/ decompress data = Err SnappyDecompressionError.
Proof.
  unfold decompress. destruct (Z.eqb_spec (Zlen data) 0) as [|_]; cbn [negb]; [by right|].
  destruct (decode_varint_cases data 0 SNAPPY_VARINT_MAX_BYTES) as [(n & c & -> & Hn & Hc & Hd)| ->];
    [done|done| |by right].
  mcbn. destruct (n =? 0); [left; eauto|].
  destruct (while_cases (fun acc : bytes * Z => 0 <= acc.2 <= Zlen data) (fun e => e = SnappyDecompressionError)
    (fun acc => Z.to_nat (Zlen data - acc.2)) (fun acc => Zlen acc.1 <? n) (decompress_step data n)
    (length data) ([], c)) as [([out pos] & -> & _ & _)|(e & -> & ->)]; [|cbn [snd]; lia|cbn [snd]; lia| |by right].
  - intros [out pos] Hp _. cbn [snd] in *.
    destruct (decompress_step_cases data n out pos Hp) as [([out' pos'] & -> & Hpos)| ->]; [left|right; eauto].
    eexists. split; [done|]. cbn [snd] in *. lia.
  - mcbn. destruct (_ =? _); eauto.
Qed.

Lemma chunk_payload_cases ty data :
  (exists out, chunk_payload ty data = Ok out) \/ chunk_payload ty data = Err SnappyDecompressionError.
Proof.
  unfold chunk_payload. destruct (_ =? CHUNK_TYPE_COMPRESSED).
  { destruct (negb _); [|by right]. destruct (decompress_cases (drop 4 data)) as [[out ->]| ->]; mcbn; [|by right].
    destruct (negb _); [|by right]. destruct (crc32c_ok out) as [crc ->]. mcbn. destruct (_ =? _); eauto. }
  destruct (_ =? CHUNK_TYPE_UNCOMPRESSED).
  { destruct (negb _); [|by right]. destruct (negb _); [|by right].
    destruct (crc32c_ok (drop 4 data)) as [crc ->]. mcbn. destruct (_ =? _); eauto. }
  destruct (_ =? 0xFF); [destruct (_ =? 6); [|by right]; destruct (bool_decide _); eauto|].
  destruct (_ && _); eauto.
Qed.

Lemma frame_decompress_cases data :
  (exists out, frame_decompress data = Ok out) \/ frame_decompress data = Err SnappyDecompressionError.
Proof.
  unfold frame_decompress. destruct (Z.ltb_spec (Zlen data) (Zlen STREAM_IDENTIFIER)) as [|Hl]; cbn [negb]; [by right|].
  destruct (bool_decide _); [|by right]. change (Zlen STREAM_IDENTIFIER) with 10 in *.
  destruct (while_cases (fun acc : bytes * Z => 0 <= acc.2 <= Zlen data) (fun e => e = SnappyDecompressionError)
    (fun acc => Z.to_nat (Zlen data - acc.2)) (fun acc => acc.2 <? Zlen data) (unframe_step data)
    (length data) ([], 10)) as [([out pos] & -> & _ & _)|(e & -> & ->)]; [|cbn [snd]; lia|cbn [snd]; lia| |by right].
  - intros [out pos] Hp Hc%Z.ltb_lt. cbn [snd] in *. unfold unframe_step.
    destruct (Z.ltb_spec (Zlen data) (pos + 4)); cbn [negb]; [right; eauto|].
    destruct (byte_at_total data pos) as (ty & -> & _); [lia|]. mcbn.
    pose proof (from_bytes_le_range (slice data (pos + 1) (pos + 4))) as [Hn _].
    set (n := from_bytes_le _) in *. destruct (Z.ltb_spec (Zlen data) (pos + 4 + n)); cbn [negb]; [right; eauto|].
    destruct (chunk_payload_cases ty (slice data (pos + 4) (pos + 4 + n))) as [[p ->]| ->]; mcbn; [left|right; eauto].
    eexists. split; [done|]. cbn [snd]. lia.
  - mcbn. eauto.
Qed.

(** C28: compressing a string of fewer than 2^35 bytes succeeds, stays within
    [max_compressed_length], and decompressing gives the string back; a longer string
    is refused because its length has no five-byte varint. *)
Theorem snappy_roundtrip (data : bytes) :
  if Zlen data <? 2 ^ 35 then
    exists out, compress data = Ok out /\ decompress out = Ok data /\
      Zlen out <= max_compressed_length (Zlen data)
  else compress data = Err ValueError.
Proof.
  destruct (Z.ltb_spec (Zlen data) (2 ^ 35)) as [H|H]; [by apply snappy_compress_ok|].
  unfold compress. rewrite (proj2 (Z.eqb_neq _ 0)) by lia.
  by rewrite encode_varint_too_long.
Qed.

(** The framed format round trips every string with at most eight bytes of overhead
    per 64 KiB chunk and the ten bytes of the stream identifier, and a stream cut off
    anywhere is rejected or yields a strictly shorter string, so a reader that waits for
    the declared length never takes a partial stream for the message. *)
Theorem snappy_frame_roundtrip (data : bytes) :
  exists out, frame_compress data = Ok out /\ frame_decompress out = Ok data /\
    Zlen out <= 10 + Zlen data + 8 * ((Zlen data + 65535) / 65536) /\
    forall k, (k < length out)%nat ->
      frame_decompress (take k out) = Err SnappyDecompressionError \/
      exists part, frame_decompress (take k out) = Ok part /\ Zlen part < Zlen data.
Proof.
  destruct (frame_compress_ok data) as (stream & E & Hf & Hs). exists (STREAM_IDENTIFIER ++ stream).
  split_and!; [done|by apply frame_decompress_ok|rewrite length_app; change (length STREAM_IDENTIFIER) with 10%nat; lia|].
  intros k Hk. by apply stream_cut.
Qed.

(** On arbitrary bytes the raw and the framed decompressor return a string or raise
    SnappyDecompressionError; no index is out of range and both loops terminate. *)
Theorem decompression_never_crashes (data : bytes) :
  ((exists out, decompress data = Ok out) \/ decompress data = Err SnappyDecompressionError) /\
  ((exists out, frame_decompress data = Ok out) \/ frame_decompress data = Err SnappyDecompressionError).
Proof. split; [apply decompress_cases|apply frame_decompress_cases]. Qed.
