(* ===== verification/Ssz.v ===== *)
(** * The SSZ type system (spec/ssz)

    The abstract base class [SSZType] is a record of the methods each SSZ class
    overrides; every class of the source is one value (or combinator) of that
    record: [bitlist_class], [vector_class], [container_class], ...  A type
    descriptor [ssz_type] names a composition of those classes and [class_of]
    interprets it, the way a Python class declaration does.  A [stream] read by a
    decoder is the list of the bytes left, a written stream the bytes written. *)

From S2P Require Import Prelude Uint.

(** ** Values *)
Inductive ssz_value :=
| VUint (z : Z)
| VBoolean (b : bool)
| VFp (z : Z)
| VBytes (bs : bytes)
| VByteList (bs : bytes)
| VBitvector (bits : list bool)
| VBitlist (bits : list bool)
| VVector (vs : list ssz_value)
| VList (vs : list ssz_value)
| VContainer (vs : list ssz_value).

(** ** The class interface (ssz_base.py) *)
Definition BYTES_PER_LENGTH_OFFSET : Z := 4.

Record SSZType := {
  is_fixed_size : bool;
  fixed_byte_length : Z;
  well_typed : ssz_value -> bool;
  serialize : ssz_value -> result bytes;
  deserialize : bytes -> Z -> result (ssz_value * bytes);
  decode_bytes : bytes -> result ssz_value
}.

(** [get_byte_length]: a variable-size class raises. *)
Definition get_byte_length (c : SSZType) : result Z :=
  check! is_fixed_size c else SSZTypeError;; Ok (fixed_byte_length c).

Definition encode_bytes (c : SSZType) (v : ssz_value) : result bytes := serialize c v.

(** [SSZType.decode_bytes]: the default, which rejects trailing bytes. *)
Definition default_decode_bytes (deser : bytes -> Z -> result (ssz_value * bytes))
    (data : bytes) : result ssz_value :=
  '(v, rest) ← deser data (Zlen data);
  check! Zlen rest =? 0 else SSZSerializationError;;
  Ok v.

(** [stream.read(n)]: at most [n] bytes, everything when [n] is negative. *)
Definition read (n : Z) (s : bytes) : bytes * bytes :=
  if n <? 0 then (s, [])
  else let k := Z.to_nat (Z.min n (Zlen s)) in (take k s, drop k s).

(** A read followed by the length check every decoder makes. *)
Definition read_exact (n : Z) (s : bytes) : result (bytes * bytes) :=
  let '(data, rest) := read n s in
  check! Zlen data =? n else SSZSerializationError;;
  Ok (data, rest).

(** ** Unsigned integers, booleans, field elements, byte arrays *)
Definition uint_deserialize (bits : Z) (s : bytes) (scope : Z) : result (Z * bytes) :=
  check! scope =? uint_byte_length bits else SSZSerializationError;;
  '(data, rest) ← read_exact (uint_byte_length bits) s;
  z ← uint_decode_bytes bits data;
  Ok (z, rest).

Definition uint_class (bits : Z) : SSZType := {|
  is_fixed_size := true;
  fixed_byte_length := uint_byte_length bits;
  well_typed v := match v with VUint z => (0 <=? z) && (z <=? max_value bits) | _ => false end;
  serialize v := match v with VUint z => uint_encode_bytes bits z | _ => Err TypeError end;
  deserialize s scope := '(z, rest) ← uint_deserialize bits s scope; Ok (VUint z, rest);
  decode_bytes data := VUint <$> uint_decode_bytes bits data
|}.

Definition boolean_class : SSZType := {|
  is_fixed_size := true;
  fixed_byte_length := 1;
  well_typed v := match v with VBoolean _ => true | _ => false end;
  serialize v := match v with VBoolean b => Ok (boolean_encode_bytes b) | _ => Err TypeError end;
  deserialize s scope :=
    check! scope =? 1 else SSZSerializationError;;
    let '(data, rest) := read 1 s in
    b ← boolean_decode_bytes data;
    Ok (VBoolean b, rest);
  decode_bytes data := VBoolean <$> boolean_decode_bytes data
|}.

(** The KoalaBear prime and the width of a field element (crypto/koalabear.py). *)
Definition P : Z := 2 ^ 31 - 2 ^ 24 + 1.
Definition P_BYTES : Z := 4.

Definition fp_deserialize (s : bytes) (scope : Z) : result (ssz_value * bytes) :=
  check! scope =? P_BYTES else SSZSerializationError;;
  '(data, rest) ← read_exact P_BYTES s;
  let decoded_integer := from_bytes_le data in
  check! decoded_integer <? P else SSZValueError;;
  Ok (VFp (decoded_integer mod P), rest).

Definition fp_class : SSZType := {|
  is_fixed_size := true;
  fixed_byte_length := P_BYTES;
  well_typed v := match v with VFp z => (0 <=? z) && (z <? P) | _ => false end;
  serialize v := match v with VFp z => to_bytes_le P_BYTES z | _ => Err TypeError end;
  deserialize := fp_deserialize;
  decode_bytes := default_decode_bytes fp_deserialize
|}.

(** [BaseBytes.__new__] on bytes *)
Definition bytes_new (LENGTH : Z) (data : bytes) : result bytes :=
  check! Zlen data =? LENGTH else SSZValueError;; Ok data.

Definition bytes_class (LENGTH : Z) : SSZType := {|
  is_fixed_size := true;
  fixed_byte_length := LENGTH;
  well_typed v := match v with VBytes bs => Zlen bs =? LENGTH | _ => false end;
  serialize v := match v with VBytes bs => Ok bs | _ => Err TypeError end;
  deserialize s scope :=
    check! scope =? LENGTH else SSZSerializationError;;
    '(data, rest) ← read_exact scope s;
    Ok (VBytes data, rest);
  decode_bytes data := VBytes <$> bytes_new LENGTH data
|}.

(** [BaseByteList._validate_byte_list_data] on bytes *)
Definition bytelist_new (LIMIT : Z) (data : bytes) : result bytes :=
  check! Zlen data <=? LIMIT else SSZValueError;; Ok data.

Definition bytelist_class (LIMIT : Z) : SSZType := {|
  is_fixed_size := false;
  fixed_byte_length := 0;
  well_typed v := match v with VByteList bs => Zlen bs <=? LIMIT | _ => false end;
  serialize v := match v with VByteList bs => Ok bs | _ => Err TypeError end;
  deserialize s scope :=
    check! 0 <=? scope else SSZSerializationError;;
    check! scope <=? LIMIT else SSZValueError;;
    '(data, rest) ← read_exact scope s;
    bs ← bytelist_new LIMIT data;
    Ok (VByteList bs, rest);
  decode_bytes data := VByteList <$> bytelist_new LIMIT data
|}.

(** ** Bitfields (bitfields.py) *)

(** [sum(1 << i for i, bit in enumerate(data) if bit)], from index [i] on *)
Fixpoint packed_bits_from (i : Z) (bits : list bool) : Z :=
  match bits with
  | [] => 0
  | b :: bits => (if b then Z.shiftl 1 i else 0) + packed_bits_from (i + 1) bits
  end.
Definition packed_bits (bits : list bool) : Z := packed_bits_from 0 bits.

(** [Boolean((data[i // 8] >> (i % 8)) & 1)] *)
Definition bit_at (data : bytes) (i : nat) : result bool :=
  b ← of_option IndexError (data !! (i / 8)%nat);
  boolean_new (Z.land (Z.shiftr (byte.unsigned b) (Z.of_nat (i mod 8))) 1).

(** [math.ceil(n / 8)] *)
Definition ceil8 (n : Z) : Z := (n + 7) / 8.

Definition bitvector_encode_bytes (LENGTH : Z) (bits : list bool) : result bytes :=
  to_bytes_le (ceil8 LENGTH) (packed_bits bits).

Definition bitvector_decode_bytes (LENGTH : Z) (data : bytes) : result (list bool) :=
  check! Zlen data =? ceil8 LENGTH else SSZValueError;;
  let trailing_bit_count := LENGTH mod 8 in
  padding ←
    (if trailing_bit_count =? 0 then Ok 0
     else b ← of_option IndexError (last data);
          Ok (Z.shiftr (byte.unsigned b) trailing_bit_count));
  check! padding =? 0 else SSZValueError;;
  mapM (bit_at data) (seq 0 (Z.to_nat LENGTH)).

Definition bitvector_class (LENGTH : Z) : SSZType := {|
  is_fixed_size := true;
  fixed_byte_length := ceil8 LENGTH;
  well_typed v := match v with VBitvector bits => Zlen bits =? LENGTH | _ => false end;
  serialize v :=
    match v with VBitvector bits => bitvector_encode_bytes LENGTH bits | _ => Err TypeError end;
  deserialize s scope :=
    check! scope =? ceil8 LENGTH else SSZSerializationError;;
    '(data, rest) ← read_exact scope s;
    bits ← bitvector_decode_bytes LENGTH data;
    Ok (VBitvector bits, rest);
  decode_bytes data := VBitvector <$> bitvector_decode_bytes LENGTH data
|}.

Definition bitlist_encode_bytes (bits : list bool) : result bytes :=
  let num_bits := Zlen bits in
  if num_bits =? 0 then Ok [Byte.x01]
  else to_bytes_le (ceil8 (num_bits + 1)) (Z.lor (packed_bits bits) (Z.shiftl 1 num_bits)).

Definition bitlist_decode_bytes (LIMIT : Z) (data : bytes) : result (list bool) :=
  check! negb (Zlen data =? 0) else SSZSerializationError;;
  let packed_integer := from_bytes_le data in
  check! negb (packed_integer =? 0) else SSZSerializationError;;
  let delimiter_pos := bit_length packed_integer - 1 in
  check! delimiter_pos / 8 =? Zlen data - 1 else SSZSerializationError;;
  let num_bits := delimiter_pos in
  check! num_bits <=? LIMIT else SSZValueError;;
  mapM (bit_at data) (seq 0 (Z.to_nat num_bits)).

Definition bitlist_class (LIMIT : Z) : SSZType := {|
  is_fixed_size := false;
  fixed_byte_length := 0;
  well_typed v := match v with VBitlist bits => Zlen bits <=? LIMIT | _ => false end;
  serialize v := match v with VBitlist bits => bitlist_encode_bytes bits | _ => Err TypeError end;
  deserialize s scope :=
    '(data, rest) ← read_exact scope s;
    bits ← bitlist_decode_bytes LIMIT data;
    Ok (VBitlist bits, rest);
  decode_bytes data := VBitlist <$> bitlist_decode_bytes LIMIT data
|}.

(** ** Sequences (collections.py) *)

(** [Uint32(offset).serialize(stream)] *)
Definition offset_serialize (offset : Z) : result bytes :=
  o ← uint_new 32 offset; uint_encode_bytes 32 o.
(** [int(Uint32.deserialize(stream, BYTES_PER_LENGTH_OFFSET))] *)
Definition offset_deserialize (s : bytes) : result (Z * bytes) :=
  uint_deserialize 32 s BYTES_PER_LENGTH_OFFSET.

(** [read] [n] times: a comprehension over [range(n)] *)
Fixpoint read_times {A} (rd : bytes -> result (A * bytes)) (n : nat) (s : bytes)
    : result (list A * bytes) :=
  match n with
  | O => Ok ([], s)
  | S n => '(a, s) ← rd s; '(l, s) ← read_times rd n s; Ok (a :: l, s)
  end.

(** One element per span of the boundary list: a comprehension over [pairwise] *)
Fixpoint read_spans (rd : bytes -> Z -> result (ssz_value * bytes)) (offsets : list Z)
    (s : bytes) : result (list ssz_value * bytes) :=
  match offsets with
  | start :: ((stop :: _) as tl) =>
      '(v, s) ← rd s (stop - start);
      '(l, s) ← read_spans rd tl s;
      Ok (v :: l, s)
  | _ => Ok ([], s)
  end.

(** [_validate_offsets] *)
Fixpoint offsets_monotone (offsets : list Z) : bool :=
  match offsets with
  | previous :: ((current :: _) as tl) => (previous <=? current) && offsets_monotone tl
  | _ => true
  end.
Definition _validate_offsets (offsets : list Z) (scope : Z) : result unit :=
  match last offsets with
  | None => Ok tt
  | Some final =>
      check! offsets_monotone offsets else SSZSerializationError;;
      check! final <=? scope else SSZSerializationError;;
      Ok tt
  end.

(** [_SSZSequence._write_variable_payload]: the offset table and the bodies. *)
Fixpoint write_payload (ser : ssz_value -> result bytes) (offset : Z) (vs : list ssz_value)
    : result (bytes * bytes) :=
  match vs with
  | [] => Ok ([], [])
  | v :: vs =>
      o ← offset_serialize offset;
      body ← ser v;
      '(table, bodies) ← write_payload ser (offset + Zlen body) vs;
      Ok (o ++ table, body ++ bodies)
  end.
Definition _write_variable_payload (ser : ssz_value -> result bytes) (offset_count : Z)
    (vs : list ssz_value) : result bytes :=
  '(table, bodies) ← write_payload ser (offset_count * BYTES_PER_LENGTH_OFFSET) vs;
  Ok (table ++ bodies).

(** Fixed-size elements back-to-back. *)
Definition write_fixed (ser : ssz_value -> result bytes) (vs : list ssz_value) : result bytes :=
  mjoin <$> mapM ser vs.

Definition vector_deserialize (c : SSZType) (LENGTH : Z) (s : bytes) (scope : Z)
    : result (ssz_value * bytes) :=
  if is_fixed_size c then
    let element_byte_length := fixed_byte_length c in
    let expected_total := element_byte_length * LENGTH in
    check! scope =? expected_total else SSZSerializationError;;
    '(vs, s) ← read_times (fun s => deserialize c s element_byte_length) (Z.to_nat LENGTH) s;
    Ok (VVector vs, s)
  else
    let expected_first := LENGTH * BYTES_PER_LENGTH_OFFSET in
    check! expected_first <=? scope else SSZSerializationError;;
    '(offsets, s) ← read_times offset_deserialize (Z.to_nat LENGTH) s;
    first ← of_option IndexError (head offsets);
    check! first =? expected_first else SSZSerializationError;;
    let offsets := offsets ++ [scope] in
    _ ← _validate_offsets offsets scope;
    '(vs, s) ← read_spans (deserialize c) offsets s;
    Ok (VVector vs, s).

Definition vector_class (c : SSZType) (LENGTH : Z) : SSZType := {|
  is_fixed_size := is_fixed_size c;
  fixed_byte_length := fixed_byte_length c * LENGTH;
  well_typed v :=
    match v with
    | VVector vs => (Zlen vs =? LENGTH) && forallb (well_typed c) vs
    | _ => false
    end;
  serialize v :=
    match v with
    | VVector vs =>
        if is_fixed_size c then write_fixed (serialize c) vs
        else _write_variable_payload (serialize c) LENGTH vs
    | _ => Err TypeError
    end;
  deserialize := vector_deserialize c LENGTH;
  decode_bytes := default_decode_bytes (vector_deserialize c LENGTH)
|}.

Definition list_deserialize (c : SSZType) (LIMIT : Z) (s : bytes) (scope : Z)
    : result (ssz_value * bytes) :=
  if scope =? 0 then Ok (VList [], s)
  else if is_fixed_size c then
    let element_size := fixed_byte_length c in
    check! negb (element_size =? 0) else ZeroDivisionError;;
    check! scope mod element_size =? 0 else SSZSerializationError;;
    let num_elements := scope / element_size in
    check! num_elements <=? LIMIT else SSZValueError;;
    '(vs, s) ← read_times (fun s => deserialize c s element_size) (Z.to_nat num_elements) s;
    Ok (VList vs, s)
  else
    check! BYTES_PER_LENGTH_OFFSET <=? scope else SSZSerializationError;;
    '(first_offset, s) ← offset_deserialize s;
    check! (first_offset <=? scope) && (first_offset mod BYTES_PER_LENGTH_OFFSET =? 0)
      else SSZSerializationError;;
    let num_elements := first_offset / BYTES_PER_LENGTH_OFFSET in
    check! num_elements <=? LIMIT else SSZValueError;;
    '(more, s) ← read_times offset_deserialize (Z.to_nat (num_elements - 1)) s;
    let offsets := first_offset :: more ++ [scope] in
    _ ← _validate_offsets offsets scope;
    '(vs, s) ← read_spans (deserialize c) offsets s;
    check! Zlen vs <=? LIMIT else SSZValueError;;
    Ok (VList vs, s).

Definition list_class (c : SSZType) (LIMIT : Z) : SSZType := {|
  is_fixed_size := false;
  fixed_byte_length := 0;
  well_typed v :=
    match v with
    | VList vs => (Zlen vs <=? LIMIT) && forallb (well_typed c) vs
    | _ => false
    end;
  serialize v :=
    match v with
    | VList vs =>
        if is_fixed_size c then write_fixed (serialize c) vs
        else _write_variable_payload (serialize c) (Zlen vs) vs
    | _ => Err TypeError
    end;
  deserialize := list_deserialize c LIMIT;
  decode_bytes := default_decode_bytes (list_deserialize c LIMIT)
|}.

(** ** Containers (container.py) *)

(** Width of a field's slot in the leading part. *)
Definition slot_width (c : SSZType) : Z :=
  if is_fixed_size c then fixed_byte_length c else BYTES_PER_LENGTH_OFFSET.
Definition sum_Z (l : list Z) : Z := foldr Z.add 0 l.

(** The write loop: leading part (fixed fields and offsets) and tail. *)
Fixpoint write_fields (fields : list SSZType) (vs : list ssz_value) (offset : Z)
    : result (bytes * bytes) :=
  match fields, vs with
  | [], [] => Ok ([], [])
  | c :: fields, v :: vs =>
      if is_fixed_size c then
        b ← serialize c v;
        '(fixed, tail) ← write_fields fields vs offset;
        Ok (b ++ fixed, tail)
      else
        o ← offset_serialize offset;
        b ← serialize c v;
        '(fixed, tail) ← write_fields fields vs (offset + Zlen b);
        Ok (o ++ fixed, b ++ tail)
  | _, _ => Err TypeError
  end.
Definition container_serialize (fields : list SSZType) (vs : list ssz_value) : result bytes :=
  '(fixed, tail) ← write_fields fields vs (sum_Z (map slot_width fields));
  Ok (fixed ++ tail).

(** Phase 1 of decoding: a slot holds the field itself, or the offset of its payload. *)
Inductive slot :=
| SFixed (v : ssz_value)
| SOffset (c : SSZType) (offset : Z).

Fixpoint read_slots (fields : list SSZType) (s : bytes) : result (list slot * bytes) :=
  match fields with
  | [] => Ok ([], s)
  | c :: fields =>
      '(sl, s) ←
        (if is_fixed_size c then
           '(v, s) ← deserialize c s (fixed_byte_length c); Ok (SFixed v, s)
         else '(offset, s) ← offset_deserialize s; Ok (SOffset c offset, s));
      '(slots, s) ← read_slots fields s;
      Ok (sl :: slots, s)
  end.

(** The offset of the first variable field, if any. *)
Fixpoint first_offset (slots : list slot) : option Z :=
  match slots with
  | [] => None
  | SFixed _ :: slots => first_offset slots
  | SOffset _ offset :: _ => Some offset
  end.

(** Phase 2: each variable payload spans from its offset to the next boundary. *)
Fixpoint read_tail (slots : list slot) (scope : Z) (s : bytes) : result (list ssz_value * bytes) :=
  match slots with
  | [] => Ok ([], s)
  | SFixed v :: slots => '(vs, s) ← read_tail slots scope s; Ok (v :: vs, s)
  | SOffset c start :: slots =>
      let stop := default scope (first_offset slots) in
      check! start <=? stop else SSZSerializationError;;
      '(v, s) ← deserialize c s (stop - start);
      '(vs, s) ← read_tail slots scope s;
      Ok (v :: vs, s)
  end.

Definition container_deserialize (fields : list SSZType) (s : bytes) (scope : Z)
    : result (ssz_value * bytes) :=
  '(slots, s) ← read_slots fields s;
  let bytes_read := sum_Z (map slot_width fields) in
  _ ← match first_offset slots with
      | None => Ok tt
      | Some first => check! first =? bytes_read else SSZSerializationError;; Ok tt
      end;
  '(vs, s) ← read_tail slots scope s;
  Ok (VContainer vs, s).

Definition container_class (fields : list SSZType) : SSZType := {|
  is_fixed_size := forallb is_fixed_size fields;
  fixed_byte_length := sum_Z (map fixed_byte_length fields);
  well_typed v :=
    match v with
    | VContainer vs =>
        (length vs =? length fields)%nat &&
        forallb (fun cv => well_typed cv.1 cv.2) (combine fields vs)
    | _ => false
    end;
  serialize v :=
    match v with VContainer vs => container_serialize fields vs | _ => Err TypeError end;
  deserialize := container_deserialize fields;
  decode_bytes := default_decode_bytes (container_deserialize fields)
|}.

(** ** Type descriptors *)
Inductive ssz_type :=
| TUint (BITS : Z)
| TBoolean
| TFp
| TBytes (LENGTH : Z)
| TByteList (LIMIT : Z)
| TBitvector (LENGTH : Z)
| TBitlist (LIMIT : Z)
| TVector (ELEMENT_TYPE : ssz_type) (LENGTH : Z)
| TList (ELEMENT_TYPE : ssz_type) (LIMIT : Z)
| TContainer (model_fields : list ssz_type).

Fixpoint class_of (t : ssz_type) : SSZType :=
  match t with
  | TUint bits => uint_class bits
  | TBoolean => boolean_class
  | TFp => fp_class
  | TBytes n => bytes_class n
  | TByteList n => bytelist_class n
  | TBitvector n => bitvector_class n
  | TBitlist n => bitlist_class n
  | TVector t n => vector_class (class_of t) n
  | TList t n => list_class (class_of t) n
  | TContainer ts => container_class (map class_of ts)
  end.

(** Declarations that make sense: whole-byte widths, non-negative lengths, no
    zero-length vector of variable-size elements, no list of zero-width elements. *)
Fixpoint wf_type (t : ssz_type) : Prop :=
  match t with
  | TUint bits => wf_bits bits
  | TBoolean | TFp => True
  | TBytes n | TByteList n | TBitvector n | TBitlist n => 0 <= n
  | TVector t n => wf_type t /\ 0 <= n /\ (is_fixed_size (class_of t) = false -> 0 < n)
  | TList t n =>
      wf_type t /\ 0 <= n /\
      (is_fixed_size (class_of t) = true -> 0 < fixed_byte_length (class_of t))
  | TContainer ts => foldr (fun t acc => wf_type t /\ acc) True ts
  end.

#[global] Arguments read : simpl never.
#[global] Arguments read_exact : simpl never.
#[global] Arguments uint_decode_bytes : simpl never.
#[global] Arguments uint_encode_bytes : simpl never.
#[global] Arguments boolean_decode_bytes : simpl never.
#[global] Arguments bitvector_decode_bytes : simpl never.
#[global] Arguments bitlist_decode_bytes : simpl never.
#[global] Arguments to_bytes_le : simpl never.
#[global] Arguments offset_serialize : simpl never.
#[global] Arguments offset_deserialize : simpl never.
