(* ===== verification/SszCorrect.v ===== *)
(** * SSZ: every value has one encoding, and decoding is total

    [codec_ok] is what each SSZ class promises to the classes built from it; each
    class of Ssz.v discharges it, and induction on the type descriptor gives the
    theorems about [encode_bytes]/[decode_bytes] of every declared type. *)

From S2P Require Import Prelude Uint Ssz.

(** ** Reading *)
Lemma read_exact_Ok n s data rest :
  read_exact n s = Ok (data, rest) <-> s = data ++ rest /\ Zlen data = n.
Proof.
  unfold read_exact, read. destruct (Z.ltb_spec n 0) as [Hn|Hn].
  - split; [|intros [_ ?]; lia]. intros H. unbind H. bool_to_prop. lia.
  - split.
    + intros H. destruct (_ =? _) eqn:E; [|done]. injection H as <- <-. bool_to_prop.
      by rewrite take_drop.
    + intros [-> <-]. replace (Z.to_nat _) with (length data) by (rewrite length_app; lia).
      by rewrite take_app_length, drop_app_length, Z.eqb_refl.
Qed.

Lemma read_exact_Err n s e : read_exact n s = Err e -> e = SSZSerializationError.
Proof.
  unfold read_exact. destruct (read n s) as [data rest]. destruct (_ =? _); congruence.
Qed.

(** ** Bit packing *)
Definition unpack (n : nat) (z : Z) : list bool :=
  map (fun i => Z.testbit z (Z.of_nat i)) (seq 0 n).

Lemma packed_bits_from_shift i bits :
  0 <= i -> packed_bits_from i bits = packed_bits bits * 2 ^ i.
Proof.
  unfold packed_bits. revert i. induction bits as [|b bits IH]; intros i Hi; simpl; [lia|].
  rewrite (IH (i + 1)), (IH (0 + 1)) by lia.
  rewrite (Z.pow_add_r 2 i 1), !Z.shiftl_mul_pow2 by lia.
  change (2 ^ (0 + 1)) with 2. change (2 ^ 1) with 2. change (2 ^ 0) with 1.
  destruct b; ring.
Qed.

Lemma packed_bits_cons b bits : packed_bits (b :: bits) = Z.b2z b + 2 * packed_bits bits.
Proof.
  unfold packed_bits at 1. simpl. rewrite packed_bits_from_shift by lia.
  change (2 ^ (0 + 1)) with 2. change (Z.shiftl 1 0) with 1.
  rewrite Z.mul_comm. by destruct b.
Qed.

Lemma packed_bits_range bits : 0 <= packed_bits bits < 2 ^ Zlen bits.
Proof.
  induction bits as [|b bits IH]; [done|]. rewrite packed_bits_cons. simpl length.
  rewrite Nat2Z.inj_succ, Z.pow_succ_r by lia. destruct b; simpl Z.b2z; lia.
Qed.

Lemma unpack_S n z : unpack (S n) z = Z.odd z :: unpack n (z / 2).
Proof.
  unfold unpack. simpl. f_equal. rewrite <- seq_shift, map_map.
  apply map_ext. intros i. rewrite Nat2Z.inj_succ, Z.div2_bits by lia. done.
Qed.

Lemma unpack_packed bits z :
  unpack (length bits) (packed_bits bits + 2 ^ Zlen bits * z) = bits.
Proof.
  revert z. induction bits as [|b bits IH]; intros z; [done|]. simpl length. rewrite unpack_S.
  rewrite packed_bits_cons, Nat2Z.inj_succ, Z.pow_succ_r by lia.
  replace (Z.b2z b + 2 * packed_bits bits + 2 * 2 ^ Zlen bits * z)
    with (Z.b2z b + 2 * (packed_bits bits + 2 ^ Zlen bits * z)) by ring.
  f_equal.
  - rewrite Z.odd_add_mul_2. by destruct b.
  - rewrite Z.mul_comm, Z.div_add by lia.
    replace (Z.b2z b / 2) with 0 by by destruct b. by rewrite Z.add_0_l.
Qed.

Lemma packed_unpack n z : packed_bits (unpack n z) = z mod 2 ^ Z.of_nat n.
Proof.
  revert z. induction n as [|n IH]; intros z; [by rewrite Z.mod_1_r|].
  rewrite unpack_S, packed_bits_cons, IH, Nat2Z.inj_succ, Z.pow_succ_r by lia.
  replace (Z.b2z (Z.odd z)) with (z mod 2) by (rewrite Zmod_odd; by destruct (Z.odd z)).
  rewrite (Z.rem_mul_r z 2 (2 ^ Z.of_nat n)); [ring|lia|]. by apply Z.pow_pos_nonneg; lia.
Qed.

Lemma length_unpack n z : length (unpack n z) = n.
Proof. unfold unpack. by rewrite length_map, length_seq. Qed.

Lemma testbit_le_combine data i b :
  data !! (i / 8)%nat = Some b ->
  Z.testbit (le_combine data) (Z.of_nat i) = Z.testbit (byte.unsigned b) (Z.of_nat (i mod 8)).
Proof.
  revert i. induction data as [|x data IH]; intros i H; [done|].
  unfold le_combine; fold le_combine. rewrite Z.lor_spec, Z.shiftl_spec by lia.
  destruct (decide (i < 8)%nat) as [Hi|Hi].
  - rewrite Nat.div_small in H by done. injection H as ->. rewrite Nat.mod_small by done.
    rewrite (Z.testbit_neg_r _ (Z.of_nat i - 8)) by lia. apply orb_false_r.
  - replace (i / 8)%nat with (S ((i - 8) / 8)) in H.
    2:{ replace i with ((i - 8) + 1 * 8)%nat at 2 by lia. rewrite Nat.div_add by lia. lia. }
    simpl in H. replace (Z.of_nat i - 8) with (Z.of_nat (i - 8)) by lia.
    rewrite (IH _ H). replace (i mod 8)%nat with ((i - 8) mod 8)%nat.
    2:{ replace i with ((i - 8) + 1 * 8)%nat at 2 by lia. by rewrite Nat.Div0.mod_add. }
    replace (Z.testbit (byte.unsigned x) (Z.of_nat i)) with false; [done|].
    symmetry. pose proof (byte.unsigned_range x) as Hx.
    destruct (Z.eq_dec (byte.unsigned x) 0) as [->|]; [apply Z.bits_0|].
    apply Z.bits_above_log2; [lia|]. apply Z.log2_lt_pow2; [lia|].
    eapply Z.lt_le_trans; [apply Hx|]. apply Z.pow_le_mono_r; lia.
Qed.

Lemma bit_at_Ok data i :
  (i < 8 * length data)%nat -> bit_at data i = Ok (Z.testbit (le_combine data) (Z.of_nat i)).
Proof.
  intros Hi. unfold bit_at.
  assert (is_Some (data !! (i / 8)%nat)) as [b Hb].
  { apply lookup_lt_is_Some. apply Nat.Div0.div_lt_upper_bound. lia. }
  rewrite Hb. simpl. rewrite (testbit_le_combine _ _ _ Hb).
  rewrite <- (Z.add_0_l (Z.of_nat (i mod 8))), <- Z.shiftr_spec, Z.bit0_odd by lia.
  unfold boolean_new. set (z := Z.shiftr _ _).
  replace (Z.land z 1) with (z mod 2) by (symmetry; apply (Z.land_ones z 1); lia).
  rewrite Zmod_odd. by destruct (Z.odd z).
Qed.

Lemma mapM_bit_at data n :
  (n <= 8 * length data)%nat -> mapM (bit_at data) (seq 0 n) = Ok (unpack n (le_combine data)).
Proof.
  intros Hn. apply mapM_Ok. unfold unpack. apply Forall2_fmap_r, Forall_Forall2_diag.
  apply Forall_forall. intros i Hi%elem_of_seq. apply bit_at_Ok. lia.
Qed.

(** ** Bitfields *)
Lemma ceil8_spec n : 0 <= n -> 8 * ceil8 n - 7 <= n <= 8 * ceil8 n.
Proof. unfold ceil8. intros. div_lia. Qed.

Lemma bitvector_encode_total n bits :
  Zlen bits = n -> exists bs, bitvector_encode_bytes n bits = Ok bs.
Proof.
  intros <-. eexists. apply to_bytes_le_Ok. split; [|done].
  pose proof (packed_bits_range bits). pose proof (ceil8_spec (Zlen bits)).
  split; [lia|]. eapply Z.lt_le_trans; [apply H|]. apply Z.pow_le_mono_r; lia.
Qed.

Lemma last_byte_high_bits data b t :
  last data = Some b -> 0 < t < 8 ->
  le_combine data / 2 ^ (8 * (Zlen data - 1) + t) = Z.shiftr (byte.unsigned b) t.
Proof.
  intros H Ht. apply last_Some in H as [data' ->].
  rewrite le_combine_app, length_app. simpl length.
  rewrite le_combine_1. set (n := length data').
  replace (8 * (Z.of_nat (n + 1) - 1) + t) with (Z.of_nat n * 8 + t) by lia.
  rewrite <- Z.shiftr_div_pow2, Z.shiftr_lor by lia.
  replace (Z.shiftr (le_combine data') _) with 0.
  2:{ symmetry. rewrite Z.shiftr_div_pow2 by lia. apply Z.div_small.
      pose proof (le_combine_bound data'). split; [lia|].
      eapply Z.lt_le_trans; [apply H|]. apply Z.pow_le_mono_r; lia. }
  rewrite Z.lor_0_l. rewrite <- Z.shiftr_shiftr, Z.shiftr_shiftl_l, Z.sub_diag, Z.shiftl_0_r by lia. done.
Qed.

Lemma bitvector_decode_Ok n data bits : 0 <= n ->
  bitvector_decode_bytes n data = Ok bits <->
  Zlen data = ceil8 n /\ from_bytes_le data < 2 ^ n /\
  bits = unpack (Z.to_nat n) (from_bytes_le data).
Proof.
  intros Hn. unfold bitvector_decode_bytes, from_bytes_le.
  pose proof (ceil8_spec n Hn). pose proof (le_combine_bound data) as Hz.
  destruct (Z.eqb_spec (Zlen data) (ceil8 n)) as [El|El]; [|split; [discriminate|by intros (? & _)]].
  rewrite mapM_bit_at by lia.
  destruct (Z.eqb_spec (n mod 8) 0) as [Em|Em]; simpl.
  - assert (8 * Zlen data = n) as E8 by (rewrite El; unfold ceil8; div_lia).
    rewrite E8 in Hz.
    split; [intros [= <-] | intros (_ & _ & ->)]; [split_and!; [done|lia|done] | done].
  - destruct (last data) as [b|] eqn:Eb.
    2:{ apply last_None in Eb as ->. simpl in El. exfalso. apply Em.
        assert (n = 0) as -> by lia. done. }
    simpl. pose proof (Z.mod_pos_bound n 8). pose proof (Z.div_mod n 8).
    assert (8 * (Zlen data - 1) + n mod 8 = n) as E8 by lia.
    rewrite <- (last_byte_high_bits _ _ _ Eb), E8 by lia.
    destruct (Z.eqb_spec (le_combine data / 2 ^ n) 0) as [Ez|Ez].
    + apply Z.div_small_iff in Ez as [Ez|Ez]; [naive_solver|lia|].
      pose proof (Z.pow_pos_nonneg 2 n). lia.
    + split; [done|]. intros (_ & Hlt & _). exfalso. apply Ez. apply Z.div_small. lia.
Qed.

Lemma bitvector_decode_encode n data bits : 0 <= n ->
  bitvector_decode_bytes n data = Ok bits ->
  Zlen bits = n /\ bitvector_encode_bytes n bits = Ok data.
Proof.
  intros Hn (Hl & Hz & ->)%bitvector_decode_Ok; [|done]. rewrite length_unpack. split; [lia|].
  unfold bitvector_encode_bytes. rewrite packed_unpack, Z2Nat.id, Z.mod_small, <- Hl by
    (done || pose proof (from_bytes_le_range data); lia).
  apply to_from_bytes_le.
Qed.

Lemma bitvector_encode_decode n data bits : Zlen bits = n ->
  bitvector_encode_bytes n bits = Ok data -> bitvector_decode_bytes n data = Ok bits.
Proof.
  intros Hn H. pose proof (ceil8_spec n). assert (0 <= ceil8 n) as Hc by lia.
  apply bitvector_decode_Ok; [lia|]. unfold bitvector_encode_bytes in H.
  rewrite (to_bytes_le_length _ _ _ Hc H), (from_to_bytes_le _ _ _ Hc H).
  pose proof (packed_bits_range bits). split_and!; [done|subst n; lia|].
  subst n. rewrite Nat2Z.id. rewrite <- (unpack_packed bits 0) at 1. f_equal. lia.
Qed.

Lemma bitlist_packed bits :
  Z.lor (packed_bits bits) (Z.shiftl 1 (Zlen bits)) = packed_bits bits + 2 ^ Zlen bits.
Proof.
  pose proof (packed_bits_range bits). rewrite Z.shiftl_mul_pow2, Z.mul_1_l by lia.
  rewrite <- Z.add_lor_land. replace (Z.land _ _) with 0; [lia|]. symmetry.
  apply Z.bits_inj'. intros i Hi. rewrite Z.land_spec, Z.bits_0, Z.pow2_bits_eqb by lia.
  destruct (Z.eqb_spec (Zlen bits) i) as [<-|]; [|apply andb_false_r].
  rewrite andb_true_r. destruct (Z.eq_dec (packed_bits bits) 0) as [->|]; [apply Z.bits_0|].
  apply Z.bits_above_log2; [lia|]. apply Z.log2_lt_pow2; lia.
Qed.

Lemma bitlist_encode_Ok bits data :
  bitlist_encode_bytes bits = Ok data <->
  to_bytes_le (ceil8 (Zlen bits + 1)) (packed_bits bits + 2 ^ Zlen bits) = Ok data.
Proof.
  unfold bitlist_encode_bytes. rewrite bitlist_packed. by destruct bits.
Qed.

Lemma bitlist_encode_total bits : exists bs, bitlist_encode_bytes bits = Ok bs.
Proof.
  eexists. apply bitlist_encode_Ok, to_bytes_le_Ok. split; [|done].
  pose proof (packed_bits_range bits). pose proof (ceil8_spec (Zlen bits + 1)).
  split; [lia|]. eapply (Z.lt_le_trans _ (2 ^ (Zlen bits + 1))).
  - rewrite Z.pow_add_r; lia.
  - apply Z.pow_le_mono_r; lia.
Qed.

Lemma bit_length_spec z n : 0 <= n -> 2 ^ n <= z < 2 ^ (n + 1) -> bit_length z - 1 = n.
Proof.
  intros Hn Hz. pose proof (Z.pow_pos_nonneg 2 n). unfold bit_length.
  destruct (Z.eqb_spec z 0); [lia|]. rewrite (Z.log2_unique z n); lia.
Qed.

Lemma bitlist_encode_decode limit bits data : Zlen bits <= limit ->
  bitlist_encode_bytes bits = Ok data -> bitlist_decode_bytes limit data = Ok bits.
Proof.
  intros Hl H%bitlist_encode_Ok. pose proof (packed_bits_range bits).
  pose proof (ceil8_spec (Zlen bits + 1)). assert (0 <= ceil8 (Zlen bits + 1)) as Hc by lia.
  unfold bitlist_decode_bytes. rewrite (from_to_bytes_le _ _ _ Hc H).
  pose proof (to_bytes_le_length _ _ _ Hc H) as Hd.
  pose proof (from_to_bytes_le _ _ _ Hc H) as Hz. unfold from_bytes_le in Hz.
  rewrite (bit_length_spec _ (Zlen bits)) by (rewrite ?Z.pow_add_r; lia).
  destruct (Z.eqb_spec (Zlen data) 0); [lia|].
  destruct (Z.eqb_spec (packed_bits bits + 2 ^ Zlen bits) 0); [lia|].
  rewrite (proj2 (Z.eqb_eq _ _)).
  2:{ rewrite Hd. unfold ceil8. replace (Zlen bits + 1 + 7) with (Zlen bits + 1 * 8) by lia.
      rewrite Z.div_add; lia. }
  rewrite (proj2 (Z.leb_le _ _)) by done. simpl.
  rewrite mapM_bit_at, Hz, Nat2Z.id by lia. f_equal.
  rewrite <- (Z.mul_1_r (2 ^ Zlen bits)). apply unpack_packed.
Qed.

Lemma bitlist_decode_Ok limit data bits :
  bitlist_decode_bytes limit data = Ok bits ->
  exists n, Zlen data = n / 8 + 1 /\ 0 <= n <= limit /\
    2 ^ n <= from_bytes_le data < 2 ^ (n + 1) /\
    bits = unpack (Z.to_nat n) (from_bytes_le data).
Proof.
  unfold bitlist_decode_bytes. intros H. unbind H. bool_to_prop.
  pose proof (from_bytes_le_range data). unfold bit_length in *.
  destruct (Z.eqb_spec (from_bytes_le data) 0) as [|Hnz]; [lia|].
  replace (Z.log2 (from_bytes_le data) + 1 - 1) with (Z.log2 (from_bytes_le data)) in * by lia.
  set (n := Z.log2 (from_bytes_le data)) in *. pose proof (Z.log2_nonneg (from_bytes_le data)).
  exists n. rewrite mapM_bit_at in H.
  2:{ pose proof (Z.div_mod n 8). pose proof (Z.mod_pos_bound n 8). lia. }
  injection H as <-. split_and!; try lia; try done.
  - apply Z.log2_spec; lia.
  - rewrite Z.add_1_r. apply Z.log2_spec; lia.
Qed.

Lemma bitlist_decode_encode limit data bits :
  bitlist_decode_bytes limit data = Ok bits ->
  Zlen bits <= limit /\ bitlist_encode_bytes bits = Ok data.
Proof.
  intros (n & Hl & Hn & Hz & ->)%bitlist_decode_Ok. rewrite length_unpack. split; [lia|].
  apply bitlist_encode_Ok. rewrite length_unpack, packed_unpack, !Z2Nat.id by lia.
  replace (ceil8 (n + 1)) with (Zlen data).
  2:{ unfold ceil8. replace (n + 1 + 7) with (n + 1 * 8) by lia. rewrite Z.div_add; lia. }
  replace (_ mod _ + _) with (from_bytes_le data); [apply to_from_bytes_le|].
  rewrite Z.pow_add_r in Hz by lia.
  pose proof (Z.pow_pos_nonneg 2 n). rewrite (Z.mod_eq _ (2 ^ n)) by lia.
  replace (from_bytes_le data / 2 ^ n) with 1; [lia|].
  apply (Z.div_unique _ _ _ (from_bytes_le data - 2 ^ n)); lia.
Qed.

(** ** What a class promises *)

(** The exceptions a decoder may raise on hostile bytes. *)
Definition ssz_error (e : exn) : Prop := e = SSZSerializationError \/ e = SSZValueError.

(** [bs] was consumed to decode [v]: a fixed-size class consumes its encoding, a
    variable-size one at least its scope, and its encoding if exactly its scope. *)
Definition decoded (c : SSZType) (scope : Z) (v : ssz_value) (bs : bytes) : Prop :=
  well_typed c v = true /\
  if is_fixed_size c then serialize c v = Ok bs
  else scope <= Zlen bs /\ (Zlen bs = scope -> serialize c v = Ok bs).

Record codec_ok (c : SSZType) : Prop := {
  ok_length : 0 <= fixed_byte_length c;
  ok_width v bs :
    is_fixed_size c = true -> well_typed c v = true -> serialize c v = Ok bs ->
    Zlen bs = fixed_byte_length c;
  ok_encode v e : well_typed c v = true -> serialize c v = Err e -> e = SSZValueError;
  ok_roundtrip v bs rest :
    well_typed c v = true -> serialize c v = Ok bs ->
    deserialize c (bs ++ rest) (Zlen bs) = Ok (v, rest);
  ok_sound s scope v rest :
    0 <= scope -> deserialize c s scope = Ok (v, rest) ->
    exists bs, s = bs ++ rest /\ decoded c scope v bs;
  ok_errors s scope e : 0 <= scope -> deserialize c s scope = Err e -> ssz_error e;
  ok_decode data v :
    decode_bytes c data = Ok v <-> well_typed c v = true /\ serialize c v = Ok data;
  ok_decode_errors data e : decode_bytes c data = Err e -> ssz_error e
}.

#[export] Hint Unfold ssz_error : spec.
#[export] Hint Constructors or : spec.

(** ** Leaf classes *)
(** A leaf class reads its scope and decodes exactly that: its promises follow
    from those of its [decode_bytes]. *)
Lemma leaf_ok (c : SSZType) :
  0 <= fixed_byte_length c ->
  (forall v bs, is_fixed_size c = true -> well_typed c v = true -> serialize c v = Ok bs ->
    Zlen bs = fixed_byte_length c) ->
  (forall v, well_typed c v = true -> exists bs, serialize c v = Ok bs) ->
  (forall s scope v rest, 0 <= scope -> deserialize c s scope = Ok (v, rest) <->
    exists data, s = data ++ rest /\ Zlen data = scope /\ decode_bytes c data = Ok v) ->
  (forall s scope e, 0 <= scope -> deserialize c s scope = Err e -> ssz_error e) ->
  (forall data v, decode_bytes c data = Ok v <->
    well_typed c v = true /\ serialize c v = Ok data) ->
  (forall data e, decode_bytes c data = Err e -> ssz_error e) ->
  codec_ok c.
Proof.
  intros Hlen Hwidth Htotal Hdes Herr Hdec Hderr. constructor; try done.
  - intros v e Hv He. destruct (Htotal v Hv) as [bs Hbs]. congruence.
  - intros v bs rest Hv Hs. apply Hdes; [lia|]. exists bs. split_and!; try done.
    by apply Hdec.
  - intros s scope v rest Hsc (data & -> & Hl & [Hv Hs]%Hdec)%Hdes; [|done].
    exists data. split; [done|]. split; [done|]. destruct (is_fixed_size c); [done|].
    split; [lia|done].
Qed.

Ltac class_cbn c :=
  cbn [is_fixed_size fixed_byte_length well_typed serialize deserialize decode_bytes c].

Lemma uint_well_typed bits v :
  well_typed (uint_class bits) v = true <-> exists z, v = VUint z /\ in_range bits z.
Proof.
  unfold in_range, max_value. destruct v as [z| | | | | | | | |]; simpl;
    try (split; [done|by intros (? & ? & _)]).
  rewrite andb_true_iff, !Z.leb_le. unfold max_value. split.
  - intros. exists z. split; [done|lia].
  - intros (? & [= <-] & ?). lia.
Qed.

Lemma uint_decode_range bits data z :
  uint_decode_bytes bits data = Ok z -> in_range bits z /\ Zlen data = uint_byte_length bits.
Proof.
  unfold uint_decode_bytes. intros H. unbind H. bool_to_prop.
  by apply uint_new_Ok in H as [-> ?].
Qed.

Lemma uint_deserialize_Ok bits s scope z rest :
  uint_deserialize bits s scope = Ok (z, rest) <->
  exists data, s = data ++ rest /\ Zlen data = scope /\ uint_decode_bytes bits data = Ok z.
Proof.
  unfold uint_deserialize. split.
  - intros H. destruct (Z.eqb_spec scope (uint_byte_length bits)) as [->|]; [|done].
    apply mbind_pair_Ok in H as (data & r & [-> Hl]%read_exact_Ok & H). unbind H. eauto.
  - intros (data & -> & Hs & Hd). destruct (uint_decode_range _ _ _ Hd) as [_ Hl].
    rewrite (proj2 (Z.eqb_eq _ _)), mbind_pair_Ok by lia. exists data, rest.
    rewrite Hd, read_exact_Ok. done.
Qed.

Lemma uint_decode_errors bits data e : uint_decode_bytes bits data = Err e -> ssz_error e.
Proof.
  unfold uint_decode_bytes, ssz_error.
  destruct (_ =? _); [intros ->%uint_new_Err|intros [= <-]]; auto.
Qed.

Lemma uint_deserialize_errors bits s scope e :
  uint_deserialize bits s scope = Err e -> ssz_error e.
Proof.
  unfold uint_deserialize. destruct (_ =? _); [|intros [= <-]; by left].
  rewrite bind_Err. intros [->%read_exact_Err|([d r] & _ & H)]; [by left|].
  apply bind_Err in H as [H|(? & _ & ?)]; [by eapply uint_decode_errors|done].
Qed.

Lemma uint_class_ok bits : wf_bits bits -> codec_ok (uint_class bits).
Proof.
  intros Hb. assert (0 <= uint_byte_length bits) as Hl.
  { pose proof (wf_bits_bytes _ Hb). destruct Hb. lia. }
  apply leaf_ok; simpl.
  - done.
  - intros v bs _ (z & -> & _)%uint_well_typed H. by eapply to_bytes_le_length.
  - intros v (z & -> & Hz)%uint_well_typed. by apply uint_encode_total.
  - intros s scope v rest _. rewrite mbind_pair_Ok. split.
    + intros (z & r & (data & -> & Hs & Hd)%uint_deserialize_Ok & [= <- <-]).
      exists data. by rewrite Hd.
    + intros (data & -> & Hs & (z & Hd & ->)%fmap_Ok). exists z, rest. split; [|done].
      apply uint_deserialize_Ok. eauto.
  - intros s scope e _ [H|([? ?] & _ & ?)]%bind_Err; [by eapply uint_deserialize_errors|done].
  - intros data v. rewrite fmap_Ok. split.
    + intros (z & Hd & ->). split; [|by apply uint_decode_encode in Hd].
      apply (uint_well_typed _ (VUint z)). exists z. by apply uint_decode_range in Hd as [? _].
    + intros [(z & -> & Hz)%uint_well_typed H]. eauto using uint_encode_decode.
  - intros data e ?%fmap_Err. by eapply uint_decode_errors.
Qed.

Lemma boolean_encode_decode b : boolean_decode_bytes (boolean_encode_bytes b) = Ok b.
Proof. by destruct b. Qed.

Lemma boolean_decode_errors data e : boolean_decode_bytes data = Err e -> ssz_error e.
Proof.
  unfold ssz_error, boolean_decode_bytes.
  destruct data as [|x [|]]; try (intros [= <-]; by left).
  unfold boolean_new. destruct (_ || _); [done|intros [= <-]; by left].
Qed.

Lemma read_1 s : read 1 s = (take 1 s, drop 1 s).
Proof. by destruct s as [|x [|y s]]; unfold read; simpl; rewrite ?Z.min_l by lia. Qed.

Lemma boolean_class_ok : codec_ok boolean_class.
Proof.
  apply leaf_ok; class_cbn boolean_class.
  - lia.
  - intros v bs _ Hv Hs. destruct v as [|b| | | | | | | |]; try done.
    injection Hs as <-. by destruct b.
  - intros v Hv. destruct v; try done. eauto.
  - intros s scope v rest Hs. rewrite read_1. split.
    + intros H. unbind H. bool_to_prop. subst. exists (take 1 s). rewrite take_drop, E0.
      split_and!; [done| |done]. by destruct s.
    + intros (data & -> & <- & (b & Hd & ->)%fmap_Ok). destruct data as [|x [|]]; try done.
      change (take 1 ([x] ++ rest)) with [x]. change (drop 1 ([x] ++ rest)) with rest.
      by rewrite Hd.
  - intros s scope e _. destruct (_ =? _); [|intros [= <-]; by left]. rewrite read_1.
    intros [H|(? & _ & ?)]%bind_Err; [by eapply boolean_decode_errors|done].
  - intros data v. rewrite fmap_Ok. split.
    + intros (b & Hd & ->). by apply boolean_decode_encode in Hd as ->.
    + intros [Hv Hs]. destruct v as [|b| | | | | | | |]; try done. injection Hs as <-.
      exists b. by rewrite boolean_encode_decode.
  - intros data e ?%fmap_Err. by eapply boolean_decode_errors.
Qed.

Lemma fp_range_bytes z : 0 <= z < P -> 0 <= z < 2 ^ (8 * P_BYTES).
Proof. unfold P, P_BYTES. change (2 ^ (8 * 4)) with 4294967296. lia. Qed.

Lemma fp_deserialize_Ok s scope v rest :
  fp_deserialize s scope = Ok (v, rest) <->
  exists data, s = data ++ rest /\ Zlen data = scope /\ scope = P_BYTES /\
    from_bytes_le data < P /\ v = VFp (from_bytes_le data).
Proof.
  unfold fp_deserialize. split.
  - intros H. destruct (Z.eqb_spec scope P_BYTES) as [->|]; [|done].
    apply mbind_pair_Ok in H as (data & r & [-> Hl]%read_exact_Ok & H). unbind H. bool_to_prop.
    exists data. split_and!; try done. f_equal. apply Z.mod_small.
    pose proof (from_bytes_le_range data). lia.
  - intros (data & -> & Hl & -> & Hp & ->). rewrite Z.eqb_refl, mbind_pair_Ok.
    exists data, rest. rewrite read_exact_Ok, (proj2 (Z.ltb_lt _ _) Hp).
    split; [done|]. do 3 f_equal. apply Z.mod_small. pose proof (from_bytes_le_range data). lia.
Qed.

Lemma fp_deserialize_errors s scope e : fp_deserialize s scope = Err e -> ssz_error e.
Proof.
  unfold fp_deserialize, ssz_error. destruct (_ =? _); [|intros [= <-]; by left].
  rewrite bind_Err. intros [->%read_exact_Err|([d r] & _ & H)]; [by left|].
  destruct (_ <? _); [done|]. injection H as <-. by right.
Qed.

Lemma default_decode_Ok deser data v :
  default_decode_bytes deser data = Ok v <-> deser data (Zlen data) = Ok (v, []).
Proof.
  unfold default_decode_bytes. rewrite mbind_pair_Ok. split.
  - intros (v' & rest & -> & H). unbind H. bool_to_prop. by destruct rest.
  - intros ->. by exists v, [].
Qed.

Lemma default_decode_errors deser data e :
  (forall e, deser data (Zlen data) = Err e -> ssz_error e) ->
  default_decode_bytes deser data = Err e -> ssz_error e.
Proof.
  intros H [He|([v r] & _ & He)]%bind_Err; [by apply H|].
  destruct (_ =? _); [done|]. injection He as <-. by left.
Qed.

Lemma fp_well_typed v : well_typed fp_class v = true <-> exists z, v = VFp z /\ 0 <= z < P.
Proof.
  destruct v as [| |z| | | | | | |]; simpl; try (split; [done|by intros (? & ? & _)]).
  rewrite andb_true_iff, Z.leb_le, Z.ltb_lt. split; [eauto|by intros (? & [= <-] & ?)].
Qed.

Lemma fp_decode_Ok data v :
  default_decode_bytes fp_deserialize data = Ok v <->
  Zlen data = P_BYTES /\ from_bytes_le data < P /\ v = VFp (from_bytes_le data).
Proof.
  rewrite default_decode_Ok, fp_deserialize_Ok. split.
  - intros (d & E & _ & Hl & Hp & ->). rewrite app_nil_r in E. by subst.
  - intros (Hl & Hp & ->). exists data. by rewrite app_nil_r.
Qed.

Lemma fp_class_ok : codec_ok fp_class.
Proof.
  assert (0 <= P_BYTES) as H4 by done. apply leaf_ok; simpl.
  - done.
  - intros v bs _ (z & -> & Hz)%fp_well_typed H. by eapply to_bytes_le_length.
  - intros v (z & -> & Hz)%fp_well_typed. eexists. apply to_bytes_le_Ok.
    split; [by apply fp_range_bytes|done].
  - intros s scope v rest _. rewrite fp_deserialize_Ok. split.
    + intros (data & -> & Hl & Hs & Hp & Hv). exists data. rewrite fp_decode_Ok. by subst.
    + intros (data & -> & Hl & (Hd & Hp & Hv)%fp_decode_Ok). exists data. split_and!; by subst.
  - intros s scope e _. apply fp_deserialize_errors.
  - intros data v. rewrite fp_decode_Ok. pose proof (from_bytes_le_range data). split.
    + intros (Hl & Hp & ->). split; [|rewrite <- Hl; apply to_from_bytes_le].
      apply (fp_well_typed (VFp _)). eexists. split; [done|lia].
    + intros [(z & -> & Hz)%fp_well_typed Hs].
      rewrite (from_to_bytes_le _ _ _ H4 Hs), (to_bytes_le_length _ _ _ H4 Hs).
      split_and!; [done|lia|done].
  - intros data e. apply default_decode_errors. intros. by eapply fp_deserialize_errors.
Qed.

Lemma bytes_class_ok n : 0 <= n -> codec_ok (bytes_class n).
Proof.
  intros Hn. apply leaf_ok; simpl.
  - done.
  - intros v bs _ Hv Hs. destruct v; try done. injection Hs as <-. by apply Z.eqb_eq.
  - intros v Hv. destruct v; try done. eauto.
  - intros s scope v rest _. split.
    + intros H. destruct (Z.eqb_spec scope n) as [->|]; [|done].
      apply mbind_pair_Ok in H as (data & r & [-> Hl]%read_exact_Ok & [= <- <-]).
      exists data. split_and!; try done. unfold bytes_new. by rewrite Hl, Z.eqb_refl.
    + intros (data & -> & <- & (bs & Hd & ->)%fmap_Ok). unfold bytes_new in Hd.
      destruct (_ =? _) eqn:E; [|done]. injection Hd as <-.
      rewrite mbind_pair_Ok. exists data, rest. by rewrite read_exact_Ok.
  - intros s scope e _. destruct (_ =? _); [|intros [= <-]; by left].
    rewrite bind_Err. intros [->%read_exact_Err|([d r] & _ & ?)]; [by left|done].
  - intros data v. rewrite fmap_Ok. unfold bytes_new. split.
    + intros (bs & Hd & ->). unbind Hd. done.
    + intros [Hv Hs]. destruct v; try done. injection Hs as ->. exists data. by rewrite Hv.
  - intros data e. rewrite fmap_Err. unfold bytes_new. destruct (_ =? _); [done|].
    intros [= <-]. by right.
Qed.

Lemma bytelist_class_ok n : 0 <= n -> codec_ok (bytelist_class n).
Proof.
  intros Hn. apply leaf_ok; simpl.
  - done.
  - done.
  - intros v Hv. destruct v; try done. eauto.
  - intros s scope v rest Hs. rewrite (proj2 (Z.leb_le _ _) Hs). split.
    + intros H. destruct (Z.leb_spec scope n) as [Hle|]; [|done].
      apply mbind_pair_Ok in H as (data & r & [-> Hl]%read_exact_Ok & H). unbind H.
      exists data. by rewrite E.
    + intros (data & -> & <- & (bs & Hd & ->)%fmap_Ok). pose proof Hd as Hd'.
      unfold bytelist_new in Hd'. destruct (_ <=? _) eqn:E; [|done]. injection Hd' as <-.
      rewrite mbind_pair_Ok. exists data, rest. by rewrite read_exact_Ok, Hd.
  - intros s scope e Hs. rewrite (proj2 (Z.leb_le _ _) Hs).
    destruct (_ <=? _); [|intros [= <-]; by right].
    rewrite bind_Err. intros [->%read_exact_Err|([d r] & _ & H)]; [by left|].
    unfold bytelist_new in H. destruct (_ <=? _); [done|]. injection H as <-. by right.
  - intros data v. rewrite fmap_Ok. unfold bytelist_new. split.
    + intros (bs & Hd & ->). unbind Hd. done.
    + intros [Hv Hs]. destruct v; try done. injection Hs as ->. exists data. by rewrite Hv.
  - intros data e. rewrite fmap_Err. unfold bytelist_new. destruct (_ <=? _); [done|].
    intros [= <-]. by right.
Qed.

Lemma mapM_bit_at_total data n :
  (n <= 8 * length data)%nat -> forall e, mapM (bit_at data) (seq 0 n) <> Err e.
Proof. intros H e. by rewrite mapM_bit_at. Qed.

Lemma bitvector_decode_errors n data e :
  0 <= n -> bitvector_decode_bytes n data = Err e -> ssz_error e.
Proof.
  intros Hn. unfold bitvector_decode_bytes, ssz_error.
  destruct (Z.eqb_spec (Zlen data) (ceil8 n)) as [El|]; [|intros [= <-]; by right].
  pose proof (ceil8_spec n Hn). rewrite mapM_bit_at by lia.
  destruct (Z.eqb_spec (n mod 8) 0) as [Em|Em]; simpl; [done|].
  destruct (last data) as [b|] eqn:Eb; simpl.
  - destruct (_ =? _); [done|]. intros [= <-]. by right.
  - apply last_None in Eb as ->. simpl in El. exfalso. apply Em.
    assert (n = 0) as -> by lia. done.
Qed.

Lemma bitvector_class_ok n : 0 <= n -> codec_ok (bitvector_class n).
Proof.
  intros Hn. pose proof (ceil8_spec n Hn). assert (0 <= ceil8 n) as Hc by lia.
  apply leaf_ok; class_cbn bitvector_class.
  - done.
  - intros v bs _ Hv Hs. destruct v; try done. by eapply to_bytes_le_length.
  - intros v Hv. destruct v; try done. apply bitvector_encode_total. by apply Z.eqb_eq.
  - intros s scope v rest _. split.
    + intros Hd. destruct (Z.eqb_spec scope (ceil8 n)) as [->|]; [|done].
      apply mbind_pair_Ok in Hd as (data & r & [-> Hl]%read_exact_Ok & Hd). unbind Hd.
      exists data. by rewrite E.
    + intros (data & -> & <- & (bits & Hd & ->)%fmap_Ok).
      destruct (proj1 (bitvector_decode_Ok n data bits Hn) Hd) as [Hl _].
      rewrite Hl, Z.eqb_refl, mbind_pair_Ok. exists data, rest. by rewrite read_exact_Ok, Hd.
  - intros s scope e _. destruct (_ =? _); [|intros [= <-]; by left].
    rewrite bind_Err. intros [->%read_exact_Err|([d r] & _ & He)]; [by left|].
    apply bind_Err in He as [He|(? & _ & ?)]; [by eapply (bitvector_decode_errors n)|done].
  - intros data v. rewrite fmap_Ok. split.
    + intros (bits & Hd & ->). destruct (bitvector_decode_encode _ _ _ Hn Hd) as [Hl Hs].
      split; [by apply Z.eqb_eq|done].
    + intros [Hv Hs]. destruct v; try done. eexists. split; [|done].
      apply bitvector_encode_decode; [by apply Z.eqb_eq|done].
  - intros data e ?%fmap_Err. by eapply (bitvector_decode_errors n).
Qed.

Lemma bitlist_decode_errors limit data e : bitlist_decode_bytes limit data = Err e -> ssz_error e.
Proof.
  unfold bitlist_decode_bytes, ssz_error. intros H.
  destruct (negb (Zlen data =? 0)) eqn:E1; [|injection H as <-; by left].
  destruct (negb (from_bytes_le data =? 0)) eqn:E2; [|injection H as <-; by left].
  destruct (_ / 8 =? _) eqn:E3; [|injection H as <-; by left].
  destruct (_ <=? limit) eqn:E4; [|injection H as <-; by right].
  exfalso. revert H. apply mapM_bit_at_total. bool_to_prop. div_lia.
Qed.

Lemma bitlist_class_ok n : 0 <= n -> codec_ok (bitlist_class n).
Proof.
  intros Hn. apply leaf_ok; class_cbn bitlist_class.
  - done.
  - done.
  - intros v Hv. destruct v; try done. apply bitlist_encode_total.
  - intros s scope v rest _. split.
    + intros (data & r & [-> Hl]%read_exact_Ok & Hd)%mbind_pair_Ok. unbind Hd.
      exists data. by rewrite E.
    + intros (data & -> & <- & (bits & Hd & ->)%fmap_Ok). rewrite mbind_pair_Ok.
      exists data, rest. by rewrite read_exact_Ok, Hd.
  - intros s scope e _. rewrite bind_Err.
    intros [->%read_exact_Err|([d r] & _ & He)]; [by left|].
    apply bind_Err in He as [He|(? & _ & ?)]; [by eapply bitlist_decode_errors|done].
  - intros data v. rewrite fmap_Ok. split.
    + intros (bits & Hd & ->). destruct (bitlist_decode_encode _ _ _ Hd) as [Hl Hs].
      split; [by apply Z.leb_le|done].
    + intros [Hv Hs]. destruct v; try done. eexists. split; [|done].
      apply bitlist_encode_decode; [by apply Z.leb_le|done].
  - intros data e ?%fmap_Err. by eapply bitlist_decode_errors.
Qed.

(** ** Offsets *)
Definition off_bytes (o : Z) : bytes := le_split 4 o.
#[local] Arguments off_bytes : simpl never.

Lemma offset_serialize_Ok o bs : offset_serialize o = Ok bs <-> in_range 32 o /\ bs = off_bytes o.
Proof.
  unfold offset_serialize. rewrite bind_Ok. split.
  - intros (o' & [-> Ho]%uint_new_Ok & [_ ->]%to_bytes_le_Ok). done.
  - intros [Ho ->]. exists o. rewrite uint_new_Ok. split; [done|].
    by apply to_bytes_le_Ok.
Qed.

Lemma offset_serialize_Err o e : offset_serialize o = Err e -> e = SSZValueError.
Proof.
  unfold offset_serialize. rewrite bind_Err. intros [->%uint_new_Err|(o' & [-> Ho]%uint_new_Ok & H)].
  - done.
  - destruct (uint_encode_total 32 o) as [? ?]; [done|done|congruence].
Qed.

Lemma length_off_bytes o : Zlen (off_bytes o) = 4.
Proof. unfold off_bytes. by rewrite length_le_split. Qed.

Lemma offset_deserialize_Ok s o rest :
  offset_deserialize s = Ok (o, rest) <-> in_range 32 o /\ s = off_bytes o ++ rest.
Proof.
  unfold offset_deserialize. rewrite uint_deserialize_Ok. split.
  - intros (data & -> & Hl & Hd). destruct (uint_decode_range _ _ _ Hd) as [Ho _].
    split; [done|]. f_equal. apply uint_decode_encode in Hd.
    by apply to_bytes_le_Ok in Hd as [_ ->].
  - intros [Ho ->]. exists (off_bytes o). rewrite length_off_bytes. split_and!; try done.
    apply (uint_encode_decode 32); [done|]. by apply to_bytes_le_Ok.
Qed.

Lemma offset_deserialize_errors s e : offset_deserialize s = Err e -> ssz_error e.
Proof. apply uint_deserialize_errors. Qed.

(** ** Reading sequences *)
Lemma read_times_Ok {A} (rd : bytes -> result (A * bytes)) (Q : A -> bytes -> Prop) n s l rest :
  (forall s a rest, rd s = Ok (a, rest) -> exists bs, s = bs ++ rest /\ Q a bs) ->
  read_times rd n s = Ok (l, rest) ->
  length l = n /\ exists bss, s = mjoin bss ++ rest /\ Forall2 Q l bss.
Proof.
  intros Hrd. revert s l. induction n as [|n IH]; intros s l H; simpl in H.
  - injection H as <- <-. split; [done|]. exists []. split; [done|constructor].
  - apply mbind_pair_Ok in H as (a & s1 & (bs & -> & Ha)%Hrd & H).
    apply mbind_pair_Ok in H as (l' & s2 & Hl & [= <- <-]).
    apply IH in Hl as (<- & bss & -> & Hl). split; [done|].
    exists (bs :: bss). simpl. rewrite <- app_assoc. split; [done|by constructor].
Qed.

Lemma read_times_of {A} (rd : bytes -> result (A * bytes)) l bss rest :
  Forall2 (fun a bs => forall rest, rd (bs ++ rest) = Ok (a, rest)) l bss ->
  read_times rd (length l) (mjoin bss ++ rest) = Ok (l, rest).
Proof.
  induction 1 as [|a bs l bss Ha _ IH]; simpl; [done|].
  by rewrite <- app_assoc, Ha; simpl; rewrite IH.
Qed.

Lemma read_times_errors {A} (rd : bytes -> result (A * bytes)) n s e :
  (forall s e, rd s = Err e -> ssz_error e) -> read_times rd n s = Err e -> ssz_error e.
Proof.
  intros Hrd. revert s. induction n as [|n IH]; intros s; simpl; [done|].
  intros [H|([a s1] & _ & H)]%bind_Err; [by eapply Hrd|].
  apply bind_Err in H as [H|([l s2] & _ & ?)]; [by eapply IH|done].
Qed.

Lemma read_offsets_Ok n s l rest :
  read_times offset_deserialize n s = Ok (l, rest) ->
  length l = n /\ s = mjoin (map off_bytes l) ++ rest /\ Forall (in_range 32) l.
Proof.
  intros H. apply (read_times_Ok _ (fun o bs => in_range 32 o /\ bs = off_bytes o)) in H
    as (Hl & bss & -> & HF).
  - split; [done|]. assert (bss = map off_bytes l /\ Forall (in_range 32) l) as [-> ?]; [|done].
    clear Hl. induction HF as [|o bs l bss [Ho ->] _ [-> ?]]; [done|].
    split; [done|by constructor].
  - intros s' o r [Ho ->]%offset_deserialize_Ok. eauto.
Qed.

Lemma read_offsets_of l rest :
  Forall (in_range 32) l ->
  read_times offset_deserialize (length l) (mjoin (map off_bytes l) ++ rest) = Ok (l, rest).
Proof.
  intros H. apply read_times_of. apply Forall2_fmap_r, Forall_Forall2_diag.
  eapply Forall_impl; [apply H|]. intros o Ho r. by apply offset_deserialize_Ok.
Qed.

Lemma length_off_table l : Zlen (mjoin (map off_bytes l)) = 4 * Zlen l.
Proof.
  induction l as [|o l IH]; [done|]. cbn [map]. rewrite mjoin_cons, length_app.
  pose proof (length_off_bytes o). simpl length. lia.
Qed.

Lemma last_cons_default {A} (l : list A) x d : List.last (x :: l) d = List.last l x.
Proof.
  revert x d. induction l as [|y l IH]; intros x d; [done|].
  change (List.last (x :: y :: l) d) with (List.last (y :: l) d). by rewrite !IH.
Qed.

Lemma read_spans_cons rd start stop tl s :
  read_spans rd (start :: stop :: tl) s =
    '(v, s) ← rd s (stop - start);
    '(l, s) ← read_spans rd (stop :: tl) s;
    Ok (v :: l, s).
Proof. done. Qed.

Section Composite.
Context (c : SSZType) (Hc : codec_ok c).

(** The bytes of a list of fixed-size elements. *)
Lemma write_fixed_Ok vs bs :
  write_fixed (serialize c) vs = Ok bs <->
  exists bss, bs = mjoin bss /\ Forall2 (fun v b => serialize c v = Ok b) vs bss.
Proof.
  unfold write_fixed. rewrite fmap_Ok. split.
  - intros (bss & H%mapM_Ok & ->). eauto.
  - intros (bss & -> & H%mapM_Ok). eauto.
Qed.

Lemma write_fixed_Err vs e :
  forallb (well_typed c) vs = true -> write_fixed (serialize c) vs = Err e -> e = SSZValueError.
Proof.
  unfold write_fixed. intros Hvs H%fmap_Err. revert H.
  induction vs as [|v vs IH]; simpl; [done|].
  simpl in Hvs. apply andb_true_iff in Hvs as [Hv Hvs].
  intros [H|(b & _ & H)]%bind_Err; [by eapply ok_encode|].
  apply bind_Err in H as [H|(? & _ & ?)]; [by apply IH|done].
Qed.

Lemma fixed_elements_width vs bss :
  is_fixed_size c = true -> forallb (well_typed c) vs = true ->
  Forall2 (fun v b => serialize c v = Ok b) vs bss ->
  Zlen (mjoin bss) = fixed_byte_length c * Zlen vs.
Proof.
  intros Hf Hvs H. revert Hvs. induction H as [|v b vs bss Hb _ IH]; [simpl; lia|].
  simpl forallb. intros [Hv Hvs]%andb_true_iff. rewrite mjoin_cons, length_app.
  pose proof (ok_width c Hc v b Hf Hv Hb). specialize (IH Hvs). simpl length. lia.
Qed.

Lemma read_fixed_of vs bss rest :
  is_fixed_size c = true -> forallb (well_typed c) vs = true ->
  Forall2 (fun v b => serialize c v = Ok b) vs bss ->
  read_times (fun s => deserialize c s (fixed_byte_length c)) (length vs) (mjoin bss ++ rest)
  = Ok (vs, rest).
Proof.
  intros Hf Hvs H. apply read_times_of.
  revert Hvs. induction H as [|v b vs bss Hb _ IH]; intros Hvs; [constructor|].
  simpl in Hvs. apply andb_true_iff in Hvs as [Hv Hvs]. constructor; [|by apply IH].
  intros r. rewrite <- (ok_width c Hc v b Hf Hv Hb). by apply ok_roundtrip.
Qed.

Lemma read_fixed_Ok n s vs rest :
  is_fixed_size c = true ->
  read_times (fun s => deserialize c s (fixed_byte_length c)) n s = Ok (vs, rest) ->
  length vs = n /\ forallb (well_typed c) vs = true /\
  exists bs, s = bs ++ rest /\ write_fixed (serialize c) vs = Ok bs.
Proof.
  intros Hf H.
  apply (read_times_Ok _ (fun v b => well_typed c v = true /\ serialize c v = Ok b)) in H
    as (Hl & bss & -> & HF).
  - split; [done|]. clear Hl. split.
    + apply forallb_forall. intros v Hv%list_elem_of_In.
      apply list_elem_of_lookup in Hv as [i Hi].
      destruct (Forall2_lookup_l _ _ _ _ _ HF Hi) as (b & _ & ? & _). done.
    + eexists. split; [done|]. apply write_fixed_Ok. eexists. split; [done|].
      eapply Forall2_impl; [apply HF|]. by intros ?? [_ ?].
  - intros s' v r Hd. apply (ok_sound c Hc) in Hd as (bs & -> & Hv & Hs); [|apply Hc].
    rewrite Hf in Hs. eauto.
Qed.

(** Bodies behind an offset table, decoded. *)
Lemma read_spans_Ok o offsets s vs rest :
  is_fixed_size c = false ->
  offsets_monotone (o :: offsets) = true -> Forall (in_range 32) (removelast (o :: offsets)) ->
  read_spans (deserialize c) (o :: offsets) s = Ok (vs, rest) ->
  exists bodies, s = bodies ++ rest /\ forallb (well_typed c) vs = true /\
    length vs = length offsets /\
    List.last offsets o - o <= Zlen bodies /\
    (Zlen bodies = List.last offsets o - o ->
     write_payload (serialize c) o vs =
       Ok (mjoin (map off_bytes (removelast (o :: offsets))), bodies)).
Proof.
  intros Hf. revert o s vs. induction offsets as [|o' offsets IH]; intros o s vs Hm Hr H.
  - simpl in H. injection H as <- <-. exists []. simpl. split_and!; [done..|lia|done].
  - simpl in Hm. apply andb_true_iff in Hm as [Ho Hm]. apply Z.leb_le in Ho.
    change (removelast (o :: o' :: offsets)) with (o :: removelast (o' :: offsets)) in *.
    inversion Hr as [|?? Hro Hr']; subst.
    simpl in H. apply mbind_pair_Ok in H as (v & s1 & Hv & H).
    apply mbind_pair_Ok in H as (vs' & s2 & Hvs & [= <- <-]).
    apply (ok_sound c Hc) in Hv as (b & -> & Hwt & Hb); [|lia]. rewrite Hf in Hb.
    destruct Hb as [Hge Heq].
    apply IH in Hvs as (bodies & -> & Hwts & Hl & Hge' & Heq'); [|done..].
    exists (b ++ bodies). rewrite app_assoc. split; [done|]. simpl forallb.
    rewrite Hwt, Hwts. split; [done|]. split; [simpl; lia|].
    rewrite last_cons_default, length_app. split; [lia|]. intros E. simpl.
    assert (Zlen b = o' - o) as Eb by lia.
    rewrite (proj2 (offset_serialize_Ok o _) (conj Hro eq_refl)). simpl.
    rewrite (Heq Eb). simpl. replace (o + Zlen b) with o' by lia.
    rewrite Heq' by lia. done.
Qed.

Lemma read_spans_errors offsets s e :
  offsets_monotone offsets = true ->
  read_spans (deserialize c) offsets s = Err e -> ssz_error e.
Proof.
  revert s. induction offsets as [|o [|o' offsets] IH]; intros s; simpl; [done..|].
  intros [Ho Hm]%andb_true_iff [H|([v s1] & _ & H)]%bind_Err.
  - eapply (ok_errors c Hc); [|done]. apply Z.leb_le in Ho. lia.
  - apply bind_Err in H as [H|([vs s2] & _ & ?)]; [by eapply IH|done].
Qed.

(** Bodies behind an offset table, encoded and read back. *)
Lemma write_payload_Ok o vs table bodies :
  forallb (well_typed c) vs = true -> write_payload (serialize c) o vs = Ok (table, bodies) ->
  exists offsets, table = mjoin (map off_bytes offsets) /\ length offsets = length vs /\
    Forall (in_range 32) offsets /\
    head (offsets ++ [o + Zlen bodies]) = Some o /\
    offsets_monotone (offsets ++ [o + Zlen bodies]) = true /\
    forall rest, read_spans (deserialize c) (offsets ++ [o + Zlen bodies]) (bodies ++ rest)
                 = Ok (vs, rest).
Proof.
  revert o table bodies. induction vs as [|v vs IH]; intros o table bodies Hwt H; simpl in H.
  - injection H as <- <-. exists []. simpl. rewrite Z.add_0_r. done.
  - simpl in Hwt. apply andb_true_iff in Hwt as [Hv Hvs].
    apply bind_Ok in H as (ob & [Ho ->]%offset_serialize_Ok & H).
    apply bind_Ok in H as (b & Hb & H).
    apply mbind_pair_Ok in H as (table' & bodies' & H & [= <- <-]).
    apply IH in H as (offsets & -> & Hl & Hr & Hhd & Hm & Hread); [|done].
    exists (o :: offsets). rewrite length_app.
    replace (o + Z.of_nat (length b + length bodies')) with (o + Zlen b + Zlen bodies') by lia.
    destruct (offsets ++ [o + Zlen b + Zlen bodies']) as [|o1 tl] eqn:E; [done|].
    injection Hhd as ->. simpl app. rewrite E. split_and!; try done.
    + simpl. by rewrite Hl.
    + by constructor.
    + simpl. rewrite andb_true_iff. split; [apply Z.leb_le; lia|done].
    + intros rest. rewrite <- app_assoc, read_spans_cons.
      replace (o + Zlen b - o) with (Zlen b) by lia.
      rewrite (ok_roundtrip c Hc v b _ Hv Hb). cbn [mbind result_bind].
      by rewrite (Hread rest).
Qed.

Lemma write_payload_Err o vs e :
  forallb (well_typed c) vs = true -> write_payload (serialize c) o vs = Err e -> e = SSZValueError.
Proof.
  revert o. induction vs as [|v vs IH]; intros o Hwt; simpl; [done|].
  simpl in Hwt. apply andb_true_iff in Hwt as [Hv Hvs].
  intros [H|(ob & _ & H)]%bind_Err; [by eapply offset_serialize_Err|].
  apply bind_Err in H as [H|(b & _ & H)]; [by eapply ok_encode|].
  apply bind_Err in H as [H|([? ?] & _ & ?)]; [by eapply IH|done].
Qed.
End Composite.

Lemma validate_offsets_Ok offsets scope :
  _validate_offsets (offsets ++ [scope]) scope = Ok tt <->
  offsets_monotone (offsets ++ [scope]) = true.
Proof.
  unfold _validate_offsets. rewrite last_snoc, Z.leb_refl.
  destruct (offsets_monotone _); split; done.
Qed.

Lemma validate_offsets_errors offsets scope e :
  _validate_offsets offsets scope = Err e -> ssz_error e.
Proof.
  unfold _validate_offsets, ssz_error. destruct (last offsets); [|done].
  destruct (offsets_monotone _); [destruct (_ <=? _)|]; naive_solver.
Qed.

(** ** Default decoding: the whole input is one encoding *)
Lemma default_decode_ok (c : SSZType) data v :
  decode_bytes c = default_decode_bytes (deserialize c) ->
  (forall v bs rest, well_typed c v = true -> serialize c v = Ok bs ->
     deserialize c (bs ++ rest) (Zlen bs) = Ok (v, rest)) ->
  (forall s scope v rest, 0 <= scope -> deserialize c s scope = Ok (v, rest) ->
     exists bs, s = bs ++ rest /\ decoded c scope v bs) ->
  decode_bytes c data = Ok v <-> well_typed c v = true /\ serialize c v = Ok data.
Proof.
  intros -> Hrt Hsound. rewrite default_decode_Ok. split.
  - intros (bs & E & Hv & Hs)%Hsound; [|lia]. rewrite app_nil_r in E. subst bs.
    split; [done|]. destruct (is_fixed_size c); [done|]. by apply Hs.
  - intros [Hv Hs]. rewrite <- (app_nil_r data) at 1. by apply Hrt.
Qed.

Lemma composite_ok (c : SSZType) :
  decode_bytes c = default_decode_bytes (deserialize c) ->
  0 <= fixed_byte_length c ->
  (forall v bs, is_fixed_size c = true -> well_typed c v = true -> serialize c v = Ok bs ->
     Zlen bs = fixed_byte_length c) ->
  (forall v e, well_typed c v = true -> serialize c v = Err e -> e = SSZValueError) ->
  (forall v bs rest, well_typed c v = true -> serialize c v = Ok bs ->
     deserialize c (bs ++ rest) (Zlen bs) = Ok (v, rest)) ->
  (forall s scope v rest, 0 <= scope -> deserialize c s scope = Ok (v, rest) ->
     exists bs, s = bs ++ rest /\ decoded c scope v bs) ->
  (forall s scope e, 0 <= scope -> deserialize c s scope = Err e -> ssz_error e) ->
  codec_ok c.
Proof.
  intros Hd Hl Hw He Hrt Hs Herr. constructor; try done.
  - intros data v. by apply default_decode_ok.
  - intros data e. rewrite Hd. apply default_decode_errors. intros e'. apply Herr. lia.
Qed.

(** ** Vectors *)
Section Vector.
Context (c : SSZType) (n : Z) (Hc : codec_ok c) (Hn : 0 <= n)
  (Hpos : is_fixed_size c = false -> 0 < n).


Lemma vector_roundtrip v bs rest :
  well_typed (vector_class c n) v = true -> serialize (vector_class c n) v = Ok bs ->
  vector_deserialize c n (bs ++ rest) (Zlen bs) = Ok (v, rest).
Proof.
  class_cbn vector_class.
  intros Hv Hs. destruct v; try done. apply andb_true_iff in Hv as [Hl Hv].
  apply Z.eqb_eq in Hl. unfold vector_deserialize. destruct (is_fixed_size c) eqn:Hf.
  + apply write_fixed_Ok in Hs as (bss & -> & Hs).
    rewrite (fixed_elements_width c Hc vs bss Hf Hv Hs), Hl, Z.eqb_refl.
    by rewrite <- Hl, Nat2Z.id, (read_fixed_of c Hc vs bss rest Hf Hv Hs).
  + apply mbind_pair_Ok in Hs as (table & bodies & Hs & [= <-]).
    apply (write_payload_Ok c Hc) in Hs
      as (offsets & -> & Hlo & Hr & Hhd & Hm & Hread); [|done].
    pose proof (Hpos eq_refl). unfold BYTES_PER_LENGTH_OFFSET in *.
    rewrite length_app, Nat2Z.inj_add, length_off_table.
    replace (4 * Zlen offsets + Zlen bodies) with (n * 4 + Zlen bodies) by lia.
    rewrite (proj2 (Z.leb_le _ _)) by lia.
    replace (Z.to_nat n) with (length offsets) by lia.
    rewrite <- app_assoc, (read_offsets_of _ _ Hr). mcbn.
    destruct offsets as [|o offsets]; [simpl in Hlo; lia|]. injection Hhd as ->.
    mcbn. rewrite Z.eqb_refl.
    rewrite (proj2 (validate_offsets_Ok _ _) Hm). mcbn. by rewrite Hread.
Qed.

Lemma vector_sound s scope v rest :
  0 <= scope -> vector_deserialize c n s scope = Ok (v, rest) ->
  exists bs, s = bs ++ rest /\ decoded (vector_class c n) scope v bs.
Proof.
  intros Hsc H. unfold vector_deserialize in H. unfold decoded; class_cbn vector_class.
  destruct (is_fixed_size c) eqn:Hf.
  + destruct (Z.eqb_spec scope (fixed_byte_length c * n)) as [->|]; [|done].
    apply mbind_pair_Ok in H as (vs & s' & H & [= <- <-]).
    apply (read_fixed_Ok c Hc) in H as (Hl & Hv & bs & -> & Hs); [|done].
    exists bs. split; [done|]. rewrite Hv, Hl, Z2Nat.id, Z.eqb_refl by done. done.
  + pose proof (Hpos eq_refl). unfold BYTES_PER_LENGTH_OFFSET in *.
    destruct (Z.leb_spec (n * 4) scope) as [Hle|]; [|done].
    apply mbind_pair_Ok in H as (offsets & s1 & (Hl & -> & Hr)%read_offsets_Ok & H).
    destruct offsets as [|o offsets]; [simpl in Hl; lia|]. mcbn_in H.
    destruct (Z.eqb_spec o (n * 4)) as [->|]; [|done].
    apply bind_Ok in H as ([] & Hm%validate_offsets_Ok & H).
    apply mbind_pair_Ok in H as (vs & s2 & H & [= <- <-]).
    apply (read_spans_Ok c Hc _ (offsets ++ [scope])) in H
      as (bodies & -> & Hv & Hlv & Hge & Heq); [|done|done|].
    2:{ by rewrite app_comm_cons, removelast_last. }
    rewrite List.last_last in Hge, Heq. rewrite length_app in Hlv. simpl in Hlv, Hl.
    exists (mjoin (map off_bytes (n * 4 :: offsets)) ++ bodies). rewrite app_assoc.
    split; [done|]. rewrite Hv, length_app, Nat2Z.inj_add, length_off_table.
    rewrite (proj2 (Z.eqb_eq _ _)) by lia. split; [done|]. simpl length.
    split; [lia|]. intros E. unfold _write_variable_payload, BYTES_PER_LENGTH_OFFSET.
    rewrite Heq by lia. by rewrite app_comm_cons, removelast_last.
Qed.

Lemma vector_errors s scope e :
  0 <= scope -> vector_deserialize c n s scope = Err e -> ssz_error e.
Proof.
  intros Hsc H. unfold vector_deserialize in H. destruct (is_fixed_size c) eqn:Hf.
  + destruct (_ =? _); [|injection H as <-; by left].
    apply bind_Err in H as [H|([? ?] & _ & ?)]; [|done].
    eapply read_times_errors; [|done]. intros ??. by apply ok_errors, ok_length.
  + pose proof (Hpos eq_refl). destruct (_ <=? _); [|injection H as <-; by left].
    apply bind_Err in H as [H|([offsets s1] & (Hl & _ & _)%read_offsets_Ok & H)];
      [by eapply read_times_errors; [apply offset_deserialize_errors|]|].
    destruct offsets as [|o offsets]; [simpl in Hl; lia|]. mcbn_in H.
    destruct (_ =? _); [|injection H as <-; by left].
    apply bind_Err in H as [H|([] & Hm%validate_offsets_Ok & H)];
      [by eapply validate_offsets_errors|].
    apply bind_Err in H as [H|([? ?] & _ & ?)]; [by eapply read_spans_errors|done].
Qed.

Lemma vector_class_ok : codec_ok (vector_class c n).
Proof.
  apply composite_ok; class_cbn vector_class;
    [done| | | |apply vector_roundtrip|apply vector_sound|apply vector_errors].
  - pose proof (ok_length c Hc). lia.
  - intros v bs Hf Hv Hs. destruct v; try done. rewrite Hf in Hs.
    apply andb_true_iff in Hv as [Hl Hv]. apply Z.eqb_eq in Hl.
    apply write_fixed_Ok in Hs as (bss & -> & Hs).
    by rewrite (fixed_elements_width c Hc vs bss Hf Hv Hs), Hl.
  - intros v e Hv Hs. destruct v; try done. apply andb_true_iff in Hv as [_ Hv].
    destruct (is_fixed_size c) eqn:Hf; [by eapply write_fixed_Err|].
    apply bind_Err in Hs as [Hs|([? ?] & _ & ?)]; [by eapply write_payload_Err|done].
Qed.
End Vector.

(** ** Lists *)
Section List_.
Context (c : SSZType) (n : Z) (Hc : codec_ok c) (Hn : 0 <= n)
  (Hpos : is_fixed_size c = true -> 0 < fixed_byte_length c).

Lemma list_roundtrip v bs rest :
  well_typed (list_class c n) v = true -> serialize (list_class c n) v = Ok bs ->
  list_deserialize c n (bs ++ rest) (Zlen bs) = Ok (v, rest).
Proof.
  class_cbn list_class.
  intros Hv Hs. destruct v; try done. apply andb_true_iff in Hv as [Hl Hv].
  apply Z.leb_le in Hl. unfold list_deserialize. destruct (is_fixed_size c) eqn:Hf.
  - apply write_fixed_Ok in Hs as (bss & -> & Hs). pose proof (Hpos eq_refl).
    rewrite (fixed_elements_width c Hc vs bss Hf Hv Hs).
    destruct vs as [|v vs]; [inversion Hs; subst; simpl; by rewrite Z.mul_0_r|].
    rewrite (proj2 (Z.eqb_neq _ _)) by (simpl length; lia).
    rewrite (proj2 (Z.eqb_neq _ _)) by lia. cbn [negb].
    rewrite Z.mul_comm, Z.mod_mul, Z.div_mul, Z.eqb_refl by lia.
    rewrite (proj2 (Z.leb_le _ _)) by done.
    by rewrite Nat2Z.id, (read_fixed_of c Hc (v :: vs) bss rest Hf Hv Hs).
  - apply mbind_pair_Ok in Hs as (table & bodies & Hs & [= <-]).
    apply (write_payload_Ok c Hc) in Hs
      as (offsets & -> & Hlo & Hr & Hhd & Hm & Hread); [|done].
    unfold BYTES_PER_LENGTH_OFFSET in *.
    rewrite length_app, Nat2Z.inj_add, length_off_table.
    destruct offsets as [|o offsets].
    { destruct vs; [|done]. specialize (Hread rest). simpl in Hread.
      destruct bodies; [|done]. done. }
    injection Hhd as ->. simpl length in *.
    replace (4 * Z.of_nat (S (length offsets)) + Zlen bodies)
      with (Zlen vs * 4 + Zlen bodies) by lia.
    rewrite (proj2 (Z.eqb_neq _ _)), (proj2 (Z.leb_le 4 _)) by lia.
    rewrite <- app_assoc. cbn [map]. rewrite mjoin_cons, <- app_assoc.
    inversion Hr as [|?? Ho Hr']; subst.
    rewrite (proj2 (offset_deserialize_Ok _ _ _) (conj Ho eq_refl)). mcbn.
    rewrite (proj2 (Z.leb_le _ (_ + _))), Z.mod_mul, Z.div_mul by lia. cbn [andb].
    rewrite Z.eqb_refl, (proj2 (Z.leb_le _ n)) by done.
    replace (Z.to_nat (Zlen vs - 1)) with (length offsets) by lia.
    rewrite (read_offsets_of _ _ Hr'). mcbn.
    rewrite app_comm_cons, (proj2 (validate_offsets_Ok _ _) Hm). mcbn.
    rewrite Hread. mcbn. by rewrite (proj2 (Z.leb_le _ n)).
Qed.

Lemma list_sound s scope v rest :
  0 <= scope -> list_deserialize c n s scope = Ok (v, rest) ->
  exists bs, s = bs ++ rest /\ decoded (list_class c n) scope v bs.
Proof.
  intros Hsc H. unfold list_deserialize in H. unfold decoded; class_cbn list_class.
  destruct (Z.eqb_spec scope 0) as [->|Hnz].
  { injection H as <- <-. exists []. split; [done|].
    split; [apply andb_true_iff; split; [by apply Z.leb_le|done]|]. split; [done|].
    intros _. by destruct (is_fixed_size c). }
  destruct (is_fixed_size c) eqn:Hf.
  - pose proof (Hpos eq_refl). destruct (negb (fixed_byte_length c =? 0)) eqn:E0; [|done].
    destruct (Z.eqb_spec (scope mod fixed_byte_length c) 0) as [Em|]; [|done].
    destruct (Z.leb_spec (scope / fixed_byte_length c) n) as [Hle|]; [|done].
    apply mbind_pair_Ok in H as (vs & s' & H & [= <- <-]).
    apply (read_fixed_Ok c Hc) in H as (Hl & Hv & bs & -> & Hs); [|done].
    pose proof (Z.div_pos scope (fixed_byte_length c)).
    exists bs. split; [done|]. rewrite Hv, Hl, Z2Nat.id, (proj2 (Z.leb_le _ n)) by lia.
    apply write_fixed_Ok in Hs as Hs'. destruct Hs' as (bss & -> & Hs').
    split; [done|]. rewrite (fixed_elements_width c Hc vs bss Hf Hv Hs'), Hl, Z2Nat.id by lia.
    apply Z.div_exact in Em; [|lia]. split; [lia|done].
  - unfold BYTES_PER_LENGTH_OFFSET in *. destruct (Z.leb_spec 4 scope) as [Hle|]; [|done].
    apply mbind_pair_Ok in H as (o & s1 & [Ho ->]%offset_deserialize_Ok & H).
    destruct (_ && _) eqn:E; [|done]. apply andb_true_iff in E as [Eo Em].
    apply Z.leb_le in Eo. apply Z.eqb_eq in Em.
    destruct (Z.leb_spec (o / 4) n) as [Hon|]; [|done].
    apply mbind_pair_Ok in H as (offsets & s2 & (Hl & -> & Hr)%read_offsets_Ok & H).
    apply bind_Ok in H as ([] & Hm & H). rewrite app_comm_cons in Hm, H.
    apply validate_offsets_Ok in Hm.
    apply mbind_pair_Ok in H as (vs & s3 & H & Hlim). unbind Hlim. bool_to_prop.
    apply (read_spans_Ok c Hc o (offsets ++ [scope])) in H
      as (bodies & -> & Hv & Hlv & Hge & Heq); [|done|done|].
    2:{ rewrite app_comm_cons, removelast_last. by constructor. }
    rewrite List.last_last in Hge, Heq. rewrite length_app in Hlv. simpl in Hlv.
    rewrite app_comm_cons, removelast_last in Heq.
    exists (mjoin (map off_bytes (o :: offsets)) ++ bodies).
    cbn [map]. rewrite mjoin_cons, <- !app_assoc. split; [done|].
    rewrite Hv, (proj2 (Z.leb_le _ n)) by done. split; [done|].
    rewrite !length_app, !Nat2Z.inj_add, length_off_table, length_off_bytes.
    apply Z.div_exact in Em; [|lia]. pose proof Ho as [Ho0 _]. split; [lia|]. intros El.
    assert (o <> 0) as Ho' by lia.
    unfold _write_variable_payload, BYTES_PER_LENGTH_OFFSET.
    replace (Zlen vs * 4) with o by lia.
    rewrite Heq by lia. mcbn. cbn [map]. by rewrite mjoin_cons, <- app_assoc.
Qed.

Lemma list_errors s scope e :
  0 <= scope -> list_deserialize c n s scope = Err e -> ssz_error e.
Proof.
  intros Hsc H. unfold list_deserialize in H. destruct (Z.eqb_spec scope 0); [done|].
  destruct (is_fixed_size c) eqn:Hf.
  - pose proof (Hpos eq_refl). rewrite (proj2 (Z.eqb_neq (fixed_byte_length c) 0)) in H by lia.
    cbn [negb] in H. destruct (_ =? 0); [|injection H as <-; by left].
    destruct (_ <=? n); [|injection H as <-; by right].
    apply bind_Err in H as [H|([? ?] & _ & ?)]; [|done].
    eapply read_times_errors; [|done]. intros ??. by apply ok_errors, ok_length.
  - destruct (_ <=? scope); [|injection H as <-; by left].
    apply bind_Err in H as [H|([o s1] & _ & H)]; [by eapply offset_deserialize_errors|].
    destruct (_ && _); [|injection H as <-; by left].
    destruct (_ <=? n); [|injection H as <-; by right].
    apply bind_Err in H as [H|([offsets s2] & _ & H)];
      [by eapply read_times_errors; [apply offset_deserialize_errors|]|].
    apply bind_Err in H as [H|([] & Hm & H)]; [by eapply validate_offsets_errors|].
    rewrite app_comm_cons in Hm, H. apply validate_offsets_Ok in Hm.
    apply bind_Err in H as [H|([vs s3] & _ & H)]; [by eapply read_spans_errors|].
    destruct (_ <=? n); [done|injection H as <-; by right].
Qed.

Lemma list_class_ok : codec_ok (list_class c n).
Proof.
  apply composite_ok; class_cbn list_class;
    [done|done|done| |apply list_roundtrip|apply list_sound|apply list_errors].
  intros v e Hv Hs. destruct v; try done. apply andb_true_iff in Hv as [_ Hv].
  destruct (is_fixed_size c) eqn:Hf; [by eapply write_fixed_Err|].
  apply bind_Err in Hs as [Hs|([? ?] & _ & ?)]; [by eapply write_payload_Err|done].
Qed.
End List_.

(** ** Containers *)

(** The leading part read into slots: fixed fields with their encoding, offsets. *)
Inductive slots_read : list SSZType -> list slot -> bytes -> Prop :=
| sr_nil : slots_read [] [] []
| sr_fixed c fields v b slots bs :
    is_fixed_size c = true -> well_typed c v = true -> serialize c v = Ok b ->
    slots_read fields slots bs -> slots_read (c :: fields) (SFixed v :: slots) (b ++ bs)
| sr_offset c fields o slots bs :
    is_fixed_size c = false -> in_range 32 o ->
    slots_read fields slots bs ->
    slots_read (c :: fields) (SOffset c o :: slots) (off_bytes o ++ bs).

Definition fields_typed (fields : list SSZType) (vs : list ssz_value) : bool :=
  (length vs =? length fields)%nat &&
  forallb (fun cv => well_typed cv.1 cv.2) (combine fields vs).

Lemma fields_typed_cons c fields v vs :
  fields_typed (c :: fields) (v :: vs) = well_typed c v && fields_typed fields vs.
Proof.
  unfold fields_typed. simpl. destruct (well_typed c v), (_ =? _)%nat; done.
Qed.

Lemma sum_Z_cons x l : sum_Z (x :: l) = x + sum_Z l.
Proof. done. Qed.

Section Container.
Context (fields : list SSZType) (Hfs : Forall codec_ok fields).

Lemma slots_read_width slots bs :
  slots_read fields slots bs -> Zlen bs = sum_Z (map slot_width fields).
Proof.
  induction 1 as [|c fs v b slots bs Hf Hv Hs H IH|c fs o slots bs Hf Ho H IH]; [done|..];
    inversion Hfs as [|?? Hc Hfs']; subst; cbn [map]; rewrite sum_Z_cons; unfold slot_width at 1;
    rewrite Hf, length_app, Nat2Z.inj_add, IH by done.
  - by rewrite (ok_width c Hc v b).
  - by rewrite length_off_bytes.
Qed.

Lemma read_slots_Ok s slots rest :
  read_slots fields s = Ok (slots, rest) <->
  exists bs, s = bs ++ rest /\ slots_read fields slots bs.
Proof.
  revert s slots. induction fields as [|c fs IH]; intros s slots; simpl.
  - split.
    + intros [= <- <-]. exists []. split; [done|constructor].
    + intros (bs & -> & H). by inversion H.
  - inversion Hfs as [|?? Hc Hfs']; subst. specialize (IH Hfs'). split.
    + intros (sl & s1 & Hsl & (slots' & s2 & Hr & [= <- <-])%mbind_pair_Ok)%mbind_pair_Ok.
      apply IH in Hr as (bs & -> & Hr). destruct (is_fixed_size c) eqn:Hf.
      * apply mbind_pair_Ok in Hsl as (v & s3 & Hd & [= <- ->]).
        apply (ok_sound c Hc) in Hd as (b & -> & Hv & Hb); [|apply Hc]. rewrite Hf in Hb.
        exists (b ++ bs). rewrite app_assoc. split; [done|]. by constructor.
      * apply mbind_pair_Ok in Hsl as (o & s3 & [Ho ->]%offset_deserialize_Ok & [= <- ->]).
        exists (off_bytes o ++ bs). rewrite app_assoc. split; [done|]. by constructor.
    + intros (bs & -> & H). inversion H as [|? ? v b slots' bs' Hf Hv Hb Hr|? ? o slots' bs' Hf Ho Hr];
        subst; rewrite Hf, <- app_assoc.
      * rewrite <- (ok_width c Hc v b Hf Hv Hb), (ok_roundtrip c Hc v b _ Hv Hb). mcbn.
        by rewrite (proj2 (IH (bs' ++ rest) slots')) by eauto.
      * rewrite (proj2 (offset_deserialize_Ok _ _ _) (conj Ho eq_refl)). mcbn.
        by rewrite (proj2 (IH (bs' ++ rest) slots')) by eauto.
Qed.

Lemma slots_first_offset slots bs :
  slots_read fields slots bs ->
  first_offset slots = None <-> forallb is_fixed_size fields = true.
Proof.
  induction 1 as [|c fs v b slots bs Hf Hv Hs H IH|c fs o slots bs Hf Ho H IH]; simpl.
  - done.
  - inversion Hfs; subst. rewrite Hf. by apply IH.
  - rewrite Hf. done.
Qed.

(** Decoding the tail, given the slots. *)
Lemma read_tail_Ok slots lead scope s vs rest :
  slots_read fields slots lead -> read_tail slots scope s = Ok (vs, rest) ->
  exists tail, s = tail ++ rest /\ fields_typed fields vs = true /\
    scope - default scope (first_offset slots) <= Zlen tail /\
    (first_offset slots = None -> tail = []) /\
    (Zlen tail = scope - default scope (first_offset slots) ->
     write_fields fields vs (default scope (first_offset slots)) = Ok (lead, tail)).
Proof.
  intros Hsl. revert s vs.
  induction Hsl as [|c fs v b slots bs Hf Hv Hs H IH|c fs o slots bs Hf Ho H IH];
    intros s vs; simpl.
  - intros [= <- <-]. exists []. simpl. split_and!; try done. lia.
  - intros (vs' & s' & Hr & [= <- <-])%mbind_pair_Ok. inversion Hfs as [|?? Hc Hfs']; subst.
    apply (IH Hfs') in Hr as (tail & -> & Hwt & Hge & Hnil & Heq).
    exists tail. rewrite fields_typed_cons, Hv, Hwt. split_and!; try done.
    intros E. by rewrite Hf, Hs, (Heq E).
  - intros Hr. inversion Hfs as [|?? Hc Hfs']; subst.
    destruct (Z.leb_spec o (default scope (first_offset slots))) as [Hle|]; [|done].
    apply mbind_pair_Ok in Hr as (v & s1 & Hd & Hr).
    apply mbind_pair_Ok in Hr as (vs' & s2 & Hr & [= <- <-]).
    apply (ok_sound c Hc) in Hd as (b & -> & Hv & Hb); [|lia]. rewrite Hf in Hb.
    destruct Hb as [Hgeb Heqb].
    apply (IH Hfs') in Hr as (tail & -> & Hwt & Hge & Hnil & Heq).
    exists (b ++ tail). rewrite fields_typed_cons, Hv, Hwt, app_assoc, length_app.
    split_and!; try done; [lia|]. intros E.
    rewrite Hf, (proj2 (offset_serialize_Ok o _) (conj Ho eq_refl)). mcbn.
    rewrite Heqb by lia. mcbn.
    replace (o + Zlen b) with (default scope (first_offset slots)) by lia.
    by rewrite Heq by lia.
Qed.

Lemma read_tail_errors slots lead scope s e :
  slots_read fields slots lead -> read_tail slots scope s = Err e -> ssz_error e.
Proof.
  intros Hsl. revert s.
  induction Hsl as [|c fs v b slots bs Hf Hv Hs H IH|c fs o slots bs Hf Ho H IH];
    intros s; simpl; [done|inversion Hfs as [|?? Hc Hfs']; subst..].
  - intros [Hr|([? ?] & _ & ?)]%bind_Err; [by eapply IH|done].
  - destruct (Z.leb_spec o (default scope (first_offset slots))) as [Hle|];
      [|intros [= <-]; by left].
    intros [Hr|([v s1] & _ & Hr)]%bind_Err; [eapply (ok_errors c Hc); [|done]; lia|].
    apply bind_Err in Hr as [Hr|([? ?] & _ & ?)]; [by eapply IH|done].
Qed.

Lemma read_slots_errors s e : read_slots fields s = Err e -> ssz_error e.
Proof.
  revert s. induction fields as [|c fs IH]; intros s; simpl; [done|].
  inversion Hfs as [|?? Hc Hfs']; subst. intros [H|([? ?] & _ & H)]%bind_Err.
  - destruct (is_fixed_size c); apply bind_Err in H as [H|([? ?] & _ & ?)]; try done.
    + by eapply (ok_errors c Hc), H; apply Hc.
    + by eapply offset_deserialize_errors.
  - apply bind_Err in H as [H|([? ?] & _ & ?)]; [by eapply IH|done].
Qed.

(** Encoding, and reading back what was encoded. *)
Lemma write_fields_Ok vs offset lead tail :
  fields_typed fields vs = true -> write_fields fields vs offset = Ok (lead, tail) ->
  exists slots, slots_read fields slots lead /\
    default (offset + Zlen tail) (first_offset slots) = offset /\
    forall rest, read_tail slots (offset + Zlen tail) (tail ++ rest) = Ok (vs, rest).
Proof.
  revert vs offset lead tail.
  induction fields as [|c fs IH]; intros [|v vs] offset lead tail Hwt H; try done.
  - injection H as <- <-. exists []. split_and!; [constructor| |done]. simpl. lia.
  - inversion Hfs as [|?? Hc Hfs']; subst. rewrite fields_typed_cons in Hwt.
    apply andb_true_iff in Hwt as [Hv Hvs]. simpl in H. destruct (is_fixed_size c) eqn:Hf.
    + apply bind_Ok in H as (b & Hb & (lead' & tail' & H & [= <- <-])%mbind_pair_Ok).
      apply (IH Hfs') in H as (slots & Hsl & Hfo & Hr); [|done].
      exists (SFixed v :: slots). split_and!; [by constructor|done|].
      intros rest. simpl. by rewrite Hr.
    + apply bind_Ok in H as (ob & [Ho ->]%offset_serialize_Ok & H).
      apply bind_Ok in H as (b & Hb & (lead' & tail' & H & [= <- <-])%mbind_pair_Ok).
      apply (IH Hfs') in H as (slots & Hsl & Hfo & Hr); [|done].
      exists (SOffset c offset :: slots). split_and!; [by constructor|done|].
      intros rest. rewrite length_app, <- app_assoc. simpl read_tail.
      replace (offset + Z.of_nat (length b + length tail'))
        with (offset + Zlen b + Zlen tail') by lia.
      rewrite Hfo, (proj2 (Z.leb_le _ _)) by lia.
      replace (offset + Zlen b - offset) with (Zlen b) by lia.
      rewrite (ok_roundtrip c Hc v b _ Hv Hb). mcbn. by rewrite Hr.
Qed.

Lemma write_fields_Err vs offset e :
  fields_typed fields vs = true -> write_fields fields vs offset = Err e -> e = SSZValueError.
Proof.
  revert vs offset. induction fields as [|c fs IH]; intros [|v vs] offset Hwt H; try done.
  inversion Hfs as [|?? Hc Hfs']; subst. rewrite fields_typed_cons in Hwt.
  apply andb_true_iff in Hwt as [Hv Hvs]. simpl in H. destruct (is_fixed_size c).
  - apply bind_Err in H as [H|(b & _ & H)]; [by eapply ok_encode|].
    apply bind_Err in H as [H|([? ?] & _ & ?)]; [by eapply IH|done].
  - apply bind_Err in H as [H|(ob & _ & H)]; [by eapply offset_serialize_Err|].
    apply bind_Err in H as [H|(b & _ & H)]; [by eapply ok_encode|].
    apply bind_Err in H as [H|([? ?] & _ & ?)]; [by eapply IH|done].
Qed.

Lemma write_fields_fixed vs o o' :
  forallb is_fixed_size fields = true -> write_fields fields vs o = write_fields fields vs o'.
Proof.
  clear Hfs. revert vs. induction fields as [|c fs IH]; intros [|v vs]; simpl; try done.
  intros [-> Hf]%andb_true_iff. by rewrite (IH vs Hf).
Qed.

Lemma write_fields_tail_nil vs o lead tail :
  forallb is_fixed_size fields = true -> write_fields fields vs o = Ok (lead, tail) -> tail = [].
Proof.
  clear Hfs. revert vs lead tail. induction fields as [|c fs IH]; intros [|v vs] lead tail; simpl;
    try done; [by intros _ [= <- <-]|].
  intros [-> Hf]%andb_true_iff H. apply bind_Ok in H as (b & _ & H).
  apply mbind_pair_Ok in H as (l & t & H & [= <- <-]). by eapply IH.
Qed.

Lemma fixed_fields_width : forallb is_fixed_size fields = true ->
  sum_Z (map slot_width fields) = sum_Z (map fixed_byte_length fields).
Proof.
  clear Hfs. induction fields as [|c fs IH]; [done|]. simpl forallb.
  intros [Hc Hf]%andb_true_iff. cbn [map]. rewrite !sum_Z_cons, (IH Hf).
  unfold slot_width at 1. by rewrite Hc.
Qed.

Lemma container_sound s scope v rest :
  0 <= scope -> container_deserialize fields s scope = Ok (v, rest) ->
  exists bs, s = bs ++ rest /\ decoded (container_class fields) scope v bs.
Proof.
  intros Hsc (slots & s1 & (lead & -> & Hsl)%read_slots_Ok & H)%mbind_pair_Ok.
  apply bind_Ok in H as (u & Hfirst & H).
  apply mbind_pair_Ok in H as (vs & s2 & H & [= <- <-]).
  eapply read_tail_Ok in H as (tail & -> & Hwt & Hge & Hnil & Heq); [|done].
  exists (lead ++ tail). rewrite app_assoc. split; [done|].
  unfold decoded; class_cbn container_class. fold (fields_typed fields vs).
  split; [done|]. pose proof (slots_read_width _ _ Hsl) as Hw.
  pose proof (slots_first_offset _ _ Hsl) as Hfo. unfold container_serialize.
  destruct (first_offset slots) as [o|]; simpl in *.
  - destruct (forallb is_fixed_size fields); [discriminate (proj2 Hfo eq_refl)|].
    destruct (Z.eqb_spec o (sum_Z (map slot_width fields))) as [Eo|]; [|done].
    rewrite <- Eo in *. rewrite length_app. split; [lia|]. intros E. rewrite Heq by lia. done.
  - rewrite (Hnil eq_refl) in *. destruct (forallb is_fixed_size fields) eqn:Hf.
    + rewrite (write_fields_fixed _ _ scope Hf), Heq; [done|simpl; lia].
    + discriminate (proj1 Hfo eq_refl).
Qed.

Lemma container_roundtrip vs bs rest :
  fields_typed fields vs = true -> container_serialize fields vs = Ok bs ->
  container_deserialize fields (bs ++ rest) (Zlen bs) = Ok (VContainer vs, rest).
Proof.
  intros Hwt (lead & tail & H & [= <-])%mbind_pair_Ok.
  apply write_fields_Ok in H as (slots & Hsl & Hfo & Hr); [|done].
  unfold container_deserialize. rewrite <- app_assoc.
  rewrite (proj2 (read_slots_Ok (lead ++ tail ++ rest) slots (tail ++ rest))) by eauto. mcbn.
  pose proof (slots_read_width _ _ Hsl) as Hw. rewrite length_app, Nat2Z.inj_add, Hw.
  destruct (first_offset slots) as [o|]; simpl in Hfo; subst; rewrite ?Z.eqb_refl; mcbn;
    by rewrite Hr.
Qed.

Lemma container_class_ok : codec_ok (container_class fields).
Proof.
  apply composite_ok; class_cbn container_class;
    [done| | | | |by apply container_sound|].
  - clear -Hfs. induction Hfs as [|c fs Hc Hfs' IH]; [done|]. cbn [map]. rewrite sum_Z_cons.
    pose proof (ok_length c Hc). specialize (IH Hfs'). lia.
  - intros v bs Hf Hv Hs. destruct v; try done. apply mbind_pair_Ok in Hs as (lead & tail & H & [= <-]).
    pose proof H as H'. apply write_fields_Ok in H' as (slots & Hsl & _ & _); [|done].
    rewrite <- fixed_fields_width, <- (slots_read_width _ _ Hsl) by done.
    rewrite (write_fields_tail_nil _ _ _ _ Hf H). by rewrite app_nil_r.
  - intros v e Hv Hs. destruct v; try done.
    apply bind_Err in Hs as [Hs|([? ?] & _ & ?)]; [by eapply write_fields_Err|done].
  - intros v bs rest Hv Hs. destruct v; try done. by apply container_roundtrip.
  - intros s scope e Hsc [H|([slots s1] & (lead & -> & Hsl)%read_slots_Ok & H)]%bind_Err;
      [by eapply read_slots_errors|].
    apply bind_Err in H as [H|(u & _ & H)].
    + destruct (first_offset slots); [|done]. destruct (_ =? _); [done|].
      injection H as <-. by left.
    + apply bind_Err in H as [H|([? ?] & _ & ?)]; [by eapply read_tail_errors|done].
Qed.
End Container.

(** ** Every declared type *)
Section ssz_type_induction.
Context (Q : ssz_type -> Prop).
Context (Huint : forall b, Q (TUint b)) (Hbool : Q TBoolean) (Hfp : Q TFp)
  (Hbytes : forall n, Q (TBytes n)) (Hbytelist : forall n, Q (TByteList n))
  (Hbitvector : forall n, Q (TBitvector n)) (Hbitlist : forall n, Q (TBitlist n))
  (Hvector : forall t n, Q t -> Q (TVector t n)) (Hlist : forall t n, Q t -> Q (TList t n))
  (Hcontainer : forall ts, Forall Q ts -> Q (TContainer ts)).

Fixpoint ssz_type_nested_ind (t : ssz_type) : Q t :=
  match t with
  | TUint b => Huint b
  | TBoolean => Hbool
  | TFp => Hfp
  | TBytes n => Hbytes n
  | TByteList n => Hbytelist n
  | TBitvector n => Hbitvector n
  | TBitlist n => Hbitlist n
  | TVector t n => Hvector t n (ssz_type_nested_ind t)
  | TList t n => Hlist t n (ssz_type_nested_ind t)
  | TContainer ts =>
      Hcontainer ts
        ((fix go (l : list ssz_type) : Forall Q l :=
            match l with
            | [] => List.Forall_nil Q
            | t :: l => @List.Forall_cons _ Q t l (ssz_type_nested_ind t) (go l)
            end) ts)
  end.
End ssz_type_induction.

Lemma class_of_ok t : wf_type t -> codec_ok (class_of t).
Proof.
  induction t as [b| | |n|n|n|n|t n IH|t n IH|ts IH] using ssz_type_nested_ind; simpl.
  - apply uint_class_ok.
  - intros _. apply boolean_class_ok.
  - intros _. apply fp_class_ok.
  - apply bytes_class_ok.
  - apply bytelist_class_ok.
  - apply bitvector_class_ok.
  - apply bitlist_class_ok.
  - intros (Ht & Hn & Hpos). apply vector_class_ok; auto.
  - intros (Ht & Hn & Hpos). apply list_class_ok; auto.
  - intros Hts. apply container_class_ok.
    induction IH as [|t ts Ht _ IH]; simpl in *; [constructor|].
    destruct Hts. constructor; auto.
Qed.

(** Decoding an encoding gives the value back, for every well-formed type
    (nested containers, vectors and lists of fixed- and variable-size elements,
    bitfields, byte arrays, integers, field elements). *)
Theorem ssz_decode_encode (t : ssz_type) (v : ssz_value) (bs : bytes) :
  wf_type t -> well_typed (class_of t) v = true ->
  encode_bytes (class_of t) v = Ok bs -> decode_bytes (class_of t) bs = Ok v.
Proof. intros Ht Hv Hs. by apply (ok_decode _ (class_of_ok t Ht)). Qed.

(** A container shaped like an attestation: a checkpoint, a bitlist, a list of
    byte lists and a vector of integers. *)
Definition sample_type : ssz_type :=
  TContainer [TContainer [TBytes 4; TUint 64]; TBitlist 16; TList (TByteList 8) 4;
              TVector (TUint 16) 2].
Definition sample_value : ssz_value :=
  VContainer [VContainer [VBytes [Byte.x01; Byte.x02; Byte.x03; Byte.x04]; VUint 513];
              VBitlist [true; false; true];
              VList [VByteList [Byte.xaa]; VByteList []; VByteList [Byte.xbb; Byte.xcc]];
              VVector [VUint 17767; VUint 291]].
Definition sample_bytes : bytes :=
  default [] (match encode_bytes (class_of sample_type) sample_value with
              | Ok bs => Some bs | Err _ => None end).

Lemma sample_type_wf : wf_type sample_type.
Proof. vm_compute. repeat split; discriminate. Qed.

Lemma ssz_decode_encode_witness :
  decode_bytes (class_of sample_type) sample_bytes = Ok sample_value.
Proof.
  apply (ssz_decode_encode sample_type).
  - exact sample_type_wf.
  - vm_compute. reflexivity.
  - vm_compute. reflexivity.
Defined.

(** C3: every value has exactly one encoding: bytes that decode are the encoding
    of what they decode to.  In particular a list whose first offset is zero, a
    padded bitfield, a gap before the first payload or trailing bytes never decode. *)
Theorem ssz_canonical (t : ssz_type) (data : bytes) (v : ssz_value) :
  wf_type t -> decode_bytes (class_of t) data = Ok v ->
  well_typed (class_of t) v = true /\ encode_bytes (class_of t) v = Ok data.
Proof. intros Ht Hd. by apply (ok_decode _ (class_of_ok t Ht)). Qed.

Lemma ssz_canonical_witness :
  well_typed (class_of sample_type) sample_value = true /\
  encode_bytes (class_of sample_type) sample_value = Ok sample_bytes.
Proof.
  apply (ssz_canonical sample_type).
  - exact sample_type_wf.
  - vm_compute. reflexivity.
Defined.

(** Decoding hostile bytes never crashes: the only exceptions are the SSZ
    serialization and value errors (no index, division or overflow error). *)
Theorem ssz_decode_raises_only_ssz_errors (t : ssz_type) (data : bytes) :
  wf_type t ->
  (exists v, decode_bytes (class_of t) data = Ok v) \/
  decode_bytes (class_of t) data = Err SSZSerializationError \/
  decode_bytes (class_of t) data = Err SSZValueError.
Proof.
  intros Ht. destruct (decode_bytes (class_of t) data) as [v|e] eqn:E; [eauto|].
  destruct (ok_decode_errors _ (class_of_ok t Ht) _ _ E) as [-> | ->]; auto.
Qed.

Lemma ssz_decode_raises_only_ssz_errors_witness :
  (exists v, decode_bytes (class_of sample_type) (repeat Byte.x00 24) = Ok v) \/
  decode_bytes (class_of sample_type) (repeat Byte.x00 24) = Err SSZSerializationError \/
  decode_bytes (class_of sample_type) (repeat Byte.x00 24) = Err SSZValueError.
Proof.
  apply (ssz_decode_raises_only_ssz_errors sample_type). exact sample_type_wf.
Defined.
