(* ===== verification/Sha256.v ===== *)
(** * SHA-256

    The merkleization hashes with [hashlib.sha256] of Python's standard library.
    This file gives that function (FIPS 180-4) as an executable definition, so that
    the roots of the development are concrete and witnesses evaluate them.  A
    32-bit word is a machine integer (the kernel's 63-bit ones) masked to 32 bits.
    Nothing in the theorems depends on more than its output being 32 bytes long. *)

From Stdlib Require Import PrimInt63.
From S2P Require Import Prelude Uint.

Abbreviation word := PrimInt63.int.

Definition w32 (z : word) : word := land z 4294967295.
Definition rotr (n m x : word) : word := lor (lsr x n) (w32 (lsl x m)).
Definition big_sigma0 x := lxor (rotr 2 30 x) (lxor (rotr 13 19 x) (rotr 22 10 x)).
Definition big_sigma1 x := lxor (rotr 6 26 x) (lxor (rotr 11 21 x) (rotr 25 7 x)).
Definition small_sigma0 x := lxor (rotr 7 25 x) (lxor (rotr 18 14 x) (lsr x 3)).
Definition small_sigma1 x := lxor (rotr 17 15 x) (lxor (rotr 19 13 x) (lsr x 10)).
Definition choose x y z := lxor (land x y) (land (lxor x 4294967295) z).
Definition majority x y z := lxor (land x y) (lxor (land x z) (land y z)).

Definition sha256_k : list word := [
  1116352408; 1899447441; 3049323471; 3921009573;
  961987163; 1508970993; 2453635748; 2870763221;
  3624381080; 310598401; 607225278; 1426881987;
  1925078388; 2162078206; 2614888103; 3248222580;
  3835390401; 4022224774; 264347078; 604807628;
  770255983; 1249150122; 1555081692; 1996064986;
  2554220882; 2821834349; 2952996808; 3210313671;
  3336571891; 3584528711; 113926993; 338241895;
  666307205; 773529912; 1294757372; 1396182291;
  1695183700; 1986661051; 2177026350; 2456956037;
  2730485921; 2820302411; 3259730800; 3345764771;
  3516065817; 3600352804; 4094571909; 275423344;
  430227734; 506948616; 659060556; 883997877;
  958139571; 1322822218; 1537002063; 1747873779;
  1955562222; 2024104815; 2227730452; 2361852424;
  2428436474; 2756734187; 3204031479; 3329325298]%uint63.

Definition sha256_init : list word := [
  1779033703; 3144134277; 1013904242; 2773480762;
  1359893119; 2600822924; 528734635; 1541459225]%uint63.

(** Words of the message schedule, most recent first. *)
Fixpoint schedule (n : nat) (w : list word) : list word :=
  match n with
  | O => w
  | S n =>
      let at_ i := nth i w 0%uint63 in
      schedule n
        (w32 (add (add (small_sigma1 (at_ 1%nat)) (at_ 6%nat))
                  (add (small_sigma0 (at_ 14%nat)) (at_ 15%nat))) :: w)
  end.

Definition sha_round (st : list word) (kw : word * word) : list word :=
  match st with
  | [a; b; c; d; e; f; g; h] =>
      let t1 := add (add (add h (big_sigma1 e)) (choose e f g)) (add kw.1 kw.2) in
      let t2 := add (big_sigma0 a) (majority a b c) in
      [w32 (add t1 t2); a; b; c; w32 (add d t1); e; f; g]
  | _ => st
  end.

Definition compress (st : list word) (block : list word) : list word :=
  let w := rev (schedule 48 (rev block)) in
  zip_with (fun a b => w32 (add a b)) st (foldl sha_round st (combine sha256_k w)).

(** A byte as a word, and the low byte of a word. *)
Definition bit_word (b : bool) (w : word) : word := if b then w else 0%uint63.
Definition byte_word (x : Byte.byte) : word :=
  let '(b0, (b1, (b2, (b3, (b4, (b5, (b6, b7))))))) := Byte.to_bits x in
  add (add (add (bit_word b0 1) (bit_word b1 2)) (add (bit_word b2 4) (bit_word b3 8)))
      (add (add (bit_word b4 16) (bit_word b5 32)) (add (bit_word b6 64) (bit_word b7 128))).
Definition word_bit (w m : word) : bool := negb (PrimInt63.eqb (land w m) 0).
Definition word_byte (w : word) : Byte.byte :=
  Byte.of_bits (word_bit w 1, (word_bit w 2, (word_bit w 4, (word_bit w 8,
    (word_bit w 16, (word_bit w 32, (word_bit w 64, word_bit w 128))))))).

(** Big-endian words of a byte string. *)
Fixpoint words_be (bs : bytes) : list word :=
  match bs with
  | a :: b :: c :: d :: bs =>
      add (add (lsl (byte_word a) 24) (lsl (byte_word b) 16))
          (add (lsl (byte_word c) 8) (byte_word d)) :: words_be bs
  | _ => []
  end.

Definition pad (msg : bytes) : bytes :=
  let len := length msg in
  let zeros := Z.to_nat ((55 - Z.of_nat len) mod 64) in
  msg ++ [Byte.x80] ++ repeat Byte.x00 zeros ++ rev (le_split 8 (8 * Z.of_nat len)).

(** Sixteen words at a time. *)
Fixpoint sha_blocks (n : nat) (st : list word) (ws : list word) : list word :=
  match n with
  | O => st
  | S n => sha_blocks n (compress st (firstn 16 ws)) (skipn 16 ws)
  end.

Definition sha256_words (msg : bytes) : list word :=
  let ws := words_be (pad msg) in
  sha_blocks (length ws / 16) sha256_init ws.

Definition word_bytes (w : word) : bytes :=
  [word_byte (lsr w 24); word_byte (lsr w 16); word_byte (lsr w 8); word_byte w].

(** [sha256(msg).digest()] *)
Definition sha256 (msg : bytes) : bytes := concat (map word_bytes (sha256_words msg)).

Definition hex_digest (bs : bytes) : Z := le_combine (rev bs).

Lemma length_word_bytes w : length (word_bytes w) = 4%nat.
Proof. reflexivity. Qed.

Lemma length_sha_round st kw : length (sha_round st kw) = length st.
Proof. destruct st as [|? [|? [|? [|? [|? [|? [|? [|? [|? ?]]]]]]]]]; reflexivity. Qed.

Lemma length_compress st block : length (compress st block) = length st.
Proof.
  unfold compress. rewrite length_zip_with.
  assert (forall l s, length (foldl sha_round s l) = length s) as ->; [|lia].
  induction l as [|kw l IH]; intros s; simpl; [done|]. by rewrite IH, length_sha_round.
Qed.

Lemma length_sha_blocks n st ws : length (sha_blocks n st ws) = length st.
Proof.
  revert st ws. induction n as [|n IH]; intros st ws; simpl; [done|].
  by rewrite IH, length_compress.
Qed.

Lemma length_sha256 msg : length (sha256 msg) = 32%nat.
Proof.
  assert (forall l, length (concat (map word_bytes l)) = (4 * length l)%nat) as E.
  { induction l as [|z l IH]; [done|]. cbn [map concat]. rewrite length_app, IH, length_word_bytes.
    simpl. lia. }
  unfold sha256. rewrite E. unfold sha256_words. by rewrite length_sha_blocks.
Qed.

(** The digest of "abc" (FIPS 180-4, appendix B.1). *)
Example sha256_abc :
  hex_digest (sha256 [Byte.x61; Byte.x62; Byte.x63]) =
  0xba7816bf8f01cfea414140de5dae2223b00361a396177a9cb410ff61f20015ad.
Proof. vm_compute. reflexivity. Qed.
