(* ===== verification/Identity.v ===== *)
(** * Peer identities (node/networking/transport/peer_id.py, identity/keypair.py, quic/tls.py)

    A peer is named by the multihash of its public key, written in Base58.  It proves its
    name in the TLS handshake: its certificate carries the public key and a signature of
    the certificate's own key, in ASN.1.  Curve arithmetic, signatures and X.509 belong to
    the [cryptography] package and are parameters. *)

From S2P Require Import Prelude Uint Varint GossipRpc GossipTopic Sha256.
From Stdlib Require Import String.

Local Open Scope Z_scope.
Local Open Scope list_scope.

(** [int.from_bytes(data, 'big')] and [num.to_bytes(n, 'big')] *)
Definition from_bytes_be (data : bytes) : Z := from_bytes_le (rev data).
Definition to_bytes_be (n z : Z) : result bytes := little ← to_bytes_le n z; Ok (rev little).

(** ** Base58 *)
Definition ALPHABET : bytes := str "123456789ABCDEFGHJKLMNPQRSTUVWXYZabcdefghijkmnopqrstuvwxyz".
Definition one : Byte.byte := Byte.x31.
(** [ALPHABET.find(character)] *)
Fixpoint alphabet_find (c : Byte.byte) (l : bytes) (i : Z) : Z :=
  match l with
  | [] => -1
  | x :: l => if Byte.eqb x c then i else alphabet_find c l (i + 1)
  end.

(** The digits of a number, the last one first; two of them hold a byte. *)
Fixpoint base58_digits (fuel : nat) (num : Z) : bytes :=
  match fuel with
  | O => []
  | S fuel => if num >? 0 then nth (Z.to_nat (num mod 58)) ALPHABET Byte.x00 :: base58_digits fuel (num / 58) else []
  end.
Definition base58_encode (data : bytes) : bytes :=
  let leading_zeros := (List.length data - List.length (lstrip Byte.x00 data))%nat in
  rev (base58_digits (2 * List.length data) (from_bytes_be data) ++ replicate leading_zeros one).

Definition base58_step (num : Z) (character : Byte.byte) : result Z :=
  let alphabet_position := alphabet_find character ALPHABET 0 in
  check! negb (alphabet_position <? 0) else ValueError;;
  Ok (num * 58 + alphabet_position).
Definition base58_decode (encoded : bytes) : result bytes :=
  let leading_ones := (List.length encoded - List.length (lstrip one encoded))%nat in
  num ← foldM base58_step 0 encoded;
  decoded_bytes ← (if num =? 0 then Ok [] else to_bytes_be ((bit_length num + 7) / 8) num);
  Ok (replicate leading_ones Byte.x00 ++ decoded_bytes).

(** ** Peer ids *)
Inductive KeyType := RSA | ED25519 | SECP256K1 | ECDSA.
Definition KeyType_value (t : KeyType) : Z := match t with RSA => 0 | ED25519 => 1 | SECP256K1 => 2 | ECDSA => 3 end.
(** [KeyType(value)] *)
Definition KeyType_of (value : Z) : result KeyType :=
  if value =? 0 then Ok RSA else if value =? 1 then Ok ED25519 else if value =? 2 then Ok SECP256K1
  else if value =? 3 then Ok ECDSA else Err ValueError.

Inductive MultihashCode := IDENTITY | SHA256.
Definition MultihashCode_value (c : MultihashCode) : Z := match c with IDENTITY => 0x00 | SHA256 => 0x12 end.
Definition _IDENTITY_THRESHOLD : Z := 42.

Record Multihash := { mh_code : MultihashCode; mh_digest : bytes }.
Definition multihash_encode (self : Multihash) : result bytes :=
  check! negb (Zlen (mh_digest self) >? 127) else ValueError;;
  header ← bytes_of [MultihashCode_value (mh_code self); Zlen (mh_digest self)];
  Ok (header ++ mh_digest self).
Definition from_data (data : bytes) : Multihash :=
  if Zlen data <=? _IDENTITY_THRESHOLD then {| mh_code := IDENTITY; mh_digest := data |}
  else {| mh_code := SHA256; mh_digest := sha256 data |}.

Record PublicKeyProtobuf := { pk_key_type : KeyType; pk_key_data : bytes }.
Definition public_key_encode (self : PublicKeyProtobuf) : result bytes :=
  type_value ← encode_varint (KeyType_value (pk_key_type self)) VARINT_MAX_BYTES;
  data_length ← encode_varint (Zlen (pk_key_data self)) VARINT_MAX_BYTES;
  Ok (Byte.x08 :: type_value ++ Byte.x12 :: data_length ++ pk_key_data self).

(** A [PeerId] is its multihash. *)
Abbreviation PeerId := bytes.
Definition peer_id_str (p : PeerId) : bytes := base58_encode p.
Definition from_base58 (s : bytes) : result PeerId := base58_decode s.
Definition from_public_key (public_key : PublicKeyProtobuf) : result PeerId :=
  encoded ← public_key_encode public_key;
  multihash_encode (from_data encoded).

(** ** ASN.1 (quic/tls.py) *)
Definition SIGNATURE_PREFIX : bytes := str "libp2p-tls-handshake:".

Definition _encode_asn1_length (length : Z) : result bytes :=
  if length <? 128 then bytes_of [length]
  else if length <? 256 then bytes_of [0x81; length]
  else bytes_of [0x82; Z.shiftr length 8; Z.land length 0xFF].
Definition _encode_asn1_octet_string (data : bytes) : result bytes :=
  length ← _encode_asn1_length (Zlen data);
  Ok (Byte.x04 :: length ++ data).
Definition _encode_asn1_sequence (content : bytes) : result bytes :=
  length ← _encode_asn1_length (Zlen content);
  Ok (Byte.x30 :: length ++ content).
Definition _encode_asn1_signed_key (public_key_protobuf signature : bytes) : result bytes :=
  octet1 ← _encode_asn1_octet_string public_key_protobuf;
  octet2 ← _encode_asn1_octet_string signature;
  _encode_asn1_sequence (octet1 ++ octet2).

Definition _decode_asn1_length (data : bytes) (offset : Z) : result (Z * Z) :=
  check! negb (offset >=? Zlen data) else QuicTransportError;;
  first ← byte_at data offset;
  if first <? 0x80 then Ok (first, offset + 1)
  else
    let num_length_octets := Z.land first 0x7F in
    check! negb ((num_length_octets =? 0) || (num_length_octets >? 2)) else QuicTransportError;;
    check! negb (offset + 1 + num_length_octets >? Zlen data) else QuicTransportError;;
    Ok (from_bytes_be (slice data (offset + 1) (offset + 1 + num_length_octets)), offset + 1 + num_length_octets).
(** The decoders of a SEQUENCE and of an OCTET STRING differ in the tag. *)
Definition decode_tagged (tag : Z) (data : bytes) (offset : Z) : result (bytes * Z) :=
  check! negb (offset >=? Zlen data) else QuicTransportError;;
  found ← byte_at data offset;
  check! found =? tag else QuicTransportError;;
  '(length, length_end) ← _decode_asn1_length data (offset + 1);
  let content_end := length_end + length in
  check! negb (content_end >? Zlen data) else QuicTransportError;;
  Ok (slice data length_end content_end, content_end).
Definition _decode_asn1_sequence (data : bytes) (offset : Z) : result (bytes * Z) := decode_tagged 0x30 data offset.
Definition _decode_asn1_octet_string (data : bytes) (offset : Z) : result (bytes * Z) := decode_tagged 0x04 data offset.
Definition _decode_asn1_signed_key (data : bytes) : result (bytes * bytes) :=
  '(sequence_content, sequence_end) ← _decode_asn1_sequence data 0;
  check! sequence_end =? Zlen data else QuicTransportError;;
  '(public_key_protobuf, after_first) ← _decode_asn1_octet_string sequence_content 0;
  '(signature, after_second) ← _decode_asn1_octet_string sequence_content after_first;
  check! after_second =? Zlen sequence_content else QuicTransportError;;
  Ok (public_key_protobuf, signature).

(** [except VarintError] and [except ValueError] *)
Definition or_transport_error {A} (r : result A) : result A :=
  match r with Err (VarintError | ValueError) => Err QuicTransportError | _ => r end.

Definition _decode_public_key_protobuf (data : bytes) : result PublicKeyProtobuf :=
  check! negb (Zlen data <? 1) else QuicTransportError;;
  type_tag ← byte_at data 0;
  check! type_tag =? 0x08 else QuicTransportError;;
  '(key_type_value, type_consumed) ← or_transport_error (decode_varint data 1 VARINT_MAX_BYTES);
  let data_tag_offset := 1 + type_consumed in
  check! negb (Zlen data <=? data_tag_offset) else QuicTransportError;;
  data_tag ← byte_at data data_tag_offset;
  check! data_tag =? 0x12 else QuicTransportError;;
  '(key_data_length, length_consumed) ← or_transport_error (decode_varint data (data_tag_offset + 1) VARINT_MAX_BYTES);
  let key_data_offset := data_tag_offset + 1 + length_consumed in
  let key_data_end := key_data_offset + key_data_length in
  check! key_data_end =? Zlen data else QuicTransportError;;
  key_type ← or_transport_error (KeyType_of key_type_value);
  Ok {| pk_key_type := key_type; pk_key_data := slice data key_data_offset key_data_end |}.

(** ** Keys and certificates *)

(** What the [cryptography] package provides.  A point is decoded from an encoding of at
    most 65 bytes, or [ValueError] is raised; its compressed encoding has 33 bytes and
    decodes to it; a DER signature has at most 72 bytes, and a key signs what its point
    verifies. *)
Class Secp256k1 := {
  point : Type;
  private_key : Type;
  from_encoded_point : bytes -> result point;
  compressed : point -> bytes;
  ecdsa_verify : point -> bytes -> bytes -> bool;
  public_of : private_key -> point;
  ecdsa_sign : private_key -> bytes -> bytes;
  compressed_length k : Zlen (compressed k) = 33;
  compressed_decodes k : from_encoded_point (compressed k) = Ok k;
  encoded_point_error data e : from_encoded_point data = Err e -> e = ValueError;
  encoded_point_length data k : from_encoded_point data = Ok k -> Zlen data <= 65;
  signature_length k message : Zlen (ecdsa_sign k message) <= 72;
  sign_verifies k message : ecdsa_verify (public_of k) message (ecdsa_sign k message) = true
}.

(** A certificate has a TLS key (its SubjectPublicKeyInfo, which the handshake has already
    used) and extensions, which are parsed when they are first read.  [ct_libp2p] is what
    looking up the libp2p extension gives: the extension, whose value X.509 leaves undecoded
    or not; nothing ([ExtensionNotFound]); or the exception that parsing the extensions
    raises, as [DuplicateExtension] for an identifier that occurs twice and [ValueError] for
    a malformed value. *)
Inductive extension := UnrecognizedExtension (value : bytes) | OtherExtension.
Record Certificate := { ct_public_key : bytes; ct_libp2p : result (option extension) }.

Section Certificates.
Context `{Secp256k1}.

Record IdentityKeypair := { ik_private_key : private_key; ik_public_key : point }.
(** [IdentityKeypair.generate], with the key it draws *)
Definition generate (drawn : private_key) : IdentityKeypair := {| ik_private_key := drawn; ik_public_key := public_of drawn |}.
Definition sign (self : IdentityKeypair) (message : bytes) : bytes := ecdsa_sign (ik_private_key self) message.
Definition to_peer_id (self : IdentityKeypair) : result PeerId :=
  from_public_key {| pk_key_type := SECP256K1; pk_key_data := compressed (ik_public_key self) |}.

Definition _create_extension_payload (identity_key : IdentityKeypair) (tls_public_bytes : bytes) : result bytes :=
  let public_key_compressed := compressed (ik_public_key identity_key) in
  let signature := sign identity_key (SIGNATURE_PREFIX ++ tls_public_bytes) in
  header ← bytes_of [0x08; KeyType_value SECP256K1; 0x12; Zlen public_key_compressed];
  _encode_asn1_signed_key (header ++ public_key_compressed) signature.

(** [generate_libp2p_certificate], with the TLS key it draws; only the parts of the
    certificate that are verified *)
Definition generate_libp2p_certificate (identity_key : IdentityKeypair) (tls_public_bytes : bytes) : result Certificate :=
  payload ← _create_extension_payload identity_key tls_public_bytes;
  Ok {| ct_public_key := tls_public_bytes; ct_libp2p := Ok (Some (UnrecognizedExtension payload)) |}.

Definition verify_libp2p_certificate (certificate : Certificate) : result PeerId :=
  extension ← ct_libp2p certificate;
  match extension with
  | None | Some OtherExtension => Err QuicTransportError
  | Some (UnrecognizedExtension payload) =>
      '(public_key_protobuf, signature) ← _decode_asn1_signed_key payload;
      identity_public_key_protobuf ← _decode_public_key_protobuf public_key_protobuf;
      check! KeyType_value (pk_key_type identity_public_key_protobuf) =? KeyType_value SECP256K1 else QuicTransportError;;
      identity_public_key ← or_transport_error (from_encoded_point (pk_key_data identity_public_key_protobuf));
      check! ecdsa_verify identity_public_key (SIGNATURE_PREFIX ++ ct_public_key certificate) signature else QuicTransportError;;
      from_public_key identity_public_key_protobuf
  end.
End Certificates.

(** * Peer identities: theorems

    Base58 is a bijection between byte strings and the strings over its alphabet, and a
    certificate proves the name it is verified for. *)

(** ** Positional numerals, the least significant digit first *)
Section Numerals.
Context (b : Z) (Hb : 2 <= b).

Fixpoint value (l : list Z) : Z := match l with [] => 0 | d :: l => d + b * value l end.
Definition digits (l : list Z) : Prop := Forall (fun d => 0 <= d < b) l.
Lemma value_snoc l d : value (l ++ [d]) = value l + d * b ^ Zlen l.
Proof.
  induction l as [|x l IH]; [cbn; lia|]. cbn [app value List.length]. rewrite IH, Nat2Z.inj_succ, Z.pow_succ_r by lia. lia.
Qed.
(** No zeros in front *)
Definition canonical (l : list Z) : Prop := digits l /\ last l <> Some 0.

Lemma canonical_tail d l : canonical (d :: l) -> 0 <= d < b /\ canonical l.
Proof. intros [Hd Hl]. inversion Hd; subst. split; [done|]. split; [done|]. by destruct l. Qed.

Lemma value_bounds l : canonical l -> l <> [] -> b ^ (Zlen l - 1) <= value l < b ^ Zlen l.
Proof.
  induction l as [|d l IH]; intros Hc Hl; [done|]. pose proof (canonical_tail d l Hc) as [Hd Hc']. cbn [value List.length].
  destruct l as [|d' l].
  - destruct Hc as [_ Hz]. cbn in *. assert (d <> 0) by congruence. rewrite Z.pow_1_r. lia.
  - specialize (IH Hc' ltac:(done)). remember (d' :: l) as l' eqn:El.
    replace (Z.of_nat (S (List.length l'))) with (1 + Zlen l') by lia.
    replace (1 + Zlen l' - 1) with (1 + (Zlen l' - 1)) by lia.
    assert (0 < Zlen l') by (subst; cbn; lia). rewrite !Z.pow_add_r, Z.pow_1_r by lia. nia.
Qed.

Lemma value_positive l : canonical l -> l <> [] -> 0 < value l.
Proof.
  intros Hc Hl. pose proof (value_bounds l Hc Hl). assert (0 < b ^ (Zlen l - 1)); [|lia].
  apply Z.pow_pos_nonneg; [lia|]. destruct l; [done|]. cbn. lia.
Qed.

Lemma value_unique l : forall k, canonical l -> canonical k -> value l = value k -> l = k.
Proof.
  induction l as [|d l IH]; intros k Hl Hk E.
  - destruct k as [|d k]; [done|]. pose proof (value_positive (d :: k) Hk ltac:(done)). cbn [value] in *. lia.
  - destruct k as [|d' k].
    { pose proof (value_positive (d :: l) Hl ltac:(done)). cbn [value] in *. lia. }
    apply canonical_tail in Hl as [Hd Hl], Hk as [Hd' Hk]. cbn [value] in E.
    destruct (Z.div_mod_unique b (value l) (value k) d d') as [Ev Ed]; [left; lia..|lia|].
    by rewrite Ed, (IH k Hl Hk Ev).
Qed.

Lemma numeral n : forall v, 0 <= v -> v < b ^ Z.of_nat n -> exists l, canonical l /\ value l = v /\ (List.length l <= n)%nat.
Proof.
  induction n as [|n IH]; intros v Hv Hn.
  - exists []. cbn in *. split; [|cbn; lia]. split; [constructor|done].
  - destruct (decide (v = 0)) as [->|Hz]; [exists []; split; [split; [constructor|done]|cbn; lia]|].
    rewrite Nat2Z.inj_succ, Z.pow_succ_r in Hn by lia.
    destruct (IH (v / b)) as (l & [Hd Hl] & Ev & Hlen); [by apply Z.div_pos; lia|apply Z.div_lt_upper_bound; lia|].
    exists (v mod b :: l). pose proof (Z.mod_pos_bound v b ltac:(lia)). pose proof (Z.div_mod v b ltac:(lia)).
    split; [split; [by constructor|]|cbn [value List.length]; rewrite Ev; lia].
    destruct l as [|d l]; [|exact Hl]. cbn in Ev |- *. intros [= E]. lia.
Qed.

Lemma value_short l n : canonical l -> value l < b ^ Z.of_nat n -> (List.length l <= n)%nat.
Proof.
  intros Hc Hv. destruct l as [|d l]; [cbn; lia|]. pose proof (value_bounds (d :: l) Hc ltac:(done)) as Hl.
  assert (Zlen (d :: l) - 1 < Z.of_nat n); [|lia]. apply (Z.pow_lt_mono_r_iff b); lia.
Qed.

Lemma value_zeros l n : value (l ++ replicate n 0) = value l.
Proof.
  induction l as [|d l IH]; cbn [app value]; [|by rewrite IH]. induction n as [|n IHn]; cbn [replicate value]; [done|lia].
Qed.
End Numerals.

(** ** Base58 *)
Lemma lstrip_split c l : exists n, l = replicate n c ++ lstrip c l /\ head (lstrip c l) <> Some c.
Proof.
  induction l as [|x l (n & IH & Hh)]; [by exists O|]. cbn [lstrip]. case_bool_decide as Hx.
  - subst x. exists (S n). cbn [replicate app]. split; [by rewrite <- IH|done].
  - exists O. split; [done|]. cbn. congruence.
Qed.

Lemma lstrip_replicate c n l : head l <> Some c -> lstrip c (replicate n c ++ l) = l.
Proof.
  intros Hl. induction n as [|n IH]; cbn [replicate app lstrip]; [|by rewrite bool_decide_true].
  destruct l as [|x l]; [done|]. cbn [lstrip]. rewrite bool_decide_false; [done|]. intros ->. by cbn in Hl.
Qed.

Lemma rev_replicate {A} n (x : A) : rev (replicate n x) = replicate n x.
Proof. rewrite rev_alt. apply reverse_replicate. Qed.
Lemma head_rev_last {A} (l : list A) : head (rev l) = last l.
Proof. induction l as [|x l IH] using rev_ind; [done|]. by rewrite rev_app_distr, last_snoc. Qed.

Lemma from_bytes_le_value data : from_bytes_le data = value 256 (map byte.unsigned data).
Proof.
  unfold from_bytes_le. induction data as [|x data IH]; [done|]. cbn [map value]. unfold le_combine; fold le_combine.
  pose proof (byte.unsigned_range x). rewrite lor_disjoint by lia. rewrite IH. lia.
Qed.

Definition letter (d : Z) : Byte.byte := nth (Z.to_nat d) ALPHABET Byte.x00.

Lemma all_letters : forallb (fun d => alphabet_find (letter d) ALPHABET 0 =? d) (map Z.of_nat (seq 0 58)) = true.
Proof. reflexivity. Qed.
Lemma find_letter d : 0 <= d < 58 -> alphabet_find (letter d) ALPHABET 0 = d.
Proof.
  intros Hd. pose proof all_letters as Ha. rewrite forallb_forall in Ha. apply Z.eqb_eq, (Ha d), in_map_iff.
  exists (Z.to_nat d). split; [lia|]. apply in_seq. lia.
Qed.

Lemma find_from c l : forall i, 0 <= i -> alphabet_find c l i = -1 \/ i <= alphabet_find c l i < i + Zlen l /\ nth (Z.to_nat (alphabet_find c l i - i)) l Byte.x00 = c.
Proof.
  induction l as [|x l IH]; intros i Hi; cbn [alphabet_find List.length]; [by left|].
  destruct (Byte.eqb x c) eqn:E.
  - right. split; [lia|]. replace (Z.to_nat (i - i)) with O by lia. by apply Byte.byte_dec_bl.
  - destruct (IH (i + 1) ltac:(lia)) as [->|[Hr Hn]]; [by left|]. right. split; [lia|].
    replace (Z.to_nat (alphabet_find c l (i + 1) - i)) with (S (Z.to_nat (alphabet_find c l (i + 1) - (i + 1)))) by lia. exact Hn.
Qed.
Lemma letter_find c : 0 <= alphabet_find c ALPHABET 0 -> alphabet_find c ALPHABET 0 < 58 /\ letter (alphabet_find c ALPHABET 0) = c.
Proof.
  intros Hf. destruct (find_from c ALPHABET 0 ltac:(lia)) as [E|[Hr Hn]]; [lia|]. unfold letter. rewrite Z.sub_0_r in Hn.
  split; [|done]. change (Zlen ALPHABET) with 58 in Hr. lia.
Qed.

Lemma base58_digits_value fuel : forall ds, canonical 58 ds -> (List.length ds <= fuel)%nat -> base58_digits fuel (value 58 ds) = map letter ds.
Proof.
  induction fuel as [|fuel IH]; intros ds Hc Hl; [by destruct ds; [|cbn in Hl; lia]|]. cbn [base58_digits].
  destruct ds as [|d ds]; [done|]. pose proof (value_positive 58 ltac:(lia) (d :: ds) Hc ltac:(done)) as Hp.
  rewrite Z.gtb_ltb, (proj2 (Z.ltb_lt _ _) Hp). apply canonical_tail in Hc as [Hd Hc]; [|lia..]. cbn [value map].
  rewrite (Z.mul_comm 58), Z_mod_plus_full, Z_div_plus_full, Z.mod_small, Z.div_small, Z.add_0_l by lia.
  rewrite IH by (done || cbn in Hl; lia). done.
Qed.

Lemma decode_digits ds : digits 58 ds -> foldM base58_step 0 (rev (map letter ds)) = Ok (value 58 ds).
Proof.
  induction 1 as [|d ds Hd _ IH]; [done|]. cbn [map rev value]. rewrite foldM_app, IH. mcbn. cbn [foldM]. unfold base58_step.
  rewrite find_letter, (proj2 (Z.ltb_ge _ _)) by lia. cbn. f_equal. lia.
Qed.

Lemma decode_letters s n : foldM base58_step 0 s = Ok n -> exists ds, digits 58 ds /\ s = rev (map letter ds).
Proof.
  revert n. induction s as [|c s IH] using rev_ind; intros n E; [exists []; by split; [constructor|]|].
  rewrite foldM_app in E. apply bind_Ok in E as (m & Em & E). destruct (IH _ Em) as (ds & Hd & ->). cbn [foldM] in E.
  unfold base58_step in E. destruct (Z.ltb_spec (alphabet_find c ALPHABET 0) 0) as [|Hf]; [done|].
  destruct (letter_find c Hf) as [Hlt Hc]. exists (alphabet_find c ALPHABET 0 :: ds). split; [by constructor|].
  cbn [map rev]. by rewrite Hc.
Qed.

Lemma map_byte_unsigned bs : digits 256 bs -> map byte.unsigned (map byte.of_Z bs) = bs.
Proof.
  rewrite map_map. induction 1 as [|d l Hd _ IH]; [done|]. cbn. rewrite IH, byte.unsigned_of_Z. f_equal. by apply Z.mod_small.
Qed.

Lemma to_bytes_value bs : canonical 256 bs -> bs <> [] ->
  to_bytes_be ((bit_length (value 256 bs) + 7) / 8) (value 256 bs) = Ok (rev (map byte.of_Z bs)).
Proof.
  intros Hc Hn. pose proof (value_positive 256 ltac:(lia) bs Hc Hn) as Hp. pose proof (value_bounds 256 ltac:(lia) bs Hc Hn) as Hb.
  pose proof (map_byte_unsigned bs (proj1 Hc)) as Em.
  assert ((bit_length (value 256 bs) + 7) / 8 = Zlen (map byte.of_Z bs)) as ->.
  { rewrite length_map. unfold bit_length. rewrite (proj2 (Z.eqb_neq _ _)) by lia.
    assert (0 < Zlen bs) by (destruct bs; [done|cbn; lia]). 
    replace (256 ^ (Zlen bs - 1)) with (2 ^ (8 * (Zlen bs - 1))) in Hb by (by rewrite Z.pow_mul_r by lia).
    replace (256 ^ Zlen bs) with (2 ^ (8 * Zlen bs)) in Hb by (by rewrite Z.pow_mul_r by lia).
    assert (8 * (Zlen bs - 1) <= Z.log2 (value 256 bs) < 8 * Zlen bs) as Hl; [|div_lia].
    split; [apply Z.log2_le_pow2; lia|apply Z.log2_lt_pow2; lia]. }
  unfold to_bytes_be. rewrite <- Em at 2. rewrite <- from_bytes_le_value, to_from_bytes_le. done.
Qed.

(** A byte string and its text: zeros and ones in front, then the same number twice *)
Definition base58_of (d s : bytes) : Prop := exists n ds bs,
  canonical 58 ds /\ canonical 256 bs /\ value 58 ds = value 256 bs /\
  d = replicate n Byte.x00 ++ rev (map byte.of_Z bs) /\ s = replicate n one ++ rev (map letter ds).

Lemma head_text ds : canonical 58 ds -> head (rev (map letter ds)) <> Some one.
Proof.
  intros [Hd Hl]. rewrite head_rev_last, fmap_last. destruct (last ds) as [d|] eqn:E; [|done]. change (Some (letter d) <> Some one). intros Ho%(inj Some).
  pose proof (proj1 (Forall_forall _ _) Hd d (last_Some_elem_of _ _ E)) as Hr. cbn beta in Hr.
  pose proof (find_letter d Hr) as Hf. rewrite Ho in Hf. change (0 = d) in Hf. by subst d.
Qed.
Lemma head_bytes bs : canonical 256 bs -> head (rev (map byte.of_Z bs)) <> Some Byte.x00.
Proof.
  intros [Hd Hl]. rewrite head_rev_last, fmap_last. destruct (last bs) as [d|] eqn:E; [|done]. cbn. intros [= Ho].
  pose proof (proj1 (Forall_forall _ _) Hd d (last_Some_elem_of _ _ E)) as Hr. cbn beta in Hr.
  apply (f_equal byte.unsigned) in Ho. rewrite byte.unsigned_of_Z in Ho. unfold byte.wrap in Ho. rewrite Z.mod_small in Ho by lia.
  cbn in Ho. by subst d.
Qed.

Lemma encode_of d s : base58_of d s -> base58_encode d = s.
Proof.
  intros (n & ds & bs & Hd & Hb & Ev & -> & ->). unfold base58_encode. rewrite lstrip_replicate by (by apply head_bytes).
  assert (from_bytes_be (replicate n Byte.x00 ++ rev (map byte.of_Z bs)) = value 58 ds) as ->.
  { unfold from_bytes_be. rewrite rev_app_distr, rev_involutive, from_bytes_le_value, map_app, map_byte_unsigned by apply Hb.
    by rewrite rev_replicate, (fmap_replicate byte.unsigned), value_zeros. }
  rewrite length_app, length_replicate, base58_digits_value; [|done|].
  - rewrite rev_app_distr, rev_replicate. do 2 f_equal. lia.
  - rewrite length_rev, length_map. apply (value_short 58); [lia|done|]. rewrite Ev. destruct bs as [|x bs].
    { cbn [value List.length]. apply Z.pow_pos_nonneg; lia. }
    pose proof (value_bounds 256 ltac:(lia) _ Hb ltac:(done)) as Hv. remember (x :: bs) as l eqn:El. clear El Hb Ev Hd.
    assert (256 ^ Zlen l <= (58 ^ 2) ^ Zlen l) by (apply Z.pow_le_mono_l; lia). rewrite <- Z.pow_mul_r in * by lia.
    assert (58 ^ (2 * Zlen l) <= 58 ^ Z.of_nat (2 * (n + List.length l))); [|lia]. apply Z.pow_le_mono_r; lia.
Qed.

Lemma decode_of d s : base58_of d s -> base58_decode s = Ok d.
Proof.
  intros (n & ds & bs & Hd & Hb & Ev & -> & ->). unfold base58_decode. rewrite lstrip_replicate by (by apply head_text).
  assert (foldM base58_step 0 (replicate n one ++ rev (map letter ds)) = Ok (value 58 ds)) as ->.
  { rewrite <- (value_zeros 58 ds n), <- decode_digits by (apply Forall_app; split; [apply Hd|by apply Forall_replicate]).
    by rewrite map_app, rev_app_distr, (fmap_replicate letter), rev_replicate. }
  rewrite length_app, length_replicate. mcbn. replace (_ + _ - _)%nat with n by lia. rewrite Ev. destruct bs as [|x bs]; [done|].
  pose proof (value_positive 256 ltac:(lia) _ Hb ltac:(done)). rewrite (proj2 (Z.eqb_neq _ _)) by lia. by rewrite to_bytes_value.
Qed.

Lemma canonical_exists b v : 2 <= b -> 0 <= v -> exists l, canonical b l /\ value b l = v.
Proof.
  intros Hb Hv. destruct (numeral b Hb (Z.to_nat v) v Hv) as (l & Hc & Hl & _); [|by exists l].
  rewrite Z2Nat.id by lia. apply Z.pow_gt_lin_r; lia.
Qed.

Lemma canonical_rev b c (f : Z -> Byte.byte) (l : list Z) : f 0 = c ->  head (rev (map f l)) <> Some c -> digits b l -> canonical b l.
Proof.
  intros Hf Hh Hd. split; [done|]. intros E. rewrite head_rev_last, fmap_last, E in Hh. cbn in Hh. congruence.
Qed.

Lemma text_of d : exists s, base58_of d s.
Proof.
  destruct (lstrip_split Byte.x00 d) as (n & E & Hh). set (rest := lstrip Byte.x00 d) in *. set (bs := map byte.unsigned (rev rest)).
  assert (rest = rev (map byte.of_Z bs)) as Er.
  { subst bs. rewrite map_map. rewrite (map_ext _ (fun x => x)), map_id, rev_involutive by apply byte.of_Z_unsigned. done. }
  assert (canonical 256 bs) as Hb.
  { apply (canonical_rev _ Byte.x00 byte.of_Z); [done|by rewrite <- Er|]. apply Forall_map, Forall_true. intros x. apply byte.unsigned_range. }
  assert (0 <= value 256 bs) as Hv by (destruct bs; [done|pose proof (value_positive 256 ltac:(lia) _ Hb ltac:(done)); lia]).
  destruct (canonical_exists 58 (value 256 bs) ltac:(lia) Hv) as (ds & Hd & Ev).
  exists (replicate n one ++ rev (map letter ds)). exists n, ds, bs. split_and!; try done. by rewrite <- Er.
Qed.

Lemma bytes_of_text s n : foldM base58_step 0 s = Ok n -> exists d, base58_of d s.
Proof.
  intros E. destruct (lstrip_split one s) as (k & Es & Hh). set (rest := lstrip one s) in *. rewrite Es, foldM_app in E.
  assert (replicate k one = rev (map letter (replicate k 0))) as Ek by (by rewrite (fmap_replicate letter), rev_replicate).
  rewrite Ek in E.
  rewrite (decode_digits (replicate k 0)), <- (app_nil_l (replicate k 0)), value_zeros in E by (by apply Forall_replicate). mcbn_in E.
  cbn [value] in E. destruct (decode_letters _ _ E) as (ds & Hd & Er).
  assert (canonical 58 ds) as Hc by (apply (canonical_rev _ one letter); [done|by rewrite <- Er|done]).
  assert (0 <= value 58 ds) as Hv by (destruct ds; [done|pose proof (value_positive 58 ltac:(lia) _ Hc ltac:(done)); lia]).
  destruct (canonical_exists 256 (value 58 ds) ltac:(lia) Hv) as (bs & Hb & Ev).
  exists (replicate k Byte.x00 ++ rev (map byte.of_Z bs)). exists k, ds, bs. split_and!; try done. by rewrite <- Er.
Qed.

(** Base58 loses nothing: a string decodes to some bytes exactly when those bytes
    encode to that string, so every byte string has one text, every text over the alphabet
    is that of one byte string, and any other text is refused. *)
Theorem base58_bijective (s d : bytes) : base58_decode s = Ok d <-> base58_encode d = s.
Proof.
  split.
  - intros E. pose proof E as E'. unfold base58_decode in E. apply bind_Ok in E as (n & En & _).
    destruct (bytes_of_text s n En) as [d' Hd]. rewrite (decode_of d' s Hd) in E'. injection E' as <-. by apply encode_of.
  - intros <-. destruct (text_of d) as [s Hs]. rewrite (encode_of d s Hs). by apply decode_of.
Qed.

(** ** ASN.1 *)
Lemma read_at pre (b : Byte.byte) post : byte_at (pre ++ b :: post) (Zlen pre) = Ok (byte.unsigned b).
Proof. pose proof (byte_at_middle pre [b] post 0 ltac:(cbn; lia)) as E. by rewrite Z.add_0_r in E. Qed.

Lemma decode_length n l pre post :
  0 <= n -> _encode_asn1_length n = Ok l -> _decode_asn1_length (pre ++ l ++ post) (Zlen pre) = Ok (n, Zlen pre + Zlen l).
Proof.
  unfold _encode_asn1_length, _decode_asn1_length. intros Hn E. rewrite !length_app.
  destruct (Z.ltb_spec n 128) as [H1|H1]; [|destruct (Z.ltb_spec n 256) as [H2|H2]];
    apply bytes_of_Ok in E as [Hr Em].
  - destruct l as [|b [|]]; try done. injection Em as Eb. rewrite Z.geb_leb, (proj2 (Z.leb_gt _ _)) by (cbn; lia).
    cbn [negb app]. rewrite read_at. mcbn. rewrite Eb, (proj2 (Z.ltb_lt _ _)) by lia. done.
  - destruct l as [|b [|c [|]]]; try done. injection Em as Eb Ec. rewrite Z.geb_leb, (proj2 (Z.leb_gt _ _)) by (cbn; lia).
    cbn [negb app]. rewrite read_at. mcbn. rewrite Eb. cbn -[Z.add Z.of_nat slice]. change (Z.land 129 127) with 1. cbn [Z.eqb Z.gtb Z.compare Pos.compare Pos.compare_cont orb negb]. rewrite Z.gtb_ltb, (proj2 (Z.ltb_ge _ _)) by lia.
    cbn [negb]. change (b :: c :: post) with ([b] ++ [c] ++ post). rewrite app_assoc, slice_middle by (rewrite ?length_app; cbn; lia).
    unfold from_bytes_be. rewrite from_bytes_le_value. cbn -[Z.mul Z.add]. rewrite Ec. do 2 f_equal; lia.
  - destruct l as [|b [|c [|d [|]]]]; try done. injection Em as Eb Ec Ed.
    rewrite Z.geb_leb, (proj2 (Z.leb_gt _ _)) by (cbn; lia).
    cbn [negb app]. rewrite read_at. mcbn. rewrite Eb. cbn -[Z.add Z.of_nat slice]. change (Z.land 130 127) with 2. cbn [Z.eqb Z.gtb Z.compare Pos.compare Pos.compare_cont orb negb]. rewrite Z.gtb_ltb, (proj2 (Z.ltb_ge _ _)) by lia.
    cbn [negb]. change (b :: c :: d :: post) with ([b] ++ [c; d] ++ post). rewrite app_assoc, slice_middle by (rewrite ?length_app; cbn; lia).
    unfold from_bytes_be. rewrite from_bytes_le_value. cbn -[Z.mul Z.add]. rewrite Ec, Ed, Z.shiftr_div_pow2 by lia.
    change 0xFF with (Z.ones 8). rewrite Z.land_ones by lia. do 2 f_equal; [|lia]. change (2 ^ 8) with 256. div_lia.
Qed.

Lemma decode_tag tag t l content pre post :
  byte.unsigned t = tag -> _encode_asn1_length (Zlen content) = Ok l ->
  decode_tagged tag (pre ++ (t :: l ++ content) ++ post) (Zlen pre) = Ok (content, Zlen pre + Zlen (t :: l ++ content)).
Proof.
  intros Ht El. unfold decode_tagged. rewrite Z.geb_leb, (proj2 (Z.leb_gt _ _)) by (rewrite !length_app; cbn [List.length]; lia).
  cbn [negb app]. rewrite read_at. mcbn. rewrite Ht, Z.eqb_refl.
  replace (pre ++ t :: (l ++ content) ++ post) with ((pre ++ [t]) ++ l ++ (content ++ post)) by (by rewrite <- !app_assoc).
  replace (Zlen pre + 1) with (Zlen (pre ++ [t])) by (rewrite length_app; cbn; lia).
  rewrite (decode_length (Zlen content)) by (done || lia). mcbn.
  rewrite Z.gtb_ltb, (proj2 (Z.ltb_ge _ _)) by (rewrite !length_app; lia). cbn [negb].
  rewrite (app_assoc _ l), slice_middle by (rewrite ?length_app; cbn; lia). do 2 f_equal. cbn [List.length]. rewrite !length_app. cbn. lia.
Qed.

Lemma signed_key_decodes key signature e :
  _encode_asn1_signed_key key signature = Ok e -> _decode_asn1_signed_key e = Ok (key, signature).
Proof.
  unfold _encode_asn1_signed_key, _encode_asn1_octet_string, _encode_asn1_sequence. intros E.
  apply bind_Ok in E as (o1 & E1 & E). apply bind_Ok in E as (o2 & E2 & E).
  apply bind_Ok in E1 as (l1 & E1 & [= <-]). apply bind_Ok in E2 as (l2 & E2 & [= <-]). apply bind_Ok in E as (l3 & E3 & [= <-]).
  unfold _decode_asn1_signed_key, _decode_asn1_sequence, _decode_asn1_octet_string.
  cbn [app] in E3 |- *. set (inner := Byte.x04 :: (l1 ++ key) ++ Byte.x04 :: l2 ++ signature) in *.
  pose proof (decode_tag 0x30 Byte.x30 l3 inner [] [] eq_refl E3) as H3. rewrite app_nil_r in H3. cbn [app List.length] in H3.
  change (Z.of_nat 0) with 0 in H3. rewrite H3. mcbn. cbn [List.length]. rewrite Z.add_0_l, Z.eqb_refl.
  pose proof (decode_tag 0x04 Byte.x04 l1 key [] (Byte.x04 :: l2 ++ signature) eq_refl E1) as H1. cbn [app List.length] in H1.
  change (Z.of_nat 0) with 0 in H1. subst inner. cbn [app]. rewrite H1. mcbn. rewrite Z.add_0_l.
  pose proof (decode_tag 0x04 Byte.x04 l2 signature (Byte.x04 :: l1 ++ key) [] eq_refl E2) as H2. rewrite app_nil_r in H2. cbn [app List.length] in H2.
  rewrite H2. mcbn. rewrite (proj2 (Z.eqb_eq _ _)); [done|]. cbn [List.length]. rewrite !length_app. cbn [List.length]. rewrite !length_app. lia.
Qed.

(** ** Keys *)
Lemma public_key_decodes pk e : public_key_encode pk = Ok e -> _decode_public_key_protobuf e = Ok pk.
Proof.
  unfold public_key_encode. intros E. apply bind_Ok in E as (tv & Et & E). apply bind_Ok in E as (dl & Ed & [= <-]).
  unfold _decode_public_key_protobuf. rewrite (proj2 (Z.ltb_ge _ _)) by (cbn [List.length]; lia). cbn [negb].
  pose proof (read_at [] Byte.x08 (tv ++ Byte.x12 :: dl ++ pk_key_data pk)) as H8. cbn [app List.length] in H8. change (Z.of_nat 0) with 0 in H8. rewrite H8. mcbn.
  pose proof (decode_encode_varint _ VARINT_MAX_BYTES tv [Byte.x08] (Byte.x12 :: dl ++ pk_key_data pk) ltac:(done) Et) as Hv.
  change (Zlen [Byte.x08]) with 1 in Hv. cbn [app] in Hv. change (byte.unsigned Byte.x08 =? 8) with true. cbn match. rewrite Hv.
  cbn [or_transport_error]. mcbn. rewrite (proj2 (Z.leb_gt _ _)) by (cbn [List.length]; rewrite length_app; cbn [List.length]; lia).
  cbn [negb]. replace (1 + Zlen tv) with (Zlen (Byte.x08 :: tv)) by (cbn [List.length]; lia).
  change (Byte.x08 :: tv ++ Byte.x12 :: dl ++ pk_key_data pk) with ((Byte.x08 :: tv) ++ Byte.x12 :: dl ++ pk_key_data pk).
  rewrite read_at. mcbn. change (byte.unsigned Byte.x12 =? 18) with true. cbn match.
  replace ((Byte.x08 :: tv) ++ Byte.x12 :: dl ++ pk_key_data pk) with (((Byte.x08 :: tv) ++ [Byte.x12]) ++ dl ++ pk_key_data pk)
    by (by rewrite <- app_assoc).
  replace (Zlen (Byte.x08 :: tv) + 1) with (Zlen ((Byte.x08 :: tv) ++ [Byte.x12])) by (rewrite length_app; cbn [List.length]; lia).
  rewrite (decode_encode_varint _ VARINT_MAX_BYTES dl _ (pk_key_data pk) ltac:(done) Ed). cbn [or_transport_error]. mcbn.
  rewrite (proj2 (Z.eqb_eq _ _)) by (rewrite (length_app (_ ++ _)), (length_app dl); lia).
  assert (KeyType_of (KeyType_value (pk_key_type pk)) = Ok (pk_key_type pk)) as -> by (by destruct pk as [[] ?]). cbn [or_transport_error]. mcbn.
  rewrite app_assoc, slice_to_end by (rewrite ?length_app; lia). by destruct pk.
Qed.

Lemma from_public_key_injective pk pk' p :
  Zlen (pk_key_data pk) = 33 -> from_public_key pk = Ok p -> from_public_key pk' = Ok p -> pk' = pk.
Proof.
  intros Hl E E'. unfold from_public_key in *. apply bind_Ok in E as (e & Ee & E), E' as (e' & Ee' & E').
  assert (from_data e = {| mh_code := IDENTITY; mh_digest := e |}) as Hf.
  { unfold public_key_encode in Ee. rewrite Hl in Ee. destruct (pk_key_type pk); cbn in Ee; injection Ee as <-; unfold from_data;
      rewrite (proj2 (Z.leb_le _ _)) by (cbn [List.length]; unfold _IDENTITY_THRESHOLD; lia); done. }
  rewrite Hf in E. unfold multihash_encode in E, E'. cbn [mh_code mh_digest] in E.
  destruct (negb (Zlen e >? 127)); [|done]. destruct (negb (Zlen (mh_digest (from_data e')) >? 127)); [|done].
  apply bind_Ok in E as (h & Hh & E), E' as (h' & Hh' & E'). injection E as <-. injection E' as Eq.
  apply bytes_of_Ok in Hh as [_ Hh], Hh' as [_ Hh']. destruct h as [|h1 [|h2 [|]]]; try done. destruct h' as [|h1' [|h2' [|]]]; try done.
  injection Eq as -> -> Eq. cbn in Hh, Hh'. unfold from_data in Hh', Eq. destruct (Zlen e' <=? _IDENTITY_THRESHOLD).
  - cbn in Eq. subst e'. apply public_key_decodes in Ee, Ee'. congruence.
  - cbn in Hh'. injection Hh as Hh _. injection Hh' as Hh' _. rewrite Hh in Hh'. done.
Qed.

Section Proofs.
Context `{Secp256k1}.

Definition key_message (k : IdentityKeypair) : bytes := Byte.x08 :: Byte.x02 :: Byte.x12 :: Byte.x21 :: compressed (ik_public_key k).
Lemma key_message_encode k : public_key_encode {| pk_key_type := SECP256K1; pk_key_data := compressed (ik_public_key k) |} = Ok (key_message k).
Proof. unfold public_key_encode. cbn [pk_key_type pk_key_data]. by rewrite compressed_length. Qed.
Lemma key_message_length k : Zlen (key_message k) = 37.
Proof. pose proof (compressed_length (ik_public_key k)). unfold key_message. cbn [List.length]. lia. Qed.

Lemma to_peer_id_total k : exists p, to_peer_id k = Ok p.
Proof.
  unfold to_peer_id, from_public_key. rewrite key_message_encode. mcbn. unfold from_data, multihash_encode. rewrite key_message_length.
  cbn [Z.leb Z.compare _IDENTITY_THRESHOLD Pos.compare Pos.compare_cont mh_code mh_digest]. rewrite key_message_length. by eexists.
Qed.

(** The payload a key creates, and how its parts are read back *)
Lemma payload_parts k tls : exists payload e, _create_extension_payload k tls = Ok payload /\
  public_key_encode {| pk_key_type := SECP256K1; pk_key_data := compressed (ik_public_key k) |} = Ok e /\
  _decode_asn1_signed_key payload = Ok (e, sign k (SIGNATURE_PREFIX ++ tls)).
Proof.
  pose proof (key_message_length k) as Hk. unfold _create_extension_payload. rewrite compressed_length.
  change (bytes_of _) with (Ok [Byte.x08; Byte.x02; Byte.x12; Byte.x21] : result bytes). mcbn.
  change ([_; _; _; _] ++ _) with (key_message k).
  assert (exists payload, _encode_asn1_signed_key (key_message k) (sign k (SIGNATURE_PREFIX ++ tls)) = Ok payload) as [payload Ep];
    [|exists payload, (key_message k); split_and!; [done|apply key_message_encode|by apply signed_key_decodes]].
  assert (forall n, 0 <= n < 256 -> exists l, _encode_asn1_length n = Ok l /\ Zlen l <= 2) as Hlen.
  { intros n Hn. unfold _encode_asn1_length. rewrite (proj2 (Z.ltb_lt n 256)) by lia.
    destruct (n <? 128); (edestruct bytes_of_total as [l El]; [|exists l; split; [exact El|rewrite (bytes_of_length _ _ El); cbn; lia]]);
      repeat constructor; lia. }
  pose proof (signature_length (ik_private_key k) (SIGNATURE_PREFIX ++ tls)) as Hs. fold (sign k (SIGNATURE_PREFIX ++ tls)) in Hs.
  unfold _encode_asn1_signed_key, _encode_asn1_octet_string, _encode_asn1_sequence.
  destruct (Hlen (Zlen (key_message k))) as (l1 & E1 & H1); [lia|].
  destruct (Hlen (Zlen (sign k (SIGNATURE_PREFIX ++ tls)))) as (l2 & E2 & H2); [lia|]. rewrite E1. mcbn. rewrite E2. mcbn.
  edestruct Hlen as (l3 & E3 & _); [|rewrite E3; by eexists]. rewrite !length_app. cbn [List.length]. rewrite !length_app. cbn [List.length]. lia.
Qed.

(** ** Errors *)
Definition raises {A} (e : exn) (r : result A) : Prop := match r with Ok _ => True | Err e' => e' = e end.

Lemma raises_bind {A B} e (m : result A) (f : A -> result B) : raises e m -> (forall a, m = Ok a -> raises e (f a)) -> raises e (m ≫= f).
Proof. destruct m as [a|e']; cbn; auto. Qed.
Lemma raises_check {A} e (b : bool) (k : result A) : (b = true -> raises e k) -> raises e (check! b else e;; k).
Proof. by destruct b; cbn; auto. Qed.
Lemma raises_byte_at data i : 0 <= i < Zlen data -> raises QuicTransportError (byte_at data i).
Proof. intros Hi. by destruct (byte_at_total data i Hi) as (z & -> & _). Qed.
Lemma raises_varint data offset : 0 <= offset ->
  raises QuicTransportError (or_transport_error (decode_varint data offset VARINT_MAX_BYTES)).
Proof. intros Ho. by destruct (decode_varint_cases data offset VARINT_MAX_BYTES Ho ltac:(done)) as [(v & c & -> & _)| ->]. Qed.

Ltac raising_only := repeat match goal with
  | |- raises _ (check! _ else _;; _) => apply raises_check; intros ?
  | |- raises _ (byte_at _ _ ≫= _) => apply raises_bind; [apply raises_byte_at; bool_to_prop; lia|intros ? _]
  | |- raises _ (Ok _) => exact I
  | |- raises _ (Err _) => reflexivity
  | |- raises _ (let '(_, _) := ?x in _) => destruct x
  | |- raises _ (if ?b then _ else _) => destruct b
  end.

Lemma raises_length data offset : 0 <= offset -> raises QuicTransportError (_decode_asn1_length data offset).
Proof. intros Ho. unfold _decode_asn1_length. raising_only. Qed.
Lemma raises_tagged tag data offset : 0 <= offset -> raises QuicTransportError (decode_tagged tag data offset).
Proof.
  intros Ho. unfold decode_tagged. raising_only. apply raises_bind; [apply raises_length; lia|]. intros [length length_end] _. raising_only.
Qed.
Lemma tagged_end tag data offset content n : 0 <= offset -> decode_tagged tag data offset = Ok (content, n) -> 0 <= n.
Proof.
  unfold decode_tagged. intros Ho E. destruct (negb _); [|done]. apply bind_Ok in E as (f & _ & E). destruct (_ =? _); [|done].
  apply bind_Ok in E as ([l le] & El & E). destruct (negb _); [|done]. injection E as _ <-.
  unfold _decode_asn1_length in El. destruct (negb _); [|done]. apply bind_Ok in El as (b & Eb & El).
  assert (0 <= b) by (unfold byte_at in Eb; apply of_option_Ok in Eb; destruct (data !! _) as [x|]; [|done]; injection Eb as <-;
    apply byte.unsigned_range).
  destruct (b <? 0x80); [injection El as <- <-; lia|]. destruct (negb _); [|done]. destruct (negb _); [|done]. injection El as <- <-.
  pose proof (from_bytes_le_range (rev (slice data (offset + 1 + 1) (offset + 1 + 1 + Z.land b 127)))) as Hr. unfold from_bytes_be.
  assert (0 <= Z.land b 127) by (apply Z.land_nonneg; lia). lia.
Qed.
Lemma raises_signed_key data : raises QuicTransportError (_decode_asn1_signed_key data).
Proof.
  unfold _decode_asn1_signed_key, _decode_asn1_sequence, _decode_asn1_octet_string. apply raises_bind; [by apply raises_tagged|].
  intros [content n] _. raising_only. apply raises_bind; [by apply raises_tagged|]. intros [key m] Em.
  apply raises_bind; [by eapply raises_tagged, tagged_end; [|exact Em]|]. intros [signature k] _. raising_only.
Qed.
Lemma raises_public_key data : raises QuicTransportError (_decode_public_key_protobuf data).
Proof.
  unfold _decode_public_key_protobuf. raising_only. apply raises_bind; [by apply raises_varint|]. intros [kt n] En.
  assert (1 <= n).
  { destruct (decode_varint_cases data 1 VARINT_MAX_BYTES ltac:(lia) ltac:(done)) as [(v & c & Ec & _ & Hc & _)|Ec]; rewrite Ec in En; [|done].
    injection En as _ <-. lia. }
  raising_only. apply raises_bind; [apply raises_varint; lia|]. intros [dl m] _. raising_only. apply raises_bind; [|by intros].
  unfold KeyType_of. destruct (kt =? 0), (kt =? 1), (kt =? 2), (kt =? 3); exact I || reflexivity.
Qed.

Lemma from_public_key_total pk : Zlen (pk_key_data pk) <= 65 -> exists p, from_public_key pk = Ok p.
Proof.
  intros Hl. unfold from_public_key, public_key_encode.
  destruct (encode_varint_Ok (KeyType_value (pk_key_type pk)) VARINT_MAX_BYTES) as (tv & -> & _); [done|by destruct (pk_key_type pk)|].
  destruct (encode_varint_Ok (Zlen (pk_key_data pk)) VARINT_MAX_BYTES) as (dl & -> & _); [done|unfold VARINT_MAX_BYTES; lia|]. mcbn.
  match goal with |- context [from_data ?e] => set (encoded := e) end. unfold multihash_encode.
  assert (0 <= Zlen (mh_digest (from_data encoded)) <= 42) as Hd.
  { unfold from_data. destruct (Z.leb_spec (Zlen encoded) _IDENTITY_THRESHOLD) as [Hi|Hi]; cbn [mh_digest]; [unfold _IDENTITY_THRESHOLD in Hi; lia|].
    rewrite length_sha256. lia. }
  rewrite Z.gtb_ltb, (proj2 (Z.ltb_ge _ _)) by lia. cbn [negb].
  destruct (bytes_of_total [MultihashCode_value (mh_code (from_data encoded)); Zlen (mh_digest (from_data encoded))]) as [h ->]; [|by eexists].
  repeat constructor; [by destruct (mh_code _)..|lia|lia].
Qed.

(** Once the extensions are read *)
Lemma verify_raises certificate found :
  ct_libp2p certificate = Ok found -> raises QuicTransportError (verify_libp2p_certificate certificate).
Proof.
  intros Ef. unfold verify_libp2p_certificate. rewrite Ef. mcbn. destruct found as [[payload|]|]; [|done..].
  apply raises_bind; [apply raises_signed_key|]. intros [key signature] _. apply raises_bind; [apply raises_public_key|]. intros pk _.
  raising_only. destruct (from_encoded_point (pk_key_data pk)) as [q|e] eqn:Eq.
  - cbn [or_transport_error]. mcbn. raising_only. destruct (from_public_key_total pk) as [p ->]; [by eapply encoded_point_length|done].
  - by rewrite (encoded_point_error _ _ Eq).
Qed.
End Proofs.

(** C20: a certificate is a proof of identity.  The one that a node generates is verified for
    its own peer id.  Whoever presents a certificate that is verified for that id has, in
    it, a signature of its own TLS key under the node's identity key; and the id belongs to
    no other key.  A certificate whose extensions can be read is accepted or refused with
    [QuicTransportError], the one exception that the handshake handler catches; when reading
    them raises (an extension that occurs twice, a malformed one), that exception escapes. *)
Theorem certificate_proves_identity `{Secp256k1} (drawn : private_key) (tls_public_bytes : bytes) :
  exists peer certificate,
    to_peer_id (generate drawn) = Ok peer /\
    generate_libp2p_certificate (generate drawn) tls_public_bytes = Ok certificate /\
    ct_public_key certificate = tls_public_bytes /\ verify_libp2p_certificate certificate = Ok peer /\
    (forall other, verify_libp2p_certificate other = Ok peer ->
       exists payload key signature, ct_libp2p other = Ok (Some (UnrecognizedExtension payload)) /\
         _decode_asn1_signed_key payload = Ok (key, signature) /\
         ecdsa_verify (public_of drawn) (SIGNATURE_PREFIX ++ ct_public_key other) signature = true) /\
    (forall k, to_peer_id k = Ok peer -> ik_public_key k = public_of drawn) /\
    (forall other e, verify_libp2p_certificate other = Err e -> e = QuicTransportError \/ ct_libp2p other = Err e) /\
    (forall other e, ct_libp2p other = Err e -> verify_libp2p_certificate other = Err e).
Proof.
  set (k := generate drawn). destruct (to_peer_id_total k) as [peer Ep]. destruct (payload_parts k tls_public_bytes) as (payload & e & Ec & Ee & Ed).
  assert (ik_public_key k = public_of drawn) as Ek by done.
  exists peer, {| ct_public_key := tls_public_bytes; ct_libp2p := Ok (Some (UnrecognizedExtension payload)) |}.
  split_and!; [done|unfold generate_libp2p_certificate; by rewrite Ec|done|..].
  - unfold verify_libp2p_certificate. cbn [ct_libp2p ct_public_key]. mcbn. rewrite Ed. mcbn. rewrite (public_key_decodes _ _ Ee). mcbn.
    cbn [pk_key_type pk_key_data]. rewrite Z.eqb_refl, compressed_decodes. cbn [or_transport_error]. mcbn. rewrite Ek.
    unfold sign. cbn [ik_private_key k generate]. by rewrite sign_verifies.
  - intros other Eo. unfold verify_libp2p_certificate in Eo. destruct (ct_libp2p other) as [[[payload'|]|]|]; [|done..]. mcbn_in Eo.
    apply bind_Ok in Eo as ([key signature] & Es & Eo). apply bind_Ok in Eo as (pk & Epk & Eo). destruct (_ =? _); [|done].
    apply bind_Ok in Eo as (q & Eq & Eo). destruct (ecdsa_verify q _ signature) eqn:Ev; [|done].
    assert (pk = {| pk_key_type := SECP256K1; pk_key_data := compressed (ik_public_key k) |}) as -> by
      (eapply from_public_key_injective; [apply compressed_length|exact Ep|exact Eo]).
    cbn [pk_key_data] in Eq. rewrite compressed_decodes in Eq. injection Eq as <-. exists payload', key, signature. by rewrite <- Ek.
  - intros k' Ek'. assert (compressed (ik_public_key k') = compressed (ik_public_key k)) as Hc.
    { assert ({| pk_key_type := SECP256K1; pk_key_data := compressed (ik_public_key k') |} =
        {| pk_key_type := SECP256K1; pk_key_data := compressed (ik_public_key k) |}) as [= ->]; [|done].
      eapply from_public_key_injective; [apply compressed_length|exact Ep|exact Ek']. }
    pose proof (compressed_decodes (ik_public_key k')) as Hd. rewrite Hc, compressed_decodes in Hd. by injection Hd as <-.
  - intros other e' E'. destruct (ct_libp2p other) as [found|e1] eqn:Ef.
    + pose proof (verify_raises other found Ef) as Hr. rewrite E' in Hr. by left.
    + unfold verify_libp2p_certificate in E'. rewrite Ef in E'. injection E' as ->. by right.
  - intros other e' Ef. unfold verify_libp2p_certificate. by rewrite Ef.
Qed.

(** The ECDSA key of the libp2p test vectors, whose encoding is hashed *)
Example ecdsa_peer_id :
  let key := 0x3059301306072a8648ce3d020106082a8648ce3d03010703420004de3d300fa36ae0e8f5d530899d83abab44abf3161f162a4bc901d8e6ecda020e8b6d5f8da30525e71d6851510c098e5c47c646a597fb4dcec034e9f77c409e62 in
  (key_data ← to_bytes_be 91 key;
   peer ← from_public_key {| pk_key_type := ECDSA; pk_key_data := key_data |};
   Ok (peer_id_str peer)) = Ok (str "QmVMT29id3TUASyfZZ6k9hmNyc2nYabCo4uMSpDw4zrgDk").
Proof. vm_compute. reflexivity. Qed.
Example base58_samples :
  base58_encode [Byte.x00; Byte.x00; Byte.x01] = str "112" /\
  base58_decode (str "0") = Err ValueError.
Proof. split; vm_compute; reflexivity. Qed.

(** A stand-in for the curve: a key is a byte and signs with itself. *)
Definition sample_point (data : bytes) : result Byte.byte :=
  match data with
  | k :: rest => if bool_decide (rest = repeat Byte.x00 32) then Ok k else Err ValueError
  | [] => Err ValueError
  end.
#[local] Instance sample_curve : Secp256k1.
Proof.
  refine {| point := Byte.byte; private_key := Byte.byte; from_encoded_point := sample_point;
            compressed k := k :: repeat Byte.x00 32; ecdsa_verify k _ signature := bool_decide (signature = [k]);
            public_of k := k; ecdsa_sign k _ := [k] |}.
  - intros k. reflexivity.
  - intros k. reflexivity.
  - intros [|k data] e; cbn; [by intros [= <-]|]. case_bool_decide; [done|]. by intros [= <-].
  - intros [|k data] p; cbn [sample_point]; [done|]. case_bool_decide as Hd; [|done]. intros _. rewrite Hd. cbn. lia.
  - intros k message. cbn. lia.
  - intros k message. by apply bool_decide_eq_true.
Defined.

Lemma certificate_proves_identity_witness : exists peer certificate,
  to_peer_id (@generate sample_curve Byte.x07) = Ok peer /\
  generate_libp2p_certificate (@generate sample_curve Byte.x07) [Byte.x01; Byte.x02] = Ok certificate /\
  verify_libp2p_certificate certificate = Ok peer /\
  verify_libp2p_certificate {| ct_public_key := [Byte.x01; Byte.x02]; ct_libp2p := Err DuplicateExtension |} = Err DuplicateExtension.
Proof.
  destruct (@certificate_proves_identity sample_curve Byte.x07 [Byte.x01; Byte.x02])
    as (peer & certificate & Hp & Hg & _ & Hv & _ & _ & _ & Hraise).
  exists peer, certificate. split; [exact Hp|]. split; [exact Hg|]. split; [exact Hv|]. by apply Hraise.
Defined.
