(* ===== verification/Merkle.v ===== *)
(** * Merkleization and hash-tree-root dispatch (spec/crypto/merkleization.py)

    [merkleize] walks a tree layer by layer and pulls missing right siblings from
    a cache of zero subtrees; the reference [tree_root] hashes the fully padded
    leaves of a perfect tree, top down.  [hash_tree_root] dispatches on the class
    of the value, as the source's [singledispatch] function does. *)

From S2P Require Import Prelude Uint Ssz SszCorrect Sha256.

Definition BYTES_PER_CHUNK : Z := 32.
Definition BITS_PER_CHUNK : Z := BYTES_PER_CHUNK * 8.

(** [math.ceil(a / b)] of two non-negative integers whose quotient a float holds *)
Definition ceil_div (a b : Z) : Z := (a + b - 1) / b.

Definition _next_pow2 (x : Z) : Z :=
  if x <=? 1 then 1 else Z.shiftl 1 (bit_length (x - 1)).

(** [accumulate(repeat(None, n), hash, initial=h)] *)
Fixpoint zero_hashes_from (n : nat) (h : Bytes32) : list Bytes32 :=
  match n with
  | O => [h]
  | S n => h :: zero_hashes_from n (sha256 (h ++ h))
  end.
(** Evaluated once, as the module-level constant of the source is. *)
Definition _ZERO_HASHES : list Bytes32 := Eval vm_compute in zero_hashes_from 64 ZERO_HASH.

Definition _zero_tree_root (width : Z) : result Bytes32 :=
  if width <=? 1 then Ok ZERO_HASH
  else
    let depth := bit_length (width - 1) in
    of_option IndexError (_ZERO_HASHES !! Z.to_nat depth).

(** One layer: the [for child_pair in batched(level, 2)] loop. *)
Fixpoint merkle_layer (subtree_size : Z) (level : list Bytes32) : result (list Bytes32) :=
  match level with
  | l :: r :: tl =>
      next_level ← merkle_layer subtree_size tl;
      Ok (sha256 (l ++ r) :: next_level)
  | [l] => r ← _zero_tree_root subtree_size; Ok [sha256 (l ++ r)]
  | [] => Ok []
  end.

(** The [while subtree_size < width] loop runs [log2 width] times. *)
Definition merkleize (chunks : list Bytes32) (limit : option Z) : result Bytes32 :=
  let chunk_count := Zlen chunks in
  if chunk_count =? 0 then
    match limit with
    | Some limit => _zero_tree_root (_next_pow2 limit)
    | None => Ok ZERO_HASH
    end
  else
    width ←
      match limit with
      | None => Ok (_next_pow2 chunk_count)
      | Some limit =>
          if limit <? chunk_count then Err ValueError else Ok (_next_pow2 limit)
      end;
    if width =? 1 then of_option IndexError (head chunks)
    else
      '(level, _) ←
        while (Z.to_nat (bit_length width))
          (fun '(_, subtree_size) => subtree_size <? width)
          (fun '(level, subtree_size) =>
             next_level ← merkle_layer subtree_size level;
             Ok (next_level, subtree_size * 2))
          (chunks, 1);
      check! Zlen level =? 1 else AssertionError;;
      of_option IndexError (head level).

Definition mix_in_length (root : Bytes32) (length : Z) : result Bytes32 :=
  check! 0 <=? length else ValueError;;
  l ← to_bytes_le 32 length;
  Ok (sha256 (root ++ l)).

(** [data[i : i + 32].ljust(32, b"\x00")] for [i] in [range(0, len(data), 32)] *)
Fixpoint pack_chunks (n : nat) (data : bytes) : list Bytes32 :=
  match n with
  | O => []
  | S n =>
      let chunk := take 32 data in
      (chunk ++ repeat Byte.x00 (32 - length chunk)) :: pack_chunks n (drop 32 data)
  end.
Definition _pack_bytes (data : bytes) : list Bytes32 :=
  pack_chunks (Z.to_nat (ceil_div (Zlen data) BYTES_PER_CHUNK)) data.

Definition _pack_bits (bits : list bool) : result (list Bytes32) :=
  bs ← to_bytes_le (ceil_div (Zlen bits) 8) (packed_bits bits);
  Ok (_pack_bytes bs).

(** [issubclass(element_type, (BaseUint, Boolean, Fp))] *)
Definition is_basic (t : ssz_type) : bool :=
  match t with TUint _ | TBoolean | TFp => true | _ => false end.

(** Serialized basic elements in one byte stream. *)
Definition pack_basic (t : ssz_type) (vs : list ssz_value) : result (list Bytes32) :=
  parts ← mapM (encode_bytes (class_of t)) vs;
  Ok (_pack_bytes (mjoin parts)).

Definition element_limit (t : ssz_type) (n : Z) : result Z :=
  element_size ← get_byte_length (class_of t);
  Ok (ceil_div (n * element_size) BYTES_PER_CHUNK).

(** [[hash_tree_root(getattr(value, name)) for name in cls.model_fields]] *)
Fixpoint hash_fields (handlers : list (ssz_value -> result Bytes32)) (vs : list ssz_value)
    : result (list Bytes32) :=
  match handlers, vs with
  | [], [] => Ok []
  | handler :: handlers, v :: vs =>
      root ← handler v; roots ← hash_fields handlers vs; Ok (root :: roots)
  | _, _ => Err TypeError
  end.

Fixpoint hash_tree_root_value (t : ssz_type) (v : ssz_value) : result Bytes32 :=
  match t, v with
  | TUint _, _ | TBoolean, _ | TFp, _ | TBytes _, _ =>
      bs ← encode_bytes (class_of t) v; merkleize (_pack_bytes bs) None
  | TByteList LIMIT, _ =>
      serialized_bytes ← encode_bytes (class_of t) v;
      let limit_chunks := ceil_div LIMIT BYTES_PER_CHUNK in
      root ← merkleize (_pack_bytes serialized_bytes) (Some limit_chunks);
      mix_in_length root (Zlen serialized_bytes)
  | TBitvector LENGTH, VBitvector data =>
      chunks ← _pack_bits data;
      merkleize chunks (Some (ceil_div LENGTH BITS_PER_CHUNK))
  | TBitlist LIMIT, VBitlist data =>
      chunks ← _pack_bits data;
      root ← merkleize chunks (Some (ceil_div LIMIT BITS_PER_CHUNK));
      mix_in_length root (Zlen data)
  | TVector element_type LENGTH, VVector vs =>
      if is_basic element_type then
        limit_chunks ← element_limit element_type LENGTH;
        chunks ← pack_basic element_type vs;
        merkleize chunks (Some limit_chunks)
      else
        leaves ← mapM (hash_tree_root_value element_type) vs;
        merkleize leaves (Some LENGTH)
  | TList element_type LIMIT, VList vs =>
      root ←
        (if is_basic element_type then
           limit_chunks ← element_limit element_type LIMIT;
           chunks ← pack_basic element_type vs;
           merkleize chunks (Some limit_chunks)
         else
           leaves ← mapM (hash_tree_root_value element_type) vs;
           merkleize leaves (Some LIMIT));
      mix_in_length root (Zlen vs)
  | TContainer model_fields, VContainer vs =>
      leaves ← hash_fields (map hash_tree_root_value model_fields) vs;
      merkleize leaves None
  | _, _ => Err TypeError
  end.

(** ** The reference: a perfect tree over padded leaves *)
#[global] Opaque sha256.

(** Root of the perfect tree of depth [d] over its first [2 ^ d] leaves. *)
Fixpoint tree_root (d : nat) (leaves : list Bytes32) : Bytes32 :=
  match d with
  | O => default ZERO_HASH (head leaves)
  | S d =>
      sha256 (tree_root d (take (2 ^ d) leaves) ++ tree_root d (drop (2 ^ d) leaves))
  end.

(** Depth of the smallest perfect tree with at least [n] leaves. *)
Definition tree_depth (n : Z) : nat := Z.to_nat (Z.log2_up n).

Definition padded (d : nat) (z : Bytes32) (level : list Bytes32) : list Bytes32 :=
  level ++ repeat z (2 ^ d - length level).

(** Root of the all-zero tree of depth [d]. *)
Definition zero_root (d : nat) : Bytes32 := Nat.iter d (fun h => sha256 (h ++ h)) ZERO_HASH.

(** Parents of a layer with an even number of nodes. *)
Fixpoint parents (level : list Bytes32) : list Bytes32 :=
  match level with
  | l :: r :: tl => sha256 (l ++ r) :: parents tl
  | _ => []
  end.

Lemma list_pair_ind {A} (Q : list A -> Prop) :
  Q [] -> (forall x, Q [x]) -> (forall x y l, Q l -> Q (x :: y :: l)) -> forall l, Q l.
Proof.
  intros H0 H1 H2. assert (forall l, Q l /\ forall x, Q (x :: l)) as H.
  { induction l as [|y l [IH1 IH2]]; auto. }
  apply H.
Qed.

Lemma parents_take n l : parents (take (2 * n) l) = take n (parents l).
Proof.
  revert n. induction l as [|x|x y l IH] using list_pair_ind; intros [|n];
    rewrite ?Nat.mul_succ_r, ?(Nat.add_comm _ 2); cbn [take parents Nat.add];
    rewrite ?take_nil; try done.
  f_equal. apply IH.
Qed.

Lemma parents_drop n l : parents (drop (2 * n) l) = drop n (parents l).
Proof.
  revert n. induction l as [|x|x y l IH] using list_pair_ind; intros [|n];
    rewrite ?Nat.mul_succ_r, ?(Nat.add_comm _ 2); cbn [drop parents Nat.add];
    rewrite ?drop_nil; try done.
Qed.

(** Bottom-up: the root over [2 ^ (S d)] leaves is the root over their parents. *)
Lemma tree_root_parents d l :
  length l = (2 ^ S d)%nat -> tree_root (S d) l = tree_root d (parents l).
Proof.
  revert l. induction d as [|d IH]; intros l Hl.
  - by destruct l as [|x [|y [|]]].
  - rewrite Nat.pow_succ_r' in Hl.
    change (tree_root (S (S d)) l) with
      (sha256 (tree_root (S d) (take (2 ^ S d) l) ++ tree_root (S d) (drop (2 ^ S d) l))).
    rewrite !IH by (rewrite ?length_take, ?length_drop; lia).
    rewrite Nat.pow_succ_r'. rewrite parents_take, parents_drop. reflexivity.
Qed.

Lemma parents_repeat n z : parents (repeat z (2 * n)) = repeat (sha256 (z ++ z)) n.
Proof.
  induction n as [|n IH]; [done|]. rewrite Nat.mul_succ_r, Nat.add_comm. simpl. by f_equal.
Qed.

Lemma zero_hashes_lookup n h k :
  (k <= n)%nat ->
  zero_hashes_from n h !! k = Some (Nat.iter k (fun h => sha256 (h ++ h)) h).
Proof.
  revert h k. induction n as [|n IH]; intros h [|k] Hk; simpl; try done; [lia|].
  rewrite IH by lia. f_equal. clear. induction k as [|k IHk]; [done|]. simpl. by rewrite IHk.
Qed.

Lemma ZERO_HASHES_eq : _ZERO_HASHES = zero_hashes_from 64 ZERO_HASH.
Proof. vm_compute. reflexivity. Qed.

Lemma bit_length_pow2 d : (0 < d)%nat -> bit_length (2 ^ Z.of_nat d - 1) = Z.of_nat d.
Proof.
  intros Hd. pose proof (Z.pow_pos_nonneg 2 (Z.of_nat d - 1)).
  assert (2 ^ Z.of_nat d = 2 * 2 ^ (Z.of_nat d - 1)) as E.
  { rewrite <- Z.pow_succ_r by lia. f_equal. lia. }
  rewrite <- (Z.sub_add 1 (Z.of_nat d)) at 2.
  rewrite <- (bit_length_spec (2 ^ Z.of_nat d - 1) (Z.of_nat d - 1)) by
    (rewrite ?Z.sub_add; lia). lia.
Qed.

Lemma zero_tree_root_pow2 d :
  (d <= 64)%nat -> _zero_tree_root (2 ^ Z.of_nat d) = Ok (zero_root d).
Proof.
  intros Hd. unfold _zero_tree_root. destruct d as [|d]; [done|].
  pose proof (Z.pow_gt_1 2 (Z.of_nat (S d))).
  rewrite (proj2 (Z.leb_gt _ _)), bit_length_pow2 by lia.
  rewrite ZERO_HASHES_eq, Nat2Z.id, zero_hashes_lookup by lia. done.
Qed.

Lemma next_pow2_log2_up n : 0 <= n -> _next_pow2 n = 2 ^ Z.of_nat (tree_depth n).
Proof.
  intros Hn. unfold _next_pow2, tree_depth. destruct (Z.leb_spec n 1).
  - by rewrite Z.log2_up_eqn0 by lia.
  - rewrite Z2Nat.id by apply Z.log2_up_nonneg.
    rewrite Z.log2_up_eqn by lia. unfold bit_length.
    destruct (Z.eqb_spec (n - 1) 0); [lia|].
    rewrite Z.shiftl_mul_pow2, Z.mul_1_l, <- Z.sub_1_r; [done|].
    pose proof (Z.log2_nonneg (n - 1)). lia.
Qed.

(** One iteration of the loop computes the parents of the padded layer. *)
Lemma merkle_layer_parents k d level :
  (k <= 64)%nat -> (length level <= 2 ^ S d)%nat ->
  exists next,
    merkle_layer (2 ^ Z.of_nat k) level = Ok next /\
    padded d (zero_root (S k)) next = parents (padded (S d) (zero_root k) level) /\
    length next = ((length level + 1) / 2)%nat.
Proof.
  intros Hk. unfold padded. rewrite Nat.pow_succ_r'. generalize (2 ^ d)%nat as w. intros w.
  revert w. induction level as [|x|x y l IH] using list_pair_ind; intros w Hl.
  - exists []. split; [done|]. simpl length. split; [|done].
    rewrite !Nat.sub_0_r. symmetry. apply parents_repeat.
  - cbn [merkle_layer]. rewrite zero_tree_root_pow2 by done. mcbn.
    eexists. split; [done|]. simpl in Hl. destruct w as [|w]; [lia|]. split; [|done].
    cbn [length app]. replace (2 * S w - 1)%nat with (S (2 * w)) by lia.
    cbn [repeat parents app]. rewrite parents_repeat. by rewrite Nat.sub_succ, Nat.sub_0_r.
  - simpl in Hl. destruct w as [|w]; [lia|].
    destruct (IH w ltac:(lia)) as (next & E & Hp & Hn).
    cbn [merkle_layer]. rewrite E. mcbn. eexists. split; [done|]. split.
    + cbn [length app]. replace (2 * S w - S (S (length l)))%nat with (2 * w - length l)%nat by lia.
      cbn [parents app]. rewrite Nat.sub_succ. by rewrite Hp.
    + cbn [length]. rewrite Hn.
      replace (S (S (length l)) + 1)%nat with (length l + 1 + 1 * 2)%nat by lia.
      rewrite Nat.div_add by lia. lia.
Qed.

(** The loop runs from layer [k] of a tree of depth [k + d] to its root. *)
Lemma merkle_loop_root fuel k d level :
  (k + d <= 64)%nat -> (d <= fuel)%nat -> (0 < length level <= 2 ^ d)%nat ->
  exists root,
    while fuel (fun '(_, size) => size <? 2 ^ Z.of_nat (k + d))
      (fun '(level, size) => next ← merkle_layer size level; Ok (next, size * 2))
      (level, 2 ^ Z.of_nat k) = Ok ([root], 2 ^ Z.of_nat (k + d)) /\
    root = tree_root d (padded d (zero_root k) level).
Proof.
  revert fuel k level. induction d as [|d IH]; intros fuel k level Hk Hf Hl.
  - destruct level as [|x [|]]; simpl in Hl; try lia. exists x. split; [|done].
    rewrite Nat.add_0_r. by destruct fuel; simpl; rewrite Z.ltb_irrefl.
  - destruct fuel as [|fuel]; [lia|].
    destruct (merkle_layer_parents k d level) as (next & E & Hp & Hn); [lia..|].
    assert (0 < length next <= 2 ^ d)%nat as Hn'.
    { rewrite Hn. rewrite Nat.pow_succ_r' in Hl.
      pose proof (Nat.div_mod_eq (length level + 1) 2).
      pose proof (Nat.mod_upper_bound (length level + 1) 2). lia. }
    destruct (IH fuel (S k) next) as (root & Ew & ->); [lia..|]. eexists. split.
    + cbn [while]. rewrite (proj2 (Z.ltb_lt _ _)) by (apply Z.pow_lt_mono_r; lia).
      rewrite E. mcbn. replace (k + S d)%nat with (S k + d)%nat by lia.
      replace (2 ^ Z.of_nat k * 2) with (2 ^ Z.of_nat (S k)); [exact Ew|].
      rewrite Nat2Z.inj_succ, Z.pow_succ_r; lia.
    + rewrite Hp. symmetry. apply tree_root_parents. unfold padded.
      rewrite length_app, repeat_length. lia.
Qed.

Lemma tree_root_zeros d z :
  tree_root d (repeat z (2 ^ d)) = Nat.iter d (fun h => sha256 (h ++ h)) z.
Proof.
  revert z. induction d as [|d IH]; intros z; [done|].
  rewrite tree_root_parents by apply repeat_length.
  rewrite Nat.pow_succ_r', parents_repeat, IH.
  clear. induction d as [|d IHd]; [done|]. simpl. by rewrite IHd.
Qed.

Lemma tree_depth_width n : 0 <= n -> n <= 2 ^ Z.of_nat (tree_depth n).
Proof.
  intros Hn. unfold tree_depth. rewrite Z2Nat.id by apply Z.log2_up_nonneg.
  destruct (Z.le_gt_cases n 1) as [H|H]; [by rewrite Z.log2_up_eqn0 by lia|].
  apply Z.log2_up_spec. lia.
Qed.

Lemma tree_depth_bound n : n <= 2 ^ 64 -> (tree_depth n <= 64)%nat.
Proof.
  intros Hn. unfold tree_depth. apply Z.log2_up_le_mono in Hn.
  rewrite Z.log2_up_pow2 in Hn by lia. lia.
Qed.

Lemma Zlen_0 {A} (l : list A) : (Zlen l =? 0) = true <-> l = [].
Proof. destruct l; simpl; split; (done || intros; lia). Qed.

Lemma merkleize_nonempty chunks n :
  chunks <> [] -> Zlen chunks <= n <= 2 ^ 64 ->
  merkleize chunks (Some n) = Ok (tree_root (tree_depth n) (padded (tree_depth n) ZERO_HASH chunks)).
Proof.
  intros Hne [Hn1 Hn2]. pose proof (tree_depth_width n ltac:(lia)) as Hw.
  pose proof (tree_depth_bound n Hn2) as Hd. unfold merkleize.
  destruct (Zlen chunks =? 0) eqn:E0; [by apply Zlen_0 in E0|].
  rewrite (proj2 (Z.ltb_ge _ _)) by lia. mcbn. rewrite next_pow2_log2_up by lia.
  assert (2 ^ Z.of_nat (tree_depth n) = Z.of_nat (2 ^ tree_depth n)) as Epow
    by (rewrite Nat2Z.inj_pow; done).
  destruct (tree_depth n) as [|d] eqn:Ed.
  - destruct chunks as [|x [|]]; [done| |simpl in Hn1, Hw; lia]. done.
  - pose proof (Z.pow_gt_1 2 (Z.of_nat (S d))) as Hgt.
    destruct (Z.eqb_spec (2 ^ Z.of_nat (S d)) 1) as [Hx|_]; [lia|].
    destruct (merkle_loop_root (Z.to_nat (bit_length (2 ^ Z.of_nat (S d)))) 0 (S d) chunks)
      as (root & Ew & ->); [lia| | |].
    + unfold bit_length. destruct (Z.eqb_spec (2 ^ Z.of_nat (S d)) 0); [lia|].
      rewrite Z.log2_pow2 by lia. lia.
    + destruct chunks; [done|]. simpl length in *. lia.
    + change (2 ^ Z.of_nat 0) with 1 in Ew. rewrite Nat.add_0_l in Ew. rewrite Ew. mcbn. done.
Qed.

Lemma merkleize_no_limit chunks :
  chunks <> [] -> merkleize chunks None = merkleize chunks (Some (Zlen chunks)).
Proof.
  intros Hne. unfold merkleize. rewrite Z.ltb_irrefl.
  destruct (Zlen chunks =? 0) eqn:E; [by apply Zlen_0 in E | done].
Qed.

Lemma merkleize_padded chunks limit :
  Zlen chunks <= default (Zlen chunks) limit <= 2 ^ 64 ->
  merkleize chunks limit =
    let d := tree_depth (default (Zlen chunks) limit) in
    Ok (tree_root d (padded d ZERO_HASH chunks)).
Proof.
  intros Hn. destruct chunks as [|c chunks].
  - destruct limit as [n|]; [|done]. simpl in Hn. unfold padded. cbv zeta. cbn [default app length].
    change (merkleize [] (Some n)) with (_zero_tree_root (_next_pow2 n)).
    pose proof (tree_depth_bound n ltac:(lia)).
    rewrite next_pow2_log2_up, zero_tree_root_pow2, Nat.sub_0_r, tree_root_zeros by lia. done.
  - destruct limit as [n|].
    + by apply merkleize_nonempty.
    + rewrite merkleize_no_limit by done.
      by apply (merkleize_nonempty (c :: chunks) (Zlen (c :: chunks))).
Qed.

(** Merkleization with cached zero subtrees is the root of the perfect tree
    over the chunks padded with zero chunks to the next power of two of the
    limit (or of the chunk count when there is none), and exceeding the limit
    raises a value error. *)
Theorem merkleize_is_padded_tree_root (chunks : list Bytes32) (limit : option Z) :
  default (Zlen chunks) limit <= 2 ^ 64 -> chunks <> [] \/ 0 <= default 0 limit ->
  merkleize chunks limit =
    if Zlen chunks <=? default (Zlen chunks) limit then
      let d := tree_depth (default (Zlen chunks) limit) in
      Ok (tree_root d (chunks ++ repeat ZERO_HASH (2 ^ d - length chunks)))
    else Err ValueError.
Proof.
  intros Hn Hpos. destruct (Z.leb_spec (Zlen chunks) (default (Zlen chunks) limit)).
  - by apply merkleize_padded.
  - destruct limit as [n|]; simpl in *; [|lia]. destruct Hpos as [Hpos|]; [|].
    + unfold merkleize. destruct (Zlen chunks =? 0) eqn:E0; [by apply Zlen_0 in E0|].
      by rewrite (proj2 (Z.ltb_lt _ _)) by lia.
    + destruct chunks; simpl in *; [lia|].
      unfold merkleize. by rewrite (proj2 (Z.ltb_lt _ _)) by (simpl; lia).
Qed.

Lemma merkleize_is_padded_tree_root_witness :
  merkleize [ZERO_HASH; sha256 []; sha256 [Byte.x01]] (Some 6) =
    Ok (tree_root 3 ([ZERO_HASH; sha256 []; sha256 [Byte.x01]] ++ repeat ZERO_HASH 5)).
Proof.
  apply (merkleize_is_padded_tree_root [ZERO_HASH; sha256 []; sha256 [Byte.x01]] (Some 6)).
  - simpl. lia.
  - by left.
Defined.

(** ** Totality of [hash_tree_root] *)
Definition is_chunk (c : bytes) : Prop := length c = 32%nat.

Lemma tree_root_chunk d l : Forall is_chunk l -> is_chunk (tree_root d l).
Proof.
  destruct d as [|d]; intros Hl; [|apply length_sha256].
  by destruct Hl.
Qed.

Lemma merkleize_chunk chunks limit :
  Forall is_chunk chunks -> Zlen chunks <= default (Zlen chunks) limit <= 2 ^ 64 ->
  exists root, merkleize chunks limit = Ok root /\ is_chunk root.
Proof.
  intros Hc Hn. eexists. split; [by apply merkleize_padded|].
  apply tree_root_chunk, Forall_app. split; [done|].
  apply Forall_forall. intros c Hin%list_elem_of_In%repeat_spec. by subst.
Qed.

Lemma pack_chunks_chunk n data : Forall is_chunk (pack_chunks n data).
Proof.
  revert data. induction n as [|n IH]; intros data; constructor; [|apply IH].
  unfold is_chunk. rewrite length_app, repeat_length, length_take. lia.
Qed.

Lemma length_pack_chunks n data : length (pack_chunks n data) = n.
Proof. revert data. induction n as [|n IH]; intros data; simpl; auto. Qed.

Lemma Zlen_pack_bytes data : Zlen (_pack_bytes data) = ceil_div (Zlen data) 32.
Proof.
  unfold _pack_bytes, ceil_div, BYTES_PER_CHUNK. rewrite length_pack_chunks.
  assert (0 <= (Zlen data + 32 - 1) / 32) by (apply Z.div_pos; lia). lia.
Qed.

Lemma ceil_div_mono a b c : 0 < c -> a <= b -> ceil_div a c <= ceil_div b c.
Proof. intros. apply Z.div_le_mono; lia. Qed.

Lemma ceil_div_le a b : 0 < b -> 0 <= a -> 0 <= ceil_div a b <= a.
Proof.
  intros. unfold ceil_div. split; [apply Z.div_pos; lia|].
  destruct (Z.eq_dec a 0) as [->|]; [by rewrite Z.div_small by lia|].
  apply Z.lt_succ_r, Z.div_lt_upper_bound; nia.
Qed.

Lemma mix_in_length_chunk root n :
  0 <= n < 2 ^ 256 -> exists r, mix_in_length root n = Ok r /\ is_chunk r.
Proof.
  intros Hn. unfold mix_in_length. rewrite (proj2 (Z.leb_le _ _)) by lia.
  rewrite (proj2 (to_bytes_le_Ok 32 n _) (conj Hn eq_refl)). mcbn.
  eexists. split; [done|]. apply length_sha256.
Qed.

(** Declarations whose trees fit the depth of the zero-hash cache. *)
Definition small_limit (n : Z) : Prop := 0 <= n <= 2 ^ 48.
Fixpoint small_type (t : ssz_type) : Prop :=
  match t with
  | TUint bits => 0 <= bits <= 256
  | TBoolean | TFp => True
  | TBytes n | TByteList n | TBitvector n | TBitlist n => small_limit n
  | TVector t n | TList t n => small_type t /\ small_limit n
  | TContainer ts => small_limit (Zlen ts) /\ foldr (fun t acc => small_type t /\ acc) True ts
  end.

Lemma basic_encode t v :
  is_basic t = true -> wf_type t -> well_typed (class_of t) v = true ->
  exists bs, encode_bytes (class_of t) v = Ok bs /\ Zlen bs = fixed_byte_length (class_of t).
Proof.
  intros Hb Hw Hv. destruct t; try done; simpl in Hw.
  - apply uint_well_typed in Hv as (z & -> & Hz).
    destruct (uint_encode_total _ _ Hw Hz) as [bs E]. exists bs. split; [exact E|].
    apply (ok_width _ (uint_class_ok _ Hw) (VUint z)); [done| |exact E].
    apply uint_well_typed. eauto.
  - destruct v; try done. eexists. split; [done|]. by destruct b.
  - apply fp_well_typed in Hv as (z & -> & Hz).
    eexists. split; [apply to_bytes_le_Ok; split; [by apply fp_range_bytes|done]|done].
Qed.

Lemma pack_basic_chunks t vs n :
  is_basic t = true -> wf_type t -> small_type t -> small_limit n ->
  forallb (well_typed (class_of t)) vs = true -> Zlen vs <= n ->
  exists chunks lim, pack_basic t vs = Ok chunks /\ element_limit t n = Ok lim /\
    Forall is_chunk chunks /\ Zlen chunks <= lim <= 2 ^ 64.
Proof.
  intros Hb Hw Hs Hl Hvs Hn.
  assert (0 <= fixed_byte_length (class_of t) <= 32) as Hf.
  { destruct t; try done; simpl in *; unfold uint_byte_length, P_BYTES; [|lia..].
    split; [apply Z.div_pos; lia|]. apply Z.div_le_upper_bound; lia. }
  assert (exists parts, mapM (encode_bytes (class_of t)) vs = Ok parts /\
    Zlen (mjoin parts) = Zlen vs * fixed_byte_length (class_of t)) as (parts & E & Hp).
  { clear Hn. induction vs as [|v vs IH]; [by exists []|]. simpl in Hvs. bool_to_prop.
    destruct IH as (parts & E & Hp); [done|].
    destruct (basic_encode t v) as (bs & Ev & Hbs); [done..|].
    exists (bs :: parts). simpl mapM. rewrite Ev. mcbn. rewrite E. split; [done|].
    rewrite mjoin_cons, length_app. simpl length. lia. }
  unfold pack_basic, element_limit, get_byte_length, BYTES_PER_CHUNK. rewrite E. mcbn.
  replace (is_fixed_size (class_of t)) with true by (by destruct t). mcbn.
  eexists _, _. split; [done|]. split; [done|]. split; [apply pack_chunks_chunk|].
  rewrite Zlen_pack_bytes, Hp. unfold small_limit in Hl. split.
  - apply ceil_div_mono; nia.
  - destruct (ceil_div_le (n * fixed_byte_length (class_of t)) 32); [lia|nia|].
    assert (n * fixed_byte_length (class_of t) <= 2 ^ 48 * 32) by nia. lia.
Qed.

Lemma pack_bits_chunks bits n :
  Zlen bits <= n -> small_limit n ->
  exists chunks, _pack_bits bits = Ok chunks /\ Forall is_chunk chunks /\
    Zlen chunks <= ceil_div n BITS_PER_CHUNK <= 2 ^ 64.
Proof.
  intros Hn Hl. unfold _pack_bits, small_limit, BITS_PER_CHUNK, BYTES_PER_CHUNK in *.
  pose proof (packed_bits_range bits) as Hr.
  assert (Zlen bits <= 8 * ceil_div (Zlen bits) 8 <= Zlen bits + 7) as Hc
    by (unfold ceil_div; div_lia).
  assert (0 <= packed_bits bits < 2 ^ (8 * ceil_div (Zlen bits) 8)) as Hr'.
  { split; [lia|]. eapply Z.lt_le_trans; [apply Hr|]. apply Z.pow_le_mono_r; lia. }
  rewrite (proj2 (to_bytes_le_Ok _ _ _) (conj Hr' eq_refl)). mcbn.
  eexists. split; [done|]. split; [apply pack_chunks_chunk|].
  rewrite Zlen_pack_bytes, length_le_split, Z2Nat.id by lia. unfold ceil_div in *. div_lia.
Qed.

Lemma mapM_chunks {A} (f : A -> result Bytes32) vs :
  Forall (fun v => exists r, f v = Ok r /\ is_chunk r) vs ->
  exists leaves, mapM f vs = Ok leaves /\ Forall is_chunk leaves /\ length leaves = length vs.
Proof.
  induction 1 as [|v vs (r & E & Hr) _ (l & El & Hl & Hlen)]; [by exists []|].
  exists (r :: l). simpl mapM. rewrite E. mcbn. rewrite El. repeat split; auto. simpl. lia.
Qed.

(** The handlers of one class, for elements that hash without failing. *)
Definition hashes (t : ssz_type) (v : ssz_value) : Prop :=
  exists root, hash_tree_root_value t v = Ok root /\ is_chunk root.

Lemma packed_leaf_chunk (bs : bytes) :
  Zlen bs <= 2 ^ 48 -> exists root, merkleize (_pack_bytes bs) None = Ok root /\ is_chunk root.
Proof.
  intros Hbs. apply merkleize_chunk; [apply pack_chunks_chunk|].
  simpl default. rewrite Zlen_pack_bytes. destruct (ceil_div_le (Zlen bs) 32); lia.
Qed.

Lemma basic_hashes t v :
  is_basic t = true -> wf_type t -> small_type t -> well_typed (class_of t) v = true -> hashes t v.
Proof.
  intros Hb Hw Hs Hv. destruct (basic_encode t v Hb Hw Hv) as (bs & E & Hbs).
  assert (exists root, merkleize (_pack_bytes bs) None = Ok root /\ is_chunk root) as H.
  { apply packed_leaf_chunk. rewrite Hbs. clear -Hb Hs.
    destruct t; try done; simpl in *; unfold uint_byte_length, P_BYTES; try lia.
    apply Z.div_le_upper_bound; lia. }
  unfold hashes. destruct t; try done; cbn [hash_tree_root_value]; by rewrite E.
Qed.

Lemma bytelist_hashes n bs :
  small_limit n -> Zlen bs <= n -> hashes (TByteList n) (VByteList bs).
Proof.
  unfold small_limit, hashes. intros Hs Hn. simpl.
  destruct (merkleize_chunk (_pack_bytes bs) (Some (ceil_div n BYTES_PER_CHUNK)))
    as (root & E & Hr); [apply pack_chunks_chunk| |].
  { unfold BYTES_PER_CHUNK. simpl default. rewrite Zlen_pack_bytes.
    destruct (ceil_div_le n 32); [lia..|]. split; [apply ceil_div_mono|]; lia. }
  rewrite E. mcbn. apply mix_in_length_chunk. lia.
Qed.

Lemma bits_root bits n :
  Zlen bits <= n -> small_limit n ->
  exists root, (chunks ← _pack_bits bits; merkleize chunks (Some (ceil_div n BITS_PER_CHUNK))) =
    Ok root /\ is_chunk root.
Proof.
  intros Hn Hs. destruct (pack_bits_chunks bits n Hn Hs) as (ch & -> & Hc & Hl). mcbn.
  by apply merkleize_chunk.
Qed.

(** The elements of a vector or list, basic or composite. *)
Lemma elements_root t vs n :
  (forall v, well_typed (class_of t) v = true -> hashes t v) ->
  wf_type t -> small_type t -> small_limit n ->
  forallb (well_typed (class_of t)) vs = true -> Zlen vs <= n ->
  exists root,
    (if is_basic t then
       limit_chunks ← element_limit t n; chunks ← pack_basic t vs; merkleize chunks (Some limit_chunks)
     else leaves ← mapM (hash_tree_root_value t) vs; merkleize leaves (Some n)) = Ok root /\
    is_chunk root.
Proof.
  intros IH Hw Hs Hl Hvs Hn. destruct (is_basic t) eqn:Eb.
  - destruct (pack_basic_chunks t vs n) as (ch & lim & -> & -> & Hc & Hlim); [done..|].
    mcbn. by apply merkleize_chunk.
  - destruct (mapM_chunks (hash_tree_root_value t) vs) as (l & -> & Hll & Hlen).
    { apply Forall_forall. intros v Hin. apply IH.
      by eapply (proj1 (forallb_forall _ _)), list_elem_of_In. }
    mcbn. apply merkleize_chunk; [done|]. unfold small_limit in *. simpl default. lia.
Qed.

Lemma fields_roots ts vs :
  Forall (fun t => forall v, wf_type t -> small_type t -> well_typed (class_of t) v = true ->
    hashes t v) ts ->
  length vs = length ts -> foldr (fun t acc => wf_type t /\ acc) True ts ->
  foldr (fun t acc => small_type t /\ acc) True ts ->
  forallb (fun cv => well_typed cv.1 cv.2) (combine (map class_of ts) vs) = true ->
  exists l, hash_fields (map hash_tree_root_value ts) vs = Ok l /\ Forall is_chunk l /\
    length l = length ts.
Proof.
  intros IH. revert vs. induction IH as [|t ts Ht _ IHts];
    intros [|v vs] Hlen Hw Hs Hv; try done; [by exists []|].
  simpl in Hv. apply andb_true_iff in Hv as [Hv1 Hv2]. destruct Hw as [Hw1 Hw2], Hs as [Hs1 Hs2].
  destruct (Ht v Hw1 Hs1 Hv1) as (r & Er & Hr).
  destruct (IHts vs) as (l & El & Hl & Hll); [simpl in Hlen; lia|done..|].
  exists (r :: l). cbn [map hash_fields]. rewrite Er. mcbn. rewrite El. mcbn.
  split; [done|]. split; [by constructor|]. simpl. lia.
Qed.

Lemma well_typed_hashes t v :
  wf_type t -> small_type t -> well_typed (class_of t) v = true -> hashes t v.
Proof.
  revert v. induction t as [b| | |n|n|n|n|t n IH|t n IH|ts IH] using ssz_type_nested_ind;
    intros v Hw Hs Hv; try (by apply basic_hashes).
  - destruct v; try done. simpl in *. unfold small_limit in Hs. bool_to_prop.
    apply packed_leaf_chunk. lia.
  - destruct v; try done. simpl in *. bool_to_prop. by apply bytelist_hashes.
  - destruct v; try done. simpl in *. bool_to_prop. apply bits_root; [lia|done].
  - destruct v; try done. simpl in *. bool_to_prop. unfold hashes. cbn [hash_tree_root_value].
    destruct (bits_root bits n) as (root & (ch & -> & Em)%bind_Ok & Hr); [lia|done|].
    mcbn. rewrite Em. mcbn. apply mix_in_length_chunk. unfold small_limit in *. lia.
  - destruct v; try done. simpl in Hv, Hw, Hs. bool_to_prop. destruct Hw as (Hw & Hn & _), Hs.
    apply elements_root; auto. lia.
  - destruct v; try done. simpl in Hv, Hw, Hs. bool_to_prop. destruct Hw as (Hw & Hn & _), Hs.
    unfold hashes. cbn [hash_tree_root_value].
    destruct (elements_root t vs n) as (root & -> & Hr); auto. mcbn.
    apply mix_in_length_chunk. unfold small_limit in *. lia.
  - destruct v; try done. simpl in Hv. apply andb_true_iff in Hv as [Hlen Hv].
    apply Nat.eqb_eq in Hlen. rewrite length_map in Hlen. destruct Hs as [Hlim Hs]. simpl in Hw.
    unfold hashes. cbn [hash_tree_root_value].
    destruct (fields_roots ts vs) as (l & -> & Hl & Hll); [done..|].
    mcbn. apply merkleize_chunk; [done|]. unfold small_limit in Hlim. simpl default. lia.
Qed.

(** Every value that passes its class's validation has a 32-byte hash tree
    root: no limit check, zero-hash lookup or length mix fails on it. *)
Theorem hash_tree_root_total (t : ssz_type) (v : ssz_value) :
  wf_type t -> small_type t -> well_typed (class_of t) v = true ->
  exists root, hash_tree_root_value t v = Ok root /\ length root = 32%nat.
Proof. apply well_typed_hashes. Qed.

Lemma hash_tree_root_total_witness :
  exists root, hash_tree_root_value sample_type sample_value = Ok root /\ length root = 32%nat.
Proof.
  apply (hash_tree_root_total sample_type sample_value).
  - exact sample_type_wf.
  - vm_compute. repeat split; discriminate.
  - vm_compute. reflexivity.
Defined.
