(* ===== verification/Containers.v ===== *)
(** * The containers of the lstar fork (spec/forks/lstar/containers, slot.py, config.py)

    Each SSZ container of the source is a record with the source's fields; an
    integer class ([Slot], [ValidatorIndex], [Interval]) is a [Z] kept in range by
    the checks of [uint_new].  Limits of the list classes are checked where the
    source constructs them.  [SSZContainer] gives the SSZ shape of each record, on
    which its hash tree root is computed. *)

From S2P Require Import Prelude Pydict Uint Ssz SszCorrect Sha256 Merkle.

(** ** Configuration (config.py) *)
Definition INTERVALS_PER_SLOT : Z := 5.
Definition GOSSIP_DISPARITY_INTERVALS : Z := 1.
Definition SECONDS_PER_SLOT : Z := 4.
Definition MILLISECONDS_PER_SLOT : Z := SECONDS_PER_SLOT * 1000.
Definition MILLISECONDS_PER_INTERVAL : Z := MILLISECONDS_PER_SLOT / INTERVALS_PER_SLOT.
Definition JUSTIFICATION_LOOKBACK_SLOTS : Z := 3.
Definition HISTORICAL_ROOTS_LIMIT : Z := 2 ^ 18.
Definition ATTESTATION_COMMITTEE_COUNT : Z := 1.
Definition VALIDATOR_REGISTRY_LIMIT : Z := 2 ^ 12.
Definition MAX_ATTESTATIONS_DATA : Z := 8.

(** ** Slots (slot.py) *)
Definition IMMEDIATE_JUSTIFICATION_WINDOW : Z := 5.

(** [Slot.justified_index_after] *)
Definition justified_index_after (slot finalized_slot : Z) : option Z :=
  if slot <=? finalized_slot then None else Some (slot - finalized_slot - 1).

(** [Slot.is_justifiable_after]; [Z.sqrt] is [math.isqrt]. *)
Definition is_justifiable_after (slot finalized_slot : Z) : result bool :=
  check! finalized_slot <=? slot else AssertionError;;
  let delta := slot - finalized_slot in
  if delta <=? IMMEDIATE_JUSTIFICATION_WINDOW then Ok true
  else if Z.sqrt delta ^ 2 =? delta then Ok true
  else
    let pronic_discriminant := 4 * delta + 1 in
    let discriminant_root := Z.sqrt pronic_discriminant in
    Ok ((discriminant_root ^ 2 =? pronic_discriminant) && (discriminant_root mod 2 =? 1)).

(** [Interval.from_slot] *)
Definition interval_from_slot (slot : Z) : result Z := uint_new 64 (slot * INTERVALS_PER_SLOT).

(** ** Validator indices (identifiers.py) *)
Definition proposer_for_slot (slot num_validators : Z) : result Z :=
  reject! EMPTY_VALIDATOR_REGISTRY when num_validators =? 0;;
  uint_new 64 (slot mod num_validators).

Definition is_within_registry (index num_validators : Z) : bool := index <? num_validators.

Definition compute_subnet_id (index num_committees : Z) : result Z :=
  check! negb (num_committees =? 0) else ZeroDivisionError;;
  uint_new 64 (index mod num_committees).

(** ** Checkpoints and votes (checkpoint.py) *)
Record Checkpoint := { cp_root : Bytes32; cp_slot : Z }.

Definition advance_to (self candidate : Checkpoint) : Checkpoint :=
  if cp_slot candidate >? cp_slot self then candidate else self.

Record AttestationData := {
  ad_slot : Z;
  ad_head : Checkpoint;
  ad_target : Checkpoint;
  ad_source : Checkpoint
}.

#[export] Instance Checkpoint_eq_dec : EqDecision Checkpoint.
Proof. solve_decision. Defined.
#[export] Instance AttestationData_eq_dec : EqDecision AttestationData.
Proof. solve_decision. Defined.

(** [historical_block_hashes[slot]] equals [root], with the bound checked first *)
Definition root_at (hashes : list Bytes32) (c : Checkpoint) : bool :=
  bool_decide (hashes !! Z.to_nat (cp_slot c) = Some (cp_root c)).

Definition lies_on_chain (self : AttestationData) (historical_block_hashes : list Bytes32) : bool :=
  if bool_decide (cp_root (ad_source self) = ZERO_HASH)
     || bool_decide (cp_root (ad_target self) = ZERO_HASH)
     || bool_decide (cp_root (ad_head self) = ZERO_HASH)
  then false
  else
    let chain_length := Zlen historical_block_hashes in
    if (chain_length <=? cp_slot (ad_source self))
       || (chain_length <=? cp_slot (ad_target self))
       || (chain_length <=? cp_slot (ad_head self))
    then false
    else
      root_at historical_block_hashes (ad_source self)
      && root_at historical_block_hashes (ad_target self)
      && root_at historical_block_hashes (ad_head self).

(** ** Participation bits (participation.py) *)
Abbreviation AggregationBits := (list bool).

Definition max_index (indices : list Z) : Z := foldr Z.max 0 indices.

Definition from_indices (indices : list Z) : result AggregationBits :=
  let validator_indices := set_of indices in
  reject! EMPTY_AGGREGATION_BITS when Zlen validator_indices =? 0;;
  let highest_index := max_index validator_indices in
  reject! VALIDATOR_INDEX_OUT_OF_RANGE when VALIDATOR_REGISTRY_LIMIT <=? highest_index;;
  Ok (map (fun i => bool_decide (Z.of_nat i ∈ validator_indices))
        (seq 0 (Z.to_nat (highest_index + 1)))).

(** [[ValidatorIndex(i) for i, bit in enumerate(data) if bit]], from index [i] on *)
Fixpoint set_indices_from (i : Z) (bits : AggregationBits) : list Z :=
  match bits with
  | [] => []
  | b :: bits => (if b then [i] else []) ++ set_indices_from (i + 1) bits
  end.
Definition set_indices (bits : AggregationBits) : list Z := set_indices_from 0 bits.

Definition to_validator_indices (self : AggregationBits) : result (list Z) :=
  let indices := set_indices self in
  reject! EMPTY_AGGREGATION_BITS when Zlen indices =? 0;;
  check! Zlen indices <=? VALIDATOR_REGISTRY_LIMIT else SSZValueError;;
  Ok indices.

(** ** Attestations and blocks (attestation.py, block.py) *)
Record AggregatedAttestation := { aa_bits : AggregationBits; aa_data : AttestationData }.

Record BlockBody := { bd_attestations : list AggregatedAttestation }.

Record BlockHeader := {
  hd_slot : Z;
  hd_proposer_index : Z;
  hd_parent_root : Bytes32;
  hd_state_root : Bytes32;
  hd_body_root : Bytes32
}.

Record Block := {
  bk_slot : Z;
  bk_proposer_index : Z;
  bk_parent_root : Bytes32;
  bk_state_root : Bytes32;
  bk_body : BlockBody
}.

(** ** The validator registry (validator.py) *)
Record Validator := {
  val_attestation_public_key : bytes;
  val_proposal_public_key : bytes;
  val_index : Z
}.

(** [Validators]: the list limit and [_require_index_matches_position] *)
Fixpoint indices_match (i : Z) (data : list Validator) : bool :=
  match data with
  | [] => true
  | v :: data => (val_index v =? i) && indices_match (i + 1) data
  end.
Definition validators_new (data : list Validator) : result (list Validator) :=
  check! Zlen data <=? VALIDATOR_REGISTRY_LIMIT else SSZValueError;;
  check! indices_match 0 data else SSZValueError;;
  Ok data.

(** ** The consensus state (state.py, genesis.py) *)
Record GenesisConfig := { genesis_time : Z }.

Record State := {
  st_config : GenesisConfig;
  st_slot : Z;
  st_latest_block_header : BlockHeader;
  st_latest_justified : Checkpoint;
  st_latest_finalized : Checkpoint;
  st_historical_block_hashes : list Bytes32;
  st_justified_slots : list bool;
  st_validators : list Validator;
  st_justifications_roots : list Bytes32;
  st_justifications_validators : list bool
}.

#[export] Instance AggregatedAttestation_eq_dec : EqDecision AggregatedAttestation.
Proof. solve_decision. Defined.
#[export] Instance BlockBody_eq_dec : EqDecision BlockBody.
Proof. solve_decision. Defined.
#[export] Instance BlockHeader_eq_dec : EqDecision BlockHeader.
Proof. solve_decision. Defined.
#[export] Instance Block_eq_dec : EqDecision Block.
Proof. solve_decision. Defined.
#[export] Instance Validator_eq_dec : EqDecision Validator.
Proof. solve_decision. Defined.
#[export] Instance GenesisConfig_eq_dec : EqDecision GenesisConfig.
Proof. solve_decision. Defined.
#[export] Instance State_eq_dec : EqDecision State.
Proof. solve_decision. Defined.

(** Construction of the bounded lists of the state. *)
Definition HistoricalBlockHashes_new (data : list Bytes32) : result (list Bytes32) :=
  check! Zlen data <=? HISTORICAL_ROOTS_LIMIT else SSZValueError;; Ok data.
Definition JustificationRoots_new (data : list Bytes32) : result (list Bytes32) :=
  check! Zlen data <=? HISTORICAL_ROOTS_LIMIT else SSZValueError;; Ok data.
Definition JustifiedSlots_new (data : list bool) : result (list bool) :=
  check! Zlen data <=? HISTORICAL_ROOTS_LIMIT else SSZValueError;; Ok data.
Definition JustificationValidators_new (data : list bool) : result (list bool) :=
  check! Zlen data <=? HISTORICAL_ROOTS_LIMIT * VALIDATOR_REGISTRY_LIMIT else SSZValueError;;
  Ok data.

(** [JustifiedSlots.is_slot_justified] *)
Definition is_slot_justified (self : list bool) (finalized_slot target_slot : Z) : result bool :=
  match justified_index_after target_slot finalized_slot with
  | None => Ok true
  | Some relative_index =>
      of_option (SpecRejectionError JUSTIFIED_SLOT_OUT_OF_RANGE)
        (self !! Z.to_nat relative_index)
  end.

(** [JustifiedSlots.extend_to_slot] *)
Definition extend_to_slot (self : list bool) (finalized_slot target_slot : Z)
    : result (list bool) :=
  match justified_index_after target_slot finalized_slot with
  | None => Ok self
  | Some relative_index =>
      let required_capacity := relative_index + 1 in
      let gap_size := required_capacity - Zlen self in
      if gap_size <=? 0 then Ok self
      else JustifiedSlots_new (self ++ repeat false (Z.to_nat gap_size))
  end.

(** ** SSZ shapes and hash tree roots

    [SSZContainer A] declares the model fields of a container class and reads the
    fields of a value, as [cls.model_fields] and [getattr] do.  [hash_tree_root]
    is the source's dispatch on the class of its argument; on a value that passes
    its class's validation it is the root [hash_tree_root_value] returns. *)
Class SSZContainer (A : Type) := {
  ssz_descr : ssz_type;
  ssz_repr : A -> ssz_value
}.
Arguments ssz_descr A {_}.

Definition ssz_valid {A} `{SSZContainer A} (a : A) : bool :=
  well_typed (class_of (ssz_descr A)) (ssz_repr a).

Definition hash_tree_root {A} `{SSZContainer A} (a : A) : Bytes32 :=
  match hash_tree_root_value (ssz_descr A) (ssz_repr a) with
  | Ok root => root
  | Err _ => ZERO_HASH
  end.

Abbreviation TBytes32 := (TBytes 32).
Abbreviation TSlot := (TUint 64).

#[export] Instance ssz_Checkpoint : SSZContainer Checkpoint := {|
  ssz_descr := TContainer [TBytes32; TSlot];
  ssz_repr c := VContainer [VBytes (cp_root c); VUint (cp_slot c)]
|}.

#[export] Instance ssz_AttestationData : SSZContainer AttestationData := {|
  ssz_descr :=
    TContainer [TSlot; ssz_descr Checkpoint; ssz_descr Checkpoint; ssz_descr Checkpoint];
  ssz_repr a :=
    VContainer [VUint (ad_slot a); ssz_repr (ad_head a); ssz_repr (ad_target a);
                ssz_repr (ad_source a)]
|}.

#[export] Instance ssz_AggregatedAttestation : SSZContainer AggregatedAttestation := {|
  ssz_descr := TContainer [TBitlist VALIDATOR_REGISTRY_LIMIT; ssz_descr AttestationData];
  ssz_repr a := VContainer [VBitlist (aa_bits a); ssz_repr (aa_data a)]
|}.

#[export] Instance ssz_BlockBody : SSZContainer BlockBody := {|
  ssz_descr := TContainer [TList (ssz_descr AggregatedAttestation) VALIDATOR_REGISTRY_LIMIT];
  ssz_repr b := VContainer [VList (map ssz_repr (bd_attestations b))]
|}.

#[export] Instance ssz_BlockHeader : SSZContainer BlockHeader := {|
  ssz_descr := TContainer [TSlot; TUint 64; TBytes32; TBytes32; TBytes32];
  ssz_repr h :=
    VContainer [VUint (hd_slot h); VUint (hd_proposer_index h); VBytes (hd_parent_root h);
                VBytes (hd_state_root h); VBytes (hd_body_root h)]
|}.

#[export] Instance ssz_Block : SSZContainer Block := {|
  ssz_descr := TContainer [TSlot; TUint 64; TBytes32; TBytes32; ssz_descr BlockBody];
  ssz_repr b :=
    VContainer [VUint (bk_slot b); VUint (bk_proposer_index b); VBytes (bk_parent_root b);
                VBytes (bk_state_root b); ssz_repr (bk_body b)]
|}.

#[export] Instance ssz_Validator : SSZContainer Validator := {|
  ssz_descr := TContainer [TBytes 52; TBytes 52; TUint 64];
  ssz_repr v :=
    VContainer [VBytes (val_attestation_public_key v); VBytes (val_proposal_public_key v);
                VUint (val_index v)]
|}.

#[export] Instance ssz_GenesisConfig : SSZContainer GenesisConfig := {|
  ssz_descr := TContainer [TUint 64];
  ssz_repr c := VContainer [VUint (genesis_time c)]
|}.

#[export] Instance ssz_State : SSZContainer State := {|
  ssz_descr :=
    TContainer [ssz_descr GenesisConfig; TSlot; ssz_descr BlockHeader; ssz_descr Checkpoint;
                ssz_descr Checkpoint; TList TBytes32 HISTORICAL_ROOTS_LIMIT;
                TBitlist HISTORICAL_ROOTS_LIMIT;
                TList (ssz_descr Validator) VALIDATOR_REGISTRY_LIMIT;
                TList TBytes32 HISTORICAL_ROOTS_LIMIT;
                TBitlist (HISTORICAL_ROOTS_LIMIT * VALIDATOR_REGISTRY_LIMIT)];
  ssz_repr s :=
    VContainer [ssz_repr (st_config s); VUint (st_slot s); ssz_repr (st_latest_block_header s);
                ssz_repr (st_latest_justified s); ssz_repr (st_latest_finalized s);
                VList (map VBytes (st_historical_block_hashes s));
                VBitlist (st_justified_slots s);
                VList (map ssz_repr (st_validators s));
                VList (map VBytes (st_justifications_roots s));
                VBitlist (st_justifications_validators s)]
|}.

(** ** Lemmas: roots *)
#[global] Typeclasses Opaque ssz_Checkpoint ssz_AttestationData ssz_AggregatedAttestation
  ssz_BlockBody ssz_BlockHeader ssz_Block ssz_Validator ssz_GenesisConfig ssz_State.

Lemma tree_root_length d l :
  (0 < d)%nat -> length (tree_root d l) = 32%nat.
Proof. destruct d as [|d]; [lia|]. intros _. apply length_sha256. Qed.

Lemma mix_in_length_32 root n r : mix_in_length root n = Ok r -> length r = 32%nat.
Proof.
  unfold mix_in_length. intros H. destruct (0 <=? n); [|done].
  apply bind_Ok in H as (l & _ & [= <-]). apply length_sha256.
Qed.

Lemma merkleize_single c : merkleize [c] None = Ok c.
Proof. reflexivity. Qed.

Lemma length_hash_body (b : BlockBody) : length (hash_tree_root b) = 32%nat.
Proof.
  unfold hash_tree_root.
  destruct (hash_tree_root_value _ _) as [r|e] eqn:E; [|reflexivity].
  cbn [ssz_descr ssz_repr ssz_BlockBody hash_tree_root_value] in E.
  apply bind_Ok in E as (leaves & Hl & E). cbn [map hash_fields] in Hl.
  apply bind_Ok in Hl as (root & Hr & Hl). mcbn_in Hl. injection Hl as <-.
  rewrite merkleize_single in E. injection E as <-.
  cbn [hash_tree_root_value] in Hr. apply bind_Ok in Hr as (r1 & _ & Hr).
  by eapply mix_in_length_32.
Qed.

(** A well-typed vote has a slot in range and a 32-byte message. *)
Lemma valid_data_message (d : AttestationData) :
  ssz_valid d = true -> in_range 64 (ad_slot d) /\ length (hash_tree_root d) = 32%nat.
Proof.
  intros H. split.
  - unfold ssz_valid in H. cbn [ssz_descr ssz_repr ssz_AttestationData class_of container_class well_typed map] in H.
    cbn [length Nat.eqb combine forallb fst snd] in H. bool_to_prop.
    match goal with H : well_typed (uint_class 64) _ = true |- _ =>
      by apply uint_well_typed in H as (z & [= <-] & Hz) end.
  - unfold hash_tree_root. destruct (well_typed_hashes (ssz_descr AttestationData) (ssz_repr d)) as (r & -> & Hr);
      [vm_compute; repeat split; discriminate|vm_compute; repeat split; discriminate|exact H|exact Hr].
Qed.

(** A 32-byte string is its own root. *)
Lemma hash_bytes32 bs : length bs = 32%nat -> hash_tree_root_value TBytes32 (VBytes bs) = Ok bs.
Proof.
  intros Hb. cbn [hash_tree_root_value class_of]. change (encode_bytes _ _) with (Ok bs). mcbn.
  assert (_pack_bytes bs = [bs]) as ->; [|apply merkleize_single].
  unfold _pack_bytes. rewrite Hb. change (Z.to_nat (ceil_div (Z.of_nat 32) BYTES_PER_CHUNK)) with 1%nat.
  cbn [pack_chunks]. rewrite take_ge, Hb by lia. by rewrite app_nil_r.
Qed.

(** Every descriptor of the fork is well-formed and fits the zero-hash cache. *)
Ltac solve_descr :=
  repeat match goal with
  | |- _ /\ _ => split
  | |- True => exact I
  | |- _ => vm_compute; (discriminate || reflexivity || (intros; discriminate))
  | |- _ -> _ => intro
  end.

Lemma wf_BlockBody : wf_type (ssz_descr BlockBody) /\ small_type (ssz_descr BlockBody).
Proof. cbn. unfold wf_bits, small_limit. solve_descr. Qed.

Lemma wf_State : wf_type (ssz_descr State) /\ small_type (ssz_descr State).
Proof. cbn. unfold wf_bits, small_limit. solve_descr. Qed.

Lemma hash_body_value (b : BlockBody) :
  ssz_valid b = true -> hash_tree_root_value (ssz_descr BlockBody) (ssz_repr b) = Ok (hash_tree_root b).
Proof.
  intros Hv. destruct wf_BlockBody as [Hw Hs].
  destruct (well_typed_hashes _ _ Hw Hs Hv) as (r & E & _).
  unfold hash_tree_root. by rewrite E.
Qed.

Lemma valid_block_body (b : Block) : ssz_valid b = true -> ssz_valid (bk_body b) = true.
Proof.
  unfold ssz_valid. cbn [ssz_descr ssz_repr ssz_Block class_of container_class well_typed map].
  cbn [length Nat.eqb combine forallb fst snd]. intros H. bool_to_prop. done.
Qed.

(** The header of a block: its fields, with the body replaced by its root. *)
Definition header_of (b : Block) : BlockHeader := {|
  hd_slot := bk_slot b;
  hd_proposer_index := bk_proposer_index b;
  hd_parent_root := bk_parent_root b;
  hd_state_root := bk_state_root b;
  hd_body_root := hash_tree_root (bk_body b)
|}.

Lemma hash_container ts vs :
  hash_tree_root_value (TContainer ts) (VContainer vs) =
    leaves ← hash_fields (map hash_tree_root_value ts) vs; merkleize leaves None.
Proof. reflexivity. Qed.

(** A block and its header have the same root. *)
Lemma hash_header_of (b : Block) :
  ssz_valid b = true -> hash_tree_root (header_of b) = hash_tree_root b.
Proof.
  intros Hv. pose proof (hash_body_value _ (valid_block_body _ Hv)) as Hb.
  unfold hash_tree_root at 1 2.
  cbn [ssz_descr ssz_repr ssz_Block ssz_BlockHeader]. rewrite !hash_container.
  unfold header_of. cbn [hd_slot hd_proposer_index hd_parent_root hd_state_root hd_body_root].
  cbn [map hash_fields]. rewrite Hb, (hash_bytes32 _ (length_hash_body _)). done.
Qed.

(** ** Lemmas: participation bits *)
Lemma elem_of_set_indices_from i k bits :
  i ∈ set_indices_from k bits <-> k <= i /\ bits !! Z.to_nat (i - k) = Some true.
Proof.
  revert k. induction bits as [|b bits IH]; intros k; simpl.
  - rewrite elem_of_nil, lookup_nil. naive_solver.
  - rewrite elem_of_app, IH. destruct (Z.eq_dec i k) as [->|Hne].
    + rewrite Z.sub_diag. change (Z.to_nat 0) with 0%nat. simpl. destruct b.
      * rewrite list_elem_of_singleton. split; [split; [lia|done]|auto].
      * rewrite elem_of_nil. split; [intros [[]|[]]; lia | by intros []].
    + assert (i ∉ (if b then [k] else [])) as Hn
        by (destruct b; rewrite ?list_elem_of_singleton, ?elem_of_nil; auto).
      split.
      * intros [?|[H1 H2]]; [done|]. split; [lia|].
        replace (Z.to_nat (i - k)) with (S (Z.to_nat (i - (k + 1)))) by lia. done.
      * intros [H1 H2]. right. split; [lia|].
        replace (Z.to_nat (i - k)) with (S (Z.to_nat (i - (k + 1)))) in H2 by lia. done.
Qed.

Lemma elem_of_set_indices i bits :
  i ∈ set_indices bits <-> 0 <= i /\ bits !! Z.to_nat i = Some true.
Proof. unfold set_indices. by rewrite elem_of_set_indices_from, Z.sub_0_r. Qed.

Lemma set_indices_sorted_from k bits : StronglySorted Z.lt (set_indices_from k bits).
Proof.
  revert k. induction bits as [|b bits IH]; intros k; simpl; [constructor|].
  destruct b; simpl; [|apply IH]. constructor; [apply IH|].
  apply Forall_forall. intros i [Hi _]%elem_of_set_indices_from. lia.
Qed.

Lemma StronglySorted_lt_NoDup l : StronglySorted Z.lt l -> NoDup l.
Proof.
  induction 1 as [|x l Hl IH Hx]; constructor; [|done].
  intros Hin. rewrite Forall_forall in Hx. specialize (Hx _ Hin). lia.
Qed.

Lemma set_indices_sorted bits : StronglySorted Z.lt (set_indices bits).
Proof. apply set_indices_sorted_from. Qed.

Lemma set_indices_NoDup bits : NoDup (set_indices bits).
Proof. apply StronglySorted_lt_NoDup, set_indices_sorted. Qed.
#[export] Hint Resolve set_indices_sorted set_indices_NoDup : spec.

Lemma length_set_indices_from k bits :
  length (set_indices_from k bits) = length (filter (fun b => b = true) bits).
Proof.
  revert k. induction bits as [|b bits IH]; intros k; simpl; [done|].
  rewrite length_app, IH, filter_cons. by destruct b.
Qed.

Lemma length_set_indices bits : (length (set_indices bits) <= length bits)%nat.
Proof. unfold set_indices. rewrite length_set_indices_from. apply count_true_le. Qed.

Lemma max_index_ge i l : i ∈ l -> i <= max_index l.
Proof. induction 1; simpl; lia. Qed.

Lemma max_index_lt n l : 0 < n -> (max_index l < n <-> Forall (fun i => i < n) l).
Proof.
  intros Hn. induction l as [|i l IH]; simpl.
  - split; [constructor|done].
  - rewrite Forall_cons, <- IH. lia.
Qed.

Lemma from_indices_Ok indices bits :
  Forall (fun i => 0 <= i) indices ->
  from_indices indices = Ok bits ->
  indices <> [] /\ Forall (fun i => i < VALIDATOR_REGISTRY_LIMIT) indices /\
  Zlen bits <= VALIDATOR_REGISTRY_LIMIT /\ (forall i, i ∈ set_indices bits <-> i ∈ indices).
Proof.
  intros Hpos H. unfold from_indices in H. unbind H. bool_to_prop.
  assert (0 <= max_index (set_of indices)) as Hm.
  { generalize (set_of indices). intros l. induction l; simpl; lia. }
  split_and!.
  - by intros ->.
  - apply max_index_lt in E0; [|done]. rewrite Forall_forall in E0. apply Forall_forall.
    intros i Hi. apply E0. by apply elem_of_set_of.
  - rewrite length_map, length_seq. lia.
  - intros i. rewrite elem_of_set_indices. split.
    + intros [Hi Hl]. apply list_lookup_fmap_Some in Hl as (j & Hj & Hl).
      apply lookup_seq in Hl as [-> Hl]. symmetry in Hj. apply bool_decide_eq_true in Hj.
      rewrite elem_of_set_of in Hj. by replace (Z.of_nat (0 + Z.to_nat i)) with i in Hj by lia.
    + intros Hi. rewrite Forall_forall in Hpos. specialize (Hpos _ Hi).
      apply elem_of_set_of in Hi as Hi'. apply max_index_ge in Hi' as Hle.
      split; [done|]. apply list_lookup_fmap_Some. exists (Z.to_nat i). split.
      * symmetry. apply bool_decide_eq_true. by rewrite Z2Nat.id.
      * apply lookup_seq. lia.
Qed.

Lemma from_indices_total indices :
  Forall (fun i => 0 <= i) indices -> indices <> [] ->
  Forall (fun i => i < VALIDATOR_REGISTRY_LIMIT) indices ->
  exists bits, from_indices indices = Ok bits.
Proof.
  intros Hpos Hne Hlt. unfold from_indices. destruct (Zlen (set_of indices) =? 0) eqn:E.
  - apply Zlen_0 in E. destruct indices as [|i indices]; [done|].
    assert (i ∈ set_of (i :: indices)) as Hi by (apply elem_of_set_of; left).
    rewrite E in Hi. by apply elem_of_nil in Hi.
  - rewrite (proj2 (Z.leb_gt _ _)); [eauto|]. apply max_index_lt; [done|].
    rewrite Forall_forall in Hlt. apply Forall_forall. intros i Hi. apply Hlt.
    by apply elem_of_set_of.
Qed.

Lemma to_validator_indices_Ok bits l :
  to_validator_indices bits = Ok l -> l = set_indices bits /\ l <> [].
Proof.
  unfold to_validator_indices. intros H. unbind H. bool_to_prop. split; [done|].
  intros E1. by rewrite E1 in E.
Qed.

Lemma to_validator_indices_Err bits e :
  Zlen bits <= VALIDATOR_REGISTRY_LIMIT -> to_validator_indices bits = Err e ->
  e = SpecRejectionError EMPTY_AGGREGATION_BITS /\ set_indices bits = [].
Proof.
  intros Hb. unfold to_validator_indices. pose proof (length_set_indices bits).
  destruct (Zlen (set_indices bits) =? 0) eqn:E.
  - intros [= <-]. by apply Zlen_0 in E.
  - by rewrite (proj2 (Z.leb_le _ _)) by lia.
Qed.

(** Packing validator indices into aggregation bits and reading them back
    gives the same set of indices, in ascending order without repetition.
    Packing succeeds exactly on a non-empty list within the registry limit. *)
Theorem aggregation_bits_roundtrip (indices : list Z) :
  Forall (fun i => 0 <= i) indices ->
  (indices <> [] /\ Forall (fun i => i < VALIDATOR_REGISTRY_LIMIT) indices <->
   exists bits, from_indices indices = Ok bits) /\
  (forall bits, from_indices indices = Ok bits ->
   exists sorted, to_validator_indices bits = Ok sorted /\ StronglySorted Z.lt sorted /\
     (forall i, i ∈ sorted <-> i ∈ indices)).
Proof.
  intros Hpos. split; [split|].
  - intros [Hne Hlt]. by apply from_indices_total.
  - intros (bits & H). by apply from_indices_Ok in H as (? & ? & _).
  - intros bits H. apply from_indices_Ok in H as (Hne & _ & Hlen & Hin); [|done].
    exists (set_indices bits). split_and!; auto with spec.
    destruct (to_validator_indices bits) as [l|e] eqn:E.
    + by apply to_validator_indices_Ok in E as [-> _].
    + apply to_validator_indices_Err in E as [_ E]; [|done].
      destruct indices as [|i indices]; [done|]. exfalso.
      assert (i ∈ set_indices bits) as Hi by (apply Hin; left). rewrite E in Hi.
      by apply elem_of_nil in Hi.
Qed.

Lemma aggregation_bits_roundtrip_witness :
  exists sorted, to_validator_indices [false; true; false; true] = Ok sorted /\
    StronglySorted Z.lt sorted /\ (forall i, i ∈ sorted <-> i ∈ [3; 1; 3]).
Proof.
  apply (aggregation_bits_roundtrip [3; 1; 3]).
  - repeat constructor; lia.
  - reflexivity.
Defined.

(** ** Lemmas: justifiable slots *)
Lemma sqrt_square_iff d : 0 <= d -> (Z.sqrt d ^ 2 =? d) = true <-> exists n, 0 <= n /\ d = n * n.
Proof.
  intros Hd. rewrite Z.eqb_eq, Z.pow_2_r. split.
  - intros H. exists (Z.sqrt d). split; [apply Z.sqrt_nonneg|done].
  - intros (n & Hn & ->). by rewrite Z.sqrt_square.
Qed.

Lemma pronic_iff d : 0 <= d ->
  (Z.sqrt (4 * d + 1) ^ 2 =? 4 * d + 1) && (Z.sqrt (4 * d + 1) mod 2 =? 1) = true <->
  exists n, 0 <= n /\ d = n * (n + 1).
Proof.
  intros Hd. rewrite andb_true_iff, !Z.eqb_eq, Z.pow_2_r.
  pose proof (Z.sqrt_nonneg (4 * d + 1)) as Hp. split.
  - intros [H1 H2]. exists (Z.sqrt (4 * d + 1) / 2). generalize dependent (Z.sqrt (4 * d + 1)).
    intros r Hr H1 H2. pose proof (Z.div_mod r 2). split; [div_lia|]. nia.
  - intros (n & Hn & ->).
    assert (Z.sqrt (4 * (n * (n + 1)) + 1) = 2 * n + 1) as ->.
    { replace (4 * (n * (n + 1)) + 1) with ((2 * n + 1) * (2 * n + 1)) by ring.
      apply Z.sqrt_square. lia. }
    split; [ring|]. div_lia.
Qed.

(** A 3SF-mini justification candidate. *)
Definition justifiable (slot finalized_slot : Z) : Prop :=
  slot - finalized_slot <= 5 \/
  (exists n, 0 <= n /\ slot - finalized_slot = n * n) \/
  (exists n, 0 <= n /\ slot - finalized_slot = n * (n + 1)).

Lemma is_justifiable_total slot finalized_slot :
  finalized_slot <= slot -> exists b, is_justifiable_after slot finalized_slot = Ok b.
Proof.
  intros H. unfold is_justifiable_after. rewrite (proj2 (Z.leb_le _ _)) by lia.
  repeat case_match; eauto.
Qed.

(** A slot is justifiable after the finalized slot exactly when their distance
    is at most five, a perfect square or a pronic number; asking about a slot
    before the finalized one is an assertion failure. *)
Theorem is_justifiable_after_spec (slot finalized_slot : Z) :
  (slot < finalized_slot -> is_justifiable_after slot finalized_slot = Err AssertionError) /\
  (finalized_slot <= slot ->
   exists b, is_justifiable_after slot finalized_slot = Ok b /\
     (b = true <-> justifiable slot finalized_slot)).
Proof.
  unfold is_justifiable_after, IMMEDIATE_JUSTIFICATION_WINDOW, justifiable. split; intros H.
  - by rewrite (proj2 (Z.leb_gt _ _)) by lia.
  - rewrite (proj2 (Z.leb_le _ _)) by lia.
    pose proof (sqrt_square_iff (slot - finalized_slot) ltac:(lia)) as Hs.
    pose proof (pronic_iff (slot - finalized_slot) ltac:(lia)) as Hp.
    destruct (Z.leb_spec (slot - finalized_slot) 5); [exists true; repeat split; auto|].
    destruct (Z.sqrt (slot - finalized_slot) ^ 2 =? slot - finalized_slot).
    + exists true. split; [done|]. split; [|done]. intros _. right. left. by apply Hs.
    + eexists. split; [done|]. rewrite Hp. split; [auto|]. intros [?|[?|?]]; [lia| |done].
      by apply Hs in H1.
Qed.
