(* ===== verification/GossipState.v ===== *)
(** * The state of gossipsub (node/networking/gossipsub/message.py, mcache.py, mesh.py,
      parameters.py)

    Message ids, the sliding window of cached messages, the ids seen, and the meshes and
    fanouts of the topics.  A timestamp is a number of microseconds; the code has floats
    of seconds, whose rounding is not modelled. *)

From S2P Require Import Prelude Pydict Uint Ssz Sha256 Merkle Containers.

Abbreviation PeerId := bytes.
Abbreviation TopicId := bytes.
Abbreviation MessageId := bytes.
Definition SECOND : Z := 1000000.

Record GossipsubParameters := {
  gp_d : Z;
  gp_d_low : Z;
  gp_d_high : Z;
  gp_d_lazy : Z;
  gp_fanout_ttl_secs : Z;
  gp_mcache_length : Z;
  gp_mcache_gossip : Z;
  gp_seen_ttl_secs : Z
}.
Definition default_parameters : GossipsubParameters := {|
  gp_d := 8; gp_d_low := 6; gp_d_high := 12; gp_d_lazy := 6; gp_fanout_ttl_secs := 60;
  gp_mcache_length := 6; gp_mcache_gossip := 3;
  gp_seen_ttl_secs := SECONDS_PER_SLOT * JUSTIFICATION_LOOKBACK_SLOTS * 2
|}.

(** [random.sample(population, k)]: [pick] is the outcome when the arguments are in range. *)
Definition random_sample (pick : list bytes -> nat -> list bytes) (population : list bytes) (k : Z) : result (list bytes) :=
  check! (0 <=? k) && (k <=? Zlen population) else ValueError;;
  Ok (pick population (Z.to_nat k)).

(** ** Messages *)
Definition MESSAGE_DOMAIN_INVALID_SNAPPY : bytes := [Byte.x00; Byte.x00; Byte.x00; Byte.x00].
Definition MESSAGE_DOMAIN_VALID_SNAPPY : bytes := [Byte.x01; Byte.x00; Byte.x00; Byte.x00].

Definition compute_id (topic data domain : bytes) : MessageId :=
  take 20 (sha256 (domain ++ le_split 8 (Zlen topic) ++ topic ++ data)).

Record GossipsubMessage := { gm_topic : bytes; gm_raw_data : bytes; gm_cached_id : option MessageId }.
Definition gm_id (self : GossipsubMessage) : MessageId :=
  match gm_cached_id self with
  | Some id => id
  | None => compute_id (gm_topic self) (gm_raw_data self) MESSAGE_DOMAIN_INVALID_SNAPPY
  end.

(** ** The message cache *)
Record CacheEntry := { ce_message : GossipsubMessage; ce_topic : TopicId }.
Record MessageCache := {
  mc_length : Z;
  mc_gossip : Z;
  mc_windows : list (list MessageId);
  mc_by_id : dict MessageId CacheEntry
}.
Definition new_message_cache (mcache_length mcache_gossip : Z) : MessageCache := {|
  mc_length := mcache_length; mc_gossip := mcache_gossip; mc_windows := if mcache_length <=? 0 then [] else [[]]; mc_by_id := []
|}.

Definition mcache_put (topic : TopicId) (message : GossipsubMessage) (self : MessageCache) : result (bool * MessageCache) :=
  let message_id := gm_id message in
  if dmem message_id (mc_by_id self) then Ok (false, self)
  else
    match mc_windows self with
    | [] => Err IndexError
    | newest :: windows =>
        Ok (true, {| mc_length := mc_length self; mc_gossip := mc_gossip self; mc_windows := sadd message_id newest :: windows;
                     mc_by_id := dset message_id {| ce_message := message; ce_topic := topic |} (mc_by_id self) |})
    end.

Definition mcache_get (message_id : MessageId) (self : MessageCache) : option GossipsubMessage :=
  ce_message <$> dget message_id (mc_by_id self).
Definition mcache_has (message_id : MessageId) (self : MessageCache) : bool := dmem message_id (mc_by_id self).

Definition get_gossip_ids `{SetOrder} (topic : TopicId) (self : MessageCache) : list MessageId :=
  let windows_to_check := Z.min (mc_gossip self) (Zlen (mc_windows self)) in
  filter (fun message_id => ce_topic <$> dget message_id (mc_by_id self) = Some topic)
    (take (Z.to_nat windows_to_check) (mc_windows self) ≫= set_iter).

(** [for message_id in oldest: if message_id in self._by_id: del ...] *)
Definition evict_ids (oldest : list MessageId) (by_id : dict MessageId CacheEntry) : Z * dict MessageId CacheEntry :=
  foldl (fun '(evicted, by_id) message_id =>
    if dmem message_id by_id then (evicted + 1, ddel message_id by_id) else (evicted, by_id)) (0, by_id) oldest.

Definition shift (self : MessageCache) : result (Z * MessageCache) :=
  '(evicted, windows, by_id) ←
    (if mc_length self <=? Zlen (mc_windows self) then
       oldest ← of_option IndexError (last (mc_windows self));
       let '(evicted, by_id) := evict_ids oldest (mc_by_id self) in
       Ok (evicted, removelast (mc_windows self), by_id)
     else Ok (0, mc_windows self, mc_by_id self));
  Ok (evicted, {| mc_length := mc_length self; mc_gossip := mc_gossip self; mc_windows := [] :: windows; mc_by_id := by_id |}).

(** ** The ids seen: the timestamps, in insertion order *)
Abbreviation SeenCache := (dict MessageId Z).
Definition seen_has (message_id : MessageId) (self : SeenCache) : bool := dmem message_id self.
Definition seen_add (message_id : MessageId) (timestamp : Z) (self : SeenCache) : bool * SeenCache :=
  if dmem message_id self then (false, self) else (true, dset message_id timestamp self).
Definition seen_cleanup (ttl_seconds current_time : Z) (self : SeenCache) : Z * SeenCache :=
  let cutoff := current_time - ttl_seconds * SECOND in
  let expired := map fst (filter (fun e => e.2 < cutoff) self) in
  (Zlen expired, foldl (fun self message_id => ddel message_id self) self expired).

(** ** Meshes *)
Record FanoutEntry := { fo_peers : list PeerId; fo_last_published : Z }.
Definition is_stale (current_time ttl : Z) (self : FanoutEntry) : bool := current_time - fo_last_published self >? ttl * SECOND.

Record TopicMesh := { tm_peers : list PeerId }.
Definition tm_add_peer (peer_id : PeerId) (self : TopicMesh) : bool * TopicMesh :=
  if bool_decide (peer_id ∈ tm_peers self) then (false, self) else (true, {| tm_peers := sadd peer_id (tm_peers self) |}).
Definition tm_remove_peer (peer_id : PeerId) (self : TopicMesh) : bool * TopicMesh :=
  if bool_decide (peer_id ∉ tm_peers self) then (false, self) else (true, {| tm_peers := sdiscard peer_id (tm_peers self) |}).

Record MeshState := {
  me_params : GossipsubParameters;
  me_meshes : dict TopicId TopicMesh;
  me_fanouts : dict TopicId FanoutEntry;
  me_subscriptions : list TopicId
}.
Definition with_meshes (meshes : dict TopicId TopicMesh) (self : MeshState) : MeshState :=
  {| me_params := me_params self; me_meshes := meshes; me_fanouts := me_fanouts self; me_subscriptions := me_subscriptions self |}.
Definition with_fanouts (fanouts : dict TopicId FanoutEntry) (self : MeshState) : MeshState :=
  {| me_params := me_params self; me_meshes := me_meshes self; me_fanouts := fanouts; me_subscriptions := me_subscriptions self |}.

Definition subscribed (topic : TopicId) (self : MeshState) : bool := bool_decide (topic ∈ me_subscriptions self).
Definition fanout_topics (self : MeshState) : list TopicId := dkeys (me_fanouts self).

Definition mesh_subscribe (topic : TopicId) (self : MeshState) : MeshState :=
  if subscribed topic self then self
  else
    let '(peers, fanouts) :=
      match dget topic (me_fanouts self) with
      | Some fanout => (fo_peers fanout, ddel topic (me_fanouts self))
      | None => ([], me_fanouts self)
      end in
    {| me_params := me_params self; me_meshes := dset topic {| tm_peers := peers |} (me_meshes self); me_fanouts := fanouts;
       me_subscriptions := sadd topic (me_subscriptions self) |}.

Definition mesh_unsubscribe (topic : TopicId) (self : MeshState) : list PeerId * MeshState :=
  (match dget topic (me_meshes self) with Some mesh => tm_peers mesh | None => [] end,
   {| me_params := me_params self; me_meshes := ddel topic (me_meshes self); me_fanouts := me_fanouts self;
      me_subscriptions := sdiscard topic (me_subscriptions self) |}).

Definition get_mesh_peers (topic : TopicId) (self : MeshState) : list PeerId :=
  match dget topic (me_meshes self) with Some mesh => tm_peers mesh | None => [] end.

Definition add_to_mesh (topic : TopicId) (peer_id : PeerId) (self : MeshState) : bool * MeshState :=
  match dget topic (me_meshes self) with
  | None => (false, self)
  | Some mesh => let '(added, mesh) := tm_add_peer peer_id mesh in (added, with_meshes (dset topic mesh (me_meshes self)) self)
  end.
Definition remove_from_mesh (topic : TopicId) (peer_id : PeerId) (self : MeshState) : bool * MeshState :=
  match dget topic (me_meshes self) with
  | None => (false, self)
  | Some mesh => let '(removed, mesh) := tm_remove_peer peer_id mesh in (removed, with_meshes (dset topic mesh (me_meshes self)) self)
  end.

Definition get_fanout_peers (topic : TopicId) (self : MeshState) : list PeerId :=
  match dget topic (me_fanouts self) with Some fanout => fo_peers fanout | None => [] end.

Definition fill_fanout `{SetOrder} (pick : list bytes -> nat -> list bytes) (topic : TopicId) (available_peers : list PeerId)
    (self : MeshState) : result MeshState :=
  match dget topic (me_fanouts self) with
  | None => Ok self
  | Some fanout =>
      if Zlen (fo_peers fanout) <? gp_d (me_params self) then
        let candidates := sdiff available_peers (fo_peers fanout) in
        let needed := gp_d (me_params self) - Zlen (fo_peers fanout) in
        new_peers ← random_sample pick (set_iter candidates) (Z.min needed (Zlen candidates));
        Ok (with_fanouts (dset topic {| fo_peers := sunion (fo_peers fanout) new_peers;
                                        fo_last_published := fo_last_published fanout |} (me_fanouts self)) self)
      else Ok self
  end.

Definition update_fanout `{SetOrder} (pick : list bytes -> nat -> list bytes) (now : Z) (topic : TopicId)
    (available_peers : list PeerId) (self : MeshState) : result (list PeerId * MeshState) :=
  if subscribed topic self then Ok (get_mesh_peers topic self, self)
  else
    let peers := get_fanout_peers topic self in
    let self := with_fanouts (dset topic {| fo_peers := peers; fo_last_published := now |} (me_fanouts self)) self in
    self ← fill_fanout pick topic available_peers self;
    Ok (get_fanout_peers topic self, self).

Definition cleanup_fanouts (ttl now : Z) (self : MeshState) : Z * MeshState :=
  let stale := map fst (filter (fun e => is_stale now ttl e.2 = true) (me_fanouts self)) in
  (Zlen stale, with_fanouts (foldl (fun fanouts topic => ddel topic fanouts) (me_fanouts self) stale) self).

Definition select_peers_for_gossip `{SetOrder} (pick : list bytes -> nat -> list bytes) (topic : TopicId)
    (all_topic_peers : list PeerId) (self : MeshState) : result (list PeerId) :=
  let candidates := set_iter (sdiff all_topic_peers (get_mesh_peers topic self)) in
  if Zlen candidates <=? gp_d_lazy (me_params self) then Ok candidates
  else random_sample pick candidates (gp_d_lazy (me_params self)).
