(* ===== verification/GossipStateCorrect.v ===== *)
(** * Invariants of the gossipsub state

    A mesh exists exactly for the subscribed topics and never exceeds [d_high] peers, a
    fanout only for the others; the windows of the message cache hold exactly the cached
    messages.  A cached message is retrievable for as many heartbeats as the cache has
    windows. *)

From S2P Require Import Prelude Pydict Uint Varint Ssz Sha256 Merkle Containers GossipRpc GossipState.

(** ** Sizes of sets *)
Section SetSizes.
Context {A : Type} `{EqDecision A}.
Implicit Types (s : list A) (x : A).

Lemma Zlen_sadd x s : Zlen (sadd x s) <= Zlen s + 1.
Proof. unfold sadd. case_decide; [lia|]. rewrite length_app. cbn. lia. Qed.
Lemma Zlen_sdiscard x s : Zlen (sdiscard x s) <= Zlen s.
Proof. unfold sdiscard. pose proof (length_filter (fun y => y <> x) s). lia. Qed.
Lemma Zlen_sunion s1 s2 : Zlen (sunion s1 s2) <= Zlen s1 + Zlen s2.
Proof.
  unfold sunion. revert s1. induction s2 as [|x s2 IH]; intros s1; cbn [foldl]; [cbn; lia|].
  specialize (IH (sadd x s1)). pose proof (Zlen_sadd x s1). cbn [length]. lia.
Qed.
End SetSizes.

Record params_ok (p : GossipsubParameters) : Prop := {
  po_d : 0 <= gp_d_low p <= gp_d p /\ gp_d p <= gp_d_high p;
  po_lazy : 0 <= gp_d_lazy p;
  po_mcache : 1 <= gp_mcache_length p
}.

(** An outcome of [random.sample] *)
Definition picks (pick : list bytes -> nat -> list bytes) : Prop :=
  forall l k, pick l k ⊆+ l /\ ((k <= length l)%nat -> length (pick l k) = k).

Lemma random_sample_Ok pick l k :
  picks pick -> 0 <= k <= Zlen l -> exists r, random_sample pick l k = Ok r /\ r ⊆+ l /\ Zlen r = k.
Proof.
  intros Hp Hk. unfold random_sample. rewrite (proj2 (Z.leb_le 0 k)), (proj2 (Z.leb_le k _)) by lia. cbn [andb].
  destruct (Hp l (Z.to_nat k)) as [Hs Hl]. eexists. split_and!; [done|done|]. rewrite Hl by lia. lia.
Qed.

Section Mesh.
Context (p : GossipsubParameters) (Hp : params_ok p).

Definition mesh_ok (mesh : TopicMesh) : Prop := NoDup (tm_peers mesh) /\ Zlen (tm_peers mesh) <= gp_d_high p.
Record mesh_inv (m : MeshState) : Prop := {
  mi_params : me_params m = p;
  mi_meshes_wf : dict_wf (me_meshes m);
  mi_fanouts_wf : dict_wf (me_fanouts m);
  mi_subscriptions : NoDup (me_subscriptions m);
  mi_dom t : t ∈ me_subscriptions m <-> is_Some (dget t (me_meshes m));
  mi_mesh t mesh : dget t (me_meshes m) = Some mesh -> mesh_ok mesh;
  mi_fanout t f : dget t (me_fanouts m) = Some f -> NoDup (fo_peers f) /\ Zlen (fo_peers f) <= gp_d p /\ t ∉ me_subscriptions m
}.

Lemma mesh_inv_init : mesh_inv {| me_params := p; me_meshes := []; me_fanouts := []; me_subscriptions := [] |}.
Proof.
  split; cbn; try done; [constructor..|]. intros t. split; [by intros ?%elem_of_nil|by intros []].
Qed.

Lemma subscribed_true t m : subscribed t m = true <-> t ∈ me_subscriptions m.
Proof. apply bool_decide_eq_true. Qed.

Lemma mesh_peers_ok t m : mesh_inv m -> NoDup (get_mesh_peers t m) /\ Zlen (get_mesh_peers t m) <= gp_d_high p.
Proof.
  intros Hm. unfold get_mesh_peers. destruct (dget t (me_meshes m)) as [mesh|] eqn:E; [by eapply mi_mesh|].
  split; [constructor|]. cbn. destruct Hp. lia.
Qed.

Lemma fanout_peers_ok t m : mesh_inv m -> NoDup (get_fanout_peers t m) /\ Zlen (get_fanout_peers t m) <= gp_d p.
Proof.
  intros Hm. unfold get_fanout_peers. destruct (dget t (me_fanouts m)) as [f|] eqn:E; [by destruct (mi_fanout _ Hm _ _ E) as (? & ? & _)|].
  split; [constructor|]. cbn. destruct Hp. lia.
Qed.

(** Replacing the mesh of a subscribed topic, or the fanout of another one *)
Lemma mesh_update t mesh m :
  mesh_inv m -> is_Some (dget t (me_meshes m)) -> mesh_ok mesh -> mesh_inv (with_meshes (dset t mesh (me_meshes m)) m).
Proof.
  intros [] Hs Hok. split; cbn; try done.
  - by apply dset_wf.
  - intros u. rewrite mi_dom0, dget_dset. case_decide; [subst; naive_solver|done].
  - intros u mesh'. rewrite dget_dset. case_decide; [intros [= <-]; done|apply mi_mesh0].
Qed.

Lemma fanout_update t f m :
  mesh_inv m -> t ∉ me_subscriptions m -> NoDup (fo_peers f) -> Zlen (fo_peers f) <= gp_d p ->
  mesh_inv (with_fanouts (dset t f (me_fanouts m)) m).
Proof.
  intros [] Ht Hn Hl. split; cbn; try done; [by apply dset_wf|].
  intros u f'. rewrite dget_dset. case_decide; [intros [= <-]; subst; done|apply mi_fanout0].
Qed.

Lemma mesh_subscribe_inv t m : mesh_inv m -> mesh_inv (mesh_subscribe t m).
Proof.
  intros Hm. unfold mesh_subscribe. destruct (subscribed t m) eqn:Es; [done|].
  apply bool_decide_eq_false in Es. pose proof (fanout_peers_ok t m Hm) as [Hn Hl]. unfold get_fanout_peers in *.
  pose proof Hm as [].
  assert (forall fanouts, dict_wf fanouts -> (forall u f, dget u fanouts = Some f -> u <> t /\ dget u (me_fanouts m) = Some f) ->
    forall peers, NoDup peers -> Zlen peers <= gp_d p ->
    mesh_inv {| me_params := me_params m; me_meshes := dset t {| tm_peers := peers |} (me_meshes m); me_fanouts := fanouts;
                me_subscriptions := sadd t (me_subscriptions m) |}) as Hok.
  { intros fanouts Hw Hf peers Hpn Hpl. split; cbn; try done.
    - by apply dset_wf.
    - by apply NoDup_sadd.
    - intros u. rewrite elem_of_sadd, dget_dset, mi_dom0. case_decide; naive_solver.
    - intros u mesh. rewrite dget_dset. case_decide; [|apply mi_mesh0]. intros [= <-]. split; cbn; [done|]. destruct Hp. lia.
    - intros u f [Hne Hu]%Hf. destruct (mi_fanout0 _ _ Hu) as (? & ? & ?). split_and!; [done|done|].
      rewrite elem_of_sadd. by intros [?|?]. }
  destruct (dget t (me_fanouts m)) as [f|] eqn:E.
  - apply Hok; [by apply ddel_wf| |done|done]. intros u g. rewrite dget_ddel. by case_decide.
  - apply Hok; [done| |constructor|cbn; destruct Hp; lia]. intros u g Hu. split; [congruence|done].
Qed.

Lemma mesh_unsubscribe_inv t m : mesh_inv m -> mesh_inv (mesh_unsubscribe t m).2.
Proof.
  intros []. split; cbn; try done.
  - by apply ddel_wf.
  - by apply NoDup_sdiscard.
  - intros u. rewrite elem_of_sdiscard, dget_ddel, mi_dom0. case_decide; [subst|naive_solver]. split; [tauto|by intros []].
  - intros u mesh. rewrite dget_ddel. case_decide; [done|apply mi_mesh0].
  - intros u f Hu. destruct (mi_fanout0 _ _ Hu) as (? & ? & ?). split_and!; [done..|]. rewrite elem_of_sdiscard. tauto.
Qed.

Lemma remove_from_mesh_inv t peer m : mesh_inv m -> mesh_inv (remove_from_mesh t peer m).2.
Proof.
  intros Hm. unfold remove_from_mesh. destruct (dget t (me_meshes m)) as [mesh|] eqn:E; [|done].
  destruct (mi_mesh _ Hm _ _ E) as [Hn Hl]. unfold tm_remove_peer.
  destruct (bool_decide _); cbn [snd]; apply mesh_update; try done; split; cbn; [by apply NoDup_sdiscard|].
  pose proof (Zlen_sdiscard peer (tm_peers mesh)). lia.
Qed.

Lemma add_to_mesh_inv t peer m : mesh_inv m -> Zlen (get_mesh_peers t m) < gp_d_high p -> mesh_inv (add_to_mesh t peer m).2.
Proof.
  intros Hm Hlt. unfold add_to_mesh, get_mesh_peers in *. destruct (dget t (me_meshes m)) as [mesh|] eqn:E; [|done].
  destruct (mi_mesh _ Hm _ _ E) as [Hn Hl]. unfold tm_add_peer.
  destruct (bool_decide _); cbn [snd]; apply mesh_update; try done; split; cbn; [by apply NoDup_sadd|].
  pose proof (Zlen_sadd peer (tm_peers mesh)). lia.
Qed.

Lemma add_to_mesh_peers t peer m :
  dget t (me_meshes m) <> None -> peer ∉ get_mesh_peers t m ->
  get_mesh_peers t (add_to_mesh t peer m).2 = get_mesh_peers t m ++ [peer].
Proof.
  unfold add_to_mesh, get_mesh_peers. destruct (dget t (me_meshes m)) as [mesh|] eqn:E; [|done]. intros _ Hn.
  unfold tm_add_peer. rewrite bool_decide_false by done. cbn. rewrite dget_dset_eq. cbn. unfold sadd. by rewrite decide_False.
Qed.

Context `{SetOrder}.

Lemma fill_fanout_Ok pick t available m :
  picks pick -> mesh_inv m -> exists m', fill_fanout pick t available m = Ok m' /\ mesh_inv m' /\ me_subscriptions m' = me_subscriptions m.
Proof.
  intros Hk Hm. unfold fill_fanout. destruct (dget t (me_fanouts m)) as [f|] eqn:E; [|by exists m].
  destruct (mi_fanout _ Hm _ _ E) as (Hn & Hl & Ht). rewrite (mi_params _ Hm).
  destruct (Z.ltb_spec (Zlen (fo_peers f)) (gp_d p)) as [Hlt|]; [|by exists m].
  set (candidates := sdiff available (fo_peers f)).
  assert (Zlen (set_iter candidates) = Zlen candidates) as Hlen by (by rewrite set_iter_perm).
  destruct (random_sample_Ok pick (set_iter candidates) (Z.min (gp_d p - Zlen (fo_peers f)) (Zlen candidates)) Hk)
    as (r & -> & _ & Hr); [rewrite Hlen; lia|]. mcbn. eexists. split_and!; [done| |done].
  apply fanout_update; cbn; [done|done|by apply NoDup_sunion|]. pose proof (Zlen_sunion (fo_peers f) r). lia.
Qed.

Lemma update_fanout_Ok pick now t available m :
  picks pick -> mesh_inv m -> exists peers m', update_fanout pick now t available m = Ok (peers, m') /\ mesh_inv m'.
Proof.
  intros Hk Hm. unfold update_fanout. destruct (subscribed t m) eqn:Es; [by do 2 eexists|].
  apply bool_decide_eq_false in Es. destruct (fanout_peers_ok t m Hm) as [Hn Hl].
  destruct (fill_fanout_Ok pick t available (with_fanouts (dset t {| fo_peers := get_fanout_peers t m; fo_last_published := now |}
    (me_fanouts m)) m) Hk) as (m' & -> & Hm' & _); [by apply fanout_update|]. mcbn. by do 2 eexists.
Qed.

Lemma cleanup_fanouts_inv ttl now m : mesh_inv m -> mesh_inv (cleanup_fanouts ttl now m).2.
Proof.
  intros Hm. unfold cleanup_fanouts. cbn [snd]. set (stale := map fst _). clearbody stale.
  assert (forall fanouts, dict_wf fanouts -> (forall u f, dget u fanouts = Some f -> dget u (me_fanouts m) = Some f) ->
    mesh_inv (with_fanouts (foldl (fun fanouts topic => ddel topic fanouts) fanouts stale) m)) as Hf; [|apply Hf; [apply Hm|done]].
  induction stale as [|t stale IH]; intros fanouts Hw Hsub; cbn [foldl].
  - destruct Hm. split; cbn; try done. intros u f Hu%Hsub. by eapply mi_fanout0.
  - apply IH; [by apply ddel_wf|]. intros u f. rewrite dget_ddel. case_decide; [done|apply Hsub].
Qed.

Lemma select_peers_Ok pick t peers m :
  picks pick -> mesh_inv m -> exists r, select_peers_for_gossip pick t peers m = Ok r /\ Zlen r <= gp_d_lazy p.
Proof.
  intros Hk Hm. unfold select_peers_for_gossip. rewrite (mi_params _ Hm).
  destruct (Z.leb_spec (Zlen (set_iter (sdiff peers (get_mesh_peers t m)))) (gp_d_lazy p)); [by eexists|].
  destruct Hp. destruct (random_sample_Ok pick (set_iter (sdiff peers (get_mesh_peers t m))) (gp_d_lazy p) Hk) as (r & -> & _ & Hr); [lia|].
  exists r. split; [done|lia].
Qed.
End Mesh.
#[export] Hint Resolve mesh_subscribe_inv mesh_unsubscribe_inv remove_from_mesh_inv cleanup_fanouts_inv : spec.

(** ** The message cache *)
Record mcache_inv (c : MessageCache) : Prop := {
  mk_size : 1 <= Zlen (mc_windows c) <= mc_length c;
  mk_wf : dict_wf (mc_by_id c);
  mk_nodup : NoDup (mjoin (mc_windows c));
  mk_ids id : id ∈ mjoin (mc_windows c) <-> is_Some (dget id (mc_by_id c))
}.

Lemma new_message_cache_inv n g : 1 <= n -> mcache_inv (new_message_cache n g).
Proof.
  intros Hn. unfold new_message_cache. rewrite (proj2 (Z.leb_gt n 0)) by lia. split; cbn; [lia|constructor..|].
  intros id. split; [by intros ?%elem_of_nil|by intros []].
Qed.

Lemma mcache_put_new topic message c :
  mcache_inv c -> dget (gm_id message) (mc_by_id c) = None ->
  exists newest windows, mc_windows c = newest :: windows /\
    mcache_put topic message c = Ok (true, {| mc_length := mc_length c; mc_gossip := mc_gossip c;
      mc_windows := (newest ++ [gm_id message]) :: windows;
      mc_by_id := dset (gm_id message) {| ce_message := message; ce_topic := topic |} (mc_by_id c) |}).
Proof.
  intros [] E. unfold mcache_put. rewrite (proj2 (dmem_false _ _) E). destruct (mc_windows c) as [|newest windows]; [cbn in *; lia|].
  exists newest, windows. split; [done|]. unfold sadd. rewrite decide_False; [done|]. intros Hin.
  assert (is_Some (dget (gm_id message) (mc_by_id c))) as [e He]; [|congruence]. apply mk_ids0. cbn. set_solver.
Qed.

Lemma mcache_put_Ok topic message c :
  mcache_inv c -> exists b c', mcache_put topic message c = Ok (b, c') /\ mcache_inv c' /\ mc_length c' = mc_length c /\ mc_gossip c' = mc_gossip c /\
    forall id e, dget id (mc_by_id c') = Some e ->
      dget id (mc_by_id c) = Some e \/ (id = gm_id message /\ e = {| ce_message := message; ce_topic := topic |}).
Proof.
  intros Hc. destruct (dget (gm_id message) (mc_by_id c)) as [e|] eqn:E.
  { exists false, c. unfold mcache_put. rewrite (proj2 (dmem_true _ _)) by eauto. split_and!; auto. }
  destruct (mcache_put_new topic message c Hc E) as (newest & windows & Ew & ->). do 2 eexists. split; [done|].
  destruct Hc. rewrite Ew in *. cbn [mjoin list_join] in *. split_and!; cbn; [|done|done|].
  - split; cbn.
    + cbn in mk_size0. lia.
    + by apply dset_wf.
    + rewrite <- app_assoc. cbn. rewrite <- Permutation_middle. constructor; [|done]. rewrite mk_ids0, E. by intros [].
    + intros id. rewrite <- app_assoc, dget_dset. cbn. rewrite <- Permutation_middle, elem_of_cons, mk_ids0. case_decide; naive_solver.
  - intros id e. rewrite dget_dset. case_decide; [intros [= <-]; auto|auto].
Qed.

Lemma evict_ids_get l d id : dget id (evict_ids l d).2 = if decide (id ∈ l) then None else dget id d.
Proof.
  unfold evict_ids. generalize 0. revert d. induction l as [|x l IH]; intros d n; cbn [foldl]; [by rewrite decide_False by apply not_elem_of_nil|].
  destruct (dmem x d) eqn:Em; rewrite IH; [rewrite dget_ddel|apply dmem_false in Em]; repeat case_decide; set_solver.
Qed.
Lemma evict_ids_wf l d : dict_wf d -> dict_wf (evict_ids l d).2.
Proof.
  unfold evict_ids. generalize 0. revert d. induction l as [|x l IH]; intros d n Hd; cbn [foldl]; [done|].
  destruct (dmem x d); apply IH; [by apply ddel_wf|done].
Qed.

Lemma mjoin_snoc {A} (l : list (list A)) x : mjoin (l ++ [x]) = mjoin l ++ x.
Proof.
  induction l as [|y l IH]; [apply app_nil_r|]. change (mjoin ((y :: l) ++ [x])) with (y ++ mjoin (l ++ [x])). by rewrite IH, app_assoc.
Qed.

(** The two cases of a shift: a window is added, or it replaces the oldest. *)
Lemma shift_cases c :
  mcache_inv c ->
  (Zlen (mc_windows c) < mc_length c /\
     shift c = Ok (0, {| mc_length := mc_length c; mc_gossip := mc_gossip c; mc_windows := [] :: mc_windows c; mc_by_id := mc_by_id c |})) \/
  (exists windows oldest n, mc_windows c = windows ++ [oldest] /\ Zlen windows + 1 = mc_length c /\
     shift c = Ok (n, {| mc_length := mc_length c; mc_gossip := mc_gossip c; mc_windows := [] :: windows;
                         mc_by_id := (evict_ids oldest (mc_by_id c)).2 |})).
Proof.
  intros []. unfold shift. destruct (Z.leb_spec (mc_length c) (Zlen (mc_windows c))) as [Hl|Hl]; [right|by left].
  destruct (exists_last (l := mc_windows c)) as (windows & oldest & Ew); [intros E; rewrite E in mk_size0; cbn in mk_size0; lia|].
  rewrite Ew, last_snoc in *. mcbn. destruct (evict_ids oldest (mc_by_id c)) as [n d] eqn:Ev. mcbn. rewrite removelast_last.
  exists windows, oldest, n. split_and!; [done| |by rewrite Ev]. rewrite length_app in *. cbn in *. lia.
Qed.

Lemma shift_Ok c :
  mcache_inv c -> exists n c', shift c = Ok (n, c') /\ mcache_inv c' /\ mc_length c' = mc_length c /\ mc_gossip c' = mc_gossip c /\
    forall id e, dget id (mc_by_id c') = Some e -> dget id (mc_by_id c) = Some e.
Proof.
  intros Hc. destruct (shift_cases c Hc) as [[Hl ->]|(windows & oldest & n & Ew & Hn & ->)]; do 2 eexists; (split; [done|]); destruct Hc.
  - split_and!; try done. split; cbn; try done. lia.
  - rewrite Ew, mjoin_snoc in *. apply NoDup_app in mk_nodup0 as (H1 & H2 & H3). split_and!; cbn; try done.
    + split; cbn.
      * lia.
      * by apply evict_ids_wf.
      * done.
      * intros id. rewrite evict_ids_get. specialize (mk_ids0 id). rewrite elem_of_app in mk_ids0. specialize (H2 id).
        case_decide; [|naive_solver]. split; [by intros ?%H2|by intros []].
    + intros id e. rewrite evict_ids_get. by case_decide.
Qed.

(** [id] is in the window of age [k]. *)
Definition aged (c : MessageCache) (id : MessageId) (k : nat) : Prop := exists w, mc_windows c !! k = Some w /\ id ∈ w.

Lemma aged_present c id k : mcache_inv c -> aged c id k -> is_Some (dget id (mc_by_id c)).
Proof.
  intros Hc (w & Hw & Hid). apply (mk_ids _ Hc). apply list_elem_of_join. exists w. split; [done|]. by eapply list_elem_of_lookup_2.
Qed.

Lemma mcache_put_aged topic message c b c' id k :
  mcache_inv c -> mcache_put topic message c = Ok (b, c') -> aged c id k -> aged c' id k.
Proof.
  intros Hc E Ha. destruct (dget (gm_id message) (mc_by_id c)) as [e|] eqn:Eg.
  { unfold mcache_put in E. rewrite (proj2 (dmem_true _ _)) in E by eauto. by injection E as _ <-. }
  destruct (mcache_put_new topic message c Hc Eg) as (newest & windows & Ew & E'). rewrite E' in E. injection E as _ <-.
  destruct Ha as (w & Hw & Hid). rewrite Ew in Hw. unfold aged. cbn. destruct k as [|k]; cbn in *; [|by exists w].
  injection Hw as ->. eexists. split; [done|]. set_solver.
Qed.

Lemma shift_aged c n c' id k :
  mcache_inv c -> shift c = Ok (n, c') -> aged c id k ->
  if Z.of_nat k + 1 <? mc_length c then aged c' id (S k) /\ dget id (mc_by_id c') = dget id (mc_by_id c)
  else dget id (mc_by_id c') = None.
Proof.
  intros Hc E (w & Hw & Hid). pose proof (lookup_lt_Some _ _ _ Hw) as Hk.
  destruct (shift_cases c Hc) as [[Hl E']|(windows & oldest & m & Ew & Hn & E')]; rewrite E' in E; injection E as _ <-; cbn.
  - rewrite (proj2 (Z.ltb_lt _ _)) by lia. split; [by exists w|done].
  - destruct Hc as [_ _ Hnd _]. rewrite Ew, mjoin_snoc in Hnd. apply NoDup_app in Hnd as (_ & Hd & _). rewrite Ew in Hw, Hk.
    rewrite length_app in Hk. cbn in Hk. rewrite evict_ids_get. destruct (Z.ltb_spec (Z.of_nat k + 1) (mc_length c)) as [Hlt|Hge].
    + rewrite lookup_app_l in Hw by lia. rewrite decide_False; [by split; [exists w|]|]. apply Hd, list_elem_of_join.
      exists w. split; [done|]. by eapply list_elem_of_lookup_2.
    + rewrite lookup_app_r in Hw by lia. replace (k - length windows)%nat with O in Hw by lia. injection Hw as ->. by rewrite decide_True.
Qed.

(** ** Runs of the message cache *)
Inductive mcache_op := Put (topic : TopicId) (message : GossipsubMessage) | Shift.
Definition mcache_step (c : MessageCache) (op : mcache_op) : result MessageCache :=
  match op with
  | Put topic message => '(_, c) ← mcache_put topic message c; Ok c
  | Shift => '(_, c) ← shift c; Ok c
  end.
Fixpoint shifts (ops : list mcache_op) : Z :=
  match ops with [] => 0 | Shift :: ops => 1 + shifts ops | _ :: ops => shifts ops end.
(** [ops] puts no message with this id. *)
Definition puts_other (id : MessageId) (op : mcache_op) : Prop := match op with Put _ message => gm_id message <> id | Shift => True end.

Lemma shifts_nonneg ops : 0 <= shifts ops.
Proof. induction ops as [|[] ops IH]; cbn; lia. Qed.

Lemma mcache_step_Ok c op :
  mcache_inv c -> exists c', mcache_step c op = Ok c' /\ mcache_inv c' /\ mc_length c' = mc_length c /\ mc_gossip c' = mc_gossip c.
Proof.
  intros Hc. destruct op as [topic message|]; cbn [mcache_step].
  - destruct (mcache_put_Ok topic message c Hc) as (b & c' & -> & Hc' & Hl & Hg & _). by exists c'.
  - destruct (shift_Ok c Hc) as (n & c' & -> & Hc' & Hl & Hg & _). by exists c'.
Qed.

Lemma mcache_run_Ok ops : forall c,
  mcache_inv c -> exists c', foldM mcache_step c ops = Ok c' /\ mcache_inv c' /\ mc_length c' = mc_length c /\ mc_gossip c' = mc_gossip c.
Proof.
  induction ops as [|op ops IH]; intros c Hc; cbn [foldM]; [by exists c|].
  destruct (mcache_step_Ok c op Hc) as (c1 & -> & Hc1 & E1 & E2). mcbn.
  destruct (IH c1 Hc1) as (c2 & -> & Hc2 & E3 & E4). exists c2. split_and!; [done|done|congruence..].
Qed.

(** A message ages by one window per shift until it leaves. *)
Lemma mcache_run_aged ops : forall c c' id k e,
  mcache_inv c -> aged c id k -> dget id (mc_by_id c) = Some e -> foldM mcache_step c ops = Ok c' ->
  Z.of_nat k + shifts ops < mc_length c ->
  aged c' id (k + Z.to_nat (shifts ops)) /\ dget id (mc_by_id c') = Some e.
Proof.
  induction ops as [|op ops IH]; intros c c' id k e Hc Ha He E Hk; cbn [foldM shifts] in *.
  { injection E as <-. by rewrite Nat.add_0_r. }
  pose proof (shifts_nonneg ops) as Hs. apply bind_Ok in E as (c1 & E1 & E).
  destruct (mcache_step_Ok c op Hc) as (c1' & E1' & Hc1 & El & _). rewrite E1 in E1'. injection E1' as <-.
  destruct op as [topic message|]; cbn [mcache_step] in E1; apply bind_Ok in E1 as ([b c2] & Es & [= <-]).
  - eapply IH; [done|exact (mcache_put_aged _ _ _ _ _ _ _ Hc Es Ha)| |done|by rewrite El].
    destruct (mcache_put_Ok topic message c Hc) as (b' & c3 & E3 & _ & _ & _ & _). rewrite Es in E3. injection E3 as <- <-.
    unfold mcache_put in Es. destruct (dmem (gm_id message) (mc_by_id c)) eqn:Em; [by injection Es as _ <-|].
    destruct (mc_windows c) as [|w ws]; [done|]. injection Es as _ <-. cbn. apply dmem_false in Em.
    rewrite dget_dset_ne; [done|]. intros ->. congruence.
  - pose proof (shift_aged c b c2 id k Hc Es Ha) as Hsh. rewrite (proj2 (Z.ltb_lt _ _)) in Hsh by lia. destruct Hsh as [Ha' Eg].
    rewrite <- Eg in He. destruct (IH c2 c' id (S k) e Hc1 Ha' He E ltac:(lia)) as [Ha2 He2]. split; [|done].
    replace (k + Z.to_nat (1 + shifts ops))%nat with (S k + Z.to_nat (shifts ops))%nat by lia. done.
Qed.

Lemma mcache_run_absent ops : forall c c' id,
  mcache_inv c -> dget id (mc_by_id c) = None -> Forall (puts_other id) ops -> foldM mcache_step c ops = Ok c' ->
  dget id (mc_by_id c') = None.
Proof.
  induction ops as [|op ops IH]; intros c c' id Hc He Ho E; cbn [foldM] in E; [by injection E as <-|].
  apply Forall_cons in Ho as [Ho Hos]. apply bind_Ok in E as (c1 & E1 & E).
  destruct (mcache_step_Ok c op Hc) as (c1' & E1' & Hc1 & _). rewrite E1 in E1'. injection E1' as <-.
  eapply (IH c1); [done| |done|done]. destruct (dget id (mc_by_id c1)) as [e|] eqn:E'; [|done]. exfalso.
  destruct op as [topic message|]; cbn [mcache_step] in E1; apply bind_Ok in E1 as ([b c2] & Es & [= <-]).
  - destruct (mcache_put_Ok topic message c Hc) as (b' & c3 & E3 & _ & _ & _ & Hd). rewrite Es in E3. injection E3 as <- <-.
    destruct (Hd _ _ E') as [?|[-> _]]; [congruence|done].
  - destruct (shift_Ok c Hc) as (n & c3 & E3 & _ & _ & _ & Hd). rewrite Es in E3. injection E3 as <- <-. apply Hd in E'. congruence.
Qed.

(** Once it has been shifted out it is gone, unless it is put again. *)
Lemma mcache_run_gone ops : forall c c' id k,
  mcache_inv c -> aged c id k -> Forall (puts_other id) ops -> foldM mcache_step c ops = Ok c' ->
  mc_length c <= Z.of_nat k + shifts ops -> Z.of_nat k < mc_length c -> dget id (mc_by_id c') = None.
Proof.
  induction ops as [|op ops IH]; intros c c' id k Hc Ha Ho E Hk Hkl; cbn [foldM shifts] in *; [lia|].
  apply Forall_cons in Ho as [Ho Hos]. apply bind_Ok in E as (c1 & E1 & E).
  destruct (mcache_step_Ok c op Hc) as (c1' & E1' & Hc1 & El & _). rewrite E1 in E1'. injection E1' as <-.
  destruct op as [topic message|]; cbn [mcache_step] in E1; apply bind_Ok in E1 as ([b c2] & Es & [= <-]).
  - eapply (IH c2 c' id k); [done|exact (mcache_put_aged _ _ _ _ _ _ _ Hc Es Ha)|done|done|by rewrite El..].
  - pose proof (shift_aged c b c2 id k Hc Es Ha) as Hsh. destruct (Z.ltb_spec (Z.of_nat k + 1) (mc_length c)) as [Hlt|Hge].
    + destruct Hsh as [Ha' _]. eapply (IH c2 c' id (S k)); [done|done|done|done|lia..].
    + by eapply (mcache_run_absent ops c2).
Qed.

(** A new message can be fetched from the cache until it has been shifted as often as
    the cache has windows, is advertised for its topic while it is in the recent windows,
    and is gone afterwards unless it is put again; no operation raises. *)
Theorem message_retained `{SetOrder} (mcache_length mcache_gossip : Z) (before after : list mcache_op)
    (topic : TopicId) (message : GossipsubMessage) :
  1 <= mcache_length ->
  exists c0 c,
    foldM mcache_step (new_message_cache mcache_length mcache_gossip) before = Ok c0 /\
    foldM mcache_step c0 (Put topic message :: after) = Ok c /\
    (mcache_get (gm_id message) c0 = None ->
      (shifts after < mcache_length -> mcache_get (gm_id message) c = Some message) /\
      (shifts after < Z.min mcache_gossip mcache_length -> gm_id message ∈ get_gossip_ids topic c) /\
      (mcache_length <= shifts after -> Forall (puts_other (gm_id message)) after -> mcache_get (gm_id message) c = None)).
Proof.
  intros Hl. pose proof (new_message_cache_inv mcache_length mcache_gossip Hl) as Hn.
  destruct (mcache_run_Ok before _ Hn) as (c0 & E0 & Hc0 & El0 & Eg0). cbn in El0, Eg0.
  destruct (mcache_run_Ok (Put topic message :: after) c0 Hc0) as (c & E & Hc & El & Eg).
  exists c0, c. split_and!; [done|done|]. intros Hnone. pose proof (shifts_nonneg after) as Hs.
  cbn [foldM] in E. apply bind_Ok in E as (c1 & E1 & E). cbn [mcache_step] in E1. apply bind_Ok in E1 as ([b c1'] & Ep & [= <-]).
  assert (dget (gm_id message) (mc_by_id c0) = None) as Hd by (unfold mcache_get in Hnone; by destruct (dget _ _)).
  destruct (mcache_put_new topic message c0 Hc0 Hd) as (newest & windows & Ew & Ep'). rewrite Ep' in Ep. injection Ep as <- <-.
  destruct (mcache_step_Ok c0 (Put topic message) Hc0) as (c1 & E1 & Hc1 & El1 & _). cbn [mcache_step] in E1. rewrite Ep' in E1.
  injection E1 as E1. rewrite E1 in E.
  assert (aged c1 (gm_id message) 0 /\ dget (gm_id message) (mc_by_id c1) = Some {| ce_message := message; ce_topic := topic |}) as [Ha He].
  { rewrite <- E1. split; [eexists; split; [done|set_solver]|]. apply dget_dset_eq. }
  split_and!.
  - intros Hlt. destruct (mcache_run_aged after c1 c _ 0 _ Hc1 Ha He E) as [_ Hg]; [lia|]. unfold mcache_get. by rewrite Hg.
  - intros Hlt. destruct (mcache_run_aged after c1 c _ 0 _ Hc1 Ha He E) as [(w & Hw & Hid) Hg]; [lia|].
    pose proof (lookup_lt_Some _ _ _ Hw) as Hk. unfold get_gossip_ids. apply list_elem_of_filter. rewrite Hg. split; [done|].
    apply list_elem_of_bind. exists w. split; [by rewrite set_iter_perm|]. apply (list_elem_of_lookup_2 _ (0 + Z.to_nat (shifts after))%nat). rewrite lookup_take_lt by lia. exact Hw.
  - intros Hge Ho. unfold mcache_get. by rewrite (mcache_run_gone after c1 c _ 0 Hc1 Ha Ho E) by lia.
Qed.

Lemma message_retained_witness :
  let message := {| gm_topic := [Byte.x61]; gm_raw_data := [Byte.x01]; gm_cached_id := Some [Byte.x07] |} in
  exists c0 c,
    foldM mcache_step (new_message_cache 6 3) [] = Ok c0 /\
    foldM mcache_step c0 [Put [Byte.x61] message; Shift; Shift] = Ok c /\
    mcache_get (gm_id message) c = Some message /\ gm_id message ∈ get_gossip_ids (H := insertion_order) [Byte.x61] c.
Proof.
  intros message. destruct (message_retained (H := insertion_order) 6 3 [] [Shift; Shift] [Byte.x61] message ltac:(done)) as (c0 & c & E0 & E & Hc).
  exists c0, c. split; [exact E0|]. split; [exact E|]. destruct Hc as (H1 & H2 & _); [by injection E0 as <-|]. split; [by apply H1|by apply H2].
Defined.
