(* ===== verification/StateTransition.v ===== *)
(** * The state transition (spec/forks/lstar/state_transition.py)

    [process_slots], [process_block_header], [process_attestations] and
    [state_transition] as functions in the error monad; the local variables the
    attestation loop updates are the record [Tally]. *)

From S2P Require Import Prelude Pydict Uint Ssz SszCorrect Sha256 Merkle Containers.

(** [generate_genesis] *)
Definition generate_genesis (genesis_time : Z) (validators : list Validator) : State :=
  let genesis_config := {| genesis_time := genesis_time |} in
  let genesis_header := {|
    hd_slot := 0;
    hd_proposer_index := 0;
    hd_parent_root := ZERO_HASH;
    hd_state_root := ZERO_HASH;
    hd_body_root := hash_tree_root {| bd_attestations := [] |}
  |} in
  {|
    st_config := genesis_config;
    st_slot := 0;
    st_latest_block_header := genesis_header;
    st_latest_justified := {| cp_root := ZERO_HASH; cp_slot := 0 |};
    st_latest_finalized := {| cp_root := ZERO_HASH; cp_slot := 0 |};
    st_historical_block_hashes := [];
    st_justified_slots := [];
    st_validators := validators;
    st_justifications_roots := [];
    st_justifications_validators := []
  |}.

(** [latest_block_header.model_copy(update={"state_root": root})] *)
Definition header_with_state_root (h : BlockHeader) (root : Bytes32) : BlockHeader := {|
  hd_slot := hd_slot h;
  hd_proposer_index := hd_proposer_index h;
  hd_parent_root := hd_parent_root h;
  hd_state_root := root;
  hd_body_root := hd_body_root h
|}.

(** [state.model_copy(update={"latest_block_header": h, "slot": slot})] *)
Definition state_with_header_slot (s : State) (h : BlockHeader) (slot : Z) : State := {|
  st_config := st_config s;
  st_slot := slot;
  st_latest_block_header := h;
  st_latest_justified := st_latest_justified s;
  st_latest_finalized := st_latest_finalized s;
  st_historical_block_hashes := st_historical_block_hashes s;
  st_justified_slots := st_justified_slots s;
  st_validators := st_validators s;
  st_justifications_roots := st_justifications_roots s;
  st_justifications_validators := st_justifications_validators s
|}.

(** One iteration of the loop of [process_slots]. *)
Definition process_slot (state : State) : result State :=
  let header := st_latest_block_header state in
  let needs_state_root := bool_decide (hd_state_root header = ZERO_HASH) in
  let cached_state_root :=
    if needs_state_root then hash_tree_root state else hd_state_root header in
  slot ← uint_add 64 (st_slot state) 1;
  Ok (state_with_header_slot state (header_with_state_root header cached_state_root) slot).

(** The loop runs once per slot, so [target_slot - state.slot] is enough fuel. *)
Definition process_slots (state : State) (target_slot : Z) : result State :=
  reject! BLOCK_SLOT_NOT_IN_FUTURE when target_slot <=? st_slot state;;
  while (Z.to_nat (target_slot - st_slot state))
    (fun state => st_slot state <? target_slot) process_slot state.

Definition process_block_header (state : State) (block : Block) : result State :=
  let parent_header := st_latest_block_header state in
  let parent_root := hash_tree_root parent_header in
  reject! BLOCK_SLOT_MISMATCH when negb (bk_slot block =? st_slot state);;
  reject! BLOCK_OLDER_THAN_LATEST_HEADER when bk_slot block <=? hd_slot parent_header;;
  proposer ← proposer_for_slot (st_slot state) (Zlen (st_validators state));
  reject! WRONG_PROPOSER when negb (bk_proposer_index block =? proposer);;
  reject! PARENT_ROOT_MISMATCH when negb (bool_decide (bk_parent_root block = parent_root));;
  let '(new_latest_justified, new_latest_finalized) :=
    if hd_slot parent_header =? 0 then
      ({| cp_root := parent_root; cp_slot := 0 |}, {| cp_root := parent_root; cp_slot := 0 |})
    else (st_latest_justified state, st_latest_finalized state) in
  gap ← uint_sub 64 (bk_slot block) (hd_slot parent_header);
  num_empty_slots ← uint_sub 64 gap 1;
  with_parent ← HistoricalBlockHashes_new (st_historical_block_hashes state ++ [parent_root]);
  new_historical_block_hashes ←
    HistoricalBlockHashes_new (with_parent ++ repeat ZERO_HASH (Z.to_nat num_empty_slots));
  last_materialized_slot ← uint_sub 64 (bk_slot block) 1;
  new_justified_slots ←
    extend_to_slot (st_justified_slots state) (cp_slot new_latest_finalized) last_materialized_slot;
  let new_latest_block_header := {|
    hd_slot := bk_slot block;
    hd_proposer_index := bk_proposer_index block;
    hd_parent_root := bk_parent_root block;
    hd_state_root := ZERO_HASH;
    hd_body_root := hash_tree_root (bk_body block)
  |} in
  Ok {|
    st_config := st_config state;
    st_slot := st_slot state;
    st_latest_block_header := new_latest_block_header;
    st_latest_justified := new_latest_justified;
    st_latest_finalized := new_latest_finalized;
    st_historical_block_hashes := new_historical_block_hashes;
    st_justified_slots := new_justified_slots;
    st_validators := st_validators state;
    st_justifications_roots := st_justifications_roots state;
    st_justifications_validators := st_justifications_validators state
  |}.

(** ** Attestations *)

(** The unpacked vote map: tracked root to one flag per validator. *)
Abbreviation Votes := (dict Bytes32 (list bool)).

Definition unpack_justifications (state : State) : result Votes :=
  check! negb (bool_decide (ZERO_HASH ∈ st_justifications_roots state)) else AssertionError;;
  let validator_count := Zlen (st_validators state) in
  segments ← batched (st_justifications_validators state) validator_count;
  pairs ← zip_strict (st_justifications_roots state) segments;
  Ok (dict_of pairs).

(** [{root: Slot(i) for i, root in enumerate(hashes[start:], start=start)}] *)
Fixpoint enumerate_roots (i : Z) (roots : list Bytes32) : list (Bytes32 * Z) :=
  match roots with
  | [] => []
  | root :: roots => (root, i) :: enumerate_roots (i + 1) roots
  end.
Definition root_to_slot (state : State) : dict Bytes32 Z :=
  let start_slot := cp_slot (st_latest_finalized state) + 1 in
  dict_of (enumerate_roots start_slot (drop (Z.to_nat start_slot) (st_historical_block_hashes state))).

(** The locals the loop over attestations updates. *)
Record Tally := {
  tl_justified : Checkpoint;
  tl_finalized : Checkpoint;
  tl_justified_slots : list bool;
  tl_votes : Votes
}.

(** [votes[i] = Boolean(True)] *)
Definition mark_vote (votes : list bool) (i : Z) : result (list bool) :=
  check! i <? Zlen votes else IndexError;;
  Ok (<[Z.to_nat i := true]> votes).

(** [sum(bool(v) for v in votes)] *)
Definition count_votes (votes : list bool) : Z := Zlen (filter (fun b : bool => b = true) votes).

(** [any(Slot(s).is_justifiable_after(f) for s in range(lo, lo + n))] *)
Fixpoint any_justifiable (n : nat) (lo finalized_slot : Z) : result bool :=
  match n with
  | O => Ok false
  | S n =>
      b ← is_justifiable_after lo finalized_slot;
      if (b : bool) then Ok true else any_justifiable n (lo + 1) finalized_slot
  end.

(** Finalize the source and rebase the tracking onto it. *)
Definition finalize_source (slots : dict Bytes32 Z) (source : Checkpoint) (t : Tally)
    : result Tally :=
  let old_finalized_slot := cp_slot (tl_finalized t) in
  delta ← uint_sub 64 (cp_slot source) old_finalized_slot;
  if 0 <? delta then
    justified_slots ← JustifiedSlots_new (drop (Z.to_nat delta) (tl_justified_slots t));
    check! forallb (fun root => dmem root slots) (dkeys (tl_votes t)) else AssertionError;;
    Ok {|
      tl_justified := tl_justified t;
      tl_finalized := source;
      tl_justified_slots := justified_slots;
      tl_votes :=
        dfilter (fun root => match dget root slots with
                             | Some slot => cp_slot source <? slot
                             | None => false
                             end) (tl_votes t)
    |}
  else
    Ok {|
      tl_justified := tl_justified t;
      tl_finalized := source;
      tl_justified_slots := tl_justified_slots t;
      tl_votes := tl_votes t
    |}.

(** The target reached the threshold: record it, forget its votes, and finalize
    the source when no justifiable slot lies strictly between. *)
Definition justify_target (slots : dict Bytes32 Z) (source target : Checkpoint) (t : Tally)
    : result Tally :=
  let finalized_slot := cp_slot (tl_finalized t) in
  let latest_justified :=
    if cp_slot target >? cp_slot (tl_justified t) then target else tl_justified t in
  justified_index ← of_option AssertionError (justified_index_after (cp_slot target) finalized_slot);
  check! justified_index <? Zlen (tl_justified_slots t) else IndexError;;
  justified_slots ←
    JustifiedSlots_new (<[Z.to_nat justified_index := true]> (tl_justified_slots t));
  let t := {|
    tl_justified := latest_justified;
    tl_finalized := tl_finalized t;
    tl_justified_slots := justified_slots;
    tl_votes := ddel (cp_root target) (tl_votes t)
  |} in
  if cp_slot source >? finalized_slot then
    first ← uint_add 64 (cp_slot source) 1;
    between ← any_justifiable (Z.to_nat (cp_slot target - first)) first finalized_slot;
    if (between : bool) then Ok t else finalize_source slots source t
  else Ok t.

(** Count one attestation that passed the filters. *)
Definition count_attestation (slots : dict Bytes32 Z) (validator_count : Z)
    (attestation : AggregatedAttestation) (t : Tally) : result Tally :=
  let source := ad_source (aa_data attestation) in
  let target := ad_target (aa_data attestation) in
  voting_validator_indices ← to_validator_indices (aa_bits attestation);
  reject! VALIDATOR_INDEX_OUT_OF_RANGE
    when negb (forallb (fun i => is_within_registry i validator_count) voting_validator_indices);;
  let fresh :=
    if dmem (cp_root target) (tl_votes t) then tl_votes t
    else dset (cp_root target) (repeat false (Z.to_nat validator_count)) (tl_votes t) in
  flags ← dgetitem (cp_root target) fresh;
  flags ← foldM mark_vote flags voting_validator_indices;
  let t := {|
    tl_justified := tl_justified t;
    tl_finalized := tl_finalized t;
    tl_justified_slots := tl_justified_slots t;
    tl_votes := dset (cp_root target) flags fresh
  |} in
  let count := count_votes flags in
  if 3 * count >=? 2 * validator_count then justify_target slots source target t
  else Ok t.

(** The body of the loop over attestations: the vote filters, then the count. *)
Definition process_attestation (hashes : list Bytes32) (slots : dict Bytes32 Z)
    (validator_count : Z) (t : Tally) (attestation : AggregatedAttestation) : result Tally :=
  let source := ad_source (aa_data attestation) in
  let target := ad_target (aa_data attestation) in
  let finalized_slot := cp_slot (tl_finalized t) in
  source_justified ← is_slot_justified (tl_justified_slots t) finalized_slot (cp_slot source);
  if negb source_justified then Ok t else
  target_justified ← is_slot_justified (tl_justified_slots t) finalized_slot (cp_slot target);
  if (target_justified : bool) then Ok t else
  if negb (lies_on_chain (aa_data attestation) hashes) then Ok t else
  if cp_slot target <=? cp_slot source then Ok t else
  target_justifiable ← is_justifiable_after (cp_slot target) finalized_slot;
  if negb target_justifiable then Ok t else
  count_attestation slots validator_count attestation t.

(** [sorted(roots)]: by byte order *)
Fixpoint insert_root (root : Bytes32) (l : list Bytes32) : list Bytes32 :=
  match l with
  | [] => [root]
  | x :: l' => if bytes_leb root x then root :: l else x :: insert_root root l'
  end.
Definition sorted_roots (l : list Bytes32) : list Bytes32 := foldr insert_root [] l.

Definition process_attestations (state : State) (attestations : list AggregatedAttestation)
    : result State :=
  let distinct_attestation_data := set_of (map aa_data attestations) in
  reject! TOO_MANY_ATTESTATION_DATA
    when Zlen distinct_attestation_data >? MAX_ATTESTATIONS_DATA;;
  justifications ← unpack_justifications state;
  let validator_count := Zlen (st_validators state) in
  t ← foldM
        (process_attestation (st_historical_block_hashes state) (root_to_slot state) validator_count)
        {| tl_justified := st_latest_justified state;
           tl_finalized := st_latest_finalized state;
           tl_justified_slots := st_justified_slots state;
           tl_votes := justifications |}
        attestations;
  let roots := sorted_roots (dkeys (tl_votes t)) in
  justifications_roots ← JustificationRoots_new roots;
  segments ← mapM (fun root => dgetitem root (tl_votes t)) roots;
  justifications_validators ← JustificationValidators_new (mjoin segments);
  Ok {|
    st_config := st_config state;
    st_slot := st_slot state;
    st_latest_block_header := st_latest_block_header state;
    st_latest_justified := tl_justified t;
    st_latest_finalized := tl_finalized t;
    st_historical_block_hashes := st_historical_block_hashes state;
    st_justified_slots := tl_justified_slots t;
    st_validators := st_validators state;
    st_justifications_roots := justifications_roots;
    st_justifications_validators := justifications_validators
  |}.

Definition process_block (state : State) (block : Block) : result State :=
  state ← process_block_header state block;
  process_attestations state (bd_attestations (bk_body block)).

Definition state_transition (state : State) (block : Block) : result State :=
  advanced ← process_slots state (bk_slot block);
  new_state ← process_block advanced block;
  let computed_state_root := hash_tree_root new_state in
  reject! STATE_ROOT_MISMATCH
    when negb (bool_decide (bk_state_root block = computed_state_root));;
  Ok new_state.
