(* ===== verification/Samples.v ===== *)
(** * A sample chain

    Two forks over a genesis with three validators, built by running the model:
    [A1], [A2], [A3] (justifying [A1], then justifying [A2] and finalizing [A1])
    and [B1], [B2] (justifying [B1], a sibling of [A1]).  The witnesses of the
    later files evaluate the theorems on these blocks. *)

From S2P Require Import Prelude Pydict Uint Ssz SszCorrect Sha256 Merkle Containers StateTransition.

Definition sample_key : bytes := Eval vm_compute in repeat Byte.x00 52.
Definition sample_validator (i : Z) : Validator := {|
  val_attestation_public_key := sample_key;
  val_proposal_public_key := sample_key;
  val_index := i
|}.
Definition sample_registry : list Validator :=
  [sample_validator 0; sample_validator 1; sample_validator 2].
Definition sample_genesis : State := Eval vm_compute in generate_genesis 1000 sample_registry.

(** The block a proposer would build: the roots are those of the transition. *)
Definition build (s : State) (slot : Z) (atts : list AggregatedAttestation) : result (Block * State) :=
  advanced ← process_slots s slot;
  proposer ← proposer_for_slot slot (Zlen (st_validators s));
  let block root := {|
    bk_slot := slot;
    bk_proposer_index := proposer;
    bk_parent_root := hash_tree_root (st_latest_block_header advanced);
    bk_state_root := root;
    bk_body := {| bd_attestations := atts |}
  |} in
  post ← process_block advanced (block ZERO_HASH);
  Ok (block (hash_tree_root post), post).

Definition vote (slot : Z) (source target : Checkpoint) : AttestationData := {|
  ad_slot := slot; ad_head := target; ad_target := target; ad_source := source
|}.
Definition attestation (bits : list bool) (d : AttestationData) : AggregatedAttestation :=
  {| aa_bits := bits; aa_data := d |}.

Definition empty_block : Block * State :=
  ({| bk_slot := 0; bk_proposer_index := 0; bk_parent_root := ZERO_HASH;
      bk_state_root := ZERO_HASH; bk_body := {| bd_attestations := [] |} |}, sample_genesis).
Definition run (r : result (Block * State)) : Block * State :=
  match r with Ok p => p | Err _ => empty_block end.

Definition A1 : Block * State := Eval vm_compute in run (build sample_genesis 1 []).
Definition genesis_checkpoint : Checkpoint :=
  Eval vm_compute in {| cp_root := bk_parent_root A1.1; cp_slot := 0 |}.
Definition A1_checkpoint : Checkpoint :=
  Eval vm_compute in {| cp_root := hash_tree_root A1.1; cp_slot := 1 |}.
Definition A2 : Block * State := Eval vm_compute in
  run (build A1.2 2 [attestation [true; true] (vote 1 genesis_checkpoint A1_checkpoint)]).
Definition A2_checkpoint : Checkpoint :=
  Eval vm_compute in {| cp_root := hash_tree_root A2.1; cp_slot := 2 |}.
Definition A3 : Block * State := Eval vm_compute in
  run (build A2.2 3 [attestation [true; false; true] (vote 2 A1_checkpoint A2_checkpoint)]).

(** A fork at slot 1: the same slot with a redundant vote in the body. *)
Definition B1 : Block * State := Eval vm_compute in
  run (build sample_genesis 1 [attestation [true] (vote 0 genesis_checkpoint genesis_checkpoint)]).
Definition B1_checkpoint : Checkpoint :=
  Eval vm_compute in {| cp_root := hash_tree_root B1.1; cp_slot := 1 |}.
Definition B2 : Block * State := Eval vm_compute in
  run (build B1.2 2 [attestation [false; true; true] (vote 1 genesis_checkpoint B1_checkpoint)]).

Lemma genesis_eq : generate_genesis 1000 sample_registry = sample_genesis.
Proof. vm_compute. reflexivity. Qed.
Lemma A1_accepted : state_transition sample_genesis A1.1 = Ok A1.2.
Proof. vm_compute. reflexivity. Qed.
Lemma A2_accepted : state_transition A1.2 A2.1 = Ok A2.2.
Proof. vm_compute. reflexivity. Qed.
Lemma A3_accepted : state_transition A2.2 A3.1 = Ok A3.2.
Proof. vm_compute. reflexivity. Qed.
Lemma B1_accepted : state_transition sample_genesis B1.1 = Ok B1.2.
Proof. vm_compute. reflexivity. Qed.
Lemma B2_accepted : state_transition B1.2 B2.1 = Ok B2.2.
Proof. vm_compute. reflexivity. Qed.

(** What the two forks justify and finalize. *)
Example A2_justifies :
  st_latest_justified A2.2 = A1_checkpoint /\ st_latest_finalized A2.2 = genesis_checkpoint.
Proof. split; reflexivity. Qed.
Example A3_finalizes :
  st_latest_justified A3.2 = A2_checkpoint /\ st_latest_finalized A3.2 = A1_checkpoint.
Proof. split; reflexivity. Qed.
Example B2_justifies : st_latest_justified B2.2 = B1_checkpoint.
Proof. reflexivity. Qed.
