(* ===== verification/StateCorrect.v ===== *)
(** * Correctness of the state transition

    [state_inv] is the invariant the packed layout of a state relies on: lengths
    of the history and of the two bitfields, checkpoints on the chain, tracked
    roots on the chain past the finalized slot.  Every step of the transition
    preserves it, and on states that satisfy it no step raises anything but a
    rejection.  [reachable] adds the history: which votes back a justification. *)

From S2P Require Import Prelude Pydict Uint Ssz SszCorrect Sha256 Merkle Containers StateTransition.

#[global] Opaque hash_tree_root.
#[global] Arguments Z.pow : simpl never.
#[global] Arguments uint_add : simpl never.
#[global] Arguments uint_sub : simpl never.
#[global] Arguments is_justifiable_after : simpl never.

Abbreviation st_head_slot s := (hd_slot (st_latest_block_header s)).
Abbreviation st_justified_slot s := (cp_slot (st_latest_justified s)).
Abbreviation st_finalized_slot s := (cp_slot (st_latest_finalized s)).

(** ** Ordering of roots *)
Definition root_lt (a b : Bytes32) : Prop := bytes_leb a b = true /\ a <> b.

(** A checkpoint past genesis names a block, not an empty slot. *)
Definition named (c : Checkpoint) : Prop := 0 < cp_slot c -> cp_root c <> ZERO_HASH.

Record state_inv (s : State) : Prop := {
  inv_head : 0 <= st_head_slot s <= st_slot s;
  inv_slot : in_range 64 (st_slot s);
  inv_history : Zlen (st_historical_block_hashes s) = st_head_slot s;
  inv_history_limit : st_head_slot s <= HISTORICAL_ROOTS_LIMIT;
  inv_registry : Zlen (st_validators s) <= VALIDATOR_REGISTRY_LIMIT;
  inv_order : 0 <= st_finalized_slot s <= st_justified_slot s;
  inv_justified : st_justified_slot s < Z.max 1 (st_head_slot s);
  inv_bits : Zlen (st_justified_slots s) = Z.max 0 (st_head_slot s - 1 - st_finalized_slot s);
  inv_justified_bit :
    is_slot_justified (st_justified_slots s) (st_finalized_slot s) (st_justified_slot s) = Ok true;
  inv_on_chain : 0 < st_head_slot s ->
    root_at (st_historical_block_hashes s) (st_latest_justified s) = true /\
    root_at (st_historical_block_hashes s) (st_latest_finalized s) = true;
  inv_sorted : StronglySorted root_lt (st_justifications_roots s);
  inv_nonzero : ZERO_HASH ∉ st_justifications_roots s;
  inv_flags : length (st_justifications_validators s) =
    (length (st_justifications_roots s) * length (st_validators s))%nat;
  inv_tracked r : r ∈ st_justifications_roots s ->
    exists i, st_finalized_slot s < i /\ st_historical_block_hashes s !! Z.to_nat i = Some r;
  inv_named : named (st_latest_justified s) /\ named (st_latest_finalized s)
}.

(** ** Slots *)
Definition slot_advanced (s : State) (root : Bytes32) (target : Z) : State :=
  state_with_header_slot s (header_with_state_root (st_latest_block_header s) root) target.

(** The header's state root after some empty slots: cached once, from the state
    before them. *)
Definition cached_root (s : State) : Bytes32 :=
  if bool_decide (hd_state_root (st_latest_block_header s) = ZERO_HASH) then hash_tree_root s
  else hd_state_root (st_latest_block_header s).

Lemma process_slot_Ok s :
  in_range 64 (st_slot s + 1) -> process_slot s = Ok (slot_advanced s (cached_root s) (st_slot s + 1)).
Proof.
  intros Hr. unfold process_slot, uint_add. rewrite uint_new_in_range by done. done.
Qed.

Lemma process_slots_loop n s target :
  0 <= st_slot s < target -> in_range 64 target -> n = Z.to_nat (target - st_slot s) ->
  exists root,
    while n (fun state => st_slot state <? target) process_slot s = Ok (slot_advanced s root target) /\
    (cached_root s <> ZERO_HASH -> root = cached_root s).
Proof.
  revert s. unfold in_range. induction n as [|n IH]; intros s Hs Ht Hn; [lia|].
  cbn [while]. rewrite (proj2 (Z.ltb_lt _ _)) by lia.
  rewrite process_slot_Ok by (unfold in_range; lia). mcbn.
  destruct (Z.eq_dec (st_slot s + 1) target) as [<-|Hne].
  - exists (cached_root s). split; [|done].
    destruct n; simpl; by rewrite Z.ltb_irrefl.
  - destruct (IH (slot_advanced s (cached_root s) (st_slot s + 1))) as (root & E & Hroot);
      [simpl; lia..|].
    exists root. split; [exact E|]. intros Hz. rewrite Hroot.
    + unfold cached_root at 1. simpl. by rewrite bool_decide_eq_false_2.
    + unfold cached_root at 1. simpl. by rewrite bool_decide_eq_false_2.
Qed.

Lemma process_slots_Ok s target s' :
  0 <= st_slot s -> in_range 64 target -> process_slots s target = Ok s' ->
  st_slot s < target /\ exists root, s' = slot_advanced s root target /\
    (cached_root s <> ZERO_HASH -> root = cached_root s).
Proof.
  intros Hs Ht H. unfold process_slots in H. destruct (target <=? st_slot s) eqn:E; [done|].
  bool_to_prop. split; [lia|].
  destruct (process_slots_loop _ s target ltac:(lia) Ht eq_refl) as (root & Ew & Hr).
  rewrite Ew in H. injection H as <-. eauto.
Qed.

Lemma process_slots_Err s target e :
  0 <= st_slot s -> in_range 64 target -> process_slots s target = Err e ->
  target <= st_slot s /\ e = SpecRejectionError BLOCK_SLOT_NOT_IN_FUTURE.
Proof.
  intros Hs Ht H. unfold process_slots in H. destruct (target <=? st_slot s) eqn:E.
  - injection H as <-. bool_to_prop. auto.
  - bool_to_prop.
    destruct (process_slots_loop _ s target ltac:(lia) Ht eq_refl) as (root & Ew & _).
    by rewrite Ew in H.
Qed.

Lemma slot_advanced_inv s root target :
  state_inv s -> st_slot s <= target -> in_range 64 target -> state_inv (slot_advanced s root target).
Proof. intros [] Hle Hr. unfold in_range in *. constructor; simpl; auto; lia. Qed.

(** ** Headers *)

(** The checkpoints a block starts from: the first block after genesis makes its
    parent justified and finalized. *)
Definition anchored (s : State) : Checkpoint * Checkpoint :=
  let parent_root := hash_tree_root (st_latest_block_header s) in
  if st_head_slot s =? 0 then
    ({| cp_root := parent_root; cp_slot := 0 |}, {| cp_root := parent_root; cp_slot := 0 |})
  else (st_latest_justified s, st_latest_finalized s).

(** The history a block at [slot] extends: its parent's root, then a zero hash per
    skipped slot. *)
Definition extended_history (s : State) (slot : Z) : list Bytes32 :=
  st_historical_block_hashes s ++ hash_tree_root (st_latest_block_header s) ::
    repeat ZERO_HASH (Z.to_nat (slot - st_head_slot s - 1)).

Definition unprocessed_header (b : Block) : BlockHeader := header_with_state_root (header_of b) ZERO_HASH.

(** The header checks, in the order the code makes them. *)
Definition header_error (s : State) (b : Block) : option exn :=
  if negb (bk_slot b =? st_slot s) then Some (SpecRejectionError BLOCK_SLOT_MISMATCH)
  else if bk_slot b <=? st_head_slot s then Some (SpecRejectionError BLOCK_OLDER_THAN_LATEST_HEADER)
  else if Zlen (st_validators s) =? 0 then Some (SpecRejectionError EMPTY_VALIDATOR_REGISTRY)
  else if negb (bk_proposer_index b =? st_slot s mod Zlen (st_validators s))
    then Some (SpecRejectionError WRONG_PROPOSER)
  else if negb (bool_decide (bk_parent_root b = hash_tree_root (st_latest_block_header s)))
    then Some (SpecRejectionError PARENT_ROOT_MISMATCH)
  else if bk_slot b >? HISTORICAL_ROOTS_LIMIT then Some SSZValueError
  else None.

Lemma extend_to_slot_Ok bits fin target :
  0 <= fin -> target < HISTORICAL_ROOTS_LIMIT ->
  extend_to_slot bits fin target =
    Ok (bits ++ repeat false (Z.to_nat (target - fin - Zlen bits))).
Proof.
  intros Hf Ht. unfold extend_to_slot, justified_index_after. destruct (Z.leb_spec target fin).
  - replace (Z.to_nat _) with 0%nat by lia. by rewrite app_nil_r.
  - destruct (Z.leb_spec (target - fin - 1 + 1 - Zlen bits) 0).
    + replace (Z.to_nat _) with 0%nat by lia. by rewrite app_nil_r.
    + unfold JustifiedSlots_new. rewrite length_app, repeat_length.
      rewrite (proj2 (Z.leb_le _ _)) by lia.
      by replace (target - fin - 1 + 1 - Zlen bits) with (target - fin - Zlen bits) by lia.
Qed.

Lemma proposer_for_slot_Ok slot n :
  in_range 64 slot -> n <> 0 -> 0 <= n -> proposer_for_slot slot n = Ok (slot mod n).
Proof.
  unfold in_range. intros Hs Hn Hp. unfold proposer_for_slot.
  rewrite (proj2 (Z.eqb_neq _ _)) by done. apply uint_new_in_range.
  pose proof (Z.mod_pos_bound slot n). pose proof (Z.mod_le slot n). unfold in_range. lia.
Qed.

(** The new state of [process_block_header]. *)
Definition header_applied (s : State) (b : Block) : State := {|
  st_config := st_config s;
  st_slot := st_slot s;
  st_latest_block_header := unprocessed_header b;
  st_latest_justified := (anchored s).1;
  st_latest_finalized := (anchored s).2;
  st_historical_block_hashes := extended_history s (bk_slot b);
  st_justified_slots :=
    st_justified_slots s ++
      repeat false (Z.to_nat (bk_slot b - 1 - cp_slot (anchored s).2 - Zlen (st_justified_slots s)));
  st_validators := st_validators s;
  st_justifications_roots := st_justifications_roots s;
  st_justifications_validators := st_justifications_validators s
|}.

Lemma history_new_spec (s : State) (slot : Z) :
  Zlen (st_historical_block_hashes s) = st_head_slot s -> 0 <= st_head_slot s < slot ->
  (h1 ← HistoricalBlockHashes_new
          (st_historical_block_hashes s ++ [hash_tree_root (st_latest_block_header s)]);
   HistoricalBlockHashes_new (h1 ++ repeat ZERO_HASH (Z.to_nat (slot - st_head_slot s - 1)))) =
  if slot >? HISTORICAL_ROOTS_LIMIT then Err SSZValueError else Ok (extended_history s slot).
Proof.
  intros Hh Hs. unfold HistoricalBlockHashes_new, extended_history.
  assert (Zlen ((st_historical_block_hashes s ++ [hash_tree_root (st_latest_block_header s)]) ++
    repeat ZERO_HASH (Z.to_nat (slot - st_head_slot s - 1))) = slot) as Hlen.
  { rewrite !length_app, repeat_length. simpl length. lia. }
  assert (Zlen (st_historical_block_hashes s ++ [hash_tree_root (st_latest_block_header s)]) =
    st_head_slot s + 1) as Hlen1 by (rewrite length_app; simpl length; lia).
  rewrite Hlen1. rewrite Z.gtb_ltb. destruct (Z.leb_spec (st_head_slot s + 1) HISTORICAL_ROOTS_LIMIT).
  - mcbn. rewrite Hlen. destruct (Z.leb_spec slot HISTORICAL_ROOTS_LIMIT).
    + rewrite (proj2 (Z.ltb_ge _ _)) by lia. by rewrite <- app_assoc.
    + by rewrite (proj2 (Z.ltb_lt _ _)) by lia.
  - mcbn. by rewrite (proj2 (Z.ltb_lt _ _)) by lia.
Qed.

Lemma anchored_cases s :
  (st_head_slot s = 0 /\ anchored s =
    ({| cp_root := hash_tree_root (st_latest_block_header s); cp_slot := 0 |},
     {| cp_root := hash_tree_root (st_latest_block_header s); cp_slot := 0 |})) \/
  (st_head_slot s <> 0 /\ anchored s = (st_latest_justified s, st_latest_finalized s)).
Proof. unfold anchored. destruct (Z.eqb_spec (st_head_slot s) 0); auto. Qed.

(** The header step is the checks of [header_error], then [header_applied]. *)
Lemma process_block_header_eq s b :
  state_inv s -> in_range 64 (bk_slot b) ->
  process_block_header s b =
    match header_error s b with Some e => Err e | None => Ok (header_applied s b) end.
Proof.
  intros Hinv Hb. pose proof (inv_head s Hinv) as Hh. pose proof (inv_history s Hinv) as Hlen.
  unfold process_block_header, header_error.
  destruct (Z.eqb_spec (bk_slot b) (st_slot s)) as [Heq|]; [cbn [negb]|done].
  destruct (Z.leb_spec (bk_slot b) (st_head_slot s)) as [|Hlt]; [done|].
  destruct (Z.eqb_spec (Zlen (st_validators s)) 0) as [E0|E0].
  { unfold proposer_for_slot. by rewrite E0. }
  rewrite proposer_for_slot_Ok by (try apply Hinv; lia). mcbn.
  destruct (bk_proposer_index b =? _); [cbn [negb]|done].
  destruct (bool_decide _) eqn:Ep; [cbn [negb]|done].
  assert (0 <= cp_slot (anchored s).2) as Hfin.
  { pose proof (inv_order s Hinv). destruct (anchored_cases s) as [[_ ->]|[_ ->]]; simpl; lia. }
  assert (header_applied s b = let '(j, f) := anchored s in
    {| st_config := st_config s; st_slot := st_slot s;
       st_latest_block_header := unprocessed_header b;
       st_latest_justified := j; st_latest_finalized := f;
       st_historical_block_hashes := extended_history s (bk_slot b);
       st_justified_slots := st_justified_slots s ++ repeat false
         (Z.to_nat (bk_slot b - 1 - cp_slot f - Zlen (st_justified_slots s)));
       st_validators := st_validators s;
       st_justifications_roots := st_justifications_roots s;
       st_justifications_validators := st_justifications_validators s |}) as ->.
  { unfold header_applied. by destruct (anchored s). }
  unfold in_range in *. change (if st_head_slot s =? 0 then _ else _) with (anchored s).
  destruct (anchored s) as [j f]. simpl in Hfin.
  unfold uint_sub. rewrite (uint_new_in_range 64 (bk_slot b - st_head_slot s)) by
    (unfold in_range; lia). mcbn.
  rewrite (uint_new_in_range 64 (bk_slot b - st_head_slot s - 1)) by (unfold in_range; lia). mcbn.
  pose proof (history_new_spec s (bk_slot b) Hlen ltac:(lia)) as Hhist.
  destruct (HistoricalBlockHashes_new (_ ++ [_])) as [h1|e] eqn:E1; mcbn; mcbn_in Hhist.
  - rewrite Hhist. rewrite Z.gtb_ltb. destruct (Z.ltb_spec HISTORICAL_ROOTS_LIMIT (bk_slot b)); [done|].
    mcbn. rewrite (uint_new_in_range 64) by (unfold in_range; lia). mcbn.
    rewrite extend_to_slot_Ok by lia. done.
  - destruct (bk_slot b >? HISTORICAL_ROOTS_LIMIT); [|done]. by injection Hhist as ->.
Qed.

Lemma header_error_None s b :
  header_error s b = None ->
  bk_slot b = st_slot s /\ st_head_slot s < bk_slot b <= HISTORICAL_ROOTS_LIMIT /\
  Zlen (st_validators s) <> 0 /\
  bk_proposer_index b = st_slot s mod Zlen (st_validators s) /\
  bk_parent_root b = hash_tree_root (st_latest_block_header s).
Proof.
  unfold header_error. rewrite Z.gtb_ltb. repeat case_match; try done. intros _.
  bool_to_prop. repeat split; lia || done.
Qed.

Lemma length_extended_history s slot :
  Zlen (st_historical_block_hashes s) = st_head_slot s -> st_head_slot s < slot ->
  Zlen (extended_history s slot) = slot.
Proof.
  intros Hlen Hlt. unfold extended_history. rewrite length_app. simpl length.
  rewrite repeat_length. lia.
Qed.

Lemma root_at_app hashes ext c :
  root_at hashes c = true -> root_at (hashes ++ ext) c = true.
Proof.
  unfold root_at. rewrite !bool_decide_eq_true. intros H. by apply lookup_app_l_Some.
Qed.

(** Flags appended past the end do not change what is justified. *)
Lemma is_slot_justified_app bits ext fin slot b :
  is_slot_justified bits fin slot = Ok b -> is_slot_justified (bits ++ ext) fin slot = Ok b.
Proof.
  unfold is_slot_justified. destruct (justified_index_after slot fin); [|done].
  rewrite !of_option_Ok. apply lookup_app_l_Some.
Qed.

Lemma is_slot_justified_finalized bits fin slot :
  slot <= fin -> is_slot_justified bits fin slot = Ok true.
Proof.
  intros H. unfold is_slot_justified, justified_index_after.
  by rewrite (proj2 (Z.leb_le _ _)) by lia.
Qed.

Lemma tracked_nil_at_genesis s : state_inv s -> st_head_slot s = 0 -> st_justifications_roots s = [].
Proof.
  intros Hinv H0. pose proof (inv_history s Hinv) as Hl. pose proof (inv_tracked s Hinv) as Ht.
  destruct (st_justifications_roots s) as [|r l]; [done|].
  destruct (Ht r ltac:(left)) as (i & _ & Hi). destruct (st_historical_block_hashes s); [done|].
  simpl in Hl. lia.
Qed.

Lemma header_applied_inv s b :
  state_inv s -> header_error s b = None ->
  state_inv (header_applied s b) /\ 0 < st_head_slot (header_applied s b).
Proof.
  intros Hinv He. pose proof (tracked_nil_at_genesis s Hinv) as Hgen.
  apply header_error_None in He as (Hs & [Hlt Hlim] & Hv & _ & _).
  destruct Hinv as [I1 I2 I3 I4 I5 I6 I7 I8 I9 I10 I11 I12 I13 I14 I15].
  pose proof (length_extended_history s (bk_slot b) I3 Hlt) as Hlen.
  split; [|simpl; lia]. unfold in_range in *.
  destruct (anchored_cases s) as [[H0 Ha]|[H0 Ha]].
  - assert (root_at (extended_history s (bk_slot b)) (anchored s).2 = true) as Hr.
    { rewrite Ha. unfold root_at, extended_history. simpl.
      destruct (st_historical_block_hashes s); [|simpl in I3; lia]. simpl.
      by rewrite bool_decide_eq_true. }
    assert ((anchored s).1 = (anchored s).2) as Hj by (by rewrite Ha).
    constructor; simpl; rewrite ?Hlen, ?Hj; auto; try (rewrite Ha; simpl).
    + lia.
    + lia.
    + lia.
    + rewrite length_app, repeat_length. rewrite I8. lia.
    + by apply is_slot_justified_finalized.
    + rewrite (Hgen H0). by intros r ?%elem_of_nil.
    + unfold named. simpl. lia.
  - constructor; simpl; rewrite ?Hlen; auto; rewrite ?Ha; simpl.
    + lia.
    + lia.
    + lia.
    + rewrite length_app, repeat_length, Nat2Z.inj_add, I8. lia.
    + by apply is_slot_justified_app.
    + intros _. destruct (I10 ltac:(lia)). split; by apply root_at_app.
    + intros r Hr. destruct (I14 r Hr) as (i & Hi & Hl). exists i. split; [done|].
      by apply lookup_app_l_Some.
    + done.
Qed.

(** ** Attestations: the tally invariant *)
Lemma elem_of_enumerate_roots r i k l :
  (r, i) ∈ enumerate_roots k l <-> k <= i /\ l !! Z.to_nat (i - k) = Some r.
Proof.
  revert k. induction l as [|x l IH]; intros k; simpl.
  - rewrite elem_of_nil, lookup_nil. naive_solver.
  - rewrite elem_of_cons, IH. destruct (Z.eq_dec i k) as [->|Hne].
    + rewrite Z.sub_diag. change (Z.to_nat 0) with 0%nat. simpl. split.
      * intros [[= ->]|[? _]]; [split; [lia|done]|lia].
      * intros [_ [= ->]]. by left.
    + split.
      * intros [[= -> ->]|[H1 H2]]; [done|]. split; [lia|].
        by replace (Z.to_nat (i - k)) with (S (Z.to_nat (i - (k + 1)))) by lia.
      * intros [H1 H2]. right. split; [lia|].
        by replace (Z.to_nat (i - k)) with (S (Z.to_nat (i - (k + 1)))) in H2 by lia.
Qed.

(** [slots] maps the roots of the history past [fin] to a slot they occupy. *)
Definition maps_roots (hashes : list Bytes32) (fin : Z) (slots : dict Bytes32 Z) : Prop :=
  (forall r i, dget r slots = Some i -> fin < i /\ hashes !! Z.to_nat i = Some r) /\
  (forall r i, fin < i -> hashes !! Z.to_nat i = Some r -> is_Some (dget r slots)).

Lemma root_to_slot_maps s :
  0 <= st_finalized_slot s ->
  maps_roots (st_historical_block_hashes s) (st_finalized_slot s) (root_to_slot s).
Proof.
  intros Hf. unfold maps_roots, root_to_slot. split.
  - intros r i H%dget_dict_of_In%elem_of_enumerate_roots. destruct H as [Hi Hl].
    split; [lia|]. rewrite lookup_drop in Hl.
    by replace (Z.to_nat (st_finalized_slot s + 1) + Z.to_nat (i - (st_finalized_slot s + 1)))%nat
      with (Z.to_nat i) in Hl by lia.
  - intros r i Hi Hl. apply dget_is_Some, dict_of_keys, list_elem_of_fmap.
    exists (r, i). split; [done|]. apply elem_of_enumerate_roots. split; [lia|].
    rewrite lookup_drop.
    by replace (Z.to_nat (st_finalized_slot s + 1) + Z.to_nat (i - (st_finalized_slot s + 1)))%nat
      with (Z.to_nat i) by lia.
Qed.

Lemma is_slot_justified_Err bits fin slot e :
  is_slot_justified bits fin slot = Err e ->
  e = SpecRejectionError JUSTIFIED_SLOT_OUT_OF_RANGE /\ Zlen bits <= slot - fin - 1.
Proof.
  unfold is_slot_justified, justified_index_after. destruct (Z.leb_spec slot fin); [done|].
  destruct (_ !! _) eqn:E; simpl; [done|]. intros [= <-]. apply lookup_ge_None in E. split; [done|lia].
Qed.

Section Tally.
Context (hashes : list Bytes32) (n : nat) (f0 : Z) (slots : dict Bytes32 Z).
Context (Hslots : maps_roots hashes f0 slots).
Context (Hlimit : Zlen hashes <= HISTORICAL_ROOTS_LIMIT).

Record tally_inv (t : Tally) : Prop := {
  tal_f0 : 0 <= f0 <= cp_slot (tl_finalized t);
  tal_order : cp_slot (tl_finalized t) <= cp_slot (tl_justified t) < Zlen hashes;
  tal_bits : Zlen (tl_justified_slots t) = Zlen hashes - 1 - cp_slot (tl_finalized t);
  tal_justified_bit :
    is_slot_justified (tl_justified_slots t) (cp_slot (tl_finalized t)) (cp_slot (tl_justified t))
      = Ok true;
  tal_on_chain :
    root_at hashes (tl_justified t) = true /\ root_at hashes (tl_finalized t) = true;
  tal_wf : dict_wf (tl_votes t);
  tal_nonzero : ZERO_HASH ∉ dkeys (tl_votes t);
  tal_flags r flags : dget r (tl_votes t) = Some flags -> length flags = n;
  tal_tracked r : r ∈ dkeys (tl_votes t) ->
    exists i, cp_slot (tl_finalized t) < i /\ hashes !! Z.to_nat i = Some r;
  tal_named : named (tl_justified t) /\ named (tl_finalized t)
}.

(** What a vote that passed the filters satisfies. *)
Record eligible (t : Tally) (d : AttestationData) : Prop := {
  el_source : is_slot_justified (tl_justified_slots t) (cp_slot (tl_finalized t))
    (cp_slot (ad_source d)) = Ok true;
  el_target : is_slot_justified (tl_justified_slots t) (cp_slot (tl_finalized t))
    (cp_slot (ad_target d)) = Ok false;
  el_source_chain : root_at hashes (ad_source d) = true;
  el_target_chain : root_at hashes (ad_target d) = true;
  el_nonzero : cp_root (ad_target d) <> ZERO_HASH;
  el_source_nonzero : cp_root (ad_source d) <> ZERO_HASH;
  el_order : cp_slot (ad_source d) < cp_slot (ad_target d) < Zlen hashes;
  el_chain : lies_on_chain d hashes = true;
  el_justifiable : is_justifiable_after (cp_slot (ad_target d)) (cp_slot (tl_finalized t)) = Ok true
}.

Lemma lies_on_chain_true d :
  lies_on_chain d hashes = true ->
  root_at hashes (ad_source d) = true /\ root_at hashes (ad_target d) = true /\
  root_at hashes (ad_head d) = true /\ cp_root (ad_target d) <> ZERO_HASH /\
  cp_root (ad_source d) <> ZERO_HASH /\ cp_slot (ad_target d) < Zlen hashes.
Proof.
  unfold lies_on_chain. intros H. repeat case_match; try done. bool_to_prop. by split_and!.
Qed.

(** An unjustified target lies past the finalized slot. *)
Lemma unjustified_past bits fin slot : is_slot_justified bits fin slot = Ok false -> fin < slot.
Proof.
  intros H. destruct (Z.le_gt_cases slot fin); [|done]. by rewrite is_slot_justified_finalized in H.
Qed.

Lemma mark_vote_Ok flags i flags' :
  mark_vote flags i = Ok flags' -> length flags' = length flags /\ flags' = <[Z.to_nat i := true]> flags.
Proof. unfold mark_vote. intros H. unbind H. by rewrite length_insert. Qed.

Lemma mark_votes_length flags l flags' :
  foldM mark_vote flags l = Ok flags' -> length flags' = length flags.
Proof.
  intros H. eapply (foldM_invariant (fun fl => length fl = length flags)) in H; [done| |done].
  intros ??? _ <- [-> _]%mark_vote_Ok. done.
Qed.

Lemma mark_votes_total flags l :
  Forall (fun i => i < Zlen flags) l -> exists flags', foldM mark_vote flags l = Ok flags'.
Proof.
  revert flags. induction l as [|i l IH]; intros flags H; cbn [foldM]; [eauto|].
  apply Forall_cons in H as [Hi Hl].
  assert (mark_vote flags i = Ok (<[Z.to_nat i:=true]> flags)) as ->.
  { unfold mark_vote. by rewrite (proj2 (Z.ltb_lt _ _)) by done. }
  apply IH. by rewrite length_insert.
Qed.

(** The flag of a justified target is set; other flags keep their value. *)
Lemma is_slot_justified_set bits fin target slot b :
  fin < target ->
  is_slot_justified bits fin slot = Ok b ->
  is_slot_justified (<[Z.to_nat (target - fin - 1) := true]> bits) fin slot =
    Ok (b || (slot =? target)).
Proof.
  intros Ht. unfold is_slot_justified, justified_index_after.
  destruct (Z.leb_spec slot fin); [by intros [= <-]|]. rewrite !of_option_Ok. intros Hl.
  destruct (Z.eqb_spec slot target) as [->|Hne].
  - rewrite orb_true_r. apply list_lookup_insert_eq. by apply lookup_lt_Some in Hl.
  - rewrite orb_false_r. by rewrite list_lookup_insert_ne by lia.
Qed.

(** Rebasing onto a later finalized slot keeps the flags past it. *)
Lemma is_slot_justified_drop bits fin fin' slot b :
  fin <= fin' -> is_slot_justified bits fin slot = Ok b ->
  (slot <= fin' /\ is_slot_justified (drop (Z.to_nat (fin' - fin)) bits) fin' slot = Ok true) \/
  (fin' < slot /\ is_slot_justified (drop (Z.to_nat (fin' - fin)) bits) fin' slot = Ok b).
Proof.
  intros Hf H. destruct (Z.le_gt_cases slot fin') as [Hs|Hs].
  - left. split; [done|]. by apply is_slot_justified_finalized.
  - right. split; [done|]. revert H. unfold is_slot_justified, justified_index_after.
    rewrite !(proj2 (Z.leb_gt _ _)) by lia. rewrite !of_option_Ok, lookup_drop.
    by replace (Z.to_nat (fin' - fin) + Z.to_nat (slot - fin' - 1))%nat with
      (Z.to_nat (slot - fin - 1)) by lia.
Qed.

Lemma is_slot_justified_Ok_bound bits fin slot b :
  is_slot_justified bits fin slot = Ok b -> fin < slot -> slot - fin - 1 < Zlen bits.
Proof.
  unfold is_slot_justified, justified_index_after. intros H Hs.
  rewrite (proj2 (Z.leb_gt _ _)) in H by lia. apply of_option_Ok, lookup_lt_Some in H. lia.
Qed.

Lemma any_justifiable_total k lo fin :
  fin <= lo -> exists b, any_justifiable k lo fin = Ok b.
Proof.
  revert lo. induction k as [|k IH]; intros lo H; simpl; [eauto|].
  destruct (is_justifiable_total lo fin H) as [[] ->]; mcbn; [eauto|]. apply IH. lia.
Qed.

(** The search answers whether a slot of the range is a justification candidate. *)
Lemma any_justifiable_spec k lo fin b :
  fin <= lo -> any_justifiable k lo fin = Ok b ->
  (b = false <-> forall slot, lo <= slot < lo + Z.of_nat k -> ~ justifiable slot fin).
Proof.
  revert lo. induction k as [|k IH]; intros lo H; simpl.
  - intros [= <-]. split; [lia|done].
  - destruct (proj2 (is_justifiable_after_spec lo fin) H) as (j & -> & Hj). mcbn. destruct j.
    + intros [= <-]. split; [done|]. intros Hn. exfalso. apply (Hn lo); [lia|by apply Hj].
    + intros Ha%IH; [|lia]. rewrite Ha. split.
      * intros Hn slot Hs. destruct (Z.eq_dec slot lo) as [->|]; [|apply Hn; lia].
        intros Hc%Hj. done.
      * intros Hn slot Hs. apply Hn. lia.
Qed.

(** The tally once [source] is final: the flags are rebased onto it, and the votes
    kept are those of roots that map to a later slot. *)
Definition finalized_tally (source : Checkpoint) (t : Tally) : Tally := {|
  tl_justified := tl_justified t;
  tl_finalized := source;
  tl_justified_slots :=
    drop (Z.to_nat (cp_slot source - cp_slot (tl_finalized t))) (tl_justified_slots t);
  tl_votes :=
    dfilter (fun root => match dget root slots with
                         | Some slot => cp_slot source <? slot
                         | None => false
                         end) (tl_votes t)
|}.

Lemma finalize_source_ok t source :
  tally_inv t -> root_at hashes source = true -> cp_root source <> ZERO_HASH ->
  cp_slot (tl_finalized t) < cp_slot source -> in_range 64 (cp_slot source) ->
  cp_slot source <= cp_slot (tl_justified t) ->
  finalize_source slots source t = Ok (finalized_tally source t) /\
  tally_inv (finalized_tally source t).
Proof.
  intros Ht Hroot Hz Hlt Hr Hj. destruct Ht as [T1 T2 T3 T4 T5 T6 T7 T8 T9 T10].
  unfold finalize_source, uint_sub. unfold in_range in Hr.
  rewrite uint_new_in_range by (unfold in_range; lia). mcbn.
  rewrite (proj2 (Z.ltb_lt _ _)) by lia. unfold JustifiedSlots_new.
  rewrite (proj2 (Z.leb_le _ _)) by (rewrite length_drop; lia). mcbn.
  rewrite (proj2 (forallb_forall _ _)).
  2: { intros r Hin%list_elem_of_In. apply dmem_true. destruct (T9 r Hin) as (i & Hi & Hl).
       destruct Hslots as [_ H2]. apply (H2 r i); [lia|done]. }
  split; [done|]. constructor; simpl; try done.
  - lia.
  - lia.
  - rewrite length_drop. lia.
  - by destruct (is_slot_justified_drop _ _ _ _ _ (Z.lt_le_incl _ _ Hlt) T4) as [[_ ?]|[_ ?]].
  - split; [apply T5|done].
  - by apply dfilter_wf.
  - rewrite elem_of_dkeys_dfilter. by intros [? _].
  - intros r flags. rewrite dget_dfilter. repeat case_match; try done. apply T8.
  - intros r [_ Hp]%elem_of_dkeys_dfilter. destruct (dget r slots) as [i|] eqn:E; [|done].
    bool_to_prop. exists i. split; [done|]. by apply Hslots.
  - split; [apply T10|by intros _].
Qed.

Lemma finalized_votes source t r flags :
  dget r (tl_votes (finalized_tally source t)) = Some flags -> dget r (tl_votes t) = Some flags.
Proof. simpl. rewrite dget_dfilter. by repeat case_match. Qed.

Definition justified_tally (target : Checkpoint) (t : Tally) : Tally := {|
  tl_justified := if cp_slot target >? cp_slot (tl_justified t) then target else tl_justified t;
  tl_finalized := tl_finalized t;
  tl_justified_slots :=
    <[Z.to_nat (cp_slot target - cp_slot (tl_finalized t) - 1) := true]> (tl_justified_slots t);
  tl_votes := ddel (cp_root target) (tl_votes t)
|}.

Lemma justified_tally_inv t target :
  tally_inv t -> root_at hashes target = true -> cp_root target <> ZERO_HASH ->
  cp_slot (tl_finalized t) < cp_slot target < Zlen hashes ->
  tally_inv (justified_tally target t).
Proof.
  intros [T1 T2 T3 T4 T5 T6 T7 T8 T9 T10] Hroot Hz Hlt.
  assert (is_slot_justified (tl_justified_slots (justified_tally target t))
    (cp_slot (tl_finalized t)) (cp_slot target) = Ok true) as Hbit.
  { unfold is_slot_justified, justified_index_after. rewrite (proj2 (Z.leb_gt _ _)) by lia.
    apply of_option_Ok. simpl. apply list_lookup_insert_eq. lia. }
  constructor; simpl.
  - done.
  - destruct (_ >? _) eqn:E; rewrite Z.gtb_ltb in E; bool_to_prop; lia.
  - by rewrite length_insert.
  - destruct (_ >? _); [done|]. by rewrite (is_slot_justified_set _ _ _ _ true) by (done || lia).
  - destruct (_ >? _); [|done]. split; [done|apply T5].
  - by apply ddel_wf.
  - rewrite elem_of_dkeys_ddel. by intros [? _].
  - intros r flags. rewrite dget_ddel. case_decide; [done|]. apply T8.
  - intros r [Hr _]%elem_of_dkeys_ddel. by apply T9.
  - split; [|apply T10]. destruct (_ >? _); [by intros _|apply T10].
Qed.

(** [source] is past the finalized slot [fin], and no slot strictly between it and
    the target may be justified: the two checkpoints are consecutive. *)
Definition consecutive (fin : Z) (source target : Checkpoint) : Prop :=
  fin < cp_slot source /\
  forall slot, cp_slot source < slot < cp_slot target -> ~ justifiable slot fin.

(** What justifying a target does to the tally: the target is recorded, and the
    source becomes final exactly when the two are consecutive. *)
Definition finality_step (t : Tally) (source target : Checkpoint) (t' : Tally) : Prop :=
  (consecutive (cp_slot (tl_finalized t)) source target /\
   t' = finalized_tally source (justified_tally target t)) \/
  (~ consecutive (cp_slot (tl_finalized t)) source target /\ t' = justified_tally target t).

Lemma justified_above target t :
  cp_slot (tl_justified t) <= cp_slot (tl_justified (justified_tally target t)) /\
  cp_slot target <= cp_slot (tl_justified (justified_tally target t)).
Proof.
  clear. simpl. destruct (_ >? _) eqn:E; rewrite Z.gtb_ltb in E; bool_to_prop; lia.
Qed.

Lemma justify_target_ok t source target :
  tally_inv t -> root_at hashes source = true -> root_at hashes target = true ->
  cp_root source <> ZERO_HASH -> cp_root target <> ZERO_HASH ->
  cp_slot (tl_finalized t) < cp_slot target < Zlen hashes ->
  0 <= cp_slot source < cp_slot target -> in_range 64 (cp_slot target) ->
  exists t', justify_target slots source target t = Ok t' /\ tally_inv t' /\
    finality_step t source target t'.
Proof.
  intros Ht Hs Htg Hsz Htz Hlt Hord Hr.
  pose proof (justified_tally_inv t target Ht Htg Htz Hlt) as Hjt.
  unfold justify_target, justified_index_after, finality_step, consecutive, in_range in *.
  rewrite (proj2 (Z.leb_gt _ _)) by lia. mcbn. pose proof (tal_bits t Ht) as Hb.
  rewrite (proj2 (Z.ltb_lt _ _)) by lia. unfold JustifiedSlots_new. rewrite length_insert.
  pose proof (tal_f0 t Ht). rewrite (proj2 (Z.leb_le _ _)) by lia. mcbn.
  fold (justified_tally target t). rewrite Z.gtb_ltb.
  destruct (Z.ltb_spec (cp_slot (tl_finalized t)) (cp_slot source)) as [Hf|Hf].
  2: { eexists. split; [done|]. split; [done|]. right. split; [|done]. intros [? _]. lia. }
  unfold uint_add. rewrite uint_new_in_range by (unfold in_range; lia). mcbn.
  destruct (any_justifiable_total (Z.to_nat (cp_slot target - (cp_slot source + 1)))
    (cp_slot source + 1) (cp_slot (tl_finalized t)) ltac:(lia)) as [b Eb].
  pose proof Eb as Hspec. apply any_justifiable_spec in Hspec; [|lia]. rewrite Eb. mcbn. destruct b.
  - eexists. split; [done|]. split; [done|]. right. split; [|done]. intros [_ Hn].
    assert (true = false) by (apply Hspec; intros slot ?; apply Hn; lia). done.
  - pose proof (justified_above target t) as [_ Hab].
    destruct (finalize_source_ok _ source Hjt Hs Hsz Hf ltac:(unfold in_range; lia) ltac:(lia))
      as [-> Ht'].
    eexists. split; [done|]. split; [done|]. left. split; [|done]. split; [done|].
    intros slot ?. apply Hspec; [done|lia].
Qed.

(** The flags recorded for a root so far, all unset before its first vote. *)
Definition flags_of (t : Tally) (root : Bytes32) : list bool :=
  default (repeat false n) (dget root (tl_votes t)).

Definition counted_tally (t : Tally) (root : Bytes32) (flags : list bool) : Tally := {|
  tl_justified := tl_justified t;
  tl_finalized := tl_finalized t;
  tl_justified_slots := tl_justified_slots t;
  tl_votes :=
    dset root flags
      (if dmem root (tl_votes t) then tl_votes t else dset root (repeat false n) (tl_votes t))
|}.

Lemma dget_counted_tally t root flags r :
  dget r (tl_votes (counted_tally t root flags)) =
    if decide (r = root) then Some flags else dget r (tl_votes t).
Proof.
  simpl. rewrite dget_dset. case_decide; [done|].
  destruct (dmem root (tl_votes t)); [done|]. by rewrite dget_dset, decide_False.
Qed.

Lemma counted_tally_inv t target flags :
  tally_inv t -> root_at hashes target = true -> cp_root target <> ZERO_HASH ->
  cp_slot (tl_finalized t) < cp_slot target -> length flags = n ->
  tally_inv (counted_tally t (cp_root target) flags).
Proof.
  intros Ht Hr Hz Hlt Hf.
  assert (forall r, r ∈ dkeys (tl_votes (counted_tally t (cp_root target) flags)) <->
    r = cp_root target \/ r ∈ dkeys (tl_votes t)) as Hk.
  { intros r. rewrite <- !dget_is_Some, dget_counted_tally. case_decide; naive_solver. }
  destruct Ht as [T1 T2 T3 T4 T5 T6 T7 T8 T9 T10]. constructor; try done.
  - simpl. destruct (dmem _ _); repeat apply dset_wf; done.
  - rewrite Hk. intros [?|?]; [by apply Hz|done].
  - intros r fl. rewrite dget_counted_tally. case_decide; [by intros [= <-]|apply T8].
  - intros r [->|Hin]%Hk; [|by apply T9]. exists (cp_slot target). split; [done|].
    by apply bool_decide_eq_true in Hr.
Qed.

(** One attestation, on the tally: skipped when it is not eligible, counted below
    the threshold, or counted and justifying its target. *)
Inductive attestation_step (t : Tally) (a : AggregatedAttestation) : Tally -> Prop :=
| step_skipped : ~ eligible t (aa_data a) -> attestation_step t a t
| step_counted voters flags :
    eligible t (aa_data a) -> to_validator_indices (aa_bits a) = Ok voters ->
    foldM mark_vote (flags_of t (cp_root (ad_target (aa_data a)))) voters = Ok flags ->
    3 * count_votes flags < 2 * Z.of_nat n ->
    attestation_step t a (counted_tally t (cp_root (ad_target (aa_data a))) flags)
| step_justified voters flags t' :
    eligible t (aa_data a) -> to_validator_indices (aa_bits a) = Ok voters ->
    foldM mark_vote (flags_of t (cp_root (ad_target (aa_data a)))) voters = Ok flags ->
    2 * Z.of_nat n <= 3 * count_votes flags ->
    finality_step (counted_tally t (cp_root (ad_target (aa_data a))) flags)
      (ad_source (aa_data a)) (ad_target (aa_data a)) t' ->
    attestation_step t a t'.

(** Why an attestation may be rejected, and the defect it then has. *)
Definition attestation_rejection (a : AggregatedAttestation) (e : exn) : Prop :=
  (e = SpecRejectionError JUSTIFIED_SLOT_OUT_OF_RANGE /\
   Zlen hashes <= Z.max (cp_slot (ad_source (aa_data a))) (cp_slot (ad_target (aa_data a)))) \/
  (e = SpecRejectionError EMPTY_AGGREGATION_BITS /\ set_indices (aa_bits a) = []) \/
  (e = SpecRejectionError VALIDATOR_INDEX_OUT_OF_RANGE /\
   ~ Forall (fun i => i < Z.of_nat n) (set_indices (aa_bits a))).

(** The ranges the SSZ classes give an attestation. *)
Definition attestation_typed (a : AggregatedAttestation) : Prop :=
  Zlen (aa_bits a) <= VALIDATOR_REGISTRY_LIMIT /\
  in_range 64 (cp_slot (ad_source (aa_data a))) /\ in_range 64 (cp_slot (ad_target (aa_data a))).

Lemma flags_of_length t root : tally_inv t -> length (flags_of t root) = n.
Proof.
  intros Ht. unfold flags_of. destruct (dget root (tl_votes t)) as [fl|] eqn:E; simpl.
  - by apply (tal_flags t Ht root).
  - apply repeat_length.
Qed.

Lemma count_attestation_ok t a :
  tally_inv t -> eligible t (aa_data a) -> attestation_typed a ->
  (exists t', count_attestation slots (Z.of_nat n) a t = Ok t' /\ tally_inv t' /\
     attestation_step t a t') \/
  (exists e, count_attestation slots (Z.of_nat n) a t = Err e /\ attestation_rejection a e).
Proof.
  intros Ht He (Hbits & Hsr & Htr). unfold count_attestation.
  set (root := cp_root (ad_target (aa_data a))).
  destruct (to_validator_indices (aa_bits a)) as [voters|e] eqn:Ev; mcbn.
  2: { right. exists e. split; [done|]. apply to_validator_indices_Err in Ev as [-> ?]; [|done].
       by right; left. }
  destruct (forallb _ voters) eqn:Ew; cbn [negb].
  2: { right. eexists. split; [done|]. right; right. split; [done|]. intros Hall.
       apply to_validator_indices_Ok in Ev as [-> _]. apply not_true_iff_false in Ew.
       apply Ew, forallb_forall. intros i Hi%list_elem_of_In. apply Z.ltb_lt.
       by eapply Forall_forall in Hall. }
  assert (dgetitem root (if dmem root (tl_votes t) then tl_votes t
    else dset root (repeat false (Z.to_nat (Z.of_nat n))) (tl_votes t)) = Ok (flags_of t root)) as ->.
  { unfold dgetitem, flags_of. rewrite Nat2Z.id. destruct (dmem root (tl_votes t)) eqn:Em.
    - apply dmem_true in Em as [fl Em]. by rewrite Em.
    - apply dmem_false in Em. by rewrite dget_dset_eq, Em. }
  mcbn. pose proof (flags_of_length t root Ht) as Hfl.
  destruct (mark_votes_total (flags_of t root) voters) as [flags Ef].
  { rewrite Hfl. apply Forall_forall. intros i Hi.
    apply Z.ltb_lt. by eapply (proj1 (forallb_forall _ _) Ew), list_elem_of_In. }
  rewrite Ef. mcbn. rewrite Nat2Z.id. fold (counted_tally t root flags).
  pose proof (mark_votes_length _ _ _ Ef) as Hlen. pose proof (unjustified_past _ _ _ (el_target t _ He)) as Hpast.
  pose proof He as [He1 He2 He3 He4 He5 He5' He6 _ _].
  assert (tally_inv (counted_tally t root flags)) as Hct
    by (apply counted_tally_inv; auto; lia).
  rewrite Z.geb_leb. destruct (Z.leb_spec (2 * Z.of_nat n) (3 * count_votes flags)).
  - left. destruct (justify_target_ok (counted_tally t root flags) (ad_source (aa_data a))
      (ad_target (aa_data a))) as (t' & E & Ht' & Hstep); simpl; unfold in_range in *; auto; try lia.
    exists t'. split; [done|]. split; [done|]. by eapply step_justified.
  - left. eexists. split; [done|]. split; [done|]. by eapply step_counted.
Qed.

Lemma process_attestation_ok t a :
  tally_inv t -> attestation_typed a ->
  (exists t', process_attestation hashes slots (Z.of_nat n) t a = Ok t' /\ tally_inv t' /\
     attestation_step t a t') \/
  (exists e, process_attestation hashes slots (Z.of_nat n) t a = Err e /\ attestation_rejection a e).
Proof.
  intros Ht Ha. unfold process_attestation.
  assert (forall t' : result Tally, t' = Ok t -> ~ eligible t (aa_data a) ->
    (exists t'', t' = Ok t'' /\ tally_inv t'' /\
    attestation_step t a t'') \/ (exists e, t' = Err e /\ attestation_rejection a e)) as Hskip.
  { intros ? -> Hne. left. exists t. split; [done|]. split; [done|]. by constructor. }
  destruct (is_slot_justified _ _ (cp_slot (ad_source (aa_data a)))) as [[]|e] eqn:Es; mcbn.
  3: { right. apply is_slot_justified_Err in Es as [-> Hb]. eexists. split; [done|]. left.
       split; [done|]. pose proof (tal_bits _ Ht). lia. }
  2: { apply Hskip; [done|]. intros []. congruence. }
  cbn [negb]. destruct (is_slot_justified _ _ (cp_slot (ad_target (aa_data a)))) as [[]|e] eqn:Et;
    mcbn.
  3: { right. apply is_slot_justified_Err in Et as [-> Hb]. eexists. split; [done|]. left.
       split; [done|]. pose proof (tal_bits _ Ht). lia. }
  { apply Hskip; [done|]. intros []. congruence. }
  destruct (lies_on_chain _ _) eqn:El; cbn [negb].
  2: { apply Hskip; [done|]. intros []. congruence. }
  destruct (Z.leb_spec (cp_slot (ad_target (aa_data a))) (cp_slot (ad_source (aa_data a)))).
  { apply Hskip; [done|]. intros []. lia. }
  pose proof El as (Hl1 & Hl2 & _ & Hl3 & Hl5 & Hl4)%lies_on_chain_true.
  pose proof (unjustified_past _ _ _ Et).
  destruct (is_justifiable_total (cp_slot (ad_target (aa_data a))) (cp_slot (tl_finalized t)))
    as [[] Ej]; [lia| |]; rewrite Ej; mcbn; cbn [negb].
  2: { apply Hskip; [done|]. intros []. congruence. }
  apply count_attestation_ok; [done| |done]. constructor; auto; lia.
Qed.

(** A run of the loop, abstractly. *)
Inductive attestation_steps (t : Tally) : list AggregatedAttestation -> Tally -> Prop :=
| steps_nil : attestation_steps t [] t
| steps_cons a l t1 t2 :
    attestation_step t a t1 -> attestation_steps t1 l t2 -> attestation_steps t (a :: l) t2.

Lemma attestations_loop_ok l t :
  tally_inv t -> Forall attestation_typed l ->
  (exists t', foldM (process_attestation hashes slots (Z.of_nat n)) t l = Ok t' /\
     tally_inv t' /\ attestation_steps t l t') \/
  (exists e a, foldM (process_attestation hashes slots (Z.of_nat n)) t l = Err e /\
     a ∈ l /\ attestation_rejection a e).
Proof.
  revert t. induction l as [|a l IH]; intros t Ht Hl; cbn [foldM].
  - left. exists t. split; [done|]. split; [done|]. constructor.
  - apply Forall_cons in Hl as [Ha Hl].
    destruct (process_attestation_ok t a Ht Ha) as [(t1 & -> & Ht1 & Hs)|(e & -> & He)]; mcbn.
    + destruct (IH t1 Ht1 Hl) as [(t2 & -> & Ht2 & Hs2)|(e & a' & -> & Hin & He)].
      * left. exists t2. split; [done|]. split; [done|]. by econstructor.
      * right. exists e, a'. split; [done|]. split; [by right|done].
    + right. exists e, a. split; [done|]. split; [left|done].
Qed.
End Tally.

Lemma root_lt_NoDup l : StronglySorted root_lt l -> NoDup l.
Proof.
  induction 1 as [|x l Hl IH Hx]; constructor; [|done].
  intros Hin. rewrite Forall_forall in Hx. by destruct (Hx _ Hin).
Qed.

Lemma combine_fst {A B} (l : list A) (k : list B) : length l = length k -> (combine l k).*1 = l.
Proof. revert k. induction l as [|x l IH]; intros [|y k] H; simpl in *; try lia; f_equal; auto. Qed.

Lemma combine_snd {A B} (l : list A) (k : list B) : length l = length k -> (combine l k).*2 = k.
Proof. revert k. induction l as [|x l IH]; intros [|y k] H; simpl in *; try lia; f_equal; auto. Qed.

Lemma unpack_justifications_ok s :
  state_inv s -> (0 < length (st_validators s))%nat ->
  exists votes, unpack_justifications s = Ok votes /\ dict_wf votes /\
    dkeys votes = st_justifications_roots s /\
    mjoin (dvalues votes) = st_justifications_validators s /\
    Forall (fun c => length c = length (st_validators s)) (dvalues votes).
Proof.
  intros Hinv Hn. pose proof (inv_flags s Hinv) as Hfl.
  pose proof (root_lt_NoDup _ (inv_sorted s Hinv)) as Hnd.
  unfold unpack_justifications. rewrite bool_decide_eq_false_2 by apply Hinv. cbn [negb].
  unfold batched. rewrite (proj2 (Z.leb_le _ _)) by lia. mcbn. rewrite Nat2Z.id.
  destruct (batched_from_spec (length (st_justifications_roots s)) (length (st_validators s))
    (st_justifications_validators s) (length (st_justifications_validators s)))
    as (H1 & H2 & H3); [done..| |].
  { rewrite Hfl. nia. }
  set (segs := batched_from _ _ _) in *.
  unfold zip_strict. rewrite H1, Nat.eqb_refl. mcbn.
  assert ((combine (st_justifications_roots s) segs).*1 = st_justifications_roots s) as E1
    by (by apply combine_fst).
  assert ((combine (st_justifications_roots s) segs).*2 = segs) as E2 by (by apply combine_snd).
  rewrite dict_of_NoDup by (by rewrite E1).
  eexists. split; [done|]. unfold dict_wf, dkeys, dvalues. rewrite E1, E2. done.
Qed.

Lemma insert_root_perm r l : insert_root r l ≡ₚ r :: l.
Proof.
  induction l as [|x l IH]; simpl; [done|]. destruct (bytes_leb r x); [done|].
  rewrite IH. constructor.
Qed.

Lemma sorted_roots_perm l : sorted_roots l ≡ₚ l.
Proof. induction l as [|x l IH]; [done|]. simpl. by rewrite insert_root_perm, IH. Qed.

Lemma root_lt_trans a b c : root_lt a b -> bytes_leb b c = true -> root_lt a c.
Proof.
  intros [H1 H2] H3. split; [by eapply bytes_leb_trans|]. intros ->.
  apply H2. by apply bytes_leb_antisym.
Qed.

Lemma insert_root_sorted r l :
  r ∉ l -> StronglySorted root_lt l -> StronglySorted root_lt (insert_root r l).
Proof.
  intros Hn Hs. induction Hs as [|x l Hl IH Hx]; simpl; [repeat constructor|].
  apply not_elem_of_cons in Hn as [Hne Hn]. destruct (bytes_leb r x) eqn:E.
  - constructor; [by constructor|]. constructor; [by split|].
    eapply Forall_impl; [exact Hx|]. intros y [Hy _]. by apply (root_lt_trans r x).
  - constructor; [by apply IH|]. rewrite insert_root_perm. constructor; [|done].
    split; [|done]. destruct (bytes_leb_total x r) as [|E']; [done|by rewrite E' in E].
Qed.

Lemma sorted_roots_sorted l : NoDup l -> StronglySorted root_lt (sorted_roots l).
Proof.
  induction 1 as [|x l Hn Hl IH]; simpl; [constructor|]. apply insert_root_sorted; [|done].
  by rewrite sorted_roots_perm.
Qed.

(** The state [process_attestations] packs a final tally into. *)
Definition packed_flags (votes : Votes) : list bool :=
  mjoin (map (fun root => default [] (dget root votes)) (sorted_roots (dkeys votes))).
Definition repacked (s : State) (t : Tally) : State := {|
  st_config := st_config s;
  st_slot := st_slot s;
  st_latest_block_header := st_latest_block_header s;
  st_latest_justified := tl_justified t;
  st_latest_finalized := tl_finalized t;
  st_historical_block_hashes := st_historical_block_hashes s;
  st_justified_slots := tl_justified_slots t;
  st_validators := st_validators s;
  st_justifications_roots := sorted_roots (dkeys (tl_votes t));
  st_justifications_validators := packed_flags (tl_votes t)
|}.

Definition initial_tally (s : State) (votes : Votes) : Tally := {|
  tl_justified := st_latest_justified s;
  tl_finalized := st_latest_finalized s;
  tl_justified_slots := st_justified_slots s;
  tl_votes := votes
|}.

Abbreviation st_tally_inv s :=
  (tally_inv (st_historical_block_hashes s) (length (st_validators s)) (st_finalized_slot s)).

Lemma initial_tally_inv s votes :
  state_inv s -> 0 < st_head_slot s -> dict_wf votes -> dkeys votes = st_justifications_roots s ->
  Forall (fun c => length c = length (st_validators s)) (dvalues votes) ->
  st_tally_inv s (initial_tally s votes).
Proof.
  intros [I1 I2 I3 I4 I5 I6 I7 I8 I9 I10 I11 I12 I13 I14 I15] Hh Hwf Hk Hv.
  constructor; simpl; auto; try lia.
  - by rewrite Hk.
  - intros r fl Hg%dget_In. rewrite Forall_forall in Hv. apply Hv.
    by apply (list_elem_of_fmap_2 snd) in Hg.
  - intros r. rewrite Hk. apply I14.
Qed.

Lemma packed_flags_length votes n :
  (forall r fl, dget r votes = Some fl -> length fl = n) ->
  length (packed_flags votes) = (length (sorted_roots (dkeys votes)) * n)%nat.
Proof.
  intros H. unfold packed_flags.
  assert (forall r, r ∈ sorted_roots (dkeys votes) -> r ∈ dkeys votes) as Hin
    by (intros r; by rewrite sorted_roots_perm).
  induction (sorted_roots (dkeys votes)) as [|r l IH]; [done|].
  cbn [map]. rewrite mjoin_cons, length_app, IH by (intros; apply Hin; by right).
  assert (r ∈ dkeys votes) as [fl E]%dget_is_Some by (apply Hin; left).
  rewrite E. simpl. by rewrite (H _ _ E).
Qed.

(** Distinct tracked roots each occupy a slot of the history. *)
Lemma tracked_length s t :
  st_tally_inv s t -> (length (dkeys (tl_votes t)) <= length (st_historical_block_hashes s))%nat.
Proof.
  intros Ht. apply submseteq_length, NoDup_submseteq; [apply Ht|].
  intros r Hr. destruct (tal_tracked _ _ _ t Ht r Hr) as (i & _ & Hl).
  by eapply list_elem_of_lookup_2.
Qed.

Lemma repacked_inv s t :
  state_inv s -> 0 < st_head_slot s -> st_tally_inv s t -> state_inv (repacked s t).
Proof.
  intros [I1 I2 I3 I4 I5 I6 I7 I8 I9 I10 I11 I12 I13 I14 I15] Hh [T1 T2 T3 T4 T5 T6 T7 T8 T9 T10].
  constructor; simpl; auto; try lia.
  - by apply sorted_roots_sorted.
  - by rewrite sorted_roots_perm.
  - by apply packed_flags_length.
  - intros r. rewrite sorted_roots_perm. apply T9.
Qed.

(** ** The ranges of a well-typed block *)
Lemma valid_checkpoint (c : Checkpoint) : ssz_valid c = true -> in_range 64 (cp_slot c).
Proof.
  unfold ssz_valid. cbn [ssz_descr ssz_repr ssz_Checkpoint class_of container_class well_typed map].
  cbn [length Nat.eqb combine forallb fst snd]. intros H.
  apply andb_true_iff in H as [_ H]. apply andb_true_iff in H as [_ H].
  apply andb_true_iff in H as [H _]. by apply uint_well_typed in H as (z & [= <-] & Hz).
Qed.

Lemma valid_attestation (a : AggregatedAttestation) : ssz_valid a = true -> attestation_typed a.
Proof.
  unfold ssz_valid, attestation_typed.
  cbn [ssz_descr ssz_repr ssz_AggregatedAttestation ssz_AttestationData class_of container_class
    well_typed map].
  cbn [length Nat.eqb combine forallb fst snd]. intros H. bool_to_prop.
  match goal with H : well_typed (container_class _) _ = true |- _ =>
    cbn [container_class well_typed length Nat.eqb combine forallb fst snd] in H end.
  bool_to_prop. split_and!; [|by apply valid_checkpoint..].
  match goal with H : well_typed (bitlist_class _) _ = true |- _ => simpl in H end.
  by bool_to_prop.
Qed.

Lemma valid_block_slot (b : Block) : ssz_valid b = true -> in_range 64 (bk_slot b).
Proof.
  unfold ssz_valid. cbn [ssz_descr ssz_repr ssz_Block class_of container_class well_typed map].
  cbn [length Nat.eqb combine forallb fst snd]. intros H.
  apply andb_true_iff in H as [_ H]. apply andb_true_iff in H as [H _].
  by apply uint_well_typed in H as (z & [= <-] & Hz).
Qed.

Lemma valid_body_attestations (b : BlockBody) :
  ssz_valid b = true -> Forall attestation_typed (bd_attestations b).
Proof.
  unfold ssz_valid. cbn [ssz_descr ssz_repr ssz_BlockBody class_of container_class well_typed map].
  cbn [length Nat.eqb combine forallb fst snd list_class well_typed]. intros H. bool_to_prop.
  apply Forall_forall. intros a Ha. apply valid_attestation. unfold ssz_valid.
  match goal with H : forallb _ (map _ _) = true |- _ =>
    eapply (proj1 (forallb_forall _ _) H), in_map, list_elem_of_In, Ha end.
Qed.

(** ** The whole transition *)
Definition block_rejection (s : State) (atts : list AggregatedAttestation) (e : exn) : Prop :=
  (exists a, a ∈ atts /\
     attestation_rejection (st_historical_block_hashes s) (length (st_validators s)) a e) \/
  (e = SpecRejectionError TOO_MANY_ATTESTATION_DATA /\
   MAX_ATTESTATIONS_DATA < Zlen (set_of (map aa_data atts))).

Lemma block_rejection_reason s atts e :
  block_rejection s atts e ->
  e ∈ [SpecRejectionError TOO_MANY_ATTESTATION_DATA; SpecRejectionError JUSTIFIED_SLOT_OUT_OF_RANGE;
       SpecRejectionError EMPTY_AGGREGATION_BITS; SpecRejectionError VALIDATOR_INDEX_OUT_OF_RANGE].
Proof.
  intros [(a & _ & [[-> _]|[[-> _]|[-> _]]])|[-> _]]; apply list_elem_of_In; simpl; tauto.
Qed.

Abbreviation st_steps s :=
  (attestation_steps (st_historical_block_hashes s) (length (st_validators s)) (root_to_slot s)).

Lemma process_attestations_ok s atts :
  state_inv s -> 0 < st_head_slot s -> (0 < length (st_validators s))%nat ->
  Forall attestation_typed atts ->
  (exists votes t, unpack_justifications s = Ok votes /\
     process_attestations s atts = Ok (repacked s t) /\ state_inv (repacked s t) /\
     st_tally_inv s (initial_tally s votes) /\ st_tally_inv s t /\
     st_steps s (initial_tally s votes) atts t) \/
  (exists e, process_attestations s atts = Err e /\ block_rejection s atts e).
Proof.
  intros Hinv Hh Hn Hatts. unfold process_attestations.
  rewrite Z.gtb_ltb. destruct (Z.ltb_spec MAX_ATTESTATIONS_DATA (Zlen (set_of (map aa_data atts))));
    [right; eexists; split; [done|by right]|].
  destruct (unpack_justifications_ok s Hinv Hn) as (votes & E & Hwf & Hk & Hj & Hv).
  rewrite E. mcbn. fold (initial_tally s votes).
  pose proof (initial_tally_inv s votes Hinv Hh Hwf Hk Hv) as Ht0.
  destruct (attestations_loop_ok (st_historical_block_hashes s) (length (st_validators s))
    (st_finalized_slot s) (root_to_slot s)
    (root_to_slot_maps s (proj1 (inv_order s Hinv))) ltac:(rewrite (inv_history s Hinv); apply Hinv)
    atts (initial_tally s votes) Ht0 Hatts) as [(t & Et & Ht & Hsteps)|(e & a & Ee & Hin & He)].
  2: { right. exists e. rewrite Ee. split; [done|left; eauto]. }
  left. exists votes, t. rewrite Et. mcbn.
  pose proof (tracked_length s t Ht) as Htl. pose proof (inv_history s Hinv) as Hhl.
  pose proof (inv_history_limit s Hinv) as Hll. pose proof (inv_registry s Hinv) as Hrl.
  assert (length (sorted_roots (dkeys (tl_votes t))) = length (dkeys (tl_votes t))) as Hsl
    by apply Permutation_length, sorted_roots_perm.
  unfold JustificationRoots_new. rewrite (proj2 (Z.leb_le _ _)) by lia. mcbn.
  assert (mapM (fun root => dgetitem root (tl_votes t)) (sorted_roots (dkeys (tl_votes t))) =
    Ok (map (fun root => default [] (dget root (tl_votes t))) (sorted_roots (dkeys (tl_votes t)))))
    as ->.
  { apply mapM_Ok, Forall2_fmap_r, Forall_Forall2_diag, Forall_forall.
    intros r. rewrite sorted_roots_perm. intros [fl Er]%dget_is_Some.
    unfold compose, dgetitem. by rewrite Er. }
  mcbn. fold (packed_flags (tl_votes t)). unfold JustificationValidators_new.
  pose proof (packed_flags_length _ _ (tal_flags _ _ _ t Ht)) as Hpl.
  rewrite (proj2 (Z.leb_le _ _)) by (rewrite Hpl; nia). mcbn.
  split_and!; try done. by apply repacked_inv.
Qed.

Lemma header_applied_validators s b : st_validators (header_applied s b) = st_validators s.
Proof. done. Qed.

(** The transition either raises one of the listed errors or runs its three
    phases, whose states are named here. *)
Lemma state_transition_cases s b :
  state_inv s -> ssz_valid b = true ->
  (exists root votes t,
     let s1 := slot_advanced s root (bk_slot b) in
     let s2 := header_applied s1 b in
     let s3 := repacked s2 t in
     state_transition s b = Ok s3 /\ st_slot s < bk_slot b /\
     (cached_root s <> ZERO_HASH -> root = cached_root s) /\
     header_error s1 b = None /\ bk_state_root b = hash_tree_root s3 /\
     state_inv s2 /\ state_inv s3 /\ 0 < st_head_slot s2 /\
     unpack_justifications s2 = Ok votes /\
     st_tally_inv s2 (initial_tally s2 votes) /\ st_tally_inv s2 t /\
     st_steps s2 (initial_tally s2 votes) (bd_attestations (bk_body b)) t) \/
  (exists e, state_transition s b = Err e /\
    ((e = SpecRejectionError BLOCK_SLOT_NOT_IN_FUTURE /\ bk_slot b <= st_slot s) \/
     e = SpecRejectionError EMPTY_VALIDATOR_REGISTRY \/ e = SpecRejectionError WRONG_PROPOSER \/
     e = SpecRejectionError PARENT_ROOT_MISMATCH \/
     (e = SSZValueError /\ HISTORICAL_ROOTS_LIMIT < bk_slot b) \/
     (exists s2, block_rejection s2 (bd_attestations (bk_body b)) e) \/
     e = SpecRejectionError STATE_ROOT_MISMATCH)).
Proof.
  intros Hinv Hb. pose proof (valid_block_slot b Hb) as Hr.
  pose proof (inv_slot s Hinv) as Hsr. unfold state_transition.
  destruct (process_slots s (bk_slot b)) as [s1|e] eqn:E1; mcbn.
  2: { right. exists e. split; [done|]. left.
       apply process_slots_Err in E1 as [? ->]; [done|apply Hsr|done]. }
  apply process_slots_Ok in E1 as (Hlt & root & -> & Hroot); [|apply Hsr|done].
  assert (state_inv (slot_advanced s root (bk_slot b))) as Hinv1
    by (apply slot_advanced_inv; [done|lia|done]).
  unfold process_block. rewrite (process_block_header_eq _ _ Hinv1 Hr).
  destruct (header_error _ b) as [e|] eqn:Ehe; mcbn.
  { right. exists e. split; [done|]. revert Ehe. unfold header_error. simpl.
    pose proof (inv_head s Hinv). rewrite Z.eqb_refl. cbn [negb].
    rewrite (proj2 (Z.leb_gt _ _)), Z.gtb_ltb by lia.
    repeat case_match; try done; intros [= <-]; bool_to_prop; auto 10. }
  destruct (header_applied_inv _ _ Hinv1 Ehe) as [Hinv2 Hh2].
  pose proof (header_error_None _ _ Ehe) as (_ & _ & Hv & _ & _).
  destruct (process_attestations_ok (header_applied (slot_advanced s root (bk_slot b)) b)
    (bd_attestations (bk_body b)) Hinv2 Hh2 ltac:(simpl in *; lia)
    (valid_body_attestations _ (valid_block_body _ Hb)))
    as [(votes & t & Hu & -> & Hinv3 & Ht0 & Ht & Hst)|(e & -> & He)]; mcbn.
  - destruct (bool_decide _) eqn:Er; cbn [negb].
    + left. exists root, votes, t. apply bool_decide_eq_true in Er. by split_and!.
    + right. eexists. split; [done|]. auto 10.
  - right. exists e. split; [done|]. eauto 10.
Qed.
