(* ===== verification/StateHistory.v ===== *)
(** * Reachable states and the votes behind their checkpoints

    [reachable] is a chain of accepted blocks from a genesis state.  By induction
    over it: the state invariant, monotonicity of the checkpoints, and that every
    justified or finalized checkpoint is backed by the votes of two thirds of the
    registry included in the chain. *)

From S2P Require Import Prelude Pydict Uint Ssz SszCorrect Sha256 Merkle Containers.
From S2P Require Import StateTransition Samples StateCorrect.

Section Reachable.
Context (gt : Z) (registry : list Validator).

(** A chain of accepted blocks, oldest first. *)
Inductive reachable : State -> list Block -> Prop :=
| reach_genesis : reachable (generate_genesis gt registry) []
| reach_block s blocks b s' :
    reachable s blocks -> ssz_valid b = true -> state_transition s b = Ok s' ->
    reachable s' (blocks ++ [b]).
End Reachable.

Lemma genesis_inv gt registry :
  Zlen registry <= VALIDATOR_REGISTRY_LIMIT -> state_inv (generate_genesis gt registry).
Proof.
  intros Hr. constructor; simpl; try done.
  - constructor.
  - by intros ?%elem_of_nil.
  - by intros r ?%elem_of_nil.
Qed.

Lemma transition_inv s b s' :
  state_inv s -> ssz_valid b = true -> state_transition s b = Ok s' -> state_inv s'.
Proof.
  intros Hinv Hb Hs. destruct (state_transition_cases s b Hinv Hb)
    as [(root & votes & t & E & _ & _ & _ & _ & _ & Hinv3 & _)|(e & E & _)]; congruence.
Qed.

Lemma reachable_inv gt registry s blocks :
  Zlen registry <= VALIDATOR_REGISTRY_LIMIT -> reachable gt registry s blocks -> state_inv s.
Proof.
  intros Hr. induction 1 as [|s blocks b s' _ IH Hb Hs]; [by apply genesis_inv|].
  by eapply transition_inv.
Qed.

(** ** The sample chains *)
Lemma sample_A1 : reachable 1000 sample_registry A1.2 [A1.1].
Proof.
  apply (reach_block _ _ sample_genesis []); [|vm_compute; reflexivity|exact A1_accepted].
  rewrite <- genesis_eq. constructor.
Qed.
Lemma sample_A2 : reachable 1000 sample_registry A2.2 [A1.1; A2.1].
Proof.
  apply (reach_block _ _ A1.2 [A1.1]); [exact sample_A1|vm_compute; reflexivity|exact A2_accepted].
Qed.
Lemma sample_A3 : reachable 1000 sample_registry A3.2 [A1.1; A2.1; A3.1].
Proof.
  apply (reach_block _ _ A2.2 [A1.1; A2.1]);
    [exact sample_A2|vm_compute; reflexivity|exact A3_accepted].
Qed.
Lemma sample_B2 : reachable 1000 sample_registry B2.2 [B1.1; B2.1].
Proof.
  apply (reach_block _ _ B1.2 [B1.1]); [|vm_compute; reflexivity|exact B2_accepted].
  apply (reach_block _ _ sample_genesis []); [|vm_compute; reflexivity|exact B1_accepted].
  rewrite <- genesis_eq. constructor.
Qed.
Lemma sample_registry_limit : Zlen sample_registry <= VALIDATOR_REGISTRY_LIMIT.
Proof. vm_compute. discriminate. Qed.
Lemma sample_inv_A2 : state_inv A2.2.
Proof. exact (reachable_inv _ _ _ _ sample_registry_limit sample_A2). Qed.

(** ** Monotonicity *)
Lemma finality_step_mono slots t source target t' :
  finality_step slots t source target t' ->
  cp_slot (tl_justified t) <= cp_slot (tl_justified t') /\
  cp_slot (tl_finalized t) <= cp_slot (tl_finalized t').
Proof.
  pose proof (justified_above target t) as [Hj _].
  intros [[[Hlt _] ->]|[_ ->]]; (split; [done|]); simpl; lia.
Qed.

Lemma attestation_step_mono hashes n slots t a t' :
  attestation_step hashes n slots t a t' ->
  cp_slot (tl_justified t) <= cp_slot (tl_justified t') /\
  cp_slot (tl_finalized t) <= cp_slot (tl_finalized t').
Proof.
  destruct 1 as [|? ? _ _ _ _|? ? ? _ _ _ _ Hf]; [simpl; lia..|].
  by apply finality_step_mono in Hf.
Qed.

Lemma attestation_steps_mono hashes n slots l t t' :
  attestation_steps hashes n slots t l t' ->
  cp_slot (tl_justified t) <= cp_slot (tl_justified t') /\
  cp_slot (tl_finalized t) <= cp_slot (tl_finalized t').
Proof.
  induction 1 as [|t a l t1 t2 H%attestation_step_mono _ IH]; lia.
Qed.

Lemma anchored_slots s :
  state_inv s ->
  cp_slot (anchored s).1 = st_justified_slot s /\ cp_slot (anchored s).2 = st_finalized_slot s.
Proof.
  intros Hinv. pose proof (inv_order s Hinv). pose proof (inv_justified s Hinv).
  destruct (anchored_cases s) as [[Hz ->]|[_ ->]]; [simpl; lia|done].
Qed.

(** An accepted block never moves the justified or finalized slot back, never
    finalizes past the justified slot, keeps both below the block's own slot, and
    only appends to the history of block roots. *)
Theorem state_transition_monotone (s : State) (b : Block) (s' : State) :
  state_inv s -> ssz_valid b = true -> state_transition s b = Ok s' ->
  st_justified_slot s <= st_justified_slot s' < bk_slot b /\
  st_finalized_slot s <= st_finalized_slot s' <= st_justified_slot s' /\
  (exists ext, st_historical_block_hashes s' = st_historical_block_hashes s ++ ext) /\
  st_validators s' = st_validators s /\ st_slot s' = bk_slot b.
Proof.
  intros Hinv Hb Hs.
  destruct (state_transition_cases s b Hinv Hb)
    as [(root & votes & t & E & Hlt & _ & He & _ & _ & Hinv3 & Hh & _ & _ & _ & Hst)|(e & E & _)];
    [|congruence].
  rewrite E in Hs. injection Hs as <-. apply attestation_steps_mono in Hst.
  destruct (anchored_slots (slot_advanced s root (bk_slot b))) as [Hj Hf].
  { apply slot_advanced_inv; [done|lia|by apply valid_block_slot]. }
  simpl in Hst, Hj, Hf. rewrite Hj, Hf in Hst.
  pose proof (inv_justified _ Hinv3) as Hj3. pose proof (inv_order _ Hinv3) as Ho3.
  simpl in *. split_and!; try lia; [|done..]. eexists. unfold extended_history. by simpl.
Qed.

Lemma state_transition_monotone_witness :
  st_justified_slot A2.2 <= st_justified_slot A3.2 < 3 /\
  st_finalized_slot A2.2 <= st_finalized_slot A3.2 <= st_justified_slot A3.2.
Proof.
  destruct (state_transition_monotone A2.2 A3.1 A3.2) as (H1 & H2 & _).
  - exact sample_inv_A2.
  - vm_compute. reflexivity.
  - exact A3_accepted.
  - split; [exact H1|exact H2].
Defined.

(** ** Votes behind the checkpoints *)
Definition included (blocks : list Block) : list AggregatedAttestation :=
  mjoin (map (fun b => bd_attestations (bk_body b)) blocks).

(** Validator [v] has a vote among [atts] whose target is the block [r] of the
    history [hashes], at its slot. *)
Definition voted (hashes : list Bytes32) (atts : list AggregatedAttestation) (r : Bytes32) (v : Z)
    : Prop :=
  exists a, a ∈ atts /\ cp_root (ad_target (aa_data a)) = r /\
    root_at hashes (ad_target (aa_data a)) = true /\ v ∈ set_indices (aa_bits a).

(** At least two thirds of [n] validators voted for [r]. *)
Definition backed (hashes : list Bytes32) (atts : list AggregatedAttestation) (n : nat) (r : Bytes32)
    : Prop :=
  exists voters, NoDup voters /\
    Forall (fun v => 0 <= v < Z.of_nat n /\ voted hashes atts r v) voters /\
    2 * Z.of_nat n <= 3 * Zlen voters.

Lemma voted_mono hashes ext atts atts' r v :
  atts ⊆ atts' -> voted hashes atts r v -> voted (hashes ++ ext) atts' r v.
Proof.
  intros Hsub (a & Ha & Hr & Hl & Hv). exists a. split_and!; [by apply Hsub|done| |done].
  by apply root_at_app.
Qed.

Lemma backed_mono hashes ext atts atts' n r :
  atts ⊆ atts' -> backed hashes atts n r -> backed (hashes ++ ext) atts' n r.
Proof.
  intros Hsub (l & Hn & Hl & Hc). exists l. split_and!; auto.
  eapply Forall_impl; [exact Hl|]. intros v [? ?]. split; [done|]. by eapply voted_mono.
Qed.

Section History.
Context (hashes : list Bytes32) (n : nat) (f0 : Z) (slots : dict Bytes32 Z).
Context (atts : list AggregatedAttestation).

Definition flags_voted (votes : Votes) : Prop :=
  forall r fl (v : nat), dget r votes = Some fl -> fl !! v = Some true -> voted hashes atts r (Z.of_nat v).

Definition slots_backed (bits : list bool) (fin : Z) : Prop :=
  forall slot, fin < slot -> is_slot_justified bits fin slot = Ok true ->
    exists r, hashes !! Z.to_nat slot = Some r /\ backed hashes atts n r.

Definition checkpoint_backed (c : Checkpoint) : Prop := cp_slot c = 0 \/ backed hashes atts n (cp_root c).

Record tally_backed (t : Tally) : Prop := {
  tb_flags : flags_voted (tl_votes t);
  tb_slots : slots_backed (tl_justified_slots t) (cp_slot (tl_finalized t));
  tb_justified : checkpoint_backed (tl_justified t);
  tb_finalized : checkpoint_backed (tl_finalized t)
}.

Lemma mark_votes_lookup flags voters flags' (v : nat) :
  Forall (fun i => 0 <= i) voters -> foldM mark_vote flags voters = Ok flags' ->
  flags' !! v = Some true -> flags !! v = Some true \/ Z.of_nat v ∈ voters.
Proof.
  intros Hp. revert flags. induction voters as [|i voters IH]; intros flags; cbn [foldM].
  - intros [= <-]. auto.
  - apply Forall_cons in Hp as [Hi Hp].
    intros (f1 & [_ ->]%mark_vote_Ok & H)%bind_Ok Hv.
    destruct (IH Hp _ H Hv) as [H1|H1]; [|right; by right].
    destruct (Nat.eq_dec (Z.to_nat i) v) as [<-|Hne].
    + right. rewrite Z2Nat.id by done. left.
    + left. by rewrite list_lookup_insert_ne in H1 by done.
Qed.

Lemma voters_nonneg bits voters :
  to_validator_indices bits = Ok voters -> Forall (fun i => 0 <= i) voters.
Proof.
  intros [-> _]%to_validator_indices_Ok. apply Forall_forall. by intros i [? _]%elem_of_set_indices.
Qed.

(** The flags after counting an attestation of the history. *)
Lemma counted_flags_voted t a voters flags :
  flags_voted (tl_votes t) -> a ∈ atts -> root_at hashes (ad_target (aa_data a)) = true ->
  to_validator_indices (aa_bits a) = Ok voters ->
  foldM mark_vote (flags_of n t (cp_root (ad_target (aa_data a)))) voters = Ok flags ->
  forall v : nat, flags !! v = Some true -> voted hashes atts (cp_root (ad_target (aa_data a))) (Z.of_nat v).
Proof.
  intros Hf Ha Hr Hv Hm v Hl. pose proof (voters_nonneg _ _ Hv) as Hp.
  destruct (mark_votes_lookup _ _ _ v Hp Hm Hl) as [H|H].
  - unfold flags_of in H. destruct (dget _ (tl_votes t)) as [fl|] eqn:E; simpl in H.
    + by apply (Hf _ fl).
    + by apply list_elem_of_lookup_2, list_elem_of_In, repeat_spec in H.
  - exists a. split_and!; [done..|]. by apply to_validator_indices_Ok in Hv as [-> _].
Qed.

Lemma count_votes_indices flags : count_votes flags = Zlen (set_indices flags).
Proof. unfold count_votes, set_indices. by rewrite length_set_indices_from. Qed.

Lemma flags_backed r flags :
  length flags = n -> (forall v : nat, flags !! v = Some true -> voted hashes atts r (Z.of_nat v)) ->
  2 * Z.of_nat n <= 3 * count_votes flags -> backed hashes atts n r.
Proof.
  intros Hl Hv Hc. exists (set_indices flags). split_and!; [auto with spec| |].
  - apply Forall_forall. intros v [Hp Hf]%elem_of_set_indices.
    pose proof (lookup_lt_Some _ _ _ Hf). split; [lia|].
    specialize (Hv _ Hf). by rewrite Z2Nat.id in Hv.
  - by rewrite <- count_votes_indices.
Qed.

Lemma is_slot_justified_true_inv bits fin slot :
  fin < slot -> is_slot_justified bits fin slot = Ok true ->
  bits !! Z.to_nat (slot - fin - 1) = Some true.
Proof.
  intros Hs. unfold is_slot_justified, justified_index_after.
  rewrite (proj2 (Z.leb_gt _ _)) by lia. by rewrite of_option_Ok.
Qed.

(** Setting the flag of a backed target. *)
Lemma slots_backed_set bits fin target :
  slots_backed bits fin -> fin < cp_slot target -> root_at hashes target = true ->
  backed hashes atts n (cp_root target) ->
  slots_backed (<[Z.to_nat (cp_slot target - fin - 1) := true]> bits) fin.
Proof.
  intros Hb Ht Hr Hbk slot Hs Hj. destruct (Z.eq_dec slot (cp_slot target)) as [->|Hne].
  - exists (cp_root target). split; [by apply bool_decide_eq_true in Hr|done].
  - apply (Hb slot Hs). apply is_slot_justified_true_inv in Hj; [|done].
    rewrite list_lookup_insert_ne in Hj by lia.
    unfold is_slot_justified, justified_index_after. rewrite (proj2 (Z.leb_gt _ _)) by lia.
    by rewrite Hj.
Qed.

Lemma slots_backed_drop bits fin fin' :
  slots_backed bits fin -> fin <= fin' ->
  slots_backed (drop (Z.to_nat (fin' - fin)) bits) fin'.
Proof.
  intros Hb Hf slot Hs Hj. apply (Hb slot); [lia|].
  apply is_slot_justified_true_inv in Hj; [|done]. rewrite lookup_drop in Hj.
  unfold is_slot_justified, justified_index_after. rewrite (proj2 (Z.leb_gt _ _)) by lia.
  replace (Z.to_nat (slot - fin - 1)) with (Z.to_nat (fin' - fin) + Z.to_nat (slot - fin' - 1))%nat
    by lia. by rewrite Hj.
Qed.

Lemma counted_tally_backed t root flags :
  tally_backed t -> (forall v : nat, flags !! v = Some true -> voted hashes atts root (Z.of_nat v)) ->
  tally_backed (counted_tally n t root flags).
Proof.
  intros [B1 B2 B3 B4] Hf. constructor; [|done..].
  intros r fl v. rewrite dget_counted_tally. case_decide; [|apply B1].
  intros [= <-]. subst. apply Hf.
Qed.

Lemma justified_tally_backed t target :
  tally_backed t -> cp_slot (tl_finalized t) < cp_slot target -> root_at hashes target = true ->
  backed hashes atts n (cp_root target) -> tally_backed (justified_tally target t).
Proof.
  intros [B1 B2 B3 B4] Hlt Hr Hb. constructor; simpl.
  - intros r fl v. rewrite dget_ddel. case_decide; [done|apply B1].
  - by apply slots_backed_set.
  - destruct (_ >? _); [by right|done].
  - done.
Qed.

Context (Hslots : maps_roots hashes f0 slots).
Context (Hlimit : Zlen hashes <= HISTORICAL_ROOTS_LIMIT).

Lemma source_backed t d :
  tally_backed t -> eligible hashes t d -> cp_slot (tl_finalized t) < cp_slot (ad_source d) ->
  backed hashes atts n (cp_root (ad_source d)).
Proof.
  intros Ht He Hlt. destruct (tb_slots t Ht _ Hlt (el_source _ _ _ He)) as (r & Hr & Hb).
  pose proof (el_source_chain _ _ _ He) as Hc. apply bool_decide_eq_true in Hc.
  rewrite Hc in Hr. by injection Hr as ->.
Qed.

Lemma finality_step_backed t d t' :
  tally_inv hashes n f0 t -> eligible hashes t d -> tally_backed t ->
  backed hashes atts n (cp_root (ad_target d)) -> in_range 64 (cp_slot (ad_source d)) ->
  finality_step slots t (ad_source d) (ad_target d) t' -> tally_backed t'.
Proof.
  intros Hinv He Ht Hb Hr Hstep. pose proof (unjustified_past _ _ _ (el_target _ _ _ He)) as Hpast.
  pose proof (el_order _ _ _ He) as Ho.
  pose proof (justified_tally_backed t _ Ht Hpast (el_target_chain _ _ _ He) Hb) as Hjb.
  destruct Hstep as [[[Hlt _] ->]|[_ ->]]; [|done]. constructor.
  - intros r fl v Hg%finalized_votes. by apply (tb_flags _ Hjb).
  - simpl. apply slots_backed_drop; [apply Hjb|]. simpl. lia.
  - apply Hjb.
  - right. by apply (source_backed t d).
Qed.

Lemma finality_step_inv t d t' :
  tally_inv hashes n f0 t -> eligible hashes t d -> in_range 64 (cp_slot (ad_source d)) ->
  finality_step slots t (ad_source d) (ad_target d) t' -> tally_inv hashes n f0 t'.
Proof.
  intros Hinv He Hr Hstep. pose proof (unjustified_past _ _ _ (el_target _ _ _ He)) as Hpast.
  pose proof (el_order _ _ _ He) as Ho.
  assert (tally_inv hashes n f0 (justified_tally (ad_target d) t)) as Hjt
    by (apply justified_tally_inv; [done|apply He..|lia]).
  destruct Hstep as [[[Hlt _] ->]|[_ ->]]; [|done].
  pose proof (justified_above (ad_target d) t) as [_ Hab].
  apply (finalize_source_ok hashes n f0 slots Hslots Hlimit); [done|apply He|apply He|done|done|lia].
Qed.

Lemma eligible_counted t d root flags :
  eligible hashes t d -> eligible hashes (counted_tally n t root flags) d.
Proof. intros []. by constructor. Qed.

Lemma counted_step_inv t a voters flags :
  tally_inv hashes n f0 t -> eligible hashes t (aa_data a) ->
  foldM mark_vote (flags_of n t (cp_root (ad_target (aa_data a)))) voters = Ok flags ->
  tally_inv hashes n f0 (counted_tally n t (cp_root (ad_target (aa_data a))) flags) /\
  length flags = n.
Proof.
  intros Hinv He Hm. pose proof (mark_votes_length _ _ _ Hm) as Hlen.
  rewrite (flags_of_length hashes n f0) in Hlen by done. split; [|done].
  apply counted_tally_inv; [done|apply He..| |done]. by eapply unjustified_past, He.
Qed.

Lemma attestation_step_inv t a t' :
  tally_inv hashes n f0 t -> attestation_typed a -> attestation_step hashes n slots t a t' ->
  tally_inv hashes n f0 t'.
Proof.
  intros Hinv (_ & Hsr & _) [|voters flags He Hv Hm Hc|voters flags t1 He Hv Hm Hc Hf]; [done| |];
    destruct (counted_step_inv t a voters flags Hinv He Hm) as [Hct _]; [done|].
  eapply (finality_step_inv _ (aa_data a)); [exact Hct|by apply eligible_counted|done|exact Hf].
Qed.

Lemma attestation_step_backed t a t' :
  tally_inv hashes n f0 t -> tally_backed t -> a ∈ atts -> attestation_typed a ->
  attestation_step hashes n slots t a t' -> tally_backed t'.
Proof.
  intros Hinv Ht Ha (_ & Hsr & _) Hstep.
  destruct Hstep as [|voters flags He Hv Hm Hc|voters flags t' He Hv Hm Hc Hf]; [done| |].
  - apply counted_tally_backed; [done|]. by eapply counted_flags_voted; [apply Ht|done|apply He|..].
  - pose proof (counted_flags_voted t a voters flags (tb_flags t Ht) Ha
      (el_target_chain _ _ _ He) Hv Hm) as Hfv.
    destruct (counted_step_inv t a voters flags Hinv He Hm) as [Hct Hlen].
    eapply (finality_step_backed _ (aa_data a));
      [exact Hct|by apply eligible_counted|by apply counted_tally_backed| |done|exact Hf].
    by eapply flags_backed.
Qed.

Lemma attestation_steps_backed l t t' :
  tally_inv hashes n f0 t -> tally_backed t -> l ⊆ atts -> Forall attestation_typed l ->
  attestation_steps hashes n slots t l t' -> tally_backed t'.
Proof.
  intros Hinv Ht Hl Hty Hsteps. revert Hinv Ht Hl Hty.
  induction Hsteps as [|t a l t1 t2 Hs _ IH]; intros Hinv Ht Hl Hty; [done|].
  apply Forall_cons in Hty as [Ha Hty]. apply IH; [| |intros x Hx; apply Hl; by right|done].
  - by eapply attestation_step_inv.
  - eapply attestation_step_backed; [done|done|apply Hl; left|done|done].
Qed.
End History.

(** ** Unpacking what was packed *)
Lemma mjoin_inj {A} (n : nat) (l k : list (list A)) :
  (0 < n)%nat -> Forall (fun c => length c = n) l -> Forall (fun c => length c = n) k ->
  mjoin l = mjoin k -> l = k.
Proof.
  intros Hn Hl. revert k. induction Hl as [|x l Hx _ IH]; intros k Hk E.
  - destruct Hk as [|y k Hy _]; [done|]. rewrite mjoin_cons in E.
    apply (f_equal length) in E. rewrite length_app in E. simpl in E. lia.
  - destruct Hk as [|y k Hy Hk].
    + rewrite mjoin_cons in E. apply (f_equal length) in E. rewrite length_app in E. simpl in E. lia.
    + rewrite !mjoin_cons in E. apply app_inj_1 in E as [-> E]; [|lia]. f_equal. by apply IH.
Qed.

Lemma dget_combine_map (f : Bytes32 -> list bool) l r :
  r ∈ l -> dget r (combine l (map f l)) = Some (f r).
Proof.
  induction l as [|x l IH]; [by intros ?%elem_of_nil|]. simpl. case_decide; [by subst|].
  intros [->|Hin]%elem_of_cons; [done|]. by apply IH.
Qed.

Lemma dict_combine {K V} `{EqDecision K} (d : dict K V) : d = combine (dkeys d) (dvalues d).
Proof. unfold dkeys, dvalues. induction d as [|[k v] d IH]; simpl; [done|]. f_equal. exact IH. Qed.

Lemma unpack_repacked s t votes :
  state_inv (repacked s t) -> st_tally_inv s t -> (0 < length (st_validators s))%nat ->
  unpack_justifications (repacked s t) = Ok votes ->
  forall r, dget r votes = dget r (tl_votes t).
Proof.
  intros Hinv Ht Hn Hu. destruct (unpack_justifications_ok _ Hinv Hn) as
    (votes' & E & Hwf & Hk & Hj & Hv). rewrite E in Hu. injection Hu as <-.
  set (get := fun root => default [] (dget root (tl_votes t))) in *.
  assert (dvalues votes' = map get (sorted_roots (dkeys (tl_votes t)))) as Hd.
  { apply (mjoin_inj (length (st_validators s))); [done|done| |by rewrite Hj].
    apply Forall_map, Forall_forall. intros r. rewrite sorted_roots_perm.
    intros [fl Er]%dget_is_Some. unfold get. rewrite Er. simpl. by apply (tal_flags _ _ _ t Ht r). }
  intros r. rewrite (dict_combine votes'), Hd, Hk. simpl st_justifications_roots.
  destruct (dget r (tl_votes t)) as [fl|] eqn:Er.
  - rewrite dget_combine_map; [unfold get; by rewrite Er|].
    rewrite sorted_roots_perm. by eapply dget_Some_key.
  - apply dget_None. unfold dkeys. rewrite combine_fst by (by rewrite length_map).
    rewrite sorted_roots_perm. by apply dget_None.
Qed.

(** ** Every checkpoint of a reachable state is backed *)
Record state_backed (atts : list AggregatedAttestation) (s : State) : Prop := {
  sb_flags votes : unpack_justifications s = Ok votes ->
    flags_voted (st_historical_block_hashes s) atts votes;
  sb_slots : slots_backed (st_historical_block_hashes s) (length (st_validators s)) atts
    (st_justified_slots s) (st_finalized_slot s);
  sb_justified : checkpoint_backed (st_historical_block_hashes s) (length (st_validators s)) atts (st_latest_justified s);
  sb_finalized : checkpoint_backed (st_historical_block_hashes s) (length (st_validators s)) atts (st_latest_finalized s)
}.

Lemma header_applied_backed atts s b votes :
  state_inv s -> header_error s b = None -> state_backed atts s ->
  unpack_justifications (header_applied s b) = Ok votes ->
  tally_backed (st_historical_block_hashes (header_applied s b)) (length (st_validators s)) atts
    (initial_tally (header_applied s b) votes).
Proof.
  intros Hinv He [B1 B2 B3 B4] Hu. pose proof (anchored_slots s Hinv) as [Hj Hf].
  apply header_error_None in He as (_ & [Hlt _] & _).
  constructor; simpl.
  - intros r fl v Hg Hl. eapply voted_mono; [done|]. by eapply B1.
  - rewrite Hf. intros slot Hs Hjs. apply is_slot_justified_true_inv in Hjs; [|done].
    apply lookup_app_Some in Hjs as [Hjs|[_ Hjs]].
    2: { by apply list_elem_of_lookup_2, list_elem_of_In, repeat_spec in Hjs. }
    destruct (B2 slot Hs) as (r & Hr & Hb).
    { unfold is_slot_justified, justified_index_after. rewrite (proj2 (Z.leb_gt _ _)) by lia.
      by rewrite Hjs. }
    exists r. split; [by apply lookup_app_l_Some|by eapply backed_mono].
  - destruct (anchored_cases s) as [[_ ->]|[_ ->]]; [by left|].
    destruct B3; [by left|right; by eapply backed_mono].
  - destruct (anchored_cases s) as [[_ ->]|[_ ->]]; [by left|].
    destruct B4; [by left|right; by eapply backed_mono].
Qed.

Lemma state_backed_mono atts atts' s : atts ⊆ atts' -> state_backed atts s -> state_backed atts' s.
Proof.
  intros Hsub [B1 B2 B3 B4].
  assert (forall r, backed (st_historical_block_hashes s) atts (length (st_validators s)) r ->
    backed (st_historical_block_hashes s) atts' (length (st_validators s)) r) as Hm.
  { intros r Hb. rewrite <- (app_nil_r (st_historical_block_hashes s)). by eapply backed_mono. }
  constructor.
  - intros votes Hu r fl v Hg Hl. rewrite <- (app_nil_r (st_historical_block_hashes s)).
    eapply voted_mono; [done|]. by eapply B1.
  - intros slot Hs Hj. destruct (B2 slot Hs Hj) as (r & Hr & Hb). eauto.
  - destruct B3 as [?|?]; [by left|right; auto].
  - destruct B4 as [?|?]; [by left|right; auto].
Qed.

Lemma transition_backed atts s b s' :
  state_inv s -> ssz_valid b = true -> state_backed atts s -> state_transition s b = Ok s' ->
  state_backed (atts ++ bd_attestations (bk_body b)) s'.
Proof.
  intros Hinv Hb Hsb Hs.
  destruct (state_transition_cases s b Hinv Hb)
    as [(root & votes & t & E & Hlt & _ & He & _ & Hinv2 & Hinv3 & Hh & Hu & Ht0 & Ht & Hst)|(e & E & _)];
    [|congruence].
  rewrite E in Hs. injection Hs as <-. set (s1 := slot_advanced s root (bk_slot b)) in *.
  assert (state_inv s1) as Hinv1
    by (apply slot_advanced_inv; [done|lia|by apply valid_block_slot]).
  assert (state_backed (atts ++ bd_attestations (bk_body b)) s1) as Hsb1.
  { eapply (state_backed_mono atts); [intros x ?; apply elem_of_app; by left|].
    destruct Hsb. by constructor. }
  pose proof (header_applied_backed _ s1 b votes Hinv1 He Hsb1 Hu) as Htb.
  eapply (attestation_steps_backed _ _ (st_finalized_slot (header_applied s1 b))
    (root_to_slot (header_applied s1 b))) in Htb; [| | |exact Ht0| | |exact Hst].
  - constructor; [|apply Htb..]. intros votes' Hu'.
    pose proof (header_error_None _ _ He) as (_ & _ & Hv & _).
    intros r fl v Hg. rewrite (unpack_repacked _ t votes' Hinv3 Ht) in Hg; [|simpl in *; lia|done].
    by apply (tb_flags _ _ _ t Htb).
  - apply root_to_slot_maps, Hinv2.
  - rewrite (inv_history _ Hinv2). apply Hinv2.
  - intros x ?. apply elem_of_app. by right.
  - by apply valid_body_attestations, valid_block_body.
Qed.

Lemma included_app blocks b :
  included (blocks ++ [b]) = included blocks ++ bd_attestations (bk_body b).
Proof.
  unfold included. rewrite map_app, join_app. simpl. by rewrite app_nil_r.
Qed.

Lemma reachable_backed gt registry s blocks :
  Zlen registry <= VALIDATOR_REGISTRY_LIMIT -> reachable gt registry s blocks ->
  state_backed (included blocks) s /\ st_validators s = registry.
Proof.
  intros Hr. induction 1 as [|s blocks b s' Hreach [IH IHv] Hb Hs].
  - split; [|done]. constructor; simpl; [| |by left|by left].
    2: { by intros slot Hs Hj%is_slot_justified_true_inv. }
    intros votes Hu. unfold unpack_justifications, batched in Hu. simpl in Hu.
    destruct (1 <=? Zlen registry); [|done]. injection Hu as <-. done.
  - pose proof (reachable_inv gt registry s blocks Hr Hreach) as Hinv. rewrite included_app.
    split; [by eapply transition_backed|]. rewrite <- IHv.
    destruct (state_transition_cases s b Hinv Hb) as [(root & votes & t & E & _)|(e & E & _)];
      [|congruence].
    rewrite E in Hs. by injection Hs as <-.
Qed.

(** C16: every state reached from genesis satisfies the state invariant: history,
    flag and vote-table lengths agree with the slots, the checkpoints and every
    tracked root lie on the state's chain. *)
Theorem reachable_state_inv (gt : Z) (registry : list Validator) (s : State) (blocks : list Block) :
  Zlen registry <= VALIDATOR_REGISTRY_LIMIT -> reachable gt registry s blocks -> state_inv s.
Proof. apply reachable_inv. Qed.

Lemma reachable_state_inv_witness : state_inv A3.2.
Proof.
  apply (reachable_state_inv 1000 sample_registry A3.2 [A1.1; A2.1; A3.1]).
  - exact sample_registry_limit.
  - exact sample_A3.
Defined.

(** On any state that satisfies the invariant, applying a well-typed block
    returns a new state or raises one of the documented rejections; the only other
    exception is the list limit, for a block past the history limit.  No
    assertion, lookup, index, division or fuel error is possible. *)
Theorem state_transition_errors (s : State) (b : Block) (e : exn) :
  state_inv s -> ssz_valid b = true -> state_transition s b = Err e ->
  (exists r, e = SpecRejectionError r /\
     r ∈ [BLOCK_SLOT_NOT_IN_FUTURE; EMPTY_VALIDATOR_REGISTRY; WRONG_PROPOSER; PARENT_ROOT_MISMATCH;
          TOO_MANY_ATTESTATION_DATA; JUSTIFIED_SLOT_OUT_OF_RANGE; EMPTY_AGGREGATION_BITS;
          VALIDATOR_INDEX_OUT_OF_RANGE; STATE_ROOT_MISMATCH]) \/
  (e = SSZValueError /\ HISTORICAL_ROOTS_LIMIT < bk_slot b).
Proof.
  intros Hinv Hb He.
  destruct (state_transition_cases s b Hinv Hb) as [(root & votes & t & E & _)|(e' & E & Hcases)];
    [congruence|].
  rewrite E in He. injection He as ->.
  destruct Hcases as [[-> _]|[->|[->|[->|[[-> ?]|[(s2 & Hr%block_rejection_reason)| ->]]]]]];
    try (left; eexists; split; [reflexivity|]; apply list_elem_of_In; simpl; tauto).
  - by right.
  - left. rewrite !elem_of_cons, elem_of_nil in Hr.
    destruct Hr as [->|[->|[->|[->|[]]]]]; eexists; (split; [reflexivity|]);
      apply list_elem_of_In; simpl; tauto.
Qed.

(** Replaying a block is rejected: its slot is no longer in the future. *)
Lemma replay_rejected : state_transition A2.2 A2.1 = Err (SpecRejectionError BLOCK_SLOT_NOT_IN_FUTURE).
Proof. vm_compute. reflexivity. Qed.

Lemma state_transition_errors_witness :
  (exists r, SpecRejectionError BLOCK_SLOT_NOT_IN_FUTURE = SpecRejectionError r /\
     r ∈ [BLOCK_SLOT_NOT_IN_FUTURE; EMPTY_VALIDATOR_REGISTRY; WRONG_PROPOSER; PARENT_ROOT_MISMATCH;
          TOO_MANY_ATTESTATION_DATA; JUSTIFIED_SLOT_OUT_OF_RANGE; EMPTY_AGGREGATION_BITS;
          VALIDATOR_INDEX_OUT_OF_RANGE; STATE_ROOT_MISMATCH]) \/
  (SpecRejectionError BLOCK_SLOT_NOT_IN_FUTURE = SSZValueError /\
   HISTORICAL_ROOTS_LIMIT < bk_slot A2.1).
Proof.
  apply (state_transition_errors A2.2 A2.1).
  - exact sample_inv_A2.
  - vm_compute. reflexivity.
  - exact replay_rejected.
Defined.

(** C1: in a state reached from genesis, the justified and the finalized checkpoint
    are genesis or have the votes of at least two thirds of the registry included
    in the chain, each with that block of the chain as its target; so has every
    slot flagged as justified past the finalized one. *)
Theorem checkpoints_backed_by_quorum (gt : Z) (registry : list Validator) (s : State)
    (blocks : list Block) :
  Zlen registry <= VALIDATOR_REGISTRY_LIMIT -> reachable gt registry s blocks ->
  checkpoint_backed (st_historical_block_hashes s) (length registry) (included blocks)
    (st_latest_justified s) /\
  checkpoint_backed (st_historical_block_hashes s) (length registry) (included blocks)
    (st_latest_finalized s) /\
  slots_backed (st_historical_block_hashes s) (length registry) (included blocks)
    (st_justified_slots s) (st_finalized_slot s).
Proof.
  intros Hr Hreach. destruct (reachable_backed gt registry s blocks Hr Hreach) as [[] <-]. done.
Qed.

Lemma checkpoints_backed_by_quorum_witness :
  checkpoint_backed (st_historical_block_hashes A3.2) 3 (included [A1.1; A2.1; A3.1])
    (st_latest_justified A3.2) /\
  checkpoint_backed (st_historical_block_hashes A3.2) 3 (included [A1.1; A2.1; A3.1])
    (st_latest_finalized A3.2) /\
  slots_backed (st_historical_block_hashes A3.2) 3 (included [A1.1; A2.1; A3.1])
    (st_justified_slots A3.2) (st_finalized_slot A3.2).
Proof.
  apply (checkpoints_backed_by_quorum 1000 sample_registry A3.2).
  - exact sample_registry_limit.
  - exact sample_A3.
Defined.

(** ** Quorum intersection *)
Lemma quorum_intersection (n : nat) (l k : list Z) :
  NoDup l -> NoDup k -> Forall (fun v => 0 <= v < Z.of_nat n) l ->
  Forall (fun v => 0 <= v < Z.of_nat n) k ->
  (length l + length k <= n + length (filter (.∈ k) l))%nat.
Proof.
  intros Hl Hk Rl Rk.
  assert (length (filter (.∉ k) l ++ k) <= n)%nat as H.
  { rewrite <- (length_seq n 0), <- (length_map Z.of_nat).
    apply submseteq_length, NoDup_submseteq.
    - apply NoDup_app. split_and!; [by apply NoDup_filter| |done].
      intros x [Hx _]%list_elem_of_filter. done.
    - intros x Hx. rewrite Forall_forall in Rl, Rk.
      assert (0 <= x < Z.of_nat n) as Hb.
      { apply elem_of_app in Hx as [[_ Hx]%list_elem_of_filter|Hx]; auto. }
      apply list_elem_of_fmap. exists (Z.to_nat x). split; [lia|].
      apply elem_of_seq. lia. }
  rewrite length_app in H. assert (length l = length (filter (.∈ k) l) + length (filter (.∉ k) l))%nat
    as E; [|lia].
  clear. induction l as [|x l IH]; [done|]. rewrite !filter_cons.
  destruct (decide (x ∈ k)); [rewrite decide_False by tauto|rewrite decide_True by done]; simpl; lia.
Qed.

(** The checkpoint names a block of the chain, at its slot. *)
Definition on_chain (hashes : list Bytes32) (c : Checkpoint) : Prop :=
  cp_root c <> ZERO_HASH /\ hashes !! Z.to_nat (cp_slot c) = Some (cp_root c).

(** The root [r] occurs at no second slot of the history. *)
Definition unique_root (hashes : list Bytes32) (r : Bytes32) : Prop :=
  forall i j, hashes !! i = Some r -> hashes !! j = Some r -> i = j.

(** The attestation's target is the block of [c]: it has its root and lies on the
    chain [hashes].  Its slot is then that of [c] too, unless the chain repeats the
    root, which takes two headers of different slots with one hash. *)
Definition votes_for (hashes : list Bytes32) (c : Checkpoint) (a : AggregatedAttestation) : Prop :=
  cp_root (ad_target (aa_data a)) = cp_root c /\ on_chain hashes (ad_target (aa_data a)) /\
  (unique_root hashes (cp_root c) -> ad_target (aa_data a) = c).

Lemma voted_target hashes atts c v :
  cp_root c <> ZERO_HASH -> root_at hashes c = true -> 0 <= cp_slot c ->
  Forall attestation_typed atts -> voted hashes atts (cp_root c) v ->
  exists a, a ∈ atts /\ votes_for hashes c a /\ v ∈ set_indices (aa_bits a).
Proof.
  intros Hz Hc Hpos Hty (a & Ha & Hr & Hl & Hv). exists a. split_and!; [done| |done].
  apply bool_decide_eq_true in Hc, Hl. unfold votes_for, on_chain. rewrite Hr in *.
  split_and!; [done..|]. intros Hu. pose proof (Hu _ _ Hc Hl) as E. rewrite Forall_forall in Hty.
  destruct (Hty _ Ha) as (_ & _ & [Ht _]).
  destruct (ad_target (aa_data a)) as [r slot], c as [r' slot']. simpl in *.
  f_equal; [done|lia].
Qed.

Lemma reachable_included_typed gt registry s blocks :
  reachable gt registry s blocks -> Forall attestation_typed (included blocks).
Proof.
  induction 1 as [|s blocks b s' _ IH Hb _]; [constructor|]. rewrite included_app.
  apply Forall_app. split; [done|]. by apply valid_body_attestations, valid_block_body.
Qed.

(** A justified checkpoint past genesis: its voters, with their attestations. *)
Lemma justified_voters gt registry s blocks :
  Zlen registry <= VALIDATOR_REGISTRY_LIMIT -> reachable gt registry s blocks ->
  0 < st_justified_slot s ->
  exists voters, NoDup voters /\ Forall (fun v => 0 <= v < Zlen registry) voters /\
    2 * Zlen registry <= 3 * Zlen voters /\
    Forall (fun v => exists a, a ∈ included blocks /\
      votes_for (st_historical_block_hashes s) (st_latest_justified s) a /\
      v ∈ set_indices (aa_bits a)) voters.
Proof.
  intros Hr Hreach Hpos. pose proof (reachable_inv _ _ _ _ Hr Hreach) as Hinv.
  destruct (reachable_backed _ _ _ _ Hr Hreach) as [Hsb Hv].
  destruct (sb_justified _ _ Hsb) as [?|(voters & Hn & Hl & Hc)]; [lia|]. rewrite Hv in *.
  pose proof (inv_justified _ Hinv).
  destruct (inv_on_chain _ Hinv) as [Hch _]; [lia|]. pose proof (proj1 (inv_named _ Hinv) Hpos) as Hz.
  exists voters. split_and!; [done| |done|]; (eapply Forall_impl; [exact Hl|]); simpl.
  - tauto.
  - intros v [_ Hvv]. eapply voted_target; [done|done|lia| |done].
    by eapply reachable_included_typed.
Qed.

(** C33: when two chains from one genesis justify checkpoints of the same slot after
    genesis, at least a third of the registry has an attestation for each of the two
    in the blocks of that chain: its target has the checkpoint's root and lies on the
    chain, and is the checkpoint itself unless the chain repeats that root (a hash
    collision of two headers).  If the two checkpoints differ, each of these
    validators signed two votes with the same target slot and different roots. *)
Theorem conflicting_justification_needs_double_votes (gt : Z) (registry : list Validator)
    (s1 s2 : State) (blocks1 blocks2 : list Block) :
  Zlen registry <= VALIDATOR_REGISTRY_LIMIT ->
  reachable gt registry s1 blocks1 -> reachable gt registry s2 blocks2 ->
  0 < st_justified_slot s1 -> st_justified_slot s1 = st_justified_slot s2 ->
  exists offenders, NoDup offenders /\ Zlen registry <= 3 * Zlen offenders /\
    Forall (fun v => exists a1 a2,
      a1 ∈ included blocks1 /\
      votes_for (st_historical_block_hashes s1) (st_latest_justified s1) a1 /\
      v ∈ set_indices (aa_bits a1) /\
      a2 ∈ included blocks2 /\
      votes_for (st_historical_block_hashes s2) (st_latest_justified s2) a2 /\
      v ∈ set_indices (aa_bits a2)) offenders.
Proof.
  intros Hr R1 R2 Hp Heq.
  destruct (justified_voters _ _ _ _ Hr R1 Hp) as (l & Hl & Bl & Cl & Vl).
  destruct (justified_voters _ _ _ _ Hr R2 ltac:(lia)) as (k & Hk & Bk & Ck & Vk).
  exists (filter (.∈ k) l). split_and!; [by apply NoDup_filter| |].
  - pose proof (quorum_intersection (length registry) l k Hl Hk Bl Bk). lia.
  - apply Forall_forall. intros v [Hvk Hvl]%list_elem_of_filter.
    rewrite Forall_forall in Vl, Vk.
    destruct (Vl v Hvl) as (a1 & ? & ? & ?), (Vk v Hvk) as (a2 & ? & ? & ?). eauto 10.
Qed.

Lemma unique_root_dec hashes r :
  (length (filter (fun h => h = r) hashes) <= 1)%nat -> unique_root hashes r.
Proof.
  unfold unique_root. induction hashes as [|h hashes IH]; intros Hlen i j Hi Hj; [done|].
  rewrite filter_cons in Hlen. destruct (decide (h = r)) as [->|Hne].
  - simpl in Hlen. assert (forall k, hashes !! k <> Some r) as Hno.
    { intros k Hk%list_elem_of_lookup_2.
      assert (r ∈ filter (fun h => h = r) hashes) as Hf by (by apply list_elem_of_filter).
      destruct (filter (fun h => h = r) hashes); [by apply elem_of_nil in Hf|simpl in Hlen; lia]. }
    destruct i as [|i], j as [|j]; simpl in *; try done; by edestruct Hno.
  - destruct i as [|i], j as [|j]; simpl in *; try congruence. f_equal. by apply IH.
Qed.

Lemma conflicting_justification_needs_double_votes_witness :
  st_latest_justified A2.2 <> st_latest_justified B2.2 /\
  unique_root (st_historical_block_hashes A2.2) (cp_root (st_latest_justified A2.2)) /\
  unique_root (st_historical_block_hashes B2.2) (cp_root (st_latest_justified B2.2)) /\
  exists offenders, NoDup offenders /\ 3 <= 3 * Zlen offenders /\
    Forall (fun v => exists a1 a2,
      a1 ∈ included [A1.1; A2.1] /\
      votes_for (st_historical_block_hashes A2.2) (st_latest_justified A2.2) a1 /\
      v ∈ set_indices (aa_bits a1) /\
      a2 ∈ included [B1.1; B2.1] /\
      votes_for (st_historical_block_hashes B2.2) (st_latest_justified B2.2) a2 /\
      v ∈ set_indices (aa_bits a2)) offenders.
Proof.
  split; [vm_compute; discriminate|].
  split; [apply unique_root_dec; vm_compute; auto|].
  split; [apply unique_root_dec; vm_compute; auto|].
  apply (conflicting_justification_needs_double_votes 1000 sample_registry A2.2 B2.2).
  - exact sample_registry_limit.
  - exact sample_A2.
  - exact sample_B2.
  - reflexivity.
  - reflexivity.
Defined.

(** ** The phases of the transition *)

(** Advancing through empty slots always terminates: it rejects a target that
    is not in the future, and otherwise returns the state at the target slot with
    only the slot and the header's state root changed, the root being that of the
    state before the first empty slot when the header had none. *)
Theorem process_slots_closed_form (s : State) (target : Z) :
  0 <= st_slot s -> in_range 64 target ->
  (target <= st_slot s ->
   process_slots s target = Err (SpecRejectionError BLOCK_SLOT_NOT_IN_FUTURE)) /\
  (st_slot s < target ->
   exists root, process_slots s target =
       Ok (state_with_header_slot s (header_with_state_root (st_latest_block_header s) root) target) /\
     (hash_tree_root s <> ZERO_HASH ->
      root = if bool_decide (hd_state_root (st_latest_block_header s) = ZERO_HASH)
             then hash_tree_root s else hd_state_root (st_latest_block_header s))).
Proof.
  intros Hs Ht. unfold process_slots. split; intros H.
  - by rewrite (proj2 (Z.leb_le _ _)) by lia.
  - rewrite (proj2 (Z.leb_gt _ _)) by lia.
    destruct (process_slots_loop _ s target ltac:(lia) Ht eq_refl) as (root & E & Hroot).
    exists root. split; [exact E|]. intros Hz. apply Hroot. unfold cached_root.
    by case_bool_decide.
Qed.

Lemma process_slots_closed_form_witness :
  exists root, process_slots A1.2 9 =
    Ok (state_with_header_slot A1.2 (header_with_state_root (st_latest_block_header A1.2) root) 9).
Proof.
  destruct (process_slots_closed_form A1.2 9) as [_ H].
  - vm_compute. discriminate.
  - split; [discriminate|reflexivity].
  - destruct (H ltac:(vm_compute; reflexivity)) as (root & E & _). exists root. exact E.
Defined.

(** The header step accepts a block exactly when it sits at the state's slot,
    above the latest header, within the history limit, from the slot's proposer
    and on the state's tip; it then extends the history by the parent's root and a
    zero hash per skipped slot, so that the history has one entry per slot before
    the block's. *)
Theorem process_block_header_accepts (s : State) (b : Block) :
  state_inv s -> in_range 64 (bk_slot b) ->
  ((exists s', process_block_header s b = Ok s') <->
   bk_slot b = st_slot s /\ st_head_slot s < bk_slot b <= HISTORICAL_ROOTS_LIMIT /\
   Zlen (st_validators s) <> 0 /\
   bk_proposer_index b = st_slot s mod Zlen (st_validators s) /\
   bk_parent_root b = hash_tree_root (st_latest_block_header s)) /\
  (forall s', process_block_header s b = Ok s' ->
   st_historical_block_hashes s' =
     st_historical_block_hashes s ++ bk_parent_root b ::
       repeat ZERO_HASH (Z.to_nat (bk_slot b - st_head_slot s - 1)) /\
   Zlen (st_historical_block_hashes s') = bk_slot b /\
   Zlen (st_justified_slots s') = bk_slot b - 1 - st_finalized_slot s').
Proof.
  intros Hinv Hr. rewrite (process_block_header_eq s b Hinv Hr). split; [split|].
  - intros [s' H]. destruct (header_error s b) eqn:E; [done|]. by apply header_error_None.
  - intros (H1 & [H2 H3] & H4 & H5 & H6). destruct (header_error s b) as [e|] eqn:E; [|eauto].
    revert E. unfold header_error. rewrite <- H1, Z.eqb_refl, Z.gtb_ltb. cbn [negb].
    rewrite (proj2 (Z.leb_gt _ _)), (proj2 (Z.eqb_neq _ _)) by done.
    rewrite H5, <- H1, Z.eqb_refl, bool_decide_eq_true_2 by done. cbn [negb].
    by rewrite (proj2 (Z.ltb_ge _ _)) by lia.
  - intros s' H. destruct (header_error s b) eqn:E; [done|]. injection H as <-.
    destruct (header_applied_inv s b Hinv E) as [Hinv' Hpos].
    pose proof (inv_bits _ Hinv') as Hb. pose proof (inv_history _ Hinv') as Hh.
    pose proof (inv_order _ Hinv'). pose proof (inv_justified _ Hinv').
    apply header_error_None in E as (_ & _ & _ & _ & ->). split_and!; [done|done|].
    rewrite Hb. simpl in *. lia.
Qed.

Lemma process_block_header_accepts_witness :
  (exists s', process_block_header (slot_advanced A1.2 ZERO_HASH 7) A2.1 = Ok s') <->
   bk_slot A2.1 = 7 /\ 1 < bk_slot A2.1 <= HISTORICAL_ROOTS_LIMIT /\ 3 <> 0 /\
   bk_proposer_index A2.1 = 7 mod 3 /\
   bk_parent_root A2.1 =
     hash_tree_root (st_latest_block_header (slot_advanced A1.2 ZERO_HASH 7)).
Proof.
  apply (process_block_header_accepts (slot_advanced A1.2 ZERO_HASH 7) A2.1).
  - apply slot_advanced_inv; [|vm_compute; discriminate|vm_compute; split; [discriminate|reflexivity]].
    exact (reachable_inv _ _ _ _ sample_registry_limit sample_A1).
  - vm_compute. split; [discriminate|reflexivity].
Defined.

(** ** The vote ledger

    What the vote table means, with predicates in place of bit lists and packed
    flags: which later slots are justified, and who voted for which root. *)
Record Ledger := {
  lg_justified : Checkpoint;
  lg_finalized : Checkpoint;
  lg_justified_slot : Z -> Prop;
  lg_voted : Bytes32 -> Z -> Prop
}.

Section Ledger.
Context (hashes : list Bytes32) (n : nat).

Definition slot_is_justified (L : Ledger) (slot : Z) : Prop :=
  slot <= cp_slot (lg_finalized L) \/ lg_justified_slot L slot.

(** A vote that is counted: from a justified source to a later target that is not
    justified yet and may be, all three checkpoints on the chain. *)
Definition vote_counts (L : Ledger) (d : AttestationData) : Prop :=
  slot_is_justified L (cp_slot (ad_source d)) /\ ~ slot_is_justified L (cp_slot (ad_target d)) /\
  on_chain hashes (ad_source d) /\ on_chain hashes (ad_target d) /\ on_chain hashes (ad_head d) /\
  cp_slot (ad_source d) < cp_slot (ad_target d) /\
  justifiable (cp_slot (ad_target d)) (cp_slot (lg_finalized L)).

Definition participates (a : AggregatedAttestation) (v : Z) : Prop :=
  0 <= v /\ aa_bits a !! Z.to_nat v = Some true.

(** At least two thirds of the registry satisfy [P]. *)
Definition quorum (P : Z -> Prop) : Prop :=
  exists voters, NoDup voters /\ Forall P voters /\ 2 * Z.of_nat n <= 3 * Zlen voters.

Definition add_votes (L : Ledger) (a : AggregatedAttestation) : Ledger := {|
  lg_justified := lg_justified L;
  lg_finalized := lg_finalized L;
  lg_justified_slot := lg_justified_slot L;
  lg_voted r v := lg_voted L r v \/ (r = cp_root (ad_target (aa_data a)) /\ participates a v)
|}.

Definition justify (L : Ledger) (target : Checkpoint) : Ledger := {|
  lg_justified :=
    if decide (cp_slot (lg_justified L) < cp_slot target) then target else lg_justified L;
  lg_finalized := lg_finalized L;
  lg_justified_slot slot := lg_justified_slot L slot \/ slot = cp_slot target;
  lg_voted r v := lg_voted L r v /\ r <> cp_root target
|}.

Definition finalize (L : Ledger) (source : Checkpoint) : Ledger := {|
  lg_justified := lg_justified L;
  lg_finalized := source;
  lg_justified_slot slot := lg_justified_slot L slot /\ cp_slot source < slot;
  lg_voted r v := lg_voted L r v /\
    exists slot, cp_slot source < slot /\ hashes !! Z.to_nat slot = Some r
|}.

(** One attestation: ignored, counted, justifying its target, or justifying its
    target and finalizing its source.  The conditions exclude each other. *)
Inductive ledger_step (L : Ledger) (a : AggregatedAttestation) : Ledger -> Prop :=
| ledger_ignored : ~ vote_counts L (aa_data a) -> ledger_step L a L
| ledger_counted :
    vote_counts L (aa_data a) ->
    ~ quorum (lg_voted (add_votes L a) (cp_root (ad_target (aa_data a)))) ->
    ledger_step L a (add_votes L a)
| ledger_justified :
    vote_counts L (aa_data a) ->
    quorum (lg_voted (add_votes L a) (cp_root (ad_target (aa_data a)))) ->
    ~ consecutive (cp_slot (lg_finalized L)) (ad_source (aa_data a)) (ad_target (aa_data a)) ->
    ledger_step L a (justify (add_votes L a) (ad_target (aa_data a)))
| ledger_finalized :
    vote_counts L (aa_data a) ->
    quorum (lg_voted (add_votes L a) (cp_root (ad_target (aa_data a)))) ->
    consecutive (cp_slot (lg_finalized L)) (ad_source (aa_data a)) (ad_target (aa_data a)) ->
    ledger_step L a
      (finalize (justify (add_votes L a) (ad_target (aa_data a))) (ad_source (aa_data a))).

Inductive ledger_steps (L : Ledger) : list AggregatedAttestation -> Ledger -> Prop :=
| ledger_steps_nil : ledger_steps L [] L
| ledger_steps_cons a l L1 L2 :
    ledger_step L a L1 -> ledger_steps L1 l L2 -> ledger_steps L (a :: l) L2.

Lemma ledger_step_det L a L1 L2 : ledger_step L a L1 -> ledger_step L a L2 -> L1 = L2.
Proof. by destruct 1; destruct 1. Qed.

Lemma ledger_steps_det L l L1 L2 : ledger_steps L l L1 -> ledger_steps L l L2 -> L1 = L2.
Proof.
  intros H. revert L2. induction H as [|L a l L1 L1' Hs _ IH]; intros L2 H2; inversion H2; [done|].
  subst. apply IH. by erewrite (ledger_step_det L a L1); [|exact Hs|].
Qed.

(** ** The tally implements the ledger *)
Record tally_ledger (t : Tally) (L : Ledger) : Prop := {
  tl_same_justified : lg_justified L = tl_justified t;
  tl_same_finalized : lg_finalized L = tl_finalized t;
  tl_same_slots slot : lg_justified_slot L slot <->
    cp_slot (tl_finalized t) < slot /\
    tl_justified_slots t !! Z.to_nat (slot - cp_slot (tl_finalized t) - 1) = Some true;
  tl_same_votes r v : lg_voted L r v <->
    0 <= v /\ exists flags, dget r (tl_votes t) = Some flags /\ flags !! Z.to_nat v = Some true
}.

Lemma lies_on_chain_iff d :
  lies_on_chain d hashes = true <-> on_chain hashes (ad_source d) /\ on_chain hashes (ad_target d) /\ on_chain hashes (ad_head d).
Proof.
  unfold on_chain. split.
  - unfold lies_on_chain, root_at. intros H. repeat case_match; try done. bool_to_prop.
    by split_and!.
  - intros ((Z1 & C1) & (Z2 & C2) & (Z3 & C3)). unfold lies_on_chain, root_at.
    rewrite !bool_decide_eq_false_2, !bool_decide_eq_true_2 by done. cbn [orb].
    apply lookup_lt_Some in C1, C2, C3. by rewrite !(proj2 (Z.leb_gt _ _)) by lia.
Qed.

Lemma tally_slot_justified t L slot :
  tally_ledger t L ->
  is_slot_justified (tl_justified_slots t) (cp_slot (tl_finalized t)) slot = Ok true <->
  slot_is_justified L slot.
Proof.
  intros HL. unfold slot_is_justified. rewrite (tl_same_slots t L HL), (tl_same_finalized t L HL).
  unfold is_slot_justified, justified_index_after. destruct (Z.leb_spec slot (cp_slot (tl_finalized t))).
  - split; [by left|done].
  - rewrite of_option_Ok. split; [by right|]. intros [?|[_ ?]]; [lia|done].
Qed.

Lemma eligible_vote_counts t L d :
  tally_ledger t L -> eligible hashes t d -> vote_counts L d.
Proof.
  intros HL [E1 E2 _ _ _ _ E3 E4 E5]. apply lies_on_chain_iff in E4 as (C1 & C2 & C3).
  pose proof (unjustified_past _ _ _ E2) as Hp.
  unfold vote_counts. rewrite <- !(tally_slot_justified t L _ HL), (tl_same_finalized t L HL), E2.
  split_and!; try done; [lia|].
  destruct (proj2 (is_justifiable_after_spec _ _) (Z.lt_le_incl _ _ Hp)) as (b & Eb & Hb).
  rewrite E5 in Eb. injection Eb as <-. by apply Hb.
Qed.

Lemma vote_counts_eligible t L d :
  Zlen (tl_justified_slots t) = Zlen hashes - 1 - cp_slot (tl_finalized t) ->
  tally_ledger t L -> vote_counts L d -> eligible hashes t d.
Proof.
  intros Hlen HL (V1 & V2 & V3 & V4 & V5 & V6 & V7).
  assert (lies_on_chain d hashes = true) as Hc by (by apply lies_on_chain_iff).
  pose proof Hc as (R1 & R2 & R3 & R4 & R5 & R6)%lies_on_chain_true.
  rewrite <- (tally_slot_justified t L) in V1, V2 by done.
  rewrite (tl_same_finalized t L HL) in V7.
  destruct (is_slot_justified (tl_justified_slots t) (cp_slot (tl_finalized t)) (cp_slot (ad_target d)))
    as [[]|e] eqn:Et; [done| |].
  2: { apply is_slot_justified_Err in Et as [_ Hb]. lia. }
  pose proof (unjustified_past _ _ _ Et) as Hp.
  destruct (proj2 (is_justifiable_after_spec _ _) (Z.lt_le_incl _ _ Hp)) as (b & Eb & Hb).
  constructor; try done. rewrite Eb. f_equal. by apply Hb.
Qed.

Lemma mark_votes_set flags voters flags' (v : nat) :
  Forall (fun i => 0 <= i) voters -> foldM mark_vote flags voters = Ok flags' ->
  flags !! v = Some true \/ Z.of_nat v ∈ voters -> flags' !! v = Some true.
Proof.
  intros Hp. revert flags. induction voters as [|i voters IH]; intros flags; cbn [foldM].
  - intros [= <-] [?|?%elem_of_nil]; done.
  - apply Forall_cons in Hp as [Hi Hp]. specialize (IH Hp). intros (f1 & Hm & H)%bind_Ok Hv. apply (IH _ H). unfold mark_vote in Hm. unbind Hm.
    bool_to_prop. destruct (Nat.eq_dec (Z.to_nat i) v) as [<-|Hne].
    + left. apply list_lookup_insert_eq. lia.
    + rewrite list_lookup_insert_ne by done. destruct Hv as [?|[<-|?]%elem_of_cons]; [by left| |by right].
      by rewrite Nat2Z.id in Hne.
Qed.

(** The flags after an attestation are those of the ledger with its votes. *)
Lemma counted_flags t L a voters flags :
  tally_ledger t L -> to_validator_indices (aa_bits a) = Ok voters ->
  foldM mark_vote (flags_of n t (cp_root (ad_target (aa_data a)))) voters = Ok flags ->
  forall v, lg_voted (add_votes L a) (cp_root (ad_target (aa_data a))) v <->
    0 <= v /\ flags !! Z.to_nat v = Some true.
Proof.
  intros HL Hv Hm v. pose proof (voters_nonneg _ _ Hv) as Hp.
  apply to_validator_indices_Ok in Hv as [-> _]. cbn [add_votes lg_voted]. unfold participates.
  rewrite (tl_same_votes t L HL), <- elem_of_set_indices.
  assert (0 <= v -> Z.of_nat (Z.to_nat v) = v) as Hid by lia. split.
  - intros [(H0 & fl & Hg & Hl)|[_ Hs]].
    + split; [done|]. eapply mark_votes_set; [done..|]. left. unfold flags_of. by rewrite Hg.
    + pose proof Hs as [H0 _]%elem_of_set_indices. split; [done|].
      eapply mark_votes_set; [done..|]. right. by rewrite Hid.
  - intros [H0 Hf]. eapply mark_votes_lookup in Hf as [Hf|Hf]; [| |done|done].
    + left. split; [done|]. unfold flags_of in Hf. destruct (dget _ (tl_votes t)); [eauto|].
      by apply list_elem_of_lookup_2, list_elem_of_In, repeat_spec in Hf.
    + right. rewrite Hid in Hf by done. done.
Qed.

Lemma counted_ledger t L a voters flags :
  tally_ledger t L -> to_validator_indices (aa_bits a) = Ok voters ->
  foldM mark_vote (flags_of n t (cp_root (ad_target (aa_data a)))) voters = Ok flags ->
  tally_ledger (counted_tally n t (cp_root (ad_target (aa_data a))) flags) (add_votes L a).
Proof.
  intros HL Hv Hm. pose proof (counted_flags t L a voters flags HL Hv Hm) as Hf.
  destruct HL as [L1 L2 L3 L4]. constructor; [done..|]. intros r v. rewrite dget_counted_tally.
  case_decide as E.
  - rewrite E, Hf. split; [intros [? ?]; eauto|]. by intros (? & fl & [= <-] & ?).
  - cbn [add_votes lg_voted]. rewrite L4. split; [by intros [?|[? _]]|by left].
Qed.

Lemma justified_ledger t L target :
  cp_slot (tl_finalized t) < cp_slot target ->
  cp_slot target - cp_slot (tl_finalized t) - 1 < Zlen (tl_justified_slots t) ->
  tally_ledger t L -> tally_ledger (justified_tally target t) (justify L target).
Proof.
  intros Hlt Hb [L1 L2 L3 L4]. constructor; cbn [justify lg_justified lg_finalized lg_justified_slot
    lg_voted justified_tally tl_justified tl_finalized tl_justified_slots tl_votes].
  - rewrite L1, Z.gtb_ltb. destruct (Z.ltb_spec (cp_slot (tl_justified t)) (cp_slot target));
      case_decide; done || lia.
  - done.
  - intros slot. rewrite L3. destruct (Z.eq_dec slot (cp_slot target)) as [->|Hne].
    + rewrite list_lookup_insert_eq by lia. tauto.
    + split.
      * intros [[? ?]|?]; [|done]. by rewrite list_lookup_insert_ne by lia.
      * intros [? H]. left. by rewrite list_lookup_insert_ne in H by lia.
  - intros r v. rewrite L4, dget_ddel. case_decide as E; [|tauto].
    split; [by intros [_ ?]|by intros (_ & ? & ? & _)].
Qed.

Lemma finalized_ledger slots t L source :
  cp_slot (tl_finalized t) <= cp_slot source ->
  (forall r, r ∈ dkeys (tl_votes t) -> exists slot, dget r slots = Some slot /\
     hashes !! Z.to_nat slot = Some r /\
     forall i, cp_slot (tl_finalized t) < i -> hashes !! Z.to_nat i = Some r -> i <= slot) ->
  tally_ledger t L -> tally_ledger (finalized_tally slots source t) (finalize L source).
Proof.
  intros Hle Hlast [L1 L2 L3 L4]. constructor; cbn [finalize lg_justified lg_finalized
    lg_justified_slot lg_voted finalized_tally tl_justified tl_finalized tl_justified_slots tl_votes];
    [done..| |].
  - intros slot. rewrite L3, lookup_drop. split; intros [H1 H2].
    + destruct H1 as [? H1]. split; [done|]. rewrite <- H1. f_equal. lia.
    + split; [|done]. split; [lia|]. rewrite <- H2. f_equal. lia.
  - intros r v. rewrite L4, dget_dfilter. split.
    + intros [(H0 & fl & Hg & Hf) (slot & Hs & Hl)]. split; [done|]. exists fl. split; [|done].
      destruct (Hlast r) as (last & -> & _ & Hm); [by eapply dget_Some_key|].
      specialize (Hm slot ltac:(lia) Hl). by rewrite (proj2 (Z.ltb_lt _ _)) by lia.
    + intros (H0 & fl & Hg & Hf). destruct (dget r slots) as [last|] eqn:E; [|done].
      destruct (Z.ltb_spec (cp_slot source) last); [|done]. split; [eauto|].
      destruct (Hlast r) as (last' & E' & Hl & _); [by eapply dget_Some_key|].
      rewrite E in E'. injection E' as <-. eauto.
Qed.

Lemma quorum_flags (P : Z -> Prop) flags :
  length flags = n -> (forall v, P v <-> 0 <= v /\ flags !! Z.to_nat v = Some true) ->
  quorum P <-> 2 * Z.of_nat n <= 3 * count_votes flags.
Proof.
  intros Hl HP. rewrite count_votes_indices. split.
  - intros (voters & Hn & Hv & Hc). assert (length voters <= length (set_indices flags))%nat; [|lia].
    apply submseteq_length, NoDup_submseteq; [done|]. intros v Hin. rewrite Forall_forall in Hv.
    apply elem_of_set_indices, HP, Hv, Hin.
  - intros Hc. exists (set_indices flags). split_and!; [auto with spec| |done].
    apply Forall_forall. intros v Hv%elem_of_set_indices. by apply HP.
Qed.
End Ledger.

(** [slots] maps each root past [f0] to the last slot it occupies. *)
Definition maps_last (hashes : list Bytes32) (f0 : Z) (slots : dict Bytes32 Z) : Prop :=
  forall r i, f0 < i -> hashes !! Z.to_nat i = Some r -> exists slot, dget r slots = Some slot /\
    hashes !! Z.to_nat slot = Some r /\ i <= slot.

Lemma dget_dunion_enumerate r i k l d :
  (r, i) ∈ enumerate_roots k l -> exists j, dget r (dunion d (enumerate_roots k l)) = Some j /\ i <= j.
Proof.
  unfold dunion. revert i k d. induction l as [|x l IH]; intros i k d; simpl;
    [by intros ?%elem_of_nil|].
  intros Hin. destruct (decide (r ∈ l)) as [[m Hm]%list_elem_of_lookup|Hno].
  - destruct (IH (k + 1 + Z.of_nat m) (k + 1) (dset x k d)) as (j & Hj & Hle).
    { apply elem_of_enumerate_roots. split; [lia|].
      by replace (Z.to_nat (k + 1 + Z.of_nat m - (k + 1))) with m by lia. }
    apply elem_of_cons in Hin as [[= -> ->]|Hin]; [exists j; split; [done|lia]|]. by apply IH.
  - apply elem_of_cons in Hin as [[= -> ->]|[_ Hin]%elem_of_enumerate_roots].
    2: { by apply list_elem_of_lookup_2 in Hin. }
    exists k. split; [|done]. fold (dunion (dset x k d) (enumerate_roots (k + 1) l)).
    rewrite dget_dunion_notin; [by rewrite dget_dset_eq|].
    unfold dkeys. intros ([r' i'] & -> & Hi)%list_elem_of_fmap.
    apply elem_of_enumerate_roots in Hi as [_ Hi]. by apply list_elem_of_lookup_2 in Hi.
Qed.

Lemma root_to_slot_last s :
  0 <= st_finalized_slot s ->
  maps_last (st_historical_block_hashes s) (st_finalized_slot s) (root_to_slot s).
Proof.
  intros Hf r i Hi Hl. unfold root_to_slot, dict_of.
  destruct (dget_dunion_enumerate r i (st_finalized_slot s + 1)
    (drop (Z.to_nat (st_finalized_slot s + 1)) (st_historical_block_hashes s)) []) as (j & Hj & Hle).
  { apply elem_of_enumerate_roots. split; [lia|]. rewrite lookup_drop. rewrite <- Hl. f_equal. lia. }
  exists j. split; [done|]. split; [|done]. by apply (root_to_slot_maps s Hf).
Qed.

(** One attestation on the tally is one step of the ledger. *)
Lemma attestation_step_ledger hashes n f0 slots t a t' L :
  maps_last hashes f0 slots -> tally_inv hashes n f0 t -> attestation_step hashes n slots t a t' ->
  tally_ledger t L -> exists L', ledger_step hashes n L a L' /\ tally_ledger t' L'.
Proof.
  intros Hlast Hinv Hstep HL. set (root := cp_root (ad_target (aa_data a))).
  destruct Hstep as [Hne|voters flags He Hv Hm Hc|voters flags t' He Hv Hm Hc Hf].
  { exists L. split; [|done]. constructor. intros Hvc. apply Hne.
    eapply vote_counts_eligible; [apply Hinv|done|done]. }
  all: destruct (counted_step_inv hashes n f0 t a voters flags Hinv He Hm) as [Hct Hlen];
    pose proof (counted_ledger n t L a voters flags HL Hv Hm) as HLc;
    pose proof (eligible_vote_counts hashes t L _ HL He) as Hvc;
    pose proof (quorum_flags n _ flags Hlen (counted_flags n t L a voters flags HL Hv Hm)) as Hq.
  { exists (add_votes L a). split; [|done]. apply ledger_counted; [done|]. rewrite Hq. lia. }
  pose proof (unjustified_past _ _ _ (el_target _ _ _ He)) as Hpast.
  pose proof (el_order _ _ _ He) as Ho. pose proof (tal_bits _ _ _ _ Hinv) as Hbits.
  assert (tally_ledger (justified_tally (ad_target (aa_data a)) (counted_tally n t root flags))
    (justify (add_votes L a) (ad_target (aa_data a)))) as HLj
    by (apply justified_ledger; simpl; [done|lia|done]).
  apply Hq in Hc.
  destruct Hf as [[Hcons ->]|[Hcons ->]].
  - eexists. split; [apply ledger_finalized; [done..|]; by rewrite (tl_same_finalized t L HL)|].
    apply finalized_ledger; [destruct Hcons; simpl in *; lia| |done].
    intros r [Hr _]%elem_of_dkeys_ddel. destruct (tal_tracked _ _ _ _ Hct r Hr) as (i & Hi & Hl).
    pose proof (tal_f0 _ _ _ _ Hinv) as Hf0. simpl in Hi.
    destruct (Hlast r i ltac:(lia) Hl) as (slot & Hg & Hs & _). exists slot. split_and!; [done..|].
    simpl. intros j Hj Hjl. destruct (Hlast r j ltac:(lia) Hjl) as (slot' & Hg' & _ & ?).
    congruence.
  - eexists. split; [apply ledger_justified; [done..|]; by rewrite (tl_same_finalized t L HL)|done].
Qed.

Lemma attestation_steps_ledger hashes n f0 slots l t t' L :
  maps_roots hashes f0 slots -> Zlen hashes <= HISTORICAL_ROOTS_LIMIT ->
  maps_last hashes f0 slots -> tally_inv hashes n f0 t -> Forall attestation_typed l ->
  attestation_steps hashes n slots t l t' -> tally_ledger t L ->
  exists L', ledger_steps hashes n L l L' /\ tally_ledger t' L'.
Proof.
  intros Hmaps Hlim Hlast Hinv Hty Hsteps. revert L Hinv Hty.
  induction Hsteps as [|t a l t1 t2 Hs _ IH]; intros L Hinv Hty HL.
  - exists L. split; [constructor|done].
  - apply Forall_cons in Hty as [Ha Hty].
    destruct (attestation_step_ledger _ _ _ _ _ _ _ L Hlast Hinv Hs HL) as (L1 & Hs1 & HL1).
    destruct (IH L1) as (L2 & Hs2 & HL2); [by eapply attestation_step_inv|done..|].
    exists L2. split; [by econstructor|done].
Qed.

(** ** The state represents the ledger *)

(** The flag of validator [v] in the row of [r] of the packed table. *)
Definition packed_vote (s : State) (r : Bytes32) (v : Z) : Prop :=
  0 <= v < Zlen (st_validators s) /\
  exists i, st_justifications_roots s !! i = Some r /\
    st_justifications_validators s !! (i * length (st_validators s) + Z.to_nat v)%nat = Some true.

Record state_ledger (s : State) (L : Ledger) : Prop := {
  sl_justified : lg_justified L = st_latest_justified s;
  sl_finalized : lg_finalized L = st_latest_finalized s;
  sl_slots slot : lg_justified_slot L slot <->
    st_finalized_slot s < slot /\
    st_justified_slots s !! Z.to_nat (slot - st_finalized_slot s - 1) = Some true;
  sl_votes r v : lg_voted L r v <-> packed_vote s r v
}.

(** The ledger a state stands for. *)
Definition ledger_of (s : State) : Ledger := {|
  lg_justified := st_latest_justified s;
  lg_finalized := st_latest_finalized s;
  lg_justified_slot slot := st_finalized_slot s < slot /\
    st_justified_slots s !! Z.to_nat (slot - st_finalized_slot s - 1) = Some true;
  lg_voted := packed_vote s
|}.

Lemma ledger_of_state s : state_ledger s (ledger_of s).
Proof. by constructor. Qed.

Lemma mjoin_lookup {A} (n : nat) (l : list (list A)) i x v :
  Forall (fun c => length c = n) l -> l !! i = Some x -> (v < n)%nat ->
  mjoin l !! (i * n + v)%nat = x !! v.
Proof.
  intros Hl. revert i. induction Hl as [|c l Hc _ IH]; intros i Hi Hv; [done|].
  rewrite mjoin_cons. destruct i as [|i]; simpl in Hi.
  - injection Hi as ->. rewrite lookup_app_l by lia. done.
  - rewrite lookup_app_r by lia. rewrite <- (IH i Hi Hv). f_equal. lia.
Qed.

Lemma packed_vote_unpacked s votes r v :
  state_inv s -> (0 < length (st_validators s))%nat -> unpack_justifications s = Ok votes ->
  packed_vote s r v <->
  0 <= v /\ exists flags, dget r votes = Some flags /\ flags !! Z.to_nat v = Some true.
Proof.
  intros Hinv Hn Hu. destruct (unpack_justifications_ok s Hinv Hn) as (votes' & E & Hwf & Hk & Hj & Hf).
  rewrite E in Hu. injection Hu as ->. unfold packed_vote. rewrite <- Hk, <- Hj. unfold dkeys. split.
  - intros ([H0 Hlt] & i & Hr & Hb). split; [done|].
    apply list_lookup_fmap_Some in Hr as ([r' fl] & -> & Hi). exists fl. split.
    + apply In_dget; [done|]. by eapply list_elem_of_lookup_2.
    + rewrite <- Hb. symmetry. apply mjoin_lookup; [done| |lia].
      unfold dvalues. by rewrite list_lookup_fmap, Hi.
  - intros (H0 & fl & Hg & Hb). apply dget_In, list_elem_of_lookup in Hg as [i Hi].
    assert (dvalues votes !! i = Some fl) as Hd by (unfold dvalues; by rewrite list_lookup_fmap, Hi).
    assert (length fl = length (st_validators s)) as Hlen by (by eapply (Forall_lookup_1 _ _ _ _ Hf)).
    pose proof (lookup_lt_Some _ _ _ Hb). split; [lia|]. exists i. split; [by rewrite list_lookup_fmap, Hi|].
    by rewrite (mjoin_lookup _ _ _ fl) by (done || lia).
Qed.

Lemma initial_ledger s votes L :
  state_inv s -> (0 < length (st_validators s))%nat -> unpack_justifications s = Ok votes ->
  state_ledger s L <-> tally_ledger (initial_tally s votes) L.
Proof.
  intros Hinv Hn Hu. pose proof (packed_vote_unpacked s votes) as Hp.
  split; intros [L1 L2 L3 L4]; constructor; try done; intros r v; rewrite L4; by rewrite Hp || by rewrite <- Hp.
Qed.

(** C34: the packed vote table implements the vote ledger.  On a state with the state
    invariant (every reachable one, past its first block's header) and a registry,
    accepted attestations take the ledger the state stands for to the ledger the new
    state stands for, one step each: an attestation is ignored exactly when it does
    not count (its source is not justified, its target is or may not be, a checkpoint
    is off the chain, or the order is wrong); otherwise its participants are added to
    the voters of the target root, and exactly when these are two thirds of the
    registry the target becomes justified and its votes are dropped; the source then
    becomes final exactly when it is past the finalized slot and no slot in between
    may be justified, and the votes kept are those of roots at a later slot.  The
    ledger the steps end in is unique. *)
Theorem process_attestations_refines_steps (s : State) (atts : list AggregatedAttestation)
    (s' : State) (L : Ledger) :
  state_inv s -> 0 < st_head_slot s -> st_validators s <> [] -> Forall attestation_typed atts ->
  process_attestations s atts = Ok s' -> state_ledger s L ->
  exists L',
    ledger_steps (st_historical_block_hashes s) (length (st_validators s)) L atts L' /\
    state_ledger s' L' /\
    (forall L'', ledger_steps (st_historical_block_hashes s) (length (st_validators s)) L atts L'' ->
       L'' = L').
Proof.
  intros Hinv Hh Hv Hty Hp HL.
  assert (0 < length (st_validators s))%nat as Hn by (destruct (st_validators s); [done|simpl; lia]).
  destruct (process_attestations_ok s atts Hinv Hh Hn Hty)
    as [(votes & t & Hu & E & Hinv' & Ht0 & Ht & Hst)|(e & E & _)]; [|congruence].
  rewrite E in Hp. injection Hp as <-. pose proof (proj1 (inv_order s Hinv)) as Hf.
  destruct (attestation_steps_ledger _ _ _ _ _ _ _ L (root_to_slot_maps s Hf)
    ltac:(rewrite (inv_history s Hinv); apply Hinv) (root_to_slot_last s Hf) Ht0 Hty Hst)
    as (L' & Hsteps & HL'); [by apply (initial_ledger s votes)|].
  destruct (unpack_justifications_ok _ Hinv' Hn) as (votes' & Hu' & _).
  exists L'. split_and!; [done| |intros L'' H; by eapply ledger_steps_det].
  apply (initial_ledger _ votes'); [done..|]. destruct HL' as [L1 L2 L3 L4]. constructor; try done.
  intros r v. rewrite L4. simpl. by rewrite (unpack_repacked _ _ _ Hinv' Ht Hn Hu').
Qed.

(** The sample state of [A1], advanced to slot 2 and past the header of [A2]. *)
Definition sample_mid : State := Eval vm_compute in
  match (s ← process_slots A1.2 2; process_block_header s A2.1) with
  | Ok s => s | Err _ => sample_genesis end.

Lemma sample_mid_eq : (s ← process_slots A1.2 2; process_block_header s A2.1) = Ok sample_mid.
Proof. vm_compute. reflexivity. Qed.

Lemma advanced_header_inv s target b s' :
  state_inv s -> in_range 64 target -> in_range 64 (bk_slot b) ->
  (s1 ← process_slots s target; process_block_header s1 b) = Ok s' -> state_inv s'.
Proof.
  intros Hinv Ht Hb (s1 & Hs & Hp)%bind_Ok.
  apply process_slots_Ok in Hs as (Hlt & root & -> & _); [|apply Hinv|done].
  assert (state_inv (slot_advanced s root target)) as H1
    by (apply slot_advanced_inv; [done|lia|done]).
  rewrite process_block_header_eq in Hp by done.
  destruct (header_error _ _) eqn:E; [done|]. injection Hp as <-. by apply header_applied_inv.
Qed.

Lemma sample_mid_inv : state_inv sample_mid.
Proof.
  apply (advanced_header_inv A1.2 2 A2.1).
  - exact (reachable_inv _ _ _ _ sample_registry_limit sample_A1).
  - split; [discriminate|reflexivity].
  - split; [discriminate|reflexivity].
  - exact sample_mid_eq.
Qed.

Lemma process_attestations_refines_steps_witness :
  exists L',
    ledger_steps (st_historical_block_hashes sample_mid) 3 (ledger_of sample_mid)
      (bd_attestations (bk_body A2.1)) L' /\
    state_ledger A2.2 L' /\
    (forall L'', ledger_steps (st_historical_block_hashes sample_mid) 3 (ledger_of sample_mid)
       (bd_attestations (bk_body A2.1)) L'' -> L'' = L').
Proof.
  apply (process_attestations_refines_steps sample_mid (bd_attestations (bk_body A2.1)) A2.2).
  - exact sample_mid_inv.
  - vm_compute. reflexivity.
  - vm_compute. discriminate.
  - apply valid_body_attestations. vm_compute. reflexivity.
  - vm_compute. reflexivity.
  - exact (ledger_of_state sample_mid).
Defined.
