(* ===== verification/Poseidon.v ===== *)
(** * The KoalaBear field and the Poseidon permutation (crypto/koalabear.py, poseidon.py)

    A field element is a [Z] in [[0, P)].  The permutation runs on numpy arrays of
    [int64], whose arithmetic wraps: [i64] is that wrap-around, written at every
    addition and multiplication of the code.  The reference [ref_permute] computes
    in the field, with the circulant matrix given by its entries and no intermediate
    reduction; the two agree, so nothing ever wraps. *)

From S2P Require Import Prelude Uint Ssz.

(** ** KoalaBear *)

(** [Fp.__new__] on an integer *)
Definition fp_new (value : Z) : Z := value mod P.
Definition fp_add (a b : Z) : Z := fp_new (a + b).
Definition fp_sub (a b : Z) : Z := fp_new (a - b).
Definition fp_neg (a : Z) : Z := fp_new (- a).
Definition fp_mul (a b : Z) : Z := fp_new (a * b).

Definition in_field (z : Z) : Prop := 0 <= z < P.
#[export] Instance in_field_dec z : Decision (in_field z).
Proof. unfold in_field. apply _. Defined.

(** ** Parameters *)
Record PoseidonParams := {
  width : Z;
  rounds_f : Z;
  rounds_p : Z;
  mds_first_row : list Z;
  round_constants : list Z
}.

(** The field constraints and [check_lengths]. *)
Definition PoseidonParams_new (width rounds_f rounds_p : Z) (mds_first_row round_constants : list Z)
    : result PoseidonParams :=
  check! (0 <? width) && (0 <? rounds_f) && (rounds_f mod 2 =? 0) && (0 <=? rounds_p)
    && (1 <=? Zlen mds_first_row) && (1 <=? Zlen round_constants) else ValueError;;
  check! Zlen mds_first_row =? width else ValueError;;
  let expected_constants := (rounds_f + rounds_p) * width in
  check! Zlen round_constants =? expected_constants else ValueError;;
  Ok {| width := width; rounds_f := rounds_f; rounds_p := rounds_p;
        mds_first_row := mds_first_row; round_constants := round_constants |}.

(** ** The engine *)

(** The value an [int64] register holds for the integer [z]. *)
Definition i64 (z : Z) : Z :=
  if (- 2 ^ 63 <=? z) && (z <? 2 ^ 63) then z else (z + 2 ^ 63) mod 2 ^ 64 - 2 ^ 63.

(** [row_sum += (mds[i, j] * state[j]) % p], over a row *)
Fixpoint row_product (p : Z) (row state : list Z) (row_sum : Z) : Z :=
  match row, state with
  | m :: row, s :: state => row_product p row state (i64 (row_sum + i64 (m * s) mod p))
  | _, _ => row_sum
  end.
Definition _mds_multiply_jit (state : list Z) (mds : list (list Z)) (p : Z) : list Z :=
  map (fun row => row_product p row state 0 mod p) mds.

(** [(state + round_constants[const_index : const_index + width]) % p] *)
Definition add_constants (p : Z) (state constants : list Z) : list Z :=
  zip_with (fun s c => i64 (s + c) mod p) state constants.

(** [(x * x % p) * x % p] *)
Definition cube_jit (p x : Z) : Z := i64 (i64 (x * x) mod p * x) mod p.

Record Poseidon := {
  _width : Z;
  _half_rounds_f : Z;
  _rounds_p : Z;
  _mds : list (list Z);
  _round_constants : list Z
}.

(** [np.roll(l, i)] for [0 <= i < len(l)] *)
Definition roll (l : list Z) (i : nat) : list Z :=
  drop (length l - i) l ++ take (length l - i) l.

(** [Poseidon.__init__] *)
Definition Poseidon_init (params : PoseidonParams) : Poseidon := {|
  _width := width params;
  _half_rounds_f := rounds_f params / 2;
  _rounds_p := rounds_p params;
  _mds := map (fun i => map (fun z => z mod P) (roll (mds_first_row params) i))
            (seq 0 (Z.to_nat (width params)));
  _round_constants := round_constants params
|}.

(** The body of a full round and of a partial one, on the state and [const_index]. *)
Definition full_round (e : Poseidon) (p : Z) (acc : list Z * Z) : list Z * Z :=
  let '(state, const_index) := acc in
  let constants := take (Z.to_nat (_width e)) (drop (Z.to_nat const_index) (_round_constants e)) in
  let state := add_constants p state constants in
  let state := map (cube_jit p) state in
  (_mds_multiply_jit state (_mds e) p, const_index + _width e).
Definition partial_round (e : Poseidon) (p : Z) (acc : list Z * Z) : list Z * Z :=
  let '(state, const_index) := acc in
  let constants := take (Z.to_nat (_width e)) (drop (Z.to_nat const_index) (_round_constants e)) in
  let state := add_constants p state constants in
  let state := match state with x :: l => cube_jit p x :: l | [] => [] end in
  (_mds_multiply_jit state (_mds e) p, const_index + _width e).

Definition _permute_jit (e : Poseidon) (p : Z) (state : list Z) : list Z :=
  let acc := Nat.iter (Z.to_nat (_half_rounds_f e)) (full_round e p) (state, 0) in
  let acc := Nat.iter (Z.to_nat (_rounds_p e)) (partial_round e p) acc in
  (Nat.iter (Z.to_nat (_half_rounds_f e)) (full_round e p) acc).1.

Definition permute (e : Poseidon) (current_state : list Z) : result (list Z) :=
  check! Zlen current_state =? _width e else ValueError;;
  Ok (map fp_new (_permute_jit e P current_state)).

(** ** The instances *)
Definition _RAW_CONSTANTS_16 : list Z := [
  2128964168; 288780357; 316938561; 2126233899; 426817493; 1714118888; 1045008582; 1738510837;
  889721787; 8866516; 681576474; 419059826; 1596305521; 1583176088; 1584387047; 1529751136;
  1863858111; 1072044075; 517831365; 1464274176; 1138001621; 428001039; 245709561; 1641420379;
  1365482496; 770454828; 693167409; 757905735; 136670447; 436275702; 525466355; 1559174242;
  1030087950; 869864998; 322787870; 267688717; 948964561; 740478015; 679816114; 113662466;
  2066544572; 1744924186; 367094720; 1380455578; 1842483872; 416711434; 1342291586; 1692058446;
  1493348999; 1113949088; 210900530; 1071655077; 610242121; 1136339326; 2020858841; 1019840479;
  678147278; 1678413261; 1361743414; 61132629; 1209546658; 64412292; 1936878279; 1980661727;
  1423960925; 2101391318; 1915532054; 275400051; 1168624859; 1141248885; 356546469; 1165250474;
  1320543726; 932505663; 1204226364; 1452576828; 1774936729; 926808140; 1184948056; 1186493834;
  843181003; 185193011; 452207447; 510054082; 1139268644; 630873441; 669538875; 462500858;
  876500520; 1214043330; 383937013; 375087302; 636912601; 307200505; 390279673; 1999916485;
  1518476730; 1606686591; 1410677749; 1581191572; 1004269969; 143426723; 1747283099; 1016118214;
  1749423722; 66331533; 1177761275; 1581069649; 1851371119; 852520128; 1499632627; 1820847538;
  150757557; 884787840; 619710451; 1651711087; 505263814; 212076987; 1482432120; 1458130652;
  382871348; 417404007; 2066495280; 1996518884; 902934924; 582892981; 1337064375; 1199354861;
  2102596038; 1533193853; 1436311464; 2012303432; 839997195; 1225781098; 2011967775; 575084315;
  1309329169; 786393545; 995788880; 1702925345; 1444525226; 908073383; 1811535085; 1531002367;
  1635653662; 1585100155; 867006515; 879151050; 1686691828; 1911580916; 91130143; 82963660;
  1714575317; 1730032057; 1483839612; 671879326; 706901857; 889857513; 1536274884; 2047292742;
  25322096; 1403418400; 248819828; 885984334; 1853169288; 700276569; 1240216287; 1989362987;
  1022402136; 1805705919; 2058959567; 1021679583; 1399733570; 343572621; 1580395350; 1512059683;
  1352030054; 1833220037; 1721262954; 1471696799; 1431003577; 1839246120; 361084588; 1728422580;
  354972406; 256117245; 598334816; 1865095380; 1705811924; 789511146; 1495164925; 561815963;
  1184665802; 64360181; 1319601534; 130574927; 680449121; 803543842; 2116630036; 743172997;
  1527479569; 504881142; 144435937; 173723418; 801324431; 1614949830; 1847445817; 1666404793;
  1431449536; 1052331767; 707044956; 773037174; 1362694468; 2026637122; 1469397241; 1155439278;
  1009720878; 425150398; 613823388; 1695231545; 1384748645; 1823692120; 256252956; 1895215728;
  1068147567; 1659057290; 1730242507; 961316875; 709278338; 1677702986; 486045142; 1406216050;
  57296210; 1004379947; 49753124; 45482092; 125821272; 530411172; 546327919; 1566913786;
  107841908; 1637413364; 640686772; 1106408642; 15384924; 682969927; 590967709; 1220945948;
  1322857980; 1066502138; 1243164838; 987027254; 255793289; 1666857103; 677560645; 662622696;
  1303526573; 521867765; 524139051; 472312654; 260003142; 1825580208; 1740929282; 2033944832;
  243935292; 1167112170; 1867938347; 1573483264; 354712518; 1347846091; 322895748; 1417528047;
  887831995; 306193175; 1724296777; 390281398; 606408712; 458311975; 103651542; 2062748604;
  649008616; 1893271459; 1576819884; 1931421676; 1403682111; 1672154822; 559961076; 410610489;
  420834045; 1592420723; 1728366249; 231604267; 856779200; 1900900728; 1037762479; 2118535511;
  550132202; 1738023113; 1122967969; 2039390345; 346509219; 201772824; 1783401810; 1645178241;
  572559386; 1383578512; 587987294; 181961850; 1586948278; 2008286574; 1889865004; 1594813785;
  910607583; 283875975; 569300663; 1397415222; 1849586721; 723878158; 495939707; 1160874522;
  1736413170; 39373280; 1288710656; 774176533; 1665823069; 1254104665; 1611993569; 652853274;
  1276533870; 1473057088; 986076219; 1736955975; 58588153; 1842991225; 1294250625; 711934077;
  20045710; 1267366038; 594544728; 754312500; 313195583; 1414958339; 438634293; 1395746925;
  1290235281; 2040273548; 729451209; 1622074994; 1962361372; 1010963565; 651389381; 1256540690;
  2129270481; 1558440680; 1777502612; 640386626; 1628261572; 1578824220; 444933840; 829100667;
  896990813; 47802528; 1268780881; 1086249363; 931117319; 2019107182; 422697425; 1404080974;
  1905348599; 1319874156; 1905673870; 374029506; 1489725120; 1276408583; 1799027917; 1110856075;
  1255691781; 689144545; 512341711; 1578550184; 778524961; 607127892; 98915779; 2022181412;
  1983525157; 1330885184; 414710339; 733907571; 479859442; 1064293389; 236801732; 325174861;
  162067568; 64109120; 278581904; 683867016; 996448498; 1960361559; 1782740946; 415413204;
  1649591052; 130819424; 547348827; 1386569644; 1307680439; 38932758; 1581338609; 1020895732;
  5942549; 665140992; 1924917707; 1910029693; 1100265370; 1223195250; 859919676; 1674792874;
  321520099; 942924505; 1232236036; 88692728; 2071051492; 1945027965; 1433294131; 531185630;
  879398056; 291692510; 1546702888; 155861652; 810736858; 932742296; 1374710679; 1703184249;
  1973006548; 1131403964; 1724233597; 1086876318; 669451611; 1829624280; 2119538869; 441255155;
  1580936135; 1396398895; 1043570981; 1716351438; 942566442; 616885102; 334644983; 132306927
].
Definition _RAW_CONSTANTS_24 : list Z := [
  487143900; 1829048205; 1652578477; 646002781; 1044144830; 53279448; 1519499836; 22697702;
  1768655004; 230479744; 1484895689; 705130286; 1429811285; 1695785093; 1417332623; 1115801016;
  1048199020; 878062617; 738518649; 249004596; 1601837737; 24601614; 245692625; 364803730;
  1857019234; 1906668230; 1916890890; 835590867; 557228239; 352829675; 515301498; 973918075;
  954515249; 1142063750; 1795549558; 608869266; 1850421928; 2028872854; 1197543771; 1027240055;
  1976813168; 963257461; 652017844; 2113212249; 213459679; 90747280; 1540619478; 324138382;
  1377377119; 294744504; 512472871; 668081958; 907306515; 518526882; 1907091534; 1152942192;
  1572881424; 720020214; 729527057; 1762035789; 86171731; 205890068; 453077400; 1201344594;
  986483134; 125174298; 2050269685; 1895332113; 749706654; 40566555; 742540942; 1735551813;
  162985276; 1943496073; 1469312688; 703013107; 1979485151; 1278193166; 548674995; 2118718736;
  749596440; 1476142294; 1293606474; 918523452; 890353212; 1691895663; 1932240646; 1180911992;
  86098300; 1592168978; 895077289; 724819849; 1697986774; 1608418116; 1083269213; 691256798;
  328586442; 1572520009; 1375479591; 322991001; 967600467; 1172861548; 1973891356; 1503625929;
  1881993531; 40601941; 1155570620; 571547775; 1361622243; 1495024047; 1733254248; 964808915;
  763558040; 1887228519; 994888261; 718330940; 213359415; 603124968; 1038411577; 2099454809;
  949846777; 630926956; 1168723439; 222917504; 1527025973; 1009157017; 2029957881; 805977836;
  1347511739; 540019059; 589807745; 440771316; 1530063406; 761076336; 87974206; 1412686751;
  1230318064; 514464425; 1469011754; 1770970737; 1510972858; 965357206; 209398053; 778802532;
  40567006; 1984217577; 1545851069; 879801839; 1611910970; 1215591048; 330802499; 1051639108;
  321036; 511927202; 591603098; 1775897642; 115598532; 278200718; 233743176; 525096211;
  1335507608; 830017835; 1380629279; 560028578; 598425701; 302162385; 567434115; 1859222575;
  958294793; 1582225556; 1781487858; 1570246000; 1067748446; 526608119; 1666453343; 1786918381;
  348203640; 1860035017; 1489902626; 1904576699; 860033965; 1954077639; 1685771567; 971513929;
  1877873770; 137113380; 520695829; 806829080; 1408699405; 1613277964; 793223662; 648443918;
  893435011; 403879071; 1363789863; 1662900517; 2043370; 2109755796; 931751726; 2091644718;
  606977583; 185050397; 946157136; 1350065230; 1625860064; 122045240; 880989921; 145137438;
  1059782436; 1477755661; 335465138; 1640704282; 1757946479; 1551204074; 681266718; 26794419;
  118133478; 790326451; 1397754043; 900674458; 2050550060; 1341594460; 991509178; 886123038;
  401162816; 784471260; 1138791301; 2102683928; 1907334653; 1981424059; 1140705670; 98412308;
  755923125; 533543035; 1994459766; 681644757; 444323719; 1075383778; 774344810; 540251470;
  548393672; 1907748018; 1468174259; 573067736; 1932390633; 1945404469; 2120477336; 93053768;
  580811359; 72837679; 697540368; 2063434506; 1567480161; 246832532; 970599289; 918350010;
  1599317972; 943398098; 534527071; 2107417924; 2001209105; 918886938; 10397083; 1931155453;
  538139069; 582968473; 1628379689; 1014213189; 1778984345; 477935363; 2035496025; 2130062726;
  1522083243; 1735535281; 868895999; 8355278; 250266654; 1193590439; 1173026383; 564578575;
  155926864; 227812912; 410070064; 977732408; 1857713952; 1215834056; 1996569197; 1255175056;
  1473774314; 1913610196; 1535791959; 910809887; 904546154; 1281722869; 46789407; 382748272;
  1658276640; 501748684; 412706541; 1383783686; 386201007; 988931; 1387039; 793355109;
  1089356424; 179855968; 135038326; 918998021; 179909743; 1655324360; 1360041879; 267064709;
  74448932; 31385379; 1557441192; 535051493; 633541223; 1481714504; 1410626873; 1312033465;
  1447017195; 1623733562; 1705061705; 1816764338; 2124445014; 963521467; 832772337; 301487534;
  1860172679; 1503096898; 1858468500; 1974793872; 1152842849; 44613336; 1284032548; 149099570;
  161792159; 1201058941; 559644277; 207852953; 227794252; 799818206; 1330043613; 59791432;
  723270081; 637530521; 945954683; 1776653077; 410305288; 38418777; 732831506; 1008731686;
  1806029673; 803846526; 1733083278; 750491223; 1427003074; 1535172844; 1699335423; 1424221722;
  262572515; 743655496; 514999170; 1639537077; 1298071582; 3839437; 517817607; 1646168413;
  2110186905; 263989105; 355272825; 2004881543; 1781389105; 910470050; 776185876; 318739007;
  30401225; 905487730; 1468661045; 385064570; 2081202972; 16867971; 748539286; 1564241742;
  5808518; 372589408; 1344939563; 727120190; 197402315; 868761227; 563515331; 1667516684;
  379869861; 678266687; 736195156; 941603846; 234031530; 366250884; 263374301; 2084834593;
  1955630848; 1968309796; 2119757925; 337518145; 1703081134; 742685157; 2047475704; 464164767;
  1168849341; 2001696956; 1012898466; 291347913; 1259685591; 426515029; 1787362142; 1276946704;
  881234023; 644013243; 172369364; 632365512; 441502930; 1225696022; 1112895482; 1801342856;
  849325875; 1425250952; 994123273; 1766895246; 822776108; 1673387194; 880375744; 1384321845;
  1106456518; 1742559947; 1101943886; 495154442; 1270189344; 794072814; 892869100; 1093592101;
  469575495; 849430169; 796649734; 951048769; 1528718102; 2072054600; 1793831693; 1440305033;
  1775978547; 980339564; 1357369862; 344607593; 449139853; 1073847545; 508981034; 160999760;
  1539868656; 1945877784; 874382760; 2097518549; 1478691033; 2056826335; 154712148; 1414263101;
  1342767428; 331019124; 412526805; 1978299509; 592514520; 1925790668; 474038542; 1265817081;
  272419918; 949403378; 744360732; 505452254; 358174023; 81802702; 663081393; 2036058237;
  926936255; 186172320; 1695975242; 727088105; 1512717595; 1960418308; 1132324357; 75364753;
  841984724; 787674991; 1604219512; 1651769909; 415361218; 110223875; 858023021; 1498688671;
  843267341; 1119974546; 1168933002; 1750308064; 829387155; 1587611808; 1806954799; 590317669;
  2081827682; 1386913349; 459929819; 1052987910; 519079645; 886547939; 867101271; 55991496;
  1539702087; 1202570051; 492328866; 1585368694; 37354403; 1488841428; 1097276143; 1015714185;
  1933765970; 428282966; 1463419592; 784903509; 163883415; 884586042; 577612164; 1798426990;
  1166247122; 892932577; 1291653718; 373040047; 1980351968; 1985571848; 142269127; 1339340332;
  915578935; 1371884386; 322809677; 209122851; 947724787; 1614064613; 2090348075; 1671587508;
  1328224184; 198586141; 1893956220; 1326853545; 955311399; 1827117271; 1819550987; 1617899437;
  556467229; 1730477362; 1940584879; 988395371; 22012241; 929593667; 918255494; 31098351;
  684071086; 913335680; 1063215373; 772510609; 1464918925; 11832689; 253697402; 1896334357;
  901898887; 650956335; 1311319930; 360771229; 403926900; 1393504941; 1511632989; 1027126048;
  1782313444; 971632059; 753313182; 770840033; 560601018; 982465786; 169138576; 291693865;
  303284609; 1034578165; 382038271; 274936348; 111333608; 398496932; 967170505; 141379586;
  1739292643; 1744114578; 910803628; 1655344376; 1438055867; 1438902642; 797333284; 827303507;
  44001009; 24084642; 1265688770; 394459563; 1769306350; 129157303; 306144897; 729340708;
  752409501; 808011697; 83151258; 529255357; 1640465130; 878285452; 1056884512; 619886838;
  1575773877; 1646495436; 649527298; 530634304; 1860086282; 1729098721; 409214350; 1136034199;
  828053255; 1188778602; 49959543; 922152441; 833458475; 2102496957; 1641754346; 195201965;
  1015258713; 2127562737; 1950646154; 1800201655; 1920132004; 421681105; 1602757249; 1602815848;
  1206830283; 787736264; 1138156770; 1720510138; 1348967936; 616589224; 1616635004; 843760364;
  1485011087; 2126145199; 593629048; 1145646234; 2092996772; 1884393978; 795968994; 1857794174;
  592481339; 1823535348; 294693056; 1626927568; 829167265; 1141326535; 1984164162; 1680840296;
  558593382; 1386595433; 469602522; 494764150; 1845940712; 2103914093; 1876091875; 844607000;
  1971722833; 237606654; 735847051; 1752825016; 348822300; 697646482; 921593629; 825650759;
  2042951154; 730629689; 121252157; 847260721; 1217712943; 111987081; 1087918769; 1351112644;
  805195853; 415105217; 1973490921; 1322619434; 274787954; 561403452; 194097730; 1811673508;
  116999280; 1766802307; 1405803070; 354926552; 736094312; 302787884; 2113757961; 280369602;
  89177215; 1217197020; 1280595106; 12462454; 882677353; 726577277; 72400704; 1490973507;
  882221669; 587588535; 1713231745; 471349635; 1184442257; 1051948319; 955721928; 2002586160;
  1983276122; 1898293853; 205467082; 330667468; 1516149710; 1421554774; 110762586; 2074023406;
  1343553929; 1758008699; 132148770; 1451945179; 335804487; 1131214298; 1057603622; 1697610523;
  1048971251; 1538489431; 454729423; 970005680; 406955292; 307342664; 1962630877; 570045382
].
Definition _MDS_FIRST_ROW_16 : list Z := [
  1; 1; 51; 1; 11; 17; 2; 1;
  101; 63; 15; 2; 67; 22; 13; 3
].
Definition _MDS_FIRST_ROW_24 : list Z := [
  755673771; 1686439191; 401954077; 82624181; 1838262485; 1617965094; 416740298; 1922433447;
  2009967074; 1007636536; 651504225; 56639581; 1761374664; 613787421; 1566027714; 378133912;
  1009532350; 203676737; 86296562; 1810161513; 175003436; 1551339770; 400627958; 142123135
].

Definition PARAMS_16 : PoseidonParams := {|
  width := 16; rounds_f := 8; rounds_p := 20;
  mds_first_row := map fp_new _MDS_FIRST_ROW_16;
  round_constants := map fp_new _RAW_CONSTANTS_16
|}.
Definition PARAMS_24 : PoseidonParams := {|
  width := 24; rounds_f := 8; rounds_p := 23;
  mds_first_row := map fp_new _MDS_FIRST_ROW_24;
  round_constants := map fp_new _RAW_CONSTANTS_24
|}.

(** Known answers of both permutations. *)
Example permute_16_vector :
  permute (Poseidon_init PARAMS_16) (map Z.of_nat (seq 0 16)) =
  Ok [610090613; 935319874; 1893335292; 796792199; 356405232; 552237741; 55134556; 1215104204;
      1823723405; 1133298033; 1780633798; 1453946561; 710069176; 1128629550; 1917333254; 1175481618].
Proof. vm_compute. reflexivity. Qed.
Example permute_24_vector :
  permute (Poseidon_init PARAMS_24) (map Z.of_nat (seq 0 24)) =
  Ok [511672087; 215882318; 237782537; 740528428; 712760904; 54615367; 751514671; 110231969;
      1905276435; 992525666; 918312360; 18628693; 749929200; 1916418953; 691276896; 1112901727;
      1163558623; 882867603; 673396520; 1480278156; 1402044758; 1693467175; 1766273044; 433841551].
Proof. vm_compute. reflexivity. Qed.

(** ** The reference permutation *)
Definition cube (x : Z) : Z := x ^ 3 mod P.

(** The entry of the circulant matrix of [r] in row [i] and column [j]. *)
Definition circulant (r : list Z) (i j : nat) : Z :=
  nth (Z.to_nat ((Z.of_nat j - Z.of_nat i) mod Zlen r)) r 0.

Definition sum (l : list Z) : Z := foldr Z.add 0 l.

(** The matrix of [r] times [x], in the field. *)
Definition ref_mds (r x : list Z) : list Z :=
  map (fun i => sum (imap (fun j xj => circulant r i j * xj) x) mod P) (seq 0 (length r)).

Definition ref_round (full : bool) (r constants x : list Z) : list Z :=
  let x := zip_with (fun a c => (a + c) mod P) x constants in
  let x := if full then map cube x else match x with a :: l => cube a :: l | [] => [] end in
  ref_mds r x.

(** [n] rounds of one kind; round [k] uses the [k]-th row of constants. *)
Fixpoint ref_rounds (full : bool) (n k : nat) (params : PoseidonParams) (x : list Z) : list Z :=
  match n with
  | O => x
  | S n =>
      let w := Z.to_nat (width params) in
      ref_rounds full n (S k) params
        (ref_round full (mds_first_row params) (take w (drop (k * w) (round_constants params))) x)
  end.

Definition ref_permute (params : PoseidonParams) (x : list Z) : list Z :=
  let h := Z.to_nat (rounds_f params / 2) in
  let m := Z.to_nat (rounds_p params) in
  ref_rounds true h (h + m) params (ref_rounds false m h params (ref_rounds true h 0 params x)).

Record params_ok (params : PoseidonParams) : Prop := {
  po_width : 0 < width params <= 2 ^ 32;
  po_rounds : 0 < rounds_f params /\ rounds_f params mod 2 = 0 /\ 0 <= rounds_p params;
  po_row : Zlen (mds_first_row params) = width params;
  po_constants : Zlen (round_constants params) = (rounds_f params + rounds_p params) * width params;
  po_row_field : Forall in_field (mds_first_row params);
  po_constants_field : Forall in_field (round_constants params)
}.

(** ** No overflow *)
Lemma i64_id z : - 2 ^ 63 <= z < 2 ^ 63 -> i64 z = z.
Proof.
  intros [H1 H2]. unfold i64. by rewrite (proj2 (Z.leb_le _ _) H1), (proj2 (Z.ltb_lt _ _) H2).
Qed.

Lemma mod_in_field z : in_field (z mod P).
Proof. apply Z.mod_pos_bound. done. Qed.

Lemma i64_product a b : in_field a -> in_field b -> i64 (a * b) = a * b.
Proof. unfold in_field. intros [? ?] [? ?]. apply i64_id. split; [nia|]. change P with 2130706433 in *. nia. Qed.

Lemma i64_sum a b : in_field a -> in_field b -> i64 (a + b) = a + b.
Proof. unfold in_field. intros [? ?] [? ?]. apply i64_id. change P with 2130706433 in *. lia. Qed.

Lemma cube_jit_cube x : in_field x -> cube_jit P x = cube x.
Proof.
  intros Hx. unfold cube_jit, cube. rewrite (i64_product x x) by done.
  rewrite i64_product by (done || apply mod_in_field).
  rewrite Z.mul_mod_idemp_l by done. f_equal. ring.
Qed.

Lemma row_product_ok row x acc :
  Forall in_field row -> Forall in_field x -> length row = length x ->
  0 <= acc -> acc + Zlen x * P < 2 ^ 63 ->
  row_product P row x acc mod P = (acc + sum (zip_with Z.mul row x)) mod P.
Proof.
  intros Hr. revert x acc. induction Hr as [|m row Hm Hr IH]; intros [|s x] acc Hx Hl Ha Hb; simpl in *; try done.
  - by rewrite Z.add_0_r.
  - inversion_clear Hx as [|? ? Hs Hx']. rewrite i64_product by done.
    pose proof (mod_in_field (m * s)) as Hms. unfold in_field in Hms.
    assert (length row = length x) as Hl' by lia.
    assert (acc + (m * s) mod P + Zlen x * P < 2 ^ 63) by lia.
    rewrite i64_id by (pose proof (Zle_0_nat (length x)); nia).
    rewrite IH by (done || lia). rewrite <- Z.add_assoc, (Z.add_comm ((m * s) mod P)), Z.add_assoc.
    rewrite Z.add_mod_idemp_r by done. f_equal. ring.
Qed.

Lemma length_roll l i : length (roll l i) = length l.
Proof. unfold roll. rewrite length_app, length_drop, length_take. lia. Qed.

Lemma roll_lookup l i j :
  (i < length l)%nat -> (j < length l)%nat -> nth j (roll l i) 0 = circulant l i j.
Proof.
  intros Hi Hj. unfold roll, circulant. destruct (decide (j < i)%nat) as [Hji|Hji].
  - rewrite app_nth1 by (rewrite length_drop; lia). rewrite nth_skipn. f_equal.
    replace (Z.of_nat j - Z.of_nat i) with (Z.of_nat (length l - i + j) + (-1) * Zlen l) by lia.
    rewrite Z_mod_plus_full, Z.mod_small by lia. lia.
  - rewrite app_nth2; rewrite length_drop; [|lia].
    replace (j - (length l - (length l - i)))%nat with (j - i)%nat by lia.
    rewrite nth_firstn. destruct (Nat.ltb_spec (j - i) (length l - i)); [|lia].
    rewrite Z.mod_small by lia. f_equal. lia.
Qed.

Lemma zip_with_imap l x f :
  length l = length x -> (forall j, (j < length l)%nat -> nth j l 0 = f j) ->
  zip_with Z.mul l x = imap (fun j xj => f j * xj) x.
Proof.
  revert l f. induction x as [|a x IH]; intros [|b l] f Hl Hf; simpl in *; try done.
  rewrite (IH l (f ∘ S)) by (lia || (intros j Hj; apply (Hf (S j)); lia)).
  f_equal. by rewrite <- (Hf 0%nat ltac:(lia)).
Qed.

Lemma Forall_roll l i : Forall in_field l -> Forall in_field (roll l i).
Proof. intros H. unfold roll. apply Forall_app. split; [by apply Forall_drop|by apply Forall_take]. Qed.

Lemma map_mod_field l : Forall in_field l -> map (fun z => z mod P) l = l.
Proof.
  induction 1 as [|z l Hz Hl IH]; simpl; [done|]. rewrite IH. f_equal. by apply Z.mod_small.
Qed.

(** The dense product of the code is the circulant product. *)
Lemma mds_multiply_ok params x :
  params_ok params -> Forall in_field x -> Zlen x = width params ->
  _mds_multiply_jit x (_mds (Poseidon_init params)) P = ref_mds (mds_first_row params) x.
Proof.
  intros Hp Hx Hl. pose proof (po_row _ Hp) as Hr. pose proof (po_width _ Hp) as Hw.
  unfold _mds_multiply_jit, ref_mds. cbn [_mds Poseidon_init]. rewrite map_map.
  replace (Z.to_nat (width params)) with (length (mds_first_row params)) by lia.
  apply map_ext_in. intros i Hi%in_seq. rewrite map_mod_field by apply Forall_roll, po_row_field, Hp.
  rewrite row_product_ok; [|by apply Forall_roll, po_row_field|done|rewrite length_roll; lia|lia|].
  2: { rewrite Hl. change P with 2130706433. lia. }
  rewrite Z.add_0_l. f_equal. f_equal. apply zip_with_imap; rewrite length_roll; [lia|].
  intros j Hj. apply roll_lookup; lia.
Qed.

Lemma zip_with_Forall {A B C} (f : A -> B -> C) (Q : C -> Prop) l k :
  (forall a b, Q (f a b)) -> Forall Q (zip_with f l k).
Proof. intros H. revert k. induction l as [|a l IH]; intros [|b k]; simpl; auto. Qed.

Lemma add_constants_ok x cs :
  Forall in_field x -> Forall in_field cs ->
  add_constants P x cs = zip_with (fun a c => (a + c) mod P) x cs.
Proof.
  intros Hx. unfold add_constants. revert cs. induction Hx as [|a x Ha Hx IH]; intros [|c cs] Hc; simpl; try done.
  inversion_clear Hc. by rewrite i64_sum, IH.
Qed.

Lemma sbox_field (full : bool) x :
  Forall in_field x ->
  Forall in_field (if full then map cube x else match x with a :: l => cube a :: l | [] => [] end).
Proof.
  intros H. destruct full.
  - apply Forall_fmap, Forall_forall. intros z _. apply mod_in_field.
  - destruct H; constructor; [apply mod_in_field|done].
Qed.

Lemma sbox_length (full : bool) x :
  length (if full then map cube x else match x with a :: l => cube a :: l | [] => [] end) = length x.
Proof. destruct full; [apply length_map|by destruct x]. Qed.

(** One round of the code is one round of the reference. *)
Lemma permute_round_ok (full : bool) params x c :
  params_ok params -> Forall in_field x -> Zlen x = width params ->
  0 <= c <= Zlen (round_constants params) - width params ->
  let x' := ref_round full (mds_first_row params)
              (take (Z.to_nat (width params)) (drop (Z.to_nat c) (round_constants params))) x in
  (if full then full_round else partial_round) (Poseidon_init params) P (x, c) =
    (x', c + width params) /\ Forall in_field x' /\ Zlen x' = width params.
Proof.
  intros Hp Hx Hl Hc. cbn zeta. unfold ref_round.
  assert ((if full then full_round else partial_round) (Poseidon_init params) P (x, c) =
    (let y := add_constants P x
       (take (Z.to_nat (width params)) (drop (Z.to_nat c) (round_constants params))) in
     (_mds_multiply_jit (if full then map (cube_jit P) y
        else match y with a :: l => cube_jit P a :: l | [] => [] end) (_mds (Poseidon_init params)) P,
      c + width params))) as -> by by destruct full.
  cbn zeta.
  set (cs := take _ _). assert (Forall in_field cs) as Hcs
    by apply Forall_take, Forall_drop, po_constants_field, Hp.
  assert (length cs = length x) as Hlc
    by (unfold cs; rewrite length_take, length_drop; pose proof (po_width _ Hp); lia).
  rewrite (add_constants_ok x cs) by done.
  set (y := zip_with _ x cs). assert (Forall in_field y) as Hy
    by (apply zip_with_Forall; intros; apply mod_in_field).
  assert (length y = length x) as Hly by (unfold y; rewrite length_zip_with; lia).
  set (z := if full then map cube y else _).
  assert (Forall in_field z) as Hz by by apply sbox_field.
  assert (Zlen z = width params) as Hlz by (unfold z; rewrite sbox_length; lia).
  split; [|split].
  - rewrite <- (mds_multiply_ok params z) by done. do 2 f_equal. unfold z. destruct full.
    + apply map_ext_in. intros a Ha%list_elem_of_In.
      apply cube_jit_cube. by eapply (proj1 (Forall_forall _ _) Hy).
    + destruct Hy; [done|]. by rewrite cube_jit_cube.
  - apply Forall_fmap, Forall_forall. intros i _. apply mod_in_field.
  - unfold ref_mds. rewrite length_map, length_seq. apply Hp.
Qed.

Lemma rounds_ok (full : bool) params n k x :
  params_ok params -> Forall in_field x -> Zlen x = width params ->
  Z.of_nat (k + n) <= rounds_f params + rounds_p params ->
  let x' := ref_rounds full n k params x in
  Nat.iter n ((if full then full_round else partial_round) (Poseidon_init params) P)
    (x, Z.of_nat k * width params) = (x', Z.of_nat (k + n) * width params) /\
  Forall in_field x' /\ Zlen x' = width params.
Proof.
  intros Hp. revert k x. induction n as [|n IH]; intros k x Hx Hl Hn; cbn zeta.
  - rewrite Nat.add_0_r. by split_and!.
  - rewrite Nat.iter_succ_r. cbn [ref_rounds]. pose proof (po_width _ Hp) as Hw.
    destruct (permute_round_ok full params x (Z.of_nat k * width params) Hp Hx Hl) as (E & Hx' & Hl').
    { rewrite (po_constants _ Hp). nia. }
    rewrite E. replace (Z.to_nat (Z.of_nat k * width params)) with (k * Z.to_nat (width params))%nat in * by nia.
    replace (Z.of_nat k * width params + width params) with (Z.of_nat (S k) * width params) by lia.
    rewrite <- Nat.add_succ_comm. apply IH; [done|done|lia].
Qed.

(** What the engine returns, for the files that call it. *)
Lemma permute_ok params x :
  params_ok params -> Forall in_field x -> Zlen x = width params ->
  permute (Poseidon_init params) x = Ok (ref_permute params x) /\
  Forall in_field (ref_permute params x) /\ Zlen (ref_permute params x) = width params.
Proof.
  intros Hp Hx Hl. destruct (po_rounds _ Hp) as (H1 & H2 & H3).
  set (h := Z.to_nat (rounds_f params / 2)). set (m := Z.to_nat (rounds_p params)).
  assert (Z.of_nat (h + m + h) = rounds_f params + rounds_p params) as Hhm by (unfold h, m; div_lia).
  destruct (rounds_ok true params h 0 x Hp Hx Hl ltac:(lia)) as (E1 & Hx1 & Hl1).
  destruct (rounds_ok false params m h _ Hp Hx1 Hl1 ltac:(lia)) as (E2 & Hx2 & Hl2).
  destruct (rounds_ok true params h (h + m) _ Hp Hx2 Hl2 ltac:(lia)) as (E3 & Hx3 & Hl3).
  split; [|by split]. unfold permute. cbn [_width Poseidon_init]. rewrite Hl, Z.eqb_refl. f_equal.
  unfold _permute_jit. cbn [_half_rounds_f _rounds_p Poseidon_init]. fold h m.
  rewrite Z.mul_0_l in E1. rewrite E1, Nat.add_0_l, E2, E3. cbn [fst].
  unfold ref_permute. fold h m. by apply map_mod_field.
Qed.

(** C32: the [int64] engine computes the Poseidon permutation of the field: on any state
    of field elements of the right width it returns the reference permutation, whose
    matrix is the circulant one and whose arithmetic is exact, so no intermediate value
    overflows; on a state of another width it raises. *)
Theorem poseidon_engine_is_field_permutation (params : PoseidonParams) (x : list Z) :
  params_ok params -> Forall in_field x ->
  permute (Poseidon_init params) x =
    if Zlen x =? width params then Ok (ref_permute params x) else Err ValueError.
Proof.
  intros Hp Hx. destruct (Z.eqb_spec (Zlen x) (width params)) as [E|E].
  - by apply permute_ok.
  - unfold permute. cbn [_width Poseidon_init]. by rewrite (proj2 (Z.eqb_neq _ _) E).
Qed.

Ltac params_ok_tac :=
  constructor; [split; vm_compute; congruence|split_and!; vm_compute; congruence
    |vm_compute; reflexivity|vm_compute; reflexivity
    |refine (bool_decide_unpack _ _); vm_compute; exact I
    |refine (bool_decide_unpack _ _); vm_compute; exact I].

Lemma params_16_ok : params_ok PARAMS_16.
Proof. params_ok_tac. Qed.
Lemma params_24_ok : params_ok PARAMS_24.
Proof. params_ok_tac. Qed.

Lemma poseidon_engine_is_field_permutation_witness :
  permute (Poseidon_init PARAMS_16) (map Z.of_nat (seq 0 16)) =
    Ok (ref_permute PARAMS_16 (map Z.of_nat (seq 0 16))).
Proof.
  apply (poseidon_engine_is_field_permutation PARAMS_16 (map Z.of_nat (seq 0 16))).
  - exact params_16_ok.
  - repeat constructor; vm_compute; congruence.
Defined.
