(* ===== verification/Shake128.v ===== *)
(** * SHAKE128

    The key derivation of the signature scheme reads bytes of [hashlib.shake_128] of
    Python's standard library.  This file gives that function (FIPS 202) as an
    executable definition: the Keccak permutation on 25 lanes of 64 bits, each a [Z],
    and the sponge of rate 168 around it.  The theorems use only the length of its
    output. *)

From S2P Require Import Prelude Uint.

Definition keccak_constants : list Z := [
  0x0000000000000001; 0x0000000000008082; 0x800000000000808A; 0x8000000080008000;
  0x000000000000808B; 0x0000000080000001; 0x8000000080008081; 0x8000000000008009;
  0x000000000000008A; 0x0000000000000088; 0x0000000080008009; 0x000000008000000A;
  0x000000008000808B; 0x800000000000008B; 0x8000000000008089; 0x8000000000008003;
  0x8000000000008002; 0x8000000000000080; 0x000000000000800A; 0x800000008000000A;
  0x8000000080008081; 0x8000000000008080; 0x0000000080000001; 0x8000000080008008].

(** Rotation of the lane at column [x] and row [y], at position [x + 5 * y]. *)
Definition keccak_rotations : list Z := [
  0; 1; 62; 28; 27; 36; 44; 6; 55; 20; 3; 10; 43; 25; 39; 41; 45; 15; 21; 8; 18; 2; 61; 56; 14].

Definition rotl64 (x n : Z) : Z :=
  Z.lor (Z.land (Z.shiftl x n) 0xFFFFFFFFFFFFFFFF) (Z.shiftr x (64 - n)).

(** The lane at column [x] and row [y], both modulo five. *)
Definition lane (a : list Z) (x y : nat) : Z := nth (x mod 5 + 5 * (y mod 5)) a 0.

(** A state from its lanes. *)
Definition lanes (f : nat -> nat -> Z) : list Z :=
  map (fun i => f (i mod 5)%nat (i / 5)%nat) (seq 0 25).

Definition theta (a : list Z) : list Z :=
  let c := map (fun x => Z.lxor (lane a x 0) (Z.lxor (lane a x 1) (Z.lxor (lane a x 2)
                           (Z.lxor (lane a x 3) (lane a x 4))))) (seq 0 5) in
  lanes (fun x y => Z.lxor (lane a x y)
    (Z.lxor (nth ((x + 4) mod 5) c 0) (rotl64 (nth ((x + 1) mod 5) c 0) 1))).
Definition rho_pi (a : list Z) : list Z :=
  lanes (fun x y =>
    let sx := ((x + 3 * y) mod 5)%nat in rotl64 (lane a sx x) (lane keccak_rotations sx x)).
Definition chi (a : list Z) : list Z :=
  lanes (fun x y => Z.lxor (lane a x y) (Z.ldiff (lane a (x + 2) y) (lane a (x + 1) y))).
Definition iota (c : Z) (a : list Z) : list Z :=
  match a with l :: a => Z.lxor l c :: a | [] => [] end.

Definition keccak_round (a : list Z) (c : Z) : list Z := iota c (chi (rho_pi (theta a))).
Definition keccak_f (a : list Z) : list Z := foldl keccak_round a keccak_constants.

(** ** The sponge *)
Definition SHAKE128_RATE : nat := 168.

(** The little-endian lanes of a block. *)
Fixpoint block_lanes (n : nat) (block : bytes) : list Z :=
  match n with
  | O => []
  | S n => le_combine (take 8 block) :: block_lanes n (drop 8 block)
  end.

Definition shake_pad (msg : bytes) : bytes :=
  let zeros := (SHAKE128_RATE - 1 - length msg mod SHAKE128_RATE)%nat in
  match zeros with
  | O => msg ++ [Byte.x9f]
  | S z => msg ++ [Byte.x1f] ++ repeat Byte.x00 z ++ [Byte.x80]
  end.

Fixpoint absorb (n : nat) (a : list Z) (msg : bytes) : list Z :=
  match n with
  | O => a
  | S n =>
      let block := block_lanes 21 (take SHAKE128_RATE msg) ++ repeat 0 4 in
      absorb n (keccak_f (zip_with Z.lxor a block)) (drop SHAKE128_RATE msg)
  end.

Definition state_bytes (a : list Z) : bytes := take SHAKE128_RATE (concat (map (le_split 8) a)).

Fixpoint squeeze (n : nat) (a : list Z) : bytes :=
  match n with
  | O => []
  | S n => state_bytes a ++ squeeze n (keccak_f a)
  end.

(** [shake_128(msg).digest(n)] *)
Definition shake_128 (msg : bytes) (n : nat) : bytes :=
  let padded := shake_pad msg in
  take n (squeeze (n / SHAKE128_RATE + 1)
    (absorb (length padded / SHAKE128_RATE) (repeat 0 25) padded)).

(** ** Its length *)
Lemma length_lanes f : length (lanes f) = 25%nat.
Proof. reflexivity. Qed.

Lemma length_keccak_round a c : length (keccak_round a c) = 25%nat.
Proof. unfold keccak_round, iota, chi, lanes. reflexivity. Qed.

Lemma length_keccak_f a : length (keccak_f a) = 25%nat.
Proof. unfold keccak_f, keccak_constants. cbn [foldl]. apply length_keccak_round. Qed.

Lemma length_state_bytes a : length a = 25%nat -> length (state_bytes a) = SHAKE128_RATE.
Proof.
  intros H. unfold state_bytes. rewrite length_take.
  enough (length (concat (map (le_split 8) a)) = 8 * length a)%nat as -> by (rewrite H; reflexivity).
  clear H. induction a as [|l a IH]; [done|]. cbn [map concat length].
  rewrite length_app, length_le_split, IH. lia.
Qed.

Lemma length_squeeze n a : length a = 25%nat -> length (squeeze n a) = (n * SHAKE128_RATE)%nat.
Proof.
  revert a. induction n as [|n IH]; intros a H; simpl; [done|].
  by rewrite length_app, length_state_bytes, IH by (done || apply length_keccak_f).
Qed.

Lemma length_absorb n a msg : length a = 25%nat -> length (absorb n a msg) = 25%nat.
Proof. revert a msg. induction n as [|n IH]; intros a msg H; simpl; [done|]. apply IH, length_keccak_f. Qed.

Lemma length_shake_128 msg n : length (shake_128 msg n) = n.
Proof.
  unfold shake_128. rewrite length_take, length_squeeze by by apply length_absorb.
  unfold SHAKE128_RATE. pose proof (Nat.div_mod_eq n 168). pose proof (Nat.mod_upper_bound n 168). lia.
Qed.

(** Known answers: the empty message, and a message longer than one block. *)
Example shake_128_empty :
  le_combine (rev (shake_128 [] 32)) =
  0x7f9c2ba4e88f827d616045507605853ed73b8093f6efbc88eb1a6eacfa66ef26.
Proof. vm_compute. reflexivity. Qed.
Example shake_128_two_blocks :
  le_combine (rev (shake_128 (repeat Byte.x61 200) 16)) = 0x70ac9b97e891be583e08929ce4cce50d.
Proof. vm_compute. reflexivity. Qed.
Example shake_128_one_byte_of_padding :
  le_combine (rev (drop 184 (shake_128 (repeat Byte.x61 167) 200))) = 0x733a2cffb7da20d99e03e7cec9c39534.
Proof. vm_compute. reflexivity. Qed.
