(* ===== verification/Proofs.v ===== *)
(** * Signatures and aggregate proofs (crypto/xmss/containers.py, containers/aggregation.py)

    The five functions of the Rust prover [lean_multisig_py] are the operations of the
    class [Prover]: the consensus code only passes bytes to them and reacts to
    acceptance or to an exception.  The class [Crypto] adds the verifier of raw
    signatures, with what the consensus code relies on: it answers on every well-typed
    input.  The scheme of crypto/xmss is an instance of it (XmssTheorems.v).
    Everything around those calls (participants, key counts, wire encodings, error
    wrapping) is modelled. *)

From S2P Require Import Prelude Pydict Uint Ssz SszCorrect Sha256 Merkle Containers.

(** ** Keys and signatures *)
Definition HASH_LENGTH_FIELD_ELEMENTS : Z := 8.
Definition PARAMETER_LENGTH : Z := 5.
Definition RAND_LENGTH_FIELD_ELEMENTS : Z := 7.
Definition LOG_LIFETIME : Z := 32.
Definition DIMENSION : Z := 46.
Definition LEAVES_PER_BOTTOM_TREE : Z := 2 ^ (LOG_LIFETIME / 2).
Definition NODE_LIST_LIMIT : Z := 2 * LEAVES_PER_BOTTOM_TREE.

Definition HashDigestVector : ssz_type := TVector TFp HASH_LENGTH_FIELD_ELEMENTS.
Definition HashDigestList : ssz_type := TList HashDigestVector NODE_LIST_LIMIT.

(** A [PublicKey] is the value of its container class; in the registry it is kept
    as 52 opaque bytes and decoded at each use. *)
Definition PublicKey_type : ssz_type :=
  TContainer [HashDigestVector; TVector TFp PARAMETER_LENGTH].
Definition PublicKey_decode_bytes (data : bytes) : result ssz_value :=
  decode_bytes (class_of PublicKey_type) data.
Definition PublicKey_encode_bytes (key : ssz_value) : result bytes :=
  encode_bytes (class_of PublicKey_type) key.

Record Signature := {
  sig_path : list (list Z);
  sig_rho : list Z;
  sig_hashes : list (list Z)
}.
#[export] Instance Signature_eq_dec : EqDecision Signature.
Proof. solve_decision. Defined.

(** [Signature._check_list_lengths] *)
Definition Signature_new (path : list (list Z)) (rho : list Z) (hashes : list (list Z))
    : result Signature :=
  check! Zlen path =? LOG_LIFETIME else SSZSerializationError;;
  check! Zlen hashes =? DIMENSION else SSZSerializationError;;
  Ok {| sig_path := path; sig_rho := rho; sig_hashes := hashes |}.

Definition digest_repr (d : list Z) : ssz_value := VVector (map VFp d).
#[export] Instance ssz_Signature : SSZContainer Signature := {|
  ssz_descr :=
    TContainer [TContainer [HashDigestList]; TVector TFp RAND_LENGTH_FIELD_ELEMENTS; HashDigestList];
  ssz_repr s :=
    VContainer [VContainer [VList (map digest_repr (sig_path s))];
                VVector (map VFp (sig_rho s));
                VList (map digest_repr (sig_hashes s))]
|}.

(** ** The external prover: [None] stands for any of its exceptions *)
Class Prover := {
  aggregate_single_message :
    list bytes -> list bytes -> bytes -> Z -> option (list (list bytes * bytes)) -> option bytes;
  verify_single_message_proof : list bytes -> bytes -> Z -> bytes -> bool;
  merge_many_single_message_proof : list (list bytes * bytes) -> option bytes;
  split_multi_message_proof_by_message : list (list bytes) -> bytes -> bytes -> option bytes;
  verify_multi_message_proof_with_messages :
    list (list bytes) -> list (bytes * Z) -> bytes -> bool
}.

(** ** The signature verifier the handlers call *)
Class Crypto := {
  crypto_prover :: Prover;
  (** [TARGET_SIGNATURE_SCHEME.verify(public_key, slot, message, signature)] *)
  xmss_verify : ssz_value -> Z -> Bytes32 -> Signature -> result bool;
  xmss_verify_total key slot message signature :
    well_typed (class_of PublicKey_type) key = true -> in_range 64 slot ->
    length message = 32%nat -> ssz_valid signature = true ->
    exists accepted, xmss_verify key slot message signature = Ok accepted
}.

(** ** Aggregates *)
Definition BYTE_LIST_512_KIB : Z := 512 * 1024.

Record SingleMessageAggregate := { sma_participants : AggregationBits; sma_proof : bytes }.
Record MultiMessageAggregate := { mma_proof : bytes }.

#[export] Instance SingleMessageAggregate_eq_dec : EqDecision SingleMessageAggregate.
Proof. solve_decision. Defined.
#[export] Instance MultiMessageAggregate_eq_dec : EqDecision MultiMessageAggregate.
Proof. solve_decision. Defined.

#[export] Instance ssz_SingleMessageAggregate : SSZContainer SingleMessageAggregate := {|
  ssz_descr := TContainer [TBitlist VALIDATOR_REGISTRY_LIMIT; TByteList BYTE_LIST_512_KIB];
  ssz_repr a := VContainer [VBitlist (sma_participants a); VByteList (sma_proof a)]
|}.

Definition container_encode {A} `{SSZContainer A} (a : A) : result bytes :=
  encode_bytes (class_of (ssz_descr A)) (ssz_repr a).

Section Aggregates.
Context `{Prover}.

(** [SingleMessageAggregate.aggregate] *)
Definition sma_aggregate (children : list (SingleMessageAggregate * list ssz_value))
    (raw_xmss : list (Z * ssz_value * Signature)) (message : Bytes32) (slot : Z)
    : result SingleMessageAggregate :=
  child_indices ← mapM (fun c => to_validator_indices (sma_participants c.1)) children;
  let all_indices := sunion (set_of (map (fun e => e.1.1) raw_xmss)) (mjoin child_indices) in
  participants ← from_indices all_indices;
  raw_public_keys_ssz ← mapM (fun e => PublicKey_encode_bytes e.1.2) raw_xmss;
  raw_signatures_ssz ← mapM (fun e => container_encode e.2) raw_xmss;
  children_bytes ←
    mapM (fun c => keys ← mapM PublicKey_encode_bytes c.2; Ok (keys, sma_proof c.1)) children;
  wire ← of_option AggregationError
    (aggregate_single_message raw_public_keys_ssz raw_signatures_ssz message slot
       (match children_bytes with [] => None | _ => Some children_bytes end));
  proof ← bytelist_new BYTE_LIST_512_KIB wire;
  Ok {| sma_participants := participants; sma_proof := proof |}.

(** [SingleMessageAggregate.verify] *)
Definition sma_verify (self : SingleMessageAggregate) (public_keys : list ssz_value)
    (message : Bytes32) (slot : Z) : result unit :=
  indices ← to_validator_indices (sma_participants self);
  check! Zlen public_keys =? Zlen indices else AggregationError;;
  match mapM PublicKey_encode_bytes public_keys with
  | Ok keys =>
      check! verify_single_message_proof keys message slot (sma_proof self) else AggregationError;;
      Ok tt
  | Err _ => Err AggregationError
  end.

(** [MultiMessageAggregate.aggregate] *)
Definition mma_entry (e : SingleMessageAggregate * list ssz_value) : result (list bytes * bytes) :=
  let '(aggregate, public_keys) := e in
  indices ← to_validator_indices (sma_participants aggregate);
  check! Zlen public_keys =? Zlen indices else AggregationError;;
  keys ← mapM PublicKey_encode_bytes public_keys;
  Ok (keys, sma_proof aggregate).

Definition mma_aggregate (aggregates : list SingleMessageAggregate)
    (public_keys_per_aggregate : list (list ssz_value)) : result MultiMessageAggregate :=
  check! negb (Zlen aggregates =? 0) else AggregationError;;
  entries ←
    (fix go (aggs : list SingleMessageAggregate) (keys : list (list ssz_value)) :=
       match aggs, keys with
       | [], [] => Ok []
       | a :: aggs, k :: keys => e ← mma_entry (a, k); es ← go aggs keys; Ok (e :: es)
       | _, _ => Err ValueError
       end) aggregates public_keys_per_aggregate;
  wire ← of_option AggregationError (merge_many_single_message_proof entries);
  proof ← bytelist_new BYTE_LIST_512_KIB wire;
  Ok {| mma_proof := proof |}.

(** [MultiMessageAggregate.split_by_message] *)
Definition mma_split_by_message (self : MultiMessageAggregate) (message : Bytes32)
    (public_keys_per_message : list (list ssz_value)) (participants : AggregationBits)
    : result SingleMessageAggregate :=
  keys ← mapM (mapM PublicKey_encode_bytes) public_keys_per_message;
  wire ← of_option AggregationError
    (split_multi_message_proof_by_message keys (mma_proof self) message);
  proof ← bytelist_new BYTE_LIST_512_KIB wire;
  Ok {| sma_participants := participants; sma_proof := proof |}.

(** [MultiMessageAggregate.verify] *)
Definition mma_verify (self : MultiMessageAggregate)
    (public_keys_per_message : list (list ssz_value)) (messages : list (Bytes32 * Z))
    : result unit :=
  check! Zlen messages =? Zlen public_keys_per_message else AggregationError;;
  keys ← mapM (mapM PublicKey_encode_bytes) public_keys_per_message;
  check! verify_multi_message_proof_with_messages keys messages (mma_proof self)
    else AggregationError;;
  Ok tt.
End Aggregates.

(** ** Signed envelopes (block.py, attestation.py) *)
Record SignedBlock := { sb_block : Block; sb_proof : MultiMessageAggregate }.
Record SignedAttestation := {
  sa_validator_index : Z;
  sa_data : AttestationData;
  sa_signature : Signature
}.
Record SignedAggregatedAttestation := {
  saa_data : AttestationData;
  saa_proof : SingleMessageAggregate
}.
