(* ===== verification/SszRecords.v ===== *)
(** * Decoded containers

    [decode_bytes] of a container class returns a record of the class.  [SSZRecord]
    reads the fields of a decoded value back into the record; with the codec promises
    of SszCorrect.v, decoding inverts encoding on records too. *)

From S2P Require Import Prelude Pydict Uint Ssz SszCorrect Sha256 Merkle Containers Proofs.

#[export] Instance ssz_MultiMessageAggregate : SSZContainer MultiMessageAggregate := {|
  ssz_descr := TContainer [TByteList BYTE_LIST_512_KIB];
  ssz_repr a := VContainer [VByteList (mma_proof a)]
|}.
#[export] Instance ssz_SignedBlock : SSZContainer SignedBlock := {|
  ssz_descr := TContainer [ssz_descr Block; ssz_descr MultiMessageAggregate];
  ssz_repr b := VContainer [ssz_repr (sb_block b); ssz_repr (sb_proof b)]
|}.

(** A decoded value as a record of its class: the fields in order. *)
Class SSZRecord (A : Type) `{SSZContainer A} := {
  ssz_of : ssz_value -> option A;
  ssz_of_repr a : ssz_of (ssz_repr a) = Some a;
  ssz_of_typed v :
    well_typed (class_of (ssz_descr A)) v = true -> exists a, ssz_of v = Some a /\ ssz_repr a = v
}.

(** [cls.decode_bytes(data)] *)
Definition container_decode {A} `{SSZRecord A} (data : bytes) : result A :=
  v ← decode_bytes (class_of (ssz_descr A)) data;
  of_option TypeError (ssz_of v).

(** ** Shapes of well-typed values *)
Lemma typed_uint bits v : well_typed (class_of (TUint bits)) v = true -> exists z, v = VUint z.
Proof. destruct v; try done. eauto. Qed.
Lemma typed_bytes n v : well_typed (class_of (TBytes n)) v = true -> exists bs, v = VBytes bs.
Proof. destruct v; try done. eauto. Qed.
Lemma typed_bytelist n v : well_typed (class_of (TByteList n)) v = true -> exists bs, v = VByteList bs.
Proof. destruct v; try done. eauto. Qed.
Lemma typed_bitlist n v : well_typed (class_of (TBitlist n)) v = true -> exists bs, v = VBitlist bs.
Proof. destruct v; try done. eauto. Qed.

Lemma typed_list t n v :
  well_typed (class_of (TList t n)) v = true ->
  exists vs, v = VList vs /\ Forall (fun v => well_typed (class_of t) v = true) vs.
Proof.
  destruct v; try done. cbn [class_of list_class well_typed]. intros [_ H]%andb_true_iff.
  exists vs. split; [done|]. apply Forall_forall. intros v Hv. eapply forallb_forall in H; [done|by apply list_elem_of_In].
Qed.

Lemma typed_container ts v :
  well_typed (class_of (TContainer ts)) v = true ->
  exists vs, v = VContainer vs /\ Forall2 (fun t v => well_typed (class_of t) v = true) ts vs.
Proof.
  destruct v; try done. cbn [class_of container_class well_typed]. intros [Hl H]%andb_true_iff.
  exists vs. split; [done|]. apply Nat.eqb_eq in Hl. rewrite length_map in Hl.
  revert vs Hl H. induction ts as [|t ts IH]; intros [|v vs] Hl H; try done.
  cbn in H. apply andb_true_iff in H as [H1 H2]. constructor; [done|]. apply IH; [by injection Hl|done].
Qed.

(** Splits a typed container into its fields. *)
Ltac typed_fields :=
  repeat match goal with
  | H : Forall2 _ (_ :: _) ?vs |- _ => inversion H; subst; clear H
  | H : Forall2 _ [] ?vs |- _ => inversion H; subst; clear H
  | H : well_typed (class_of (TUint _)) ?v = true |- _ => apply typed_uint in H as [? ->]
  | H : well_typed (class_of (TBytes _)) ?v = true |- _ => apply typed_bytes in H as [? ->]
  | H : well_typed (class_of (TByteList _)) ?v = true |- _ => apply typed_bytelist in H as [? ->]
  | H : well_typed (class_of (TBitlist _)) ?v = true |- _ => apply typed_bitlist in H as [? ->]
  | H : well_typed (class_of (TList _ _)) ?v = true |- _ => apply typed_list in H as (? & -> & ?)
  end.
(** Fields of a record class of their own *)
Ltac typed_records A :=
  repeat match goal with
  | H : well_typed _ ?v = true |- _ =>
      let a := fresh "a" in let E := fresh "E" in let Ev := fresh "E" in
      change (well_typed (class_of (ssz_descr A)) v = true) in H;
      destruct (ssz_of_typed v H) as (a & E & Ev); clear H; rewrite E, <- Ev; clear E Ev
  end.

Lemma mapM_ssz_of {A} `{SSZRecord A} (l : list A) : mapM ssz_of (map ssz_repr l) = Some l.
Proof. induction l as [|a l IH]; cbn; [done|]. rewrite ssz_of_repr. cbn. by rewrite IH. Qed.

Lemma mapM_ssz_typed {A} `{SSZRecord A} vs :
  Forall (fun v => well_typed (class_of (ssz_descr A)) v = true) vs ->
  exists l, mapM ssz_of vs = Some l /\ map ssz_repr l = vs.
Proof.
  induction 1 as [|v vs (a & Ea & <-)%ssz_of_typed _ (l & El & <-)]; [by exists []|].
  exists (a :: l). cbn. rewrite Ea. cbn. by rewrite El.
Qed.

(** ** The records *)
#[export, refine] Instance rec_Checkpoint : SSZRecord Checkpoint := {|
  ssz_of v := match v with
    | VContainer [VBytes root; VUint slot] => Some {| cp_root := root; cp_slot := slot |} | _ => None end
|}.
Proof.
  - by intros [].
  - intros v (vs & -> & H)%typed_container. typed_fields. by eexists.
Defined.

#[export, refine] Instance rec_AttestationData : SSZRecord AttestationData := {|
  ssz_of v := match v with
    | VContainer [VUint slot; head; target; source] =>
        head ← ssz_of head; target ← ssz_of target; source ← ssz_of source;
        Some {| ad_slot := slot; ad_head := head; ad_target := target; ad_source := source |}
    | _ => None
    end
|}.
Proof.
  - intros [? [] [] []]. done.
  - intros v (vs & -> & H)%typed_container. typed_fields.
    typed_records Checkpoint. eexists. by split.
Defined.

#[export, refine] Instance rec_AggregatedAttestation : SSZRecord AggregatedAttestation := {|
  ssz_of v := match v with
    | VContainer [VBitlist bits; data] => data ← ssz_of data; Some {| aa_bits := bits; aa_data := data |}
    | _ => None
    end
|}.
Proof.
  - intros []. cbn [ssz_repr ssz_AggregatedAttestation]. by rewrite ssz_of_repr.
  - intros v (vs & -> & H)%typed_container. typed_fields.
    typed_records AttestationData. eexists. by split.
Defined.

#[export, refine] Instance rec_BlockBody : SSZRecord BlockBody := {|
  ssz_of v := match v with
    | VContainer [VList attestations] =>
        attestations ← mapM ssz_of attestations; Some {| bd_attestations := attestations |}
    | _ => None
    end
|}.
Proof.
  - intros []. cbn [ssz_repr ssz_BlockBody]. by rewrite mapM_ssz_of.
  - intros v (vs & -> & H)%typed_container. typed_fields.
    match goal with H : Forall _ ?vs |- _ =>
      change (Forall (fun v => well_typed (class_of (ssz_descr AggregatedAttestation)) v = true) vs) in H;
      destruct (mapM_ssz_typed vs H) as (l & -> & <-) end.
    eexists. by split.
Defined.

#[export, refine] Instance rec_Block : SSZRecord Block := {|
  ssz_of v := match v with
    | VContainer [VUint slot; VUint proposer_index; VBytes parent_root; VBytes state_root; body] =>
        body ← ssz_of body;
        Some {| bk_slot := slot; bk_proposer_index := proposer_index; bk_parent_root := parent_root;
                bk_state_root := state_root; bk_body := body |}
    | _ => None
    end
|}.
Proof.
  - intros []. cbn [ssz_repr ssz_Block]. by rewrite ssz_of_repr.
  - intros v (vs & -> & H)%typed_container. typed_fields.
    typed_records BlockBody. eexists. by split.
Defined.

#[export, refine] Instance rec_MultiMessageAggregate : SSZRecord MultiMessageAggregate := {|
  ssz_of v := match v with VContainer [VByteList proof] => Some {| mma_proof := proof |} | _ => None end
|}.
Proof.
  - by intros [].
  - intros v (vs & -> & H)%typed_container. typed_fields. by eexists.
Defined.

#[export, refine] Instance rec_SignedBlock : SSZRecord SignedBlock := {|
  ssz_of v := match v with
    | VContainer [block; proof] =>
        block ← ssz_of block; proof ← ssz_of proof; Some {| sb_block := block; sb_proof := proof |}
    | _ => None
    end
|}.
Proof.
  - intros []. cbn [ssz_repr ssz_SignedBlock]. by rewrite !ssz_of_repr.
  - intros v (vs & -> & H)%typed_container. typed_fields.
    typed_records Block. typed_records MultiMessageAggregate. eexists. by split.
Defined.

(** ** The containers of the state *)
Definition bytes_of (v : ssz_value) : option bytes := match v with VBytes bs => Some bs | _ => None end.

Lemma mapM_bytes_of (l : list bytes) : mapM bytes_of (map VBytes l) = Some l.
Proof. induction l as [|a l IH]; cbn; [done|]. by rewrite IH. Qed.

Lemma mapM_bytes_typed n vs :
  Forall (fun v => well_typed (class_of (TBytes n)) v = true) vs -> exists l, mapM bytes_of vs = Some l /\ map VBytes l = vs.
Proof.
  induction 1 as [|v vs (bs & ->)%typed_bytes _ (l & El & <-)]; [by exists []|]. exists (bs :: l). cbn. by rewrite El.
Qed.

#[export, refine] Instance rec_BlockHeader : SSZRecord BlockHeader := {|
  ssz_of v := match v with
    | VContainer [VUint slot; VUint proposer_index; VBytes parent_root; VBytes state_root; VBytes body_root] =>
        Some {| hd_slot := slot; hd_proposer_index := proposer_index; hd_parent_root := parent_root;
                hd_state_root := state_root; hd_body_root := body_root |}
    | _ => None
    end
|}.
Proof.
  - by intros [].
  - intros v (vs & -> & H)%typed_container. typed_fields. by eexists.
Defined.

#[export, refine] Instance rec_Validator : SSZRecord Validator := {|
  ssz_of v := match v with
    | VContainer [VBytes attestation_public_key; VBytes proposal_public_key; VUint index] =>
        Some {| val_attestation_public_key := attestation_public_key;
                val_proposal_public_key := proposal_public_key; val_index := index |}
    | _ => None
    end
|}.
Proof.
  - by intros [].
  - intros v (vs & -> & H)%typed_container. typed_fields. by eexists.
Defined.

#[export, refine] Instance rec_GenesisConfig : SSZRecord GenesisConfig := {|
  ssz_of v := match v with VContainer [VUint time] => Some {| genesis_time := time |} | _ => None end
|}.
Proof.
  - by intros [].
  - intros v (vs & -> & H)%typed_container. typed_fields. by eexists.
Defined.

#[export, refine] Instance rec_State : SSZRecord State := {|
  ssz_of v := match v with
    | VContainer [config; VUint slot; header; justified; finalized; VList hashes; VBitlist justified_slots;
                  VList validators; VList roots; VBitlist flags] =>
        config ← ssz_of config; header ← ssz_of header; justified ← ssz_of justified; finalized ← ssz_of finalized;
        hashes ← mapM bytes_of hashes; validators ← mapM ssz_of validators; roots ← mapM bytes_of roots;
        Some {| st_config := config; st_slot := slot; st_latest_block_header := header; st_latest_justified := justified;
                st_latest_finalized := finalized; st_historical_block_hashes := hashes; st_justified_slots := justified_slots;
                st_validators := validators; st_justifications_roots := roots; st_justifications_validators := flags |}
    | _ => None
    end
|}.
Proof.
  - intros []. cbn [ssz_repr ssz_State]. by rewrite !ssz_of_repr, !mapM_bytes_of, mapM_ssz_of.
  - intros v (vs & -> & H)%typed_container. typed_fields.
    repeat match goal with
    | H : Forall _ ?vs |- context [mapM bytes_of ?vs] => destruct (mapM_bytes_typed _ _ H) as (? & -> & <-); clear H
    | H : Forall _ ?vs |- context [mapM ssz_of ?vs] =>
        change (Forall (fun v => well_typed (class_of (ssz_descr Validator)) v = true) vs) in H;
        destruct (mapM_ssz_typed vs H) as (? & -> & <-); clear H
    end.
    typed_records GenesisConfig. typed_records BlockHeader. typed_records Checkpoint. eexists. by split.
Defined.

(** ** The aggregates *)
#[export] Instance ssz_SignedAggregatedAttestation : SSZContainer SignedAggregatedAttestation := {|
  ssz_descr := TContainer [ssz_descr AttestationData; ssz_descr SingleMessageAggregate];
  ssz_repr a := VContainer [ssz_repr (saa_data a); ssz_repr (saa_proof a)]
|}.

#[export, refine] Instance rec_SingleMessageAggregate : SSZRecord SingleMessageAggregate := {|
  ssz_of v := match v with
    | VContainer [VBitlist participants; VByteList proof] => Some {| sma_participants := participants; sma_proof := proof |}
    | _ => None
    end
|}.
Proof.
  - by intros [].
  - intros v (vs & -> & H)%typed_container. typed_fields. by eexists.
Defined.

#[export, refine] Instance rec_SignedAggregatedAttestation : SSZRecord SignedAggregatedAttestation := {|
  ssz_of v := match v with
    | VContainer [data; proof] => data ← ssz_of data; proof ← ssz_of proof; Some {| saa_data := data; saa_proof := proof |}
    | _ => None
    end
|}.
Proof.
  - intros []. cbn [ssz_repr ssz_SignedAggregatedAttestation]. by rewrite !ssz_of_repr.
  - intros v (vs & -> & H)%typed_container. typed_fields.
    typed_records AttestationData. typed_records SingleMessageAggregate. eexists. by split.
Defined.

(** ** Decoding inverts encoding *)
Lemma container_roundtrip_record {A} `{SSZRecord A} (a : A) bs :
  wf_type (ssz_descr A) -> ssz_valid a = true -> container_encode a = Ok bs -> container_decode bs = Ok a.
Proof.
  intros Hwf Hv He. unfold container_decode.
  rewrite (proj2 (ok_decode _ (class_of_ok _ Hwf) bs (ssz_repr a)) (conj Hv He)). mcbn. by rewrite ssz_of_repr.
Qed.

Lemma container_decode_Ok {A} `{SSZRecord A} (a : A) bs :
  wf_type (ssz_descr A) -> container_decode bs = Ok a -> ssz_valid a = true /\ container_encode a = Ok bs.
Proof.
  intros Hwf E. unfold container_decode in E. apply bind_Ok in E as (v & Ed & E). apply of_option_Ok in E.
  apply (ok_decode _ (class_of_ok _ Hwf)) in Ed as [Ht Hs].
  destruct (ssz_of_typed v Ht) as (a' & Ea & <-). rewrite E in Ea. injection Ea as <-. by split.
Qed.

(** Decoding raises SSZ errors only. *)
Lemma container_decode_Err {A} `{SSZRecord A} bs e :
  wf_type (ssz_descr A) -> container_decode (A := A) bs = Err e -> ssz_error e.
Proof.
  intros Hwf E. unfold container_decode in E. apply bind_Err in E as [E|(v & Ed & E)].
  - by eapply (ok_decode_errors _ (class_of_ok _ Hwf)).
  - apply (ok_decode _ (class_of_ok _ Hwf)) in Ed as [Ht _]. destruct (ssz_of_typed v Ht) as (a & Ea & _).
    by rewrite Ea in E.
Qed.

(** * Every valid value encodes

    The offsets of an encoding are 32-bit, so a value too large for them cannot be
    encoded.  [max_size] bounds the encodings of a class from its declaration: where it
    is below 2^32, as for every container of the fork, encoding never raises. *)

(** The offset of an element, beside its own bytes *)
Definition offset_size (c : SSZType) : Z := if is_fixed_size c then 0 else BYTES_PER_LENGTH_OFFSET.

Fixpoint max_size (t : ssz_type) : Z :=
  match t with
  | TUint bits => uint_byte_length bits
  | TBoolean => 1
  | TFp => P_BYTES
  | TBytes n | TByteList n => n
  | TBitvector n => ceil8 n
  | TBitlist n => ceil8 (n + 1)
  | TVector t n | TList t n => n * (offset_size (class_of t) + max_size t)
  | TContainer ts => foldr (fun t acc => offset_size (class_of t) + max_size t + acc) 0 ts
  end.

(** The encoding of [v] by [c] has at most [m] bytes. *)
Definition fits (c : SSZType) (m : Z) (v : ssz_value) : Prop := exists bs, serialize c v = Ok bs /\ Zlen bs <= m.

Lemma offset_size_cases c : offset_size c = 0 /\ is_fixed_size c = true \/ offset_size c = 4 /\ is_fixed_size c = false.
Proof. unfold offset_size. destruct (is_fixed_size c); auto. Qed.

Lemma max_size_nonneg t : wf_type t -> 0 <= max_size t.
Proof.
  induction t as [b| | |n|n|n|n|t n IH|t n IH|ts IH] using ssz_type_nested_ind; cbn [wf_type max_size]; try lia.
  - intros Hb. pose proof (wf_bits_bytes _ Hb). unfold wf_bits in Hb. lia.
  - intros _. done.
  - intros Hn. pose proof (ceil8_spec n Hn). lia.
  - intros Hn. pose proof (ceil8_spec (n + 1)). lia.
  - intros (Ht & Hn & _). specialize (IH Ht). destruct (offset_size_cases (class_of t)) as [[-> _]|[-> _]]; nia.
  - intros (Ht & Hn & _). specialize (IH Ht). destruct (offset_size_cases (class_of t)) as [[-> _]|[-> _]]; nia.
  - intros Hts. induction IH as [|t ts Ht _ IHts]; cbn in *; [lia|]. destruct Hts as [H1 H2]. specialize (Ht H1). specialize (IHts H2).
    destruct (offset_size_cases (class_of t)) as [[-> _]|[-> _]]; lia.
Qed.

(** ** Sequences *)
Lemma write_fixed_fits c m vs :
  Forall (fits c m) vs -> exists bs, write_fixed (serialize c) vs = Ok bs /\ Zlen bs <= Zlen vs * m.
Proof.
  unfold write_fixed. induction 1 as [|v vs (b & Eb & Hb) _ (bs & E & Hl)]; [by exists []|].
  apply fmap_Ok in E as (bss & Em & ->). exists (b ++ mjoin bss). cbn [mapM]. rewrite Eb. mcbn. rewrite Em. mcbn.
  split; [done|]. rewrite length_app. cbn [length]. lia.
Qed.

Lemma offset_serialize_total o : in_range 32 o -> exists bs, offset_serialize o = Ok bs /\ Zlen bs = 4.
Proof. intros Hr. exists (off_bytes o). split; [by apply offset_serialize_Ok|apply length_off_bytes]. Qed.

Lemma write_payload_fits c m vs : forall o,
  0 <= m -> Forall (fits c m) vs -> 0 <= o -> o + Zlen vs * m < 2 ^ 32 ->
  exists table bodies, write_payload (serialize c) o vs = Ok (table, bodies) /\
    Zlen table = 4 * Zlen vs /\ Zlen bodies <= Zlen vs * m.
Proof.
  intros o Hm Hf. revert o. induction Hf as [|v vs (b & Eb & Hb) _ IH]; intros o Ho Hlt; [by exists [], []|].
  cbn [length] in Hlt. destruct (offset_serialize_total o) as (ob & Eo & Hlo); [unfold in_range; nia|].
  destruct (IH (o + Zlen b)) as (table & bodies & E & H1 & H2); [lia|nia|].
  exists (ob ++ table), (b ++ bodies). cbn [write_payload]. rewrite Eo. mcbn. rewrite Eb. mcbn. rewrite E. mcbn.
  split; [done|]. rewrite !length_app. cbn [length]. lia.
Qed.

Lemma sequence_fits c m vs n :
  0 <= m -> 0 <= n -> Forall (fits c m) vs -> Zlen vs <= n -> n * (offset_size c + m) < 2 ^ 32 ->
  exists bs, (if is_fixed_size c then write_fixed (serialize c) vs else _write_variable_payload (serialize c) (Zlen vs) vs) = Ok bs /\
    Zlen bs <= n * (offset_size c + m).
Proof.
  intros Hm Hn Hf Hl Hlt. destruct (offset_size_cases c) as [[Eo Ef]|[Eo Ef]]; rewrite Eo in *; rewrite Ef.
  - destruct (write_fixed_fits c m vs Hf) as (bs & E & Hb). exists bs. split; [done|]. nia.
  - unfold _write_variable_payload, BYTES_PER_LENGTH_OFFSET.
    destruct (write_payload_fits c m vs (Zlen vs * 4) Hm Hf) as (table & bodies & E & H1 & H2); [lia|nia|].
    rewrite E. mcbn. eexists. split; [done|]. rewrite length_app. nia.
Qed.

(** ** Containers *)

(** The leading part of a container, and the payloads of its variable-size fields *)
Definition lead_size (ts : list ssz_type) : Z := sum_Z (map slot_width (map class_of ts)).
Definition tail_size (ts : list ssz_type) : Z :=
  sum_Z (map (fun t => if is_fixed_size (class_of t) then 0 else max_size t) ts).

Lemma fixed_max_size t : wf_type t -> is_fixed_size (class_of t) = true -> fixed_byte_length (class_of t) <= max_size t.
Proof.
  induction t as [b| | |n|n|n|n|t n IH|t n IH|ts IH] using ssz_type_nested_ind;
    cbn [wf_type max_size class_of is_fixed_size fixed_byte_length uint_class boolean_class fp_class bytes_class
         bytelist_class bitvector_class bitlist_class vector_class list_class container_class]; try done.
  - intros (Ht & Hn & _) Hf. specialize (IH Ht Hf). unfold offset_size. rewrite Hf. nia.
  - intros Hts Hf. induction IH as [|t ts Ht _ IHts]; [done|]. cbn [foldr map forallb] in *. destruct Hts as [H1 H2].
    apply andb_true_iff in Hf as [Hf1 Hf2]. specialize (Ht H1 Hf1). specialize (IHts H2 Hf2). rewrite sum_Z_cons.
    unfold offset_size at 1. rewrite Hf1. lia.
Qed.

Lemma container_size_split ts :
  wf_type (TContainer ts) -> lead_size ts + tail_size ts <= max_size (TContainer ts).
Proof.
  cbn [wf_type max_size]. unfold lead_size, tail_size. induction ts as [|t ts IH]; [done|]. intros [Ht Hts]. specialize (IH Hts).
  cbn [map foldr]. rewrite !sum_Z_cons. pose proof (fixed_max_size t Ht) as Hf. pose proof (max_size_nonneg t Ht).
  unfold slot_width at 1. unfold BYTES_PER_LENGTH_OFFSET.
  destruct (offset_size_cases (class_of t)) as [[-> Ef]|[-> Ef]]; rewrite Ef; [specialize (Hf Ef)|]; lia.
Qed.

Lemma write_fields_fits ts : forall vs o,
  Forall2 (fun t v => 0 <= max_size t /\ fits (class_of t) (max_size t) v) ts vs ->
  0 <= o -> o + tail_size ts < 2 ^ 32 ->
  exists fixed tail, write_fields (map class_of ts) vs o = Ok (fixed, tail) /\
    Zlen fixed + Zlen tail <= max_size (TContainer ts).
Proof.
  induction ts as [|t ts IH]; intros vs o Hf Ho Hlt; inversion Hf as [|? v ? vs' [Hm (b & Eb & Hb)] Hf']; subst; [by exists [], []|].
  assert (0 <= tail_size ts) as Hts.
  { clear -Hf'. unfold tail_size. induction Hf' as [|t v ts vs [Ht _] _ IH]; [done|]. cbn [map]. rewrite sum_Z_cons. case_match; lia. }
  unfold tail_size in Hlt. cbn [map] in Hlt. rewrite sum_Z_cons in Hlt. fold (tail_size ts) in Hlt.
  change (max_size (TContainer (t :: ts))) with (offset_size (class_of t) + max_size t + max_size (TContainer ts)).
  cbn [map write_fields]. destruct (offset_size_cases (class_of t)) as [[Eo Ef]|[Eo Ef]]; rewrite Eo; rewrite Ef in *.
  - rewrite Eb. mcbn. destruct (IH vs' o Hf' Ho) as (fixed & tail & E & Hl); [lia|]. rewrite E. mcbn.
    eexists _, _. split; [done|]. rewrite length_app. lia.
  - destruct (offset_serialize_total o) as (ob & Eob & Hlo); [unfold in_range; lia|]. rewrite Eob. mcbn. rewrite Eb. mcbn.
    destruct (IH vs' (o + Zlen b) Hf') as (fixed & tail & E & Hl); [lia..|]. rewrite E. mcbn.
    eexists _, _. split; [done|]. rewrite !length_app. lia.
Qed.

(** ** Every type *)
Lemma forallb_typed (f : ssz_value -> bool) vs : forallb f vs = true -> Forall (fun v => f v = true) vs.
Proof. intros H. apply Forall_forall. intros v Hv. eapply forallb_forall in H; [done|by apply list_elem_of_In]. Qed.

Lemma element_bound n o m : 0 <= m -> 0 <= o -> 0 < n -> n * (o + m) < 2 ^ 32 -> m < 2 ^ 32.
Proof. nia. Qed.

Lemma elements_fit t n vs :
  (forall v, well_typed (class_of t) v = true -> max_size t < 2 ^ 32 -> fits (class_of t) (max_size t) v) ->
  0 <= max_size t -> Zlen vs <= n -> n * (offset_size (class_of t) + max_size t) < 2 ^ 32 ->
  forallb (well_typed (class_of t)) vs = true -> Forall (fits (class_of t) (max_size t)) vs.
Proof.
  intros IH Hm Hl Hlt Hvs. destruct vs as [|v0 vs0]; [constructor|]. set (vs := v0 :: vs0) in *.
  assert (0 < n) by (subst vs; cbn [length] in Hl; lia).
  assert (max_size t < 2 ^ 32).
  { eapply (element_bound n (offset_size (class_of t))); try done. destruct (offset_size_cases (class_of t)) as [[-> _]|[-> _]]; lia. }
  eapply Forall_impl; [by apply forallb_typed|]. cbn. auto.
Qed.

Lemma serialize_total t v :
  wf_type t -> well_typed (class_of t) v = true -> max_size t < 2 ^ 32 -> fits (class_of t) (max_size t) v.
Proof.
  revert v. induction t as [b| | |n|n|n|n|t n IH|t n IH|ts IH] using ssz_type_nested_ind; intros v Hwf Hv Hlt.
  - destruct v; try done. cbn in Hv. apply andb_true_iff in Hv as [H1%Z.leb_le H2%Z.leb_le].
    destruct (uint_encode_total b z Hwf) as (bs & E); [unfold in_range, max_value in *; lia|]. exists bs. split; [done|].
    unfold uint_encode_bytes in E. apply to_bytes_le_length in E; [cbn; lia|]. apply (max_size_nonneg (TUint b) Hwf).
  - destruct v as [|flag| | | | | | | |]; try done. exists (boolean_encode_bytes flag). split; [done|]. by destruct flag.
  - destruct v; try done. cbn in Hv. apply andb_true_iff in Hv as [H1%Z.leb_le H2%Z.ltb_lt].
    pose proof (fp_range_bytes z (conj H1 H2)) as Hr. exists (le_split (Z.to_nat P_BYTES) z). split; [by apply to_bytes_le_Ok|].
    by rewrite length_le_split.
  - destruct v; try done. cbn in *. apply Z.eqb_eq in Hv. exists bs. split; [done|lia].
  - destruct v; try done. cbn in *. apply Z.leb_le in Hv. exists bs. split; [done|lia].
  - destruct v; try done. cbn in Hv. apply Z.eqb_eq in Hv. destruct (bitvector_encode_total n bits Hv) as (bs & E). exists bs. split; [done|].
    unfold bitvector_encode_bytes in E. apply to_bytes_le_length in E; [cbn; lia|]. apply (max_size_nonneg (TBitvector n) Hwf).
  - destruct v; try done. cbn in Hv. apply Z.leb_le in Hv. destruct (bitlist_encode_total bits) as (bs & E). exists bs. split; [done|].
    apply bitlist_encode_Ok, to_bytes_le_length in E; [|pose proof (ceil8_spec (Zlen bits + 1)); lia].
    rewrite E. cbn. unfold ceil8. apply Z.div_le_mono; lia.
  - destruct v; try done. destruct Hwf as (Ht & Hn & _). cbn in Hv. apply andb_true_iff in Hv as [Hl%Z.eqb_eq Hvs].
    pose proof (max_size_nonneg t Ht) as Hm. cbn [max_size] in *.
    destruct (sequence_fits (class_of t) (max_size t) vs n Hm Hn) as (bs & E & Hb); [|lia|done|].
    + apply (elements_fit t n vs); [by intros w; apply IH|done|lia|done|done].
    + exists bs. split; [|done]. cbn. by rewrite <- Hl.
  - destruct v; try done. destruct Hwf as (Ht & Hn & _). cbn in Hv. apply andb_true_iff in Hv as [Hl%Z.leb_le Hvs].
    pose proof (max_size_nonneg t Ht) as Hm. cbn [max_size] in *.
    destruct (sequence_fits (class_of t) (max_size t) vs n Hm Hn) as (bs & E & Hb); [|lia|done|].
    + apply (elements_fit t n vs); [by intros w; apply IH|done|lia|done|done].
    + exists bs. by split.
  - apply typed_container in Hv as (vs & -> & Hvs).
    pose proof (container_size_split ts Hwf) as Hsp. unfold lead_size, tail_size in Hsp.
    assert (Forall2 (fun t v => 0 <= max_size t /\ fits (class_of t) (max_size t) v) ts vs /\ 0 <= lead_size ts) as [Hf Hlead].
    { clear Hsp. cbn [wf_type] in Hwf. cbn [max_size] in Hlt. unfold lead_size.
      induction Hvs as [|t v ts vs Hv _ IHvs]; [done|]. apply Forall_cons in IH as [IHt IHts]. destruct Hwf as [H1 H2].
      cbn [foldr map] in *. pose proof (max_size_nonneg t H1). pose proof (max_size_nonneg (TContainer ts) H2) as Hc. cbn [max_size] in Hc.
      pose proof (ok_length _ (class_of_ok t H1)). rewrite sum_Z_cons. unfold slot_width at 1. unfold BYTES_PER_LENGTH_OFFSET.
      destruct (IHvs IHts H2) as [IH1 IH2]; [destruct (offset_size_cases (class_of t)) as [[Eo _]|[Eo _]]; rewrite Eo in Hlt; lia|].
      split; [|destruct (is_fixed_size _); lia]. constructor; [|done]. split; [done|].
      apply IHt; [done|done|]. destruct (offset_size_cases (class_of t)) as [[Eo _]|[Eo _]]; rewrite Eo in Hlt; lia. }
    destruct (write_fields_fits ts vs (lead_size ts) Hf Hlead) as (fixed & tail & E & Hl); [unfold lead_size, tail_size; lia|].
    exists (fixed ++ tail). cbn [class_of container_class serialize]. unfold container_serialize. fold (lead_size ts). rewrite E. mcbn.
    split; [done|]. rewrite length_app. lia.
Qed.

(** Every well-typed value of a class whose largest encoding, computed from the
    declaration, is below 2^32 bytes encodes (no offset overflows), in at most that many
    bytes, and decodes to itself. *)
Theorem ssz_encode_total (t : ssz_type) (v : ssz_value) :
  wf_type t -> max_size t < 2 ^ 32 -> well_typed (class_of t) v = true ->
  exists bs, encode_bytes (class_of t) v = Ok bs /\ Zlen bs <= max_size t /\ decode_bytes (class_of t) bs = Ok v.
Proof.
  intros Hwf Hlt Hv. destruct (serialize_total t v Hwf Hv Hlt) as (bs & E & Hl). exists bs. split_and!; [done|done|].
  by apply (ok_decode _ (class_of_ok t Hwf)).
Qed.

Lemma ssz_encode_total_witness : exists bs,
  encode_bytes (class_of sample_type) sample_value = Ok bs /\ Zlen bs <= max_size sample_type /\
  decode_bytes (class_of sample_type) bs = Ok sample_value.
Proof.
  apply (ssz_encode_total sample_type sample_value).
  - exact sample_type_wf.
  - vm_compute. reflexivity.
  - vm_compute. reflexivity.
Defined.

(** ** The containers of the fork *)
Class Encodable (A : Type) `{SSZRecord A} : Prop := {
  encodable_wf : wf_type (ssz_descr A);
  encodable_size : max_size (ssz_descr A) < 2 ^ 32
}.

Lemma container_encode_total {A} `{Encodable A} (a : A) :
  ssz_valid a = true ->
  exists bs, container_encode a = Ok bs /\ Zlen bs <= max_size (ssz_descr A) /\ container_decode bs = Ok a.
Proof.
  intros Hv. destruct (serialize_total (ssz_descr A) (ssz_repr a) encodable_wf Hv encodable_size) as (bs & E & Hl).
  exists bs. split_and!; [done|done|]. by apply container_roundtrip_record; [apply encodable_wf|..].
Qed.

Ltac encodable := split; [cbn; repeat split; try done; lia|vm_compute; reflexivity].
#[export] Instance enc_Checkpoint : Encodable Checkpoint.
Proof. encodable. Qed.
#[export] Instance enc_Block : Encodable Block.
Proof. encodable. Qed.
#[export] Instance enc_SignedBlock : Encodable SignedBlock.
Proof. encodable. Qed.
#[export] Instance enc_State : Encodable State.
Proof. encodable. Qed.
#[export] Instance enc_SignedAggregatedAttestation : Encodable SignedAggregatedAttestation.
Proof. encodable. Qed.
