(* ===== verification/StateTyped.v ===== *)
(** * States stay values of their class

    [model_copy] does not validate, so nothing in the code checks that the state a
    transition returns satisfies the limits and widths of its SSZ class.  It does: every
    post-state of a valid block on a valid state is valid, hence encodes, decodes back and
    has a root. *)

From S2P Require Import Prelude Pydict Uint Ssz SszCorrect Sha256 Merkle Containers StateTransition Samples StateCorrect StateHistory.
From S2P Require Import Proofs SszRecords.

Abbreviation is_root := (fun r : bytes => length r = 32%nat).

(** The ranges of the fields that [state_inv] does not bound *)
Record state_typed (s : State) : Prop := {
  ty_config : ssz_valid (st_config s) = true;
  ty_header : ssz_valid (st_latest_block_header s) = true;
  ty_justified : is_root (cp_root (st_latest_justified s));
  ty_finalized : is_root (cp_root (st_latest_finalized s));
  ty_history : Forall is_root (st_historical_block_hashes s);
  ty_validators : Forall (fun v => ssz_valid v = true) (st_validators s)
}.

(** ** Validity field by field *)
Lemma root_typed (r : bytes) : is_root r <-> well_typed (class_of TBytes32) (VBytes r) = true.
Proof. cbn. rewrite Z.eqb_eq. lia. Qed.

Lemma uint_typed bits z : in_range bits z <-> well_typed (class_of (TUint bits)) (VUint z) = true.
Proof. cbn. unfold in_range, max_value. rewrite andb_true_iff, !Z.leb_le. lia. Qed.

Lemma roots_typed (l : list bytes) :
  Forall is_root l <-> forallb (well_typed (class_of TBytes32)) (map VBytes l) = true.
Proof.
  rewrite forallb_forall. setoid_rewrite <- list_elem_of_In. rewrite Forall_forall. split.
  - intros Hl v (r & -> & Hr)%list_elem_of_fmap. by apply root_typed, Hl.
  - intros Hl r Hr. apply root_typed, Hl. by apply list_elem_of_fmap_2.
Qed.

Lemma values_typed {A} `{SSZContainer A} (l : list A) :
  Forall (fun a => ssz_valid a = true) l <-> forallb (well_typed (class_of (ssz_descr A))) (map ssz_repr l) = true.
Proof.
  rewrite forallb_forall. setoid_rewrite <- list_elem_of_In. rewrite Forall_forall. split.
  - intros Hl v (a & -> & Ha)%list_elem_of_fmap. by apply Hl.
  - intros Hl a Ha. apply Hl. by apply list_elem_of_fmap_2.
Qed.

Lemma checkpoint_valid (c : Checkpoint) : ssz_valid c = true <-> is_root (cp_root c) /\ in_range 64 (cp_slot c).
Proof.
  rewrite root_typed, uint_typed. unfold ssz_valid.
  change (well_typed (class_of (ssz_descr Checkpoint)) (ssz_repr c)) with
    (well_typed (class_of TBytes32) (VBytes (cp_root c)) && (well_typed (class_of (TUint 64)) (VUint (cp_slot c)) && true)).
  rewrite !andb_true_iff. tauto.
Qed.

Lemma header_valid (h : BlockHeader) :
  ssz_valid h = true <-> in_range 64 (hd_slot h) /\ in_range 64 (hd_proposer_index h) /\ is_root (hd_parent_root h) /\
    is_root (hd_state_root h) /\ is_root (hd_body_root h).
Proof.
  rewrite !root_typed, !uint_typed. unfold ssz_valid.
  change (well_typed (class_of (ssz_descr BlockHeader)) (ssz_repr h)) with
    (well_typed (class_of (TUint 64)) (VUint (hd_slot h)) && (well_typed (class_of (TUint 64)) (VUint (hd_proposer_index h)) &&
     (well_typed (class_of TBytes32) (VBytes (hd_parent_root h)) && (well_typed (class_of TBytes32) (VBytes (hd_state_root h)) &&
      (well_typed (class_of TBytes32) (VBytes (hd_body_root h)) && true))))).
  rewrite !andb_true_iff. tauto.
Qed.

Lemma block_valid (b : Block) :
  ssz_valid b = true <-> in_range 64 (bk_slot b) /\ in_range 64 (bk_proposer_index b) /\ is_root (bk_parent_root b) /\
    is_root (bk_state_root b) /\ ssz_valid (bk_body b) = true.
Proof.
  rewrite !root_typed, !uint_typed. unfold ssz_valid.
  change (well_typed (class_of (ssz_descr Block)) (ssz_repr b)) with
    (well_typed (class_of (TUint 64)) (VUint (bk_slot b)) && (well_typed (class_of (TUint 64)) (VUint (bk_proposer_index b)) &&
     (well_typed (class_of TBytes32) (VBytes (bk_parent_root b)) && (well_typed (class_of TBytes32) (VBytes (bk_state_root b)) &&
      (well_typed (class_of (ssz_descr BlockBody)) (ssz_repr (bk_body b)) && true))))).
  rewrite !andb_true_iff. tauto.
Qed.

Lemma state_valid_fields (s : State) :
  ssz_valid s = true <->
  ssz_valid (st_config s) = true /\ in_range 64 (st_slot s) /\ ssz_valid (st_latest_block_header s) = true /\
  ssz_valid (st_latest_justified s) = true /\ ssz_valid (st_latest_finalized s) = true /\
  (Zlen (st_historical_block_hashes s) <= HISTORICAL_ROOTS_LIMIT /\ Forall is_root (st_historical_block_hashes s)) /\
  Zlen (st_justified_slots s) <= HISTORICAL_ROOTS_LIMIT /\
  (Zlen (st_validators s) <= VALIDATOR_REGISTRY_LIMIT /\ Forall (fun v => ssz_valid v = true) (st_validators s)) /\
  (Zlen (st_justifications_roots s) <= HISTORICAL_ROOTS_LIMIT /\ Forall is_root (st_justifications_roots s)) /\
  Zlen (st_justifications_validators s) <= HISTORICAL_ROOTS_LIMIT * VALIDATOR_REGISTRY_LIMIT.
Proof.
  rewrite !roots_typed, uint_typed, values_typed. unfold ssz_valid.
  change (well_typed (class_of (ssz_descr State)) (ssz_repr s)) with
    (ssz_valid (st_config s) && (well_typed (class_of (TUint 64)) (VUint (st_slot s)) && (ssz_valid (st_latest_block_header s) &&
     (ssz_valid (st_latest_justified s) && (ssz_valid (st_latest_finalized s) &&
     ((Zlen (map VBytes (st_historical_block_hashes s)) <=? HISTORICAL_ROOTS_LIMIT) &&
        forallb (well_typed (class_of TBytes32)) (map VBytes (st_historical_block_hashes s)) &&
     ((Zlen (st_justified_slots s) <=? HISTORICAL_ROOTS_LIMIT) &&
     ((Zlen (map ssz_repr (st_validators s)) <=? VALIDATOR_REGISTRY_LIMIT) &&
        forallb (well_typed (class_of (ssz_descr Validator))) (map ssz_repr (st_validators s)) &&
     ((Zlen (map VBytes (st_justifications_roots s)) <=? HISTORICAL_ROOTS_LIMIT) &&
        forallb (well_typed (class_of TBytes32)) (map VBytes (st_justifications_roots s)) &&
     ((Zlen (st_justifications_validators s) <=? HISTORICAL_ROOTS_LIMIT * VALIDATOR_REGISTRY_LIMIT) && true)))))))))).
  rewrite !andb_true_iff, !Z.leb_le, !length_map. unfold ssz_valid. tauto.
Qed.

(** ** States *)
Lemma state_inv_valid s : state_inv s -> state_typed s -> ssz_valid s = true.
Proof.
  intros Hi [Hc Hh Hj Hf Hhist Hv].
  pose proof (inv_head _ Hi). pose proof (inv_history _ Hi). pose proof (inv_history_limit _ Hi). pose proof (inv_order _ Hi).
  pose proof (inv_justified _ Hi). pose proof (inv_bits _ Hi). pose proof (inv_registry _ Hi). pose proof (inv_flags _ Hi) as Hfl.
  assert (HISTORICAL_ROOTS_LIMIT = 262144 /\ VALIDATOR_REGISTRY_LIMIT = 4096) as [El Ev] by done.
  assert (st_justifications_roots s ⊆ st_historical_block_hashes s) as Hsub.
  { intros r (i & _ & E)%(inv_tracked _ Hi). by eapply list_elem_of_lookup_2. }
  assert (length (st_justifications_roots s) <= length (st_historical_block_hashes s))%nat as Hlen.
  { apply submseteq_length, NoDup_submseteq; [apply root_lt_NoDup, Hi|done]. }
  apply state_valid_fields. split_and!; try done; try lia.
  - apply Hi.
  - apply checkpoint_valid. split; [done|]. unfold in_range. lia.
  - apply checkpoint_valid. split; [done|]. unfold in_range. lia.
  - apply Forall_forall. intros r Hr%Hsub. rewrite Forall_forall in Hhist. by apply Hhist.
  - rewrite Hfl. nia.
Qed.

Lemma valid_state_typed s : ssz_valid s = true -> state_typed s.
Proof.
  intros (Hc & _ & Hh & [Hj _]%checkpoint_valid & [Hf _]%checkpoint_valid & [_ Hhist] & _ & [_ Hv] & _)%state_valid_fields. by split.
Qed.

Lemma zero_root : is_root ZERO_HASH.
Proof. done. Qed.

Lemma transition_valid s b s' :
  state_inv s -> ssz_valid s = true -> ssz_valid b = true -> state_transition s b = Ok s' -> ssz_valid s' = true.
Proof.
  intros Hi Hs%valid_state_typed Hb E.
  destruct (state_transition_cases s b Hi Hb) as [(root & votes & t & E' & _ & _ & He & _ & _ & Hi3 & Hh & _)|(e & E' & _)]; [|congruence].
  rewrite E in E'. injection E' as ->. pose proof (header_error_None _ _ He) as (_ & _ & _ & _ & Hp).
  apply block_valid in Hb as (Hsl & Hpi & Hpr & _ & _). destruct Hs as [Hc Hhd Hj Hf Hhist Hv].
  apply state_inv_valid; [done|]. set (s2 := header_applied _ b) in *.
  assert (Forall is_root (st_historical_block_hashes s2)) as Hhist2.
  { subst s2. cbn [header_applied st_historical_block_hashes]. unfold extended_history. apply Forall_app_2; [done|]. constructor.
    - cbn in Hp. cbn. by rewrite <- Hp.
    - apply Forall_forall. intros r ->%list_elem_of_In%repeat_spec. done. }
  destruct (inv_on_chain _ Hi3 Hh) as [Hrj Hrf]. unfold root_at in Hrj, Hrf. apply bool_decide_eq_true in Hrj, Hrf.
  rewrite Forall_forall in Hhist2. split; cbn [repacked st_config st_latest_block_header st_latest_justified st_latest_finalized
    st_historical_block_hashes st_validators]; try done.
  - apply header_valid. subst s2. cbn. split_and!; try done. apply length_hash_body.
  - by apply Hhist2, (list_elem_of_lookup_2 _ _ _ Hrj).
  - by apply Hhist2, (list_elem_of_lookup_2 _ _ _ Hrf).
  - by apply Forall_forall.
Qed.

(** C35: the state transition returns values of the state's SSZ class: on a valid state
    that satisfies the invariant and a valid block, the post-state has every root at 32
    bytes, every integer in its width and every list within its limit, so it encodes (in
    at most the size computed from the class) and decodes back to itself. *)
Theorem state_transition_stays_typed (state : State) (block : Block) (post : State) :
  state_inv state -> ssz_valid state = true -> ssz_valid block = true -> state_transition state block = Ok post ->
  ssz_valid post = true /\
  exists bs, container_encode post = Ok bs /\ Zlen bs <= max_size (ssz_descr State) /\ container_decode bs = Ok post.
Proof.
  intros Hi Hs Hb E. pose proof (transition_valid _ _ _ Hi Hs Hb E) as Hv. split; [done|]. by apply container_encode_total.
Qed.

Lemma genesis_valid genesis_time validators :
  in_range 64 genesis_time -> Zlen validators <= VALIDATOR_REGISTRY_LIMIT -> Forall (fun v => ssz_valid v = true) validators ->
  ssz_valid (generate_genesis genesis_time validators) = true.
Proof.
  intros Ht Hl Hv. apply state_valid_fields. cbn [generate_genesis st_config st_slot st_latest_block_header st_latest_justified
    st_latest_finalized st_historical_block_hashes st_justified_slots st_validators st_justifications_roots st_justifications_validators].
  split_and!; try done; try (by constructor).
  unfold ssz_valid. cbn. unfold in_range, max_value in *. by rewrite !(proj2 (Z.leb_le _ _)) by lia.
Qed.

Lemma state_transition_stays_typed_witness :
  ssz_valid A1.2 = true /\
  exists bs, container_encode A1.2 = Ok bs /\ Zlen bs <= max_size (ssz_descr State) /\ container_decode bs = Ok A1.2.
Proof.
  apply (state_transition_stays_typed sample_genesis A1.1 A1.2).
  - rewrite <- genesis_eq. apply genesis_inv. vm_compute. discriminate.
  - vm_compute. reflexivity.
  - vm_compute. reflexivity.
  - exact A1_accepted.
Defined.
