(* ===== verification/ReqResp.v ===== *)
(** * The request/response protocol (node/networking/reqresp, client/reqresp_client.py)

    The wire codec, the messages, the server that answers inbound streams and the
    client that asks.  A stream is the list of chunks its reads return (an empty chunk,
    or the end of the list, is the end of the stream); what the server writes is the
    list of its writes, in order. *)

From S2P Require Import Prelude Pydict Uint Ssz Sha256 Merkle Containers Proofs SszRecords.
From S2P Require Import Varint Snappy.
From Stdlib Require Import String.

Local Open Scope Z_scope.
Local Open Scope list_scope.

(** ** The codec (codec.py) *)
Definition MAX_REQUEST_BLOCKS : Z := 2 ^ 10.
Definition MAX_PAYLOAD_SIZE : Z := 10 * 1024 * 1024.
Definition MAX_ERROR_MESSAGE_SIZE : Z := 256.
Definition MIN_SLOTS_FOR_BLOCK_REQUESTS : Z := 3600.

Definition _encode_framed (ssz_data : bytes) : result bytes :=
  check! negb (MAX_PAYLOAD_SIZE <? Zlen ssz_data) else CodecError;;
  compressed ← frame_compress ssz_data;
  length_prefix ← encode_varint (Zlen ssz_data) 10;
  Ok (length_prefix ++ compressed).

Definition _decode_framed (data : bytes) (offset : Z) : result bytes :=
  '(declared_length, varint_size) ←
    match decode_varint data offset 10 with Err VarintError => Err CodecError | r => r end;
  check! negb (MAX_PAYLOAD_SIZE <? declared_length) else CodecError;;
  decompressed ←
    match frame_decompress (drop (Z.to_nat (offset + varint_size)) data) with
    | Err SnappyDecompressionError => Err CodecError
    | r => r
    end;
  check! Zlen decompressed =? declared_length else CodecError;;
  Ok decompressed.

Definition encode_request (ssz_data : bytes) : result bytes := _encode_framed ssz_data.

Definition decode_request (data : bytes) : result bytes :=
  check! negb (Zlen data =? 0) else CodecError;; _decode_framed data 0.

Inductive ResponseCode := SUCCESS | INVALID_REQUEST | SERVER_ERROR | RESOURCE_UNAVAILABLE.

Definition ResponseCode_value (code : ResponseCode) : Z :=
  match code with SUCCESS => 0 | INVALID_REQUEST => 1 | SERVER_ERROR => 2 | RESOURCE_UNAVAILABLE => 3 end.

(** [ResponseCode(raw_code)], with the treatment of unknown codes *)
Definition ResponseCode_of (raw_code : Z) : ResponseCode :=
  if raw_code =? 0 then SUCCESS
  else if raw_code =? 1 then INVALID_REQUEST
  else if raw_code =? 2 then SERVER_ERROR
  else if raw_code =? 3 then RESOURCE_UNAVAILABLE
  else if raw_code <=? 127 then SERVER_ERROR else INVALID_REQUEST.

Definition response_encode (code : ResponseCode) (ssz_data : bytes) : result bytes :=
  code_byte ← bytes_of [ResponseCode_value code];
  framed ← _encode_framed ssz_data;
  Ok (code_byte ++ framed).

Definition response_decode (data : bytes) : result (ResponseCode * bytes) :=
  check! negb (Zlen data =? 0) else CodecError;;
  check! negb (Zlen data <? 2) else CodecError;;
  raw_code ← byte_at data 0;
  decompressed ← _decode_framed data 1;
  Ok (ResponseCode_of raw_code, decompressed).

(** ** Messages (message.py) *)
Definition STATUS_PROTOCOL_V1 : string := "/leanconsensus/req/status/1/ssz_snappy".
Definition BLOCKS_BY_ROOT_PROTOCOL_V1 : string := "/leanconsensus/req/blocks_by_root/1/ssz_snappy".
Definition BLOCKS_BY_RANGE_PROTOCOL_V1 : string := "/leanconsensus/req/blocks_by_range/1/ssz_snappy".

Record Status := { ss_finalized : Checkpoint; ss_head : Checkpoint }.
Record BlocksByRootRequest := { br_roots : list Bytes32 }.
Record BlocksByRangeRequest := { rr_start_slot : Z; rr_count : Z }.

#[export] Instance ssz_Status : SSZContainer Status := {|
  ssz_descr := TContainer [ssz_descr Checkpoint; ssz_descr Checkpoint];
  ssz_repr s := VContainer [ssz_repr (ss_finalized s); ssz_repr (ss_head s)]
|}.
#[export] Instance ssz_BlocksByRootRequest : SSZContainer BlocksByRootRequest := {|
  ssz_descr := TContainer [TList TBytes32 MAX_REQUEST_BLOCKS];
  ssz_repr r := VContainer [VList (map VBytes (br_roots r))]
|}.
#[export] Instance ssz_BlocksByRangeRequest : SSZContainer BlocksByRangeRequest := {|
  ssz_descr := TContainer [TSlot; TUint 64];
  ssz_repr r := VContainer [VUint (rr_start_slot r); VUint (rr_count r)]
|}.
#[export, refine] Instance rec_Status : SSZRecord Status := {|
  ssz_of v := match v with
    | VContainer [finalized; head] =>
        finalized ← ssz_of finalized; head ← ssz_of head; Some {| ss_finalized := finalized; ss_head := head |}
    | _ => None
    end
|}.
Proof.
  - intros []. cbn [ssz_repr ssz_Status]. by rewrite !ssz_of_repr.
  - intros v (vs & -> & H)%typed_container. typed_fields. typed_records Checkpoint. eexists. by split.
Defined.

#[export, refine] Instance rec_BlocksByRootRequest : SSZRecord BlocksByRootRequest := {|
  ssz_of v := match v with
    | VContainer [VList roots] =>
        roots ← mapM (fun v => match v with VBytes r => Some r | _ => None end) roots;
        Some {| br_roots := roots |}
    | _ => None
    end
|}.
Proof.
  - intros [roots]. cbn [ssz_repr ssz_BlocksByRootRequest br_roots].
    replace (mapM _ (map VBytes roots)) with (Some roots); [done|].
    induction roots as [|r roots IH]; [done|]. cbn. by rewrite <- IH.
  - intros v (vs & -> & H)%typed_container. typed_fields.
    match goal with H : Forall _ ?vs |- _ => assert (exists l, mapM (fun v => match v with VBytes r => Some r | _ => None end) vs
      = Some l /\ map VBytes l = vs) as (l & -> & <-); [induction H as [|? ? [? ->]%typed_bytes _ (l & El & <-)]|] end.
    + by exists [].
    + eexists (_ :: l). cbn. by rewrite El.
    + eexists. by split.
Defined.

#[export, refine] Instance rec_BlocksByRangeRequest : SSZRecord BlocksByRangeRequest := {|
  ssz_of v := match v with
    | VContainer [VUint start_slot; VUint count] => Some {| rr_start_slot := start_slot; rr_count := count |}
    | _ => None
    end
|}.
Proof.
  - by intros [].
  - intros v (vs & -> & H)%typed_container. typed_fields. eexists. by split.
Defined.

(** ** What the server writes *)
Definition io (A : Type) : Type := (list bytes * result A)%type.
#[export] Instance io_ret : MRet io := fun A a => ([], Ok a).
#[export] Instance io_bind : MBind io := fun A B f m =>
  match m with
  | (written, Ok a) => let '(more, r) := f a in (written ++ more, r)
  | (written, Err e) => (written, Err e)
  end.
Definition lift {A} (r : result A) : io A := ([], r).
Definition write (data : bytes) : io unit := ([data], Ok tt).

(** [StreamResponseAdapter] *)
Definition send_success (ssz_data : bytes) : io unit :=
  encoded ← lift (response_encode SUCCESS ssz_data); write encoded.
Definition send_error (code : ResponseCode) (message : string) : io unit :=
  encoded ← lift (response_encode code (take (Z.to_nat MAX_ERROR_MESSAGE_SIZE) (list_byte_of_string message)));
  write encoded.

(** ** The request handler (handler.py)

    The lookups are callbacks of the node: they find a block, find none, or raise. *)
Record RequestHandler := {
  our_status : option Status;
  block_lookup : option (Bytes32 -> result (option SignedBlock));
  block_by_slot_lookup : option (Z -> result (option SignedBlock));
  current_slot_lookup : option Z
}.

(** Send a looked-up block; any exception is logged and skipped. *)
Definition send_found (found : result (option SignedBlock)) : io unit :=
  match
    block ← lift found;
    match block with
    | Some b => ssz ← lift (container_encode b); send_success ssz
    | None => mret tt
    end
  with
  | (written, _) => (written, Ok tt)
  end.

Section Handler.
Context (self : RequestHandler).

Definition handle_status : io unit :=
  match our_status self with
  | None => send_error SERVER_ERROR "Status not available"
  | Some status => ssz ← lift (container_encode status); send_success ssz
  end.

Fixpoint send_roots (lookup : Bytes32 -> result (option SignedBlock)) (roots : list Bytes32) : io unit :=
  match roots with
  | [] => mret tt
  | root :: roots => _ ← send_found (lookup root); send_roots lookup roots
  end.

Definition handle_blocks_by_root (request : BlocksByRootRequest) : io unit :=
  match block_lookup self with
  | None => send_error SERVER_ERROR "Block lookup not available"
  | Some lookup => send_roots lookup (br_roots request)
  end.

(** [for i in range(count)]: the slot is computed outside the [try]. *)
Fixpoint send_slots (lookup : Z -> result (option SignedBlock)) (start_slot i : Z) (count : nat) : io unit :=
  match count with
  | O => mret tt
  | S count =>
      step ← lift (uint_new 64 i);
      slot ← lift (uint_add 64 start_slot step);
      _ ← send_found (lookup slot);
      send_slots lookup start_slot (i + 1) count
  end.

Definition handle_blocks_by_range (request : BlocksByRangeRequest) : io unit :=
  match block_by_slot_lookup self with
  | None => send_error SERVER_ERROR "Block lookup not available"
  | Some lookup =>
      if (rr_count request =? 0) || (MAX_REQUEST_BLOCKS <? rr_count request)
      then send_error INVALID_REQUEST "Invalid count"
      else
        match current_slot_lookup self with
        | None => send_error SERVER_ERROR "Current slot not available"
        | Some current_slot =>
            window_floor ← lift (if MIN_SLOTS_FOR_BLOCK_REQUESTS <=? current_slot
                                 then uint_sub 64 current_slot MIN_SLOTS_FOR_BLOCK_REQUESTS
                                 else Ok 0);
            if rr_start_slot request <? window_floor
            then send_error RESOURCE_UNAVAILABLE "Requested slot predates history window"
            else send_slots lookup (rr_start_slot request) 0 (Z.to_nat (rr_count request))
        end
  end.

(** [ReqRespServer._dispatch]: a decoding exception of any kind is an invalid request. *)
Definition _dispatch (protocol_id : string) (ssz_bytes : bytes) : io unit :=
  if (protocol_id =? STATUS_PROTOCOL_V1)%string then
    match container_decode (A := Status) ssz_bytes with
    | Err _ => send_error INVALID_REQUEST "Invalid Status message"
    | Ok _ => handle_status
    end
  else if (protocol_id =? BLOCKS_BY_ROOT_PROTOCOL_V1)%string then
    match container_decode ssz_bytes with
    | Err _ => send_error INVALID_REQUEST "Invalid BlocksByRootRequest message"
    | Ok request => handle_blocks_by_root request
    end
  else if (protocol_id =? BLOCKS_BY_RANGE_PROTOCOL_V1)%string then
    match container_decode ssz_bytes with
    | Err _ => send_error INVALID_REQUEST "Invalid BlocksByRangeRequest message"
    | Ok request => handle_blocks_by_range request
    end
  else send_error SERVER_ERROR "Unknown protocol".

(** [_read_request], first loop: read until the buffer starts with a varint, or the
    stream ends; then the buffer itself is returned. *)
Fixpoint read_length (buffer : bytes) (chunks : list bytes) : result (bytes + Z * Z * bytes * list bytes) :=
  match chunks with
  | [] => Ok (inl buffer)
  | chunk :: chunks =>
      if Zlen chunk =? 0 then Ok (inl buffer)
      else
        let buffer := buffer ++ chunk in
        match decode_varint buffer 0 10 with
        | Ok (declared_length, varint_size) => Ok (inr (declared_length, varint_size, buffer, chunks))
        | Err VarintError => read_length buffer chunks
        | Err e => Err e
        end
  end.

(** Second loop: read until the buffer decompresses to the declared length. *)
Fixpoint read_payload (declared_length max_compressed : Z) (compressed_data : bytes) (chunks : list bytes)
    : result bytes :=
  if max_compressed <? Zlen compressed_data then Ok []
  else
    let retry :=
      match chunks with
      | chunk :: rest =>
          if Zlen chunk =? 0 then None
          else Some (read_payload declared_length max_compressed (compressed_data ++ chunk) rest)
      | [] => None
      end in
    let final :=
      match frame_decompress compressed_data with
      | Ok decompressed => if Zlen decompressed =? declared_length then Ok decompressed else Ok []
      | Err SnappyDecompressionError => Ok []
      | Err e => Err e
      end in
    match frame_decompress compressed_data with
    | Ok decompressed =>
        if Zlen decompressed =? declared_length then Ok decompressed else default final retry
    | Err SnappyDecompressionError => default final retry
    | Err e => Err e
    end.

Definition _read_request (chunks : list bytes) : result bytes :=
  r ← read_length [] chunks;
  match r with
  | inl buffer => Ok buffer
  | inr (declared_length, varint_size, buffer, chunks) =>
      if MAX_PAYLOAD_SIZE <? declared_length then Ok []
      else
        let max_compressed := declared_length + declared_length / 6 + 1024 in
        read_payload declared_length max_compressed (drop (Z.to_nat varint_size) buffer) chunks
  end.

(** [ReqRespServer.handle_stream]: the writes of one inbound stream *)
Definition handle_stream (chunks : list bytes) (protocol_id : string) : list bytes :=
  match
    ssz_bytes ← lift (_read_request chunks);
    if Zlen ssz_bytes =? 0 then send_error INVALID_REQUEST "Empty request"
    else _dispatch protocol_id ssz_bytes
  with
  | (written, Ok _) => written
  | (written, Err _) => written ++ (send_error SERVER_ERROR "Internal error").1
  end.
End Handler.

(** ** The client (client/reqresp_client.py)

    A connection answers a request on a protocol with the chunks its stream delivers,
    or raises (a timeout included). *)
Abbreviation connection := (string -> bytes -> result (list bytes)).

(** [await stream.read()] and the chunks that remain *)
Definition stream_read (chunks : list bytes) : bytes * list bytes :=
  match chunks with
  | [] => ([], [])
  | chunk :: rest => if Zlen chunk =? 0 then ([], []) else (chunk, rest)
  end.

(** The reading loop of [_do_blocks_by_root_request] *)
Fixpoint read_root_responses (n : nat) (chunks : list bytes) (blocks : list SignedBlock)
    : result (list SignedBlock) :=
  match n with
  | O => Ok blocks
  | S n =>
      let '(response_data, rest) := stream_read chunks in
      if Zlen response_data =? 0 then Ok blocks
      else
        match response_decode response_data with
        | Ok (SUCCESS, ssz_bytes) =>
            match container_decode ssz_bytes with
            | Ok block => read_root_responses n rest (blocks ++ [block])
            | Err CodecError => Ok blocks
            | Err e => Err e
            end
        | Ok (RESOURCE_UNAVAILABLE, _) => read_root_responses n rest blocks
        | Ok _ => Ok blocks
        | Err CodecError => Ok blocks
        | Err e => Err e
        end
  end.

(** [RequestedBlockRoots(data=roots)] *)
Definition RequestedBlockRoots_new (roots : list Bytes32) : result (list Bytes32) :=
  check! Zlen roots <=? MAX_REQUEST_BLOCKS else SSZValueError;; Ok roots.

(** [closing] is the outcome of [stream.close()], which runs however the request ends: its
    exception takes the place of the blocks. *)
Definition _do_blocks_by_root_request (c : connection) (closing : result unit) (roots : list Bytes32) : result (list SignedBlock) :=
  blocks ←
    (requested ← RequestedBlockRoots_new roots;
     ssz ← container_encode {| br_roots := requested |};
     request_bytes ← encode_request ssz;
     chunks ← c BLOCKS_BY_ROOT_PROTOCOL_V1 request_bytes;
     read_root_responses (List.length roots) chunks []);
  _ ← closing;
  Ok blocks.

Definition request_blocks_by_root (connected : option connection) (closing : result unit) (roots : list Bytes32) : list SignedBlock :=
  if Zlen roots =? 0 then []
  else
    match connected with
    | None => []
    | Some c => match _do_blocks_by_root_request c closing roots with Ok blocks => blocks | Err _ => [] end
    end.

(** The local variables of the range loop *)
Record RangeState := {
  rs_blocks : list SignedBlock;
  rs_previous_slot : option Z;
  rs_previous_root : option Bytes32
}.

(** The checks on one received block *)
Definition accept_block (start_slot end_slot_exclusive : Z) (st : RangeState) (ssz_bytes : bytes)
    : result RangeState :=
  signed ← container_decode ssz_bytes;
  let inner := sb_block signed in
  let block_slot := bk_slot inner in
  check! match rs_previous_slot st with Some previous => previous <? block_slot | None => true end
    else CodecError;;
  check! negb ((block_slot <? start_slot) || (end_slot_exclusive <=? block_slot)) else CodecError;;
  check! match rs_previous_root st with Some root => bool_decide (bk_parent_root inner = root) | None => true end
    else CodecError;;
  Ok {| rs_blocks := rs_blocks st ++ [signed]; rs_previous_slot := Some block_slot;
        rs_previous_root := Some (hash_tree_root inner) |}.

(** The reading loop of [_do_blocks_by_range_request]: the state, whether the stream
    ended inside the loop, and the chunks left *)
Fixpoint read_range_responses (n : nat) (start_slot end_slot_exclusive : Z) (chunks : list bytes)
    (st : RangeState) : result (RangeState * bool * list bytes) :=
  match n with
  | O => Ok (st, false, chunks)
  | S n =>
      let '(response_data, rest) := stream_read chunks in
      if Zlen response_data =? 0 then Ok (st, true, rest)
      else
        '(code, ssz_bytes) ← response_decode response_data;
        match code with
        | SUCCESS =>
            st ← accept_block start_slot end_slot_exclusive st ssz_bytes;
            read_range_responses n start_slot end_slot_exclusive rest st
        | RESOURCE_UNAVAILABLE => read_range_responses n start_slot end_slot_exclusive rest st
        | _ => Ok (st, true, rest)
        end
  end.

Definition _do_blocks_by_range_request (c : connection) (start_slot count : Z) : result (list SignedBlock) :=
  let end_slot_exclusive := start_slot + count in
  ssz ← container_encode {| rr_start_slot := start_slot; rr_count := count |};
  request_bytes ← encode_request ssz;
  chunks ← c BLOCKS_BY_RANGE_PROTOCOL_V1 request_bytes;
  '(st, stream_ended, chunks) ← read_range_responses (Z.to_nat count) start_slot end_slot_exclusive chunks
    {| rs_blocks := []; rs_previous_slot := None; rs_previous_root := None |};
  if negb stream_ended && negb (Zlen (stream_read chunks).1 =? 0) then Err CodecError
  else Ok (rs_blocks st).

(** A protocol violation propagates, any other exception gives no blocks. *)
Definition request_blocks_by_range (connected : option connection) (start_slot count : Z)
    : result (list SignedBlock) :=
  if count =? 0 then Ok []
  else if MAX_REQUEST_BLOCKS <? count then Ok []
  else if max_value 64 <? start_slot + count then Ok []
  else
    match connected with
    | None => Ok []
    | Some c =>
        match _do_blocks_by_range_request c start_slot count with
        | Err CodecError => Err CodecError
        | Err _ => Ok []
        | Ok blocks => Ok blocks
        end
    end.

(** One attempt of [_do_status_request] *)
Definition status_attempt (c : connection) (status : Status) : result (option Status) :=
  ssz ← container_encode status;
  request_bytes ← encode_request ssz;
  chunks ← c STATUS_PROTOCOL_V1 request_bytes;
  let '(response_data, _) := stream_read chunks in
  if Zlen response_data =? 0 then Ok None
  else
    '(code, ssz_bytes) ← response_decode response_data;
    match code with
    | SUCCESS => s ← container_decode ssz_bytes; Ok (Some s)
    | _ => Ok None
    end.

(** Retried once, on a fresh stream *)
Definition send_status (connected : option (connection * connection)) (status : Status) : option Status :=
  match connected with
  | None => None
  | Some (first_stream, second_stream) =>
      match status_attempt first_stream status with
      | Ok r => r
      | Err _ => match status_attempt second_stream status with Ok r => r | Err _ => None end
      end
  end.
