(* ===== verification/ReqRespCorrect.v ===== *)
(** * The request/response protocol: what a peer reads is what was sent

    The codec round trip, its behaviour on arbitrary bytes, reading a request from a
    stream cut at arbitrary places, and a range request answered by the server and
    accepted by the client. *)

From S2P Require Import Prelude Pydict Uint Ssz SszCorrect Sha256 Merkle Containers Proofs SszRecords.
From S2P Require Import Varint Snappy SnappyCorrect ReqResp.
From Stdlib Require Import String.

Local Open Scope Z_scope.
Local Open Scope list_scope.
Abbreviation length := List.length.

(** ** The codec *)

(** The frame of a message: a length prefix and a snappy stream *)
Lemma encode_framed_ok data :
  Zlen data <= MAX_PAYLOAD_SIZE ->
  exists prefix stream, _encode_framed data = Ok (prefix ++ STREAM_IDENTIFIER ++ stream) /\
    encode_varint (Zlen data) 10 = Ok prefix /\ frames stream data /\
    Zlen (STREAM_IDENTIFIER ++ stream) <= Zlen data + Zlen data / 6 + 1024.
Proof.
  intros Hd. unfold _encode_framed. rewrite (proj2 (Z.ltb_ge _ _)) by done. cbn [negb].
  destruct (frame_compress_ok data) as (stream & -> & Hf & Hs). mcbn. unfold MAX_PAYLOAD_SIZE in Hd.
  destruct (encode_varint_Ok (Zlen data) 10) as (prefix & -> & _); [done|lia|]. mcbn.
  exists prefix, stream. split_and!; [done|done|done|]. rewrite length_app.
  change (Zlen STREAM_IDENTIFIER) with 10. rewrite Nat2Z.inj_add. change (Zlen STREAM_IDENTIFIER) with 10. div_lia.
Qed.

Lemma decode_framed_ok prefix stream data pre :
  Zlen data <= MAX_PAYLOAD_SIZE -> encode_varint (Zlen data) 10 = Ok prefix -> frames stream data ->
  _decode_framed (pre ++ prefix ++ STREAM_IDENTIFIER ++ stream) (Zlen pre) = Ok data.
Proof.
  intros Hd Ep Hf. unfold _decode_framed.
  rewrite (decode_encode_varint _ 10 _ pre (STREAM_IDENTIFIER ++ stream) ltac:(done) Ep). mcbn.
  rewrite (proj2 (Z.ltb_ge _ _)) by done. cbn [negb].
  replace (Z.to_nat (Zlen pre + Zlen prefix)) with (length (pre ++ prefix)) by (rewrite length_app; lia).
  rewrite (app_assoc pre prefix), drop_app_length, (frame_decompress_ok _ _ Hf). mcbn. by rewrite Z.eqb_refl.
Qed.

Lemma decode_framed_cases data offset :
  0 <= offset ->
  (exists out, _decode_framed data offset = Ok out /\ Zlen out <= MAX_PAYLOAD_SIZE) \/
  _decode_framed data offset = Err CodecError.
Proof.
  intros Ho. unfold _decode_framed.
  destruct (decode_varint_cases data offset 10) as [(n & c & -> & Hn & _)| ->]; [done|done| |by right]. mcbn.
  destruct (Z.ltb_spec MAX_PAYLOAD_SIZE n) as [|Hle]; cbn [negb]; [by right|].
  destruct (frame_decompress_cases (drop (Z.to_nat (offset + c)) data)) as [[out ->]| ->]; [|by right]. mcbn.
  destruct (Z.eqb_spec (Zlen out) n); [|by right]. left. exists out. split; [done|lia].
Qed.

Lemma code_of_value code : ResponseCode_of (ResponseCode_value code) = code.
Proof. by destruct code. Qed.

(** ** Reading a request from a stream *)
Lemma varint_loop_extend fuel data rest offset max_bytes decoded shift pos r :
  0 <= pos -> varint_loop fuel data offset max_bytes decoded shift pos = Ok r ->
  varint_loop fuel (data ++ rest) offset max_bytes decoded shift pos = Ok r.
Proof.
  revert decoded shift pos. induction fuel as [|fuel IH]; intros decoded shift pos Hp E; [done|].
  cbn [varint_loop] in *. destruct (Z.leb_spec (Zlen data) pos) as [|Hlt]; [done|]. cbn [negb] in E.
  rewrite length_app, (proj2 (Z.leb_gt _ _)) by lia. cbn [negb]. unfold byte_at in *. rewrite lookup_app_l by lia.
  apply bind_Ok in E as (b & -> & E). mcbn. destruct (_ =? 0); [done|]. destruct (_ <=? _); [done|].
  apply IH; [lia|done].
Qed.

(** A cut-off varint is not decoded. *)
Lemma varint_cut_at value prefix pre k :
  encode_varint value 10 = Ok prefix -> (k < length prefix)%nat ->
  decode_varint (pre ++ take k prefix) (Zlen pre) 10 = Err VarintError.
Proof.
  intros E Hk. destruct (decode_varint_cases (pre ++ take k prefix) (Zlen pre) 10) as [(v & c & E' & _ & _ & Hc)|E'];
    [lia|done| |done].
  unfold decode_varint in E'. apply (varint_loop_extend _ _ (drop k prefix)) in E'; [|lia].
  rewrite <- app_assoc, take_drop in E'. pose proof (decode_encode_varint _ 10 _ pre [] ltac:(done) E) as E2.
  rewrite app_nil_r in E2. unfold decode_varint in E2.
  rewrite E2 in E'. injection E' as <- <-. rewrite length_app, length_take in Hc. lia.
Qed.
Lemma varint_cut value prefix k :
  encode_varint value 10 = Ok prefix -> (k < length prefix)%nat ->
  decode_varint (take k prefix) 0 10 = Err VarintError.
Proof. apply (varint_cut_at value prefix []). Qed.

(** Chunks of a stream: none is empty, since an empty read is the end. *)
Definition delivers (chunks : list bytes) (data : bytes) : Prop :=
  Forall (fun c => 1 <= Zlen c) chunks /\ mjoin chunks = data.

Lemma read_length_ok value prefix rest :
  encode_varint value 10 = Ok prefix -> forall chunks buffer,
  Forall (fun c => 1 <= Zlen c) chunks -> buffer ++ mjoin chunks = prefix ++ rest ->
  (length buffer < length prefix)%nat ->
  exists more chunks', read_length buffer chunks = Ok (inr (value, Zlen prefix, prefix ++ more, chunks')) /\
    Forall (fun c => 1 <= Zlen c) chunks' /\ more ++ mjoin chunks' = rest.
Proof.
  intros E. induction chunks as [|c chunks IH]; intros buffer Hc Hj Hb.
  - cbn in Hj. rewrite app_nil_r in Hj. subst buffer. rewrite length_app in Hb. lia.
  - inversion Hc; subst. cbn [read_length]. rewrite (proj2 (Z.eqb_neq _ 0)) by lia. rewrite mjoin_cons, app_assoc in Hj.
    destruct (decide (length prefix <= length (buffer ++ c))%nat) as [Hle|Hlt].
    + assert (exists more, buffer ++ c = prefix ++ more) as [more Em].
      { exists (drop (length prefix) (buffer ++ c)). rewrite <- (take_drop (length prefix) (buffer ++ c)) at 1. f_equal.
        transitivity (take (length prefix) (prefix ++ rest)); [|apply take_app_length].
        rewrite <- Hj. by rewrite (take_app_le (buffer ++ c)) by lia. }
      exists more, chunks. rewrite Em. pose proof (decode_encode_varint _ 10 _ [] more ltac:(done) E) as E2.
      cbn [app length] in E2. change (Z.of_nat 0) with 0 in E2. rewrite E2. split_and!; [done|done|].
      rewrite Em, <- app_assoc in Hj. by apply app_inv_head in Hj.
    + assert (buffer ++ c = take (length (buffer ++ c)) prefix) as Et.
      { transitivity (take (length (buffer ++ c)) (prefix ++ rest)); [|by rewrite take_app_le by lia].
        rewrite <- Hj. by rewrite take_app_length. }
      pose proof (varint_cut value prefix (length (buffer ++ c)) E ltac:(lia)) as Ev. rewrite <- Et in Ev.
      rewrite Ev. apply IH; [done|done|lia].
Qed.

Lemma read_payload_ok stream data limit :
  frames stream data -> Zlen (STREAM_IDENTIFIER ++ stream) <= limit -> forall chunks compressed,
  Forall (fun c => 1 <= Zlen c) chunks -> compressed ++ mjoin chunks = STREAM_IDENTIFIER ++ stream ->
  read_payload (Zlen data) limit compressed chunks = Ok data.
Proof.
  intros Hf Hlim. induction chunks as [|c chunks IH]; intros compressed Hc Hj.
  - change (mjoin (@nil bytes)) with (@nil Byte.byte) in Hj. rewrite app_nil_r in Hj. subst. cbn [read_payload]. rewrite (proj2 (Z.ltb_ge _ _)) by done.
    by rewrite (frame_decompress_ok _ _ Hf), Z.eqb_refl.
  - inversion Hc; subst. rewrite mjoin_cons, app_assoc in Hj. cbn [read_payload].
    assert (Zlen compressed + Zlen c <= Zlen (STREAM_IDENTIFIER ++ stream)) as Hl.
    { rewrite <- Hj, !length_app. lia. }
    rewrite (proj2 (Z.ltb_ge _ _)) by lia. rewrite (proj2 (Z.eqb_neq (Zlen c) 0)) by lia. cbn [default].
    assert (compressed = take (length compressed) (STREAM_IDENTIFIER ++ stream)) as Et.
    { rewrite <- Hj, <- app_assoc. by rewrite take_app_length. }
    destruct (stream_cut stream data (length compressed) Hf) as [E|(out & E & Ho)]; [lia|..];
      rewrite <- Et in E; rewrite E.
    + by apply IH.
    + rewrite (proj2 (Z.eqb_neq _ _)) by lia. by apply IH.
Qed.

Lemma read_request_ok data request chunks :
  Zlen data <= MAX_PAYLOAD_SIZE -> encode_request data = Ok request -> delivers chunks request ->
  _read_request chunks = Ok data.
Proof.
  intros Hd E [Hc Hj]. destruct (encode_framed_ok data Hd) as (prefix & stream & Ef & Ep & Hf & Hs).
  unfold encode_request in E. rewrite Ef in E. injection E as <-.
  pose proof (encode_varint_length _ 10 _ ltac:(done) Ep) as Hl.
  destruct (read_length_ok _ _ (STREAM_IDENTIFIER ++ stream) Ep chunks []) as (more & chunks' & Er & Hc' & Hm);
    [done|done|cbn; lia|].
  unfold _read_request. rewrite Er. mcbn. rewrite (proj2 (Z.ltb_ge _ _)) by done.
  rewrite Nat2Z.id, drop_app_length. by apply (read_payload_ok stream).
Qed.

(** ** Responses *)
Definition response_of (code : ResponseCode) (data : bytes) : bytes :=
  match response_encode code data with Ok w => w | Err _ => [] end.

Lemma response_ok code data :
  Zlen data <= MAX_PAYLOAD_SIZE ->
  response_encode code data = Ok (response_of code data) /\
  response_decode (response_of code data) = Ok (code, data) /\ 2 <= Zlen (response_of code data).
Proof.
  intros Hd. unfold response_of, response_encode.
  destruct (byte_of_small (ResponseCode_value code)) as (b & Eb & Hb); [by destruct code|].
  assert (bytes_of [ResponseCode_value code] = Ok [b]) as -> by (unfold bytes_of; cbn; by rewrite Eb). mcbn.
  destruct (encode_framed_ok data Hd) as (prefix & stream & -> & Ep & Hf & _). mcbn.
  pose proof (encode_varint_length _ 10 _ ltac:(done) Ep) as Hl.
  assert (2 <= Zlen ([b] ++ prefix ++ STREAM_IDENTIFIER ++ stream)) as Hlen.
  { rewrite !length_app. cbn [length]. lia. }
  split_and!; [done| |done]. unfold response_decode. rewrite (proj2 (Z.eqb_neq _ 0)) by lia. cbn [negb].
  rewrite (proj2 (Z.ltb_ge _ 2)) by lia. cbn [negb]. 
  assert (byte_at ([b] ++ prefix ++ STREAM_IDENTIFIER ++ stream) 0 = Ok (ResponseCode_value code)) as ->
    by (rewrite <- Hb; done).
  mcbn.
  pose proof (decode_framed_ok prefix stream data [b] Hd Ep Hf) as E. cbn [app length] in E.
  change (Z.of_nat 1) with 1 in E. cbn [app]. rewrite E. mcbn. by rewrite code_of_value.
Qed.

(** A response cut off anywhere is refused. *)
Lemma framed_cut prefix stream data pre k :
  Zlen data <= MAX_PAYLOAD_SIZE -> encode_varint (Zlen data) 10 = Ok prefix -> frames stream data ->
  (k < length (prefix ++ STREAM_IDENTIFIER ++ stream))%nat ->
  _decode_framed (pre ++ take k (prefix ++ STREAM_IDENTIFIER ++ stream)) (Zlen pre) = Err CodecError.
Proof.
  intros Hd Ep Hf Hk. unfold _decode_framed. destruct (decide (k < length prefix)%nat) as [Hv|Hv].
  { rewrite take_app_le by lia. by rewrite (varint_cut_at _ _ _ _ Ep Hv). }
  rewrite take_app, take_ge by lia.
  rewrite (decode_encode_varint _ 10 _ pre _ ltac:(done) Ep). mcbn.
  rewrite (proj2 (Z.ltb_ge _ _)) by done. cbn [negb].
  replace (Z.to_nat (Zlen pre + Zlen prefix)) with (length (pre ++ prefix)) by (rewrite length_app; lia).
  rewrite (app_assoc pre prefix), drop_app_length. rewrite !length_app in Hk.
  destruct (stream_cut stream data (k - length prefix) Hf) as [->|(out & -> & Ho)]; [rewrite length_app; lia|done|].
  mcbn. by rewrite (proj2 (Z.eqb_neq _ _)) by lia.
Qed.

Lemma response_cut code data k :
  Zlen data <= MAX_PAYLOAD_SIZE -> (k < length (response_of code data))%nat ->
  response_decode (take k (response_of code data)) = Err CodecError.
Proof.
  intros Hd. unfold response_of, response_encode.
  destruct (byte_of_small (ResponseCode_value code)) as (b & Eb & Hb); [by destruct code|].
  assert (bytes_of [ResponseCode_value code] = Ok [b]) as -> by (unfold bytes_of; cbn; by rewrite Eb). mcbn.
  destruct (encode_framed_ok data Hd) as (prefix & stream & -> & Ep & Hf & _). mcbn. cbn [app length].
  destruct k as [|k]; [done|]. intros Hk. cbn [take]. unfold response_decode. cbn [length].
  rewrite (proj2 (Z.eqb_neq _ 0)) by lia. cbn [negb]. destruct (_ <? 2); [done|]. cbn [negb].
  destruct (byte_at_total (b :: take k (prefix ++ STREAM_IDENTIFIER ++ stream)) 0) as (c & -> & _); [cbn [length]; lia|].
  mcbn. pose proof (framed_cut prefix stream data [b] k Hd Ep Hf ltac:(lia)) as E. cbn [app length] in E.
  change (Z.of_nat 1) with 1 in E. by rewrite E.
Qed.

Lemma response_decode_cases data :
  (exists code out, response_decode data = Ok (code, out) /\ Zlen out <= MAX_PAYLOAD_SIZE) \/
  response_decode data = Err CodecError.
Proof.
  unfold response_decode. destruct (Z.eqb_spec (Zlen data) 0); cbn [negb]; [by right|].
  destruct (Z.ltb_spec (Zlen data) 2); cbn [negb]; [by right|].
  destruct (byte_at_total data 0) as (c & -> & _); [lia|]. mcbn.
  destruct (decode_framed_cases data 1) as [(out & -> & Ho)| ->]; [done| |by right]. mcbn. left. eauto.
Qed.

Lemma send_success_ok data :
  Zlen data <= MAX_PAYLOAD_SIZE -> send_success data = ([response_of SUCCESS data], Ok tt).
Proof. intros Hd. unfold send_success. by rewrite (proj1 (response_ok SUCCESS data Hd)). Qed.

(** ** The server on a range *)

(** The block encodes to a payload within the protocol's limit. *)
Definition sendable (b : SignedBlock) : Prop :=
  ssz_valid b = true /\ exists ssz, container_encode b = Ok ssz /\ Zlen ssz <= MAX_PAYLOAD_SIZE.
Definition block_response (b : SignedBlock) : bytes :=
  match container_encode b with Ok ssz => response_of SUCCESS ssz | Err _ => [] end.

(** The blocks a lookup finds at [count] slots from [slot] on *)
Fixpoint found (lookup : Z -> result (option SignedBlock)) (slot : Z) (count : nat) : list SignedBlock :=
  match count with
  | O => []
  | S count =>
      match lookup slot with Ok (Some b) => [b] | _ => [] end ++ found lookup (slot + 1) count
  end.

Lemma send_found_ok (r : result (option SignedBlock)) :
  (forall b, r = Ok (Some b) -> sendable b) ->
  send_found r = (match r with Ok (Some b) => [block_response b] | _ => [] end, Ok tt).
Proof.
  intros H. destruct r as [[b|]|e]; [|done..]. destruct (H b eq_refl) as (_ & ssz & E & Hl).
  unfold send_found, block_response. rewrite E. cbn [mbind io_bind lift app]. rewrite E. by rewrite send_success_ok.
Qed.

Lemma send_slots_ok lookup start i count :
  0 <= start -> 0 <= i -> start + i + Z.of_nat count <= 2 ^ 64 ->
  (forall slot b, start + i <= slot < start + i + Z.of_nat count -> lookup slot = Ok (Some b) -> sendable b) ->
  send_slots lookup start i count = (map block_response (found lookup (start + i) count), Ok tt).
Proof.
  revert i. induction count as [|count IH]; intros i Hs Hi Hr Hb; [done|]. cbn [send_slots found].
  do 2 (unfold uint_add, lift; rewrite uint_new_in_range by (unfold in_range; lia); cbn [mbind io_bind]).
  rewrite send_found_ok by (intros b; apply Hb; lia). rewrite (IH (i + 1)) by (try lia; intros slot b Hsl; apply Hb; lia).
  rewrite map_app, Z.add_assoc. by destruct (lookup (start + i)) as [[b|]|e].
Qed.

Lemma wf_range_request : wf_type (ssz_descr BlocksByRangeRequest).
Proof. vm_compute. repeat split; discriminate. Qed.

Lemma range_request_encodes start count :
  0 <= start < 2 ^ 64 -> 0 <= count < 2 ^ 64 ->
  let r := {| rr_start_slot := start; rr_count := count |} in
  ssz_valid r = true /\ exists ssz, container_encode r = Ok ssz /\ Zlen ssz = 16.
Proof.
  intros Hs Hc. cbn zeta. split.
  - unfold ssz_valid. cbn. unfold max_value. by rewrite !(proj2 (Z.leb_le _ _)) by lia.
  - exists (le_split 8 start ++ le_split 8 count ++ []). split; [|rewrite !length_app, !length_le_split; cbn; lia].
    assert (forall z, 0 <= z < 2 ^ 64 -> uint_encode_bytes 64 z = Ok (le_split 8 z)) as Hu.
    { intros z Hz. by apply to_bytes_le_Ok. }
    unfold container_encode, encode_bytes.
    cbn [ssz_descr ssz_repr ssz_BlocksByRangeRequest class_of map container_class serialize container_serialize
         write_fields uint_class is_fixed_size rr_start_slot rr_count container_serialize].
    unfold container_serialize; cbn -[le_split Z.pow uint_encode_bytes]; rewrite !Hu by done. mcbn. by rewrite !app_nil_r.
Qed.

Lemma wf_root_request : wf_type (ssz_descr BlocksByRootRequest).
Proof. vm_compute. repeat split; discriminate. Qed.

Lemma root_request_encodes roots :
  Forall (fun r => Zlen r = 32) roots -> Zlen roots <= MAX_REQUEST_BLOCKS ->
  let r := {| br_roots := roots |} in
  ssz_valid r = true /\ exists ssz, container_encode r = Ok ssz /\ Zlen ssz = 4 + 32 * Zlen roots.
Proof.
  intros Hr Hn. cbn zeta.
  assert (forallb (well_typed (class_of TBytes32)) (map VBytes roots) = true) as Ht.
  { clear Hn. induction Hr as [|r roots Hr _ IH]; [done|]. cbn. rewrite Hr. exact IH. }
  assert (Forall2 (fun v b => serialize (class_of TBytes32) v = Ok b) (map VBytes roots) roots) as Hs.
  { clear. induction roots; constructor; done. }
  split.
  - unfold ssz_valid. change (((Zlen (map VBytes roots) <=? MAX_REQUEST_BLOCKS) &&
      forallb (well_typed (class_of TBytes32)) (map VBytes roots)) && true = true).
    by rewrite Ht, length_map, (proj2 (Z.leb_le _ _)).
  - exists (off_bytes 4 ++ mjoin roots). split.
    + unfold container_encode, encode_bytes. cbn [ssz_descr ssz_repr ssz_BlocksByRootRequest class_of map container_class
        serialize br_roots]. unfold container_serialize. cbn [map write_fields list_class is_fixed_size slot_width sum_Z foldr serialize].
      assert (offset_serialize 4 = Ok (off_bytes 4)) as E by (by apply offset_serialize_Ok).
      change (BYTES_PER_LENGTH_OFFSET + 0) with 4. rewrite E. mcbn.
      change (is_fixed_size (bytes_class 32)) with true. cbn iota.
      rewrite (proj2 (write_fixed_Ok (class_of TBytes32) _ _)) by eauto. mcbn. by rewrite !app_nil_r.
    + rewrite length_app, Nat2Z.inj_add, length_off_bytes. pose proof (fixed_elements_width _ (class_of_ok TBytes32 ltac:(done)) _ _ eq_refl Ht Hs) as E.
      rewrite length_map in E. cbn [fixed_byte_length class_of bytes_class] in E. lia.
Qed.

(** ** The client on a range *)

(** [b'] extends [b]: a later slot, and [b]'s root as its parent. *)
Definition extends (b b' : SignedBlock) : Prop :=
  bk_slot (sb_block b) < bk_slot (sb_block b') /\ bk_parent_root (sb_block b') = hash_tree_root (sb_block b).
Definition linked (blocks : list SignedBlock) : Prop :=
  forall i b b', blocks !! i = Some b -> blocks !! S i = Some b' -> extends b b'.
Definition in_slots (start stop : Z) (b : SignedBlock) : Prop := start <= bk_slot (sb_block b) < stop.

(** What a range request may return: at most [count] valid blocks of the range, each the
    parent of the next. *)
Record range_chain (start count : Z) (blocks : list SignedBlock) : Prop := {
  chain_count : Zlen blocks <= count;
  chain_valid : Forall (fun b => ssz_valid b = true) blocks;
  chain_slots : Forall (in_slots start (start + count)) blocks;
  chain_linked : linked blocks
}.

Definition extends_last (blocks : list SignedBlock) (b : SignedBlock) : Prop :=
  match last blocks with Some p => extends p b | None => True end.

Lemma linked_snoc blocks b : linked (blocks ++ [b]) <-> linked blocks /\ extends_last blocks b.
Proof.
  unfold extends_last. destruct blocks as [|p blocks _] using rev_ind.
  { cbn. split; [|intros _ [|i] ? ?; by cbn]. intros _. split; [|done]. intros i ? ?. by rewrite lookup_nil. }
  rewrite last_snoc. split.
  - intros H. split.
    + intros i x y Hx Hy. apply (H i); by apply lookup_app_l_Some.
    + apply (H (length blocks)); [rewrite <- app_assoc, lookup_app_r, Nat.sub_diag by done; done|].
      rewrite lookup_app_r, length_app by (rewrite length_app; cbn; lia).
      cbn [length]. by replace (_ - _)%nat with 0%nat by lia.
  - intros [H Hb] i x y Hx Hy. destruct (decide (S i < length (blocks ++ [p]))%nat) as [Hi|Hi].
    + rewrite lookup_app_l in Hx, Hy by lia. by apply (H i).
    + apply lookup_lt_Some in Hy as Hl. rewrite !length_app in Hi; rewrite !length_app in Hl. cbn [length] in Hl, Hi.
      assert (i = length blocks) as -> by lia.
      rewrite <- app_assoc in Hx. cbn [app] in Hx. rewrite list_lookup_middle in Hx by done.
      rewrite lookup_app_r, length_app in Hy by (rewrite length_app; cbn; lia).
      cbn [length] in Hy. replace (_ - _)%nat with 0%nat in Hy by lia.
      by injection Hx as <-; injection Hy as <-.
Qed.

(** The loop's local variables, from the blocks accepted so far *)
Definition range_state (blocks : list SignedBlock) : RangeState := {|
  rs_blocks := blocks;
  rs_previous_slot := bk_slot ∘ sb_block <$> last blocks;
  rs_previous_root := (fun b => hash_tree_root (sb_block b)) <$> last blocks
|}.

Lemma wf_SignedBlock : wf_type (ssz_descr SignedBlock).
Proof. vm_compute. repeat split; discriminate. Qed.

Lemma accept_block_ok start stop blocks ssz b :
  container_decode ssz = Ok b -> in_slots start stop b -> extends_last blocks b ->
  accept_block start stop (range_state blocks) ssz = Ok (range_state (blocks ++ [b])).
Proof.
  intros E [H1 H2] He. unfold accept_block, range_state. rewrite E. mcbn. rewrite last_snoc. cbn [rs_previous_slot rs_previous_root].
  unfold extends_last in He. rewrite (proj2 (Z.ltb_ge _ _)), (proj2 (Z.leb_gt _ _)) by lia.
  destruct (last blocks) as [p|]; cbn; [|done]. destruct He as [Hs Hp].
  by rewrite (proj2 (Z.ltb_lt _ _)), bool_decide_eq_true_2.
Qed.

Lemma accept_block_inv start stop blocks ssz st :
  accept_block start stop (range_state blocks) ssz = Ok st ->
  exists b, ssz_valid b = true /\ in_slots start stop b /\ extends_last blocks b /\ st = range_state (blocks ++ [b]).
Proof.
  intros E. unfold accept_block in E. apply bind_Ok in E as (b & Ed & E).
  apply (container_decode_Ok b ssz wf_SignedBlock) in Ed as [Hv _].
  destruct (match rs_previous_slot _ with Some _ => _ | None => _ end) eqn:Hs in E; [|done].
  destruct (negb _) eqn:Hr in E; [|done].
  destruct (match rs_previous_root _ with Some _ => _ | None => _ end) eqn:Hp in E; [|done]. injection E as <-.
  exists b. apply negb_true_iff, orb_false_iff in Hr as [?%Z.ltb_ge ?%Z.leb_gt]. split_and!; [done|done| |].
  - unfold extends_last. cbn in Hs, Hp. destruct (last blocks) as [p|]; [|done]. cbn in Hs, Hp.
    apply bool_decide_eq_true in Hp. apply Z.ltb_lt in Hs. by split.
  - unfold range_state. by rewrite last_snoc.
Qed.

(** The reading loop keeps the invariant whatever the peer sends. *)
Lemma read_range_inv start count n : forall chunks blocks st ended rest,
  0 <= count -> Zlen blocks + Z.of_nat n <= count -> range_chain start count blocks ->
  read_range_responses n start (start + count) chunks (range_state blocks) = Ok (st, ended, rest) ->
  range_chain start count (rs_blocks st).
Proof.
  induction n as [|n IH]; intros chunks blocks st ended rest Hc Hn Hb E; cbn [read_range_responses] in E.
  { by injection E as <- _ _. }
  destruct (stream_read chunks) as [response more]. destruct (Zlen response =? 0); [by injection E as <- _ _|].
  apply bind_Ok in E as ([code ssz] & _ & E).
  destruct code; [|by injection E as <- _ _|by injection E as <- _ _|].
  - apply bind_Ok in E as (st' & (b & Hv & Hs & He & ->)%accept_block_inv & E).
    refine (IH _ _ _ _ _ Hc _ _ E).
    + rewrite length_app. cbn [length]. lia.
    + destruct Hb. split; [rewrite length_app; cbn [length]; lia|by apply Forall_app_2; [|constructor]..|].
      by apply linked_snoc.
  - refine (IH _ _ _ _ _ Hc _ Hb E). lia.
Qed.

Lemma range_chain_nil start count : 0 <= count -> range_chain start count [].
Proof. intros Hc. split; [done|constructor..|]. intros i ? ?. by rewrite lookup_nil. Qed.

Lemma do_range_chain c start count blocks :
  0 <= count -> _do_blocks_by_range_request c start count = Ok blocks -> range_chain start count blocks.
Proof.
  intros Hc E. unfold _do_blocks_by_range_request in E.
  apply bind_Ok in E as (ssz & _ & E). apply bind_Ok in E as (request & _ & E). apply bind_Ok in E as (chunks & _ & E).
  apply bind_Ok in E as ([[st ended] rest] & Er & E).
  destruct (_ && _); [done|]. injection E as <-.
  eapply (read_range_inv start count _ chunks []); [done| |by apply range_chain_nil|exact Er]. cbn. lia.
Qed.

Lemma stream_read_cons chunk rest : Zlen chunk <> 0 -> stream_read (chunk :: rest) = (chunk, rest).
Proof. intros H. unfold stream_read. by rewrite (proj2 (Z.eqb_neq _ 0)). Qed.

(** The loop reads the responses of a chain back. *)
Lemma read_range_ok start stop n : forall blocks acc,
  (length blocks <= n)%nat -> Forall sendable blocks -> Forall (in_slots start stop) blocks -> linked (acc ++ blocks) ->
  exists ended, read_range_responses n start stop (map block_response blocks) (range_state acc)
    = Ok (range_state (acc ++ blocks), ended, []).
Proof.
  induction n as [|n IH]; intros [|b blocks] acc Hn Hb Hs Hl; [|cbn in Hn; lia|..].
  - exists false. by rewrite app_nil_r.
  - exists true. by rewrite app_nil_r.
  - apply Forall_cons in Hb as [(Hv & ssz & E & Hz) Hb]. apply Forall_cons in Hs as [Hsb Hs].
    destruct (response_ok SUCCESS ssz Hz) as (_ & Ed & H2).
    cbn [map read_range_responses]. unfold block_response at 1. rewrite E, stream_read_cons by lia.
    rewrite (proj2 (Z.eqb_neq _ 0)), Ed by lia. mcbn.
    replace (acc ++ b :: blocks) with ((acc ++ [b]) ++ blocks) in * by (by rewrite <- app_assoc).
    rewrite (accept_block_ok start stop acc ssz b).
    + mcbn. apply IH; [cbn in Hn; lia|done..].
    + by apply container_roundtrip_record; [apply wf_SignedBlock|..].
    + done.
    + apply linked_snoc. intros i x y Hx Hy. apply (Hl i); by apply lookup_app_l_Some.
Qed.

(** ** Client and server together

    The transport delivers the request to the reads of the server, and what the server
    writes to the reads of the client, in pieces of its choice ([cut] and [arrive]). *)
Definition serving (self : RequestHandler) (cut : bytes -> list bytes) (arrive : list bytes -> list bytes) : connection :=
  fun protocol_id request => Ok (arrive (handle_stream self (cut request) protocol_id)).
(** Each write arrives as one read. *)
Definition whole (writes : list bytes) : list bytes := writes.

Lemma handle_stream_ok self chunks protocol_id ssz request written :
  0 < Zlen ssz <= MAX_PAYLOAD_SIZE -> encode_request ssz = Ok request -> delivers chunks request ->
  _dispatch self protocol_id ssz = (written, Ok tt) -> handle_stream self chunks protocol_id = written.
Proof.
  intros Hs E Hc Hd. unfold handle_stream. rewrite (read_request_ok ssz request) by (done || lia).
  unfold lift. cbn [mbind io_bind]. rewrite (proj2 (Z.eqb_neq _ 0)) by lia. by rewrite Hd.
Qed.

Lemma encode_request_total ssz : Zlen ssz <= MAX_PAYLOAD_SIZE -> exists request, encode_request ssz = Ok request.
Proof. intros H. destruct (encode_framed_ok ssz H) as (p & s & E & _). by exists (p ++ STREAM_IDENTIFIER ++ s). Qed.

Section Served.
Context (self : RequestHandler) (cut : bytes -> list bytes).
Hypothesis cut_delivers : forall request, delivers (cut request) request.

(** A range the server has the history for *)
Record range_available (lookup : Z -> result (option SignedBlock)) (start count : Z) : Prop := {
  ra_lookup : block_by_slot_lookup self = Some lookup;
  ra_current : exists current, current_slot_lookup self = Some current /\ 0 <= current < 2 ^ 64 /\
    current - MIN_SLOTS_FOR_BLOCK_REQUESTS <= start;
  ra_start : 0 <= start;
  ra_count : 1 <= count <= MAX_REQUEST_BLOCKS;
  ra_end : start + count <= max_value 64;
  ra_sendable : forall slot b, start <= slot < start + count -> lookup slot = Ok (Some b) -> sendable b
}.

Lemma handle_range_ok lookup start count :
  range_available lookup start count ->
  handle_blocks_by_range self {| rr_start_slot := start; rr_count := count |}
  = (map block_response (found lookup start (Z.to_nat count)), Ok tt).
Proof.
  intros [Hl (cur & Hcur & Hc & Hw) Hs Hn He Hb]. unfold handle_blocks_by_range. rewrite Hl, Hcur.
  cbn [rr_count rr_start_slot]. rewrite (proj2 (Z.eqb_neq count 0)), (proj2 (Z.ltb_ge _ count)) by lia. cbn [orb].
  set (floor := if _ <=? _ then _ else _).
  assert (exists w, floor = Ok w /\ w <= start) as (w & -> & Hwl).
  { subst floor. destruct (Z.leb_spec MIN_SLOTS_FOR_BLOCK_REQUESTS cur) as [Hm|Hm]; [|by exists 0].
    exists (cur - MIN_SLOTS_FOR_BLOCK_REQUESTS). split; [|done].
    apply uint_new_in_range. unfold in_range, MIN_SLOTS_FOR_BLOCK_REQUESTS in *. lia. }
  unfold lift. cbn [mbind io_bind]. rewrite (proj2 (Z.ltb_ge _ _)) by done. unfold max_value in He.
  rewrite (send_slots_ok lookup start 0); rewrite ?Z.add_0_r, ?Z2Nat.id by lia; try lia; try done.
Qed.

Lemma found_length lookup n : forall slot, (length (found lookup slot n) <= n)%nat.
Proof.
  induction n as [|n IH]; intros slot; [done|]. cbn [found]. rewrite length_app. specialize (IH (slot + 1)).
  destruct (lookup slot) as [[b|]|]; cbn [length]; lia.
Qed.

Lemma found_sendable lookup n : forall slot,
  (forall s b, slot <= s < slot + Z.of_nat n -> lookup s = Ok (Some b) -> sendable b) ->
  Forall sendable (found lookup slot n).
Proof.
  induction n as [|n IH]; intros slot H; [constructor|]. cbn [found]. apply Forall_app_2.
  - destruct (lookup slot) as [[b|]|] eqn:E; constructor; [|constructor]. apply (H slot); [lia|done].
  - apply IH. intros s b Hs. apply H. lia.
Qed.

(** A sent block is decoded; it is accepted or a protocol violation. *)
Lemma read_sent b rest n start stop st : sendable b ->
  read_range_responses (S n) start stop (block_response b :: rest) st = Err CodecError \/
  exists st', rs_blocks st' = rs_blocks st ++ [b] /\
    read_range_responses (S n) start stop (block_response b :: rest) st = read_range_responses n start stop rest st'.
Proof.
  intros (Hv & ssz & E & Hz). destruct (response_ok SUCCESS ssz Hz) as (_ & Ed & H2). cbn [read_range_responses].
  unfold block_response. rewrite E, stream_read_cons by lia. rewrite (proj2 (Z.eqb_neq _ 0)), Ed by lia. mcbn.
  unfold accept_block. rewrite (container_roundtrip_record _ _ wf_SignedBlock Hv E). mcbn.
  destruct (match rs_previous_slot st with Some _ => _ | None => _ end); mcbn; [|by left].
  destruct (negb _); mcbn; [|by left].
  destruct (match rs_previous_root st with Some _ => _ | None => _ end); mcbn; [|by left].
  right. eexists. by split; [|reflexivity].
Qed.

(** What the loop returns from whole responses are their blocks. *)
Lemma read_range_whole start stop : forall blocks n st,
  (length blocks <= n)%nat -> Forall sendable blocks ->
  match read_range_responses n start stop (map block_response blocks) st with
  | Ok (st', _, rest) => rs_blocks st' = rs_blocks st ++ blocks /\ rest = []
  | Err e => e = CodecError
  end.
Proof.
  induction blocks as [|b blocks IH]; intros [|n] st Hn Hb; cbn [length] in Hn; try lia; [by rewrite app_nil_r..|].
  apply Forall_cons in Hb as [Hb Hbs]. cbn [map].
  destruct (read_sent b (map block_response blocks) n start stop st Hb) as [->|(st' & Es & ->)]; [done|].
  specialize (IH n st' ltac:(lia) Hbs). destruct (read_range_responses n start stop _ st') as [[[st2 ended] rest]|e]; [|done].
  destruct IH as [-> ->]. by rewrite Es, <- app_assoc.
Qed.

(** A response of which only a part arrives in a read is a protocol violation. *)
Lemma read_range_part start stop : forall blocks n st b part rest,
  (length blocks < n)%nat -> Forall sendable blocks -> sendable b -> 1 <= Zlen part ->
  part `prefix_of` block_response b -> part <> block_response b ->
  read_range_responses n start stop (map block_response blocks ++ part :: rest) st = Err CodecError.
Proof.
  induction blocks as [|b0 blocks IH]; intros [|n] st b part rest Hn Hb Hs Hp Hpre Hne; cbn [length] in Hn; try lia; cbn [map app].
  - destruct Hs as (_ & ssz & E & Hz). unfold block_response in *. rewrite E in *. cbn [read_range_responses].
    rewrite stream_read_cons, (proj2 (Z.eqb_neq _ 0)) by lia. destruct Hpre as [more Em].
    assert (part = take (length part) (response_of SUCCESS ssz)) as -> by (by rewrite Em, take_app_length).
    rewrite response_cut; [done|done|]. rewrite Em, length_app.
    destruct more as [|x more]; [|cbn [length]; lia]. rewrite app_nil_r in Em. congruence.
  - apply Forall_cons in Hb as [Hb Hbs].
    destruct (read_sent b0 (map block_response blocks ++ part :: rest) n start stop st Hb) as [->|(st' & _ & ->)]; [done|].
    by apply (IH n st' b); [lia|..].
Qed.

Lemma range_outcome arrive lookup start count :
  range_available lookup start count ->
  let responses := map block_response (found lookup start (Z.to_nat count)) in
  request_blocks_by_range (Some (serving self cut arrive)) start count =
  match
    '(st, stream_ended, chunks) ← read_range_responses (Z.to_nat count) start (start + count) (arrive responses) (range_state []);
    if negb stream_ended && negb (Zlen (stream_read chunks).1 =? 0) then Err CodecError else Ok (rs_blocks st)
  with Err CodecError => Err CodecError | Err _ => Ok [] | Ok blocks => Ok blocks end.
Proof.
  intros Ha. cbv zeta. pose proof (handle_range_ok _ _ _ Ha) as Hh.
  destruct Ha as [_ _ Hs Hn He Hb]. unfold max_value in He. unfold request_blocks_by_range.
  rewrite (proj2 (Z.eqb_neq count 0)), (proj2 (Z.ltb_ge _ count)), (proj2 (Z.ltb_ge _ _)) by (unfold max_value; lia).
  destruct (range_request_encodes start count) as (Hv & ssz & E & Hz); [unfold MAX_REQUEST_BLOCKS in Hn; lia..|].
  unfold _do_blocks_by_range_request. rewrite E. mcbn.
  assert (0 < Zlen ssz <= MAX_PAYLOAD_SIZE) as Hz' by (unfold MAX_PAYLOAD_SIZE; lia).
  destruct (encode_request_total ssz) as [request Er]; [lia|]. rewrite Er. mcbn. unfold serving at 1. mcbn.
  rewrite (handle_stream_ok self _ _ ssz request (map block_response (found lookup start (Z.to_nat count)))); try done.
  unfold _dispatch. cbn -[container_decode handle_blocks_by_range].
  rewrite (container_roundtrip_record _ _ wf_range_request Hv E). by rewrite Hh.
Qed.

Lemma available_found lookup start count :
  range_available lookup start count ->
  Forall sendable (found lookup start (Z.to_nat count)) /\ (length (found lookup start (Z.to_nat count)) <= Z.to_nat count)%nat.
Proof.
  intros [_ _ Hs Hn He Hb]. split; [|apply found_length].
  apply found_sendable. intros s b. rewrite Z2Nat.id by lia. apply Hb.
Qed.

(** Whole responses: the blocks, or a violation when they are not a chain. *)
Lemma range_served_whole arrive lookup start count :
  range_available lookup start count ->
  let blocks := found lookup start (Z.to_nat count) in
  arrive (map block_response blocks) = map block_response blocks ->
  (range_chain start count blocks -> request_blocks_by_range (Some (serving self cut arrive)) start count = Ok blocks) /\
  (request_blocks_by_range (Some (serving self cut arrive)) start count = Ok blocks \/
   request_blocks_by_range (Some (serving self cut arrive)) start count = Err CodecError).
Proof.
  cbv zeta. intros Ha Hw. destruct (available_found _ _ _ Ha) as [Hs Hl]. rewrite (range_outcome arrive _ _ _ Ha), Hw. split.
  - intros [_ _ Hslots Hlinked].
    destruct (read_range_ok start (start + count) (Z.to_nat count) (found lookup start (Z.to_nat count)) [])
      as [ended ->]; [done..|]. mcbn. cbn [stream_read fst length]. by rewrite andb_false_r.
  - pose proof (read_range_whole start (start + count) _ (Z.to_nat count) (range_state []) Hl Hs) as Hr.
    destruct (read_range_responses _ _ _ _ _) as [[[st ended] rest]|e]; mcbn; [|subst e; by right].
    destruct Hr as [-> ->]. cbn. rewrite andb_false_r. by left.
Qed.

(** A response that arrives in pieces: a violation. *)
Lemma range_served_part arrive lookup start count k b part rest :
  range_available lookup start count ->
  let blocks := found lookup start (Z.to_nat count) in
  blocks !! k = Some b -> arrive (map block_response blocks) = map block_response (take k blocks) ++ part :: rest ->
  1 <= Zlen part -> part `prefix_of` block_response b -> part <> block_response b ->
  request_blocks_by_range (Some (serving self cut arrive)) start count = Err CodecError.
Proof.
  cbv zeta. intros Ha Hk Hw Hp Hpre Hne. destruct (available_found _ _ _ Ha) as [Hs Hl].
  rewrite (range_outcome arrive _ _ _ Ha), Hw. pose proof (lookup_lt_Some _ _ _ Hk) as Hlt.
  rewrite (read_range_part start (start + count) (take k (found lookup start (Z.to_nat count))) (Z.to_nat count) _ b); try done.
  - rewrite length_take. lia.
  - by apply Forall_take.
  - by eapply (Forall_lookup_1 _ _ _ _ Hs).
Qed.

(** The blocks a lookup finds for a list of roots *)
Definition found_roots (lookup : Bytes32 -> result (option SignedBlock)) (roots : list Bytes32) : list SignedBlock :=
  omap (fun root => match lookup root with Ok b => b | Err _ => None end) roots.

Lemma found_roots_length lookup roots : (length (found_roots lookup roots) <= length roots)%nat.
Proof.
  induction roots as [|root roots IH]; [done|]. unfold found_roots in *. cbn [omap list_omap].
  destruct (lookup root) as [[b|]|]; cbn [length]; lia.
Qed.

Lemma send_roots_ok lookup roots :
  (forall root b, root ∈ roots -> lookup root = Ok (Some b) -> sendable b) ->
  send_roots lookup roots = (map block_response (found_roots lookup roots), Ok tt).
Proof.
  induction roots as [|root roots IH]; intros H; [done|]. cbn [send_roots found_roots omap list_omap].
  rewrite send_found_ok by (intros b; apply (H root); set_solver). cbn [mbind io_bind].
  rewrite IH by (intros r b Hr; apply H; set_solver). by destruct (lookup root) as [[b|]|].
Qed.

Lemma read_roots_ok n : forall blocks acc,
  (length blocks <= n)%nat -> Forall sendable blocks ->
  read_root_responses n (map block_response blocks) acc = Ok (acc ++ blocks).
Proof.
  induction n as [|n IH]; intros [|b blocks] acc Hn Hb; [|cbn in Hn; lia|..]; [by rewrite app_nil_r..|].
  apply Forall_cons in Hb as [(Hv & ssz & E & Hz) Hb]. destruct (response_ok SUCCESS ssz Hz) as (_ & Ed & H2).
  cbn [map read_root_responses]. unfold block_response at 1. rewrite E, stream_read_cons by lia.
  rewrite (proj2 (Z.eqb_neq _ 0)), Ed by lia.
  rewrite (container_roundtrip_record _ _ wf_SignedBlock Hv E), IH by (done || (cbn in Hn; lia)).
  by rewrite <- app_assoc.
Qed.

Lemma roots_served lookup roots :
  block_lookup self = Some lookup -> Forall (fun r => Zlen r = 32) roots -> Zlen roots <= MAX_REQUEST_BLOCKS ->
  (forall root b, root ∈ roots -> lookup root = Ok (Some b) -> sendable b) ->
  request_blocks_by_root (Some (serving self cut whole)) (Ok tt) roots = found_roots lookup roots.
Proof.
  intros Hl Hr Hn Hb. unfold request_blocks_by_root. destruct (Z.eqb_spec (Zlen roots) 0) as [H0|H0].
  { by destruct roots. }
  destruct (root_request_encodes roots Hr Hn) as (Hv & ssz & E & Hz).
  unfold _do_blocks_by_root_request, RequestedBlockRoots_new. rewrite (proj2 (Z.leb_le _ _)) by done. mcbn. rewrite E. mcbn.
  assert (0 < Zlen ssz <= MAX_PAYLOAD_SIZE) as Hz' by (unfold MAX_PAYLOAD_SIZE, MAX_REQUEST_BLOCKS in *; lia).
  destruct (encode_request_total ssz) as [request Er]; [lia|]. rewrite Er. mcbn. unfold serving at 1, whole. mcbn.
  rewrite (handle_stream_ok self _ _ ssz request (map block_response (found_roots lookup roots))); try done.
  - rewrite read_roots_ok; [done|apply found_roots_length|].
    apply Forall_forall. intros b (root & Hroot & Hf)%list_elem_of_omap. apply (Hb root); [done|].
    destruct (lookup root) as [[b'|]|]; [|done..]. by injection Hf as ->.
  - unfold _dispatch. cbn -[container_decode handle_blocks_by_root].
    rewrite (container_roundtrip_record _ _ wf_root_request Hv E). unfold handle_blocks_by_root. rewrite Hl.
    by apply send_roots_ok.
Qed.
End Served.

(** ** A served chain of two blocks with an empty slot between them *)
Definition served_block (slot : Z) (parent_root : Bytes32) : SignedBlock := {|
  sb_block := {| bk_slot := slot; bk_proposer_index := 1; bk_parent_root := parent_root;
                 bk_state_root := repeat Byte.x00 32; bk_body := {| bd_attestations := [] |} |};
  sb_proof := {| mma_proof := [Byte.x2a; Byte.x2b] |}
|}.
Definition served_first : SignedBlock := served_block 5 (repeat Byte.x11 32).
Definition served_root : Bytes32 := Eval vm_compute in hash_tree_root (sb_block served_first).
Definition served_second : SignedBlock := served_block 7 served_root.
Definition served_status : Status := {|
  ss_finalized := {| cp_root := repeat Byte.xff 32; cp_slot := 3 |};
  ss_head := {| cp_root := repeat Byte.x22 32; cp_slot := 7 |}
|}.
Definition served_lookup (slot : Z) : result (option SignedBlock) :=
  if slot =? 4 then Err KeyError
  else Ok (if slot =? 5 then Some served_first else if slot =? 7 then Some served_second else None).
Definition serving_node : RequestHandler := {|
  our_status := Some served_status;
  block_lookup := Some (fun root => Ok (if bool_decide (root = served_root) then Some served_first else None));
  block_by_slot_lookup := Some served_lookup;
  current_slot_lookup := Some 3602
|}.
Definition bytewise (data : bytes) : list bytes := map (fun b => [b]) data.

Lemma bytewise_delivers data : delivers (bytewise data) data.
Proof.
  split; [apply Forall_forall; by intros c (b & -> & _)%list_elem_of_fmap|].
  induction data as [|b data IH]; [done|]. unfold bytewise. cbn [map]. rewrite mjoin_cons. unfold bytewise in IH. by rewrite IH.
Qed.

Lemma served_sendable : sendable served_first /\ sendable served_second.
Proof.
  assert (forall b, ssz_valid b = true -> match container_encode b with Ok s => Zlen s <=? MAX_PAYLOAD_SIZE | _ => false end = true ->
    sendable b) as H.
  { intros b Hv E. split; [done|]. destruct (container_encode b) as [s|]; [|done]. exists s. split; [done|by apply Z.leb_le]. }
  split; apply H; vm_compute; reflexivity.
Qed.

Lemma served_available : range_available serving_node served_lookup 2 6.
Proof.
  split; [done|exists 3602; split; [done|vm_compute; intuition congruence]|lia|vm_compute; intuition congruence
    |vm_compute; discriminate|].
  intros slot b Hs. unfold served_lookup. destruct served_sendable as [H1 H2].
  destruct (slot =? 4); [done|]. destruct (slot =? 5); [intros [= <-]; exact H1|].
  destruct (slot =? 7); [intros [= <-]; exact H2|done].
Qed.

Lemma served_found : found served_lookup 2 (Z.to_nat 6) = [served_first; served_second].
Proof. reflexivity. Qed.

Lemma served_chain : range_chain 2 6 [served_first; served_second].
Proof.
  destruct served_sendable as [[H1 _] [H2 _]].
  split; [done|by repeat constructor|repeat constructor; done|].
  apply (linked_snoc [served_first]). split.
  - intros [|i] ? ?; by cbn.
  - split; [done|vm_compute; reflexivity].
Qed.

(** ** Properties *)

(** Requests and responses within the payload limit round trip through the wire
    codec, a response cut off anywhere is a CodecError, and a larger payload is refused
    by both encoders. *)
Theorem reqresp_roundtrip (code : ResponseCode) (data : bytes) :
  if Zlen data <=? MAX_PAYLOAD_SIZE then
    (exists request, encode_request data = Ok request /\ decode_request request = Ok data) /\
    (exists response, response_encode code data = Ok response /\ response_decode response = Ok (code, data) /\
      forall k, (k < length response)%nat -> response_decode (take k response) = Err CodecError)
  else encode_request data = Err CodecError /\ response_encode code data = Err CodecError.
Proof.
  destruct (Z.leb_spec (Zlen data) MAX_PAYLOAD_SIZE) as [H|H].
  - split.
    + destruct (encode_framed_ok data H) as (prefix & stream & E & Ep & Hf & _). eexists. split; [done|].
      unfold decode_request. pose proof (encode_varint_length _ 10 _ ltac:(done) Ep).
      rewrite (proj2 (Z.eqb_neq _ 0)) by (rewrite length_app; lia). by apply (decode_framed_ok prefix stream data []).
    + destruct (response_ok code data H) as (E & Ed & _). exists (response_of code data).
      split_and!; [done|done|]. intros k. by apply response_cut.
  - assert (_encode_framed data = Err CodecError) as E by (unfold _encode_framed; by rewrite (proj2 (Z.ltb_lt _ _))).
    split; [done|]. unfold response_encode. rewrite E. by destruct code.
Qed.

(** On arbitrary bytes the request and the response decoder return a payload within
    the limit or raise CodecError, and nothing else. *)
Theorem reqresp_decode_errors (data : bytes) :
  ((exists out, decode_request data = Ok out /\ Zlen out <= MAX_PAYLOAD_SIZE) \/ decode_request data = Err CodecError) /\
  ((exists code out, response_decode data = Ok (code, out) /\ Zlen out <= MAX_PAYLOAD_SIZE) \/
   response_decode data = Err CodecError).
Proof.
  split; [|apply response_decode_cases]. unfold decode_request. destruct (negb _); [|by right].
  by apply decode_framed_cases.
Qed.

(** However the transport cuts an encoded request into reads, the server's streaming
    reader recovers exactly the payload, without waiting for the end of the stream. *)
Theorem request_read_from_any_chunks (data request : bytes) (chunks : list bytes) :
  Zlen data <= MAX_PAYLOAD_SIZE -> encode_request data = Ok request -> delivers chunks request ->
  _read_request chunks = Ok data.
Proof. apply read_request_ok. Qed.

Lemma request_read_from_any_chunks_witness :
  let request := match encode_request [Byte.x07; Byte.x00; Byte.x2a] with Ok r => r | Err _ => [] end in
  length request = 22%nat /\ _read_request (map (fun b => [b]) request) = Ok [Byte.x07; Byte.x00; Byte.x2a].
Proof.
  cbn zeta. split; [vm_compute; reflexivity|].
  apply (request_read_from_any_chunks [Byte.x07; Byte.x00; Byte.x2a]
    (match encode_request [Byte.x07; Byte.x00; Byte.x2a] with Ok r => r | Err _ => [] end)).
  - vm_compute. discriminate.
  - vm_compute. reflexivity.
  - split; [vm_compute; repeat constructor; discriminate|vm_compute; reflexivity].
Defined.

Lemma range_requested (connected : option connection) (start count : Z) :
  0 <= count ->
  match request_blocks_by_range connected start count with
  | Ok blocks => range_chain start count blocks
  | Err e => e = CodecError
  end.
Proof.
  intros Hc. unfold request_blocks_by_range. destruct (count =? 0); [by apply range_chain_nil|].
  destruct (_ <? count); [by apply range_chain_nil|]. destruct (_ <? start + count); [by apply range_chain_nil|].
  destruct connected as [c|]; [|by apply range_chain_nil].
  destruct (_do_blocks_by_range_request c start count) as [blocks|e] eqn:E.
  - by eapply do_range_chain.
  - destruct e; try done; by apply range_chain_nil.
Qed.

(** Whatever a peer sends, a range request raises CodecError or returns at most
    [count] well-formed blocks of the requested slots, in increasing slot order, each
    the parent of the next. *)
Theorem range_response_is_a_chain (connected : option connection) (start count : Z) :
  0 <= count ->
  match request_blocks_by_range connected start count with
  | Ok blocks => range_chain start count blocks
  | Err e => e = CodecError
  end.
Proof. apply range_requested. Qed.

Lemma range_response_is_a_chain_witness :
  range_chain 2 6 [served_first; served_second] /\
  match request_blocks_by_range (Some (serving serving_node bytewise whole)) 2 6 with
  | Ok blocks => range_chain 2 6 blocks
  | Err e => e = CodecError
  end.
Proof. split; [exact served_chain|]. apply range_response_is_a_chain. lia. Defined.

(** C18: a range request to an honest node that has the history for it.  Encoded, cut
    anywhere by the transport, read and decoded, it is looked up slot by slot (empty slots
    and failing lookups skipped) and answered with one response per block found.  When each
    response arrives in one read of the client, the client returns exactly the blocks found
    if they form a chain, and otherwise reports a protocol violation; when, after some whole
    responses, a part of one arrives in a read (as of any response longer than a transport
    frame), the client reports a violation of the honest node and the blocks are lost; and
    however the responses arrive, the client returns a chain of the requested slots or
    reports a violation. *)
Theorem range_request_is_served (self : RequestHandler) (cut : bytes -> list bytes) (arrive : list bytes -> list bytes)
    (lookup : Z -> result (option SignedBlock)) (start count : Z) :
  (forall request, delivers (cut request) request) -> range_available self lookup start count ->
  let blocks := found lookup start (Z.to_nat count) in
  let responses := map block_response blocks in
  let outcome := request_blocks_by_range (Some (serving self cut arrive)) start count in
  (arrive responses = responses ->
     (range_chain start count blocks -> outcome = Ok blocks) /\ (~ range_chain start count blocks -> outcome = Err CodecError)) /\
  (forall k b part rest, blocks !! k = Some b -> arrive responses = map block_response (take k blocks) ++ part :: rest ->
     1 <= Zlen part -> part `prefix_of` block_response b -> part <> block_response b -> outcome = Err CodecError) /\
  match outcome with Ok received => range_chain start count received | Err e => e = CodecError end.
Proof.
  intros Hcut Ha. cbv zeta.
  assert (match request_blocks_by_range (Some (serving self cut arrive)) start count with
    | Ok received => range_chain start count received | Err e => e = CodecError end) as Hchain.
  { apply range_requested. destruct (ra_count _ _ _ _ Ha). lia. }
  split_and!; [|intros k b part rest; by apply range_served_part|done].
  intros Hw. destruct (range_served_whole self cut Hcut arrive lookup start count Ha Hw) as [Hok Hor]. split; [done|].
  intros Hn. destruct Hor as [E|E]; [|done]. by rewrite E in Hchain.
Qed.

(** The first three bytes, then the rest *)
Definition after_three (writes : list bytes) : list bytes := [take 3 (mjoin writes)] ++ [drop 3 (mjoin writes)].
Lemma range_request_is_served_witness :
  request_blocks_by_range (Some (serving serving_node bytewise whole)) 2 6 = Ok [served_first; served_second] /\
  request_blocks_by_range (Some (serving serving_node bytewise after_three)) 2 6 = Err CodecError.
Proof.
  destruct (range_request_is_served serving_node bytewise whole served_lookup 2 6 bytewise_delivers served_available) as (H1 & _ & _).
  destruct (range_request_is_served serving_node bytewise after_three served_lookup 2 6 bytewise_delivers served_available) as (_ & H2 & _).
  split.
  - rewrite <- served_found. apply H1; [reflexivity|]. rewrite served_found. exact served_chain.
  - apply (H2 0%nat served_first (take 3 (block_response served_first)) [drop 3 (mjoin (map block_response [served_first; served_second]))]).
    + reflexivity.
    + vm_compute. reflexivity.
    + vm_compute. discriminate.
    + eexists. symmetry. apply take_drop.
    + vm_compute. discriminate.
Defined.

(** A request by roots to an honest node returns exactly the blocks its lookup finds,
    in the order of the roots. *)
Theorem root_request_is_served (self : RequestHandler) (cut : bytes -> list bytes)
    (lookup : Bytes32 -> result (option SignedBlock)) (roots : list Bytes32) :
  (forall request, delivers (cut request) request) ->
  block_lookup self = Some lookup -> Forall (fun r => Zlen r = 32) roots -> Zlen roots <= MAX_REQUEST_BLOCKS ->
  (forall root b, root ∈ roots -> lookup root = Ok (Some b) -> sendable b) ->
  request_blocks_by_root (Some (serving self cut whole)) (Ok tt) roots = found_roots lookup roots.
Proof. intros Hcut. by apply roots_served. Qed.

Lemma root_request_is_served_witness :
  request_blocks_by_root (Some (serving serving_node bytewise whole)) (Ok tt) [repeat Byte.x33 32; served_root] = [served_first].
Proof.
  rewrite (root_request_is_served serving_node bytewise
    (fun root => Ok (if bool_decide (root = served_root) then Some served_first else None))).
  - vm_compute. reflexivity.
  - exact bytewise_delivers.
  - reflexivity.
  - repeat constructor.
  - vm_compute. discriminate.
  - intros root b _. destruct (bool_decide _); [|done]. intros [= <-]. exact (proj1 served_sendable).
Defined.

(** A response that reaches the client in two reads, as any response longer than one
    transport frame does, is a protocol violation for the range client: the block is
    lost and the honest peer is reported. *)
Theorem split_response_is_a_violation (b : SignedBlock) (k : nat) (rest : list bytes) (start count : Z) :
  sendable b -> (0 < k < length (block_response b))%nat -> 1 <= count <= MAX_REQUEST_BLOCKS ->
  0 <= start -> start + count <= max_value 64 ->
  request_blocks_by_range (Some (fun _ _ => Ok (take k (block_response b) :: rest))) start count = Err CodecError.
Proof.
  intros (_ & ssz & E & Hz) Hk Hc Hs He. unfold block_response in *. rewrite E in *.
  unfold request_blocks_by_range.
  rewrite (proj2 (Z.eqb_neq count 0)), (proj2 (Z.ltb_ge _ count)), (proj2 (Z.ltb_ge _ _)) by lia.
  destruct (range_request_encodes start count) as (_ & req & Er & Hr);
    [unfold max_value, MAX_REQUEST_BLOCKS in *; lia..|].
  unfold _do_blocks_by_range_request. rewrite Er. mcbn.
  destruct (encode_request_total req) as [wire ->]; [unfold MAX_PAYLOAD_SIZE; lia|]. mcbn.
  destruct (Z.to_nat count) as [|n] eqn:En; [lia|]. cbn [read_range_responses].
  assert (Zlen (take k (response_of SUCCESS ssz)) <> 0) as Hn by (rewrite length_take; lia).
  rewrite stream_read_cons by done. rewrite (proj2 (Z.eqb_neq _ 0)) by done. by rewrite response_cut by (done || lia).
Qed.

(** A stream that ends before its length prefix is complete reaches the dispatcher as it
    is: bytes that the request decoder refuses are answered as a Status request. *)
Theorem unframed_status_is_answered :
  exists raw, container_encode served_status = Ok raw /\ decode_request raw = Err CodecError /\
    handle_stream serving_node [raw] STATUS_PROTOCOL_V1 = [response_of SUCCESS raw].
Proof. eexists. split; [vm_compute; reflexivity|]. split; vm_compute; reflexivity. Qed.
