(* ===== verification/BlockCache.v ===== *)
(** * The block cache of the sync service (node/sync/block_cache.py)

    Blocks whose parent is unknown wait here: an insertion-ordered dict with oldest-first
    eviction, an index from parent to children and the set of orphans.  [cache_inv] says
    that the index and the orphan set describe exactly the cached blocks. *)

From S2P Require Import Prelude Pydict Uint Ssz Sha256 Merkle Containers Proofs.

Definition MAX_CACHED_BLOCKS : Z := 1024.
Definition MAX_BACKFILL_DEPTH : Z := 512.
Abbreviation PeerId := bytes.

Record PendingBlock := {
  pb_block : SignedBlock;
  pb_root : Bytes32;
  pb_parent_root : Bytes32;
  pb_slot : Z;
  pb_received_from : option PeerId;
  pb_backfill_depth : Z
}.

Record BlockCache := {
  bc_blocks : dict Bytes32 PendingBlock;
  bc_orphans : list Bytes32;
  bc_by_parent : dict Bytes32 (list Bytes32)
}.

Definition cache_mem (root : Bytes32) (self : BlockCache) : bool := dmem root (bc_blocks self).

Definition mark_orphan (root : Bytes32) (self : BlockCache) : BlockCache :=
  if cache_mem root self
  then {| bc_blocks := bc_blocks self; bc_orphans := sadd root (bc_orphans self); bc_by_parent := bc_by_parent self |}
  else self.

(** Drop a child from its parent's set, and the set once it is empty. *)
Definition detach (parent_root root : Bytes32) (by_parent : dict Bytes32 (list Bytes32))
    : dict Bytes32 (list Bytes32) :=
  match dget parent_root by_parent with
  | None | Some [] => by_parent
  | Some siblings =>
      match sdiscard root siblings with
      | [] => ddel parent_root by_parent
      | siblings => dset parent_root siblings by_parent
      end
  end.

(** The eviction inside [add]; the cache is full, so [popitem] has an item to pop. *)
Definition evict_oldest (self : BlockCache) : BlockCache :=
  match bc_blocks self with
  | [] => self
  | (evicted_root, evicted) :: rest =>
      let by_parent := detach (pb_parent_root evicted) evicted_root (bc_by_parent self) in
      foldl (fun self child_root => mark_orphan child_root self)
        {| bc_blocks := rest; bc_orphans := sdiscard evicted_root (bc_orphans self); bc_by_parent := by_parent |}
        (default [] (dget evicted_root by_parent))
  end.

Definition cache_add (block : SignedBlock) (peer : option PeerId) (backfill_depth : Z) (self : BlockCache)
    : PendingBlock * BlockCache :=
  let block_inner := sb_block block in
  let root := hash_tree_root block_inner in
  match dget root (bc_blocks self) with
  | Some existing => (existing, self)
  | None =>
      let self := if MAX_CACHED_BLOCKS <=? Zlen (bc_blocks self) then evict_oldest self else self in
      let pending := {| pb_block := block; pb_root := root; pb_parent_root := bk_parent_root block_inner;
                        pb_slot := bk_slot block_inner; pb_received_from := peer;
                        pb_backfill_depth := backfill_depth |} in
      let siblings := default [] (dget (bk_parent_root block_inner) (bc_by_parent self)) in
      (pending,
       {| bc_blocks := dset root pending (bc_blocks self); bc_orphans := bc_orphans self;
          bc_by_parent := dset (bk_parent_root block_inner) (sadd root siblings) (bc_by_parent self) |})
  end.

Definition cache_remove (root : Bytes32) (self : BlockCache) : option PendingBlock * BlockCache :=
  match dget root (bc_blocks self) with
  | None => (None, self)
  | Some pending =>
      (Some pending,
       {| bc_blocks := ddel root (bc_blocks self); bc_orphans := sdiscard root (bc_orphans self);
          bc_by_parent := detach (pb_parent_root pending) root (bc_by_parent self) |})
  end.

(** [sorted(children, key=lambda pending: pending.slot)], a stable sort *)
Fixpoint insert_pending (p : PendingBlock) (l : list PendingBlock) : list PendingBlock :=
  match l with
  | [] => [p]
  | q :: l' => if pb_slot p <=? pb_slot q then p :: l else q :: insert_pending p l'
  end.
Definition sorted_by_slot (l : list PendingBlock) : list PendingBlock := foldr insert_pending [] l.

Definition get_children `{SetOrder} (parent_root : Bytes32) (self : BlockCache) : list PendingBlock :=
  let child_roots := default [] (dget parent_root (bc_by_parent self)) in
  sorted_by_slot (omap (fun root => dget root (bc_blocks self)) (set_iter child_roots)).

Definition orphan_count (self : BlockCache) : Z := Zlen (bc_orphans self).

Definition empty_cache : BlockCache := {| bc_blocks := []; bc_orphans := []; bc_by_parent := [] |}.

(** ** The invariant *)

(** The metadata of an entry is that of its block, and the entry is filed under its root. *)
Record entry_consistent (root : Bytes32) (p : PendingBlock) : Prop := {
  ec_key : pb_root p = root;
  ec_root : hash_tree_root (sb_block (pb_block p)) = root;
  ec_parent : pb_parent_root p = bk_parent_root (sb_block (pb_block p));
  ec_slot : pb_slot p = bk_slot (sb_block (pb_block p))
}.

Definition children_of (parent : Bytes32) (by_parent : dict Bytes32 (list Bytes32)) : list Bytes32 :=
  default [] (dget parent by_parent).

(** The parent index describes the blocks, with no empty sets left behind. *)
Record index_ok (blocks : dict Bytes32 PendingBlock) (by_parent : dict Bytes32 (list Bytes32)) : Prop := {
  ix_children parent r : r ∈ children_of parent by_parent <->
    exists p, dget r blocks = Some p /\ pb_parent_root p = parent;
  ix_sets parent l : dget parent by_parent = Some l -> l <> [] /\ NoDup l
}.

Record cache_inv (self : BlockCache) : Prop := {
  ci_wf : dict_wf (bc_blocks self);
  ci_entry r p : dget r (bc_blocks self) = Some p -> entry_consistent r p;
  ci_orphans r : r ∈ bc_orphans self -> is_Some (dget r (bc_blocks self));
  ci_orphan_set : NoDup (bc_orphans self);
  ci_index : index_ok (bc_blocks self) (bc_by_parent self);
  ci_size : Zlen (bc_blocks self) <= MAX_CACHED_BLOCKS
}.

Lemma empty_cache_inv : cache_inv empty_cache.
Proof.
  split; cbn; try done; [constructor|by intros r ?%elem_of_nil|constructor|].
  split; [|done]. intros parent r. cbn. split; [by intros ?%elem_of_nil|]. by intros (p & ? & _).
Qed.

(** ** Removal from the index *)
Lemma children_detach parent root p r by_parent :
  r ∈ children_of p (detach parent root by_parent) <-> r ∈ children_of p by_parent /\ ~ (p = parent /\ r = root).
Proof.
  unfold detach, children_of. destruct (dget parent by_parent) as [[|s0 s]|] eqn:E.
  - split; [|by intros [? _]]. intros Hr. split; [done|]. intros [-> ->]. rewrite E in Hr. by apply elem_of_nil in Hr.
  - set (siblings := s0 :: s) in *.
    pose proof (elem_of_sdiscard root r siblings) as Hd.
    destruct (decide (p = parent)) as [->|Hne].
    + rewrite E. cbn [default]. destruct (sdiscard root siblings) as [|s1 s'] eqn:Es.
      * rewrite dget_ddel, decide_True by done. cbn [default]. rewrite Hd. naive_solver.
      * rewrite dget_dset_eq. cbn [default]. rewrite Hd. naive_solver.
    + destruct (sdiscard root siblings) as [|s1 s'].
      * rewrite dget_ddel, decide_False by done. naive_solver.
      * rewrite dget_dset_ne by done. naive_solver.
  - split; [|by intros [? _]]. intros Hr. split; [done|]. intros [-> ->]. rewrite E in Hr. by apply elem_of_nil in Hr.
Qed.

Lemma detach_sets parent root by_parent :
  (forall p l, dget p by_parent = Some l -> l <> [] /\ NoDup l) ->
  forall p l, dget p (detach parent root by_parent) = Some l -> l <> [] /\ NoDup l.
Proof.
  intros H p l. unfold detach. destruct (dget parent by_parent) as [[|s0 s]|] eqn:E; [by apply H| |by apply H].
  pose proof (NoDup_sdiscard root _ (proj2 (H _ _ E))) as Hn.
  destruct (sdiscard root (s0 :: s)) as [|s1 s'].
  - rewrite dget_ddel. case_decide; [done|]. apply H.
  - rewrite dget_dset. case_decide; [|apply H]. by intros [= <-].
Qed.

Lemma index_remove blocks by_parent root pending :
  index_ok blocks by_parent -> dget root blocks = Some pending ->
  index_ok (ddel root blocks) (detach (pb_parent_root pending) root by_parent).
Proof.
  intros [Hc Hs] E. split; [|by apply detach_sets]. intros parent r. rewrite children_detach, Hc, dget_ddel. split.
  - intros [(p & Ep & Hp) Hn]. exists p. case_decide; [|done]. subst r. rewrite E in Ep. injection Ep as <-. by destruct Hn.
  - case_decide; intros (p & Ep & Hp); [done|]. split; [by exists p|]. tauto.
Qed.

Lemma index_insert blocks by_parent root p :
  index_ok blocks by_parent -> dget root blocks = None ->
  index_ok (dset root p blocks)
    (dset (pb_parent_root p) (sadd root (children_of (pb_parent_root p) by_parent)) by_parent).
Proof.
  intros [Hc Hs] E. split.
  - intros parent r. unfold children_of at 1. rewrite !dget_dset. destruct (decide (parent = pb_parent_root p)) as [->|Hne].
    + cbn [default id]. rewrite elem_of_sadd, Hc. case_decide as Hr; [|naive_solver]. subst r. naive_solver.
    + fold (children_of parent by_parent). rewrite Hc. case_decide as Hr; [|done]. subst r. naive_solver.
  - intros parent l. rewrite dget_dset. case_decide; [|apply Hs]. intros [= <-]. split.
    + intros Hn. assert (root ∈ @nil Bytes32) as Hin by (rewrite <- Hn; apply elem_of_sadd; by left).
      by apply elem_of_nil in Hin.
    + apply NoDup_sadd. unfold children_of. destruct (dget _ by_parent) eqn:El; [by eapply Hs|constructor].
Qed.

(** ** The operations keep the invariant *)
Lemma mark_orphan_blocks r self :
  bc_blocks (mark_orphan r self) = bc_blocks self /\ bc_by_parent (mark_orphan r self) = bc_by_parent self.
Proof. unfold mark_orphan. by destruct (cache_mem r self). Qed.

Lemma mark_orphan_inv r self : cache_inv self -> cache_inv (mark_orphan r self).
Proof.
  intros [Hw He Ho Hn Hi Hs]. unfold mark_orphan, cache_mem. destruct (dmem r (bc_blocks self)) eqn:E; [|by split].
  split; cbn; try done; [|by apply NoDup_sadd].
  intros q [->|Hq]%elem_of_sadd; [by apply dmem_true|by apply Ho].
Qed.

Lemma mark_orphans_inv l self : cache_inv self -> cache_inv (foldl (fun self r => mark_orphan r self) self l).
Proof. revert self. induction l as [|r l IH]; intros self H; [done|]. by apply IH, mark_orphan_inv. Qed.

Lemma mark_orphans_blocks l self :
  bc_blocks (foldl (fun self r => mark_orphan r self) self l) = bc_blocks self.
Proof.
  revert self. induction l as [|r l IH]; intros self; [done|]. cbn. rewrite IH. apply mark_orphan_blocks.
Qed.

Lemma ddel_length {V} root (d : dict Bytes32 V) v :
  dict_wf d -> dget root d = Some v -> length d = S (length (ddel root d)).
Proof.
  unfold ddel, dict_wf, dkeys. induction d as [|[k w] d IH]; [done|]. cbn [fmap list_fmap dget].
  intros [Hn Hd]%NoDup_cons. rewrite filter_cons. cbn [fst]. case_decide as Hk.
  - intros _. subst k. rewrite decide_False by naive_solver. cbn. f_equal.
    assert (forall d' : dict Bytes32 V, root ∉ d'.*1 -> filter (fun p => p.1 <> root) d' = d') as ->; [|done|done].
    clear. induction d' as [|[k w] d' IH]; [done|]. cbn [fmap list_fmap fst]. intros [Hne Hn]%not_elem_of_cons.
    rewrite filter_cons, decide_True by naive_solver. by rewrite IH.
  - intros E. rewrite decide_True by naive_solver. cbn. f_equal. by apply IH.
Qed.

Lemma cache_remove_inv root self : cache_inv self -> cache_inv (cache_remove root self).2.
Proof.
  intros [Hw He Ho Hn Hi Hs]. unfold cache_remove. destruct (dget root (bc_blocks self)) as [p|] eqn:E; [|by split].
  split; cbn.
  - by apply ddel_wf.
  - intros r q. rewrite dget_ddel. case_decide; [done|]. apply He.
  - intros r [Hr Hne]%elem_of_sdiscard. rewrite dget_ddel, decide_False by done. by apply Ho.
  - by apply NoDup_sdiscard.
  - by apply index_remove.
  - pose proof (ddel_length _ _ _ Hw E). lia.
Qed.

(** Eviction removes the oldest block and marks its children. *)
Lemma evict_oldest_eq self root p rest :
  dict_wf (bc_blocks self) -> bc_blocks self = (root, p) :: rest ->
  evict_oldest self = foldl (fun self r => mark_orphan r self) (cache_remove root self).2
    (children_of root (bc_by_parent (cache_remove root self).2)).
Proof.
  intros Hw E. unfold evict_oldest, cache_remove. rewrite E. cbn [dget]. rewrite decide_True by done. cbn [snd bc_by_parent].
  f_equal. f_equal. unfold ddel. rewrite filter_cons, decide_False by naive_solver.
  unfold dict_wf, dkeys in Hw. rewrite E in Hw. cbn in Hw. apply NoDup_cons in Hw as [Hn _].
  symmetry. clear -Hn. induction rest as [|[k w] rest IH]; [done|]. cbn in Hn. apply not_elem_of_cons in Hn as [Hne Hn].
  rewrite filter_cons, decide_True by naive_solver. by rewrite IH.
Qed.

Lemma evict_oldest_inv self : cache_inv self -> cache_inv (evict_oldest self).
Proof.
  intros H. destruct (bc_blocks self) as [|[root p] rest] eqn:E; [by unfold evict_oldest; rewrite E|].
  rewrite (evict_oldest_eq _ _ _ _ (ci_wf _ H) E). by apply mark_orphans_inv, cache_remove_inv.
Qed.

Lemma evict_oldest_blocks self root p rest : bc_blocks self = (root, p) :: rest -> bc_blocks (evict_oldest self) = rest.
Proof. intros E. unfold evict_oldest. rewrite E. apply mark_orphans_blocks. Qed.

Lemma cache_add_inv block peer depth self : cache_inv self -> cache_inv (cache_add block peer depth self).2.
Proof.
  intros H. unfold cache_add. destruct (dget _ (bc_blocks self)) eqn:E; [done|]. cbn [snd].
  set (self' := if _ <=? _ then _ else _).
  assert (cache_inv self' /\ Zlen (bc_blocks self') < MAX_CACHED_BLOCKS /\
          dget (hash_tree_root (sb_block block)) (bc_blocks self') = None) as ([Hw He Ho Hn Hi Hs] & Hl & En).
  { subst self'. destruct (Z.leb_spec MAX_CACHED_BLOCKS (Zlen (bc_blocks self))) as [Hle|]; [|done].
    destruct (bc_blocks self) as [|[root p] rest] eqn:Eb; [done|].
    split; [by apply evict_oldest_inv|]. rewrite (evict_oldest_blocks _ _ _ _ Eb).
    pose proof (ci_size _ H) as Hs. rewrite Eb in Hs. cbn [length] in Hs. split; [lia|].
    cbn [dget] in E. by case_decide. }
  split; cbn.
  - by apply dset_wf.
  - intros r q. rewrite dget_dset. case_decide; [|apply He]. intros [= <-]. by subst.
  - intros r Hr. rewrite dget_dset. case_decide; [done|]. by apply Ho.
  - done.
  - by apply (index_insert _ _ (hash_tree_root (sb_block block))
      {| pb_block := block; pb_root := _; pb_parent_root := _; pb_slot := _; pb_received_from := peer; pb_backfill_depth := depth |}).
  - rewrite dset_notin by (by apply dget_None). rewrite length_app. cbn [length]. lia.
Qed.

(** The block is cached afterwards, under its root. *)
Lemma cache_add_cached block peer depth self :
  cache_inv self ->
  let '(pending, self') := cache_add block peer depth self in
  dget (hash_tree_root (sb_block block)) (bc_blocks self') = Some pending /\
  pb_root pending = hash_tree_root (sb_block block).
Proof.
  intros H. unfold cache_add. destruct (dget _ (bc_blocks self)) eqn:E.
  - split; [done|]. by apply (ci_entry _ H).
  - split; [|done]. cbn. by rewrite dget_dset_eq.
Qed.

(** ** Children in slot order *)
Definition slot_le (p q : PendingBlock) : Prop := pb_slot p <= pb_slot q.
#[export] Instance slot_le_trans : Transitive slot_le.
Proof. intros p q r. unfold slot_le. lia. Qed.

Lemma insert_pending_perm p l : insert_pending p l ≡ₚ p :: l.
Proof.
  induction l as [|q l IH]; [done|]. cbn. destruct (_ <=? _); [done|]. rewrite IH. by apply perm_swap.
Qed.
Lemma sorted_by_slot_perm l : sorted_by_slot l ≡ₚ l.
Proof. induction l as [|p l IH]; [done|]. cbn. by rewrite insert_pending_perm, IH. Qed.

Lemma insert_pending_sorted p l : StronglySorted slot_le l -> StronglySorted slot_le (insert_pending p l).
Proof.
  induction 1 as [|q l Hl IH Hq]; cbn; [repeat constructor|]. destruct (Z.leb_spec (pb_slot p) (pb_slot q)) as [Hle|Hlt].
  - constructor; [by constructor|]. constructor; [done|]. eapply Forall_impl; [exact Hq|]. intros r. unfold slot_le. lia.
  - constructor; [done|]. rewrite insert_pending_perm. constructor; [unfold slot_le; lia|done].
Qed.
Lemma sorted_by_slot_sorted l : StronglySorted slot_le (sorted_by_slot l).
Proof. induction l as [|p l IH]; [constructor|]. by apply insert_pending_sorted. Qed.

Section Children.
Context `{SetOrder}.

Lemma elem_of_get_children parent self p :
  cache_inv self ->
  p ∈ get_children parent self <-> dget (pb_root p) (bc_blocks self) = Some p /\ pb_parent_root p = parent.
Proof.
  intros Hi. unfold get_children. rewrite sorted_by_slot_perm, list_elem_of_omap. fold (children_of parent (bc_by_parent self)).
  setoid_rewrite set_iter_perm. setoid_rewrite (ix_children _ _ (ci_index _ Hi)). split.
  - intros (r & (q & Eq & Hq) & Ep). rewrite Ep in Eq. injection Eq as <-. by rewrite (ec_key _ _ (ci_entry _ Hi _ _ Ep)).
  - intros [E Hp]. exists (pb_root p). split; [by exists p|done].
Qed.

(** The cached children of a parent, each once, in slot order *)
Lemma get_children_perm parent self :
  cache_inv self ->
  get_children parent self ≡ₚ filter (fun p => pb_parent_root p = parent) (dvalues (bc_blocks self)).
Proof.
  intros Hi. apply NoDup_Permutation.
  - unfold get_children. rewrite sorted_by_slot_perm.
    assert (NoDup (set_iter (default [] (dget parent (bc_by_parent self))))) as Hn.
    { rewrite set_iter_perm. destruct (dget parent _) eqn:E; [|constructor]. by eapply (ix_sets _ _ (ci_index _ Hi)). }
    revert Hn. induction (set_iter _) as [|r l IH]; [constructor|]. intros [Hr Hl]%NoDup_cons. cbn.
    destruct (dget r (bc_blocks self)) as [p|] eqn:E; [|by apply IH]. constructor; [|by apply IH].
    intros (r' & Hr' & E')%list_elem_of_omap. apply Hr.
    rewrite <- (ec_key _ _ (ci_entry _ Hi _ _ E)). by rewrite (ec_key _ _ (ci_entry _ Hi _ _ E')).
  - apply NoDup_filter. unfold dvalues. pose proof (ci_wf _ Hi) as Hw. pose proof (ci_entry _ Hi) as He.
    assert (forall r p, (r, p) ∈ bc_blocks self -> pb_root p = r) as Hk.
    { intros r p Hin. by apply (ec_key _ _ (He _ _ (In_dget _ _ _ Hw Hin))). }
    clear -Hw Hk. unfold dict_wf, dkeys in Hw. induction (bc_blocks self) as [|[r p] d IH]; [constructor|].
    cbn in *. apply NoDup_cons in Hw as [Hn Hw]. constructor; [|apply IH; [done|intros; apply Hk; by right]].
    intros ([r' p'] & Heq & Hin)%list_elem_of_fmap. cbn in Heq. subst p'. apply Hn.
    rewrite <- (Hk r p) by left. rewrite (Hk r' p) by (by right). by apply (list_elem_of_fmap_2 fst) in Hin.
  - intros p. rewrite (elem_of_get_children _ _ _ Hi), list_elem_of_filter. unfold dvalues. split.
    + intros [E Hp]. split; [done|]. apply dget_In in E. by apply (list_elem_of_fmap_2 snd) in E.
    + intros [Hp ([r q] & Heq & Hin)%list_elem_of_fmap]. cbn in Heq. subst q.
      apply (In_dget _ _ _ (ci_wf _ Hi)) in Hin. by rewrite (ec_key _ _ (ci_entry _ Hi _ _ Hin)).
Qed.
End Children.

(** ** Runs of the cache *)
Inductive cache_op :=
| OpAdd (block : SignedBlock) (peer : option PeerId) (backfill_depth : Z)
| OpRemove (root : Bytes32)
| OpMarkOrphan (root : Bytes32).

Definition cache_step (self : BlockCache) (op : cache_op) : BlockCache :=
  match op with
  | OpAdd block peer depth => (cache_add block peer depth self).2
  | OpRemove root => (cache_remove root self).2
  | OpMarkOrphan root => mark_orphan root self
  end.

Lemma cache_step_inv self op : cache_inv self -> cache_inv (cache_step self op).
Proof. destruct op; [apply cache_add_inv|apply cache_remove_inv|apply mark_orphan_inv]. Qed.

Lemma cache_run_inv ops self : cache_inv self -> cache_inv (foldl cache_step self ops).
Proof. revert self. induction ops as [|op ops IH]; intros self H; [done|]. by apply IH, cache_step_inv. Qed.

(** After any sequence of insertions, removals and orphan marks the cache holds at
    most its limit of blocks, each under its own root with its own metadata, the orphans
    are cached blocks, and the parent index is exact: the children of every parent are
    the cached blocks that name it, each once, in slot order. *)
Theorem block_cache_consistent `{SetOrder} (ops : list cache_op) (parent : Bytes32) :
  let self := foldl cache_step empty_cache ops in
  cache_inv self /\
  get_children parent self ≡ₚ filter (fun p => pb_parent_root p = parent) (dvalues (bc_blocks self)) /\
  StronglySorted slot_le (get_children parent self).
Proof.
  cbn zeta. pose proof (cache_run_inv ops _ empty_cache_inv) as Hi.
  split; [done|]. split; [by apply get_children_perm|apply sorted_by_slot_sorted].
Qed.
