(* ===== verification/PeerManager.v ===== *)
(** * Peers of the sync service (node/sync/peer_manager.py, node/networking/peer.py)

    Chain status, reputation and requests in flight of every peer, the weighted choice of
    a peer for a request and the estimate of the network's finalized slot. *)

From S2P Require Import Prelude Pydict Uint Ssz Sha256 Merkle Containers Proofs SszRecords.
From S2P Require Import Varint Snappy ReqResp BlockCache.

Definition INITIAL_PEER_SCORE : Z := 100.
Definition MIN_PEER_SCORE : Z := 0.
Definition MAX_PEER_SCORE : Z := 200.
Definition SCORE_SUCCESS_BONUS : Z := 10.
Definition SCORE_FAILURE_PENALTY : Z := 20.
Definition MAX_CONCURRENT_REQUESTS : Z := 2.

Inductive ConnectionState := DISCONNECTED | CONNECTING | CONNECTED | DISCONNECTING.
#[export] Instance ConnectionState_eq_dec : EqDecision ConnectionState.
Proof. solve_decision. Defined.

(** The fields that sync reads *)
Record PeerInfo := { pi_peer_id : PeerId; pi_state : ConnectionState }.
Definition is_connected (info : PeerInfo) : bool := bool_decide (pi_state info = CONNECTED).

Record SyncPeer := {
  sp_info : PeerInfo;
  sp_status : option Status;
  sp_requests_in_flight : Z;
  sp_score : Z
}.
Abbreviation Peers := (dict PeerId SyncPeer).

Definition is_available (p : SyncPeer) : bool :=
  is_connected (sp_info p) && (sp_requests_in_flight p <? MAX_CONCURRENT_REQUESTS).
Definition has_slot (p : SyncPeer) (slot : Z) : bool :=
  match sp_status p with Some s => slot <=? cp_slot (ss_head s) | None => false end.

Definition on_request_start (p : SyncPeer) : SyncPeer := {|
  sp_info := sp_info p; sp_status := sp_status p;
  sp_requests_in_flight := sp_requests_in_flight p + 1; sp_score := sp_score p |}.
Definition record_success (p : SyncPeer) : SyncPeer := {|
  sp_info := sp_info p; sp_status := sp_status p;
  sp_requests_in_flight := Z.max 0 (sp_requests_in_flight p - 1);
  sp_score := Z.min (sp_score p + SCORE_SUCCESS_BONUS) MAX_PEER_SCORE |}.
Definition record_failure (p : SyncPeer) : SyncPeer := {|
  sp_info := sp_info p; sp_status := sp_status p;
  sp_requests_in_flight := Z.max 0 (sp_requests_in_flight p - 1);
  sp_score := Z.max (sp_score p - SCORE_FAILURE_PENALTY) MIN_PEER_SCORE |}.

(** A peer object is shared with the dict: a mutation is an update of its entry. *)
Definition update_peer (peer_id : PeerId) (f : SyncPeer -> SyncPeer) (peers : Peers) : Peers :=
  match dget peer_id peers with Some p => dset peer_id (f p) peers | None => peers end.

Definition add_peer (info : PeerInfo) (peers : Peers) : Peers :=
  match dget (pi_peer_id info) peers with
  | Some p => dset (pi_peer_id info) {| sp_info := info; sp_status := sp_status p;
      sp_requests_in_flight := sp_requests_in_flight p; sp_score := sp_score p |} peers
  | None => dset (pi_peer_id info) {| sp_info := info; sp_status := None; sp_requests_in_flight := 0;
      sp_score := INITIAL_PEER_SCORE |} peers
  end.
Definition remove_peer (peer_id : PeerId) (peers : Peers) : Peers := ddel peer_id peers.
Definition update_status (peer_id : PeerId) (status : Status) (peers : Peers) : Peers :=
  update_peer peer_id (fun p => {| sp_info := sp_info p; sp_status := Some status;
    sp_requests_in_flight := sp_requests_in_flight p; sp_score := sp_score p |}) peers.
Definition on_request_success (peer_id : PeerId) (peers : Peers) : Peers := update_peer peer_id record_success peers.
Definition on_request_failure (peer_id : PeerId) (peers : Peers) : Peers := update_peer peer_id record_failure peers.

(** [random.choices(candidates, weights=weights, k=1)[0]]: the first candidate whose
    cumulative weight exceeds a number drawn below the total *)
Fixpoint choose {A} (weighted : list (A * Z)) (r : Z) : option A :=
  match weighted with
  | [] => None
  | (a, w) :: rest => if r <? w then Some a else choose rest (r - w)
  end.
Fixpoint total_weight {A} (weighted : list (A * Z)) : Z :=
  match weighted with [] => 0 | (_, w) :: rest => w + total_weight rest end.

Definition candidates (min_slot : option Z) (peers : Peers) : list SyncPeer :=
  filter (fun p => is_available p && match min_slot with Some s => has_slot p s | None => true end = true) (dvalues peers).

(** [draw] is the outcome of the generator: any number, taken modulo the total weight. *)
Definition select_peer_for_request (min_slot : option Z) (draw : Z) (peers : Peers) : option SyncPeer :=
  let weighted := map (fun p => (p, Z.max (sp_score p) 1)) (candidates min_slot peers) in
  match weighted with
  | [] => None
  | _ => choose weighted (draw mod total_weight weighted)
  end.

(** [collections.Counter] over the reported slots, and the key of [max] *)
Definition reported_finalized_slots (peers : Peers) : list Z :=
  omap (fun p => if is_connected (sp_info p) then (fun s => cp_slot (ss_finalized s)) <$> sp_status p else None)
    (dvalues peers).
Definition slot_count (slots : list Z) (slot : Z) : Z := Zlen (filter (fun s => s = slot) slots).
Definition report_gtb (slots : list Z) (a b : Z) : bool :=
  (slot_count slots b <? slot_count slots a) || ((slot_count slots b =? slot_count slots a) && (b <? a)).
Definition get_network_finalized_slot (peers : Peers) : option Z :=
  let slots := reported_finalized_slots peers in
  match set_of slots with
  | [] => None
  | first :: rest => Some (foldl (fun best s => if report_gtb slots s best then s else best) first rest)
  end.

(** ** Choice *)
Lemma choose_elem {A} (weighted : list (A * Z)) r :
  0 <= r < total_weight weighted -> exists a w, choose weighted r = Some a /\ (a, w) ∈ weighted.
Proof.
  revert r. induction weighted as [|[a w] l IH]; intros r Hr; cbn in *; [lia|].
  destruct (Z.ltb_spec r w); [exists a, w; split; [done|left]|].
  destruct (IH (r - w)) as (a' & w' & E & Hin); [lia|]. exists a', w'. split; [done|by right].
Qed.

(** Every candidate of positive weight can be drawn. *)
Lemma choose_surjective {A} (weighted : list (A * Z)) a w :
  Forall (fun e => 1 <= e.2) weighted -> (a, w) ∈ weighted ->
  exists r, 0 <= r < total_weight weighted /\ choose weighted r = Some a.
Proof.
  induction 1 as [|[b v] l Hb Hl IH]; intros Hin; [by apply elem_of_nil in Hin|].
  assert (0 <= total_weight l) as Ht.
  { clear -Hl. induction Hl as [|[? ?] ? ? ? IH]; cbn in *; lia. }
  cbn [snd] in Hb. apply elem_of_cons in Hin as [[= <- <-]|Hin].
  - exists 0. cbn [choose total_weight snd]. split; [lia|]. by rewrite (proj2 (Z.ltb_lt _ _)) by lia.
  - destruct (IH Hin) as (r & Hr & E). exists (v + r). cbn [choose total_weight snd].
    split; [lia|]. rewrite (proj2 (Z.ltb_ge _ _)) by lia. by replace (v + r - v) with r by lia.
Qed.

Definition request_candidate (min_slot : option Z) (peers : Peers) (p : SyncPeer) : Prop :=
  p ∈ dvalues peers /\ is_available p = true /\ forall s, min_slot = Some s -> has_slot p s = true.

Lemma elem_of_candidates min_slot peers p : p ∈ candidates min_slot peers <-> request_candidate min_slot peers p.
Proof.
  unfold candidates, request_candidate. rewrite list_elem_of_filter, andb_true_iff. split.
  - intros [[Ha Hs] Hin]. split_and!; [done|done|]. by intros s ->.
  - intros (Hin & Ha & Hs). split_and!; [done| |done]. destruct min_slot; [by apply Hs|done].
Qed.

Lemma candidate_weights peers l :
  l = map (fun p => (p, Z.max (sp_score p) 1)) peers -> Forall (fun e : SyncPeer * Z => 1 <= e.2) l.
Proof. intros ->. apply Forall_forall. intros e (p & -> & _)%list_elem_of_fmap. cbn. lia. Qed.

Lemma total_weight_pos {A} (l : list (A * Z)) : l <> [] -> Forall (fun e => 1 <= e.2) l -> 1 <= total_weight l.
Proof.
  intros Hn H. assert (0 <= total_weight l /\ (l <> [] -> 1 <= total_weight l)) as [_ Hp]; [|by apply Hp].
  clear Hn. induction H as [|[a w] l Hw Hl [IH _]]; cbn in *; [done|]. lia.
Qed.

(** ** Scores and slots stay in their ranges *)
Record peer_ok (peer_id : PeerId) (p : SyncPeer) : Prop := {
  po_key : pi_peer_id (sp_info p) = peer_id;
  po_score : MIN_PEER_SCORE <= sp_score p <= MAX_PEER_SCORE;
  po_in_flight : 0 <= sp_requests_in_flight p
}.
Record peers_inv (peers : Peers) : Prop := {
  pv_wf : dict_wf peers;
  pv_peer peer_id p : dget peer_id peers = Some p -> peer_ok peer_id p
}.

Lemma peers_inv_nil : peers_inv [].
Proof. split; [constructor|done]. Qed.

Lemma peers_inv_dset peer_id p peers : peers_inv peers -> peer_ok peer_id p -> peers_inv (dset peer_id p peers).
Proof.
  intros [Hw Hp] Hok. split; [by apply dset_wf|]. intros q p'. rewrite dget_dset. case_decide; [|apply Hp].
  intros [= <-]. by subst.
Qed.

Lemma update_peer_inv peer_id f peers :
  (forall p, peer_ok peer_id p -> peer_ok peer_id (f p)) -> peers_inv peers -> peers_inv (update_peer peer_id f peers).
Proof.
  intros Hf Hi. unfold update_peer. destruct (dget peer_id peers) as [p|] eqn:E; [|done].
  apply peers_inv_dset; [done|]. by apply Hf, (pv_peer _ Hi).
Qed.

Ltac peer_bounds :=
  intros; match goal with H : peer_ok _ _ |- _ => destruct H end;
  split; cbn; unfold MIN_PEER_SCORE, MAX_PEER_SCORE, SCORE_SUCCESS_BONUS, SCORE_FAILURE_PENALTY in *; try done; lia.

Lemma on_request_start_inv peer_id peers : peers_inv peers -> peers_inv (update_peer peer_id on_request_start peers).
Proof. apply update_peer_inv. peer_bounds. Qed.
Lemma on_request_success_inv peer_id peers : peers_inv peers -> peers_inv (on_request_success peer_id peers).
Proof. apply update_peer_inv. peer_bounds. Qed.
Lemma on_request_failure_inv peer_id peers : peers_inv peers -> peers_inv (on_request_failure peer_id peers).
Proof. apply update_peer_inv. peer_bounds. Qed.
Lemma update_status_inv peer_id status peers : peers_inv peers -> peers_inv (update_status peer_id status peers).
Proof. apply update_peer_inv. peer_bounds. Qed.
Lemma add_peer_inv info peers : peers_inv peers -> peers_inv (add_peer info peers).
Proof.
  intros Hi. unfold add_peer. destruct (dget _ peers) as [p|] eqn:E; apply peers_inv_dset; try done.
  destruct (pv_peer _ Hi _ _ E). by split.
Qed.
Lemma remove_peer_inv peer_id peers : peers_inv peers -> peers_inv (remove_peer peer_id peers).
Proof.
  intros [Hw Hp]. split; [by apply ddel_wf|]. intros q p. unfold remove_peer. rewrite dget_ddel. case_decide; [done|]. apply Hp.
Qed.
#[export] Hint Resolve peers_inv_nil on_request_start_inv on_request_success_inv on_request_failure_inv
  update_status_inv add_peer_inv remove_peer_inv : spec.

(** ** Selection *)
Lemma select_peer_cases min_slot draw peers :
  match select_peer_for_request min_slot draw peers with
  | Some p => request_candidate min_slot peers p
  | None => forall p, ~ request_candidate min_slot peers p
  end.
Proof.
  unfold select_peer_for_request. set (weighted := map _ _).
  pose proof (candidate_weights _ weighted eq_refl) as Hw. destruct weighted as [|e l] eqn:Ew.
  - intros p Hp%elem_of_candidates. assert ((p, Z.max (sp_score p) 1) ∈ weighted) as Hin.
    { subst weighted. by apply (list_elem_of_fmap_2 (fun p => (p, Z.max (sp_score p) 1))). }
    rewrite Ew in Hin. by apply elem_of_nil in Hin.
  - pose proof (total_weight_pos (e :: l) ltac:(done) Hw) as Ht.
    destruct (choose_elem (e :: l) (draw mod total_weight (e :: l))) as (p & w & -> & Hin).
    { apply Z.mod_pos_bound. lia. }
    rewrite <- Ew in Hin. subst weighted. apply list_elem_of_fmap in Hin as (q & [= -> _] & Hq). by apply elem_of_candidates.
Qed.

(** A request goes to a tracked peer that is connected, below its limit of requests in
    flight and, when a slot is asked for, claims to have reached it; none is chosen only
    when there is no such peer; and every such peer, however low its score, is chosen by
    some outcome of the generator. *)
Theorem peer_selection (min_slot : option Z) (peers : Peers) :
  (forall draw,
    match select_peer_for_request min_slot draw peers with
    | Some p => request_candidate min_slot peers p
    | None => forall p, ~ request_candidate min_slot peers p
    end) /\
  (forall p, request_candidate min_slot peers p ->
    exists draw, select_peer_for_request min_slot draw peers = Some p).
Proof.
  split; [intros draw; apply select_peer_cases|]. intros p Hp%elem_of_candidates. unfold select_peer_for_request.
  set (weighted := map _ _). pose proof (candidate_weights _ weighted eq_refl) as Hw.
  destruct (choose_surjective weighted p (Z.max (sp_score p) 1) Hw) as (r & Hr & E).
  { subst weighted. by apply (list_elem_of_fmap_2 (fun p => (p, Z.max (sp_score p) 1))). }
  exists r. destruct weighted as [|e l]; [cbn in Hr; lia|]. by rewrite Z.mod_small.
Qed.

(** ** The finalized slot of the network *)

(** [s] is reported most often, and is the highest such slot. *)
Definition most_reported (slots : list Z) (s : Z) : Prop :=
  s ∈ slots /\ forall s', s' ∈ slots ->
    slot_count slots s' < slot_count slots s \/ (slot_count slots s' = slot_count slots s /\ s' <= s).

Lemma most_reported_unique slots s s' : most_reported slots s -> most_reported slots s' -> s = s'.
Proof. intros [H1 M1] [H2 M2]. destruct (M1 _ H2), (M2 _ H1); lia. Qed.

Lemma report_gtb_spec slots a b :
  report_gtb slots a b = true <-> slot_count slots b < slot_count slots a \/ (slot_count slots b = slot_count slots a /\ b < a).
Proof. unfold report_gtb. rewrite orb_true_iff, andb_true_iff, !Z.ltb_lt, Z.eqb_eq. done. Qed.

Lemma best_report slots rest : forall first,
  let best := foldl (fun best s => if report_gtb slots s best then s else best) first rest in
  best ∈ first :: rest /\ forall s, s ∈ first :: rest -> report_gtb slots s best = false.
Proof.
  induction rest as [|x rest IH]; intros first; cbn zeta.
  - cbn. split; [left|]. intros s ->%list_elem_of_singleton. apply not_true_is_false. rewrite report_gtb_spec. lia.
  - cbn [foldl]. set (next := if report_gtb slots x first then x else first).
    destruct (IH next) as [Hin Hmax]. split.
    + apply elem_of_cons in Hin as [->|Hin]; [|by do 2 right]. subst next. destruct (report_gtb slots x first); [right; left|left].
    + set (best := foldl _ _ _) in *. assert (report_gtb slots next best = false) as Hn by (apply Hmax; left).
      intros s [->|[->|Hs]%elem_of_cons]%elem_of_cons; [..|by apply Hmax; right];
        apply not_true_is_false; apply not_true_iff_false in Hn; rewrite report_gtb_spec in *; subst next;
        destruct (report_gtb slots x first) eqn:E; try apply report_gtb_spec in E;
        try (apply not_true_iff_false in E; rewrite report_gtb_spec in E); lia.
Qed.

Lemma network_finalized_cases peers :
  match get_network_finalized_slot peers with
  | Some s => most_reported (reported_finalized_slots peers) s
  | None => reported_finalized_slots peers = []
  end.
Proof.
  unfold get_network_finalized_slot. set (slots := reported_finalized_slots peers).
  destruct (set_of slots) as [|first rest] eqn:E.
  - destruct slots as [|s slots']; [done|]. assert (s ∈ set_of (s :: slots')) as Hin by (apply elem_of_set_of; left).
    rewrite E in Hin. by apply elem_of_nil in Hin.
  - destruct (best_report slots rest first) as [Hin Hmax]. rewrite <- E in Hin, Hmax. split; [by apply elem_of_set_of|].
    intros s' Hs'%elem_of_set_of%Hmax%not_true_iff_false. rewrite report_gtb_spec in Hs'. lia.
Qed.

(** The estimate of the network's finalized slot is the slot that most connected peers
    report, the highest one among equals; there is none exactly when nothing is reported,
    and the order in which the peers are tracked does not matter. *)
Theorem network_finalized_slot_is_mode (peers : Peers) :
  match get_network_finalized_slot peers with
  | Some s => most_reported (reported_finalized_slots peers) s
  | None => reported_finalized_slots peers = []
  end /\
  (forall peers', dvalues peers' ≡ₚ dvalues peers -> get_network_finalized_slot peers' = get_network_finalized_slot peers).
Proof.
  split; [apply network_finalized_cases|]. intros peers' Hp.
  assert (reported_finalized_slots peers' ≡ₚ reported_finalized_slots peers) as Hr by (apply omap_Permutation, Hp).
  pose proof (network_finalized_cases peers) as H1. pose proof (network_finalized_cases peers') as H2.
  assert (forall s, slot_count (reported_finalized_slots peers') s = slot_count (reported_finalized_slots peers) s) as Hc.
  { intros s. unfold slot_count. by rewrite Hr. }
  destruct (get_network_finalized_slot peers) as [s|], (get_network_finalized_slot peers') as [s'|]; [| | |done].
  - f_equal. apply (most_reported_unique (reported_finalized_slots peers)); [|done]. destruct H2 as [Hin Hm].
    split; [by rewrite <- Hr|]. intros x Hx. rewrite <- !Hc. apply Hm. by rewrite Hr.
  - destruct H1 as [Hin _]. rewrite <- Hr, H2 in Hin. by apply elem_of_nil in Hin.
  - destruct H2 as [Hin _]. rewrite Hr, H1 in Hin. by apply elem_of_nil in Hin.
Qed.
