(* ===== verification/StateMonad.v ===== *)
(** * State and exceptions

    The services of the node mutate shared objects and raise.  A method is a function
    from the state to a result and the state it leaves, which an exception does not roll
    back.  [triple] is the Hoare logic in which their invariants are proved. *)

From S2P Require Import Prelude.

Definition M (S A : Type) : Type := S -> result A * S.

#[export] Instance M_ret {S} : MRet (M S) := fun A a s => (Ok a, s).
#[export] Instance M_bind {S} : MBind (M S) := fun A B f m s =>
  match m s with
  | (Ok a, s) => f a s
  | (Err e, s) => (Err e, s)
  end.

Section Operations.
Context {S : Type}.

Definition raising {A} (r : result A) : M S A := fun s => (r, s).
Definition gets {A} (f : S -> A) : M S A := fun s => (Ok (f s), s).
Definition modify (f : S -> S) : M S unit := fun s => (Ok tt, f s).

(** [try: m except e: handler(e)] *)
Definition catch {A} (m : M S A) (handler : exn -> M S A) : M S A := fun s =>
  match m s with
  | (Ok a, s) => (Ok a, s)
  | (Err e, s) => handler e s
  end.

(** [try: m finally: cleanup] *)
Definition finally {A} (m : M S A) (cleanup : S -> S) : M S A := fun s => let '(r, s) := m s in (r, cleanup s).

(** [for x in l: body(x)] *)
Fixpoint for_each {A} (l : list A) (body : A -> M S unit) : M S unit :=
  match l with
  | [] => mret tt
  | x :: l => _ ← body x; for_each l body
  end.

(** A method of a component of the state *)
Definition zoom {T A} (get : S -> T) (set : T -> S -> S) (m : M T A) : M S A := fun s =>
  let '(r, t) := m (get s) in (r, set t s).

(** ** Running the operations *)
Lemma run_gets {A B} (f : S -> A) (k : A -> M S B) s : (gets f ≫= k) s = k (f s) s.
Proof. reflexivity. Qed.
Lemma run_modify {B} (f : S -> S) (k : unit -> M S B) s : (modify f ≫= k) s = k tt (f s).
Proof. reflexivity. Qed.
Lemma run_raising {A B} (a : A) (k : A -> M S B) s : (raising (Ok a) ≫= k) s = k a s.
Proof. reflexivity. Qed.
Lemma run_bind {A B} (m : M S A) (k : A -> M S B) s a s' : m s = (Ok a, s') -> (m ≫= k) s = k a s'.
Proof. intros E. unfold mbind, M_bind. by rewrite E. Qed.

Lemma for_each_app {A} (l1 l2 : list A) (body : A -> M S unit) s :
  for_each (l1 ++ l2) body s = (for_each l1 body ≫= fun _ => for_each l2 body) s.
Proof.
  revert s. induction l1 as [|x l1 IH]; intros s; cbn [app for_each]; [done|].
  unfold mbind, M_bind in *. destruct (body x s) as [[u|e] s']; [apply IH|done].
Qed.

Lemma for_each_bind {A B} (l : list A) (body : A -> M S unit) (k : unit -> M S B) s :
  (for_each l body ≫= k) s = foldr (fun x rest => body x ≫= fun _ => rest) (k tt) l s.
Proof.
  revert s. induction l as [|x l IH]; intros s; cbn [for_each foldr]; [done|].
  unfold mbind, M_bind in *. destruct (body x s) as [[u|e] s']; [apply IH|done].
Qed.

(** ** Hoare triples: the state before, after a value, after an exception *)
Definition triple {A} (P : S -> Prop) (m : M S A) (Q : A -> S -> Prop) (E : exn -> S -> Prop) : Prop :=
  forall s, P s -> match m s with (Ok a, s') => Q a s' | (Err e, s') => E e s' end.

Lemma triple_ret {A} (a : A) (P : S -> Prop) Q E : (forall s, P s -> Q a s) -> triple P (mret a) Q E.
Proof. intros H s. apply H. Qed.

Lemma triple_bind {A B} (m : M S A) (f : A -> M S B) P Q R E :
  triple P m Q E -> (forall a, triple (Q a) (f a) R E) -> triple P (m ≫= f) R E.
Proof.
  intros Hm Hf s Hs. specialize (Hm s Hs). unfold mbind, M_bind. destruct (m s) as [[a|e] s']; [|done]. by apply Hf.
Qed.

Lemma triple_raising {A} (r : result A) (P : S -> Prop) Q E :
  (forall s, P s -> match r with Ok a => Q a s | Err e => E e s end) -> triple P (raising r) Q E.
Proof. intros H s Hs. specialize (H s Hs). unfold raising. by destruct r. Qed.

Lemma triple_gets {A} (f : S -> A) (P : S -> Prop) Q E : (forall s, P s -> Q (f s) s) -> triple P (gets f) Q E.
Proof. intros H s. apply H. Qed.

Lemma triple_modify (f : S -> S) (P : S -> Prop) (Q : unit -> S -> Prop) E :
  (forall s, P s -> Q tt (f s)) -> triple P (modify f) Q E.
Proof. intros H s. apply H. Qed.

Lemma triple_catch {A} (m : M S A) h P Q E E' :
  triple P m Q E' -> (forall e, triple (E' e) (h e) Q E) -> triple P (catch m h) Q E.
Proof.
  intros Hm Hh s Hs. specialize (Hm s Hs). unfold catch. destruct (m s) as [[a|e] s']; [done|]. by apply Hh.
Qed.

Lemma triple_finally {A} (m : M S A) cleanup P Q E :
  triple P m (fun a s => Q a (cleanup s)) (fun e s => E e (cleanup s)) -> triple P (finally m cleanup) Q E.
Proof. intros Hm s Hs. specialize (Hm s Hs). unfold finally. by destruct (m s) as [[a|e] s']. Qed.

Lemma triple_for_each {A} (l : list A) body (I : S -> Prop) E :
  (forall x, x ∈ l -> triple I (body x) (fun _ => I) E) -> triple I (for_each l body) (fun _ => I) E.
Proof.
  induction l as [|x l IH]; intros H; cbn [for_each]; [by apply triple_ret|].
  eapply (triple_bind _ _ _ (fun _ => I)); [apply H; left|]. intros _. apply IH. intros y Hy. apply H. by right.
Qed.

Lemma triple_consequence {A} (m : M S A) (P P' : S -> Prop) Q Q' E E' :
  triple P' m Q' E' -> (forall s, P s -> P' s) -> (forall a s, Q' a s -> Q a s) -> (forall e s, E' e s -> E e s) ->
  triple P m Q E.
Proof. intros Hm HP HQ HE s Hs. specialize (Hm s (HP s Hs)). destruct (m s) as [[a|e] s']; auto. Qed.

(** Facts that follow from the precondition *)
Lemma triple_from {A} (m : M S A) (P : S -> Prop) Q E : (forall s, P s -> triple P m Q E) -> triple P m Q E.
Proof. intros H s Hs. by apply (H s Hs). Qed.

Lemma triple_never {A} (m : M S A) (P : S -> Prop) Q E : triple P m Q (fun _ _ => False) -> triple P m Q E.
Proof. intros H. by eapply triple_consequence; [exact H|..]. Qed.

Lemma triple_and {A} (m : M S A) (P P' : S -> Prop) Q Q' E E' :
  triple P m Q E -> triple P' m Q' E' ->
  triple (fun s => P s /\ P' s) m (fun a s => Q a s /\ Q' a s) (fun e s => E e s /\ E' e s).
Proof. intros Hm Hm' s [Hs Hs']. specialize (Hm s Hs). specialize (Hm' s Hs'). destruct (m s) as [[a|e] s']; auto. Qed.

(** A pure precondition is a hypothesis. *)
Lemma triple_pure {A} (m : M S A) (P : S -> Prop) (phi : Prop) Q E :
  (phi -> triple P m Q E) -> triple (fun s => P s /\ phi) m Q E.
Proof. intros H s [Hs Hp]. by apply H. Qed.
End Operations.

Lemma triple_zoom {S T A} (get : S -> T) (set : T -> S -> S) (m : M T A) P Q E (P' : S -> Prop) Q' E' :
  triple P m Q E ->
  (forall s, P' s -> P (get s)) ->
  (forall s a t, P' s -> Q a t -> Q' a (set t s)) ->
  (forall s e t, P' s -> E e t -> E' e (set t s)) ->
  triple P' (zoom get set m) Q' E'.
Proof.
  intros Hm HP HQ HE s Hs. specialize (Hm (get s) (HP s Hs)). unfold zoom. destruct (m (get s)) as [[a|e] t]; eauto.
Qed.

(** No exception *)
Definition never {S} : exn -> S -> Prop := fun _ _ => False.
