(* ===== verification/Multistream.v ===== *)
(** * Stream negotiation (node/networking/transport/quic/stream_adapter.py)

    The buffered adapter of a stream and multistream-select on top of it.  The stream is
    the list of chunks its reads return, as in ReqResp.v, and the bytes written to it.  A
    timeout of the negotiation is a stream that ends. *)

From S2P Require Import Prelude Uint Varint Snappy StateMonad GossipRpc ReqResp Pydict Ssz Sha256 Merkle.
From S2P Require Import GossipRpcCorrect.
From Stdlib Require Import String.

Local Open Scope Z_scope.
Local Open Scope list_scope.

(** A [str] is its UTF-8 bytes. *)
Abbreviation ProtocolId := bytes.
Definition MULTISTREAM_PROTOCOL_ID : ProtocolId := list_byte_of_string "/multistream/1.0.0".
Definition NA : ProtocolId := list_byte_of_string "na".
Definition MAX_MESSAGE_SIZE : Z := 1024.
Definition MAX_NEGOTIATION_ATTEMPTS : Z := 10.

Record QuicStreamAdapter := {
  qa_buffer : bytes;
  qa_write_buffer : bytes;
  qa_incoming : list bytes;
  qa_written : bytes
}.
Definition new_adapter (incoming : list bytes) : QuicStreamAdapter :=
  {| qa_buffer := []; qa_write_buffer := []; qa_incoming := incoming; qa_written := [] |}.
Definition with_buffer (buffer : bytes) (s : QuicStreamAdapter) : QuicStreamAdapter :=
  {| qa_buffer := buffer; qa_write_buffer := qa_write_buffer s; qa_incoming := qa_incoming s; qa_written := qa_written s |}.

(** ** Buffered reads and writes *)
Definition next_chunk : M QuicStreamAdapter bytes := fun s =>
  let '(chunk, rest) := stream_read (qa_incoming s) in
  (Ok chunk, {| qa_buffer := qa_buffer s; qa_write_buffer := qa_write_buffer s; qa_incoming := rest; qa_written := qa_written s |}).

(** [read(n)] *)
Definition read (n : Z) : M QuicStreamAdapter bytes :=
  buffer ← gets qa_buffer;
  if negb (Zlen buffer =? 0) then
    _ ← modify (with_buffer (drop (Z.to_nat n) buffer));
    mret (take (Z.to_nat n) buffer)
  else
    stream_bytes ← next_chunk;
    if Zlen stream_bytes =? 0 then mret []
    else if Zlen stream_bytes >? n then
      _ ← modify (with_buffer (drop (Z.to_nat n) stream_bytes));
      mret (take (Z.to_nat n) stream_bytes)
    else mret stream_bytes.

(** [read()] *)
Definition read_all : M QuicStreamAdapter bytes :=
  buffer ← gets qa_buffer;
  if negb (Zlen buffer =? 0) then
    _ ← modify (with_buffer []);
    mret buffer
  else next_chunk.

(** The loop of [readexactly]; every turn takes a chunk. *)
Fixpoint fill_buffer (fuel : nat) (n : Z) : M QuicStreamAdapter unit :=
  buffer ← gets qa_buffer;
  if Zlen buffer <? n then
    match fuel with
    | O => raising (Err OutOfFuel)
    | S fuel =>
        chunk ← next_chunk;
        if Zlen chunk =? 0 then raising (Err EOFError)
        else
          _ ← modify (fun s => with_buffer (qa_buffer s ++ chunk) s);
          fill_buffer fuel n
    end
  else mret tt.
Definition readexactly (n : Z) : M QuicStreamAdapter bytes :=
  chunks ← gets (fun s => List.length (qa_incoming s));
  _ ← fill_buffer (S chunks) n;
  buffer ← gets qa_buffer;
  _ ← modify (with_buffer (drop (Z.to_nat n) buffer));
  mret (take (Z.to_nat n) buffer).

Definition write (data : bytes) : M QuicStreamAdapter unit :=
  modify (fun s => {| qa_buffer := qa_buffer s; qa_write_buffer := qa_write_buffer s ++ data; qa_incoming := qa_incoming s;
                      qa_written := qa_written s |}).
Definition drain : M QuicStreamAdapter unit :=
  modify (fun s => if Zlen (qa_write_buffer s) =? 0 then s else
    {| qa_buffer := qa_buffer s; qa_write_buffer := []; qa_incoming := qa_incoming s; qa_written := qa_written s ++ qa_write_buffer s |}).

(** ** Messages: a varint length, the text and a newline *)
Definition _write_negotiation_message (message : bytes) : M QuicStreamAdapter unit :=
  let message_bytes := message ++ [Byte.x0a] in
  length_prefix ← raising (encode_varint (Zlen message_bytes) VARINT_MAX_BYTES);
  _ ← write (length_prefix ++ message_bytes);
  drain.

(** The bytes of the length, at most six *)
Fixpoint read_length_bytes (fuel : nat) (length_bytes : bytes) : M QuicStreamAdapter bytes :=
  match fuel with
  | O => raising (Err OutOfFuel)
  | S fuel =>
      byte ← read 1;
      match byte with
      | [] => raising (Err NegotiationError)
      | b :: _ =>
          let length_bytes := length_bytes ++ [b] in
          if Z.land (byte.unsigned b) 0x80 =? 0 then mret length_bytes
          else if Zlen length_bytes >? 5 then raising (Err NegotiationError)
          else read_length_bytes fuel length_bytes
      end
  end.

Definition _read_negotiation_message : M QuicStreamAdapter bytes :=
  length_bytes ← read_length_bytes 6 [];
  '(length, _) ← raising (match decode_varint length_bytes 0 VARINT_MAX_BYTES with Ok r => Ok r | Err _ => Err NegotiationError end);
  if length >? MAX_MESSAGE_SIZE then raising (Err NegotiationError)
  else if length =? 0 then raising (Err NegotiationError)
  else
    message_bytes ← readexactly length;
    if negb (bool_decide (last message_bytes = Some Byte.x0a)) then raising (Err NegotiationError)
    else raising (decode_utf8 (removelast message_bytes)).

(** ** Negotiation *)
Fixpoint answer_proposals (attempts : nat) (supported : list ProtocolId) : M QuicStreamAdapter ProtocolId :=
  match attempts with
  | O => raising (Err NegotiationError)
  | S attempts =>
      proposal ← _read_negotiation_message;
      if bool_decide (proposal ∈ supported) then
        _ ← _write_negotiation_message proposal;
        mret proposal
      else
        _ ← _write_negotiation_message NA;
        answer_proposals attempts supported
  end.

Definition negotiate_server (supported : list ProtocolId) : M QuicStreamAdapter ProtocolId :=
  if Zlen supported =? 0 then raising (Err NegotiationError)
  else
    header ← _read_negotiation_message;
    if negb (bool_decide (header = MULTISTREAM_PROTOCOL_ID)) then raising (Err NegotiationError)
    else
      _ ← _write_negotiation_message MULTISTREAM_PROTOCOL_ID;
      answer_proposals (Z.to_nat MAX_NEGOTIATION_ATTEMPTS) supported.

Definition negotiate_lazy_client (protocol : ProtocolId) : M QuicStreamAdapter ProtocolId :=
  _ ← _write_negotiation_message MULTISTREAM_PROTOCOL_ID;
  _ ← _write_negotiation_message protocol;
  header ← _read_negotiation_message;
  if negb (bool_decide (header = MULTISTREAM_PROTOCOL_ID)) then raising (Err NegotiationError)
  else
    response ← _read_negotiation_message;
    if bool_decide (response = protocol) then mret protocol else raising (Err NegotiationError).

(** * Negotiation agrees

    However the transport cuts the bytes, a message is read back, the two ends of a
    negotiation agree on the protocol, and what the peer sent after it stays to be read. *)

(** ** What is left to read *)
Definition pending (s : QuicStreamAdapter) : bytes := qa_buffer s ++ List.concat (qa_incoming s).
Definition open_stream (s : QuicStreamAdapter) : Prop := Forall (fun c => c <> []) (qa_incoming s).

(** [s'] is [s] with [rest] left to read and [written] written more. *)
Record moved (s : QuicStreamAdapter) (rest written : bytes) (s' : QuicStreamAdapter) : Prop := {
  mv_pending : pending s' = rest;
  mv_open : open_stream s';
  mv_write_buffer : qa_write_buffer s' = qa_write_buffer s;
  mv_written : qa_written s' = qa_written s ++ written
}.

Lemma moved_trans s1 s2 s3 r1 r2 w1 w2 : moved s1 r1 w1 s2 -> moved s2 r2 w2 s3 -> moved s1 r2 (w1 ++ w2) s3.
Proof. intros [] []. split; try congruence. rewrite app_assoc. congruence. Qed.

Lemma moved_read s1 s2 s3 r1 r2 : moved s1 r1 [] s2 -> moved s2 r2 [] s3 -> moved s1 r2 [] s3.
Proof. intros H1 H2. apply (moved_trans _ _ _ _ _ _ _ H1 H2). Qed.

Lemma next_chunk_run s :
  open_stream s ->
  exists s', next_chunk s = (Ok (match qa_incoming s with [] => [] | c :: _ => c end), s') /\
    qa_buffer s' = qa_buffer s /\ qa_incoming s' = tail (qa_incoming s) /\ qa_write_buffer s' = qa_write_buffer s /\ qa_written s' = qa_written s.
Proof.
  intros Ho. unfold next_chunk, stream_read. destruct (qa_incoming s) as [|c l] eqn:E; [eexists; by split_and!|].
  unfold open_stream in Ho. rewrite E in Ho. apply Forall_cons in Ho as [Hc _].
  destruct (Zlen c =? 0) eqn:Ec; [by apply Zlen_0 in Ec|]. eexists. by split_and!.
Qed.

Lemma read_one b rest s :
  open_stream s -> pending s = b :: rest -> exists s', read 1 s = (Ok [b], s') /\ moved s rest [] s'.
Proof.
  intros Ho Hp. unfold read. rewrite run_gets. unfold pending in Hp. destruct (qa_buffer s) as [|b' buf] eqn:Eb.
  - cbn [Zlen]. change (negb (Zlen [] =? 0)) with false. cbn iota.
    destruct (next_chunk_run s Ho) as (s1 & E1 & Hb1 & Hi1 & Hw1 & Hr1). rewrite (run_bind _ _ _ _ _ E1).
    cbn [app] in Hp. destruct (qa_incoming s) as [|c l] eqn:Ei; [done|]. unfold open_stream in Ho. rewrite Ei in Ho.
    apply Forall_cons in Ho as [Hc Ho]. destruct c as [|b0 c]; [done|]. cbn in Hp. injection Hp as -> Hp.
    replace (Zlen (b :: c) =? 0) with false by (symmetry; apply Z.eqb_neq; cbn; lia).
    destruct (Zlen (b :: c) >? 1) eqn:E.
    + rewrite run_modify. cbn [Z.to_nat Pos.to_nat Pos.iter_op take drop]. eexists. split; [done|].
      split; unfold pending, open_stream; cbn; rewrite ?Hi1, ?app_nil_r; try done.
    + destruct c; [|rewrite Z.gtb_ltb in E; apply Z.ltb_ge in E; cbn in E; lia]. exists s1. split; [done|].
      split; unfold pending, open_stream; rewrite ?Hi1, ?Hb1, ?Eb, ?app_nil_r; try done.
  - replace (Zlen (b' :: buf) =? 0) with false by (symmetry; apply Z.eqb_neq; cbn; lia). cbn [negb].
    rewrite run_modify. injection Hp as -> Hp. eexists. split; [done|].
    split; unfold pending, open_stream; cbn; rewrite ?app_nil_r; try done.
Qed.

Lemma fill_buffer_ok n fuel : forall s,
  open_stream s -> n <= Zlen (pending s) -> (List.length (qa_incoming s) < fuel)%nat ->
  exists s', fill_buffer fuel n s = (Ok tt, s') /\ moved s (pending s) [] s' /\ n <= Zlen (qa_buffer s').
Proof.
  induction fuel as [|fuel IH]; intros s Ho Hn Hf; [lia|]. cbn [fill_buffer]. rewrite run_gets.
  destruct (Z.ltb_spec (Zlen (qa_buffer s)) n) as [Hlt|Hge].
  - destruct (next_chunk_run s Ho) as (s1 & E1 & Hb1 & Hi1 & Hw1 & Hr1). rewrite (run_bind _ _ _ _ _ E1).
    unfold pending in Hn. destruct (qa_incoming s) as [|c l] eqn:Ei; [cbn in Hn; rewrite app_nil_r in Hn; lia|].
    pose proof Ho as Ho'. unfold open_stream in Ho'. rewrite Ei in Ho'. apply Forall_cons in Ho' as [Hc Hl].
    destruct (Zlen c =? 0) eqn:Ec; [by apply Zlen_0 in Ec|]. rewrite run_modify.
    set (s2 := with_buffer (qa_buffer s1 ++ c) s1). assert (pending s2 = pending s) as Hp.
    { subst s2. unfold pending. cbn. rewrite Hi1, Hb1, Ei. cbn. by rewrite <- app_assoc. }
    destruct (IH s2) as (s3 & E3 & M3 & Hlen); [unfold open_stream; cbn; by rewrite Hi1|unfold pending in Hp|cbn; rewrite Hi1; cbn in *; lia|].
    { fold (pending s2) (pending s) in Hp. rewrite Hp. unfold pending. rewrite Ei. done. }
    exists s3. split; [done|]. split; [|done]. rewrite Hp in M3. destruct M3 as [A1 A2 A3 A4]. split; [done|done|..].
    + rewrite A3. subst s2. cbn. congruence.
    + rewrite A4. subst s2. cbn. by rewrite Hr1.
  - exists s. split; [done|]. split; [|done]. split; try done. by rewrite app_nil_r.
Qed.

Lemma readexactly_ok n data rest s :
  open_stream s -> pending s = data ++ rest -> Zlen data = n ->
  exists s', readexactly n s = (Ok data, s') /\ moved s rest [] s'.
Proof.
  intros Ho Hp Hn. unfold readexactly. rewrite run_gets.
  destruct (fill_buffer_ok n (S (List.length (qa_incoming s))) s Ho) as (s1 & E1 & [A1 A2 A3 A4] & Hlen).
  { rewrite Hp, length_app. lia. } { lia. }
  rewrite (run_bind _ _ _ _ _ E1), run_gets, run_modify. rewrite Hp in A1. unfold pending in A1.
  assert (qa_buffer s1 = data ++ drop (List.length data) (qa_buffer s1)) as Eb.
  { rewrite <- (take_drop (List.length data) (qa_buffer s1)) at 1. f_equal.
    apply (f_equal (take (List.length data))) in A1. rewrite take_app_le in A1 by (lia). by rewrite take_app_length in A1. }
  replace (Z.to_nat n) with (List.length data) by (lia).
  eexists. split; [rewrite Eb at 1; by rewrite take_app_length|]. split; unfold pending; cbn; try done.
  rewrite Eb in A1. rewrite <- app_assoc in A1. by apply app_inv_head in A1.
Qed.

(** ** Messages *)
Definition message_frame (m : bytes) : result bytes :=
  let message_bytes := m ++ [Byte.x0a] in
  length_prefix ← encode_varint (Zlen message_bytes) VARINT_MAX_BYTES;
  Ok (length_prefix ++ message_bytes).

(** Texts the reader accepts *)
Record message_ok (m : bytes) : Prop := {
  mo_utf8 : utf8_valid m = true;
  mo_size : Zlen m < MAX_MESSAGE_SIZE
}.

Lemma write_message m s :
  qa_write_buffer s = [] ->
  (forall f, message_frame m = Ok f -> exists s', _write_negotiation_message m s = (Ok tt, s') /\
    qa_buffer s' = qa_buffer s /\ qa_incoming s' = qa_incoming s /\ qa_write_buffer s' = [] /\ qa_written s' = qa_written s ++ f).
Proof.
  intros Hw f Ef. unfold message_frame in Ef. apply bind_Ok in Ef as (p & Ep & [= <-]).
  unfold _write_negotiation_message. rewrite Ep, run_raising. unfold write, drain. rewrite run_modify. cbn. rewrite Hw. cbn.
  destruct (Zlen (p ++ m ++ [Byte.x0a]) =? 0) eqn:E; [apply Zlen_0 in E; by destruct p, m|].
  eexists. split; [done|]. cbn [qa_write_buffer]. rewrite E. by split_and!.
Qed.

(** The prefix is read byte by byte up to the one without continuation bit. *)
Lemma read_length_bytes_ok fuel prefix : forall before s rest last_byte,
  open_stream s -> pending s = prefix ++ [last_byte] ++ rest ->
  Forall (fun b => byte.unsigned b <? 128 = false) prefix -> byte.unsigned last_byte <? 128 = true ->
  (List.length prefix < fuel)%nat -> Zlen before + Zlen prefix <= 5 ->
  exists s', read_length_bytes fuel before s = (Ok (before ++ prefix ++ [last_byte]), s') /\ moved s rest [] s'.
Proof.
  revert prefix. induction fuel as [|fuel IH]; intros prefix before s rest lb Ho Hp Hf Hl Hlen H5; [lia|]. cbn [read_length_bytes].
  destruct prefix as [|b prefix]; cbn [app] in Hp.
  - destruct (read_one lb rest s Ho Hp) as (s1 & E1 & M1). rewrite (run_bind _ _ _ _ _ E1). cbn beta iota.
    rewrite continuation_bit, Hl. exists s1. by split.
  - destruct (read_one b _ s Ho Hp) as (s1 & E1 & M1). rewrite (run_bind _ _ _ _ _ E1). cbn beta iota.
    apply Forall_cons in Hf as [Hb Hf]. rewrite continuation_bit, Hb.
    assert (Zlen (before ++ [b]) >? 5 = false) as -> by (rewrite Z.gtb_ltb; apply Z.ltb_ge; rewrite Zlen_app; cbn in *; lia).
    destruct (IH prefix (before ++ [b]) s1 rest lb) as (s2 & E2 & M2); [apply M1|apply M1|done|done|cbn in Hlen; lia| |].
    { rewrite Zlen_app. cbn in *. lia. }
    exists s2. rewrite E2. rewrite <- app_assoc. split; [done|by eapply moved_read].
Qed.

Lemma varint_groups_shape fuel : forall value bs,
  0 <= value -> varint_groups fuel value = Ok bs ->
  exists prefix b, bs = prefix ++ [b] /\ Forall (fun b => byte.unsigned b <? 128 = false) prefix /\ byte.unsigned b <? 128 = true.
Proof.
  assert (forall value bs, 0 <= value < 128 -> (b ← byte_of value; Ok [b]) = Ok bs ->
    exists prefix b, bs = prefix ++ [b] /\ Forall (fun b => byte.unsigned b <? 128 = false) prefix /\ byte.unsigned b <? 128 = true) as Hlast.
  { intros value bs Hv E. apply bind_Ok in E as (b & Eb & [= <-]). exists [], b. split_and!; [done|constructor|].
    destruct (byte_of_small value) as (b' & Eb' & Hb); [lia|]. rewrite Eb in Eb'. injection Eb' as <-. apply Z.ltb_lt. lia. }
  induction fuel as [|fuel IH]; intros value bs Hv E; cbn [varint_groups] in E; destruct (Z.geb_spec value 128) as [Hge|Hlt];
    try (by apply (Hlast value); [lia|]); [done|].
  apply bind_Ok in E as (b & Eb & E). apply bind_Ok in E as (rest & Er & [= <-]).
  destruct (IH (Z.shiftr value 7) rest ltac:(rewrite Z.shiftr_div_pow2 by done; apply Z.div_pos; lia) Er) as (prefix & l & -> & Hf & Hl).
  exists (b :: prefix), l. split_and!; [done| |done]. constructor; [|done].
  rewrite group_byte in Eb. pose proof (Z.mod_pos_bound value 128 ltac:(lia)).
  destruct (byte_of_small (value mod 128 + 128)) as (b' & Eb' & Hb); [lia|]. rewrite Eb in Eb'. injection Eb' as <-. apply Z.ltb_ge. lia.
Qed.

Lemma read_message m f rest s :
  message_ok m -> message_frame m = Ok f -> open_stream s -> pending s = f ++ rest ->
  exists s', _read_negotiation_message s = (Ok m, s') /\ moved s rest [] s'.
Proof.
  intros [Hu Hsz] Ef Ho Hp. unfold message_frame in Ef. apply bind_Ok in Ef as (p & Ep & [= <-]).
  set (mb := m ++ [Byte.x0a]) in *. assert (Zlen mb = Zlen m + 1) as Hmb by (unfold mb; rewrite Zlen_app; done).
  unfold MAX_MESSAGE_SIZE in Hsz.
  assert (exists prefix b, p = prefix ++ [b] /\ Forall (fun b => byte.unsigned b <? 128 = false) prefix /\ byte.unsigned b <? 128 = true) as Hshape.
  { unfold encode_varint in Ep. destruct (negb _); [|done]. destruct (_ =? 0); [|done]. eapply varint_groups_shape; [|exact Ep]. lia. }
  assert (Zlen p <= 2) as Hlen.
  { pose proof Ep as Ep'. unfold encode_varint in Ep'. destruct (negb _); [|done]. destruct (_ =? 0); [|done].
    destruct (varint_groups_total 1 (Z.to_nat VARINT_MAX_BYTES) (Zlen mb)) as (bs & Eb & Hb); [|unfold VARINT_MAX_BYTES; lia|rewrite Ep' in Eb; injection Eb as <-; lia].
    change (2 ^ (7 * Z.of_nat 2)) with 16384. lia. }
  pose proof (decode_encode_varint (Zlen mb) VARINT_MAX_BYTES p [] [] ltac:(done) Ep) as Ed. cbn [app List.length] in Ed. rewrite app_nil_r in Ed.
  change (Z.of_nat 0) with 0 in Ed.
  destruct Hshape as (prefix & b & -> & Hf & Hb). unfold _read_negotiation_message.
  destruct (read_length_bytes_ok 6 prefix [] s (mb ++ rest) b Ho) as (s1 & E1 & M1); [|done|done| |cbn; rewrite Zlen_app in Hlen; lia|].
  { rewrite Hp, <- !app_assoc. done. } { rewrite Zlen_app in Hlen. cbn in Hlen. lia. }
  rewrite (run_bind _ _ _ _ _ E1). cbn [app]. rewrite Ed, run_raising. cbn beta iota.
  rewrite Z.gtb_ltb, (proj2 (Z.ltb_ge _ _)) by (unfold MAX_MESSAGE_SIZE; lia). rewrite (proj2 (Z.eqb_neq _ _)) by lia.
  destruct (readexactly_ok (Zlen mb) mb rest s1 (mv_open _ _ _ _ M1) (mv_pending _ _ _ _ M1) eq_refl) as (s2 & E2 & M2).
  rewrite (run_bind _ _ _ _ _ E2). rewrite bool_decide_eq_true_2 by apply last_snoc. cbn [negb].
  unfold mb. rewrite removelast_last. unfold decode_utf8. rewrite Hu. exists s2. split; [done|by eapply moved_read].
Qed.

Lemma message_frame_ok m : message_ok m -> exists f, message_frame m = Ok f.
Proof.
  intros [_ Hs]. unfold message_frame, MAX_MESSAGE_SIZE in *.
  destruct (encode_varint_Ok (Zlen (m ++ [Byte.x0a])) VARINT_MAX_BYTES) as (p & -> & _); [done| |eauto].
  rewrite Zlen_app. change (2 ^ (7 * VARINT_MAX_BYTES)) with 1180591620717411303424. cbn. lia.
Qed.

Lemma header_ok : message_ok MULTISTREAM_PROTOCOL_ID.
Proof. by split; vm_compute. Qed.
Lemma na_ok : message_ok NA.
Proof. by split; vm_compute. Qed.

Lemma write_moved m f s :
  open_stream s -> qa_write_buffer s = [] -> message_frame m = Ok f ->
  exists s', _write_negotiation_message m s = (Ok tt, s') /\ moved s (pending s) f s'.
Proof.
  intros Ho Hw Ef. destruct (write_message m s Hw f Ef) as (s' & E & Hb & Hi & Hw' & Hr). exists s'. split; [done|].
  split; unfold pending, open_stream; rewrite ?Hb, ?Hi; try done. congruence.
Qed.

(** A peer that has closed, or that sends no further message *)
Lemma read_closed s : pending s = [] -> open_stream s -> exists s', _read_negotiation_message s = (Err NegotiationError, s') /\ qa_written s' = qa_written s.
Proof.
  intros Hp Ho. unfold pending in Hp. apply app_nil in Hp as [Hb Hc].
  destruct (qa_incoming s) as [|c l] eqn:Ei.
  2: { unfold open_stream in Ho. rewrite Ei in Ho. apply Forall_cons in Ho as [Hne _]. cbn in Hc. by apply app_nil in Hc as [-> _]. }
  destruct s as [buf wb inc wr]. cbn in Hb, Ei |- *. subst. eexists. by split.
Qed.

Section Ends.
Context (protocol : ProtocolId) (Hok : message_ok protocol) (h p n : bytes).
Hypothesis header_frame : message_frame MULTISTREAM_PROTOCOL_ID = Ok h.
Hypothesis protocol_frame : message_frame protocol = Ok p.
Hypothesis na_frame : message_frame NA = Ok n.

Lemma new_adapter_open chunks : Forall (fun c => c <> []) chunks -> open_stream (new_adapter chunks).
Proof. done. Qed.

(** The server reads the header and the proposal and answers the header. *)
Lemma server_starts supported chunks data :
  supported <> [] -> Forall (fun c => c <> []) chunks -> List.concat chunks = h ++ p ++ data ->
  exists s, moved (new_adapter chunks) (p ++ data) h s /\
    negotiate_server supported (new_adapter chunks) = answer_proposals (Z.to_nat MAX_NEGOTIATION_ATTEMPTS) supported s.
Proof using header_frame.
  intros Hs Hc Hd. unfold negotiate_server. destruct (Zlen supported =? 0) eqn:E; [by apply Zlen_0 in E|].
  destruct (read_message _ h (p ++ data) (new_adapter chunks) header_ok header_frame) as (s1 & E1 & M1); [done|done|].
  rewrite (run_bind _ _ _ _ _ E1), bool_decide_eq_true_2 by done. cbn [negb].
  destruct (write_moved MULTISTREAM_PROTOCOL_ID h s1 (mv_open _ _ _ _ M1)) as (s2 & E2 & M2); [by rewrite (mv_write_buffer _ _ _ _ M1)|done|].
  rewrite (run_bind _ _ _ _ _ E2). exists s2. split; [|done]. rewrite (mv_pending _ _ _ _ M1) in M2. exact (moved_trans _ _ _ _ _ _ _ M1 M2).
Qed.

Lemma server_accepts supported chunks data :
  protocol ∈ supported -> Forall (fun c => c <> []) chunks -> List.concat chunks = h ++ p ++ data ->
  exists s, negotiate_server supported (new_adapter chunks) = (Ok protocol, s) /\ moved (new_adapter chunks) data (h ++ p) s.
Proof using Hok header_frame protocol_frame.
  intros Hin Hc Hd. destruct (server_starts supported chunks data) as (s & M & ->); [by intros ->; apply elem_of_nil in Hin|done|done|].
  change (Z.to_nat MAX_NEGOTIATION_ATTEMPTS) with 10%nat. cbn [answer_proposals].
  destruct (read_message _ p data s Hok protocol_frame (mv_open _ _ _ _ M) (mv_pending _ _ _ _ M)) as (s1 & E1 & M1).
  rewrite (run_bind _ _ _ _ _ E1), bool_decide_eq_true_2 by done.
  destruct (write_moved protocol p s1 (mv_open _ _ _ _ M1)) as (s2 & E2 & M2); [by rewrite (mv_write_buffer _ _ _ _ M1), (mv_write_buffer _ _ _ _ M)|done|].
  rewrite (run_bind _ _ _ _ _ E2). exists s2. split; [done|]. rewrite (mv_pending _ _ _ _ M1) in M2.
  exact (moved_trans _ _ _ _ _ _ _ M (moved_trans _ _ _ _ _ _ _ M1 M2)).
Qed.

Lemma server_refuses supported chunks :
  protocol ∉ supported -> supported <> [] -> Forall (fun c => c <> []) chunks -> List.concat chunks = h ++ p ->
  exists s, negotiate_server supported (new_adapter chunks) = (Err NegotiationError, s) /\ qa_written s = h ++ n.
Proof using Hok header_frame protocol_frame na_frame.
  intros Hin Hs Hc Hd. destruct (server_starts supported chunks []) as (s & M & ->); [done|done|by rewrite app_nil_r|].
  change (Z.to_nat MAX_NEGOTIATION_ATTEMPTS) with 10%nat. cbn [answer_proposals].
  destruct (read_message _ p [] s Hok protocol_frame (mv_open _ _ _ _ M) (mv_pending _ _ _ _ M)) as (s1 & E1 & M1).
  rewrite (run_bind _ _ _ _ _ E1), bool_decide_eq_false_2 by done.
  destruct (write_moved NA n s1 (mv_open _ _ _ _ M1)) as (s2 & E2 & M2); [by rewrite (mv_write_buffer _ _ _ _ M1), (mv_write_buffer _ _ _ _ M)|done|].
  rewrite (run_bind _ _ _ _ _ E2). rewrite (mv_pending _ _ _ _ M1) in M2.
  destruct (read_closed s2 (mv_pending _ _ _ _ M2) (mv_open _ _ _ _ M2)) as (s3 & E3 & W3).
  cbn [answer_proposals]. unfold mbind at 1, M_bind. rewrite E3. exists s3. split; [done|]. rewrite W3.
  exact (mv_written _ _ _ _ (moved_trans _ _ _ _ _ _ _ M (moved_trans _ _ _ _ _ _ _ M1 M2))).
Qed.

Lemma client_ends chunks answer f data :
  message_ok answer -> message_frame answer = Ok f -> Forall (fun c => c <> []) chunks -> List.concat chunks = h ++ f ++ data ->
  exists s, negotiate_lazy_client protocol (new_adapter chunks) =
      ((if bool_decide (answer = protocol) then Ok protocol else Err NegotiationError), s) /\ moved (new_adapter chunks) data (h ++ p) s.
Proof using header_frame protocol_frame.
  intros Ha Ef Hc Hd. unfold negotiate_lazy_client. set (s0 := new_adapter chunks).
  destruct (write_moved _ h s0 Hc eq_refl header_frame) as (s1 & E1 & M1). rewrite (run_bind _ _ _ _ _ E1).
  destruct (write_moved _ p s1 (mv_open _ _ _ _ M1) (mv_write_buffer _ _ _ _ M1) protocol_frame) as (s2 & E2 & M2). rewrite (run_bind _ _ _ _ _ E2).
  rewrite (mv_pending _ _ _ _ M1) in M2. pose proof (moved_trans _ _ _ _ _ _ _ M1 M2) as M12.
  destruct (read_message _ h (f ++ data) s2 header_ok header_frame (mv_open _ _ _ _ M2)) as (s3 & E3 & M3); [by rewrite (mv_pending _ _ _ _ M2)|].
  rewrite (run_bind _ _ _ _ _ E3), bool_decide_eq_true_2 by done. cbn [negb].
  destruct (read_message _ f data s3 Ha Ef (mv_open _ _ _ _ M3) (mv_pending _ _ _ _ M3)) as (s4 & E4 & M4). rewrite (run_bind _ _ _ _ _ E4).
  exists s4. split; [by case_bool_decide|]. pose proof (moved_trans _ _ _ _ _ _ _ M12 (moved_read _ _ _ _ _ M3 M4)) as M. by rewrite app_nil_r in M.
Qed.
End Ends.

(** C25: negotiation agrees.  The client that proposes a protocol and the server that
    supports some, connected by a transport that cuts the bytes of each direction into
    arbitrary chunks: if the server supports the protocol both return it, and every byte
    either sent after its last message is left to be read, in the buffer or the stream;
    if it does not, the server answers [na] and both raise [NegotiationError]. *)
Theorem negotiation_agrees (supported : list ProtocolId) (protocol : ProtocolId) :
  message_ok protocol -> protocol <> NA -> supported <> [] ->
  exists hello reply,
    (forall chunks data, Forall (fun c => c <> []) chunks -> List.concat chunks = hello ++ (if bool_decide (protocol ∈ supported) then data else []) ->
       exists s, qa_written s = reply /\
         if bool_decide (protocol ∈ supported)
         then negotiate_server supported (new_adapter chunks) = (Ok protocol, s) /\ pending s = data
         else negotiate_server supported (new_adapter chunks) = (Err NegotiationError, s)) /\
    (forall chunks data, Forall (fun c => c <> []) chunks -> List.concat chunks = reply ++ data ->
       exists s, qa_written s = hello /\
         negotiate_lazy_client protocol (new_adapter chunks) =
           ((if bool_decide (protocol ∈ supported) then Ok protocol else Err NegotiationError), s) /\ pending s = data).
Proof.
  intros Hok Hna Hs. destruct (message_frame_ok _ header_ok) as [h Eh]. destruct (message_frame_ok _ Hok) as [p Ep].
  destruct (message_frame_ok _ na_ok) as [n En].
  exists (h ++ p), (h ++ if bool_decide (protocol ∈ supported) then p else n). case_bool_decide as Hin; split; intros chunks data Hc Hd.
  - destruct (server_accepts protocol Hok h p Eh Ep supported chunks data Hin Hc) as (s & E & M); [by rewrite app_assoc|].
    exists s. split; [apply M|]. split; [done|apply M].
  - destruct (client_ends protocol h p Eh Ep chunks protocol p data Hok Ep Hc) as (s & E & M); [by rewrite app_assoc|].
    rewrite bool_decide_eq_true_2 in E by done. exists s. split_and!; [apply M|done|apply M].
  - destruct (server_refuses protocol Hok h p n Eh Ep En supported chunks Hin Hs Hc) as (s & E & W); [by rewrite app_nil_r in Hd|].
    exists s. by split.
  - destruct (client_ends protocol h p Eh Ep chunks NA n data na_ok En Hc) as (s & E & M); [by rewrite app_assoc|].
    rewrite bool_decide_eq_false_2 in E by done. exists s. split_and!; [apply M|done|apply M].
Qed.

Definition sample_protocol : ProtocolId := String.list_byte_of_string "/meshsub/1.2.0".
Definition sample_protocols : list ProtocolId := [String.list_byte_of_string STATUS_PROTOCOL_V1; sample_protocol].

(** Both ends on streams that deliver one byte at a time, with data after the messages *)
Example sample_negotiation :
  let hello := (negotiate_lazy_client sample_protocol (new_adapter [])).2 in
  let server := negotiate_server sample_protocols (new_adapter (map (fun b => [b]) (qa_written hello ++ [Byte.x07]))) in
  let client := negotiate_lazy_client sample_protocol (new_adapter [qa_written server.2 ++ [Byte.x09; Byte.x08]]) in
  server.1 = Ok sample_protocol /\ pending server.2 = [Byte.x07] /\ client.1 = Ok sample_protocol /\ pending client.2 = [Byte.x09; Byte.x08].
Proof. vm_compute. repeat split. Qed.

Lemma negotiation_agrees_witness : exists hello reply,
  (forall chunks data, Forall (fun c => c <> []) chunks -> List.concat chunks = hello ++ data ->
     exists s, qa_written s = reply /\
       negotiate_server sample_protocols (new_adapter chunks) = (Ok sample_protocol, s) /\ pending s = data) /\
  (forall chunks data, Forall (fun c => c <> []) chunks -> List.concat chunks = reply ++ data ->
     exists s, qa_written s = hello /\
       negotiate_lazy_client sample_protocol (new_adapter chunks) = (Ok sample_protocol, s) /\ pending s = data).
Proof.
  destruct (negotiation_agrees sample_protocols sample_protocol) as (hello & reply & Hs & Hc).
  - split; vm_compute; reflexivity.
  - vm_compute. discriminate.
  - discriminate.
  - assert (bool_decide (sample_protocol ∈ sample_protocols) = true) as E by (vm_compute; reflexivity).
    rewrite E in Hs, Hc. exists hello, reply. split; assumption.
Defined.
