(* ===== verification/Quic.v ===== *)
(** * QUIC connections (node/networking/transport/quic/stream.py, connection.py)

    Streams and connections over aioquic, which is a parameter: what it answers depends on
    the calls made on a connection so far.  A stream is named by its id and lives in its
    connection, a connection lives in the protocol object of aioquic that feeds it events,
    and the manager names protocols by their position.  A call that would suspend returns
    [None] and changes nothing. *)

From S2P Require Import Prelude Pydict Uint Varint StateMonad GossipRpc GossipTopic Sha256 Identity ReqResp Multistream.
From Stdlib Require Import String.

Local Open Scope Z_scope.
Local Open Scope list_scope.

(** One call of [send_stream_data] *)
Record send := { sd_stream : Z; sd_data : bytes; sd_end_stream : bool }.

(** What aioquic answers after the calls it accepted *)
Class Aioquic := {
  get_next_available_stream_id : list send -> Z;
  (** [stream.send_fin] of a stream it tracks *)
  send_fin : list send -> Z -> bool;
  (** the text of the exception that [send_stream_data] raises *)
  rejects : list send -> send -> option string
}.

(** ** Streams *)
Record QuicStream := {
  st_read_buffer : list bytes;
  st_closed : bool;
  st_write_closed : bool;
  st_read_closed : bool;
  st_reset_error : option Z;
  st_protocol_id : ProtocolId
}.
Definition new_stream : QuicStream := {|
  st_read_buffer := []; st_closed := false; st_write_closed := false; st_read_closed := false; st_reset_error := None; st_protocol_id := [] |}.

Definition with_read_buffer (buffer : list bytes) (s : QuicStream) : QuicStream := {|
  st_read_buffer := buffer; st_closed := st_closed s; st_write_closed := st_write_closed s; st_read_closed := st_read_closed s;
  st_reset_error := st_reset_error s; st_protocol_id := st_protocol_id s |}.
Definition with_flags (closed write_closed read_closed : bool) (s : QuicStream) : QuicStream := {|
  st_read_buffer := st_read_buffer s; st_closed := closed; st_write_closed := write_closed; st_read_closed := read_closed;
  st_reset_error := st_reset_error s; st_protocol_id := st_protocol_id s |}.
Definition with_protocol_id (protocol : ProtocolId) (s : QuicStream) : QuicStream := {|
  st_read_buffer := st_read_buffer s; st_closed := st_closed s; st_write_closed := st_write_closed s; st_read_closed := st_read_closed s;
  st_reset_error := st_reset_error s; st_protocol_id := protocol |}.

Definition _receive_data (data : bytes) (s : QuicStream) : QuicStream := with_read_buffer (st_read_buffer s ++ [data]) s.
Definition _receive_end (s : QuicStream) : QuicStream := with_read_buffer (st_read_buffer s ++ [[]]) s.
Definition _receive_reset (error_code : Z) (s : QuicStream) : QuicStream := {|
  st_read_buffer := st_read_buffer s ++ [[]]; st_closed := st_closed s; st_write_closed := st_write_closed s;
  st_read_closed := st_read_closed s; st_reset_error := Some error_code; st_protocol_id := st_protocol_id s |}.

Record QuicConnection := {
  qc_peer_id : PeerId;
  qc_remote_address : bytes;
  qc_streams : dict Z QuicStream;
  qc_incoming_streams : list Z;
  qc_closed : bool;
  qc_sent : list send;
  qc_quic_closed : bool
}.
Definition new_connection (peer_id : PeerId) (remote_address : bytes) : QuicConnection := {|
  qc_peer_id := peer_id; qc_remote_address := remote_address; qc_streams := []; qc_incoming_streams := []; qc_closed := false;
  qc_sent := []; qc_quic_closed := false |}.

Definition on_streams (f : dict Z QuicStream -> dict Z QuicStream) (c : QuicConnection) : QuicConnection := {|
  qc_peer_id := qc_peer_id c; qc_remote_address := qc_remote_address c; qc_streams := f (qc_streams c);
  qc_incoming_streams := qc_incoming_streams c; qc_closed := qc_closed c; qc_sent := qc_sent c; qc_quic_closed := qc_quic_closed c |}.
Definition on_stream (id : Z) (f : QuicStream -> QuicStream) : QuicConnection -> QuicConnection :=
  on_streams (fun d => match dget id d with Some s => dset id (f s) d | None => d end).
Definition with_incoming (ids : list Z) (c : QuicConnection) : QuicConnection := {|
  qc_peer_id := qc_peer_id c; qc_remote_address := qc_remote_address c; qc_streams := qc_streams c;
  qc_incoming_streams := ids; qc_closed := qc_closed c; qc_sent := qc_sent c; qc_quic_closed := qc_quic_closed c |}.
Definition with_closed (closed quic_closed : bool) (c : QuicConnection) : QuicConnection := {|
  qc_peer_id := qc_peer_id c; qc_remote_address := qc_remote_address c; qc_streams := qc_streams c;
  qc_incoming_streams := qc_incoming_streams c; qc_closed := closed; qc_sent := qc_sent c; qc_quic_closed := quic_closed |}.
Definition record_send (s : send) (c : QuicConnection) : QuicConnection := {|
  qc_peer_id := qc_peer_id c; qc_remote_address := qc_remote_address c; qc_streams := qc_streams c;
  qc_incoming_streams := qc_incoming_streams c; qc_closed := qc_closed c; qc_sent := qc_sent c ++ [s]; qc_quic_closed := qc_quic_closed c |}.

Abbreviation Q := (M QuicConnection).

(** A stream object is registered in its connection. *)
Definition get_stream (id : Z) : Q QuicStream :=
  found ← gets (fun c => dget id (qc_streams c));
  raising (of_option KeyError found).

(** [read()]; [None] when it waits for data *)
Definition read (id : Z) : Q (option bytes) :=
  s ← get_stream id;
  let ended : Q (option bytes) := match st_reset_error s with Some _ => raising (Err QuicTransportError) | None => mret (Some []) end in
  if st_read_closed s then ended
  else
    match st_read_buffer s with
    | [] => mret None
    | data :: rest =>
        _ ← modify (on_stream id (with_read_buffer rest));
        if Zlen data =? 0 then
          _ ← modify (on_stream id (fun s => with_flags (st_closed s) (st_write_closed s) true s));
          ended
        else mret (Some data)
    end.

Section Sending.
Context `{Aioquic}.

(** [send_stream_data] and [transmit] *)
Definition send_stream_data (id : Z) (data : bytes) (end_stream : bool) : Q (option string) :=
  let call := {| sd_stream := id; sd_data := data; sd_end_stream := end_stream |} in
  refused ← gets (fun c => rejects (qc_sent c) call);
  match refused with
  | None => _ ← modify (record_send call); mret None
  | Some text => mret (Some text)
  end.
(** [needle in text] *)
Fixpoint contains (needle text : string) : bool :=
  String.prefix needle text || match text with EmptyString => false | String _ rest => contains needle rest end.
Definition lower_ascii (a : Ascii.ascii) : Ascii.ascii :=
  let n := Ascii.nat_of_ascii a in if (65 <=? n)%nat && (n <=? 90)%nat then Ascii.ascii_of_nat (n + 32) else a.
Fixpoint lower (text : string) : string :=
  match text with EmptyString => EmptyString | String a rest => String (lower_ascii a) (lower rest) end.
Definition close_write (id : Z) : Q unit := modify (on_stream id (fun s => with_flags (st_closed s) true (st_read_closed s) s)).

Definition write (id : Z) (data : bytes) : Q unit :=
  s ← get_stream id;
  if st_write_closed s then raising (Err QuicTransportError)
  else
    fin ← gets (fun c => send_fin (qc_sent c) id);
    if fin : bool then _ ← close_write id; raising (Err QuicTransportError)
    else
      refused ← send_stream_data id data false;
      match refused with
      | None => mret tt
      | Some text =>
          _ ← (if contains "FIN" text || contains "closed" (lower text) then close_write id else mret tt);
          raising (Err QuicTransportError)
      end.

(** aioquic refuses with an [AssertionError]. *)
Definition finish_write (id : Z) : Q unit :=
  s ← get_stream id;
  if st_write_closed s then mret tt
  else
    _ ← close_write id;
    refused ← send_stream_data id [] true;
    match refused with None => mret tt | Some _ => raising (Err AssertionError) end.

Definition close (id : Z) : Q unit :=
  s ← get_stream id;
  if st_closed s then mret tt
  else
    _ ← modify (on_stream id (with_flags true true true));
    refused ← send_stream_data id [] true;
    match refused with None => mret tt | Some _ => raising (Err AssertionError) end.

(** ** Connections *)

(** The bytes of a negotiation message, which the adapter writes at once *)
Definition negotiation_bytes (message : bytes) : bytes := qa_written (_write_negotiation_message message (new_adapter [])).2.

(** [incoming] is what the reads of the new stream return; the adapter of the negotiation
    is dropped with what it has buffered. *)
Definition open_stream (protocol : ProtocolId) (incoming : list bytes) : Q Z :=
  closed ← gets qc_closed;
  if closed : bool then raising (Err QuicTransportError)
  else
    stream_id ← gets (fun c => get_next_available_stream_id (qc_sent c));
    _ ← modify (on_streams (dset stream_id new_stream));
    _ ← write stream_id (negotiation_bytes MULTISTREAM_PROTOCOL_ID);
    _ ← write stream_id (negotiation_bytes protocol);
    let '(negotiated, adapter) := negotiate_lazy_client protocol (new_adapter incoming) in
    _ ← modify (on_stream stream_id (with_read_buffer (qa_incoming adapter)));
    protocol_id ← raising negotiated;
    _ ← modify (on_stream stream_id (with_protocol_id protocol_id));
    mret stream_id.

(** [None] when it waits for a stream *)
Definition accept_stream : Q (option Z) :=
  closed ← gets qc_closed;
  if closed : bool then raising (Err QuicTransportError)
  else
    queue ← gets qc_incoming_streams;
    match queue with
    | [] => mret None
    | id :: rest => _ ← modify (with_incoming rest); mret (Some id)
    end.

Definition close_connection : Q unit :=
  closed ← gets qc_closed;
  if closed : bool then mret tt
  else
    _ ← modify (fun c => with_closed true (qc_quic_closed c) c);
    ids ← gets (fun c => dkeys (qc_streams c));
    _ ← for_each ids close;
    modify (fun c => with_closed true true c).
End Sending.

(** ** Events *)
Inductive QuicEvent :=
| StreamDataReceived (stream_id : Z) (data : bytes) (end_stream : bool)
| StreamReset (stream_id : Z) (error_code : Z)
| ConnectionTerminated (error_code : Z)
| HandshakeCompleted
| OtherEvent.

Definition _handle_event (event : QuicEvent) (c : QuicConnection) : QuicConnection :=
  match event with
  | StreamDataReceived stream_id data end_stream =>
      let c :=
        if dmem stream_id (qc_streams c) then c
        else with_incoming (qc_incoming_streams c ++ [stream_id]) (on_streams (dset stream_id new_stream) c) in
      let c := on_stream stream_id (_receive_data data) c in
      if end_stream then on_stream stream_id _receive_end c else c
  | StreamReset stream_id error_code =>
      if dmem stream_id (qc_streams c) then on_stream stream_id (_receive_reset error_code) c else c
  | ConnectionTerminated error_code =>
      on_streams (map (fun e => (e.1, _receive_reset error_code e.2))) (with_closed true (qc_quic_closed c) c)
  | HandshakeCompleted | OtherEvent => c
  end.

(** ** Protocols

    A protocol of a listener has a handshake callback.  [lp_certificate] is the certificate
    that the peer presented in the handshake, [lp_address] the address it is reached at. *)
Record LibP2PQuicProtocol := {
  lp_on_handshake : bool;
  lp_certificate : option Certificate;
  lp_address : bytes * Z;
  lp_connection : option QuicConnection;
  lp_verified_peer_id : option PeerId;
  lp_verification_error : option exn;
  lp_handshake_complete : bool;
  lp_buffered_events : list QuicEvent;
  lp_closed : bool
}.
Definition new_protocol (server : bool) (certificate : option Certificate) (address : bytes * Z) : LibP2PQuicProtocol := {|
  lp_on_handshake := server; lp_certificate := certificate; lp_address := address; lp_connection := None; lp_verified_peer_id := None;
  lp_verification_error := None; lp_handshake_complete := false; lp_buffered_events := []; lp_closed := false |}.
Definition with_connection (c : option QuicConnection) (events : list QuicEvent) (p : LibP2PQuicProtocol) : LibP2PQuicProtocol := {|
  lp_on_handshake := lp_on_handshake p; lp_certificate := lp_certificate p; lp_address := lp_address p; lp_connection := c;
  lp_verified_peer_id := lp_verified_peer_id p; lp_verification_error := lp_verification_error p;
  lp_handshake_complete := lp_handshake_complete p; lp_buffered_events := events; lp_closed := lp_closed p |}.
Definition with_verification (peer : option PeerId) (error : option exn) (p : LibP2PQuicProtocol) : LibP2PQuicProtocol := {|
  lp_on_handshake := lp_on_handshake p; lp_certificate := lp_certificate p; lp_address := lp_address p; lp_connection := lp_connection p;
  lp_verified_peer_id := peer; lp_verification_error := error; lp_handshake_complete := true; lp_buffered_events := lp_buffered_events p;
  lp_closed := lp_closed p |}.
Definition close_quic (p : LibP2PQuicProtocol) : LibP2PQuicProtocol := {|
  lp_on_handshake := lp_on_handshake p; lp_certificate := lp_certificate p; lp_address := lp_address p; lp_connection := lp_connection p;
  lp_verified_peer_id := lp_verified_peer_id p; lp_verification_error := lp_verification_error p;
  lp_handshake_complete := lp_handshake_complete p; lp_buffered_events := lp_buffered_events p; lp_closed := true |}.

Definition _replay_buffered_events (p : LibP2PQuicProtocol) : LibP2PQuicProtocol :=
  match lp_connection p with
  | Some c => with_connection (Some (foldl (fun c e => _handle_event e c) c (lp_buffered_events p))) [] p
  | None => p
  end.
(** [protocol.connection = connection; protocol._replay_buffered_events()] *)
Definition assign_connection (peer_id : PeerId) (remote_address : bytes) (p : LibP2PQuicProtocol) : LibP2PQuicProtocol :=
  _replay_buffered_events (with_connection (Some (new_connection peer_id remote_address)) (lp_buffered_events p) p).

(** The verification at the end of the handshake; the exception is recorded when it is a
    [QuicTransportError], and escapes otherwise. *)
Definition complete_handshake `{Secp256k1} (p : LibP2PQuicProtocol) : result LibP2PQuicProtocol :=
  match match lp_certificate p with None => Err QuicTransportError | Some certificate => verify_libp2p_certificate certificate end with
  | Ok peer_id => Ok (with_verification (Some peer_id) (lp_verification_error p) p)
  | Err QuicTransportError => Ok (with_verification (lp_verified_peer_id p) (Some QuicTransportError) p)
  | Err e => Err e
  end.

(** The callback of a listener *)
Definition handle_handshake (p : LibP2PQuicProtocol) : result LibP2PQuicProtocol :=
  match lp_verification_error p with
  | Some _ => Ok (close_quic p)
  | None =>
      verified_peer_id ← of_option AssertionError (lp_verified_peer_id p);
      let '(host, udp_port) := lp_address p in
      let remote_address := str "/ip4/" ++ host ++ str "/udp/" ++ str_of_uint64 udp_port ++ str "/quic-v1/p2p/" ++ peer_id_str verified_peer_id in
      Ok (assign_connection verified_peer_id remote_address p)
  end.

Definition quic_event_received `{Secp256k1} (event : QuicEvent) (p : LibP2PQuicProtocol) : result LibP2PQuicProtocol :=
  p ← match event with
      | HandshakeCompleted =>
          p ← complete_handshake p;
          if lp_on_handshake p && negb (bool_decide (is_Some (lp_connection p))) then handle_handshake p else Ok p
      | _ => Ok p
      end;
  Ok (match lp_connection p with
      | Some c => with_connection (Some (_handle_event event c)) (lp_buffered_events p) p
      | None => if lp_handshake_complete p then with_connection None (lp_buffered_events p ++ [event]) p else p
      end).

(** ** Addresses *)
Definition strip (c : Byte.byte) (l : bytes) : bytes := rev (lstrip c (rev (lstrip c l))).

Definition is_quic_multiaddr (multiaddr : bytes) : bool :=
  let components := split slash multiaddr in
  bool_decide (str "quic" ∈ components) || bool_decide (str "quic-v1" ∈ components).

Record address := { ad_host : option bytes; ad_port : option Z; ad_transport : option bytes; ad_peer_id : option PeerId }.
(** The loop of [parse_multiaddr] *)
Fixpoint parse_components (components : list bytes) (a : address) : result address :=
  match components with
  | [] => Ok a
  | name :: rest =>
      match rest with
      | v :: rest' =>
          if bool_decide (name = str "ip4") then
            parse_components rest' {| ad_host := Some v; ad_port := ad_port a; ad_transport := ad_transport a; ad_peer_id := ad_peer_id a |}
          else if bool_decide (name = str "udp") then
            port ← int_of_str v;
            parse_components rest' {| ad_host := ad_host a; ad_port := Some port; ad_transport := ad_transport a; ad_peer_id := ad_peer_id a |}
          else if bool_decide (name ∈ [str "quic"; str "quic-v1"]) then
            parse_components rest {| ad_host := ad_host a; ad_port := ad_port a; ad_transport := Some (str "quic"); ad_peer_id := ad_peer_id a |}
          else if bool_decide (name = str "p2p") then
            peer_id ← from_base58 v;
            parse_components rest' {| ad_host := ad_host a; ad_port := ad_port a; ad_transport := ad_transport a; ad_peer_id := Some peer_id |}
          else parse_components rest a
      | [] =>
          if bool_decide (name ∈ [str "quic"; str "quic-v1"]) then
            Ok {| ad_host := ad_host a; ad_port := ad_port a; ad_transport := Some (str "quic"); ad_peer_id := ad_peer_id a |}
          else Ok a
      end
  end.
Definition parse_multiaddr (multiaddr : bytes) : result (bytes * Z * option bytes * option PeerId) :=
  a ← parse_components (split slash (strip slash multiaddr)) {| ad_host := None; ad_port := None; ad_transport := None; ad_peer_id := None |};
  host ← of_option ValueError (ad_host a);
  port ← of_option ValueError (ad_port a);
  Ok (host, port, ad_transport a, ad_peer_id a).

(** ** The manager *)
Record QuicConnectionManager := {
  cm_protocols : list LibP2PQuicProtocol;
  cm_connections : dict PeerId nat;
  (** the connections of [on_connection] callbacks that are scheduled *)
  cm_scheduled : list nat
}.
Definition new_manager : QuicConnectionManager := {| cm_protocols := []; cm_connections := []; cm_scheduled := [] |}.

(** The multiaddr names a QUIC address and a peer. *)
Definition dial_target (multiaddr : bytes) : result (bytes * Z * PeerId) :=
  '(host, port, transport, expected_peer_id) ← parse_multiaddr multiaddr;
  check! bool_decide (transport = Some (str "quic")) else QuicTransportError;;
  expected ← of_option QuicTransportError expected_peer_id;
  Ok (host, port, expected).

(** [quic host port] is the outcome of [quic_connect] and of waiting for the handshake: the
    protocol, with the events it buffered. *)
Definition connect (quic : bytes -> Z -> result LibP2PQuicProtocol) (multiaddr : bytes) : M QuicConnectionManager nat :=
  '(host, port, expected_peer_id) ← raising (dial_target multiaddr);
  p ← raising (match quic host port with Ok p => Ok p | Err _ => Err QuicTransportError end);
  match lp_verification_error p, lp_verified_peer_id p with
  | Some _, _ | None, None => raising (Err QuicTransportError)
  | None, Some verified_peer_id =>
      if negb (bool_decide (verified_peer_id = expected_peer_id)) then raising (Err QuicTransportError)
      else
        i ← gets (fun m => List.length (cm_protocols m));
        _ ← modify (fun m => {| cm_protocols := cm_protocols m ++ [assign_connection expected_peer_id multiaddr p];
                                cm_connections := dset expected_peer_id i (cm_connections m); cm_scheduled := cm_scheduled m |});
        mret i
  end.

Definition listen_address (multiaddr : bytes) : result (bytes * Z) :=
  '(host, port, transport, _) ← parse_multiaddr multiaddr;
  check! bool_decide (transport = Some (str "quic")) else QuicTransportError;;
  Ok (host, port).
(** aioquic creates a protocol for a peer that connects. *)
Definition create_protocol (certificate : option Certificate) (host_port : bytes * Z) : M QuicConnectionManager nat :=
  i ← gets (fun m => List.length (cm_protocols m));
  _ ← modify (fun m => {| cm_protocols := cm_protocols m ++ [new_protocol true certificate host_port];
                          cm_connections := cm_connections m; cm_scheduled := cm_scheduled m |});
  mret i.
(** aioquic delivers an event to a protocol; the callback of a listener registers the
    connection it makes and schedules [on_connection]. *)
Definition deliver `{Secp256k1} (i : nat) (event : QuicEvent) : M QuicConnectionManager unit :=
  found ← gets (fun m => cm_protocols m !! i);
  p ← raising (of_option KeyError found);
  p' ← raising (quic_event_received event p);
  _ ← modify (fun m => {| cm_protocols := <[i := p']> (cm_protocols m); cm_connections := cm_connections m; cm_scheduled := cm_scheduled m |});
  match lp_connection p, lp_connection p' with
  | None, Some c =>
      modify (fun m => {| cm_protocols := cm_protocols m; cm_connections := dset (qc_peer_id c) i (cm_connections m);
                          cm_scheduled := cm_scheduled m ++ [i] |})
  | _, _ => mret tt
  end.
