(* ===== verification/QuicCorrect.v ===== *)
(** * QUIC connections: theorems

    What a connection delivers to the readers of its streams, that events of the handshake
    are not lost, and that a connection is only ever registered for the peer that proved
    its identity. *)

From S2P Require Import Prelude Pydict Uint Varint StateMonad GossipRpc GossipTopic Sha256 Identity ReqResp Multistream Quic.
From Stdlib Require Import String.

Local Open Scope Z_scope.
Local Open Scope list_scope.

(** ** Reading *)

(** What events bring to a stream, which exists from its first data on *)
Inductive arrival := Chunk (data : bytes) | End | Reset.
Fixpoint arrivals (id : Z) (opened : bool) (events : list QuicEvent) : list arrival :=
  match events with
  | [] => []
  | StreamDataReceived i data end_stream :: events =>
      if decide (i = id) then Chunk data :: (if end_stream then [End] else []) ++ arrivals id true events else arrivals id opened events
  | StreamReset i _ :: events => (if opened && bool_decide (i = id) then [Reset] else []) ++ arrivals id opened events
  | ConnectionTerminated _ :: events => (if opened then [Reset] else []) ++ arrivals id opened events
  | _ :: events => arrivals id opened events
  end.

(** What reads return in turn, when they do *)
Inductive outcome := Data (data : bytes) | EndOfStream | Waits | Raises.
Fixpoint contents (l : list arrival) : list bytes :=
  match l with
  | Chunk (x :: data) :: l => (x :: data) :: contents l
  | _ => []
  end.
Definition nonempty (a : arrival) : bool := match a with Chunk (_ :: _) => true | _ => false end.
Definition is_reset (a : arrival) : bool := match a with Reset => true | _ => false end.
Definition ending (l : list arrival) : outcome :=
  if forallb nonempty l then Waits else if existsb is_reset l then Raises else EndOfStream.

Definition read_outcome (r : result (option bytes)) : outcome :=
  match r with
  | Ok (Some []) => EndOfStream
  | Ok (Some data) => Data data
  | Ok None => Waits
  | Err _ => Raises
  end.
Fixpoint reads (n : nat) (id : Z) (c : QuicConnection) : list outcome :=
  match n with
  | O => []
  | S n => let '(r, c) := read id c in read_outcome r :: reads n id c
  end.

Definition handle_events (events : list QuicEvent) (c : QuicConnection) : QuicConnection := foldl (fun c e => _handle_event e c) c events.

(** The stream that has received [l] and from which nothing was read *)
Definition chunk_of (a : arrival) : bytes := match a with Chunk data => data | _ => [] end.
Definition holds (s : QuicStream) (l : list arrival) : Prop :=
  st_read_buffer s = map chunk_of l /\ st_read_closed s = false /\ bool_decide (is_Some (st_reset_error s)) = existsb is_reset l.

Lemma holds_app_data s l data : holds s l -> holds (_receive_data data s) (l ++ [Chunk data]).
Proof. intros (Hb & Hc & Hr). split_and!; cbn; [by rewrite Hb, map_app|done|]. by rewrite existsb_app, Hr, orb_false_r. Qed.
Lemma holds_app_end s l : holds s l -> holds (_receive_end s) (l ++ [End]).
Proof. intros (Hb & Hc & Hr). split_and!; cbn; [by rewrite Hb, map_app|done|]. by rewrite existsb_app, Hr, orb_false_r. Qed.
Lemma holds_app_reset s l code : holds s l -> holds (_receive_reset code s) (l ++ [Reset]).
Proof. intros (Hb & Hc & Hr). split_and!; [cbn; by rewrite Hb, map_app|done|]. rewrite existsb_app, orb_true_r. done. Qed.

Lemma dget_on_stream id i f c : dget id (qc_streams (on_stream i f c)) =
  if decide (id = i) then f <$> dget id (qc_streams c) else dget id (qc_streams c).
Proof.
  cbn. destruct (dget i (qc_streams c)) as [s|] eqn:E; [rewrite dget_dset|]; destruct (decide (id = i)) as [->|]; by rewrite ?E.
Qed.
Lemma dget_map_reset id code (d : dict Z QuicStream) :
  dget id (map (fun e => (e.1, _receive_reset code e.2)) d) = _receive_reset code <$> dget id d.
Proof. induction d as [|[k s] d IH]; [done|]. cbn. by destruct (decide _). Qed.

(** The state of a stream that holds [l], or that does not exist *)
Definition holding (id : Z) (l : list arrival) (c : QuicConnection) : Prop :=
  match dget id (qc_streams c) with Some s => holds s l | None => l = [] end.
Definition opened (id : Z) (c : QuicConnection) : bool := bool_decide (is_Some (dget id (qc_streams c))).

Lemma data_step id i data fin c l : holding id l c ->
  holding id (l ++ arrivals id (opened id c) [StreamDataReceived i data fin]) (_handle_event (StreamDataReceived i data fin) c) /\
  opened id (_handle_event (StreamDataReceived i data fin) c) = bool_decide (i = id) || opened id c.
Proof.
  unfold holding, opened. intros Hl. cbn [_handle_event arrivals]. rewrite !app_nil_r.
  set (c1 := if dmem i (qc_streams c) then c else _).
  assert (exists s, dget i (qc_streams c1) = Some s /\ (dget i (qc_streams c) = Some s \/ dget i (qc_streams c) = None /\ s = new_stream)) as (s & Es & Hs).
  { subst c1. destruct (dmem i (qc_streams c)) eqn:E; [apply dmem_true in E as [s E]; exists s; auto|].
    apply dmem_false in E. exists new_stream. cbn. rewrite dget_dset_eq. auto. }
  assert (forall j, j <> i -> dget j (qc_streams c1) = dget j (qc_streams c)) as Hne.
  { intros j Hj. subst c1. destruct (dmem i (qc_streams c)); [done|]. cbn. by rewrite dget_dset_ne. }
  clearbody c1. destruct (decide (i = id)) as [->|Hi].
  - rewrite (bool_decide_true (id = id)) by done. cbn [orb].
    assert (holds s l) as Hh by (destruct Hs as [Hs|[Hs ->]]; rewrite Hs in Hl; [done|subst l; done]).
    assert (dget id (qc_streams (on_stream id (_receive_data data) c1)) = Some (_receive_data data s)) as E1.
    { by rewrite dget_on_stream, decide_True, Es. }
    destruct fin; rewrite ?dget_on_stream, ?decide_True, ?Es by done; cbn [fmap option_fmap option_map].
    + split; [|by apply bool_decide_eq_true]. change [Chunk data; End] with ([Chunk data] ++ [End]). rewrite app_assoc.
      by apply holds_app_end, holds_app_data.
    + split; [|by apply bool_decide_eq_true]. by apply holds_app_data.
  - rewrite app_nil_r, (bool_decide_false (i = id)) by done. cbn [orb].
    assert (dget id (qc_streams (if fin then on_stream i _receive_end (on_stream i (_receive_data data) c1) else on_stream i (_receive_data data) c1)) =
      dget id (qc_streams c)) as ->; [|done].
    destruct fin; rewrite !dget_on_stream, !decide_False by done; by apply Hne.
Qed.

Lemma event_step id e c l : holding id l c ->
  holding id (l ++ arrivals id (opened id c) [e]) (_handle_event e c) /\
  forall events, arrivals id (opened id c) (e :: events) = arrivals id (opened id c) [e] ++ arrivals id (opened id (_handle_event e c)) events.
Proof.
  intros Hl. destruct e as [i data fin|i code|code| |]; [|..|by cbn; rewrite app_nil_r|by cbn; rewrite app_nil_r].
  - destruct (data_step id i data fin c l Hl) as [Hh Ho]. split; [done|]. intros events. rewrite Ho. cbn [arrivals].
    destruct (decide (i = id)) as [->|Hi]; [rewrite bool_decide_true by done|rewrite bool_decide_false by done; done].
    cbn [orb app]. by rewrite app_nil_r.
  - cbn [_handle_event arrivals]. rewrite app_nil_r. unfold holding, opened in *. destruct (dmem i (qc_streams c)) eqn:E.
    + rewrite dget_on_stream. destruct (decide (id = i)) as [->|Hi].
      * destruct (dget i (qc_streams c)) as [s|] eqn:Es; cbn [fmap option_fmap option_map].
        -- rewrite (bool_decide_true (is_Some (Some s))), bool_decide_true by (done || by eexists). cbn [andb app].
           split; [by apply holds_app_reset|]. intros events. by rewrite (bool_decide_true (is_Some _)) by (by eexists).
        -- apply dmem_true in E. rewrite Es in E. by destruct E.
      * rewrite (bool_decide_false (i = id)) by congruence. rewrite andb_false_r. cbn [app]. by rewrite app_nil_r.
    + apply dmem_false in E. destruct (decide (i = id)) as [->|Hi].
      * rewrite E in *. rewrite (bool_decide_false (is_Some None)) by (by intros [? ?]). cbn [andb app]. by rewrite app_nil_r.
      * rewrite (bool_decide_false (i = id)) by done. rewrite andb_false_r. cbn [app]. by rewrite app_nil_r.
  - cbn [_handle_event arrivals]. rewrite app_nil_r. unfold holding, opened in *. cbn [qc_streams on_streams with_closed].
    rewrite dget_map_reset. destruct (dget id (qc_streams c)) as [s|]; cbn [fmap option_fmap option_map].
    + rewrite (bool_decide_true (is_Some (Some s))) by (by eexists). split; [by apply holds_app_reset|]. intros events.
      by rewrite (bool_decide_true (is_Some _)) by (by eexists).
    + rewrite (bool_decide_false (is_Some None)) by (by intros [? ?]). by rewrite app_nil_r.
Qed.

Lemma events_hold id events : forall c l, holding id l c -> holding id (l ++ arrivals id (opened id c) events) (handle_events events c).
Proof.
  induction events as [|e events IH]; intros c l Hl; [cbn; by rewrite app_nil_r|]. destruct (event_step id e c l Hl) as [Hh Ha].
  rewrite Ha, app_assoc. by apply IH.
Qed.

(** What the reads of a stream return, from what it has buffered *)
Definition ended (reset : bool) : outcome := if reset then Raises else EndOfStream.
Definition after_last (l : list arrival) (reset : bool) : outcome := if forallb nonempty l then Waits else ended reset.

Lemma read_closed_stream id c s : dget id (qc_streams c) = Some s -> st_read_closed s = true ->
  read_outcome (read id c).1 = ended (bool_decide (is_Some (st_reset_error s))) /\ (read id c).2 = c.
Proof.
  intros Es Hc. unfold read, get_stream. rewrite (run_bind _ _ c s c) by (rewrite run_gets, Es; done). cbn beta zeta. rewrite Hc.
  by destruct (st_reset_error s).
Qed.

Lemma reads_closed id n : forall c s, dget id (qc_streams c) = Some s -> st_read_closed s = true ->
  reads n id c = replicate n (ended (bool_decide (is_Some (st_reset_error s)))).
Proof.
  induction n as [|n IH]; intros c s Es Hc; [done|]. cbn [reads replicate]. destruct (read_closed_stream id c s Es Hc) as [Ho Ec].
  destruct (read id c) as [r c']. cbn in Ho, Ec. subst c'. rewrite Ho. f_equal. by apply IH.
Qed.

Lemma take_replicate_self {A} n (x : A) : take n (replicate n x) = replicate n x.
Proof. apply take_ge. by rewrite length_replicate. Qed.

Lemma read_open_stream id c s : dget id (qc_streams c) = Some s -> st_read_closed s = false ->
  read id c =
  match st_read_buffer s with
  | [] => (Ok None, c)
  | data :: rest =>
      let c1 := on_stream id (with_read_buffer rest) c in
      if Zlen data =? 0 then
        (match st_reset_error s with Some _ => Err QuicTransportError | None => Ok (Some []) end,
         on_stream id (fun s => with_flags (st_closed s) (st_write_closed s) true s) c1)
      else (Ok (Some data), c1)
  end.
Proof.
  intros Es Hc. unfold read, get_stream. rewrite (run_bind _ _ c s c) by (rewrite run_gets, Es; done). cbn beta zeta. rewrite Hc.
  destruct (st_read_buffer s) as [|data rest]; [done|]. rewrite run_modify. cbn zeta. destruct (Zlen data =? 0); [|done].
  rewrite run_modify. by destruct (st_reset_error s).
Qed.

Lemma reads_buffered id n : forall c s l, dget id (qc_streams c) = Some s -> st_read_closed s = false -> st_read_buffer s = map chunk_of l ->
  reads n id c = take n (map Data (contents l) ++ replicate n (after_last l (bool_decide (is_Some (st_reset_error s))))).
Proof.
  induction n as [|n IH]; intros c s l Es Hc Hb; [by rewrite take_0|]. cbn [reads].
  rewrite (read_open_stream id c s Es Hc), Hb. destruct l as [|a l]; cbn [map]; cbn zeta.
  { cbn. f_equal. rewrite (IH c s [] Es Hc Hb). reflexivity. }
  set (c1 := on_stream id (with_read_buffer (map chunk_of l)) c).
  assert (dget id (qc_streams c1) = Some (with_read_buffer (map chunk_of l) s)) as E1 by (subst c1; by rewrite dget_on_stream, decide_True, Es).
  unfold after_last. destruct a as [[|x data]| |]; cbn [chunk_of contents map app forallb nonempty andb].
  2: { rewrite (proj2 (Z.eqb_neq _ _)) by (cbn [List.length]; lia). cbn [read_outcome take]. f_equal.
       rewrite (IH c1 _ l E1 Hc eq_refl). cbn [st_reset_error with_read_buffer]. fold (after_last l (bool_decide (is_Some (st_reset_error s)))).
       rewrite !take_app, !length_map. f_equal. rewrite !take_replicate. f_equal. lia. }
  all: change (Zlen [] =? 0) with true; cbn match.
  all: set (c2 := on_stream id (fun s => with_flags (st_closed s) (st_write_closed s) true s) c1).
  all: assert (dget id (qc_streams c2) = Some (with_flags (st_closed s) (st_write_closed s) true (with_read_buffer (map chunk_of l) s))) as E2
         by (subst c2; rewrite dget_on_stream, decide_True, E1; done).
  all: cbn [replicate take app]; rewrite (reads_closed id n c2 _ E2 eq_refl), take_replicate_self; cbn [st_reset_error with_flags with_read_buffer].
  all: f_equal; by destruct (st_reset_error s).
Qed.

(** ** Acceptance *)
Definition data_stream (e : QuicEvent) : option Z := match e with StreamDataReceived i _ _ => Some i | _ => None end.

Lemma keys_on_stream i f c : dkeys (qc_streams (on_stream i f c)) = dkeys (qc_streams c).
Proof.
  cbn. destruct (dget i (qc_streams c)) as [s|] eqn:E; [|done]. apply dkeys_dset_in. by eapply dget_Some_key.
Qed.

Lemma events_accept events : forall c, dkeys (qc_streams c) = qc_incoming_streams c ->
  let c' := handle_events events c in
  dkeys (qc_streams c') = qc_incoming_streams c' /\ qc_incoming_streams c' = foldl (fun ids i => sadd i ids) (qc_incoming_streams c) (omap data_stream events).
Proof.
  induction events as [|e events IH]; intros c Hc; [done|]. cbn [handle_events foldl omap list_omap].
  assert (dkeys (qc_streams (_handle_event e c)) = qc_incoming_streams (_handle_event e c) /\
    qc_incoming_streams (_handle_event e c) = match data_stream e with Some i => sadd i (qc_incoming_streams c) | None => qc_incoming_streams c end) as [Hk Hi].
  { destruct e as [i data fin|i code|code| |]; cbn [_handle_event data_stream]; [|by destruct (dmem _ _); rewrite ?keys_on_stream| |done..].
    - set (c1 := if dmem i (qc_streams c) then c else _).
      assert (dkeys (qc_streams c1) = qc_incoming_streams c1 /\ qc_incoming_streams c1 = sadd i (qc_incoming_streams c)) as [H1 H2].
      { subst c1. unfold sadd. destruct (dmem i (qc_streams c)) eqn:E.
        - apply dmem_true, dget_is_Some in E. rewrite Hc in E. by rewrite decide_True.
        - apply dmem_false, dget_None in E. cbn. rewrite dset_notin by done. unfold dkeys in *. rewrite fmap_app, Hc, decide_False by (by rewrite <- Hc). done. }
      clearbody c1. destruct fin; rewrite !keys_on_stream; by rewrite H1.
    - cbn. split; [|done]. rewrite <- Hc. unfold dkeys. rewrite <- list_fmap_compose. done. }
  destruct (IH _ Hk) as [Hk' Hi']. split; [exact Hk'|]. change (foldl _ (_handle_event e c) events) with (handle_events events (_handle_event e c)).
  rewrite Hi', Hi. by destruct (data_stream e).
Qed.

(** C24: a connection keeps its streams apart.  Whatever events arrive in whatever order,
    each stream the peer opens is queued for acceptance once, in the order in which the
    streams first brought data, and its reads return exactly its own data, in order: then
    they wait while the stream is open, return the empty string for ever once the peer has
    finished it, and raise for ever once it was reset or the connection was lost. *)
Theorem streams_deliver (peer address : bytes) (events : list QuicEvent) :
  let c := handle_events events (new_connection peer address) in
  qc_incoming_streams c = set_of (omap data_stream events) /\
  forall id n, id ∈ omap data_stream events ->
    let l := arrivals id false events in
    reads n id c = take n (map Data (contents l) ++ replicate n (ending l)).
Proof.
  intros c. destruct (events_accept events (new_connection peer address) eq_refl) as [Hk Hi]. fold c in Hk, Hi. split; [exact Hi|].
  intros id n Hid l. pose proof (events_hold id events (new_connection peer address) [] eq_refl) as Hh. fold c in Hh.
  change (opened id (new_connection peer address)) with false in Hh. change ([] ++ ?x) with x in Hh. fold l in Hh. unfold holding in Hh.
  destruct (dget id (qc_streams c)) as [s|] eqn:Es.
  - destruct Hh as (Hb & Hc & Hr). rewrite (reads_buffered id n c s l Es Hc Hb). unfold ending, after_last, ended. by rewrite Hr.
  - apply dget_None in Es. rewrite Hk, Hi in Es. destruct Es. by apply elem_of_set_of.
Qed.

(** Two interleaved streams: one is finished, and the connection is lost before the other is. *)
Definition sample_quic_events : list QuicEvent :=
  [StreamDataReceived 1 [Byte.x0a] false; StreamDataReceived 5 [Byte.x0b] false; StreamDataReceived 1 [Byte.x0c] false; StreamReset 9 7;
   StreamDataReceived 5 [Byte.x0d] true].
Lemma streams_deliver_witness :
  reads 3 1 (handle_events sample_quic_events (new_connection [] [])) = [Data [Byte.x0a]; Data [Byte.x0c]; Waits] /\
  reads 4 5 (handle_events sample_quic_events (new_connection [] [])) = [Data [Byte.x0b]; Data [Byte.x0d]; EndOfStream; EndOfStream].
Proof.
  destruct (streams_deliver [] [] sample_quic_events) as [_ Hr]. split.
  - apply (Hr 1 3%nat). left.
  - apply (Hr 5 4%nat). right. left.
Defined.
(** A stream that the peer finished, and that is read after the connection ended, raises at
    its end all the same. *)
Example finished_then_terminated :
  reads 2 5 (handle_events (sample_quic_events ++ [ConnectionTerminated 0]) (new_connection [] [])) = [Data [Byte.x0b]; Data [Byte.x0d]] /\
  reads 3 5 (handle_events (sample_quic_events ++ [ConnectionTerminated 0]) (new_connection [] [])) = [Data [Byte.x0b]; Data [Byte.x0d]; Raises].
Proof. split; reflexivity. Qed.

(** ** The handshake *)
Section Handshake.
Context `{Secp256k1}.

Fixpoint receive_events (events : list QuicEvent) (p : LibP2PQuicProtocol) : result LibP2PQuicProtocol :=
  match events with
  | [] => Ok p
  | e :: events => p ← quic_event_received e p; receive_events events p
  end.
Definition no_handshake (e : QuicEvent) : Prop := e <> HandshakeCompleted.

Lemma receive_buffers events : forall p, Forall no_handshake events -> lp_connection p = None -> lp_handshake_complete p = true ->
  receive_events events p = Ok (with_connection None (lp_buffered_events p ++ events) p).
Proof.
  induction events as [|e events IH]; intros p He Hc Hh; [by destruct p; cbn in *; subst; rewrite app_nil_r|].
  inversion He as [|e' l He1 He2]; subst. cbn [receive_events]. unfold quic_event_received.
  assert (match e with HandshakeCompleted => p ← complete_handshake p;
    (if lp_on_handshake p && negb (bool_decide (is_Some (lp_connection p))) then handle_handshake p else Ok p) | _ => Ok p end = Ok p) as ->
    by (by destruct e). mcbn. rewrite Hc, Hh, IH by done. cbn. by rewrite <- app_assoc.
Qed.

Lemma receive_forwards events : forall p c, Forall no_handshake events -> lp_connection p = Some c ->
  receive_events events p = Ok (with_connection (Some (handle_events events c)) (lp_buffered_events p) p).
Proof.
  induction events as [|e events IH]; intros p c He Hc; [by destruct p; cbn in *; subst|].
  inversion He as [|e' l He1 He2]; subst. cbn [receive_events]. unfold quic_event_received.
  assert (match e with HandshakeCompleted => p ← complete_handshake p;
    (if lp_on_handshake p && negb (bool_decide (is_Some (lp_connection p))) then handle_handshake p else Ok p) | _ => Ok p end = Ok p) as ->
    by (by destruct e). mcbn. rewrite Hc. by rewrite (IH _ (_handle_event e c)) by done.
Qed.

(** The extensions of the certificate, if one was presented, can be read. *)
Definition readable (certificate : option Certificate) : Prop :=
  match certificate with Some c => exists found, ct_libp2p c = Ok found | None => True end.

(** When they cannot, the exception escapes from the handler before the handshake is
    marked complete: a dial that waits for it is never woken. *)
Lemma unreadable_certificate_stalls (p : LibP2PQuicProtocol) (certificate : Certificate) (e : exn) :
  lp_certificate p = Some certificate -> ct_libp2p certificate = Err e -> e <> QuicTransportError ->
  quic_event_received HandshakeCompleted p = Err e.
Proof.
  intros Ec Ee Hne. unfold quic_event_received, complete_handshake. rewrite Ec. unfold verify_libp2p_certificate. rewrite Ee. by destruct e.
Qed.

(** A dialed connection has seen every event since the handshake, those that arrived before
    it was created first. *)
Theorem handshake_loses_nothing (certificate : option Certificate) (host_port : bytes * Z) (peer address : bytes)
    (before after : list QuicEvent) :
  readable certificate -> Forall no_handshake before -> Forall no_handshake after ->
  exists p p', receive_events (HandshakeCompleted :: before) (new_protocol false certificate host_port) = Ok p /\
    receive_events after (assign_connection peer address p) = Ok p' /\
    lp_connection p' = Some (handle_events (before ++ after) (new_connection peer address)) /\ lp_buffered_events p' = [].
Proof.
  intros Hrd Hb Ha. cbn [receive_events]. unfold quic_event_received.
  assert (exists p, complete_handshake (new_protocol false certificate host_port) = Ok p /\ lp_connection p = None /\ lp_on_handshake p = false /\
    lp_handshake_complete p = true /\ lp_buffered_events p = []) as (p & -> & Hc & Ho & Hh & He).
  { unfold complete_handshake. cbn [lp_certificate new_protocol]. destruct certificate as [cert|]; [|by eexists].
    destruct Hrd as [found Hf]. pose proof (verify_raises cert found Hf) as Hr. destruct (verify_libp2p_certificate cert) as [q|e]; [by eexists|]. cbn in Hr. subst e. by eexists. }
  mcbn. rewrite Ho. cbn [andb]. mcbn. rewrite Hc, Hh, He. cbn [app]. rewrite receive_buffers by done.
  eexists. eexists. split; [done|]. unfold assign_connection, _replay_buffered_events. cbn [lp_connection with_connection lp_buffered_events].
  rewrite (receive_forwards after _ (handle_events ([HandshakeCompleted] ++ before) (new_connection peer address))) by done.
  split; [done|]. cbn. split; [|done]. f_equal. unfold handle_events. by rewrite foldl_app.
Qed.

(** ** Identity *)

(** The peer a protocol has verified is the one that its certificate proves; its
    connection, if any, is for that peer. *)
Definition proven (p : LibP2PQuicProtocol) (peer : PeerId) : Prop :=
  exists certificate, lp_certificate p = Some certificate /\ verify_libp2p_certificate certificate = Ok peer.
Record sound (p : LibP2PQuicProtocol) : Prop := {
  so_verified peer : lp_verified_peer_id p = Some peer -> proven p peer;
  so_connection c : lp_connection p = Some c -> proven p (qc_peer_id c)
}.

Lemma handle_event_peer e c : qc_peer_id (_handle_event e c) = qc_peer_id c.
Proof. destruct e as [i data []|i code|code| |]; cbn; try done; by destruct (dmem i (qc_streams c)). Qed.
Lemma handle_events_peer events : forall c, qc_peer_id (handle_events events c) = qc_peer_id c.
Proof. induction events as [|e events IH]; intros c; [done|]. etrans; [apply (IH (_handle_event e c))|apply handle_event_peer]. Qed.

Lemma assign_connection_peer peer address p : exists c, lp_connection (assign_connection peer address p) = Some c /\ qc_peer_id c = peer.
Proof. eexists. split; [done|]. apply (handle_events_peer _ (new_connection peer address)). Qed.
Lemma assign_sound peer address p : sound p -> proven p peer -> sound (assign_connection peer address p).
Proof.
  intros [Hv Hc] Hp. split; [exact Hv|]. destruct (assign_connection_peer peer address p) as (c & Ec & <-). rewrite Ec. by intros c' [= <-].
Qed.

Lemma complete_handshake_sound p p' : sound p -> complete_handshake p = Ok p' -> sound p'.
Proof.
  intros [Hv Hc] E. unfold complete_handshake in E. destruct (lp_certificate p) as [certificate|] eqn:Ec.
  - destruct (verify_libp2p_certificate certificate) as [peer|e] eqn:Ev.
    + injection E as <-. split; [|exact Hc]. cbn. intros q [= <-]. by exists certificate.
    + destruct e; try done. injection E as <-. by split.
  - injection E as <-. by split.
Qed.

Lemma received_sound e p p' : sound p -> quic_event_received e p = Ok p' -> sound p'.
Proof.
  intros Hs E. unfold quic_event_received in E. apply bind_Ok in E as (p1 & E1 & E). assert (sound p1) as Hs1.
  { destruct e; try (by injection E1 as <-). apply bind_Ok in E1 as (p2 & E2 & E1). pose proof (complete_handshake_sound p p2 Hs E2) as Hs2.
    destruct (lp_on_handshake p2 && _); [|by injection E1 as <-]. unfold handle_handshake in E1.
    destruct (lp_verification_error p2); [injection E1 as <-; by destruct Hs2|]. apply bind_Ok in E1 as (peer & Ep & E1).
    apply of_option_Ok in Ep. destruct (lp_address p2) as [host port]. injection E1 as <-. by apply assign_sound, (so_verified p2). }
  injection E as <-. destruct Hs1 as [Hv Hc]. destruct (lp_connection p1) as [c|] eqn:Ec.
  - split; [exact Hv|]. cbn. intros c' [= <-]. rewrite handle_event_peer. by apply Hc.
  - destruct (lp_handshake_complete p1); [|split; [exact Hv|by rewrite Ec]]. split; [exact Hv|done].
Qed.
End Handshake.

(** ** The manager *)
Section Manager.
Context `{Secp256k1}.

(** A protocol of an outgoing connection, after events *)
Definition dialed (p : LibP2PQuicProtocol) : Prop := exists certificate host_port events,
  receive_events events (new_protocol false certificate host_port) = Ok p.

Inductive manager_op :=
| Dial (quic : bytes -> Z -> result LibP2PQuicProtocol) (multiaddr : bytes)
| Incoming (certificate : option Certificate) (host_port : bytes * Z)
| Deliver (i : nat) (event : QuicEvent).
Definition manager_op_ok (op : manager_op) : Prop :=
  match op with Dial quic _ => forall host port p, quic host port = Ok p -> dialed p | _ => True end.
(** An operation that raises leaves the manager as it is then. *)
Definition manager_step (op : manager_op) : M QuicConnectionManager unit :=
  catch
    match op with
    | Dial quic multiaddr => _ ← connect quic multiaddr; mret tt
    | Incoming certificate host_port => _ ← create_protocol certificate host_port; mret tt
    | Deliver i event => deliver i event
    end
    (fun _ => mret tt).

(** Connection [i] is for [peer], which its certificate proves. *)
Definition authentic (m : QuicConnectionManager) (peer : PeerId) (i : nat) : Prop := exists p c,
  cm_protocols m !! i = Some p /\ lp_connection p = Some c /\ qc_peer_id c = peer /\ proven p peer.
Record manager_inv (m : QuicConnectionManager) : Prop := {
  mi_sound : Forall sound (cm_protocols m);
  mi_connections peer i : dget peer (cm_connections m) = Some i -> authentic m peer i;
  mi_scheduled i : i ∈ cm_scheduled m -> exists peer, authentic m peer i
}.

Lemma receive_sound events : forall p p', sound p -> receive_events events p = Ok p' -> sound p'.
Proof.
  induction events as [|e events IH]; intros p p' Hs E; [by injection E as <-|]. cbn [receive_events] in E.
  apply bind_Ok in E as (p1 & E1 & E). by eapply IH; [eapply received_sound|].
Qed.
Lemma new_protocol_sound server certificate host_port : sound (new_protocol server certificate host_port).
Proof. by split. Qed.
Lemma dialed_sound p : dialed p -> sound p.
Proof. intros (certificate & host_port & events & E). eapply receive_sound; [apply new_protocol_sound|exact E]. Qed.

Lemma authentic_snoc m p conns scheduled peer i : authentic m peer i ->
  authentic {| cm_protocols := cm_protocols m ++ [p]; cm_connections := conns; cm_scheduled := scheduled |} peer i.
Proof. intros (q & c & Eq & Hq). exists q, c. split; [|exact Hq]. by apply lookup_app_l_Some. Qed.

Lemma connect_authentic quic multiaddr m i m' :
  (forall host port p, quic host port = Ok p -> dialed p) -> manager_inv m -> connect quic multiaddr m = (Ok i, m') ->
  manager_inv m' /\ exists host port peer, dial_target multiaddr = Ok (host, port, peer) /\ dget peer (cm_connections m') = Some i /\ authentic m' peer i.
Proof.
  intros Hq Hm E. unfold connect in E. destruct (dial_target multiaddr) as [[[host port] peer]|e] eqn:Et; [|done].
  rewrite run_raising in E. destruct (quic host port) as [p|e] eqn:Ep; [|done]. rewrite run_raising in E.
  pose proof (dialed_sound p (Hq _ _ _ Ep)) as Hs. destruct (lp_verification_error p); [done|].
  destruct (lp_verified_peer_id p) as [q|] eqn:Ev; [|done]. destruct (bool_decide_reflect (q = peer)) as [->|]; [|done]. cbn [negb] in E.
  rewrite run_gets, run_modify in E. injection E as <- <-. pose proof (so_verified p Hs peer Ev) as Hp.
  destruct (assign_connection_peer peer multiaddr p) as (c & Ec & Epeer).
  assert (authentic {| cm_protocols := cm_protocols m ++ [assign_connection peer multiaddr p];
    cm_connections := dset peer (List.length (cm_protocols m)) (cm_connections m); cm_scheduled := cm_scheduled m |} peer (List.length (cm_protocols m))) as Ha.
  { exists (assign_connection peer multiaddr p), c. split; [by apply list_lookup_middle|done]. }
  split; [|exists host, port, peer; split_and!; [done|apply dget_dset_eq|exact Ha]]. split; cbn [cm_protocols cm_connections cm_scheduled].
  - apply Forall_app. split; [apply Hm|]. constructor; [|constructor]. by apply assign_sound.
  - intros peer' i' E. rewrite dget_dset in E. destruct (decide (peer' = peer)) as [->|]; [by injection E as <-|].
    by apply authentic_snoc, (mi_connections m Hm).
  - intros i' Hi'. destruct (mi_scheduled m Hm i' Hi') as [peer' Hp']. exists peer'. by apply authentic_snoc.
Qed.

Lemma received_connection e p p' c : lp_connection p = Some c -> quic_event_received e p = Ok p' ->
  exists c', lp_connection p' = Some c' /\ qc_peer_id c' = qc_peer_id c.
Proof.
  intros Hc E. unfold quic_event_received in E. apply bind_Ok in E as (p1 & E1 & E). assert (lp_connection p1 = Some c) as Hc1.
  { destruct e; try (injection E1 as <-; exact Hc). apply bind_Ok in E1 as (p2 & E2 & E1).
    assert (lp_connection p2 = Some c) as Hc2.
    { unfold complete_handshake in E2. destruct (match lp_certificate p with None => _ | _ => _ end) as [q|[]]; try done; by injection E2 as <-. }
    rewrite Hc2, bool_decide_true in E1 by (by eexists). cbn [negb] in E1. rewrite andb_false_r in E1. by injection E1 as <-. }
  injection E as <-. rewrite Hc1. cbn. eexists. split; [done|]. apply handle_event_peer.
Qed.

Lemma deliver_inv i e m : manager_inv m -> manager_inv (deliver i e m).2.
Proof.
  intros Hm. unfold deliver. rewrite run_gets. destruct (cm_protocols m !! i) as [p|] eqn:Ep; [|done]. cbn [of_option]. rewrite run_raising.
  destruct (quic_event_received e p) as [p'|] eqn:Er; [|done]. rewrite run_raising, run_modify.
  assert (sound p') as Hs by (eapply received_sound; [|exact Er]; eapply Forall_lookup_1; [apply Hm|exact Ep]).
  set (m1 := {| cm_protocols := <[i := p']> (cm_protocols m); cm_connections := cm_connections m; cm_scheduled := cm_scheduled m |}).
  assert (cm_protocols m1 !! i = Some p') as E1 by (apply list_lookup_insert_eq; by eapply lookup_lt_Some).
  assert (forall peer j, authentic m peer j -> authentic m1 peer j) as Ha.
  { intros peer j (q & c & Eq & Ec & Epeer & Hp). destruct (decide (j = i)) as [->|Hj].
    - rewrite Ep in Eq. injection Eq as <-. destruct (received_connection e p p' c Ec Er) as (c' & Ec' & Ep').
      exists p', c'. split_and!; [done|done|congruence|]. rewrite <- Epeer, <- Ep'. by apply (so_connection p' Hs).
    - exists q, c. split_and!; [|done..]. cbn. by rewrite list_lookup_insert_ne. }
  assert (manager_inv m1) as H1.
  { split; cbn; [by apply Forall_insert; [apply Hm|]|intros; by apply Ha, (mi_connections m Hm)|].
    intros j Hj. destruct (mi_scheduled m Hm j Hj) as [peer Hp]. exists peer. by apply Ha. }
  clearbody m1. destruct (lp_connection p) as [c0|] eqn:E0; [done|]. destruct (lp_connection p') as [c|] eqn:Ec; [|done].
  assert (authentic m1 (qc_peer_id c) i) as Hi by (exists p', c; split_and!; try done; by apply (so_connection p' Hs)). cbn.
  split; cbn [cm_protocols cm_connections cm_scheduled]; [apply H1|..].
  - intros peer j Ej. rewrite dget_dset in Ej. destruct (decide (peer = qc_peer_id c)) as [->|]; [injection Ej as <-; exact Hi|]. by apply (mi_connections m1 H1).
  - intros j [Hj|Hj%list_elem_of_singleton]%elem_of_app; [by apply (mi_scheduled m1 H1)|]. subst j. eexists. exact Hi.
Qed.

Lemma manager_step_inv op m : manager_op_ok op -> manager_inv m -> exists m', manager_step op m = (Ok tt, m') /\ manager_inv m'.
Proof.
  intros Ho Hm. unfold manager_step, catch. destruct op as [quic multiaddr|certificate host_port|i e]; cbn [manager_op_ok] in Ho.
  - unfold mbind at 1, M_bind. destruct (connect quic multiaddr m) as [[i|e] m'] eqn:E; cbn; eexists; (split; [done|]).
    + by eapply connect_authentic.
    + unfold connect in E. destruct (dial_target multiaddr) as [[[host port] peer]|e'] eqn:Et; [|by injection E as <- <-].
      rewrite run_raising in E. destruct (quic host port) as [p|e'] eqn:Ep; [|by injection E as <- <-]. rewrite run_raising in E.
      destruct (lp_verification_error p); [by injection E as <- <-|]. destruct (lp_verified_peer_id p); [|by injection E as <- <-].
      destruct (negb _); [by injection E as <- <-|done].
  - eexists. split; [done|]. cbn. split; cbn; [|intros; by apply authentic_snoc, (mi_connections m Hm)|].
    + apply Forall_app. split; [apply Hm|]. constructor; [apply new_protocol_sound|constructor].
    + intros i Hi. destruct (mi_scheduled m Hm i Hi) as [peer Hp]. exists peer. by apply authentic_snoc.
  - pose proof (deliver_inv i e m Hm) as Hd. destruct (deliver i e m) as [[[]|err] m']; cbn in *; eexists; split; done || exact Hd.
Qed.

Lemma manager_run ops : forall m, Forall manager_op_ok ops -> manager_inv m -> exists m', for_each ops manager_step m = (Ok tt, m') /\ manager_inv m'.
Proof.
  induction ops as [|op ops IH]; intros m Ho Hm; [by exists m|]. inversion Ho as [|op' l H1 H2]; subst.
  destruct (manager_step_inv op m H1 Hm) as (m1 & E1 & Hm1). cbn [for_each]. rewrite (run_bind _ _ _ _ _ E1). by apply IH.
Qed.
End Manager.

(** C14: no connection is registered under a name that was not proven.  Whatever is dialed,
    whoever connects and whatever events arrive in whatever order, every connection that is
    registered for a peer or handed to the node carries the id of a peer whose certificate,
    the one presented in that very handshake, was verified for that id; and a dial that
    succeeds returns a connection to the peer that the address names. *)
Theorem connections_authenticated `{Secp256k1} (ops : list manager_op) :
  Forall manager_op_ok ops ->
  exists m, for_each ops manager_step new_manager = (Ok tt, m) /\
    (forall peer i, dget peer (cm_connections m) = Some i -> authentic m peer i) /\
    (forall i, i ∈ cm_scheduled m -> exists peer, authentic m peer i) /\
    (forall quic multiaddr i m', (forall host port p, quic host port = Ok p -> dialed p) -> connect quic multiaddr m = (Ok i, m') ->
       exists host port peer, dial_target multiaddr = Ok (host, port, peer) /\ dget peer (cm_connections m') = Some i /\ authentic m' peer i).
Proof.
  intros Ho. destruct (manager_run ops new_manager Ho) as (m & E & Hm).
  { split; cbn; [constructor|done|]. by intros i ?%not_elem_of_nil. }
  exists m. split_and!; [done|apply Hm|apply Hm|]. intros quic multiaddr i m' Hq Ec. by apply (connect_authentic quic multiaddr m i m' Hq Hm Ec).
Qed.

(** The node dials one peer, whose certificate names it, and another connects to it. *)
Section Sample.
#[local] Existing Instance sample_curve.

Definition sample_certificate (key : Byte.byte) : option Certificate :=
  match generate_libp2p_certificate (@generate sample_curve key) [Byte.x30; key] with Ok c => Some c | Err _ => None end.
Definition sample_peer_id (key : Byte.byte) : PeerId := match to_peer_id (@generate sample_curve key) with Ok p => p | Err _ => [] end.
Definition sample_multiaddr (key : Byte.byte) : bytes := str "/ip4/10.0.0.1/udp/9000/quic-v1/p2p/" ++ peer_id_str (sample_peer_id key).
Definition sample_quic (key : Byte.byte) (host : bytes) (port : Z) : result LibP2PQuicProtocol :=
  receive_events [HandshakeCompleted; StreamDataReceived 1 [Byte.x01] false] (new_protocol false (sample_certificate key) (host, port)).
Definition sample_manager_ops : list manager_op :=
  [Dial (sample_quic Byte.x07) (sample_multiaddr Byte.x07); Incoming (sample_certificate Byte.x09) (str "10.0.0.2", 4001);
   Deliver 1 HandshakeCompleted; Dial (sample_quic Byte.x08) (sample_multiaddr Byte.x07)].

(** The impostor that answers the last dial is refused. *)
Example impostor_refused :
  dial_target (sample_multiaddr Byte.x07) = Ok (str "10.0.0.1", 9000, sample_peer_id Byte.x07) /\
  (connect (sample_quic Byte.x08) (sample_multiaddr Byte.x07) new_manager).1 = Err QuicTransportError.
Proof. split; vm_compute; reflexivity. Qed.

Lemma connections_authenticated_witness : exists m, for_each sample_manager_ops manager_step new_manager = (Ok tt, m) /\
  dget (sample_peer_id Byte.x07) (cm_connections m) = Some 0%nat /\ authentic m (sample_peer_id Byte.x07) 0 /\
  cm_scheduled m = [1%nat] /\ authentic m (sample_peer_id Byte.x09) 1.
Proof.
  destruct (connections_authenticated sample_manager_ops) as (m & E & Hc & _).
  { repeat constructor; cbn [manager_op_ok]; intros host port p Ep; do 3 eexists; exact Ep. }
  exists m. split; [exact E|]. vm_compute in E. injection E as <-. split; [reflexivity|]. split; [apply Hc; reflexivity|].
  split; [reflexivity|apply Hc; reflexivity].
Defined.
End Sample.

(** ** Closing *)
Section Closing.
Context `{Aioquic}.

Definition finished (id : Z) (sent : list send) : Prop := exists s, s ∈ sent /\ sd_stream s = id /\ sd_end_stream s = true.
(** aioquic takes nothing more for a stream after its FIN. *)
Definition strict : Prop := forall sent call, finished (sd_stream call) sent -> is_Some (rejects sent call).

(** A stream whose FIN is sent and that is not closed *)
Definition half_closed (id : Z) (c : QuicConnection) : Prop :=
  (exists s, dget id (qc_streams c) = Some s /\ st_closed s = false) /\ finished id (qc_sent c).

Lemma close_run id c s : dget id (qc_streams c) = Some s ->
  close id c =
  if st_closed s then (Ok tt, c)
  else
    let c1 := on_stream id (with_flags true true true) c in
    let call := {| sd_stream := id; sd_data := []; sd_end_stream := true |} in
    match rejects (qc_sent c) call with None => (Ok tt, record_send call c1) | Some _ => (Err AssertionError, c1) end.
Proof.
  intros Es. unfold close, get_stream. rewrite (run_bind _ _ c s c) by (rewrite run_gets, Es; done). destruct (st_closed s); [done|].
  rewrite run_modify. unfold send_stream_data. unfold mbind at 1, M_bind at 1. rewrite run_gets. cbn [qc_sent on_stream on_streams].
  by destruct (rejects _ _).
Qed.

Lemma close_half_closed id c : strict -> half_closed id c -> exists c', close id c = (Err AssertionError, c').
Proof.
  intros Hs ((s & Es & Ec) & Hf). rewrite (close_run id c s Es), Ec. cbn zeta.
  destruct (Hs (qc_sent c) {| sd_stream := id; sd_data := []; sd_end_stream := true |} Hf) as [text ->]. by eexists.
Qed.

Definition keeps_flags (c c' : QuicConnection) : Prop := qc_closed c' = qc_closed c /\ qc_quic_closed c' = qc_quic_closed c.

Lemma close_other id i c : is_Some (dget i (qc_streams c)) -> half_closed id c -> i <> id ->
  exists r c', close i c = (r, c') /\ (r = Ok tt \/ r = Err AssertionError) /\ half_closed id c' /\ dkeys (qc_streams c') = dkeys (qc_streams c) /\ keeps_flags c c'.
Proof.
  intros [s Es] Hh Hi. rewrite (close_run i c s Es). destruct (st_closed s); [do 2 eexists; split; [done|]; split_and!; [by left|done..]|].
  cbn zeta. assert (half_closed id (on_stream i (with_flags true true true) c)) as Hh1.
  { destruct Hh as ((s' & Es' & Ec') & Hf). split; [|done]. exists s'. split; [|done]. rewrite dget_on_stream. by rewrite decide_False. }
  destruct (rejects _ _) as [text|]; (do 2 eexists; split; [done|]).
  - split_and!; [by right|done|apply keys_on_stream|done].
  - split_and!; [by left| |apply (keys_on_stream i _ c)|done].
    destruct Hh1 as (Ho & x & Hx & Hx'). split; [done|]. exists x. split; [|done]. cbn. apply elem_of_app. by left.
Qed.

Lemma close_all id ids : forall c, strict -> half_closed id c -> id ∈ ids -> Forall (fun i => is_Some (dget i (qc_streams c))) ids ->
  exists c', for_each ids close c = (Err AssertionError, c') /\ keeps_flags c c'.
Proof.
  induction ids as [|i ids IH]; intros c Hs Hh Hin Hall; [by apply not_elem_of_nil in Hin|]. inversion Hall as [|i' l Hi Hrest]; subst.
  cbn [for_each]. unfold mbind, M_bind. destruct (decide (i = id)) as [->|Hne].
  - destruct Hh as ((s & Es & Ec) & Hf). rewrite (close_run id c s Es), Ec. cbn zeta.
    destruct (Hs (qc_sent c) {| sd_stream := id; sd_data := []; sd_end_stream := true |} Hf) as [text ->]. by eexists.
  - destruct (close_other id i c Hi Hh Hne) as (r & c1 & -> & [->| ->] & Hh1 & Hk & Hf); [|by eexists].
    destruct (IH c1 Hs Hh1) as (c2 & E2 & Hf2).
    + by apply elem_of_cons in Hin as [->|Hin].
    + eapply Forall_impl; [exact Hrest|]. intros j. cbn beta. rewrite !dget_is_Some. by rewrite Hk.
    + exists c2. split; [exact E2|]. destruct Hf as [Hf1 Hf1'], Hf2 as [Hf2 Hf2']. split; congruence.
Qed.
End Closing.

(** C40: a stream on which the node has finished writing cannot be closed, when aioquic
    refuses data after the FIN: [close] sends a second FIN and raises.  So does closing the
    connection of such a stream, which leaves the connection marked closed while QUIC is
    not told, and closing it again does nothing. *)
Theorem half_closed_stream_blocks_close `{Aioquic} (id : Z) (c : QuicConnection) (s : QuicStream) :
  strict -> dget id (qc_streams c) = Some s -> st_write_closed s = false -> st_closed s = false -> qc_closed c = false ->
  rejects (qc_sent c) {| sd_stream := id; sd_data := []; sd_end_stream := true |} = None ->
  exists c1 c2 c3, finish_write id c = (Ok tt, c1) /\ close id c1 = (Err AssertionError, c2) /\
    close_connection c1 = (Err AssertionError, c3) /\ qc_closed c3 = true /\ qc_quic_closed c3 = qc_quic_closed c /\
    close_connection c3 = (Ok tt, c3).
Proof.
  intros Hs Es Hw Hc Hn Hr.
  set (call := {| sd_stream := id; sd_data := []; sd_end_stream := true |}).
  set (c1 := record_send call (on_stream id (fun s => with_flags (st_closed s) true (st_read_closed s) s) c)).
  assert (finish_write id c = (Ok tt, c1)) as E1.
  { unfold finish_write, get_stream. rewrite (run_bind _ _ c s c) by (rewrite run_gets, Es; done). rewrite Hw. unfold close_write.
    rewrite run_modify. unfold send_stream_data. unfold mbind at 1, M_bind at 1. rewrite run_gets. cbn [qc_sent on_stream on_streams].
    fold call in Hr |- *. by rewrite Hr. }
  assert (half_closed id c1) as Hh.
  { split; [|exists call; split; [|done]; cbn; apply elem_of_app; right; by left].
    exists (with_flags (st_closed s) true (st_read_closed s) s). split; [|done]. unfold c1. cbn [record_send qc_streams].
    by rewrite dget_on_stream, decide_True, Es. }
  destruct (close_half_closed id c1 Hs Hh) as [c2 E2].
  assert (exists c3, close_connection c1 = (Err AssertionError, c3) /\ qc_closed c3 = true /\ qc_quic_closed c3 = qc_quic_closed c) as (c3 & E3 & Hc3 & Hq3).
  { unfold close_connection. rewrite run_gets. change (qc_closed c1) with (qc_closed c). rewrite Hn, run_modify, run_gets.
    destruct (close_all id (dkeys (qc_streams c1)) (with_closed true (qc_quic_closed c1) c1) Hs Hh) as (c3 & E3 & Hf1 & Hf2).
    - apply dget_is_Some. destruct Hh as ((s' & Es' & _) & _). by eexists.
    - apply Forall_forall. intros j Hj. by apply dget_is_Some.
    - exists c3. unfold mbind at 1, M_bind at 1. cbn [qc_streams with_closed]. rewrite E3. done. }
  exists c1, c2, c3. split_and!; try done. unfold close_connection. rewrite run_gets, Hc3. done.
Qed.

(** An aioquic that tracks FINs *)
Definition sample_aioquic : Aioquic := {|
  get_next_available_stream_id sent := 4 * Zlen sent;
  send_fin _ _ := false;
  rejects sent call := if existsb (fun s => (sd_stream s =? sd_stream call) && sd_end_stream s) sent then Some "cannot call write() after FIN"%string else None
|}.
Lemma half_closed_stream_blocks_close_witness : exists c1 c2 c3,
  finish_write (H := sample_aioquic) 1 (handle_events [StreamDataReceived 1 [Byte.x01] true] (new_connection [] [])) = (Ok tt, c1) /\
  close (H := sample_aioquic) 1 c1 = (Err AssertionError, c2) /\
  close_connection (H := sample_aioquic) c1 = (Err AssertionError, c3) /\ qc_closed c3 = true /\ qc_quic_closed c3 = false /\
  close_connection (H := sample_aioquic) c3 = (Ok tt, c3).
Proof.
  apply (half_closed_stream_blocks_close (H := sample_aioquic) 1 (handle_events [StreamDataReceived 1 [Byte.x01] true] (new_connection [] []))
    (with_read_buffer [[Byte.x01]; []] new_stream)); try reflexivity.
  intros sent call (s & Hs & Ei & Ee). cbn. rewrite (proj2 (existsb_exists _ _)); [by eexists|].
  exists s. split; [by apply list_elem_of_In|]. rewrite Ei, Ee. by rewrite Z.eqb_refl.
Defined.
