(* ===== verification/Rlp.v ===== *)
(** * Recursive length prefixes (node/networking/enr/rlp.py)

    Byte strings and nested lists of them, as one byte string.  The decoder walks offsets
    of the whole input and recurses into lists; here the recursion and the loop over the
    elements take fuel, of which the length of the input is enough.  Its theorem says which
    strings it accepts, for what item, and that it refuses every other one with its own
    error. *)

From S2P Require Import Prelude Uint Varint GossipRpc GossipTopic Sha256 Identity.
From Stdlib Require Import String.

Local Open Scope Z_scope.
Local Open Scope list_scope.

Inductive RLPItem :=
| RBytes (data : bytes)
| RList (items : list RLPItem).

Definition STRING_BASE : Z := 0x80.
Definition LIST_BASE : Z := 0xC0.
Definition SHORT_FORM_MAX : Z := 55.

Definition _with_length_prefix (payload : bytes) (base : Z) : result bytes :=
  let length := Zlen payload in
  if length <=? SHORT_FORM_MAX then
    prefix ← bytes_of [base + length];
    Ok (prefix ++ payload)
  else
    length_bytes ← to_bytes_be ((bit_length length + 7) / 8) length;
    prefix ← bytes_of [base + SHORT_FORM_MAX + Zlen length_bytes];
    Ok (prefix ++ length_bytes ++ payload).

Fixpoint encode_rlp (item : RLPItem) : result bytes :=
  match item with
  | RBytes data =>
      match data with
      | [b] => if byte.unsigned b <? STRING_BASE then Ok data else _with_length_prefix data STRING_BASE
      | _ => _with_length_prefix data STRING_BASE
      end
  | RList items =>
      encoded_elements ← (fix join (l : list RLPItem) : result bytes :=
        match l with
        | [] => Ok []
        | element :: l => encoded ← encode_rlp element; rest ← join l; Ok (encoded ++ rest)
        end) items;
      _with_length_prefix encoded_elements LIST_BASE
  end.

(** The payload range of a prefix *)
Definition _decode_length (data : bytes) (offset base : Z) : result (Z * Z) :=
  prefix ← byte_at data offset;
  let short_length := prefix - base in
  if short_length <=? SHORT_FORM_MAX then
    let start := offset + 1 in
    let stop := start + short_length in
    check! negb (stop >? Zlen data) else RLPDecodingError;;
    Ok (start, stop)
  else
    let length_of_length := short_length - SHORT_FORM_MAX in
    let length_start := offset + 1 in
    let length_end := length_start + length_of_length in
    check! negb (length_end >? Zlen data) else RLPDecodingError;;
    first ← byte_at data length_start;
    check! negb ((length_of_length >? 1) && (first =? 0)) else RLPDecodingError;;
    let length := from_bytes_be (slice data length_start length_end) in
    check! negb (length <=? SHORT_FORM_MAX) else RLPDecodingError;;
    let start := length_end in
    let stop := start + length in
    check! negb (stop >? Zlen data) else RLPDecodingError;;
    Ok (start, stop).

(** The loop over the elements of a list, up to [payload_end] *)
Fixpoint decode_elements (decode : Z -> result (RLPItem * Z)) (fuel : nat) (payload_end cursor : Z) : result (list RLPItem * Z) :=
  if cursor <? payload_end then
    match fuel with
    | O => Err OutOfFuel
    | S fuel =>
        '(inner_item, cursor) ← decode cursor;
        '(rest, cursor) ← decode_elements decode fuel payload_end cursor;
        Ok (inner_item :: rest, cursor)
    end
  else Ok ([], cursor).

(** The recursion is bounded by the length of the input.  CPython's own limit on nested
    calls (about a thousand) is not modelled: the only caller decodes at most 300 bytes. *)
Fixpoint _decode_item (fuel : nat) (data : bytes) (offset : Z) : result (RLPItem * Z) :=
  match fuel with
  | O => Err OutOfFuel
  | S fuel =>
      prefix ← byte_at data offset;
      if prefix <? STRING_BASE then Ok (RBytes (slice data offset (offset + 1)), offset + 1)
      else
        let base := if prefix <? LIST_BASE then STRING_BASE else LIST_BASE in
        '(payload_start, payload_end) ← _decode_length data offset base;
        if base =? STRING_BASE then Ok (RBytes (slice data payload_start payload_end), payload_end)
        else
          '(decoded_items, cursor) ← decode_elements (_decode_item fuel data) (List.length data) payload_end payload_start;
          check! cursor =? payload_end else RLPDecodingError;;
          Ok (RList decoded_items, payload_end)
  end.

Definition decode_rlp (data : bytes) : result RLPItem :=
  check! negb (Zlen data =? 0) else RLPDecodingError;;
  '(decoded_item, consumed) ← _decode_item (List.length data) data 0;
  check! consumed =? Zlen data else RLPDecodingError;;
  Ok decoded_item.

Definition decode_rlp_list (data : bytes) : result (list bytes) :=
  decoded ← decode_rlp data;
  match decoded with
  | RBytes _ => Err RLPDecodingError
  | RList elements => mapM (fun element => match element with RBytes b => Ok b | RList _ => Err RLPDecodingError end) elements
  end.

(** The examples of the documentation *)
Example encode_dog : encode_rlp (RBytes (str "dog")) = Ok (Byte.x83 :: str "dog").
Proof. reflexivity. Qed.
Example encode_dog_god : encode_rlp (RList [RBytes (str "dog"); RBytes (str "god")]) = Ok (Byte.xc8 :: Byte.x83 :: str "dog" ++ Byte.x83 :: str "god").
Proof. reflexivity. Qed.
Example encode_long : encode_rlp (RBytes (repeat Byte.x61 1024)) = Ok (Byte.xb9 :: Byte.x04 :: Byte.x00 :: repeat Byte.x61 1024).
Proof. vm_compute. reflexivity. Qed.
Example decode_nested : decode_rlp [Byte.xc3; Byte.xc0; Byte.xc1; Byte.xc0] = Ok (RList [RList []; RList [RList []]]).
Proof. reflexivity. Qed.
Example decode_overflow : decode_rlp [Byte.xc2; Byte.x83; Byte.x01; Byte.x02; Byte.x03] = Err RLPDecodingError.
Proof. reflexivity. Qed.

(** ** Numbers, big end first *)
Lemma from_bytes_be_cons b data : from_bytes_be (b :: data) = byte.unsigned b * 2 ^ (8 * Zlen data) + from_bytes_be data.
Proof.
  unfold from_bytes_be. cbn [rev]. rewrite !from_bytes_le_value, map_app. cbn [map]. rewrite value_snoc, length_map, length_rev.
  replace (256 ^ Zlen data) with (2 ^ (8 * Zlen data)) by (by rewrite Z.pow_mul_r by lia). lia.
Qed.
Lemma from_bytes_be_range data : 0 <= from_bytes_be data < 2 ^ (8 * Zlen data).
Proof. unfold from_bytes_be. pose proof (from_bytes_le_range (rev data)) as Hr. by rewrite length_rev in Hr. Qed.
Lemma from_to_bytes_be n z bs : 0 <= n -> to_bytes_be n z = Ok bs -> from_bytes_be bs = z /\ Zlen bs = n.
Proof.
  intros Hn E. unfold to_bytes_be in E. apply bind_Ok in E as (l & El & [= <-]). unfold from_bytes_be. rewrite rev_involutive, length_rev.
  split; [by eapply from_to_bytes_le|by eapply to_bytes_le_length].
Qed.
Lemma to_from_bytes_be data : to_bytes_be (Zlen data) (from_bytes_be data) = Ok data.
Proof.
  unfold to_bytes_be, from_bytes_be. pose proof (to_from_bytes_le (rev data)) as E. rewrite length_rev in E. rewrite E. mcbn. by rewrite rev_involutive.
Qed.
(** Bytes without a leading zero are as many as their number needs. *)
Lemma minimal_width b data : b <> Byte.x00 -> (bit_length (from_bytes_be (b :: data)) + 7) / 8 = Zlen (b :: data).
Proof.
  intros Hb. pose proof (from_bytes_be_range (b :: data)) as Hr. pose proof (from_bytes_be_range data) as Hr'. rewrite from_bytes_be_cons in *.
  replace (Zlen (b :: data)) with (Zlen data + 1) in * by (cbn; lia). assert (0 <= Zlen data) as Hn by lia.
  remember (Zlen data) as n eqn:En. set (v := _ + _) in *.
  assert (2 ^ (8 * n) <= v) as Hv.
  { assert (1 <= byte.unsigned b). { pose proof (byte.unsigned_range b). destruct b; [done|cbn; lia..]. } nia. }
  assert (0 < 2 ^ (8 * n)) by (apply Z.pow_pos_nonneg; lia). unfold bit_length. rewrite (proj2 (Z.eqb_neq _ _)) by lia.
  assert (8 * n <= Z.log2 v). { apply Z.log2_le_pow2; lia. } assert (Z.log2 v < 8 * (n + 1)). { apply Z.log2_lt_pow2; lia. }
  symmetry. apply Z.div_unique with (r := Z.log2 v + 1 + 7 - 8 * (n + 1)); lia.
Qed.
Lemma width_fits n k : 0 <= k -> 0 < n < 2 ^ (8 * k) -> 0 <= (bit_length n + 7) / 8 <= k /\ n < 2 ^ (8 * ((bit_length n + 7) / 8)).
Proof.
  intros Hk Hn. unfold bit_length. rewrite (proj2 (Z.eqb_neq _ _)) by lia. pose proof (Z.log2_nonneg n).
  assert (Z.log2 n < 8 * k) by (apply Z.log2_lt_pow2; lia). set (q := (Z.log2 n + 1 + 7) / 8).
  pose proof (Z.div_mod (Z.log2 n + 1 + 7) 8 ltac:(lia)) as Hq. fold q in Hq. pose proof (Z.mod_pos_bound (Z.log2 n + 1 + 7) 8 ltac:(lia)).
  split; [lia|]. apply Z.log2_lt_pow2; lia.
Qed.

(** ** Prefixes *)

(** [head] is the prefix of a payload of [n] bytes, in the short form or the long one. *)
Inductive prefix_of (base : Z) (n : Z) : bytes -> Prop :=
| prefix_short b : n <= SHORT_FORM_MAX -> byte.unsigned b = base + n -> prefix_of base n [b]
| prefix_long b first rest : SHORT_FORM_MAX < n -> first <> Byte.x00 -> from_bytes_be (first :: rest) = n ->
    Zlen (first :: rest) <= 8 -> byte.unsigned b = base + SHORT_FORM_MAX + Zlen (first :: rest) -> prefix_of base n (b :: first :: rest).

Definition is_base (base : Z) : Prop := base = STRING_BASE \/ base = LIST_BASE.

Lemma prefix_of_Ok base payload head : is_base base -> prefix_of base (Zlen payload) head -> _with_length_prefix payload base = Ok (head ++ payload).
Proof.
  intros Hb Hp. unfold _with_length_prefix. destruct Hp as [b Hs E|b first rest Hs Hf En Hl E].
  - rewrite (proj2 (Z.leb_le _ _)) by done. rewrite (proj2 (bytes_of_Ok [_] [b])); [done|]. rewrite <- E. split; [|done].
    constructor; [apply byte.unsigned_range|constructor].
  - rewrite (proj2 (Z.leb_gt _ _)) by done. rewrite <- En at 1 2. rewrite (minimal_width _ _ Hf), to_from_bytes_be. mcbn.
    rewrite (proj2 (bytes_of_Ok [_] [b])); [done|]. rewrite <- E. split; [|done]. constructor; [apply byte.unsigned_range|constructor].
Qed.

Lemma byte_exists z : 0 <= z < 256 -> exists b, byte.unsigned b = z.
Proof. intros Hz. destruct (byte_of_small z Hz) as (b & _ & E). by exists b. Qed.

Lemma prefix_exists base n : is_base base -> 0 <= n < 2 ^ 64 -> exists head, prefix_of base n head.
Proof.
  intros Hb Hn. assert (0x80 <= base <= 0xC0) as Hr by (destruct Hb; subst; unfold STRING_BASE, LIST_BASE; lia). unfold SHORT_FORM_MAX in *.
  destruct (decide (n <= 55)) as [Hs|Hs].
  - destruct (byte_exists (base + n)) as [b Eb]; [lia|]. exists [b]. by apply prefix_short.
  - destruct (width_fits n 8) as [Hw Hlt]; [lia..|]. set (w := (bit_length n + 7) / 8) in *.
    assert (exists l, to_bytes_be w n = Ok l) as [l El].
    { unfold to_bytes_be. destruct (to_bytes_le w n) eqn:E; [by eexists|]. unfold to_bytes_le in E.
      rewrite (proj2 (Z.leb_le _ _)), (proj2 (Z.ltb_lt _ _)) in E by lia. done. }
    destruct (from_to_bytes_be w n l) as [En Ew]; [lia|done|]. destruct l as [|first rest].
    { change (from_bytes_be []) with 0 in En. lia. }
    destruct (byte_exists (base + 55 + Zlen (first :: rest))) as [b Eb]; [lia|]. exists (b :: first :: rest).
    apply prefix_long; try done; [unfold SHORT_FORM_MAX; lia| |lia]. intros ->.
    rewrite from_bytes_be_cons in En. change (byte.unsigned Byte.x00) with 0 in En. pose proof (from_bytes_be_range rest) as Hrest.
    assert (1 <= w) as H1 by (rewrite <- Ew; cbn; lia).
    assert (2 ^ (8 * (w - 1)) <= n); [|replace (Zlen rest) with (w - 1) in Hrest by (cbn in Ew; lia); lia].
    subst w. unfold bit_length in *. rewrite (proj2 (Z.eqb_neq _ _)) in * by lia. apply Z.log2_le_pow2; [lia|].
    pose proof (Z.div_mod (Z.log2 n + 1 + 7) 8 ltac:(lia)). pose proof (Z.mod_pos_bound (Z.log2 n + 1 + 7) 8 ltac:(lia)). lia.
Qed.

Lemma prefix_Ok base payload text : is_base base -> Zlen payload < 2 ^ 64 -> _with_length_prefix payload base = Ok text ->
  exists head, text = head ++ payload /\ prefix_of base (Zlen payload) head.
Proof.
  intros Hb Hl E. destruct (prefix_exists base (Zlen payload) Hb) as [head Hp]; [lia|]. exists head. split; [|done].
  rewrite (prefix_of_Ok _ _ _ Hb Hp) in E. by injection E as <-.
Qed.

(** The decoder reads the prefix that the encoder writes, wherever it stands. *)
Lemma decode_prefix base head payload pre post : is_base base -> prefix_of base (Zlen payload) head ->
  _decode_length (pre ++ head ++ payload ++ post) (Zlen pre) base = Ok (Zlen pre + Zlen head, Zlen pre + Zlen head + Zlen payload).
Proof.
  intros Hb Hp. assert (0x80 <= base <= 0xC0) as Hr by (destruct Hb; subst; unfold STRING_BASE, LIST_BASE; lia). unfold _decode_length.
  destruct Hp as [b Hs E|b first rest Hs Hf En Hl E]; cbn [app]; rewrite read_at; mcbn; rewrite E; rewrite ?length_app; cbn [List.length] in *.
  - rewrite (proj2 (Z.leb_le _ _)) by lia. rewrite Z.gtb_ltb, (proj2 (Z.ltb_ge _ _)) by (rewrite length_app; lia). cbn. f_equal. f_equal; lia.
  - unfold SHORT_FORM_MAX in *. rewrite (proj2 (Z.leb_gt _ _)) by lia. rewrite Z.gtb_ltb, (proj2 (Z.ltb_ge _ _)) by (rewrite !length_app; lia).
    cbn [negb]. change (pre ++ b :: first :: rest ++ payload ++ post) with (pre ++ [b] ++ first :: rest ++ payload ++ post).
    replace (Zlen pre + 1) with (Zlen (pre ++ [b])) by (rewrite length_app; cbn; lia). rewrite app_assoc, read_at. mcbn.
    assert ((byte.unsigned first =? 0) = false) as -> by (apply Z.eqb_neq; destruct first; done). rewrite andb_false_r. cbn [negb].
    change (first :: rest ++ payload ++ post) with ((first :: rest) ++ payload ++ post).
    rewrite (slice_middle (pre ++ [b]) (first :: rest)) by (try done; cbn; lia). rewrite En, (proj2 (Z.leb_gt _ _)) by lia. cbn [negb].
    rewrite Z.gtb_ltb, (proj2 (Z.ltb_ge _ _)) by (rewrite !length_app; cbn; lia). cbn. rewrite !length_app. cbn. f_equal. f_equal; lia.
Qed.

Lemma split_data (data : bytes) a n : 0 <= a -> 0 <= n -> a + n <= Zlen data ->
  exists pre mid post, data = pre ++ mid ++ post /\ Zlen pre = a /\ Zlen mid = n.
Proof.
  intros Ha Hn Hl. exists (take (Z.to_nat a) data), (take (Z.to_nat n) (drop (Z.to_nat a) data)), (drop (Z.to_nat n) (drop (Z.to_nat a) data)).
  rewrite take_drop, take_drop, !length_take, length_drop. split; [done|]. lia.
Qed.
Lemma byte_at_inv data pos v : 0 <= pos -> byte_at data pos = Ok v -> exists pre b post, data = pre ++ b :: post /\ Zlen pre = pos /\ byte.unsigned b = v.
Proof.
  intros Hp E. unfold byte_at in E. apply of_option_Ok in E. destruct (data !! Z.to_nat pos) as [b|] eqn:El; [|done]. injection E as <-.
  exists (take (Z.to_nat pos) data), b, (drop (S (Z.to_nat pos)) data). rewrite take_drop_middle by done. split; [done|]. split; [|done].
  apply lookup_lt_Some in El. rewrite length_take. lia.
Qed.

Section Lengths.
Context (data : bytes) (offset base v : Z) (Ho : 0 <= offset) (Ev : byte_at data offset = Ok v) (Hv : base <= v < base + 64).

(** Conversely, a range the decoder returns stands after its prefix. *)
Lemma decode_length_sound st en : _decode_length data offset base = Ok (st, en) ->
  exists pre head payload post, data = pre ++ head ++ payload ++ post /\ Zlen pre = offset /\ prefix_of base (Zlen payload) head /\
    st = offset + Zlen head /\ en = st + Zlen payload /\ Zlen payload < 2 ^ 64.
Proof.
  destruct (byte_at_inv _ _ _ Ho Ev) as (pre & b & post & -> & Hpre & Eb). unfold _decode_length. rewrite Ev. mcbn.
  rewrite length_app. cbn [List.length]. unfold SHORT_FORM_MAX. intros E. destruct (Z.leb_spec (v - base) 55) as [Hs|Hs].
  - destruct (Z.gtb_spec (offset + 1 + (v - base)) (Z.of_nat (List.length pre + S (List.length post)))) as [|Hl]; [done|]. cbn in E. injection E as <- <-.
    destruct (split_data post 0 (v - base)) as (e & payload & rest & -> & He & Hp); [lia..|]. destruct e; [|cbn in He; lia].
    exists pre, [b], payload, rest. split_and!; try done; [|cbn; lia..]. apply prefix_short; unfold SHORT_FORM_MAX; lia.
  - set (k := v - base - 55) in *. destruct (Z.gtb_spec (offset + 1 + k) (Z.of_nat (List.length pre + S (List.length post)))) as [|Hl]; [done|]. cbn [negb] in E.
    destruct (split_data post 0 k) as (e & lb & rest & -> & He & Hk); [lia..|]. destruct e; [|cbn in He; lia]. cbn [app] in E.
    destruct lb as [|first lb]; [cbn in Hk; lia|].
    change (pre ++ b :: (first :: lb) ++ rest) with (pre ++ [b] ++ (first :: lb) ++ rest) in E. rewrite app_assoc in E.
    assert (offset + 1 = Zlen (pre ++ [b])) as Ep by (rewrite length_app; cbn; lia). rewrite Ep in E.
    cbn [app] in E. rewrite read_at in E. mcbn_in E. change (first :: lb ++ rest) with ((first :: lb) ++ rest) in E.
    rewrite (slice_middle (pre ++ [b]) (first :: lb)) in E by (try done; lia).
    destruct (negb _) eqn:Ez in E; [|done]. destruct (Z.leb_spec (from_bytes_be (first :: lb)) 55) as [|Hn]; [done|]. cbn [negb] in E.
    destruct (Z.gtb_spec (Zlen (pre ++ [b]) + k + from_bytes_be (first :: lb)) (Z.of_nat (List.length pre + S (List.length ((first :: lb) ++ rest))))) as [|Hl2]; [done|].
    cbn in E. injection E as <- <-. rewrite <- Ep in *. cbn [app List.length] in Hl2, Hk. rewrite length_app in Hl2.
    pose proof (from_bytes_be_range (first :: lb)) as Hr.
    destruct (split_data rest 0 (from_bytes_be (first :: lb))) as (e & payload & rest' & -> & He' & Hp); [lia..|]. destruct e; [|cbn in He'; lia].
    exists pre, (b :: first :: lb), payload, rest'. cbn [app List.length] in *. split_and!; try done; [|lia..|].
    + rewrite Hp. apply prefix_long; unfold SHORT_FORM_MAX; cbn [List.length]; try done; try lia. intros ->. apply negb_true_iff, andb_false_iff in Ez as [Ez|Ez]; [|done].
      destruct lb; [by cbn in Hn|]. rewrite Z.gtb_ltb in Ez. apply Z.ltb_ge in Ez. cbn in Hk. lia.
    + rewrite Hp. eapply Z.lt_le_trans; [apply Hr|]. apply Z.pow_le_mono_r; cbn [List.length]; lia.
Qed.

Lemma decode_length_error e : _decode_length data offset base = Err e -> e = RLPDecodingError.
Proof.
  unfold _decode_length. rewrite Ev. mcbn. intros E. unfold SHORT_FORM_MAX in *.
  destruct (Z.leb_spec (v - base) 55) as [Hs|Hs]; [by destruct (negb _) in E; [|injection E as <-]|].
  destruct (Z.gtb_spec (offset + 1 + (v - base - 55)) (Zlen data)) as [|Hl]; [by injection E as <-|]. cbn [negb] in E.
  destruct (byte_at_total data (offset + 1)) as (first & Ef & _); [lia|]. rewrite Ef in E. mcbn_in E.
  destruct (negb _) in E; [|by injection E as <-]. destruct (negb _) in E; [|by injection E as <-]. by destruct (negb _) in E; [|injection E as <-].
Qed.
End Lengths.

(** ** The texts of an item

    [rlp_text strict item text]: the text stands for the item.  A byte below 0x80 stands for
    itself; as a string of length one it may carry a prefix where [strict] is not asked for. *)
Definition small (s : bytes) : bool := match s with [b] => byte.unsigned b <? STRING_BASE | _ => false end.

Inductive rlp_text (strict : bool) : RLPItem -> bytes -> Prop :=
| text_byte b : byte.unsigned b < STRING_BASE -> rlp_text strict (RBytes [b]) [b]
| text_string s head : strict && small s = false -> Zlen s < 2 ^ 64 -> prefix_of STRING_BASE (Zlen s) head -> rlp_text strict (RBytes s) (head ++ s)
| text_list l body head : rlp_texts strict l body -> Zlen body < 2 ^ 64 -> prefix_of LIST_BASE (Zlen body) head -> rlp_text strict (RList l) (head ++ body)
with rlp_texts (strict : bool) : list RLPItem -> bytes -> Prop :=
| texts_nil : rlp_texts strict [] []
| texts_cons item l t body : rlp_text strict item t -> rlp_texts strict l body -> rlp_texts strict (item :: l) (t ++ body).
Scheme rlp_text_mut := Induction for rlp_text Sort Prop
  with rlp_texts_mut := Induction for rlp_texts Sort Prop.
Combined Scheme rlp_text_mutual from rlp_text_mut, rlp_texts_mut.

Lemma prefix_first base n head : 0 <= n -> prefix_of base n head -> exists b rest, head = b :: rest /\ base <= byte.unsigned b < base + 64.
Proof.
  intros Hn [b Hs E|b first rest Hs Hf En Hl E]; unfold SHORT_FORM_MAX in *; do 2 eexists; (split; [done|]); [lia|]. cbn [List.length] in *. lia.
Qed.
Lemma rlp_text_cons strict item t : rlp_text strict item t -> exists b rest, t = b :: rest.
Proof.
  intros [b Hb|s head _ _ Hp|l body head _ _ Hp]; [by do 2 eexists|..]; apply prefix_first in Hp as (b & rest & -> & _); try lia; by do 2 eexists.
Qed.

(** The decoder accepts every text, wherever it stands. *)
Lemma decode_text strict :
  (forall item t, rlp_text strict item t -> forall fuel pre post, (List.length t <= fuel)%nat ->
     _decode_item fuel (pre ++ t ++ post) (Zlen pre) = Ok (item, Zlen pre + Zlen t)) /\
  (forall l t, rlp_texts strict l t -> forall fuel n pre post, (List.length t <= fuel)%nat -> (List.length t <= n)%nat ->
     decode_elements (_decode_item fuel (pre ++ t ++ post)) n (Zlen pre + Zlen t) (Zlen pre) = Ok (l, Zlen pre + Zlen t)).
Proof.
  apply rlp_text_mutual.
  - intros b Hb fuel pre post Hf. destruct fuel as [|fuel]; [cbn in Hf; lia|]. cbn [_decode_item]. cbn [app]. rewrite read_at. mcbn.
    rewrite (proj2 (Z.ltb_lt _ _)) by done. change (b :: post) with ([b] ++ post). by rewrite (slice_middle pre [b]) by (try done; cbn; lia).
  - intros s head _ Hl Hp fuel pre post Hf. rewrite <- app_assoc. pose proof (decode_prefix STRING_BASE head s pre post (or_introl eq_refl) Hp) as Ed.
    destruct (prefix_first _ _ _ (Zle_0_nat _) Hp) as (b & rest & -> & Hb). unfold STRING_BASE in Hb.
    destruct fuel as [|fuel]; [cbn in Hf; lia|]. cbn [_decode_item app]. rewrite read_at. mcbn. unfold STRING_BASE at 1, LIST_BASE.
    rewrite (proj2 (Z.ltb_ge _ _)), (proj2 (Z.ltb_lt _ _)) by lia. cbn [app] in Ed. rewrite Ed. mcbn. cbn [Z.eqb]. rewrite Z.eqb_refl.
    change (pre ++ b :: rest ++ s ++ post) with (pre ++ (b :: rest) ++ s ++ post). rewrite app_assoc, slice_middle by (rewrite ?length_app; lia).
    f_equal. f_equal. cbn [app List.length]. rewrite length_app. lia.
  - intros l body head Hb IH Hl Hp fuel pre post Hf. rewrite <- app_assoc. pose proof (decode_prefix LIST_BASE head body pre post (or_intror eq_refl) Hp) as Ed.
    destruct (prefix_first _ _ _ (Zle_0_nat _) Hp) as (b & rest & -> & Hh). unfold LIST_BASE in Hh.
    destruct fuel as [|fuel]; [cbn in Hf; lia|]. cbn [_decode_item]. cbn [app] in *. rewrite read_at. mcbn.
    rewrite (proj2 (Z.ltb_ge _ STRING_BASE)), (proj2 (Z.ltb_ge _ LIST_BASE)) by (unfold STRING_BASE, LIST_BASE; lia). rewrite Ed. mcbn.
    change (LIST_BASE =? STRING_BASE) with false. cbn match.
    change (pre ++ b :: rest ++ body ++ post) with (pre ++ (b :: rest) ++ body ++ post). rewrite (app_assoc pre).
    replace (Zlen pre + Zlen (b :: rest)) with (Zlen (pre ++ b :: rest)) by (rewrite length_app; lia).
    cbn [List.length] in Hf. rewrite length_app in Hf. rewrite IH by (rewrite ?length_app; cbn [List.length]; lia).
    mcbn. rewrite Z.eqb_refl. f_equal. f_equal. cbn [List.length]. rewrite !length_app. cbn. lia.
  - intros fuel n pre post _ _. change (Zlen (@nil Byte.byte)) with 0. rewrite Z.add_0_r. destruct n; cbn [decode_elements]; by rewrite Z.ltb_irrefl.
  - intros item l t body Ht IHt Hb IHb fuel n pre post Hf Hn. pose proof (rlp_text_cons _ _ _ Ht) as (b & rest & Et). rewrite length_app in *.
    destruct n as [|n]; [subst t; cbn in Hn; lia|]. cbn [decode_elements]. rewrite (proj2 (Z.ltb_lt _ _)) by (subst t; cbn; lia).
    rewrite <- app_assoc, IHt by lia. mcbn. rewrite (app_assoc pre). replace (Zlen pre + Zlen t) with (Zlen (pre ++ t)) by (rewrite length_app; lia).
    replace (Zlen pre + Z.of_nat (List.length t + List.length body)) with (Zlen (pre ++ t) + Zlen body) by (rewrite length_app; lia).
    rewrite IHb by (subst t; cbn in *; lia). done.
Qed.

(** What the decoder returns stands for the text it has consumed. *)
Definition stands {A} (rel : A -> bytes -> Prop) (data : bytes) (offset : Z) (a : A) (next : Z) : Prop :=
  exists pre t post, data = pre ++ t ++ post /\ Zlen pre = offset /\ rel a t /\ next = offset + Zlen t.

Lemma decode_elements_sound (data : bytes) decode payload_end :
  (forall c item next, 0 <= c -> decode c = Ok (item, next) -> stands (rlp_text false) data c item next) ->
  forall fuel c l next, 0 <= c <= Zlen data -> decode_elements decode fuel payload_end c = Ok (l, next) -> stands (rlp_texts false) data c l next.
Proof.
  intros Hdec. induction fuel as [|fuel IH]; intros c l next Hc E; cbn [decode_elements] in E; destruct (c <? payload_end); try done.
  1,3: injection E as <- <-; destruct (split_data data c 0) as (pre & t & post & -> & Hp & Ht); [lia..|]; destruct t; [|cbn in Ht; lia];
    exists pre, [], post; split_and!; [done|done|constructor|cbn; lia].
  apply mbind_pair_Ok in E as (item & c' & E1 & E). apply mbind_pair_Ok in E as (rest & c'' & E2 & E). injection E as <- <-.
  apply Hdec in E1 as (pre & t & post & -> & Hp & Ht & ->); [|lia].
  apply IH in E2 as (pre' & t' & post' & E' & Hp' & Ht' & ->); [|rewrite !length_app; lia].
  rewrite (app_assoc pre) in E'. apply app_inj_1 in E' as [<- ->]; [|rewrite length_app; lia].
  exists pre, (t ++ t'), post'. rewrite <- !app_assoc, length_app. split_and!; [done|done|by constructor|lia].
Qed.

Lemma decode_item_sound data fuel : forall c item next, 0 <= c -> _decode_item fuel data c = Ok (item, next) -> stands (rlp_text false) data c item next.
Proof.
  induction fuel as [|fuel IH]; intros c item next Hc E; [done|]. cbn [_decode_item] in E. apply bind_Ok in E as (v & Ev & E).
  destruct (Z.ltb_spec v STRING_BASE) as [Hv|Hv].
  - injection E as <- <-. destruct (byte_at_inv _ _ _ Hc Ev) as (pre & b & post & -> & Hp & Eb). exists pre, [b], post.
    split_and!; [done|done| |done]. change (b :: post) with ([b] ++ post). rewrite slice_middle by (cbn; lia). constructor. lia.
  - set (base := if v <? LIST_BASE then STRING_BASE else LIST_BASE) in E. apply mbind_pair_Ok in E as (st & en & El & E).
    assert (is_base base /\ base <= v < base + 64) as [Hb Hr].
    { unfold base, is_base, STRING_BASE, LIST_BASE in *. pose proof Ev as Ev'. apply byte_at_inv in Ev' as (? & b & ? & _ & _ & <-); [|done].
      pose proof (byte.unsigned_range b). destruct (Z.ltb_spec (byte.unsigned b) 0xC0); split; auto; lia. }
    destruct (decode_length_sound data c base v Hc Ev Hr st en El) as (pre & head & payload & post & -> & Hp & Hh & -> & -> & Hl).
    destruct (Z.eqb_spec base STRING_BASE) as [Eb|Eb].
    + injection E as <- <-. exists pre, (head ++ payload), post. rewrite <- !app_assoc, length_app. split_and!; [done|done| |lia].
      rewrite (app_assoc pre), slice_middle by (rewrite ?length_app; lia). rewrite Eb in Hh. by constructor.
    + apply mbind_pair_Ok in E as (l & c' & E1 & E). destruct (Z.eqb_spec c' (c + Zlen head + Zlen payload)) as [->|]; [|done]. cbn in E. injection E as <- <-.
      apply (decode_elements_sound _ _ _ IH) in E1 as (pre' & t & post' & E' & Hp' & Ht & En); [|rewrite !length_app; lia].
      rewrite (app_assoc pre) in E'. apply app_inj_1 in E' as [<- E']; [|rewrite length_app; lia]. apply app_inj_1 in E' as [-> ->]; [|lia].
      exists pre, (head ++ t), post'. rewrite <- !app_assoc, length_app. split_and!; [done|done| |lia]. destruct Hb as [|Hb]; [done|]. rewrite Hb in Hh. by constructor.
Qed.

(** With as much fuel as there are bytes left the decoder ends, with an item or its error. *)
Lemma decode_elements_ends (data : bytes) decode low payload_end : payload_end <= Zlen data ->
  (forall c, low <= c < Zlen data -> match decode c with Ok (_, next) => c < next | Err e => e = RLPDecodingError end) ->
  forall fuel c e, low <= c -> payload_end - c <= Z.of_nat fuel -> decode_elements decode fuel payload_end c = Err e -> e = RLPDecodingError.
Proof.
  intros Hend Hdec. induction fuel as [|fuel IH]; intros c e Hc Hf E; cbn [decode_elements] in E; destruct (Z.ltb_spec c payload_end); try done; [lia|].
  specialize (Hdec c ltac:(lia)). destruct (decode c) as [[item next]|e']; [|mcbn_in E; congruence]. mcbn_in E.
  destruct (decode_elements decode fuel payload_end next) as [[rest c']|e'] eqn:E'; [done|]. mcbn_in E. injection E as <-. eapply IH; [..|exact E']; lia.
Qed.

Lemma decode_item_ends data fuel : forall c, 0 <= c < Zlen data -> Zlen data - c <= Z.of_nat fuel ->
  match _decode_item fuel data c with Ok (_, next) => c < next | Err e => e = RLPDecodingError end.
Proof.
  induction fuel as [|fuel IH]; intros c Hc Hf; [lia|]. destruct (_decode_item (S fuel) data c) as [[item next]|e] eqn:E.
  - apply decode_item_sound in E as (pre & t & post & _ & _ & Ht & ->); [|lia]. apply rlp_text_cons in Ht as (? & ? & ->). cbn. lia.
  - cbn [_decode_item] in E. destruct (byte_at_total data c Hc) as (v & Ev & Hv). rewrite Ev in E. mcbn_in E.
    destruct (Z.ltb_spec v STRING_BASE) as [|Hs]; [done|]. set (base := if v <? LIST_BASE then STRING_BASE else LIST_BASE) in E.
    assert (is_base base /\ base <= v < base + 64) as [Hb Hr].
    { unfold base, is_base, STRING_BASE, LIST_BASE in *. destruct (Z.ltb_spec v 0xC0); split; auto; lia. }
    destruct (_decode_length data c base) as [[st en]|e'] eqn:El; mcbn_in E; [|injection E as <-; eapply (decode_length_error data c base v); [lia|done..]].
    apply (decode_length_sound data c base v ltac:(lia) Ev Hr) in El as (pre & head & payload & post & Ed & Hp & Hh & -> & -> & Hl).
    destruct (base =? STRING_BASE); [done|]. assert (1 <= Zlen head) by (apply prefix_first in Hh as (? & ? & -> & _); [cbn|]; lia).
    assert (Zlen data = c + Zlen head + Zlen payload + Zlen post) as Ez by (rewrite Ed, !length_app; lia).
    destruct (decode_elements _ _ _ _) as [[l c']|e'] eqn:E1; mcbn_in E; [by destruct (_ =? _) in E; [|injection E as <-]|]. injection E as <-.
    eapply (decode_elements_ends data _ (c + 1)); [|intros c' Hc'| |..|exact E1]; [lia|apply IH; lia|lia|lia].
Qed.

(** ** The encoder writes the strict text. *)
Section ItemInduction.
Context (P : RLPItem -> Prop) (Hbytes : forall data, P (RBytes data)) (Hlist : forall items, Forall P items -> P (RList items)).
Fixpoint RLPItem_nested (item : RLPItem) : P item :=
  match item with
  | RBytes data => Hbytes data
  | RList items => Hlist items ((fix go l : Forall P l := match l with [] => Forall_nil_2 P | x :: l => Forall_cons_2 P x l (RLPItem_nested x) (go l) end) items)
  end.
End ItemInduction.

Lemma prefix_appends payload base t : _with_length_prefix payload base = Ok t -> exists head, t = head ++ payload.
Proof.
  unfold _with_length_prefix. intros E. destruct (_ <=? _); repeat (apply bind_Ok in E as (? & _ & E)); injection E as <-; [by eexists|].
  rewrite app_assoc. by eexists.
Qed.
Definition join_rlp (l : list RLPItem) : result bytes := parts ← mapM encode_rlp l; Ok (List.concat parts).
Lemma encode_list items : encode_rlp (RList items) = encoded ← join_rlp items; _with_length_prefix encoded LIST_BASE.
Proof.
  cbn [encode_rlp]. unfold join_rlp. generalize (fun b => _with_length_prefix b LIST_BASE). intros k.
  enough (forall l, (fix join (l : list RLPItem) : result bytes := match l with [] => Ok [] | element :: l => encoded ← encode_rlp element; rest ← join l; Ok (encoded ++ rest) end) l
    = parts ← mapM encode_rlp l; Ok (List.concat parts)) as -> by done.
  induction l as [|x l IH]; [done|]. cbn [mapM]. rewrite IH. destruct (encode_rlp x); [|done]. mcbn. by destruct (mapM encode_rlp l).
Qed.

Lemma encode_strict item : forall t, encode_rlp item = Ok t -> Zlen t < 2 ^ 64 -> rlp_text true item t.
Proof.
  induction item as [data|items IH] using RLPItem_nested; intros t E Hl.
  - assert (small data = true /\ t = data \/ small data = false /\ _with_length_prefix data STRING_BASE = Ok t) as [[Hs ->]|[Hs Ep]].
    { destruct data as [|b [|]]; cbn [encode_rlp small] in *; [by right| |by right]. destruct (_ <? _); [left|right]; naive_solver. }
    + destruct data as [|b [|]]; try done. constructor. by apply Z.ltb_lt.
    + destruct (prefix_appends _ _ _ Ep) as [head ->]. rewrite length_app in Hl. apply prefix_Ok in Ep as (head' & ->%app_inv_tail & Hp); [|by left|lia]. constructor; [by rewrite Hs|lia|done].
  - rewrite encode_list in E. apply bind_Ok in E as (body & Ej & Ep).
    destruct (prefix_appends _ _ _ Ep) as [head ->]. rewrite length_app in Hl. apply prefix_Ok in Ep as (head' & ->%app_inv_tail & Hp); [|by right|lia]. constructor; [|lia|done].
    unfold join_rlp in Ej. apply bind_Ok in Ej as (parts & Em%mapM_Ok & [= <-]). assert (Zlen (List.concat parts) < 2 ^ 64) as Hc by lia. clear Hl Hp.
    induction Em as [|x part items parts Ex _ IHm]; [constructor|]. cbn [List.concat] in *. rewrite length_app in Hc. inversion IH; subst.
    constructor; [by apply H1; [|lia]|by apply IHm; [|lia]].
Qed.

Lemma strict_encodes :
  (forall item t, rlp_text true item t -> encode_rlp item = Ok t) /\ (forall l t, rlp_texts true l t -> join_rlp l = Ok t).
Proof.
  apply rlp_text_mutual.
  - intros b Hb. cbn [encode_rlp]. by rewrite (proj2 (Z.ltb_lt _ _)).
  - intros s head Hs Hl Hp. rewrite <- (prefix_of_Ok STRING_BASE s head) by (try done; by left).
    destruct s as [|b [|]]; try done. cbn in Hs |- *. by rewrite Hs.
  - intros l body head _ IH Hl Hp. rewrite encode_list, IH. mcbn. apply prefix_of_Ok; [by right|done].
  - done.
  - intros item l t body _ IHt _ IHb. unfold join_rlp in *. cbn [mapM]. rewrite IHt. mcbn. apply bind_Ok in IHb as (parts & -> & [= <-]). done.
Qed.

Lemma text_decodes strict item data : rlp_text strict item data -> decode_rlp data = Ok item.
Proof.
  intros Ht. unfold decode_rlp. destruct (rlp_text_cons _ _ _ Ht) as (b & rest & Ed).
  rewrite (proj2 (Z.eqb_neq (Zlen data) 0)) by (rewrite Ed; cbn; lia). cbn [negb].
  pose proof (proj1 (decode_text strict) item data Ht (List.length data) [] [] (le_n _)) as E. rewrite app_nil_r in E. cbn [app] in E.
  change (Zlen []) with 0 in E. rewrite E. mcbn. by rewrite Z.add_0_l, Z.eqb_refl.
Qed.
Lemma decoded_text item data : decode_rlp data = Ok item -> rlp_text false item data.
Proof.
  unfold decode_rlp. destruct (Z.eqb_spec (Zlen data) 0); [done|]. cbn [negb]. intros E.
  apply mbind_pair_Ok in E as (item' & next & E1 & E). destruct (Z.eqb_spec next (Zlen data)) as [->|]; [|done]. injection E as <-.
  apply decode_item_sound in E1 as (pre & t & post & -> & Hp & Ht & El); [|done]. rewrite !length_app in El. destruct pre; [|cbn in Hp; lia].
  destruct post; [|cbn in El; lia]. cbn [app]. by rewrite app_nil_r.
Qed.
Lemma decode_rlp_error data e : decode_rlp data = Err e -> e = RLPDecodingError.
Proof.
  unfold decode_rlp. destruct (Z.eqb_spec (Zlen data) 0); [by intros [= <-]|]. cbn [negb].
  pose proof (decode_item_ends data (List.length data) 0 ltac:(lia) ltac:(lia)) as H0.
  destruct (_decode_item _ data 0) as [[item next]|e']; mcbn; [|by intros [= <-]]. destruct (_ =? _); [done|by intros [= <-]].
Qed.
(** Decoding inverts encoding. *)
Lemma decode_encoded item data : encode_rlp item = Ok data -> Zlen data < 2 ^ 64 -> decode_rlp data = Ok item.
Proof. intros E Hl. by apply (text_decodes true), encode_strict. Qed.
Lemma decode_encoded_list l data : encode_rlp (RList (map RBytes l)) = Ok data -> Zlen data < 2 ^ 64 -> decode_rlp_list data = Ok l.
Proof.
  intros E Hl. unfold decode_rlp_list. rewrite (decode_encoded _ _ E Hl). mcbn. apply mapM_Ok. clear E Hl. induction l; by constructor.
Qed.

(** C30: RLP texts and items.  On every string the decoder ends; it returns an item exactly
    when the string is a text of that item, and otherwise raises [RLPDecodingError], on
    truncated, overlong, trailing and wrongly nested input alike.  The encoder writes the
    strict text of an item and nothing else, so that decoding inverts it; the two notions
    of text differ only in a single byte below 0x80, which the decoder also accepts behind a
    prefix.  (Strings nested past the recursion limit of the interpreter are left aside; the
    only caller caps its input at 300 bytes.) *)
Theorem rlp_decodes_exactly (data : bytes) :
  (forall item, decode_rlp data = Ok item <-> rlp_text false item data) /\
  (forall e, decode_rlp data = Err e -> e = RLPDecodingError) /\
  (Zlen data < 2 ^ 64 -> forall item, encode_rlp item = Ok data <-> rlp_text true item data) /\
  (forall item, rlp_text true item data -> decode_rlp data = Ok item).
Proof.
  split_and!.
  - intros item. split; [apply decoded_text|apply text_decodes].
  - apply decode_rlp_error.
  - intros Hl item. split; [intros E; by apply encode_strict|apply strict_encodes].
  - intros item. apply text_decodes.
Qed.

(** The second text of a small byte *)
Example prefixed_small_byte : decode_rlp [Byte.x81; Byte.x7f] = Ok (RBytes [Byte.x7f]) /\ encode_rlp (RBytes [Byte.x7f]) = Ok [Byte.x7f].
Proof. split; reflexivity. Qed.
