(* ===== verification/Enr.v ===== *)
(** * Node records (node/networking/enr/enr.py, keys.py, eth2.py; cli/bootstrap.py)

    A signed record of a node's keys and addresses, as RLP and as Base64 text, and the
    resolution of boot nodes.  A Python [str] is its UTF-8 bytes, whose order is that of the
    strings.  Keccak and curve operations belong to packages and are parameters; Base64 is
    that of the standard library, whose decoder skips characters outside the alphabet. *)

From S2P Require Import Prelude Pydict Uint Varint Ssz GossipRpc GossipTopic Sha256 Identity Rlp StateMonad.
From S2P Require Import Multistream Quic.
From Stdlib Require Import String.

Local Open Scope Z_scope.
Local Open Scope list_scope.

(** ** Base64 *)
Definition B64_ALPHABET : bytes := str "ABCDEFGHIJKLMNOPQRSTUVWXYZabcdefghijklmnopqrstuvwxyz0123456789-_".
Definition pad : Byte.byte := Byte.x3d.
Definition b64_char (n : Z) : Byte.byte := nth (Z.to_nat n) B64_ALPHABET Byte.x00.

Fixpoint urlsafe_b64encode (data : bytes) : bytes :=
  match data with
  | a :: b :: c :: rest =>
      let a := byte.unsigned a in let b := byte.unsigned b in let c := byte.unsigned c in
      b64_char (a / 4) :: b64_char (a mod 4 * 16 + b / 16) :: b64_char (b mod 16 * 4 + c / 64) :: b64_char (c mod 64) :: urlsafe_b64encode rest
  | [a; b] =>
      let a := byte.unsigned a in let b := byte.unsigned b in
      [b64_char (a / 4); b64_char (a mod 4 * 16 + b / 16); b64_char (b mod 16 * 4); pad]
  | [a] => let a := byte.unsigned a in [b64_char (a / 4); b64_char (a mod 4 * 16); pad; pad]
  | [] => []
  end.

(** The value of a character; ['+'] and ['/'] stand for the last two as well. *)
Definition b64_value (c : Byte.byte) : option Z :=
  if bool_decide (c = Byte.x2b) then Some 62
  else if bool_decide (c = Byte.x2f) then Some 63
  else let i := alphabet_find c B64_ALPHABET 0 in if i <? 0 then None else Some i.

(** [binascii.a2b_base64], not strict: [quad_pos] characters of the current group were
    read, whose undelivered bits are [leftchar]. *)
Fixpoint a2b_base64 (text : bytes) (quad_pos leftchar pads : Z) : result bytes :=
  match text with
  | [] => check! quad_pos =? 0 else ValueError;; Ok []
  | c :: rest =>
      if bool_decide (c = pad) then
        if 2 <=? quad_pos then
          if 4 <=? quad_pos + (pads + 1) then Ok [] else a2b_base64 rest quad_pos leftchar (pads + 1)
        else a2b_base64 rest quad_pos leftchar pads
      else
        match b64_value c with
        | None => a2b_base64 rest quad_pos leftchar pads
        | Some v =>
            if quad_pos =? 0 then a2b_base64 rest 1 v 0
            else if quad_pos =? 1 then
              out ← a2b_base64 rest 2 (v mod 16) 0; Ok (byte.of_Z (leftchar * 4 + v / 16) :: out)
            else if quad_pos =? 2 then
              out ← a2b_base64 rest 3 (v mod 4) 0; Ok (byte.of_Z (leftchar * 16 + v / 4) :: out)
            else
              out ← a2b_base64 rest 0 0 0; Ok (byte.of_Z (leftchar * 64 + v) :: out)
        end
  end.
(** [base64.urlsafe_b64decode] of a string, which must be ASCII *)
Definition urlsafe_b64decode (text : bytes) : result bytes :=
  check! forallb (fun c => byte.unsigned c <? 128) text else ValueError;;
  a2b_base64 text 0 0 0.

(** ** Records *)
Definition ENR_PREFIX : bytes := str "enr:".
Definition MAX_SIZE : Z := 300.
Definition SCHEME : bytes := str "v4".
Definition ID : bytes := str "id".
Definition SECP256K1_KEY : bytes := str "secp256k1".
Definition IP : bytes := str "ip".
Definition UDP : bytes := str "udp".
Definition QUIC : bytes := str "quic".
Definition ETH2 : bytes := str "eth2".
Definition ATTNETS : bytes := str "attnets".
Definition IS_AGGREGATOR : bytes := str "is_aggregator".

Record ENR := { enr_signature : bytes; enr_seq : Z; enr_pairs : dict bytes bytes; enr_node_id : option bytes }.
Definition get (key : bytes) (self : ENR) : option bytes := dget key (enr_pairs self).
(** The bytes of a key, when there are any *)
Definition get_bytes (key : bytes) (self : ENR) : option bytes :=
  match get key self with Some (b :: rest) => Some (b :: rest) | _ => None end.

Definition identity_scheme (self : ENR) : result (option bytes) :=
  match get_bytes ID self with Some id_bytes => scheme ← decode_utf8 id_bytes; Ok (Some scheme) | None => Ok None end.
Definition public_key (self : ENR) : option bytes :=
  match get SECP256K1_KEY self with Some raw => if Zlen raw =? 33 then Some raw else None | None => None end.
Definition dot : Byte.byte := Byte.x2e.
Definition ip4 (self : ENR) : option bytes :=
  match get IP self with
  | Some [a; b; c; d] =>
      let s x := str_of_uint64 (byte.unsigned x) in
      Some (s a ++ dot :: s b ++ dot :: s c ++ dot :: s d)
  | _ => None
  end.
Definition port_at (key : bytes) (self : ENR) : result (option Z) :=
  match get_bytes key self with Some raw => port ← uint_new 16 (from_bytes_be raw); Ok (Some port) | None => Ok None end.
Definition udp_port : ENR -> result (option Z) := port_at UDP.
Definition quic_port : ENR -> result (option Z) := port_at QUIC.

(** Port zero is false, like a missing one. *)
Definition truthy_port (port : option Z) : option Z := match port with Some p => if p =? 0 then None else Some p | None => None end.
Definition multiaddr (self : ENR) : result (option bytes) :=
  quic ← quic_port self;
  port ← match truthy_port quic with Some p => Ok (Some p) | None => udp_port self end;
  Ok match ip4 self, truthy_port port with
     | Some ip, Some p => Some (str "/ip4/" ++ ip ++ str "/udp/" ++ str_of_uint64 p ++ str "/quic-v1")
     | _, _ => None
     end.

Record Eth2Data := { e2_fork_digest : bytes; e2_next_fork_version : bytes; e2_next_fork_epoch : Z }.
Definition eth2_data (self : ENR) : option Eth2Data :=
  match get ETH2 self with
  | Some eth2_bytes =>
      if Zlen eth2_bytes >=? 16 then
        Some {| e2_fork_digest := slice eth2_bytes 0 4; e2_next_fork_version := slice eth2_bytes 4 8;
                e2_next_fork_epoch := from_bytes_le (slice eth2_bytes 8 16) |}
      else None
  | None => None
  end.

(** Subnets are 64 bits. *)
Definition SUBNETS_LENGTH : Z := 64.
Definition attestation_subnets (self : ENR) : result (option (list bool)) :=
  match get ATTNETS self with
  | Some attnets => if Zlen attnets =? 8 then bits ← bitvector_decode_bytes SUBNETS_LENGTH attnets; Ok (Some bits) else Ok None
  | None => Ok None
  end.
Definition subnets_none : list bool := replicate (Z.to_nat SUBNETS_LENGTH) false.
Definition subnets_all : list bool := replicate (Z.to_nat SUBNETS_LENGTH) true.
Definition from_subnet_ids (subnet_ids : list Z) : result (list bool) :=
  foldM (fun bits sid =>
    check! (0 <=? sid) && (sid <? SUBNETS_LENGTH) else ValueError;;
    Ok (<[Z.to_nat sid := true]> bits)) subnets_none subnet_ids.
Definition is_subscribed (bits : list bool) (subnet_id : Z) : result bool :=
  check! (0 <=? subnet_id) && (subnet_id <? SUBNETS_LENGTH) else ValueError;;
  of_option IndexError (bits !! Z.to_nat subnet_id).
Definition subscribed_subnets (bits : list bool) : list Z :=
  omap (fun p => if p.2 : bool then Some (Z.of_nat p.1) else None) (imap pair bits).
Definition subscription_count (bits : list bool) : Z := Zlen (filter (fun b => b = true) bits).

Definition is_aggregator (self : ENR) : bool := bool_decide (get IS_AGGREGATOR self = Some [Byte.x01]).
Definition is_valid (self : ENR) : result bool :=
  scheme ← identity_scheme self;
  Ok (bool_decide (scheme = Some SCHEME) && bool_decide (is_Some (public_key self))).

(** [sorted(self.pairs)] *)
Definition key_order (a b : bytes) : Prop := bytes_leb a b = true.
#[export] Instance key_order_dec : RelDecision key_order.
Proof. intros a b. unfold key_order. apply _. Defined.
Definition sorted_keys (pairs : dict bytes bytes) : list bytes := merge_sort key_order (dkeys pairs).
Definition _build_content_items (self : ENR) : result (list RLPItem) :=
  seq_bytes ← to_bytes_be 8 (enr_seq self);
  items ← mapM (fun key => value ← dgetitem key (enr_pairs self); Ok [RBytes key; RBytes value]) (sorted_keys (enr_pairs self));
  Ok (RBytes (lstrip Byte.x00 seq_bytes) :: mjoin items).
Definition _content_rlp (self : ENR) : result bytes :=
  items ← _build_content_items self;
  encode_rlp (RList items).
Definition to_rlp (self : ENR) : result bytes :=
  items ← _build_content_items self;
  encode_rlp (RList (RBytes (enr_signature self) :: items)).
Definition rstrip (c : Byte.byte) (l : bytes) : bytes := rev (lstrip c (rev l)).
Definition to_string (self : ENR) : result bytes :=
  rlp_bytes ← to_rlp self;
  Ok (ENR_PREFIX ++ rstrip pad (urlsafe_b64encode rlp_bytes)).

(** [hex()] *)
Definition hex_digit (n : Z) : Byte.byte := nth (Z.to_nat n) (str "0123456789abcdef") Byte.x00.
Definition hex (data : bytes) : bytes := mjoin (map (fun b => [hex_digit (byte.unsigned b / 16); hex_digit (byte.unsigned b mod 16)]) data).
(** [str(enr)] *)
Definition enr_str (self : ENR) : result bytes :=
  udp ← udp_port self;
  quic ← quic_port self;
  Ok (str "ENR(seq=" ++ str_of_uint64 (enr_seq self) ++
      match ip4 self with Some ip => str ", ip=" ++ ip | None => [] end ++
      match truthy_port udp with Some p => str ", udp=" ++ str_of_uint64 p | None => [] end ++
      match truthy_port quic with Some p => str ", quic=" ++ str_of_uint64 p | None => [] end ++
      match eth2_data self with Some e => str ", fork=" ++ hex (e2_fork_digest e) | None => [] end ++ str ")").

(** The pairs of a record: keys are strings in strictly increasing order. *)
Fixpoint parse_pairs (items : list bytes) (previous_key : option bytes) (pairs : dict bytes bytes) : result (dict bytes bytes) :=
  match items with
  | key_bytes :: entry_value :: rest =>
      key ← decode_utf8 key_bytes;
      check! match previous_key with Some previous => negb (bytes_leb key previous) | None => true end else ValueError;;
      parse_pairs rest (Some key) (dset key entry_value pairs)
  | [_] => Err IndexError
  | [] => Ok pairs
  end.

(** Keccak-256, the uncompressed encoding of a point (0x04, x, y) and the verification of a
    signature, as two numbers, of a digest *)
Class EnrCrypto `{Secp256k1} := {
  keccak256 : bytes -> bytes;
  uncompressed : point -> bytes;
  verify_digest : point -> Z -> Z -> bytes -> bool;
  keccak_length data : Zlen (keccak256 data) = 32
}.

Section Records.
Context `{EnrCrypto}.

(** [ValueError], and [UnicodeError] below it, are caught. *)
Definition verify_signature (self : ENR) : result bool :=
  match public_key self with
  | None => Ok false
  | Some key =>
      match (content ← _content_rlp self;
             p ← from_encoded_point key;
             let r := from_bytes_be (slice (enr_signature self) 0 32) in
             let s := from_bytes_be (slice (enr_signature self) 32 64) in
             Ok (verify_digest p r s (keccak256 content))) with
      | Err (ValueError | UnicodeError) => Ok false
      | outcome => outcome
      end
  end.

Definition compute_node_id (self : ENR) : result (option bytes) :=
  match public_key self with
  | None => Ok None
  | Some key =>
      match (p ← from_encoded_point key; node_id ← bytes_new 32 (keccak256 (drop 1 (uncompressed p))); Ok (Some node_id)) with
      | Err (ValueError | UnicodeError | TypeError) => Ok None
      | outcome => outcome
      end
  end.

Definition from_rlp (rlp_data : bytes) : result ENR :=
  check! negb (Zlen rlp_data >? MAX_SIZE) else ValueError;;
  rlp_items ← match decode_rlp_list rlp_data with Err RLPDecodingError => Err ValueError | outcome => outcome end;
  check! negb (Zlen rlp_items <? 2) else ValueError;;
  check! Zlen rlp_items mod 2 =? 0 else ValueError;;
  match rlp_items with
  | signature_raw :: seq_bytes :: rest =>
      check! Zlen signature_raw =? 64 else ValueError;;
      pairs ← parse_pairs rest None [];
      seq ← uint_new 64 (from_bytes_be seq_bytes);
      let enr := {| enr_signature := signature_raw; enr_seq := seq; enr_pairs := pairs; enr_node_id := None |} in
      node_id ← compute_node_id enr;
      Ok {| enr_signature := signature_raw; enr_seq := seq; enr_pairs := pairs; enr_node_id := node_id |}
  | _ => Err IndexError
  end.

Definition startswith (prefix text : bytes) : bool := bool_decide (take (List.length prefix) text = prefix).
Definition from_string (enr_text : bytes) : result ENR :=
  check! startswith ENR_PREFIX enr_text else ValueError;;
  let b64_content := drop (List.length ENR_PREFIX) enr_text in
  let padding := 4 - Zlen b64_content mod 4 in
  let b64_content := if padding =? 4 then b64_content else b64_content ++ replicate (Z.to_nat padding) pad in
  rlp_data ← match urlsafe_b64decode b64_content with Err _ => Err ValueError | outcome => outcome end;
  from_rlp rlp_data.

(** ** Boot nodes (cli/bootstrap.py)

    A [CliValidationError], a [ValueError], prints the record it refuses. *)
Definition refuse {A} (enr : ENR) : result A := _ ← enr_str enr; Err ValueError.
Definition resolve_bootnode (bootnode : bytes) : result bytes :=
  if negb (startswith (str "enr:") bootnode) then Ok bootnode
  else
    enr ← from_string bootnode;
    valid ← is_valid enr;
    if negb valid then refuse enr
    else
      signed ← verify_signature enr;
      if negb signed then refuse enr
      else
        address ← multiaddr enr;
        match address with None => refuse enr | Some address => Ok address end.
Definition resolve_bootnodes (bootnodes : list bytes) : result (list bytes) := mapM resolve_bootnode bootnodes.
End Records.

(** * Node records: proofs

    Base64 and RLP invert, so a record survives its text; the signed content determines the
    sequence number and the pairs; and what the resolution of boot nodes hands to the
    transport. *)

(** ** Base64 *)
Lemma all_b64 : forallb (fun n => bool_decide (b64_value (b64_char n) = Some n) && negb (bool_decide (b64_char n = pad)) && (byte.unsigned (b64_char n) <? 128))
  (map Z.of_nat (seq 0 64)) = true.
Proof. vm_compute. reflexivity. Qed.
Lemma b64_char_ok n : 0 <= n < 64 -> b64_value (b64_char n) = Some n /\ b64_char n <> pad /\ byte.unsigned (b64_char n) < 128.
Proof.
  intros Hn. pose proof all_b64 as Ha. rewrite forallb_forall in Ha. specialize (Ha n).
  assert (In n (map Z.of_nat (seq 0 64))) as Hi by (apply in_map_iff; exists (Z.to_nat n); split; [lia|apply in_seq; lia]).
  apply Ha, andb_true_iff in Hi as [[Hv Hp]%andb_true_iff Hl]. bool_to_prop. done.
Qed.

(** The characters of a group *)
Section Steps.
Context (n : Z) (rest : bytes) (leftchar : Z) (Hn : 0 <= n < 64).
Lemma b64_step0 : a2b_base64 (b64_char n :: rest) 0 leftchar 0 = a2b_base64 rest 1 n 0.
Proof. destruct (b64_char_ok n Hn) as (Ev & Hp & _). cbn [a2b_base64]. by rewrite bool_decide_false, Ev. Qed.
Lemma b64_step1 : a2b_base64 (b64_char n :: rest) 1 leftchar 0 = out ← a2b_base64 rest 2 (n mod 16) 0; Ok (byte.of_Z (leftchar * 4 + n / 16) :: out).
Proof. destruct (b64_char_ok n Hn) as (Ev & Hp & _). cbn [a2b_base64]. by rewrite bool_decide_false, Ev. Qed.
Lemma b64_step2 : a2b_base64 (b64_char n :: rest) 2 leftchar 0 = out ← a2b_base64 rest 3 (n mod 4) 0; Ok (byte.of_Z (leftchar * 16 + n / 4) :: out).
Proof. destruct (b64_char_ok n Hn) as (Ev & Hp & _). cbn [a2b_base64]. by rewrite bool_decide_false, Ev. Qed.
Lemma b64_step3 : a2b_base64 (b64_char n :: rest) 3 leftchar 0 = out ← a2b_base64 rest 0 0 0; Ok (byte.of_Z (leftchar * 64 + n) :: out).
Proof. destruct (b64_char_ok n Hn) as (Ev & Hp & _). cbn [a2b_base64]. by rewrite bool_decide_false, Ev. Qed.
End Steps.

(** Induction by groups of three bytes *)
Lemma groups_ind (P : bytes -> Prop) : P [] -> (forall a, P [a]) -> (forall a b, P [a; b]) -> (forall a b c rest, P rest -> P (a :: b :: c :: rest)) -> forall l, P l.
Proof.
  intros H0 H1 H2 H3 l. enough (P l /\ (forall a, P (a :: l)) /\ (forall a b, P (a :: b :: l))) by naive_solver.
  induction l as [|x l (I0 & I1 & I2)]; [by auto|]. split; [apply I1|]. split; [intros a; apply I2|]. intros a b. by apply H3.
Qed.

Ltac byte_ranges :=
  repeat match goal with
  | b : Byte.byte |- _ => match goal with _ : 0 <= byte.unsigned b < _ |- _ => fail 1 | _ => pose proof (byte.unsigned_range b) end
  end.
Ltac divide := byte_ranges; Z.to_euclidean_division_equations; lia.
Lemma of_Z_eq (b : Byte.byte) z : z = byte.unsigned b -> byte.of_Z z = b.
Proof. intros ->. apply byte.of_Z_unsigned. Qed.

Lemma b64_decodes data : a2b_base64 (urlsafe_b64encode data) 0 0 0 = Ok data.
Proof.
  induction data as [|a|a b|a b c rest IH] using groups_ind; cbn [urlsafe_b64encode]; [done|..].
  - rewrite b64_step0, b64_step1 by divide. change (a2b_base64 [pad; pad] 2 _ 0) with (@Ok bytes []).
    mcbn. do 2 f_equal. apply of_Z_eq. divide.
  - rewrite b64_step0, b64_step1, b64_step2 by divide. change (a2b_base64 [pad] 3 _ 0) with (@Ok bytes []).
    mcbn. do 2 f_equal; [|f_equal]; apply of_Z_eq; divide.
  - rewrite b64_step0, b64_step1, b64_step2, b64_step3 by divide. rewrite IH. mcbn. do 2 f_equal; [|f_equal; [|f_equal]]; apply of_Z_eq; divide.
Qed.

(** The text is characters of the alphabet and then the padding of the last group. *)
Definition plain (c : Byte.byte) : Prop := c <> pad /\ byte.unsigned c < 128.
Lemma b64_shape data : exists body k, urlsafe_b64encode data = body ++ replicate k pad /\ Forall plain body /\ (k < 3)%nat /\
  (Zlen body + Z.of_nat k) mod 4 = 0.
Proof.
  assert (forall n, 0 <= n < 64 -> plain (b64_char n)) as Hc by (intros n Hn; by destruct (b64_char_ok n Hn) as (_ & ? & ?)).
  induction data as [|a|a b|a b c rest (body & k & E & Hb & Hk & Hm)] using groups_ind; cbn [urlsafe_b64encode].
  - exists [], 0%nat. split_and!; [done|constructor|lia|done].
  - eexists [_; _], 2%nat. split_and!; [done| |lia|done]. repeat constructor; apply Hc; divide.
  - eexists [_; _; _], 1%nat. split_and!; [done| |lia|done]. repeat constructor; apply Hc; divide.
  - eexists (_ :: _ :: _ :: _ :: body), k. rewrite E. split_and!; [done| |lia|].
    + repeat constructor; try done; apply Hc; divide.
    + cbn [List.length]. rewrite <- Hm. replace (Z.of_nat (S (S (S (S (List.length body))))) + Z.of_nat k) with (Zlen body + Z.of_nat k + 1 * 4) by lia.
      apply Z.mod_add. lia.
Qed.

Lemma rstrip_padding body k : Forall plain body -> rstrip pad (body ++ replicate k pad) = body.
Proof.
  intros Hb. unfold rstrip. rewrite rev_app_distr, rev_replicate, lstrip_replicate, rev_involutive; [done|].
  rewrite head_rev_last. intros El. apply last_Some_elem_of, (proj1 (Forall_forall _ _) Hb) in El. by destruct El.
Qed.

(** Python's decoder reads back the text without its padding. *)
Lemma b64_roundtrip data :
  let text := rstrip pad (urlsafe_b64encode data) in let padding := 4 - Zlen text mod 4 in
  urlsafe_b64decode (if padding =? 4 then text else text ++ replicate (Z.to_nat padding) pad) = Ok data.
Proof.
  destruct (b64_shape data) as (body & k & E & Hb & Hk & Hm). cbn zeta. rewrite E, rstrip_padding by done.
  assert ((if 4 - Zlen body mod 4 =? 4 then body else body ++ replicate (Z.to_nat (4 - Zlen body mod 4)) pad) = body ++ replicate k pad) as ->.
  { destruct (Z.eqb_spec (4 - Zlen body mod 4) 4) as [E4|E4].
    - replace k with 0%nat; [by rewrite app_nil_r|]. Z.to_euclidean_division_equations. lia.
    - do 2 f_equal. Z.to_euclidean_division_equations. lia. }
  unfold urlsafe_b64decode. rewrite <- E, b64_decodes. rewrite E, forallb_app, (proj2 (andb_true_iff _ _)); [done|]. split; apply forallb_forall.
  - intros c Hc%list_elem_of_In. apply (proj1 (Forall_forall _ _) Hb) in Hc as [_ Hc]. by apply Z.ltb_lt.
  - by intros c ->%list_elem_of_In%elem_of_replicate_inv.
Qed.

(** ** Records *)
Record enr_ok (e : ENR) : Prop := {
  ok_signature : Zlen (enr_signature e) = 64;
  ok_seq : 0 <= enr_seq e < 2 ^ 64;
  ok_keys : NoDup (dkeys (enr_pairs e));
  ok_utf8 : Forall (fun k => utf8_valid k = true) (dkeys (enr_pairs e))
}.
(** The pairs in the order of their keys *)
Definition sorted_pairs (pairs : dict bytes bytes) : dict bytes bytes := map (fun k => (k, default [] (dget k pairs))) (sorted_keys pairs).
Definition flat (l : dict bytes bytes) : list bytes := mjoin (map (fun p => [p.1; p.2]) l).

Lemma sorted_keys_perm pairs : sorted_keys pairs ≡ₚ dkeys pairs.
Proof. apply merge_sort_Permutation. Qed.
#[export] Instance key_order_total : Total key_order.
Proof. intros a b. apply bytes_leb_total. Qed.
#[export] Instance key_order_trans : Transitive key_order.
Proof. intros a b c. apply bytes_leb_trans. Qed.

(** Strictly increasing keys, as the parser asks for *)
Definition key_lt (a b : bytes) : Prop := bytes_leb b a = false.
Lemma sorted_keys_strict pairs : NoDup (dkeys pairs) -> StronglySorted key_lt (sorted_keys pairs).
Proof.
  intros Hd. assert (StronglySorted key_order (sorted_keys pairs)) as Hs by (apply StronglySorted_merge_sort; apply _).
  assert (NoDup (sorted_keys pairs)) as Hn by (by rewrite sorted_keys_perm). induction Hs as [|k l Hs IH Hf]; constructor.
  - apply IH. by inversion Hn.
  - inversion Hn as [|? ? Hk Hl]; subst. apply Forall_forall. intros k' Hk'. apply (proj1 (Forall_forall _ _) Hf) in Hk' as Ho. unfold key_lt.
    destruct (bytes_leb k' k) eqn:E; [|done]. by rewrite (bytes_leb_antisym k k' Ho E) in Hk.
Qed.
Lemma dkeys_sorted pairs : dkeys (sorted_pairs pairs) = sorted_keys pairs.
Proof. unfold sorted_pairs, dkeys. by rewrite map_map, map_id. Qed.

Lemma parse_flat l : forall previous acc,
  StronglySorted key_lt (dkeys l) -> Forall (fun k => utf8_valid k = true) (dkeys l) ->
  match previous with Some p => Forall (key_lt p) (dkeys l) | None => True end -> (forall k, k ∈ dkeys l -> k ∉ dkeys acc) ->
  parse_pairs (flat l) previous acc = Ok (acc ++ l).
Proof.
  induction l as [|[k v] l IH]; intros previous acc Hs Hu Hp Hd; cbn [flat parse_pairs]; [by rewrite app_nil_r|].
  change (flat ((k, v) :: l)) with (k :: v :: flat l). cbn [parse_pairs dkeys map fst] in *. inversion Hs as [|? ? Hs' Hk]; subst. inversion Hu; subst.
  unfold decode_utf8. rewrite H1. mcbn.
  assert (match previous with Some previous => negb (bytes_leb k previous) | None => true end = true) as ->.
  { destruct previous as [p|]; [|done]. inversion Hp as [|? ? Hp1 _]; subst. by rewrite Hp1. }
  rewrite IH; [|done..|].
  - rewrite dset_notin by (apply Hd; by left). by rewrite <- app_assoc.
  - intros k' Hk'. rewrite dset_notin by (apply Hd; by left). unfold dkeys at 1. rewrite map_app, not_elem_of_app. split; [apply Hd; by right|].
    cbn. rewrite list_elem_of_singleton. intros ->. apply (proj1 (Forall_forall _ _) Hk) in Hk'. unfold key_lt in Hk'.
    destruct (bytes_leb_total k k); congruence.
Qed.

Lemma from_bytes_be_lstrip l : from_bytes_be (lstrip Byte.x00 l) = from_bytes_be l.
Proof.
  induction l as [|b l IH]; [done|]. cbn [lstrip]. case_bool_decide as Hb; [|done]. subst b. rewrite IH, from_bytes_be_cons. done.
Qed.

(** The content of a record *)
Lemma content_items e : enr_ok e -> exists seq_bytes,
  _build_content_items e = Ok (map RBytes (seq_bytes :: flat (sorted_pairs (enr_pairs e)))) /\ from_bytes_be seq_bytes = enr_seq e.
Proof.
  intros He. unfold _build_content_items. destruct (to_bytes_be 8 (enr_seq e)) as [l|err] eqn:Es.
  2:{ unfold to_bytes_be, to_bytes_le in Es. pose proof (ok_seq e He). change (2 ^ (8 * 8)) with (2 ^ 64) in Es.
      by rewrite (proj2 (Z.leb_le _ _)), (proj2 (Z.ltb_lt _ _)) in Es by lia. }
  exists (lstrip Byte.x00 l). rewrite from_bytes_be_lstrip. split; [|by apply (from_to_bytes_be 8 (enr_seq e) l)]. mcbn.
  rewrite (proj2 (mapM_Ok _ _ (map (fun p => [RBytes p.1; RBytes p.2]) (sorted_pairs (enr_pairs e))))).
  - mcbn. cbn [map]. do 2 f_equal. unfold flat. generalize (sorted_pairs (enr_pairs e)). intros pairs. induction pairs as [|p pairs IH]; [done|].
    cbn [map mjoin list_join app]. by f_equal; f_equal.
  - unfold sorted_pairs. assert (forall k, k ∈ sorted_keys (enr_pairs e) -> k ∈ dkeys (enr_pairs e)) as Hk by (intros k; by rewrite sorted_keys_perm).
    induction (sorted_keys (enr_pairs e)) as [|k keys IH]; constructor; [|apply IH; intros k' Hk'; apply Hk; by right].
    destruct (proj2 (dget_is_Some k (enr_pairs e)) (Hk k ltac:(by left))) as [v Ev]. unfold dgetitem. by rewrite Ev.
Qed.

Lemma flat_even l : Zlen (flat l) mod 2 = 0.
Proof.
  induction l as [|p l IH]; [done|]. change (flat (p :: l)) with (p.1 :: p.2 :: flat l). cbn [List.length].
  replace (Z.of_nat (S (S (List.length (flat l))))) with (Zlen (flat l) + 1 * 2) by lia. by rewrite Z.mod_add.
Qed.
Lemma flat_inj l : forall k, flat l = flat k -> l = k.
Proof.
  induction l as [|[a b] l IH]; intros [|[c d] k] E; try done. injection E as -> -> E. by rewrite (IH k E).
Qed.

Section Records.
Context `{EnrCrypto}.

Lemma compute_node_id_total e : exists node_id, compute_node_id e = Ok node_id.
Proof.
  unfold compute_node_id. destruct (public_key e) as [key|]; [|by eexists]. destruct (from_encoded_point key) as [p|err] eqn:E; mcbn.
  - unfold bytes_new. rewrite keccak_length. cbn. by eexists.
  - apply encoded_point_error in E as ->. by eexists.
Qed.
Lemma sorted_get pairs k : NoDup (dkeys pairs) -> dget k (sorted_pairs pairs) = dget k pairs.
Proof.
  intros Hd. destruct (dget k pairs) as [v|] eqn:E.
  - apply In_dget; [unfold dict_wf; fold (dkeys (sorted_pairs pairs)); by rewrite dkeys_sorted, sorted_keys_perm|].
    apply list_elem_of_fmap. exists k. split; [by rewrite E|]. rewrite sorted_keys_perm. by eapply dget_Some_key.
  - apply dget_None. rewrite dkeys_sorted, sorted_keys_perm. by apply dget_None.
Qed.

(** What the parser makes of a record: its pairs in order and the id of its node *)
Definition parsed (node_id : option bytes) (e : ENR) : ENR :=
  {| enr_signature := enr_signature e; enr_seq := enr_seq e; enr_pairs := sorted_pairs (enr_pairs e); enr_node_id := node_id |}.

Lemma to_from_rlp e data node_id : enr_ok e -> to_rlp e = Ok data -> Zlen data <= MAX_SIZE -> compute_node_id e = Ok node_id ->
  from_rlp data = Ok (parsed node_id e).
Proof.
  intros He E Hl Hn. destruct (content_items e He) as (seq_bytes & Ei & Eq). unfold to_rlp in E. rewrite Ei in E. mcbn_in E.
  change (RBytes (enr_signature e) :: map RBytes ?l) with (map RBytes (enr_signature e :: l)) in E. unfold from_rlp, MAX_SIZE in *.
  rewrite Z.gtb_ltb, (proj2 (Z.ltb_ge _ _)) by lia. cbn [negb]. rewrite (decode_encoded_list _ _ E) by lia. mcbn.
  assert (Zlen (enr_signature e :: seq_bytes :: flat (sorted_pairs (enr_pairs e))) = Zlen (flat (sorted_pairs (enr_pairs e))) + 1 * 2) as Ez by (cbn; lia).
  rewrite Ez, Z.mod_add, flat_even, (proj2 (Z.ltb_ge _ _)), (ok_signature e He) by lia. cbn [negb Z.eqb Pos.eqb].
  rewrite parse_flat; [|rewrite dkeys_sorted; by apply sorted_keys_strict, He|rewrite dkeys_sorted, sorted_keys_perm; apply He|done|by intros k _ ?%not_elem_of_nil].
  mcbn. cbn [app]. rewrite Eq, uint_new_in_range by (pose proof (ok_seq e He); unfold in_range; lia). mcbn. cbn [app].
  match goal with |- context [compute_node_id ?x] => change x with (parsed None e) end.
  assert (compute_node_id (parsed None e) = Ok node_id) as ->; [|done]. rewrite <- Hn. unfold compute_node_id, public_key, Enr.get.
  unfold parsed. cbn [enr_pairs]. by rewrite sorted_get by apply He.
Qed.

Lemma startswith_app p t : startswith p (p ++ t) = true.
Proof. apply bool_decide_eq_true. by rewrite take_app_length. Qed.
End Records.

(** C29: a node record survives its text, and its signature pins it down.  Of a record of at
    most 300 bytes, the RLP and the Base64 text without padding parse to the record, with
    its pairs in the order of the keys and the id of its node; and a record with the same
    signed content has the same sequence number and the same pairs. *)
Theorem enr_roundtrip `{EnrCrypto} (e : ENR) (data : bytes) :
  enr_ok e -> to_rlp e = Ok data -> Zlen data <= MAX_SIZE ->
  exists text node_id, to_string e = Ok text /\ compute_node_id e = Ok node_id /\
    from_rlp data = Ok (parsed node_id e) /\ from_string text = Ok (parsed node_id e) /\
    forall e' content, enr_ok e' -> Zlen content < 2 ^ 64 -> _content_rlp e = Ok content -> _content_rlp e' = Ok content ->
      enr_seq e' = enr_seq e /\ sorted_pairs (enr_pairs e') = sorted_pairs (enr_pairs e).
Proof.
  intros He E Hl. destruct (compute_node_id_total e) as [node_id Hn]. pose proof (to_from_rlp e data node_id He E Hl Hn) as Ef.
  exists (ENR_PREFIX ++ rstrip pad (urlsafe_b64encode data)), node_id. split_and!; [unfold to_string; by rewrite E|done|done|..].
  - unfold from_string. rewrite startswith_app, drop_app_length. cbn zeta. rewrite b64_roundtrip. by mcbn.
  - intros e' content He' Hc E1 E2. destruct (content_items e He) as (s1 & I1 & S1). destruct (content_items e' He') as (s2 & I2 & S2).
    unfold _content_rlp in E1, E2. rewrite I1 in E1. rewrite I2 in E2. mcbn_in E1. mcbn_in E2.
    pose proof (decode_encoded_list _ _ E1 Hc) as D1. pose proof (decode_encoded_list _ _ E2 Hc) as D2. rewrite D1 in D2. injection D2 as -> Ep.
    split; [congruence|]. symmetry. by apply flat_inj.
Qed.

(** ** Subnets: the bits that are set are those of the ids given. *)
Lemma subscribed_to ids : forall bits0 bits known,
  Zlen bits0 = SUBNETS_LENGTH -> (forall sid, 0 <= sid < SUBNETS_LENGTH -> is_subscribed bits0 sid = Ok (bool_decide (sid ∈ known))) ->
  foldM (fun bits sid => check! (0 <=? sid) && (sid <? SUBNETS_LENGTH) else ValueError;; Ok (<[Z.to_nat sid := true]> bits)) bits0 ids = Ok bits ->
  forall sid, 0 <= sid < SUBNETS_LENGTH -> is_subscribed bits sid = Ok (bool_decide (sid ∈ ids ++ known)).
Proof.
  induction ids as [|i ids IH]; intros bits0 bits known Hl Hk E; cbn [foldM] in E; [by injection E as <-|].
  destruct (_ && _) eqn:Ei in E; [|done]. mcbn_in E. bool_to_prop. intros sid Hs.
  rewrite (IH _ _ (i :: known) ltac:(by rewrite length_insert)) with (2 := E); [f_equal; apply bool_decide_ext; set_solver| |done].
  clear E IH sid Hs. intros sid Hs. specialize (Hk sid Hs). unfold is_subscribed in *.
  rewrite (proj2 (Z.leb_le _ _)), (proj2 (Z.ltb_lt _ _)) in * by lia. cbn [andb] in *. destruct (decide (sid = i)) as [->|Hne].
  - rewrite (list_lookup_insert_eq bits0) by lia. cbn. by rewrite bool_decide_true by (by left).
  - rewrite list_lookup_insert_ne by lia. rewrite Hk. f_equal. apply bool_decide_ext. rewrite elem_of_cons. naive_solver.
Qed.
Lemma from_subnet_ids_exact ids bits : from_subnet_ids ids = Ok bits ->
  forall sid, 0 <= sid < SUBNETS_LENGTH -> is_subscribed bits sid = Ok (bool_decide (sid ∈ ids)).
Proof.
  intros E sid Hs. replace (bool_decide (sid ∈ ids)) with (bool_decide (sid ∈ ids ++ [])) by (by rewrite app_nil_r).
  eapply (subscribed_to ids subnets_none bits []); [done| |exact E|done]. clear. intros sid Hs.
  unfold is_subscribed. rewrite (proj2 (Z.leb_le _ _)), (proj2 (Z.ltb_lt _ _)) by lia. cbn [andb]. unfold subnets_none, SUBNETS_LENGTH in *.
  rewrite bool_decide_false by (by intros ?%not_elem_of_nil). rewrite (proj2 (lookup_replicate (Z.to_nat 64) false false (Z.to_nat sid))); [done|]. split; [done|lia].
Qed.

(** ** Boot nodes *)
Lemma decimal_no_slash n : 0 <= n < 2 ^ 64 -> slash ∉ str_of_uint64 n.
Proof. intros Hn. apply no_slash_digits, decimal_digits. split; [lia|]. etrans; [apply Hn|]. by vm_compute. Qed.

Lemma decimal_no_dot n : 0 <= n < 2 ^ 64 -> dot ∉ str_of_uint64 n.
Proof.
  intros Hn. assert (Forall digit_byte (str_of_uint64 n)) as Hd by (apply decimal_digits; split; [lia|]; etrans; [apply Hn|]; by vm_compute).
  rewrite Forall_forall in Hd. intros Hin%Hd. unfold digit_byte in Hin. change (byte.unsigned dot) with 46 in Hin. lia.
Qed.
Lemma ip4_no_slash e ip : ip4 e = Some ip -> slash ∉ ip.
Proof.
  unfold ip4. intros E. destruct (Enr.get IP e) as [[|a [|b [|c [|d [|]]]]]|]; try done. injection E as <-.
  assert (forall x : Byte.byte, slash ∉ str_of_uint64 (byte.unsigned x)) as Hx.
  { intros x. apply decimal_no_slash. pose proof (byte.unsigned_range x). lia. }
  repeat (rewrite ?not_elem_of_app, ?not_elem_of_cons; split; [first [apply Hx|done]|]). apply Hx.
Qed.

Lemma lstrip_head c l : head l <> Some c -> lstrip c l = l.
Proof. apply (lstrip_replicate c 0). Qed.

(** The address of a record names a host and a port and no peer. *)
Lemma address_parses ip port : slash ∉ ip -> 0 <= port < 2 ^ 64 ->
  parse_multiaddr (str "/ip4/" ++ ip ++ str "/udp/" ++ str_of_uint64 port ++ str "/quic-v1") = Ok (ip, port, Some (str "quic"), None).
Proof.
  intros Hip Hp. unfold parse_multiaddr.
  assert (strip slash (str "/ip4/" ++ ip ++ str "/udp/" ++ str_of_uint64 port ++ str "/quic-v1") =
    str "ip4" ++ slash :: ip ++ slash :: str "udp" ++ slash :: str_of_uint64 port ++ slash :: str "quic-v1") as ->.
  { set (l := _ ++ slash :: ip ++ _). change (strip slash (slash :: l) = l). unfold strip.
    replace (lstrip slash (slash :: l)) with l by (symmetry; cbn [lstrip]; rewrite bool_decide_true by done; by apply lstrip_head).
    assert (exists k, l = k ++ [Byte.x31]) as [k ->].
    { exists (str "ip4" ++ slash :: ip ++ slash :: str "udp" ++ slash :: str_of_uint64 port ++ slash :: str "quic-v").
      unfold l. rewrite <- !app_assoc. cbn [app]. rewrite <- !app_assoc. cbn [app]. rewrite <- !app_assoc. cbn [app]. by rewrite <- !app_assoc. }
    rewrite rev_app_distr. cbn [rev app]. rewrite lstrip_head by done. cbn [rev]. by rewrite rev_involutive. }
  rewrite !split_app by (first [done|by apply decimal_no_slash|apply (bool_decide_unpack _); vm_compute; exact I]).
  rewrite split_single by (apply (bool_decide_unpack _); vm_compute; exact I). cbn [parse_components].
  rewrite bool_decide_true by done. rewrite bool_decide_false by done. rewrite bool_decide_true by done. rewrite int_of_decimal by done. mcbn. done.
Qed.

(** The number that the bytes of a key stand for; zero when there are none *)
Definition number_at (key : bytes) (e : ENR) : Z := from_bytes_be (default [] (dget key (enr_pairs e))).
(** The endpoint that the pairs of a record advertise: the four bytes of the address, in
    decimal between dots, and the QUIC port, or the UDP port if that is zero or missing *)
Definition advertises (e : ENR) (host : bytes) (port : Z) : Prop :=
  (exists a b c d, dget IP (enr_pairs e) = Some [a; b; c; d] /\
     mapM int_of_str (split dot host) = Ok (map byte.unsigned [a; b; c; d])) /\
  port = (if number_at QUIC e =? 0 then number_at UDP e else number_at QUIC e) /\ 0 < port < 2 ^ 16.

Lemma ip4_parts e ip : ip4 e = Some ip -> exists a b c d, dget IP (enr_pairs e) = Some [a; b; c; d] /\
  mapM int_of_str (split dot ip) = Ok (map byte.unsigned [a; b; c; d]).
Proof.
  unfold ip4, Enr.get. intros E. destruct (dget IP (enr_pairs e)) as [[|a [|b [|c [|d [|]]]]]|]; try done. injection E as <-.
  assert (forall x : Byte.byte, 0 <= byte.unsigned x < 2 ^ 64) as Hx by (intros x; pose proof (byte.unsigned_range x); lia).
  exists a, b, c, d. split; [done|]. rewrite !split_app, split_single by (by apply decimal_no_dot).
  cbn [mapM]. rewrite !int_of_decimal by done. reflexivity.
Qed.
Lemma port_number key e port : port_at key e = Ok port -> match truthy_port port with
  | Some p => number_at key e = p /\ 0 < p < 2 ^ 16
  | None => number_at key e = 0
  end.
Proof.
  unfold port_at, get_bytes, number_at, Enr.get. destruct (dget key (enr_pairs e)) as [[|b raw]|]; cbn [default]; intros E; [by injection E as <-| |by injection E as <-].
  apply bind_Ok in E as (p & [-> Hp]%uint_new_Ok & [= <-]). unfold in_range in Hp. cbn [truthy_port]. destruct (Z.eqb_spec (from_bytes_be (b :: raw)) 0); [done|].
  split; [done|lia].
Qed.
Lemma multiaddr_parts e a : multiaddr e = Ok (Some a) -> exists ip port, slash ∉ ip /\ advertises e ip port /\
  a = str "/ip4/" ++ ip ++ str "/udp/" ++ str_of_uint64 port ++ str "/quic-v1".
Proof.
  unfold multiaddr. intros E. apply bind_Ok in E as (quic & Eq & E). apply bind_Ok in E as (port & Ep & E).
  destruct (ip4 e) as [ip|] eqn:Ei; [|done]. destruct (truthy_port port) as [p|] eqn:Et; [|done]. injection E as <-.
  exists ip, p. split; [by eapply ip4_no_slash|]. split; [|done]. split; [by apply ip4_parts|].
  pose proof (port_number QUIC e quic Eq) as Hq. destruct (truthy_port quic) as [q|].
  - injection Ep as <-. destruct Hq as [Hq Hr]. cbn in Et. destruct (q =? 0); [done|]. injection Et as <-.
    rewrite Hq, (proj2 (Z.eqb_neq _ _)) by lia. done.
  - pose proof (port_number UDP e port Ep) as Hu. rewrite Et in Hu. destruct Hu as [Hu Hr]. by rewrite Hq, Hu.
Qed.

(** C39: a boot node given as a node record is never dialed.  Whatever the boot nodes, when
    they resolve, a plain address is kept as it is, and a record, which decodes, is valid and
    carries a signature that verifies, resolves to an address with the host and the port that
    its own pairs advertise (the QUIC port, or the UDP port when that is zero or missing) but
    without the identity of the node, which the transport refuses before it opens a
    connection. *)
Theorem enr_bootnodes_are_not_dialed `{EnrCrypto} (bootnodes addresses : list bytes) :
  resolve_bootnodes bootnodes = Ok addresses ->
  Forall2 (fun bootnode address =>
    if startswith ENR_PREFIX bootnode then
      (exists e host port, from_string bootnode = Ok e /\ is_valid e = Ok true /\ verify_signature e = Ok true /\
         advertises e host port /\ parse_multiaddr address = Ok (host, port, Some (str "quic"), None)) /\
      forall quic m, connect quic address m = (Err QuicTransportError, m)
    else address = bootnode) bootnodes addresses.
Proof.
  intros E%mapM_Ok. eapply Forall2_impl; [exact E|]. clear E bootnodes addresses. intros bootnode address E. unfold resolve_bootnode in E.
  change (str "enr:") with ENR_PREFIX in E. destruct (startswith ENR_PREFIX bootnode); cbn [negb] in E; [|congruence].
  apply bind_Ok in E as (e & Ee & E). apply bind_Ok in E as (valid & Ev & E).
  assert (forall A (e : ENR) (x : A), refuse e <> Ok x) as Hr by (intros A e' x Ex; unfold refuse in Ex; by destruct (enr_str e')).
  destruct valid; cbn [negb] in E; [|by apply Hr in E]. apply bind_Ok in E as (signed & Es & E). destruct signed; cbn [negb] in E; [|by apply Hr in E].
  apply bind_Ok in E as (address' & Em & E). destruct address' as [a|]; [|by apply Hr in E]. injection E as <-.
  destruct (multiaddr_parts e a Em) as (ip & port & Hip & Ha & ->). pose proof Ha as (_ & _ & Hp).
  pose proof (address_parses ip port Hip ltac:(lia)) as Ea. split; [by exists e, ip, port|]. intros quic m. unfold connect, dial_target. rewrite Ea. done.
Qed.

(** ** A record *)
Section Sample.
#[local] Existing Instance sample_curve.
Definition sample_keccak (data : bytes) : bytes := take 32 (data ++ repeat Byte.x00 32).
#[local] Instance sample_enr_crypto : EnrCrypto.
Proof.
  refine {| keccak256 := sample_keccak; uncompressed k := [Byte.x04; k]; verify_digest k r _ _ := r =? byte.unsigned k |}.
  intros data. unfold sample_keccak. rewrite length_take, length_app, repeat_length. lia.
Defined.

Definition sample_enr : ENR := {|
  enr_signature := repeat Byte.x00 31 ++ Byte.x07 :: repeat Byte.x01 32; enr_seq := 258;
  enr_pairs := [(ID, SCHEME); (SECP256K1_KEY, Byte.x07 :: repeat Byte.x00 32); (IP, [Byte.x7f; Byte.x00; Byte.x00; Byte.x01]); (QUIC, [Byte.x23; Byte.x28])];
  enr_node_id := None |}.
Definition sample_text : bytes := match to_string sample_enr with Ok text => text | Err _ => [] end.

Lemma sample_enr_ok : enr_ok sample_enr.
Proof.
  split; [reflexivity|cbn; lia|apply (bool_decide_unpack _); vm_compute; exact I|repeat (constructor; [vm_compute; reflexivity|]); constructor].
Qed.

Lemma enr_roundtrip_witness : exists data text node_id, to_rlp sample_enr = Ok data /\ Zlen data <= MAX_SIZE /\ to_string sample_enr = Ok text /\
  from_string text = Ok (parsed (Some node_id) sample_enr).
Proof.
  destruct (to_rlp sample_enr) as [data|] eqn:E; [|vm_compute in E; discriminate E].
  assert (Zlen data <= MAX_SIZE) as Hl by (vm_compute in E; injection E as <-; vm_compute; discriminate).
  destruct (enr_roundtrip sample_enr data sample_enr_ok E Hl) as (text & id & Et & Ei & _ & Ef & _). vm_compute in Ei. injection Ei as <-.
  exists data, text. eexists. split; [reflexivity|]. split; [exact Hl|]. split; [exact Et|exact Ef].
Defined.

Lemma enr_bootnodes_are_not_dialed_witness :
  resolve_bootnodes [str "/ip4/10.0.0.1/udp/9/quic-v1"; sample_text] = Ok [str "/ip4/10.0.0.1/udp/9/quic-v1"; str "/ip4/127.0.0.1/udp/9000/quic-v1"] /\
  forall quic m, connect quic (str "/ip4/127.0.0.1/udp/9000/quic-v1") m = (Err QuicTransportError, m).
Proof.
  assert (resolve_bootnodes [str "/ip4/10.0.0.1/udp/9/quic-v1"; sample_text] =
    Ok [str "/ip4/10.0.0.1/udp/9/quic-v1"; str "/ip4/127.0.0.1/udp/9000/quic-v1"]) as E by (vm_compute; reflexivity).
  split; [exact E|]. pose proof (enr_bootnodes_are_not_dialed _ _ E) as Hf. inversion Hf as [|? ? ? ? _ Hf1]; subst. inversion Hf1 as [|? ? ? ? H1 _]; subst.
  assert (startswith ENR_PREFIX sample_text = true) as Es by (vm_compute; reflexivity). rewrite Es in H1. apply H1.
Defined.
End Sample.
