(* ===== verification/Storage.v ===== *)
(** * Persistent storage (node/storage/sqlite.py, namespaces.py, database.py)

    A table is a dict of rows by primary key.  The connection sees the tables with the
    writes of the open transaction; a commit makes them the ones a later connection
    opens with, a rollback drops them.  Which statements and commits SQLite fails is a
    parameter: a failed one changes nothing and raises [sqlite3.Error]. *)

From stdpp Require Import strings.
From S2P Require Import Prelude Pydict Uint Ssz SszCorrect Sha256 Merkle Containers Proofs SszRecords StateMonad.

(** ** Schema *)
Definition CHECKPOINTS_KEY_JUSTIFIED : string := "justified"%string.
Definition CHECKPOINTS_KEY_FINALIZED : string := "finalized"%string.
Definition CHECKPOINTS_KEY_HEAD : string := "head"%string.
Definition CHECKPOINTS_KEY_GENESIS_TIME : string := "genesis_time"%string.

Record Tables := {
  tb_blocks : dict Bytes32 (Z * bytes);
  tb_states : dict Bytes32 (Z * bytes);
  tb_checkpoints : dict string bytes;
  tb_slot_index : dict Z bytes;
  tb_state_root_index : dict Bytes32 bytes
}.
Definition empty_tables : Tables :=
  {| tb_blocks := []; tb_states := []; tb_checkpoints := []; tb_slot_index := []; tb_state_root_index := [] |}.

Definition with_blocks (rows : dict Bytes32 (Z * bytes)) (t : Tables) : Tables :=
  {| tb_blocks := rows; tb_states := tb_states t; tb_checkpoints := tb_checkpoints t;
     tb_slot_index := tb_slot_index t; tb_state_root_index := tb_state_root_index t |}.
Definition with_states (rows : dict Bytes32 (Z * bytes)) (t : Tables) : Tables :=
  {| tb_blocks := tb_blocks t; tb_states := rows; tb_checkpoints := tb_checkpoints t;
     tb_slot_index := tb_slot_index t; tb_state_root_index := tb_state_root_index t |}.
Definition with_checkpoints (rows : dict string bytes) (t : Tables) : Tables :=
  {| tb_blocks := tb_blocks t; tb_states := tb_states t; tb_checkpoints := rows;
     tb_slot_index := tb_slot_index t; tb_state_root_index := tb_state_root_index t |}.
Definition with_slot_index (rows : dict Z bytes) (t : Tables) : Tables :=
  {| tb_blocks := tb_blocks t; tb_states := tb_states t; tb_checkpoints := tb_checkpoints t;
     tb_slot_index := rows; tb_state_root_index := tb_state_root_index t |}.
Definition with_state_root_index (rows : dict Bytes32 bytes) (t : Tables) : Tables :=
  {| tb_blocks := tb_blocks t; tb_states := tb_states t; tb_checkpoints := tb_checkpoints t;
     tb_slot_index := tb_slot_index t; tb_state_root_index := rows |}.

(** ** The connection *)
Record Connection := {
  cn_committed : Tables;
  cn_working : Tables;
  cn_statements : nat
}.

(** The statements, counted from the first, that SQLite fails *)
Class Disk := { sqlite_fails : nat -> bool }.

(** [sqlite3.connect] *)
Definition connect (t : Tables) : Connection := {| cn_committed := t; cn_working := t; cn_statements := 0 |}.

Section Sqlite.
Context `{Disk}.

Definition execute {A} (statement : Tables -> A * Tables) : M Connection A := fun c =>
  if sqlite_fails (cn_statements c) then
    (Err SqliteError, {| cn_committed := cn_committed c; cn_working := cn_working c; cn_statements := S (cn_statements c) |})
  else
    let '(a, t) := statement (cn_working c) in
    (Ok a, {| cn_committed := cn_committed c; cn_working := t; cn_statements := S (cn_statements c) |}).

Definition commit : M Connection unit := fun c =>
  if sqlite_fails (cn_statements c) then
    (Err SqliteError, {| cn_committed := cn_committed c; cn_working := cn_working c; cn_statements := S (cn_statements c) |})
  else (Ok tt, {| cn_committed := cn_working c; cn_working := cn_working c; cn_statements := S (cn_statements c) |}).

Definition rollback (c : Connection) : Connection :=
  {| cn_committed := cn_committed c; cn_working := cn_committed c; cn_statements := cn_statements c |}.

(** [except sqlite3.Error as exception: raise error from exception] *)
Definition wrapping {A} (error : exn) (m : M Connection A) : M Connection A :=
  catch m (fun e => raising (Err (match e with SqliteError => error | e => e end))).

(** A parameter for an INTEGER column: 64 bits, signed *)
Definition sqlite_integer (z : Z) : result Z :=
  check! (- 2 ^ 63 <=? z) && (z <? 2 ^ 63) else OverflowError;; Ok z.

(** [except Exception as exception: raise StorageCorruptionError] around a decoder *)
Definition decode_row {A} (r : result A) : result A :=
  match r with Ok a => Ok a | Err _ => Err StorageCorruptionError end.

Definition select {A} (f : Tables -> option A) : M Connection (option A) :=
  wrapping StorageReadError (execute (fun t => (f t, t))).
Definition insert (f : Tables -> Tables) : M Connection unit := execute (fun t => (tt, f t)).

(** [if row is None: return None], then the decoder *)
Definition fetched {A} (row : option bytes) (decode : bytes -> result A) : M Connection (option A) :=
  match row with
  | None => mret None
  | Some data => a ← raising (decode data); mret (Some a)
  end.

(** ** Blocks and states *)
Definition get_block (root : Bytes32) : M Connection (option Block) :=
  row ← select (fun t => snd <$> dget root (tb_blocks t));
  fetched row (fun data => decode_row (container_decode data)).

Definition put_block (block : Block) (root : Bytes32) : M Connection unit :=
  wrapping StorageWriteError (
    data ← raising (container_encode block);
    slot ← raising (sqlite_integer (bk_slot block));
    insert (fun t => with_blocks (dset root (slot, data) (tb_blocks t)) t)).

Definition get_state (root : Bytes32) : M Connection (option State) :=
  row ← select (fun t => snd <$> dget root (tb_states t));
  fetched row (fun data => decode_row (container_decode data)).

Definition put_state (state : State) (root : Bytes32) : M Connection unit :=
  wrapping StorageWriteError (
    data ← raising (container_encode state);
    slot ← raising (sqlite_integer (st_slot state));
    insert (fun t => with_states (dset root (slot, data) (tb_states t)) t)).

(** ** Checkpoints, head and genesis time *)
Definition put_key (key : string) (data : result bytes) : M Connection unit :=
  wrapping StorageWriteError (
    data ← raising data;
    insert (fun t => with_checkpoints (dset key data (tb_checkpoints t)) t)).
Definition get_key {A} (key : string) (decode : bytes -> result A) : M Connection (option A) :=
  row ← select (fun t => dget key (tb_checkpoints t));
  fetched row decode.

Definition get_justified_checkpoint : M Connection (option Checkpoint) :=
  get_key CHECKPOINTS_KEY_JUSTIFIED (fun data => decode_row (container_decode data)).
Definition put_justified_checkpoint (checkpoint : Checkpoint) : M Connection unit :=
  put_key CHECKPOINTS_KEY_JUSTIFIED (container_encode checkpoint).
Definition get_finalized_checkpoint : M Connection (option Checkpoint) :=
  get_key CHECKPOINTS_KEY_FINALIZED (fun data => decode_row (container_decode data)).
Definition put_finalized_checkpoint (checkpoint : Checkpoint) : M Connection unit :=
  put_key CHECKPOINTS_KEY_FINALIZED (container_encode checkpoint).

Definition get_head_root : M Connection (option Bytes32) := get_key CHECKPOINTS_KEY_HEAD (bytes_new 32).
Definition put_head_root (root : Bytes32) : M Connection unit := put_key CHECKPOINTS_KEY_HEAD (Ok root).

Definition get_genesis_time : M Connection (option Z) :=
  get_key CHECKPOINTS_KEY_GENESIS_TIME (fun data => uint_new 64 (from_bytes_le data)).
Definition put_genesis_time (genesis_time : Z) : M Connection unit :=
  put_key CHECKPOINTS_KEY_GENESIS_TIME (to_bytes_le 8 genesis_time).

(** ** The indices *)
Definition get_block_root_by_slot (slot : Z) : M Connection (option Bytes32) :=
  slot ← raising (sqlite_integer slot);
  row ← select (fun t => dget slot (tb_slot_index t));
  fetched row (bytes_new 32).
Definition put_block_root_by_slot (slot : Z) (root : Bytes32) : M Connection unit :=
  wrapping StorageWriteError (
    slot ← raising (sqlite_integer slot);
    insert (fun t => with_slot_index (dset slot root (tb_slot_index t)) t)).

Definition get_block_root_by_state_root (state_root : Bytes32) : M Connection (option Bytes32) :=
  row ← select (fun t => dget state_root (tb_state_root_index t));
  fetched row (bytes_new 32).
Definition put_block_root_by_state_root (state_root block_root : Bytes32) : M Connection unit :=
  wrapping StorageWriteError (
    insert (fun t => with_state_root_index (dset state_root block_root (tb_state_root_index t)) t)).

(** ** Transactions *)
Definition batch_write {A} (body : M Connection A) : M Connection A := fun c =>
  match (a ← body; _ ← commit; mret a) c with
  | (Ok a, c) => (Ok a, c)
  | (Err e, c) => (Err (match e with SqliteError => StorageWriteError | e => e end), rollback c)
  end.

(** ** Pruning *)

(** [slot < ? AND root NOT IN (...)] *)
Definition expired (slot : Z) (keep_roots : list Bytes32) (row_slot : Z) (row_root : bytes) : bool :=
  (row_slot <? slot) && negb (bool_decide (row_root ∈ keep_roots)).

(** [DELETE FROM table WHERE ...]: the remaining rows, and [cursor.rowcount] *)
Definition delete_rows {K V} (p : K * V -> bool) (rows : dict K V) : dict K V * Z :=
  let remaining := filter (fun row => p row = false) rows in
  (remaining, Zlen rows - Zlen remaining).

Definition prune_before_slot (slot : Z) (keep_roots : list Bytes32) : M Connection Z :=
  wrapping StorageWriteError (
    slot ← raising (sqlite_integer slot);
    blocks ← execute (fun t =>
      let '(rows, n) := delete_rows (fun row => expired slot keep_roots row.2.1 row.1) (tb_blocks t) in (n, with_blocks rows t));
    states ← execute (fun t =>
      let '(rows, n) := delete_rows (fun row => expired slot keep_roots row.2.1 row.1) (tb_states t) in (n, with_states rows t));
    slots ← execute (fun t =>
      let '(rows, n) := delete_rows (fun row => expired slot keep_roots row.1 row.2) (tb_slot_index t) in (n, with_slot_index rows t));
    indices ← execute (fun t =>
      let '(rows, n) := delete_rows (fun row => negb (dmem row.2 (tb_blocks t))) (tb_state_root_index t) in
      (n, with_state_root_index rows t));
    mret (blocks + states + slots + indices)).
End Sqlite.
