(* ===== verification/Gossipsub.v ===== *)
(** * Gossipsub (node/networking/gossipsub/behavior.py)

    Subscriptions, publishing, the handlers of incoming RPCs, the heartbeat and the
    framing of both directions.  A method runs as one step: the code suspends only while
    it writes to a stream, puts an event on a queue or sleeps, and every check stands in
    the same uninterrupted stretch as the update it guards.  The frames handed to the
    outbound streams and the events put on the queue are recorded in order.  Broadcasts
    of subscriptions are background tasks, which wait in a list until they are run. *)

From S2P Require Import Prelude Pydict Uint Ssz Sha256 Merkle Containers SszRecords Varint Snappy ReqResp.
From S2P Require Import StateMonad GossipRpc GossipState.

Definition PRUNE_BACKOFF : Z := 60.
Definition IDONTWANT_SIZE_THRESHOLD : Z := 1024.
Definition GOSSIP_RETRANSMISSION : Z := 3.
Definition MAX_IWANT_MESSAGE_IDS_PER_REQUEST : Z := 5000.

(** The readings of the clock and the outcomes of [random.sample] *)
Class Environment := {
  time_at : nat -> Z;
  sample_at : nat -> list bytes -> nat -> list bytes;
  sample_part n l k : sample_at n l k ⊆+ l;
  sample_length n l k : (k <= length l)%nat -> length (sample_at n l k) = k
}.

Definition _try_decompress (data : bytes) : bytes * bytes :=
  match decompress data with
  | Ok decompressed => (decompressed, MESSAGE_DOMAIN_VALID_SNAPPY)
  | Err _ => (data, MESSAGE_DOMAIN_INVALID_SNAPPY)
  end.

Inductive GossipsubEvent :=
| GossipsubMessageEvent (peer_id : PeerId) (topic : TopicId) (data : bytes) (message_id : MessageId)
| GossipsubPeerEvent (peer_id : PeerId) (topic : TopicId) (subscribed : bool).

(** A stream is present or not; an inbound one has a receive loop. *)
Record PeerState := {
  ps_subscriptions : list TopicId;
  ps_outbound_stream : bool;
  ps_inbound_stream : bool;
  ps_backoff : dict TopicId Z;
  ps_dont_want_ids : list MessageId;
  ps_iwant_served_counts : dict MessageId Z
}.
Definition new_peer (outbound inbound : bool) : PeerState := {|
  ps_subscriptions := []; ps_outbound_stream := outbound; ps_inbound_stream := inbound; ps_backoff := [];
  ps_dont_want_ids := []; ps_iwant_served_counts := [] |}.
Definition with_subscriptions (f : list TopicId -> list TopicId) (p : PeerState) : PeerState := {|
  ps_subscriptions := f (ps_subscriptions p); ps_outbound_stream := ps_outbound_stream p; ps_inbound_stream := ps_inbound_stream p;
  ps_backoff := ps_backoff p; ps_dont_want_ids := ps_dont_want_ids p; ps_iwant_served_counts := ps_iwant_served_counts p |}.
Definition with_streams (outbound inbound : bool) (p : PeerState) : PeerState := {|
  ps_subscriptions := ps_subscriptions p; ps_outbound_stream := outbound; ps_inbound_stream := inbound;
  ps_backoff := ps_backoff p; ps_dont_want_ids := ps_dont_want_ids p; ps_iwant_served_counts := ps_iwant_served_counts p |}.
Definition with_backoff (topic : TopicId) (until : Z) (p : PeerState) : PeerState := {|
  ps_subscriptions := ps_subscriptions p; ps_outbound_stream := ps_outbound_stream p; ps_inbound_stream := ps_inbound_stream p;
  ps_backoff := dset topic until (ps_backoff p); ps_dont_want_ids := ps_dont_want_ids p;
  ps_iwant_served_counts := ps_iwant_served_counts p |}.
Definition with_dont_want (f : list MessageId -> list MessageId) (p : PeerState) : PeerState := {|
  ps_subscriptions := ps_subscriptions p; ps_outbound_stream := ps_outbound_stream p; ps_inbound_stream := ps_inbound_stream p;
  ps_backoff := ps_backoff p; ps_dont_want_ids := f (ps_dont_want_ids p); ps_iwant_served_counts := ps_iwant_served_counts p |}.
Definition with_served (f : dict MessageId Z -> dict MessageId Z) (p : PeerState) : PeerState := {|
  ps_subscriptions := ps_subscriptions p; ps_outbound_stream := ps_outbound_stream p; ps_inbound_stream := ps_inbound_stream p;
  ps_backoff := ps_backoff p; ps_dont_want_ids := ps_dont_want_ids p; ps_iwant_served_counts := f (ps_iwant_served_counts p) |}.

(** The arguments of a spawned [_broadcast_subscription] *)
Record broadcast := { bt_topic : TopicId; bt_subscribe : bool; bt_prune_peers : list PeerId }.

Record GossipsubBehavior := {
  gs_params : GossipsubParameters;
  gs_mesh : MeshState;
  gs_message_cache : MessageCache;
  gs_seen_cache : SeenCache;
  gs_peers : dict PeerId PeerState;
  gs_event_queue : list GossipsubEvent;
  gs_stopped : bool;
  gs_background_tasks : list broadcast;
  gs_written : list (PeerId * bytes);
  gs_readings : nat;
  gs_samples : nat
}.
Definition new_behavior (params : GossipsubParameters) : GossipsubBehavior := {|
  gs_params := params; gs_mesh := {| me_params := params; me_meshes := []; me_fanouts := []; me_subscriptions := [] |};
  gs_message_cache := new_message_cache (gp_mcache_length params) (gp_mcache_gossip params); gs_seen_cache := []; gs_peers := [];
  gs_event_queue := []; gs_stopped := true; gs_background_tasks := []; gs_written := []; gs_readings := 0; gs_samples := 0 |}.

Definition on_mesh (f : MeshState -> MeshState) (s : GossipsubBehavior) : GossipsubBehavior := {|
  gs_params := gs_params s; gs_mesh := f (gs_mesh s); gs_message_cache := gs_message_cache s; gs_seen_cache := gs_seen_cache s;
  gs_peers := gs_peers s; gs_event_queue := gs_event_queue s; gs_stopped := gs_stopped s;
  gs_background_tasks := gs_background_tasks s; gs_written := gs_written s; gs_readings := gs_readings s; gs_samples := gs_samples s |}.
Definition on_message_cache (f : MessageCache -> MessageCache) (s : GossipsubBehavior) : GossipsubBehavior := {|
  gs_params := gs_params s; gs_mesh := gs_mesh s; gs_message_cache := f (gs_message_cache s); gs_seen_cache := gs_seen_cache s;
  gs_peers := gs_peers s; gs_event_queue := gs_event_queue s; gs_stopped := gs_stopped s;
  gs_background_tasks := gs_background_tasks s; gs_written := gs_written s; gs_readings := gs_readings s; gs_samples := gs_samples s |}.
Definition on_seen_cache (f : SeenCache -> SeenCache) (s : GossipsubBehavior) : GossipsubBehavior := {|
  gs_params := gs_params s; gs_mesh := gs_mesh s; gs_message_cache := gs_message_cache s; gs_seen_cache := f (gs_seen_cache s);
  gs_peers := gs_peers s; gs_event_queue := gs_event_queue s; gs_stopped := gs_stopped s;
  gs_background_tasks := gs_background_tasks s; gs_written := gs_written s; gs_readings := gs_readings s; gs_samples := gs_samples s |}.
Definition on_peers (f : dict PeerId PeerState -> dict PeerId PeerState) (s : GossipsubBehavior) : GossipsubBehavior := {|
  gs_params := gs_params s; gs_mesh := gs_mesh s; gs_message_cache := gs_message_cache s; gs_seen_cache := gs_seen_cache s;
  gs_peers := f (gs_peers s); gs_event_queue := gs_event_queue s; gs_stopped := gs_stopped s;
  gs_background_tasks := gs_background_tasks s; gs_written := gs_written s; gs_readings := gs_readings s; gs_samples := gs_samples s |}.
(** [await self._event_queue.put(event)].  The queue has no bound here; the code's holds
    4096 events, and a put on a full queue suspends the method until the consumer has taken
    one: the events and their order are the same, only later. *)
Definition put_event (e : GossipsubEvent) (s : GossipsubBehavior) : GossipsubBehavior := {|
  gs_params := gs_params s; gs_mesh := gs_mesh s; gs_message_cache := gs_message_cache s; gs_seen_cache := gs_seen_cache s;
  gs_peers := gs_peers s; gs_event_queue := gs_event_queue s ++ [e]; gs_stopped := gs_stopped s;
  gs_background_tasks := gs_background_tasks s; gs_written := gs_written s; gs_readings := gs_readings s; gs_samples := gs_samples s |}.
(** [outbound_stream.write(frame)] *)
Definition write_frame (peer_id : PeerId) (frame : bytes) (s : GossipsubBehavior) : GossipsubBehavior := {|
  gs_params := gs_params s; gs_mesh := gs_mesh s; gs_message_cache := gs_message_cache s; gs_seen_cache := gs_seen_cache s;
  gs_peers := gs_peers s; gs_event_queue := gs_event_queue s; gs_stopped := gs_stopped s;
  gs_background_tasks := gs_background_tasks s; gs_written := gs_written s ++ [(peer_id, frame)];
  gs_readings := gs_readings s; gs_samples := gs_samples s |}.
Definition with_lifecycle (stopped : bool) (tasks : list broadcast) (s : GossipsubBehavior) : GossipsubBehavior := {|
  gs_params := gs_params s; gs_mesh := gs_mesh s; gs_message_cache := gs_message_cache s; gs_seen_cache := gs_seen_cache s;
  gs_peers := gs_peers s; gs_event_queue := gs_event_queue s; gs_stopped := stopped;
  gs_background_tasks := tasks; gs_written := gs_written s; gs_readings := gs_readings s; gs_samples := gs_samples s |}.
Definition with_counters (readings samples : nat) (s : GossipsubBehavior) : GossipsubBehavior := {|
  gs_params := gs_params s; gs_mesh := gs_mesh s; gs_message_cache := gs_message_cache s; gs_seen_cache := gs_seen_cache s;
  gs_peers := gs_peers s; gs_event_queue := gs_event_queue s; gs_stopped := gs_stopped s;
  gs_background_tasks := gs_background_tasks s; gs_written := gs_written s; gs_readings := readings; gs_samples := samples |}.

Abbreviation G := (M GossipsubBehavior).

(** [peer_state.field = ...], when the peer is tracked *)
Definition on_peer (peer_id : PeerId) (f : PeerState -> PeerState) (s : GossipsubBehavior) : GossipsubBehavior :=
  on_peers (fun peers => match dget peer_id peers with Some p => dset peer_id (f p) peers | None => peers end) s.

Definition prune_rpc (topic : TopicId) : RPC := {|
  rpc_subscriptions := []; rpc_publish := [];
  rpc_control := Some {| cm_ihave := []; cm_iwant := []; cm_graft := [];
                         cm_prune := [{| pr_topic_id := topic; pr_backoff := PRUNE_BACKOFF |}]; cm_idontwant := [] |} |}.
Definition publish_rpc (messages : list Message) : RPC :=
  {| rpc_subscriptions := []; rpc_publish := messages; rpc_control := None |}.
Definition topic_message (topic : TopicId) (data : bytes) : Message :=
  {| ms_from_peer := []; ms_data := data; ms_seqno := []; ms_topic := topic; ms_signature := []; ms_key := [] |}.

(** The varint length prefix of an RPC *)
Definition frame (rpc : RPC) : result bytes :=
  encoded_rpc ← RPC_encode rpc;
  prefix ← encode_varint (Zlen encoded_rpc) VARINT_MAX_BYTES;
  Ok (prefix ++ encoded_rpc).

Section Behavior.
Context `{Environment} `{SetOrder}.

(** [time.time()] *)
Definition read_time : G Z := fun s =>
  (Ok (time_at (gs_readings s)), with_counters (S (gs_readings s)) (gs_samples s) s).
(** The next outcome of [random.sample] *)
Definition next_sample : G (list bytes -> nat -> list bytes) := fun s =>
  (Ok (sample_at (gs_samples s)), with_counters (gs_readings s) (S (gs_samples s)) s).

Definition get_peer (peer_id : PeerId) : G (option PeerState) := gets (fun s => dget peer_id (gs_peers s)).

Definition _send_rpc (peer_id : PeerId) (rpc : RPC) : G unit :=
  peer_state ← get_peer peer_id;
  match peer_state with
  | Some p =>
      if ps_outbound_stream p
      then catch (data ← raising (frame rpc); modify (write_frame peer_id data)) (fun _ => mret tt)
      else mret tt
  | None => mret tt
  end.

(** [{p for p, s in self._peers.items() if topic in s.subscriptions and s.outbound_stream is not None}] *)
Definition topic_peers (topic : TopicId) (peers : dict PeerId PeerState) : list PeerId :=
  set_of (map fst (filter (fun e => topic ∈ ps_subscriptions e.2 /\ ps_outbound_stream e.2 = true) peers)).

(** ** Subscriptions and lifecycle *)
Definition spawn (b : broadcast) : G unit :=
  stopped ← gets gs_stopped;
  if stopped : bool then mret tt
  else modify (fun s => with_lifecycle (gs_stopped s) (gs_background_tasks s ++ [b]) s).

Definition subscribe (topic : TopicId) : G unit :=
  already ← gets (fun s => subscribed topic (gs_mesh s));
  if already : bool then mret tt
  else
    _ ← modify (on_mesh (mesh_subscribe topic));
    spawn {| bt_topic := topic; bt_subscribe := true; bt_prune_peers := [] |}.

Definition unsubscribe (topic : TopicId) : G unit :=
  present ← gets (fun s => subscribed topic (gs_mesh s));
  if negb present then mret tt
  else
    mesh_peers ← gets (fun s => (mesh_unsubscribe topic (gs_mesh s)).1);
    _ ← modify (on_mesh (fun mesh => (mesh_unsubscribe topic mesh).2));
    spawn {| bt_topic := topic; bt_subscribe := false; bt_prune_peers := mesh_peers |}.

Definition _broadcast_subscription (b : broadcast) : G unit :=
  let topic := bt_topic b in
  peers ← gets gs_peers;
  _ ← for_each (dkeys (filter (fun e => ps_outbound_stream e.2 = true) peers))
        (fun peer_id => _send_rpc peer_id (RPC_subscription [topic] (bt_subscribe b)));
  if bt_subscribe b then
    current_mesh ← gets (fun s => get_mesh_peers topic (gs_mesh s));
    needed ← gets (fun s => gp_d (gs_params s) - Zlen current_mesh);
    if needed <=? 0 then mret tt
    else
      eligible ← gets (fun s => take (Z.to_nat needed)
        (map fst (filter (fun e => topic ∈ ps_subscriptions e.2 /\ ps_outbound_stream e.2 = true /\ e.1 ∉ current_mesh) (gs_peers s))));
      for_each eligible (fun peer_id =>
        _ ← modify (on_mesh (fun mesh => (add_to_mesh topic peer_id mesh).2));
        _send_rpc peer_id (RPC_graft [topic]))
  else for_each (set_iter (bt_prune_peers b)) (fun peer_id => _send_rpc peer_id (prune_rpc topic)).

(** The event loop runs the oldest background task. *)
Definition run_background_task : G unit :=
  tasks ← gets gs_background_tasks;
  match tasks with
  | [] => mret tt
  | b :: rest => _ ← modify (fun s => with_lifecycle (gs_stopped s) rest s); _broadcast_subscription b
  end.

Definition remove_peer (peer_id : PeerId) : G unit :=
  state ← get_peer peer_id;
  match state with
  | None => mret tt
  | Some _ =>
      _ ← modify (on_peers (ddel peer_id));
      topics ← gets (fun s => me_subscriptions (gs_mesh s));
      for_each (set_iter topics) (fun topic => modify (on_mesh (fun mesh => (remove_from_mesh topic peer_id mesh).2)))
  end.

Definition start : G unit := modify (fun s => with_lifecycle false (gs_background_tasks s) s).

(** Cancelling a receive loop removes its peer. *)
Definition stop : G unit :=
  _ ← modify (fun s => with_lifecycle true (gs_background_tasks s) s);
  receiving ← gets (fun s => dkeys (filter (fun e => ps_inbound_stream e.2 = true) (gs_peers s)));
  for_each receiving remove_peer.

Definition add_peer (peer_id : PeerId) (inbound : bool) : G unit :=
  existing ← get_peer peer_id;
  if inbound then
    match existing with
    | None => modify (on_peers (dset peer_id (new_peer false true)))
    | Some p =>
        if ps_inbound_stream p then mret tt
        else modify (on_peer peer_id (with_streams (ps_outbound_stream p) true))
    end
  else
    added ← match existing with
            | None => _ ← modify (on_peers (dset peer_id (new_peer true false))); mret true
            | Some p =>
                if ps_outbound_stream p then mret false
                else _ ← modify (on_peer peer_id (with_streams true (ps_inbound_stream p))); mret true
            end;
    topics ← gets (fun s => me_subscriptions (gs_mesh s));
    if (added : bool) && negb (Zlen topics =? 0) then _send_rpc peer_id (RPC_subscription (set_iter topics) true) else mret tt.

(** ** Messages *)

(** The message is seen and cached from here on. *)
Definition record_message (topic : TopicId) (data : bytes) (message_id : MessageId) : G unit :=
  now ← read_time;
  _ ← modify (on_seen_cache (fun seen => (seen_add message_id now seen).2));
  put ← gets (fun s => mcache_put topic {| gm_topic := topic; gm_raw_data := data; gm_cached_id := Some message_id |} (gs_message_cache s));
  '(_, cache) ← raising put;
  modify (on_message_cache (fun _ => cache)).

Definition publish (topic : TopicId) (data : bytes) : G unit :=
  let '(decompressed, domain) := _try_decompress data in
  let message_id := compute_id topic decompressed domain in
  seen ← gets (fun s => seen_has message_id (gs_seen_cache s));
  if seen : bool then mret tt
  else
    _ ← record_message topic data message_id;
    joined ← gets (fun s => subscribed topic (gs_mesh s));
    peers ← (if joined : bool then gets (fun s => get_mesh_peers topic (gs_mesh s))
             else
               available ← gets (fun s => topic_peers topic (gs_peers s));
               now ← read_time;
               pick ← next_sample;
               updated ← gets (fun s => update_fanout pick now topic available (gs_mesh s));
               '(peers, mesh) ← raising updated;
               _ ← modify (on_mesh (fun _ => mesh));
               mret peers);
    for_each (set_iter peers) (fun peer_id => _send_rpc peer_id (publish_rpc [topic_message topic data])).

Definition _handle_subscription (peer_id : PeerId) (sub : SubOpts) : G unit :=
  state ← get_peer peer_id;
  match state with
  | None => mret tt
  | Some _ =>
      _ ← (if so_subscribe sub then modify (on_peer peer_id (with_subscriptions (sadd (so_topic_id sub))))
           else
             _ ← modify (on_peer peer_id (with_subscriptions (sdiscard (so_topic_id sub))));
             modify (on_mesh (fun mesh => (remove_from_mesh (so_topic_id sub) peer_id mesh).2)));
      modify (put_event (GossipsubPeerEvent peer_id (so_topic_id sub) (so_subscribe sub)))
  end.

(** Forwarded to the mesh, except to the sender and to peers that do not want it *)
Definition forward_message (peer_id : PeerId) (message : Message) (message_id : MessageId) (mesh_peer : PeerId) : G unit :=
  if decide (mesh_peer = peer_id) then mret tt
  else
    peer_state ← get_peer mesh_peer;
    if match peer_state with Some p => bool_decide (message_id ∈ ps_dont_want_ids p) | None => false end then mret tt
    else _send_rpc mesh_peer (publish_rpc [message]).

Definition idontwant_rpc (message_id : MessageId) : RPC := {|
  rpc_subscriptions := []; rpc_publish := [];
  rpc_control := Some {| cm_ihave := []; cm_iwant := []; cm_graft := []; cm_prune := [];
                         cm_idontwant := [{| dw_message_ids := [message_id] |}] |} |}.

Definition _handle_message (peer_id : PeerId) (message : Message) : G unit :=
  let topic := ms_topic message in
  if bool_decide (topic = []) then mret tt
  else
    joined ← gets (fun s => subscribed topic (gs_mesh s));
    if negb joined then mret tt
    else
      let '(decompressed, domain) := _try_decompress (ms_data message) in
      if Zlen decompressed >? MAX_PAYLOAD_SIZE then mret tt
      else
        let message_id := compute_id topic decompressed domain in
        seen ← gets (fun s => seen_has message_id (gs_seen_cache s));
        if seen : bool then mret tt
        else
          _ ← record_message topic (ms_data message) message_id;
          mesh_peers ← gets (fun s => get_mesh_peers topic (gs_mesh s));
          _ ← for_each (set_iter mesh_peers) (forward_message peer_id message message_id);
          _ ← (if Zlen (ms_data message) >=? IDONTWANT_SIZE_THRESHOLD then
                 for_each (set_iter mesh_peers) (fun mesh_peer =>
                   if decide (mesh_peer = peer_id) then mret tt else _send_rpc mesh_peer (idontwant_rpc message_id))
               else mret tt);
          modify (put_event (GossipsubMessageEvent peer_id topic decompressed message_id)).

(** ** Control messages *)
Definition _reject_graft (peer_id : PeerId) (topic : TopicId) : G unit := _send_rpc peer_id (prune_rpc topic).

Definition in_backoff (now : Z) (topic : TopicId) (p : PeerState) : bool := now <? default 0 (dget topic (ps_backoff p)).

Definition _handle_graft (peer_id : PeerId) (graft : ControlGraft) : G unit :=
  let topic := cg_topic_id graft in
  joined ← gets (fun s => subscribed topic (gs_mesh s));
  if negb joined then mret tt
  else
    state ← get_peer peer_id;
    rejected ← match state with
               | Some p => now ← read_time; mret (in_backoff now topic p)
               | None => mret false
               end;
    if rejected : bool then _reject_graft peer_id topic
    else
      full ← gets (fun s => gp_d_high (gs_params s) <=? Zlen (get_mesh_peers topic (gs_mesh s)));
      if full : bool then _reject_graft peer_id topic
      else modify (on_mesh (fun mesh => (add_to_mesh topic peer_id mesh).2)).

Definition _handle_prune (peer_id : PeerId) (prune : ControlPrune) : G unit :=
  let topic := pr_topic_id prune in
  state ← get_peer peer_id;
  _ ← modify (on_mesh (fun mesh => (remove_from_mesh topic peer_id mesh).2));
  match state with
  | Some _ =>
      if 0 <? pr_backoff prune then
        now ← read_time; modify (on_peer peer_id (with_backoff topic (now + pr_backoff prune * SECOND)))
      else mret tt
  | None => mret tt
  end.

Definition _handle_ihave (peer_id : PeerId) (ihave : ControlIHave) : G unit :=
  wanted ← gets (fun s => filter (fun message_id =>
    Zlen message_id = 20 /\ seen_has message_id (gs_seen_cache s) = false /\ mcache_has message_id (gs_message_cache s) = false)
    (ih_message_ids ihave));
  if Zlen wanted =? 0 then mret tt
  else _send_rpc peer_id {| rpc_subscriptions := []; rpc_publish := [];
    rpc_control := Some {| cm_ihave := []; cm_iwant := [{| iw_message_ids := wanted |}]; cm_graft := []; cm_prune := [];
                           cm_idontwant := [] |} |}.

Definition served_count (peer_id : PeerId) (message_id : MessageId) (s : GossipsubBehavior) : Z :=
  match dget peer_id (gs_peers s) with
  | Some p => default 0 (dget message_id (ps_iwant_served_counts p))
  | None => 0
  end.

(** The loop of [_handle_iwant] over the ids of a request *)
Fixpoint serve_messages (peer_id : PeerId) (ids : list bytes) (messages : list Message) : G (list Message) :=
  match ids with
  | [] => mret messages
  | message_id :: ids =>
      if negb (Zlen message_id =? 20) then serve_messages peer_id ids messages
      else
        served ← gets (served_count peer_id message_id);
        if GOSSIP_RETRANSMISSION <=? served then serve_messages peer_id ids messages
        else
          cached ← gets (fun s => mcache_get message_id (gs_message_cache s));
          match cached with
          | None => serve_messages peer_id ids messages
          | Some m =>
              topic_id ← raising (decode_utf8 (gm_topic m));
              _ ← modify (on_peer peer_id (with_served (dset message_id (served + 1))));
              serve_messages peer_id ids (messages ++ [topic_message topic_id (gm_raw_data m)])
          end
  end.

Definition _handle_iwant (peer_id : PeerId) (iwant : ControlIWant) : G unit :=
  state ← get_peer peer_id;
  match state with
  | None => mret tt
  | Some _ =>
      messages ← serve_messages peer_id (take (Z.to_nat MAX_IWANT_MESSAGE_IDS_PER_REQUEST) (iw_message_ids iwant)) [];
      if Zlen messages =? 0 then mret tt else _send_rpc peer_id (publish_rpc messages)
  end.

Definition _handle_idontwant (peer_id : PeerId) (idontwant : ControlIDontWant) : G unit :=
  modify (on_peer peer_id (with_dont_want (fun ids =>
    foldl (fun ids message_id => if Zlen message_id =? 20 then sadd message_id ids else ids) ids (dw_message_ids idontwant)))).

Definition _handle_control (peer_id : PeerId) (control : ControlMessage) : G unit :=
  state ← get_peer peer_id;
  match state with
  | None => mret tt
  | Some _ =>
      _ ← for_each (cm_graft control) (_handle_graft peer_id);
      _ ← for_each (cm_prune control) (_handle_prune peer_id);
      _ ← for_each (cm_ihave control) (_handle_ihave peer_id);
      _ ← for_each (cm_iwant control) (_handle_iwant peer_id);
      for_each (cm_idontwant control) (_handle_idontwant peer_id)
  end.

Definition _handle_rpc (peer_id : PeerId) (rpc : RPC) : G unit :=
  state ← get_peer peer_id;
  match state with
  | None => mret tt
  | Some _ =>
      _ ← for_each (rpc_subscriptions rpc) (_handle_subscription peer_id);
      _ ← for_each (rpc_publish rpc) (_handle_message peer_id);
      match rpc_control rpc with Some control => _handle_control peer_id control | None => mret tt end
  end.

(** ** The receive loop *)

(** The frames in the buffer; returns the bytes of an incomplete one.  Each frame takes at
    least one byte. *)
Fixpoint drain_frames (fuel : nat) (peer_id : PeerId) (buffer : bytes) : G bytes :=
  match buffer with
  | [] => mret []
  | _ =>
      match fuel with
      | O => raising (Err OutOfFuel)
      | S fuel =>
          match decode_varint buffer 0 VARINT_MAX_BYTES with
          | Err _ => mret buffer
          | Ok (length, varint_size) =>
              if length >? MAX_PAYLOAD_SIZE then raising (Err ValueError)
              else if Zlen buffer <? varint_size + length then mret buffer
              else
                let rpc_data := slice buffer varint_size (varint_size + length) in
                let rest := drop (Z.to_nat (varint_size + length)) buffer in
                _ ← catch (rpc ← raising (RPC_decode rpc_data); _handle_rpc peer_id rpc) (fun _ => mret tt);
                drain_frames fuel peer_id rest
          end
      end
  end.

(** One turn of [_receive_loop]: [chunk] is what a read of the stream returns and [buffer]
    the loop's local variable; [None] when the loop has ended. *)
Definition receive_chunk (peer_id : PeerId) (buffer chunk : bytes) : G (option bytes) :=
  state ← get_peer peer_id;
  match state with
  | None => mret None
  | Some _ =>
      match chunk with
      | [] => _ ← remove_peer peer_id; mret None
      | _ =>
          catch
            (rest ← drain_frames (length (buffer ++ chunk)) peer_id (buffer ++ chunk); mret (Some rest))
            (fun _ => _ ← remove_peer peer_id; mret None)
      end
  end.

Fixpoint receive_loop (peer_id : PeerId) (buffer : bytes) (chunks : list bytes) : G unit :=
  match chunks with
  | [] => mret tt
  | chunk :: chunks =>
      next ← receive_chunk peer_id buffer chunk;
      match next with Some buffer => receive_loop peer_id buffer chunks | None => mret tt end
  end.
Definition _receive_loop (peer_id : PeerId) (chunks : list bytes) : G unit := receive_loop peer_id [] chunks.

(** ** The heartbeat *)
Definition eligible_peers (topic : TopicId) (now : Z) (mesh_peers : list PeerId) (peers : dict PeerId PeerState) : list PeerId :=
  map fst (filter (fun e => ps_outbound_stream e.2 = true /\ topic ∈ ps_subscriptions e.2 /\ e.1 ∉ mesh_peers /\
    in_backoff now topic e.2 = false) peers).

Definition _maintain_mesh (topic : TopicId) (now : Z) : G unit :=
  params ← gets gs_params;
  mesh_peers ← gets (fun s => get_mesh_peers topic (gs_mesh s));
  eligible ← gets (fun s => eligible_peers topic now mesh_peers (gs_peers s));
  let mesh_size := Zlen mesh_peers in
  if (mesh_size <? gp_d_low params) && negb (Zlen eligible =? 0) then
    let needed := gp_d params - mesh_size in
    pick ← next_sample;
    to_graft ← raising (random_sample pick eligible (Z.min needed (Zlen eligible)));
    _ ← for_each to_graft (fun peer_id => modify (on_mesh (fun mesh => (add_to_mesh topic peer_id mesh).2)));
    for_each to_graft (fun peer_id => _send_rpc peer_id (RPC_graft [topic]))
  else if mesh_size >? gp_d_high params then
    let excess := mesh_size - gp_d params in
    pick ← next_sample;
    to_prune ← raising (random_sample pick (set_iter mesh_peers) excess);
    _ ← for_each to_prune (fun peer_id => modify (on_mesh (fun mesh => (remove_from_mesh topic peer_id mesh).2)));
    for_each to_prune (fun peer_id =>
      _ ← _send_rpc peer_id (prune_rpc topic);
      modify (on_peer peer_id (with_backoff topic (now + PRUNE_BACKOFF * SECOND))))
  else mret tt.

Definition _emit_gossip (topic : TopicId) : G unit :=
  message_ids ← gets (fun s => get_gossip_ids topic (gs_message_cache s));
  if Zlen message_ids =? 0 then mret tt
  else
    all_topic_peers ← gets (fun s => topic_peers topic (gs_peers s));
    pick ← next_sample;
    selected ← gets (fun s => select_peers_for_gossip pick topic all_topic_peers (gs_mesh s));
    gossip_peers ← raising selected;
    for_each gossip_peers (fun peer_id => _send_rpc peer_id {| rpc_subscriptions := []; rpc_publish := [];
      rpc_control := Some {| cm_ihave := [{| ih_topic_id := topic; ih_message_ids := message_ids |}]; cm_iwant := []; cm_graft := [];
                             cm_prune := []; cm_idontwant := [] |} |}).

Definition maintain_fanout (topic : TopicId) : G unit :=
  small ← gets (fun s => Zlen (get_fanout_peers topic (gs_mesh s)) <? gp_d (gs_params s));
  if small : bool then
    available ← gets (fun s => topic_peers topic (gs_peers s));
    pick ← next_sample;
    filled ← gets (fun s => fill_fanout pick topic available (gs_mesh s));
    mesh ← raising filled;
    modify (on_mesh (fun _ => mesh))
  else mret tt.

(** The per-heartbeat tracking of a peer starts afresh. *)
Definition clear_heartbeat_state (p : PeerState) : PeerState := with_served (fun _ => []) (with_dont_want (fun _ => []) p).

Definition _heartbeat : G unit :=
  now ← read_time;
  topics ← gets (fun s => me_subscriptions (gs_mesh s));
  _ ← for_each (set_iter topics) (fun topic => _maintain_mesh topic now);
  fanouts ← gets (fun s => fanout_topics (gs_mesh s));
  _ ← for_each (set_iter fanouts) maintain_fanout;
  gossip_topics ← gets (fun s => sunion (me_subscriptions (gs_mesh s)) (fanout_topics (gs_mesh s)));
  _ ← for_each (set_iter gossip_topics) _emit_gossip;
  params ← gets gs_params;
  _ ← modify (on_mesh (fun mesh => (cleanup_fanouts (gp_fanout_ttl_secs params) now mesh).2));
  shifted ← gets (fun s => shift (gs_message_cache s));
  '(_, cache) ← raising shifted;
  _ ← modify (on_message_cache (fun _ => cache));
  _ ← modify (on_seen_cache (fun seen => (seen_cleanup (gp_seen_ttl_secs params) now seen).2));
  modify (on_peers (map (fun e => (e.1, clear_heartbeat_state e.2)))).

(** The heartbeat loop logs an exception and goes on. *)
Definition heartbeat_turn : G unit := catch _heartbeat (fun _ => mret tt).
End Behavior.
