(* ===== verification/GossipsubTheorems.v ===== *)
(** * What gossipsub guarantees

    [gossip_inv] is kept by every operation: meshes bounded and exactly for the subscribed
    topics, a consistent message cache, bounded retransmissions, well-formed frames, and
    each message delivered at most once while the clock stays within the window of the
    seen cache.  The handlers of incoming RPCs never raise and never change which peers
    are tracked. *)

From S2P Require Import Prelude Pydict Uint Ssz Sha256 Merkle Containers SszRecords Varint Snappy ReqResp StateMonad.
From S2P Require Import GossipRpc GossipRpcCorrect GossipState GossipStateCorrect Gossipsub.

Definition event_ids (queue : list GossipsubEvent) : list MessageId :=
  omap (fun e => match e with GossipsubMessageEvent _ _ _ id => Some id | GossipsubPeerEvent _ _ _ => None end) queue.

(** A frame of a well-formed RPC *)
Definition sent_ok (e : PeerId * bytes) : Prop := exists r, rpc_ok r /\ frame r = Ok e.2.

Abbreviation utf8 := (fun t : bytes => utf8_valid t = true).

(** ** What is written *)
Definition with_written (l : list (PeerId * bytes)) (s : GossipsubBehavior) : GossipsubBehavior := {|
  gs_params := gs_params s; gs_mesh := gs_mesh s; gs_message_cache := gs_message_cache s; gs_seen_cache := gs_seen_cache s;
  gs_peers := gs_peers s; gs_event_queue := gs_event_queue s; gs_stopped := gs_stopped s;
  gs_background_tasks := gs_background_tasks s; gs_written := gs_written s ++ l; gs_readings := gs_readings s; gs_samples := gs_samples s |}.

(** The frame of an RPC for a peer with an outbound stream *)
Definition frames_to (peers : dict PeerId PeerState) (rpc : RPC) (peer : PeerId) : list (PeerId * bytes) :=
  match dget peer peers with
  | Some ps => if ps_outbound_stream ps then match frame rpc with Ok data => [(peer, data)] | Err _ => [] end else []
  | None => []
  end.

Lemma with_written_nil s : with_written [] s = s.
Proof. destruct s. unfold with_written. cbn. by rewrite app_nil_r. Qed.
Lemma with_written_app l1 l2 s : with_written l2 (with_written l1 s) = with_written (l1 ++ l2) s.
Proof. unfold with_written. cbn. by rewrite app_assoc. Qed.

Lemma send_effect peer rpc s : _send_rpc peer rpc s = (Ok tt, with_written (frames_to (gs_peers s) rpc peer) s).
Proof.
  unfold _send_rpc, get_peer, frames_to. rewrite run_gets. destruct (dget peer (gs_peers s)) as [ps|]; [|by rewrite with_written_nil].
  destruct (ps_outbound_stream ps); [|by rewrite with_written_nil]. unfold catch. destruct (frame rpc) as [data|e]; [done|].
  cbn. by rewrite with_written_nil.
Qed.

(** A loop whose body only writes *)
Lemma writes_effect {A} (l : list A) (body : A -> M GossipsubBehavior unit) (out : dict PeerId PeerState -> A -> list (PeerId * bytes)) :
  (forall x s, body x s = (Ok tt, with_written (out (gs_peers s) x) s)) ->
  forall s, for_each l body s = (Ok tt, with_written (l ≫= out (gs_peers s)) s).
Proof.
  intros Hb. induction l as [|x l IH]; intros s; cbn [for_each]; [by rewrite with_written_nil|].
  rewrite (run_bind _ _ _ _ _ (Hb x s)), IH, with_written_app. done.
Qed.

Lemma sends_effect (l : list PeerId) rpc s :
  for_each l (fun peer => _send_rpc peer rpc) s = (Ok tt, with_written (l ≫= frames_to (gs_peers s) rpc) s).
Proof. apply (writes_effect l _ (fun peers => frames_to peers rpc)). intros. apply send_effect. Qed.

Lemma frames_to_ok peers rpc peer : rpc_ok rpc -> Forall sent_ok (frames_to peers rpc peer).
Proof.
  intros Hr. unfold frames_to. destruct (dget peer peers) as [ps|]; [|constructor]. destruct (ps_outbound_stream ps); [|constructor].
  destruct (frame rpc) as [data|] eqn:E; [|constructor]. constructor; [by exists rpc|constructor].
Qed.
Lemma Forall_bind_list {A B} (P : B -> Prop) (f : A -> list B) l : (forall x, x ∈ l -> Forall P (f x)) -> Forall P (l ≫= f).
Proof. intros Hf. apply Forall_forall. intros y (x & Hy & Hx)%list_elem_of_bind. specialize (Hf x Hx). rewrite Forall_forall in Hf. by apply Hf. Qed.
Lemma sends_ok peers rpc l : rpc_ok rpc -> Forall sent_ok (l ≫= frames_to peers rpc).
Proof. intros Hr. apply Forall_bind_list. intros x _. by apply frames_to_ok. Qed.

(** What is forwarded to a member of the mesh *)
Definition wants (sender : PeerId) (id : MessageId) (peers : dict PeerId PeerState) (peer : PeerId) : Prop :=
  peer <> sender /\ match dget peer peers with Some ps => id ∉ ps_dont_want_ids ps | None => True end.
#[export] Instance wants_dec sender id peers peer : Decision (wants sender id peers peer).
Proof. unfold wants. destruct (dget peer peers); apply _. Defined.

Lemma forward_effect sender m id peer s :
  forward_message sender m id peer s =
    (Ok tt, with_written (if decide (wants sender id (gs_peers s) peer) then frames_to (gs_peers s) (publish_rpc [m]) peer else []) s).
Proof.
  unfold forward_message. destruct (decide (peer = sender)) as [->|Hne].
  { rewrite decide_False by (by intros [? _]). by rewrite with_written_nil. }
  unfold get_peer. rewrite run_gets. destruct (dget peer (gs_peers s)) as [ps|] eqn:E.
  - destruct (decide (id ∈ ps_dont_want_ids ps)) as [Hd|Hd].
    + rewrite bool_decide_true by done. rewrite decide_False; [by rewrite with_written_nil|]. unfold wants. rewrite E. tauto.
    + rewrite bool_decide_false by done. rewrite decide_True; [apply send_effect|]. unfold wants. by rewrite E.
  - rewrite decide_True; [apply send_effect|]. unfold wants. by rewrite E.
Qed.

(** The frames an accepted message causes: the message, then IDONTWANT if it is large *)
Definition forwards (sender : PeerId) (m : Message) (id : MessageId) (peers : dict PeerId PeerState) (mesh : list PeerId)
    : list (PeerId * bytes) :=
  (mesh ≫= fun peer => if decide (wants sender id peers peer) then frames_to peers (publish_rpc [m]) peer else []) ++
  (if Zlen (ms_data m) >=? IDONTWANT_SIZE_THRESHOLD
   then mesh ≫= fun peer => if decide (peer = sender) then [] else frames_to peers (idontwant_rpc id) peer
   else []).

(** The id and the contents of a received message *)
Definition message_id_of (m : Message) : MessageId :=
  let '(decompressed, domain) := _try_decompress (ms_data m) in compute_id (ms_topic m) decompressed domain.
Definition contents (m : Message) : bytes := (_try_decompress (ms_data m)).1.

(** Conditions under which a message is dropped *)
Definition dropped (m : Message) (s : GossipsubBehavior) : Prop :=
  ms_topic m = [] \/ subscribed (ms_topic m) (gs_mesh s) = false \/ MAX_PAYLOAD_SIZE < Zlen (contents m) \/
  seen_has (message_id_of m) (gs_seen_cache s) = true.
#[export] Instance dropped_dec m s : Decision (dropped m s).
Proof. unfold dropped. apply _. Defined.

Lemma idontwant_effect sender id peer s :
  (if decide (peer = sender) then mret tt else _send_rpc peer (idontwant_rpc id)) s =
    (Ok tt, with_written (if decide (peer = sender) then [] else frames_to (gs_peers s) (idontwant_rpc id) peer) s).
Proof. case_decide; [by rewrite with_written_nil|apply send_effect]. Qed.

Section Invariant.
Context `{Environment} `{SetOrder} (p : GossipsubParameters) (Hp : params_ok p) (t0 : Z).

(** The clock stays within the window of the seen cache. *)
Definition steady : Prop := forall n, t0 <= time_at n <= t0 + gp_seen_ttl_secs p * SECOND.

Record once (s : GossipsubBehavior) : Prop := {
  on_distinct : NoDup (event_ids (gs_event_queue s));
  on_seen id : id ∈ event_ids (gs_event_queue s) -> is_Some (dget id (gs_seen_cache s));
  on_times : Forall (fun e => t0 <= e.2) (gs_seen_cache s)
}.

Record mesh_good (m : MeshState) : Prop := {
  mg_inv : mesh_inv p m;
  mg_topics : Forall utf8 (me_subscriptions m);
  mg_fanouts : Forall utf8 (dkeys (me_fanouts m))
}.

Record cache_good (c : MessageCache) : Prop := {
  cg_inv : mcache_inv c;
  cg_topics id e : dget id (mc_by_id c) = Some e -> utf8 (gm_topic (ce_message e));
  cg_ids id e : dget id (mc_by_id c) = Some e ->
    message_id_of (topic_message (gm_topic (ce_message e)) (gm_raw_data (ce_message e))) = id
}.

Definition served_ok (ps : PeerState) : Prop :=
  forall id c, dget id (ps_iwant_served_counts ps) = Some c -> 1 <= c <= GOSSIP_RETRANSMISSION.

Record gossip_inv (s : GossipsubBehavior) : Prop := {
  gi_params : gs_params s = p;
  gi_mesh : mesh_good (gs_mesh s);
  gi_cache : cache_good (gs_message_cache s);
  gi_peers : dict_wf (gs_peers s);
  gi_served peer ps : dget peer (gs_peers s) = Some ps -> served_ok ps;
  gi_tasks : Forall (fun b => utf8 (bt_topic b)) (gs_background_tasks s);
  gi_written : Forall sent_ok (gs_written s);
  gi_once : steady -> once s
}.

(** The invariant, with the peers that are tracked *)
Definition keeping (peers : list PeerId) (s : GossipsubBehavior) : Prop := gossip_inv s /\ dkeys (gs_peers s) = peers.
Definition keeps {A} (m : M GossipsubBehavior A) : Prop :=
  forall peers, triple (keeping peers) m (fun _ => keeping peers) never.

(** ** Rules *)
Lemma keeps_ret {A} (a : A) : keeps (mret a).
Proof. intros peers. by apply triple_ret. Qed.
Lemma keeps_bind {A B} (m : M GossipsubBehavior A) (k : A -> M GossipsubBehavior B) :
  keeps m -> (forall a, keeps (k a)) -> keeps (m ≫= k).
Proof. intros Hm Hk peers. eapply triple_bind; [apply Hm|]. intros a. apply Hk. Qed.
Lemma keeps_gets {A} (f : GossipsubBehavior -> A) : keeps (gets f).
Proof. intros peers. by apply triple_gets. Qed.
Lemma keeps_modify (f : GossipsubBehavior -> GossipsubBehavior) :
  (forall s, gossip_inv s -> gossip_inv (f s) /\ dkeys (gs_peers (f s)) = dkeys (gs_peers s)) -> keeps (modify f).
Proof. intros Hf peers. apply triple_modify. intros s [Hs <-]. destruct (Hf s Hs). by split. Qed.
Lemma keeps_for_each {A} (l : list A) body : (forall x, x ∈ l -> keeps (body x)) -> keeps (for_each l body).
Proof. intros Hb peers. apply triple_for_each. intros x Hx. by apply Hb. Qed.
Lemma keeps_catch {A} (m : M GossipsubBehavior A) h : keeps m -> keeps (catch m h).
Proof. intros Hm peers. eapply triple_catch; [apply Hm|]. by intros e s. Qed.

(** A value read from the state, with what the invariant says of it *)
Lemma keeps_reading {A B} (f : GossipsubBehavior -> A) (k : A -> M GossipsubBehavior B) :
  (forall s, gossip_inv s -> keeps (k (f s))) -> keeps (gets f ≫= k).
Proof. intros Hk peers s Hs. rewrite run_gets. by apply (Hk s (proj1 Hs)). Qed.

(** A computation of the state that the invariant shows to succeed *)
Lemma keeps_raising {A B} (f : GossipsubBehavior -> result A) (k : A -> M GossipsubBehavior B) :
  (forall s, gossip_inv s -> exists a, f s = Ok a /\ keeps (k a)) -> keeps (r ← gets f; a ← raising r; k a).
Proof. intros Hk peers s Hs. rewrite run_gets. destruct (Hk s (proj1 Hs)) as (a & -> & Ha). rewrite run_raising. by apply Ha. Qed.

Lemma keeps_time : keeps read_time.
Proof. intros peers s [[] <-]. split; [|done]. split; try done. intros Hst. by destruct (gi_once0 Hst); split. Qed.

Lemma keeps_sample : keeps next_sample.
Proof. intros peers s [[] <-]. split; [|done]. split; try done. intros Hst. by destruct (gi_once0 Hst); split. Qed.

Lemma sample_picks n : picks (sample_at n).
Proof. intros l k. split; [apply sample_part|apply sample_length]. Qed.

(** The state reached with a sample in hand *)
Lemma keeps_next_sample {B} (k : (list bytes -> nat -> list bytes) -> M GossipsubBehavior B) :
  (forall pick, picks pick -> keeps (k pick)) -> keeps (next_sample ≫= k).
Proof.
  intros Hk peers s Hs. unfold next_sample, mbind, M_bind. apply (Hk (sample_at (gs_samples s))); [apply sample_picks|].
  exact (keeps_sample peers s Hs).
Qed.

(** ** Updates *)
Lemma on_mesh_inv f s : gossip_inv s -> mesh_good (f (gs_mesh s)) -> gossip_inv (on_mesh f s) /\ dkeys (gs_peers (on_mesh f s)) = dkeys (gs_peers s).
Proof. intros [] Hf. split; [|done]. split; try done. intros Hst. by destruct (gi_once0 Hst); split. Qed.

Lemma keeps_mesh f : (forall m, mesh_good m -> mesh_good (f m)) -> keeps (modify (on_mesh f)).
Proof. intros Hf. apply keeps_modify. intros s Hs. apply on_mesh_inv; [done|]. apply Hf, Hs. Qed.

Lemma keeps_set_mesh m : mesh_good m -> keeps (modify (on_mesh (fun _ => m))).
Proof. intros Hm. by apply keeps_mesh. Qed.

Lemma keeps_set_cache c : cache_good c -> keeps (modify (on_message_cache (fun _ => c))).
Proof. intros Hc. apply keeps_modify. intros s []. split; [|done]. split; try done. intros Hst. by destruct (gi_once0 Hst); split. Qed.

Lemma dkeys_on_peer peer f s : dkeys (gs_peers (on_peer peer f s)) = dkeys (gs_peers s).
Proof.
  unfold on_peer, on_peers. cbn. destruct (dget peer (gs_peers s)) eqn:E; [|done]. apply dkeys_dset_in. by eapply dget_Some_key.
Qed.

Lemma keeps_on_peer peer f : (forall ps, served_ok ps -> served_ok (f ps)) -> keeps (modify (on_peer peer f)).
Proof.
  intros Hf. apply keeps_modify. intros s Hs. split; [|apply dkeys_on_peer]. destruct Hs. unfold on_peer, on_peers.
  split; cbn; try done.
  - destruct (dget peer (gs_peers s)); [by apply dset_wf|done].
  - intros q ps. destruct (dget peer (gs_peers s)) as [ps0|] eqn:E; [|apply gi_served0]. rewrite dget_dset.
    case_decide; [intros [= <-]; by eapply Hf, gi_served0|apply gi_served0].
  - intros Hst. by destruct (gi_once0 Hst); split.
Qed.

Lemma with_written_inv l s : gossip_inv s -> Forall sent_ok l -> gossip_inv (with_written l s).
Proof. intros [] Hl. split; cbn; try done; [by apply Forall_app_2|]. intros Hst. by destruct (gi_once0 Hst); split. Qed.

Lemma keeps_send peer rpc : rpc_ok rpc -> keeps (_send_rpc peer rpc).
Proof.
  intros Hr peers s [Hs <-]. rewrite send_effect. split; [|done]. apply with_written_inv; [done|]. by apply frames_to_ok.
Qed.

(** ** RPCs the node sends *)
Lemma subscription_ok topics b : Forall utf8 topics -> rpc_ok (RPC_subscription topics b).
Proof. intros Ht. split; cbn; [|constructor|done]. apply Forall_fmap. exact Ht. Qed.
Lemma graft_ok t : utf8 t -> rpc_ok (RPC_graft [t]).
Proof. intros Ht. split; cbn; [constructor..|]. intros c [= <-]. split; cbn; [constructor| |constructor]. by constructor. Qed.
Lemma prune_ok t : utf8 t -> rpc_ok (prune_rpc t).
Proof. intros Ht. split; cbn; [constructor..|]. intros c [= <-]. split; cbn; [constructor..|]. by constructor. Qed.
Lemma publish_ok ms : Forall (fun m => utf8 (ms_topic m)) ms -> rpc_ok (publish_rpc ms).
Proof. intros Hm. by split; cbn; [constructor| |]. Qed.
Lemma idontwant_ok id : rpc_ok (idontwant_rpc id).
Proof. split; cbn; [constructor..|]. intros c [= <-]. by split. Qed.
#[local] Hint Resolve keeps_ret keeps_gets keeps_time keeps_send : gossip.
#[local] Hint Resolve subscription_ok graft_ok prune_ok publish_ok idontwant_ok : gossip.

(** ** Meshes *)
Lemma mesh_topic m t : mesh_good m -> subscribed t m = true -> utf8 t.
Proof. intros Hm Ht%subscribed_true. pose proof (mg_topics _ Hm) as Hf. rewrite Forall_forall in Hf. by apply Hf. Qed.

Lemma mesh_good_remove t peer m : mesh_good m -> mesh_good (remove_from_mesh t peer m).2.
Proof.
  intros [Hm Ht Hf]. split; [by apply remove_from_mesh_inv|..]; unfold remove_from_mesh;
    (destruct (dget t (me_meshes m)) as [mesh|]; [|done]; by destruct (tm_remove_peer peer mesh)).
Qed.
Lemma mesh_good_add t peer m : mesh_good m -> Zlen (get_mesh_peers t m) < gp_d_high p -> mesh_good (add_to_mesh t peer m).2.
Proof.
  intros [Hm Ht Hf] Hl. split; [by apply add_to_mesh_inv|..]; unfold add_to_mesh;
    (destruct (dget t (me_meshes m)) as [mesh|]; [|done]; by destruct (tm_add_peer peer mesh)).
Qed.

Lemma Forall_dkeys_ddel {V} (P : bytes -> Prop) k (d : dict bytes V) : Forall P (dkeys d) -> Forall P (dkeys (ddel k d)).
Proof. rewrite !Forall_forall. intros Hd x [Hx _]%elem_of_dkeys_ddel. by apply Hd. Qed.
Lemma Forall_dkeys_dset {V} (P : bytes -> Prop) k (v : V) d : P k -> Forall P (dkeys d) -> Forall P (dkeys (dset k v d)).
Proof. rewrite !Forall_forall. intros Hk Hd x [->|Hx]%elem_of_dkeys_dset; [done|by apply Hd]. Qed.

Lemma mesh_good_subscribe t m : utf8 t -> mesh_good m -> mesh_good (mesh_subscribe t m).
Proof.
  intros Hu [Hm Ht Hf]. split; [by apply mesh_subscribe_inv|..]; unfold mesh_subscribe; destruct (subscribed t m); try done.
  - rewrite !Forall_forall in *. destruct (dget t (me_fanouts m)); cbn; intros x [->|Hx]%elem_of_sadd; auto.
  - destruct (dget t (me_fanouts m)); cbn; [by apply Forall_dkeys_ddel|done].
Qed.
Lemma mesh_good_unsubscribe t m : mesh_good m -> mesh_good (mesh_unsubscribe t m).2.
Proof.
  intros [Hm Ht Hf]. split; [by apply mesh_unsubscribe_inv|..]; cbn; [|done].
  rewrite !Forall_forall in *. intros x [Hx _]%elem_of_sdiscard. by apply Ht.
Qed.
Lemma mesh_good_cleanup ttl now m : mesh_good m -> mesh_good (cleanup_fanouts ttl now m).2.
Proof.
  intros [Hm Ht Hf]. split; [by apply cleanup_fanouts_inv|done|]. unfold cleanup_fanouts. cbn. set (stale := map fst _). clearbody stale.
  revert Hf. generalize (me_fanouts m). induction stale as [|u stale IH]; intros d Hd; cbn [foldl]; [done|]. by apply IH, Forall_dkeys_ddel.
Qed.
Lemma fill_fanout_good pick t available m :
  picks pick -> mesh_good m -> exists m', fill_fanout pick t available m = Ok m' /\ mesh_good m'.
Proof.
  intros Hk [Hm Ht Hf]. destruct (fill_fanout_Ok p pick t available m Hk Hm) as (m' & E & Hm' & Es). exists m'. split; [done|].
  split; [done|by rewrite Es|]. unfold fill_fanout in E. destruct (dget t (me_fanouts m)) as [f|] eqn:Ef; [|by injection E as <-].
  destruct (_ <? _); [|by injection E as <-]. apply bind_Ok in E as (r & _ & [= <-]). cbn.
  apply Forall_dkeys_dset; [|done]. rewrite Forall_forall in Hf. apply Hf. by eapply dget_Some_key.
Qed.
Lemma update_fanout_good pick now t available m :
  picks pick -> utf8 t -> mesh_good m -> exists peers m', update_fanout pick now t available m = Ok (peers, m') /\ mesh_good m'.
Proof.
  intros Hk Hu Hm. unfold update_fanout. destruct (subscribed t m) eqn:Es; [by do 2 eexists|].
  apply bool_decide_eq_false in Es. destruct (fanout_peers_ok p Hp t m (mg_inv _ Hm)) as [Hn Hl].
  destruct (fill_fanout_good pick t available (with_fanouts (dset t {| fo_peers := get_fanout_peers t m; fo_last_published := now |}
    (me_fanouts m)) m) Hk) as (m' & -> & Hm').
  { destruct Hm. split; [by apply fanout_update|done|]. by apply Forall_dkeys_dset. }
  mcbn. by do 2 eexists.
Qed.
#[local] Hint Resolve mesh_good_remove mesh_good_subscribe mesh_good_unsubscribe mesh_good_cleanup : gossip.

(** ** Subscriptions and peers *)
Lemma keeps_spawn b : utf8 (bt_topic b) -> keeps (spawn b).
Proof.
  intros Hb. apply keeps_bind; [apply keeps_gets|]. intros [|]; [apply keeps_ret|]. apply keeps_modify. intros s []. split; [|done].
  split; cbn; try done; [by apply Forall_app_2; [|constructor]|]. intros Hst. by destruct (gi_once0 Hst); split.
Qed.

Lemma subscribe_keeps t : utf8 t -> keeps (subscribe t).
Proof.
  intros Ht. apply keeps_bind; [apply keeps_gets|]. intros [|]; [apply keeps_ret|].
  apply keeps_bind; [apply keeps_mesh; intros; auto with gossip|]. intros _. by apply keeps_spawn.
Qed.
Lemma unsubscribe_keeps t : utf8 t -> keeps (unsubscribe t).
Proof.
  intros Ht. apply keeps_bind; [apply keeps_gets|]. intros [|]; [|apply keeps_ret].
  apply keeps_bind; [apply keeps_gets|]. intros peers. apply keeps_bind; [apply keeps_mesh; intros; auto with gossip|].
  intros _. by apply keeps_spawn.
Qed.

(** Adding distinct new peers, as many as fit *)
Lemma graft_list_inv t l s :
  gossip_inv s -> NoDup l -> (forall q, q ∈ l -> q ∉ get_mesh_peers t (gs_mesh s)) ->
  Zlen (get_mesh_peers t (gs_mesh s)) + Zlen l <= gp_d_high p ->
  forall (body : PeerId -> M GossipsubBehavior unit),
  (forall q, keeps (body q) /\ forall s', (body q s').1 = Ok tt -> gs_mesh (body q s').2 = gs_mesh s') ->
  exists s', for_each l (fun q => _ ← modify (on_mesh (fun mesh => (add_to_mesh t q mesh).2)); body q) s = (Ok tt, s') /\
    gossip_inv s' /\ dkeys (gs_peers s') = dkeys (gs_peers s) /\
    (dget t (me_meshes (gs_mesh s)) <> None -> get_mesh_peers t (gs_mesh s') = get_mesh_peers t (gs_mesh s) ++ l).
Proof.
  revert s. induction l as [|q l IH]; intros s Hs Hn Hq Hl body Hb; [exists s; split_and!; try done; by rewrite app_nil_r|].
  apply NoDup_cons in Hn as [Hql Hn]. cbn [length] in Hl.
  set (s1 := on_mesh (fun mesh => (add_to_mesh t q mesh).2) s).
  destruct (on_mesh_inv (fun mesh => (add_to_mesh t q mesh).2) s Hs) as [Hs1 Hk1]; [apply mesh_good_add; [apply Hs|lia]|]. fold s1 in Hs1, Hk1.
  destruct (Hb q) as [Hbk Hbm]. pose proof (Hbk (dkeys (gs_peers s1)) s1 (conj Hs1 eq_refl)) as Hb1. specialize (Hbm s1).
  destruct (body q s1) as [[[]|e] s2] eqn:Eb; [|by destruct Hb1]. destruct Hb1 as [Hs2 Hk2]. specialize (Hbm eq_refl). cbn in Hbm.
  assert (dget t (me_meshes (gs_mesh s)) <> None -> get_mesh_peers t (gs_mesh s2) = get_mesh_peers t (gs_mesh s) ++ [q]) as Hg.
  { intros Hd. rewrite Hbm. subst s1. cbn. apply add_to_mesh_peers; [done|]. apply Hq. by left. }
  assert (dget t (me_meshes (gs_mesh s)) = None -> gs_mesh s2 = gs_mesh s) as Hno.
  { intros Hd. rewrite Hbm. subst s1. cbn. unfold add_to_mesh. by rewrite Hd. }
  assert (dget t (me_meshes (gs_mesh s)) <> None -> dget t (me_meshes (gs_mesh s2)) <> None) as Hsome.
  { intros Hd. rewrite Hbm. subst s1. cbn. unfold add_to_mesh. destruct (dget t (me_meshes (gs_mesh s))) as [mesh|]; [|done].
    destruct (tm_add_peer q mesh). cbn. by rewrite dget_dset_eq. }
  destruct (IH s2 Hs2 Hn) with (body := body) as (s3 & E3 & Hs3 & Hk3 & Hm3).
  - intros x Hx. destruct (decide (dget t (me_meshes (gs_mesh s)) = None)) as [Hd|Hd].
    + rewrite (Hno Hd). apply Hq. by right.
    + rewrite (Hg Hd). intros [Hin|Hin%list_elem_of_singleton]%elem_of_app; [by apply (Hq x); [right|]|congruence].
  - destruct (decide (dget t (me_meshes (gs_mesh s)) = None)) as [Hd|Hd]; [rewrite (Hno Hd); lia|].
    rewrite (Hg Hd), length_app. cbn [length]. lia.
  - done.
  - exists s3. split_and!; [|done|congruence|].
    + cbn [for_each]. unfold mbind at 1, M_bind at 1. rewrite run_modify. fold s1. rewrite Eb. exact E3.
    + intros Hd. rewrite (Hm3 (Hsome Hd)), (Hg Hd), <- app_assoc. done.
Qed.

Lemma NoDup_peers (P : PeerId * PeerState -> Prop) `{!forall e, Decision (P e)} (d : dict PeerId PeerState) :
  dict_wf d -> NoDup (map fst (filter P d)).
Proof.
  unfold dict_wf, dkeys. induction d as [|e d IH]; intros Hd; [constructor|]. apply NoDup_cons in Hd as [Hn Hd]. rewrite filter_cons.
  case_decide; [|by apply IH]. cbn. constructor; [|by apply IH]. intros (e' & Ee & [_ He]%list_elem_of_filter)%list_elem_of_fmap.
  apply Hn. apply list_elem_of_fmap. eauto.
Qed.

Lemma broadcast_keeps b : utf8 (bt_topic b) -> keeps (_broadcast_subscription b).
Proof.
  intros Hb. unfold _broadcast_subscription. apply keeps_bind; [apply keeps_gets|]. intros ps.
  apply keeps_bind; [apply keeps_for_each; intros; apply keeps_send, subscription_ok; by constructor|]. intros _.
  destruct (bt_subscribe b); [|apply keeps_for_each; intros; auto with gossip].
  intros peers s Hs. rewrite !run_gets. rewrite (gi_params _ (proj1 Hs)).
  set (mesh := get_mesh_peers (bt_topic b) (gs_mesh s)). destruct (Z.leb_spec (gp_d p - Zlen mesh) 0); [exact Hs|]. rewrite run_gets.
  set (l := take _ _). destruct Hs as [Hs <-].
  destruct (graft_list_inv (bt_topic b) l s Hs) with (body := fun q => _send_rpc q (RPC_graft [bt_topic b]))
    as (s' & -> & Hs' & Hk & _).
  - subst l. eapply sublist_NoDup; [apply (NoDup_peers (fun e => bt_topic b ∈ ps_subscriptions e.2 /\ ps_outbound_stream e.2 = true /\ e.1 ∉ mesh)
      (gs_peers s)), Hs|apply sublist_take].
  - intros q Hq. subst l. apply elem_of_take in Hq as (i & Hi & _). apply list_elem_of_lookup_2 in Hi.
    apply list_elem_of_fmap in Hi as ([q' ps'] & -> & Hi). apply list_elem_of_filter in Hi as [(_ & _ & Hn) _]. exact Hn.
  - subst l mesh. rewrite length_take. destruct Hp. lia.
  - intros q. split; [by apply keeps_send, graft_ok|]. intros s'. by rewrite send_effect.
  - by split.
Qed.

Lemma run_background_task_keeps : keeps run_background_task.
Proof.
  intros peers s [Hs <-]. unfold run_background_task. rewrite run_gets. destruct (gs_background_tasks s) as [|b rest] eqn:E; [by split|].
  rewrite run_modify. pose proof (gi_tasks _ Hs) as Ht. rewrite E in Ht. apply Forall_cons in Ht as [Hb Hr].
  apply broadcast_keeps; [done|]. split; [|done]. destruct Hs. split; cbn; try done. intros Hst. by destruct (gi_once0 Hst); split.
Qed.

(** ** Messages *)

(** A new message: in the seen cache, and not yet delivered *)
Definition fresh (id : MessageId) (s : GossipsubBehavior) : Prop :=
  steady -> id ∉ event_ids (gs_event_queue s) /\ is_Some (dget id (gs_seen_cache s)).

Lemma Forall_dset {K V} `{EqDecision K} (P : V -> Prop) k v (d : dict K V) :
  P v -> Forall (fun e => P e.2) d -> Forall (fun e => P e.2) (dset k v d).
Proof. intros Hv. induction 1 as [|[k' v'] d Hd Hds IH]; cbn. - constructor; [done|constructor]. - case_decide; constructor; done. Qed.

Lemma record_message_ok t data id s :
  utf8 t -> gossip_inv s -> seen_has id (gs_seen_cache s) = false -> message_id_of (topic_message t data) = id ->
  exists s', record_message t data id s = (Ok tt, s') /\ gossip_inv s' /\ fresh id s' /\ seen_has id (gs_seen_cache s') = true /\
    gs_peers s' = gs_peers s /\ gs_mesh s' = gs_mesh s /\ gs_event_queue s' = gs_event_queue s /\ gs_written s' = gs_written s.
Proof.
  intros Ht Hs Hn Hid. apply dmem_false in Hn. unfold record_message. unfold read_time, mbind at 1, M_bind at 1. rewrite run_modify, run_gets.
  destruct (mcache_put_Ok t {| gm_topic := t; gm_raw_data := data; gm_cached_id := Some id |} (gs_message_cache s)) as
    (b & c & Ec & Hc & _ & _ & Hd); [apply Hs|].
  cbn [gs_message_cache on_seen_cache with_counters]. rewrite Ec, run_raising.
  assert (forall ts, (seen_add id ts (gs_seen_cache s)).2 = dset id ts (gs_seen_cache s)) as Hseen
    by (intros ts; unfold seen_add; by rewrite (proj2 (dmem_false _ _) Hn)).
  eexists. split; [reflexivity|].
  pose proof Hs as [? ? [Hci Hct Hcd] ? ? ? ? Ho]. split_and!; try done.
  - split; cbn; try done.
    + split; [done|intros i e [?|[_ ->]]%Hd; [by eapply Hct|done]|]. intros i e [?|[-> ->]]%Hd; [by apply Hcd|done].
    + intros Hst. destruct (Ho Hst). split; cbn; [done| |]; rewrite Hseen.
      * intros i [ts Hi]%on_seen0. rewrite dget_dset. case_decide; eauto.
      * apply (Forall_dset (fun ts => t0 <= ts)); [apply Hst|done].
  - intros Hst. cbn. rewrite Hseen. destruct (Ho Hst). split; [|by rewrite dget_dset_eq]. intros Hin%on_seen0. rewrite Hn in Hin. by destruct Hin.
  - cbn. rewrite Hseen. apply bool_decide_eq_true. by rewrite dget_dset_eq.
Qed.

Lemma put_message_event_inv q t data id s : gossip_inv s -> fresh id s -> gossip_inv (put_event (GossipsubMessageEvent q t data id) s).
Proof.
  intros [] Hf. split; cbn; try done. intros Hst. destruct (gi_once0 Hst), (Hf Hst) as [Hn Hse].
  split; cbn; [| |done]; unfold event_ids; rewrite omap_app; cbn.
  - apply NoDup_app. split_and!; [done| |apply NoDup_singleton]. intros x Hx ->%list_elem_of_singleton. done.
  - intros i [Hi| ->%list_elem_of_singleton]%elem_of_app; [by apply on_seen0|done].
Qed.
Lemma put_peer_event_inv q t b s : gossip_inv s -> gossip_inv (put_event (GossipsubPeerEvent q t b) s).
Proof.
  intros []. split; cbn; try done. intros Hst. destruct (gi_once0 Hst). split; cbn; [| |done]; unfold event_ids; rewrite omap_app; cbn;
    by rewrite app_nil_r.
Qed.

Lemma forwards_ok sender m id peers mesh : utf8 (ms_topic m) -> Forall sent_ok (forwards sender m id peers mesh).
Proof.
  intros Hm. apply Forall_app_2.
  - apply Forall_bind_list. intros q _. case_decide; [|constructor]. apply frames_to_ok, publish_ok. by constructor.
  - destruct (_ >=? _); [|constructor]. apply Forall_bind_list. intros q _. case_decide; [constructor|]. apply frames_to_ok, idontwant_ok.
Qed.

Lemma handle_message_dropped q m s : dropped m s -> _handle_message q m s = (Ok tt, s).
Proof.
  unfold dropped, message_id_of, contents, _handle_message. intros Hd.
  destruct (bool_decide (ms_topic m = [])) eqn:Et; [done|]. rewrite run_gets.
  destruct (subscribed (ms_topic m) (gs_mesh s)) eqn:Es; [|done]. cbn [negb].
  destruct (_try_decompress (ms_data m)) as [data domain]. cbn [fst] in Hd.
  destruct (Z.gtb_spec (Zlen data) MAX_PAYLOAD_SIZE); [done|]. rewrite run_gets.
  destruct (seen_has _ (gs_seen_cache s)) eqn:Eh; [done|]. apply bool_decide_eq_false in Et.
  destruct Hd as [?|[?|[?|?]]]; [done|done|lia|congruence].
Qed.

Lemma handle_message_new q m s :
  utf8 (ms_topic m) -> gossip_inv s -> ~ dropped m s ->
  exists s1, record_message (ms_topic m) (ms_data m) (message_id_of m) s = (Ok tt, s1) /\
    gossip_inv s1 /\ fresh (message_id_of m) s1 /\ seen_has (message_id_of m) (gs_seen_cache s1) = true /\
    gs_peers s1 = gs_peers s /\ gs_mesh s1 = gs_mesh s /\
    gs_event_queue s1 = gs_event_queue s /\ gs_written s1 = gs_written s /\
    _handle_message q m s = (Ok tt, put_event (GossipsubMessageEvent q (ms_topic m) (contents m) (message_id_of m))
      (with_written (forwards q m (message_id_of m) (gs_peers s) (set_iter (get_mesh_peers (ms_topic m) (gs_mesh s)))) s1)).
Proof.
  intros Hu Hs Hd. destruct (record_message_ok (ms_topic m) (ms_data m) (message_id_of m) s Hu Hs) as
    (s1 & E1 & Hs1 & Hf & Hse & Ep & Em & Eq & Ew).
  { destruct (seen_has _ _) eqn:E; [|done]. exfalso. apply Hd. right. right. by right. }
  { done. }
  exists s1. split_and!; try done. unfold dropped, contents in *. unfold _handle_message.
  rewrite bool_decide_false by tauto. rewrite run_gets. destruct (subscribed (ms_topic m) (gs_mesh s)); [|tauto]. cbn [negb].
  unfold message_id_of in *. destruct (_try_decompress (ms_data m)) as [data domain] eqn:Ed. cbn [fst] in *.
  destruct (Z.gtb_spec (Zlen data) MAX_PAYLOAD_SIZE); [exfalso; apply Hd; right; right; left; lia|]. rewrite run_gets.
  destruct (seen_has _ (gs_seen_cache s)) eqn:Eh; [exfalso; apply Hd; tauto|]. rewrite (run_bind _ _ _ _ _ E1), run_gets, Em.
  set (id := compute_id (ms_topic m) data domain) in *. set (mesh := set_iter _).
  rewrite (run_bind _ _ _ _ _ (writes_effect mesh _ (fun peers peer => if decide (wants q id peers peer) then frames_to peers (publish_rpc [m]) peer else [])
    (fun x s => forward_effect q m id x s) s1)).
  rewrite Ep. unfold forwards. destruct (Zlen (ms_data m) >=? IDONTWANT_SIZE_THRESHOLD).
  - rewrite (run_bind _ _ _ _ _ (writes_effect mesh _ (fun peers peer => if decide (peer = q) then [] else frames_to peers (idontwant_rpc id) peer)
      (fun x s => idontwant_effect q id x s) _)).
    cbn [gs_peers with_written]. rewrite Ep, with_written_app. done.
  - rewrite app_nil_r. done.
Qed.

Lemma handle_message_keeps q m : utf8 (ms_topic m) -> keeps (_handle_message q m).
Proof.
  intros Hu peers s [Hs <-]. destruct (decide (dropped m s)) as [Hd|Hd]; [by rewrite handle_message_dropped|].
  destruct (handle_message_new q m s Hu Hs Hd) as (s1 & _ & Hs1 & Hf & _ & Ep & Em & _ & _ & ->). split; [|cbn; by rewrite Ep].
  apply put_message_event_inv; [|done]. apply with_written_inv; [done|]. by apply forwards_ok.
Qed.

Lemma publish_keeps t data : utf8 t -> keeps (publish t data).
Proof.
  intros Ht. unfold publish. destruct (_try_decompress data) as [decompressed domain] eqn:Et.
  intros peers s [Hs <-]. rewrite run_gets. destruct (seen_has _ _) eqn:Eh; [by split|].
  destruct (record_message_ok t data _ s Ht Hs Eh ltac:(unfold message_id_of; cbn; by rewrite Et)) as (s1 & E1 & Hs1 & _ & _ & Ep & _). rewrite (run_bind _ _ _ _ _ E1), <- Ep.
  assert (forall k : list PeerId -> M GossipsubBehavior unit, (forall ps, keeps (k ps)) -> keeps (
    joined ← gets (fun s => subscribed t (gs_mesh s));
    peers ← (if joined : bool then gets (fun s => get_mesh_peers t (gs_mesh s))
             else
               available ← gets (fun s => topic_peers t (gs_peers s));
               now ← read_time;
               pick ← next_sample;
               updated ← gets (fun s => update_fanout pick now t available (gs_mesh s));
               '(peers, mesh) ← raising updated;
               _ ← modify (on_mesh (fun _ => mesh));
               mret peers);
    k peers)) as Hk.
  { intros k Hk. apply keeps_bind; [apply keeps_gets|]. intros joined. apply keeps_bind; [|done].
    destruct joined; [apply keeps_gets|]. apply keeps_bind; [apply keeps_gets|]. intros available. apply keeps_bind; [apply keeps_time|].
    intros now. apply keeps_next_sample. intros pick Hpick. apply (keeps_raising _ (fun '(peers, mesh) => _)). intros s' Hs'.
    destruct (update_fanout_good pick now t available (gs_mesh s') Hpick Ht) as (ps & m' & E & Hm'); [apply Hs'|]. rewrite E.
    eexists. split; [done|]. apply keeps_bind; [by apply keeps_set_mesh|]. intros _. apply keeps_ret. }
  apply Hk; [|by split]. intros ps. apply keeps_for_each. intros q _. apply keeps_send, publish_ok. by constructor.
Qed.

Lemma keeps_get_peer q : keeps (get_peer q).
Proof. apply keeps_gets. Qed.
#[local] Hint Resolve keeps_get_peer : gossip.

Lemma handle_subscription_keeps q sub : keeps (_handle_subscription q sub).
Proof.
  apply keeps_bind; [apply keeps_get_peer|]. intros [ps|]; [|apply keeps_ret]. apply keeps_bind.
  - destruct (so_subscribe sub); [by apply keeps_on_peer|]. apply keeps_bind; [by apply keeps_on_peer|]. intros _.
    apply keeps_mesh. intros. auto with gossip.
  - intros _. apply keeps_modify. intros s Hs. split; [|done]. by apply put_peer_event_inv.
Qed.

Lemma handle_graft_keeps q graft : keeps (_handle_graft q graft).
Proof.
  unfold _handle_graft. set (t := cg_topic_id graft). apply keeps_reading. intros s0 Hs0.
  destruct (subscribed t (gs_mesh s0)) eqn:Es; [|apply keeps_ret].
  assert (utf8 t) as Ht by (by eapply mesh_topic; [apply Hs0|]). cbn [negb].
  apply keeps_bind; [apply keeps_get_peer|]. intros state. apply keeps_bind.
  { destruct state; [|apply keeps_ret]. apply keeps_bind; [apply keeps_time|]. intros now. apply keeps_ret. }
  intros [|]; [by apply keeps_send, prune_ok|]. intros peers s [Hs <-]. rewrite run_gets.
  rewrite (gi_params _ Hs). destruct (Z.leb_spec (gp_d_high p) (Zlen (get_mesh_peers t (gs_mesh s)))); [by apply keeps_send; [apply prune_ok|]|].
  unfold modify. apply on_mesh_inv; [done|]. apply mesh_good_add; [apply Hs|done].
Qed.

Lemma handle_prune_keeps q prune : keeps (_handle_prune q prune).
Proof.
  apply keeps_bind; [apply keeps_get_peer|]. intros state. apply keeps_bind; [apply keeps_mesh; intros; auto with gossip|]. intros _.
  destruct state; [|apply keeps_ret]. destruct (_ <? _); [|apply keeps_ret]. apply keeps_bind; [apply keeps_time|]. intros now. by apply keeps_on_peer.
Qed.

Lemma handle_ihave_keeps q ihave : keeps (_handle_ihave q ihave).
Proof.
  apply keeps_bind; [apply keeps_gets|]. intros wanted. destruct (_ =? 0); [apply keeps_ret|]. apply keeps_send.
  split; cbn; [constructor..|]. intros c [= <-]. by split.
Qed.

Lemma serve_messages_ok q ids : forall messages peers,
  Forall (fun m => utf8 (ms_topic m)) messages ->
  triple (keeping peers) (serve_messages q ids messages) (fun ms s => keeping peers s /\ Forall (fun m => utf8 (ms_topic m)) ms) never.
Proof.
  induction ids as [|id ids IH]; intros messages peers Hm; cbn [serve_messages]; [by apply triple_ret|].
  destruct (negb _); [by apply IH|]. intros s [Hs <-]. rewrite run_gets.
  destruct (Z.leb_spec GOSSIP_RETRANSMISSION (served_count q id s)) as [|Hlt]; [by apply IH|]. rewrite run_gets.
  destruct (mcache_get id (gs_message_cache s)) as [m|] eqn:Em; [|by apply IH].
  assert (utf8 (gm_topic m)) as Hu.
  { unfold mcache_get in Em. apply fmap_Some in Em as (e & Ee & ->). by eapply cg_topics; [apply Hs|]. }
  rewrite (decode_utf8_valid _ Hu), run_raising, run_modify. apply IH; [by apply Forall_app_2; [|constructor]|].
  assert (keeping (dkeys (gs_peers s)) (on_peer q (with_served (dset id (served_count q id s + 1))) s)) as Hk; [|exact Hk].
  split; [|apply dkeys_on_peer]. pose proof Hs as []. unfold on_peer, on_peers. split; cbn; try done.
  - destruct (dget q (gs_peers s)); [by apply dset_wf|done].
  - intros q' ps'. destruct (dget q (gs_peers s)) as [ps|] eqn:E; [|apply gi_served0]. rewrite dget_dset.
    case_decide; [|apply gi_served0]. intros [= <-] i c. cbn. rewrite dget_dset. case_decide; [|by eapply gi_served0].
    intros [= <-]. unfold served_count in *. rewrite E in *. pose proof (gi_served0 _ _ E id) as Hc.
    destruct (dget id (ps_iwant_served_counts ps)) as [c|]; cbn in *; [specialize (Hc c eq_refl)|]; lia.
  - intros Hst. by destruct (gi_once0 Hst); split.
Qed.

Lemma handle_iwant_keeps q iwant : keeps (_handle_iwant q iwant).
Proof.
  apply keeps_bind; [apply keeps_get_peer|]. intros [ps|]; [|apply keeps_ret]. intros peers.
  eapply triple_bind; [by apply serve_messages_ok|]. intros ms. cbn beta. apply triple_pure. intros Hm.
  destruct (_ =? 0); [apply keeps_ret|]. by apply keeps_send, publish_ok.
Qed.

Lemma handle_control_keeps q control : keeps (_handle_control q control).
Proof.
  apply keeps_bind; [apply keeps_get_peer|]. intros [ps|]; [|apply keeps_ret].
  apply keeps_bind; [apply keeps_for_each; intros; apply handle_graft_keeps|]. intros _.
  apply keeps_bind; [apply keeps_for_each; intros; apply handle_prune_keeps|]. intros _.
  apply keeps_bind; [apply keeps_for_each; intros; apply handle_ihave_keeps|]. intros _.
  apply keeps_bind; [apply keeps_for_each; intros; apply handle_iwant_keeps|]. intros _.
  apply keeps_for_each. intros. by apply keeps_on_peer.
Qed.

Lemma handle_rpc_keeps q rpc : rpc_ok rpc -> keeps (_handle_rpc q rpc).
Proof.
  intros [H1 H2 H3]. apply keeps_bind; [apply keeps_get_peer|]. intros [ps|]; [|apply keeps_ret].
  apply keeps_bind; [apply keeps_for_each; intros; apply handle_subscription_keeps|]. intros _.
  apply keeps_bind; [apply keeps_for_each; intros m Hm; apply handle_message_keeps; rewrite Forall_forall in H2; by apply H2|]. intros _.
  destruct (rpc_control rpc); [apply handle_control_keeps|apply keeps_ret].
Qed.

(** ** Operations that change which peers are tracked *)
Definition safe {A} (m : M GossipsubBehavior A) : Prop := triple gossip_inv m (fun _ => gossip_inv) never.

Lemma keeps_safe {A} (m : M GossipsubBehavior A) : keeps m -> safe m.
Proof.
  intros Hm s Hs. specialize (Hm _ s (conj Hs eq_refl)). destruct (m s) as [[a|e] s']; [apply Hm|done].
Qed.
Lemma safe_bind {A B} (m : M GossipsubBehavior A) (k : A -> M GossipsubBehavior B) :
  safe m -> (forall a, safe (k a)) -> safe (m ≫= k).
Proof. intros Hm Hk. eapply triple_bind; [apply Hm|]. intros a. apply Hk. Qed.
Lemma safe_for_each {A} (l : list A) body : (forall x, safe (body x)) -> safe (for_each l body).
Proof. intros Hb. apply triple_for_each. intros x _. apply Hb. Qed.

Lemma remove_peer_safe q : safe (remove_peer q).
Proof.
  apply safe_bind; [apply keeps_safe, keeps_get_peer|]. intros [ps|]; [|apply keeps_safe, keeps_ret]. apply safe_bind.
  - apply triple_modify. intros s []. split; cbn; try done.
    + by apply ddel_wf.
    + intros q' ps'. rewrite dget_ddel. case_decide; [done|apply gi_served0].
    + intros Hst. by destruct (gi_once0 Hst); split.
  - intros _. apply safe_bind; [apply keeps_safe, keeps_gets|]. intros topics. apply safe_for_each. intros t.
    apply keeps_safe, keeps_mesh. intros. auto with gossip.
Qed.

Lemma new_peer_safe q outbound inbound : safe (modify (on_peers (dset q (new_peer outbound inbound)))).
Proof.
  apply triple_modify. intros s []. split; cbn; try done.
  - by apply dset_wf.
  - intros q' ps'. rewrite dget_dset. case_decide; [intros [= <-]; by intros i c|apply gi_served0].
  - intros Hst. by destruct (gi_once0 Hst); split.
Qed.

Lemma set_iter_Forall (P : bytes -> Prop) l : Forall P l -> Forall P (set_iter l).
Proof. by rewrite set_iter_perm. Qed.

Lemma add_peer_safe q inbound : safe (add_peer q inbound).
Proof.
  apply safe_bind; [apply keeps_safe, keeps_get_peer|]. intros existing. destruct inbound.
  - destruct existing as [ps|]; [|apply new_peer_safe]. destruct (ps_inbound_stream ps); [apply keeps_safe, keeps_ret|].
    by apply keeps_safe, keeps_on_peer.
  - apply safe_bind.
    + destruct existing as [ps|]; [destruct (ps_outbound_stream ps); [apply keeps_safe, keeps_ret|]|].
      * apply keeps_safe, keeps_bind; [by apply keeps_on_peer|]. intros _. apply keeps_ret.
      * apply safe_bind; [apply new_peer_safe|]. intros _. apply keeps_safe, keeps_ret.
    + intros added. apply keeps_safe, keeps_reading. intros s Hs. destruct (_ && _); [|apply keeps_ret].
      apply keeps_send, subscription_ok, set_iter_Forall, Hs.
Qed.

Lemma lifecycle_safe stopped : safe (modify (fun s => with_lifecycle stopped (gs_background_tasks s) s)).
Proof. apply triple_modify. intros s []. split; cbn; try done. intros Hst. by destruct (gi_once0 Hst); split. Qed.

Lemma stop_safe : safe stop.
Proof.
  apply safe_bind; [apply lifecycle_safe|]. intros _. apply safe_bind; [apply keeps_safe, keeps_gets|]. intros l.
  apply safe_for_each, remove_peer_safe.
Qed.

(** ** The receive loop *)
Lemma drop_shorter {A} (l : list A) n : 1 <= n -> l <> [] -> (length (drop (Z.to_nat n) l) < length l)%nat.
Proof. intros Hn Hl. rewrite length_drop. destruct l; [done|]. cbn [length]. lia. Qed.

Lemma handle_frame_keeps q data : keeps (catch (rpc ← raising (RPC_decode data); _handle_rpc q rpc) (fun _ => mret tt)).
Proof.
  intros peers s Hs. unfold catch. pose proof (RPC_decode_cases data) as Hd.
  destruct (RPC_decode data) as [rpc|e]; [|exact Hs]. rewrite run_raising.
  pose proof (handle_rpc_keeps q rpc Hd peers s Hs) as Hk. by destruct (_handle_rpc q rpc s) as [[u|e] s'].
Qed.

Lemma drain_frames_ok q : forall fuel buffer peers, (length buffer <= fuel)%nat ->
  triple (keeping peers) (drain_frames fuel q buffer) (fun _ => keeping peers) (fun e s => e = ValueError /\ keeping peers s).
Proof.
  induction fuel as [|fuel IH]; intros buffer peers Hl; destruct buffer as [|b buffer]; cbn [drain_frames];
    try (by apply triple_ret); [cbn in Hl; lia|].
  destruct (decode_varint_cases (b :: buffer) 0 VARINT_MAX_BYTES) as [(v & c & -> & Hv & Hc & _)| ->]; [lia|done| |by apply triple_ret].
  destruct (v >? MAX_PAYLOAD_SIZE); [by apply triple_raising|]. destruct (_ <? c + v); [by apply triple_ret|].
  eapply triple_bind; [apply triple_never, handle_frame_keeps|]. intros ?. apply IH.
  pose proof (drop_shorter (b :: buffer) (c + v) ltac:(lia) ltac:(done)). lia.
Qed.

Lemma receive_chunk_safe q buffer chunk : safe (receive_chunk q buffer chunk).
Proof.
  assert (safe (_ ← remove_peer q; mret (@None bytes))) as Hrm.
  { apply safe_bind; [apply remove_peer_safe|]. intros _. apply keeps_safe, keeps_ret. }
  apply safe_bind; [apply keeps_safe, keeps_get_peer|]. intros [ps|]; [|apply keeps_safe, keeps_ret].
  destruct chunk as [|b chunk]; [done|]. apply (triple_catch _ _ _ _ _ (fun _ => gossip_inv)); [|by intros _].
  apply (triple_bind _ _ _ (fun _ => gossip_inv)); [|intros rest; by apply triple_ret].
  intros s Hs. pose proof (drain_frames_ok q (length (buffer ++ b :: chunk)) (buffer ++ b :: chunk) (dkeys (gs_peers s)) ltac:(done) s
    (conj Hs eq_refl)) as Hd. destruct (drain_frames _ q _ s) as [[rest|e] s']; destruct Hd as [Hd1 Hd2]; [done|apply Hd2].
Qed.

(** ** The heartbeat *)
Lemma for_each_ext {A} (l : list A) (f g : A -> M GossipsubBehavior unit) s :
  (forall x s, f x s = g x s) -> for_each l f s = for_each l g s.
Proof.
  intros Hfg. revert s. induction l as [|x l IH]; intros s; cbn [for_each]; [done|]. unfold mbind, M_bind. rewrite Hfg.
  destruct (g x s) as [[u|e] s']; [apply IH|done].
Qed.

Lemma NoDup_submseteq_NoDup {A} (l k : list A) : l ⊆+ k -> NoDup k -> NoDup l.
Proof. intros (r & Hr)%submseteq_Permutation Hn. rewrite Hr in Hn. by apply NoDup_app in Hn as [? _]. Qed.

(** A small mesh grows to [d], or by all the eligible peers; a larger one is left alone. *)
Lemma maintain_mesh_ok t now s :
  utf8 t -> gossip_inv s ->
  let mesh := get_mesh_peers t (gs_mesh s) in
  let eligible := eligible_peers t now mesh (gs_peers s) in
  exists s' grafted, _maintain_mesh t now s = (Ok tt, s') /\ gossip_inv s' /\ dkeys (gs_peers s') = dkeys (gs_peers s) /\
    grafted ⊆+ eligible /\ Zlen grafted = (if Zlen mesh <? gp_d_low p then Z.min (gp_d p - Zlen mesh) (Zlen eligible) else 0) /\
    (subscribed t (gs_mesh s) = true -> get_mesh_peers t (gs_mesh s') = mesh ++ grafted).
Proof.
  intros Ht Hs. cbn zeta. set (mesh := get_mesh_peers t (gs_mesh s)). set (eligible := eligible_peers _ _ _ _).
  pose proof Hp as [[Hd1 Hd2] _ _]. destruct (mesh_peers_ok p Hp t (gs_mesh s) (mg_inv _ (gi_mesh _ Hs))) as [Hmn Hml]. fold mesh in Hmn, Hml.
  unfold _maintain_mesh. rewrite !run_gets, (gi_params _ Hs). fold mesh. fold eligible.
  destruct (Z.ltb_spec (Zlen mesh) (gp_d_low p)) as [Hlow|Hlow]; cbn [andb].
  2: { rewrite Z.gtb_ltb, (proj2 (Z.ltb_ge _ _)) by lia. exists s, []. split_and!; try done; [apply submseteq_nil_l|]. by rewrite app_nil_r. }
  destruct (Z.eqb_spec (Zlen eligible) 0) as [He|He]; cbn [negb].
  { rewrite Z.gtb_ltb, (proj2 (Z.ltb_ge _ _)) by lia. exists s, []. split_and!; try done; [apply submseteq_nil_l|cbn; lia|]. by rewrite app_nil_r. }
  unfold next_sample, mbind at 1, M_bind at 1. set (s0 := with_counters _ _ s).
  assert (gossip_inv s0) as Hs0 by (destruct (keeps_sample _ s (conj Hs eq_refl)) as [? _]; done).
  destruct (random_sample_Ok (sample_at (gs_samples s)) eligible (Z.min (gp_d p - Zlen mesh) (Zlen eligible)) (sample_picks _))
    as (l & -> & Hsub & Hlen); [lia|]. rewrite run_raising.
  destruct (graft_list_inv t l s0 Hs0) with (body := fun _ : PeerId => @mret (M GossipsubBehavior) _ _ tt) as (s1 & E1 & Hs1 & Hk1 & Hm1).
  - eapply NoDup_submseteq_NoDup; [exact Hsub|]. apply NoDup_peers, Hs.
  - intros q Hq. eapply elem_of_submseteq in Hq; [|exact Hsub]. apply list_elem_of_fmap in Hq as ([q' ps'] & -> & Hi).
    apply list_elem_of_filter in Hi as [(_ & _ & Hn & _) _]. exact Hn.
  - change (get_mesh_peers t (gs_mesh s0)) with mesh. lia.
  - intros q. by split; [apply keeps_ret|].
  - rewrite (run_bind _ _ _ tt s1); [|rewrite <- E1; apply for_each_ext; intros; reflexivity]. rewrite sends_effect.
    eexists _, l. split_and!; [done| |done|done|done|].
    + apply with_written_inv; [done|]. by apply sends_ok, graft_ok.
    + intros Hsu. change (gs_mesh s0) with (gs_mesh s) in Hm1. cbn. rewrite Hm1; [done|].
      apply subscribed_true, (mi_dom _ _ (mg_inv _ (gi_mesh _ Hs))) in Hsu. destruct Hsu as [? ->]. done.
Qed.

Lemma maintain_mesh_keeps t now : utf8 t -> keeps (_maintain_mesh t now).
Proof.
  intros Ht peers s [Hs <-]. destruct (maintain_mesh_ok t now s Ht Hs) as (s' & l & -> & Hs' & Hk & _). by split.
Qed.

Lemma maintain_fanout_keeps t : keeps (maintain_fanout t).
Proof.
  apply keeps_bind; [apply keeps_gets|]. intros [|]; [|apply keeps_ret]. apply keeps_bind; [apply keeps_gets|]. intros available.
  apply keeps_next_sample. intros pick Hpick. apply keeps_raising. intros s Hs.
  destruct (fill_fanout_good pick t available (gs_mesh s) Hpick) as (m & -> & Hm); [apply Hs|]. exists m. split; [done|]. by apply keeps_set_mesh.
Qed.

Lemma emit_gossip_keeps t : utf8 t -> keeps (_emit_gossip t).
Proof.
  intros Ht. apply keeps_bind; [apply keeps_gets|]. intros ids. destruct (_ =? 0); [apply keeps_ret|].
  apply keeps_bind; [apply keeps_gets|]. intros all. apply keeps_next_sample. intros pick Hpick. apply keeps_raising. intros s Hs.
  destruct (select_peers_Ok p Hp pick t all (gs_mesh s) Hpick) as (l & -> & _); [apply Hs|]. exists l. split; [done|].
  apply keeps_for_each. intros q _. apply keeps_send. split; cbn; [constructor..|]. intros c [= <-]. split; cbn; [|constructor..]. by constructor.
Qed.

Lemma keeps_read_time {B} (k : Z -> M GossipsubBehavior B) : (forall n, keeps (k (time_at n))) -> keeps (read_time ≫= k).
Proof. intros Hk peers s Hs. unfold read_time, mbind, M_bind. apply Hk. exact (keeps_time peers s Hs). Qed.

Lemma dget_map_values {V W} (f : V -> W) (d : dict bytes V) k : dget k (map (fun e => (e.1, f e.2)) d) = f <$> dget k d.
Proof. induction d as [|[k' v] d IH]; cbn; [done|]. by case_decide. Qed.
Lemma dkeys_map_values {V W} (f : V -> W) (d : dict bytes V) : dkeys (map (fun e => (e.1, f e.2)) d) = dkeys d.
Proof. unfold dkeys. induction d as [|[k' v] d IH]; cbn; [done|]. f_equal. exact IH. Qed.

Lemma seen_cleanup_steady n seen :
  steady -> Forall (fun e => t0 <= e.2) seen -> (seen_cleanup (gp_seen_ttl_secs p) (time_at n) seen).2 = seen.
Proof.
  intros Hst Hs. unfold seen_cleanup. cbn [snd]. specialize (Hst n). set (ttl := gp_seen_ttl_secs p * SECOND) in *.
  assert (filter (fun e => e.2 < time_at n - ttl) seen = []) as ->; [|done].
  induction Hs as [|e seen He _ IH]; [done|]. rewrite filter_cons, decide_False by lia. exact IH.
Qed.

Lemma set_iter_elem (x : bytes) l : x ∈ set_iter l -> x ∈ l.
Proof. by rewrite set_iter_perm. Qed.

Lemma heartbeat_keeps : keeps _heartbeat.
Proof.
  unfold _heartbeat. apply keeps_read_time. intros n. apply keeps_reading. intros s0 Hs0.
  pose proof (mg_topics _ (gi_mesh _ Hs0)) as Ht. rewrite Forall_forall in Ht.
  apply keeps_bind; [apply keeps_for_each; intros t Hin%set_iter_elem; by apply maintain_mesh_keeps, Ht|]. intros _.
  apply keeps_bind; [apply keeps_gets|]. intros fanouts. apply keeps_bind; [apply keeps_for_each; intros; apply maintain_fanout_keeps|]. intros _.
  apply keeps_reading. intros s1 Hs1. pose proof (gi_mesh _ Hs1) as [_ Ht1 Hf1]. rewrite !Forall_forall in *.
  apply keeps_bind; [apply keeps_for_each; intros t Hin%set_iter_elem; apply emit_gossip_keeps; apply elem_of_sunion in Hin as [?|?]; auto|].
  intros _. apply keeps_reading. intros s2 Hs2. rewrite (gi_params _ Hs2).
  apply keeps_bind; [apply keeps_mesh; intros; auto with gossip|]. intros _.
  apply (keeps_raising _ (fun '(_, cache) => _)). intros s3 Hs3.
  destruct (shift_Ok (gs_message_cache s3)) as (k & c & -> & Hc & _ & _ & Hd); [apply Hs3|]. eexists. split; [done|].
  apply keeps_bind; [apply keeps_set_cache; split; [done|..]; intros i e Hi%Hd; [by eapply cg_topics; [apply Hs3|]|by eapply cg_ids; [apply Hs3|]]|]. intros _.
  apply keeps_bind.
  - apply keeps_modify. intros s []. split; [|done]. pose proof (seen_cleanup_steady n (gs_seen_cache s)) as Hcl. cbn in Hcl.
    split; cbn; try done. intros Hst. destruct (gi_once0 Hst).
    split; cbn; [done|..]; rewrite Hcl; done.
  - intros _. apply keeps_modify. intros s []. split; [|exact (dkeys_map_values clear_heartbeat_state _)]. split; cbn; try done.
    + unfold dict_wf. by rewrite (dkeys_map_values clear_heartbeat_state).
    + intros q ps. rewrite (dget_map_values clear_heartbeat_state). intros (ps0 & _ & ->)%fmap_Some. by intros i c'.
    + intros Hst. by destruct (gi_once0 Hst); split.
Qed.
End Invariant.

(** * Theorems of gossipsub

    The invariant over arbitrary histories, what the handling of a message sends, the
    maintenance of the mesh, and delivery: what one node frames, another node handles,
    however the stream is cut. *)

(** ** Histories *)
Inductive gossip_op :=
| Subscribe (topic : TopicId)
| Unsubscribe (topic : TopicId)
| Start
| Stop
| AddPeer (peer : PeerId) (inbound : bool)
| RemovePeer (peer : PeerId)
| Publish (topic : TopicId) (data : bytes)
| Receive (peer : PeerId) (buffer chunk : bytes)
| Heartbeat
| RunTask.

(** Topics are Python strings. *)
Definition op_ok (op : gossip_op) : Prop :=
  match op with
  | Subscribe t | Unsubscribe t | Publish t _ => utf8_valid t = true
  | _ => True
  end.

Section Histories.
Context `{Environment} `{SetOrder}.

Definition gossip_step (op : gossip_op) : M GossipsubBehavior unit :=
  match op with
  | Subscribe t => subscribe t
  | Unsubscribe t => unsubscribe t
  | Start => start
  | Stop => stop
  | AddPeer q inbound => add_peer q inbound
  | RemovePeer q => remove_peer q
  | Publish t data => publish t data
  | Receive q buffer chunk => _ ← receive_chunk q buffer chunk; mret tt
  | Heartbeat => heartbeat_turn
  | RunTask => run_background_task
  end.

(** States a behavior can be in *)
Definition reachable (p : GossipsubParameters) (s : GossipsubBehavior) : Prop :=
  exists ops, Forall op_ok ops /\ for_each ops gossip_step (new_behavior p) = (Ok tt, s).

Context (p : GossipsubParameters) (Hp : params_ok p) (t0 : Z).

Lemma new_behavior_inv : gossip_inv p t0 (new_behavior p).
Proof.
  split; cbn; try done; try (by constructor).
  - split; [apply mesh_inv_init|constructor..].
  - split; [apply new_message_cache_inv, Hp|by intros id e..].
  - intros _. split; cbn; [constructor|by intros id ?%elem_of_nil|constructor].
Qed.

Lemma gossip_step_safe op : op_ok op -> safe p t0 (gossip_step op).
Proof.
  destruct op; cbn [op_ok gossip_step]; intros Ho.
  - by apply keeps_safe, subscribe_keeps.
  - by apply keeps_safe, unsubscribe_keeps.
  - apply lifecycle_safe.
  - apply stop_safe.
  - apply add_peer_safe.
  - apply remove_peer_safe.
  - by apply keeps_safe, publish_keeps.
  - apply safe_bind; [by apply receive_chunk_safe|]. intros _. apply keeps_safe, keeps_ret.
  - apply keeps_safe, keeps_catch, heartbeat_keeps; done.
  - by apply keeps_safe, run_background_task_keeps.
Qed.

Lemma gossip_run_safe ops : Forall op_ok ops -> safe p t0 (for_each ops gossip_step).
Proof. intros Ho. apply triple_for_each. intros op Hop. apply gossip_step_safe. rewrite Forall_forall in Ho. by apply Ho. Qed.

Lemma gossip_reachable_inv s : reachable p s -> gossip_inv p t0 s.
Proof.
  intros (ops & Ho & E). pose proof (gossip_run_safe ops Ho _ new_behavior_inv) as Hr. by rewrite E in Hr.
Qed.
End Histories.

(** ** The frames of one peer *)
Definition to_peer (peer : PeerId) (l : list (PeerId * bytes)) : list bytes := omap (fun e => if decide (e.1 = peer) then Some e.2 else None) l.

(** What the sending of an RPC to a peer writes *)
Definition frame_for (peers : dict PeerId PeerState) (rpc : RPC) (peer : PeerId) : list bytes :=
  match dget peer peers, frame rpc with
  | Some ps, Ok data => if ps_outbound_stream ps then [data] else []
  | _, _ => []
  end.

Lemma to_peer_app peer l1 l2 : to_peer peer (l1 ++ l2) = to_peer peer l1 ++ to_peer peer l2.
Proof. apply omap_app. Qed.
Lemma frames_to_peer peers rpc peer q : to_peer q (frames_to peers rpc peer) = if decide (peer = q) then frame_for peers rpc q else [].
Proof.
  unfold frames_to, frame_for. case_decide as Hq; [subst|]; destruct (dget _ _) as [ps|]; try done;
    destruct (frame rpc); destruct (ps_outbound_stream ps); cbn; try done; by case_decide.
Qed.
Lemma to_peer_bind (out : PeerId -> list (PeerId * bytes)) (r : list bytes) q l :
  (forall x, to_peer q (out x) = if decide (x = q) then r else []) -> NoDup l ->
  to_peer q (l ≫= out) = if decide (q ∈ l) then r else [].
Proof.
  intros Ho Hn. induction Hn as [|x l Hx Hn IH]; [by rewrite decide_False by apply not_elem_of_nil|].
  cbn [mbind list_bind]. rewrite to_peer_app, Ho. change (list_bind _ _ out l) with (l ≫= out). rewrite IH. destruct (decide (x = q)) as [->|Hne].
  - rewrite (decide_False (P := q ∈ l)), decide_True by (done || left). apply app_nil_r.
  - cbn [app]. destruct (decide (q ∈ l)) as [Hi|Hi]; [by rewrite decide_True by (by right)|].
    rewrite decide_False; [done|]. intros [->|?]%elem_of_cons; done.
Qed.

Lemma set_iter_NoDup `{SetOrder} l : NoDup l -> NoDup (set_iter l).
Proof. by rewrite set_iter_perm. Qed.

(** The frames an accepted message causes for one peer *)
Definition forwarded_to (sender : PeerId) (m : Message) (s : GossipsubBehavior) (peer : PeerId) : list bytes :=
  let id := message_id_of m in
  if decide (peer ∈ get_mesh_peers (ms_topic m) (gs_mesh s) /\ peer <> sender) then
    (if decide (wants sender id (gs_peers s) peer) then frame_for (gs_peers s) (publish_rpc [m]) peer else []) ++
    (if Zlen (ms_data m) >=? IDONTWANT_SIZE_THRESHOLD then frame_for (gs_peers s) (idontwant_rpc id) peer else [])
  else [].

Lemma forwards_to_peer `{SetOrder} sender m (s : GossipsubBehavior) q :
  NoDup (get_mesh_peers (ms_topic m) (gs_mesh s)) ->
  to_peer q (forwards sender m (message_id_of m) (gs_peers s) (set_iter (get_mesh_peers (ms_topic m) (gs_mesh s)))) =
    forwarded_to sender m s q.
Proof.
  intros Hn%set_iter_NoDup. unfold forwards, forwarded_to. set (id := message_id_of m). set (mesh := get_mesh_peers _ _).
  rewrite to_peer_app.
  rewrite (to_peer_bind _ (if decide (wants sender id (gs_peers s) q) then frame_for (gs_peers s) (publish_rpc [m]) q else [])); [| |exact Hn].
  2: { intros x. destruct (decide (x = q)) as [->|Hne]; case_decide; try done; rewrite frames_to_peer; by case_decide. }
  assert (forall l : list PeerId, l = set_iter mesh -> to_peer q (l ≫= fun peer => if decide (peer = sender) then [] else frames_to (gs_peers s) (idontwant_rpc id) peer) =
    if decide (q ∈ l) then (if decide (q = sender) then [] else frame_for (gs_peers s) (idontwant_rpc id) q) else []) as Hi.
  { intros l ->. apply to_peer_bind; [|done]. intros x. destruct (decide (x = q)) as [->|Hne]; case_decide; try done; rewrite frames_to_peer; by case_decide. }
  assert (q ∈ set_iter mesh <-> q ∈ mesh) as Hin by (by rewrite set_iter_perm).
  destruct (Zlen (ms_data m) >=? _); [rewrite (Hi _ eq_refl)|change (to_peer q []) with (@nil bytes)].
  all: destruct (decide (q ∈ set_iter mesh)) as [Hq|Hq]; [|by rewrite decide_False by (intros [? _]; tauto)].
  all: destruct (decide (q = sender)) as [->|Hne];
    [rewrite !decide_False by (unfold wants; tauto); done|by rewrite (decide_True (P := _ /\ _)) by tauto].
Qed.

(** ** Retransmissions *)

(** The messages a frame carries *)
Definition published (f : bytes) : list Message :=
  match decode_varint f 0 VARINT_MAX_BYTES with
  | Ok (_, n) => match RPC_decode (drop (Z.to_nat n) f) with Ok r => rpc_publish r | Err _ => [] end
  | Err _ => []
  end.
(** How many of the messages have the id *)
Definition occurrences (id : MessageId) (ms : list Message) : Z := Zlen (filter (fun m => message_id_of m = id) ms).
Definition copies (id : MessageId) (fs : list bytes) : Z := occurrences id (fs ≫= published).

Lemma published_frame r f : rpc_ok r -> frame r = Ok f -> published f = rpc_publish r.
Proof.
  intros Hr Ef. unfold frame in Ef. apply bind_Ok in Ef as (payload & Ep & Ef). apply bind_Ok in Ef as (prefix & Ev & [= <-]).
  unfold published. pose proof (decode_encode_varint _ VARINT_MAX_BYTES _ [] payload ltac:(done) Ev) as Hd. cbn [app] in Hd.
  change (Zlen []) with 0 in Hd. rewrite Hd, Nat2Z.id, drop_app_length. by rewrite (RPC_reads r payload Hr Ep).
Qed.
Lemma occurrences_app id l1 l2 : occurrences id (l1 ++ l2) = occurrences id l1 + occurrences id l2.
Proof. unfold occurrences. rewrite filter_app, length_app. lia. Qed.
Lemma copies_app id l1 l2 : copies id (l1 ++ l2) = copies id l1 + copies id l2.
Proof. unfold copies. by rewrite bind_app, occurrences_app. Qed.
Lemma copies_frame id peers r q : rpc_ok r -> copies id (frame_for peers r q) <= occurrences id (rpc_publish r).
Proof.
  intros Hr. unfold frame_for. assert (0 <= occurrences id (rpc_publish r)) by (unfold occurrences; lia).
  destruct (dget q peers) as [ps|]; [|done]. destruct (frame r) as [f|] eqn:E; [|done]. destruct (ps_outbound_stream ps); [|done].
  unfold copies. cbn. by rewrite (published_frame r f Hr E), app_nil_r.
Qed.

Create HintDb calm.
Section Retransmissions.
Context `{Environment} `{SetOrder} (q : PeerId) (id : MessageId).

(** How often the message may still be served to the peer *)
Definition allowance (s : GossipsubBehavior) : Z :=
  match dget q (gs_peers s) with
  | Some ps => Z.max 0 (GOSSIP_RETRANSMISSION - default 0 (dget id (ps_iwant_served_counts ps)))
  | None => 0
  end.
(** It does not grow, and what was written stays. *)
Definition settled (s s' : GossipsubBehavior) : Prop := allowance s' <= allowance s /\ gs_written s `prefix_of` gs_written s'.
Definition calm {A} (m : M GossipsubBehavior A) : Prop := forall s, settled s (m s).2.

#[local] Instance settled_preorder : PreOrder settled.
Proof. split; [by intros s|]. intros s1 s2 s3 [H1 H2] [H3 H4]. split; [lia|by etrans]. Qed.
Lemma settled_same s s' : gs_peers s' = gs_peers s -> gs_written s' = gs_written s -> settled s s'.
Proof. intros Hp Hw. unfold settled, allowance. by rewrite Hp, Hw. Qed.

Lemma calm_bind {A B} (m : M GossipsubBehavior A) (k : A -> M GossipsubBehavior B) :
  calm m -> (forall a, calm (k a)) -> calm (m ≫= k).
Proof.
  intros Hm Hk s. specialize (Hm s). unfold mbind, M_bind. destruct (m s) as [[a|e] s']; [|exact Hm]. etrans; [exact Hm|apply Hk].
Qed.
Lemma calm_ret {A} (a : A) : calm (mret a). Proof. by intros s. Qed.
Lemma calm_gets {A} (f : GossipsubBehavior -> A) : calm (gets f). Proof. by intros s. Qed.
Lemma calm_raising {A} (r : result A) : calm (raising r). Proof. by intros s. Qed.
Lemma calm_time : calm read_time. Proof. by intros s. Qed.
Lemma calm_sample : calm next_sample. Proof. by intros s. Qed.
Lemma calm_modify f : (forall s, gs_peers (f s) = gs_peers s) -> (forall s, gs_written (f s) = gs_written s) -> calm (modify f).
Proof. intros Hf Hw s. apply settled_same; [apply Hf|apply Hw]. Qed.
Lemma calm_for_each {A} (l : list A) body : (forall x, calm (body x)) -> calm (for_each l body).
Proof. intros Hb. induction l; cbn [for_each]; [apply calm_ret|by apply calm_bind]. Qed.
Lemma calm_catch {A} (m : M GossipsubBehavior A) h : calm m -> (forall e, calm (h e)) -> calm (catch m h).
Proof.
  intros Hm Hh s. specialize (Hm s). unfold catch. destruct (m s) as [[a|e] s']; [exact Hm|]. etrans; [exact Hm|apply Hh].
Qed.
Lemma calm_send peer rpc : calm (_send_rpc peer rpc).
Proof. intros s. rewrite send_effect. split; [done|]. by eexists. Qed.
Lemma calm_on_peer r f : (forall ps, ps_iwant_served_counts (f ps) = ps_iwant_served_counts ps) -> calm (modify (on_peer r f)).
Proof.
  intros Hf s. split; [|done]. unfold allowance, on_peer, on_peers. cbn. destruct (dget r (gs_peers s)) as [ps|] eqn:E; [|done]. rewrite dget_dset.
  case_decide as Hq; [subst|done]. by rewrite E, Hf.
Qed.
Lemma calm_drop_peer r : calm (modify (on_peers (ddel r))).
Proof. intros s. split; [|done]. unfold allowance. cbn. rewrite dget_ddel. case_decide; [|done]. destruct (dget q (gs_peers s)); lia. Qed.
Lemma calm_new_peer r ps : r <> q -> calm (modify (on_peers (dset r ps))).
Proof. intros Hr s. split; [|done]. unfold allowance. cbn. by rewrite dget_dset, decide_False by congruence. Qed.
#[local] Hint Resolve calm_ret calm_gets calm_raising calm_time calm_sample calm_send calm_drop_peer : calm.

(** Splits a method into its steps. *)
Ltac calm_steps := repeat first
  [ progress intros | solve [eauto with calm] | apply calm_bind | apply calm_for_each | apply calm_catch
  | solve [apply calm_modify; done] | solve [apply calm_on_peer; done]
  | match goal with |- calm (match ?x with _ => _ end) => destruct x end ].

Lemma calm_record t data i : calm (record_message t data i). Proof. unfold record_message. calm_steps. Qed.
Lemma calm_subscribe t : calm (subscribe t). Proof. unfold subscribe, spawn. calm_steps. Qed.
Lemma calm_unsubscribe t : calm (unsubscribe t). Proof. unfold unsubscribe, spawn. calm_steps. Qed.
Lemma calm_remove_peer r : calm (remove_peer r). Proof. unfold remove_peer, get_peer. calm_steps. Qed.
#[local] Hint Resolve calm_record calm_remove_peer : calm.
Lemma calm_stop : calm stop. Proof. unfold stop. calm_steps. Qed.
Lemma calm_task : calm run_background_task. Proof. unfold run_background_task, _broadcast_subscription. calm_steps. Qed.
Lemma calm_add_peer r inbound : r <> q -> calm (add_peer r inbound).
Proof. intros Hr. pose proof (fun ps => calm_new_peer r ps Hr). unfold add_peer, get_peer. calm_steps. Qed.
Lemma calm_publish t data : calm (publish t data). Proof. unfold publish. calm_steps. Qed.
Lemma calm_subscription r sub : calm (_handle_subscription r sub). Proof. unfold _handle_subscription, get_peer. calm_steps. Qed.
Lemma calm_message r m : calm (_handle_message r m). Proof. unfold _handle_message, forward_message, get_peer. calm_steps. Qed.
Lemma calm_graft r g : calm (_handle_graft r g). Proof. unfold _handle_graft, _reject_graft, get_peer. calm_steps. Qed.
Lemma calm_prune r x : calm (_handle_prune r x). Proof. unfold _handle_prune, get_peer. calm_steps. Qed.
Lemma calm_ihave r x : calm (_handle_ihave r x). Proof. unfold _handle_ihave. calm_steps. Qed.
Lemma calm_idontwant r x : calm (_handle_idontwant r x). Proof. unfold _handle_idontwant. calm_steps. Qed.

(** Serving one message takes one from the allowance. *)
Lemma serve_one r i s :
  served_count r i s < GOSSIP_RETRANSMISSION -> is_Some (dget r (gs_peers s)) ->
  allowance (on_peer r (with_served (dset i (served_count r i s + 1))) s) =
    allowance s - (if decide (r = q /\ i = id) then 1 else 0).
Proof.
  intros Hlt [ps E]. unfold allowance, on_peer, on_peers, served_count in *. cbn. rewrite E in *. rewrite dget_dset.
  destruct (decide (q = r)) as [<-|Hr]; [|rewrite decide_False by (by intros [-> _]); lia].
  rewrite E. cbn. rewrite dget_dset. destruct (decide (id = i)) as [<-|Hi]; [|rewrite decide_False by (by intros [_ ->]); lia].
  rewrite decide_True by done. cbn. lia.
Qed.

(** What is served is taken from the allowance. *)
Lemma serve_messages_cost r ids : forall messages s,
  cache_good (gs_message_cache s) -> is_Some (dget r (gs_peers s)) ->
  match serve_messages r ids messages s with
  | (Ok ms, s') => gs_written s' = gs_written s /\ allowance s' <= allowance s /\
      (r = q -> occurrences id ms + allowance s' <= occurrences id messages + allowance s)
  | (Err _, _) => False
  end.
Proof.
  induction ids as [|i ids IH]; intros messages s Hc Hr; cbn [serve_messages]; [split_and!; [done|done|lia]|].
  destruct (negb _); [by apply IH|]. rewrite run_gets.
  destruct (Z.leb_spec GOSSIP_RETRANSMISSION (served_count r i s)) as [|Hlt]; [by apply IH|]. rewrite run_gets.
  destruct (mcache_get i (gs_message_cache s)) as [m|] eqn:Em; [|by apply IH].
  unfold mcache_get in Em. apply fmap_Some in Em as (e & Ee & ->). pose proof (cg_ids _ Hc i e Ee) as Hi.
  rewrite (decode_utf8_valid _ (cg_topics _ Hc i e Ee)), run_raising, run_modify.
  pose proof (serve_one r i s Hlt Hr) as Ha. set (s1 := on_peer r _ s) in *.
  assert (is_Some (dget r (gs_peers s1))) as Hr1.
  { subst s1. unfold on_peer, on_peers. cbn. destruct Hr as [ps E]. rewrite E, dget_dset_eq. eauto. }
  specialize (IH (messages ++ [topic_message (gm_topic (ce_message e)) (gm_raw_data (ce_message e))]) s1 Hc Hr1).
  destruct (serve_messages r ids _ s1) as [[ms|] s']; [|done]. destruct IH as (Hw & Hle & Hq). split_and!; [done| |].
  - destruct (decide (r = q /\ i = id)); lia.
  - intros ->. specialize (Hq eq_refl). rewrite occurrences_app in Hq. unfold occurrences at 3 in Hq. rewrite filter_cons, Hi in Hq.
    destruct (decide (i = id)) as [->|Hne]; [rewrite decide_True in Ha by done|rewrite decide_False in Ha by tauto]; cbn in Hq; lia.
Qed.

Lemma calm_iwant r x s : cache_good (gs_message_cache s) -> settled s (_handle_iwant r x s).2.
Proof.
  intros Hc. unfold _handle_iwant, get_peer. rewrite run_gets. destruct (dget r (gs_peers s)) as [ps|] eqn:E; [|done].
  pose proof (serve_messages_cost r (take (Z.to_nat MAX_IWANT_MESSAGE_IDS_PER_REQUEST) (iw_message_ids x)) [] s Hc ltac:(eauto)) as Hs.
  unfold mbind, M_bind. destruct (serve_messages _ _ _ _) as [[ms|] s']; [|done]. destruct Hs as (Hw & Hle & _).
  etrans; [split; [exact Hle|by rewrite Hw]|]. destruct (_ =? 0); [done|]. apply calm_send.
Qed.

Context (p : GossipsubParameters).

(** The copies written to the peer, with those still allowed *)
Definition cost (s : GossipsubBehavior) : Z := copies id (to_peer q (gs_written s)) + allowance s.
(** What is done with bytes of the peer [r]: the allowance does not grow, and if [r] is
    the peer, what is written to it is taken from the allowance. *)
Definition pays (r : PeerId) {A} (m : M GossipsubBehavior A) : Prop :=
  forall s, gossip_inv p 0 s -> settled s (m s).2 /\ (r = q -> cost (m s).2 <= cost s).

Lemma pays_bind {A B} r (m : M GossipsubBehavior A) (k : A -> M GossipsubBehavior B) :
  safe p 0 m -> pays r m -> (forall a, pays r (k a)) -> pays r (m ≫= k).
Proof.
  intros Hs Hm Hk s Hi. specialize (Hm s Hi). specialize (Hs s Hi). unfold mbind, M_bind. destruct (m s) as [[a|e] s']; [|done].
  destruct (Hk a s' Hs) as [H1 H2], Hm as [H3 H4]. split; [by etrans|]. intros Hr. specialize (H2 Hr). specialize (H4 Hr). cbn in *. lia.
Qed.
Lemma pays_for_each {A} r (l : list A) body :
  (forall x, x ∈ l -> safe p 0 (body x) /\ pays r (body x)) -> pays r (for_each l body).
Proof.
  induction l as [|x l IH]; intros Hb; cbn [for_each]; [by intros s|]. destruct (Hb x) as [H1 H2]; [by left|].
  apply pays_bind; [done|done|]. intros _. apply IH. intros y Hy. apply Hb. by right.
Qed.
(** A step that writes nothing to the peer *)
Lemma pays_silent r {A} (m : M GossipsubBehavior A) :
  calm m -> (r = q -> forall s, gossip_inv p 0 s -> to_peer q (gs_written (m s).2) = to_peer q (gs_written s)) -> pays r m.
Proof. intros Hm Hw s Hi. split; [apply Hm|]. intros Hr. unfold cost. rewrite (Hw Hr s Hi). destruct (Hm s). lia. Qed.
(** A step that writes an RPC without messages *)
Lemma pays_send r x rpc : rpc_ok rpc -> rpc_publish rpc = [] -> pays r (_send_rpc x rpc).
Proof.
  intros Hr Hp s Hi. split; [apply calm_send|]. rewrite send_effect. intros ->. unfold cost. cbn [snd gs_written with_written]. rewrite to_peer_app, copies_app, frames_to_peer.
  change (allowance (with_written _ s)) with (allowance s). case_decide; [|change (copies id []) with 0; lia].
  pose proof (copies_frame id (gs_peers s) rpc q Hr) as Hc. rewrite Hp in Hc. change (occurrences id []) with 0 in Hc. lia.
Qed.

Lemma pays_ret r {A} (a : A) : pays r (mret a). Proof. by intros s. Qed.
Lemma pays_gets r {A} (f : GossipsubBehavior -> A) : pays r (gets f). Proof. by intros s. Qed.
Lemma safe_gets {A} (f : GossipsubBehavior -> A) : safe p 0 (gets f). Proof. apply keeps_safe, keeps_gets. Qed.
#[local] Hint Resolve pays_ret pays_gets safe_gets : calm.

(** Forwarding skips the sender. *)
Lemma forwards_skip_sender m i peers mesh : to_peer q (forwards q m i peers mesh) = [].
Proof.
  unfold forwards. rewrite to_peer_app.
  assert (forall out : PeerId -> list (PeerId * bytes), (forall x, to_peer q (out x) = []) -> to_peer q (mesh ≫= out) = []) as Hb.
  { intros out Ho. induction mesh as [|x l IH]; [done|]. cbn [mbind list_bind]. by rewrite to_peer_app, Ho, IH. }
  rewrite Hb.
  - destruct (_ >=? _); [|done]. rewrite Hb; [done|]. intros x. case_decide as Hx; [done|]. by rewrite frames_to_peer, decide_False.
  - intros x. case_decide as Hx; [|done]. rewrite frames_to_peer, decide_False; [done|]. by destruct Hx.
Qed.

Lemma pays_message r m : utf8_valid (ms_topic m) = true -> pays r (_handle_message r m).
Proof.
  intros Hu. apply pays_silent; [apply calm_message|]. intros -> s Hs.
  destruct (decide (dropped m s)) as [Hd|Hd]; [by rewrite handle_message_dropped|].
  destruct (handle_message_new p 0 q m s Hu Hs Hd) as (s1 & _ & _ & _ & _ & _ & _ & _ & Ew & ->).
  cbn [snd gs_written put_event with_written]. by rewrite to_peer_app, forwards_skip_sender, app_nil_r, Ew.
Qed.

Lemma pays_graft r g : pays r (_handle_graft r g).
Proof.
  unfold _handle_graft, _reject_graft, get_peer. set (t := cg_topic_id g). intros s Hs. rewrite run_gets.
  destruct (subscribed t (gs_mesh s)) eqn:Es; [|done]. cbn [negb].
  assert (utf8_valid t = true) as Ht by (by eapply mesh_topic; [apply Hs|]). revert s Hs Es.
  assert (pays r (_send_rpc r (prune_rpc t))) as Hp by (apply pays_send; [by apply prune_ok|done]).
  enough (pays r (state ← gets (fun s => dget r (gs_peers s));
    rejected ← match state with Some ps => now ← read_time; mret (in_backoff now t ps) | None => mret false end;
    if rejected : bool then _send_rpc r (prune_rpc t)
    else full ← gets (fun s => gp_d_high (gs_params s) <=? Zlen (get_mesh_peers t (gs_mesh s)));
      if full : bool then _send_rpc r (prune_rpc t) else modify (on_mesh (fun mesh => (add_to_mesh t r mesh).2)))) as Hk.
  { intros s Hs _. by apply Hk. }
  apply pays_bind; [eauto with calm..|]. intros state. apply pays_bind.
  - destruct state; [|apply keeps_safe, keeps_ret]. apply safe_bind; [apply keeps_safe, keeps_time|]. intros. apply keeps_safe, keeps_ret.
  - by destruct state; intros s.
  - intros [|]; [done|]. apply pays_bind; [eauto with calm..|]. intros [|]; [done|]. by intros s.
Qed.

Lemma pays_ihave r x : pays r (_handle_ihave r x).
Proof.
  apply pays_bind; [eauto with calm..|]. intros wanted. destruct (_ =? 0); [apply pays_ret|]. apply pays_send; [|done].
  split; cbn; [constructor..|]. intros c [= <-]. by split.
Qed.

Lemma pays_iwant r x : pays r (_handle_iwant r x).
Proof.
  intros s Hs. pose proof (gi_cache _ _ _ Hs) as Hc. split; [by apply calm_iwant|]. intros ->.
  pose proof (serve_messages_ok p 0 q (take (Z.to_nat MAX_IWANT_MESSAGE_IDS_PER_REQUEST) (iw_message_ids x)) [] _ (Forall_nil_2 _) s (conj Hs eq_refl)) as Hu.
  unfold _handle_iwant, get_peer. rewrite run_gets. destruct (dget q (gs_peers s)) as [ps|] eqn:E; [|done].
  pose proof (serve_messages_cost q (take (Z.to_nat MAX_IWANT_MESSAGE_IDS_PER_REQUEST) (iw_message_ids x)) [] s Hc ltac:(eauto)) as Hm.
  unfold mbind, M_bind. destruct (serve_messages _ _ _ _) as [[ms|] s']; [|done]. destruct Hm as (Hw & Hle & Hq), Hu as [_ Hu]. specialize (Hq eq_refl).
  change (occurrences id []) with 0 in Hq. destruct (Z.eqb_spec (Zlen ms) 0) as [Hn|Hn]; [unfold cost, occurrences in *; cbn [snd mret M_ret]; rewrite Hw; lia|].
  rewrite send_effect. unfold cost. cbn [snd gs_written with_written]. rewrite to_peer_app, copies_app, frames_to_peer, decide_True, Hw by done.
  pose proof (copies_frame id (gs_peers s') (publish_rpc ms) q (publish_ok _ Hu)) as Hf. cbn [publish_rpc rpc_publish] in Hf.
  change (allowance (with_written _ s')) with (allowance s'). lia.
Qed.

Lemma pays_control r c : pays r (_handle_control r c).
Proof.
  apply pays_bind; [unfold get_peer; eauto with calm..|]. intros [ps|]; [|apply pays_ret].
  apply pays_bind; [apply keeps_safe, keeps_for_each; intros; apply handle_graft_keeps| |intros _].
  { apply pays_for_each. intros g _. split; [apply keeps_safe, handle_graft_keeps|apply pays_graft]. }
  apply pays_bind; [apply keeps_safe, keeps_for_each; intros; apply handle_prune_keeps| |intros _].
  { apply pays_for_each. intros g _. split; [apply keeps_safe, handle_prune_keeps|]. apply pays_silent; [apply calm_prune|].
    intros _ s _. unfold _handle_prune, get_peer. rewrite run_gets, run_modify. destruct (dget r (gs_peers s)); [|done]. by destruct (_ <? _). }
  apply pays_bind; [apply keeps_safe, keeps_for_each; intros; apply handle_ihave_keeps| |intros _].
  { apply pays_for_each. intros g _. split; [apply keeps_safe, handle_ihave_keeps|apply pays_ihave]. }
  apply pays_bind; [apply keeps_safe, keeps_for_each; intros; apply handle_iwant_keeps| |intros _].
  { apply pays_for_each. intros g _. split; [apply keeps_safe, handle_iwant_keeps|apply pays_iwant]. }
  apply pays_for_each. intros g _. split; [by apply keeps_safe, keeps_on_peer|]. apply pays_silent; [apply calm_idontwant|done].
Qed.

Lemma pays_rpc r rpc : rpc_ok rpc -> pays r (_handle_rpc r rpc).
Proof.
  intros [H1 H2 H3]. apply pays_bind; [unfold get_peer; eauto with calm..|]. intros [ps|]; [|apply pays_ret].
  apply pays_bind; [apply keeps_safe, keeps_for_each; intros; apply handle_subscription_keeps| |intros _].
  { apply pays_for_each. intros sub _. split; [apply keeps_safe, handle_subscription_keeps|]. apply pays_silent; [apply calm_subscription|].
    intros _ s _. unfold _handle_subscription, get_peer. rewrite run_gets. destruct (dget r (gs_peers s)); [|done]. by destruct (so_subscribe sub). }
  rewrite Forall_forall in H2.
  apply pays_bind; [apply keeps_safe, keeps_for_each; intros m Hm; by apply handle_message_keeps, H2| |intros _].
  { apply pays_for_each. intros m Hm. split; [by apply keeps_safe, handle_message_keeps, H2|by apply pays_message, H2]. }
  destruct (rpc_control rpc); [apply pays_control|apply pays_ret].
Qed.

Lemma pays_catch r {A} (m : M GossipsubBehavior A) h :
  pays r m -> (forall e s, calm (h e) /\ gs_written (h e s).2 = gs_written s) -> pays r (catch m h).
Proof.
  intros Hm Hh s Hi. destruct (Hm s Hi) as [H1 H2]. unfold catch. destruct (m s) as [[a|e] s'] eqn:E; [done|].
  destruct (Hh e s') as [H3 H4]. specialize (H3 s'). split; [by etrans|]. intros Hr. specialize (H2 Hr). unfold cost in *. rewrite H4. destruct H3. cbn in *. lia.
Qed.

Lemma pays_drain r fuel : forall buffer, pays r (drain_frames fuel r buffer).
Proof.
  induction fuel as [|fuel IH]; intros [|b buffer]; cbn [drain_frames]; try (by intros s).
  destruct (decode_varint _ _ _) as [[v n]|]; [|apply pays_ret]. destruct (v >? _); [by intros s|]. destruct (_ <? _); [apply pays_ret|].
  apply pays_bind; [apply keeps_safe, handle_frame_keeps| |intros _; apply IH]. apply pays_catch; [|by intros e s].
  intros s Hs. pose proof (RPC_decode_cases (slice (b :: buffer) n (n + v))) as Hd.
  destruct (RPC_decode _) as [rpc|e]; [|done]. rewrite run_raising. by apply (pays_rpc r rpc Hd).
Qed.

Lemma remove_peer_written r s : gs_written (remove_peer r s).2 = gs_written s.
Proof.
  unfold remove_peer, get_peer. rewrite run_gets. destruct (dget r (gs_peers s)); [|done]. rewrite run_modify, run_gets.
  change (gs_written s) with (gs_written (on_peers (ddel r) s)). generalize (on_peers (ddel r) s) as s'.
  intros s'. generalize (set_iter (me_subscriptions (gs_mesh s'))) as l. intros l. revert s'.
  induction l as [|t l IH]; intros s'; [done|]. cbn [for_each]. rewrite run_modify. by rewrite IH.
Qed.

Lemma pays_receive r buffer chunk : pays r (_ ← receive_chunk r buffer chunk; mret tt).
Proof.
  apply pays_bind; [apply receive_chunk_safe| |intros _; apply pays_ret].
  assert (forall s, calm (_ ← remove_peer r; mret (@None bytes)) /\ gs_written ((_ ← remove_peer r; mret (@None bytes)) s).2 = gs_written s) as Hrm.
  { intros s. split; [apply calm_bind; [apply calm_remove_peer|intros; apply calm_ret]|]. rewrite <- (remove_peer_written r s).
    unfold mbind, M_bind. by destruct (remove_peer r s) as [[u|e] s']. }
  apply pays_bind; [unfold get_peer; eauto with calm..|]. intros [ps|]; [|apply pays_ret]. destruct chunk as [|b chunk].
  - apply pays_silent; [apply Hrm; exact (new_behavior p)|]. intros _ s _. by rewrite (proj2 (Hrm s)).
  - apply pays_catch; [|intros e s; apply Hrm]. intros s Hs. pose proof (pays_drain r (length (buffer ++ b :: chunk)) (buffer ++ b :: chunk) s Hs) as Hd.
    unfold mbind, M_bind. by destruct (drain_frames _ _ _ s) as [[rest|e] s'].
Qed.

(** What is written to the peer in answer to what is received from it *)
Definition reply (op : gossip_op) (s s' : GossipsubBehavior) : list bytes :=
  match op with
  | Receive r _ _ => if decide (r = q) then to_peer q (drop (length (gs_written s)) (gs_written s')) else []
  | _ => []
  end.
Fixpoint replies (ops : list gossip_op) (s : GossipsubBehavior) : list bytes :=
  match ops with
  | [] => []
  | op :: ops => let s' := (gossip_step op s).2 in reply op s s' ++ replies ops s'
  end.

(** Neither a heartbeat nor a new connection of the peer, which start the counts afresh *)
Definition between_heartbeats (op : gossip_op) : Prop :=
  match op with Heartbeat => False | AddPeer r _ => r <> q | _ => True end.

Context (Hp : params_ok p).

Lemma step_pays op s :
  op_ok op -> between_heartbeats op -> gossip_inv p 0 s ->
  copies id (reply op s (gossip_step op s).2) + allowance (gossip_step op s).2 <= allowance s.
Proof.
  intros Ho Hb Hs. destruct op; cbn [gossip_step reply between_heartbeats] in *; change (copies id []) with 0; rewrite ?Z.add_0_l.
  - apply calm_subscribe.
  - apply calm_unsubscribe.
  - by apply calm_modify.
  - apply calm_stop.
  - by apply calm_add_peer.
  - apply calm_remove_peer.
  - apply calm_publish.
  - destruct (pays_receive peer buffer chunk s Hs) as [H1 H2]. case_decide as Hq; [|apply H1]. specialize (H2 Hq). subst peer. unfold cost in H2.
    destruct H1 as [_ [l Hl]]. rewrite Hl, drop_app_length in *. rewrite to_peer_app, copies_app in H2. lia.
  - done.
  - apply calm_task.
Qed.

Lemma replies_bounded ops : forall s,
  Forall op_ok ops -> Forall between_heartbeats ops -> gossip_inv p 0 s -> copies id (replies ops s) <= allowance s.
Proof.
  induction ops as [|op ops IH]; intros s Ho Hb Hs; cbn [replies]; [unfold allowance; change (copies id []) with 0; destruct (dget q (gs_peers s)); lia|].
  apply Forall_cons in Ho as [Ho Hos], Hb as [Hb Hbs]. pose proof (step_pays op s Ho Hb Hs) as Hstep.
  pose proof (gossip_step_safe p Hp 0 op Ho s Hs) as Hsafe. destruct (gossip_step op s) as [[[]|e] s']; [|done].
  specialize (IH s' Hos Hbs Hsafe). rewrite copies_app. cbn in *. lia.
Qed.

Lemma allowance_bounded s : gossip_inv p 0 s -> allowance s <= GOSSIP_RETRANSMISSION.
Proof.
  intros Hs. unfold allowance. destruct (dget q (gs_peers s)) as [ps|] eqn:E; [|done]. pose proof (gi_served _ _ _ Hs q ps E id) as Hc.
  destruct (dget id (ps_iwant_served_counts ps)) as [c|]; cbn; [specialize (Hc c eq_refl)|]; unfold GOSSIP_RETRANSMISSION in *; lia.
Qed.
End Retransmissions.

(** A received message that is new, of a subscribed topic and not too large when
    decompressed is delivered once, as one event, and sent once to every other peer of the
    mesh that has a stream and has not declined it, followed by an IDONTWANT if it is large;
    nothing goes to the sender or outside the mesh.  Any other message changes nothing, and
    the same message received again is such a message. *)
Theorem message_forwarding `{Environment} `{SetOrder} (p : GossipsubParameters) (s : GossipsubBehavior) (sender : PeerId) (m : Message) :
  params_ok p -> reachable p s -> utf8_valid (ms_topic m) = true ->
  exists s', _handle_message sender m s = (Ok tt, s') /\
    if decide (dropped m s) then s' = s
    else
      gs_event_queue s' = gs_event_queue s ++ [GossipsubMessageEvent sender (ms_topic m) (contents m) (message_id_of m)] /\
      (forall peer, to_peer peer (gs_written s') = to_peer peer (gs_written s) ++ forwarded_to sender m s peer) /\
      gs_peers s' = gs_peers s /\ gs_mesh s' = gs_mesh s /\ dropped m s'.
Proof.
  intros Hp Hr Hu. pose proof (gossip_reachable_inv p Hp 0 s Hr) as Hs. case_decide as Hd.
  { exists s. split; [by apply handle_message_dropped|done]. }
  destruct (handle_message_new p 0 sender m s Hu Hs Hd) as (s1 & _ & Hs1 & _ & Hse & Ep & Em & Eq & Ew & E).
  eexists. split; [exact E|]. cbn [gs_event_queue gs_written gs_peers gs_mesh put_event with_written]. rewrite Eq, Ew. split_and!; [done| |done|done|].
  - intros peer. rewrite to_peer_app. f_equal. apply forwards_to_peer. by apply (mesh_peers_ok p Hp), (mg_inv _ _ (gi_mesh _ _ _ Hs)).
  - right. right. by right.
Qed.

(** The heartbeat grows the mesh of a topic that has fewer than [d_low] peers to [d], or
    by every eligible peer if there are fewer, grafting only peers that subscribe to the
    topic, have a stream, are not yet in the mesh and are not in backoff; a mesh of at
    least [d_low] peers is left as it is. *)
Theorem mesh_maintenance `{Environment} `{SetOrder} (p : GossipsubParameters) (s : GossipsubBehavior) (t : TopicId) (now : Z) :
  params_ok p -> reachable p s -> subscribed t (gs_mesh s) = true ->
  let mesh := get_mesh_peers t (gs_mesh s) in
  let eligible := eligible_peers t now mesh (gs_peers s) in
  exists s' grafted, _maintain_mesh t now s = (Ok tt, s') /\ get_mesh_peers t (gs_mesh s') = mesh ++ grafted /\ grafted ⊆+ eligible /\
    Zlen grafted = (if Zlen mesh <? gp_d_low p then Z.min (gp_d p - Zlen mesh) (Zlen eligible) else 0).
Proof.
  intros Hp Hr Hsub. pose proof (gossip_reachable_inv p Hp 0 s Hr) as Hs.
  assert (utf8_valid t = true) as Ht by (by eapply mesh_topic; [apply Hs|]).
  destruct (maintain_mesh_ok p Hp 0 t now s Ht Hs) as (s' & l & E & _ & _ & Hsu & Hl & Hm). exists s', l. split_and!; auto.
Qed.

(** ** Framing *)
Lemma varint_loop_more fuel data more offset max_bytes : forall decoded shift pos r,
  0 <= pos -> varint_loop fuel data offset max_bytes decoded shift pos = Ok r ->
  varint_loop fuel (data ++ more) offset max_bytes decoded shift pos = Ok r.
Proof.
  induction fuel as [|fuel IH]; intros decoded shift pos r Hp; cbn [varint_loop]; [done|].
  destruct (Z.leb_spec (Zlen data) pos) as [|Hlt]; cbn [negb]; [done|]. rewrite (proj2 (Z.leb_gt (Zlen (data ++ more)) pos)) by (rewrite length_app; lia). cbn [negb].
  unfold byte_at. rewrite lookup_app_l by lia. destruct (of_option _ _); mcbn; [|done].
  destruct (_ =? 0); [done|]. destruct (_ <=? _); [done|]. apply IH. lia.
Qed.

(** A frame the receiver accepts *)
Definition framed (r : RPC) (f : bytes) : Prop :=
  rpc_ok r /\ frame r = Ok f /\ exists payload, RPC_encode r = Ok payload /\ Zlen payload <= MAX_PAYLOAD_SIZE.

Lemma framed_decode r f rest : framed r f ->
  exists payload n, decode_varint (f ++ rest) 0 VARINT_MAX_BYTES = Ok (Zlen payload, n) /\ Zlen payload <= MAX_PAYLOAD_SIZE /\
    Zlen f = n + Zlen payload /\ 1 <= n /\ slice (f ++ rest) n (n + Zlen payload) = payload /\ RPC_decode payload = Ok (normal_rpc r).
Proof.
  intros (Hr & Ef & payload & Ep & Hl). unfold frame in Ef. rewrite Ep in Ef. mcbn_in Ef.
  apply bind_Ok in Ef as (prefix & Ev & Ef); injection Ef as <-. exists payload, (Zlen prefix).
  pose proof (encode_varint_length _ VARINT_MAX_BYTES _ ltac:(done) Ev) as Hn. rewrite <- app_assoc.
  pose proof (decode_encode_varint _ VARINT_MAX_BYTES _ [] (payload ++ rest) ltac:(done) Ev) as Hd.
  split_and!; [exact Hd|done|by rewrite Zlen_app|lia|by apply slice_middle|by apply RPC_reads].
Qed.

Section Framing.
Context `{Environment} `{SetOrder} (p : GossipsubParameters) (Hp : params_ok p) (q : PeerId).

Abbreviation handle_all rs := (for_each (map normal_rpc rs) (_handle_rpc q)).

(** A proper prefix of a frame waits for more. *)
Lemma drain_incomplete fuel r buffer more s :
  framed r (buffer ++ more) -> more <> [] -> (length buffer <= fuel)%nat -> drain_frames fuel q buffer s = (Ok buffer, s).
Proof.
  intros Hf Hm Hl. destruct fuel as [|fuel]; destruct buffer as [|b buffer]; cbn [drain_frames]; try done; [cbn in Hl; lia|].
  destruct (decode_varint (b :: buffer) 0 VARINT_MAX_BYTES) as [[v n]|e] eqn:E; [|done].
  apply (varint_loop_more _ _ more) in E; [|done]. destruct (framed_decode _ _ [] Hf) as (payload & n' & Ed & Hlp & Hlf & _).
  rewrite app_nil_r in Ed. unfold decode_varint in Ed. rewrite E in Ed. injection Ed as -> ->.
  rewrite Z.gtb_ltb, (proj2 (Z.ltb_ge _ _)) by lia. rewrite Zlen_app in Hlf. destruct more; [done|]. cbn [length] in *.
  by rewrite (proj2 (Z.ltb_lt _ _)) by lia.
Qed.

(** A complete frame is handled. *)
Lemma drain_complete fuel r f rest peers s :
  framed r f -> keeping p 0 peers s -> (length (f ++ rest) <= S fuel)%nat ->
  exists s', _handle_rpc q (normal_rpc r) s = (Ok tt, s') /\ keeping p 0 peers s' /\ f <> [] /\
    drain_frames (S fuel) q (f ++ rest) s = drain_frames fuel q rest s'.
Proof.
  intros Hf Hs Hl. destruct (framed_decode r f rest Hf) as (payload & n & Ed & Hlp & Hlf & Hn & Es & Er).
  assert (rpc_ok (normal_rpc r)) as Hok by (pose proof (RPC_decode_cases payload) as Hd; by rewrite Er in Hd).
  pose proof (handle_rpc_keeps p 0 q _ Hok peers s Hs) as Hk.
  destruct (_handle_rpc q (normal_rpc r) s) as [[[]|e] s'] eqn:E; [|done]. exists s'. split_and!; [done|done|by intros ->; cbn in Hlf; lia|].
  cbn [drain_frames]. destruct (f ++ rest) as [|b data] eqn:Efr; [by apply (f_equal length) in Efr; rewrite length_app in Efr; cbn in Efr; lia|].
  rewrite <- Efr in *. rewrite Ed, Z.gtb_ltb, !(proj2 (Z.ltb_ge _ _)), Es by (try rewrite Zlen_app; lia).
  erewrite (run_bind (catch _ _)); [|unfold catch; rewrite Er, run_raising, E; reflexivity].
  replace (Z.to_nat (n + Zlen payload)) with (length f) by lia. by rewrite drop_app_length.
Qed.

(** The frames that are complete are handled, and the rest is kept. *)
Lemma drain_frames_exact rs : forall fs fuel buffer more peers s,
  Forall2 framed rs fs -> buffer ++ more = concat fs -> keeping p 0 peers s -> (length buffer <= fuel)%nat ->
  exists rs1 rs2 fs2 rest s', rs = rs1 ++ rs2 /\ Forall2 framed rs2 fs2 /\ rest ++ more = concat fs2 /\ (more = [] -> rs2 = []) /\
    handle_all rs1 s = (Ok tt, s') /\ keeping p 0 peers s' /\ drain_frames fuel q buffer s = (Ok rest, s').
Proof.
  induction rs as [|r rs IH]; intros fs fuel buffer more peers s Hfs Hb Hs Hl; inversion Hfs as [|? f ? fs' Hf Hfs']; subst.
  - apply app_nil in Hb as [-> ->]. exists [], [], [], [], s. split_and!; try done. by destruct fuel.
  - cbn [concat] in Hb. assert ((exists rest, buffer = f ++ rest /\ rest ++ more = concat fs') \/
      (exists b k, f = buffer ++ b :: k /\ more = b :: k ++ concat fs')) as [(rest & -> & Hr)|(b & k & -> & ->)].
    { apply app_eq_inv in Hb as [(k & -> & Hk)|([|b k] & Hk & ->)]; [left; by exists k| |right; by exists b, k].
      rewrite app_nil_r in Hk. left. exists []. rewrite app_nil_r. by subst. }
    + destruct fuel as [|fuel].
      { destruct f; [|cbn in Hl; lia]. destruct (drain_complete 0 r [] rest peers s Hf Hs) as (? & _ & _ & ? & _); [cbn in *; lia|done]. }
      destruct (drain_complete fuel r f rest peers s Hf Hs Hl) as (s1 & E1 & Hs1 & Hne & ->).
      destruct (IH fs' fuel rest more peers s1 Hfs' Hr Hs1) as (rs1 & rs2 & fs2 & rest' & s' & -> & Hfs2 & Hr2 & Hend & E2 & Hs' & Ed).
      { rewrite length_app in Hl. destruct f; [done|]. cbn in Hl. lia. }
      exists (r :: rs1), rs2, fs2, rest', s'. split_and!; try done. cbn [map for_each]. by rewrite (run_bind _ _ _ _ _ E1).
    + exists [], (r :: rs), ((buffer ++ b :: k) :: fs'), buffer, s. cbn [concat]. rewrite <- app_assoc.
      split_and!; try done. by eapply drain_incomplete.
Qed.
Lemma receive_loop_exact chunks : forall rs fs buffer peers s,
  Forall2 framed rs fs -> buffer ++ concat chunks = concat fs -> Forall (fun c => c <> []) chunks -> (chunks = [] -> rs = []) ->
  keeping p 0 peers s -> q ∈ peers ->
  exists s', receive_loop q buffer chunks s = (Ok tt, s') /\ handle_all rs s = (Ok tt, s') /\ keeping p 0 peers s'.
Proof.
  induction chunks as [|chunk chunks IH]; intros rs fs buffer peers s Hfs Hb Hc He Hs Hq; cbn [receive_loop].
  { rewrite (He eq_refl). by exists s. }
  apply Forall_cons in Hc as [Hc Hcs]. unfold receive_chunk. cbn [concat] in Hb. rewrite app_assoc in Hb.
  assert (is_Some (dget q (gs_peers s))) as [ps Eq] by (apply dget_is_Some; destruct Hs as [_ ->]; done).
  destruct (drain_frames_exact rs fs (length (buffer ++ chunk)) (buffer ++ chunk) (concat chunks) peers s Hfs Hb Hs) as
    (rs1 & rs2 & fs2 & rest & s1 & -> & Hfs2 & Hr & Hend & E1 & Hs1 & Ed); [done|].
  destruct (IH rs2 fs2 rest peers s1 Hfs2 Hr Hcs) as (s' & El & Eh & Hs'); [by intros ->; apply Hend|done|done|].
  exists s'. split_and!; [|by rewrite map_app, for_each_app; erewrite run_bind|done].
  rewrite (run_bind _ _ _ (Some rest) s1); [exact El|]. unfold get_peer. rewrite run_gets, Eq. destruct chunk as [|b chunk]; [done|].
  unfold catch. by rewrite (run_bind _ _ _ _ _ Ed).
Qed.
End Framing.

(** However the bytes of the frames of well-formed RPCs within the size limit are cut
    into reads, the receive loop handles exactly these RPCs, in order and each once, apart
    from empty control messages, which are not sent. *)
Theorem gossip_framing `{Environment} `{SetOrder} (p : GossipsubParameters) (s : GossipsubBehavior) (peer : PeerId)
    (rpcs : list RPC) (frames chunks : list bytes) :
  params_ok p -> reachable p s -> is_Some (dget peer (gs_peers s)) ->
  Forall2 framed rpcs frames -> concat chunks = concat frames -> Forall (fun c => c <> []) chunks ->
  exists s', _receive_loop peer chunks s = (Ok tt, s') /\ for_each (map normal_rpc rpcs) (_handle_rpc peer) s = (Ok tt, s').
Proof.
  intros Hp Hr Hq%dget_is_Some Hf Hc Hn.
  destruct (receive_loop_exact p peer chunks rpcs frames [] (dkeys (gs_peers s)) s Hf Hc Hn) as (s' & E1 & E2 & _);
    [|split; [by apply gossip_reachable_inv|done]|done|by exists s'].
  intros ->. destruct Hf as [|r f rs fs Hf]; [done|]. destruct (framed_decode r f [] Hf) as (payload & n & _ & _ & Hl & Hn' & _).
  cbn [concat] in Hc. symmetry in Hc. apply app_nil in Hc as [-> _]. cbn in Hl. lia.
Qed.

(** ** Delivery *)
Lemma publish_joined `{Environment} `{SetOrder} p topic data (s : GossipsubBehavior) :
  params_ok p -> gossip_inv p 0 s -> utf8_valid topic = true -> subscribed topic (gs_mesh s) = true ->
  seen_has (message_id_of (topic_message topic data)) (gs_seen_cache s) = false ->
  exists s1, gs_written s1 = gs_written s /\ publish topic data s =
    (Ok tt, with_written (set_iter (get_mesh_peers topic (gs_mesh s)) ≫= frames_to (gs_peers s) (publish_rpc [topic_message topic data])) s1).
Proof.
  intros Hp Hs Hu Hj Hn. unfold publish, message_id_of in *. cbn [ms_topic ms_data topic_message] in Hn.
  destruct (_try_decompress data) as [decompressed domain] eqn:Et.
  destruct (record_message_ok p 0 topic data _ s Hu Hs Hn ltac:(unfold message_id_of; cbn; by rewrite Et)) as (s1 & E1 & _ & _ & _ & Ep & Em & _ & Ew).
  exists s1. split; [done|]. rewrite run_gets, Hn, (run_bind _ _ _ _ _ E1), run_gets, Em, Hj.
  rewrite (run_bind _ _ _ (get_mesh_peers topic (gs_mesh s)) s1) by (unfold gets; by rewrite Em). by rewrite sends_effect, Ep.
Qed.

Lemma handle_published `{Environment} `{SetOrder} peer m (s s' : GossipsubBehavior) :
  is_Some (dget peer (gs_peers s)) -> _handle_message peer m s = (Ok tt, s') -> _handle_rpc peer (publish_rpc [m]) s = (Ok tt, s').
Proof.
  intros [ps Eq] E. unfold _handle_rpc, get_peer. rewrite run_gets, Eq. unfold mbind, M_bind. cbn. unfold mbind, M_bind. by rewrite E.
Qed.

Lemma published_framed m :
  utf8_valid (ms_topic m) = true -> rpc_weight (publish_rpc [m]) <= MAX_PAYLOAD_SIZE -> exists f, framed (publish_rpc [m]) f.
Proof.
  intros Hu Hw. assert (rpc_ok (publish_rpc [m])) as Hok by (apply publish_ok; by constructor).
  destruct (RPC_within (publish_rpc [m]) Hok ltac:(done)) as (payload & Ep & Hl); [unfold MAX_PAYLOAD_SIZE in Hw; lia|].
  destruct (encode_varint_Ok (Zlen payload) VARINT_MAX_BYTES) as (prefix & Ev & _); [done|unfold VARINT_MAX_BYTES, MAX_PAYLOAD_SIZE in *; lia|].
  exists (prefix ++ payload). split_and!; [done|unfold frame; rewrite Ep; mcbn; by rewrite Ev|]. exists payload. split; [done|lia].
Qed.

(** What a node publishes reaches the peers of its mesh. *)
Lemma published_arrives `{Environment} `{SetOrder} (pa pb : GossipsubParameters) (sa sb : GossipsubBehavior) (a b : PeerId)
    (topic : TopicId) (data : bytes) (ps : PeerState) :
  let m := topic_message topic data in
  params_ok pa -> params_ok pb -> reachable pa sa -> reachable pb sb -> utf8_valid topic = true ->
  subscribed topic (gs_mesh sa) = true -> b ∈ get_mesh_peers topic (gs_mesh sa) ->
  dget b (gs_peers sa) = Some ps -> ps_outbound_stream ps = true -> seen_has (message_id_of m) (gs_seen_cache sa) = false ->
  is_Some (dget a (gs_peers sb)) -> ~ dropped m sb -> rpc_weight (publish_rpc [m]) <= MAX_PAYLOAD_SIZE ->
  exists sa' sent, publish topic data sa = (Ok tt, sa') /\ gs_written sa' = gs_written sa ++ sent /\
    forall chunks, concat chunks = concat (to_peer b sent) -> Forall (fun c => c <> []) chunks ->
      exists sb', _receive_loop a chunks sb = (Ok tt, sb') /\
        gs_event_queue sb' = gs_event_queue sb ++ [GossipsubMessageEvent a topic (contents m) (message_id_of m)].
Proof.
  intros m Hpa Hpb Hra Hrb Hu Hj Hb Eb Hout Hn Ha Hd Hw. pose proof (gossip_reachable_inv pa Hpa 0 sa Hra) as Hsa.
  pose proof (gossip_reachable_inv pb Hpb 0 sb Hrb) as Hsb. destruct (publish_joined pa topic data sa Hpa Hsa Hu Hj Hn) as (s1 & Ew & E).
  do 2 eexists. split; [exact E|]. split; [cbn; by rewrite Ew|]. intros chunks Hc Hne.
  destruct (published_framed m Hu Hw) as [f Hf]. rewrite (to_peer_bind _ (frame_for (gs_peers sa) (publish_rpc [m]) b)) in Hc.
  2: { intros x. rewrite frames_to_peer. done. }
  2: { by apply set_iter_NoDup, (mesh_peers_ok pa Hpa), (mg_inv _ _ (gi_mesh _ _ _ Hsa)). }
  rewrite decide_True in Hc by (by rewrite set_iter_perm). unfold frame_for in Hc. destruct Hf as (Hok & Ef & Hp). rewrite Eb, Ef, Hout in Hc.
  destruct (receive_loop_exact pb a chunks [publish_rpc [m]] [f] [] (dkeys (gs_peers sb)) sb) as (sb' & El & Eh & _);
    [by repeat constructor|exact Hc|done| |by split|by apply dget_is_Some|].
  { intros ->. destruct (framed_decode _ f [] (conj Hok (conj Ef Hp))) as (payload & n & _ & _ & Hl & Hn' & _).
    cbn in Hc. rewrite app_nil_r in Hc. subst f. cbn in Hl. lia. }
  exists sb'. split; [done|]. destruct (handle_message_new pb 0 a m sb Hu Hsb Hd) as (s2 & _ & _ & _ & _ & _ & _ & Eq & _ & Em).
  cbn [map for_each] in Eh. rewrite (run_bind _ _ _ _ _ (handle_published a m sb _ Ha Em)) in Eh. injection Eh as <-. cbn. by rewrite Eq.
Qed.

(** End to end, a message published to a topic reaches every mesh peer: if node B is in
    the mesh of node A and connected to it, subscribes to the topic, has not seen the
    message and accepts its size, then however the stream that A wrote to B is cut, B's
    receive loop puts exactly one event on its queue, with the contents that were
    published and their id. *)
Theorem gossip_delivery `{Environment} `{SetOrder} (pa pb : GossipsubParameters) (sa sb : GossipsubBehavior) (a b : PeerId)
    (topic : TopicId) (data : bytes) (ps : PeerState) :
  let m := topic_message topic data in
  params_ok pa -> params_ok pb -> reachable pa sa -> reachable pb sb -> utf8_valid topic = true ->
  subscribed topic (gs_mesh sa) = true -> b ∈ get_mesh_peers topic (gs_mesh sa) ->
  dget b (gs_peers sa) = Some ps -> ps_outbound_stream ps = true -> seen_has (message_id_of m) (gs_seen_cache sa) = false ->
  is_Some (dget a (gs_peers sb)) -> ~ dropped m sb -> rpc_weight (publish_rpc [m]) <= MAX_PAYLOAD_SIZE ->
  exists sa' sent, publish topic data sa = (Ok tt, sa') /\ gs_written sa' = gs_written sa ++ sent /\
    forall chunks, concat chunks = concat (to_peer b sent) -> Forall (fun c => c <> []) chunks ->
      exists sb', _receive_loop a chunks sb = (Ok tt, sb') /\
        gs_event_queue sb' = gs_event_queue sb ++ [GossipsubMessageEvent a topic (contents m) (message_id_of m)].
Proof. exact (published_arrives pa pb sa sb a b topic data ps). Qed.

(** C19: whatever the order of subscriptions, connections, publications, incoming bytes,
    heartbeats and background broadcasts, no operation raises and the state stays sound:
    a mesh for exactly the subscribed topics, never above [d_high] distinct peers; a
    fanout of at most [d] peers and only for other topics; every frame written one of a
    well-formed RPC; in any part of the history in which there is no heartbeat and the peer
    does not connect again, the frames written to the peer while bytes from it are handled
    (the replies to its requests) carry at most three copies of a message, however often it
    asks; and, while the clock stays within the window of the seen cache, no message is
    delivered twice. *)
Theorem gossipsub_invariant `{Environment} `{SetOrder} (p : GossipsubParameters) (ops : list gossip_op) :
  params_ok p -> Forall op_ok ops ->
  exists s, for_each ops gossip_step (new_behavior p) = (Ok tt, s) /\
    (forall t, subscribed t (gs_mesh s) = true <-> is_Some (dget t (me_meshes (gs_mesh s)))) /\
    (forall t, NoDup (get_mesh_peers t (gs_mesh s)) /\ Zlen (get_mesh_peers t (gs_mesh s)) <= gp_d_high p) /\
    (forall t f, dget t (me_fanouts (gs_mesh s)) = Some f -> Zlen (fo_peers f) <= gp_d p /\ subscribed t (gs_mesh s) = false) /\
    (forall q data, (q, data) ∈ gs_written s -> exists r, rpc_ok r /\ frame r = Ok data) /\
    (forall q id before during after, ops = before ++ during ++ after -> Forall (between_heartbeats q) during ->
       copies id (replies q during (for_each before gossip_step (new_behavior p)).2) <= GOSSIP_RETRANSMISSION) /\
    (forall t0, (forall n, t0 <= time_at n <= t0 + gp_seen_ttl_secs p * SECOND) -> NoDup (event_ids (gs_event_queue s))).
Proof.
  intros Hp Ho. pose proof (gossip_run_safe p Hp 0 ops Ho _ (new_behavior_inv p Hp 0)) as Hr.
  destruct (for_each ops gossip_step (new_behavior p)) as [[[]|e] s] eqn:E; [|done]. exists s.
  pose proof (gi_mesh _ _ _ Hr) as [Hm _ _]. split_and!; [done|..].
  - intros t. rewrite subscribed_true. apply (mi_dom _ _ Hm).
  - intros t. by apply mesh_peers_ok.
  - intros t f Hf. destruct (mi_fanout _ _ Hm t f Hf) as (_ & Hl & Hn). split; [done|]. by apply bool_decide_eq_false.
  - intros q data Hd. pose proof (gi_written _ _ _ Hr) as Hw. rewrite Forall_forall in Hw. exact (Hw _ Hd).
  - intros q id before during after -> Hb. rewrite !Forall_app in Ho. destruct Ho as (Ho1 & Ho2 & _).
    pose proof (gossip_run_safe p Hp 0 before Ho1 _ (new_behavior_inv p Hp 0)) as Hr1.
    destruct (for_each before gossip_step (new_behavior p)) as [[[]|e] s1]; [|done].
    etrans; [by apply (replies_bounded q id p Hp)|apply (allowance_bounded q id p _ Hr1)].
  - intros t0 Hst. apply (on_distinct t0). apply (gi_once p t0); [|exact Hst]. by apply gossip_reachable_inv; [|exists ops].
Qed.

(** A clock that stands still and samples taken from the front *)
#[local] Instance still : Environment.
Proof.
  refine {| time_at _ := 0; sample_at _ l k := take k l |}.
  - intros. apply sublist_submseteq, sublist_take.
  - intros. rewrite length_take. lia.
Defined.
#[local] Existing Instance insertion_order.

Lemma default_parameters_ok : params_ok default_parameters.
Proof. by split. Qed.

(** A peer connects, joins the mesh of a topic and sends a message twice. *)
Definition topic_a : TopicId := [Byte.x61].
Definition peer_b : PeerId := [Byte.x62].
Definition join_rpc : RPC := {|
  rpc_subscriptions := [{| so_subscribe := true; so_topic_id := topic_a |}]; rpc_publish := [topic_message topic_a [Byte.x00]];
  rpc_control := Some {| cm_ihave := []; cm_iwant := []; cm_graft := [{| cg_topic_id := topic_a |}]; cm_prune := []; cm_idontwant := [] |} |}.
Definition join_frame : bytes := match frame join_rpc with Ok data => data | Err _ => [] end.
(** It asks four times for the message that was published. *)
Definition published_id : MessageId := message_id_of (topic_message topic_a [Byte.x01]).
Definition ask_rpc : RPC := {|
  rpc_subscriptions := []; rpc_publish := [];
  rpc_control := Some {| cm_ihave := []; cm_iwant := [{| iw_message_ids := [published_id] |}]; cm_graft := []; cm_prune := []; cm_idontwant := [] |} |}.
Definition ask_frame : bytes := match frame ask_rpc with Ok data => data | Err _ => [] end.
Definition joining_ops : list gossip_op :=
  [Start; Subscribe topic_a; AddPeer peer_b true; AddPeer peer_b false; RunTask;
   Receive peer_b (take 3 join_frame) (drop 3 join_frame); Receive peer_b [] join_frame; Heartbeat; Publish topic_a [Byte.x01]].
Definition asking_ops : list gossip_op := repeat (Receive peer_b [] ask_frame) 4.
Definition sample_ops : list gossip_op := joining_ops ++ asking_ops.

Example sample_ops_run :
  let joined := (for_each joining_ops gossip_step (new_behavior default_parameters)).2 in
  let s := (for_each sample_ops gossip_step (new_behavior default_parameters)).2 in
  get_mesh_peers topic_a (gs_mesh s) = [peer_b] /\ length (gs_event_queue s) = 3%nat /\ length (event_ids (gs_event_queue s)) = 1%nat /\
  length (gs_written joined) = 3%nat /\ length (gs_written s) = 6%nat /\ copies published_id (replies peer_b asking_ops joined) = 3.
Proof. vm_compute. done. Qed.

Lemma gossipsub_invariant_witness :
  exists s, for_each sample_ops gossip_step (new_behavior default_parameters) = (Ok tt, s) /\
    (forall t, subscribed t (gs_mesh s) = true <-> is_Some (dget t (me_meshes (gs_mesh s)))) /\
    (forall t, NoDup (get_mesh_peers t (gs_mesh s)) /\ Zlen (get_mesh_peers t (gs_mesh s)) <= gp_d_high default_parameters) /\
    (forall t f, dget t (me_fanouts (gs_mesh s)) = Some f ->
       Zlen (fo_peers f) <= gp_d default_parameters /\ subscribed t (gs_mesh s) = false) /\
    (forall q data, (q, data) ∈ gs_written s -> exists r, rpc_ok r /\ frame r = Ok data) /\
    (forall q id before during after, sample_ops = before ++ during ++ after -> Forall (between_heartbeats q) during ->
       copies id (replies q during (for_each before gossip_step (new_behavior default_parameters)).2) <= GOSSIP_RETRANSMISSION) /\
    (forall t0, (forall n, t0 <= time_at n <= t0 + gp_seen_ttl_secs default_parameters * SECOND) ->
       NoDup (event_ids (gs_event_queue s))).
Proof.
  apply (gossipsub_invariant default_parameters sample_ops); [apply default_parameters_ok|]. by repeat constructor.
Defined.

(** Two nodes, each in the mesh of the other, and a connection that has streams both ways *)
Definition connect_ops (peer : PeerId) : list gossip_op :=
  [Start; Subscribe topic_a; RunTask; AddPeer peer true; AddPeer peer false; Receive peer [] join_frame].
Definition node_at (ops : list gossip_op) : GossipsubBehavior := (for_each ops gossip_step (new_behavior default_parameters)).2.
Definition peer_c : PeerId := [Byte.x63].
Definition node_b : GossipsubBehavior := node_at (connect_ops peer_c).
Definition node_c : GossipsubBehavior := node_at (connect_ops peer_b).

Lemma node_reachable peer : reachable default_parameters (node_at (connect_ops peer)).
Proof.
  exists (connect_ops peer). split; [by repeat constructor|].
  pose proof (gossip_run_safe default_parameters default_parameters_ok 0 (connect_ops peer) ltac:(by repeat constructor) _
    (new_behavior_inv _ default_parameters_ok 0)) as Hr.
  unfold node_at. by destruct (for_each _ _ _) as [[[]|e] s].
Qed.

Lemma message_forwarding_witness :
  exists s', _handle_message peer_c (topic_message topic_a [Byte.x07]) node_b = (Ok tt, s') /\
    gs_event_queue s' = gs_event_queue node_b ++
      [GossipsubMessageEvent peer_c topic_a [Byte.x07] (message_id_of (topic_message topic_a [Byte.x07]))].
Proof.
  destruct (message_forwarding default_parameters node_b peer_c (topic_message topic_a [Byte.x07]) default_parameters_ok
    (node_reachable peer_c) eq_refl) as (s' & E & Hs'). exists s'. split; [exact E|]. rewrite decide_False in Hs'; [apply Hs'|].
  vm_compute. intros [?|[?|[?|?]]]; discriminate.
Defined.

Lemma gossip_delivery_witness :
  exists sb sent, publish topic_a [Byte.x09] node_b = (Ok tt, sb) /\ gs_written sb = gs_written node_b ++ sent /\
    forall chunks, concat chunks = concat (to_peer peer_c sent) -> Forall (fun c => c <> []) chunks ->
      exists sc, _receive_loop peer_b chunks node_c = (Ok tt, sc) /\
        gs_event_queue sc = gs_event_queue node_c ++ [GossipsubMessageEvent peer_b topic_a (contents (topic_message topic_a [Byte.x09]))
          (message_id_of (topic_message topic_a [Byte.x09]))].
Proof.
  assert (exists ps, dget peer_c (gs_peers node_b) = Some ps /\ ps_outbound_stream ps = true) as (ps & Eq & Ho).
  { eexists. split; [vm_compute; reflexivity|reflexivity]. }
  apply (gossip_delivery default_parameters default_parameters node_b node_c peer_b peer_c topic_a [Byte.x09] ps
    default_parameters_ok default_parameters_ok (node_reachable peer_c) (node_reachable peer_b) eq_refl).
  - vm_compute. reflexivity.
  - vm_compute. left.
  - exact Eq.
  - exact Ho.
  - vm_compute. reflexivity.
  - vm_compute. eauto.
  - vm_compute. intros [?|[?|[?|?]]]; discriminate.
  - vm_compute. discriminate.
Defined.
