(* ===== verification/Backfill.v ===== *)
(** * Backfill (node/sync/backfill_sync.py)

    Fetches missing ancestors into the block cache: by root, recursing into parents, or a
    contiguous range of slots above the head.  The recursion is bounded by the depth, so
    the functions recurse on the depth that is left.  The network answers arbitrarily: an
    answer is a function of how many requests were made before, of the peer and of the
    request. *)

From S2P Require Import Prelude Pydict Uint Ssz Sha256 Merkle Containers Proofs SszRecords.
From S2P Require Import Varint Snappy ReqResp BlockCache PeerManager StateMonad.

(** [NetworkRequester], and the outcomes of the random generator *)
Class Network := {
  answer_by_root : nat -> PeerId -> list Bytes32 -> result (list SignedBlock);
  answer_by_range : nat -> PeerId -> Z -> Z -> result (list SignedBlock);
  random_draw : nat -> Z
}.

(** [StoreView]: the roots of the store, and the slot of its head *)
Record StoreView := { has_root : Bytes32 -> bool; head_slot : result Z }.

Record BackfillState := {
  bf_peers : Peers;
  bf_cache : BlockCache;
  bf_pending : list Bytes32;
  bf_max_range_slot : option Z;
  bf_requests : nat;
  bf_draws : nat
}.

Definition with_peers (f : Peers -> Peers) (s : BackfillState) : BackfillState := {|
  bf_peers := f (bf_peers s); bf_cache := bf_cache s; bf_pending := bf_pending s;
  bf_max_range_slot := bf_max_range_slot s; bf_requests := bf_requests s; bf_draws := bf_draws s |}.
Definition with_cache (f : BlockCache -> BlockCache) (s : BackfillState) : BackfillState := {|
  bf_peers := bf_peers s; bf_cache := f (bf_cache s); bf_pending := bf_pending s;
  bf_max_range_slot := bf_max_range_slot s; bf_requests := bf_requests s; bf_draws := bf_draws s |}.
Definition with_pending (f : list Bytes32 -> list Bytes32) (s : BackfillState) : BackfillState := {|
  bf_peers := bf_peers s; bf_cache := bf_cache s; bf_pending := f (bf_pending s);
  bf_max_range_slot := bf_max_range_slot s; bf_requests := bf_requests s; bf_draws := bf_draws s |}.
Definition with_max_range_slot (f : option Z -> option Z) (s : BackfillState) : BackfillState := {|
  bf_peers := bf_peers s; bf_cache := bf_cache s; bf_pending := bf_pending s;
  bf_max_range_slot := f (bf_max_range_slot s); bf_requests := bf_requests s; bf_draws := bf_draws s |}.

Section Backfill.
Context `{Network} (view : StoreView).

(** [select_peer_for_request], drawing the next random number *)
Definition select_peer (min_slot : option Z) : M BackfillState (option SyncPeer) := fun s =>
  (Ok (select_peer_for_request min_slot (random_draw (bf_draws s)) (bf_peers s)),
   {| bf_peers := bf_peers s; bf_cache := bf_cache s; bf_pending := bf_pending s;
      bf_max_range_slot := bf_max_range_slot s; bf_requests := bf_requests s; bf_draws := S (bf_draws s) |}).

(** [await self.network.request_...] *)
Definition request {A} (answer : nat -> result A) : M BackfillState A := fun s =>
  (answer (bf_requests s),
   {| bf_peers := bf_peers s; bf_cache := bf_cache s; bf_pending := bf_pending s;
      bf_max_range_slot := bf_max_range_slot s; bf_requests := S (bf_requests s); bf_draws := bf_draws s |}).

Definition start_request (p : SyncPeer) : M BackfillState unit :=
  modify (with_peers (update_peer (pi_peer_id (sp_info p)) on_request_start)).
Definition request_succeeded (peer_id : PeerId) : M BackfillState unit := modify (with_peers (on_request_success peer_id)).
Definition request_failed (peer_id : PeerId) : M BackfillState unit := modify (with_peers (on_request_failure peer_id)).

(** [self.block_cache.add(...)] *)
Definition cache_block (block : SignedBlock) (peer : option PeerId) (depth : Z) : M BackfillState PendingBlock := fun s =>
  let '(pending, cache) := cache_add block peer depth (bf_cache s) in (Ok pending, with_cache (fun _ => cache) s).

(** One received block: cached, and its parent's root when that is unknown and not pending *)
Definition receive_block (peer_id : PeerId) (depth : Z) (block : SignedBlock) : M BackfillState (list Bytes32) :=
  pending ← cache_block block (Some peer_id) (depth + 1);
  let parent_root := pb_parent_root pending in
  cached ← gets (fun s => cache_mem parent_root (bf_cache s));
  if cached || has_root view parent_root then mret []
  else
    _ ← modify (with_cache (mark_orphan (pb_root pending)));
    already ← gets (fun s => bool_decide (parent_root ∈ bf_pending s));
    mret (if already : bool then [] else [parent_root]).

Fixpoint receive_blocks (peer_id : PeerId) (depth : Z) (blocks : list SignedBlock) : M BackfillState (list Bytes32) :=
  match blocks with
  | [] => mret []
  | block :: blocks =>
      new ← receive_block peer_id depth block;
      rest ← receive_blocks peer_id depth blocks;
      mret (new ++ rest)
  end.

(** [min(blocks, key=lambda b: b.block.slot)], the slot of the result *)
Definition earliest_slot (first : SignedBlock) (blocks : list SignedBlock) : Z :=
  foldl (fun best b => if bk_slot (sb_block b) <? best then bk_slot (sb_block b) else best) (bk_slot (sb_block first)) blocks.

(** What a recursive call asks for, one level deeper *)
Inductive fill_request :=
| Missing (roots : list Bytes32)
| Range (start_slot count : Z).

Definition fill_gap_above_head (fill : fill_request -> M BackfillState unit) (target_slot head_slot : Z)
    : M BackfillState bool :=
  if target_slot <=? head_slot then mret false
  else
    gap_floor ← raising (uint_add 64 head_slot 1);
    gap_size ← raising (uint_sub 64 target_slot gap_floor);
    if gap_size <=? 0 then mret false
    else
      count ← raising (uint_new 64 gap_size);
      _ ← fill (Range gap_floor count);
      mret true.

Definition _process_received_blocks (fill : fill_request -> M BackfillState unit) (depth : Z)
    (blocks : list SignedBlock) (peer_id : PeerId) : M BackfillState unit :=
  new_orphan_parents ← receive_blocks peer_id depth blocks;
  match new_orphan_parents, blocks with
  | [], _ => mret tt
  | _, [] => fill (Missing new_orphan_parents)
  | _, first :: rest =>
      head ← raising (head_slot view);
      _ ← fill_gap_above_head fill (earliest_slot first rest) head;
      fill (Missing new_orphan_parents)
  end.

(** One batch of [fill_missing] *)
Definition fetch_roots (fill : fill_request -> M BackfillState unit) (depth : Z) (batch : list Bytes32)
    : M BackfillState unit :=
  peer ← select_peer None;
  match peer with
  | None => mret tt
  | Some p =>
      let peer_id := pi_peer_id (sp_info p) in
      _ ← start_request p;
      catch
        (blocks ← request (fun n => answer_by_root n peer_id batch);
         _ ← request_succeeded peer_id;
         if Zlen blocks =? 0 then mret tt else _process_received_blocks fill depth blocks peer_id)
        (fun _ => request_failed peer_id)
  end.

Definition fill_missing (fill : fill_request -> M BackfillState unit) (depth : Z) (roots : list Bytes32)
    : M BackfillState unit :=
  roots_to_fetch ← gets (fun s =>
    filter (fun root => root ∉ bf_pending s /\ cache_mem root (bf_cache s) = false) roots);
  if Zlen roots_to_fetch =? 0 then mret tt
  else
    _ ← modify (with_pending (fun pending => sunion pending roots_to_fetch));
    finally
      (batches ← raising (batched roots_to_fetch MAX_REQUEST_BLOCKS);
       for_each batches (fetch_roots fill depth))
      (with_pending (fun pending => sdiff pending roots_to_fetch)).

(** One batch of [fill_range] *)
Definition fetch_range (fill : fill_request -> M BackfillState unit) (depth : Z) (batch : list Z)
    : M BackfillState unit :=
  batch_start ← raising (of_option IndexError (head batch));
  last_slot ← raising (of_option IndexError (last batch));
  claiming ← select_peer (Some last_slot);
  peer ← match claiming with Some p => mret (Some p) | None => select_peer None end;
  match peer with
  | None => mret tt
  | Some p =>
      let peer_id := pi_peer_id (sp_info p) in
      _ ← start_request p;
      blocks ← catch
        (blocks ← request (fun n => answer_by_range n peer_id batch_start (Zlen batch));
         mret (Some blocks))
        (fun _ => _ ← request_failed peer_id; mret None);
      match blocks with
      | None => mret tt
      | Some blocks =>
          _ ← request_succeeded peer_id;
          _ ← (if bool_decide (is_Some claiming) || negb (Zlen blocks =? 0)
               then modify (with_max_range_slot (fun watermark =>
                      Some (match watermark with None => last_slot | Some w => Z.max w last_slot end)))
               else mret tt);
          if Zlen blocks =? 0 then mret tt else _process_received_blocks fill depth blocks peer_id
      end
  end.

Definition fill_range (fill : fill_request -> M BackfillState unit) (depth : Z) (start_slot count : Z)
    : M BackfillState unit :=
  if count =? 0 then mret tt
  else
    watermark ← gets bf_max_range_slot;
    actual_start ← raising
      (match watermark with
       | None => Ok start_slot
       | Some w => if w <? start_slot then Ok start_slot else uint_add 64 w 1
       end);
    last_offset ← raising (uint_new 64 (count - 1));
    end_slot ← raising (uint_add 64 start_slot last_offset);
    if end_slot <? actual_start then mret tt
    else
      batches ← raising (batched (seqZ actual_start (end_slot + 1 - actual_start)) MAX_REQUEST_BLOCKS);
      for_each batches (fetch_range fill depth).

(** [fill_missing] and [fill_range] at the depth at which [remaining] levels are left *)
Fixpoint fill (remaining : nat) (r : fill_request) : M BackfillState unit :=
  match remaining with
  | O => mret tt
  | S remaining =>
      let depth := MAX_BACKFILL_DEPTH - Z.of_nat (S remaining) in
      match r with
      | Missing roots => fill_missing (fill remaining) depth roots
      | Range start_slot count => fill_range (fill remaining) depth start_slot count
      end
  end.

(** The entry points, at depth zero *)
Definition backfill : fill_request -> M BackfillState unit := fill (Z.to_nat MAX_BACKFILL_DEPTH).
End Backfill.
