(* ===== verification/BackfillCorrect.v ===== *)
(** * Backfill keeps its books

    Whatever the network answers, backfill returns without an exception, leaves the cache
    and the peers consistent, and releases every request and every pending root. *)

From S2P Require Import Prelude Pydict Uint Ssz Sha256 Merkle Containers Proofs SszRecords.
From S2P Require Import Varint Snappy ReqResp BlockCache PeerManager StateMonad Backfill.

(** What a peer's entry must keep over a completed backfill: all but the score *)
Definition peer_core (p : SyncPeer) : PeerInfo * option Status * Z :=
  (sp_info p, sp_status p, sp_requests_in_flight p).

Record framed (s0 s : BackfillState) : Prop := {
  fr_pending : bf_pending s = bf_pending s0;
  fr_peers peer_id : peer_core <$> dget peer_id (bf_peers s) = peer_core <$> dget peer_id (bf_peers s0)
}.

#[export] Instance framed_refl : Reflexive framed.
Proof. by intros s. Qed.
#[export] Instance framed_trans : Transitive framed.
Proof. intros s1 s2 s3 [P1 Q1] [P2 Q2]. split; [congruence|]. intros p. by rewrite Q2, Q1. Qed.

(** The batches of a request never fail. *)
Lemma batched_requests {A} (l : list A) :
  batched l MAX_REQUEST_BLOCKS = Ok (batched_from (length l) (Z.to_nat MAX_REQUEST_BLOCKS) l).
Proof. reflexivity. Qed.

(** Roots that are added and taken out again *)
Lemma sdiff_sunion {A} `{EqDecision A} (p fetch : list A) :
  (forall r, r ∈ fetch -> r ∉ p) -> sdiff (sunion p fetch) fetch = p.
Proof.
  intros Hd. transitivity (sdiff p fetch).
  - assert (forall l, l ⊆ fetch -> sdiff (sunion p l) fetch = sdiff p fetch) as Hl; [|by apply Hl].
    intros l. unfold sunion. generalize p. clear p Hd. induction l as [|x l IH]; intros p Hs; [done|]. cbn [foldl].
    rewrite IH by set_solver. unfold sadd. case_decide; [done|]. unfold sdiff. rewrite filter_app.
    rewrite filter_cons, decide_False by set_solver. by rewrite app_nil_r.
  - unfold sdiff. induction p as [|x p IH]; [done|]. rewrite filter_cons, decide_True by set_solver.
    rewrite IH; [done|]. set_solver.
Qed.

Section Correct.
Context `{Network} (view : StoreView) (good : SignedBlock -> Prop).
Hypothesis answers_by_root : forall n peer roots blocks b, answer_by_root n peer roots = Ok blocks -> b ∈ blocks -> good b.
Hypothesis answers_by_range : forall n peer start count blocks b,
  answer_by_range n peer start count = Ok blocks -> b ∈ blocks -> good b.
Hypothesis good_slot : forall b, good b -> in_range 64 (bk_slot (sb_block b)).
Hypothesis view_head : exists h, head_slot view = Ok h /\ 0 <= h.

Record bf_inv (s : BackfillState) : Prop := {
  bi_peers : peers_inv (bf_peers s);
  bi_cache : cache_inv (bf_cache s);
  bi_good r p : dget r (bc_blocks (bf_cache s)) = Some p -> good (pb_block p);
  bi_watermark w : bf_max_range_slot s = Some w -> 0 <= w < 2 ^ 64 - 1
}.

(** The invariant of a call that started in [s0] *)
Definition inv (s0 s : BackfillState) : Prop := bf_inv s /\ framed s0 s.

Definition request_ok (r : fill_request) : Prop :=
  match r with
  | Missing _ => True
  | Range start count => 0 <= start /\ 0 <= count /\ start + count < 2 ^ 64
  end.
Definition fills (fill : fill_request -> M BackfillState unit) : Prop :=
  forall r s0, request_ok r -> triple (inv s0) (fill r) (fun _ => inv s0) never.

(** ** The cache *)
Definition cached_good (cache : BlockCache) : Prop :=
  forall r p, dget r (bc_blocks cache) = Some p -> good (pb_block p).

Lemma cached_good_evict cache : cache_inv cache -> cached_good cache -> cached_good (evict_oldest cache).
Proof.
  intros Hi Hc r p. destruct (bc_blocks cache) as [|[r0 p0] rest] eqn:Eb.
  { unfold evict_oldest. by rewrite Eb, Eb. }
  rewrite (evict_oldest_blocks _ _ _ _ Eb). intros Er. apply (Hc r). apply In_dget; [by apply Hi|].
  rewrite Eb. right. by apply dget_In.
Qed.

Lemma cached_good_add block peer depth cache :
  cache_inv cache -> cached_good cache -> good block -> cached_good (cache_add block peer depth cache).2.
Proof.
  intros Hi Hc Hb r p. unfold cache_add. destruct (dget _ (bc_blocks cache)) eqn:E; [apply Hc|]. cbn [snd bc_blocks].
  rewrite dget_dset. case_decide; [by intros [= <-]|]. destruct (_ <=? _); [by apply cached_good_evict|apply Hc].
Qed.

Lemma cached_good_mark root cache : cached_good cache -> cached_good (mark_orphan root cache).
Proof. intros Hc r p. rewrite (proj1 (mark_orphan_blocks root cache)). apply Hc. Qed.

(** ** Steps that touch one part of the state *)
Lemma inv_cache s0 s f :
  inv s0 s -> cache_inv (f (bf_cache s)) -> cached_good (f (bf_cache s)) -> inv s0 (with_cache f s).
Proof. intros [[Hp Hc Hg Hw] [F1 F2]] Hc' Hg'. by split; split. Qed.

Lemma receive_block_ok s0 peer depth block :
  good block -> triple (inv s0) (receive_block view peer depth block) (fun _ => inv s0) never.
Proof.
  intros Hb. unfold receive_block. eapply (triple_bind _ _ _ (fun _ => inv s0)).
  - intros s Hs. unfold cache_block. destruct (cache_add block (Some peer) (depth + 1) (bf_cache s)) as [p c] eqn:E.
    pose proof Hs as [[_ Hi Hg _] _]. apply inv_cache; [done|..].
    + replace c with (cache_add block (Some peer) (depth + 1) (bf_cache s)).2 by (by rewrite E). by apply cache_add_inv.
    + replace c with (cache_add block (Some peer) (depth + 1) (bf_cache s)).2 by (by rewrite E). by apply cached_good_add.
  - intros p. eapply (triple_bind _ _ _ (fun _ => inv s0)); [by apply triple_gets|]. intros c.
    destruct (_ || _); [by apply triple_ret|]. eapply (triple_bind _ _ _ (fun _ => inv s0)).
    + apply triple_modify. intros s Hs. pose proof Hs as [[_ Hi Hg _] _].
      apply inv_cache; [done|by apply mark_orphan_inv|by apply cached_good_mark].
    + intros _. eapply (triple_bind _ _ _ (fun _ => inv s0)); [by apply triple_gets|]. intros a. by apply triple_ret.
Qed.

Lemma receive_blocks_ok s0 peer depth blocks :
  (forall b, b ∈ blocks -> good b) -> triple (inv s0) (receive_blocks view peer depth blocks) (fun _ => inv s0) never.
Proof.
  induction blocks as [|b blocks IH]; intros Hb; cbn [receive_blocks]; [by apply triple_ret|].
  eapply (triple_bind _ _ _ (fun _ => inv s0)); [apply receive_block_ok, Hb; left|]. intros new.
  eapply (triple_bind _ _ _ (fun _ => inv s0)); [apply IH; intros; apply Hb; by right|]. intros rest. by apply triple_ret.
Qed.

(** ** Recursion *)
Lemma earliest_slot_range first rest :
  (forall b, b ∈ first :: rest -> good b) -> in_range 64 (earliest_slot first rest).
Proof.
  intros Hg. unfold earliest_slot. assert (in_range 64 (bk_slot (sb_block first))) as Hf by (apply good_slot, Hg; left).
  assert (forall b, b ∈ rest -> good b) as Hr by (intros; apply Hg; by right). clear Hg. revert Hf.
  generalize (bk_slot (sb_block first)). induction rest as [|b rest IH]; intros best Hb; [done|]. cbn [foldl].
  apply IH; [intros; apply Hr; by right|]. destruct (_ <? _); [|done]. apply good_slot, Hr. left.
Qed.

Lemma fill_gap_ok fill s0 target head :
  fills fill -> in_range 64 target -> 0 <= head ->
  triple (inv s0) (fill_gap_above_head fill target head) (fun _ => inv s0) never.
Proof.
  intros Hf Ht Hh. unfold fill_gap_above_head, in_range in *. destruct (Z.leb_spec target head); [by apply triple_ret|].
  unfold uint_add, uint_sub. rewrite (uint_new_in_range _ (head + 1)) by (unfold in_range; lia).
  eapply (triple_bind _ _ _ (fun gf s => inv s0 s /\ gf = head + 1)); [by apply triple_raising|].
  intros gf. apply triple_pure. intros ->. rewrite (uint_new_in_range _ (target - (head + 1))) by (unfold in_range; lia).
  eapply (triple_bind _ _ _ (fun gs s => inv s0 s /\ gs = target - (head + 1))); [by apply triple_raising|].
  intros gs. apply triple_pure. intros ->. destruct (_ <=? 0); [by apply triple_ret|].
  rewrite uint_new_in_range by (unfold in_range; lia).
  eapply (triple_bind _ _ _ (fun gs s => inv s0 s /\ gs = target - (head + 1))); [by apply triple_raising|].
  intros gs. apply triple_pure. intros ->. eapply (triple_bind _ _ _ (fun _ => inv s0)).
  - apply Hf. cbn. lia.
  - intros _. by apply triple_ret.
Qed.

Lemma process_received_ok fill s0 depth blocks peer :
  fills fill -> (forall b, b ∈ blocks -> good b) ->
  triple (inv s0) (_process_received_blocks view fill depth blocks peer) (fun _ => inv s0) never.
Proof.
  intros Hf Hb. unfold _process_received_blocks. eapply (triple_bind _ _ _ (fun _ => inv s0)); [by apply receive_blocks_ok|].
  intros [|o orphans]; [by apply triple_ret|]. destruct blocks as [|first rest]; [by apply Hf|].
  destruct view_head as (h & -> & Hh).
  eapply (triple_bind _ _ _ (fun h' s => inv s0 s /\ h' = h)); [by apply triple_raising|].
  intros h'. apply triple_pure. intros ->. eapply (triple_bind _ _ _ (fun _ => inv s0)).
  - apply fill_gap_ok; [done|by apply earliest_slot_range|done].
  - intros _. by apply Hf.
Qed.

(** ** Requests *)
Lemma dget_update_peer q peer_id f peers :
  dget q (update_peer peer_id f peers) = if decide (q = peer_id) then f <$> dget peer_id peers else dget q peers.
Proof.
  unfold update_peer. destruct (dget peer_id peers) as [p|] eqn:E.
  - rewrite dget_dset. by case_decide.
  - case_decide; [by subst|done].
Qed.

Definition started (peer_id : PeerId) (s : BackfillState) : BackfillState :=
  with_peers (update_peer peer_id on_request_start) s.

(** Closing a request gives the slot back. *)
Lemma framed_close peer_id f s0 s :
  (forall q p, dget q (bf_peers s0) = Some p -> 0 <= sp_requests_in_flight p) ->
  (forall p, sp_info (f p) = sp_info p /\ sp_status (f p) = sp_status p /\
    sp_requests_in_flight (f p) = Z.max 0 (sp_requests_in_flight p - 1)) ->
  framed (started peer_id s0) s -> framed s0 (with_peers (update_peer peer_id f) s).
Proof.
  intros Hn Hf [F1 F2]. split; [done|]. intros q. specialize (F2 q). cbn in *. rewrite dget_update_peer in *.
  case_decide; [subst q|done]. specialize (Hn peer_id).
  destruct (dget peer_id (bf_peers s0)) as [p0|], (dget peer_id (bf_peers s)) as [p|]; try done.
  cbn in *. injection F2 as E1 E2 E3. unfold peer_core. destruct (Hf p) as (-> & -> & ->). specialize (Hn _ eq_refl).
  rewrite E1, E2, E3. cbn. do 2 f_equal. lia.
Qed.

Lemma inv_in_flight s0 s : inv s0 s -> forall q p, dget q (bf_peers s0) = Some p -> 0 <= sp_requests_in_flight p.
Proof.
  intros [[Hp _ _ _] [_ F]] q p E. specialize (F q). rewrite E in F.
  destruct (dget q (bf_peers s)) as [p'|] eqn:E'; [|done]. cbn in F. injection F as _ _ F3.
  rewrite <- F3. by apply (po_in_flight _ _ (pv_peer _ Hp _ _ E')).
Qed.

Lemma start_request_ok s0 p :
  triple (inv s0) (start_request p) (fun _ => inv (started (pi_peer_id (sp_info p)) s0)) never.
Proof.
  apply triple_modify. intros s [[Hp Hc Hg Hw] [F1 F2]]. split; split; cbn; auto with spec.
  intros q. specialize (F2 q). rewrite !dget_update_peer. case_decide; [subst q|done].
  destruct (dget _ (bf_peers s0)) as [p0|], (dget _ (bf_peers s)) as [p1|]; try done.
  cbn in *. unfold peer_core in *. cbn. congruence.
Qed.

Lemma close_request_ok s0 peer_id f :
  (forall q p, dget q (bf_peers s0) = Some p -> 0 <= sp_requests_in_flight p) ->
  (forall p, sp_info (f p) = sp_info p /\ sp_status (f p) = sp_status p /\
    sp_requests_in_flight (f p) = Z.max 0 (sp_requests_in_flight p - 1)) ->
  (forall peers, peers_inv peers -> peers_inv (update_peer peer_id f peers)) ->
  triple (inv (started peer_id s0)) (modify (with_peers (update_peer peer_id f))) (fun _ => inv s0) never.
Proof.
  intros Hn Hf Hp. apply triple_modify. intros s [[Hps Hc Hg Hw] F]. split; [split; cbn; auto|].
  by apply framed_close.
Qed.

Lemma request_ok_answer s0 {A} (answer : nat -> result (list A)) (Q : A -> Prop) :
  (forall n blocks b, answer n = Ok blocks -> b ∈ blocks -> Q b) ->
  triple (inv s0) (request answer) (fun blocks s => inv s0 s /\ forall b, b ∈ blocks -> Q b) (fun _ => inv s0).
Proof.
  intros Ha s [[Hp Hc Hg Hw] [F1 F2]]. unfold request. destruct (answer (bf_requests s)) as [blocks|e] eqn:E.
  - split; [by split; split|]. intros b. by apply (Ha _ _ _ E).
  - by split; split.
Qed.

Lemma select_peer_ok s0 min_slot : triple (inv s0) (select_peer min_slot) (fun _ => inv s0) never.
Proof. intros s [[Hp Hc Hg Hw] [F1 F2]]. by split; split. Qed.

Lemma fetch_roots_ok fill s0 depth batch :
  fills fill -> triple (inv s0) (fetch_roots view fill depth batch) (fun _ => inv s0) never.
Proof.
  intros Hf. unfold fetch_roots. eapply (triple_bind _ _ _ (fun _ => inv s0)); [apply select_peer_ok|].
  intros [p|]; [|by apply triple_ret]. cbn zeta. set (peer_id := pi_peer_id (sp_info p)).
  apply triple_from. intros s1 Hs1. pose proof (inv_in_flight _ _ Hs1) as Hn. clear s1 Hs1.
  eapply (triple_bind _ _ _ (fun _ => inv (started peer_id s0))); [apply start_request_ok|]. intros _.
  eapply (triple_catch _ _ _ _ _ (fun _ => inv (started peer_id s0))).
  - eapply triple_bind; [apply (request_ok_answer _ _ good); intros n blocks b; apply answers_by_root|].
    intros blocks. apply triple_pure. intros Hb.
    eapply (triple_bind _ _ _ (fun _ => inv s0)).
    + apply triple_never. apply close_request_ok; [done|done|]. intros peers. apply on_request_success_inv.
    + intros _. destruct (_ =? 0); [by apply triple_ret|]. apply triple_never. by apply process_received_ok.
  - intros _. apply close_request_ok; [done|done|]. intros peers. apply on_request_failure_inv.
Qed.

Lemma fill_missing_ok fill s0 depth roots :
  fills fill -> triple (inv s0) (fill_missing view fill depth roots) (fun _ => inv s0) never.
Proof.
  intros Hf. unfold fill_missing.
  eapply (triple_bind _ _ _ (fun fetch s => inv s0 s /\ forall r, r ∈ fetch -> r ∉ bf_pending s0)).
  { apply triple_gets. intros s Hs. split; [done|]. intros r [[Hr _] _]%list_elem_of_filter.
    by rewrite <- (fr_pending _ _ (proj2 Hs)). }
  intros fetch. apply triple_pure. intros Hd. destruct (_ =? 0); [by apply triple_ret|].
  set (s1 := with_pending (fun pending => sunion pending fetch) s0).
  eapply (triple_bind _ _ _ (fun _ => inv s1)).
  { apply triple_modify. intros s [[Hp Hc Hg Hw] [F1 F2]]. split; split; cbn; auto. by rewrite F1. }
  intros _. apply triple_finally. eapply triple_consequence with (Q' := fun _ => inv s1) (E' := never);
    [|done| |by intros ? ? []].
  - rewrite batched_requests. eapply (triple_bind _ _ _ (fun _ => inv s1)); [by apply triple_raising|].
    intros batches. apply triple_for_each. intros batch _. by apply fetch_roots_ok.
  - intros _ s [[Hp Hc Hg Hw] [F1 F2]]. split; split; cbn; auto. rewrite F1. cbn.
    by apply sdiff_sunion.
Qed.

(** ** Ranges *)
Lemma inv_watermark s0 s f :
  inv s0 s -> (forall w, f (bf_max_range_slot s) = Some w -> 0 <= w < 2 ^ 64 - 1) -> inv s0 (with_max_range_slot f s).
Proof. intros [[Hp Hc Hg Hw] [F1 F2]] Hf. by split; split. Qed.

Lemma fetch_range_ok fill s0 depth batch :
  fills fill -> batch <> [] -> Forall (fun slot => 0 <= slot < 2 ^ 64 - 1) batch ->
  triple (inv s0) (fetch_range view fill depth batch) (fun _ => inv s0) never.
Proof.
  intros Hf Hne Hb. unfold fetch_range. destruct batch as [|b0 rest]; [done|]. cbn [head of_option].
  destruct (last (b0 :: rest)) as [last_slot|] eqn:El; [|by apply last_None in El].
  assert (0 <= last_slot < 2 ^ 64 - 1) as Hl.
  { rewrite Forall_forall in Hb. apply Hb. by apply last_Some_elem_of. }
  eapply (triple_bind _ _ _ (fun _ => inv s0)); [by apply triple_raising|]. intros start.
  eapply (triple_bind _ _ _ (fun l s => inv s0 s /\ l = last_slot)); [by apply triple_raising|].
  intros l. apply triple_pure. intros ->.
  eapply (triple_bind _ _ _ (fun _ => inv s0)); [apply select_peer_ok|]. intros claiming.
  eapply (triple_bind _ _ _ (fun _ => inv s0)); [destruct claiming; [by apply triple_ret|apply select_peer_ok]|].
  intros [p|]; [|by apply triple_ret]. cbn zeta. set (peer_id := pi_peer_id (sp_info p)).
  apply triple_from. intros s1 Hs1. pose proof (inv_in_flight _ _ Hs1) as Hn. clear s1 Hs1.
  eapply (triple_bind _ _ _ (fun _ => inv (started peer_id s0))); [apply start_request_ok|]. intros _.
  eapply (triple_bind _ _ _ (fun blocks s => match blocks with
    | Some blocks => inv (started peer_id s0) s /\ forall b, b ∈ blocks -> good b
    | None => inv s0 s end)).
  { eapply (triple_catch _ _ _ _ _ (fun _ => inv (started peer_id s0))).
    - eapply triple_bind; [apply (request_ok_answer _ _ good); intros n blocks b; apply answers_by_range|].
      intros blocks. by apply triple_ret.
    - intros _. eapply (triple_bind _ _ _ (fun _ => inv s0)); [|intros _; by apply triple_ret].
      apply close_request_ok; [done|done|]. intros peers. apply on_request_failure_inv. }
  intros [blocks|]; [|by apply triple_ret]. apply triple_pure. intros Hg.
  eapply (triple_bind _ _ _ (fun _ => inv s0)).
  { apply close_request_ok; [done|done|]. intros peers. apply on_request_success_inv. }
  intros _. eapply (triple_bind _ _ _ (fun _ => inv s0)).
  { destruct (_ || _); [|by apply triple_ret]. apply triple_modify. intros s Hs. apply inv_watermark; [done|].
    intros w [= <-]. destruct (bf_max_range_slot s) as [w|] eqn:Ew; [|done].
    pose proof (bi_watermark _ (proj1 Hs) _ Ew). lia. }
  intros _. destruct (_ =? 0); [by apply triple_ret|]. by apply process_received_ok.
Qed.

Lemma batched_from_nonempty {A} fuel n (l : list A) : (0 < n)%nat -> Forall (fun c => c <> []) (batched_from fuel n l).
Proof.
  intros Hn. revert l. induction fuel as [|fuel IH]; intros [|x l]; cbn [batched_from]; try constructor; [|apply IH].
  by destruct n; [lia|].
Qed.

Lemma fill_range_ok fill s0 depth start count :
  fills fill -> 0 <= start -> 0 <= count -> start + count < 2 ^ 64 ->
  triple (inv s0) (fill_range view fill depth start count) (fun _ => inv s0) never.
Proof.
  intros Hf Hs Hc He. unfold fill_range. destruct (Z.eqb_spec count 0); [by apply triple_ret|].
  eapply (triple_bind _ _ _ (fun w s => inv s0 s /\ forall w', w = Some w' -> 0 <= w' < 2 ^ 64 - 1)).
  { apply triple_gets. intros s Hi. split; [done|]. apply Hi. }
  intros w. apply triple_pure. intros Hw.
  eapply (triple_bind _ _ _ (fun a s => inv s0 s /\ 0 <= a)).
  { apply triple_raising. intros s Hi. destruct w as [w|]; [|done]. specialize (Hw _ eq_refl).
    destruct (_ <? start); [done|]. unfold uint_add. rewrite uint_new_in_range by (unfold in_range; lia). split; [done|lia]. }
  intros actual. apply triple_pure. intros Ha. rewrite uint_new_in_range by (unfold in_range; lia).
  eapply (triple_bind _ _ _ (fun o s => inv s0 s /\ o = count - 1)); [by apply triple_raising|].
  intros o. apply triple_pure. intros ->. unfold uint_add. rewrite uint_new_in_range by (unfold in_range; lia).
  eapply (triple_bind _ _ _ (fun o s => inv s0 s /\ o = start + (count - 1))); [by apply triple_raising|].
  intros e. apply triple_pure. intros ->. destruct (_ <? actual); [by apply triple_ret|].
  rewrite batched_requests. set (slots := seqZ _ _).
  eapply (triple_bind _ _ _ (fun bs s => inv s0 s /\ bs = batched_from (length slots) (Z.to_nat MAX_REQUEST_BLOCKS) slots));
    [by apply triple_raising|].
  intros bs. apply triple_pure. intros ->. apply triple_for_each. intros batch Hin.
  apply fetch_range_ok; [done|..].
  - revert Hin. eapply (proj1 (Forall_forall (fun c => c <> []) _)). apply batched_from_nonempty. vm_compute. lia.
  - revert Hin. eapply (proj1 (Forall_forall (Forall (fun slot => 0 <= slot < 2 ^ 64 - 1)) _)).
    apply (batched_from_Forall _ (fun slot => 0 <= slot < 2 ^ 64 - 1)); [|done].
    apply Forall_forall. intros x [Hx1 Hx2]%elem_of_seqZ. lia.
Qed.

(** ** The whole recursion *)
Lemma fill_ok remaining : fills (fill view remaining).
Proof.
  induction remaining as [|remaining IH]; intros r s0 Hr; cbn [fill]; [by apply triple_ret|].
  destruct r as [roots|start count]; [by apply fill_missing_ok|]. destruct Hr as (? & ? & ?). by apply fill_range_ok.
Qed.

Lemma backfill_ok r s :
  request_ok r -> bf_inv s ->
  exists s', backfill view r s = (Ok tt, s') /\ bf_inv s' /\ framed s s'.
Proof.
  intros Hr Hs. unfold backfill. pose proof (fill_ok (Z.to_nat MAX_BACKFILL_DEPTH) r s Hr s) as Ht.
  destruct (fill view (Z.to_nat MAX_BACKFILL_DEPTH) r s) as [[[]|e] s'].
  - destruct Ht as [Hi Hf]; [by split|]. by exists s'.
  - destruct Ht. by split.
Qed.
End Correct.
