(* ===== verification/Xmss.v ===== *)
(** * The Generalized XMSS signature scheme (crypto/xmss)

    Constants and configuration, the tweakable Poseidon hash, the message encoding,
    the key derivation, the split Merkle tree, and key generation, signing and
    verification.  The container classes take their lengths from [TARGET_CONFIG],
    which is also the configuration of the scheme in use; the section variable
    [config] is that one configuration, [PROD_CONFIG] or [TEST_CONFIG] by the
    environment.  The operating system's randomness is a stream of draws
    ([randbelow]), threaded by the index of the next draw. *)

From S2P Require Import Prelude Pydict Uint Ssz SszCorrect Sha256 Merkle Containers Proofs.
From S2P Require Import Poseidon Shake128.

(** ** Configuration (constants.py) *)
Record XmssConfig := {
  cf_LOG_LIFETIME : Z;
  cf_DIMENSION : Z;
  cf_BASE : Z;
  cf_Z : Z;
  cf_Q : Z;
  cf_TARGET_SUM : Z;
  cf_MAX_TRIES : Z;
  cf_PARAMETER_LENGTH : Z;
  cf_TWEAK_LENGTH : Z;
  cf_MESSAGE_LENGTH : Z;
  cf_RAND_LENGTH : Z;
  cf_HASH_LENGTH : Z;
  cf_CAPACITY : Z
}.

(** [_validate_decomposition] *)
Definition decomposition_valid (c : XmssConfig) : bool :=
  (cf_Q c * cf_BASE c ^ cf_Z c =? P - 1) && (cf_LOG_LIFETIME c mod 2 =? 0).

Definition cf_LIFETIME (c : XmssConfig) : result Z := uint_new 64 (Z.shiftl 1 (cf_LOG_LIFETIME c)).
Definition cf_LEAVES_PER_BOTTOM_TREE (c : XmssConfig) : Z := Z.shiftl 1 (cf_LOG_LIFETIME c / 2).
(** [math.ceil(DIMENSION / Z)] *)
Definition cf_MH_HASH_LENGTH (c : XmssConfig) : Z := (cf_DIMENSION c + cf_Z c - 1) / cf_Z c.

Definition PROD_CONFIG : XmssConfig := {|
  cf_LOG_LIFETIME := 32; cf_DIMENSION := 46; cf_BASE := 8; cf_Z := 8; cf_Q := 127;
  cf_TARGET_SUM := 200; cf_MAX_TRIES := 100000; cf_PARAMETER_LENGTH := 5; cf_TWEAK_LENGTH := 2;
  cf_MESSAGE_LENGTH := 9; cf_RAND_LENGTH := 7; cf_HASH_LENGTH := 8; cf_CAPACITY := 9
|}.
Definition TEST_CONFIG : XmssConfig := {|
  cf_LOG_LIFETIME := 8; cf_DIMENSION := 4; cf_BASE := 8; cf_Z := 8; cf_Q := 127;
  cf_TARGET_SUM := 6; cf_MAX_TRIES := 100000; cf_PARAMETER_LENGTH := 5; cf_TWEAK_LENGTH := 2;
  cf_MESSAGE_LENGTH := 9; cf_RAND_LENGTH := 7; cf_HASH_LENGTH := 8; cf_CAPACITY := 9
|}.

Definition TWEAK_PREFIX_CHAIN : Z := 0x00.
Definition TWEAK_PREFIX_TREE : Z := 0x01.
Definition TWEAK_PREFIX_MESSAGE : Z := 0x02.
Definition PRF_KEY_LENGTH : Z := 32.

(** ** Field decomposition (field.py) *)
Fixpoint base_p_limbs (n : nat) (value : Z) : list Z * Z :=
  match n with
  | O => ([], value)
  | S n => let '(limbs, rest) := base_p_limbs n (value / P) in (fp_new value :: limbs, rest)
  end.
Definition int_to_base_p (value num_limbs : Z) : result (list Z) :=
  let '(limbs, remaining_value) := base_p_limbs (Z.to_nat num_limbs) value in
  check! remaining_value =? 0 else ValueError;; Ok limbs.

(** ** Tweaks (types.py) *)
Inductive Tweak :=
| TreeTweak (level index : Z)
| ChainTweak (epoch chain_index step : Z).

(** The integer a tweak is packed into. *)
Definition packed_tweak (tweak : Tweak) : Z :=
  match tweak with
  | TreeTweak level index =>
      Z.lor (Z.lor (Z.shiftl level 40) (Z.shiftl index 8)) TWEAK_PREFIX_TREE
  | ChainTweak epoch chain_index step =>
      Z.lor (Z.lor (Z.lor (Z.shiftl epoch 24) (Z.shiftl chain_index 16)) (Z.shiftl step 8))
        TWEAK_PREFIX_CHAIN
  end.

Abbreviation digest := (list Z).

(** ** The hash engine (poseidon.py) *)
Record PoseidonXmss := { params16 : PoseidonParams; params24 : PoseidonParams }.
Definition POSEIDON : PoseidonXmss := {| params16 := PARAMS_16; params24 := PARAMS_24 |}.

(** [_get_engine]; the cache only saves rebuilding the engine. *)
Definition _get_engine (poseidon : PoseidonXmss) (width : Z) : result Poseidon :=
  if width =? 16 then Ok (Poseidon_init (params16 poseidon))
  else if width =? 24 then Ok (Poseidon_init (params24 poseidon))
  else Err ValueError.

Definition poseidon_compress (poseidon : PoseidonXmss) (input_elements : list Z) (width output_length : Z)
    : result (list Z) :=
  check! output_length <=? Zlen input_elements else ValueError;;
  engine ← _get_engine poseidon width;
  let padded_input := input_elements ++ repeat 0 (Z.to_nat (width - Zlen input_elements)) in
  permuted_state ← permute engine padded_input;
  final_state ← zip_strict permuted_state padded_input;
  Ok (take (Z.to_nat output_length) (map (fun p => fp_add p.1 p.2) final_state)).

Definition safe_domain_separator (poseidon : PoseidonXmss) (lengths : list Z) (capacity_length : Z)
    : result (list Z) :=
  let packed_lengths := foldl (fun packed length => Z.lor (Z.shiftl packed 32) length) 0 lengths in
  input_elements ← int_to_base_p packed_lengths 24;
  poseidon_compress poseidon input_elements 24 capacity_length.

(** [state[i : i + len(chunk)] = chunk] *)
Definition assign_slice (state : list Z) (i : nat) (chunk : list Z) : list Z :=
  take i state ++ chunk ++ drop (i + length chunk) state.

(** The squeezing loop; each turn adds at least one element. *)
Fixpoint sponge_squeeze (fuel : nat) (engine : Poseidon) (capacity_length rate output_length : Z)
    (state output : list Z) : result (list Z) :=
  if Zlen output <? output_length then
    match fuel with
    | O => Err OutOfFuel
    | S fuel =>
        let output := output ++ take (Z.to_nat rate) (drop (Z.to_nat capacity_length) state) in
        state ← permute engine state;
        sponge_squeeze fuel engine capacity_length rate output_length state output
    end
  else Ok (take (Z.to_nat output_length) output).

Definition sponge (poseidon : PoseidonXmss) (input_elements capacity_value : list Z)
    (output_length width : Z) : result (list Z) :=
  check! Zlen capacity_value <? width else ValueError;;
  engine ← _get_engine poseidon width;
  let rate := width - Zlen capacity_value in
  let num_padding_elements := (rate - Zlen input_elements mod rate) mod rate in
  let padded_input := input_elements ++ repeat 0 (Z.to_nat num_padding_elements) in
  let capacity_length := Zlen capacity_value in
  let state := assign_slice (repeat 0 (Z.to_nat width)) 0 capacity_value in
  chunks ← batched padded_input rate;
  state ← foldM (fun state chunk => permute engine (assign_slice state (Z.to_nat capacity_length) chunk))
            state chunks;
  sponge_squeeze (Z.to_nat output_length) engine capacity_length rate output_length state [].

(** ** The scheme, for one configuration *)
Section Scheme.
Context (config : XmssConfig) (poseidon : PoseidonXmss).

(** [HashDigestVector(data=...)], [Randomness(data=...)] and [Parameter(data=...)] *)
Definition vector_new (length : Z) (data : list Z) : result (list Z) :=
  check! Zlen data =? length else SSZValueError;; Ok data.
Definition HashDigestVector_new (data : list Z) : result digest :=
  vector_new (cf_HASH_LENGTH config) data.

(** [HashDigestList(data=...)], bounded by [NODE_LIST_LIMIT] *)
Definition cf_NODE_LIST_LIMIT : Z := 2 * cf_LEAVES_PER_BOTTOM_TREE config.
Definition HashDigestList_new (data : list digest) : result (list digest) :=
  check! Zlen data <=? cf_NODE_LIST_LIMIT else SSZValueError;; Ok data.

Definition tweak_hash (parameter : list Z) (tweak : Tweak) (message_digests : list digest)
    : result digest :=
  encoded_tweak ← int_to_base_p (packed_tweak tweak) (cf_TWEAK_LENGTH config);
  digest ←
    match message_digests with
    | [d] => poseidon_compress poseidon (d ++ parameter ++ encoded_tweak) 16 (cf_HASH_LENGTH config)
    | [l; r] =>
        poseidon_compress poseidon (parameter ++ encoded_tweak ++ l ++ r) 24
          (cf_HASH_LENGTH config)
    | _ =>
        let input_elements := parameter ++ encoded_tweak ++ mjoin message_digests in
        let lengths := [cf_PARAMETER_LENGTH config; cf_TWEAK_LENGTH config; cf_DIMENSION config;
                        cf_HASH_LENGTH config] in
        capacity_value ← safe_domain_separator poseidon lengths (cf_CAPACITY config);
        sponge poseidon input_elements capacity_value (cf_HASH_LENGTH config) 24
    end;
  HashDigestVector_new digest.

(** [hash_chain]: [num_steps] iterations from step [start_step]. *)
Fixpoint hash_chain (parameter : list Z) (epoch chain_index start_step : Z) (num_steps : nat)
    (start_digest : digest) : result digest :=
  match num_steps with
  | O => Ok start_digest
  | S num_steps =>
      d ← tweak_hash parameter (ChainTweak epoch chain_index (start_step + 1)) [start_digest];
      hash_chain parameter epoch chain_index (start_step + 1) num_steps d
  end.

(** ** Message encoding (encoding.py) *)
Definition encode_message (message : Bytes32) : result (list Z) :=
  int_to_base_p (from_bytes_le message) (cf_MESSAGE_LENGTH config).

Definition encode_epoch (epoch : Z) : result (list Z) :=
  int_to_base_p (Z.lor (Z.shiftl epoch 8) TWEAK_PREFIX_MESSAGE) (cf_TWEAK_LENGTH config).

(** [n] base-[BASE] digits, least significant first *)
Fixpoint base_digits (n : nat) (quotient : Z) : list Z :=
  match n with
  | O => []
  | S n => quotient mod cf_BASE config :: base_digits n (quotient / cf_BASE config)
  end.

Fixpoint decode_elements (field_elements : list Z) : option (list Z) :=
  match field_elements with
  | [] => Some []
  | element_value :: field_elements =>
      if cf_Q config * cf_BASE config ^ cf_Z config <=? element_value then None
      else
        digits ← decode_elements field_elements;
        Some (base_digits (Z.to_nat (cf_Z config)) (element_value / cf_Q config) ++ digits)
  end.
Definition aborting_decode (field_elements : list Z) : option (list Z) :=
  take (Z.to_nat (cf_DIMENSION config)) <$> decode_elements field_elements.

Definition message_hash (parameter : list Z) (epoch : Z) (rho : list Z) (message : Bytes32)
    : result (option (list Z)) :=
  message_field_elements ← encode_message message;
  epoch_field_elements ← encode_epoch epoch;
  let base_input := message_field_elements ++ parameter ++ epoch_field_elements ++ rho in
  poseidon_output ← poseidon_compress poseidon base_input 24 (cf_MH_HASH_LENGTH config);
  Ok (aborting_decode poseidon_output).

Definition target_sum_encode (parameter : list Z) (epoch : Z) (rho : list Z) (message : Bytes32)
    : result (option (list Z)) :=
  codeword_candidate ← message_hash parameter epoch rho message;
  match codeword_candidate with
  | None => Ok None
  | Some codeword => if sum codeword =? cf_TARGET_SUM config then Ok (Some codeword) else Ok None
  end.

(** ** Key derivation (prf.py) *)
Definition PRF_DOMAIN_SEP : bytes :=
  [Byte.xae; Byte.xae; Byte.x22; Byte.xff; Byte.x00; Byte.x01; Byte.xfa; Byte.xff;
   Byte.x21; Byte.xaf; Byte.x12; Byte.x00; Byte.x01; Byte.x11; Byte.xff; Byte.x00].
Definition PRF_DOMAIN_SEP_DOMAIN_ELEMENT : bytes := [Byte.x00].
Definition PRF_DOMAIN_SEP_RANDOMNESS : bytes := [Byte.x01].
Definition PRF_BYTES_PER_FIELD_ELEMENT : Z := 16.

(** [int.to_bytes(n, "big")] *)
Definition to_bytes_be (n z : Z) : result bytes := @rev _ <$> to_bytes_le n z.

(** [n] field elements of the PRF output, 16 bytes each, big-endian *)
Definition prf_elements (input_data : bytes) (n : Z) : result (list Z) :=
  let num_bytes_to_read := PRF_BYTES_PER_FIELD_ELEMENT * n in
  let prf_output_bytes := shake_128 input_data (Z.to_nat num_bytes_to_read) in
  chunks ← batched prf_output_bytes PRF_BYTES_PER_FIELD_ELEMENT;
  Ok (map (fun chunk => fp_new (from_bytes_le (rev chunk))) chunks).

Definition derive_chain_start (prf_key : bytes) (epoch chain_index : Z) : result digest :=
  epoch_bytes ← to_bytes_be 4 epoch;
  index_bytes ← to_bytes_be 8 chain_index;
  data ← prf_elements
    (PRF_DOMAIN_SEP ++ PRF_DOMAIN_SEP_DOMAIN_ELEMENT ++ prf_key ++ epoch_bytes ++ index_bytes)
    (cf_HASH_LENGTH config);
  HashDigestVector_new data.

Definition derive_randomness (prf_key : bytes) (epoch : Z) (message : Bytes32) (counter : Z)
    : result (list Z) :=
  epoch_bytes ← to_bytes_be 4 epoch;
  counter_bytes ← to_bytes_be 8 counter;
  data ← prf_elements
    (PRF_DOMAIN_SEP ++ PRF_DOMAIN_SEP_RANDOMNESS ++ prf_key ++ epoch_bytes ++ message ++ counter_bytes)
    (cf_RAND_LENGTH config);
  vector_new (cf_RAND_LENGTH config) data.

(** ** Verification of an opening (merkle.py) *)

(** The climb from a node at [level] and [position] through its siblings. *)
Fixpoint climb (parameter : list Z) (level position : Z) (node : digest) (siblings : list digest)
    : result digest :=
  match siblings with
  | [] => Ok node
  | sibling :: siblings =>
      let '(l, r) := if position mod 2 =? 0 then (node, sibling) else (sibling, node) in
      index ← uint_new 64 (position / 2);
      parent ← tweak_hash parameter (TreeTweak (level + 1) index) [l; r];
      climb parameter (level + 1) (position / 2) parent siblings
  end.

Definition verify_path (parameter : list Z) (root : digest) (position : Z)
    (leaf_chain_ends opening : list digest) : result bool :=
  if negb (Zlen opening =? cf_LOG_LIFETIME config) then Ok false
  else
    lifetime ← cf_LIFETIME config;
    if lifetime <=? position then Ok false
    else
      index ← uint_new 64 position;
      leaf ← tweak_hash parameter (TreeTweak 0 index) leaf_chain_ends;
      current_node ← climb parameter 0 position leaf opening;
      Ok (bool_decide (current_node = root)).

(** ** Verification of a signature (interface.py) *)
Record PublicKey := { pk_root : digest; pk_parameter : list Z }.

(** The loop over [enumerate(codeword)]: finish each chain from its released digest. *)
Fixpoint finish_chains (parameter : list Z) (slot : Z) (hashes : list digest) (chain_index : Z)
    (codeword : list Z) : result (list digest) :=
  match codeword with
  | [] => Ok []
  | digit :: codeword =>
      start_digest ← of_option IndexError (hashes !! Z.to_nat chain_index);
      end_digest ← hash_chain parameter slot chain_index digit
                     (Z.to_nat (cf_BASE config - 1 - digit)) start_digest;
      rest ← finish_chains parameter slot hashes (chain_index + 1) codeword;
      Ok (end_digest :: rest)
  end.

Definition verify (public_key : PublicKey) (slot : Z) (message : Bytes32) (signature : Signature)
    : result bool :=
  lifetime ← cf_LIFETIME config;
  if lifetime <=? slot then Ok false
  else
    codeword ← target_sum_encode (pk_parameter public_key) slot (sig_rho signature) message;
    match codeword with
    | None => Ok false
    | Some codeword =>
        if negb (Zlen (sig_hashes signature) =? cf_DIMENSION config) then Ok false
        else if negb (Zlen (sig_path signature) =? cf_LOG_LIFETIME config) then Ok false
        else
          chain_ends ← finish_chains (pk_parameter public_key) slot (sig_hashes signature) 0 codeword;
          verify_path (pk_parameter public_key) (pk_root public_key) slot chain_ends
            (sig_path signature)
    end.

(** ** Randomness *)
Context (randbelow : nat -> Z).

(** [random_field_elements]: the draws from [n] on, and the next draw *)
Definition random_field_elements (length : Z) (n : nat) : list Z * nat :=
  (map (fun i => fp_new (randbelow i)) (seq n (Z.to_nat length)), (n + Z.to_nat length)%nat).
Definition random_parameter (n : nat) : result (list Z * nat) :=
  let '(elements, n) := random_field_elements (cf_PARAMETER_LENGTH config) n in
  data ← vector_new (cf_PARAMETER_LENGTH config) elements; Ok (data, n).
Definition random_domain (n : nat) : result (digest * nat) :=
  let '(elements, n) := random_field_elements (cf_HASH_LENGTH config) n in
  data ← HashDigestVector_new elements; Ok (data, n).

(** ** Sparse Merkle subtrees (merkle.py) *)
Record HashTreeLayer := { hl_start_index : Z; hl_nodes : list digest }.
Record HashSubTree := { hs_depth : Z; hs_lowest_layer : Z; hs_layers : list HashTreeLayer }.

(** One random sibling when [b], none otherwise *)
Definition pad_if (b : bool) (n : nat) : result (list digest * nat) :=
  if b then '(d, n) ← random_domain n; Ok ([d], n) else Ok ([], n).

Definition padded (nodes : list digest) (start_index : Z) (n : nat) : result (HashTreeLayer * nat) :=
  count ← uint_new 64 (Zlen nodes);
  stop ← uint_add 64 start_index count;
  end_index ← uint_sub 64 stop 1;
  parity ← uint_mod 64 start_index 2;
  '(before, n) ← pad_if (parity =? 1) n;
  actual_start_index ← uint_sub 64 start_index parity;
  end_parity ← uint_mod 64 end_index 2;
  '(after, n) ← pad_if (end_parity =? 0) n;
  nodes_with_padding ← HashDigestList_new (before ++ nodes ++ after);
  Ok ({| hl_start_index := actual_start_index; hl_nodes := nodes_with_padding |}, n).

(** The parents of the pairs [batched(nodes, 2)], from pair [pair_index] on *)
Fixpoint hash_pairs (parameter : list Z) (level parent_start pair_index : Z) (nodes : list digest)
    : result (list digest) :=
  match nodes with
  | [] => Ok []
  | [_] => Err ValueError
  | l :: r :: nodes =>
      offset ← uint_new 64 pair_index;
      index ← uint_add 64 parent_start offset;
      parent ← tweak_hash parameter (TreeTweak (level + 1) index) [l; r];
      parents ← hash_pairs parameter level parent_start (pair_index + 1) nodes;
      Ok (parent :: parents)
  end.

(** The loop over levels: the layers above [current_layer]. *)
Fixpoint build_layers (levels : nat) (parameter : list Z) (level : Z) (current_layer : HashTreeLayer)
    (n : nat) : result (list HashTreeLayer * nat) :=
  match levels with
  | O => Ok ([], n)
  | S levels =>
      parent_start ← uint_floordiv 64 (hl_start_index current_layer) 2;
      parents ← hash_pairs parameter level parent_start 0 (hl_nodes current_layer);
      '(layer, n) ← padded parents parent_start n;
      '(layers, n) ← build_layers levels parameter (level + 1) layer n;
      Ok (layer :: layers, n)
  end.

(** [HashTreeLayers(data=...)] *)
Definition HashTreeLayers_new (data : list HashTreeLayer) : result (list HashTreeLayer) :=
  check! Zlen data <=? cf_LOG_LIFETIME config + 1 else SSZValueError;; Ok data.

(** [HashSubTree.new] *)
Definition subtree_new (lowest_layer depth start_index : Z) (parameter : list Z)
    (lowest_layer_nodes : list digest) (highest_layer : option Z) (n : nat)
    : result (HashSubTree * nat) :=
  let highest_layer := match highest_layer with None => depth | Some h => h end in
  height ← uint_sub 64 depth lowest_layer;
  let max_positions := Z.shiftl 1 height in
  check! start_index + Zlen lowest_layer_nodes <=? max_positions else ValueError;;
  '(current_layer, n) ← padded lowest_layer_nodes start_index n;
  '(above, n) ← build_layers (Z.to_nat (highest_layer - lowest_layer)) parameter lowest_layer
                  current_layer n;
  layers ← HashTreeLayers_new (current_layer :: above);
  Ok ({| hs_depth := depth; hs_lowest_layer := lowest_layer; hs_layers := layers |}, n).

Definition new_top_tree (depth start_bottom_tree_index : Z) (parameter : list Z)
    (bottom_tree_roots : list digest) (n : nat) : result (HashSubTree * nat) :=
  check! depth mod 2 =? 0 else ValueError;;
  lowest ← uint_new 64 (depth / 2);
  depth ← uint_new 64 depth;
  subtree_new lowest depth start_bottom_tree_index parameter bottom_tree_roots None n.

Definition new_bottom_tree (depth bottom_tree_index : Z) (parameter : list Z) (leaves : list digest)
    (n : nat) : result (HashSubTree * nat) :=
  check! depth mod 2 =? 0 else ValueError;;
  let leaves_per_tree := Z.shiftl 1 (depth / 2) in
  check! Zlen leaves =? leaves_per_tree else ValueError;;
  udepth ← uint_new 64 depth;
  per_tree ← uint_new 64 leaves_per_tree;
  start_index ← uint_mul 64 bottom_tree_index per_tree;
  highest ← uint_new 64 (depth / 2);
  '(subtree, n) ← subtree_new 0 udepth start_index parameter leaves (Some highest) n;
  top_layer ← of_option IndexError (last (hs_layers subtree));
  root_index ← uint_sub 64 bottom_tree_index (hl_start_index top_layer);
  root ← of_option IndexError (hl_nodes top_layer !! Z.to_nat root_index);
  nodes ← HashDigestList_new [root];
  layers ← HashTreeLayers_new
    (removelast (hs_layers subtree) ++ [{| hl_start_index := bottom_tree_index; hl_nodes := nodes |}]);
  Ok ({| hs_depth := udepth; hs_lowest_layer := 0; hs_layers := layers |}, n).

(** The public end of one chain of [epoch] *)
Definition chain_end (prf_key : bytes) (parameter : list Z) (epoch chain_index : Z) : result digest :=
  index ← uint_new 64 chain_index;
  start_digest ← derive_chain_start prf_key epoch index;
  hash_chain parameter epoch chain_index 0 (Z.to_nat (cf_BASE config - 1)) start_digest.

(** [range(0, DIMENSION)] *)
Definition chain_indices : list Z := map Z.of_nat (seq 0 (Z.to_nat (cf_DIMENSION config))).

(** The leaf of [epoch]: all its chain ends, hashed *)
Definition leaf_hash (prf_key : bytes) (parameter : list Z) (epoch : Z) : result digest :=
  epoch ← uint_new 64 epoch;
  chain_ends ← mapM (chain_end prf_key parameter epoch) chain_indices;
  tweak_hash parameter (TreeTweak 0 epoch) chain_ends.

Definition from_prf_key (prf_key : bytes) (bottom_tree_index : Z) (parameter : list Z) (n : nat)
    : result (HashSubTree * nat) :=
  leaves_per_bottom_tree ← uint_new 64 (cf_LEAVES_PER_BOTTOM_TREE config);
  start_epoch ← uint_mul 64 bottom_tree_index leaves_per_bottom_tree;
  end_epoch ← uint_add 64 start_epoch leaves_per_bottom_tree;
  leaf_hashes ← mapM (fun i => leaf_hash prf_key parameter (start_epoch + Z.of_nat i))
                  (seq 0 (Z.to_nat (end_epoch - start_epoch)));
  new_bottom_tree (cf_LOG_LIFETIME config) bottom_tree_index parameter leaf_hashes n.

(** [HashSubTree.root] *)
Definition subtree_root (t : HashSubTree) : result digest :=
  top ← of_option ValueError (last (hs_layers t));
  of_option ValueError (head (hl_nodes top)).

(** The siblings of [position] and of its ancestors *)
Fixpoint collect_siblings (position : Z) (layers : list HashTreeLayer) : result (list digest) :=
  match layers with
  | [] => Ok []
  | layer :: layers =>
      let sibling_index := Z.lxor position 1 - hl_start_index layer in
      check! (0 <=? sibling_index) && (sibling_index <? Zlen (hl_nodes layer)) else ValueError;;
      sibling ← of_option IndexError (hl_nodes layer !! Z.to_nat sibling_index);
      rest ← collect_siblings (position / 2) layers;
      Ok (sibling :: rest)
  end.

(** [HashSubTree.path] *)
Definition subtree_path (t : HashSubTree) (position : Z) : result (list digest) :=
  leaf_layer ← of_option ValueError (head (hs_layers t));
  check! hl_start_index leaf_layer <=? position else ValueError;;
  count ← uint_new 64 (Zlen (hl_nodes leaf_layer));
  stop ← uint_add 64 (hl_start_index leaf_layer) count;
  check! position <? stop else ValueError;;
  siblings ← collect_siblings position (removelast (hs_layers t));
  HashDigestList_new siblings.

Definition combined_path (top_tree bottom_tree : HashSubTree) (position : Z) : result (list digest) :=
  check! hs_depth top_tree =? hs_depth bottom_tree else ValueError;;
  let depth := hs_depth top_tree in
  check! depth mod 2 =? 0 else ValueError;;
  leaves_per_tree ← uint_new 64 (Z.shiftl 1 (depth / 2));
  quotient ← uint_floordiv 64 position leaves_per_tree;
  expected_start ← uint_mul 64 quotient leaves_per_tree;
  bottom_layer ← of_option IndexError (head (hs_layers bottom_tree));
  check! hl_start_index bottom_layer =? expected_start else ValueError;;
  bottom_path ← subtree_path bottom_tree position;
  quotient ← uint_floordiv 64 position leaves_per_tree;
  top_path ← subtree_path top_tree quotient;
  HashDigestList_new (bottom_path ++ top_path).

(** ** Key generation and signing (interface.py) *)
Definition _expand_activation_time (log_lifetime desired_activation_slot desired_num_active_slots : Z)
    : Z * Z :=
  let leaves_per_bottom_tree := Z.shiftl 1 (log_lifetime / 2) in
  let bottom_tree_alignment_mask := Z.lnot (leaves_per_bottom_tree - 1) in
  let desired_end_slot := desired_activation_slot + desired_num_active_slots in
  let start := Z.land desired_activation_slot bottom_tree_alignment_mask in
  let stop := Z.land (desired_end_slot + leaves_per_bottom_tree - 1) bottom_tree_alignment_mask in
  let stop :=
    if stop - start <? 2 * leaves_per_bottom_tree then start + 2 * leaves_per_bottom_tree else stop in
  let lifetime := leaves_per_bottom_tree * leaves_per_bottom_tree in
  let '(start, stop) :=
    if stop >? lifetime then
      let duration := stop - start in
      if duration >? lifetime then (0, lifetime)
      else (Z.land (lifetime - duration) bottom_tree_alignment_mask, lifetime)
    else (start, stop) in
  (start / leaves_per_bottom_tree, stop / leaves_per_bottom_tree).

Record SecretKey := {
  sk_prf_key : bytes;
  sk_parameter : list Z;
  sk_activation_slot : Z;
  sk_num_active_slots : Z;
  sk_top_tree : HashSubTree;
  sk_left_bottom_tree_index : Z;
  sk_left_bottom_tree : HashSubTree;
  sk_right_bottom_tree : HashSubTree
}.

(** The loop of phase 4: the roots of [count] bottom trees from index [i] on *)
Fixpoint bottom_roots (count : nat) (prf_key : bytes) (parameter : list Z) (i : Z) (n : nat)
    : result (list digest * nat) :=
  match count with
  | O => Ok ([], n)
  | S count =>
      index ← uint_new 64 i;
      '(tree, n) ← from_prf_key prf_key index parameter n;
      root ← subtree_root tree;
      '(roots, n) ← bottom_roots count prf_key parameter (i + 1) n;
      Ok (root :: roots, n)
  end.

(** [key_gen]; [prf_key] is the [os.urandom] draw, the other draws start at [n]. *)
Definition key_gen (activation_slot num_active_slots : Z) (urandom : bytes) (n : nat)
    : result (PublicKey * SecretKey) :=
  lifetime ← cf_LIFETIME config;
  check! activation_slot + num_active_slots <=? lifetime else ValueError;;
  '(parameter, n) ← random_parameter n;
  prf_key ← bytes_new PRF_KEY_LENGTH urandom;
  let '(start_bottom_tree_index, end_bottom_tree_index) :=
    _expand_activation_time (cf_LOG_LIFETIME config) activation_slot num_active_slots in
  let actual_activation_slot := start_bottom_tree_index * cf_LEAVES_PER_BOTTOM_TREE config in
  let actual_num_active_slots :=
    (end_bottom_tree_index - start_bottom_tree_index) * cf_LEAVES_PER_BOTTOM_TREE config in
  left_index ← uint_new 64 start_bottom_tree_index;
  '(left_bottom_tree, n) ← from_prf_key prf_key left_index parameter n;
  right_index ← uint_new 64 (start_bottom_tree_index + 1);
  '(right_bottom_tree, n) ← from_prf_key prf_key right_index parameter n;
  left_root ← subtree_root left_bottom_tree;
  right_root ← subtree_root right_bottom_tree;
  '(roots, n) ← bottom_roots (Z.to_nat (end_bottom_tree_index - (start_bottom_tree_index + 2)))
                  prf_key parameter (start_bottom_tree_index + 2) n;
  '(top_tree, n) ← new_top_tree (cf_LOG_LIFETIME config) left_index parameter
                     (left_root :: right_root :: roots) n;
  root ← subtree_root top_tree;
  activation ← uint_new 64 actual_activation_slot;
  num_active ← uint_new 64 actual_num_active_slots;
  Ok ({| pk_root := root; pk_parameter := parameter |},
      {| sk_prf_key := prf_key; sk_parameter := parameter; sk_activation_slot := activation;
         sk_num_active_slots := num_active; sk_top_tree := top_tree;
         sk_left_bottom_tree_index := left_index; sk_left_bottom_tree := left_bottom_tree;
         sk_right_bottom_tree := right_bottom_tree |}).

(** [get_activation_interval] and [get_prepared_interval], as half-open intervals *)
Definition get_activation_interval (secret_key : SecretKey) : Z * Z :=
  (sk_activation_slot secret_key, sk_activation_slot secret_key + sk_num_active_slots secret_key).
Definition get_prepared_interval (secret_key : SecretKey) : Z * Z :=
  let start := sk_left_bottom_tree_index secret_key * cf_LEAVES_PER_BOTTOM_TREE config in
  (start, start + 2 * cf_LEAVES_PER_BOTTOM_TREE config).

(** The search for an encoding, with [tries] attempts left *)
Fixpoint find_codeword (tries : nat) (secret_key : SecretKey) (slot : Z) (message : Bytes32)
    (attempts : Z) : result (list Z * list Z) :=
  match tries with
  | O => Err RuntimeError
  | S tries =>
      counter ← uint_new 64 attempts;
      rho ← derive_randomness (sk_prf_key secret_key) slot message counter;
      codeword ← target_sum_encode (sk_parameter secret_key) slot rho message;
      match codeword with
      | Some codeword => Ok (rho, codeword)
      | None => find_codeword tries secret_key slot message (attempts + 1)
      end
  end.

(** The loop over [enumerate(codeword)]: the digest each digit releases *)
Fixpoint release_chains (secret_key : SecretKey) (slot chain_index : Z) (codeword : list Z)
    : result (list digest) :=
  match codeword with
  | [] => Ok []
  | steps :: codeword =>
      index ← uint_new 64 chain_index;
      start_digest ← derive_chain_start (sk_prf_key secret_key) slot index;
      released ← hash_chain (sk_parameter secret_key) slot chain_index 0 (Z.to_nat steps) start_digest;
      rest ← release_chains secret_key slot (chain_index + 1) codeword;
      Ok (released :: rest)
  end.

(** [Signature(path=..., rho=..., hashes=...)] *)
Definition signature_new (path : list digest) (rho : list Z) (hashes : list digest)
    : result Signature :=
  check! Zlen path =? cf_LOG_LIFETIME config else SSZSerializationError;;
  check! Zlen hashes =? cf_DIMENSION config else SSZSerializationError;;
  Ok {| sig_path := path; sig_rho := rho; sig_hashes := hashes |}.

Definition sign (secret_key : SecretKey) (slot : Z) (message : Bytes32) : result Signature :=
  let activation := sk_activation_slot secret_key in
  check! (activation <=? slot) && (slot <? activation + sk_num_active_slots secret_key)
    else ValueError;;
  let '(prepared_start, prepared_stop) := get_prepared_interval secret_key in
  check! (prepared_start <=? slot) && (slot <? prepared_stop) else ValueError;;
  '(rho, codeword) ← find_codeword (Z.to_nat (cf_MAX_TRIES config)) secret_key slot message 0;
  check! Zlen codeword =? cf_DIMENSION config else RuntimeError;;
  released_chain_hashes ← release_chains secret_key slot 0 codeword;
  let boundary := prepared_start + cf_LEAVES_PER_BOTTOM_TREE config in
  let bottom_tree :=
    if slot <? boundary then sk_left_bottom_tree secret_key else sk_right_bottom_tree secret_key in
  path ← combined_path (sk_top_tree secret_key) bottom_tree slot;
  hashes ← HashDigestList_new released_chain_hashes;
  signature_new path rho hashes.

Definition advance_preparation (secret_key : SecretKey) (n : nat) : result SecretKey :=
  let left_index := sk_left_bottom_tree_index secret_key in
  let next_prepared_end_slot := (left_index + 3) * cf_LEAVES_PER_BOTTOM_TREE config in
  let activation_end := sk_activation_slot secret_key + sk_num_active_slots secret_key in
  if next_prepared_end_slot >? activation_end then Ok secret_key
  else
    index ← uint_new 64 (left_index + 2);
    '(new_right_bottom_tree, _) ←
      from_prf_key (sk_prf_key secret_key) index (sk_parameter secret_key) n;
    new_left ← uint_new 64 (left_index + 1);
    Ok {| sk_prf_key := sk_prf_key secret_key; sk_parameter := sk_parameter secret_key;
          sk_activation_slot := sk_activation_slot secret_key;
          sk_num_active_slots := sk_num_active_slots secret_key;
          sk_top_tree := sk_top_tree secret_key;
          sk_left_bottom_tree_index := new_left;
          sk_left_bottom_tree := sk_right_bottom_tree secret_key;
          sk_right_bottom_tree := new_right_bottom_tree |}.
End Scheme.
