(* ===== verification/XmssCorrect.v ===== *)
(** * The signature scheme: hashing and verification are total

    On well-formed keys, messages and signatures no step of the scheme raises: tweaks
    and messages fit their limbs, the hash modes fit their widths, encodings have one
    digit per chain.  Tweaks of different positions never pack to the same field
    elements, and two encodings never dominate each other. *)

From S2P Require Import Prelude Pydict Uint Ssz SszCorrect Sha256 Merkle Containers Proofs.
From S2P Require Import Poseidon Shake128 Xmss.

(** ** Limbs *)
Fixpoint limbs_value (l : list Z) : Z :=
  match l with [] => 0 | x :: l => x + P * limbs_value l end.

Lemma base_p_limbs_spec n v :
  0 <= v ->
  let '(l, rest) := base_p_limbs n v in
  length l = n /\ Forall in_field l /\ v = limbs_value l + P ^ Z.of_nat n * rest /\ 0 <= rest /\
  rest = v / P ^ Z.of_nat n.
Proof.
  revert v. induction n as [|n IH]; intros v Hv; cbn [base_p_limbs].
  - cbn [length limbs_value]. change (P ^ Z.of_nat 0) with 1. rewrite Z.div_1_r. split_and!; auto; lia.
  - specialize (IH (v / P) ltac:(apply Z.div_pos; done)).
    destruct (base_p_limbs n (v / P)) as [l rest]. destruct IH as (Hl & Hf & Hv' & Hr & Hd).
    rewrite Nat2Z.inj_succ, Z.pow_succ_r by lia. split_and!.
    + simpl. lia.
    + constructor; [apply mod_in_field|done].
    + cbn [limbs_value]. unfold fp_new. pose proof (Z.div_mod v P ltac:(done)). lia.
    + done.
    + rewrite Hd, Z.div_div; [done|done|]. apply Z.pow_pos_nonneg; [done|lia].
Qed.

Lemma int_to_base_p_ok v n :
  0 <= n -> 0 <= v < P ^ n ->
  exists l, int_to_base_p v n = Ok l /\ Zlen l = n /\ Forall in_field l /\ limbs_value l = v.
Proof.
  intros Hn Hv. unfold int_to_base_p. pose proof (base_p_limbs_spec (Z.to_nat n) v ltac:(lia)) as H.
  destruct (base_p_limbs _ v) as [l rest]. destruct H as (Hl & Hf & Hv' & Hr & Hd).
  rewrite Z2Nat.id in * by done. rewrite Z.div_small in Hd by done. subst rest. cbn [Z.eqb].
  exists l. split_and!; [done|lia|done|lia].
Qed.

(** ** Packing *)
(** The positions the scheme hashes at. *)
Definition tweak_ok (t : Tweak) : Prop :=
  match t with
  | TreeTweak level index => 0 <= level <= 32 /\ 0 <= index < 2 ^ 32
  | ChainTweak epoch chain_index step =>
      0 <= epoch < 2 ^ 32 /\ 0 <= chain_index < 2 ^ 8 /\ 0 <= step < 2 ^ 8
  end.

Lemma packed_tree level index :
  0 <= index < 2 ^ 32 -> packed_tweak (TreeTweak level index) = level * 2 ^ 40 + index * 2 ^ 8 + 1.
Proof.
  intros H. cbn [packed_tweak]. rewrite <- Z.lor_assoc. unfold TWEAK_PREFIX_TREE.
  rewrite (lor_shiftl index) by lia. rewrite lor_shiftl by lia. ring.
Qed.

Lemma packed_chain epoch chain_index step :
  0 <= chain_index < 2 ^ 8 -> 0 <= step < 2 ^ 8 ->
  packed_tweak (ChainTweak epoch chain_index step) =
    epoch * 2 ^ 24 + chain_index * 2 ^ 16 + step * 2 ^ 8.
Proof.
  intros H1 H2. cbn [packed_tweak]. rewrite <- !Z.lor_assoc. unfold TWEAK_PREFIX_CHAIN.
  rewrite (lor_shiftl step) by lia. rewrite (lor_shiftl chain_index) by lia.
  rewrite lor_shiftl by lia. ring.
Qed.

Lemma packed_tweak_range t : tweak_ok t -> 0 <= packed_tweak t < 2 ^ 56.
Proof.
  destruct t as [level index|epoch ci step].
  - intros [H1 H2]. rewrite packed_tree by done. lia.
  - intros (H1 & H2 & H3). rewrite packed_chain by done. lia.
Qed.

Lemma packed_tweak_inj t1 t2 :
  tweak_ok t1 -> tweak_ok t2 -> packed_tweak t1 = packed_tweak t2 -> t1 = t2.
Proof.
  destruct t1 as [l1 i1|e1 c1 s1], t2 as [l2 i2|e2 c2 s2]; cbn [tweak_ok].
  - intros [? ?] [? ?]. rewrite !packed_tree by done. intros. f_equal; lia.
  - intros [? ?] (? & ? & ?). rewrite packed_tree, packed_chain by done. lia.
  - intros (? & ? & ?) [? ?]. rewrite packed_tree, packed_chain by done. lia.
  - intros (? & ? & ?) (? & ? & ?). rewrite !packed_chain by done. intros. f_equal; lia.
Qed.

(** ** Supported schemes

    What the lengths of a configuration must satisfy for the hash modes to fit; both
    presets do. *)
Record scheme_ok (c : XmssConfig) (ph : PoseidonXmss) : Prop := {
  so_16 : params_ok (params16 ph) /\ width (params16 ph) = 16;
  so_24 : params_ok (params24 ph) /\ width (params24 ph) = 24;
  so_decomposition : decomposition_valid c = true;
  so_log : 2 <= cf_LOG_LIFETIME c <= 32;
  so_dimension : 3 <= cf_DIMENSION c <= 256 /\ cf_DIMENSION c <= cf_NODE_LIST_LIMIT c;
  so_base : 2 <= cf_BASE c <= 256;
  so_digits : 0 < cf_Z c /\ 0 < cf_Q c;
  so_tries : 0 <= cf_MAX_TRIES c < 2 ^ 64;
  so_positive : 0 < cf_PARAMETER_LENGTH c /\ 0 < cf_TWEAK_LENGTH c /\ 0 < cf_MESSAGE_LENGTH c /\
    0 < cf_RAND_LENGTH c /\ 0 < cf_HASH_LENGTH c;
  so_chain : cf_HASH_LENGTH c + cf_PARAMETER_LENGTH c + cf_TWEAK_LENGTH c <= 16;
  so_node : cf_PARAMETER_LENGTH c + cf_TWEAK_LENGTH c + 2 * cf_HASH_LENGTH c <= 24;
  so_message : cf_MESSAGE_LENGTH c + cf_PARAMETER_LENGTH c + cf_TWEAK_LENGTH c + cf_RAND_LENGTH c <= 24;
  so_output : cf_MH_HASH_LENGTH c <=
    cf_MESSAGE_LENGTH c + cf_PARAMETER_LENGTH c + cf_TWEAK_LENGTH c + cf_RAND_LENGTH c;
  so_capacity : 0 < cf_CAPACITY c < 24;
  so_tweak_fits : 2 ^ 56 <= P ^ cf_TWEAK_LENGTH c;
  so_message_fits : 2 ^ 256 <= P ^ cf_MESSAGE_LENGTH c
}.

Ltac scheme_ok_tac :=
  constructor; try (split; [first [exact params_16_ok|exact params_24_ok]|reflexivity]);
  first [reflexivity | split_and!; vm_compute; congruence | vm_compute; congruence].

Lemma prod_scheme_ok : scheme_ok PROD_CONFIG POSEIDON.
Proof. scheme_ok_tac. Qed.
Lemma test_scheme_ok : scheme_ok TEST_CONFIG POSEIDON.
Proof. scheme_ok_tac. Qed.

Section Total.
Context (c : XmssConfig) (ph : PoseidonXmss).
Hypothesis Hok : scheme_ok c ph.

Definition vector_ok (n : Z) (l : list Z) : Prop := Zlen l = n /\ Forall in_field l.
Abbreviation digest_ok := (vector_ok (cf_HASH_LENGTH c)).
Abbreviation parameter_ok := (vector_ok (cf_PARAMETER_LENGTH c)).

Lemma vector_new_ok n l : vector_ok n l -> vector_new n l = Ok l.
Proof. intros [<- _]. unfold vector_new. by rewrite Z.eqb_refl. Qed.

Lemma get_engine_ok w :
  w = 16 \/ w = 24 ->
  exists params, _get_engine ph w = Ok (Poseidon_init params) /\ params_ok params /\ width params = w.
Proof.
  intros [->| ->]; unfold _get_engine; cbn [Z.eqb Pos.eqb]; eexists; split; try done; apply Hok.
Qed.

Lemma Forall_zeros n : Forall in_field (repeat 0 n).
Proof. induction n; constructor; [|done]. split; [lia|done]. Qed.

Lemma compress_ok input w n :
  w = 16 \/ w = 24 -> Forall in_field input -> 0 <= n <= Zlen input -> Zlen input <= w ->
  exists out, poseidon_compress ph input w n = Ok out /\ vector_ok n out.
Proof.
  intros Hw Hf Hn Hl. unfold poseidon_compress. rewrite (proj2 (Z.leb_le _ _)) by lia.
  destruct (get_engine_ok w Hw) as (params & -> & Hp & Hpw). mcbn.
  set (padded := input ++ _).
  assert (Zlen padded = w) as Hlp by (unfold padded; rewrite length_app, repeat_length; lia).
  destruct (permute_ok params padded Hp) as (-> & Hx & Hlx);
    [apply Forall_app; split; [done|apply Forall_zeros]|by rewrite Hpw|].
  mcbn. unfold zip_strict. rewrite (proj2 (Nat.eqb_eq _ _)) by lia. mcbn.
  eexists. split; [done|]. split.
  - rewrite length_take, length_map, length_combine. lia.
  - apply Forall_take, Forall_fmap, Forall_forall. intros p _. apply mod_in_field.
Qed.

Lemma vector_app n m l k : vector_ok n l -> vector_ok m k -> vector_ok (n + m) (l ++ k).
Proof. intros [? ?] [? ?]. split; [rewrite length_app; lia|by apply Forall_app]. Qed.

Lemma compress_vector input w m n :
  w = 16 \/ w = 24 -> vector_ok m input -> 0 <= n <= m -> m <= w ->
  exists out, poseidon_compress ph input w n = Ok out /\ vector_ok n out.
Proof. intros Hw [<- Hf] Hn Hm. by apply compress_ok. Qed.

(** The packed lengths of the domain separator, an integer of four 32-bit words *)
Lemma separator_ok :
  exists cap, safe_domain_separator ph [cf_PARAMETER_LENGTH c; cf_TWEAK_LENGTH c; cf_DIMENSION c;
    cf_HASH_LENGTH c] (cf_CAPACITY c) = Ok cap /\ vector_ok (cf_CAPACITY c) cap.
Proof.
  destruct (so_positive _ _ Hok) as (? & ? & ? & ? & ?). pose proof (so_node _ _ Hok).
  destruct (so_dimension _ _ Hok) as [? _].
  unfold safe_domain_separator. cbn [foldl]. rewrite Z.shiftl_0_l, Z.lor_0_l.
  rewrite !lor_shiftl by lia.
  match goal with |- context [int_to_base_p ?v 24] =>
    destruct (int_to_base_p_ok v 24 ltac:(lia)) as (l & -> & Hl & Hf & _) end.
  { assert (2 ^ 128 <= P ^ 24) by (vm_compute; congruence). nia. }
  mcbn. apply compress_ok; [by right|done| |lia]. pose proof (so_capacity _ _ Hok). lia.
Qed.

Lemma assign_slice_ok (state chunk : list Z) i :
  Forall in_field state -> Forall in_field chunk -> (i + length chunk <= length state)%nat ->
  Forall in_field (assign_slice state i chunk) /\ length (assign_slice state i chunk) = length state.
Proof.
  intros Hs Hc Hl. unfold assign_slice. split.
  - rewrite !Forall_app. split_and!; [by apply Forall_take|done|by apply Forall_drop].
  - rewrite !length_app, length_take, length_drop. lia.
Qed.

(** Absorbing chunks that fit in the rate keeps a full state. *)
Lemma absorb_ok params i chunks state :
  params_ok params -> vector_ok (width params) state ->
  Forall (fun ch => Forall in_field ch /\ (i + length ch <= length state)%nat) chunks ->
  exists state', foldM (fun state chunk => permute (Poseidon_init params) (assign_slice state i chunk))
    state chunks = Ok state' /\ vector_ok (width params) state'.
Proof.
  intros Hp Hs Hc. revert state Hs Hc. induction chunks as [|ch chunks IH]; intros state [Hl Hf] Hc;
    cbn [foldM]; [by eexists|].
  inversion_clear Hc as [|? ? [Hch Hfit] Hc'].
  destruct (assign_slice_ok state ch i Hf Hch Hfit) as [Hf1 Hl1].
  destruct (permute_ok params (assign_slice state i ch) Hp Hf1) as (-> & Hf2 & Hl2); [lia|]. mcbn.
  apply IH; [by split|]. eapply Forall_impl; [exact Hc'|]. intros ch' [? ?]. split; [done|lia].
Qed.

Lemma squeeze_ok params fuel cap rate n state output :
  params_ok params -> vector_ok (width params) state -> Forall in_field output ->
  0 <= cap -> 0 < rate -> cap + rate = width params -> (Z.to_nat (n - Zlen output) <= fuel)%nat ->
  0 <= n ->
  exists out, sponge_squeeze fuel (Poseidon_init params) cap rate n state output = Ok out /\
    vector_ok n out.
Proof.
  intros Hp. revert state output. induction fuel as [|fuel IH]; intros state output [Hl Hf] Ho Hc Hr Hw Hn Hpos;
    cbn [sponge_squeeze]; destruct (Z.ltb_spec (Zlen output) n) as [Hlt|Hge]; try lia.
  - eexists. split; [done|]. split; [rewrite length_take; lia|by apply Forall_take].
  - destruct (permute_ok params state Hp Hf Hl) as (-> & Hf2 & Hl2). mcbn.
    apply IH; [by split| |lia..| |done].
    + apply Forall_app. split; [done|]. by apply Forall_take, Forall_drop.
    + rewrite length_app, length_take, length_drop. lia.
  - eexists. split; [done|]. split; [rewrite length_take; lia|by apply Forall_take].
Qed.

Lemma sponge_ok input cap n :
  Forall in_field input -> vector_ok (cf_CAPACITY c) cap -> 0 <= n ->
  exists out, sponge ph input cap n 24 = Ok out /\ vector_ok n out.
Proof.
  intros Hi [Hlc Hfc] Hn. pose proof (so_capacity _ _ Hok) as Hcap. unfold sponge.
  rewrite (proj2 (Z.ltb_lt _ _)) by lia.
  destruct (get_engine_ok 24 (or_intror eq_refl)) as (params & -> & Hp & Hw). mcbn.
  set (rate := 24 - Zlen cap). set (input' := input ++ repeat 0 _).
  destruct (assign_slice_ok (repeat 0 (Z.to_nat 24)) cap 0) as [Hf0 Hl0];
    [apply Forall_zeros|done|rewrite repeat_length; lia|].
  rewrite repeat_length in Hl0. unfold batched. rewrite (proj2 (Z.leb_le _ _)) by lia. mcbn.
  assert (Forall (fun ch => Forall in_field ch /\
    (Z.to_nat (Zlen cap) + length ch <= 24)%nat) (batched_from (length input') (Z.to_nat rate) input')) as Hch.
  { apply (batched_from_Forall _ in_field); [|intros ch Hch Hlen; split; [done|lia]].
    apply Forall_app. split; [done|apply Forall_zeros]. }
  destruct (absorb_ok params (Z.to_nat (Zlen cap)) (batched_from (length input') (Z.to_nat rate) input')
    (assign_slice (repeat 0 (Z.to_nat 24)) 0 cap) Hp)
    as (state & -> & Hs).
  { split; [rewrite Hl0, Hw; lia|done]. }
  { rewrite Hl0. exact Hch. }
  mcbn. apply (squeeze_ok params); [done|done|constructor|lia|lia|lia|simpl; lia|done].
Qed.

Lemma digests_field (ds : list digest) : Forall digest_ok ds -> Forall in_field (mjoin ds).
Proof.
  induction 1 as [|d ds [_ Hd] _ IH]; [constructor|]. rewrite mjoin_cons. by apply Forall_app.
Qed.

(** The tweakable hash always returns a digest. *)
Lemma tweak_hash_ok parameter t ds :
  parameter_ok parameter -> tweak_ok t -> Forall digest_ok ds ->
  exists d, tweak_hash c ph parameter t ds = Ok d /\ digest_ok d.
Proof.
  intros Hp Ht Hd. unfold tweak_hash, HashDigestVector_new.
  destruct (so_positive _ _ Hok) as (? & ? & ? & ? & ?).
  destruct (int_to_base_p_ok (packed_tweak t) (cf_TWEAK_LENGTH c)) as (e & -> & He); [lia| |].
  { pose proof (packed_tweak_range t Ht). pose proof (so_tweak_fits _ _ Hok). lia. }
  mcbn. assert (vector_ok (cf_TWEAK_LENGTH c) e) as He' by (split; apply He).
  match goal with |- exists d, (x ← ?m; vector_new _ x) = _ /\ _ =>
    enough (exists d, m = Ok d /\ digest_ok d) as (d & -> & Hdd); [mcbn; exists d; by rewrite vector_new_ok|] end.
  assert (exists d, (capacity_value ← safe_domain_separator ph [cf_PARAMETER_LENGTH c; cf_TWEAK_LENGTH c;
    cf_DIMENSION c; cf_HASH_LENGTH c] (cf_CAPACITY c);
    sponge ph (parameter ++ e ++ mjoin ds) capacity_value (cf_HASH_LENGTH c) 24) = Ok d /\ digest_ok d) as Hsp.
  { destruct separator_ok as (cap & -> & Hcap). mcbn. apply sponge_ok; [|done|lia].
    rewrite !Forall_app. split_and!; [apply Hp|apply He'|by apply digests_field]. }
  destruct Hd as [|d1 ? Hd1 [|d2 ? Hd2 [|d3 ? ? ?]]]; cbn match; [exact Hsp| | |exact Hsp].
  - pose proof (so_chain _ _ Hok). eapply compress_vector; [by left|by repeat apply vector_app|lia..].
  - pose proof (so_node _ _ Hok).
    eapply compress_vector; [by right|do 3 (apply vector_app; [done|]); exact Hd2|lia..].
Qed.

(** ** Chains *)
Definition chain_ok (epoch chain_index : Z) : Prop :=
  0 <= epoch < 2 ^ 32 /\ 0 <= chain_index < cf_DIMENSION c.

Lemma hash_chain_ok parameter epoch i start n d :
  parameter_ok parameter -> chain_ok epoch i -> 0 <= start -> start + Z.of_nat n < cf_BASE c ->
  digest_ok d ->
  exists d', hash_chain c ph parameter epoch i start n d = Ok d' /\ digest_ok d'.
Proof.
  intros Hp [He Hi]. revert start d. induction n as [|n IH]; intros start d Hs Hn Hd; cbn [hash_chain]; [eauto|].
  pose proof (so_base _ _ Hok). destruct (so_dimension _ _ Hok) as [? _].
  destruct (tweak_hash_ok parameter (ChainTweak epoch i (start + 1)) [d]) as (d1 & -> & Hd1);
    [done|simpl; lia|by constructor|].
  mcbn. apply IH; [lia|lia|done].
Qed.

(** Walking a chain in two stretches is walking it once. *)
Lemma hash_chain_app parameter epoch i start n m d d' :
  hash_chain c ph parameter epoch i start n d = Ok d' ->
  hash_chain c ph parameter epoch i (start + Z.of_nat n) m d' =
  hash_chain c ph parameter epoch i start (n + m) d.
Proof.
  revert start d. induction n as [|n IH]; intros start d E; cbn [hash_chain Nat.add] in *.
  - injection E as <-. by rewrite Z.add_0_r.
  - apply bind_Ok in E as (d1 & -> & E). mcbn. rewrite <- (IH _ _ E). f_equal. lia.
Qed.

(** ** Encodings *)
Definition codeword_ok (cw : list Z) : Prop :=
  Zlen cw = cf_DIMENSION c /\ Forall (fun x => 0 <= x < cf_BASE c) cw /\ sum cw = cf_TARGET_SUM c.

Lemma base_digits_ok n q :
  length (base_digits c n q) = n /\ Forall (fun x => 0 <= x < cf_BASE c) (base_digits c n q).
Proof.
  pose proof (so_base _ _ Hok). revert q. induction n as [|n IH]; intros q; cbn [base_digits]; [by split|].
  destruct (IH (q / cf_BASE c)) as [Hl Hf]. split; [simpl; lia|]. constructor; [|done].
  apply Z.mod_pos_bound. lia.
Qed.

Lemma decode_elements_ok els digits :
  decode_elements c els = Some digits ->
  Zlen digits = Zlen els * cf_Z c /\ Forall (fun x => 0 <= x < cf_BASE c) digits.
Proof.
  revert digits. induction els as [|e els IH]; intros digits; cbn [decode_elements].
  - intros [= <-]. split; [done|constructor].
  - destruct (_ <=? _); [done|]. destruct (decode_elements c els) as [ds|]; [|done].
    intros [= <-]. destruct (IH ds eq_refl) as [Hl Hf].
    destruct (base_digits_ok (Z.to_nat (cf_Z c)) (e / cf_Q c)) as [Hl' Hf'].
    destruct (so_digits _ _ Hok). split; [|by apply Forall_app].
    rewrite length_app. simpl length. lia.
Qed.

Lemma target_sum_encode_ok parameter epoch rho message :
  parameter_ok parameter -> 0 <= epoch < 2 ^ 32 -> vector_ok (cf_RAND_LENGTH c) rho ->
  length message = 32%nat ->
  exists o, target_sum_encode c ph parameter epoch rho message = Ok o /\
    (forall cw, o = Some cw -> codeword_ok cw).
Proof.
  intros Hp He Hr Hm. unfold target_sum_encode, message_hash, encode_message, encode_epoch.
  destruct (so_positive _ _ Hok) as (? & ? & ? & ? & ?).
  destruct (int_to_base_p_ok (from_bytes_le message) (cf_MESSAGE_LENGTH c)) as (ms & -> & Hms1 & Hms2 & _);
    [lia| |].
  { pose proof (from_bytes_le_range message) as Hb. pose proof (so_message_fits _ _ Hok).
    rewrite Hm in Hb. change (2 ^ (8 * Z.of_nat 32)) with (2 ^ 256) in Hb. lia. }
  mcbn. destruct (int_to_base_p_ok (Z.lor (Z.shiftl epoch 8) TWEAK_PREFIX_MESSAGE) (cf_TWEAK_LENGTH c))
    as (es & -> & Hes1 & Hes2 & _); [lia| |].
  { unfold TWEAK_PREFIX_MESSAGE. rewrite lor_shiftl by lia. pose proof (so_tweak_fits _ _ Hok). lia. }
  mcbn. pose proof (so_message _ _ Hok). pose proof (so_output _ _ Hok).
  assert (0 < cf_MH_HASH_LENGTH c /\ cf_DIMENSION c <= cf_MH_HASH_LENGTH c * cf_Z c) as [? Hmh].
  { unfold cf_MH_HASH_LENGTH. destruct (so_digits _ _ Hok), (so_dimension _ _ Hok) as [? _].
    split; [apply Z.div_str_pos; lia|].
    pose proof (Z.div_mod (cf_DIMENSION c + cf_Z c - 1) (cf_Z c) ltac:(lia)).
    pose proof (Z.mod_pos_bound (cf_DIMENSION c + cf_Z c - 1) (cf_Z c) ltac:(lia)). lia. }
  destruct (compress_vector (ms ++ parameter ++ es ++ rho) 24
    (cf_MESSAGE_LENGTH c + (cf_PARAMETER_LENGTH c + (cf_TWEAK_LENGTH c + cf_RAND_LENGTH c)))
    (cf_MH_HASH_LENGTH c)) as (out & -> & Hout); [by right|do 3 (apply vector_app; [first [done|by split]|]); done|lia..|].
  mcbn. unfold aborting_decode. destruct (decode_elements c out) as [ds|] eqn:Ed; cbn [fmap option_fmap option_map];
    [|by eexists].
  destruct (Z.eqb_spec (sum (take (Z.to_nat (cf_DIMENSION c)) ds)) (cf_TARGET_SUM c)) as [Es|Es]; [|by eexists].
  eexists. split; [done|]. intros cw [= <-]. apply decode_elements_ok in Ed as [Hl Hf].
  destruct Hout as [Hlo _]. destruct (so_dimension _ _ Hok) as [? _].
  split_and!; [rewrite length_take; nia|by apply Forall_take|done].
Qed.

(** ** Verification *)
Lemma lifetime_ok : cf_LIFETIME c = Ok (2 ^ cf_LOG_LIFETIME c).
Proof.
  pose proof (so_log _ _ Hok) as H. unfold cf_LIFETIME. rewrite Z.shiftl_mul_pow2, Z.mul_1_l by lia.
  apply uint_new_in_range. split; [apply Z.pow_nonneg; lia|]. apply Z.pow_lt_mono_r; lia.
Qed.

Lemma lifetime_bound : 2 ^ cf_LOG_LIFETIME c <= 2 ^ 32.
Proof. pose proof (so_log _ _ Hok). apply Z.pow_le_mono_r; lia. Qed.

Lemma uint64_ok z : 0 <= z < 2 ^ 64 -> uint_new 64 z = Ok z.
Proof. apply uint_new_in_range. Qed.

Lemma climb_ok parameter level position node siblings :
  parameter_ok parameter -> 0 <= level -> level + Zlen siblings <= 32 -> 0 <= position < 2 ^ 32 ->
  digest_ok node -> Forall digest_ok siblings ->
  exists d, climb c ph parameter level position node siblings = Ok d /\ digest_ok d.
Proof.
  intros Hp Hl Hn Hpos Hd Hs. revert level position node Hl Hn Hpos Hd.
  induction Hs as [|s siblings Hs' Hs IH]; intros level position node Hl Hn Hpos Hd; cbn [climb]; [eauto|].
  cbn [length] in Hn. assert (0 <= position / 2 < 2 ^ 32) by div_lia.
  rewrite uint64_ok by lia. mcbn.
  destruct (tweak_hash_ok parameter (TreeTweak (level + 1) (position / 2))
    (if position mod 2 =? 0 then [node; s] else [s; node])) as (d & E & Hd'); [done|simpl; lia|by destruct (_ =? _); auto|].
  destruct (position mod 2 =? 0); rewrite E; mcbn; apply IH; (done || lia).
Qed.

Lemma finish_chains_ok parameter slot hashes i cw :
  parameter_ok parameter -> 0 <= slot < 2 ^ 32 -> Forall digest_ok hashes ->
  Zlen hashes = cf_DIMENSION c -> 0 <= i -> i + Zlen cw <= cf_DIMENSION c ->
  Forall (fun x => 0 <= x < cf_BASE c) cw ->
  exists ends, finish_chains c ph parameter slot hashes i cw = Ok ends /\ Forall digest_ok ends.
Proof.
  intros Hp Hs Hh Hlen Hi Hn Hcw. revert i Hi Hn.
  induction Hcw as [|x cw Hx Hcw IH]; intros i Hi Hn; cbn [finish_chains]; [by eexists|].
  cbn [length] in Hn.
  destruct (lookup_lt_is_Some_2 hashes (Z.to_nat i)) as [d Ed]; [lia|]. rewrite Ed. mcbn.
  destruct (hash_chain_ok parameter slot i x (Z.to_nat (cf_BASE c - 1 - x)) d) as (d' & -> & Hd');
    [done|split; lia|lia|lia|by eapply Forall_lookup_1|].
  mcbn. destruct (IH (i + 1)) as (ends & -> & He); [lia|lia|]. mcbn. eexists. split; [done|]. by constructor.
Qed.

(** What a well-formed public key and signature are: field elements in vectors of the
    declared lengths.  The counts of siblings and of released digests are free. *)
Definition public_key_ok (pk : PublicKey) : Prop :=
  digest_ok (pk_root pk) /\ parameter_ok (pk_parameter pk).
Definition signature_ok (sg : Signature) : Prop :=
  Forall digest_ok (sig_path sg) /\ vector_ok (cf_RAND_LENGTH c) (sig_rho sg) /\
  Forall digest_ok (sig_hashes sg).

Lemma verify_ok pk slot message sg :
  public_key_ok pk -> signature_ok sg -> 0 <= slot -> length message = 32%nat ->
  exists b, verify c ph pk slot message sg = Ok b.
Proof.
  intros [_ Hp] (Hpath & Hrho & Hh) Hs Hm. unfold verify. rewrite lifetime_ok. mcbn.
  pose proof lifetime_bound as Hlb. destruct (Z.leb_spec (2 ^ cf_LOG_LIFETIME c) slot); [eauto|].
  destruct (target_sum_encode_ok (pk_parameter pk) slot (sig_rho sg) message) as (o & -> & Ho); [done|lia|done..|].
  mcbn. destruct o as [cw|]; [|eauto]. destruct (Ho cw eq_refl) as (Hl & Hf & _).
  destruct (Z.eqb_spec (Zlen (sig_hashes sg)) (cf_DIMENSION c)); cbn [negb]; [|eauto].
  destruct (Z.eqb_spec (Zlen (sig_path sg)) (cf_LOG_LIFETIME c)) as [El|]; cbn [negb]; [|eauto].
  destruct (finish_chains_ok (pk_parameter pk) slot (sig_hashes sg) 0 cw) as (ends & -> & He);
    [done|lia|done|done|lia|lia|done|]. mcbn.
  unfold verify_path. rewrite El, Z.eqb_refl, lifetime_ok. cbn [negb]. mcbn.
  rewrite (proj2 (Z.leb_gt _ _)) by done. rewrite uint64_ok by lia. mcbn.
  destruct (tweak_hash_ok (pk_parameter pk) (TreeTweak 0 slot) ends) as (leaf & -> & Hleaf);
    [done|simpl; lia|done|]. mcbn. pose proof (so_log _ _ Hok).
  destruct (climb_ok (pk_parameter pk) 0 slot leaf (sig_path sg)) as (d & -> & _); [done|lia..|done|done|].
  mcbn. eauto.
Qed.
End Total.
