(* ===== verification/XmssTrees.v ===== *)
(** * The split Merkle tree of the signature scheme

    A stored layer holds a slice of a level of the lifetime tree, padded with random
    siblings.  [linked] is the invariant of consecutive layers: every stored node has
    its sibling stored next to it, and their hash is stored one layer up.  So every
    opening a subtree hands out climbs to its root; and the root of a bottom tree is
    the Merkle root of its leaves ([ref_node]), whatever the padding. *)

From S2P Require Import Prelude Pydict Uint Ssz SszCorrect Sha256 Merkle Containers Proofs.
From S2P Require Import Poseidon Shake128 Xmss XmssCorrect.

(** The node of a layer at an absolute position. *)
Definition node_at (l : HashTreeLayer) (p : Z) : option digest :=
  if hl_start_index l <=? p then hl_nodes l !! Z.to_nat (p - hl_start_index l) else None.

Lemma node_at_range l p d :
  node_at l p = Some d -> hl_start_index l <= p < hl_start_index l + Zlen (hl_nodes l).
Proof.
  unfold node_at. destruct (Z.leb_spec (hl_start_index l) p); [|done].
  intros E%lookup_lt_Some. lia.
Qed.

Lemma node_at_some l p :
  hl_start_index l <= p < hl_start_index l + Zlen (hl_nodes l) -> exists d, node_at l p = Some d.
Proof.
  intros H. unfold node_at. rewrite (proj2 (Z.leb_le _ _)) by lia. apply lookup_lt_is_Some_2. lia.
Qed.

Lemma node_at_in l p d : node_at l p = Some d -> d ∈ hl_nodes l.
Proof. unfold node_at. destruct (_ <=? _); [|done]. by apply list_elem_of_lookup_2. Qed.

(** Position [p] and its sibling. *)
Lemma sibling_even q : 0 <= q -> Z.lxor (2 * q) 1 = 2 * q + 1.
Proof. destruct q; [done|done|lia]. Qed.
Lemma sibling_odd q : 0 <= q -> Z.lxor (2 * q + 1) 1 = 2 * q.
Proof. destruct q; [done|done|lia]. Qed.

Section Trees.
Context (c : XmssConfig) (ph : PoseidonXmss) (randbelow : nat -> Z).
Hypothesis Hok : scheme_ok c ph.
Abbreviation digest_ok := (vector_ok (cf_HASH_LENGTH c)).
Abbreviation parameter_ok := (vector_ok (cf_PARAMETER_LENGTH c)).
Abbreviation W := (cf_LEAVES_PER_BOTTOM_TREE c).
Abbreviation h := (cf_LOG_LIFETIME c / 2).

Lemma leaves_pow : W = 2 ^ h.
Proof.
  unfold cf_LEAVES_PER_BOTTOM_TREE. rewrite Z.shiftl_mul_pow2; [lia|].
  pose proof (so_log _ _ Hok). apply Z.div_pos; lia.
Qed.

Lemma height_even : cf_LOG_LIFETIME c = 2 * h.
Proof.
  pose proof (so_decomposition _ _ Hok) as H. unfold decomposition_valid in H. bool_to_prop. div_lia.
Qed.

Lemma height_range : 1 <= h <= 16.
Proof. pose proof (so_log _ _ Hok). pose proof height_even. lia. Qed.

Lemma leaves_range : 2 <= W <= 2 ^ 16.
Proof.
  rewrite leaves_pow. pose proof height_range. split.
  - apply (Z.pow_le_mono_r 2 1); lia.
  - apply Z.pow_le_mono_r; lia.
Qed.

(** ** Padding *)
Lemma random_domain_ok n : exists d n', random_domain c randbelow n = Ok (d, n') /\ digest_ok d.
Proof.
  unfold random_domain, random_field_elements, HashDigestVector_new.
  destruct (so_positive _ _ Hok) as (_ & _ & _ & _ & H).
  rewrite vector_new_ok; [mcbn; eexists _, _; split; [done|]|];
    (split; [rewrite length_map, length_seq; lia|apply Forall_fmap, Forall_forall; intros; apply mod_in_field]).
Qed.

Lemma pad_if_ok (b : bool) n :
  exists ds n', pad_if c randbelow b n = Ok (ds, n') /\ Forall digest_ok ds /\
    length ds = (if b then 1 else 0)%nat.
Proof.
  unfold pad_if. destruct b; [|by eexists _, _].
  destruct (random_domain_ok n) as (d & n' & -> & Hd). mcbn. eexists _, _. split; [done|]. by split; [constructor|].
Qed.

(** A layer that can be paired: from an even position, for an even number of nodes. *)
Record layer_ok (l : HashTreeLayer) : Prop := {
  lo_nodes : Forall digest_ok (hl_nodes l);
  lo_even : hl_start_index l mod 2 = 0 /\ Zlen (hl_nodes l) mod 2 = 0;
  lo_start : 0 <= hl_start_index l;
  lo_stop : hl_start_index l + Zlen (hl_nodes l) <= 2 ^ 32;
  lo_size : 0 < Zlen (hl_nodes l) <= W + 2
}.

Lemma padded_ok nodes start n :
  Forall digest_ok nodes -> 0 <= start -> start + Zlen nodes <= 2 ^ 32 -> 0 < Zlen nodes <= W ->
  exists l n', padded c randbelow nodes start n = Ok (l, n') /\ layer_ok l /\
    hl_start_index l = start - start mod 2 /\
    forall i d, nodes !! i = Some d -> node_at l (start + Z.of_nat i) = Some d.
Proof.
  intros Hn Hs Hb Hl. pose proof leaves_range as HW. unfold padded, uint_add, uint_sub, uint_mod. cbn [Z.eqb negb].
  pose proof (Z.mod_pos_bound start 2 ltac:(lia)). pose proof (Z.mod_pos_bound (start + Zlen nodes - 1) 2 ltac:(lia)).
  rewrite (uint64_ok (Zlen nodes)) by lia. mcbn. rewrite (uint64_ok (start + Zlen nodes)) by lia. mcbn.
  rewrite (uint64_ok (start + Zlen nodes - 1)) by lia. mcbn. rewrite (uint64_ok (start mod 2)) by lia. mcbn.
  destruct (pad_if_ok (start mod 2 =? 1) n) as (before & n1 & -> & Hb1 & Hb2). mcbn.
  rewrite (uint64_ok (start - start mod 2)) by div_lia. mcbn.
  rewrite (uint64_ok ((start + Zlen nodes - 1) mod 2)) by lia. mcbn.
  destruct (pad_if_ok ((start + Zlen nodes - 1) mod 2 =? 0) n1) as (after & n2 & -> & Ha1 & Ha2). mcbn.
  set (all := before ++ nodes ++ after).
  assert (Zlen before = start mod 2) as Hlb by (destruct (Z.eqb_spec (start mod 2) 1); lia).
  assert (Zlen after = 1 - (start + Zlen nodes - 1) mod 2) as Hla
    by (destruct (Z.eqb_spec ((start + Zlen nodes - 1) mod 2) 0); lia).
  assert (Zlen all = start mod 2 + Zlen nodes + Zlen after) as Hall by (unfold all; rewrite !length_app; lia).
  unfold HashDigestList_new, cf_NODE_LIST_LIMIT. rewrite (proj2 (Z.leb_le _ _)) by lia. mcbn.
  eexists _, _. split; [done|]. split; [constructor; cbn|split; [done|]].
  - unfold all. rewrite !Forall_app. by split_and!.
  - rewrite Hall, Hla. split; div_lia.
  - div_lia.
  - rewrite Hall, Hla. change (2 ^ 32) with (2 * 2 ^ 31) in *. div_lia.
  - lia.
  - intros i d E. unfold node_at. cbn. rewrite (proj2 (Z.leb_le _ _)) by lia.
    replace (Z.to_nat (start + Z.of_nat i - (start - start mod 2))) with (length before + i)%nat by lia.
    unfold all. rewrite lookup_app_r by lia. replace (length before + i - length before)%nat with i by lia.
    apply lookup_app_l_Some. exact E.
Qed.

(** ** Pairs *)

(** Induction by two elements. *)
Lemma pairs_ind {A} (Q : list A -> Prop) :
  Q [] -> (forall x y l, Q l -> Q (x :: y :: l)) -> forall l, (length l mod 2 = 0)%nat -> Q l.
Proof.
  intros H0 H2. enough (forall n l, (length l <= n)%nat -> (length l mod 2 = 0)%nat -> Q l) by eauto.
  induction n as [|n IH]; intros [|x [|y l]] Hn Hm; simpl in Hn; try lia; try done.
  apply H2, IH; [lia|]. cbn [length] in Hm. by rewrite <- (Nat.Div0.mod_add (length l) 1 2), Nat.add_comm.
Qed.

Lemma hash_pairs_ok parameter level start i nodes :
  parameter_ok parameter -> Forall digest_ok nodes -> (length nodes mod 2 = 0)%nat ->
  0 <= level < 32 -> 0 <= start -> 0 <= i -> start + i + Zlen nodes / 2 <= 2 ^ 32 ->
  exists parents, hash_pairs c ph parameter level start i nodes = Ok parents /\
    Forall digest_ok parents /\ (2 * length parents = length nodes)%nat /\
    forall j l r, nodes !! (2 * j)%nat = Some l -> nodes !! (2 * j + 1)%nat = Some r ->
      exists d, parents !! j = Some d /\
        tweak_hash c ph parameter (TreeTweak (level + 1) (start + i + Z.of_nat j)) [l; r] = Ok d.
Proof.
  intros Hp Hn Hm Hl Hs Hi Hb. revert i Hn Hi Hb. pattern nodes. apply pairs_ind; [| |exact Hm].
  - intros i _ _ _. exists []. by split_and!.
  - clear nodes Hm. intros x y nodes IH i Hn Hi Hb. inversion_clear Hn as [|? ? Hx Hn'].
    inversion_clear Hn' as [|? ? Hy Hn]. cbn [hash_pairs].
    cbn [length] in Hb. assert (Z.of_nat (S (S (length nodes))) / 2 = Zlen nodes / 2 + 1) as Hdiv by div_lia.
    assert (0 <= Zlen nodes / 2) by (apply Z.div_pos; lia).
    rewrite (uint64_ok i) by lia. mcbn. unfold uint_add. rewrite (uint64_ok (start + i)) by lia. mcbn.
    destruct (tweak_hash_ok c ph Hok parameter (TreeTweak (level + 1) (start + i)) [x; y]) as (d & Ed & Hd);
      [done|simpl; lia|by auto|].
    rewrite Ed. mcbn. destruct (IH (i + 1)) as (parents & -> & Hpf & Hpl & Hpar); [done|lia|lia|]. mcbn.
    eexists. split; [done|]. split; [by constructor|]. split; [simpl; lia|].
    intros [|j] l r E1 E2.
    + cbn in E1, E2. injection E1 as <-. injection E2 as <-. exists d. split; [done|]. by rewrite Z.add_0_r.
    + replace (2 * S j)%nat with (S (S (2 * j))) in E1 by lia. replace (2 * S j + 1)%nat with (S (S (2 * j + 1))) in E2 by lia.
      destruct (Hpar j l r E1 E2) as (d' & ? & Et). exists d'. split; [done|].
      replace (start + i + Z.of_nat (S j)) with (start + (i + 1) + Z.of_nat j) by lia. done.
Qed.

(** ** Consecutive layers *)
Definition linked (parameter : list Z) (level : Z) (l l' : HashTreeLayer) : Prop :=
  forall p d, node_at l p = Some d ->
    exists s d', node_at l (Z.lxor p 1) = Some s /\ node_at l' (p / 2) = Some d' /\
      tweak_hash c ph parameter (TreeTweak (level + 1) (p / 2))
        (if p mod 2 =? 0 then [d; s] else [s; d]) = Ok d'.

Fixpoint chain_linked (parameter : list Z) (level : Z) (l : HashTreeLayer) (layers : list HashTreeLayer)
    : Prop :=
  match layers with
  | [] => layer_ok l
  | l' :: layers =>
      layer_ok l /\ linked parameter level l l' /\ chain_linked parameter (level + 1) l' layers
  end.

(** A position of a paired layer is one of the two of its pair. *)
Lemma layer_pair l p d :
  layer_ok l -> node_at l p = Some d ->
  exists j x y, p / 2 = hl_start_index l / 2 + Z.of_nat j /\
    hl_nodes l !! (2 * j)%nat = Some x /\ hl_nodes l !! (2 * j + 1)%nat = Some y /\
    ((p mod 2 = 0 /\ d = x /\ node_at l (Z.lxor p 1) = Some y) \/
     (p mod 2 = 1 /\ d = y /\ node_at l (Z.lxor p 1) = Some x)).
Proof.
  intros Hl E. pose proof (node_at_range _ _ _ E) as Hr. destruct (lo_even _ Hl) as [He1 He2].
  pose proof (lo_start _ Hl) as H0. set (s := hl_start_index l) in *.
  exists (Z.to_nat (p / 2 - s / 2)). assert (s = 2 * (s / 2)) as Hs by div_lia.
  assert (s / 2 <= p / 2) by (apply Z.div_le_mono; lia).
  assert (s <= 2 * (p / 2) /\ 2 * (p / 2) + 1 < s + Zlen (hl_nodes l)) as [Hb1 Hb2] by div_lia.
  assert (forall q, s <= q -> node_at l q = hl_nodes l !! Z.to_nat (q - s)) as Hat.
  { intros q Hq. unfold node_at. fold s. by rewrite (proj2 (Z.leb_le _ _) Hq). }
  destruct (node_at_some l (2 * (p / 2))) as [x Ex]; [fold s; lia|].
  destruct (node_at_some l (2 * (p / 2) + 1)) as [y Ey]; [fold s; lia|].
  exists x, y. split; [lia|]. rewrite Hat in Ex, Ey by lia.
  replace (Z.to_nat (2 * (p / 2) - s)) with (2 * Z.to_nat (p / 2 - s / 2))%nat in Ex by lia.
  replace (Z.to_nat (2 * (p / 2) + 1 - s)) with (2 * Z.to_nat (p / 2 - s / 2) + 1)%nat in Ey by lia.
  split; [done|]. split; [done|]. rewrite Hat in E by lia.
  destruct (Z.mod_pos_bound p 2 ltac:(lia)) as [Hm1 Hm2]. assert (p = 2 * (p / 2) + p mod 2) as Hp by div_lia.
  assert (p mod 2 = 0 \/ p mod 2 = 1) as [Hm|Hm] by lia; [left|right]; split_and!; try done.
  - replace (Z.to_nat (p - s)) with (2 * Z.to_nat (p / 2 - s / 2))%nat in E by lia. congruence.
  - replace (Z.lxor p 1) with (2 * (p / 2) + 1) by (rewrite <- sibling_even by div_lia; f_equal; lia).
    rewrite Hat by lia.
    by replace (Z.to_nat (2 * (p / 2) + 1 - s)) with (2 * Z.to_nat (p / 2 - s / 2) + 1)%nat by lia.
  - replace (Z.to_nat (p - s)) with (2 * Z.to_nat (p / 2 - s / 2) + 1)%nat in E by lia. congruence.
  - replace (Z.lxor p 1) with (2 * (p / 2)) by (rewrite <- (sibling_odd (p / 2)) by div_lia; f_equal; lia).
    rewrite Hat by lia.
    by replace (Z.to_nat (2 * (p / 2) - s)) with (2 * Z.to_nat (p / 2 - s / 2))%nat by lia.
Qed.

Lemma build_layers_ok levels parameter level l n :
  parameter_ok parameter -> layer_ok l -> 0 <= level -> level + Z.of_nat levels <= 32 ->
  exists layers n', build_layers c ph randbelow levels parameter level l n = Ok (layers, n') /\
    length layers = levels /\ chain_linked parameter level l layers.
Proof.
  intros Hp. revert level l n. induction levels as [|levels IH]; intros level l n Hl Hlev Hb; cbn [build_layers].
  - by eexists _, _.
  - destruct (lo_even _ Hl) as [He1 He2]. pose proof (lo_start _ Hl) as H0. pose proof (lo_stop _ Hl) as H1.
    pose proof (lo_size _ Hl) as H2. pose proof leaves_range as HW.
    unfold uint_floordiv. cbn [Z.eqb negb].
    rewrite (uint64_ok (hl_start_index l / 2)) by div_lia. mcbn.
    destruct (hash_pairs_ok parameter level (hl_start_index l / 2) 0 (hl_nodes l)) as (parents & -> & Hpf & Hpl & Hpar);
      [done|apply Hl| |lia|div_lia|lia| |].
    { apply Nat2Z.inj. by rewrite Nat2Z.inj_mod. }
    { div_lia. }
    mcbn. destruct (padded_ok parents (hl_start_index l / 2) n) as (l' & n1 & -> & Hl' & _ & Hat);
      [done|div_lia|div_lia|lia|]. mcbn.
    destruct (IH (level + 1) l' n1) as (layers & n2 & -> & Hlen & Hch); [done|lia|lia|]. mcbn.
    eexists _, _. split; [done|]. split; [simpl; lia|]. split; [done|]. split; [|done].
    intros p d E. destruct (layer_pair l p d Hl E) as (j & x & y & Hj & Ex & Ey & Hcase).
    destruct (Hpar j x y Ex Ey) as (d' & Ed & Et). rewrite Z.add_0_r, <- Hj in Et.
    apply Hat in Ed. rewrite <- Hj in Ed.
    destruct Hcase as [(Hm & -> & Es)|(Hm & -> & Es)]; rewrite Hm; eexists _, d'; by split_and!.
Qed.

(** ** Openings *)
Lemma removelast_cons {A} (x y : A) l : removelast (x :: y :: l) = x :: removelast (y :: l).
Proof. done. Qed.

Lemma length_removelast_cons {A} (x : A) l : length (removelast (x :: l)) = length l.
Proof. rewrite removelast_firstn_len, length_take. simpl. lia. Qed.

Lemma last_cons_cons {A} (x y : A) (l : list A) : last (x :: y :: l) = last (y :: l).
Proof. done. Qed.

(** From a stored node, the siblings up to the last layer climb to the node there. *)
Lemma chain_opens parameter level l layers p d :
  chain_linked parameter level l layers -> node_at l p = Some d -> 0 <= p < 2 ^ 32 ->
  exists siblings top root,
    collect_siblings p (removelast (l :: layers)) = Ok siblings /\
    length siblings = length layers /\ Forall digest_ok siblings /\
    last (l :: layers) = Some top /\ node_at top (p / 2 ^ Zlen layers) = Some root /\
    climb c ph parameter level p d siblings = Ok root.
Proof.
  revert level l p d. induction layers as [|l' layers IH]; intros level l p d Hc E Hp.
  - exists [], l, d. cbn [length]. change (2 ^ Z.of_nat 0) with 1. rewrite Z.div_1_r. by split_and!.
  - destruct Hc as (Hl & Hk & Hc). destruct (Hk p d E) as (s & d' & Es & Ed & Et).
    destruct (IH (level + 1) l' (p / 2) d' Hc Ed) as (sibs & top & root & H1 & H2 & H3 & H4 & H5 & H6); [div_lia|].
    exists (s :: sibs), top, root. rewrite removelast_cons, last_cons_cons.
    cbn [collect_siblings length climb].
    pose proof (node_at_range _ _ _ Es) as Hr. unfold node_at in Es.
    rewrite (proj2 (Z.leb_le _ _)) in Es by lia.
    rewrite (proj2 (Z.leb_le 0 _)), (proj2 (Z.ltb_lt _ _)) by lia. cbn [andb]. rewrite Es. mcbn.
    rewrite H1. mcbn. split_and!; [done|lia| |done| |].
    + constructor; [|done]. eapply Forall_lookup_1; [apply (lo_nodes _ Hl)|exact Es].
    + rewrite Nat2Z.inj_succ, Z.pow_succ_r, <- Z.div_div by lia. exact H5.
    + rewrite (uint64_ok (p / 2)) by div_lia. destruct (p mod 2 =? 0); mcbn; rewrite Et; mcbn; exact H6.
Qed.

Lemma climb_app parameter level p d s1 s2 d' :
  climb c ph parameter level p d s1 = Ok d' ->
  climb c ph parameter level p d (s1 ++ s2) =
  climb c ph parameter (level + Zlen s1) (p / 2 ^ Zlen s1) d' s2.
Proof.
  revert level p d. induction s1 as [|s s1 IH]; intros level p d; cbn [climb app length].
  - intros [= ->]. change (2 ^ Z.of_nat 0) with 1. by rewrite Z.div_1_r, Z.add_0_r.
  - destruct (if p mod 2 =? 0 then (d, s) else (s, d)) as [x y]. intros E.
    apply bind_Ok in E as (i & -> & E). apply bind_Ok in E as (d1 & Ed & E). mcbn. rewrite Ed. mcbn.
    rewrite (IH _ _ _ E). rewrite Nat2Z.inj_succ, Z.pow_succ_r, <- Z.div_div by lia. f_equal. lia.
Qed.

Lemma chain_last_ok parameter level l layers top :
  chain_linked parameter level l layers -> last (l :: layers) = Some top -> layer_ok top.
Proof.
  revert level l. induction layers as [|l' layers IH]; intros level l.
  - by intros H [= <-].
  - intros (_ & _ & Hc) E. rewrite last_cons_cons in E. by eapply IH.
Qed.

(** [t] opens its node [d] at [p] to [root], by [n] siblings from [level] on. *)
Definition opens (parameter : list Z) (level n : Z) (t : HashSubTree) (p : Z) (d root : digest) : Prop :=
  exists siblings, subtree_path c t p = Ok siblings /\ Zlen siblings = n /\ Forall digest_ok siblings /\
    climb c ph parameter level p d siblings = Ok root.

Lemma subtree_path_ok t l rest siblings p d :
  hs_layers t = l :: rest -> layer_ok l -> node_at l p = Some d ->
  collect_siblings p (removelast (l :: rest)) = Ok siblings -> Zlen siblings <= cf_LOG_LIFETIME c ->
  subtree_path c t p = Ok siblings.
Proof.
  intros El Hl E Ec Hs. unfold subtree_path. rewrite El. mcbn. pose proof (node_at_range _ _ _ E) as Hr.
  rewrite (proj2 (Z.leb_le _ _)) by lia. pose proof (lo_size _ Hl). pose proof (lo_stop _ Hl).
  pose proof (lo_start _ Hl). pose proof leaves_range.
  rewrite uint64_ok by lia. mcbn. unfold uint_add. rewrite uint64_ok by lia. mcbn.
  rewrite (proj2 (Z.ltb_lt _ _)) by lia. rewrite Ec. mcbn.
  unfold HashDigestList_new, cf_NODE_LIST_LIMIT. rewrite (proj2 (Z.leb_le _ _)); [done|].
  enough (cf_LOG_LIFETIME c <= 2 * W) by lia. rewrite leaves_pow, height_even at 1.
  pose proof height_range. pose proof (Z.pow_gt_lin_r 2 h ltac:(lia) ltac:(lia)). lia.
Qed.

(** ** Reference nodes: the lifetime tree over the leaves [leaf] *)
Inductive ref_node (parameter : list Z) (leaf : Z -> result digest) : Z -> Z -> digest -> Prop :=
| ref_leaf p d : leaf p = Ok d -> ref_node parameter leaf 0 p d
| ref_pair level q x y d :
    0 <= level ->
    ref_node parameter leaf level (2 * q) x -> ref_node parameter leaf level (2 * q + 1) y ->
    tweak_hash c ph parameter (TreeTweak (level + 1) q) [x; y] = Ok d ->
    ref_node parameter leaf (level + 1) q d.

Lemma ref_node_fun parameter leaf level q d d' :
  ref_node parameter leaf level q d -> ref_node parameter leaf level q d' -> d = d'.
Proof.
  intros H. revert d'. induction H as [p d E|level q x y d Hl Hx IHx Hy IHy E]; intros d' H'.
  - inversion H' as [? ? E'|]; subst; [congruence|lia].
  - inversion H' as [? ? E'|level' q' x' y' d1 Hl' Hx' Hy' E' El]; subst; [lia|].
    replace level' with level in * by lia. rewrite <- (IHx _ Hx'), <- (IHy _ Hy') in E'. congruence.
Qed.

(** If a layer holds the reference nodes over one aligned block, the last layer holds
    the reference node above them. *)
Lemma chain_ref parameter leaf level l layers b :
  0 <= level -> 0 <= b -> chain_linked parameter level l layers ->
  (forall p, b * 2 ^ Zlen layers <= p < (b + 1) * 2 ^ Zlen layers ->
     exists d, node_at l p = Some d /\ ref_node parameter leaf level p d) ->
  exists top root, last (l :: layers) = Some top /\ node_at top b = Some root /\
    ref_node parameter leaf (level + Zlen layers) b root.
Proof.
  intros Hlev Hb. revert level l Hlev. induction layers as [|l' layers IH]; intros level l Hlev Hc Hr.
  - cbn [length] in *. change (2 ^ Z.of_nat 0) with 1 in Hr. destruct (Hr b) as (d & E & Hd); [lia|].
    exists l, d. rewrite Z.add_0_r. by split_and!.
  - destruct Hc as (Hl & Hk & Hc). rewrite last_cons_cons.
    destruct (IH (level + 1) l' ltac:(lia) Hc) as (top & root & H1 & H2 & H3).
    2: { exists top, root. split_and!; [done|done|]. cbn [length].
         replace (level + Z.of_nat (S (length layers))) with (level + 1 + Zlen layers) by lia. done. }
    intros q Hq. cbn [length] in Hr. rewrite Nat2Z.inj_succ, Z.pow_succ_r in Hr by lia.
    assert (0 <= q) by (pose proof (Z.pow_nonneg 2 (Zlen layers) ltac:(lia)); nia).
    destruct (Hr (2 * q) ltac:(nia)) as (x & Ex & Hx). destruct (Hr (2 * q + 1) ltac:(nia)) as (y & Ey & Hy).
    destruct (Hk (2 * q) x Ex) as (s & d' & Es & Ed & Et).
    rewrite sibling_even, Ey in Es by lia. injection Es as <-.
    replace (2 * q / 2) with q in * by div_lia. replace (2 * q mod 2) with 0 in Et by div_lia. cbn [Z.eqb] in Et.
    exists d'. split; [done|]. by apply ref_pair with x y.
Qed.

(** ** Key derivation *)
Lemma to_bytes_be_ok n z : 0 <= n -> 0 <= z < 2 ^ (8 * n) -> exists bs, to_bytes_be n z = Ok bs.
Proof.
  intros Hn Hz. unfold to_bytes_be. rewrite (proj2 (to_bytes_le_Ok n z _)) by (split; [done|reflexivity]).
  by eexists.
Qed.

Lemma prf_elements_ok data n : 0 < n -> exists l, prf_elements data n = Ok l /\ vector_ok n l.
Proof.
  intros Hn. unfold prf_elements, batched, PRF_BYTES_PER_FIELD_ELEMENT. cbn [Z.leb Z.compare Pos.compare Pos.compare_cont].
  mcbn. set (out := shake_128 data _).
  assert (length out = (Z.to_nat n * 16)%nat) as Hl by (unfold out; rewrite length_shake_128; lia).
  destruct (batched_from_spec (Z.to_nat n) (Z.to_nat 16) out (length out)) as (H1 & _ & _); [lia|lia|lia|].
  eexists. split; [done|]. split; [rewrite length_map; lia|].
  apply Forall_fmap, Forall_forall. intros. apply mod_in_field.
Qed.

Lemma derive_chain_start_ok prf_key epoch i :
  0 <= epoch < 2 ^ 32 -> 0 <= i < 2 ^ 64 ->
  exists d, derive_chain_start c prf_key epoch i = Ok d /\ digest_ok d.
Proof.
  intros He Hi. unfold derive_chain_start, HashDigestVector_new.
  destruct (to_bytes_be_ok 4 epoch) as [? ->]; [lia|done|]. mcbn.
  destruct (to_bytes_be_ok 8 i) as [? ->]; [lia|done|]. mcbn.
  destruct (so_positive _ _ Hok) as (_ & _ & _ & _ & Hh).
  match goal with |- context [prf_elements ?x _] => destruct (prf_elements_ok x _ Hh) as (l & -> & Hl) end.
  mcbn. exists l. by rewrite vector_new_ok.
Qed.

Lemma derive_randomness_ok prf_key epoch message counter :
  0 <= epoch < 2 ^ 32 -> 0 <= counter < 2 ^ 64 ->
  exists rho, derive_randomness c prf_key epoch message counter = Ok rho /\ vector_ok (cf_RAND_LENGTH c) rho.
Proof.
  intros He Hi. unfold derive_randomness.
  destruct (to_bytes_be_ok 4 epoch) as [? ->]; [lia|done|]. mcbn.
  destruct (to_bytes_be_ok 8 counter) as [? ->]; [lia|done|]. mcbn.
  destruct (so_positive _ _ Hok) as (_ & _ & _ & Hh & _).
  match goal with |- context [prf_elements ?x _] => destruct (prf_elements_ok x _ Hh) as (l & -> & Hl) end.
  mcbn. exists l. by rewrite vector_new_ok.
Qed.

Lemma chain_end_ok prf_key parameter epoch i :
  parameter_ok parameter -> chain_ok c epoch i ->
  exists d, chain_end c ph prf_key parameter epoch i = Ok d /\ digest_ok d.
Proof.
  intros Hp [He Hi]. destruct (so_dimension _ _ Hok) as [Hd _]. pose proof (so_base _ _ Hok).
  unfold chain_end. rewrite uint64_ok by lia. mcbn.
  destruct (derive_chain_start_ok prf_key epoch i) as (d & -> & Hdd); [done|lia|]. mcbn.
  by apply hash_chain_ok; [done|done|split|lia|lia|].
Qed.

Lemma chain_ends_ok prf_key parameter epoch :
  parameter_ok parameter -> 0 <= epoch < 2 ^ 32 ->
  exists ends, mapM (chain_end c ph prf_key parameter epoch) (chain_indices c) = Ok ends /\
    Forall digest_ok ends.
Proof.
  intros Hp He. assert (forall i, i ∈ chain_indices c ->
    exists d, chain_end c ph prf_key parameter epoch i = Ok d /\ digest_ok d) as H.
  { intros i (j & -> & Hj%elem_of_seq)%list_elem_of_fmap. apply chain_end_ok; [done|]. split; lia. }
  destruct (mapM_total (chain_end c ph prf_key parameter epoch) (chain_indices c)) as [ends E].
  { intros i Hi. by destruct (H i Hi) as (d & -> & _). }
  exists ends. split; [done|]. apply mapM_Ok in E. apply Forall_lookup. intros j d Ej.
  destruct (Forall2_lookup_r _ _ _ _ _ E Ej) as (i & Ei & Ed).
  destruct (H i (list_elem_of_lookup_2 _ _ _ Ei)) as (d' & Ed' & Hd'). congruence.
Qed.

Lemma leaf_hash_ok prf_key parameter epoch :
  parameter_ok parameter -> 0 <= epoch < 2 ^ 32 ->
  exists d, leaf_hash c ph prf_key parameter epoch = Ok d /\ digest_ok d.
Proof.
  intros Hp He. unfold leaf_hash. rewrite uint64_ok by lia. mcbn.
  destruct (chain_ends_ok prf_key parameter epoch Hp He) as (ends & -> & Hends). mcbn.
  apply tweak_hash_ok; [done|done|simpl; lia|done].
Qed.

(** ** Bottom trees *)
Record bottom_ok (prf_key : bytes) (parameter : list Z) (b : Z) (t : HashSubTree) : Prop := {
  bo_depth : hs_depth t = cf_LOG_LIFETIME c;
  bo_start : exists l rest, hs_layers t = l :: rest /\ hl_start_index l = b * W;
  bo_root : exists root, subtree_root t = Ok root /\ digest_ok root /\
    ref_node parameter (leaf_hash c ph prf_key parameter) h b root /\
    forall p, b * W <= p < (b + 1) * W -> exists leaf,
      leaf_hash c ph prf_key parameter p = Ok leaf /\ opens parameter 0 h t p leaf root
}.

(** Every layer count the scheme builds is within the limit of the layer list. *)
Lemma layers_new_ok ls : Zlen ls <= h + 1 -> HashTreeLayers_new c ls = Ok ls.
Proof.
  intros H. pose proof height_range. pose proof height_even. unfold HashTreeLayers_new.
  by rewrite (proj2 (Z.leb_le _ _)) by lia.
Qed.

(** Building a subtree of [h] levels over aligned nodes. *)
Lemma subtree_new_ok parameter lowest start nodes highest n :
  parameter_ok parameter -> (lowest = 0 /\ highest = Some h) \/ (lowest = h /\ highest = None) ->
  Forall digest_ok nodes -> 0 <= start -> start + Zlen nodes <= 2 ^ (cf_LOG_LIFETIME c - lowest) ->
  0 < Zlen nodes <= W ->
  exists l layers n',
    subtree_new c ph randbelow lowest (cf_LOG_LIFETIME c) start parameter nodes highest n =
      Ok ({| hs_depth := cf_LOG_LIFETIME c; hs_lowest_layer := lowest; hs_layers := l :: layers |}, n') /\
    Zlen layers = h /\ layer_ok l /\ hl_start_index l = start - start mod 2 /\
    chain_linked parameter lowest l layers /\
    forall i d, nodes !! i = Some d -> node_at l (start + Z.of_nat i) = Some d.
Proof.
  intros Hp Hlow Hn Hs Hb Hl. pose proof height_range. pose proof height_even as Hev.
  pose proof (so_log _ _ Hok). unfold subtree_new, uint_sub.
  rewrite (uint64_ok (cf_LOG_LIFETIME c - lowest)) by lia. mcbn. rewrite Z.shiftl_mul_pow2, Z.mul_1_l by lia.
  rewrite (proj2 (Z.leb_le _ _) Hb).
  assert (2 ^ (cf_LOG_LIFETIME c - lowest) <= 2 ^ 32) by (apply Z.pow_le_mono_r; lia).
  destruct (padded_ok nodes start n) as (l & n1 & -> & Hlo & Hst & Hat); [done|done|lia|done|]. mcbn.
  set (high := match highest with None => _ | Some x => x end).
  assert (Z.to_nat (high - lowest) = Z.to_nat h) as ->
    by (unfold high; destruct Hlow as [[-> ->]|[-> ->]]; lia).
  destruct (build_layers_ok (Z.to_nat h) parameter lowest l n1) as (layers & n2 & -> & Hlen & Hch);
    [done|done|lia|lia|]. mcbn.
  rewrite layers_new_ok by (simpl length; lia). mcbn.
  exists l, layers, n2. split_and!; [done|lia|done|done|done|done].
Qed.

(** The leaves of bottom tree [b], in order. *)
Lemma bottom_leaves_ok prf_key parameter b :
  parameter_ok parameter -> 0 <= b < W ->
  exists leaves,
    mapM (fun i => leaf_hash c ph prf_key parameter (b * W + Z.of_nat i)) (seq 0 (Z.to_nat W)) = Ok leaves /\
    Zlen leaves = W /\ Forall digest_ok leaves /\
    forall i d, leaves !! i = Some d -> leaf_hash c ph prf_key parameter (b * W + Z.of_nat i) = Ok d.
Proof.
  intros Hp Hb. pose proof leaves_range as HW. assert (b * W + W <= W * W <= 2 ^ 32) as HbW by nia.
  destruct (mapM_total (fun i => leaf_hash c ph prf_key parameter (b * W + Z.of_nat i)) (seq 0 (Z.to_nat W)))
    as [leaves El].
  { intros i Hi%elem_of_seq. destruct (leaf_hash_ok prf_key parameter (b * W + Z.of_nat i)) as (d & -> & _);
      [done|nia|done]. }
  exists leaves. split; [done|]. apply mapM_Ok in El.
  assert (Zlen leaves = W) as Hlen by (apply Forall2_length in El; rewrite length_seq in El; lia).
  assert (forall i d, leaves !! i = Some d -> leaf_hash c ph prf_key parameter (b * W + Z.of_nat i) = Ok d) as Hleaf.
  { intros i d Ei. destruct (Forall2_lookup_r _ _ _ _ _ El Ei) as (j & Ej & E).
    apply lookup_seq in Ej as [-> _]. exact E. }
  split; [done|]. split; [|done]. apply Forall_lookup. intros i d Ei. pose proof (lookup_lt_Some _ _ _ Ei).
  destruct (leaf_hash_ok prf_key parameter (b * W + Z.of_nat i) Hp) as (d' & E' & Hd'); [nia|].
  rewrite (Hleaf i d Ei) in E'. by injection E' as <-.
Qed.

(** The layers over the leaves of block [b]: one root, to which every leaf opens. *)
Lemma bottom_layers_open prf_key parameter b l layers :
  parameter_ok parameter -> 0 <= b < W -> Zlen layers = h -> chain_linked parameter 0 l layers ->
  (forall p, b * W <= p < (b + 1) * W ->
     exists d, node_at l p = Some d /\ leaf_hash c ph prf_key parameter p = Ok d) ->
  exists top root, last (l :: layers) = Some top /\ node_at top b = Some root /\
    ref_node parameter (leaf_hash c ph prf_key parameter) h b root /\
    forall p, b * W <= p < (b + 1) * W -> exists leaf siblings,
      node_at l p = Some leaf /\ leaf_hash c ph prf_key parameter p = Ok leaf /\
      collect_siblings p (removelast (l :: layers)) = Ok siblings /\ Zlen siblings = h /\
      Forall digest_ok siblings /\ climb c ph parameter 0 p leaf siblings = Ok root.
Proof.
  intros Hp Hb Hlen Hch Hat. pose proof leaves_range as HW. assert (b * W + W <= W * W <= 2 ^ 32) by nia.
  pose proof leaves_pow as HWp.
  destruct (chain_ref parameter (leaf_hash c ph prf_key parameter) 0 l layers b) as (top & root & H1 & H2 & H3);
    [lia|lia|done| |].
  { rewrite Hlen, <- HWp. intros p Hpb. destruct (Hat p Hpb) as (d & E & El). exists d. split; [done|by constructor]. }
  rewrite Hlen, Z.add_0_l in H3. exists top, root. split_and!; [done|done|done|]. intros p Hpb.
  destruct (Hat p Hpb) as (leaf & E & El). assert (0 <= p < 2 ^ 32) as Hp32 by nia.
  destruct (chain_opens parameter 0 l layers p leaf Hch E Hp32)
    as (sibs & top' & root' & G1 & G2 & G3 & G4 & G5 & G6).
  rewrite H1 in G4. injection G4 as <-. rewrite Hlen, <- HWp in G5.
  replace (p / W) with b in G5 by (apply Z.div_unique with (p - b * W); nia).
  rewrite H2 in G5. injection G5 as <-. exists leaf, sibs. by rewrite G2.
Qed.

Lemma from_prf_key_ok prf_key parameter b n :
  parameter_ok parameter -> 0 <= b < W ->
  exists t n', from_prf_key c ph randbelow prf_key b parameter n = Ok (t, n') /\ bottom_ok prf_key parameter b t.
Proof.
  intros Hp Hb. pose proof leaves_range as HW. pose proof height_range. pose proof height_even as Hev.
  pose proof (so_log _ _ Hok). assert (b * W + W <= W * W <= 2 ^ 32) as HbW by nia.
  assert ((b * W) mod 2 = 0) as Heven.
  { rewrite leaves_pow. replace h with (Z.succ (h - 1)) by lia. rewrite Z.pow_succ_r by lia.
    rewrite (Z.mul_comm 2), Z.mul_assoc. apply Z.mod_mul. lia. }
  unfold from_prf_key, uint_mul, uint_add. rewrite (uint64_ok W) by lia. mcbn.
  rewrite (uint64_ok (b * W)) by nia. mcbn. rewrite (uint64_ok (b * W + W)) by lia. mcbn.
  replace (Z.to_nat (b * W + W - b * W)) with (Z.to_nat W) by lia.
  destruct (bottom_leaves_ok prf_key parameter b Hp Hb) as (leaves & -> & Hlen & Hd & Hleaf). mcbn.
  unfold new_bottom_tree, uint_mul, uint_sub.
  rewrite (proj2 (Z.eqb_eq _ _)) by (rewrite Hev; div_lia).
  change (Z.shiftl 1 h) with W. rewrite Hlen, Z.eqb_refl.
  rewrite (uint64_ok (cf_LOG_LIFETIME c)) by lia. mcbn. rewrite (uint64_ok W) by lia. mcbn.
  rewrite (uint64_ok (b * W)) by nia. mcbn. rewrite (uint64_ok h) by lia. mcbn.
  destruct (subtree_new_ok parameter 0 (b * W) leaves (Some h) n) as (l & layers & n1 & -> & Hll & Hlo & Hst & Hch & Hat);
    [done|by left|done|nia| |lia|].
  { replace (cf_LOG_LIFETIME c - 0) with (h + h) by lia. rewrite Z.pow_add_r, <- leaves_pow by lia. lia. }
  mcbn. cbn [hs_layers].
  destruct (bottom_layers_open prf_key parameter b l layers) as (top & root & H1 & H2 & H3 & H4); [done..| |].
  { intros p Hpb. destruct (lookup_lt_is_Some_2 leaves (Z.to_nat (p - b * W))) as [d E]; [nia|].
    exists d. pose proof (Hat _ _ E) as E1. pose proof (Hleaf _ _ E) as E2.
    by replace (b * W + Z.of_nat (Z.to_nat (p - b * W))) with p in E1, E2 by nia. }
  rewrite H1. mcbn. pose proof (node_at_range _ _ _ H2) as Hr. unfold node_at in H2.
  rewrite (proj2 (Z.leb_le _ _)) in H2 by lia. pose proof (lo_start _ (chain_last_ok _ _ _ _ _ Hch H1)).
  rewrite (uint64_ok (b - hl_start_index top)) by lia. mcbn. rewrite H2. mcbn.
  unfold HashDigestList_new, cf_NODE_LIST_LIMIT. rewrite (proj2 (Z.leb_le _ _)) by (simpl length; lia). mcbn.
  destruct layers as [|l' layers]; [simpl in Hll; lia|].
  rewrite layers_new_ok by (rewrite length_app, length_removelast_cons; simpl length in *; lia).
  mcbn. eexists _, _. split; [done|].
  set (t := {| hs_depth := _; hs_lowest_layer := _; hs_layers := _ |}).
  assert (hs_layers t = l :: (removelast (l' :: layers) ++ [{| hl_start_index := b; hl_nodes := [root] |}])) as Ht by done.
  constructor; [done|eexists _, _; split; [exact Ht|lia]|].
  exists root. split_and!; [|by eapply Forall_lookup_1; [apply (lo_nodes _ (chain_last_ok _ _ _ _ _ Hch H1))|]|done|].
  - unfold subtree_root. rewrite Ht, app_comm_cons, last_snoc. done.
  - intros p Hpb. destruct (H4 p Hpb) as (leaf & sibs & E1 & E2 & E3 & E4 & E5 & E6). exists leaf.
    split; [done|]. exists sibs. split_and!; [|done|done|done].
    eapply subtree_path_ok; [exact Ht|done|exact E1| |lia].
    rewrite app_comm_cons, <- removelast_cons. rewrite removelast_last. exact E3.
Qed.

(** ** The top tree *)
Lemma new_top_tree_ok parameter start roots n :
  parameter_ok parameter -> Forall digest_ok roots -> 0 <= start -> 0 < Zlen roots -> start + Zlen roots <= W ->
  exists t n' root, new_top_tree c ph randbelow (cf_LOG_LIFETIME c) start parameter roots n = Ok (t, n') /\
    hs_depth t = cf_LOG_LIFETIME c /\ subtree_root t = Ok root /\ digest_ok root /\
    forall i r, roots !! i = Some r -> opens parameter h h t (start + Z.of_nat i) r root.
Proof.
  intros Hp Hd Hs Hlen Hb. pose proof leaves_range. pose proof height_range. pose proof height_even as Hev.
  pose proof leaves_pow as HWp. unfold new_top_tree. rewrite (proj2 (Z.eqb_eq _ _)) by (rewrite Hev; div_lia).
  rewrite (uint64_ok h) by lia. mcbn. rewrite (uint64_ok (cf_LOG_LIFETIME c)) by lia. mcbn.
  destruct (subtree_new_ok parameter h start roots None n) as (l & layers & n1 & -> & Hll & Hlo & Hst & Hch & Hat);
    [done|by right|done|done| |lia|].
  { replace (cf_LOG_LIFETIME c - h) with h by lia. rewrite <- HWp. lia. }
  set (t := {| hs_depth := _; hs_lowest_layer := _; hs_layers := _ |}).
  assert (forall i r, roots !! i = Some r -> exists sibs top root,
    collect_siblings (start + Z.of_nat i) (removelast (l :: layers)) = Ok sibs /\ Zlen sibs = h /\
    Forall digest_ok sibs /\ last (l :: layers) = Some top /\ node_at top 0 = Some root /\
    climb c ph parameter h (start + Z.of_nat i) r sibs = Ok root) as Hopen.
  { intros i r Ei. pose proof (lookup_lt_Some _ _ _ Ei).
    destruct (chain_opens parameter h l layers (start + Z.of_nat i) r Hch (Hat i r Ei) ltac:(lia))
      as (sibs & top & root & G1 & G2 & G3 & G4 & G5 & G6).
    rewrite Hll, <- HWp, Z.div_small in G5 by lia. exists sibs, top, root. by rewrite G2. }
  destruct (lookup_lt_is_Some_2 roots 0) as [r0 E0]; [lia|].
  destruct (Hopen _ _ E0) as (_ & top & root & _ & _ & _ & Htop & Hroot & _).
  pose proof (chain_last_ok _ _ _ _ _ Hch Htop) as Hlt. pose proof (node_at_range _ _ _ Hroot) as Hr.
  pose proof (lo_start _ Hlt). unfold node_at in Hroot. rewrite (proj2 (Z.leb_le _ _)) in Hroot by lia.
  replace (Z.to_nat (0 - hl_start_index top)) with 0%nat in Hroot by lia.
  exists t, n1, root. split_and!; [done|done| |by eapply Forall_lookup_1; [apply Hlt|]|].
  - unfold subtree_root. cbn [hs_layers t]. rewrite Htop. mcbn. destruct (hl_nodes top); [done|].
    by injection Hroot as ->.
  - intros i r Ei. destruct (Hopen _ _ Ei) as (sibs & top' & root' & G1 & G2 & G3 & G4 & G5 & G6).
    rewrite Htop in G4. injection G4 as <-. unfold node_at in G5. rewrite (proj2 (Z.leb_le _ _)) in G5 by lia.
    replace (Z.to_nat (0 - hl_start_index top)) with 0%nat in G5 by lia. rewrite Hroot in G5. injection G5 as <-.
    exists sibs. split_and!; [|done|done|done].
    eapply subtree_path_ok; [reflexivity|done|exact (Hat i r Ei)|exact G1|lia].
Qed.
End Trees.
