(* ===== verification/XmssTheorems.v ===== *)
(** * Signing and verification fit together

    [key_ok] is what key generation establishes of a key pair and sliding the prepared
    window preserves: the two resident bottom trees and the top tree are parts of one
    lifetime tree whose root is the public key.  Under it, signing inside the window
    gives a signature that verifies, and every active slot gets its turn. *)

From S2P Require Import Prelude Pydict Uint Ssz SszCorrect Sha256 Merkle Containers Proofs Poseidon Shake128 Xmss.
From S2P Require Import XmssCorrect XmssTrees.

(** ** The activation window *)
Lemma align_down x k : 0 <= k -> Z.land x (Z.lnot (2 ^ k - 1)) = x / 2 ^ k * 2 ^ k.
Proof.
  intros Hk. rewrite <- Z.ldiff_land, Z.sub_1_r, <- Z.ones_equiv.
  rewrite Z.ldiff_ones_r, Z.shiftl_mul_pow2, Z.shiftr_div_pow2 by done. done.
Qed.

Lemma expand_activation_ok k a n :
  1 <= k -> 0 <= a -> 0 <= n -> a + n <= 2 ^ k * 2 ^ k ->
  let '(s, e) := _expand_activation_time (2 * k) a n in
  0 <= s /\ s + 2 <= e <= 2 ^ k /\ s * 2 ^ k <= a /\ a + n <= e * 2 ^ k.
Proof.
  intros Hk Ha Hn Hb. unfold _expand_activation_time. replace (2 * k / 2) with k by div_lia.
  rewrite Z.shiftl_mul_pow2, Z.mul_1_l by lia.
  assert (2 <= 2 ^ k) as HW by (apply (Z.pow_le_mono_r 2 1); lia).
  rewrite !align_down by lia. set (W := 2 ^ k) in *.
  set (x := a / W). set (y := (a + n + W - 1) / W).
  assert (x * W <= a < x * W + W) as Hx by (unfold x; pose proof (Z.div_mod a W ltac:(lia));
    pose proof (Z.mod_pos_bound a W ltac:(lia)); lia).
  assert (a + n <= y * W < a + n + W) as Hy by (unfold y; pose proof (Z.div_mod (a + n + W - 1) W ltac:(lia));
    pose proof (Z.mod_pos_bound (a + n + W - 1) W ltac:(lia)); lia).
  assert (0 <= x) by (apply Z.div_pos; lia). assert (y <= W) by nia.
  destruct (Z.ltb_spec (y * W - x * W) (2 * W)) as [H2|H2].
  - rewrite Z.gtb_ltb. destruct (Z.ltb_spec (W * W) (x * W + 2 * W)) as [H3|H3].
    + replace (x * W + 2 * W - x * W) with (2 * W) by lia.
      rewrite Z.gtb_ltb, (proj2 (Z.ltb_ge _ _)) by nia.
      replace (W * W - 2 * W) with ((W - 2) * W) by ring. rewrite !Z.div_mul by lia. nia.
    + replace (x * W + 2 * W) with ((x + 2) * W) by ring. rewrite !Z.div_mul by lia. nia.
  - rewrite Z.gtb_ltb, (proj2 (Z.ltb_ge _ _)) by nia. rewrite !Z.div_mul by lia. nia.
Qed.

Section Keys.
Context (c : XmssConfig) (ph : PoseidonXmss).
Hypothesis Hok : scheme_ok c ph.
Abbreviation digest_ok := (vector_ok (cf_HASH_LENGTH c)).
Abbreviation parameter_ok := (vector_ok (cf_PARAMETER_LENGTH c)).
Abbreviation W := (cf_LEAVES_PER_BOTTOM_TREE c).
Abbreviation h := (cf_LOG_LIFETIME c / 2).

(** The key pair belongs to one lifetime tree, active for bottom trees [s] to [e]. *)
Record key_ok (pk : PublicKey) (sk : SecretKey) (s e : Z) : Prop := {
  ko_parameter : parameter_ok (sk_parameter sk) /\ pk_parameter pk = sk_parameter sk;
  ko_root : digest_ok (pk_root pk);
  ko_window : 0 <= s /\ e <= W /\ sk_activation_slot sk = s * W /\ sk_num_active_slots sk = (e - s) * W;
  ko_prepared : s <= sk_left_bottom_tree_index sk /\ sk_left_bottom_tree_index sk + 2 <= e;
  ko_left : bottom_ok c ph (sk_prf_key sk) (sk_parameter sk) (sk_left_bottom_tree_index sk)
    (sk_left_bottom_tree sk);
  ko_right : bottom_ok c ph (sk_prf_key sk) (sk_parameter sk) (sk_left_bottom_tree_index sk + 1)
    (sk_right_bottom_tree sk);
  ko_depth : hs_depth (sk_top_tree sk) = cf_LOG_LIFETIME c;
  ko_top : forall b, s <= b < e -> exists r,
    ref_node c ph (sk_parameter sk) (leaf_hash c ph (sk_prf_key sk) (sk_parameter sk)) h b r /\
    opens c ph (sk_parameter sk) h h (sk_top_tree sk) b r (pk_root pk)
}.

(** ** Key generation *)
Lemma bottom_root prf_key parameter b t :
  bottom_ok c ph prf_key parameter b t ->
  exists r, subtree_root t = Ok r /\ digest_ok r /\
    ref_node c ph parameter (leaf_hash c ph prf_key parameter) h b r.
Proof. intros H. destruct (bo_root _ _ _ _ _ _ H) as (r & H1 & H2 & H3 & _). eauto. Qed.

Lemma bottom_roots_ok randbelow count prf_key parameter i n :
  parameter_ok parameter -> 0 <= i -> i + Z.of_nat count <= W ->
  exists roots n', bottom_roots c ph randbelow count prf_key parameter i n = Ok (roots, n') /\
    length roots = count /\ Forall digest_ok roots /\
    forall j r, roots !! j = Some r ->
      ref_node c ph parameter (leaf_hash c ph prf_key parameter) h (i + Z.of_nat j) r.
Proof.
  intros Hp. pose proof (leaves_range c ph Hok) as HW. revert i n.
  induction count as [|count IH]; intros i n Hi Hb; cbn [bottom_roots].
  - exists [], n. by split_and!.
  - rewrite uint64_ok by lia. mcbn.
    destruct (from_prf_key_ok c ph randbelow Hok prf_key parameter i n Hp) as (t & n1 & -> & Ht); [lia|]. mcbn.
    destruct (bottom_root _ _ _ _ Ht) as (r & -> & Hr & Href). mcbn.
    destruct (IH (i + 1) n1) as (roots & n2 & -> & Hl & Hf & Hrefs); [lia|lia|]. mcbn.
    eexists _, _. split; [done|]. split; [simpl; lia|]. split; [by constructor|].
    intros [|j] r' E; cbn in E.
    + injection E as <-. by rewrite Z.add_0_r.
    + replace (i + Z.of_nat (S j)) with (i + 1 + Z.of_nat j) by lia. by apply Hrefs.
Qed.

Lemma random_parameter_ok randbelow n :
  exists p n', random_parameter c randbelow n = Ok (p, n') /\ parameter_ok p.
Proof.
  unfold random_parameter, random_field_elements. destruct (so_positive _ _ Hok) as (H & _).
  rewrite vector_new_ok; [mcbn; eexists _, _; split; [done|]|];
    (split; [rewrite length_map, length_seq; lia|apply Forall_fmap, Forall_forall; intros; apply mod_in_field]).
Qed.

Lemma lifetime_square : 2 ^ cf_LOG_LIFETIME c = W * W.
Proof.
  pose proof (height_even c ph Hok). pose proof (height_range c ph Hok). rewrite (leaves_pow c ph Hok).
  replace (cf_LOG_LIFETIME c) with (h + h) at 1 by lia. apply Z.pow_add_r; lia.
Qed.

Lemma key_gen_ok randbelow a m urandom n :
  0 <= a -> 0 <= m -> a + m <= 2 ^ cf_LOG_LIFETIME c -> length urandom = 32%nat ->
  exists pk sk s e, key_gen c ph randbelow a m urandom n = Ok (pk, sk) /\ key_ok pk sk s e /\
    sk_left_bottom_tree_index sk = s /\ s * W <= a /\ a + m <= e * W.
Proof.
  intros Ha Hm Hb Hu. pose proof (leaves_range c ph Hok) as HW. pose proof (height_even c ph Hok) as Hev.
  pose proof (height_range c ph Hok). pose proof (leaves_pow c ph Hok) as HWp.
  unfold key_gen. rewrite (lifetime_ok c ph Hok). mcbn. rewrite (proj2 (Z.leb_le _ _) Hb).
  destruct (random_parameter_ok randbelow n) as (parameter & n1 & -> & Hp). mcbn.
  unfold bytes_new, PRF_KEY_LENGTH. rewrite Hu. change (Z.of_nat 32 =? 32) with true. mcbn.
  pose proof (expand_activation_ok h a m ltac:(lia) Ha Hm) as He. rewrite <- HWp, <- lifetime_square in He.
  specialize (He Hb). rewrite <- Hev in He.
  destruct (_expand_activation_time (cf_LOG_LIFETIME c) a m) as [s e]. destruct He as (Hs & [He1 He2] & Hsa & Hae).
  rewrite (uint64_ok s) by lia. mcbn.
  destruct (from_prf_key_ok c ph randbelow Hok urandom parameter s n1 Hp) as (left_tree & n2 & -> & Hleft); [lia|]. mcbn.
  rewrite (uint64_ok (s + 1)) by lia. mcbn.
  destruct (from_prf_key_ok c ph randbelow Hok urandom parameter (s + 1) n2 Hp) as (right_tree & n3 & -> & Hright); [lia|].
  mcbn. destruct (bottom_root _ _ _ _ Hleft) as (r1 & -> & Hr1 & Hf1). mcbn.
  destruct (bottom_root _ _ _ _ Hright) as (r2 & -> & Hr2 & Hf2). mcbn.
  destruct (bottom_roots_ok randbelow (Z.to_nat (e - (s + 2))) urandom parameter (s + 2) n3)
    as (roots & n4 & -> & Hlen & Hfr & Hrefs); [done|lia|lia|]. mcbn.
  destruct (new_top_tree_ok c ph randbelow Hok parameter s (r1 :: r2 :: roots) n4)
    as (top & n5 & root & -> & Hdep & Ert & Hroot & Hopen); [done|by constructor; [|constructor]|done|simpl; lia|simpl length; lia|].
  mcbn. rewrite Ert. mcbn. rewrite (uint64_ok (s * W)) by nia. mcbn. rewrite (uint64_ok ((e - s) * W)) by nia. mcbn.
  eexists _, _, s, e. split; [done|]. split; [|done]. constructor; cbn; try done; try lia.
  intros b Hbr.
  destruct (lookup_lt_is_Some_2 (r1 :: r2 :: roots) (Z.to_nat (b - s))) as [r Er]; [simpl; lia|].
  exists r. split; [|replace b with (s + Z.of_nat (Z.to_nat (b - s))) by lia; by apply Hopen].
  destruct (Z.to_nat (b - s)) as [|[|j]] eqn:Ej; cbn in Er.
  - injection Er as <-. by replace b with s by lia.
  - injection Er as <-. by replace b with (s + 1) by lia.
  - replace b with (s + 2 + Z.of_nat j) by lia. by apply Hrefs.
Qed.

(** ** Sliding the window *)
Lemma advance_preparation_ok randbelow pk sk s e n :
  key_ok pk sk s e ->
  exists sk', advance_preparation c ph randbelow sk n = Ok sk' /\ key_ok pk sk' s e /\
    sk_left_bottom_tree_index sk' =
      if sk_left_bottom_tree_index sk + 3 <=? e then sk_left_bottom_tree_index sk + 1
      else sk_left_bottom_tree_index sk.
Proof.
  intros Hk. pose proof (leaves_range c ph Hok) as HW. destruct (ko_window _ _ _ _ Hk) as (Hs & He & Ha & Hn).
  destruct (ko_prepared _ _ _ _ Hk) as [Hl1 Hl2]. unfold advance_preparation. rewrite Ha, Hn.
  set (li := sk_left_bottom_tree_index sk) in *. rewrite Z.gtb_ltb.
  replace (s * W + (e - s) * W) with (e * W) by ring.
  destruct (Z.leb_spec (li + 3) e) as [H3|H3].
  - rewrite (proj2 (Z.ltb_ge _ _)) by nia. rewrite (uint64_ok (li + 2)) by lia. mcbn.
    destruct (ko_parameter _ _ _ _ Hk) as [Hp _].
    destruct (from_prf_key_ok c ph randbelow Hok (sk_prf_key sk) (sk_parameter sk) (li + 2) n Hp) as (t & n' & -> & Ht);
      [lia|]. mcbn. rewrite (uint64_ok (li + 1)) by lia. mcbn. eexists. split; [done|]. split; [|done].
    destruct Hk. constructor; cbn; auto; try lia. by replace (li + 1 + 1) with (li + 2) by lia.
  - rewrite (proj2 (Z.ltb_lt _ _)) by nia. by exists sk.
Qed.

(** ** Signing *)
Lemma find_codeword_ok tries sk slot message attempts :
  parameter_ok (sk_parameter sk) -> 0 <= slot < 2 ^ 32 -> length message = 32%nat ->
  0 <= attempts -> attempts + Z.of_nat tries <= 2 ^ 64 ->
  find_codeword c ph tries sk slot message attempts = Err RuntimeError \/
  exists rho cw, find_codeword c ph tries sk slot message attempts = Ok (rho, cw) /\
    vector_ok (cf_RAND_LENGTH c) rho /\ codeword_ok c cw /\
    target_sum_encode c ph (sk_parameter sk) slot rho message = Ok (Some cw).
Proof.
  intros Hp Hs Hm. revert attempts. induction tries as [|tries IH]; intros attempts Ha Hb;
    cbn [find_codeword]; [by left|].
  rewrite uint64_ok by lia. mcbn.
  destruct (derive_randomness_ok c ph Hok (sk_prf_key sk) slot message attempts) as (rho & -> & Hr); [done|lia|]. mcbn.
  destruct (target_sum_encode_ok c ph Hok (sk_parameter sk) slot rho message) as (o & E & Ho); [done..|].
  rewrite E. mcbn. destruct o as [cw|]; [|apply IH; lia].
  right. exists rho, cw. split_and!; [done|done|by apply Ho|done].
Qed.

(** Releasing each chain at its digit and finishing it gives the chain ends. *)
Lemma release_finish sk slot i cw :
  parameter_ok (sk_parameter sk) -> 0 <= slot < 2 ^ 32 -> 0 <= i -> i + Zlen cw <= cf_DIMENSION c ->
  Forall (fun x => 0 <= x < cf_BASE c) cw ->
  exists released, release_chains c ph sk slot i cw = Ok released /\ length released = length cw /\
    Forall digest_ok released /\
    forall pre, Zlen pre = i ->
      finish_chains c ph (sk_parameter sk) slot (pre ++ released) i cw =
      mapM (chain_end c ph (sk_prf_key sk) (sk_parameter sk) slot)
        (map Z.of_nat (seq (Z.to_nat i) (length cw))).
Proof.
  intros Hp Hs Hi Hb Hcw. pose proof (so_base _ _ Hok). destruct (so_dimension _ _ Hok) as [Hdim _].
  revert i Hi Hb. induction Hcw as [|x cw Hx Hcw IH]; intros i Hi Hb; cbn [release_chains].
  - exists []. by split_and!.
  - cbn [length] in Hb. rewrite uint64_ok by lia. mcbn.
    destruct (derive_chain_start_ok c ph Hok (sk_prf_key sk) slot i) as (d & Ed & Hd); [done|lia|].
    rewrite Ed. mcbn.
    destruct (hash_chain_ok c ph Hok (sk_parameter sk) slot i 0 (Z.to_nat x) d) as (d1 & E1 & Hd1);
      [done|split; lia|lia|lia|done|]. rewrite E1. mcbn.
    destruct (IH (i + 1)) as (released & -> & Hlen & Hf & Hfin); [lia|lia|]. mcbn.
    eexists. split; [done|]. split; [simpl; lia|]. split; [by constructor|]. intros pre Hpre.
    cbn [finish_chains length seq map].
    rewrite (list_lookup_middle pre released d1) by lia. mcbn.
    pose proof (hash_chain_app c ph (sk_parameter sk) slot i 0 (Z.to_nat x) (Z.to_nat (cf_BASE c - 1 - x)) d d1 E1) as Eapp.
    rewrite Z.add_0_l, Z2Nat.id in Eapp by lia. rewrite Eapp.
    replace (Z.to_nat x + Z.to_nat (cf_BASE c - 1 - x))%nat with (Z.to_nat (cf_BASE c - 1)) by lia.
    specialize (Hfin (pre ++ [d1])). rewrite <- app_assoc in Hfin. cbn [app] in Hfin.
    rewrite Hfin by (rewrite length_app; simpl length; lia).
    replace (Z.to_nat (i + 1)) with (S (Z.to_nat i)) by lia.
    assert (chain_end c ph (sk_prf_key sk) (sk_parameter sk) slot (Z.of_nat (Z.to_nat i)) =
      hash_chain c ph (sk_parameter sk) slot i 0 (Z.to_nat (cf_BASE c - 1)) d) as Ece.
    { unfold chain_end. rewrite Z2Nat.id, uint64_ok by lia. mcbn. by rewrite Ed. }
    rewrite <- Ece. done.
Qed.

(** The joined openings climb from the leaf to the public root. *)
Lemma combined_path_ok pk sk s e b t slot :
  key_ok pk sk s e -> s <= b < e -> bottom_ok c ph (sk_prf_key sk) (sk_parameter sk) b t ->
  b * W <= slot < (b + 1) * W ->
  exists leaf path, leaf_hash c ph (sk_prf_key sk) (sk_parameter sk) slot = Ok leaf /\
    combined_path c (sk_top_tree sk) t slot = Ok path /\ Zlen path = cf_LOG_LIFETIME c /\
    Forall digest_ok path /\ climb c ph (sk_parameter sk) 0 slot leaf path = Ok (pk_root pk).
Proof.
  intros Hk Hb Ht Hslot. pose proof (leaves_range c ph Hok) as HW. pose proof (height_even c ph Hok) as Hev.
  pose proof (height_range c ph Hok) as Hh. destruct (ko_window _ _ _ _ Hk) as (Hs & He & _ & _).
  destruct (bo_root _ _ _ _ _ _ Ht) as (root & _ & _ & Href & Hopen).
  destruct (Hopen slot Hslot) as (leaf & Eleaf & sibs & Epath & Hl1 & Hf1 & Ec1).
  destruct (ko_top _ _ _ _ Hk b Hb) as (root' & Href' & sibs' & Epath' & Hl2 & Hf2 & Ec2).
  rewrite (ref_node_fun c ph _ _ _ _ _ _ Href' Href) in Ec2.
  assert (slot / W = b) as Hdiv by (symmetry; apply Z.div_unique with (slot - b * W); nia).
  destruct (bo_start _ _ _ _ _ _ Ht) as (l & rest & El & Hst).
  exists leaf, (sibs ++ sibs'). split; [done|]. split; [|split; [|split]].
  - unfold combined_path, uint_floordiv, uint_mul. rewrite (ko_depth _ _ _ _ Hk), (bo_depth _ _ _ _ _ _ Ht), Z.eqb_refl.
    rewrite (proj2 (Z.eqb_eq _ _)) by (rewrite Hev; div_lia). change (Z.shiftl 1 h) with W.
    rewrite (uint64_ok W) by lia. mcbn. rewrite (proj2 (Z.eqb_neq W 0)) by lia. cbn [negb]. rewrite Hdiv.
    rewrite (uint64_ok b) by lia. mcbn. rewrite (uint64_ok (b * W)) by nia. mcbn. rewrite El. mcbn.
    rewrite Hst, Z.eqb_refl, Epath. mcbn. rewrite Epath'. mcbn.
    unfold HashDigestList_new, cf_NODE_LIST_LIMIT. rewrite (proj2 (Z.leb_le _ _)); [done|].
    rewrite length_app. pose proof (Z.pow_gt_lin_r 2 h ltac:(lia) ltac:(lia)) as Hlin.
    rewrite <- (leaves_pow c ph Hok) in Hlin. lia.
  - rewrite length_app. lia.
  - by apply Forall_app.
  - rewrite (climb_app c ph _ _ _ _ _ _ _ Ec1), Hl1, <- (leaves_pow c ph Hok), Hdiv. exact Ec2.
Qed.

(** A correct opening, randomness and released chains verify. *)
Lemma verify_accepts pk sk slot message rho cw released leaf path :
  parameter_ok (sk_parameter sk) -> pk_parameter pk = sk_parameter sk ->
  0 <= slot < 2 ^ cf_LOG_LIFETIME c -> codeword_ok c cw ->
  target_sum_encode c ph (sk_parameter sk) slot rho message = Ok (Some cw) ->
  release_chains c ph sk slot 0 cw = Ok released ->
  leaf_hash c ph (sk_prf_key sk) (sk_parameter sk) slot = Ok leaf ->
  Zlen path = cf_LOG_LIFETIME c -> climb c ph (sk_parameter sk) 0 slot leaf path = Ok (pk_root pk) ->
  verify c ph pk slot message {| sig_path := path; sig_rho := rho; sig_hashes := released |} = Ok true.
Proof.
  intros Hp Epk Hs (Hcl & Hcf & _) Eenc Erel Eleaf Hlen Eclimb. pose proof (lifetime_bound c ph Hok) as Hlb.
  destruct (release_finish sk slot 0 cw Hp ltac:(lia) ltac:(lia) ltac:(lia) Hcf)
    as (released' & Erel' & Hlr & _ & Hfin).
  rewrite Erel in Erel'. injection Erel' as <-.
  unfold verify. rewrite (lifetime_ok c ph Hok). mcbn. rewrite (proj2 (Z.leb_gt _ _)) by lia.
  cbn [sig_rho sig_path sig_hashes]. rewrite Epk, Eenc. mcbn.
  rewrite (proj2 (Z.eqb_eq (Zlen released) _)) by lia. rewrite Hlen, Z.eqb_refl. cbn [negb].
  specialize (Hfin [] eq_refl). cbn [app] in Hfin. rewrite Hfin.
  unfold leaf_hash in Eleaf. rewrite uint64_ok in Eleaf by lia. mcbn_in Eleaf.
  apply bind_Ok in Eleaf as (ends & Eends & Eleaf).
  replace (map Z.of_nat (seq (Z.to_nat 0) (length cw))) with (chain_indices c)
    by (unfold chain_indices; do 2 f_equal; lia).
  rewrite Eends. mcbn. unfold verify_path. rewrite Hlen, Z.eqb_refl, (lifetime_ok c ph Hok). cbn [negb]. mcbn.
  rewrite (proj2 (Z.leb_gt _ _)) by lia. rewrite uint64_ok by lia. mcbn. rewrite Eleaf. mcbn.
  rewrite Eclimb. mcbn. by rewrite bool_decide_eq_true_2.
Qed.

(** The slots [sign] accepts: active and prepared. *)
Definition signable (sk : SecretKey) (slot : Z) : Prop :=
  (get_activation_interval sk).1 <= slot < (get_activation_interval sk).2 /\
  (get_prepared_interval c sk).1 <= slot < (get_prepared_interval c sk).2.

Lemma sign_outside sk slot message : ~ signable sk slot -> sign c ph sk slot message = Err ValueError.
Proof.
  unfold signable, get_activation_interval. cbn [fst snd]. intros H. unfold sign.
  destruct (get_prepared_interval c sk) as [ps pe]. cbn [fst snd] in H.
  destruct (_ && _) eqn:E1; [|done]. destruct ((ps <=? slot) && (slot <? pe)) eqn:E2; [|done].
  bool_to_prop. lia.
Qed.

Lemma sign_ok pk sk s e slot message :
  key_ok pk sk s e -> length message = 32%nat -> signable sk slot ->
  sign c ph sk slot message = Err RuntimeError \/
  exists sg, sign c ph sk slot message = Ok sg /\ signature_ok c sg /\ verify c ph pk slot message sg = Ok true.
Proof.
  intros Hk Hm [Hact Hprep]. pose proof (leaves_range c ph Hok) as HW. pose proof lifetime_square as Hsq.
  destruct (ko_window _ _ _ _ Hk) as (Hs & He & Ha & Hn). destruct (ko_prepared _ _ _ _ Hk) as [Hl1 Hl2].
  destruct (ko_parameter _ _ _ _ Hk) as [Hp Epk].
  unfold get_activation_interval in Hact. unfold get_prepared_interval in Hprep. cbn [fst snd] in Hact, Hprep.
  set (li := sk_left_bottom_tree_index sk) in *.
  assert (0 <= slot < 2 ^ cf_LOG_LIFETIME c) as Hslot by (rewrite Hsq; nia).
  pose proof (lifetime_bound c ph Hok) as Hlb.
  unfold sign, get_prepared_interval. fold li.
  rewrite (proj2 (Z.leb_le (sk_activation_slot sk) _)), (proj2 (Z.ltb_lt _ (sk_activation_slot sk + _))) by lia.
  cbn [andb]. rewrite (proj2 (Z.leb_le (li * W) _)), (proj2 (Z.ltb_lt _ (li * W + _))) by lia. cbn [andb].
  pose proof (so_tries _ _ Hok).
  destruct (find_codeword_ok (Z.to_nat (cf_MAX_TRIES c)) sk slot message 0) as [->|(rho & cw & -> & Hr & Hcw & Eenc)];
    [done|lia|done|lia|lia|by left|]. mcbn.
  pose proof Hcw as (Hcl & Hcf & _). rewrite Hcl, Z.eqb_refl.
  destruct (release_finish sk slot 0 cw Hp ltac:(lia) ltac:(lia) ltac:(lia) Hcf) as (rel & Erel & Hlr & Hfr & _).
  rewrite Erel. mcbn.
  assert (exists b, s <= b < e /\ b * W <= slot < (b + 1) * W /\
    bottom_ok c ph (sk_prf_key sk) (sk_parameter sk) b
      (if slot <? li * W + W then sk_left_bottom_tree sk else sk_right_bottom_tree sk)) as (b & Hb & Hbs & Hbt).
  { destruct (Z.ltb_spec slot (li * W + W)).
    - exists li. split_and!; [lia|lia|lia|lia|apply Hk].
    - exists (li + 1). split_and!; [lia|lia|lia|lia|apply Hk]. }
  destruct (combined_path_ok pk sk s e b _ slot Hk Hb Hbt Hbs) as (leaf & path & Eleaf & -> & Hpl & Hpf & Ec). mcbn.
  unfold HashDigestList_new. destruct (so_dimension _ _ Hok) as [_ Hdl].
  rewrite (proj2 (Z.leb_le _ _)) by lia. mcbn. unfold signature_new. rewrite Hpl, Z.eqb_refl.
  rewrite (proj2 (Z.eqb_eq _ _)) by lia. right. eexists. split; [done|]. split; [by split_and!|].
  by eapply verify_accepts.
Qed.
End Keys.

(** * What the signature scheme guarantees

    Keys and signatures of the scheme work together: key generation covers the slots
    asked for, every signature verifies, every active slot can be prepared, and
    verification answers on any well-formed input.  Hash positions are separated and
    encodings are incomparable, which is what the unforgeability argument of the
    scheme rests on. *)

Section Scheme.
Context (c : XmssConfig) (ph : PoseidonXmss).

(** The key pairs a signer holds: generated, then slid forward any number of times. *)
Inductive held_key : PublicKey -> SecretKey -> Prop :=
| held_generated randbelow activation_slot num_active_slots urandom n pk sk :
    0 <= activation_slot -> 0 <= num_active_slots ->
    key_gen c ph randbelow activation_slot num_active_slots urandom n = Ok (pk, sk) -> held_key pk sk
| held_advanced randbelow pk sk n sk' :
    held_key pk sk -> advance_preparation c ph randbelow sk n = Ok sk' -> held_key pk sk'.

Lemma key_gen_inputs randbelow a m urandom n pk sk :
  scheme_ok c ph -> key_gen c ph randbelow a m urandom n = Ok (pk, sk) ->
  a + m <= 2 ^ cf_LOG_LIFETIME c /\ length urandom = 32%nat.
Proof.
  intros Hok E. unfold key_gen in E. rewrite (lifetime_ok c ph Hok) in E. mcbn_in E.
  destruct (Z.leb_spec (a + m) (2 ^ cf_LOG_LIFETIME c)) as [Hle|]; [|done].
  destruct (random_parameter_ok c ph Hok randbelow n) as (p & n1 & Ep & _). rewrite Ep in E. mcbn_in E.
  unfold bytes_new, PRF_KEY_LENGTH in E. destruct (Z.eqb_spec (Zlen urandom) 32); [|done]. split; [done|lia].
Qed.

Lemma held_key_ok pk sk : scheme_ok c ph -> held_key pk sk -> exists s e, key_ok c ph pk sk s e.
Proof.
  intros Hok. induction 1 as [rb a m u n pk sk Ha Hm E|rb pk sk n sk' _ (s & e & IH) E].
  - destruct (key_gen_inputs _ _ _ _ _ _ _ Hok E) as [Hb Hu].
    destruct (key_gen_ok c ph Hok rb a m u n Ha Hm Hb Hu) as (pk' & sk' & s & e & E' & Hk & _).
    rewrite E in E'. injection E' as <- <-. eauto.
  - destruct (advance_preparation_ok c ph Hok rb pk sk s e n IH) as (sk2 & E2 & Hk & _).
    rewrite E in E2. injection E2 as <-. eauto.
Qed.

(** [k] slides of the prepared window *)
Fixpoint advance_times (randbelow : nat -> Z) (k : nat) (sk : SecretKey) (n : nat) : result SecretKey :=
  match k with
  | O => Ok sk
  | S k => sk ← advance_preparation c ph randbelow sk n; advance_times randbelow k sk n
  end.

Lemma advance_times_ok randbelow k pk sk s e n :
  scheme_ok c ph -> key_ok c ph pk sk s e -> sk_left_bottom_tree_index sk + Z.of_nat k + 2 <= e ->
  exists sk', advance_times randbelow k sk n = Ok sk' /\ key_ok c ph pk sk' s e /\
    sk_left_bottom_tree_index sk' = sk_left_bottom_tree_index sk + Z.of_nat k.
Proof.
  intros Hok. revert sk. induction k as [|k IH]; intros sk Hk Hb; cbn [advance_times].
  - exists sk. split_and!; [done|done|lia].
  - destruct (advance_preparation_ok c ph Hok randbelow pk sk s e n Hk) as (sk1 & -> & Hk1 & Hl1). mcbn.
    rewrite (proj2 (Z.leb_le _ _)) in Hl1 by lia.
    destruct (IH sk1 Hk1) as (sk2 & -> & Hk2 & Hl2); [lia|]. exists sk2. split_and!; [done|done|lia].
Qed.
End Scheme.

(** A key the scheme generates covers the slots it was asked for, whatever the
    random draws: key generation fails only on a request that exceeds the lifetime,
    and otherwise returns a pair that is active on a window of at least two whole
    bottom trees inside the lifetime which contains the request, prepared from its
    first slot on. *)
Theorem key_gen_covers_request (c : XmssConfig) (ph : PoseidonXmss) (randbelow : nat -> Z)
    (activation_slot num_active_slots : Z) (urandom : bytes) (n : nat) :
  scheme_ok c ph -> 0 <= activation_slot -> 0 <= num_active_slots -> length urandom = 32%nat ->
  let W := cf_LEAVES_PER_BOTTOM_TREE c in
  if 2 ^ cf_LOG_LIFETIME c <? activation_slot + num_active_slots
  then key_gen c ph randbelow activation_slot num_active_slots urandom n = Err ValueError
  else exists pk sk,
    key_gen c ph randbelow activation_slot num_active_slots urandom n = Ok (pk, sk) /\
    let '(start, stop) := get_activation_interval sk in
    0 <= start <= activation_slot /\ activation_slot + num_active_slots <= stop <= 2 ^ cf_LOG_LIFETIME c /\
    start mod W = 0 /\ stop mod W = 0 /\ start + 2 * W <= stop /\
    get_prepared_interval c sk = (start, start + 2 * W).
Proof.
  intros Hok Ha Hm Hu. cbn zeta. destruct (Z.ltb_spec (2 ^ cf_LOG_LIFETIME c) (activation_slot + num_active_slots)) as [H|H].
  - unfold key_gen. rewrite (lifetime_ok c ph Hok). mcbn. by rewrite (proj2 (Z.leb_gt _ _)).
  - destruct (key_gen_ok c ph Hok randbelow activation_slot num_active_slots urandom n Ha Hm H Hu)
      as (pk & sk & s & e & E & Hk & Hl & H1 & H2).
    exists pk, sk. split; [done|]. destruct (ko_window _ _ _ _ _ _ Hk) as (Hs & He & Hact & Hnum).
    destruct (ko_prepared _ _ _ _ _ _ Hk) as [_ Hpr]. pose proof (leaves_range c ph Hok) as HW.
    rewrite (lifetime_square c ph Hok). unfold get_activation_interval, get_prepared_interval.
    rewrite Hact, Hnum, Hl. replace (s * cf_LEAVES_PER_BOTTOM_TREE c + (e - s) * cf_LEAVES_PER_BOTTOM_TREE c)
      with (e * cf_LEAVES_PER_BOTTOM_TREE c) by ring.
    rewrite !Z.mod_mul by lia. split_and!; (done || nia).
Qed.

(** C4: signatures verify.  With any key pair the signer holds, signing inside the
    active and prepared windows either reports that no encoding was found within the
    allowed tries or returns a signature that verification accepts under the public
    key for that slot and message; outside the windows it raises the value error. *)
Theorem signatures_verify (c : XmssConfig) (ph : PoseidonXmss) (pk : PublicKey) (sk : SecretKey)
    (slot : Z) (message : Bytes32) :
  scheme_ok c ph -> held_key c ph pk sk -> length message = 32%nat ->
  (~ signable c sk slot /\ sign c ph sk slot message = Err ValueError) \/
  (signable c sk slot /\
   (sign c ph sk slot message = Err RuntimeError \/
    exists signature, sign c ph sk slot message = Ok signature /\
      verify c ph pk slot message signature = Ok true)).
Proof.
  intros Hok Hh Hm. destruct (held_key_ok c ph pk sk Hok Hh) as (s & e & Hk).
  assert (Decision (signable c sk slot)) as [Hs|Hs] by (unfold signable; apply _).
  - right. split; [done|]. destruct (sign_ok c ph Hok pk sk s e slot message Hk Hm Hs) as [?|(sg & ? & _ & ?)]; eauto.
  - left. split; [done|by apply sign_outside].
Qed.

(** Every active slot gets its turn.  From any held key, a slot of the activation
    window that lies at or past the start of the prepared one becomes signable after
    finitely many slides of the window, with the same public key. *)
Theorem active_slots_become_signable (c : XmssConfig) (ph : PoseidonXmss) (randbelow : nat -> Z)
    (pk : PublicKey) (sk : SecretKey) (slot : Z) (n : nat) :
  scheme_ok c ph -> held_key c ph pk sk ->
  (get_prepared_interval c sk).1 <= slot < (get_activation_interval sk).2 ->
  exists k sk', advance_times c ph randbelow k sk n = Ok sk' /\ signable c sk' slot /\
    exists s e, key_ok c ph pk sk' s e.
Proof.
  intros Hok Hh Hslot. destruct (held_key_ok c ph pk sk Hok Hh) as (s & e & Hk).
  destruct (ko_window _ _ _ _ _ _ Hk) as (Hs & He & Ha & Hn). destruct (ko_prepared _ _ _ _ _ _ Hk) as [Hl1 Hl2].
  pose proof (leaves_range c ph Hok) as HW. unfold get_prepared_interval, get_activation_interval in Hslot.
  cbn [fst snd] in Hslot. rewrite Ha, Hn in Hslot. set (W := cf_LEAVES_PER_BOTTOM_TREE c) in *.
  set (li := sk_left_bottom_tree_index sk) in *. set (b := slot / W).
  assert (b * W <= slot < b * W + W) as Hb by (unfold b; pose proof (Z.div_mod slot W ltac:(lia));
    pose proof (Z.mod_pos_bound slot W ltac:(lia)); lia).
  set (target := Z.max li (b - 1)). assert (li <= b < e) by nia.
  destruct (advance_times_ok c ph randbelow (Z.to_nat (target - li)) pk sk s e n Hok Hk) as (sk' & E & Hk' & Hl'); [lia|].
  exists (Z.to_nat (target - li)), sk'. split; [done|]. split; [|eauto].
  destruct (ko_window _ _ _ _ _ _ Hk') as (_ & _ & Ha' & Hn').
  unfold signable, get_prepared_interval, get_activation_interval. cbn [fst snd]. rewrite Ha', Hn', Hl'.
  fold W. fold li. replace (li + Z.of_nat (Z.to_nat (target - li))) with target by lia. split; nia.
Qed.

(** Verification never raises: on a public key and a signature of field elements in
    vectors of the declared lengths, whatever the number of siblings and released
    digests, it answers; and it answers no for a slot past the lifetime or when either
    count is not the scheme's. *)
Theorem verify_never_raises (c : XmssConfig) (ph : PoseidonXmss) (pk : PublicKey) (slot : Z)
    (message : Bytes32) (sg : Signature) :
  scheme_ok c ph -> public_key_ok c pk -> signature_ok c sg -> 0 <= slot -> length message = 32%nat ->
  exists accepted, verify c ph pk slot message sg = Ok accepted /\
    (accepted = true -> slot < 2 ^ cf_LOG_LIFETIME c /\ Zlen (sig_hashes sg) = cf_DIMENSION c /\
                        Zlen (sig_path sg) = cf_LOG_LIFETIME c).
Proof.
  intros Hok Hpk Hsg Hs Hm. destruct (verify_ok c ph Hok pk slot message sg Hpk Hsg Hs Hm) as [b E].
  exists b. split; [done|]. intros ->. unfold verify in E. rewrite (lifetime_ok c ph Hok) in E. mcbn_in E.
  destruct (Z.leb_spec (2 ^ cf_LOG_LIFETIME c) slot); [done|]. apply bind_Ok in E as ([cw|] & _ & E); [|done].
  destruct (Z.eqb_spec (Zlen (sig_hashes sg)) (cf_DIMENSION c)); cbn [negb] in E; [|done].
  by destruct (Z.eqb_spec (Zlen (sig_path sg)) (cf_LOG_LIFETIME c)); cbn [negb] in E.
Qed.

(** Hash positions are separated.  Within the tree heights, chain counts and chain
    lengths of the scheme, two tweaks that encode to the same field elements are the
    same tweak, and none of them encodes to the elements that open a message hash. *)
Theorem tweaks_are_separated (c : XmssConfig) (ph : PoseidonXmss) (t1 t2 : Tweak) (epoch : Z) :
  scheme_ok c ph -> tweak_ok t1 -> tweak_ok t2 -> 0 <= epoch < 2 ^ 32 ->
  (int_to_base_p (packed_tweak t1) (cf_TWEAK_LENGTH c) = int_to_base_p (packed_tweak t2) (cf_TWEAK_LENGTH c) ->
   t1 = t2) /\
  int_to_base_p (packed_tweak t1) (cf_TWEAK_LENGTH c) <> encode_epoch c epoch.
Proof.
  intros Hok H1 H2 He. destruct (so_positive _ _ Hok) as (_ & Ht & _). pose proof (so_tweak_fits _ _ Hok) as Hf.
  pose proof (packed_tweak_range t1 H1). pose proof (packed_tweak_range t2 H2).
  destruct (int_to_base_p_ok (packed_tweak t1) (cf_TWEAK_LENGTH c)) as (l1 & E1 & _ & _ & V1); [lia|lia|].
  destruct (int_to_base_p_ok (packed_tweak t2) (cf_TWEAK_LENGTH c)) as (l2 & E2 & _ & _ & V2); [lia|lia|].
  unfold encode_epoch, TWEAK_PREFIX_MESSAGE. rewrite lor_shiftl by lia.
  destruct (int_to_base_p_ok (epoch * 2 ^ 8 + 2) (cf_TWEAK_LENGTH c)) as (l3 & E3 & _ & _ & V3); [lia|lia|].
  rewrite E1, E2, E3. split.
  - intros [= ->]. apply packed_tweak_inj; [done|done|congruence].
  - intros [= ->]. rewrite V3 in V1. destruct t1 as [l i|e ci st]; cbn [tweak_ok] in H1.
    + rewrite packed_tree in V1 by lia. lia.
    + rewrite packed_chain in V1 by lia. lia.
Qed.

Lemma sum_dominated l k :
  Forall2 Z.le l k -> sum l <= sum k /\ (sum l = sum k -> l = k).
Proof.
  induction 1 as [|x y l k Hxy _ [IH1 IH2]]; [done|]. unfold sum in *. cbn [foldr]. split; [lia|].
  intros E. f_equal; [lia|]. apply IH2. lia.
Qed.

Lemma not_dominated l k :
  length l = length k -> ~ Forall2 Z.le l k ->
  exists i x y, l !! i = Some x /\ k !! i = Some y /\ y < x.
Proof.
  revert k. induction l as [|x l IH]; intros [|y k] Hl Hn; try done.
  destruct (Z.lt_ge_cases y x) as [H|H]; [by exists 0%nat, x, y|].
  destruct (IH k) as (i & a & b & ? & ? & ?); [by injection Hl|intros F; apply Hn; by constructor|].
  by exists (S i), a, b.
Qed.

(** Encodings are incomparable.  Two messages encoded to different codewords, under
    any randomness, slot and parameter, differ in both directions: some chain of the
    first must be walked back to reach the second, and the other way round.  So the
    digests one signature releases never suffice for another codeword. *)
Theorem codewords_are_incomparable (c : XmssConfig) (ph : PoseidonXmss)
    (p1 p2 rho1 rho2 cw1 cw2 : list Z) (e1 e2 : Z) (m1 m2 : Bytes32) :
  scheme_ok c ph ->
  vector_ok (cf_PARAMETER_LENGTH c) p1 -> vector_ok (cf_PARAMETER_LENGTH c) p2 ->
  vector_ok (cf_RAND_LENGTH c) rho1 -> vector_ok (cf_RAND_LENGTH c) rho2 ->
  0 <= e1 < 2 ^ 32 -> 0 <= e2 < 2 ^ 32 -> length m1 = 32%nat -> length m2 = 32%nat ->
  target_sum_encode c ph p1 e1 rho1 m1 = Ok (Some cw1) ->
  target_sum_encode c ph p2 e2 rho2 m2 = Ok (Some cw2) -> cw1 <> cw2 ->
  (exists i x y, cw1 !! i = Some x /\ cw2 !! i = Some y /\ 0 <= y < x) /\
  (exists i x y, cw1 !! i = Some x /\ cw2 !! i = Some y /\ 0 <= x < y).
Proof.
  intros Hok Hp1 Hp2 Hr1 Hr2 He1 He2 Hm1 Hm2 E1 E2 Hne.
  destruct (target_sum_encode_ok c ph Hok p1 e1 rho1 m1 Hp1 He1 Hr1 Hm1) as (o1 & E1' & H1).
  destruct (target_sum_encode_ok c ph Hok p2 e2 rho2 m2 Hp2 He2 Hr2 Hm2) as (o2 & E2' & H2).
  rewrite E1 in E1'. injection E1' as <-. rewrite E2 in E2'. injection E2' as <-.
  destruct (H1 cw1 eq_refl) as (L1 & F1 & S1). destruct (H2 cw2 eq_refl) as (L2 & F2 & S2). split.
  - destruct (not_dominated cw1 cw2) as (i & x & y & Ex & Ey & Hlt); [lia| |].
    { intros D. destruct (sum_dominated _ _ D) as [_ Heq]. apply Hne, Heq. congruence. }
    exists i, x, y. split_and!; [done|done| |done]. by apply (Forall_lookup_1 _ _ _ _ F2 Ey).
  - destruct (not_dominated cw2 cw1) as (i & y & x & Ey & Ex & Hlt); [lia| |].
    { intros D. destruct (sum_dominated _ _ D) as [_ Heq]. apply Hne. symmetry. apply Heq. congruence. }
    exists i, x, y. split_and!; [done|done| |done]. by apply (Forall_lookup_1 _ _ _ _ F1 Ex).
Qed.

(** ** A small scheme, for the witnesses

    Four slots in two bottom trees, three binary chains, and a permutation of two
    rounds. *)
Definition toy_params (w : Z) : PoseidonParams := {|
  width := w; rounds_f := 2; rounds_p := 0;
  mds_first_row := map Z.of_nat (seq 1 (Z.to_nat w));
  round_constants := map Z.of_nat (seq 1 (2 * Z.to_nat w))
|}.
Definition toy_poseidon : PoseidonXmss := {| params16 := toy_params 16; params24 := toy_params 24 |}.
Definition toy_config : XmssConfig := {|
  cf_LOG_LIFETIME := 2; cf_DIMENSION := 3; cf_BASE := 2; cf_Z := 1; cf_Q := (P - 1) / 2;
  cf_TARGET_SUM := 1; cf_MAX_TRIES := 20; cf_PARAMETER_LENGTH := 5; cf_TWEAK_LENGTH := 2;
  cf_MESSAGE_LENGTH := 9; cf_RAND_LENGTH := 7; cf_HASH_LENGTH := 8; cf_CAPACITY := 9
|}.

Lemma toy_scheme_ok : scheme_ok toy_config toy_poseidon.
Proof.
  constructor; try (split; [params_ok_tac|reflexivity]);
    first [reflexivity | split_and!; vm_compute; congruence | vm_compute; congruence].
Qed.

Definition toy_message (b : Byte.byte) : Bytes32 := repeat b 32.
Definition get_ok {A} (d : A) (r : result A) : A := match r with Ok a => a | Err _ => d end.
Definition toy_pk0 : PublicKey := {| pk_root := []; pk_parameter := [] |}.
Definition toy_tree0 : HashSubTree := {| hs_depth := 0; hs_lowest_layer := 0; hs_layers := [] |}.
Definition toy_sk0 : SecretKey := {|
  sk_prf_key := []; sk_parameter := []; sk_activation_slot := 0; sk_num_active_slots := 0;
  sk_top_tree := toy_tree0; sk_left_bottom_tree_index := 0; sk_left_bottom_tree := toy_tree0;
  sk_right_bottom_tree := toy_tree0
|}.
Definition toy_keys : PublicKey * SecretKey :=
  Eval vm_compute in get_ok (toy_pk0, toy_sk0)
    (key_gen toy_config toy_poseidon Z.of_nat 1 2 (repeat Byte.x07 32) 0).

Lemma toy_keys_generated :
  key_gen toy_config toy_poseidon Z.of_nat 1 2 (repeat Byte.x07 32) 0 = Ok toy_keys.
Proof. vm_compute. reflexivity. Qed.

Lemma toy_held : held_key toy_config toy_poseidon toy_keys.1 toy_keys.2.
Proof. by apply (held_generated _ _ Z.of_nat 1 2 (repeat Byte.x07 32) 0); [lia|lia|rewrite toy_keys_generated]. Qed.

Lemma key_gen_covers_request_witness :
  exists pk sk, key_gen toy_config toy_poseidon Z.of_nat 1 2 (repeat Byte.x07 32) 0 = Ok (pk, sk) /\
    (get_activation_interval sk).1 <= 1.
Proof.
  destruct (key_gen_covers_request toy_config toy_poseidon Z.of_nat 1 2 (repeat Byte.x07 32) 0
    toy_scheme_ok ltac:(lia) ltac:(lia) eq_refl) as (pk & sk & E & H).
  exists pk, sk. split; [exact E|]. destruct (get_activation_interval sk). apply H.
Defined.

Lemma signatures_verify_witness :
  exists sg, sign toy_config toy_poseidon toy_keys.2 2 (toy_message Byte.x05) = Ok sg /\
    verify toy_config toy_poseidon toy_keys.1 2 (toy_message Byte.x05) sg = Ok true.
Proof.
  destruct (signatures_verify toy_config toy_poseidon toy_keys.1 toy_keys.2 2 (toy_message Byte.x05)
    toy_scheme_ok toy_held eq_refl) as [[H _]|[_ [E|H]]]; [| |exact H].
  - exfalso. apply H. vm_compute. intuition congruence.
  - vm_compute in E. discriminate E.
Defined.

Lemma active_slots_become_signable_witness :
  exists k sk', advance_times toy_config toy_poseidon Z.of_nat k toy_keys.2 0 = Ok sk' /\
    signable toy_config sk' 3.
Proof.
  destruct (active_slots_become_signable toy_config toy_poseidon Z.of_nat toy_keys.1 toy_keys.2 3 0
    toy_scheme_ok toy_held) as (k & sk' & H1 & H2 & _).
  - vm_compute. intuition congruence.
  - by exists k, sk'.
Defined.

Lemma verify_never_raises_witness :
  exists b, verify PROD_CONFIG POSEIDON {| pk_root := repeat 0 8; pk_parameter := repeat 0 5 |} 7
    (toy_message Byte.x05) {| sig_path := []; sig_rho := repeat 1 7; sig_hashes := [] |} = Ok b.
Proof.
  destruct (verify_never_raises PROD_CONFIG POSEIDON {| pk_root := repeat 0 8; pk_parameter := repeat 0 5 |} 7
    (toy_message Byte.x05) {| sig_path := []; sig_rho := repeat 1 7; sig_hashes := [] |} prod_scheme_ok)
    as (b & E & _); [..|by exists b].
  - split; (split; [reflexivity|apply Forall_zeros]).
  - split_and!; [constructor|split; [reflexivity|repeat constructor; vm_compute; congruence]|constructor].
  - lia.
  - reflexivity.
Defined.

Lemma tweaks_are_separated_witness :
  TreeTweak 3 5 = TreeTweak 3 5 /\
  int_to_base_p (packed_tweak (TreeTweak 3 5)) 2 <> encode_epoch PROD_CONFIG 9.
Proof.
  split; [reflexivity|].
  apply (tweaks_are_separated PROD_CONFIG POSEIDON (TreeTweak 3 5) (TreeTweak 3 5) 9 prod_scheme_ok); simpl; lia.
Defined.

Lemma codewords_are_incomparable_witness :
  (exists i x y, [0; 1; 0] !! i = Some x /\ [0; 0; 1] !! i = Some y /\ 0 <= y < x) /\
  (exists i x y, [0; 1; 0] !! i = Some x /\ [0; 0; 1] !! i = Some y /\ 0 <= x < y).
Proof.
  apply (codewords_are_incomparable toy_config toy_poseidon (repeat 0 5) (repeat 0 5) (repeat 7 7) (repeat 8 7)
    [0; 1; 0] [0; 0; 1] 1 1 (toy_message Byte.x05) (toy_message Byte.x05) toy_scheme_ok).
  1-4: split; [reflexivity|repeat constructor; vm_compute; congruence].
  1-2: lia.
  1-2: reflexivity.
  1-2: vm_compute; reflexivity.
  discriminate.
Defined.
