(* ===== verification/XmssVerifier.v ===== *)
(** * The signature scheme as the verifier of the consensus code

    [Crypto] is the interface the handlers of the store are verified against; the
    scheme of crypto/xmss discharges it ([xmss_crypto]), for any configuration whose
    lengths are those of the container classes. *)

From S2P Require Import Prelude Pydict Uint Ssz SszCorrect Sha256 Merkle Containers Proofs.
From S2P Require Import Poseidon Shake128 Xmss XmssCorrect XmssTrees XmssTheorems.

(** The element of a decoded vector, and a decoded public key *)
Definition fp_value (v : ssz_value) : Z := match v with VFp z => z | _ => 0 end.
Definition PublicKey_of (key : ssz_value) : option PublicKey :=
  match key with
  | VContainer [VVector root; VVector parameter] =>
      Some {| pk_root := map fp_value root; pk_parameter := map fp_value parameter |}
  | _ => None
  end.

Definition scheme_verify (c : XmssConfig) (ph : PoseidonXmss) (key : ssz_value) (slot : Z)
    (message : Bytes32) (signature : Signature) : result bool :=
  public_key ← of_option TypeError (PublicKey_of key);
  verify c ph public_key slot message signature.

(** The lengths of a scheme are those of the container classes. *)
Definition scheme_lengths (c : XmssConfig) : bool :=
  (cf_HASH_LENGTH c =? HASH_LENGTH_FIELD_ELEMENTS) && (cf_PARAMETER_LENGTH c =? PARAMETER_LENGTH) &&
  (cf_RAND_LENGTH c =? RAND_LENGTH_FIELD_ELEMENTS).

Lemma fp_vector_typed n v :
  well_typed (class_of (TVector TFp n)) v = true ->
  exists l, v = VVector l /\ vector_ok n (map fp_value l).
Proof.
  cbn [class_of vector_class well_typed]. destruct v; try done. intros H. bool_to_prop.
  exists vs. split; [done|]. split; [rewrite length_map; done|].
  apply Forall_fmap, Forall_forall. intros x Hx. simpl.
  match goal with H : forallb _ vs = true |- _ => eapply forallb_forall in H; [|by apply list_elem_of_In] end.
  match goal with H : well_typed fp_class x = true |- _ => by apply fp_well_typed in H as (z & -> & Hz) end.
Qed.

Lemma fp_values l : map fp_value (map VFp l) = l.
Proof. rewrite map_map. simpl. apply map_id. Qed.

Lemma fp_vector_repr n l : vector_ok n l -> well_typed (class_of (TVector TFp n)) (VVector (map VFp l)) = true.
Proof.
  intros [Hn Hf]. cbn [class_of vector_class well_typed]. apply andb_true_iff. rewrite length_map.
  split; [by apply Z.eqb_eq|]. apply forallb_forall. intros ? (z & <- & Hz%list_elem_of_In)%in_map_iff.
  rewrite Forall_forall in Hf. apply fp_well_typed. exists z. split; [done|]. apply Hf, Hz.
Qed.

Lemma digest_list_typed ds :
  well_typed (class_of HashDigestList) (VList (map digest_repr ds)) = true ->
  Forall (vector_ok HASH_LENGTH_FIELD_ELEMENTS) ds.
Proof.
  intros H. cbn [class_of HashDigestList list_class well_typed] in H. apply andb_true_iff in H as [_ H].
  apply Forall_forall. intros d Hd. eapply forallb_forall in H; [|apply in_map, list_elem_of_In, Hd].
  apply fp_vector_typed in H as (l & [= <-] & Hl). by rewrite fp_values in Hl.
Qed.

Lemma signature_typed sg :
  ssz_valid sg = true ->
  Forall (vector_ok HASH_LENGTH_FIELD_ELEMENTS) (sig_path sg) /\
  vector_ok RAND_LENGTH_FIELD_ELEMENTS (sig_rho sg) /\
  Forall (vector_ok HASH_LENGTH_FIELD_ELEMENTS) (sig_hashes sg).
Proof.
  unfold ssz_valid. cbn [ssz_descr ssz_repr ssz_Signature class_of container_class well_typed map].
  cbn [length Nat.eqb combine forallb fst snd]. intros H.
  apply andb_true_iff in H as [_ H]. apply andb_true_iff in H as [Hp H]. apply andb_true_iff in H as [Hr H].
  apply andb_true_iff in H as [Hh _]. cbn [container_class well_typed length Nat.eqb combine forallb fst snd] in Hp.
  apply andb_true_iff in Hp as [_ Hp]. apply andb_true_iff in Hp as [Hp _].
  split_and!; [by apply digest_list_typed| |by apply digest_list_typed].
  apply (fp_vector_typed _ (VVector (map VFp (sig_rho sg)))) in Hr as (l & [= <-] & Hl). by rewrite fp_values in Hl.
Qed.

Lemma public_key_typed key :
  well_typed (class_of PublicKey_type) key = true ->
  exists pk, PublicKey_of key = Some pk /\ vector_ok HASH_LENGTH_FIELD_ELEMENTS (pk_root pk) /\
    vector_ok PARAMETER_LENGTH (pk_parameter pk).
Proof.
  cbn [PublicKey_type class_of container_class well_typed map]. destruct key; try done.
  destruct vs as [|r [|p [|? ?]]]; try done. cbn [length Nat.eqb combine forallb fst snd andb]. intros H.
  apply andb_true_iff in H as [Hr H]. apply andb_true_iff in H as [Hp _].
  apply fp_vector_typed in Hr as (lr & -> & Hr). apply fp_vector_typed in Hp as (lp & -> & Hp).
  eexists. by split.
Qed.

(** The encoding of a public key, as the registry stores it *)
Definition key_repr (pk : PublicKey) : ssz_value :=
  VContainer [VVector (map VFp (pk_root pk)); VVector (map VFp (pk_parameter pk))].

Lemma PublicKey_of_repr pk : PublicKey_of (key_repr pk) = Some pk.
Proof. destruct pk. cbn. by rewrite !fp_values. Qed.

Lemma key_repr_typed pk :
  vector_ok HASH_LENGTH_FIELD_ELEMENTS (pk_root pk) -> vector_ok PARAMETER_LENGTH (pk_parameter pk) ->
  well_typed (class_of PublicKey_type) (key_repr pk) = true.
Proof.
  intros Hr Hp. cbn [PublicKey_type class_of container_class well_typed map key_repr length Nat.eqb combine forallb fst snd andb].
  apply andb_true_iff. split; [by apply (fp_vector_repr _ _ Hr)|]. apply andb_true_iff. split; [by apply (fp_vector_repr _ _ Hp)|done].
Qed.

Lemma scheme_verify_total c ph key slot message sg :
  scheme_ok c ph -> scheme_lengths c = true -> well_typed (class_of PublicKey_type) key = true ->
  in_range 64 slot -> length message = 32%nat -> ssz_valid sg = true ->
  exists accepted, scheme_verify c ph key slot message sg = Ok accepted.
Proof.
  intros Hok Hl Hk [Hs _] Hm Hsg. unfold scheme_lengths in Hl. bool_to_prop.
  destruct (public_key_typed key Hk) as (pk & E & Hr & Hp). unfold scheme_verify. rewrite E. mcbn.
  destruct (signature_typed sg Hsg) as (Hpath & Hrho & Hhashes).
  apply (verify_ok c ph Hok); [split; congruence| |done|done]. unfold signature_ok. by split_and!; congruence.
Qed.

(** The verifier of the scheme discharges the interface of the store. *)
Definition xmss_crypto (c : XmssConfig) (ph : PoseidonXmss) (Hok : scheme_ok c ph)
    (Hl : scheme_lengths c = true) (prover : Prover) : Crypto := {|
  crypto_prover := prover;
  xmss_verify := scheme_verify c ph;
  xmss_verify_total key slot message sg := scheme_verify_total c ph key slot message sg Hok Hl
|}.
