(* ===== verification/Signatures.v ===== *)
(** * Block signature verification (spec/forks/lstar/signatures.py)

    [verify_signatures] rebuilds the keys and messages a block's merged proof must
    bind, component by component, and hands both lists to the verifier. *)

From S2P Require Import Prelude Pydict Uint Ssz SszCorrect Sha256 Merkle Containers Proofs.

(** [validators[i]], then its attestation key, decoded *)
Definition attestation_key (validators : list Validator) (i : Z) : result ssz_value :=
  v ← of_option IndexError (validators !! Z.to_nat i);
  PublicKey_decode_bytes (val_attestation_public_key v).

(** The component of one attestation: the voters' keys, and the message they signed. *)
Definition attestation_component (validators : list Validator) (a : AggregatedAttestation)
    : result (list ssz_value * (Bytes32 * Z)) :=
  voter_indices ← to_validator_indices (aa_bits a);
  reject! VALIDATOR_INDEX_OUT_OF_RANGE
    when negb (forallb (fun i => is_within_registry i (Zlen validators)) voter_indices);;
  keys ← mapM (attestation_key validators) voter_indices;
  Ok (keys, (hash_tree_root (aa_data a), ad_slot (aa_data a))).

(** The proposer's component, over the block root. *)
Definition proposer_component (validators : list Validator) (block : Block)
    : result (list ssz_value * (Bytes32 * Z)) :=
  reject! PROPOSER_INDEX_OUT_OF_RANGE
    when negb (is_within_registry (bk_proposer_index block) (Zlen validators));;
  v ← of_option IndexError (validators !! Z.to_nat (bk_proposer_index block));
  key ← PublicKey_decode_bytes (val_proposal_public_key v);
  Ok ([key], (hash_tree_root block, bk_slot block)).

Section Verify.
Context `{Crypto}.

Definition verify_signatures (signed_block : SignedBlock) (validators : list Validator)
    : result bool :=
  let block := sb_block signed_block in
  attestation_components ←
    mapM (attestation_component validators) (bd_attestations (bk_body block));
  proposer ← proposer_component validators block;
  let components := attestation_components ++ [proposer] in
  match mma_verify (sb_proof signed_block) (map fst components) (map snd components) with
  | Ok _ => Ok true
  | Err AggregationError => Err (SpecRejectionError INVALID_BLOCK_PROOF)
  | Err e => Err e
  end.
End Verify.
