(* ===== verification/SignaturesCorrect.v ===== *)
(** * What a block's proof is checked against

    [verify_signatures] decodes each signer's key from the registry and re-encodes
    it for the verifier.  On a registry whose keys decode, the verifier is handed
    exactly the registry's bytes, one component per attestation in order and the
    proposer's last, and every other outcome is a documented rejection. *)

From S2P Require Import Prelude Pydict Uint Ssz SszCorrect Sha256 Merkle Containers.
From S2P Require Import StateTransition Samples StateCorrect StateHistory Proofs Signatures.

(** Every key of the registry is a valid encoding. *)
Definition keys_decode (validators : list Validator) : Prop :=
  forall v, v ∈ validators ->
    is_Ok (PublicKey_decode_bytes (val_attestation_public_key v)) = true /\
    is_Ok (PublicKey_decode_bytes (val_proposal_public_key v)) = true.

Definition raw_key (key : Validator -> bytes) (validators : list Validator) (i : Z) : bytes :=
  default [] (key <$> validators !! Z.to_nat i).

(** The component the code must build for an attestation and for the proposer. *)
Definition expected_keys (validators : list Validator) (block : Block) : list (list bytes) :=
  map (fun a => map (raw_key val_attestation_public_key validators) (set_indices (aa_bits a)))
    (bd_attestations (bk_body block)) ++
  [[raw_key val_proposal_public_key validators (bk_proposer_index block)]].
Definition expected_messages (block : Block) : list (Bytes32 * Z) :=
  map (fun a => (hash_tree_root (aa_data a), ad_slot (aa_data a))) (bd_attestations (bk_body block)) ++
  [(hash_tree_root block, bk_slot block)].

(** The attestation names voters, all of them registered. *)
Definition voters_known (n : Z) (a : AggregatedAttestation) : Prop :=
  set_indices (aa_bits a) <> [] /\ Forall (fun i => i < n) (set_indices (aa_bits a)).

Definition signature_rejection (e : exn) : Prop :=
  exists r, e = SpecRejectionError r /\
    r ∈ [EMPTY_AGGREGATION_BITS; VALIDATOR_INDEX_OUT_OF_RANGE; PROPOSER_INDEX_OUT_OF_RANGE;
         INVALID_BLOCK_PROOF].

Lemma wf_PublicKey : wf_type PublicKey_type.
Proof. vm_compute. repeat split; discriminate. Qed.

Lemma PublicKey_decoded data key :
  PublicKey_decode_bytes data = Ok key ->
  well_typed (class_of PublicKey_type) key = true /\ PublicKey_encode_bytes key = Ok data.
Proof. apply (ok_decode _ (class_of_ok _ wf_PublicKey)). Qed.

Lemma PublicKey_reencode data key :
  PublicKey_decode_bytes data = Ok key -> PublicKey_encode_bytes key = Ok data.
Proof. intros H. by apply (ok_decode _ (class_of_ok _ wf_PublicKey)) in H as [_ H]. Qed.

Lemma valid_block_proposer (b : Block) : ssz_valid b = true -> 0 <= bk_proposer_index b.
Proof.
  unfold ssz_valid. cbn [ssz_descr ssz_repr ssz_Block class_of container_class well_typed map].
  cbn [length Nat.eqb combine forallb fst snd]. intros H. bool_to_prop.
  repeat match goal with H : well_typed (uint_class 64) _ = true |- _ =>
    apply uint_well_typed in H as (? & [= <-] & ?) end.
  unfold in_range in *. lia.
Qed.

Section Keys.
Context (validators : list Validator) (Hkeys : keys_decode validators).

Lemma attestation_key_ok i :
  0 <= i < Zlen validators ->
  exists k, attestation_key validators i = Ok k /\ well_typed (class_of PublicKey_type) k = true /\
    PublicKey_encode_bytes k = Ok (raw_key val_attestation_public_key validators i).
Proof.
  intros Hi. unfold attestation_key, raw_key.
  destruct (lookup_lt_is_Some_2 validators (Z.to_nat i)) as [v E]; [lia|]. rewrite E. mcbn.
  destruct (Hkeys v (list_elem_of_lookup_2 _ _ _ E)) as [[k Hk]%is_Ok_exists _].
  exists k. split; [done|]. by apply PublicKey_decoded.
Qed.

Lemma attestation_keys_ok l :
  Forall (fun i => 0 <= i < Zlen validators) l ->
  exists ks, mapM (attestation_key validators) l = Ok ks /\
    mapM PublicKey_encode_bytes ks = Ok (map (raw_key val_attestation_public_key validators) l).
Proof.
  induction 1 as [|i l Hi _ (ks & E1 & E2)]; [by exists []|].
  destruct (attestation_key_ok i Hi) as (k & F1 & _ & F2). exists (k :: ks). cbn [mapM].
  by rewrite F1, E1; mcbn; rewrite F2, E2.
Qed.

Lemma attestation_component_ok a :
  Zlen (aa_bits a) <= VALIDATOR_REGISTRY_LIMIT ->
  (voters_known (Zlen validators) a /\
   exists ks, attestation_component validators a =
       Ok (ks, (hash_tree_root (aa_data a), ad_slot (aa_data a))) /\
     mapM PublicKey_encode_bytes ks =
       Ok (map (raw_key val_attestation_public_key validators) (set_indices (aa_bits a)))) \/
  (~ voters_known (Zlen validators) a /\
   exists e, attestation_component validators a = Err e /\ signature_rejection e).
Proof.
  intros Hb. unfold attestation_component, voters_known, signature_rejection.
  destruct (to_validator_indices (aa_bits a)) as [l|e] eqn:E; mcbn.
  - pose proof (voters_nonneg _ _ E) as Hp. apply to_validator_indices_Ok in E as [-> Hne].
    destruct (forallb _ _) eqn:Ef; cbn [negb].
    + left. assert (Forall (fun i => i < Zlen validators) (set_indices (aa_bits a))) as Hlt.
      { apply Forall_forall. intros i Hi. apply Z.ltb_lt.
        by eapply (proj1 (forallb_forall _ _) Ef), list_elem_of_In. }
      split; [done|].
      destruct (attestation_keys_ok (set_indices (aa_bits a))) as (ks & -> & Eks);
        [|by exists ks].
      apply Forall_and. by split.
    + right. split; [|eexists; split; [done|]; eexists; split; [done|];
        apply list_elem_of_In; simpl; tauto].
      intros [_ Hall]. apply not_true_iff_false in Ef. apply Ef, forallb_forall.
      intros i Hi%list_elem_of_In. apply Z.ltb_lt. by eapply Forall_forall in Hall.
  - right. apply to_validator_indices_Err in E as [-> E]; [|done]. split; [by intros [? _]|].
    eexists; split; [done|]; eexists; split; [done|]; apply list_elem_of_In; simpl; tauto.
Qed.

Lemma attestation_components_ok l :
  Forall attestation_typed l ->
  (Forall (voters_known (Zlen validators)) l /\
   exists cs, mapM (attestation_component validators) l = Ok cs /\
     mapM (mapM PublicKey_encode_bytes) (map fst cs) =
       Ok (map (fun a => map (raw_key val_attestation_public_key validators)
                 (set_indices (aa_bits a))) l) /\
     map snd cs = map (fun a => (hash_tree_root (aa_data a), ad_slot (aa_data a))) l) \/
  (~ Forall (voters_known (Zlen validators)) l /\
   exists e, mapM (attestation_component validators) l = Err e /\ signature_rejection e).
Proof.
  induction 1 as [|a l [Ha _] _ IH]; [left; split; [constructor|by exists []]|]. cbn [mapM].
  destruct (attestation_component_ok a Ha) as [(Hk & ks & -> & Eks)|(Hk & e & -> & He)]; mcbn.
  - destruct IH as [(Hl & cs & -> & Ecs & Ems)|(Hl & e & -> & He)]; mcbn.
    + left. split; [by constructor|]. eexists. split; [done|]. cbn [map fst snd mapM].
      rewrite Eks. mcbn. rewrite Ecs, Ems. done.
    + right. split; [by intros [_ ?]%Forall_cons|eauto].
  - right. split; [by intros [? _]%Forall_cons|eauto].
Qed.
End Keys.

Lemma mapM_app_Ok {A B} (f : A -> result B) l1 l2 k1 k2 :
  mapM f l1 = Ok k1 -> mapM f l2 = Ok k2 -> mapM f (l1 ++ l2) = Ok (k1 ++ k2).
Proof. rewrite !mapM_Ok. apply Forall2_app. Qed.

Section Verify.
Context `{Crypto}.

(** The outcome on a registry of valid keys: acceptance by the verifier of the
    expected components, or a rejection. *)
Lemma verify_signatures_cases sb validators :
  keys_decode validators -> ssz_valid (sb_block sb) = true ->
  let b := sb_block sb in
  let n := Zlen validators in
  let accepted :=
    Forall (voters_known n) (bd_attestations (bk_body b)) /\ bk_proposer_index b < n /\
    verify_multi_message_proof_with_messages (expected_keys validators b) (expected_messages b)
      (mma_proof (sb_proof sb)) = true in
  (accepted /\ verify_signatures sb validators = Ok true) \/
  (~ accepted /\ exists e, verify_signatures sb validators = Err e /\ signature_rejection e).
Proof.
  intros Hkeys Hv. cbn zeta. unfold verify_signatures.
  destruct (attestation_components_ok validators Hkeys (bd_attestations (bk_body (sb_block sb))))
    as [(Hl & cs & -> & Ecs & Ems)|(Hl & e & -> & He)]; [|mcbn|right; split; [by intros [? _]|eauto]].
  { by apply valid_body_attestations, valid_block_body. }
  unfold proposer_component, is_within_registry.
  destruct (Z.ltb_spec (bk_proposer_index (sb_block sb)) (Zlen validators)) as [Hp|Hp]; cbn [negb]; mcbn.
  2: { right. split; [intros (_ & ? & _); lia|]. eexists; split; [done|]; eexists; split; [done|].
       apply list_elem_of_In; simpl; tauto. }
  pose proof (valid_block_proposer _ Hv) as Hp0.
  destruct (lookup_lt_is_Some_2 validators (Z.to_nat (bk_proposer_index (sb_block sb)))) as [v E];
    [lia|].
  rewrite E. mcbn. destruct (Hkeys v (list_elem_of_lookup_2 _ _ _ E)) as [_ [k Hk]%is_Ok_exists].
  rewrite Hk. mcbn. apply PublicKey_reencode in Hk.
  unfold mma_verify. rewrite !map_app, Ems. fold (expected_messages (sb_block sb)).
  assert (mapM (mapM PublicKey_encode_bytes) (map fst cs ++ map fst [([k], (hash_tree_root (sb_block sb),
    bk_slot (sb_block sb)))]) = Ok (expected_keys validators (sb_block sb))) as Eks.
  { apply mapM_app_Ok; [done|]. unfold raw_key. rewrite E. cbn [map fst mapM]. by rewrite Hk. }
  pose proof (mapM_Ok_length _ _ _ Eks) as Hlen. rewrite Eks.
  rewrite (proj2 (Z.eqb_eq _ _)).
  2: { f_equal. rewrite <- Hlen. unfold expected_messages, expected_keys.
       by rewrite !length_app, !length_map. }
  mcbn. destruct (verify_multi_message_proof_with_messages _ _ _) eqn:Ev.
  - by left.
  - right. split; [by intros (_ & _ & ?)|]. eexists; split; [done|]; eexists; split; [done|].
    apply list_elem_of_In; simpl; tauto.
Qed.

(** A block's proof is accepted exactly when every attestation names at least
    one voter, all voters and the proposer are in the registry, and the proof
    verifies against the registry's own key bytes: the voters' attestation keys
    with the vote's root and slot, per attestation in order, then the proposer's
    proposal key with the block's root and slot.  Anything else is one of four
    documented rejections. *)
Theorem verify_signatures_binds_registry (sb : SignedBlock) (validators : list Validator) :
  keys_decode validators -> ssz_valid (sb_block sb) = true ->
  let b := sb_block sb in
  let n := Zlen validators in
  (verify_signatures sb validators = Ok true <->
    Forall (voters_known n) (bd_attestations (bk_body b)) /\ bk_proposer_index b < n /\
    verify_multi_message_proof_with_messages (expected_keys validators b) (expected_messages b)
      (mma_proof (sb_proof sb)) = true) /\
  forall e, verify_signatures sb validators = Err e ->
    e ∈ [SpecRejectionError EMPTY_AGGREGATION_BITS; SpecRejectionError VALIDATOR_INDEX_OUT_OF_RANGE;
         SpecRejectionError PROPOSER_INDEX_OUT_OF_RANGE; SpecRejectionError INVALID_BLOCK_PROOF].
Proof.
  intros Hk Hv. cbn zeta.
  destruct (verify_signatures_cases sb validators Hk Hv) as [[Ha E]|[Hn (e & E & r & -> & Hr)]].
  - split; [by split|]. intros e. by rewrite E.
  - split; [by split; [rewrite E|intros ?%Hn]|]. intros e. rewrite E. intros [= <-].
    by apply (list_elem_of_fmap_2 SpecRejectionError) in Hr.
Qed.
End Verify.

(** A verifier that accepts one proof and one signature, whatever they sign. *)
Definition sample_signature : Signature := {|
  sig_path := repeat (repeat 0 8) 32; sig_rho := repeat 0 7; sig_hashes := repeat (repeat 0 8) 46
|}.
Definition sample_prover : Prover := {|
  aggregate_single_message _ _ _ _ _ := Some [Byte.x01];
  verify_single_message_proof _ _ _ proof := bool_decide (proof = [Byte.x01]);
  merge_many_single_message_proof _ := Some [Byte.x01];
  split_multi_message_proof_by_message _ _ _ := Some [Byte.x01];
  verify_multi_message_proof_with_messages _ _ proof := bool_decide (proof = [Byte.x01])
|}.
Definition sample_crypto : Crypto := {|
  crypto_prover := sample_prover;
  xmss_verify _ _ _ sig := Ok (bool_decide (sig = sample_signature));
  xmss_verify_total _ _ _ sig _ _ _ _ := ex_intro _ (bool_decide (sig = sample_signature)) eq_refl
|}.
Definition signed (b : Block) : SignedBlock :=
  {| sb_block := b; sb_proof := {| mma_proof := [Byte.x01] |} |}.

Lemma sample_keys_decode : keys_decode sample_registry.
Proof.
  intros v Hv. unfold sample_registry in Hv. rewrite !elem_of_cons, elem_of_nil in Hv.
  destruct Hv as [->|[->|[->|[]]]]; split; vm_compute; reflexivity.
Qed.

Lemma verify_signatures_binds_registry_witness :
  verify_signatures (H := sample_crypto) (signed A2.1) sample_registry = Ok true.
Proof.
  apply (verify_signatures_binds_registry (H := sample_crypto) (signed A2.1) sample_registry).
  - exact sample_keys_decode.
  - vm_compute. reflexivity.
  - split; [|vm_compute; split; reflexivity]. repeat constructor; vm_compute; congruence.
Defined.
