(* ===== verification/ForkChoice.v ===== *)
(** * Fork choice (spec/forks/lstar/fork_choice.py, containers/store.py)

    The store and its handlers.  The store's dicts keep their insertion order
    ([Pydict]); a set of proofs is a duplicate-free list.  The loops that climb
    parent links or descend to children get one unit of fuel per block of the
    store, which [ForkChoiceCorrect] proves to be enough. *)

From S2P Require Import Prelude Pydict Uint Ssz SszCorrect Sha256 Merkle Containers.
From S2P Require Import StateTransition Proofs Signatures.

Record AttestationSignatureEntry := { se_validator_index : Z; se_signature : Signature }.
#[export] Instance AttestationSignatureEntry_eq_dec : EqDecision AttestationSignatureEntry.
Proof. solve_decision. Defined.

Abbreviation ProofPool := (dict AttestationData (list SingleMessageAggregate)).
Abbreviation SignaturePool := (dict AttestationData (list AttestationSignatureEntry)).

Record Store := {
  sto_time : Z;
  sto_config : GenesisConfig;
  sto_head : Bytes32;
  sto_safe_target : Bytes32;
  sto_latest_justified : Checkpoint;
  sto_latest_finalized : Checkpoint;
  sto_blocks : dict Bytes32 Block;
  sto_states : dict Bytes32 State;
  sto_validator_index : option Z;
  sto_attestation_signatures : SignaturePool;
  sto_latest_new_aggregated_payloads : ProofPool;
  sto_latest_known_aggregated_payloads : ProofPool
}.

(** [store.model_copy(update=...)], one function per set of updated fields *)
Definition store_with_pools (s : Store) (sigs : SignaturePool) (new known : ProofPool) : Store := {|
  sto_time := sto_time s; sto_config := sto_config s; sto_head := sto_head s;
  sto_safe_target := sto_safe_target s; sto_latest_justified := sto_latest_justified s;
  sto_latest_finalized := sto_latest_finalized s; sto_blocks := sto_blocks s;
  sto_states := sto_states s; sto_validator_index := sto_validator_index s;
  sto_attestation_signatures := sigs;
  sto_latest_new_aggregated_payloads := new;
  sto_latest_known_aggregated_payloads := known
|}.
Definition store_with_head (s : Store) (head : Bytes32) (finalized : Checkpoint) : Store := {|
  sto_time := sto_time s; sto_config := sto_config s; sto_head := head;
  sto_safe_target := sto_safe_target s; sto_latest_justified := sto_latest_justified s;
  sto_latest_finalized := finalized; sto_blocks := sto_blocks s;
  sto_states := sto_states s; sto_validator_index := sto_validator_index s;
  sto_attestation_signatures := sto_attestation_signatures s;
  sto_latest_new_aggregated_payloads := sto_latest_new_aggregated_payloads s;
  sto_latest_known_aggregated_payloads := sto_latest_known_aggregated_payloads s
|}.
Definition store_with_safe_target (s : Store) (root : Bytes32) : Store := {|
  sto_time := sto_time s; sto_config := sto_config s; sto_head := sto_head s;
  sto_safe_target := root; sto_latest_justified := sto_latest_justified s;
  sto_latest_finalized := sto_latest_finalized s; sto_blocks := sto_blocks s;
  sto_states := sto_states s; sto_validator_index := sto_validator_index s;
  sto_attestation_signatures := sto_attestation_signatures s;
  sto_latest_new_aggregated_payloads := sto_latest_new_aggregated_payloads s;
  sto_latest_known_aggregated_payloads := sto_latest_known_aggregated_payloads s
|}.
Definition store_with_time (s : Store) (time : Z) : Store := {|
  sto_time := time; sto_config := sto_config s; sto_head := sto_head s;
  sto_safe_target := sto_safe_target s; sto_latest_justified := sto_latest_justified s;
  sto_latest_finalized := sto_latest_finalized s; sto_blocks := sto_blocks s;
  sto_states := sto_states s; sto_validator_index := sto_validator_index s;
  sto_attestation_signatures := sto_attestation_signatures s;
  sto_latest_new_aggregated_payloads := sto_latest_new_aggregated_payloads s;
  sto_latest_known_aggregated_payloads := sto_latest_known_aggregated_payloads s
|}.
Definition store_with_block (s : Store) (root : Bytes32) (block : Block) (state : State)
    (justified : Checkpoint) (known : ProofPool) : Store := {|
  sto_time := sto_time s; sto_config := sto_config s; sto_head := sto_head s;
  sto_safe_target := sto_safe_target s; sto_latest_justified := justified;
  sto_latest_finalized := sto_latest_finalized s;
  sto_blocks := dset root block (sto_blocks s);
  sto_states := dset root state (sto_states s);
  sto_validator_index := sto_validator_index s;
  sto_attestation_signatures := sto_attestation_signatures s;
  sto_latest_new_aggregated_payloads := sto_latest_new_aggregated_payloads s;
  sto_latest_known_aggregated_payloads := known
|}.

(** ** Ancestry *)

(** The [while current_root in store.blocks] loop. *)
Fixpoint ancestor_walk (fuel : nat) (blocks : dict Bytes32 Block) (ancestor : Checkpoint)
    (current_root : Bytes32) : result bool :=
  match dget current_root blocks with
  | None => Ok false
  | Some current_block =>
      if bk_slot current_block =? cp_slot ancestor
      then Ok (bool_decide (current_root = cp_root ancestor))
      else if bk_slot current_block <? cp_slot ancestor then Ok false
      else match fuel with
           | O => Err OutOfFuel
           | S fuel => ancestor_walk fuel blocks ancestor (bk_parent_root current_block)
           end
  end.

Definition _checkpoint_is_ancestor (store : Store) (ancestor descendant : Checkpoint)
    : result bool :=
  if cp_slot ancestor >? cp_slot descendant then Ok false
  else ancestor_walk (S (length (sto_blocks store))) (sto_blocks store) ancestor (cp_root descendant).

(** ** Store creation and pruning *)
Definition create_store (state : State) (anchor_block : Block) (validator_index : option Z)
    : result Store :=
  let computed_state_root := hash_tree_root state in
  reject! ANCHOR_STATE_ROOT_MISMATCH
    when negb (bool_decide (bk_state_root anchor_block = computed_state_root));;
  let anchor_root := hash_tree_root anchor_block in
  time ← interval_from_slot (bk_slot anchor_block);
  Ok {|
    sto_time := time;
    sto_config := st_config state;
    sto_head := anchor_root;
    sto_safe_target := anchor_root;
    sto_latest_justified := {| cp_root := anchor_root; cp_slot := bk_slot anchor_block |};
    sto_latest_finalized := {| cp_root := anchor_root; cp_slot := bk_slot anchor_block |};
    sto_blocks := [(anchor_root, anchor_block)];
    sto_states := [(anchor_root, state)];
    sto_validator_index := validator_index;
    sto_attestation_signatures := [];
    sto_latest_new_aggregated_payloads := [];
    sto_latest_known_aggregated_payloads := []
  |}.

Definition head_lives_under_finalized (store : Store) (data : AttestationData) : result bool :=
  if cp_slot (ad_head data) >? cp_slot (sto_latest_finalized store)
  then _checkpoint_is_ancestor store (sto_latest_finalized store) (ad_head data)
  else Ok false.

(** [{data: v for data, v in pool.items() if head_lives_under_finalized(data)}] *)
Fixpoint prune_pool {V} (store : Store) (pool : dict AttestationData V)
    : result (dict AttestationData V) :=
  match pool with
  | [] => Ok []
  | (data, v) :: pool =>
      keep ← head_lives_under_finalized store data;
      rest ← prune_pool store pool;
      Ok (if (keep : bool) then (data, v) :: rest else rest)
  end.

Definition prune_stale_attestation_data (store : Store) : result Store :=
  sigs ← prune_pool store (sto_attestation_signatures store);
  new ← prune_pool store (sto_latest_new_aggregated_payloads store);
  known ← prune_pool store (sto_latest_known_aggregated_payloads store);
  Ok (store_with_pools store sigs new known).

(** ** Validation of votes *)
Definition validate_attestation (store : Store) (data : AttestationData) : result unit :=
  let source_checkpoint := ad_source data in
  let target_checkpoint := ad_target data in
  let head_checkpoint := ad_head data in
  let blocks := sto_blocks store in
  reject! UNKNOWN_SOURCE_BLOCK when negb (dmem (cp_root source_checkpoint) blocks);;
  reject! UNKNOWN_TARGET_BLOCK when negb (dmem (cp_root target_checkpoint) blocks);;
  reject! UNKNOWN_HEAD_BLOCK when negb (dmem (cp_root head_checkpoint) blocks);;
  reject! SOURCE_AFTER_TARGET when cp_slot source_checkpoint >? cp_slot target_checkpoint;;
  reject! HEAD_OLDER_THAN_TARGET when cp_slot head_checkpoint <? cp_slot target_checkpoint;;
  source_block ← dgetitem (cp_root source_checkpoint) blocks;
  reject! SOURCE_SLOT_MISMATCH when negb (bk_slot source_block =? cp_slot source_checkpoint);;
  target_block ← dgetitem (cp_root target_checkpoint) blocks;
  reject! TARGET_SLOT_MISMATCH when negb (bk_slot target_block =? cp_slot target_checkpoint);;
  head_block ← dgetitem (cp_root head_checkpoint) blocks;
  reject! HEAD_SLOT_MISMATCH when negb (bk_slot head_block =? cp_slot head_checkpoint);;
  source_ok ← _checkpoint_is_ancestor store source_checkpoint target_checkpoint;
  reject! SOURCE_NOT_ANCESTOR_OF_TARGET when negb source_ok;;
  target_ok ← _checkpoint_is_ancestor store target_checkpoint head_checkpoint;
  reject! TARGET_NOT_ANCESTOR_OF_HEAD when negb target_ok;;
  reject! ATTESTATION_SLOT_BEFORE_HEAD when ad_slot data <? cp_slot head_checkpoint;;
  let admission_horizon_interval := sto_time store + GOSSIP_DISPARITY_INTERVALS in
  let max_admissible_slot := admission_horizon_interval / INTERVALS_PER_SLOT in
  reject! ATTESTATION_TOO_FAR_IN_FUTURE when ad_slot data >? max_admissible_slot;;
  Ok tt.

Section Handlers.
Context `{Crypto}.

Definition on_gossip_attestation (store : Store) (signed_attestation : SignedAttestation)
    (is_aggregator : bool) : result Store :=
  let validator_index := sa_validator_index signed_attestation in
  let attestation_data := sa_data signed_attestation in
  let signature := sa_signature signed_attestation in
  _ ← validate_attestation store attestation_data;
  target_post_state ←
    of_option AssertionError (dget (cp_root (ad_target attestation_data)) (sto_states store));
  let validators := st_validators target_post_state in
  reject! VALIDATOR_NOT_IN_STATE when negb (is_within_registry validator_index (Zlen validators));;
  public_key ← attestation_key validators validator_index;
  signature_ok ← xmss_verify public_key (ad_slot attestation_data)
                   (hash_tree_root attestation_data) signature;
  reject! INVALID_SIGNATURE when negb signature_ok;;
  if negb is_aggregator then Ok store
  else
    let pool := sto_attestation_signatures store in
    let signatures_for_vote :=
      sadd {| se_validator_index := validator_index; se_signature := signature |}
        (default [] (dget attestation_data pool)) in
    Ok (store_with_pools store (dset attestation_data signatures_for_vote pool)
          (sto_latest_new_aggregated_payloads store) (sto_latest_known_aggregated_payloads store)).

Definition on_gossip_aggregated_attestation (store : Store)
    (signed_attestation : SignedAggregatedAttestation) : result Store :=
  let attestation_data := saa_data signed_attestation in
  let aggregated_proof := saa_proof signed_attestation in
  _ ← validate_attestation store attestation_data;
  validator_indices ← to_validator_indices (sma_participants aggregated_proof);
  target_post_state ←
    of_option AssertionError (dget (cp_root (ad_target attestation_data)) (sto_states store));
  let validators := st_validators target_post_state in
  reject! VALIDATOR_NOT_IN_STATE
    when negb (forallb (fun i => is_within_registry i (Zlen validators)) validator_indices);;
  public_keys ← mapM (attestation_key validators) validator_indices;
  _ ← match sma_verify aggregated_proof public_keys (hash_tree_root attestation_data)
              (ad_slot attestation_data) with
      | Err AggregationError => Err (SpecRejectionError INVALID_SIGNATURE)
      | r => r
      end;
  let pool := sto_latest_new_aggregated_payloads store in
  let proofs_for_vote := sadd aggregated_proof (default [] (dget attestation_data pool)) in
  Ok (store_with_pools store (sto_attestation_signatures store)
        (dset attestation_data proofs_for_vote pool) (sto_latest_known_aggregated_payloads store)).
End Handlers.

(** ** Votes and weights *)

(** Record one proof's voters for [data]: a strictly newer vote replaces. *)
Definition record_voter (data : AttestationData) (votes : dict Z AttestationData) (v : Z)
    : dict Z AttestationData :=
  match dget v votes with
  | Some previous_vote =>
      if ad_slot previous_vote <? ad_slot data then dset v data votes else votes
  | None => dset v data votes
  end.

Definition record_proofs (latest_finalized_slot : Z) (votes : dict Z AttestationData)
    (entry : AttestationData * list SingleMessageAggregate) : result (dict Z AttestationData) :=
  let '(data, proofs) := entry in
  if cp_slot (ad_head data) <=? latest_finalized_slot then Ok votes
  else
    foldM (fun votes proof =>
             indices ← to_validator_indices (sma_participants proof);
             Ok (foldl (record_voter data) votes indices)) votes proofs.

Definition _extract_attestations_from_aggregated_payloads (payloads : ProofPool)
    (latest_finalized_slot : Z) : result (dict Z AttestationData) :=
  foldM (record_proofs latest_finalized_slot) [] payloads.

(** [weights[root]] of the default-zero dict *)
Definition weight (weights : dict Bytes32 Z) (root : Bytes32) : Z := default 0 (dget root weights).

(** Climb from one vote's head, crediting each block above the start slot. *)
Fixpoint credit_walk (fuel : nat) (blocks : dict Bytes32 Block) (start_slot : Z)
    (current_root : Bytes32) (weights : dict Bytes32 Z) : result (dict Bytes32 Z) :=
  match dget current_root blocks with
  | None => Ok weights
  | Some current_block =>
      if bk_slot current_block <=? start_slot then Ok weights
      else match fuel with
           | O => Err OutOfFuel
           | S fuel =>
               credit_walk fuel blocks start_slot (bk_parent_root current_block)
                 (dset current_root (weight weights current_root + 1) weights)
           end
  end.

Definition _accumulate_ancestor_weights (store : Store) (attestations : dict Z AttestationData)
    (start_slot : Z) : result (dict Bytes32 Z) :=
  foldM (fun weights data =>
           credit_walk (S (length (sto_blocks store))) (sto_blocks store) start_slot
             (cp_root (ad_head data)) weights)
    [] (dvalues attestations).

Definition compute_block_weights (store : Store) : result (dict Bytes32 Z) :=
  latest_votes ←
    _extract_attestations_from_aggregated_payloads (sto_latest_known_aggregated_payloads store)
      (cp_slot (sto_latest_finalized store));
  _accumulate_ancestor_weights store latest_votes (cp_slot (sto_latest_finalized store)).

(** ** LMD-GHOST *)

(** The parent-to-children adjacency, in the order of [blocks], without the blocks
    below the threshold. *)
Definition add_child (min_score : option Z) (weights : dict Bytes32 Z)
    (children_map : dict Bytes32 (list Bytes32)) (entry : Bytes32 * Block)
    : dict Bytes32 (list Bytes32) :=
  let '(root, block) := entry in
  if match min_score with Some m => weight weights root <? m | None => false end
  then children_map
  else
    let children := default [] (dget (bk_parent_root block) children_map) in
    dset (bk_parent_root block) (children ++ [root]) children_map.

(** [(weights[a], a) > (weights[b], b)] on tuples *)
Definition key_gtb (weights : dict Bytes32 Z) (a b : Bytes32) : bool :=
  (weight weights a >? weight weights b) ||
  ((weight weights a =? weight weights b) && bytes_ltb b a).

(** [max(children, key=...)], the first of the maximal ones *)
Definition best_child (weights : dict Bytes32 Z) (first : Bytes32) (rest : list Bytes32) : Bytes32 :=
  foldl (fun best child => if key_gtb weights child best then child else best) first rest.

(** The [while children := children_map.get(head)] loop. *)
Fixpoint ghost_walk (fuel : nat) (children_map : dict Bytes32 (list Bytes32))
    (weights : dict Bytes32 Z) (head : Bytes32) : result Bytes32 :=
  match dget head children_map with
  | Some (first :: rest) =>
      match fuel with
      | O => Err OutOfFuel
      | S fuel => ghost_walk fuel children_map weights (best_child weights first rest)
      end
  | _ => Ok head
  end.

Definition _compute_lmd_ghost_head (store : Store) (start_root : Bytes32)
    (attestations : dict Z AttestationData) (min_score : option Z) : result Bytes32 :=
  check! dmem start_root (sto_blocks store) else AssertionError;;
  start_block ← dgetitem start_root (sto_blocks store);
  weights ← _accumulate_ancestor_weights store attestations (bk_slot start_block);
  let children_map := foldl (add_child min_score weights) [] (sto_blocks store) in
  ghost_walk (S (length (sto_blocks store))) children_map weights start_root.

(** Climb from the head to its ancestor at the finalized slot: the loop stops at
    the last known block when the chain leaves the store first. *)
Fixpoint finalized_walk (fuel : nat) (blocks : dict Bytes32 Block) (finalized_slot : Z)
    (finalized_root : Bytes32) : result Bytes32 :=
  match dget finalized_root blocks with
  | None => Ok finalized_root
  | Some block =>
      if bk_slot block >? finalized_slot then
        if dmem (bk_parent_root block) blocks then
          match fuel with
          | O => Err OutOfFuel
          | S fuel => finalized_walk fuel blocks finalized_slot (bk_parent_root block)
          end
        else Ok finalized_root
      else Ok finalized_root
  end.

Definition update_head (store : Store) : result Store :=
  latest_votes ←
    _extract_attestations_from_aggregated_payloads (sto_latest_known_aggregated_payloads store)
      (cp_slot (sto_latest_finalized store));
  new_head ←
    _compute_lmd_ghost_head store (cp_root (sto_latest_justified store)) latest_votes None;
  head_state ← dgetitem new_head (sto_states store);
  let finalized_slot := cp_slot (st_latest_finalized head_state) in
  finalized_root ←
    finalized_walk (S (length (sto_blocks store))) (sto_blocks store) finalized_slot new_head;
  finalized_block ← dgetitem finalized_root (sto_blocks store);
  let latest_finalized :=
    if bk_slot finalized_block =? finalized_slot
    then {| cp_root := finalized_root; cp_slot := finalized_slot |}
    else sto_latest_finalized store in
  Ok (store_with_head store new_head latest_finalized).

(** [{data: known.get(data) | new.get(data)}] over the keys of both, in order *)
Definition merge_pools (known new : ProofPool) : ProofPool :=
  map (fun data => (data, sunion (default [] (dget data known)) (default [] (dget data new))))
    (set_of (dkeys known ++ dkeys new)).

Definition accept_new_attestations (store : Store) : result Store :=
  let merged_aggregated_payloads :=
    merge_pools (sto_latest_known_aggregated_payloads store)
      (sto_latest_new_aggregated_payloads store) in
  update_head
    (store_with_pools store (sto_attestation_signatures store) [] merged_aggregated_payloads).

(** [math.ceil(n * 2 / 3)]; the float quotient is exact enough for any registry size *)
Definition min_target_score (num_validators : Z) : Z := ceil_div (num_validators * 2) 3.

Definition update_safe_target (store : Store) : result Store :=
  head_state ← dgetitem (sto_head store) (sto_states store);
  let num_validators := Zlen (st_validators head_state) in
  latest_votes ←
    _extract_attestations_from_aggregated_payloads (sto_latest_new_aggregated_payloads store)
      (cp_slot (sto_latest_finalized store));
  safe_target ←
    _compute_lmd_ghost_head store (cp_root (sto_latest_justified store)) latest_votes
      (Some (min_target_score num_validators));
  Ok (store_with_safe_target store safe_target).

(** ** Blocks *)
Section OnBlock.
Context `{Crypto}.

(** [{attestation.data: set() for attestation in attestations} | known] *)
Definition seed_known (attestations : list AggregatedAttestation) (known : ProofPool) : ProofPool :=
  dunion (dict_of (map (fun a => (aa_data a, [])) attestations)) known.

Definition on_block (store : Store) (signed_block : SignedBlock) : result Store :=
  let block := sb_block signed_block in
  let block_root := hash_tree_root block in
  if dmem block_root (sto_blocks store) then Ok store
  else
    let previous_finalized_slot := cp_slot (sto_latest_finalized store) in
    parent_state ←
      of_option (SpecRejectionError UNKNOWN_PARENT_BLOCK)
        (dget (bk_parent_root block) (sto_states store));
    let attestations := bd_attestations (bk_body block) in
    reject! DUPLICATE_ATTESTATION_DATA
      when negb (Zlen (set_of (map aa_data attestations)) =? Zlen attestations);;
    _ ← verify_signatures signed_block (st_validators parent_state);
    post_state ← state_transition parent_state block;
    let latest_justified :=
      advance_to (sto_latest_justified store) (st_latest_justified post_state) in
    let known := seed_known attestations (sto_latest_known_aggregated_payloads store) in
    store ← update_head (store_with_block store block_root block post_state latest_justified known);
    if cp_slot (sto_latest_finalized store) >? previous_finalized_slot
    then prune_stale_attestation_data store
    else Ok store.
End OnBlock.
