(* ===== verification/ForkChoiceCorrect.v ===== *)
(** * Correctness of fork choice: the block tree

    [ancestor] is the parent relation of the known block tree, and [tree_ok] the
    property that makes its climbs terminate: parent links go to earlier slots.
    Over such a tree the fuel of every walk suffices, the ancestry test decides
    [ancestor], and block weights count the votes for descendants. *)

From S2P Require Import Prelude Pydict Uint Ssz SszCorrect Sha256 Merkle Containers.
From S2P Require Import StateTransition StateCorrect Proofs Signatures ForkChoice.

Abbreviation Blocks := (dict Bytes32 Block).

(** [ancestor blocks a r]: climbing parent links from [r] reaches [a], all known. *)
Inductive ancestor (blocks : Blocks) : Bytes32 -> Bytes32 -> Prop :=
| anc_refl r b : dget r blocks = Some b -> ancestor blocks r r
| anc_parent a r b :
    dget r blocks = Some b -> ancestor blocks a (bk_parent_root b) -> ancestor blocks a r.

Definition parents_earlier (blocks : Blocks) : Prop :=
  forall r b pb, dget r blocks = Some b -> dget (bk_parent_root b) blocks = Some pb ->
    bk_slot pb < bk_slot b.

(** The block of [c]'s root is known and sits at [c]'s slot. *)
Definition checkpoint_in (blocks : Blocks) (c : Checkpoint) : Prop :=
  exists b, dget (cp_root c) blocks = Some b /\ bk_slot b = cp_slot c.

Section Tree.
Context (blocks : Blocks) (Hwf : dict_wf blocks) (Hearlier : parents_earlier blocks).

Lemma ancestor_known a r : ancestor blocks a r -> is_Some (dget a blocks) /\ is_Some (dget r blocks).
Proof. induction 1 as [r b E|a r b E _ [IH _]]; eauto. Qed.

Lemma ancestor_trans a b c : ancestor blocks a b -> ancestor blocks b c -> ancestor blocks a c.
Proof. intros Hab. induction 1 as [|b c bl E _ IH]; [done|]. by eapply anc_parent; [|apply IH]. Qed.

Lemma ancestor_slot a r ba br :
  ancestor blocks a r -> dget a blocks = Some ba -> dget r blocks = Some br ->
  bk_slot ba <= bk_slot br /\ (bk_slot ba = bk_slot br -> a = r).
Proof.
  intros H Ha. revert br. induction H as [r b E|a r b E H IH]; intros br Hr.
  - rewrite Ha in Hr. injection Hr as ->. split; [lia|done].
  - rewrite E in Hr. injection Hr as ->.
    destruct (ancestor_known _ _ H) as [_ [pb Hp]].
    pose proof (Hearlier _ _ _ E Hp). destruct (IH Ha pb Hp). split; lia.
Qed.

(** Two ancestors of one block lie on one chain. *)
Lemma ancestor_linear a b r :
  ancestor blocks a r -> ancestor blocks b r -> ancestor blocks a b \/ ancestor blocks b a.
Proof.
  intros Ha. induction Ha as [r bl E|a r bl E Ha IH]; intros Hb; [by right|].
  inversion Hb as [? ? E'|? ? ? E' Hb']; subst.
  - left. eapply anc_parent; [exact E|exact Ha].
  - rewrite E in E'. injection E' as <-. by apply IH.
Qed.

(** ** Climbs terminate

    A climb visits blocks at strictly decreasing slots, so it visits no block
    twice: it is at most as long as the store. *)
Lemma dget_slots_below (l : list Bytes32) (slot : Z) :
  NoDup l -> (forall r, r ∈ l -> exists b, dget r blocks = Some b /\ slot < bk_slot b) ->
  (exists r b, dget r blocks = Some b /\ bk_slot b <= slot) -> (length l < length blocks)%nat.
Proof.
  intros Hl Hin (r & b & Hr & Hs). assert (length (r :: l) <= length (dkeys blocks))%nat as H.
  { apply submseteq_length, NoDup_submseteq.
    - constructor; [|done]. intros Hr'. destruct (Hin r Hr') as (b' & E & ?).
      rewrite Hr in E. injection E as <-. lia.
    - intros x [->|Hx]%elem_of_cons; [by eapply dget_Some_key|].
      destruct (Hin x Hx) as (? & ? & _). by eapply dget_Some_key. }
  unfold dkeys in H. rewrite length_fmap in H. simpl in H. lia.
Qed.

(** [visited] is the part of the climb behind [r]: distinct blocks above its slot. *)
Definition behind (visited : list Bytes32) (r : Bytes32) : Prop :=
  NoDup visited /\
  forall v, v ∈ visited -> exists bv, dget v blocks = Some bv /\
    forall b, dget r blocks = Some b -> bk_slot b < bk_slot bv.

Lemma behind_step visited r b :
  behind visited r -> dget r blocks = Some b -> behind (r :: visited) (bk_parent_root b).
Proof.
  intros [Hn Hv] E. split.
  - constructor; [|done]. intros Hin. destruct (Hv r Hin) as (bv & Ev & Hlt).
    specialize (Hlt b E). rewrite E in Ev. injection Ev as ->. lia.
  - intros v [->|Hin]%elem_of_cons.
    + exists b. split; [done|]. intros pb Hp. by eapply Hearlier.
    + destruct (Hv v Hin) as (bv & Ev & Hlt). exists bv. split; [done|].
      intros pb Hp. pose proof (Hearlier _ _ _ E Hp). specialize (Hlt b E). lia.
Qed.

Lemma behind_length visited r b :
  behind visited r -> dget r blocks = Some b -> (S (length visited) <= length blocks)%nat.
Proof.
  intros [Hn Hv] E. apply (dget_slots_below visited (bk_slot b)); [done| |].
  - intros v Hin. destruct (Hv v Hin) as (bv & Ev & Hlt). eauto.
  - exists r, b. split; [done|lia].
Qed.

Lemma behind_nil r : behind [] r.
Proof. split; [constructor|]. by intros v ?%elem_of_nil. Qed.

(** ** The ancestry test *)
Lemma ancestor_walk_ok fuel visited a r :
  behind visited r -> (length blocks <= fuel + length visited)%nat ->
  exists res, ancestor_walk fuel blocks a r = Ok res /\
    (res = true <-> ancestor blocks (cp_root a) r /\ checkpoint_in blocks a).
Proof.
  revert visited r. induction fuel as [|fuel IH]; intros visited r Hb Hf; cbn [ancestor_walk];
    (destruct (dget r blocks) as [b|] eqn:E;
      [|exists false; split; [done|]; split; [done|]; intros [H _];
        apply ancestor_known in H as [_ H]; rewrite E in H; by destruct H]);
    pose proof (behind_length _ _ _ Hb E) as Hlen; [lia|].
  assert (forall ba, ancestor blocks (cp_root a) r -> dget (cp_root a) blocks = Some ba ->
    bk_slot ba = cp_slot a -> cp_slot a <= bk_slot b /\ (cp_slot a = bk_slot b -> cp_root a = r)) as Hanc.
  { intros ba Ha E1 <-. by eapply ancestor_slot. }
  destruct (Z.eqb_spec (bk_slot b) (cp_slot a)) as [Heq|Hne].
  - eexists. split; [done|]. rewrite bool_decide_eq_true. split.
    + intros ->. split; [by eapply anc_refl|]. exists b. by rewrite <- Heq.
    + intros [Ha (ba & E1 & E2)]. symmetry. by apply (Hanc ba).
  - destruct (Z.ltb_spec (bk_slot b) (cp_slot a)) as [Hlt|Hge].
    + exists false. split; [done|]. split; [done|]. intros [Ha (ba & E1 & E2)].
      destruct (Hanc ba Ha E1 E2). lia.
    + destruct (IH (r :: visited) (bk_parent_root b)) as (res & E2 & Hres);
        [by apply behind_step|simpl; lia|].
      exists res. split; [done|]. rewrite Hres. split; intros [Ha Hin]; split; auto.
      * by eapply anc_parent.
      * inversion Ha as [? b' E'|? ? b' E' Ha']; subst.
        -- destruct Hin as (ba & E3 & E4). rewrite E in E3. injection E3 as <-. lia.
        -- rewrite E in E'. by injection E' as <-.
Qed.

Lemma ancestor_walk_total fuel a r :
  (length blocks <= fuel)%nat ->
  exists res, ancestor_walk fuel blocks a r = Ok res /\
    (res = true <-> ancestor blocks (cp_root a) r /\ checkpoint_in blocks a).
Proof.
  intros Hf. apply (ancestor_walk_ok fuel []); [apply behind_nil|simpl; lia].
Qed.

(** [a] is an ancestor of [r], as a boolean. *)
Definition is_descendant (a r : Bytes32) : bool :=
  match dget a blocks with
  | Some b =>
      match ancestor_walk (length blocks) blocks {| cp_root := a; cp_slot := bk_slot b |} r with
      | Ok res => res
      | Err _ => false
      end
  | None => false
  end.

Lemma is_descendant_true a r : is_descendant a r = true <-> ancestor blocks a r.
Proof.
  unfold is_descendant. destruct (dget a blocks) as [b|] eqn:E.
  - destruct (ancestor_walk_total (length blocks) {| cp_root := a; cp_slot := bk_slot b |} r)
      as (res & -> & ->); [done|]. simpl. split; [by intros [? _]|].
    intros H. split; [done|]. by exists b.
  - split; [done|]. intros H. apply ancestor_known in H as [[? H] _]. congruence.
Qed.

(** ** Weights *)

(** A vote for [head] credits [x]: an ancestor of [head] above the start slot. *)
Definition credits (start_slot : Z) (x head : Bytes32) : bool :=
  match dget x blocks with
  | Some b => (start_slot <? bk_slot b) && is_descendant x head
  | None => false
  end.

Lemma credits_true start x head :
  credits start x head = true <->
  ancestor blocks x head /\ exists b, dget x blocks = Some b /\ start < bk_slot b.
Proof.
  unfold credits. destruct (dget x blocks) as [b|] eqn:E.
  - rewrite andb_true_iff, Z.ltb_lt, is_descendant_true. split.
    + intros [H1 H2]. eauto.
    + intros [H1 (b' & [= <-] & H2)]. done.
  - split; [done|]. by intros [_ (b & ? & _)].
Qed.

Lemma credits_step start x head b :
  dget head blocks = Some b -> start < bk_slot b ->
  Z.b2z (credits start x head) =
    Z.b2z (bool_decide (x = head)) + Z.b2z (credits start x (bk_parent_root b)).
Proof.
  intros E Hs. destruct (decide (x = head)) as [->|Hne].
  - rewrite bool_decide_eq_true_2 by done.
    assert (credits start head head = true) as ->.
    { apply credits_true. split; [by eapply anc_refl|eauto]. }
    destruct (credits start head (bk_parent_root b)) eqn:Ec; [|done].
    apply credits_true in Ec as [Ha _]. destruct (ancestor_known _ _ Ha) as [_ [pb Ep]].
    pose proof (Hearlier _ _ _ E Ep). destruct (ancestor_slot _ _ _ _ Ha E Ep). lia.
  - rewrite bool_decide_eq_false_2 by done. rewrite Z.add_0_l. f_equal. apply eq_true_iff_eq.
    rewrite !credits_true. split; intros [Ha Hb]; split; auto.
    + inversion Ha as [|? ? b' E' Ha']; subst; [done|]. rewrite E in E'. by injection E' as ->.
    + by eapply anc_parent.
Qed.

Lemma credits_none start x head : dget head blocks = None -> credits start x head = false.
Proof.
  intros E. apply not_true_is_false. rewrite credits_true. intros [Ha _].
  apply ancestor_known in Ha as [_ [? ?]]. congruence.
Qed.

Lemma credits_below start x head b :
  dget head blocks = Some b -> bk_slot b <= start -> credits start x head = false.
Proof.
  intros E Hs. apply not_true_is_false. rewrite credits_true. intros [Ha (bx & Ex & Hx)].
  destruct (ancestor_slot _ _ _ _ Ha Ex E). lia.
Qed.

Lemma weight_dset w r n x :
  weight (dset r n w) x = if bool_decide (x = r) then n else weight w x.
Proof. unfold weight. rewrite dget_dset. case_decide; by case_bool_decide. Qed.

Lemma credit_walk_ok fuel visited start r w :
  behind visited r -> (length blocks <= fuel + length visited)%nat ->
  exists w', credit_walk fuel blocks start r w = Ok w' /\
    forall x, weight w' x = weight w x + Z.b2z (credits start x r).
Proof.
  revert visited r w. induction fuel as [|fuel IH]; intros visited r w Hb Hf; cbn [credit_walk];
    (destruct (dget r blocks) as [b|] eqn:E;
      [|exists w; split; [done|]; intros x; rewrite credits_none by done; simpl; lia]);
    pose proof (behind_length _ _ _ Hb E) as Hlen; [lia|].
  destruct (Z.leb_spec (bk_slot b) start).
  - exists w. split; [done|]. intros x. rewrite (credits_below start x r b) by done. simpl. lia.
  - destruct (IH (r :: visited) (bk_parent_root b) (dset r (weight w r + 1) w))
      as (w' & E' & Hw); [by apply behind_step|simpl; lia|].
    exists w'. split; [done|]. intros x. rewrite Hw, weight_dset, (credits_step start x r b) by done.
    case_bool_decide; subst; simpl; lia.
Qed.

(** The number of latest votes that credit [x]. *)
Definition votes_for (start : Z) (votes : list AttestationData) (x : Bytes32) : Z :=
  Zlen (filter (fun d => credits start x (cp_root (ad_head d)) = true) votes).

Lemma accumulate_ok fuel start votes w :
  (length blocks <= fuel)%nat ->
  exists w', foldM (fun w d => credit_walk fuel blocks start (cp_root (ad_head d)) w) w votes = Ok w' /\
    forall x, weight w' x = weight w x + votes_for start votes x.
Proof.
  intros Hf. revert w. induction votes as [|d votes IH]; intros w; cbn [foldM].
  - exists w. split; [done|]. intros x. unfold votes_for. simpl. lia.
  - destruct (credit_walk_ok fuel [] start (cp_root (ad_head d)) w) as (w1 & -> & H1);
      [apply behind_nil|simpl; lia|].
    mcbn. destruct (IH w1) as (w2 & -> & H2). exists w2. split; [done|]. intros x.
    rewrite H2, H1. unfold votes_for. rewrite filter_cons.
    destruct (credits start x (cp_root (ad_head d))) eqn:Ec; simpl; lia.
Qed.
End Tree.

(** ** LMD-GHOST *)

(** The order of [max]: by weight, ties to the larger root. *)
Definition key_le (w : Bytes32 -> Z) (a b : Bytes32) : Prop :=
  w a < w b \/ (w a = w b /\ bytes_leb a b = true).

Lemma key_le_refl w a : key_le w a a.
Proof. right. split; [done|]. by destruct (bytes_leb_total a a). Qed.

Lemma key_le_trans w a b c : key_le w a b -> key_le w b c -> key_le w a c.
Proof.
  intros [H1|[H1 L1]] [H2|[H2 L2]]; [left; lia..|].
  right. split; [lia|]. by eapply bytes_leb_trans.
Qed.

Lemma key_le_antisym w a b : key_le w a b -> key_le w b a -> a = b.
Proof. intros [H1|[H1 L1]] [H2|[H2 L2]]; try lia. by apply bytes_leb_antisym. Qed.

Lemma bytes_ltb_leb a b : bytes_ltb a b = negb (bytes_leb b a).
Proof.
  unfold bytes_ltb, bytes_leb. rewrite (bytes_compare_antisym a b).
  by destruct (bytes_compare a b).
Qed.

Lemma key_gtb_spec weights a b :
  if key_gtb weights a b then key_le (weight weights) b a else key_le (weight weights) a b.
Proof.
  unfold key_gtb, key_le. rewrite bytes_ltb_leb, Z.gtb_ltb.
  destruct (Z.ltb_spec (weight weights b) (weight weights a)); simpl; [auto|].
  destruct (Z.eqb_spec (weight weights a) (weight weights b)) as [E|]; simpl; [|left; lia].
  destruct (bytes_leb a b) eqn:L; simpl; [auto|]. right. split; [done|].
  destruct (bytes_leb_total a b) as [?|?]; [congruence|done].
Qed.

Lemma best_child_spec weights first rest :
  best_child weights first rest ∈ first :: rest /\
  forall c, c ∈ first :: rest -> key_le (weight weights) c (best_child weights first rest).
Proof.
  unfold best_child. revert first. induction rest as [|x rest IH]; intros first; simpl.
  - split; [left|]. intros c ->%list_elem_of_singleton. apply key_le_refl.
  - pose proof (key_gtb_spec weights x first) as Hk.
    destruct (key_gtb weights x first).
    + destruct (IH x) as [Hin Hmax]. split; [by right|].
      intros c [->|Hc]%elem_of_cons; [|by apply Hmax].
      eapply key_le_trans; [exact Hk|]. apply Hmax. left.
    + destruct (IH first) as [Hin Hmax]. split.
      * apply elem_of_cons in Hin as [->|Hin]; [left|by right; right].
      * intros c [->|[->|Hc]%elem_of_cons]%elem_of_cons.
        -- apply Hmax. left.
        -- eapply key_le_trans; [exact Hk|]. apply Hmax. left.
        -- apply Hmax. by right.
Qed.

(** [c] is a child of [p] that passes the threshold. *)
Definition candidate (blocks : Blocks) (ok : Bytes32 -> bool) (p c : Bytes32) : Prop :=
  ok c = true /\ exists b, dget c blocks = Some b /\ bk_parent_root b = p.

(** [c] is the heaviest candidate child of [p]. *)
Definition heaviest (blocks : Blocks) (w : Bytes32 -> Z) (ok : Bytes32 -> bool) (p c : Bytes32)
    : Prop :=
  candidate blocks ok p c /\ forall c', candidate blocks ok p c' -> key_le w c' c.

Lemma heaviest_unique blocks w ok p c c' :
  heaviest blocks w ok p c -> heaviest blocks w ok p c' -> c = c'.
Proof. intros [H1 M1] [H2 M2]. apply (key_le_antisym w); auto. Qed.

Definition passes (min_score : option Z) (weights : dict Bytes32 Z) (root : Bytes32) : bool :=
  match min_score with Some m => m <=? weight weights root | None => true end.

Definition children_of (cm : dict Bytes32 (list Bytes32)) (p : Bytes32) : list Bytes32 :=
  default [] (dget p cm).

Lemma children_map_spec min_score weights l cm p c :
  c ∈ children_of (foldl (add_child min_score weights) cm l) p <->
  c ∈ children_of cm p \/
  (passes min_score weights c = true /\ exists b, (c, b) ∈ l /\ bk_parent_root b = p).
Proof.
  revert cm. induction l as [|[r b] l IH]; intros cm; simpl.
  - split; [auto|]. intros [H|(_ & b & H & _)]; [done|by apply elem_of_nil in H].
  - rewrite IH. clear IH.
    assert (c ∈ children_of (add_child min_score weights cm (r, b)) p <->
      c ∈ children_of cm p \/ (passes min_score weights c = true /\ c = r /\ bk_parent_root b = p)) as ->.
    { unfold add_child, children_of.
      assert ((match min_score with Some m => weight weights r <? m | None => false end) =
        negb (passes min_score weights r)) as ->.
      { unfold passes. destruct min_score; [|done]. by rewrite Z.leb_antisym, negb_involutive. }
      destruct (passes min_score weights r) eqn:Ep; simpl.
      - rewrite dget_dset. destruct (decide (p = bk_parent_root b)) as [->|Hne]; simpl.
        + rewrite elem_of_app, list_elem_of_singleton. naive_solver.
        + naive_solver.
      - split; [auto|]. intros [?|(? & -> & _)]; [done|congruence]. }
    split.
    + intros [[?|(? & -> & ?)]|(? & b' & ? & ?)]; [by left|right; split; [done|]..].
      * exists b. split; [left|done].
      * exists b'. split; [by right|done].
    + intros [?|(? & b' & [[= -> ->]|Hin]%elem_of_cons & ?)]; [auto|auto|].
      right. split; [done|]. eauto.
Qed.

Lemma children_map_candidates blocks min_score weights p c :
  dict_wf blocks ->
  c ∈ children_of (foldl (add_child min_score weights) [] blocks) p <->
  candidate blocks (passes min_score weights) p c.
Proof.
  intros Hwf. rewrite children_map_spec. unfold candidate, children_of. simpl.
  rewrite elem_of_nil. split.
  - intros [[]|(? & b & Hin & ?)]. split; [done|]. exists b. split; [by apply In_dget|done].
  - intros (? & b & Hg & ?). right. split; [done|]. exists b. split; [by apply dget_In|done].
Qed.

Section Ghost.
Context (blocks : Blocks) (Hwf : dict_wf blocks) (Hearlier : parents_earlier blocks).
Context (min_score : option Z) (weights : dict Bytes32 Z).
Let cm := foldl (add_child min_score weights) [] blocks.

(** [visited] is the part of the descent above [r]. *)
Definition descended (visited : list Bytes32) (r : Bytes32) : Prop :=
  NoDup visited /\ exists b, dget r blocks = Some b /\
  forall v, v ∈ visited -> exists bv, dget v blocks = Some bv /\ bk_slot bv < bk_slot b.

Lemma descended_length visited r : descended visited r -> (S (length visited) <= length blocks)%nat.
Proof.
  intros (Hn & b & E & Hv). assert (length (r :: visited) <= length (dkeys blocks))%nat as H.
  { apply submseteq_length, NoDup_submseteq.
    - constructor; [|done]. intros Hin. destruct (Hv r Hin) as (bv & Ev & ?).
      rewrite E in Ev. injection Ev as ->. lia.
    - intros x [->|Hx]%elem_of_cons; [by eapply dget_Some_key|].
      destruct (Hv x Hx) as (? & ? & _). by eapply dget_Some_key. }
  unfold dkeys in H. rewrite length_fmap in H. done.
Qed.

Lemma descended_step visited r c ok :
  descended visited r -> candidate blocks ok r c -> descended (r :: visited) c.
Proof.
  intros (Hn & b & E & Hv) (_ & bc & Ec & Hp). subst r. pose proof (Hearlier _ _ _ Ec E).
  split.
  - constructor; [|done]. intros Hin. destruct (Hv _ Hin) as (bv & Ev & ?).
    rewrite E in Ev. injection Ev as ->. lia.
  - exists bc. split; [done|]. intros v [->|Hin]%elem_of_cons; [by exists b|].
    destruct (Hv v Hin) as (bv & Ev & ?). exists bv. split; [done|lia].
Qed.

Lemma ghost_walk_ok fuel visited r :
  descended visited r -> (length blocks <= fuel + length visited)%nat ->
  exists h, ghost_walk fuel cm weights r = Ok h /\
    rtc (heaviest blocks (weight weights) (passes min_score weights)) r h /\
    (forall c, ~ candidate blocks (passes min_score weights) h c) /\ is_Some (dget h blocks).
Proof.
  revert visited r. induction fuel as [|fuel IH]; intros visited r Hd Hf;
    pose proof (descended_length _ _ Hd) as Hlen; [lia|]. cbn [ghost_walk].
  pose proof (fun c => children_map_candidates blocks min_score weights r c Hwf) as Hc.
  fold cm in Hc. unfold children_of in Hc.
  assert (default [] (dget r cm) = [] -> exists h, Ok r = Ok h /\
    rtc (heaviest blocks (weight weights) (passes min_score weights)) r h /\
    (forall c, ~ candidate blocks (passes min_score weights) h c) /\ is_Some (dget h blocks)) as Hleaf.
  { intros E. exists r. split; [done|]. split; [constructor|]. split.
    - intros c Hcc%Hc. rewrite E in Hcc. by apply elem_of_nil in Hcc.
    - destruct Hd as (_ & b & ? & _). eauto. }
  destruct (dget r cm) as [[|first rest]|] eqn:E; simpl in Hleaf; [by apply Hleaf| |by apply Hleaf].
  simpl in Hc. clear Hleaf. destruct (best_child_spec weights first rest) as [Hin Hmax].
  apply Hc in Hin as Hcand.
  destruct (IH (r :: visited) (best_child weights first rest)) as (h & Eh & Hrtc & Hno & Hk);
    [by eapply descended_step|simpl; lia|].
  exists h. split; [done|]. split; [|done]. eapply rtc_l; [|exact Hrtc].
  split; [done|]. intros c' Hc'%Hc. by apply Hmax.
Qed.

Lemma ghost_walk_total fuel r :
  is_Some (dget r blocks) -> (length blocks <= fuel)%nat ->
  exists h, ghost_walk fuel cm weights r = Ok h /\
    rtc (heaviest blocks (weight weights) (passes min_score weights)) r h /\
    (forall c, ~ candidate blocks (passes min_score weights) h c) /\ is_Some (dget h blocks).
Proof.
  intros [b E] Hf. apply (ghost_walk_ok fuel []); [|simpl; lia].
  split; [constructor|]. exists b. split; [done|]. by intros v ?%elem_of_nil.
Qed.
End Ghost.

(** The heaviest path determines its end. *)
Lemma heaviest_path_unique blocks w ok r h h' :
  rtc (heaviest blocks w ok) r h -> (forall c, ~ candidate blocks ok h c) ->
  rtc (heaviest blocks w ok) r h' -> (forall c, ~ candidate blocks ok h' c) -> h = h'.
Proof.
  intros H1 N1 H2 N2. induction H1 as [r|r c h Hc _ IH].
  - destruct H2 as [|? ? ? [Hc _]]; [done|]. by edestruct N1.
  - destruct H2 as [|r c' h' Hc' H2]; [destruct Hc as [Hc _]; by edestruct N2|].
    apply IH; [done|]. by rewrite (heaviest_unique _ _ _ _ _ _ Hc Hc').
Qed.
