(* ===== verification/StoreVotes.v ===== *)
(** * Latest votes

    [_extract_attestations_from_aggregated_payloads] reduces a pool of proofs to one
    vote per validator.  [latest_vote] says which: the newest slot, and on a tie the
    data inserted first. *)

From S2P Require Import Prelude Pydict Uint Ssz SszCorrect Sha256 Merkle Containers.
From S2P Require Import StateTransition StateCorrect Proofs Signatures ForkChoice.

(** Validator [v] takes part in one of the proofs. *)
Definition participates (v : Z) (proofs : list SingleMessageAggregate) : bool :=
  existsb (fun p => bool_decide (v ∈ set_indices (sma_participants p))) proofs.

(** The entry of the pool counts as a vote of [v]. *)
Definition casts (fin v : Z) (entry : AttestationData * list SingleMessageAggregate) : bool :=
  (fin <? cp_slot (ad_head entry.1)) && participates v entry.2.

(** [d] is the vote of [v] in [pool]: newer than [v]'s votes before it, at least as
    new as the ones after it. *)
Definition latest_vote (pool : ProofPool) (fin v : Z) (d : AttestationData) : Prop :=
  exists l1 proofs l2, pool = l1 ++ (d, proofs) :: l2 /\ casts fin v (d, proofs) = true /\
    (forall e, e ∈ l1 -> casts fin v e = true -> ad_slot e.1 < ad_slot d) /\
    (forall e, e ∈ l2 -> casts fin v e = true -> ad_slot e.1 <= ad_slot d).

(** Proofs whose bitfields name at least one validator. *)
Definition proof_ok (p : SingleMessageAggregate) : Prop :=
  exists l, to_validator_indices (sma_participants p) = Ok l.
Definition pool_ok (pool : ProofPool) : Prop :=
  forall d proofs p, (d, proofs) ∈ pool -> p ∈ proofs -> proof_ok p.

Definition newer (o : option AttestationData) (d : AttestationData) : option AttestationData :=
  match o with
  | Some p => if ad_slot p <? ad_slot d then Some d else Some p
  | None => Some d
  end.

Lemma newer_idem o d : newer (newer o d) d = newer o d.
Proof.
  unfold newer. destruct o as [p|]; [|by rewrite Z.ltb_irrefl].
  destruct (ad_slot p <? ad_slot d) eqn:E; [by rewrite Z.ltb_irrefl|by rewrite E].
Qed.

Lemma dget_record_voter d votes v x :
  dget x (record_voter d votes v) = if bool_decide (x = v) then newer (dget x votes) d else dget x votes.
Proof.
  unfold record_voter, newer. destruct (decide (x = v)) as [->|Hne].
  - rewrite bool_decide_eq_true_2 by done. destruct (dget v votes) as [p|] eqn:E.
    + destruct (_ <? _); [by rewrite dget_dset_eq|done].
    + by rewrite dget_dset_eq.
  - rewrite bool_decide_eq_false_2 by done.
    destruct (dget v votes) as [p|]; [destruct (_ <? _)|]; by rewrite ?dget_dset_ne by done.
Qed.

Lemma record_voter_wf d votes v : dict_wf votes -> dict_wf (record_voter d votes v).
Proof. unfold record_voter. intros. repeat case_match; auto using dset_wf. Qed.

Lemma dget_record_voters d votes l x :
  dget x (foldl (record_voter d) votes l) =
    if bool_decide (x ∈ l) then newer (dget x votes) d else dget x votes.
Proof.
  revert votes. induction l as [|v l IH]; intros votes; simpl; [done|].
  rewrite IH, dget_record_voter. destruct (decide (x = v)) as [->|Hne].
  - rewrite !(bool_decide_eq_true_2 (v = v)), (bool_decide_eq_true_2 (v ∈ v :: l)) by (done || left).
    case_bool_decide; [apply newer_idem|done].
  - rewrite (bool_decide_eq_false_2 (x = v)) by done.
    rewrite (bool_decide_ext (x ∈ v :: l) (x ∈ l)); [done|]. rewrite elem_of_cons. naive_solver.
Qed.

Lemma record_voters_wf d votes l : dict_wf votes -> dict_wf (foldl (record_voter d) votes l).
Proof. revert votes. induction l as [|v l IH]; intros votes H; simpl; auto using record_voter_wf. Qed.

Lemma record_proofs_ok fin votes d proofs :
  dict_wf votes -> (forall p, p ∈ proofs -> proof_ok p) ->
  exists votes', record_proofs fin votes (d, proofs) = Ok votes' /\ dict_wf votes' /\
    forall v, dget v votes' = if casts fin v (d, proofs) then newer (dget v votes) d else dget v votes.
Proof.
  unfold record_proofs, casts. simpl. intros Hwf Hok. rewrite Z.ltb_antisym.
  destruct (Z.leb_spec (cp_slot (ad_head d)) fin) as [Hle|Hgt]; simpl.
  { exists votes. by split_and!. }
  clear Hgt. revert votes Hwf. induction proofs as [|p proofs IH]; intros votes Hwf; cbn [foldM].
  { exists votes. by split_and!. }
  destruct (Hok p ltac:(left)) as [l Hl]. rewrite Hl. mcbn.
  destruct (IH ltac:(intros; apply Hok; by right) (foldl (record_voter d) votes l))
    as (votes' & -> & Hwf' & Hv); [by apply record_voters_wf|].
  exists votes'. split; [done|]. split; [done|]. intros v. rewrite Hv, dget_record_voters.
  apply to_validator_indices_Ok in Hl as [-> _]. simpl.
  case_bool_decide; simpl; [|done]. destruct (participates v proofs); [apply newer_idem|done].
Qed.

Lemma latest_vote_snoc pool fin v e d :
  latest_vote pool fin v d ->
  (casts fin v e = false \/ ad_slot e.1 <= ad_slot d) -> latest_vote (pool ++ [e]) fin v d.
Proof.
  intros (l1 & proofs & l2 & -> & Hc & H1 & H2) He. exists l1, proofs, (l2 ++ [e]).
  split; [by rewrite <- app_assoc|]. split_and!; [done|done|].
  intros e' [Hin| ->%list_elem_of_singleton]%elem_of_app Hce; [by apply H2|].
  destruct He; [congruence|done].
Qed.

Lemma latest_vote_max pool fin v d e :
  latest_vote pool fin v d -> e ∈ pool -> casts fin v e = true -> ad_slot e.1 <= ad_slot d.
Proof.
  intros (l1 & proofs & l2 & -> & Hc & H1 & H2) [Hin|[->|Hin]%elem_of_cons]%elem_of_app He.
  - by apply Z.lt_le_incl, H1.
  - done.
  - by apply H2.
Qed.

(** The extraction succeeds and returns each validator's latest vote. *)
Lemma extract_ok pool fin :
  pool_ok pool ->
  exists votes, _extract_attestations_from_aggregated_payloads pool fin = Ok votes /\
    dict_wf votes /\
    forall v, match dget v votes with
              | Some d => latest_vote pool fin v d
              | None => forall e, e ∈ pool -> casts fin v e = false
              end.
Proof.
  unfold _extract_attestations_from_aggregated_payloads. induction pool as [|[d proofs] pool IH] using rev_ind;
    intros Hok.
  - exists []. split; [done|]. split; [constructor|]. by intros v e ?%elem_of_nil.
  - destruct IH as (votes & E & Hwf & Hv).
    { intros d' ps p Hin. apply (Hok d'). apply elem_of_app. by left. }
    destruct (record_proofs_ok fin votes d proofs Hwf) as (votes' & E' & Hwf' & Hv').
    { intros p Hp. apply (Hok d proofs); [|done]. apply elem_of_app. right. left. }
    exists votes'. rewrite foldM_app, E. cbn [mbind result_bind foldM]. rewrite E'.
    split; [done|]. split; [done|]. intros v. rewrite Hv'. specialize (Hv v).
    destruct (casts fin v (d, proofs)) eqn:Ec; simpl newer.
    + destruct (dget v votes) as [p|] eqn:Ep; simpl.
      * destruct (Z.ltb_spec (ad_slot p) (ad_slot d)).
        -- exists pool, proofs, []. split_and!; [done|done| |by intros e ?%elem_of_nil].
           intros e Hin He. pose proof (latest_vote_max _ _ _ _ _ Hv Hin He). lia.
        -- apply latest_vote_snoc; [done|]. right. simpl. lia.
      * exists pool, proofs, []. split_and!; [done|done| |by intros e ?%elem_of_nil].
        intros e Hin He. rewrite Hv in He by done. done.
    + destruct (dget v votes) as [p|] eqn:Ep.
      * apply latest_vote_snoc; [done|by left].
      * intros e [Hin| ->%list_elem_of_singleton]%elem_of_app; [by apply Hv|done].
Qed.
