(* ===== verification/StoreCorrect.v ===== *)
(** * The store invariant

    [store_inv] ties the store's blocks, states and checkpoints together: the blocks
    form a tree rooted at the anchor, each block's state is the one its chain
    leads to, and the checkpoints name known blocks.  Under it the head, safe-target
    and finalization updates are total, and are what LMD-GHOST prescribes. *)

From S2P Require Import Prelude Pydict Uint Ssz SszCorrect Sha256 Merkle Containers.
From S2P Require Import StateTransition StateCorrect StateHistory Proofs Signatures ForkChoice.
From S2P Require Import SignaturesCorrect ForkChoiceCorrect StoreVotes.

(** What the store knows of the block [b] at root [r] with post-state [st]: from
    slot [floor] on, the state's history names ancestors of [r]. *)
Record entry_ok (blocks : Blocks) (floor : Z) (r : Bytes32) (b : Block) (st : State) : Prop := {
  eo_root : r = hash_tree_root b;
  eo_inv : state_inv st;
  eo_keys : keys_decode (st_validators st);
  eo_slot : st_head_slot st = bk_slot b;
  eo_history i h :
    floor <= i -> st_historical_block_hashes st !! Z.to_nat i = Some h -> h <> ZERO_HASH ->
    ancestor blocks h r /\ exists bh, dget h blocks = Some bh /\ bk_slot bh = i
}.

(** [anchor] is the root and block the store was created from. *)
Record store_inv (anchor : Bytes32 * Block) (s : Store) : Prop := {
  si_wf : dict_wf (sto_blocks s);
  si_states : dkeys (sto_states s) = dkeys (sto_blocks s);
  si_floor : 0 <= bk_slot anchor.2 /\ dget anchor.1 (sto_blocks s) = Some anchor.2;
  si_rooted r : is_Some (dget r (sto_blocks s)) -> ancestor (sto_blocks s) anchor.1 r;
  si_earlier : parents_earlier (sto_blocks s);
  si_entry r b st : dget r (sto_blocks s) = Some b -> dget r (sto_states s) = Some st ->
    entry_ok (sto_blocks s) (bk_slot anchor.2) r b st;
  si_justified : checkpoint_in (sto_blocks s) (sto_latest_justified s);
  si_finalized : checkpoint_in (sto_blocks s) (sto_latest_finalized s);
  si_head : is_Some (dget (sto_head s) (sto_blocks s));
  si_safe : is_Some (dget (sto_safe_target s) (sto_blocks s));
  si_new : pool_ok (sto_latest_new_aggregated_payloads s);
  si_known : pool_ok (sto_latest_known_aggregated_payloads s)
}.

Lemma store_state_known anchor s r :
  store_inv anchor s -> is_Some (dget r (sto_blocks s)) <-> is_Some (dget r (sto_states s)).
Proof. intros Hi. by rewrite !dget_is_Some, (si_states _ _ Hi). Qed.

Lemma checkpoint_above_anchor anchor s c :
  store_inv anchor s -> checkpoint_in (sto_blocks s) c -> bk_slot anchor.2 <= cp_slot c.
Proof.
  intros Hi (b & E & <-). destruct (si_floor _ _ Hi) as [_ Ea].
  apply (ancestor_slot (sto_blocks s) (si_earlier _ _ Hi) anchor.1 (cp_root c)); [|done..].
  apply (si_rooted _ _ Hi). eauto.
Qed.

(** ** The finalized checkpoint of a head *)
Section FinalizedWalk.
Context (blocks : Blocks) (Hearlier : parents_earlier blocks).

(** The climb returns a known ancestor, and the one at [slot] if there is one. *)
Lemma finalized_walk_ok fuel visited slot r :
  behind blocks visited r -> is_Some (dget r blocks) ->
  (length blocks <= fuel + length visited)%nat ->
  exists f, finalized_walk fuel blocks slot r = Ok f /\ ancestor blocks f r /\
    forall x b, ancestor blocks x r -> dget x blocks = Some b -> bk_slot b = slot -> f = x.
Proof.
  revert visited r. induction fuel as [|fuel IH]; intros visited r Hb [b E] Hf; cbn [finalized_walk];
    pose proof (behind_length _ _ _ _ Hb E) as Hlen; [lia|]. rewrite E.
  assert (ancestor blocks r r) as Hr by by eapply anc_refl.
  rewrite Z.gtb_ltb. destruct (Z.ltb_spec slot (bk_slot b)) as [Hlt|Hge].
  2: { exists r. split; [done|]. split; [done|]. intros x bx Hx Ex Hs. symmetry.
       destruct (ancestor_slot blocks Hearlier x r bx b Hx Ex E) as [? Hu]. apply Hu. lia. }
  assert (forall x bx, ancestor blocks x r -> dget x blocks = Some bx -> bk_slot bx = slot ->
    ancestor blocks x (bk_parent_root b)) as Hup.
  { intros x bx Hx Ex Hs. inversion Hx as [? ? E1|? ? ? E1 Hx']; subst; rewrite E in *.
    - injection Ex as <-. lia.
    - by injection E1 as <-. }
  destruct (dmem (bk_parent_root b) blocks) eqn:Em.
  - apply dmem_true in Em.
    destruct (IH (r :: visited) (bk_parent_root b)) as (f & Ef & Hanc & Hat);
      [by apply behind_step|done|simpl; lia|].
    exists f. split; [done|]. split; [by eapply anc_parent|]. eauto.
  - apply dmem_false in Em. exists r. split; [done|]. split; [done|]. intros x bx Hx Ex Hs.
    specialize (Hup x bx Hx Ex Hs). apply ancestor_known in Hup as [_ [? ?]]. congruence.
Qed.

Lemma finalized_walk_total fuel slot r :
  is_Some (dget r blocks) -> (length blocks <= fuel)%nat ->
  exists f, finalized_walk fuel blocks slot r = Ok f /\ ancestor blocks f r /\
    forall x b, ancestor blocks x r -> dget x blocks = Some b -> bk_slot b = slot -> f = x.
Proof. intros. apply (finalized_walk_ok fuel []); [apply behind_nil|done|simpl; lia]. Qed.
End FinalizedWalk.

(** ** The LMD-GHOST specification *)

(** [votes] assigns each validator its latest vote in [pool]. *)
Definition vote_table (pool : ProofPool) (fin : Z) (votes : dict Z AttestationData) : Prop :=
  dict_wf votes /\ forall v d, dget v votes = Some d <-> latest_vote pool fin v d.

(** [h] ends the descent from [start] that picks, at every step, the child with the
    most votes in its subtree (ties to the larger root), among the children with at
    least [min_score] votes. *)
Definition ghost_head (blocks : Blocks) (votes : dict Z AttestationData) (min_score : option Z)
    (start h : Bytes32) : Prop :=
  exists bs, dget start blocks = Some bs /\
  let w := votes_for blocks (bk_slot bs) (dvalues votes) in
  let ok r := match min_score with Some m => m <=? w r | None => true end in
  rtc (heaviest blocks w ok) start h /\ forall c, ~ candidate blocks ok h c.

Lemma latest_vote_unique pool fin v d d' :
  latest_vote pool fin v d -> latest_vote pool fin v d' -> d = d'.
Proof.
  intros (l1 & ps & l2 & E & Hc & H1 & H2) (k1 & qs & k2 & E' & Hc' & K1 & K2).
  rewrite E in E'. clear E pool. revert k1 E' K1.
  induction l1 as [|e l1 IH]; intros [|f k1] E' K1; simplify_eq/=.
  - done.
  - specialize (K1 (d, ps) ltac:(left) Hc). specialize (H2 (d', qs)). simpl in *.
    assert (ad_slot d' <= ad_slot d); [|lia]. apply H2; [|done]. apply elem_of_app. right. left.
  - specialize (H1 (d', qs) ltac:(left) Hc'). specialize (K2 (d, ps)). simpl in *.
    assert (ad_slot d <= ad_slot d'); [|lia]. apply K2; [|done]. apply elem_of_app. right. left.
  - eapply IH; [|done|]; intros x Hx; [apply H1|apply K1]; by right.
Qed.

Lemma extract_table pool fin :
  pool_ok pool ->
  exists votes, _extract_attestations_from_aggregated_payloads pool fin = Ok votes /\
    vote_table pool fin votes.
Proof.
  intros Hok. destruct (extract_ok pool fin Hok) as (votes & E & Hwf & Hv).
  exists votes. split; [done|]. split; [done|]. intros v d. specialize (Hv v).
  destruct (dget v votes) as [d'|].
  - split; [by intros [= <-]|]. intros Hd. f_equal. by eapply latest_vote_unique.
  - split; [done|]. intros (l1 & ps & l2 & -> & Hc & _). rewrite Hv in Hc; [done|].
    apply elem_of_app. right. left.
Qed.

Lemma rtc_heaviest_ext blocks w w' ok ok' r h :
  (forall x, w x = w' x) -> (forall x, ok x = ok' x) ->
  rtc (heaviest blocks w ok) r h -> rtc (heaviest blocks w' ok') r h.
Proof.
  intros Hw Hok. apply rtc_subrel. unfold heaviest, candidate, key_le. intros p c [[H1 H2] H3].
  rewrite <- Hok, <- Hw. split; [done|]. intros c'. rewrite <- Hok, <- Hw. apply H3.
Qed.

Section Ghost.
Context (s : Store) (Hwf : dict_wf (sto_blocks s)) (Hearlier : parents_earlier (sto_blocks s)).

Lemma compute_lmd_ghost_head_ok start votes min_score :
  is_Some (dget start (sto_blocks s)) ->
  exists h, _compute_lmd_ghost_head s start votes min_score = Ok h /\
    ghost_head (sto_blocks s) votes min_score start h /\ is_Some (dget h (sto_blocks s)).
Proof.
  intros [bs E]. unfold _compute_lmd_ghost_head.
  rewrite (proj2 (dmem_true start (sto_blocks s))) by eauto. unfold dgetitem. rewrite E. mcbn.
  unfold _accumulate_ancestor_weights.
  destruct (accumulate_ok (sto_blocks s) Hearlier (S (length (sto_blocks s))) (bk_slot bs)
    (dvalues votes) []) as (w & -> & Hw); [lia|]. mcbn.
  destruct (ghost_walk_total (sto_blocks s) Hwf Hearlier min_score w
    (S (length (sto_blocks s))) start) as (h & -> & Hr & Hl & Hk); [eauto|lia|].
  exists h. split; [done|]. split; [|done]. exists bs. split; [done|].
  assert (forall x, weight w x = votes_for (sto_blocks s) (bk_slot bs) (dvalues votes) x) as Hw'.
  { intros x. rewrite Hw. unfold weight. simpl. lia. }
  assert (forall x, passes min_score w x = match min_score with
    | Some m => m <=? votes_for (sto_blocks s) (bk_slot bs) (dvalues votes) x | None => true end) as Hp.
  { intros x. unfold passes. by rewrite Hw'. }
  split; [by eapply rtc_heaviest_ext|]. intros c [Hc ?]. apply (Hl c). split; [by rewrite Hp|done].
Qed.
End Ghost.

(** The head is determined by the blocks and the votes, whatever order they came in. *)
Lemma votes_for_perm blocks start votes votes' x :
  votes ≡ₚ votes' -> votes_for blocks start votes x = votes_for blocks start votes' x.
Proof. unfold votes_for. intros H. f_equal. apply Permutation_length. by rewrite H. Qed.

#[export] Instance dvalues_proper {K V} :
  Proper ((≡ₚ) ==> (≡ₚ)) (@dvalues K V).
Proof. intros d d' Hp. unfold dvalues. by rewrite Hp. Qed.

Lemma dget_perm {K V} `{EqDecision K} (d d' : dict K V) k : dict_wf d -> d ≡ₚ d' -> dget k d = dget k d'.
Proof.
  intros Hwf Hp. assert (dict_wf d') as Hwf' by (unfold dict_wf, dkeys in *; by rewrite <- Hp).
  destruct (dget k d) as [v|] eqn:E.
  - symmetry. apply In_dget; [done|]. rewrite <- Hp. by apply dget_In.
  - symmetry. apply dget_None. apply dget_None in E. unfold dkeys in *. by rewrite <- Hp.
Qed.

(** ** Updating the head *)

(** What [update_head] may set the finalized checkpoint to. *)
Definition finalized_by (anchor : Bytes32 * Block) (s : Store) (h : Bytes32) (st : State)
    (fin : Checkpoint) : Prop :=
  (fin = sto_latest_finalized s \/
   (ancestor (sto_blocks s) (cp_root fin) h /\ cp_slot fin = st_finalized_slot st)) /\
  checkpoint_in (sto_blocks s) fin /\
  (0 < st_finalized_slot st -> bk_slot anchor.2 <= st_finalized_slot st ->
   fin = st_latest_finalized st).

Lemma head_finalized_on_chain anchor s h b st :
  store_inv anchor s -> dget h (sto_blocks s) = Some b -> dget h (sto_states s) = Some st ->
  0 < st_finalized_slot st -> bk_slot anchor.2 <= st_finalized_slot st ->
  ancestor (sto_blocks s) (cp_root (st_latest_finalized st)) h /\
  checkpoint_in (sto_blocks s) (st_latest_finalized st).
Proof.
  intros Hi Eb Es Hp Hf. destruct (si_entry _ _ Hi _ _ _ Eb Es) as [_ Hinv _ _ Hh].
  pose proof (inv_order _ Hinv). pose proof (inv_justified _ Hinv).
  destruct (inv_on_chain _ Hinv ltac:(lia)) as [_ Hroot]. unfold root_at in Hroot. bool_to_prop.
  destruct (inv_named _ Hinv) as [_ Hn].
  destruct (Hh _ _ Hf Hroot (Hn Hp)) as (Ha & bh & E & Hs). split; [done|]. by exists bh.
Qed.

Lemma update_head_ok anchor s :
  store_inv anchor s ->
  exists votes h st fin, update_head s = Ok (store_with_head s h fin) /\
    vote_table (sto_latest_known_aggregated_payloads s) (cp_slot (sto_latest_finalized s)) votes /\
    ghost_head (sto_blocks s) votes None (cp_root (sto_latest_justified s)) h /\
    dget h (sto_states s) = Some st /\ finalized_by anchor s h st fin.
Proof.
  intros Hi. unfold update_head.
  destruct (extract_table _ (cp_slot (sto_latest_finalized s)) (si_known _ _ Hi))
    as (votes & -> & Hv). mcbn.
  destruct (si_justified _ _ Hi) as (bj & Ej & _).
  destruct (compute_lmd_ghost_head_ok s (si_wf _ _ Hi) (si_earlier _ _ Hi)
    (cp_root (sto_latest_justified s)) votes None) as (h & -> & Hg & Hk); [eauto|]. mcbn.
  pose proof (proj1 (store_state_known _ _ h Hi) Hk) as [st Es]. destruct Hk as [bh Eh].
  unfold dgetitem. rewrite Es. mcbn.
  destruct (finalized_walk_total (sto_blocks s) (si_earlier _ _ Hi)
    (S (length (sto_blocks s))) (st_finalized_slot st) h) as (f & -> & Hanc & Hat); [eauto|lia|]. mcbn.
  destruct (ancestor_known _ _ _ Hanc) as [[bf Ef] _]. rewrite Ef. mcbn.
  exists votes, h, st. eexists. split; [done|]. split; [done|]. split; [done|]. split; [done|].
  assert (0 < st_finalized_slot st -> bk_slot anchor.2 <= st_finalized_slot st ->
    f = cp_root (st_latest_finalized st) /\ bk_slot bf = st_finalized_slot st) as Hexact.
  { intros H1 H2. destruct (head_finalized_on_chain _ _ _ _ _ Hi Eh Es H1 H2) as [Ha (b & E & Hs)].
    pose proof (Hat _ _ Ha E Hs). subst f. rewrite E in Ef. by injection Ef as <-. }
  unfold finalized_by. destruct (Z.eqb_spec (bk_slot bf) (st_finalized_slot st)) as [Hs|Hs].
  - split; [right; done|]. split; [by exists bf|]. intros H1 H2.
    destruct (Hexact H1 H2) as [-> _]. by destruct (st_latest_finalized st).
  - split; [by left|]. split; [apply Hi|]. intros H1 H2. by destruct (Hexact H1 H2).
Qed.

Lemma ghost_head_descends blocks votes min_score start h :
  ghost_head blocks votes min_score start h -> ancestor blocks start h.
Proof.
  intros (bs & E & Hr & _). revert Hr E. generalize (votes_for blocks (bk_slot bs) (dvalues votes)).
  intros w Hr. generalize dependent bs.
  set (ok := fun _ : Bytes32 => _) in Hr. clearbody ok. induction Hr as [r|r c h Hc _ IH];
    intros bs E; [by eapply anc_refl|].
  destruct Hc as [(_ & bc & Ec & <-) _]. eapply ancestor_trans; [|by eapply IH].
  eapply anc_parent; [done|]. by eapply anc_refl.
Qed.

Lemma ghost_head_known blocks votes min_score start h :
  ghost_head blocks votes min_score start h -> is_Some (dget h blocks).
Proof. intros H%ghost_head_descends. by apply ancestor_known in H as [_ H]. Qed.

Lemma head_updated_inv anchor s h fin :
  store_inv anchor s -> is_Some (dget h (sto_blocks s)) -> checkpoint_in (sto_blocks s) fin ->
  store_inv anchor (store_with_head s h fin).
Proof. intros [] Hh Hf. by constructor. Qed.

Lemma update_head_inv anchor s s' :
  store_inv anchor s -> update_head s = Ok s' -> store_inv anchor s'.
Proof.
  intros Hi E. destruct (update_head_ok anchor s Hi) as (votes & h & st & fin & E' & _ & Hg & _ & Hf).
  rewrite E in E'. injection E' as ->. apply head_updated_inv; [done| |apply Hf].
  by eapply ghost_head_known.
Qed.

(** ** The safe target *)
Lemma update_safe_target_ok anchor s :
  store_inv anchor s ->
  exists votes st h, update_safe_target s = Ok (store_with_safe_target s h) /\
    dget (sto_head s) (sto_states s) = Some st /\
    vote_table (sto_latest_new_aggregated_payloads s) (cp_slot (sto_latest_finalized s)) votes /\
    ghost_head (sto_blocks s) votes (Some (min_target_score (Zlen (st_validators st))))
      (cp_root (sto_latest_justified s)) h.
Proof.
  intros Hi. unfold update_safe_target.
  destruct (proj1 (store_state_known _ _ _ Hi) (si_head _ _ Hi)) as [st Es].
  unfold dgetitem. rewrite Es. mcbn.
  destruct (extract_table _ (cp_slot (sto_latest_finalized s)) (si_new _ _ Hi))
    as (votes & -> & Hv). mcbn.
  destruct (si_justified _ _ Hi) as (bj & Ej & _).
  destruct (compute_lmd_ghost_head_ok s (si_wf _ _ Hi) (si_earlier _ _ Hi)
    (cp_root (sto_latest_justified s)) votes (Some (min_target_score (Zlen (st_validators st)))))
    as (h & -> & Hg & Hk); [eauto|]. mcbn.
  by exists votes, st, h.
Qed.

Lemma safe_target_inv anchor s h :
  store_inv anchor s -> is_Some (dget h (sto_blocks s)) -> store_inv anchor (store_with_safe_target s h).
Proof. intros [] Hh. by constructor. Qed.

(** ** Pools *)
Lemma pools_inv anchor s sigs new known :
  store_inv anchor s -> pool_ok new -> pool_ok known ->
  store_inv anchor (store_with_pools s sigs new known).
Proof. intros [] Hn Hk. by constructor. Qed.

Lemma time_inv anchor s t : store_inv anchor s -> store_inv anchor (store_with_time s t).
Proof. intros []. by constructor. Qed.

Lemma pool_ok_dset pool d proofs :
  pool_ok pool -> (forall p, p ∈ proofs -> proof_ok p) -> pool_ok (dset d proofs pool).
Proof.
  intros Hp Hd d' ps p Hin. assert ((d', ps) ∈ pool \/ ps = proofs) as [?| ->]; [|by eapply Hp|by apply Hd].
  clear Hp Hd. induction pool as [|[k v] pool IH]; simpl in Hin.
  - apply list_elem_of_singleton in Hin. right. congruence.
  - case_decide; apply elem_of_cons in Hin as [E|Hin].
    + right. congruence.
    + left. by right.
    + left. rewrite E. left.
    + destruct (IH Hin); [left; by right|by right].
Qed.

Lemma pool_ok_get pool d p : pool_ok pool -> p ∈ default [] (dget d pool) -> proof_ok p.
Proof.
  intros Hp Hin. destruct (dget d pool) as [ps|] eqn:E; simpl in Hin; [|by apply elem_of_nil in Hin].
  eapply Hp; [|exact Hin]. by apply dget_In.
Qed.

Lemma merge_pools_ok known new : pool_ok known -> pool_ok new -> pool_ok (merge_pools known new).
Proof.
  intros Hk Hn d ps p Hin Hp. unfold merge_pools in Hin.
  apply list_elem_of_fmap in Hin as (d' & [= -> ->] & _).
  apply elem_of_sunion in Hp as [Hp|Hp]; eapply pool_ok_get; [apply Hk| |apply Hn|]; done.
Qed.

Lemma prune_pool_ok {V} s (pool : dict AttestationData V) pool' :
  prune_pool s pool = Ok pool' -> pool' ⊆ pool.
Proof.
  revert pool'. induction pool as [|[d v] pool IH]; intros pool' H; simpl in H.
  - by injection H as <-.
  - apply bind_Ok in H as (keep & _ & H). apply bind_Ok in H as (rest & E & [= <-]).
    specialize (IH _ E). intros x. destruct keep; rewrite ?elem_of_cons; naive_solver.
Qed.
