(* ===== verification/StoreHandlers.v ===== *)
(** * The store's handlers preserve its invariant

    A store created from a consistent anchor satisfies [store_inv]; adding a block
    and handling gossip keep it, and raise nothing but documented rejections. *)

From S2P Require Import Prelude Pydict Uint Ssz SszCorrect Sha256 Merkle Containers.
From S2P Require Import StateTransition Samples StateCorrect StateHistory Proofs Signatures.
From S2P Require Import SignaturesCorrect ForkChoice ForkChoiceCorrect StoreVotes StoreCorrect.

(** ** Creation *)

(** The state is the anchor block's post-state with valid keys, and the block is not
    its own parent. *)
Definition anchor_consistent (state : State) (block : Block) : Prop :=
  state_inv state /\ st_head_slot state = bk_slot block /\ keys_decode (st_validators state) /\
  bk_parent_root block <> hash_tree_root block.

Lemma pool_ok_nil : pool_ok [].
Proof. by intros d ps p ?%elem_of_nil. Qed.

Lemma create_store_inv state block v s :
  anchor_consistent state block -> create_store state block v = Ok s ->
  store_inv (hash_tree_root block, block) s.
Proof.
  intros (Hinv & Hslot & Hkeys & Hself) E. unfold create_store in E. set (root := hash_tree_root block) in *.
  destruct (negb _); [done|]. apply bind_Ok in E as (time & _ & [= <-]).
  assert (forall r b, dget r [(root, block)] = Some b -> r = root /\ b = block) as Hone.
  { intros r b. simpl. case_decide; [|done]. by intros [= <-]. }
  assert (dget root [(root, block)] = Some block) as Hget by (simpl; by rewrite decide_True).
  constructor; cbn [sto_blocks sto_states sto_latest_justified sto_latest_finalized sto_head
    sto_safe_target sto_latest_new_aggregated_payloads sto_latest_known_aggregated_payloads fst snd];
    try apply pool_ok_nil; eauto.
  - unfold dict_wf. simpl. apply NoDup_singleton.
  - split; [|done]. pose proof (inv_head _ Hinv). lia.
  - intros r [b [-> _]%Hone]. by eapply anc_refl.
  - intros r b pb [-> ->]%Hone [E _]%Hone. done.
  - intros r b st [-> ->]%Hone. simpl. rewrite decide_True by done. intros [= <-].
    constructor; [done..|]. intros i h Hi Hl _. apply lookup_lt_Some in Hl.
    pose proof (inv_history _ Hinv). lia.
  - by exists block.
  - by exists block.
Qed.

(** ** Adding a block *)
Section AddBlock.
Context (blocks : Blocks) (root : Bytes32) (block : Block) (Hnew : dget root blocks = None).

Lemma dget_added r b : dget r blocks = Some b -> dget r (dset root block blocks) = Some b.
Proof. intros E. rewrite dget_dset_ne; [done|]. congruence. Qed.

Lemma dget_added_inv r b :
  dget r (dset root block blocks) = Some b -> (r = root /\ b = block) \/ dget r blocks = Some b.
Proof.
  rewrite dget_dset. case_decide; [|by right]. intros [= <-]. by left.
Qed.

Lemma ancestor_added a r : ancestor blocks a r -> ancestor (dset root block blocks) a r.
Proof.
  induction 1 as [r b E|a r b E _ IH]; [by eapply anc_refl, dget_added|].
  eapply anc_parent; [by apply dget_added|done].
Qed.

Lemma checkpoint_added c : checkpoint_in blocks c -> checkpoint_in (dset root block blocks) c.
Proof. intros (b & E & Hs). exists b. split; [by apply dget_added|done]. Qed.

Lemma entry_added floor r b st :
  entry_ok blocks floor r b st -> entry_ok (dset root block blocks) floor r b st.
Proof.
  intros [H1 H2 H3 H4 H5]. constructor; [done..|]. intros i h Hi Hl Hz.
  destruct (H5 i h Hi Hl Hz) as (Ha & bh & E & Hs).
  split; [by apply ancestor_added|]. exists bh. split; [by apply dget_added|done].
Qed.
End AddBlock.

(** What an accepted block does to the history. *)
Lemma transition_history s b s' :
  state_inv s -> ssz_valid b = true -> state_transition s b = Ok s' ->
  st_head_slot s < bk_slot b /\ st_head_slot s' = bk_slot b /\
  st_validators s' = st_validators s /\
  exists k, st_historical_block_hashes s' =
    st_historical_block_hashes s ++ bk_parent_root b :: repeat ZERO_HASH k.
Proof.
  intros Hinv Hb Hs. destruct (state_transition_cases s b Hinv Hb)
    as [(root & votes & t & E & _ & _ & He & _)|(e & E & _)]; [|congruence].
  rewrite E in Hs. injection Hs as <-. apply header_error_None in He as (_ & [Hlt _] & _ & _ & Hp).
  split; [done|]. split; [done|]. split; [done|]. eexists. cbn [st_historical_block_hashes repacked
    header_applied]. unfold extended_history. by rewrite <- Hp.
Qed.

(** A block past the anchor does not have the anchor's parent root: the parent is
    earlier than the anchor, so this would be a collision of the hash. *)
Definition no_cycle (anchor : Bytes32 * Block) (b : Block) : Prop :=
  bk_slot anchor.2 < bk_slot b -> hash_tree_root b <> bk_parent_root anchor.2.

Section BlockAdded.
Context (anchor : Bytes32 * Block) (s : Store) (Hi : store_inv anchor s).
Context (b : Block) (parent : State) (st : State).
Context (Hb : ssz_valid b = true) (Hnew : dget (hash_tree_root b) (sto_blocks s) = None).
Context (Hparent : dget (bk_parent_root b) (sto_states s) = Some parent).
Context (Hpost : state_transition parent b = Ok st).
Context (Hacyclic : no_cycle anchor b).
Let root := hash_tree_root b.
Let blocks := dset root b (sto_blocks s).

Lemma parent_entry :
  exists pb, dget (bk_parent_root b) (sto_blocks s) = Some pb /\
    entry_ok (sto_blocks s) (bk_slot anchor.2) (bk_parent_root b) pb parent.
Proof.
  destruct (proj2 (store_state_known _ _ _ Hi) (mk_is_Some _ _ Hparent)) as [pb Ep].
  exists pb. split; [done|]. by apply (si_entry _ _ Hi).
Qed.

Lemma added_rooted r : is_Some (dget r blocks) -> ancestor blocks anchor.1 r.
Proof.
  intros [br Er]. apply dget_added_inv in Er as [[-> ->]|Er].
  - destruct parent_entry as (pb & Ep & _). eapply anc_parent; [apply dget_dset_eq|].
    apply ancestor_added; [done|]. apply (si_rooted _ _ Hi). eauto.
  - apply ancestor_added; [done|]. apply (si_rooted _ _ Hi). eauto.
Qed.

Lemma added_earlier : parents_earlier blocks.
Proof.
  destruct parent_entry as (pb0 & Ep0 & [_ Hpinv _ Hpslot _]).
  destruct (transition_history _ _ _ Hpinv Hb Hpost) as (Hlt & _).
  assert (bk_slot anchor.2 <= bk_slot pb0) as Hfloor.
  { destruct (si_floor _ _ Hi) as [_ Ea].
    apply (ancestor_slot (sto_blocks s) (si_earlier _ _ Hi) anchor.1 (bk_parent_root b)); [|done..].
    apply (si_rooted _ _ Hi). eauto. }
  intros r br pb Er Ep. apply dget_added_inv in Er as [[-> ->]|Er].
  - apply dget_added_inv in Ep as [[Eq _]|Ep]; [|rewrite Ep0 in Ep; injection Ep as <-; lia].
    fold root in Hnew. rewrite Eq in Ep0. congruence.
  - apply dget_added_inv in Ep as [[Eq _]|Ep]; [|by eapply (si_earlier _ _ Hi)].
    assert (ancestor (sto_blocks s) anchor.1 r) as Ha by (apply (si_rooted _ _ Hi); eauto).
    inversion Ha as [? b1 E1|? ? b1 E1 Hup]; subst.
    + destruct (si_floor _ _ Hi) as [_ Ea]. rewrite Ea in Er. injection Er as <-. destruct Hacyclic; [lia|done].
    + rewrite Er in E1. injection E1 as <-. rewrite Eq in Hup.
      apply ancestor_known in Hup as [_ [? ?]]. fold root in Hnew. congruence.
Qed.

Lemma added_entry : entry_ok blocks (bk_slot anchor.2) root b st.
Proof.
  destruct parent_entry as (pb & Ep & [_ Hpinv Hpkeys Hpslot Hphist]).
  destruct (transition_history _ _ _ Hpinv Hb Hpost) as (Hlt & Hslot & Hvals & k & Hhist).
  pose proof (inv_history _ Hpinv) as Hlen.
  constructor; [done|by eapply transition_inv|by rewrite Hvals|done|]. intros i h Hfl Hl Hz.
  assert (ancestor blocks (bk_parent_root b) root) as Hup.
  { eapply anc_parent; [apply dget_dset_eq|]. apply ancestor_added; [done|]. by eapply anc_refl. }
  rewrite Hhist in Hl. apply lookup_app_Some in Hl as [Hl|[Hge Hl]].
  - destruct (Hphist i h Hfl Hl Hz) as (Ha & bh & Eh & Hs). split.
    + eapply ancestor_trans; [|exact Hup]. by apply ancestor_added.
    + exists bh. split; [by apply dget_added|done].
  - destruct (Z.to_nat i - length (st_historical_block_hashes parent))%nat as [|j] eqn:Ej; simpl in Hl.
    + injection Hl as <-. split; [done|]. exists pb. split; [by apply dget_added|].
      destruct (si_floor _ _ Hi). lia.
    + apply list_elem_of_lookup_2, list_elem_of_In, repeat_spec in Hl. done.
Qed.

Lemma added_justified :
  checkpoint_in blocks (advance_to (sto_latest_justified s) (st_latest_justified st)).
Proof.
  unfold advance_to. rewrite Z.gtb_ltb. destruct (Z.ltb_spec (cp_slot (sto_latest_justified s))
    (cp_slot (st_latest_justified st))) as [Hgt|_]; [|by apply checkpoint_added, Hi].
  pose proof (checkpoint_above_anchor _ _ _ Hi (si_justified _ _ Hi)) as Hfl.
  destruct (si_floor _ _ Hi) as [H0 _]. destruct added_entry as [_ Hinv _ _ Hhist].
  pose proof (inv_justified _ Hinv). destruct (inv_on_chain _ Hinv ltac:(lia)) as [Hroot _].
  unfold root_at in Hroot. bool_to_prop. destruct (inv_named _ Hinv) as [Hn _].
  destruct (Hhist (st_justified_slot st) _ ltac:(lia) Hroot (Hn ltac:(lia))) as [_ Hc]. exact Hc.
Qed.

Lemma block_added_inv known :
  pool_ok known ->
  store_inv anchor (store_with_block s root b st
    (advance_to (sto_latest_justified s) (st_latest_justified st)) known).
Proof.
  intros Hk. pose proof (si_states _ _ Hi) as Hst.
  constructor; cbn [store_with_block sto_blocks sto_states sto_latest_justified sto_latest_finalized
    sto_head sto_safe_target sto_latest_new_aggregated_payloads sto_latest_known_aggregated_payloads];
    fold blocks; auto using added_rooted, added_earlier, added_justified.
  - by apply dset_wf, Hi.
  - unfold blocks. apply dget_None in Hnew. fold root in Hnew.
    rewrite !dset_notin by (by rewrite ?Hst). unfold dkeys in *. by rewrite !fmap_app, Hst.
  - destruct (si_floor _ _ Hi) as [H0 Ea]. split; [done|]. by apply dget_added.
  - intros r br str Er Est. unfold blocks in Er. rewrite dget_dset in Er. rewrite dget_dset in Est. case_decide.
    + injection Er as <-. injection Est as <-. subst r. exact added_entry.
    + apply entry_added; [done|]. by apply (si_entry _ _ Hi).
  - apply checkpoint_added; [done|apply Hi].
  - destruct (si_head _ _ Hi) as [bh Eh]. eexists. by apply dget_added.
  - destruct (si_safe _ _ Hi) as [bh Eh]. eexists. by apply dget_added.
  - apply Hi.
Qed.
End BlockAdded.

(** ** Ancestry and the validation of votes *)
Lemma checkpoint_is_ancestor_ok anchor s a d :
  store_inv anchor s ->
  exists res, _checkpoint_is_ancestor s a d = Ok res /\
    (res = true <-> cp_slot a <= cp_slot d /\ ancestor (sto_blocks s) (cp_root a) (cp_root d) /\
       checkpoint_in (sto_blocks s) a).
Proof.
  intros Hi. unfold _checkpoint_is_ancestor. rewrite Z.gtb_ltb.
  destruct (Z.ltb_spec (cp_slot d) (cp_slot a)) as [Hlt|Hge].
  - exists false. split; [done|]. split; [done|]. intros [? _]. lia.
  - destruct (ancestor_walk_total (sto_blocks s) (si_earlier _ _ Hi) (S (length (sto_blocks s))) a
      (cp_root d)) as (res & -> & Hres); [lia|].
    exists res. split; [done|]. rewrite Hres. split; [by intros [? ?]|by intros (_ & ? & ?)].
Qed.

(** The vote names known blocks at their slots on one chain, and its slot is between
    the head's and the current one, with the gossip allowance. *)
Record vote_valid (s : Store) (d : AttestationData) : Prop := {
  vv_source : checkpoint_in (sto_blocks s) (ad_source d);
  vv_target : checkpoint_in (sto_blocks s) (ad_target d);
  vv_head : checkpoint_in (sto_blocks s) (ad_head d);
  vv_source_target : ancestor (sto_blocks s) (cp_root (ad_source d)) (cp_root (ad_target d));
  vv_target_head : ancestor (sto_blocks s) (cp_root (ad_target d)) (cp_root (ad_head d));
  vv_slot : cp_slot (ad_head d) <= ad_slot d;
  vv_horizon : ad_slot d * INTERVALS_PER_SLOT <= sto_time s + GOSSIP_DISPARITY_INTERVALS
}.

Definition vote_rejections : list RejectionReason :=
  [UNKNOWN_SOURCE_BLOCK; UNKNOWN_TARGET_BLOCK; UNKNOWN_HEAD_BLOCK; SOURCE_AFTER_TARGET;
   HEAD_OLDER_THAN_TARGET; SOURCE_SLOT_MISMATCH; TARGET_SLOT_MISMATCH; HEAD_SLOT_MISMATCH;
   SOURCE_NOT_ANCESTOR_OF_TARGET; TARGET_NOT_ANCESTOR_OF_HEAD; ATTESTATION_SLOT_BEFORE_HEAD;
   ATTESTATION_TOO_FAR_IN_FUTURE].

Lemma checkpoint_ancestor_slot blocks a d :
  parents_earlier blocks -> checkpoint_in blocks a -> checkpoint_in blocks d ->
  ancestor blocks (cp_root a) (cp_root d) -> cp_slot a <= cp_slot d.
Proof.
  intros He (ba & Ea & <-) (bd & Ed & <-) Hanc. by apply (ancestor_slot blocks He _ _ _ _ Hanc Ea Ed).
Qed.

(** A checkpoint's block is unknown, or is looked up and has a slot to compare. *)
Lemma checkpoint_lookup blocks c :
  (exists b, dget (cp_root c) blocks = Some b /\ dmem (cp_root c) blocks = true /\
     dgetitem (cp_root c) blocks = Ok b /\ (checkpoint_in blocks c <-> bk_slot b = cp_slot c)) \/
  (dmem (cp_root c) blocks = false /\ ~ checkpoint_in blocks c).
Proof.
  destruct (dget (cp_root c) blocks) as [b|] eqn:E.
  - left. exists b. rewrite (proj2 (dmem_true _ _)) by eauto. unfold dgetitem. rewrite E.
    split_and!; try done. split; [by intros (b' & E' & <-); simplify_eq|by exists b].
  - right. split; [by apply dmem_false|]. intros (b & E' & _). congruence.
Qed.

(** One guard of [validate_attestation]: it fires and the vote is invalid, or the
    rest decides. *)
Ltac guard_fires H :=
  right; split; [by intros V; apply H in V|];
  eexists; split; [reflexivity|]; apply list_elem_of_In; cbv [vote_rejections In]; tauto.

Ltac guard_arith H :=
  right; split; [intros V; apply H in V; lia|];
  eexists; split; [reflexivity|]; apply list_elem_of_In; cbv [vote_rejections In]; tauto.

Lemma validate_attestation_cases anchor s d :
  store_inv anchor s ->
  (vote_valid s d /\ validate_attestation s d = Ok tt) \/
  (~ vote_valid s d /\ exists r, validate_attestation s d = Err (SpecRejectionError r) /\
     r ∈ vote_rejections).
Proof.
  intros Hi. unfold validate_attestation. cbn zeta.
  pose proof (si_earlier _ _ Hi) as He.
  pose proof (checkpoint_lookup (sto_blocks s)) as Hcp.
  destruct (Hcp (ad_source d)) as [(bs & Es & -> & -> & Hs)|[-> Hs]]; cbn [negb];
    [|guard_fires (vv_source s d)].
  destruct (Hcp (ad_target d)) as [(bt & Et & -> & -> & Ht)|[-> Ht]]; cbn [negb];
    [|guard_fires (vv_target s d)].
  destruct (Hcp (ad_head d)) as [(bh & Eh & -> & -> & Hh)|[-> Hh]]; cbn [negb];
    [|guard_fires (vv_head s d)].
  assert (vote_valid s d -> cp_slot (ad_source d) <= cp_slot (ad_target d) <= cp_slot (ad_head d))
    as Horder by (intros [V1 V2 V3 V4 V5]; eauto using checkpoint_ancestor_slot).
  rewrite !Z.gtb_ltb. destruct (Z.ltb_spec (cp_slot (ad_target d)) (cp_slot (ad_source d)));
    [guard_arith Horder|].
  destruct (Z.ltb_spec (cp_slot (ad_head d)) (cp_slot (ad_target d))); [guard_arith Horder|]. mcbn.
  destruct (Z.eqb_spec (bk_slot bs) (cp_slot (ad_source d))); cbn [negb];
    [|guard_fires (fun V => proj1 Hs (vv_source s d V))].
  destruct (Z.eqb_spec (bk_slot bt) (cp_slot (ad_target d))); cbn [negb];
    [|guard_fires (fun V => proj1 Ht (vv_target s d V))].
  destruct (Z.eqb_spec (bk_slot bh) (cp_slot (ad_head d))); cbn [negb];
    [|guard_fires (fun V => proj1 Hh (vv_head s d V))].
  destruct (checkpoint_is_ancestor_ok anchor s (ad_source d) (ad_target d) Hi) as (r1 & -> & Hr1). mcbn.
  destruct r1; cbn [negb].
  2: { guard_fires (fun V : vote_valid s d => proj2 Hr1 (conj (proj1 (Horder V))
         (conj (vv_source_target s d V) (vv_source s d V)))). }
  destruct (checkpoint_is_ancestor_ok anchor s (ad_target d) (ad_head d) Hi) as (r2 & -> & Hr2). mcbn.
  destruct r2; cbn [negb].
  2: { guard_fires (fun V : vote_valid s d => proj2 Hr2 (conj (proj2 (Horder V))
         (conj (vv_target_head s d V) (vv_target s d V)))). }
  destruct (Z.ltb_spec (ad_slot d) (cp_slot (ad_head d))); [guard_arith (vv_slot s d)|].
  assert (ad_slot d <= (sto_time s + GOSSIP_DISPARITY_INTERVALS) / INTERVALS_PER_SLOT <->
    ad_slot d * INTERVALS_PER_SLOT <= sto_time s + GOSSIP_DISPARITY_INTERVALS) as Hz
    by (unfold INTERVALS_PER_SLOT; div_lia).
  destruct (Z.ltb_spec ((sto_time s + GOSSIP_DISPARITY_INTERVALS) / INTERVALS_PER_SLOT) (ad_slot d));
    [guard_arith (vv_horizon s d)|].
  left. destruct (proj1 Hr1 eq_refl) as (_ & ? & ?). destruct (proj1 Hr2 eq_refl) as (_ & ? & ?).
  split; [constructor; auto; [by apply Hh|by apply Hz]|done].
Qed.

(** ** Pruning *)
Lemma head_lives_under_finalized_ok anchor s d :
  store_inv anchor s ->
  exists keep, head_lives_under_finalized s d = Ok keep /\
    (keep = true <-> cp_slot (sto_latest_finalized s) < cp_slot (ad_head d) /\
       ancestor (sto_blocks s) (cp_root (sto_latest_finalized s)) (cp_root (ad_head d))).
Proof.
  intros Hi. unfold head_lives_under_finalized. rewrite Z.gtb_ltb.
  destruct (Z.ltb_spec (cp_slot (sto_latest_finalized s)) (cp_slot (ad_head d))).
  - destruct (checkpoint_is_ancestor_ok anchor s (sto_latest_finalized s) (ad_head d) Hi)
      as (res & -> & Hres).
    exists res. split; [done|]. rewrite Hres. pose proof (si_finalized _ _ Hi).
    split; [by intros (_ & ? & _)|intros [? ?]; split_and!; [lia|done..]].
  - exists false. split; [done|]. split; [done|lia].
Qed.

(** The entries kept are exactly those whose head descends from the finalized block. *)
Lemma prune_pool_total {V} anchor s (pool : dict AttestationData V) :
  store_inv anchor s ->
  exists pool', prune_pool s pool = Ok pool' /\
    forall d v, (d, v) ∈ pool' <-> (d, v) ∈ pool /\
      cp_slot (sto_latest_finalized s) < cp_slot (ad_head d) /\
      ancestor (sto_blocks s) (cp_root (sto_latest_finalized s)) (cp_root (ad_head d)).
Proof.
  intros Hi. induction pool as [|[d v] pool (pool' & IH & Hp)]; cbn [prune_pool].
  - exists []. split; [done|]. intros d v. rewrite elem_of_nil. naive_solver.
  - destruct (head_lives_under_finalized_ok anchor s d Hi) as (keep & -> & Hk). mcbn. rewrite IH. mcbn.
    eexists. split; [done|]. intros d' v'. rewrite elem_of_cons. destruct keep.
    + rewrite elem_of_cons, Hp. destruct Hk as [Hk _]. specialize (Hk eq_refl). naive_solver.
    + rewrite Hp. split; [naive_solver|]. intros [[[= -> ->]|Hin] Hc]; [|done].
      destruct Hk as [_ Hk]. by specialize (Hk Hc).
Qed.

Lemma prune_stale_ok anchor s :
  store_inv anchor s ->
  exists sigs new known,
    prune_stale_attestation_data s = Ok (store_with_pools s sigs new known) /\
    store_inv anchor (store_with_pools s sigs new known).
Proof.
  intros Hi. unfold prune_stale_attestation_data.
  destruct (prune_pool_total anchor s (sto_attestation_signatures s) Hi) as (sigs & -> & _). mcbn.
  destruct (prune_pool_total anchor s (sto_latest_new_aggregated_payloads s) Hi) as (new & -> & Hn). mcbn.
  destruct (prune_pool_total anchor s (sto_latest_known_aggregated_payloads s) Hi)
    as (known & -> & Hk). mcbn.
  exists sigs, new, known. split; [done|].
  apply pools_inv; [done| |]; intros d ps p Hin; [apply Hn in Hin as [Hin _]|apply Hk in Hin as [Hin _]];
    [by apply (si_new _ _ Hi d)|by apply (si_known _ _ Hi d)].
Qed.

(** ** The handlers *)
Lemma pool_ok_dunion pool l :
  pool_ok pool -> pool_ok l -> pool_ok (dunion pool l).
Proof.
  unfold dunion. revert pool. induction l as [|[d ps] l IH]; intros pool Hp Hl; simpl; [done|].
  apply IH.
  - apply pool_ok_dset; [done|]. intros p. apply (Hl d). left.
  - intros d' ps' p Hin. apply (Hl d'). by right.
Qed.

Lemma seed_known_ok atts known : pool_ok known -> pool_ok (seed_known atts known).
Proof.
  intros Hk. apply pool_ok_dunion; [|done]. apply pool_ok_dunion; [apply pool_ok_nil|].
  intros d ps p Hin Hp. apply list_elem_of_fmap in Hin as (a & [= -> ->] & _). by apply elem_of_nil in Hp.
Qed.

Lemma accept_new_attestations_ok anchor s :
  store_inv anchor s -> exists s', accept_new_attestations s = Ok s' /\ store_inv anchor s'.
Proof.
  intros Hi. unfold accept_new_attestations.
  assert (store_inv anchor (store_with_pools s (sto_attestation_signatures s) []
    (merge_pools (sto_latest_known_aggregated_payloads s) (sto_latest_new_aggregated_payloads s)))) as Hi'.
  { apply pools_inv; [done|apply pool_ok_nil|]. apply merge_pools_ok; apply Hi. }
  destruct (update_head_ok anchor _ Hi') as (votes & h & st & fin & E & _).
  eexists. split; [exact E|]. by eapply update_head_inv.
Qed.

Section Handlers.
Context `{Crypto} (anchor : Bytes32 * Block).

(** The rejections of [on_block] beyond those of the transition and the signatures. *)
Definition block_refused (s : Store) (sb : SignedBlock) (e : exn) : Prop :=
  (exists r, e = SpecRejectionError r) \/
  (e = SSZValueError /\ HISTORICAL_ROOTS_LIMIT < bk_slot (sb_block sb)).

Lemma on_block_new s sb parent post :
  store_inv anchor s -> ssz_valid (sb_block sb) = true ->
  no_cycle anchor (sb_block sb) ->
  dget (hash_tree_root (sb_block sb)) (sto_blocks s) = None ->
  dget (bk_parent_root (sb_block sb)) (sto_states s) = Some parent ->
  state_transition parent (sb_block sb) = Ok post ->
  let justified := advance_to (sto_latest_justified s) (st_latest_justified post) in
  let known := seed_known (bd_attestations (bk_body (sb_block sb)))
    (sto_latest_known_aggregated_payloads s) in
  store_inv anchor (store_with_block s (hash_tree_root (sb_block sb)) (sb_block sb) post justified known).
Proof.
  intros Hi Hv Ha Hnew Hp Ht justified known.
  eapply block_added_inv; [done|done|done|exact Hp|done|done|]. apply seed_known_ok, Hi.
Qed.

Lemma on_block_cases s sb :
  store_inv anchor s -> ssz_valid (sb_block sb) = true ->
  no_cycle anchor (sb_block sb) ->
  (exists s', on_block s sb = Ok s' /\ store_inv anchor s') \/
  (exists e, on_block s sb = Err e /\ block_refused s sb e).
Proof.
  intros Hi Hv Ha. unfold on_block, block_refused. cbn zeta.
  destruct (dmem (hash_tree_root (sb_block sb)) (sto_blocks s)) eqn:Hnew; [left; eauto|].
  apply dmem_false in Hnew.
  destruct (dget (bk_parent_root (sb_block sb)) (sto_states s)) as [parent|] eqn:Hp; mcbn; [|right; eauto].
  destruct (negb _); [right; eauto|].
  destruct (proj2 (store_state_known _ _ _ Hi) (mk_is_Some _ _ Hp)) as [pb Ep].
  destruct (si_entry _ _ Hi _ _ _ Ep Hp) as [_ Hpinv Hpk _ _].
  destruct (verify_signatures_cases sb (st_validators parent) Hpk Hv)
    as [[_ ->]|[_ (e & -> & r & -> & _)]]; mcbn; [|right; eauto].
  destruct (state_transition parent (sb_block sb)) as [post|e] eqn:Ht; mcbn.
  2: { right. exists e. split; [done|].
       destruct (state_transition_cases parent (sb_block sb) Hpinv Hv)
         as [(? & ? & ? & E & _)|(e' & E & Hc)]; [congruence|].
       rewrite E in Ht. injection Ht as ->. 
       destruct Hc as [[-> _]|[->|[->|[->|[[-> ?]|[(s2 & Hr%block_rejection_reason)| ->]]]]]]; eauto.
       left. rewrite !elem_of_cons, elem_of_nil in Hr. destruct Hr as [->|[->|[->|[->|[]]]]]; eauto. }
  left. pose proof (on_block_new _ _ _ _ Hi Hv Ha Hnew Hp Ht) as Hi1. cbn zeta in Hi1.
  destruct (update_head_ok anchor _ Hi1) as (votes & h & st & fin & E & _). rewrite E. mcbn.
  apply (update_head_inv anchor) in E; [|done].
  destruct (_ >? _); [|eauto].
  destruct (prune_stale_ok anchor _ E) as (sigs & new & known & -> & Hi3). eauto.
Qed.

Lemma on_gossip_attestation_cases s sa is_aggregator :
  store_inv anchor s -> 0 <= sa_validator_index sa ->
  (exists s', on_gossip_attestation s sa is_aggregator = Ok s' /\ store_inv anchor s' /\
     vote_valid s (sa_data sa)) \/
  (exists r, on_gossip_attestation s sa is_aggregator = Err (SpecRejectionError r)) \/
  (exists key e, on_gossip_attestation s sa is_aggregator = Err e /\
     well_typed (class_of PublicKey_type) key = true /\
     xmss_verify key (ad_slot (sa_data sa)) (hash_tree_root (sa_data sa)) (sa_signature sa) = Err e).
Proof.
  intros Hi Hv. unfold on_gossip_attestation. cbn zeta.
  destruct (validate_attestation_cases anchor s (sa_data sa) Hi) as [[Hvv ->]|[_ (r & -> & _)]]; mcbn;
    [|eauto].
  destruct (vv_target _ _ Hvv) as (bt & Et & _).
  destruct (proj1 (store_state_known _ _ _ Hi) (mk_is_Some _ _ Et)) as [st Est]. rewrite Est. mcbn.
  unfold is_within_registry. destruct (Z.ltb_spec (sa_validator_index sa) (Zlen (st_validators st)));
    cbn [negb]; [|eauto].
  destruct (attestation_key_ok (st_validators st) (eo_keys _ _ _ _ _ (si_entry _ _ Hi _ _ _ Et Est))
    (sa_validator_index sa)) as (k & -> & Hk & _); [done|]. mcbn.
  destruct (xmss_verify _ _ _ _) as [ok|e] eqn:Ev; mcbn; [|right; right; by exists k, e].
  destruct (negb _); [eauto|]. left. destruct is_aggregator; cbn [negb]; [|by exists s].
  eexists. split; [done|]. split; [|done]. apply pools_inv; [done|apply Hi..].
Qed.

Lemma on_gossip_aggregated_attestation_cases s sa :
  store_inv anchor s -> Zlen (sma_participants (saa_proof sa)) <= VALIDATOR_REGISTRY_LIMIT ->
  (exists s', on_gossip_aggregated_attestation s sa = Ok s' /\ store_inv anchor s' /\
     vote_valid s (saa_data sa)) \/
  (exists r, on_gossip_aggregated_attestation s sa = Err (SpecRejectionError r)).
Proof.
  intros Hi Hlim. unfold on_gossip_aggregated_attestation. cbn zeta.
  destruct (validate_attestation_cases anchor s (saa_data sa) Hi) as [[Hvv ->]|[_ (r & -> & _)]]; mcbn;
    [|eauto].
  destruct (to_validator_indices _) as [l|e] eqn:El; mcbn.
  2: { apply to_validator_indices_Err in El as [-> _]; [eauto|done]. }
  destruct (vv_target _ _ Hvv) as (bt & Et & _).
  destruct (proj1 (store_state_known _ _ _ Hi) (mk_is_Some _ _ Et)) as [st Est]. rewrite Est. mcbn.
  destruct (forallb _ _) eqn:Ef; cbn [negb]; [|eauto].
  destruct (attestation_keys_ok (st_validators st) (eo_keys _ _ _ _ _ (si_entry _ _ Hi _ _ _ Et Est)) l)
    as (ks & Ek & Eenc).
  { pose proof (voters_nonneg _ _ El) as Hp. rewrite Forall_forall in *. intros i Hin. split; [by apply Hp|].
    apply Z.ltb_lt. by eapply (proj1 (forallb_forall _ _) Ef), list_elem_of_In. }
  rewrite Ek. mcbn. unfold sma_verify. rewrite El. mcbn. rewrite (mapM_Ok_length _ _ _ Ek), Z.eqb_refl.
  rewrite Eenc. destruct (verify_single_message_proof _ _ _ _); mcbn; [|eauto].
  left. eexists. split; [done|]. split; [|done]. apply pools_inv; [done| |apply Hi].
  apply pool_ok_dset; [apply Hi|]. intros p [->|Hp]%elem_of_sadd; [by exists l|].
  eapply pool_ok_get; [apply (si_new _ _ Hi)|exact Hp].
Qed.
End Handlers.
