(* ===== verification/Aggregation.v ===== *)
(** * Aggregation and time (spec/forks/lstar/aggregation.py, timeline.py)

    The greedy selection of proofs, the aggregation round, and the interval ticks
    that schedule it.  A Python set is a duplicate-free list, in the order of
    insertion; where the code iterates over one, [AggregationCorrect] shows that the
    order does not matter. *)

From S2P Require Import Prelude Pydict Uint Ssz SszCorrect Sha256 Merkle Containers.
From S2P Require Import StateTransition Proofs Signatures ForkChoice.

(** ** Greedy selection *)

(** A candidate proof with the validators it covers. *)
Abbreviation Candidate := (SingleMessageAggregate * list Z)%type.

(** The tuple [(len(validators_covered_by[proof] - covered), proof.encode_bytes())] *)
Definition coverage_key (covered : list Z) (c : Candidate) : result (Candidate * (Z * bytes)) :=
  encoded ← container_encode c.1;
  Ok (c, (Zlen (sdiff c.2 covered), encoded)).

Definition tuple_gtb (a b : Z * bytes) : bool :=
  (a.1 >? b.1) || ((a.1 =? b.1) && bytes_ltb b.2 a.2).

(** [max(candidates, key=...)] *)
Definition max_keyed (first : Candidate * (Z * bytes)) (rest : list (Candidate * (Z * bytes)))
    : Candidate :=
  (foldl (fun best x => if tuple_gtb x.2 best.2 then x else best) first rest).1.

(** The [while candidate_proofs] loop of one pool; each turn removes a candidate. *)
Fixpoint select_loop (fuel : nat) (candidates : list Candidate)
    (selected : list SingleMessageAggregate) (covered : list Z)
    : result (list SingleMessageAggregate * list Z) :=
  keyed ← mapM (coverage_key covered) candidates;
  match keyed with
  | [] => Ok (selected, covered)
  | first :: rest =>
      let best := max_keyed first rest in
      let newly_covered := sdiff best.2 covered in
      match newly_covered with
      | [] => Ok (selected, covered)
      | _ =>
          match fuel with
          | O => Err OutOfFuel
          | S fuel =>
              select_loop fuel (filter (fun c => c.1 <> best.1) candidates)
                (selected ++ [best.1]) (sunion covered newly_covered)
          end
      end
  end.

(** [validators_covered_by]: the index set of each proof of the pool *)
Definition covered_by (proof : SingleMessageAggregate) : result Candidate :=
  indices ← to_validator_indices (sma_participants proof); Ok (proof, indices).

Definition select_from_pool (acc : list SingleMessageAggregate * list Z)
    (pool : list SingleMessageAggregate) : result (list SingleMessageAggregate * list Z) :=
  candidates ← mapM covered_by pool;
  select_loop (length candidates) candidates acc.1 acc.2.

(** A missing pool is the empty one: both are skipped. *)
Definition select_proofs_for_coverage (priority_pool fallback_pool : list SingleMessageAggregate)
    : result (list SingleMessageAggregate * list Z) :=
  foldM select_from_pool ([], []) [priority_pool; fallback_pool].

(** ** The aggregation round *)

(** [sorted(entries, key=lambda entry: entry.validator_index)], stable *)
Fixpoint insert_entry (e : AttestationSignatureEntry) (l : list AttestationSignatureEntry)
    : list AttestationSignatureEntry :=
  match l with
  | [] => [e]
  | x :: l' => if se_validator_index e <=? se_validator_index x then e :: l else x :: insert_entry e l'
  end.
Definition sorted_entries (l : list AttestationSignatureEntry) : list AttestationSignatureEntry :=
  foldr insert_entry [] l.

(** The keys of a child proof's participants, in index order. *)
Definition child_with_keys (validators : list Validator) (proof : SingleMessageAggregate)
    : result (SingleMessageAggregate * list ssz_value) :=
  indices ← to_validator_indices (sma_participants proof);
  keys ← mapM (attestation_key validators) indices;
  Ok (proof, keys).

(** The uncovered raw votes as the prover's triples. *)
Definition raw_triples (validators : list Validator) (entries : list AttestationSignatureEntry)
    (covered : list Z) : result (list (Z * ssz_value * Signature)) :=
  mapM (fun e =>
          key ← attestation_key validators (se_validator_index e);
          Ok (se_validator_index e, key, se_signature e))
    (filter (fun e => se_validator_index e ∉ covered) (sorted_entries entries)).

Section Aggregate.
Context `{Crypto}.

(** The three phases for one attestation data; [None] when there is nothing to merge. *)
Definition aggregate_data (store : Store) (validators : list Validator) (data : AttestationData)
    : result (option SignedAggregatedAttestation) :=
  '(child_proofs, covered_validators) ←
    select_proofs_for_coverage
      (default [] (dget data (sto_latest_new_aggregated_payloads store)))
      (default [] (dget data (sto_latest_known_aggregated_payloads store)));
  raw_signatures ←
    raw_triples validators (default [] (dget data (sto_attestation_signatures store)))
      covered_validators;
  if (Zlen raw_signatures =? 0) && (Zlen child_proofs <? 2) then Ok None
  else
    children_with_keys ← mapM (child_with_keys validators) child_proofs;
    proof ← sma_aggregate children_with_keys raw_signatures (hash_tree_root data) (ad_slot data);
    Ok (Some {| saa_data := data; saa_proof := proof |}).

(** The keys of [{**new_payloads, **attestation_signatures}], in order *)
Definition fresh_data (store : Store) : list AttestationData :=
  set_of (dkeys (sto_latest_new_aggregated_payloads store) ++
          dkeys (sto_attestation_signatures store)).

Definition aggregate (store : Store) : result (Store * list SignedAggregatedAttestation) :=
  head_state ← dgetitem (sto_head store) (sto_states store);
  results ← mapM (aggregate_data store (st_validators head_state)) (fresh_data store);
  let new_aggregates := omap id results in
  let new_aggregated_payloads := dict_of (map (fun a => (saa_data a, [saa_proof a])) new_aggregates) in
  let remaining_attestation_signatures :=
    dfilter (fun data => negb (dmem data new_aggregated_payloads)) (sto_attestation_signatures store) in
  Ok (store_with_pools store remaining_attestation_signatures new_aggregated_payloads
        (sto_latest_known_aggregated_payloads store), new_aggregates).

(** ** Ticks *)
Definition tick_interval (store : Store) (has_proposal is_aggregator : bool)
    : result (Store * list SignedAggregatedAttestation) :=
  time ← uint_add 64 (sto_time store) 1;
  let store := store_with_time store time in
  let interval_within_slot := time mod INTERVALS_PER_SLOT in
  if (interval_within_slot =? 0) && has_proposal then
    store ← accept_new_attestations store; Ok (store, [])
  else if (interval_within_slot =? 2) && is_aggregator then aggregate store
  else if interval_within_slot =? 3 then
    store ← update_safe_target store; Ok (store, [])
  else if interval_within_slot =? 4 then
    store ← accept_new_attestations store; Ok (store, [])
  else Ok (store, []).

(** One turn of the loop of [on_tick]. *)
Definition tick_step (target_interval : Z) (has_proposal is_aggregator : bool)
    (acc : Store * list SignedAggregatedAttestation)
    : result (Store * list SignedAggregatedAttestation) :=
  let '(store, all_new_aggregates) := acc in
  next_interval ← uint_new 64 (sto_time store + 1);
  let should_signal_proposal := has_proposal && (next_interval =? target_interval) in
  '(store, new_aggregates) ← tick_interval store should_signal_proposal is_aggregator;
  Ok (store, all_new_aggregates ++ new_aggregates).

(** Each turn advances the time by one interval. *)
Definition on_tick (store : Store) (target_interval : Z) (has_proposal is_aggregator : bool)
    : result (Store * list SignedAggregatedAttestation) :=
  while (Z.to_nat (target_interval - sto_time store))
    (fun acc => sto_time acc.1 <? target_interval)
    (tick_step target_interval has_proposal is_aggregator) (store, []).
End Aggregate.
