(* ===== verification/SyncService.v ===== *)
(** * The sync service (node/sync/head_sync.py, service.py, states.py;
      node/networking/service/service.py)

    Gossip is applied to the store or cached until its parents arrive, votes for unknown
    blocks are buffered and replayed, and the proofs inside a processed block are
    recovered.  The network service hands events to the service one at a time, so one
    event is one step; writes to the database and published aggregates are recorded in
    order. *)

From S2P Require Import GossipTopic Prelude Pydict Uint Ssz Sha256 Merkle Containers StateTransition Proofs Signatures.
From S2P Require Import ForkChoice Aggregation SszRecords Varint Snappy ReqResp BlockCache PeerManager StateMonad.
From S2P Require Import Backfill.

Definition MAX_PENDING_ATTESTATIONS : Z := 1024.

Inductive SyncState := IDLE | SYNCING | SYNCED.
#[export] Instance SyncState_eq_dec : EqDecision SyncState.
Proof. solve_decision. Defined.
Definition accepts_gossip (state : SyncState) : bool :=
  match state with SYNCING | SYNCED => true | IDLE => false end.

(** The calls of the database inside one [batch_write] *)
Inductive db_write :=
| put_block (block : Block) (root : Bytes32)
| put_state (state : State) (root : Bytes32)
| put_block_root_by_state_root (state_root block_root : Bytes32)
| put_block_root_by_slot (slot : Z) (root : Bytes32)
| put_head_root (root : Bytes32)
| put_justified_checkpoint (c : Checkpoint)
| put_finalized_checkpoint (c : Checkpoint)
| prune_before_slot (slot : Z) (keep_roots : list Bytes32).

Record SyncService := {
  sv_store : Store;
  sv_backfill : BackfillState;
  sv_state : SyncState;
  sv_is_aggregator : bool;
  sv_has_publisher : bool;
  sv_blocks_processed : Z;
  sv_pending_attestations : list SignedAttestation;
  sv_pending_aggregated_attestations : list SignedAggregatedAttestation;
  sv_pending_block_aggregates : list SignedAggregatedAttestation;
  sv_published : list SignedAggregatedAttestation;
  sv_database : option (list (list db_write));
  sv_reorg_depths : list Z
}.

Definition with_store (store : Store) (s : SyncService) : SyncService := {|
  sv_store := store; sv_backfill := sv_backfill s; sv_state := sv_state s; sv_is_aggregator := sv_is_aggregator s;
  sv_has_publisher := sv_has_publisher s; sv_blocks_processed := sv_blocks_processed s;
  sv_pending_attestations := sv_pending_attestations s;
  sv_pending_aggregated_attestations := sv_pending_aggregated_attestations s;
  sv_pending_block_aggregates := sv_pending_block_aggregates s; sv_published := sv_published s;
  sv_database := sv_database s; sv_reorg_depths := sv_reorg_depths s |}.
Definition with_backfill (backfill : BackfillState) (s : SyncService) : SyncService := {|
  sv_store := sv_store s; sv_backfill := backfill; sv_state := sv_state s; sv_is_aggregator := sv_is_aggregator s;
  sv_has_publisher := sv_has_publisher s; sv_blocks_processed := sv_blocks_processed s;
  sv_pending_attestations := sv_pending_attestations s;
  sv_pending_aggregated_attestations := sv_pending_aggregated_attestations s;
  sv_pending_block_aggregates := sv_pending_block_aggregates s; sv_published := sv_published s;
  sv_database := sv_database s; sv_reorg_depths := sv_reorg_depths s |}.
Definition with_state (state : SyncState) (s : SyncService) : SyncService := {|
  sv_store := sv_store s; sv_backfill := sv_backfill s; sv_state := state; sv_is_aggregator := sv_is_aggregator s;
  sv_has_publisher := sv_has_publisher s; sv_blocks_processed := sv_blocks_processed s;
  sv_pending_attestations := sv_pending_attestations s;
  sv_pending_aggregated_attestations := sv_pending_aggregated_attestations s;
  sv_pending_block_aggregates := sv_pending_block_aggregates s; sv_published := sv_published s;
  sv_database := sv_database s; sv_reorg_depths := sv_reorg_depths s |}.
(** The bookkeeping of a processed block, in two steps *)
Definition with_processed (aggregates : list SignedAggregatedAttestation)
    (batch : list db_write) (s : SyncService) : SyncService := {|
  sv_store := sv_store s; sv_backfill := sv_backfill s; sv_state := sv_state s; sv_is_aggregator := sv_is_aggregator s;
  sv_has_publisher := sv_has_publisher s; sv_blocks_processed := sv_blocks_processed s;
  sv_pending_attestations := sv_pending_attestations s;
  sv_pending_aggregated_attestations := sv_pending_aggregated_attestations s;
  sv_pending_block_aggregates := sv_pending_block_aggregates s ++ (if sv_is_aggregator s then aggregates else []);
  sv_published := sv_published s;
  sv_database := (fun batches => batches ++ [batch]) <$> sv_database s;
  sv_reorg_depths := sv_reorg_depths s |}.
Definition count_block (reorg : option Z) (s : SyncService) : SyncService := {|
  sv_store := sv_store s; sv_backfill := sv_backfill s; sv_state := sv_state s; sv_is_aggregator := sv_is_aggregator s;
  sv_has_publisher := sv_has_publisher s; sv_blocks_processed := sv_blocks_processed s + 1;
  sv_pending_attestations := sv_pending_attestations s;
  sv_pending_aggregated_attestations := sv_pending_aggregated_attestations s;
  sv_pending_block_aggregates := sv_pending_block_aggregates s; sv_published := sv_published s;
  sv_database := sv_database s; sv_reorg_depths := sv_reorg_depths s ++ option_list reorg |}.
Definition with_buffers (attestations : list SignedAttestation) (aggregated : list SignedAggregatedAttestation)
    (s : SyncService) : SyncService := {|
  sv_store := sv_store s; sv_backfill := sv_backfill s; sv_state := sv_state s; sv_is_aggregator := sv_is_aggregator s;
  sv_has_publisher := sv_has_publisher s; sv_blocks_processed := sv_blocks_processed s;
  sv_pending_attestations := attestations; sv_pending_aggregated_attestations := aggregated;
  sv_pending_block_aggregates := sv_pending_block_aggregates s; sv_published := sv_published s;
  sv_database := sv_database s; sv_reorg_depths := sv_reorg_depths s |}.
(** Publish the queued aggregates when a publisher is wired, or drop them. *)
Definition publish_block_aggregates (s : SyncService) : SyncService := {|
  sv_store := sv_store s; sv_backfill := sv_backfill s; sv_state := sv_state s; sv_is_aggregator := sv_is_aggregator s;
  sv_has_publisher := sv_has_publisher s; sv_blocks_processed := sv_blocks_processed s;
  sv_pending_attestations := sv_pending_attestations s;
  sv_pending_aggregated_attestations := sv_pending_aggregated_attestations s;
  sv_pending_block_aggregates := [];
  sv_published := sv_published s ++ (if sv_has_publisher s then sv_pending_block_aggregates s else []);
  sv_database := sv_database s; sv_reorg_depths := sv_reorg_depths s |}.

(** ** Processing a block *)

(** [ancestors]: the roots from [root] up to the first parent missing from the store *)
Fixpoint chain_roots (fuel : nat) (blocks : dict Bytes32 Block) (seen : list Bytes32) (root : Bytes32)
    : result (list Bytes32) :=
  match dget root blocks with
  | None => Ok seen
  | Some block =>
      match fuel with
      | O => Err OutOfFuel
      | S fuel => chain_roots fuel blocks (sadd root seen) (bk_parent_root block)
      end
  end.

(** Blocks of the old chain that are not on the new one *)
Definition reorg_depth (blocks : dict Bytes32 Block) (old_head new_head : Bytes32) : result Z :=
  old ← chain_roots (length blocks) blocks [] old_head;
  new ← chain_roots (length blocks) blocks [] new_head;
  Ok (Zlen (sdiff old new)).

(** The batch of [_persist_block] *)
Definition _persist_block (store : Store) (block : Block) : list db_write :=
  let block_root := hash_tree_root block in
  [put_block block block_root] ++
  match dget block_root (sto_states store) with
  | Some post_state =>
      [put_state post_state block_root; put_block_root_by_state_root (hash_tree_root post_state) block_root]
  | None => []
  end ++
  [put_block_root_by_slot (bk_slot block) block_root; put_head_root (sto_head store);
   put_justified_checkpoint (sto_latest_justified store); put_finalized_checkpoint (sto_latest_finalized store)] ++
  (if cp_slot (sto_latest_finalized store) >? 0
   then [prune_before_slot (cp_slot (sto_latest_finalized store)) [cp_root (sto_latest_finalized store)]]
   else []).

Section Service.
Context `{Crypto} `{SetOrder} `{Network}.

(** The keys of each attestation of a block, then the proposer's *)
Definition block_public_keys (validators : list Validator) (block : Block) : result (list (list ssz_value)) :=
  attestation_keys ← mapM (fun a =>
    indices ← to_validator_indices (aa_bits a); mapM (attestation_key validators) indices)
    (bd_attestations (bk_body block));
  v ← of_option IndexError (validators !! Z.to_nat (bk_proposer_index block));
  proposer_key ← PublicKey_decode_bytes (val_proposal_public_key v);
  Ok (attestation_keys ++ [[proposer_key]]).

Definition local_proofs_by_root (pool : ProofPool) : dict Bytes32 (list SingleMessageAggregate) :=
  foldl (fun d e => dset (hash_tree_root e.1) (default [] (dget (hash_tree_root e.1) d) ++ e.2) d) [] pool.

(** The proof of one attestation of the block, merged with the local ones *)
Definition recover_proof (validators : list Validator) (block : SignedBlock) (keys : list (list ssz_value))
    (local_proofs : list SingleMessageAggregate) (a : AggregatedAttestation) : result SingleMessageAggregate :=
  let data_root := hash_tree_root (aa_data a) in
  split ← mma_split_by_message (sb_proof block) data_root keys (aa_bits a);
  match local_proofs with
  | [] => Ok split
  | _ =>
      children ← mapM (child_with_keys validators) (split :: local_proofs);
      sma_aggregate children [] data_root (ad_slot (aa_data a))
  end.

(** Drop the superseded partials of the pool's entries with this data root. *)
Definition drop_superseded (data_root : Bytes32) (superseded : list SingleMessageAggregate) (pool : ProofPool) : ProofPool :=
  omap (fun e =>
    if bool_decide (hash_tree_root e.1 = data_root)
    then match sdiff e.2 superseded with [] => None | remaining => Some (e.1, remaining) end
    else Some e) pool.

Definition deconstruct_attestation (store : Store) (validators : list Validator) (block : SignedBlock)
    (keys : list (list ssz_value)) (local : dict Bytes32 (list SingleMessageAggregate))
    (acc : ProofPool * list SignedAggregatedAttestation) (a : AggregatedAttestation)
    : result (ProofPool * list SignedAggregatedAttestation) :=
  let '(new_payloads, aggregates) := acc in
  let data := aa_data a in
  if cp_slot (ad_target data) <=? cp_slot (sto_latest_justified store) then Ok acc
  else
    let data_root := hash_tree_root data in
    block_participants ← to_validator_indices (aa_bits a);
    let local_proofs := default [] (dget data_root local) in
    local_indices ← mapM (fun p => to_validator_indices (sma_participants p)) local_proofs;
    if Zlen (sdiff (set_of block_participants) (set_of (mjoin local_indices))) =? 0 then Ok acc
    else
      match recover_proof validators block keys local_proofs a with
      | Err (AggregationError | AssertionError | SpecRejectionError _ | KeyError | ValueError) => Ok acc
      | Err e => Err e
      | Ok combined =>
          let new_payloads :=
            match local_proofs with [] => new_payloads | _ => drop_superseded data_root (set_of local_proofs) new_payloads end in
          Ok (dset data (sadd combined (default [] (dget data new_payloads))) new_payloads,
              aggregates ++ [{| saa_data := data; saa_proof := combined |}])
      end.

Definition _deconstruct_block_into_store (store : Store) (block : SignedBlock)
    : result (Store * list SignedAggregatedAttestation) :=
  let attestations := bd_attestations (bk_body (sb_block block)) in
  if Zlen attestations =? 0 then Ok (store, [])
  else
    match dget (bk_parent_root (sb_block block)) (sto_states store) with
    | None => Ok (store, [])
    | Some parent_state =>
        let validators := st_validators parent_state in
        keys ← block_public_keys validators (sb_block block);
        let pool := sto_latest_new_aggregated_payloads store in
        '(new_payloads, aggregates) ←
          foldM (deconstruct_attestation store validators block keys (local_proofs_by_root pool)) (pool, []) attestations;
        Ok (if Zlen aggregates =? 0 then store
            else store_with_pools store (sto_attestation_signatures store) new_payloads
                   (sto_latest_known_aggregated_payloads store), aggregates)
    end.

Definition process_block (store : Store) (block : SignedBlock) : M SyncService Store :=
  new_store ← raising (on_block store block);
  _ ← raising (dgetitem (sto_head new_store) (sto_blocks new_store));
  _ ← raising (dgetitem (sto_safe_target new_store) (sto_blocks new_store));
  reorg ← raising (if decide (sto_head new_store = sto_head store) then Ok None
                   else Some <$> reorg_depth (sto_blocks new_store) (sto_head store) (sto_head new_store));
  _ ← modify (count_block reorg);
  '(new_store, aggregates) ← raising (_deconstruct_block_into_store new_store block);
  _ ← modify (with_processed aggregates (_persist_block new_store (sb_block block)));
  mret new_store.

(** ** Head sync *)
Definition service_cache (s : SyncService) : BlockCache := bf_cache (sv_backfill s).
Definition update_cache (f : BlockCache -> BlockCache) (s : SyncService) : SyncService :=
  with_backfill (with_cache f (sv_backfill s)) s.
Definition drop_cached (root : Bytes32) : M SyncService unit := modify (update_cache (fun c => (cache_remove root c).2)).

(** The children of one unlocked parent: the store, and the children processed *)
Fixpoint drain_children (children : list PendingBlock) (store : Store) (unlocked : list Bytes32)
    : M SyncService (Store * list Bytes32) :=
  match children with
  | [] => mret (store, unlocked)
  | child :: children =>
      if dmem (pb_root child) (sto_blocks store) then
        _ ← drop_cached (pb_root child);
        drain_children children store unlocked
      else
        processed ← catch (store ← process_block store (pb_block child); mret (Some store)) (fun _ => mret None);
        match processed with
        | None => drain_children children store unlocked
        | Some store =>
            _ ← drop_cached (pb_root child);
            drain_children children store (unlocked ++ [pb_root child])
        end
  end.

Fixpoint drain (fuel : nat) (unlocked_parents : list Bytes32) (store : Store) : M SyncService Store :=
  match unlocked_parents with
  | [] => mret store
  | parent :: unlocked_parents =>
      match fuel with
      | O => raising (Err OutOfFuel)
      | S fuel =>
          children ← gets (fun s => get_children parent (service_cache s));
          '(store, unlocked) ← drain_children children store [];
          drain fuel (unlocked_parents ++ unlocked) store
      end
  end.

Definition store_view (store : Store) : StoreView := {|
  has_root := fun root => dmem root (sto_blocks store);
  head_slot := b ← dgetitem (sto_head store) (sto_blocks store); Ok (bk_slot b)
|}.

(** A call of the backfill component, reading the store of the service *)
Definition run_backfill {A} (m : StoreView -> M BackfillState A) : M SyncService A := fun s =>
  zoom sv_backfill with_backfill (m (store_view (sv_store s))) s.

Definition head_on_gossip_block (block : SignedBlock) (peer_id : option PeerId) (store : Store)
    : M SyncService (option Store) :=
  let block_inner := sb_block block in
  let block_root := hash_tree_root block_inner in
  if dmem block_root (sto_blocks store) then mret None
  else if negb (dmem (bk_parent_root block_inner) (sto_blocks store)) then
    if bk_slot block_inner <=? cp_slot (sto_latest_finalized store) then mret None
    else
      cached ← run_backfill (fun _ => cache_block block peer_id 0);
      _ ← modify (update_cache (mark_orphan (pb_root cached)));
      head ← raising (dgetitem (sto_head store) (sto_blocks store));
      range_fetched ← run_backfill (fun view => fill_gap_above_head (backfill view) (bk_slot block_inner) (bk_slot head));
      _ ← (if range_fetched : bool then mret tt
           else run_backfill (fun view => backfill view (Missing [bk_parent_root block_inner])));
      mret None
  else
    processed ← catch (store ← process_block store block; mret (Some store)) (fun _ => mret None);
    match processed with
    | None => mret None
    | Some store =>
        _ ← drop_cached block_root;
        fuel ← gets (fun s => S (length (bc_blocks (service_cache s))));
        store ← drain fuel [block_root] store;
        mret (Some store)
    end.

(** ** Buffered votes *)

(** [deque(maxlen=MAX_PENDING_ATTESTATIONS).append] *)
Definition push_bounded {A} (l : list A) (x : A) : list A :=
  drop (length (l ++ [x]) - Z.to_nat MAX_PENDING_ATTESTATIONS) (l ++ [x]).

Definition bufferable (reason : RejectionReason) : bool :=
  match reason with UNKNOWN_SOURCE_BLOCK | UNKNOWN_TARGET_BLOCK | UNKNOWN_HEAD_BLOCK => true | _ => false end.

(** What the handlers distinguish: integrated, waiting for a block, rejected *)
Inductive integration := Integrated (store : Store) | UnknownAttestationBlock | Rejected.

Definition integrate (r : result Store) : result integration :=
  match r with
  | Ok store => Ok (Integrated store)
  | Err (SpecRejectionError reason) => Ok (if bufferable reason then UnknownAttestationBlock else Rejected)
  | Err e => Err e
  end.

Definition aggregator_role (s : SyncService) : bool :=
  match sto_validator_index (sv_store s) with Some _ => sv_is_aggregator s | None => false end.

Definition buffer_attestation (a : SignedAttestation) (s : SyncService) : SyncService :=
  with_buffers (push_bounded (sv_pending_attestations s) a) (sv_pending_aggregated_attestations s) s.
Definition buffer_aggregated (a : SignedAggregatedAttestation) (s : SyncService) : SyncService :=
  with_buffers (sv_pending_attestations s) (push_bounded (sv_pending_aggregated_attestations s) a) s.

Definition take_attestation (is_aggregator : bool) (a : SignedAttestation) : M SyncService unit :=
  store ← gets sv_store;
  r ← raising (integrate (on_gossip_attestation store a is_aggregator));
  match r with
  | Integrated store => modify (with_store store)
  | UnknownAttestationBlock => modify (buffer_attestation a)
  | Rejected => mret tt
  end.

Definition take_aggregated (a : SignedAggregatedAttestation) : M SyncService unit :=
  store ← gets sv_store;
  r ← raising (integrate (on_gossip_aggregated_attestation store a));
  match r with
  | Integrated store => modify (with_store store)
  | UnknownAttestationBlock => modify (buffer_aggregated a)
  | Rejected => mret tt
  end.

Definition _replay_pending_attestations : M SyncService unit :=
  role ← gets aggregator_role;
  pending ← gets sv_pending_attestations;
  _ ← modify (fun s => with_buffers [] (sv_pending_aggregated_attestations s) s);
  _ ← for_each pending (take_attestation role);
  pending ← gets sv_pending_aggregated_attestations;
  _ ← modify (fun s => with_buffers (sv_pending_attestations s) [] s);
  for_each pending take_aggregated.

(** ** The state machine *)
Definition _transition_to (new_state : SyncState) : M SyncService unit :=
  state ← gets sv_state;
  if bool_decide (new_state = state) || (bool_decide (state = IDLE) && bool_decide (new_state = SYNCED))
  then raising (Err ValueError)
  else modify (with_state new_state).

Definition head_slot_of (s : SyncService) : result Z := head_slot (store_view (sv_store s)).

Definition _check_sync_complete : M SyncService unit :=
  state ← gets sv_state;
  if negb (bool_decide (state = SYNCING)) then mret tt
  else
    orphans ← gets (fun s => orphan_count (service_cache s));
    if orphans >? 0 then mret tt
    else
      network_finalized ← gets (fun s => get_network_finalized_slot (bf_peers (sv_backfill s)));
      match network_finalized with
      | None => mret tt
      | Some finalized =>
          head ← gets head_slot_of;
          head ← raising head;
          if finalized <=? head then _transition_to SYNCED else mret tt
      end.

Definition update_peers (f : Peers -> Peers) (s : SyncService) : SyncService :=
  with_backfill (with_peers f (sv_backfill s)) s.

Definition on_peer_status (peer_id : PeerId) (status : Status) : M SyncService unit :=
  _ ← modify (update_peers (update_status peer_id status));
  state ← gets sv_state;
  if bool_decide (state = SYNCING) then mret tt
  else
    network_finalized ← gets (fun s => get_network_finalized_slot (bf_peers (sv_backfill s)));
    match network_finalized with
    | None => mret tt
    | Some finalized =>
        head ← gets head_slot_of;
        head ← raising head;
        if (head <? finalized) || bool_decide (state = IDLE) then _transition_to SYNCING else mret tt
    end.

Definition sync_on_gossip_block (block : SignedBlock) (peer_id : option PeerId) : M SyncService unit :=
  state ← gets sv_state;
  if negb (accepts_gossip state) then mret tt
  else
    store ← gets sv_store;
    new_store ← head_on_gossip_block block peer_id store;
    _ ← match new_store with
        | None => mret tt
        | Some store =>
            _ ← modify (with_store store);
            _ ← _replay_pending_attestations;
            modify publish_block_aggregates
        end;
    _check_sync_complete.

Definition sync_on_gossip_attestation (a : SignedAttestation) : M SyncService unit :=
  state ← gets sv_state;
  if negb (accepts_gossip state) then mret tt
  else role ← gets aggregator_role; take_attestation role a.

Definition sync_on_gossip_aggregated_attestation (a : SignedAggregatedAttestation) : M SyncService unit :=
  state ← gets sv_state;
  if negb (accepts_gossip state) then mret tt else take_aggregated a.

(** ** Events (networking/service) *)
Inductive NetworkEvent :=
| GossipBlockEvent (block : SignedBlock) (peer_id : PeerId) (topic : GossipTopic)
| GossipAttestationEvent (attestation : SignedAttestation) (peer_id : PeerId) (topic : GossipTopic)
| GossipAggregatedAttestationEvent (signed_attestation : SignedAggregatedAttestation) (peer_id : PeerId) (topic : GossipTopic)
| PeerStatusEvent (peer_id : PeerId) (status : Status)
| PeerConnectedEvent (peer_id : PeerId)
| PeerDisconnectedEvent (peer_id : PeerId).

Definition _handle_event (event : NetworkEvent) : M SyncService unit :=
  match event with
  | GossipBlockEvent block peer_id _ => sync_on_gossip_block block (Some peer_id)
  | GossipAttestationEvent a _ _ => sync_on_gossip_attestation a
  | GossipAggregatedAttestationEvent a _ _ => sync_on_gossip_aggregated_attestation a
  | PeerStatusEvent peer_id status => on_peer_status peer_id status
  | PeerConnectedEvent peer_id =>
      modify (update_peers (add_peer {| pi_peer_id := peer_id; pi_state := CONNECTED |}))
  | PeerDisconnectedEvent peer_id => modify (update_peers (remove_peer peer_id))
  end.
End Service.
