(* ===== verification/ChainService.v ===== *)
(** * The slot clock and the chain service (node/chain/clock.py, service.py)

    The clock converts wall-clock time to slots and intervals; the service ticks the store
    of the sync service forward to it.  Between two ticks it yields to the event loop, so
    the events that other tasks handle there are part of the model. *)

From S2P Require Import Prelude Pydict Uint Ssz Sha256 Merkle Containers StateTransition Proofs Signatures.
From S2P Require Import ForkChoice Aggregation SszRecords BlockCache PeerManager StateMonad Backfill SyncService.

(** A reading of the clock is a number of microseconds; [int] truncates. *)
Definition milliseconds (now : Z) : Z := Z.quot now 1000.

Definition _milliseconds_since_genesis (genesis_time now : Z) : result Z :=
  let now_ms := milliseconds now in
  let genesis_ms := genesis_time * 1000 in
  if now_ms <? genesis_ms then uint_new 64 0 else uint_new 64 (now_ms - genesis_ms).

Definition current_slot (genesis_time now : Z) : result Z :=
  ms ← _milliseconds_since_genesis genesis_time now;
  uint_floordiv 64 ms MILLISECONDS_PER_SLOT.

Definition current_interval (genesis_time now : Z) : result Z :=
  ms ← _milliseconds_since_genesis genesis_time now;
  milliseconds_into_slot ← uint_mod 64 ms MILLISECONDS_PER_SLOT;
  uint_floordiv 64 milliseconds_into_slot MILLISECONDS_PER_INTERVAL.

Definition total_intervals (genesis_time now : Z) : result Z :=
  ms ← _milliseconds_since_genesis genesis_time now;
  uint_floordiv 64 ms MILLISECONDS_PER_INTERVAL.

Definition current_time (now : Z) : result Z := uint_new 64 (Z.quot now 1000000).

(** In milliseconds, which the code divides by 1000 *)
Definition seconds_until_next_interval (genesis_time now : Z) : result Z :=
  let now_milliseconds := milliseconds now in
  let genesis_milliseconds := genesis_time * 1000 in
  if now_milliseconds <? genesis_milliseconds then Ok (genesis_milliseconds - now_milliseconds)
  else
    ms ← _milliseconds_since_genesis genesis_time now;
    Ok (MILLISECONDS_PER_INTERVAL - ms mod MILLISECONDS_PER_INTERVAL).

(** The readings of the clock, and the events other tasks handle at each yield *)
Class World := {
  wall_clock : nat -> Z;
  events_at : nat -> list NetworkEvent
}.

Record ChainService := {
  ch_sync : SyncService;
  ch_running : bool;
  ch_readings : nat;
  ch_yields : nat
}.
Definition with_sync (sync : SyncService) (s : ChainService) : ChainService :=
  {| ch_sync := sync; ch_running := ch_running s; ch_readings := ch_readings s; ch_yields := ch_yields s |}.
Definition with_running (running : bool) (s : ChainService) : ChainService :=
  {| ch_sync := ch_sync s; ch_running := running; ch_readings := ch_readings s; ch_yields := ch_yields s |}.

Section Service.
Context `{Crypto} `{SetOrder} `{Network} `{World} (genesis_time : Z).

(** A call of the clock reads the time once. *)
Definition read_clock {A} (f : Z -> result A) : M ChainService A := fun s =>
  (f (wall_clock (ch_readings s)),
   {| ch_sync := ch_sync s; ch_running := ch_running s; ch_readings := S (ch_readings s); ch_yields := ch_yields s |}).

(** [await asyncio.sleep(0)]: the other tasks run. *)
Definition yield_to_loop : M ChainService unit := fun s =>
  let '(r, sync) := for_each (events_at (ch_yields s)) _handle_event (ch_sync s) in
  (r, {| ch_sync := sync; ch_running := ch_running s; ch_readings := ch_readings s; ch_yields := S (ch_yields s) |}).

Definition sync_store (s : ChainService) : Store := sv_store (ch_sync s).
Definition set_store (store : Store) (s : ChainService) : ChainService := with_sync (with_store store (ch_sync s)) s.

(** The loop of [_tick_to]: each turn advances the time by one interval. *)
Fixpoint tick_loop (fuel : nat) (target_interval : Z) (store : Store) (all_new : list SignedAggregatedAttestation)
    : M ChainService (list SignedAggregatedAttestation) :=
  if sto_time store <? target_interval then
    match fuel with
    | O => raising (Err OutOfFuel)
    | S fuel =>
        role ← gets (fun s => sv_is_aggregator (ch_sync s));
        '(store, new_aggregates) ← raising (tick_interval store false role);
        _ ← modify (set_store store);
        _ ← yield_to_loop;
        store ← gets sync_store;
        tick_loop fuel target_interval store (all_new ++ new_aggregates)
    end
  else mret all_new.

Definition _tick_to (target_interval : Z) : M ChainService (list SignedAggregatedAttestation) :=
  store ← gets sync_store;
  if target_interval <=? sto_time store then mret []
  else
    behind ← raising (uint_sub 64 target_interval (sto_time store));
    store ← (if behind >? INTERVALS_PER_SLOT then
               time ← raising (uint_sub 64 target_interval INTERVALS_PER_SLOT);
               mret (store_with_time store time)
             else mret store);
    tick_loop (Z.to_nat INTERVALS_PER_SLOT) target_interval store [].

Definition _initial_tick : M ChainService Z :=
  now ← read_clock current_time;
  if now <? genesis_time then mret 0
  else
    target_interval ← read_clock (total_intervals genesis_time);
    _ ← _tick_to target_interval;
    mret target_interval.

(** [for aggregate in ...: await publish(aggregate)], when a publisher is wired *)
Definition publish_aggregates (aggregates : list SignedAggregatedAttestation) (s : SyncService) : SyncService :=
  if sv_has_publisher s then {|
    sv_store := sv_store s; sv_backfill := sv_backfill s; sv_state := sv_state s; sv_is_aggregator := sv_is_aggregator s;
    sv_has_publisher := sv_has_publisher s; sv_blocks_processed := sv_blocks_processed s;
    sv_pending_attestations := sv_pending_attestations s;
    sv_pending_aggregated_attestations := sv_pending_aggregated_attestations s;
    sv_pending_block_aggregates := sv_pending_block_aggregates s; sv_published := sv_published s ++ aggregates;
    sv_database := sv_database s; sv_reorg_depths := sv_reorg_depths s |}
  else s.

(** One turn of the loop of [run]: the interval handled last *)
Definition chain_turn (last_handled : Z) : M ChainService Z :=
  total_interval ← read_clock (total_intervals genesis_time);
  now ← read_clock current_time;
  if (now <? genesis_time) || (total_interval <=? last_handled) then
    _ ← read_clock (seconds_until_next_interval genesis_time);
    _ ← yield_to_loop;
    mret last_handled
  else
    new_aggregates ← _tick_to total_interval;
    _ ← modify (fun s => with_sync (publish_aggregates new_aggregates (ch_sync s)) s);
    _ ← read_clock (current_slot genesis_time);
    mret total_interval.

(** [while self._running], for the first [turns] turns *)
Fixpoint chain_loop (turns : nat) (last_handled : Z) : M ChainService Z :=
  match turns with
  | O => mret last_handled
  | S turns =>
      running ← gets ch_running;
      if negb running then mret last_handled
      else last_handled ← chain_turn last_handled; chain_loop turns last_handled
  end.

Definition chain_run (turns : nat) : M ChainService Z :=
  _ ← modify (with_running true);
  last_handled ← _initial_tick;
  chain_loop turns last_handled.

Definition chain_stop : M ChainService unit := modify (with_running false).
End Service.
