(* ===== verification/Duties.v ===== *)
(** * Block production and validator duties (block_production.py, validator_duties.py)

    The proposer's fixed-point selection of votes, the assembly of the block, the
    attestation target and the vote a validator casts.  [Selection] holds the locals
    the selection loop updates. *)

From S2P Require Import Prelude Pydict Uint Ssz SszCorrect Sha256 Merkle Containers.
From S2P Require Import StateTransition Proofs Signatures ForkChoice Aggregation.

(** [AggregatedAttestations(data=...)] *)
Definition AggregatedAttestations_new (data : list AggregatedAttestation)
    : result (list AggregatedAttestation) :=
  check! Zlen data <=? VALIDATOR_REGISTRY_LIMIT else SSZValueError;; Ok data.

Record Selection := {
  sel_justified : Checkpoint;
  sel_finalized_slot : Z;
  sel_justified_slots : list bool;
  sel_processed : list AttestationData;
  sel_attestations : list AggregatedAttestation;
  sel_signatures : list SingleMessageAggregate
}.

(** The candidate passes every filter of the scan. *)
Definition eligible_vote (known_block_roots : list Bytes32) (hashes : list Bytes32) (sel : Selection)
    (data : AttestationData) : result bool :=
  if negb (bool_decide (cp_root (ad_head data) ∈ known_block_roots)) then Ok false
  else if negb (cp_slot (ad_source data) =? cp_slot (sel_justified sel)) then Ok false
  else if negb (lies_on_chain data hashes) then Ok false
  else
    source_justified ←
      is_slot_justified (sel_justified_slots sel) (sel_finalized_slot sel) (cp_slot (ad_source data));
    if negb source_justified then Ok false
    else
      let is_genesis_self_vote :=
        (cp_slot (ad_source data) =? 0) && (cp_slot (ad_target data) =? 0) in
      if is_genesis_self_vote then Ok true
      else
        target_justified ←
          is_slot_justified (sel_justified_slots sel) (sel_finalized_slot sel)
            (cp_slot (ad_target data));
        Ok (negb target_justified).

(** Accept one entry: its chosen proofs, one attestation per proof. *)
Definition accept_entry (sel : Selection) (data : AttestationData)
    (proofs : list SingleMessageAggregate) : result Selection :=
  '(selected_proofs, _) ← select_proofs_for_coverage proofs [];
  Ok {|
    sel_justified := sel_justified sel;
    sel_finalized_slot := sel_finalized_slot sel;
    sel_justified_slots := sel_justified_slots sel;
    sel_processed := sadd data (sel_processed sel);
    sel_attestations :=
      sel_attestations sel ++
        map (fun proof => {| aa_bits := sma_participants proof; aa_data := data |}) selected_proofs;
    sel_signatures := sel_signatures sel ++ selected_proofs
  |}.

(** One pass over the candidates; the flag is [found_new_entries]. *)
Fixpoint scan_candidates (known_block_roots hashes : list Bytes32)
    (candidates : list (AttestationData * list SingleMessageAggregate)) (sel : Selection) (found : bool)
    : result (Selection * bool) :=
  match candidates with
  | [] => Ok (sel, found)
  | (data, proofs) :: rest =>
      if bool_decide (data ∈ sel_processed sel)
      then scan_candidates known_block_roots hashes rest sel found
      else if MAX_ATTESTATIONS_DATA <=? Zlen (sel_processed sel) then Ok (sel, found)
      else
        ok ← eligible_vote known_block_roots hashes sel data;
        if (ok : bool) then
          sel ← accept_entry sel data proofs;
          scan_candidates known_block_roots hashes rest sel true
        else scan_candidates known_block_roots hashes rest sel found
  end.

(** [sorted(payloads.items(), key=lambda item: item[0].target.slot)], stable *)
Fixpoint insert_candidate (c : AttestationData * list SingleMessageAggregate)
    (l : list (AttestationData * list SingleMessageAggregate)) :=
  match l with
  | [] => [c]
  | x :: l' =>
      if cp_slot (ad_target c.1) <=? cp_slot (ad_target x.1) then c :: l
      else x :: insert_candidate c l'
  end.
Definition candidates_in_target_slot_order (payloads : ProofPool) := foldr insert_candidate [] payloads.

Definition unsealed_block (slot proposer_index : Z) (parent_root : Bytes32)
    (attestations : list AggregatedAttestation) : Block := {|
  bk_slot := slot;
  bk_proposer_index := proposer_index;
  bk_parent_root := parent_root;
  bk_state_root := ZERO_HASH;
  bk_body := {| bd_attestations := attestations |}
|}.

(** Re-anchor the selection on a trial post-state. *)
Definition reanchor (sel : Selection) (post_state : State) : Selection := {|
  sel_justified := st_latest_justified post_state;
  sel_finalized_slot := cp_slot (st_latest_finalized post_state);
  sel_justified_slots := st_justified_slots post_state;
  sel_processed := sel_processed sel;
  sel_attestations := sel_attestations sel;
  sel_signatures := sel_signatures sel
|}.

(** The [while True] loop: scan, apply a trial block, repeat while justification or
    finalization moved.  Every repeated turn accepted at least one new data entry. *)
Fixpoint select_rounds (fuel : nat) (advanced_state : State) (known_block_roots hashes : list Bytes32)
    (candidates : list (AttestationData * list SingleMessageAggregate))
    (block : list AggregatedAttestation -> Block) (sel : Selection) : result Selection :=
  '(sel, found_new_entries) ← scan_candidates known_block_roots hashes candidates sel false;
  if negb found_new_entries then Ok sel
  else
    attestations ← AggregatedAttestations_new (sel_attestations sel);
    post_state ← process_block advanced_state (block attestations);
    if negb (bool_decide (st_latest_justified post_state = sel_justified sel))
       || negb (cp_slot (st_latest_finalized post_state) =? sel_finalized_slot sel)
    then
      match fuel with
      | O => Err OutOfFuel
      | S fuel =>
          select_rounds fuel advanced_state known_block_roots hashes candidates block
            (reanchor sel post_state)
      end
    else Ok sel.

(** Group the proofs by the data they attest to. *)
Definition add_signature (groups : ProofPool) (p : AggregatedAttestation * SingleMessageAggregate)
    : ProofPool :=
  dset (aa_data p.1) (default [] (dget (aa_data p.1) groups) ++ [p.2]) groups.
Definition group_signatures (pairs : list (AggregatedAttestation * SingleMessageAggregate)) : ProofPool :=
  foldl add_signature [] pairs.

Section BuildBlock.
Context `{Crypto}.

(** One proof per data: as it is, or merged with every proof as a child. *)
Definition merge_group (validators : list Validator)
    (group : AttestationData * list SingleMessageAggregate)
    : result (AggregatedAttestation * SingleMessageAggregate) :=
  let '(data, grouped_signatures) := group in
  signature ←
    match grouped_signatures with
    | [signature] => Ok signature
    | _ =>
        children ← mapM (child_with_keys validators) grouped_signatures;
        sma_aggregate children [] (hash_tree_root data) (ad_slot data)
    end;
  Ok ({| aa_bits := sma_participants signature; aa_data := data |}, signature).

(** The attestations and proofs of a block built from non-empty payloads. *)
Definition select_payload (state advanced_state : State) (slot proposer_index : Z)
    (parent_root : Bytes32) (known_block_roots : list Bytes32) (aggregated_payloads : ProofPool)
    : result (list (AggregatedAttestation * SingleMessageAggregate)) :=
  let current_justified_checkpoint :=
    if hd_slot (st_latest_block_header state) =? 0
    then {| cp_root := parent_root; cp_slot := 0 |} else st_latest_justified state in
  let current_finalized_slot := cp_slot (st_latest_finalized state) in
  previous_slot ← uint_sub 64 slot 1;
  current_justified_slots ←
    extend_to_slot (st_justified_slots state) current_finalized_slot previous_slot;
  gap ← uint_sub 64 slot (hd_slot (st_latest_block_header state));
  num_empty_slots ← uint_sub 64 gap 1;
  let extended_historical_block_hashes :=
    st_historical_block_hashes state ++ [parent_root] ++ repeat ZERO_HASH (Z.to_nat num_empty_slots) in
  sel ← select_rounds (Z.to_nat MAX_ATTESTATIONS_DATA) advanced_state known_block_roots
          extended_historical_block_hashes (candidates_in_target_slot_order aggregated_payloads)
          (unsealed_block slot proposer_index parent_root)
          {| sel_justified := current_justified_checkpoint;
             sel_finalized_slot := current_finalized_slot;
             sel_justified_slots := current_justified_slots;
             sel_processed := [];
             sel_attestations := [];
             sel_signatures := [] |};
  pairs ← zip_strict (sel_attestations sel) (sel_signatures sel);
  mapM (merge_group (st_validators state)) (group_signatures pairs).

Definition block_with_state_root (b : Block) (root : Bytes32) : Block := {|
  bk_slot := bk_slot b;
  bk_proposer_index := bk_proposer_index b;
  bk_parent_root := bk_parent_root b;
  bk_state_root := root;
  bk_body := bk_body b
|}.

Definition build_block (state : State) (slot proposer_index : Z) (parent_root : Bytes32)
    (known_block_roots : list Bytes32) (aggregated_payloads : ProofPool)
    : result (Block * State * list AggregatedAttestation * list SingleMessageAggregate) :=
  advanced_state ← process_slots state slot;
  merged ←
    (if Zlen aggregated_payloads =? 0 then Ok []
     else select_payload state advanced_state slot proposer_index parent_root known_block_roots
            aggregated_payloads);
  let merged_attestations := map fst merged in
  let merged_signatures := map snd merged in
  attestations ← AggregatedAttestations_new merged_attestations;
  let final_block := unsealed_block slot proposer_index parent_root attestations in
  post_state ← process_block advanced_state final_block;
  Ok (block_with_state_root final_block (hash_tree_root post_state), post_state,
      merged_attestations, merged_signatures).

(** ** Validator duties *)

(** The bounded walk back toward the safe target. *)
Fixpoint lookback_walk (n : nat) (blocks : dict Bytes32 Block) (lower_bound_slot : Z)
    (target_block_root : Bytes32) : result Bytes32 :=
  match n with
  | O => Ok target_block_root
  | S n =>
      target_block ← dgetitem target_block_root blocks;
      if bk_slot target_block >? lower_bound_slot
      then lookback_walk n blocks lower_bound_slot (bk_parent_root target_block)
      else Ok target_block_root
  end.

(** The walk back to a justifiable slot. *)
Fixpoint justifiable_walk (fuel : nat) (blocks : dict Bytes32 Block) (finalized_slot : Z)
    (target_block_root : Bytes32) : result Bytes32 :=
  target_block ← dgetitem target_block_root blocks;
  if bk_slot target_block <=? finalized_slot then Ok target_block_root
  else
    justifiable ← is_justifiable_after (bk_slot target_block) finalized_slot;
    if (justifiable : bool) then Ok target_block_root
    else
      match fuel with
      | O => Err OutOfFuel
      | S fuel => justifiable_walk fuel blocks finalized_slot (bk_parent_root target_block)
      end.

Definition get_attestation_target (store : Store) : result Checkpoint :=
  safe_target_block ← dgetitem (sto_safe_target store) (sto_blocks store);
  let finalized_slot := cp_slot (sto_latest_finalized store) in
  let lower_bound_slot := Z.max (bk_slot safe_target_block) finalized_slot in
  root ← lookback_walk (Z.to_nat JUSTIFICATION_LOOKBACK_SLOTS) (sto_blocks store) lower_bound_slot
           (sto_head store);
  root ← justifiable_walk (S (length (sto_blocks store))) (sto_blocks store) finalized_slot root;
  target_block ← dgetitem root (sto_blocks store);
  Ok {| cp_root := root; cp_slot := bk_slot target_block |}.

Definition produce_attestation_data (store : Store) (slot : Z) : result AttestationData :=
  head_block ← dgetitem (sto_head store) (sto_blocks store);
  let head_checkpoint := {| cp_root := sto_head store; cp_slot := bk_slot head_block |} in
  target_checkpoint ← get_attestation_target store;
  head_state ← dgetitem (sto_head store) (sto_states store);
  let justified_source :=
    if bool_decide (cp_root (st_latest_justified head_state) = ZERO_HASH)
    then {| cp_root := sto_head store; cp_slot := cp_slot (st_latest_justified head_state) |}
    else st_latest_justified head_state in
  check! cp_slot justified_source <=? cp_slot target_checkpoint else AssertionError;;
  Ok {| ad_slot := slot; ad_head := head_checkpoint; ad_target := target_checkpoint;
        ad_source := justified_source |}.

(** [store.model_copy(update={"blocks": ..., "states": ..., "latest_justified": ...})] *)
Definition store_with_own_block (s : Store) (root : Bytes32) (b : Block) (st : State)
    (justified : Checkpoint) : Store :=
  store_with_block s root b st justified (sto_latest_known_aggregated_payloads s).

Definition produce_block_with_signatures (store : Store) (slot validator_index : Z)
    : result (Store * Block * list SingleMessageAggregate) :=
  target_interval ← interval_from_slot slot;
  '(store, _) ← on_tick store target_interval true false;
  store ← accept_new_attestations store;
  let head_root := sto_head store in
  head_state ← dgetitem head_root (sto_states store);
  proposer ← proposer_for_slot slot (Zlen (st_validators head_state));
  reject! WRONG_PROPOSER when negb (validator_index =? proposer);;
  '(final_block, final_post_state, _, signatures) ←
    build_block head_state slot validator_index head_root (dkeys (sto_blocks store))
      (sto_latest_known_aggregated_payloads store);
  let block_hash := hash_tree_root final_block in
  let latest_justified :=
    advance_to (sto_latest_justified store) (st_latest_justified final_post_state) in
  Ok (store_with_own_block store block_hash final_block final_post_state latest_justified,
      final_block, signatures).
End BuildBlock.
