(* ===== verification/ValidatorService.v ===== *)
(** * The validator service (node/validator/service.py, registry.py, constants.py)

    Drives the duties of the validators whose keys the node holds: it proposes at the
    first interval of a slot, attests from the second one on, and holds back while the
    local view is stale.  The signature scheme is the interface [Signer]; what the other
    tasks of the node do while the service sleeps or awaits is a parameter. *)

From S2P Require Import Prelude Pydict Uint Ssz Sha256 Merkle Containers StateTransition Proofs Signatures.
From S2P Require Import ForkChoice Aggregation Duties SszRecords BlockCache PeerManager StateMonad Backfill SyncService.
From S2P Require Import ChainService.

(** ** Constants *)
Definition SYNC_LAG_THRESHOLD : Z := 4.
Definition NETWORK_STALL_THRESHOLD : Z := 8.
Definition HYSTERESIS_BAND : Z := 2.
Definition ATTESTED_SLOT_RETENTION : Z := 4.

(** ** The scheme, as the service uses it *)
Class Signer := {
  secret_key : Type;
  (** [get_prepared_interval], half-open *)
  prepared_interval : secret_key -> Z * Z;
  advance_key : secret_key -> result secret_key;
  sign_message : secret_key -> Z -> Bytes32 -> result Signature
}.

(** What other tasks do while the service awaits: handle an event, or tick the store *)
Inductive background :=
| Handle (event : NetworkEvent)
| Tick (store : Store).

Class Tasks := {
  time_fn : nat -> Z;
  others_at : nat -> list background
}.

(** ** The registry of keys *)
Record ValidatorEntry `{Signer} := {
  ve_index : Z;
  ve_attestation_secret_key : secret_key;
  ve_proposal_secret_key : secret_key
}.
Inductive key_field := attestation_secret_key | proposal_secret_key.

Section Registry.
Context `{Signer}.
Abbreviation ValidatorRegistry := (dict Z ValidatorEntry).

Definition registry_add (entry : ValidatorEntry) (self : ValidatorRegistry) : ValidatorRegistry := dset (ve_index entry) entry self.
Definition registry_get (index : Z) (self : ValidatorRegistry) : option ValidatorEntry := dget index self.
Definition registry_contains (index : Z) (self : ValidatorRegistry) : bool := dmem index self.
(** [ValidatorIndices(data=list(self._validators.keys()))] *)
Definition registry_indices (self : ValidatorRegistry) : result (list Z) :=
  check! Zlen (dkeys self) <=? VALIDATOR_REGISTRY_LIMIT else SSZValueError;; Ok (dkeys self).
Definition primary_index (self : ValidatorRegistry) : option Z := head (dkeys self).

Definition entry_key (field : key_field) (entry : ValidatorEntry) : secret_key :=
  match field with
  | attestation_secret_key => ve_attestation_secret_key entry
  | proposal_secret_key => ve_proposal_secret_key entry
  end.
(** [replace(validator_entry, **{key_field: secret_key})] *)
Definition replace_key (field : key_field) (key : secret_key) (entry : ValidatorEntry) : ValidatorEntry :=
  match field with
  | attestation_secret_key =>
      {| ve_index := ve_index entry; ve_attestation_secret_key := key; ve_proposal_secret_key := ve_proposal_secret_key entry |}
  | proposal_secret_key =>
      {| ve_index := ve_index entry; ve_attestation_secret_key := ve_attestation_secret_key entry; ve_proposal_secret_key := key |}
  end.

(** [while slot not in get_prepared_interval(key): key = advance_preparation(key)] *)
Fixpoint prepare_key (fuel : nat) (slot : Z) (key : secret_key) : result secret_key :=
  let '(start, stop) := prepared_interval key in
  if (start <=? slot) && (slot <? stop) then Ok key
  else
    match fuel with
    | O => Err OutOfFuel
    | S fuel => key ← advance_key key; prepare_key fuel slot key
    end.
End Registry.

Record ValidatorService `{Signer} := {
  vs_sync : SyncService;
  vs_registry : dict Z ValidatorEntry;
  vs_running : bool;
  vs_blocks_produced : Z;
  vs_attestations_produced : Z;
  vs_attested_slots : list Z;
  vs_duty_gate_closed : bool;
  vs_readings : nat;
  vs_awaits : nat;
  (** Ghost: the uses of the keys, the readings that start a sleep, and those of the slot *)
  vs_signed : list (Z * key_field * Z * Bytes32);
  vs_slept : list nat;
  vs_slot_read : list nat
}.

Section Service.
Context `{Crypto} `{SetOrder} `{Network} `{Signer} `{Tasks} (genesis_time : Z) (sign_fuel : nat).

(** The callbacks, when wired *)
Context (on_block : option (SignedBlock -> M SyncService unit)).
Context (on_attestation : option (SignedAttestation -> M SyncService unit)).

Definition put_sync (sync : SyncService) (s : ValidatorService) : ValidatorService := {|
  vs_sync := sync; vs_registry := vs_registry s; vs_running := vs_running s; vs_blocks_produced := vs_blocks_produced s;
  vs_attestations_produced := vs_attestations_produced s; vs_attested_slots := vs_attested_slots s;
  vs_duty_gate_closed := vs_duty_gate_closed s; vs_readings := vs_readings s; vs_awaits := vs_awaits s; vs_signed := vs_signed s;
  vs_slept := vs_slept s; vs_slot_read := vs_slot_read s |}.
Definition put_registry (registry : dict Z ValidatorEntry) (entry : Z * key_field * Z * Bytes32) (s : ValidatorService)
    : ValidatorService := {|
  vs_sync := vs_sync s; vs_registry := registry; vs_running := vs_running s; vs_blocks_produced := vs_blocks_produced s;
  vs_attestations_produced := vs_attestations_produced s; vs_attested_slots := vs_attested_slots s;
  vs_duty_gate_closed := vs_duty_gate_closed s; vs_readings := vs_readings s; vs_awaits := vs_awaits s;
  vs_signed := vs_signed s ++ [entry]; vs_slept := vs_slept s; vs_slot_read := vs_slot_read s |}.
Definition put_running (running : bool) (s : ValidatorService) : ValidatorService := {|
  vs_sync := vs_sync s; vs_registry := vs_registry s; vs_running := running; vs_blocks_produced := vs_blocks_produced s;
  vs_attestations_produced := vs_attestations_produced s; vs_attested_slots := vs_attested_slots s;
  vs_duty_gate_closed := vs_duty_gate_closed s; vs_readings := vs_readings s; vs_awaits := vs_awaits s; vs_signed := vs_signed s;
  vs_slept := vs_slept s; vs_slot_read := vs_slot_read s |}.
Definition count_produced (blocks attestations : Z) (s : ValidatorService) : ValidatorService := {|
  vs_sync := vs_sync s; vs_registry := vs_registry s; vs_running := vs_running s;
  vs_blocks_produced := vs_blocks_produced s + blocks;
  vs_attestations_produced := vs_attestations_produced s + attestations; vs_attested_slots := vs_attested_slots s;
  vs_duty_gate_closed := vs_duty_gate_closed s; vs_readings := vs_readings s; vs_awaits := vs_awaits s; vs_signed := vs_signed s;
  vs_slept := vs_slept s; vs_slot_read := vs_slot_read s |}.
Definition put_attested (slots : list Z) (s : ValidatorService) : ValidatorService := {|
  vs_sync := vs_sync s; vs_registry := vs_registry s; vs_running := vs_running s; vs_blocks_produced := vs_blocks_produced s;
  vs_attestations_produced := vs_attestations_produced s; vs_attested_slots := slots;
  vs_duty_gate_closed := vs_duty_gate_closed s; vs_readings := vs_readings s; vs_awaits := vs_awaits s; vs_signed := vs_signed s;
  vs_slept := vs_slept s; vs_slot_read := vs_slot_read s |}.
Definition put_gate (closed : bool) (s : ValidatorService) : ValidatorService := {|
  vs_sync := vs_sync s; vs_registry := vs_registry s; vs_running := vs_running s; vs_blocks_produced := vs_blocks_produced s;
  vs_attestations_produced := vs_attestations_produced s; vs_attested_slots := vs_attested_slots s;
  vs_duty_gate_closed := closed; vs_readings := vs_readings s; vs_awaits := vs_awaits s; vs_signed := vs_signed s;
  vs_slept := vs_slept s; vs_slot_read := vs_slot_read s |}.

Definition service_store (s : ValidatorService) : Store := sv_store (vs_sync s).
Definition put_store (store : Store) (s : ValidatorService) : ValidatorService := put_sync (with_store store (vs_sync s)) s.

(** A call of the clock *)
Definition consult {A} (f : Z -> result A) : M ValidatorService A := fun s =>
  (f (time_fn (vs_readings s)), {|
    vs_sync := vs_sync s; vs_registry := vs_registry s; vs_running := vs_running s; vs_blocks_produced := vs_blocks_produced s;
    vs_attestations_produced := vs_attestations_produced s; vs_attested_slots := vs_attested_slots s;
    vs_duty_gate_closed := vs_duty_gate_closed s; vs_readings := S (vs_readings s); vs_awaits := vs_awaits s; vs_signed := vs_signed s;
  vs_slept := vs_slept s; vs_slot_read := vs_slot_read s |}).

(** A method of the sync service *)
Definition on_sync {A} (m : M SyncService A) : M ValidatorService A := zoom vs_sync put_sync m.

Definition run_background (b : background) : M SyncService unit :=
  match b with
  | Handle event => _handle_event event
  | Tick store => modify (with_store store)
  end.

(** [await]: the other tasks run. *)
Definition await : M ValidatorService unit := fun s =>
  let '(r, sync) := for_each (others_at (vs_awaits s)) run_background (vs_sync s) in
  (r, {|
    vs_sync := sync; vs_registry := vs_registry s; vs_running := vs_running s; vs_blocks_produced := vs_blocks_produced s;
    vs_attestations_produced := vs_attestations_produced s; vs_attested_slots := vs_attested_slots s;
    vs_duty_gate_closed := vs_duty_gate_closed s; vs_readings := vs_readings s; vs_awaits := S (vs_awaits s); vs_signed := vs_signed s;
  vs_slept := vs_slept s; vs_slot_read := vs_slot_read s |}).

(** [clock.sleep_until_next_interval] *)
Definition note_sleep (s : ValidatorService) : ValidatorService := {|
  vs_sync := vs_sync s; vs_registry := vs_registry s; vs_running := vs_running s; vs_blocks_produced := vs_blocks_produced s;
  vs_attestations_produced := vs_attestations_produced s; vs_attested_slots := vs_attested_slots s;
  vs_duty_gate_closed := vs_duty_gate_closed s; vs_readings := vs_readings s; vs_awaits := vs_awaits s; vs_signed := vs_signed s;
  vs_slept := vs_readings s :: vs_slept s; vs_slot_read := vs_slot_read s |}.
Definition sleep_until_next_interval : M ValidatorService unit :=
  _ ← modify note_sleep;
  _ ← consult (seconds_until_next_interval genesis_time);
  await.

(** [clock.current_slot] *)
Definition note_slot (s : ValidatorService) : ValidatorService := {|
  vs_sync := vs_sync s; vs_registry := vs_registry s; vs_running := vs_running s; vs_blocks_produced := vs_blocks_produced s;
  vs_attestations_produced := vs_attestations_produced s; vs_attested_slots := vs_attested_slots s;
  vs_duty_gate_closed := vs_duty_gate_closed s; vs_readings := vs_readings s; vs_awaits := vs_awaits s; vs_signed := vs_signed s;
  vs_slept := vs_slept s; vs_slot_read := vs_readings s :: vs_slot_read s |}.
Definition read_slot : M ValidatorService Z :=
  _ ← modify note_slot;
  consult (current_slot genesis_time).

(** ** Signing *)
Definition _sign_with_key (entry : ValidatorEntry) (slot : Z) (message : Bytes32) (field : key_field)
    : M ValidatorService Signature :=
  key ← raising (prepare_key sign_fuel slot (entry_key field entry));
  signature ← raising (sign_message key slot message);
  _ ← modify (fun s => put_registry (registry_add (replace_key field key entry) (vs_registry s))
                         (ve_index entry, field, slot, message) s);
  mret signature.

(** The keys of one attestation proof *)
Definition participant_key (validators : list Validator) (i : Z) : result ssz_value :=
  check! is_within_registry i (Zlen validators) else ValueError;;
  attestation_key validators i.
Definition participant_keys (validators : list Validator) (proof : SingleMessageAggregate) : result (list ssz_value) :=
  indices ← to_validator_indices (sma_participants proof);
  mapM (participant_key validators) indices.

Definition _sign_block (block : Block) (validator_index : Z) (attestation_proofs : list SingleMessageAggregate)
    : M ValidatorService SignedBlock :=
  entry ← gets (fun s => registry_get validator_index (vs_registry s));
  entry ← raising (of_option ValueError entry);
  let block_root := hash_tree_root block in
  proposer_signature ← _sign_with_key entry (bk_slot block) block_root proposal_secret_key;
  store ← gets service_store;
  let key_state :=
    match dget block_root (sto_states store) with Some state => Some state | None => dget (sto_head store) (sto_states store) end in
  key_state ← raising (of_option ValueError key_state);
  let validators := st_validators key_state in
  raising (
    check! is_within_registry validator_index (Zlen validators) else ValueError;;
    v ← of_option IndexError (validators !! Z.to_nat validator_index);
    proposer_public_key ← PublicKey_decode_bytes (val_proposal_public_key v);
    proposer_aggregate ←
      sma_aggregate [] [(validator_index, proposer_public_key, proposer_signature)] block_root (bk_slot block);
    keys ← mapM (participant_keys validators) attestation_proofs;
    merged ← mma_aggregate (attestation_proofs ++ [proposer_aggregate]) (keys ++ [[proposer_public_key]]);
    Ok {| sb_block := block; sb_proof := merged |}).

(** ** Duties *)
Definition max_slot (slots : list Z) (d : Z) : Z :=
  match slots with [] => d | x :: l => foldl Z.max x l end.

(** The verdict, and the gate it leaves *)
Definition gate (closed : bool) (slot head_slot max_seen_slot : Z) : bool * bool :=
  let lag := if head_slot >=? slot then 0 else slot - head_slot in
  let network_lag := if max_seen_slot >=? slot then 0 else slot - max_seen_slot in
  if network_lag >? NETWORK_STALL_THRESHOLD then (true, false)
  else if closed then
    let allow := lag <=? SYNC_LAG_THRESHOLD - HYSTERESIS_BAND in (allow, negb allow)
  else
    let allow := lag <=? SYNC_LAG_THRESHOLD in (allow, negb allow).

Definition _is_synced_for_duties (slot : Z) : M ValidatorService bool :=
  store ← gets service_store;
  match dget (sto_head store) (sto_blocks store) with
  | None => mret true
  | Some head_block =>
      closed ← gets vs_duty_gate_closed;
      let max_seen_slot := max_slot (map bk_slot (dvalues (sto_blocks store))) (bk_slot head_block) in
      let '(allow, closed) := gate closed slot (bk_slot head_block) max_seen_slot in
      _ ← modify (put_gate closed);
      mret allow
  end.

Definition emit {A} (callback : option (A -> M SyncService unit)) (a : A) : M ValidatorService unit :=
  match callback with
  | None => mret tt
  | Some f => _ ← await; on_sync (f a)
  end.

(** [except AssertionError]; a rejection is one. *)
Definition skipping (m : M ValidatorService unit) : M ValidatorService unit :=
  catch m (fun e => match e with AssertionError | SpecRejectionError _ => mret tt | e => raising (Err e) end).

Definition _maybe_produce_block (slot : Z) : M ValidatorService unit :=
  store ← gets service_store;
  match dget (sto_head store) (sto_states store) with
  | None => mret tt
  | Some head_state =>
      let num_validators := Zlen (st_validators head_state) in
      if num_validators =? 0 then mret tt
      else
        expected_proposer ← raising (proposer_for_slot slot num_validators);
        indices ← gets (fun s => registry_indices (vs_registry s));
        _ ← raising indices;
        ours ← gets (fun s => registry_contains expected_proposer (vs_registry s));
        if negb ours then mret tt
        else skipping (
          '(new_store, block, signatures) ← raising (produce_block_with_signatures store slot expected_proposer);
          _ ← modify (put_store new_store);
          signed_block ← _sign_block block expected_proposer signatures;
          _ ← modify (count_produced 1 0);
          emit on_block signed_block)
  end.

Definition slot_has_block (slot : Z) (store : Store) : bool :=
  existsb (fun b => bk_slot b =? slot) (dvalues (sto_blocks store)).

(** [for _ in range(8): await sleep(0.05); if ...: break] *)
Fixpoint wait_for_block (n : nat) (slot : Z) : M ValidatorService unit :=
  match n with
  | O => mret tt
  | S n =>
      _ ← await;
      store ← gets service_store;
      if slot_has_block slot store then mret tt else wait_for_block n slot
  end.

Definition attest (store : Store) (slot validator_index : Z) : M ValidatorService unit :=
  entry ← gets (fun s => registry_get validator_index (vs_registry s));
  entry ← raising (of_option ValueError entry);
  data ← raising (produce_attestation_data store slot);
  signature ← _sign_with_key entry (ad_slot data) (hash_tree_root data) attestation_secret_key;
  let signed := {| sa_validator_index := validator_index; sa_data := data; sa_signature := signature |} in
  _ ← modify (count_produced 0 1);
  role ← gets (fun s => aggregator_role (vs_sync s));
  store ← gets service_store;
  _ ← match on_gossip_attestation store signed role with
      | Ok store => modify (put_store store)
      | Err _ => mret tt
      end;
  emit on_attestation signed.

Definition _produce_attestations (slot : Z) : M ValidatorService unit :=
  store ← gets service_store;
  _ ← (if slot_has_block slot store then mret tt else wait_for_block 8 slot);
  store ← gets service_store;
  store ← raising (update_head store);
  _ ← modify (put_store store);
  match dget (sto_head store) (sto_states store) with
  | None => mret tt
  | Some _ =>
      indices ← gets (fun s => registry_indices (vs_registry s));
      indices ← raising indices;
      for_each indices (attest store slot)
  end.

(** ** The loop *)
Definition mark_attested (slot : Z) (s : ValidatorService) : ValidatorService :=
  put_attested (filter (fun attested => Z.max 0 (slot - ATTESTED_SLOT_RETENTION) <= attested) (sadd slot (vs_attested_slots s))) s.

(** The interval to handle, after a sleep when it was handled already *)
Definition wait_for_interval (last_handled : option Z) : M ValidatorService Z :=
  total_interval ← consult (total_intervals genesis_time);
  let already_handled := match last_handled with Some last => total_interval <=? last | None => false end in
  if already_handled then
    _ ← sleep_until_next_interval;
    consult (total_intervals genesis_time)
  else mret total_interval.

(** The duty of interval 0; the interval it leaves *)
Definition propose (slot interval : Z) : M ValidatorService Z :=
  if interval =? 0 then
    synced ← _is_synced_for_duties slot;
    _ ← (if (synced : bool) then _maybe_produce_block slot else mret tt);
    consult (current_interval genesis_time)
  else mret interval.

(** Attest once per slot. *)
Definition attest_once (slot interval : Z) : M ValidatorService unit :=
  attested ← gets (fun s => bool_decide (slot ∈ vs_attested_slots s));
  if (interval >=? 1) && negb attested then
    synced ← _is_synced_for_duties slot;
    if (synced : bool) then
      _ ← _produce_attestations slot;
      modify (mark_attested slot)
    else mret tt
  else mret tt.

(** One turn: the interval handled last *)
Definition duty_turn (last_handled : option Z) : M ValidatorService (option Z) :=
  total_interval ← wait_for_interval last_handled;
  empty ← gets (fun s => Zlen (vs_registry s) =? 0);
  if (empty : bool) then mret (Some total_interval)
  else
    slot ← read_slot;
    interval ← consult (current_interval genesis_time);
    interval ← propose slot interval;
    _ ← attest_once slot interval;
    total_interval ← consult (total_intervals genesis_time);
    mret (Some total_interval).

Fixpoint duty_loop (turns : nat) (last_handled : option Z) : M ValidatorService (option Z) :=
  match turns with
  | O => mret last_handled
  | S turns =>
      running ← gets vs_running;
      if negb running then mret last_handled
      else last_handled ← duty_turn last_handled; duty_loop turns last_handled
  end.

Definition validator_run (turns : nat) : M ValidatorService (option Z) :=
  _ ← modify (put_running true);
  duty_loop turns None.

Definition validator_stop : M ValidatorService unit := modify (put_running false).
End Service.
