(* ===== verification/Node.v ===== *)
(** * The node (node/node.py, genesis.py)

    The boot sequence: resume from the database, or anchor on the store given, or
    synthesise genesis and persist it; then wire the services around one sync service.
    The callbacks of the validator service publish to the network and process locally. *)

From S2P Require Import Prelude Pydict Uint Ssz Sha256 Merkle Containers StateTransition Proofs Signatures.
From S2P Require Import ForkChoice Aggregation Duties SszRecords BlockCache PeerManager StateMonad Backfill SyncService.
From S2P Require Import Storage ChainService ValidatorService.

(** ** Genesis (genesis.py) *)
Record GenesisValidatorEntry := { ge_attestation_public_key : bytes; ge_proposal_public_key : bytes }.

(** [to_validators]: sequential indices from 0; the list class has the registry limit. *)
Definition to_validators (entries : list GenesisValidatorEntry) : result (list Validator) :=
  check! Zlen entries <=? VALIDATOR_REGISTRY_LIMIT else SSZValueError;;
  Ok (imap (fun i e => {| val_attestation_public_key := ge_attestation_public_key e;
                          val_proposal_public_key := ge_proposal_public_key e; val_index := Z.of_nat i |}) entries).

(** ** Configuration *)
Record NodeConfig := {
  nc_genesis_time : Z;
  nc_validators : list Validator;
  nc_validator_index : option Z;
  nc_is_aggregator : bool;
  nc_anchor_store : option Store
}.

Record Node := {
  nd_store : Store;
  nd_genesis_time : Z;
  nd_sync : SyncService
}.

Section Boot.
Context `{Disk}.

(** ** Loading *)

(** The store of one persisted block *)
Definition resumed_store (time : Z) (validator_index : option Z) (head_root : Bytes32) (head_block : Block) (head_state : State)
    (justified finalized : Checkpoint) : Store := {|
  sto_time := time;
  sto_config := st_config head_state;
  sto_head := head_root;
  sto_safe_target := head_root;
  sto_latest_justified := justified;
  sto_latest_finalized := finalized;
  sto_blocks := [(head_root, head_block)];
  sto_states := [(head_root, head_state)];
  sto_validator_index := validator_index;
  sto_attestation_signatures := [];
  sto_latest_new_aggregated_payloads := [];
  sto_latest_known_aggregated_payloads := []
|}.

Definition _try_load_store_from_database (validator_index : option Z) (genesis_time : option Z) (now : Z)
    : M Connection (option Store) :=
  head_root ← get_head_root;
  match head_root with
  | None => mret None
  | Some head_root =>
      head_block ← get_block head_root;
      head_state ← get_state head_root;
      match head_block, head_state with
      | Some head_block, Some head_state =>
          justified ← get_justified_checkpoint;
          finalized ← get_finalized_checkpoint;
          match justified, finalized with
          | Some justified, Some finalized =>
              genesis_time ← match genesis_time with Some t => mret (Some t) | None => get_genesis_time end;
              wall_clock_intervals ← raising (total_intervals (default 0 genesis_time) now);
              block_intervals ← raising (interval_from_slot (bk_slot head_block));
              mret (Some (resumed_store (Z.max wall_clock_intervals block_intervals) validator_index head_root head_block
                            head_state justified finalized))
          | _, _ => mret None
          end
      | _, _ => mret None
      end
  end.

(** ** Genesis *)
Definition genesis_block_of (state : State) : Block := {|
  bk_slot := 0;
  bk_proposer_index := 0;
  bk_parent_root := ZERO_HASH;
  bk_state_root := hash_tree_root state;
  bk_body := {| bd_attestations := [] |}
|}.

Definition persist_genesis (state : State) (block : Block) (store : Store) (genesis_time : Z) : M Connection unit :=
  let block_root := hash_tree_root block in
  batch_write (
    _ ← put_block block block_root;
    _ ← put_state state block_root;
    _ ← put_head_root block_root;
    _ ← put_justified_checkpoint (sto_latest_justified store);
    _ ← put_finalized_checkpoint (sto_latest_finalized store);
    _ ← put_block_root_by_slot (bk_slot block) block_root;
    _ ← put_block_root_by_state_root (hash_tree_root state) block_root;
    put_genesis_time genesis_time).

(** ** Boot *)

(** A step of the boot that uses the database, when there is one *)
Definition with_database {A} (default_value : A) (m : M Connection A) : M (option Connection) A := fun database =>
  match database with
  | None => (Ok default_value, None)
  | Some c => let '(r, c) := m c in (r, Some c)
  end.

Definition genesis_store (config : NodeConfig) : M (option Connection) Store :=
  let state := generate_genesis (nc_genesis_time config) (nc_validators config) in
  let block := genesis_block_of state in
  store ← raising (create_store state block (nc_validator_index config));
  _ ← with_database tt (persist_genesis state block store (nc_genesis_time config));
  mret store.

(** The services at their start; the publisher is wired. *)
Definition wire (config : NodeConfig) (store : Store) (has_database : bool) : Node := {|
  nd_store := store;
  nd_genesis_time := nc_genesis_time config;
  nd_sync := {|
    sv_store := store;
    sv_backfill := {| bf_peers := []; bf_cache := empty_cache; bf_pending := []; bf_max_range_slot := None;
                      bf_requests := 0; bf_draws := 0 |};
    sv_state := SYNCING;
    sv_is_aggregator := nc_is_aggregator config; sv_has_publisher := true; sv_blocks_processed := 0;
    sv_pending_attestations := []; sv_pending_aggregated_attestations := []; sv_pending_block_aggregates := [];
    sv_published := []; sv_database := if has_database then Some [] else None; sv_reorg_depths := []
  |}
|}.

Definition from_genesis (config : NodeConfig) (now : Z) : M (option Connection) Node :=
  loaded ← with_database None (_try_load_store_from_database (nc_validator_index config) (Some (nc_genesis_time config)) now);
  store ←
    match loaded, nc_anchor_store config with
    | Some store, _ | None, Some store => mret store
    | None, None => genesis_store config
    end;
  has_database ← gets (fun database => match database with Some _ => true | None => false end);
  mret (wire config store has_database).
End Boot.

(** ** The callbacks of the validator service *)
Section Callbacks.
Context `{Crypto} `{SetOrder} `{Network}.

(** What leaves through the network service, in order *)
Inductive published := PublishedBlock (b : SignedBlock) | PublishedAttestation (a : SignedAttestation) (subnet_id : Z).

Definition publish_and_process_block (publish : published -> M SyncService unit) (block : SignedBlock) : M SyncService unit :=
  _ ← publish (PublishedBlock block);
  sync_on_gossip_block block None.

Definition publish_and_process_attestation (publish : published -> M SyncService unit) (attestation : SignedAttestation)
    : M SyncService unit :=
  subnet_id ← raising (compute_subnet_id (sa_validator_index attestation) ATTESTATION_COMMITTEE_COUNT);
  _ ← publish (PublishedAttestation attestation subnet_id);
  sync_on_gossip_attestation attestation.
End Callbacks.
