(* ===== verification/Api.v ===== *)
(** * The HTTP API (node/api/)

    The handlers read the live store of the sync service and write its aggregator flag.
    aiohttp is external: a handler that raises an [HTTPException] is answered with its
    status, one that raises anything else with 500, and an unknown path or method with 404
    or 405.  Bodies in JSON are the response models before they are printed; the bytes of
    the metrics belong to the Prometheus client.  A handler reads one snapshot of the store,
    so that encoding it off the event loop makes no difference to what it answers. *)

From S2P Require Import Prelude Pydict Uint Ssz Sha256 Merkle Containers StateTransition Proofs Signatures.
From S2P Require Import ForkChoice Aggregation SszRecords BlockCache PeerManager StateMonad Backfill SyncService GossipTopic.
From Stdlib Require Import String.

Local Open Scope Z_scope.
Local Open Scope list_scope.

(** ** Response bodies (responses.py) *)
Record CheckpointBody := { cb_slot : Z; cb_root : Bytes32 }.
Record ForkChoiceNode := {
  fn_root : Bytes32;
  fn_slot : Z;
  fn_parent_root : Bytes32;
  fn_proposer_index : Z;
  fn_weight : Z
}.
Record ForkChoiceBody := {
  fb_nodes : list ForkChoiceNode;
  fb_head : Bytes32;
  fb_justified : CheckpointBody;
  fb_finalized : CheckpointBody;
  fb_safe_target : Bytes32;
  fb_validator_count : option Z
}.
Inductive ApiResponseBody :=
| HealthBody (status service : bytes)
| CheckpointJson (body : CheckpointBody)
| ForkChoiceJson (body : ForkChoiceBody)
| AggregatorStatusBody (is_aggregator : bool)
| AggregatorToggleBody (is_aggregator previous : bool).

(** [ErrorPage] is the text that aiohttp writes for an exception. *)
Inductive payload := Json (body : ApiResponseBody) | Raw (data : bytes) | ErrorPage.
Record Response := { re_status : Z; re_content_type : bytes; re_body : payload }.
Definition json_response (body : ApiResponseBody) : Response :=
  {| re_status := 200; re_content_type := str "application/json"; re_body := Json body |}.
Definition ssz_response (data : bytes) : Response :=
  {| re_status := 200; re_content_type := str "application/octet-stream"; re_body := Raw data |}.

(** ** Requests

    What [request.json()] returns *)
Inductive json :=
| JNull
| JBool (b : bool)
| JNumber (text : bytes)
| JString (text : bytes)
| JArray (items : list json)
| JObject (members : dict bytes json).
Inductive Method := GET | HEAD | POST | OtherMethod (name : bytes).
(** [rq_json] is what reading the body as JSON gives: the value, [JSONDecodeError], or
    another exception, as [UnicodeError] for bytes that are not text and the 413 of aiohttp
    for a body that is too large. *)
Record Request := { rq_method : Method; rq_path : bytes; rq_json : result json }.

(** ** Dependencies (context.py)

    The callables are closures over the sync service. *)
Record ApiContext := {
  ac_store_getter : option (SyncService -> option Store);
  ac_aggregator_role_control : bool;
  ac_signed_block_getter : option (SyncService -> Bytes32 -> option SignedBlock)
}.
Definition require_store (self : ApiContext) : M SyncService Store :=
  store ← gets (fun s => match ac_store_getter self with Some getter => getter s | None => None end);
  raising (of_option (HTTPException 503) store).
Definition require_aggregator_role_control (self : ApiContext) : M SyncService unit :=
  raising (if ac_aggregator_role_control self then Ok tt else Err (HTTPException 503)).
Definition require_signed_block_getter (self : ApiContext) : M SyncService (SyncService -> Bytes32 -> option SignedBlock) :=
  raising (of_option (HTTPException 503) (ac_signed_block_getter self)).

(** ** Handlers (handlers.py) *)
Definition STATUS_HEALTHY : bytes := str "healthy".
Definition SERVICE_NAME : bytes := str "lean-rpc-api".
Definition METRICS_CONTENT_TYPE : bytes := str "text/plain; version=0.0.4".
Definition METRICS_CHARSET : bytes := str "utf-8".

Definition checkpoint_body (c : Checkpoint) : CheckpointBody := {| cb_slot := cp_slot c; cb_root := cp_root c |}.
(** [except Exception: raise HTTPInternalServerError] *)
Definition or_encoding_failed (encoded : result bytes) : result bytes :=
  match encoded with Ok data => Ok data | Err _ => Err (HTTPException 500) end.

Section Handlers.
Context (metrics_output : bytes) (context : ApiContext).
Abbreviation H := (M SyncService Response).

Definition health : H := mret (json_response (HealthBody STATUS_HEALTHY SERVICE_NAME)).
(** The charset is appended to the media type. *)
Definition metrics : H :=
  mret {| re_status := 200; re_content_type := METRICS_CONTENT_TYPE ++ str "; charset=" ++ METRICS_CHARSET; re_body := Raw metrics_output |}.
Definition justified_checkpoint : H :=
  store ← require_store context;
  mret (json_response (CheckpointJson (checkpoint_body (sto_latest_justified store)))).

Definition fork_choice_node (weights : dict Bytes32 Z) (entry : Bytes32 * Block) : ForkChoiceNode := {|
  fn_root := entry.1;
  fn_slot := bk_slot entry.2;
  fn_parent_root := bk_parent_root entry.2;
  fn_proposer_index := bk_proposer_index entry.2;
  fn_weight := default 0 (dget entry.1 weights)
|}.
Definition fork_choice : H :=
  store ← require_store context;
  weights ← raising (compute_block_weights store);
  let nodes := map (fork_choice_node weights)
    (filter (fun entry => cp_slot (sto_latest_finalized store) <= bk_slot entry.2) (sto_blocks store)) in
  let head_state := dget (sto_head store) (sto_states store) in
  mret (json_response (ForkChoiceJson {|
    fb_nodes := nodes;
    fb_head := sto_head store;
    fb_justified := checkpoint_body (sto_latest_justified store);
    fb_finalized := checkpoint_body (sto_latest_finalized store);
    fb_safe_target := sto_safe_target store;
    fb_validator_count := option_map (fun st => Zlen (st_validators st)) head_state
  |})).

Definition finalized_state : H :=
  store ← require_store context;
  state ← raising (of_option (HTTPException 404) (dget (cp_root (sto_latest_finalized store)) (sto_states store)));
  ssz_bytes ← raising (or_encoding_failed (container_encode state));
  mret (ssz_response ssz_bytes).
Definition finalized_block : H :=
  store ← require_store context;
  signed_block_getter ← require_signed_block_getter context;
  signed_block ← gets (fun s => signed_block_getter s (cp_root (sto_latest_finalized store)));
  signed_block ← raising (of_option (HTTPException 404) signed_block);
  ssz_bytes ← raising (or_encoding_failed (container_encode signed_block));
  mret (ssz_response ssz_bytes).

Definition aggregator_status : H :=
  _ ← require_aggregator_role_control context;
  is_aggregator ← gets sv_is_aggregator;
  mret (json_response (AggregatorStatusBody is_aggregator)).
Definition with_aggregator (enabled : bool) (s : SyncService) : SyncService := {|
  sv_store := sv_store s; sv_backfill := sv_backfill s; sv_state := sv_state s; sv_is_aggregator := enabled;
  sv_has_publisher := sv_has_publisher s; sv_blocks_processed := sv_blocks_processed s;
  sv_pending_attestations := sv_pending_attestations s; sv_pending_aggregated_attestations := sv_pending_aggregated_attestations s;
  sv_pending_block_aggregates := sv_pending_block_aggregates s; sv_published := sv_published s;
  sv_database := sv_database s; sv_reorg_depths := sv_reorg_depths s |}.
Definition aggregator_toggle (request : Request) : H :=
  _ ← require_aggregator_role_control context;
  request_body ← raising match rq_json request with Err JSONDecodeError => Err (HTTPException 400) | body => body end;
  enabled ← raising match request_body with
                    | JObject members => of_option (HTTPException 400) (dget (str "enabled") members)
                    | _ => Err (HTTPException 400)
                    end;
  match enabled with
  | JBool enabled =>
      previous ← gets sv_is_aggregator;
      _ ← modify (with_aggregator enabled);
      mret (json_response (AggregatorToggleBody enabled previous))
  | _ => raising (Err (HTTPException 400))
  end.

(** ** The server (server.py) *)

(** The routes that [start] registers *)
Definition routes : list (Method * bytes * (Request -> H)) := [
  (GET, str "/lean/v0/health", fun _ => health);
  (GET, str "/lean/v0/states/finalized", fun _ => finalized_state);
  (GET, str "/lean/v0/blocks/finalized", fun _ => finalized_block);
  (GET, str "/lean/v0/checkpoints/justified", fun _ => justified_checkpoint);
  (GET, str "/lean/v0/fork_choice", fun _ => fork_choice);
  (GET, str "/metrics", fun _ => metrics);
  (GET, str "/lean/v0/admin/aggregator", fun _ => aggregator_status);
  (POST, str "/lean/v0/admin/aggregator", aggregator_toggle)].

(** [web.get] serves HEAD too; aiohttp then leaves the body of the answer out. *)
Definition allows (route method : Method) : bool :=
  match route, method with
  | GET, (GET | HEAD) | HEAD, HEAD | POST, POST => true
  | OtherMethod a, OtherMethod b => bool_decide (a = b)
  | _, _ => false
  end.
Definition resolve (request : Request) : result (Request -> H) :=
  let here := filter (fun route => bool_decide (route.1.2 = rq_path request) = true) routes in
  match here with
  | [] => Err (HTTPException 404)
  | _ => of_option (HTTPException 405) (option_map snd (List.find (fun route => allows route.1.1 (rq_method request)) here))
  end.

(** The answer to one request: an exception becomes a response with its status. *)
Definition serve (request : Request) : H :=
  catch (handler ← raising (resolve request); handler request)
    (fun e => mret {| re_status := match e with HTTPException status => status | _ => 500 end;
                      re_content_type := str "text/plain; charset=utf-8"; re_body := ErrorPage |}).
End Handlers.

(** ** Wiring (node.py) *)

(** The proof is empty: the store keeps unsigned blocks. *)
Definition signed_block_for_root (s : SyncService) (block_root : Bytes32) : option SignedBlock :=
  block ← dget block_root (sto_blocks (sv_store s));
  Some {| sb_block := block; sb_proof := {| mma_proof := [] |} |}.
Definition node_context : ApiContext := {|
  ac_store_getter := Some (fun s => Some (sv_store s));
  ac_aggregator_role_control := true;
  ac_signed_block_getter := Some signed_block_for_root
|}.
