(* ===== verification/CheckpointSync.v ===== *)
(** * Checkpoint sync and the boot anchor (node/sync/checkpoint_sync.py, node/anchor.py)

    A node starts from genesis or from a finalized block and its state that another node
    serves.  The HTTP client is external: [http] gives, for each request in turn, the status
    and the content of the answer, or the exception that httpx raises. *)

From S2P Require Import Prelude Pydict Uint Ssz Sha256 Merkle Containers StateTransition Proofs Signatures.
From S2P Require Import ForkChoice SszRecords ReqResp GossipTopic StateMonad Identity Rlp Enr Storage SyncService ChainService ValidatorService Node.
From Stdlib Require Import String.

Local Open Scope Z_scope.
Local Open Scope list_scope.

Definition FINALIZED_STATE_ENDPOINT : bytes := str "/lean/v0/states/finalized".
Definition FINALIZED_BLOCK_ENDPOINT : bytes := str "/lean/v0/blocks/finalized".
Definition slash : Byte.byte := Byte.x2f.

Abbreviation http_get := (bytes -> result (Z * bytes)).

(** [client.get] and [raise_for_status]: the content of a successful answer *)
Definition get_content (get : http_get) (url : bytes) : result bytes :=
  '(status, content) ← get url;
  check! (200 <=? status) && (status <? 300) else HTTPStatusError;;
  Ok content.

Definition fetch_finalized_state (get : http_get) (url : bytes) : result State :=
  let base_url := rstrip slash url in
  ssz_bytes ←
    match get_content get (base_url ++ FINALIZED_STATE_ENDPOINT) with
    | Err (HTTPStatusError | RequestError) => Err CheckpointSyncError
    | outcome => outcome
    end;
  match container_decode ssz_bytes with
  | Ok state => Ok state
  | Err _ => Err CheckpointSyncError
  end.

Definition fetch_finalized_block (get : http_get) (url : bytes) : result SignedBlock :=
  let base_url := rstrip slash url in
  match (ssz_data ← get_content get (base_url ++ FINALIZED_BLOCK_ENDPOINT); container_decode ssz_data) with
  | Ok signed_block => Ok signed_block
  | Err _ => Err CheckpointSyncError
  end.

Definition verify_checkpoint_state (state : State) : bool :=
  let validator_count := Zlen (st_validators state) in
  if validator_count =? 0 then false
  else if validator_count >? VALIDATOR_REGISTRY_LIMIT then false
  else true.

(** ** The anchor *)
Record GenesisConfig := { gc_genesis_time : Z; gc_genesis_validators : list GenesisValidatorEntry }.
Record Anchor := { an_validators : list Validator; an_store : option Store; an_initial_status : Status }.

Definition anchor_from_genesis (genesis : GenesisConfig) : result Anchor :=
  let zero_checkpoint := {| cp_root := ZERO_HASH; cp_slot := 0 |} in
  validators ← to_validators (gc_genesis_validators genesis);
  Ok {| an_validators := validators; an_store := None;
        an_initial_status := {| ss_finalized := zero_checkpoint; ss_head := zero_checkpoint |} |}.

(** [http n] answers the request number [n]: the source may change between the two. *)
Definition from_checkpoint (http : nat -> http_get) (url : bytes) (genesis : GenesisConfig) (validator_index : option Z) : result Anchor :=
  signed_block ← fetch_finalized_block (http 0%nat) url;
  state ← fetch_finalized_state (http 1%nat) url;
  check! verify_checkpoint_state state else CheckpointSyncError;;
  check! Containers.genesis_time (st_config state) =? gc_genesis_time genesis else CheckpointSyncError;;
  check! bool_decide (bk_state_root (sb_block signed_block) = hash_tree_root state) else CheckpointSyncError;;
  store ← create_store state (sb_block signed_block) validator_index;
  head ← dgetitem (sto_head store) (sto_blocks store);
  Ok {| an_validators := st_validators state; an_store := Some store;
        an_initial_status := {| ss_finalized := sto_latest_finalized store;
                                ss_head := {| cp_root := sto_head store; cp_slot := bk_slot head |} |} |}.
