(* ===== verification/SampleStores.v ===== *)
(** * Sample stores

    Stores over the sample forks, built by running the handlers: the anchor, the
    chain of [A] blocks, and both forks.  The witnesses of the store theorems and the
    examples of surprising behaviour evaluate on them. *)

From S2P Require Import Prelude Pydict Uint Ssz SszCorrect Sha256 Merkle Containers.
From S2P Require Import StateTransition Samples Proofs Signatures SignaturesCorrect.
From S2P Require Import ForkChoice Aggregation Duties.

#[local] Existing Instance sample_crypto.

Definition genesis_block : Block := Eval vm_compute in {|
  bk_slot := 0; bk_proposer_index := 0; bk_parent_root := ZERO_HASH;
  bk_state_root := hash_tree_root sample_genesis; bk_body := {| bd_attestations := [] |}
|}.
Definition genesis_root : Bytes32 := Eval vm_compute in hash_tree_root genesis_block.

Lemma genesis_root_eq : hash_tree_root genesis_block = genesis_root.
Proof. vm_compute. reflexivity. Qed.
Lemma genesis_root_checkpoint : genesis_root = cp_root genesis_checkpoint.
Proof. reflexivity. Qed.

Definition empty_store : Store := {|
  sto_time := 0; sto_config := {| genesis_time := 0 |}; sto_head := []; sto_safe_target := [];
  sto_latest_justified := genesis_checkpoint; sto_latest_finalized := genesis_checkpoint;
  sto_blocks := []; sto_states := []; sto_validator_index := None; sto_attestation_signatures := [];
  sto_latest_new_aggregated_payloads := []; sto_latest_known_aggregated_payloads := []
|}.
Definition get (r : result Store) : Store := match r with Ok s => s | Err _ => empty_store end.

Definition store0 : Store := Eval vm_compute in get (create_store sample_genesis genesis_block None).
Definition storeA1 : Store := Eval vm_compute in get (on_block store0 (signed A1.1)).
Definition storeA2 : Store := Eval vm_compute in get (on_block storeA1 (signed A2.1)).
Definition storeA3 : Store := Eval vm_compute in get (on_block storeA2 (signed A3.1)).
(** [A1] and the competing [B1]. *)
Definition storeAB : Store := Eval vm_compute in get (on_block storeA1 (signed B1.1)).

Lemma store0_created : create_store sample_genesis genesis_block None = Ok store0.
Proof. vm_compute. reflexivity. Qed.
Lemma storeA1_added : on_block store0 (signed A1.1) = Ok storeA1.
Proof. vm_compute. reflexivity. Qed.
Lemma storeA2_added : on_block storeA1 (signed A2.1) = Ok storeA2.
Proof. vm_compute. reflexivity. Qed.
Lemma storeA3_added : on_block storeA2 (signed A3.1) = Ok storeA3.
Proof. vm_compute. reflexivity. Qed.
Lemma storeAB_added : on_block storeA1 (signed B1.1) = Ok storeAB.
Proof. vm_compute. reflexivity. Qed.

(** After [A3] the store has justified [A2] and finalized [A1]. *)
Example storeA3_checkpoints :
  sto_head storeA3 = hash_tree_root A3.1 /\
  sto_latest_justified storeA3 = A2_checkpoint /\ sto_latest_finalized storeA3 = A1_checkpoint.
Proof. vm_compute. split_and!; reflexivity. Qed.

(** The clock at slot 1; then validators 0 and 1 vote for [A1] in an aggregate, and
    validator 2 with a raw signature. *)
Definition vote_A1 : AttestationData := vote 1 genesis_checkpoint A1_checkpoint.
Definition sample_proof (bits : list bool) : SingleMessageAggregate :=
  {| sma_participants := bits; sma_proof := [Byte.x01] |}.
Definition aggregate_A1 : SignedAggregatedAttestation :=
  {| saa_data := vote_A1; saa_proof := sample_proof [true; true] |}.
Definition raw_A1 : SignedAttestation :=
  {| sa_validator_index := 2; sa_data := vote_A1; sa_signature := sample_signature |}.

Definition get_tick (r : result (Store * list SignedAggregatedAttestation)) : Store :=
  match r with Ok (s, _) => s | Err _ => empty_store end.

Definition storeT5 : Store := Eval vm_compute in get_tick (on_tick storeA1 5 false false).
Definition storeP1 : Store :=
  Eval vm_compute in get (on_gossip_aggregated_attestation storeT5 aggregate_A1).
Definition storeP2 : Store := Eval vm_compute in get (on_gossip_attestation storeP1 raw_A1 true).

Lemma storeT5_ticked : on_tick storeA1 5 false false = Ok (storeT5, []).
Proof. vm_compute. reflexivity. Qed.
Lemma storeP1_gossiped : on_gossip_aggregated_attestation storeT5 aggregate_A1 = Ok storeP1.
Proof. vm_compute. reflexivity. Qed.
Lemma storeP2_gossiped : on_gossip_attestation storeP1 raw_A1 true = Ok storeP2.
Proof. vm_compute. reflexivity. Qed.

(** Two children of the justified [A2] under the finalized [A1], the orphaned fork
    [B1], [B2], and validator 0 voting first for a child of [A2], later for [B2]. *)
Definition C3 : Block * State := Eval vm_compute in run (build A2.2 3 []).
Definition C3_checkpoint : Checkpoint :=
  Eval vm_compute in {| cp_root := hash_tree_root C3.1; cp_slot := 3 |}.
Definition A3_checkpoint : Checkpoint :=
  Eval vm_compute in {| cp_root := hash_tree_root A3.1; cp_slot := 3 |}.
Definition B2_checkpoint : Checkpoint :=
  Eval vm_compute in {| cp_root := hash_tree_root B2.1; cp_slot := 2 |}.

Definition aggregate_of (d : AttestationData) : SignedAggregatedAttestation :=
  {| saa_data := d; saa_proof := sample_proof [true] |}.
Definition storeF1 : Store := Eval vm_compute in get (on_block storeA3 (signed C3.1)).
Definition storeF2 : Store := Eval vm_compute in get (on_block storeF1 (signed B1.1)).
Definition storeF3 : Store := Eval vm_compute in get (on_block storeF2 (signed B2.1)).
Definition storeF4 : Store := Eval vm_compute in get_tick (on_tick storeF3 20 false false).
Definition storeF5 : Store := Eval vm_compute in
  get (on_gossip_aggregated_attestation storeF4 (aggregate_of (vote 3 A2_checkpoint C3_checkpoint))).
Definition storeF6 : Store := Eval vm_compute in
  get (on_gossip_aggregated_attestation storeF5 (aggregate_of (vote 4 genesis_checkpoint B2_checkpoint))).
Definition storeF7 : Store := Eval vm_compute in get_tick (on_tick storeF6 24 false false).
