(* ===== verification/StorageCorrect.v ===== *)
(** * The storage implements an abstract snapshot

    A snapshot maps roots to blocks and states, with the pointers and the indices.  The
    rows of the database are the encodings of a snapshot; every write is the abstract
    write on it, a batch applies all of its writes or none, and a read returns what the
    snapshot holds. *)

From stdpp Require Import strings.
From S2P Require Import Prelude Pydict Uint Ssz SszCorrect Sha256 Merkle Containers StateTransition Proofs Signatures.
From S2P Require Import Samples ForkChoice Aggregation Duties SampleStores SszRecords Varint Snappy ReqResp BlockCache PeerManager StateMonad Backfill SyncService.
From S2P Require Import Storage.

(** ** Mapping the values of a dict *)
Definition dmap {K V W} (g : V -> W) (d : dict K V) : dict K W := (fun kv => (kv.1, g kv.2)) <$> d.

Section Dmap.
Context {K V W : Type} `{EqDecision K} (g : V -> W).

Lemma dget_dmap k (d : dict K V) : dget k (dmap g d) = g <$> dget k d.
Proof. induction d as [|[k' v] d IH]; cbn; [done|]. by case_decide. Qed.

Lemma dmem_dmap k (d : dict K V) : dmem k (dmap g d) = dmem k d.
Proof. unfold dmem. apply bool_decide_ext. rewrite dget_dmap. apply fmap_is_Some. Qed.

Lemma dset_dmap k v (d : dict K V) : dset k (g v) (dmap g d) = dmap g (dset k v d).
Proof. induction d as [|[k' w] d IH]; cbn; [done|]. case_decide; cbn; [done|]. by f_equal. Qed.

Lemma filter_dmap (p : K * W -> bool) (q : K * V -> bool) (d : dict K V) :
  (forall k v, (k, v) ∈ d -> p (k, g v) = q (k, v)) ->
  filter (fun row => p row = false) (dmap g d) = dmap g (filter (fun row => q row = false) d).
Proof.
  induction d as [|[k v] d IH]; intros Hpq; [done|]. unfold dmap in *. cbn [fmap list_fmap fst snd].
  rewrite !filter_cons, (Hpq k v) by (by left). rewrite IH by (intros; apply Hpq; by right). by case_decide.
Qed.
End Dmap.

(** ** Snapshots *)
Record Snapshot := {
  sn_blocks : dict Bytes32 Block;
  sn_states : dict Bytes32 State;
  sn_justified : option Checkpoint;
  sn_finalized : option Checkpoint;
  sn_head : option Bytes32;
  sn_genesis_time : option Z;
  sn_slot_index : dict Z Bytes32;
  sn_state_root_index : dict Bytes32 Bytes32
}.
Definition empty_snapshot : Snapshot := {|
  sn_blocks := []; sn_states := []; sn_justified := None; sn_finalized := None; sn_head := None;
  sn_genesis_time := None; sn_slot_index := []; sn_state_root_index := [] |}.

Definition sn_prune (slot : Z) (keep : list Bytes32) (s : Snapshot) : Snapshot :=
  let blocks := filter (fun row => expired slot keep (bk_slot row.2) row.1 = false) (sn_blocks s) in {|
  sn_blocks := blocks;
  sn_states := filter (fun row => expired slot keep (st_slot row.2) row.1 = false) (sn_states s);
  sn_justified := sn_justified s; sn_finalized := sn_finalized s; sn_head := sn_head s;
  sn_genesis_time := sn_genesis_time s;
  sn_slot_index := filter (fun row => expired slot keep row.1 row.2 = false) (sn_slot_index s);
  sn_state_root_index := filter (fun row => negb (dmem row.2 blocks) = false) (sn_state_root_index s) |}.

(** The abstract effect of a write *)
Definition apply_write (w : db_write) (s : Snapshot) : Snapshot :=
  match w with
  | SyncService.put_block b root => {|
      sn_blocks := dset root b (sn_blocks s); sn_states := sn_states s; sn_justified := sn_justified s;
      sn_finalized := sn_finalized s; sn_head := sn_head s; sn_genesis_time := sn_genesis_time s;
      sn_slot_index := sn_slot_index s; sn_state_root_index := sn_state_root_index s |}
  | SyncService.put_state st root => {|
      sn_blocks := sn_blocks s; sn_states := dset root st (sn_states s); sn_justified := sn_justified s;
      sn_finalized := sn_finalized s; sn_head := sn_head s; sn_genesis_time := sn_genesis_time s;
      sn_slot_index := sn_slot_index s; sn_state_root_index := sn_state_root_index s |}
  | SyncService.put_block_root_by_state_root state_root root => {|
      sn_blocks := sn_blocks s; sn_states := sn_states s; sn_justified := sn_justified s;
      sn_finalized := sn_finalized s; sn_head := sn_head s; sn_genesis_time := sn_genesis_time s;
      sn_slot_index := sn_slot_index s; sn_state_root_index := dset state_root root (sn_state_root_index s) |}
  | SyncService.put_block_root_by_slot slot root => {|
      sn_blocks := sn_blocks s; sn_states := sn_states s; sn_justified := sn_justified s;
      sn_finalized := sn_finalized s; sn_head := sn_head s; sn_genesis_time := sn_genesis_time s;
      sn_slot_index := dset slot root (sn_slot_index s); sn_state_root_index := sn_state_root_index s |}
  | SyncService.put_head_root root => {|
      sn_blocks := sn_blocks s; sn_states := sn_states s; sn_justified := sn_justified s;
      sn_finalized := sn_finalized s; sn_head := Some root; sn_genesis_time := sn_genesis_time s;
      sn_slot_index := sn_slot_index s; sn_state_root_index := sn_state_root_index s |}
  | SyncService.put_justified_checkpoint c => {|
      sn_blocks := sn_blocks s; sn_states := sn_states s; sn_justified := Some c;
      sn_finalized := sn_finalized s; sn_head := sn_head s; sn_genesis_time := sn_genesis_time s;
      sn_slot_index := sn_slot_index s; sn_state_root_index := sn_state_root_index s |}
  | SyncService.put_finalized_checkpoint c => {|
      sn_blocks := sn_blocks s; sn_states := sn_states s; sn_justified := sn_justified s;
      sn_finalized := Some c; sn_head := sn_head s; sn_genesis_time := sn_genesis_time s;
      sn_slot_index := sn_slot_index s; sn_state_root_index := sn_state_root_index s |}
  | SyncService.prune_before_slot slot keep => sn_prune slot keep s
  end.

(** The method of the database a write calls *)
Definition run_write `{Disk} (w : db_write) : M Connection unit :=
  match w with
  | SyncService.put_block b root => put_block b root
  | SyncService.put_state st root => put_state st root
  | SyncService.put_block_root_by_state_root state_root root => put_block_root_by_state_root state_root root
  | SyncService.put_block_root_by_slot slot root => put_block_root_by_slot slot root
  | SyncService.put_head_root root => put_head_root root
  | SyncService.put_justified_checkpoint c => put_justified_checkpoint c
  | SyncService.put_finalized_checkpoint c => put_finalized_checkpoint c
  | SyncService.prune_before_slot slot keep => _ ← prune_before_slot slot keep; mret tt
  end.
Definition run_batch `{Disk} (ws : list db_write) : M Connection unit := batch_write (for_each ws run_write).

(** What the callers write: values of their classes, slots below 2^63 *)
Definition slot_ok (slot : Z) : Prop := 0 <= slot < 2 ^ 63.
Definition write_ok (w : db_write) : Prop :=
  match w with
  | SyncService.put_block b root => ssz_valid b = true /\ slot_ok (bk_slot b)
  | SyncService.put_state st root => ssz_valid st = true /\ slot_ok (st_slot st)
  | SyncService.put_block_root_by_state_root _ root => length root = 32%nat
  | SyncService.put_block_root_by_slot slot root => slot_ok slot /\ length root = 32%nat
  | SyncService.put_head_root root => length root = 32%nat
  | SyncService.put_justified_checkpoint c | SyncService.put_finalized_checkpoint c => ssz_valid c = true
  | SyncService.prune_before_slot slot _ => slot_ok slot
  end.

(** ** Rows *)
Definition encoding {A} `{SSZContainer A} (a : A) : bytes := match container_encode a with Ok bs => bs | Err _ => [] end.

Lemma encoding_Ok {A} `{Encodable A} (a : A) :
  ssz_valid a = true -> container_encode a = Ok (encoding a) /\ container_decode (encoding a) = Ok a.
Proof. intros Hv. destruct (container_encode_total a Hv) as (bs & E & _ & Hd). unfold encoding. by rewrite E. Qed.

Definition block_row (b : Block) : Z * bytes := (bk_slot b, encoding b).
Definition state_row (st : State) : Z * bytes := (st_slot st, encoding st).
Definition time_row (t : Z) : bytes := le_split 8 t.

(** The rows of a snapshot *)
Record represents (t : Tables) (s : Snapshot) : Prop := {
  rp_blocks : tb_blocks t = dmap block_row (sn_blocks s);
  rp_states : tb_states t = dmap state_row (sn_states s);
  rp_justified : dget CHECKPOINTS_KEY_JUSTIFIED (tb_checkpoints t) = encoding <$> sn_justified s;
  rp_finalized : dget CHECKPOINTS_KEY_FINALIZED (tb_checkpoints t) = encoding <$> sn_finalized s;
  rp_head : dget CHECKPOINTS_KEY_HEAD (tb_checkpoints t) = sn_head s;
  rp_time : dget CHECKPOINTS_KEY_GENESIS_TIME (tb_checkpoints t) = time_row <$> sn_genesis_time s;
  rp_slot_index : tb_slot_index t = sn_slot_index s;
  rp_state_root_index : tb_state_root_index t = sn_state_root_index s
}.

(** The values a snapshot holds *)
Definition values_are {K V} (P : V -> Prop) (d : dict K V) : Prop := Forall (fun kv => P kv.2) d.

Lemma values_are_get {K V} `{EqDecision K} (P : V -> Prop) (d : dict K V) k v : values_are P d -> dget k d = Some v -> P v.
Proof. intros Hd E%dget_In. unfold values_are in Hd. rewrite Forall_forall in Hd. by apply (Hd (k, v)). Qed.

Lemma values_are_dset {K V} `{EqDecision K} (P : V -> Prop) k v (d : dict K V) :
  values_are P d -> P v -> values_are P (dset k v d).
Proof.
  intros Hd Hv. induction Hd as [|[k' w] d Hw Hd IH]; cbn; [by constructor|]. case_decide; by constructor.
Qed.

Lemma values_are_filter {K V} (P : V -> Prop) (Q : K * V -> Prop) `{forall kv, Decision (Q kv)} (d : dict K V) :
  values_are P d -> values_are P (filter Q d).
Proof.
  unfold values_are. rewrite !Forall_forall. intros Hd x Hx. apply Hd. by apply list_elem_of_filter in Hx as [_ ?].
Qed.

Abbreviation is_root := (fun r : bytes => length r = 32%nat).

Record snapshot_ok (s : Snapshot) : Prop := {
  so_blocks : values_are (fun b => ssz_valid b = true) (sn_blocks s);
  so_states : values_are (fun st => ssz_valid st = true) (sn_states s);
  so_justified c : sn_justified s = Some c -> ssz_valid c = true;
  so_finalized c : sn_finalized s = Some c -> ssz_valid c = true;
  so_head r : sn_head s = Some r -> is_root r;
  so_time t : sn_genesis_time s = Some t -> in_range 64 t;
  so_slot_index : values_are is_root (sn_slot_index s);
  so_state_root_index : values_are is_root (sn_state_root_index s)
}.

Lemma empty_snapshot_ok : snapshot_ok empty_snapshot.
Proof. split; cbn; try done; constructor. Qed.

Lemma empty_represents : represents empty_tables empty_snapshot.
Proof. by split. Qed.

Lemma apply_write_snapshot_ok w s : write_ok w -> snapshot_ok s -> snapshot_ok (apply_write w s).
Proof.
  intros Hw []. destruct w; cbn [write_ok apply_write] in *; split; cbn [sn_blocks sn_states sn_justified sn_finalized
    sn_head sn_genesis_time sn_slot_index sn_state_root_index sn_prune]; try done;
    try (apply values_are_dset; [done|by try apply Hw]); try (by apply values_are_filter); by intros ? [= <-].
Qed.

(** SQLite failed a statement or a commit. *)
Definition disk_failed `{Disk} : Prop := exists n, sqlite_fails n = true.

(** ** Writes *)
Section Writes.
Context `{Disk} (t0 : Tables).

(** The open transaction holds [s], and nothing of it is committed. *)
Definition holds (s : Snapshot) (c : Connection) : Prop := cn_committed c = t0 /\ represents (cn_working c) s.
Definition failed (error e : exn) (c : Connection) : Prop := e = error /\ cn_committed c = t0 /\ disk_failed.

Lemma execute_ok {A} (f : Tables -> A * Tables) s s' :
  (forall t, represents t s -> represents (f t).2 s') ->
  triple (holds s) (execute f) (fun _ => holds s') (failed SqliteError).
Proof.
  intros Hf c [Hc Hr]. unfold execute. destruct (sqlite_fails _) eqn:Ef; [by split_and!; [..|eexists]|].
  specialize (Hf _ Hr). destruct (f (cn_working c)) as [a t]. by split.
Qed.

Lemma wrapping_ok {A} (m : M Connection A) P Q error :
  triple P m Q (failed SqliteError) -> triple P (wrapping error m) Q (failed error).
Proof.
  intros Hm c Hc. specialize (Hm c Hc). unfold wrapping, catch. destruct (m c) as [[a|e] c']; [done|].
  by destruct Hm as [-> Hm].
Qed.

Lemma raising_Ok_bind {A B} (a : A) (k : A -> M Connection B) P Q E :
  triple P (k a) Q E -> triple P (raising (Ok a) ≫= k) Q E.
Proof. done. Qed.

Lemma sqlite_integer_Ok z : slot_ok z -> sqlite_integer z = Ok z.
Proof. intros Hz. unfold sqlite_integer, slot_ok in *. by rewrite (proj2 (Z.leb_le _ _)), (proj2 (Z.ltb_lt _ _)) by lia. Qed.

Lemma put_key_ok key data s s' :
  (forall t, represents t s -> represents (with_checkpoints (dset key data (tb_checkpoints t)) t) s') ->
  triple (holds s) (put_key key (Ok data)) (fun _ => holds s') (failed StorageWriteError).
Proof. intros Hf. apply wrapping_ok, raising_Ok_bind, execute_ok. apply Hf. Qed.

Lemma sql_prune_ok slot keep s :
  slot_ok slot ->
  triple (holds s) (prune_before_slot slot keep) (fun _ => holds (sn_prune slot keep s)) (failed StorageWriteError).
Proof.
  intros Hs. apply wrapping_ok. rewrite (sqlite_integer_Ok _ Hs). apply raising_Ok_bind.
  set (blocks := filter (fun row => expired slot keep (bk_slot row.2) row.1 = false) (sn_blocks s)).
  set (states := filter (fun row => expired slot keep (st_slot row.2) row.1 = false) (sn_states s)).
  set (slots := filter (fun row => expired slot keep row.1 row.2 = false) (sn_slot_index s)).
  set (with_parts := fun b st sl => {| sn_blocks := b; sn_states := st; sn_justified := sn_justified s;
    sn_finalized := sn_finalized s; sn_head := sn_head s; sn_genesis_time := sn_genesis_time s;
    sn_slot_index := sl; sn_state_root_index := sn_state_root_index s |}).
  assert (holds s = holds (with_parts (sn_blocks s) (sn_states s) (sn_slot_index s))) as -> by (by destruct s).
  eapply (triple_bind _ _ _ (fun _ => holds (with_parts blocks (sn_states s) (sn_slot_index s)))).
  { apply execute_ok. intros t []. split; cbn in *; try done. rewrite rp_blocks0. by apply filter_dmap. }
  intros nb. eapply (triple_bind _ _ _ (fun _ => holds (with_parts blocks states (sn_slot_index s)))).
  { apply execute_ok. intros t []. split; cbn in *; try done. rewrite rp_states0. by apply filter_dmap. }
  intros ns. eapply (triple_bind _ _ _ (fun _ => holds (with_parts blocks states slots))).
  { apply execute_ok. intros t []. split; cbn in *; try done. by rewrite rp_slot_index0. }
  intros ni. eapply (triple_bind _ _ _ (fun _ => holds (sn_prune slot keep s))); [|intros nr; by apply triple_ret].
  apply execute_ok. intros t []. split; cbn; try done. rewrite rp_state_root_index0.
  apply list_filter_iff. intros [k r]. cbn [snd]. by rewrite rp_blocks0, dmem_dmap.
Qed.

Lemma run_write_ok w s :
  write_ok w -> triple (holds s) (run_write w) (fun _ => holds (apply_write w s)) (failed StorageWriteError).
Proof.
  intros Hw. destruct w as [b root|st root|state_root root|slot root|root|c|c|slot keep]; cbn [write_ok run_write apply_write] in *.
  - destruct Hw as [Hv Hs]. apply wrapping_ok. rewrite (proj1 (encoding_Ok b Hv)), (sqlite_integer_Ok _ Hs).
    do 2 apply raising_Ok_bind. apply execute_ok. intros t []. split; cbn; try done. rewrite rp_blocks0. apply (dset_dmap block_row).
  - destruct Hw as [Hv Hs]. apply wrapping_ok. rewrite (proj1 (encoding_Ok st Hv)), (sqlite_integer_Ok _ Hs).
    do 2 apply raising_Ok_bind. apply execute_ok. intros t []. split; cbn; try done. rewrite rp_states0. apply (dset_dmap state_row).
  - apply wrapping_ok, execute_ok. intros t []. split; cbn; try done. by rewrite rp_state_root_index0.
  - destruct Hw as [Hs _]. apply wrapping_ok. rewrite (sqlite_integer_Ok _ Hs). apply raising_Ok_bind, execute_ok.
    intros t []. split; cbn; try done. by rewrite rp_slot_index0.
  - apply put_key_ok. intros t []. by split; cbn; rewrite ?dget_dset_eq, ?dget_dset_ne by done.
  - unfold put_justified_checkpoint. rewrite (proj1 (encoding_Ok c Hw)). apply put_key_ok. intros t [].
    by split; cbn; rewrite ?dget_dset_eq, ?dget_dset_ne by done.
  - unfold put_finalized_checkpoint. rewrite (proj1 (encoding_Ok c Hw)). apply put_key_ok. intros t [].
    by split; cbn; rewrite ?dget_dset_eq, ?dget_dset_ne by done.
  - eapply triple_bind; [by apply sql_prune_ok|]. intros n. by apply triple_ret.
Qed.

Definition apply_writes (ws : list db_write) (s : Snapshot) : Snapshot := foldl (fun s w => apply_write w s) s ws.

Lemma run_writes_ok ws : forall s,
  Forall write_ok ws ->
  triple (holds s) (for_each ws run_write) (fun _ => holds (apply_writes ws s)) (failed StorageWriteError).
Proof.
  induction ws as [|w ws IH]; intros s Hw; cbn [for_each apply_writes foldl]; [by apply triple_ret|].
  apply Forall_cons in Hw as [Hw Hws].
  eapply (triple_bind _ _ _ (fun _ => holds (apply_write w s))); [by apply run_write_ok|]. intros _. by apply IH.
Qed.
End Writes.

(** Between two batches everything is committed. *)
Definition settled (s : Snapshot) (c : Connection) : Prop :=
  cn_working c = cn_committed c /\ represents (cn_committed c) s.

Lemma run_batch_ok `{Disk} ws s :
  Forall write_ok ws ->
  triple (settled s) (run_batch ws) (fun _ => settled (apply_writes ws s)) (fun e c => e = StorageWriteError /\ settled s c /\ disk_failed).
Proof.
  intros Hw c [Hc Hr]. unfold run_batch, batch_write.
  pose proof (run_writes_ok (cn_committed c) ws s Hw c) as Ht. unfold mbind at 1, M_bind at 1.
  destruct (for_each ws run_write c) as [[u|e] c1].
  - destruct Ht as [Hc1 Hr1]; [by split; [|rewrite Hc]|]. unfold mbind, M_bind, commit.
    destruct (sqlite_fails _) eqn:Ef; cbn; [|by split]. split; [done|]. split; [by split; cbn; rewrite ?Hc1|by eexists].
  - destruct Ht as (-> & Hc1 & Hd); [by split; [|rewrite Hc]|]. split; [done|]. split; [by split; cbn; rewrite ?Hc1|done].
Qed.

(** ** Reads *)
Section Reads.
Context `{Disk} (s : Snapshot) (Hs : snapshot_ok s).

Definition reads {A} (m : M Connection (option A)) (value : option A) : Prop :=
  triple (settled s) m (fun a c => a = value /\ settled s c) (fun e c => e = StorageReadError /\ settled s c /\ disk_failed).

(** A row that decodes to the value *)
Lemma fetched_reads {A} (f : Tables -> option bytes) (decode : bytes -> result A) (value : option A) :
  (forall t, represents t s -> match value with
     | None => f t = None
     | Some a => exists data, f t = Some data /\ decode data = Ok a
     end) ->
  reads (row ← select f; fetched row decode) value.
Proof.
  intros Hf c [Hc Hr]. unfold select, wrapping, catch, execute, mbind, M_bind.
  destruct (sqlite_fails _) eqn:Ef; cbn; [by split_and!; [..|eexists]|]. rewrite Hc. specialize (Hf _ Hr).
  destruct value as [a|]; [destruct Hf as (data & -> & E)|rewrite Hf]; cbn; [|by split_and!].
  unfold mbind, M_bind, raising. rewrite E. cbn. by split_and!.
Qed.

Lemma bytes32_read (r : bytes) : length r = 32%nat -> bytes_new 32 r = Ok r.
Proof. intros E. unfold bytes_new. by rewrite E. Qed.

Lemma decode_row_encoding {A} `{Encodable A} (a : A) : ssz_valid a = true -> decode_row (container_decode (encoding a)) = Ok a.
Proof. intros Hv. by rewrite (proj2 (encoding_Ok a Hv)). Qed.

Lemma get_block_reads root : reads (get_block root) (dget root (sn_blocks s)).
Proof using Hs.
  apply fetched_reads. intros t Hr. rewrite (rp_blocks _ _ Hr), dget_dmap.
  destruct (dget root (sn_blocks s)) as [b|] eqn:E; [|done]. eexists. split; [reflexivity|]. apply decode_row_encoding. by apply (values_are_get _ _ _ _ (so_blocks _ Hs) E).
Qed.

Lemma get_state_reads root : reads (get_state root) (dget root (sn_states s)).
Proof using Hs.
  apply fetched_reads. intros t Hr. rewrite (rp_states _ _ Hr), dget_dmap.
  destruct (dget root (sn_states s)) as [b|] eqn:E; [|done]. eexists. split; [reflexivity|]. apply decode_row_encoding. by apply (values_are_get _ _ _ _ (so_states _ Hs) E).
Qed.

Lemma get_justified_reads : reads get_justified_checkpoint (sn_justified s).
Proof using Hs.
  apply fetched_reads. intros t Hr. rewrite (rp_justified _ _ Hr).
  destruct (sn_justified s) as [c|] eqn:E; [|done]. eexists. split; [reflexivity|]. by eapply decode_row_encoding, so_justified.
Qed.

Lemma get_finalized_reads : reads get_finalized_checkpoint (sn_finalized s).
Proof using Hs.
  apply fetched_reads. intros t Hr. rewrite (rp_finalized _ _ Hr).
  destruct (sn_finalized s) as [c|] eqn:E; [|done]. eexists. split; [reflexivity|]. by eapply decode_row_encoding, so_finalized.
Qed.

Lemma get_head_reads : reads get_head_root (sn_head s).
Proof using Hs.
  apply fetched_reads. intros t Hr. rewrite (rp_head _ _ Hr).
  destruct (sn_head s) as [c|] eqn:E; [|done]. eexists. split; [reflexivity|]. by eapply bytes32_read, so_head.
Qed.

Lemma get_genesis_time_reads : reads get_genesis_time (sn_genesis_time s).
Proof using Hs.
  apply fetched_reads. intros t Hr. rewrite (rp_time _ _ Hr).
  destruct (sn_genesis_time s) as [g|] eqn:E; [|done]. eexists. split; [reflexivity|]. pose proof (so_time _ Hs _ E) as Hg.
  assert (to_bytes_le 8 g = Ok (time_row g)) as Et by (by apply to_bytes_le_Ok).
  apply from_to_bytes_le in Et as ->; [|done]. by apply uint_new_in_range.
Qed.

Lemma get_by_slot_reads slot : slot_ok slot -> reads (get_block_root_by_slot slot) (dget slot (sn_slot_index s)).
Proof using Hs.
  intros Hsl. unfold get_block_root_by_slot. rewrite (sqlite_integer_Ok _ Hsl).
  apply (fetched_reads (fun t => dget slot (tb_slot_index t))). intros t Hr. rewrite (rp_slot_index _ _ Hr).
  destruct (dget slot (sn_slot_index s)) as [r|] eqn:E; [|done]. eexists. split; [reflexivity|]. apply bytes32_read. by apply (values_are_get _ _ _ _ (so_slot_index _ Hs) E).
Qed.

Lemma get_by_state_root_reads root : reads (get_block_root_by_state_root root) (dget root (sn_state_root_index s)).
Proof using Hs.
  apply fetched_reads. intros t Hr. rewrite (rp_state_root_index _ _ Hr).
  destruct (dget root (sn_state_root_index s)) as [r|] eqn:E; [|done]. eexists. split; [reflexivity|]. apply bytes32_read. by apply (values_are_get _ _ _ _ (so_state_root_index _ Hs) E).
Qed.
End Reads.

(** ** Runs *)
Section Runs.
Context `{Disk}.

(** The batches of callers that survive a failed one *)
Fixpoint run_batches (batches : list (list db_write)) (c : Connection) : list (result unit) * Connection :=
  match batches with
  | [] => ([], c)
  | ws :: batches =>
      let '(r, c) := run_batch ws c in
      let '(rs, c) := run_batches batches c in
      (r :: rs, c)
  end.

(** The abstract effect: the batches that returned *)
Fixpoint apply_accepted (batches : list (list db_write)) (rs : list (result unit)) (s : Snapshot) : Snapshot :=
  match batches, rs with
  | ws :: batches, r :: rs => apply_accepted batches rs (if is_Ok r then apply_writes ws s else s)
  | _, _ => s
  end.

Lemma apply_writes_snapshot_ok ws : forall s, Forall write_ok ws -> snapshot_ok s -> snapshot_ok (apply_writes ws s).
Proof.
  induction ws as [|w ws IH]; intros s Hw Hs; [done|]. apply Forall_cons in Hw as [Hw Hws]. cbn. apply IH; [done|].
  by apply apply_write_snapshot_ok.
Qed.

Lemma run_batches_ok batches : forall s c,
  Forall (Forall write_ok) batches -> snapshot_ok s -> settled s c ->
  let '(rs, c') := run_batches batches c in
  let s' := apply_accepted batches rs s in
  settled s' c' /\ snapshot_ok s' /\ length rs = length batches /\
  Forall (fun r => r = Ok tt \/ (r = Err StorageWriteError /\ disk_failed)) rs.
Proof.
  induction batches as [|ws batches IH]; intros s c Hw Hs Hc; cbn [run_batches]; [done|]. apply Forall_cons in Hw as [Hw Hws].
  pose proof (run_batch_ok ws s Hw c Hc) as Hb. pose proof (apply_writes_snapshot_ok ws s Hw Hs) as Hs'.
  destruct (run_batch ws c) as [[[]|e] c1].
  - specialize (IH _ c1 Hws Hs' Hb). destruct (run_batches batches c1) as [rs c2]. destruct IH as (H1 & H2 & H3 & H4).
    split_and!; [done|done|cbn; lia|]. constructor; [by left|done].
  - destruct Hb as (-> & Hb & Hd). specialize (IH _ c1 Hws Hs Hb). destruct (run_batches batches c1) as [rs c2].
    destruct IH as (H1 & H2 & H3 & H4). split_and!; [done|done|cbn; lia|]. constructor; [by right|done].
Qed.

(** A read returns what the snapshot holds, or the disk fails. *)
Definition returns {A} (m : M Connection (option A)) (c : Connection) (value : option A) : Prop :=
  (m c).1 = Ok value \/ ((m c).1 = Err StorageReadError /\ disk_failed).

Lemma reads_returns {A} (m : M Connection (option A)) s c value : settled s c -> reads s m value -> returns m c value.
Proof.
  intros Hc Hm. specialize (Hm c Hc). unfold returns. destruct (m c) as [[a|e] c']; cbn; [destruct Hm as [-> _]; auto|].
  destruct Hm as (-> & _ & Hd). auto.
Qed.

Lemma failed_commits ws : forall c, Forall write_ok ws -> (exists s, represents (cn_working c) s) ->
  cn_committed (for_each ws run_write c).2 = cn_committed c.
Proof.
  intros c Hw [s Hr]. pose proof (run_writes_ok (cn_committed c) ws s Hw c (conj eq_refl Hr)) as Ht.
  destruct (for_each ws run_write c) as [[u|e] c']; by destruct Ht as [? Ht]; try destruct Ht.
Qed.
End Runs.

(** C11: whatever statements and commits SQLite fails, after any sequence of batches of
    valid writes the database is the abstract snapshot with exactly the batches that
    returned applied, in order; a batch either returns, or SQLite failed a statement and
    it raises [StorageWriteError] and leaves no trace.  A crash in the middle of a further batch leaves the committed
    tables as they were.  Every getter, on this connection or on a new one, returns what
    the snapshot holds (the encodings decode back), or raises [StorageReadError] when
    SQLite fails. *)
Theorem storage_refines_snapshot `{Disk} (batches : list (list db_write)) (c : Connection) (s : Snapshot) :
  Forall (Forall write_ok) batches -> snapshot_ok s -> settled s c ->
  let '(rs, c') := run_batches batches c in
  let s' := apply_accepted batches rs s in
  Forall (fun r => r = Ok tt \/ (r = Err StorageWriteError /\ disk_failed)) rs /\ represents (cn_committed c') s' /\
  (forall ws, Forall write_ok ws -> cn_committed (for_each ws run_write c').2 = cn_committed c') /\
  forall c2, c2 = c' \/ c2 = connect (cn_committed c') ->
    (forall root, returns (get_block root) c2 (dget root (sn_blocks s'))) /\
    (forall root, returns (get_state root) c2 (dget root (sn_states s'))) /\
    returns get_justified_checkpoint c2 (sn_justified s') /\ returns get_finalized_checkpoint c2 (sn_finalized s') /\
    returns get_head_root c2 (sn_head s') /\ returns get_genesis_time c2 (sn_genesis_time s') /\
    (forall slot, slot_ok slot -> returns (get_block_root_by_slot slot) c2 (dget slot (sn_slot_index s'))) /\
    (forall root, returns (get_block_root_by_state_root root) c2 (dget root (sn_state_root_index s'))).
Proof.
  intros Hw Hs Hc. pose proof (run_batches_ok batches s c Hw Hs Hc) as Hr. destruct (run_batches batches c) as [rs c'].
  destruct Hr as ([Hwk Hrep] & Hok & _ & Hrs). cbn zeta. set (s' := apply_accepted batches rs s) in *. split_and!; [done|done| |].
  - intros ws Hws. apply failed_commits; [done|]. exists s'. by rewrite Hwk.
  - intros c2 Hc2. assert (settled s' c2) as Hset by (destruct Hc2 as [->| ->]; by split).
    split_and!; intros; eapply reads_returns; eauto using get_block_reads, get_state_reads, get_justified_reads,
      get_finalized_reads, get_head_reads, get_genesis_time_reads, get_by_slot_reads, get_by_state_root_reads.
Qed.

(** A disk that fails the second statement of the second batch *)
Definition flaky_disk : Disk := {| sqlite_fails := fun n => (n =? 4)%nat |}.
Definition flaky_batches : list (list db_write) :=
  let cp := {| cp_root := hash_tree_root genesis_block; cp_slot := 0 |} in
  [[SyncService.put_block genesis_block (hash_tree_root genesis_block); SyncService.put_head_root (hash_tree_root genesis_block)];
   [SyncService.put_head_root ZERO_HASH; SyncService.put_justified_checkpoint cp];
   [SyncService.put_finalized_checkpoint cp; SyncService.prune_before_slot 1 []]].

#[local] Existing Instance flaky_disk.

(** The second batch leaves no trace, the third prunes the block of slot 0. *)
Example flaky_batches_run :
  let '(rs, c) := run_batches flaky_batches (connect empty_tables) in
  rs = [Ok tt; Err StorageWriteError; Ok tt] /\
  (get_head_root c).1 = Ok (Some (hash_tree_root genesis_block)) /\
  (get_justified_checkpoint c).1 = Ok None /\
  (get_block (hash_tree_root genesis_block) c).1 = Ok None.
Proof. vm_compute. repeat split. Qed.

Lemma storage_refines_snapshot_witness :
  let '(rs, c') := run_batches flaky_batches (connect empty_tables) in
  let s' := apply_accepted flaky_batches rs empty_snapshot in
  Forall (fun r => r = Ok tt \/ (r = Err StorageWriteError /\ disk_failed)) rs /\ represents (cn_committed c') s' /\
  (forall ws, Forall write_ok ws -> cn_committed (for_each ws run_write c').2 = cn_committed c') /\
  forall c2, c2 = c' \/ c2 = connect (cn_committed c') ->
    (forall root, returns (get_block root) c2 (dget root (sn_blocks s'))) /\
    (forall root, returns (get_state root) c2 (dget root (sn_states s'))) /\
    returns get_justified_checkpoint c2 (sn_justified s') /\
    returns get_finalized_checkpoint c2 (sn_finalized s') /\
    returns get_head_root c2 (sn_head s') /\
    returns get_genesis_time c2 (sn_genesis_time s') /\
    (forall slot, slot_ok slot -> returns (get_block_root_by_slot slot) c2 (dget slot (sn_slot_index s'))) /\
    (forall root, returns (get_block_root_by_state_root root) c2 (dget root (sn_state_root_index s'))).
Proof.
  apply (storage_refines_snapshot (H := flaky_disk) flaky_batches (connect empty_tables) empty_snapshot).
  - repeat constructor; vm_compute; congruence.
  - exact empty_snapshot_ok.
  - split; [reflexivity|exact empty_represents].
Defined.
