(* ===== verification/AggregationCorrect.v ===== *)
(** * Correctness of aggregation

    The greedy selection terminates, covers every validator any proof of the pools
    covers, takes only proofs that add someone, and does not depend on the order of
    the sets. *)

From S2P Require Import Prelude Pydict Uint Ssz SszCorrect Sha256 Merkle Containers.
From S2P Require Import StateTransition Samples StateCorrect StateHistory Proofs Signatures.
From S2P Require Import SignaturesCorrect ForkChoice ForkChoiceCorrect StoreVotes Aggregation.
From S2P Require Import Duties SampleStores.

(** ** Encodings of proofs *)
Lemma sma_wf : wf_type (ssz_descr SingleMessageAggregate).
Proof. vm_compute. repeat split; discriminate. Qed.

Lemma sma_valid p :
  ssz_valid p = true <->
  Zlen (sma_participants p) <= VALIDATOR_REGISTRY_LIMIT /\ Zlen (sma_proof p) <= BYTE_LIST_512_KIB.
Proof.
  unfold ssz_valid. cbn [ssz_descr ssz_repr ssz_SingleMessageAggregate class_of container_class
    well_typed map length Nat.eqb combine forallb fst snd bitlist_class bytelist_class].
  rewrite !andb_true_iff, !Z.leb_le. tauto.
Qed.

Lemma bitlist_encode_length bits bs :
  bitlist_encode_bytes bits = Ok bs -> Zlen bs = ceil8 (Zlen bits + 1).
Proof.
  unfold bitlist_encode_bytes. destruct (Z.eqb_spec (Zlen bits) 0) as [->|Hn].
  - by intros [= <-].
  - apply to_bytes_le_length. unfold ceil8. div_lia.
Qed.

Lemma offset_total o : in_range 32 o -> exists bs, offset_serialize o = Ok bs.
Proof. intros Ho. exists (off_bytes o). by apply offset_serialize_Ok. Qed.

(** A well-typed proof encodes: its offsets stay far below 32 bits. *)
Lemma sma_encode_total p : ssz_valid p = true -> exists bs, container_encode p = Ok bs.
Proof.
  intros [H1 H2]%sma_valid. unfold container_encode, encode_bytes.
  cbn [ssz_descr ssz_repr ssz_SingleMessageAggregate class_of container_class serialize map].
  unfold container_serialize. cbn [write_fields is_fixed_size bitlist_class bytelist_class serialize
    map slot_width sum_Z foldr].
  destruct (offset_total (BYTES_PER_LENGTH_OFFSET + (BYTES_PER_LENGTH_OFFSET + 0))) as [o1 ->];
    [by vm_compute|]. mcbn. destruct (bitlist_encode_total (sma_participants p)) as [b Eb]. rewrite Eb. mcbn.
  apply bitlist_encode_length in Eb.
  destruct (offset_total (BYTES_PER_LENGTH_OFFSET + (BYTES_PER_LENGTH_OFFSET + 0) + Zlen b)) as [o2 ->];
    [|mcbn; eauto].
  unfold in_range, max_value, ceil8, VALIDATOR_REGISTRY_LIMIT, BYTES_PER_LENGTH_OFFSET in *.
  change (2 ^ 12) with 4096 in H1. change (2 ^ 32) with 4294967296. div_lia.
Qed.

Lemma sma_encode_inj p q bs :
  ssz_valid p = true -> ssz_valid q = true ->
  container_encode p = Ok bs -> container_encode q = Ok bs -> p = q.
Proof.
  intros Hp Hq Ep Eq. assert (ssz_repr p = ssz_repr q) as E.
  { enough (Ok (ssz_repr p) = Ok (ssz_repr q)) by congruence.
    rewrite <- (proj2 (ok_decode _ (class_of_ok _ sma_wf) bs (ssz_repr p)) (conj Hp Ep)).
    by apply (ok_decode _ (class_of_ok _ sma_wf)). }
  destruct p, q. cbn in E. by injection E as -> ->.
Qed.

(** ** The choice of the best candidate *)
Definition tuple_le (a b : Z * bytes) : Prop :=
  a.1 < b.1 \/ (a.1 = b.1 /\ bytes_leb a.2 b.2 = true).

Lemma tuple_le_refl a : tuple_le a a.
Proof. right. split; [done|]. by destruct (bytes_leb_total a.2 a.2). Qed.

Lemma tuple_le_trans a b c : tuple_le a b -> tuple_le b c -> tuple_le a c.
Proof.
  intros [H1|[H1 L1]] [H2|[H2 L2]]; [left; lia..|]. right. split; [lia|]. by eapply bytes_leb_trans.
Qed.

Lemma tuple_le_antisym a b : tuple_le a b -> tuple_le b a -> a = b.
Proof.
  destruct a, b. intros [H1|[H1 L1]] [H2|[H2 L2]]; simpl in *; try lia.
  f_equal; [done|]. by apply bytes_leb_antisym.
Qed.

Lemma tuple_gtb_spec a b : if tuple_gtb a b then tuple_le b a else tuple_le a b.
Proof.
  unfold tuple_gtb, tuple_le. rewrite bytes_ltb_leb, Z.gtb_ltb.
  destruct (Z.ltb_spec b.1 a.1); simpl; [auto|].
  destruct (Z.eqb_spec a.1 b.1) as [E|]; simpl; [|left; lia].
  destruct (bytes_leb a.2 b.2) eqn:L; simpl; [auto|]. right. split; [done|].
  destruct (bytes_leb_total a.2 b.2) as [?|?]; [congruence|done].
Qed.

Abbreviation Keyed := (Candidate * (Z * bytes))%type.

(** The fold keeps an element with a maximal key. *)
Lemma max_fold_spec (first : Keyed) rest :
  let best := foldl (fun best x => if tuple_gtb x.2 best.2 then x else best) first rest in
  best ∈ first :: rest /\ forall x, x ∈ first :: rest -> tuple_le x.2 best.2.
Proof.
  cbn zeta. revert first. induction rest as [|y rest IH]; intros first; simpl.
  - split; [left|]. intros x ->%list_elem_of_singleton. apply tuple_le_refl.
  - pose proof (tuple_gtb_spec y.2 first.2) as Hk. destruct (tuple_gtb y.2 first.2).
    + destruct (IH y) as [Hin Hmax]. split; [by right|].
      intros x [->|Hx]%elem_of_cons; [|by apply Hmax].
      eapply tuple_le_trans; [exact Hk|]. apply Hmax. left.
    + destruct (IH first) as [Hin Hmax]. split.
      * apply elem_of_cons in Hin as [->|Hin]; [left|by right; right].
      * intros x [->|[->|Hx]%elem_of_cons]%elem_of_cons; [apply Hmax; left| |apply Hmax; by right].
        eapply tuple_le_trans; [exact Hk|]. apply Hmax. left.
Qed.

Section Select.

(** Well-typed candidates, one per proof. *)
Definition candidates_ok (l : list Candidate) : Prop :=
  NoDup l.*1 /\ Forall (fun c => ssz_valid c.1 = true) l.

Definition keyed_as (covered : list Z) (c : Candidate) (k : Keyed) : Prop :=
  k.1 = c /\ k.2.1 = Zlen (sdiff c.2 covered) /\ container_encode c.1 = Ok k.2.2.

Lemma coverage_keys_ok covered l :
  Forall (fun c => ssz_valid c.1 = true) l ->
  exists ks, mapM (coverage_key covered) l = Ok ks /\ Forall2 (keyed_as covered) l ks.
Proof.
  induction 1 as [|c l Hc _ (ks & E & Hks)]; [by exists []|]. cbn [mapM].
  destruct (sma_encode_total c.1 Hc) as [bs Eb].
  assert (coverage_key covered c = Ok (c, (Zlen (sdiff c.2 covered), bs))) as ->
    by (unfold coverage_key; by rewrite Eb).
  exists ((c, (Zlen (sdiff c.2 covered), bs)) :: ks). mcbn. rewrite E. split; [done|]. by constructor.
Qed.

(** What [max] returns: a candidate that adds the most, with the largest encoding. *)
Lemma max_keyed_ok covered l first rest :
  Forall2 (keyed_as covered) l (first :: rest) ->
  let best := max_keyed first rest in
  best ∈ l /\
  (forall c, c ∈ l -> (length (sdiff c.2 covered) <= length (sdiff best.2 covered))%nat) /\
  forall c kc kb, c ∈ l -> container_encode c.1 = Ok kc -> container_encode best.1 = Ok kb ->
    tuple_le (Zlen (sdiff c.2 covered), kc) (Zlen (sdiff best.2 covered), kb).
Proof.
  intros Hk. cbn zeta. unfold max_keyed. destruct (max_fold_spec first rest) as [Hin Hmax]. cbn zeta in *.
  set (b := foldl _ _ _) in *. clearbody b.
  apply list_elem_of_lookup in Hin as [i Hi].
  destruct (Forall2_lookup_r _ _ _ _ _ Hk Hi) as (cb & Hcb & Eb & Nb & Kb). subst cb.
  assert (forall c, c ∈ l -> exists kc, container_encode c.1 = Ok kc /\
    tuple_le (Zlen (sdiff c.2 covered), kc) b.2) as Hall.
  { intros c [j Hj]%list_elem_of_lookup.
    destruct (Forall2_lookup_l _ _ _ _ _ Hk Hj) as (k & Hkj & <- & Nk & Kk).
    exists k.2.2. split; [done|]. rewrite <- Nk. apply list_elem_of_lookup_2, Hmax in Hkj.
    by destruct k as [? [? ?]]. }
  split; [by eapply list_elem_of_lookup_2|]. split.
  - intros c Hc. destruct (Hall c Hc) as (kc & _ & [H|[H _]]); simpl in H; lia.
  - intros c kc kb Hc Ec Ekb. destruct (Hall c Hc) as (kc' & Ec' & Hle).
    rewrite Ec in Ec'. injection Ec' as <-. rewrite Kb in Ekb. injection Ekb as <-.
    rewrite <- Nb. by destruct b as [? [? ?]].
Qed.

Lemma candidates_remove l (b : Candidate) :
  candidates_ok l -> candidates_ok (filter (fun c => c.1 <> b.1) l).
Proof.
  intros [Hn Hv]. split.
  - eapply sublist_NoDup; [exact Hn|]. apply fmap_sublist, sublist_filter.
  - apply Forall_forall. intros c [_ Hc]%list_elem_of_filter. by eapply Forall_forall in Hv.
Qed.

Lemma candidates_fst l c c' : candidates_ok l -> c ∈ l -> c' ∈ l -> c.1 = c'.1 -> c = c'.
Proof.
  intros [Hn _] [i Hi]%list_elem_of_lookup [j Hj]%list_elem_of_lookup E.
  assert (i = j) as ->; [|congruence].
  eapply NoDup_lookup; [exact Hn|by rewrite list_lookup_fmap, Hi|].
  rewrite list_lookup_fmap, Hj. simpl. by rewrite E.
Qed.

Lemma sdiff_nil {A} `{EqDecision A} (s1 s2 : list A) x : sdiff s1 s2 = [] -> x ∈ s1 -> x ∈ s2.
Proof.
  intros E Hx. destruct (decide (x ∈ s2)) as [|Hn]; [done|]. exfalso.
  assert (x ∈ sdiff s1 s2) as H by (by apply elem_of_sdiff). rewrite E in H. by apply elem_of_nil in H.
Qed.

Lemma length_sunion_ge {A} `{EqDecision A} (s1 s2 : list A) : (length s1 <= length (sunion s1 s2))%nat.
Proof.
  unfold sunion. revert s1. induction s2 as [|x s2 IH]; intros s1; simpl; [done|].
  etrans; [|apply IH]. unfold sadd. case_decide; [done|]. rewrite length_app. lia.
Qed.

Lemma length_sunion_new {A} `{EqDecision A} (s1 s2 : list A) :
  s2 <> [] -> (forall x, x ∈ s2 -> x ∉ s1) -> (length s1 < length (sunion s1 s2))%nat.
Proof.
  destruct s2 as [|x s2]; [done|]. intros _ Hd. unfold sunion. simpl.
  eapply Nat.lt_le_trans; [|apply length_sunion_ge]. unfold sadd.
  rewrite decide_False by (apply Hd; left). rewrite length_app. simpl. lia.
Qed.

(** What the loop adds to the selection and to the coverage. *)
Definition selected_from (l : list Candidate) (cov : list Z) (sel' : list SingleMessageAggregate)
    (cov' : list Z) : Prop :=
  NoDup sel' /\ (forall p, p ∈ sel' -> p ∈ l.*1) /\
  (forall v, v ∈ cov' <-> v ∈ cov \/ exists c, c ∈ l /\ v ∈ c.2) /\
  (forall v, v ∈ cov' -> v ∈ cov \/ exists c, c ∈ l /\ c.1 ∈ sel' /\ v ∈ c.2) /\
  (NoDup cov -> NoDup cov' /\ (length sel' + length cov <= length cov')%nat).

Lemma selected_stop l cov :
  (forall c v, c ∈ l -> v ∈ c.2 -> v ∈ cov) -> selected_from l cov [] cov.
Proof.
  intros H. unfold selected_from. split_and!; [constructor|by intros p ?%elem_of_nil| |by left|done].
  intros v. split; [by left|]. intros [?|(c & ? & ?)]; eauto.
Qed.

Lemma selected_step l cov b sel' cov' :
  candidates_ok l -> b ∈ l -> sdiff b.2 cov <> [] ->
  selected_from (filter (fun c => c.1 <> b.1) l) (sunion cov (sdiff b.2 cov)) sel' cov' ->
  selected_from l cov (b.1 :: sel') cov'.
Proof.
  intros Hl Hb Hnew (S1 & S2 & S3 & S4 & S5). unfold selected_from.
  assert (forall v, v ∈ sunion cov (sdiff b.2 cov) <-> v ∈ cov \/ v ∈ b.2) as Hu.
  { intros v. rewrite elem_of_sunion, elem_of_sdiff. destruct (decide (v ∈ cov)); naive_solver. }
  assert (forall c, c ∈ filter (fun c => c.1 <> b.1) l -> c ∈ l) as Hf
    by (by intros c [_ ?]%list_elem_of_filter).
  split_and!.
  - constructor; [|done]. intros (c & E & [Hc _]%list_elem_of_filter)%S2%list_elem_of_fmap. congruence.
  - intros p [->|(c & -> & Hc%Hf)%S2%list_elem_of_fmap]%elem_of_cons; by apply list_elem_of_fmap_2.
  - intros v. rewrite S3, Hu. split.
    + intros [[?|?]|(c & Hc%Hf & ?)]; eauto.
    + intros [?|(c & Hc & Hv)]; [auto|]. destruct (decide (c.1 = b.1)) as [E|E].
      * rewrite (candidates_fst l c b Hl Hc Hb E) in Hv. auto.
      * right. exists c. split; [by apply list_elem_of_filter|done].
  - intros v Hv%S4. rewrite Hu in Hv. destruct Hv as [[?|?]|(c & Hc%Hf & Hs & ?)]; [auto|right..].
    + exists b. split_and!; [done|left|done].
    + exists c. split_and!; [done|by right|done].
  - intros Hn. destruct S5 as [S5 Hlen]; [by apply NoDup_sunion|]. split; [done|].
    pose proof (length_sunion_new cov (sdiff b.2 cov) Hnew) as Hge.
    specialize (Hge ltac:(by intros x [_ ?]%elem_of_sdiff)). simpl. lia.
Qed.

Lemma select_loop_ok fuel l sel cov :
  candidates_ok l -> (length l <= fuel)%nat ->
  exists sel' cov', select_loop fuel l sel cov = Ok (sel ++ sel', cov') /\
    selected_from l cov sel' cov'.
Proof.
  revert l sel cov. induction fuel as [|fuel IH]; intros l sel cov Hl Hf; cbn [select_loop];
    destruct (coverage_keys_ok cov l (proj2 Hl)) as (ks & -> & Hks); mcbn;
    (destruct ks as [|first rest];
      [apply Forall2_nil_inv_r in Hks as ->; exists [], cov; rewrite app_nil_r; split; [done|];
       apply selected_stop; by intros c v ?%elem_of_nil|]).
  { apply Forall2_length in Hks. simpl in Hks. lia. }
  destruct (max_keyed_ok _ _ _ _ Hks) as (Hb & Hmax & _).
  set (b := max_keyed first rest) in *. clearbody b.
  destruct (sdiff b.2 cov) as [|x new] eqn:En.
  - exists [], cov. rewrite app_nil_r. split; [done|]. apply selected_stop. intros c v Hc.
    apply sdiff_nil. apply length_zero_iff_nil. specialize (Hmax c Hc). simpl in Hmax. lia.
  - destruct (IH (filter (fun c => c.1 <> b.1) l) (sel ++ [b.1]) (sunion cov (x :: new)))
      as (sel' & cov' & -> & Hs).
    + by apply candidates_remove.
    + pose proof (length_filter_lt (fun c : Candidate => c.1 <> b.1) l b Hb ltac:(auto)). lia.
    + exists (b.1 :: sel'), cov'. rewrite <- app_assoc. split; [done|].
      apply selected_step; [done|done|by rewrite En|by rewrite En].
Qed.

(** The sets' iteration order does not matter. *)
Lemma select_loop_perm fuel l l' sel cov :
  candidates_ok l -> l ≡ₚ l' -> select_loop fuel l sel cov = select_loop fuel l' sel cov.
Proof.
  revert l l' sel cov. induction fuel as [|fuel IH]; intros l l' sel cov Hl Hp; cbn [select_loop];
    (assert (candidates_ok l') as Hl' by (destruct Hl; split; [by rewrite <- Hp|by rewrite <- Hp]));
    destruct (coverage_keys_ok cov l (proj2 Hl)) as (ks & -> & Hks),
             (coverage_keys_ok cov l' (proj2 Hl')) as (ks' & -> & Hks'); mcbn;
    destruct ks as [|first rest], ks' as [|first' rest']; try done;
    try (apply Forall2_length in Hks, Hks'; apply Permutation_length in Hp; simpl in *; lia);
    destruct (max_keyed_ok _ _ _ _ Hks) as (Hb & _ & Hmax),
             (max_keyed_ok _ _ _ _ Hks') as (Hb' & _ & Hmax');
    set (b := max_keyed first rest) in *; set (b' := max_keyed first' rest') in *;
    (assert (b = b') as <- by
      (destruct Hl as [Hn Hv]; rewrite Forall_forall in Hv; rewrite <- Hp in Hb';
       destruct (sma_encode_total b.1 (Hv _ Hb)) as [kb Ekb],
                (sma_encode_total b'.1 (Hv _ Hb')) as [kb' Ekb'];
       pose proof (Hmax b' kb' kb Hb' Ekb' Ekb) as H1;
       pose proof (Hmax' b kb kb' ltac:(by rewrite <- Hp) Ekb Ekb') as H2;
       pose proof (tuple_le_antisym _ _ H1 H2) as E; injection E as _ E; subst kb';
       apply (candidates_fst l); [by split; [|apply Forall_forall]|done|done|];
       by eapply sma_encode_inj; [apply Hv|apply Hv|..]));
    destruct (sdiff b.2 cov); try done.
  apply IH; [by apply candidates_remove|]. by rewrite Hp.
Qed.
End Select.

(** ** Both pools *)
Definition proof_typed (p : SingleMessageAggregate) : Prop := ssz_valid p = true /\ proof_ok p.

(** [v] is a participant of [p]. *)
Definition covers (p : SingleMessageAggregate) (v : Z) : Prop := v ∈ set_indices (sma_participants p).

Lemma covered_by_ok pool :
  Forall proof_typed pool -> NoDup pool ->
  exists l, mapM covered_by pool = Ok l /\ l.*1 = pool /\ candidates_ok l /\
    forall c, c ∈ l -> c.2 = set_indices (sma_participants c.1).
Proof.
  intros Hp Hn.
  assert (exists l, mapM covered_by pool = Ok l /\ l.*1 = pool /\
    forall c, c ∈ l -> c.2 = set_indices (sma_participants c.1)) as (l & E & Hf & Hc).
  { clear Hn. induction Hp as [|p pool [_ [ix Hix]] _ (l & E & Hf & Hc)].
    - exists []. split_and!; [done|done|]. by intros c ?%elem_of_nil.
    - exists ((p, ix) :: l). cbn [mapM].
      assert (covered_by p = Ok (p, ix)) as -> by (unfold covered_by; by rewrite Hix).
      mcbn. rewrite E. split_and!; [done|by rewrite <- Hf|].
      intros c [->|Hin]%elem_of_cons; [|by apply Hc]. by apply to_validator_indices_Ok in Hix as [-> _]. }
  exists l. split_and!; [done..| |done]. split; [by rewrite Hf|]. apply Forall_forall. intros c Hin.
  rewrite Forall_forall in Hp. apply Hp. rewrite <- Hf. by apply list_elem_of_fmap_2.
Qed.

Lemma select_from_pool_ok sel cov pool :
  Forall proof_typed pool -> NoDup pool ->
  exists sel' cov', select_from_pool (sel, cov) pool = Ok (sel ++ sel', cov') /\
    NoDup sel' /\ sel' ⊆ pool /\
    (forall v, v ∈ cov' <-> v ∈ cov \/ exists p, p ∈ pool /\ covers p v) /\
    (forall v, v ∈ cov' -> v ∈ cov \/ exists p, p ∈ sel' /\ covers p v) /\
    (NoDup cov -> NoDup cov' /\ (length sel' + length cov <= length cov')%nat).
Proof.
  intros Hp Hn. destruct (covered_by_ok pool Hp Hn) as (l & E & Hf & Hl & Hc).
  unfold select_from_pool. rewrite E. mcbn. cbn [fst snd].
  destruct (select_loop_ok (length l) l sel cov Hl (le_n _)) as (sel' & cov' & -> & H1 & H2 & H3 & H4 & H5).
  exists sel', cov'. split; [done|]. rewrite Hf in H2. split_and!; try done.
  - intros v. rewrite H3. split; (intros [?|Hx]; [by left|right]).
    + destruct Hx as (c & Hin & Hv). exists c.1. unfold covers. rewrite <- Hc by done.
      split; [|done]. rewrite <- Hf. by apply list_elem_of_fmap_2.
    + destruct Hx as (p & Hin & Hv). rewrite <- Hf in Hin.
      apply list_elem_of_fmap in Hin as (c & -> & Hin). exists c. by rewrite (Hc c Hin).
  - intros v [?|(c & Hin & Hs & Hv)]%H4; [by left|right]. exists c.1. unfold covers. by rewrite <- Hc.
Qed.

Lemma select_from_pool_perm acc pool pool' :
  Forall proof_typed pool -> NoDup pool -> pool ≡ₚ pool' ->
  select_from_pool acc pool = select_from_pool acc pool'.
Proof.
  intros Hp Hn Hpp. destruct (covered_by_ok pool Hp Hn) as (l & E & Hf & Hl & Hc).
  destruct (covered_by_ok pool') as (l' & E' & Hf' & Hl' & Hc'); [by rewrite <- Hpp|by rewrite <- Hpp|].
  unfold select_from_pool. rewrite E, E'. mcbn.
  assert (l ≡ₚ l') as Hperm.
  { assert (forall k : list Candidate, (forall c, c ∈ k -> c.2 = set_indices (sma_participants c.1)) ->
      k = (fun p => (p, set_indices (sma_participants p))) <$> k.*1) as Hk.
    { induction k as [|[p ix] k IH]; intros H; [done|]. rewrite !fmap_cons. simpl. f_equal.
      - f_equal. apply (H (p, ix)). left.
      - apply IH. intros c Hin. apply H. by right. }
    rewrite (Hk l Hc), (Hk l' Hc'), Hf, Hf'. by rewrite Hpp. }
  rewrite (Permutation_length Hperm). by apply select_loop_perm.
Qed.

Lemma select_pools_ok (priority fallback : list SingleMessageAggregate) :
  Forall proof_typed priority -> Forall proof_typed fallback -> NoDup priority -> NoDup fallback ->
  exists selected covered,
    select_proofs_for_coverage priority fallback = Ok (selected, covered) /\
    selected ⊆ priority ++ fallback /\
    (forall v, v ∈ covered <-> exists p, p ∈ priority ++ fallback /\ covers p v) /\
    (forall v, v ∈ covered <-> exists p, p ∈ selected /\ covers p v) /\
    NoDup covered /\ (length selected <= length covered)%nat.
Proof.
  intros Hp Hf Np Nf. unfold select_proofs_for_coverage. cbn [foldM].
  destruct (select_from_pool_ok [] [] priority Hp Np) as (s1 & c1 & -> & _ & S1 & C1 & D1 & L1). mcbn.
  destruct (select_from_pool_ok ([] ++ s1) c1 fallback Hf Nf) as (s2 & c2 & -> & _ & S2 & C2 & D2 & L2).
  mcbn. exists (s1 ++ s2), c2. destruct L1 as [N1 L1]; [constructor|]. destruct (L2 N1) as [N2 L2'].
  assert (forall v, v ∈ c2 <-> exists p, p ∈ priority ++ fallback /\ covers p v) as Hall.
  { intros v. rewrite C2, C1, elem_of_nil. setoid_rewrite elem_of_app. naive_solver. }
  assert (s1 ++ s2 ⊆ priority ++ fallback) as Hsub.
  { intros p [?|?]%elem_of_app; apply elem_of_app; auto. }
  split; [done|]. split_and!; [done|done| |done|rewrite length_app; simpl in *; lia].
  intros v. split.
  - setoid_rewrite elem_of_app. intros [Hv|(p & ? & ?)]%D2; [|eauto].
    destruct (D1 v Hv) as [?%elem_of_nil|(p & ? & ?)]; [done|eauto].
  - intros (p & Hin & Hv). apply Hall. eauto.
Qed.

(** Greedy selection over well-typed pools always succeeds.  The coverage it
    returns is every validator that some proof of either pool covers, the selected
    proofs alone account for all of it, and there are at most as many of them as
    covered validators, because each adds at least one. *)
Theorem select_proofs_covers_everyone (priority fallback : list SingleMessageAggregate) :
  Forall proof_typed priority -> Forall proof_typed fallback -> NoDup priority -> NoDup fallback ->
  exists selected covered,
    select_proofs_for_coverage priority fallback = Ok (selected, covered) /\
    selected ⊆ priority ++ fallback /\
    (forall v, v ∈ covered <-> exists p, p ∈ priority ++ fallback /\ covers p v) /\
    (forall v, v ∈ covered <-> exists p, p ∈ selected /\ covers p v) /\
    NoDup covered /\ (length selected <= length covered)%nat.
Proof. apply select_pools_ok. Qed.

(** The selection does not depend on the iteration order of the sets it is
    given: permuted pools select the same proofs in the same order. *)
Theorem select_proofs_order_independent
    (priority priority' fallback fallback' : list SingleMessageAggregate) :
  Forall proof_typed priority -> Forall proof_typed fallback -> NoDup priority -> NoDup fallback ->
  priority ≡ₚ priority' -> fallback ≡ₚ fallback' ->
  select_proofs_for_coverage priority fallback = select_proofs_for_coverage priority' fallback'.
Proof.
  intros Hp Hf Np Nf Ep Ef. unfold select_proofs_for_coverage. cbn [foldM].
  rewrite (select_from_pool_perm ([], []) priority priority' Hp Np Ep).
  destruct (select_from_pool _ priority') as [acc|]; mcbn; [|done].
  by rewrite (select_from_pool_perm acc fallback fallback' Hf Nf Ef).
Qed.

Definition sample_pool : list SingleMessageAggregate :=
  [sample_proof [true; true]; sample_proof [false; true; true]; sample_proof [false; true]].
Definition sample_fallback : list SingleMessageAggregate := [sample_proof [true; false; false; true]].

Lemma proof_typed_bool p :
  ssz_valid p && is_Ok (to_validator_indices (sma_participants p)) = true -> proof_typed p.
Proof. rewrite andb_true_iff, is_Ok_exists. done. Qed.

Lemma sample_pool_typed : Forall proof_typed sample_pool /\ Forall proof_typed sample_fallback.
Proof. split; repeat constructor; apply proof_typed_bool; vm_compute; reflexivity. Qed.

Lemma sample_pool_nodup : NoDup sample_pool /\ NoDup sample_fallback.
Proof. split; apply (bool_decide_unpack _); vm_compute; exact I. Qed.

(** The proof covering only validator 1 adds nothing and is left out. *)
Lemma select_proofs_covers_everyone_witness :
  select_proofs_for_coverage sample_pool sample_fallback =
    Ok ([sample_proof [false; true; true]; sample_proof [true; true];
         sample_proof [true; false; false; true]], [1; 2; 0; 3]) /\
  exists selected covered,
    select_proofs_for_coverage sample_pool sample_fallback = Ok (selected, covered) /\
    (length selected <= length covered)%nat.
Proof.
  split; [vm_compute; reflexivity|].
  destruct (select_proofs_covers_everyone sample_pool sample_fallback (proj1 sample_pool_typed)
    (proj2 sample_pool_typed) (proj1 sample_pool_nodup) (proj2 sample_pool_nodup))
    as (sel & cov & E & _ & _ & _ & _ & L).
  exists sel, cov. exact (conj E L).
Defined.

Lemma select_proofs_order_independent_witness :
  select_proofs_for_coverage sample_pool sample_fallback =
  select_proofs_for_coverage (rev sample_pool) sample_fallback.
Proof.
  apply (select_proofs_order_independent sample_pool (rev sample_pool) sample_fallback sample_fallback
    (proj1 sample_pool_typed) (proj2 sample_pool_typed) (proj1 sample_pool_nodup)
    (proj2 sample_pool_nodup)).
  - apply Permutation_rev.
  - reflexivity.
Defined.

(** ** The aggregation round *)

(** Proofs and raw votes of validators of a registry of [n]. *)
Definition proof_within (n : Z) (p : SingleMessageAggregate) : Prop :=
  proof_typed p /\ forall v, covers p v -> v < n.
Definition entry_within (n : Z) (e : AttestationSignatureEntry) : Prop :=
  0 <= se_validator_index e < n /\ is_Ok (container_encode (se_signature e)) = true.

Lemma covers_nonneg p v : covers p v -> 0 <= v.
Proof. by intros [? _]%elem_of_set_indices. Qed.

Lemma insert_entry_perm e l : insert_entry e l ≡ₚ e :: l.
Proof.
  induction l as [|x l IH]; simpl; [done|]. case_match; [done|]. rewrite IH. apply Permutation_swap.
Qed.

Lemma sorted_entries_perm l : sorted_entries l ≡ₚ l.
Proof. induction l as [|e l IH]; simpl; [done|]. by rewrite insert_entry_perm, IH. Qed.

(** The prover's triples can be serialized. *)
Definition triple_ok (t : Z * ssz_value * Signature) : Prop :=
  0 <= t.1.1 /\ is_Ok (PublicKey_encode_bytes t.1.2) = true /\ is_Ok (container_encode t.2) = true.

Section Round.
Context `{Crypto} (validators : list Validator) (Hkeys : keys_decode validators).
Let n := Zlen validators.

Lemma raw_triples_ok entries covered :
  Forall (entry_within n) entries ->
  exists raws, raw_triples validators entries covered = Ok raws /\ Forall triple_ok raws /\
    forall v, v ∈ map (fun t => t.1.1) raws <->
      v ∉ covered /\ exists e, e ∈ entries /\ se_validator_index e = v.
Proof.
  intros He. unfold raw_triples.
  assert (forall v, (exists e, e ∈ filter (fun e => se_validator_index e ∉ covered) (sorted_entries entries) /\
      se_validator_index e = v) <-> v ∉ covered /\ exists e, e ∈ entries /\ se_validator_index e = v) as Hv.
  { intros v. setoid_rewrite list_elem_of_filter. setoid_rewrite sorted_entries_perm. naive_solver. }
  assert (Forall (entry_within n) (filter (fun e => se_validator_index e ∉ covered) (sorted_entries entries)))
    as Hf. { apply Forall_forall. intros e [_ Hin]%list_elem_of_filter. rewrite sorted_entries_perm in Hin.
             by eapply Forall_forall in He. }
  setoid_rewrite <- Hv. clear Hv He. induction Hf as [|e l [Hr Hs] _ (raws & E & Ht & Hv)]; cbn [mapM].
  - exists []. split; [done|]. split; [constructor|]. intros v. split; [by intros ?%elem_of_nil|].
    by intros (e & ?%elem_of_nil & _).
  - destruct (attestation_key_ok validators Hkeys (se_validator_index e) Hr) as (k & Ek & _ & Ekb).
    rewrite Ek. mcbn. rewrite E. mcbn. eexists. split; [done|]. split.
    + constructor; [|done]. split_and!; simpl; [lia|by rewrite Ekb|done].
    + intros v. cbn [map fst]. rewrite elem_of_cons, Hv. setoid_rewrite elem_of_cons. naive_solver.
Qed.

Lemma children_ok proofs :
  Forall (proof_within n) proofs ->
  exists cs, mapM (child_with_keys validators) proofs = Ok cs /\ cs.*1 = proofs /\
    Forall (fun c => is_Ok (mapM PublicKey_encode_bytes c.2) = true) cs.
Proof.
  induction 1 as [|p proofs [[Hv [ix Hix]] Hw] _ (cs & E & Hf & Hk)]; [by exists []|]. cbn [mapM].
  destruct (attestation_keys_ok validators Hkeys ix) as (ks & Ek & Eb).
  { apply Forall_forall. intros i Hi. apply to_validator_indices_Ok in Hix as [-> _].
    split; [by eapply covers_nonneg|by apply Hw]. }
  assert (child_with_keys validators p = Ok (p, ks)) as ->
    by (unfold child_with_keys; rewrite Hix; mcbn; by rewrite Ek).
  mcbn. rewrite E. mcbn. eexists. split; [done|]. split; [by rewrite fmap_cons, Hf|].
  constructor; [by simpl; rewrite Eb|done].
Qed.

(** The participants of a merge: the fresh signers and everyone its children cover. *)
Lemma merge_indices_spec (cs : list (SingleMessageAggregate * list ssz_value))
    (raws : list (Z * ssz_value * Signature)) ixs v :
  mapM (fun c => to_validator_indices (sma_participants c.1)) cs = Ok ixs ->
  v ∈ sunion (set_of (map (fun e => e.1.1) raws)) (mjoin ixs) <->
  v ∈ map (fun t => t.1.1) raws \/ exists c, c ∈ cs /\ covers c.1 v.
Proof.
  intros Eix%mapM_Ok. rewrite elem_of_sunion, elem_of_set_of, list_elem_of_join. f_equiv. split.
  - intros (ix & Hv & [i Hi]%list_elem_of_lookup).
    destruct (Forall2_lookup_r _ _ _ _ _ Eix Hi) as (c & Hci & Ei).
    apply to_validator_indices_Ok in Ei as [-> _]. exists c. split; [|done].
    by eapply list_elem_of_lookup_2.
  - intros (c & [i Hi]%list_elem_of_lookup & Hv).
    destruct (Forall2_lookup_l _ _ _ _ _ Eix Hi) as (ix & Hxi & Ei).
    apply to_validator_indices_Ok in Ei as [-> _]. eexists. split; [exact Hv|].
    by eapply list_elem_of_lookup_2.
Qed.

Lemma proof_ok_covers p : proof_ok p -> exists v, covers p v.
Proof.
  intros [ix [-> Hix]%to_validator_indices_Ok]. unfold covers.
  destruct (set_indices (sma_participants p)) as [|v l]; [done|]. exists v. left.
Qed.

(** The outcome of a call to the prover through [SingleMessageAggregate.aggregate]. *)
Lemma sma_aggregate_cases cs raws message slot :
  Forall (fun c => proof_within n c.1 /\ is_Ok (mapM PublicKey_encode_bytes c.2) = true) cs ->
  Forall triple_ok raws -> (forall t, t ∈ raws -> t.1.1 < n) -> n <= VALIDATOR_REGISTRY_LIMIT ->
  raws <> [] \/ cs <> [] ->
  (exists a, sma_aggregate cs raws message slot = Ok a /\ proof_within n a /\
     forall v, covers a v <-> v ∈ map (fun t => t.1.1) raws \/ exists c, c ∈ cs /\ covers c.1 v) \/
  sma_aggregate cs raws message slot = Err AggregationError \/
  sma_aggregate cs raws message slot = Err SSZValueError.
Proof.
  intros Hc Hr Hrn Hn Hne. unfold sma_aggregate. rewrite Forall_forall in Hc. rewrite Forall_forall in Hr.
  destruct (mapM_total (fun c => to_validator_indices (sma_participants c.1)) cs) as [ixs Eix].
  { intros c Hin. destruct (Hc c Hin) as [[[_ [ix Hix]] _] _]. by rewrite Hix. }
  rewrite Eix. mcbn. set (all := sunion _ _).
  pose proof (fun v => merge_indices_spec cs raws ixs v Eix) as Hall. fold all in Hall.
  assert (forall v, v ∈ all -> 0 <= v < n) as Hrange.
  { intros v [(t & -> & Hin)%list_elem_of_fmap|(c & Hin & Hv)]%Hall.
    - destruct (Hr t Hin) as [? _]. split; [done|by apply Hrn].
    - destruct (Hc c Hin) as [[_ Hw] _]. split; [by eapply covers_nonneg|by apply Hw]. }
  assert (all <> []) as Hnonempty.
  { assert (exists v, v ∈ all) as [v Hv]; [|intros E; rewrite E in Hv; by apply elem_of_nil in Hv].
    destruct Hne as [Hne|Hne].
    - destruct raws as [|t raws']; [done|]. exists t.1.1. apply Hall. left. left.
    - destruct cs as [|c cs']; [done|]. destruct (Hc c ltac:(left)) as [[[_ Hok] _] _].
      destruct (proof_ok_covers _ Hok) as [v Hv]. exists v. apply Hall. right. exists c. by split; [left|]. }
  destruct (from_indices_total all) as [bits Ebits].
  { apply Forall_forall. intros v Hv. by apply Hrange. }
  { done. }
  { apply Forall_forall. intros v Hv%Hrange. lia. }
  rewrite Ebits. mcbn. apply from_indices_Ok in Ebits as (_ & _ & Hlen & Hbits);
    [|apply Forall_forall; intros v Hv; by apply Hrange].
  destruct (mapM_total (fun e : Z * ssz_value * Signature => PublicKey_encode_bytes e.1.2) raws)
    as [pks ->]; [intros t Hin; apply (Hr t Hin)|]. mcbn.
  destruct (mapM_total (fun e : Z * ssz_value * Signature => container_encode e.2) raws)
    as [sgs ->]; [intros t Hin; apply (Hr t Hin)|]. mcbn.
  destruct (mapM_total (fun c : SingleMessageAggregate * list ssz_value =>
    keys ← mapM PublicKey_encode_bytes c.2; Ok (keys, sma_proof c.1)) cs) as [cbs ->].
  { intros c Hin. destruct (Hc c Hin) as [_ [k Hk]%is_Ok_exists]. by rewrite Hk. }
  mcbn. destruct (aggregate_single_message _ _ _ _ _) as [wire|]; mcbn; [|by right; left].
  unfold bytelist_new. destruct (Zlen wire <=? BYTE_LIST_512_KIB) eqn:Ew; mcbn; [|by right; right].
  left. eexists. split; [done|]. apply Z.leb_le in Ew.
  assert (forall v, covers {| sma_participants := bits; sma_proof := wire |} v <-> v ∈ all) as Hcov
    by (intros v; apply Hbits).
  split; [|intros v; by rewrite Hcov, Hall]. split; [|intros v; rewrite Hcov; apply Hrange].
  split; [by apply sma_valid|]. unfold proof_ok. cbn [sma_participants].
  destruct (to_validator_indices bits) as [l|e] eqn:El; [eauto|].
  apply to_validator_indices_Err in El as [_ El]; [|done]. destruct all as [|v all']; [done|].
  assert (v ∈ set_indices bits) as Hv by (apply Hbits; left). rewrite El in Hv. by apply elem_of_nil in Hv.
Qed.

(** The proofs and the raw votes the store holds for [data]. *)
Definition data_proofs (s : Store) (data : AttestationData) : list SingleMessageAggregate :=
  default [] (dget data (sto_latest_new_aggregated_payloads s)) ++
  default [] (dget data (sto_latest_known_aggregated_payloads s)).
Definition data_votes (s : Store) (data : AttestationData) : list AttestationSignatureEntry :=
  default [] (dget data (sto_attestation_signatures s)).

(** The store holds evidence of [v]'s vote for [data]. *)
Definition evidence (s : Store) (data : AttestationData) (v : Z) : Prop :=
  (exists p, p ∈ data_proofs s data /\ covers p v) \/
  (exists e, e ∈ data_votes s data /\ se_validator_index e = v).

Record data_typed (s : Store) (data : AttestationData) : Prop := {
  dt_proofs : Forall (proof_within n) (data_proofs s data);
  dt_votes : Forall (entry_within n) (data_votes s data);
  dt_new : NoDup (default [] (dget data (sto_latest_new_aggregated_payloads s)));
  dt_known : NoDup (default [] (dget data (sto_latest_known_aggregated_payloads s)))
}.

Definition aggregation_error (e : exn) : Prop := e = AggregationError \/ e = SSZValueError.

Lemma select_ok s data :
  data_typed s data ->
  exists selected covered,
    select_proofs_for_coverage (default [] (dget data (sto_latest_new_aggregated_payloads s)))
      (default [] (dget data (sto_latest_known_aggregated_payloads s))) = Ok (selected, covered) /\
    Forall (proof_within n) selected /\
    (forall v, v ∈ covered <-> exists p, p ∈ data_proofs s data /\ covers p v) /\
    (forall v, v ∈ covered <-> exists p, p ∈ selected /\ covers p v).
Proof.
  intros [Hp Hv N1 N2]. unfold data_proofs in Hp. apply Forall_app in Hp as [H1 H2].
  destruct (select_pools_ok (default [] (dget data (sto_latest_new_aggregated_payloads s)))
    (default [] (dget data (sto_latest_known_aggregated_payloads s))))
    as (sel & cov & E & Hsub & Hc & Hs & _);
    [by eapply Forall_impl; [exact H1|intros p []]|by eapply Forall_impl; [exact H2|intros p []]|done|done|].
  exists sel, cov. split_and!; [done| |done|done]. apply Forall_forall. intros p Hin%Hsub.
  rewrite Forall_forall in H1. rewrite Forall_forall in H2. apply elem_of_app in Hin as [?|?]; auto.
Qed.

Lemma aggregate_data_cases s data :
  data_typed s data -> n <= VALIDATOR_REGISTRY_LIMIT ->
  (aggregate_data s validators data = Ok None /\
   forall v, evidence s data v -> exists p, p ∈ data_proofs s data /\ covers p v) \/
  (exists a, aggregate_data s validators data = Ok (Some a) /\ saa_data a = data /\
     proof_within n (saa_proof a) /\ forall v, covers (saa_proof a) v <-> evidence s data v) \/
  (exists e, aggregate_data s validators data = Err e /\ aggregation_error e).
Proof.
  intros Ht Hn. unfold aggregate_data. fold (data_votes s data).
  destruct (select_ok s data Ht) as (sel & cov & -> & Hw & Hc & Hs). mcbn.
  destruct (raw_triples_ok (data_votes s data) cov (dt_votes _ _ Ht)) as (raws & -> & Hr & Hrv). mcbn.
  assert (forall v, v ∈ map (fun t => t.1.1) raws \/ v ∈ cov <-> evidence s data v) as Hev.
  { intros v. unfold evidence. rewrite <- Hc, Hrv. destruct (decide (v ∈ cov)); naive_solver. }
  destruct ((Zlen raws =? 0) && (Zlen sel <? 2)) eqn:Eg.
  - left. split; [done|]. intros v Hv. apply andb_true_iff in Eg as [Eg%Zlen_0 _]. subst raws.
    apply Hc. apply Hev in Hv as [?%elem_of_nil|?]; done.
  - right. destruct (children_ok sel Hw) as (cs & -> & Hf & Hk). mcbn.
    destruct (sma_aggregate_cases cs raws (hash_tree_root data) (ad_slot data))
      as [(a & -> & Ha & Hcov)|[->| ->]]; mcbn; [| | |done|..]; cycle -2.
    + right. eexists. split; [done|by left].
    + right. eexists. split; [done|by right].
    + apply Forall_forall. intros c Hin. split; [|by eapply Forall_forall in Hk].
      eapply Forall_forall; [exact Hw|]. rewrite <- Hf. by apply list_elem_of_fmap_2.
    + done.
    + intros t Hin. assert (t.1.1 ∈ map (fun t : Z * ssz_value * Signature => t.1.1) raws) as Hm
        by (by apply (list_elem_of_fmap_2 (fun t : Z * ssz_value * Signature => t.1.1))).
      apply Hrv in Hm as [_ (e & He & <-)]. pose proof (dt_votes _ _ Ht) as Hd.
      rewrite Forall_forall in Hd. apply (Hd e He).
    + destruct raws; [right|by left]. simpl in Eg. destruct cs; [|done]. by rewrite <- Hf in Eg.
    + left. exists {| saa_data := data; saa_proof := a |}. split_and!; [done..|]. intros v. cbn [saa_proof].
      rewrite Hcov, <- Hev, Hs. f_equiv. rewrite <- Hf. split.
      * intros (c & Hin & Hcv). exists c.1. split; [by apply list_elem_of_fmap_2|done].
      * intros (p & (c & -> & Hin)%list_elem_of_fmap & Hcv). eauto.
Qed.

Lemma round_ok s l :
  (forall d, d ∈ l -> data_typed s d) -> n <= VALIDATOR_REGISTRY_LIMIT -> NoDup l ->
  (exists results, mapM (aggregate_data s validators) l = Ok results /\
     let aggs := omap id results in
     NoDup (map saa_data aggs) /\
     (forall a, a ∈ aggs -> saa_data a ∈ l /\ proof_within n (saa_proof a) /\
        forall v, covers (saa_proof a) v <-> evidence s (saa_data a) v) /\
     (forall d, d ∈ l -> d ∉ map saa_data aggs ->
        forall v, evidence s d v -> exists p, p ∈ data_proofs s d /\ covers p v)) \/
  (exists e, mapM (aggregate_data s validators) l = Err e /\ aggregation_error e).
Proof.
  intros Ht Hn. induction l as [|d l IH]; intros Hl; cbn [mapM].
  { left. exists []. split_and!; [done|constructor|by intros a ?%elem_of_nil|by intros d ?%elem_of_nil]. }
  apply NoDup_cons in Hl as [Hd Hl].
  destruct (aggregate_data_cases s d (Ht d ltac:(left)) Hn)
    as [[-> Hnone]|[(a & -> & Ha1 & Ha2 & Ha3)|(e & -> & He)]]; mcbn; [| |right; eauto];
    (destruct IH as [(results & -> & N1 & N2 & N3)|(e & -> & He)];
      [intros d' Hin; apply Ht; by right|done| |right; eauto]); mcbn; left; eexists; (split; [done|]);
    cbn zeta in *.
  - change (omap id (None :: results)) with (omap id results). split_and!; [done| |].
    + intros a Ha. destruct (N2 a Ha) as (? & ? & ?). split_and!; [by right|done..].
    + intros d' [->|Hin]%elem_of_cons; [done|by apply N3].
  - change (omap id (Some a :: results)) with (a :: omap id results). cbn [map]. subst d. split_and!.
    + constructor; [|done]. intros (a' & Eq & Hin)%list_elem_of_fmap. apply Hd. rewrite Eq. by apply N2.
    + intros a' [->|Hin]%elem_of_cons; [split_and!; [left|done..]|].
      destruct (N2 a' Hin) as (? & ? & ?). split_and!; [by right|done..].
    + intros d' [->|Hin]%elem_of_cons Hni; [destruct Hni; left|]. apply N3; [done|].
      intros ?. apply Hni. by right.
Qed.

(** The pending pool after a round holds one merged proof per merged data. *)
Definition merged_pool (aggs : list SignedAggregatedAttestation) : ProofPool :=
  map (fun a => (saa_data a, [saa_proof a])) aggs.

Lemma merged_pool_keys aggs : dkeys (merged_pool aggs) = map saa_data aggs.
Proof. induction aggs as [|a aggs IH]; [done|]. simpl. by rewrite <- IH. Qed.

Lemma aggregate_cases s st :
  dget (sto_head s) (sto_states s) = Some st -> st_validators st = validators ->
  (forall d, d ∈ fresh_data s -> data_typed s d) -> n <= VALIDATOR_REGISTRY_LIMIT ->
  (exists aggs, aggregate s = Ok (store_with_pools s
       (dfilter (fun d => negb (dmem d (merged_pool aggs))) (sto_attestation_signatures s))
       (merged_pool aggs) (sto_latest_known_aggregated_payloads s), aggs) /\
     NoDup (map saa_data aggs) /\
     (forall a, a ∈ aggs -> saa_data a ∈ fresh_data s /\ proof_within n (saa_proof a) /\
        forall v, covers (saa_proof a) v <-> evidence s (saa_data a) v) /\
     (forall d, d ∈ fresh_data s -> d ∉ map saa_data aggs ->
        forall v, evidence s d v -> exists p, p ∈ data_proofs s d /\ covers p v)) \/
  (exists e, aggregate s = Err e /\ aggregation_error e).
Proof.
  intros Es Ev Ht Hn. unfold aggregate, dgetitem. rewrite Es. mcbn. rewrite Ev.
  destruct (round_ok s (fresh_data s) Ht Hn (NoDup_set_of _)) as [(rs & -> & N1 & N2 & N3)|(e & -> & He)];
    mcbn; [left|right; eauto]. cbn zeta in *. exists (omap id rs).
  assert (dict_of (map (fun a => (saa_data a, [saa_proof a])) (omap id rs)) = merged_pool (omap id rs)) as ->.
  { apply dict_of_NoDup. by rewrite <- merged_pool_keys in N1. }
  done.
Qed.
End Round.
