(* ===== verification/StoreReachable.v ===== *)
(** * Reachable stores

    [votes_inv] adds to [store_inv] that the evidence in the pools is well-typed and
    comes from the registry, which every state of the store shares.  Both hold in
    every store reached from a consistent anchor by blocks, gossip and ticks. *)

From S2P Require Import Prelude Pydict Uint Ssz SszCorrect Sha256 Merkle Containers.
From S2P Require Import StateTransition Samples StateCorrect StateHistory Proofs Signatures.
From S2P Require Import SignaturesCorrect ForkChoice ForkChoiceCorrect StoreVotes StoreCorrect.
From S2P Require Import StoreHandlers Aggregation AggregationCorrect.

(** Every value of a dict satisfies [P]. *)
Definition values_ok {K V} (P : V -> Prop) (d : dict K V) : Prop := forall k v, (k, v) ∈ d -> P v.

Section Values.
Context {K V : Type} `{EqDecision K} (P : V -> Prop).

Lemma values_ok_nil : values_ok P ([] : dict K V).
Proof. by intros k v ?%elem_of_nil. Qed.

Lemma values_ok_subset (d d' : dict K V) : values_ok P d -> d' ⊆ d -> values_ok P d'.
Proof. intros H Hs k v Hin. by eapply H, Hs. Qed.

Lemma values_ok_dset k v (d : dict K V) : values_ok P d -> P v -> values_ok P (dset k v d).
Proof.
  intros Hd Hv k' v' Hin.
  assert ((k', v') ∈ d \/ v' = v) as [?| ->]; [|by eapply Hd|done]. clear Hd Hv.
  induction d as [|[k0 v0] d IH]; simpl in Hin.
  - apply list_elem_of_singleton in Hin. right. congruence.
  - case_decide; apply elem_of_cons in Hin as [E|Hin]; [right; congruence|left; by right| |].
    + left. rewrite E. left.
    + destruct (IH Hin); [left; by right|by right].
Qed.

Lemma values_ok_dunion (d d' : dict K V) : values_ok P d -> values_ok P d' -> values_ok P (dunion d d').
Proof.
  unfold dunion. revert d. induction d' as [|[k v] d' IH]; intros d Hd Hd'; simpl; [done|].
  apply IH; [|intros k' v' Hin; eapply Hd'; by right].
  apply values_ok_dset; [done|]. eapply Hd'. left.
Qed.

Lemma values_ok_get k (d : dict K V) v : values_ok P d -> dget k d = Some v -> P v.
Proof. intros Hd E%dget_In. by eapply Hd. Qed.
End Values.

Definition proofs_within (n : Z) (ps : list SingleMessageAggregate) : Prop :=
  NoDup ps /\ Forall (proof_within n) ps.

Record votes_inv (registry : list Validator) (s : Store) : Prop := {
  vi_limit : Zlen registry <= VALIDATOR_REGISTRY_LIMIT;
  vi_keys : keys_decode registry;
  vi_states : values_ok (fun st => st_validators st = registry) (sto_states s);
  vi_new : values_ok (proofs_within (Zlen registry)) (sto_latest_new_aggregated_payloads s);
  vi_known : values_ok (proofs_within (Zlen registry)) (sto_latest_known_aggregated_payloads s);
  vi_votes : values_ok (Forall (entry_within (Zlen registry))) (sto_attestation_signatures s)
}.

Lemma proofs_within_nil n : proofs_within n [].
Proof. split; constructor. Qed.

Lemma proofs_within_get n d (pool : ProofPool) :
  values_ok (proofs_within n) pool -> proofs_within n (default [] (dget d pool)).
Proof.
  intros H. destruct (dget d pool) as [ps|] eqn:E; [|apply proofs_within_nil]. by eapply values_ok_get.
Qed.

Lemma proofs_within_sunion n ps qs :
  proofs_within n ps -> proofs_within n qs -> proofs_within n (sunion ps qs).
Proof.
  intros [N1 F1] [N2 F2]. split; [by apply NoDup_sunion|]. rewrite Forall_forall in *.
  intros p [?|?]%elem_of_sunion; auto.
Qed.

Lemma proofs_within_sadd n p ps :
  proof_within n p -> proofs_within n ps -> proofs_within n (sadd p ps).
Proof.
  intros Hp [N1 F1]. split; [by apply NoDup_sadd|]. rewrite Forall_forall in *.
  intros q [->|?]%elem_of_sadd; auto.
Qed.

Section Preserved.
Context `{Crypto} (registry : list Validator).
Abbreviation inv s := (votes_inv registry s).

Lemma votes_inv_data s d : inv s -> data_typed registry s d.
Proof.
  intros Hi. pose proof (proofs_within_get _ d _ (vi_new _ _ Hi)) as [N1 F1].
  pose proof (proofs_within_get _ d _ (vi_known _ _ Hi)) as [N2 F2].
  constructor; [by apply Forall_app| |done|done]. unfold data_votes.
  destruct (dget d (sto_attestation_signatures s)) as [es|] eqn:E; simpl; [|constructor].
  by eapply values_ok_get; [apply Hi|].
Qed.

(** The fields that do not concern votes may change freely. *)
Lemma votes_inv_same s s' :
  inv s -> sto_states s' = sto_states s ->
  sto_latest_new_aggregated_payloads s' = sto_latest_new_aggregated_payloads s ->
  sto_latest_known_aggregated_payloads s' = sto_latest_known_aggregated_payloads s ->
  sto_attestation_signatures s' = sto_attestation_signatures s -> inv s'.
Proof. intros [] E1 E2 E3 E4. constructor; rewrite ?E1, ?E2, ?E3, ?E4; done. Qed.

Lemma votes_inv_head s h fin : inv s -> inv (store_with_head s h fin).
Proof. intros Hi. by apply (votes_inv_same s). Qed.
Lemma votes_inv_safe s h : inv s -> inv (store_with_safe_target s h).
Proof. intros Hi. by apply (votes_inv_same s). Qed.
Lemma votes_inv_time s t : inv s -> inv (store_with_time s t).
Proof. intros Hi. by apply (votes_inv_same s). Qed.

Lemma votes_inv_pools s sigs new known :
  inv s -> values_ok (Forall (entry_within (Zlen registry))) sigs ->
  values_ok (proofs_within (Zlen registry)) new -> values_ok (proofs_within (Zlen registry)) known ->
  inv (store_with_pools s sigs new known).
Proof. intros []. by constructor. Qed.

Lemma update_head_votes s s' : inv s -> update_head s = Ok s' -> inv s'.
Proof.
  intros Hi E. unfold update_head in E. apply bind_Ok in E as (v & _ & E).
  apply bind_Ok in E as (h & _ & E). apply bind_Ok in E as (st & _ & E).
  apply bind_Ok in E as (f & _ & E). apply bind_Ok in E as (bf & _ & [= <-]). by apply votes_inv_head.
Qed.

Lemma update_safe_target_votes s s' : inv s -> update_safe_target s = Ok s' -> inv s'.
Proof.
  intros Hi E. unfold update_safe_target in E. apply bind_Ok in E as (st & _ & E).
  apply bind_Ok in E as (v & _ & E). apply bind_Ok in E as (h & _ & [= <-]). by apply votes_inv_safe.
Qed.

Lemma merge_pools_within n known new :
  values_ok (proofs_within n) known -> values_ok (proofs_within n) new ->
  values_ok (proofs_within n) (merge_pools known new).
Proof.
  intros Hk Hn d ps Hin. unfold merge_pools in Hin. apply list_elem_of_fmap in Hin as (d' & [= -> ->] & _).
  by apply proofs_within_sunion; apply proofs_within_get.
Qed.

Lemma accept_votes s s' : inv s -> accept_new_attestations s = Ok s' -> inv s'.
Proof.
  intros Hi. apply update_head_votes. apply votes_inv_pools; [done|apply Hi|apply values_ok_nil|].
  by apply merge_pools_within; apply Hi.
Qed.

Lemma prune_votes s s' : inv s -> prune_stale_attestation_data s = Ok s' -> inv s'.
Proof.
  intros Hi E. unfold prune_stale_attestation_data in E. apply bind_Ok in E as (sigs & E1 & E).
  apply bind_Ok in E as (new & E2 & E). apply bind_Ok in E as (known & E3 & [= <-]).
  apply prune_pool_ok in E1, E2, E3.
  apply votes_inv_pools; [done|..]; (eapply values_ok_subset; [|done]); apply Hi.
Qed.

Lemma seed_known_within n atts known :
  values_ok (proofs_within n) known -> values_ok (proofs_within n) (seed_known atts known).
Proof.
  intros Hk. apply values_ok_dunion; [|done]. apply values_ok_dunion; [apply values_ok_nil|].
  intros d ps Hin. apply list_elem_of_fmap in Hin as (a & [= -> ->] & _). apply proofs_within_nil.
Qed.

Lemma block_added_votes s root b post justified known parent :
  inv s -> dget (bk_parent_root b) (sto_states s) = Some parent -> state_inv parent ->
  ssz_valid b = true -> state_transition parent b = Ok post ->
  values_ok (proofs_within (Zlen registry)) known ->
  inv (store_with_block s root b post justified known).
Proof.
  intros Hi Ep Hpi Hb Ht Hk. destruct (transition_history _ _ _ Hpi Hb Ht) as (_ & _ & Hv & _).
  pose proof (values_ok_get _ _ _ _ (vi_states _ _ Hi) Ep) as Hpv. simpl in Hpv.
  destruct Hi. constructor; cbn; [done|done| |done|done|done].
  apply values_ok_dset; [done|congruence].
Qed.

Lemma gossip_attestation_votes anchor s sa agg s' :
  store_inv anchor s -> inv s -> 0 <= sa_validator_index sa ->
  is_Ok (container_encode (sa_signature sa)) = true ->
  on_gossip_attestation s sa agg = Ok s' -> inv s'.
Proof.
  intros Hs Hi Hv He E. unfold on_gossip_attestation in E. cbn zeta in E.
  apply bind_Ok in E as (u & _ & E). apply bind_Ok in E as (st & Est%of_option_Ok & E).
  destruct (negb (is_within_registry _ _)) eqn:Ew; [done|].
  apply bind_Ok in E as (k & _ & E). apply bind_Ok in E as (ok & _ & E). destruct (negb ok); [done|].
  destruct agg; cbn [negb] in E; injection E as <-; [|done].
  pose proof (values_ok_get _ _ _ _ (vi_states _ _ Hi) Est) as Hst. simpl in Hst.
  unfold is_within_registry in Ew. bool_to_prop. rewrite Hst in Ew.
  apply votes_inv_pools; [done| |apply Hi..]. apply values_ok_dset; [apply Hi|].
  pose proof (dt_votes _ _ _ (votes_inv_data s (sa_data sa) Hi)) as Hd. unfold data_votes in Hd.
  rewrite Forall_forall in *. intros e [->|?]%elem_of_sadd; [|auto]. by split; simpl.
Qed.

Lemma gossip_aggregated_votes s sa s' :
  inv s -> ssz_valid (saa_proof sa) = true -> on_gossip_aggregated_attestation s sa = Ok s' -> inv s'.
Proof.
  intros Hi Hp E. unfold on_gossip_aggregated_attestation in E. cbn zeta in E.
  apply bind_Ok in E as (u & _ & E). apply bind_Ok in E as (l & El & E).
  apply bind_Ok in E as (st & Est%of_option_Ok & E).
  destruct (forallb _ _) eqn:Ef; cbn [negb] in E; [|done].
  apply bind_Ok in E as (ks & _ & E). apply bind_Ok in E as (u' & _ & [= <-]).
  pose proof (values_ok_get _ _ _ _ (vi_states _ _ Hi) Est) as Hst. simpl in Hst. rewrite Hst in Ef.
  apply votes_inv_pools; [done|apply Hi| |apply Hi]. apply values_ok_dset; [apply Hi|].
  apply proofs_within_sadd; [|by apply proofs_within_get, Hi]. split; [split; [done|by exists l]|].
  intros v Hv. apply to_validator_indices_Ok in El as [-> _]. apply Z.ltb_lt.
  by eapply (proj1 (forallb_forall _ _) Ef), list_elem_of_In.
Qed.
End Preserved.

(** ** Ticks *)
Section Ticks.
Context `{Crypto} (anchor : Bytes32 * Block) (registry : list Validator).

Definition store_ok (s : Store) : Prop := store_inv anchor s /\ votes_inv registry s.

Lemma update_head_frame s s' :
  update_head s = Ok s' -> exists h fin, s' = store_with_head s h fin.
Proof.
  intros E. unfold update_head in E. apply bind_Ok in E as (v & _ & E).
  apply bind_Ok in E as (h & _ & E). apply bind_Ok in E as (st & _ & E).
  apply bind_Ok in E as (f & _ & E). apply bind_Ok in E as (bf & _ & [= <-]). eauto.
Qed.

Lemma accept_ok s :
  store_ok s -> exists s', accept_new_attestations s = Ok s' /\ store_ok s' /\ sto_time s' = sto_time s.
Proof.
  intros [Hs Hv]. destruct (accept_new_attestations_ok anchor s Hs) as (s' & E & Hs').
  exists s'. split; [done|]. split; [split; [done|by eapply accept_votes]|].
  apply update_head_frame in E as (h & fin & ->). done.
Qed.

Lemma safe_target_ok s :
  store_ok s -> exists s', update_safe_target s = Ok s' /\ store_ok s' /\ sto_time s' = sto_time s.
Proof.
  intros [Hs Hv]. destruct (update_safe_target_ok anchor s Hs) as (votes & st & h & E & _ & _ & Hg).
  exists (store_with_safe_target s h). split; [done|]. split; [|done]. split; [|by apply votes_inv_safe].
  apply safe_target_inv; [done|]. by eapply ghost_head_known.
Qed.

Lemma aggregate_ok s :
  store_ok s ->
  (exists s' aggs, aggregate s = Ok (s', aggs) /\ store_ok s' /\ sto_time s' = sto_time s) \/
  (exists e, aggregate s = Err e /\ aggregation_error e).
Proof.
  intros [Hs Hv]. destruct (proj1 (store_state_known _ _ _ Hs) (si_head _ _ Hs)) as [st Est].
  pose proof (values_ok_get _ _ _ _ (vi_states _ _ Hv) Est) as Hst. simpl in Hst.
  destruct (aggregate_cases registry (vi_keys _ _ Hv) s st Est Hst
    (fun d _ => votes_inv_data registry s d Hv) (vi_limit _ _ Hv))
    as [(aggs & E & _ & Ha & _)|(e & E & He)]; [left|right; eauto].
  eexists _, aggs. split; [exact E|]. split; [|done]. split.
  - apply pools_inv; [done| |apply Hs]. intros d ps p Hin Hp.
    apply list_elem_of_fmap in Hin as (a & [= -> ->] & Hin). apply list_elem_of_singleton in Hp as ->.
    destruct (Ha a Hin) as (_ & [[_ Hok] _] & _). exact Hok.
  - apply votes_inv_pools; [done| | |apply Hv].
    + eapply values_ok_subset; [apply Hv|]. intros x Hx. by apply list_elem_of_filter in Hx as [_ ?].
    + intros d ps Hin. apply list_elem_of_fmap in Hin as (a & [= -> ->] & Hin).
      destruct (Ha a Hin) as (_ & Hw & _). split; [apply NoDup_singleton|]. by apply Forall_singleton.
Qed.

Lemma tick_interval_cases s hp agg :
  store_ok s -> in_range 64 (sto_time s + 1) ->
  (exists s' l, tick_interval s hp agg = Ok (s', l) /\ store_ok s' /\ sto_time s' = sto_time s + 1) \/
  (exists e, tick_interval s hp agg = Err e /\ aggregation_error e).
Proof.
  intros Hok Hr. unfold tick_interval, uint_add. rewrite uint_new_in_range by done. mcbn.
  assert (store_ok (store_with_time s (sto_time s + 1))) as Hok1.
  { destruct Hok. split; [by apply time_inv|by apply votes_inv_time]. }
  destruct (accept_ok _ Hok1) as (sa & Ea & Hoka & Hta), (safe_target_ok _ Hok1) as (st & Et & Hokt & Htt).
  rewrite Ea, Et. mcbn.
  destruct (_ && hp); [left; eauto|]. destruct (_ && agg).
  - destruct (aggregate_ok _ Hok1) as [(s' & aggs & -> & Hs' & Ht)|(e & -> & He)]; [left|right]; eauto.
  - repeat case_match; left; eauto.
Qed.

Lemma tick_step_eq target hp agg s l :
  tick_step target hp agg (s, l) =
    (next ← uint_new 64 (sto_time s + 1);
     '(s', l') ← tick_interval s (hp && (next =? target)) agg;
     Ok (s', l ++ l')).
Proof. done. Qed.

Lemma on_tick_cases s target hp agg :
  store_ok s -> 0 <= sto_time s -> in_range 64 target ->
  (exists s' l, on_tick s target hp agg = Ok (s', l) /\ store_ok s' /\
     sto_time s' = Z.max (sto_time s) target) \/
  (exists e, on_tick s target hp agg = Err e /\ aggregation_error e).
Proof.
  intros Hok Ht Hr. unfold on_tick.
  remember (Z.to_nat (target - sto_time s)) as fuel eqn:Hf. generalize (@nil SignedAggregatedAttestation).
  revert s Hok Ht Hf. induction fuel as [|fuel IH]; intros s Hok Ht Hf l; cbn [while fst];
    destruct (Z.ltb_spec (sto_time s) target) as [Hlt|Hge]; try lia;
    try (left; exists s, l; split_and!; [done..|lia]).
  rewrite tick_step_eq. unfold in_range, max_value in *.
  rewrite uint_new_in_range by (unfold in_range, max_value; lia). mcbn.
  destruct (tick_interval_cases s (hp && (sto_time s + 1 =? target)) agg Hok)
    as [(s' & l' & -> & Hok' & Ht')|(e & -> & He)]; [unfold in_range, max_value; lia| |right; eauto].
  mcbn. destruct (IH s' Hok' ltac:(lia) ltac:(lia) (l ++ l')) as [(s2 & l2 & E & Hok2 & Ht2)|He];
    [left|by right].
  exists s2, l2. split_and!; [done|done|lia].
Qed.
End Ticks.
