(* ===== verification/DutiesCorrect.v ===== *)
(** * Correctness of block production and of validator duties

    The block a proposer builds is accepted by the state transition it is built for,
    within the limits receivers enforce; the target and source of a produced vote lie
    on the head's chain, so the vote validates. *)

From S2P Require Import Prelude Pydict Uint Ssz SszCorrect Sha256 Merkle Containers.
From S2P Require Import StateTransition Samples StateCorrect StateHistory Proofs Signatures.
From S2P Require Import SignaturesCorrect ForkChoice ForkChoiceCorrect StoreVotes StoreCorrect.
From S2P Require Import StoreHandlers Aggregation Duties SampleStores AggregationCorrect StoreReachable.

(** ** Selection *)

(** What the selection loop keeps true: one attestation per proof, with the proof's
    bits, for entries accepted once each and within the cap. *)
Record selection_inv (sel : Selection) : Prop := {
  sv_cap : Zlen (sel_processed sel) <= MAX_ATTESTATIONS_DATA;
  sv_nodup : NoDup (sel_processed sel);
  sv_data a : a ∈ sel_attestations sel -> aa_data a ∈ sel_processed sel;
  sv_bits : map aa_bits (sel_attestations sel) = map sma_participants (sel_signatures sel)
}.

Lemma selection_lengths sel :
  selection_inv sel -> length (sel_attestations sel) = length (sel_signatures sel).
Proof. intros H. pose proof (f_equal length (sv_bits _ H)) as E. by rewrite !length_map in E. Qed.

Lemma Zlen_sadd_new {A} `{EqDecision A} (x : A) s : x ∉ s -> Zlen (sadd x s) = Zlen s + 1.
Proof. intros Hx. unfold sadd. rewrite decide_False, length_app by done. simpl. lia. Qed.

Lemma accept_entry_inv sel data proofs sel' :
  selection_inv sel -> data ∉ sel_processed sel ->
  Zlen (sel_processed sel) < MAX_ATTESTATIONS_DATA -> accept_entry sel data proofs = Ok sel' ->
  selection_inv sel' /\ Zlen (sel_processed sel') = Zlen (sel_processed sel) + 1 /\
  sel_justified sel' = sel_justified sel /\ sel_finalized_slot sel' = sel_finalized_slot sel /\
  sel_justified_slots sel' = sel_justified_slots sel.
Proof.
  intros [H1 H2 H3 H4] Hn Hcap E. apply mbind_pair_Ok in E as (ps & cov & _ & [= <-]).
  split; [constructor|]; simpl; rewrite ?Zlen_sadd_new by done; try done; try lia.
  - by apply NoDup_sadd.
  - intros a Ha. apply elem_of_sadd. apply elem_of_app in Ha as [Ha|Ha]; [right; by apply H3|left].
    by apply list_elem_of_fmap in Ha as (p & -> & _).
  - rewrite !map_app, H4, map_map. done.
Qed.

(** A pass keeps the invariant, and grows the processed set when it found something. *)
Lemma scan_candidates_inv known hashes cands sel found sel' found' :
  selection_inv sel -> scan_candidates known hashes cands sel found = Ok (sel', found') ->
  selection_inv sel' /\ Zlen (sel_processed sel) <= Zlen (sel_processed sel') /\
  (found = false -> found' = true -> Zlen (sel_processed sel) < Zlen (sel_processed sel')).
Proof.
  revert sel found. induction cands as [|[d ps] cands IH]; intros sel found Hi E; cbn [scan_candidates] in E.
  { injection E as <- <-. split_and!; [done|lia|congruence]. }
  case_bool_decide as Hd; [by eapply IH|].
  destruct (Z.leb_spec MAX_ATTESTATIONS_DATA (Zlen (sel_processed sel))).
  { injection E as <- <-. split_and!; [done|lia|congruence]. }
  apply bind_Ok in E as (ok & _ & E). destruct ok; [|by eapply IH].
  apply bind_Ok in E as (sel1 & E1 & E).
  destruct (accept_entry_inv _ _ _ _ Hi Hd ltac:(lia) E1) as (Hi1 & Hlen & _).
  destruct (IH _ _ Hi1 E) as (Hi2 & Hle & _). split_and!; [done|lia|lia].
Qed.

Lemma reanchor_inv sel st : selection_inv sel -> selection_inv (reanchor sel st).
Proof. by intros []. Qed.

Lemma select_rounds_inv fuel adv known hashes cands block sel sel' :
  selection_inv sel -> select_rounds fuel adv known hashes cands block sel = Ok sel' ->
  selection_inv sel'.
Proof.
  revert sel. induction fuel as [|fuel IH]; intros sel Hi E; cbn [select_rounds] in E;
    apply mbind_pair_Ok in E as (sel1 & found & E1 & E);
    destruct (scan_candidates_inv _ _ _ _ _ _ _ Hi E1) as (Hi1 & _ & _);
    (destruct found; cbn [negb] in E; [|by injection E as <-]);
    apply bind_Ok in E as (atts & _ & E); apply bind_Ok in E as (post & _ & E);
    (destruct (_ || _); [|by injection E as <-]); [done|].
  by eapply IH; [apply reanchor_inv|].
Qed.

(** ** Grouping *)
Lemma group_signatures_wf pairs : dict_wf (group_signatures pairs).
Proof.
  unfold group_signatures. assert (dict_wf ([] : ProofPool)) as H by constructor. revert H.
  generalize ([] : ProofPool). induction pairs as [|p pairs IH]; intros d Hd; simpl; [done|].
  apply IH. by apply dset_wf.
Qed.

Lemma add_signatures_keys pairs g d :
  d ∈ dkeys (foldl add_signature g pairs) -> d ∈ dkeys g \/ exists p, p ∈ pairs /\ aa_data p.1 = d.
Proof.
  revert g. induction pairs as [|p pairs IH]; intros g Hin; [by left|].
  apply IH in Hin as [[->|?]%elem_of_dkeys_dset|(q & Hq & Eq)]; [right|by left|right].
  - exists p. split; [left|done].
  - exists q. split; [by right|done].
Qed.

Lemma group_signatures_keys pairs d :
  d ∈ dkeys (group_signatures pairs) -> exists p, p ∈ pairs /\ aa_data p.1 = d.
Proof. by intros [?%elem_of_nil|?]%add_signatures_keys. Qed.

Lemma merge_group_data `{Crypto} vals g r : merge_group vals g = Ok r -> aa_data r.1 = g.1.
Proof. destruct g as [d ps]. intros E. apply bind_Ok in E as (sig & _ & [= <-]). done. Qed.

Lemma merged_data `{Crypto} vals groups merged :
  mapM (merge_group vals) groups = Ok merged -> map aa_data (map fst merged) = dkeys groups.
Proof.
  intros E%mapM_Ok. unfold dkeys. induction E as [|g r groups merged Hr _ IH]; [done|].
  simpl. by rewrite IH, (merge_group_data _ _ _ Hr).
Qed.

Lemma merged_bits `{Crypto} vals groups merged :
  mapM (merge_group vals) groups = Ok merged ->
  map aa_bits (map fst merged) = map sma_participants (map snd merged).
Proof.
  intros E%mapM_Ok. induction E as [|[d ps] r groups merged Hr _ IH]; [done|]. simpl. rewrite IH. f_equal.
  by apply bind_Ok in Hr as (sig & _ & [= <-]).
Qed.

(** The entries of a built payload are distinct and within the cap. *)
Lemma select_payload_data `{Crypto} st adv slot pi parent known payloads merged :
  select_payload st adv slot pi parent known payloads = Ok merged ->
  NoDup (map aa_data (map fst merged)) /\ Zlen (map fst merged) <= MAX_ATTESTATIONS_DATA.
Proof.
  intros E. unfold select_payload in E. cbn zeta in E.
  apply bind_Ok in E as (prev & _ & E). apply bind_Ok in E as (bits & _ & E).
  apply bind_Ok in E as (gap & _ & E). apply bind_Ok in E as (k & _ & E).
  apply bind_Ok in E as (sel & Esel & E). apply bind_Ok in E as (pairs & Ez & E).
  apply select_rounds_inv in Esel; [|constructor; simpl; try done; [constructor|by intros a ?%elem_of_nil]].
  apply merged_data in E as Ed. rewrite Ed. split; [apply group_signatures_wf|].
  rewrite <- (length_map aa_data), Ed. etrans; [|apply Esel]. apply inj_le.
  apply submseteq_length, NoDup_submseteq; [apply group_signatures_wf|].
  intros d (p & Hp & <-)%group_signatures_keys. apply (sv_data _ Esel).
  unfold zip_strict in Ez. destruct (_ =? _)%nat eqn:El; [|done]. injection Ez as <-.
  destruct p as [a sg]. apply elem_of_zip_l in Hp. done.
Qed.

(** ** The built block is accepted *)

Lemma build_block_sound `{Crypto} (state : State) (slot proposer_index : Z)
    (parent_root : Bytes32) (known_block_roots : list Bytes32) (payloads : ProofPool)
    (b : Block) (post : State) (atts : list AggregatedAttestation)
    (sigs : list SingleMessageAggregate) :
  build_block state slot proposer_index parent_root known_block_roots payloads =
    Ok (b, post, atts, sigs) ->
  state_transition state b = Ok post /\
  bk_parent_root b = parent_root /\ bd_attestations (bk_body b) = atts /\ NoDup (map aa_data atts) /\
  Zlen atts <= MAX_ATTESTATIONS_DATA /\ map aa_bits atts = map sma_participants sigs.
Proof.
  intros E. unfold build_block in E. apply bind_Ok in E as (adv & Eadv & E).
  apply bind_Ok in E as (merged & Em & E). cbn zeta in E. apply bind_Ok in E as (atts' & Ea & E).
  unfold AggregatedAttestations_new in Ea. destruct (_ <=? _); [|done]. injection Ea as <-.
  apply bind_Ok in E as (post' & Ep & E). injection E as <- <- <- <-.
  assert ((NoDup (map aa_data (map fst merged)) /\ Zlen (map fst merged) <= MAX_ATTESTATIONS_DATA) /\
    map aa_bits (map fst merged) = map sma_participants (map snd merged)) as [[Hn Hc] Hb].
  { destruct (Zlen payloads =? 0).
    - injection Em as <-. split; [split; [constructor|done]|done].
    - split; [by eapply select_payload_data|]. unfold select_payload in Em. cbn zeta in Em.
      do 6 (apply bind_Ok in Em as (? & _ & Em)). by eapply merged_bits. }
  split_and!; try done. unfold state_transition. cbn [bk_slot block_with_state_root unsealed_block].
  rewrite Eadv. mcbn.
  change (process_block adv (block_with_state_root _ _)) with
    (process_block adv (unsealed_block slot proposer_index parent_root (map fst merged))).
  rewrite Ep. mcbn. cbn [bk_state_root block_with_state_root]. by rewrite bool_decide_eq_true_2.
Qed.

(** C5: whatever payloads it is given, a block the proposer builds is accepted by the
    state transition from the same pre-state, with exactly the post-state the builder
    returned; its attestations have distinct data, at most the per-block maximum, and
    each carries the participants of the proof returned for it. *)
Theorem build_block_is_accepted `{Crypto} (state : State) (slot proposer_index : Z)
    (parent_root : Bytes32) (known_block_roots : list Bytes32) (payloads : ProofPool)
    (b : Block) (post : State) (atts : list AggregatedAttestation)
    (sigs : list SingleMessageAggregate) :
  build_block state slot proposer_index parent_root known_block_roots payloads =
    Ok (b, post, atts, sigs) ->
  state_transition state b = Ok post /\
  bd_attestations (bk_body b) = atts /\ NoDup (map aa_data atts) /\
  Zlen atts <= MAX_ATTESTATIONS_DATA /\ map aa_bits atts = map sma_participants sigs.
Proof. intros E. by destruct (build_block_sound _ _ _ _ _ _ _ _ _ _ E) as (? & _ & ?). Qed.

(** Three proofs for the target [A1], two of them enough to cover everyone. *)
Definition sample_payloads : ProofPool :=
  [(vote 1 genesis_checkpoint A1_checkpoint,
    [sample_proof [true]; sample_proof [true; true]; sample_proof [false; false; true]])].

Lemma build_block_is_accepted_witness :
  exists b post,
    build_block (H := sample_crypto) A1.2 2 2 (cp_root A1_checkpoint)
      [cp_root genesis_checkpoint; cp_root A1_checkpoint] sample_payloads =
      Ok (b, post, [attestation [true; true; true] (vote 1 genesis_checkpoint A1_checkpoint)],
          [sample_proof [true; true; true]]) /\
    state_transition A1.2 b = Ok post.
Proof.
  eexists _, _. split; [vm_compute; reflexivity|].
  eapply (proj1 (build_block_is_accepted (H := sample_crypto) A1.2 2 2 (cp_root A1_checkpoint)
    [cp_root genesis_checkpoint; cp_root A1_checkpoint] sample_payloads _ _
    [attestation [true; true; true] (vote 1 genesis_checkpoint A1_checkpoint)]
    [sample_proof [true; true; true]] ltac:(vm_compute; reflexivity))).
Defined.

(** ** The builder cannot fail but for the prover *)

Lemma is_slot_justified_in_window bits fin slot :
  slot - 1 - fin < Zlen bits -> exists b, is_slot_justified bits fin slot = Ok b.
Proof.
  intros Hw. destruct (is_slot_justified bits fin slot) as [b|e] eqn:E; [eauto|].
  apply is_slot_justified_Err in E as [_ ?]. lia.
Qed.

Section Build.
Context `{Crypto} (adv : State) (slot proposer : Z) (parent : Bytes32) (known : list Bytes32).
Context (Hinv : state_inv adv) (Hkeys : keys_decode (st_validators adv)).
Context (Hheader : header_error adv (unsealed_block slot proposer parent []) = None).
Let hashes := extended_history adv slot.
Let n := Zlen (st_validators adv).
Let trial := unsealed_block slot proposer parent.

(** An attestation the transition cannot reject. *)
Definition sound (a : AggregatedAttestation) : Prop :=
  lies_on_chain (aa_data a) hashes = true /\ voters_known n a /\
  Zlen (aa_bits a) <= VALIDATOR_REGISTRY_LIMIT /\
  0 <= cp_slot (ad_source (aa_data a)) /\ 0 <= cp_slot (ad_target (aa_data a)).

Lemma build_slot : slot = st_slot adv /\ st_head_slot adv < slot <= HISTORICAL_ROOTS_LIMIT /\
  n <> 0 /\ Zlen hashes = slot.
Proof.
  apply header_error_None in Hheader as (H1 & H2 & H3 & _).
  cbn [bk_slot unsealed_block] in *. split_and!; try done; try lia. apply length_extended_history; [apply Hinv|lia].
Qed.

Lemma lies_on_chain_slots d :
  lies_on_chain d hashes = true -> cp_slot (ad_source d) < slot /\ cp_slot (ad_target d) < slot.
Proof.
  destruct build_slot as (_ & _ & _ & Hl). rewrite <- Hl. unfold lies_on_chain. intros E.
  repeat case_match; try done. bool_to_prop. done.
Qed.

Lemma trial_block_ok atts :
  Forall sound atts -> Zlen (set_of (map aa_data atts)) <= MAX_ATTESTATIONS_DATA ->
  exists post, process_block adv (trial atts) = Ok post /\ state_inv post /\ st_head_slot post = slot.
Proof.
  intros Hs Hc. destruct build_slot as (Hslot & [Hlt Hlim] & Hn & Hlen). unfold process_block.
  pose proof (inv_slot _ Hinv) as Hr.
  assert (header_error adv (trial atts) = None) as Hhe by exact Hheader.
  rewrite process_block_header_eq, Hhe by (done || by cbn; rewrite Hslot). mcbn.
  destruct (header_applied_inv _ _ Hinv Hhe) as [Hinv2 Hh2].
  assert (Forall attestation_typed atts) as Hty.
  { eapply Forall_impl; [exact Hs|]. intros a (Hl & _ & Hb & H1 & H2). apply lies_on_chain_slots in Hl.
    unfold attestation_typed, in_range, max_value in *. lia. }
  destruct (process_attestations_ok (header_applied adv (trial atts)) atts Hinv2 Hh2 ltac:(simpl; lia) Hty)
    as [(votes & t & _ & E & Hinv3 & _)|(e & _ & [(a & Ha & Hrej)|[_ Hm]])]; [|exfalso|lia].
  - exists (repacked (header_applied adv (trial atts)) t). done.
  - rewrite Forall_forall in Hs. destruct (Hs a Ha) as (Hl & [Hv1 Hv2] & _).
    apply lies_on_chain_slots in Hl.
    change (attestation_rejection hashes (length (st_validators adv)) a e) in Hrej.
    unfold attestation_rejection in Hrej. rewrite Hlen in Hrej. destruct Hrej as [[_ ?]|[[_ ?]|[_ ?]]]; [lia|done|done].
Qed.

Record select_ok (sel : Selection) : Prop := {
  so_inv : selection_inv sel;
  so_window : slot - 1 - sel_finalized_slot sel <= Zlen (sel_justified_slots sel);
  so_sound : Forall sound (sel_attestations sel);
  so_within : Forall (proof_within n) (sel_signatures sel)
}.

(** Votes with well-typed slots, and proofs from the registry. *)
Definition payload_ok (l : list (AttestationData * list SingleMessageAggregate)) : Prop :=
  forall d ps, (d, ps) ∈ l ->
    0 <= cp_slot (ad_source d) /\ 0 <= cp_slot (ad_target d) /\ proofs_within n ps.

Lemma eligible_vote_total sel d :
  slot - 1 - sel_finalized_slot sel <= Zlen (sel_justified_slots sel) ->
  exists b, eligible_vote known hashes sel d = Ok b /\ (b = true -> lies_on_chain d hashes = true).
Proof.
  intros Hw. unfold eligible_vote. destruct (negb (bool_decide _)); [by exists false|].
  destruct (negb (_ =? _)); [by exists false|].
  destruct (lies_on_chain d hashes) eqn:El; cbn [negb]; [|by exists false].
  destruct (lies_on_chain_slots d El) as [Hs Ht].
  destruct (is_slot_justified_in_window (sel_justified_slots sel) (sel_finalized_slot sel)
    (cp_slot (ad_source d))) as [b1 ->]; [lia|]. mcbn. destruct b1; cbn [negb]; [|by exists false].
  destruct (_ && _); [by exists true|].
  destruct (is_slot_justified_in_window (sel_justified_slots sel) (sel_finalized_slot sel)
    (cp_slot (ad_target d))) as [b2 ->]; [lia|]. mcbn. eauto.
Qed.

Lemma sound_attestation p d :
  proof_within n p -> lies_on_chain d hashes = true -> 0 <= cp_slot (ad_source d) ->
  0 <= cp_slot (ad_target d) -> sound {| aa_bits := sma_participants p; aa_data := d |}.
Proof.
  intros [[Hv [l Hl]] Hw] Hc H1 H2. apply sma_valid in Hv as [Hv _].
  apply to_validator_indices_Ok in Hl as [-> Hne]. unfold sound, voters_known. cbn.
  split_and!; try done. apply Forall_forall. intros i Hi. by apply Hw.
Qed.

Lemma accept_entry_total sel d ps :
  select_ok sel -> d ∉ sel_processed sel -> Zlen (sel_processed sel) < MAX_ATTESTATIONS_DATA ->
  proofs_within n ps -> lies_on_chain d hashes = true -> 0 <= cp_slot (ad_source d) ->
  0 <= cp_slot (ad_target d) ->
  exists sel', accept_entry sel d ps = Ok sel' /\ select_ok sel'.
Proof.
  intros [Hi Hw Hs Hp] Hd Hcap [Hn Hps] Hc H1 H2.
  destruct (select_pools_ok ps []) as (picked & cov & E & Hsub & _);
    [by eapply Forall_impl; [exact Hps|intros p []]|constructor|done|constructor|].
  rewrite app_nil_r in Hsub. rewrite Forall_forall in Hps.
  destruct (accept_entry sel d ps) as [sel'|e] eqn:Ea; unfold accept_entry in Ea; rewrite E in Ea;
    [|done]. exists sel'. split; [done|].
  destruct (accept_entry_inv sel d ps sel' Hi Hd Hcap) as (Hi' & _ & _ & Hf' & Hj');
    [unfold accept_entry; by rewrite E|].
  injection Ea as <-. constructor; [done|done| |]; cbn [sel_attestations sel_signatures].
  - apply Forall_app. split; [done|]. apply Forall_forall. intros a (p & -> & Hin)%list_elem_of_fmap.
    apply sound_attestation; auto.
  - apply Forall_app. split; [done|]. apply Forall_forall. auto.
Qed.

Lemma scan_candidates_total cands sel found :
  payload_ok cands -> select_ok sel ->
  exists sel' found', scan_candidates known hashes cands sel found = Ok (sel', found') /\ select_ok sel'.
Proof.
  revert sel found. induction cands as [|[d ps] cands IH]; intros sel found Hc Hok; cbn [scan_candidates].
  { eauto. }
  assert (payload_ok cands) as Hc' by (intros d' ps' Hin; apply Hc; by right).
  case_bool_decide as Hd; [by apply IH|].
  destruct (Z.leb_spec MAX_ATTESTATIONS_DATA (Zlen (sel_processed sel))); [eauto|].
  destruct (eligible_vote_total sel d (so_window _ Hok)) as (b & -> & Hb). mcbn.
  destruct b; [|by apply IH]. destruct (Hc d ps ltac:(left)) as (H1 & H2 & H3).
  destruct (accept_entry_total sel d ps Hok Hd ltac:(lia) H3 (Hb eq_refl) H1 H2) as (sel1 & -> & Hok1).
  mcbn. by apply IH.
Qed.

Lemma distinct_data_cap sel :
  selection_inv sel -> Zlen (set_of (map aa_data (sel_attestations sel))) <= MAX_ATTESTATIONS_DATA.
Proof.
  intros Hi. etrans; [|apply (sv_cap _ Hi)]. apply inj_le.
  apply submseteq_length, NoDup_submseteq; [apply NoDup_set_of|].
  intros d (a & -> & Ha)%elem_of_set_of%list_elem_of_fmap. by apply (sv_data _ Hi).
Qed.

Lemma select_rounds_total fuel cands sel :
  payload_ok cands -> select_ok sel -> MAX_ATTESTATIONS_DATA <= Z.of_nat fuel + Zlen (sel_processed sel) ->
  (exists sel', select_rounds fuel adv known hashes cands trial sel = Ok sel' /\ select_ok sel') \/
  select_rounds fuel adv known hashes cands trial sel = Err SSZValueError.
Proof.
  revert sel. induction fuel as [|fuel IH]; intros sel Hc Hok Hf; cbn [select_rounds];
    destruct (scan_candidates_total cands sel false Hc Hok) as (sel1 & found & E & Hok1);
    destruct (scan_candidates_inv _ _ _ _ _ _ _ (so_inv _ Hok) E) as (Hi1 & Hle & Hgrow);
    rewrite E; mcbn; (destruct found; cbn [negb]; [|left; eauto]);
    specialize (Hgrow eq_refl eq_refl); pose proof (sv_cap _ Hi1); [lia|].
  unfold AggregatedAttestations_new. destruct (_ <=? VALIDATOR_REGISTRY_LIMIT); mcbn; [|by right].
  destruct (trial_block_ok (sel_attestations sel1) (so_sound _ Hok1) (distinct_data_cap _ Hi1))
    as (post & -> & Hpost & Hhead). mcbn.
  destruct (_ || _); [|left; eauto]. apply IH; [done| |cbn; lia].
  destruct Hok1 as [_ _ S1 S2]. constructor; [by apply reanchor_inv| |done|done]. cbn.
  pose proof (inv_bits _ Hpost). lia.
Qed.

Lemma group_signatures_within pairs :
  (forall p, p ∈ pairs -> proof_within n p.2) ->
  values_ok (fun ps => ps <> [] /\ Forall (proof_within n) ps) (group_signatures pairs).
Proof.
  unfold group_signatures. intros Hp.
  assert (values_ok (fun ps : list SingleMessageAggregate => ps <> [] /\ Forall (proof_within n) ps)
    ([] : ProofPool)) as H0 by apply values_ok_nil.
  revert H0. generalize ([] : ProofPool). induction pairs as [|p pairs IH]; intros g Hg; simpl; [done|].
  apply IH; [intros q Hq; apply Hp; by right|]. apply values_ok_dset; [done|]. split; [intros E; by apply app_nil in E as [_ ?]|].
  apply Forall_app. split; [|apply Forall_singleton, Hp; left].
  destruct (dget (aa_data p.1) g) as [ps|] eqn:E; simpl; [|constructor].
  by destruct (values_ok_get _ _ _ _ Hg E).
Qed.

Lemma merge_group_total d ps :
  ps <> [] -> Forall (proof_within n) ps ->
  (exists sig, merge_group (st_validators adv) (d, ps) =
     Ok ({| aa_bits := sma_participants sig; aa_data := d |}, sig) /\ proof_within n sig) \/
  (exists e, merge_group (st_validators adv) (d, ps) = Err e /\ aggregation_error e).
Proof.
  intros Hne Hps. unfold merge_group.
  assert ((exists sig, (children ← mapM (child_with_keys (st_validators adv)) ps;
      sma_aggregate children [] (hash_tree_root d) (ad_slot d)) = Ok sig /\ proof_within n sig) \/
    (exists e, (children ← mapM (child_with_keys (st_validators adv)) ps;
      sma_aggregate children [] (hash_tree_root d) (ad_slot d)) = Err e /\ aggregation_error e)) as Hagg.
  { destruct (children_ok (st_validators adv) Hkeys ps Hps) as (cs & -> & Hf & Hk). mcbn.
    destruct (sma_aggregate_cases (st_validators adv) cs [] (hash_tree_root d) (ad_slot d))
      as [(a & -> & Ha & _)|[->| ->]]; eauto.
    - apply Forall_forall. intros c Hc. split; [|by eapply Forall_forall in Hk].
      eapply Forall_forall; [exact Hps|]. rewrite <- Hf. by apply list_elem_of_fmap_2.
    - by intros t ?%elem_of_nil.
    - apply Hinv.
    - right. intros ->. by rewrite <- Hf in Hne.
    - right. eexists. split; [done|by left].
    - right. eexists. split; [done|by right]. }
  destruct ps as [|sig [|sig2 ps]]; [done| |].
  - left. mcbn. exists sig. split; [done|]. by rewrite Forall_singleton in Hps.
  - destruct Hagg as [(a & -> & Ha)|(e & -> & He)]; mcbn; [left|right]; eauto.
Qed.

Lemma merge_groups_total groups :
  values_ok (fun ps => ps <> [] /\ Forall (proof_within n) ps) groups ->
  (exists merged, mapM (merge_group (st_validators adv)) groups = Ok merged /\
     forall a sig, (a, sig) ∈ merged -> proof_within n sig /\ aa_bits a = sma_participants sig /\
       aa_data a ∈ dkeys groups) \/
  (exists e, mapM (merge_group (st_validators adv)) groups = Err e /\ aggregation_error e).
Proof.
  intros Hg. induction groups as [|[d ps] groups IH]; cbn [mapM].
  { left. exists []. split; [done|]. by intros a sig ?%elem_of_nil. }
  destruct (Hg d ps ltac:(left)) as [Hne Hps].
  destruct (merge_group_total d ps Hne Hps) as [(sig & -> & Hsig)|(e & -> & He)]; mcbn; [|right; eauto].
  destruct IH as [(merged & -> & Hm)|(e & -> & He)]; mcbn; [|left|right; eauto].
  { intros k v Hin. eapply Hg. by right. }
  eexists. split; [done|]. intros a sg [[= -> ->]|Hin]%elem_of_cons; [split_and!; [done|done|left]|].
  destruct (Hm a sg Hin) as (? & ? & ?). split_and!; [done|done|by right].
Qed.

(** The merged attestations are as sound as the selected ones. *)
Lemma merged_sound sel pairs merged :
  select_ok sel -> zip_strict (sel_attestations sel) (sel_signatures sel) = Ok pairs ->
  (forall a sig, (a, sig) ∈ merged -> proof_within n sig /\ aa_bits a = sma_participants sig /\
     aa_data a ∈ dkeys (group_signatures pairs)) ->
  Forall sound (map fst merged).
Proof.
  intros Hok Ez Hm. apply Forall_forall. intros a ([a' sig] & -> & Hin)%list_elem_of_fmap.
  destruct (Hm _ _ Hin) as (Hw & Hb & (p & Hp & Ed)%group_signatures_keys). cbn [fst].
  unfold zip_strict in Ez. destruct (_ =? _)%nat; [|done]. injection Ez as <-.
  destruct p as [a0 sg]. apply elem_of_zip_l in Hp. cbn [fst] in Ed.
  pose proof (so_sound _ Hok) as Hs. rewrite Forall_forall in Hs.
  destruct (Hs a0 Hp) as (H1 & _ & _ & H4 & H5). rewrite Ed in *.
  destruct a' as [bits d]. cbn in Hb, Ed |- *. subst bits. by apply sound_attestation.
Qed.
End Build.

Lemma candidates_perm payloads : candidates_in_target_slot_order payloads ≡ₚ payloads.
Proof.
  unfold candidates_in_target_slot_order. induction payloads as [|c l IH]; simpl; [done|].
  rewrite <- IH at 2. clear IH. generalize (foldr insert_candidate [] l) as k. intros k.
  induction k as [|x k IH]; simpl; [done|]. case_match; [done|]. rewrite IH. apply Permutation_swap.
Qed.

(** The builder's chain view is the history the block will have. *)
Lemma select_payload_total `{Crypto} state adv slot proposer parent known payloads root :
  state_inv state -> adv = slot_advanced state root slot -> state_inv adv ->
  keys_decode (st_validators state) -> in_range 64 slot ->
  header_error adv (unsealed_block slot proposer parent []) = None ->
  payload_ok adv payloads ->
  (exists merged, select_payload state adv slot proposer parent known payloads = Ok merged /\
     Forall (sound adv slot) (map fst merged)) \/
  (exists e, select_payload state adv slot proposer parent known payloads = Err e /\ aggregation_error e).
Proof.
  intros Hinv0 Eadv Hinv Hkeys Hr Hh Hpay. pose proof (header_error_None _ _ Hh) as (_ & [Hlt Hlim] & _ & _ & Hpar).
  rewrite Eadv in Hlt, Hpar. cbn in Hlt, Hpar.
  pose proof (inv_order _ Hinv0) as Ho. pose proof (inv_head _ Hinv0) as Hhd. pose proof (inv_bits _ Hinv0) as Hb.
  unfold select_payload, uint_sub. unfold in_range, max_value in Hr.
  rewrite (uint_new_in_range 64 (slot - 1)) by (unfold in_range, max_value; lia). mcbn.
  rewrite extend_to_slot_Ok by (cbn in Hlim; unfold HISTORICAL_ROOTS_LIMIT in *; lia). mcbn.
  rewrite (uint_new_in_range 64 (slot - _)) by (unfold in_range, max_value; lia). mcbn.
  rewrite uint_new_in_range by (unfold in_range, max_value; lia). mcbn.
  assert (st_historical_block_hashes state ++ [parent] ++ repeat ZERO_HASH
      (Z.to_nat (slot - st_head_slot state - 1)) = extended_history adv slot) as ->.
  { unfold extended_history. rewrite Eadv. cbn. by rewrite Hpar. }
  match goal with |- context [select_rounds _ _ _ _ _ _ ?sel] => set (sel0 := sel) end.
  destruct (select_rounds_total adv slot proposer parent known Hinv Hh (Z.to_nat MAX_ATTESTATIONS_DATA)
    (candidates_in_target_slot_order payloads) sel0) as [(sel & -> & Hok)| ->].
  - intros d ps Hin. rewrite candidates_perm in Hin. by apply Hpay.
  - constructor; cbn; [|rewrite length_app, repeat_length; lia|constructor|constructor].
    constructor; cbn; [done|constructor|by intros a ?%elem_of_nil|done].
  - cbn. lia.
  - mcbn. pose proof (selection_lengths _ (so_inv _ _ _ Hok)) as Hlen.
    destruct (zip_strict (sel_attestations sel) (sel_signatures sel)) as [pairs|e] eqn:Ez; mcbn;
      unfold zip_strict in Ez; rewrite Hlen, Nat.eqb_refl in Ez; [|done].
    assert (st_validators state = st_validators adv) as Hv by (by rewrite Eadv). rewrite Hv in Hkeys |- *.
    destruct (merge_groups_total adv Hinv Hkeys (group_signatures pairs))
      as [(merged & -> & Hm)|He]; [|left|by right].
    + apply group_signatures_within. intros p Hp. injection Ez as <-. destruct p as [a sg].
      apply elem_of_zip_r in Hp. cbn. pose proof (so_within _ _ _ Hok) as Hw. rewrite Forall_forall in Hw. auto.
    + exists merged. split; [done|]. eapply merged_sound; [done| |exact Hm].
      unfold zip_strict. by rewrite Hlen, Nat.eqb_refl.
  - right. eexists. split; [done|by right].
Qed.

(** On a sound pre-state, for the slot's proposer and the parent the pre-state
    belongs to, building a block from well-typed payloads always succeeds, whatever
    the votes: the trial transitions reject nothing and the selection loop ends
    within its bound.  The only exceptions are those of the prover and the SSZ list
    limits around it. *)
Theorem build_block_total `{Crypto} (state : State) (slot proposer : Z) (parent : Bytes32)
    (known : list Bytes32) (payloads : ProofPool) :
  state_inv state -> keys_decode (st_validators state) ->
  st_slot state < slot <= HISTORICAL_ROOTS_LIMIT -> st_validators state <> [] ->
  proposer = slot mod Zlen (st_validators state) ->
  (forall adv, process_slots state slot = Ok adv ->
     parent = hash_tree_root (st_latest_block_header adv)) ->
  (forall data proofs, (data, proofs) ∈ payloads ->
     0 <= cp_slot (ad_source data) /\ 0 <= cp_slot (ad_target data) /\
     proofs_within (Zlen (st_validators state)) proofs) ->
  (exists result, build_block state slot proposer parent known payloads = Ok result) \/
  build_block state slot proposer parent known payloads = Err AggregationError \/
  build_block state slot proposer parent known payloads = Err SSZValueError.
Proof.
  intros Hinv Hkeys [Hlt Hlim] Hne Hprop Hpar Hpay. pose proof (inv_head _ Hinv) as Hhd.
  assert (in_range 64 slot) as Hr by (unfold in_range, max_value, HISTORICAL_ROOTS_LIMIT in *; lia).
  unfold build_block. destruct (process_slots state slot) as [adv|e] eqn:Ead; mcbn.
  2: { apply process_slots_Err in Ead as [? _]; [lia|lia|done]. }
  specialize (Hpar adv eq_refl). apply process_slots_Ok in Ead as (_ & root & -> & _); [|lia|done].
  set (adv := slot_advanced state root slot) in *.
  assert (state_inv adv) as Hinv1 by (apply slot_advanced_inv; [done|lia|done]).
  assert (header_error adv (unsealed_block slot proposer parent []) = None) as Hh.
  { unfold header_error. cbn. rewrite Z.eqb_refl. cbn. rewrite (proj2 (Z.leb_gt _ _)) by lia.
    rewrite (proj2 (Z.eqb_neq _ 0)) by (destruct (st_validators state); [done|simpl; lia]).
    rewrite <- Hprop, Z.eqb_refl. cbn. rewrite bool_decide_eq_true_2 by done. cbn.
    by rewrite Z.gtb_ltb, (proj2 (Z.ltb_ge _ _)) by lia. }
  assert (forall atts, Forall (sound adv slot) atts -> Zlen atts <= MAX_ATTESTATIONS_DATA ->
    exists post, process_block adv (unsealed_block slot proposer parent atts) = Ok post) as Hfinal.
  { intros atts Hs Hc. destruct (trial_block_ok adv slot proposer parent Hinv1 Hh atts Hs)
      as (post & E & _); [|eauto].
    pose proof (set_of_length_le (map aa_data atts)) as Hle. rewrite length_map in Hle. lia. }
  destruct (Z.eqb_spec (Zlen payloads) 0).
  - mcbn. cbn [map]. change (AggregatedAttestations_new []) with (Ok (@nil AggregatedAttestation)). mcbn.
    destruct (Hfinal [] ltac:(constructor) ltac:(done)) as (post & ->). mcbn. left. eauto.
  - destruct (select_payload_total state adv slot proposer parent known payloads root Hinv eq_refl Hinv1
      Hkeys Hr Hh Hpay) as [(merged & Em & Hs)|(e & -> & [->| ->])]; [|by right; left|by right; right].
    pose proof (select_payload_data _ _ _ _ _ _ _ _ Em) as [_ Hd]. rewrite Em. mcbn.
    unfold AggregatedAttestations_new. rewrite (proj2 (Z.leb_le _ _)).
    2: { unfold MAX_ATTESTATIONS_DATA, VALIDATOR_REGISTRY_LIMIT in *. lia. }
    mcbn. destruct (Hfinal (map fst merged) Hs Hd) as (post & ->). mcbn. left. eauto.
Qed.

Lemma sample_inv_A1 : state_inv A1.2.
Proof. eapply reachable_inv; [exact sample_registry_limit|exact sample_A1]. Qed.

Lemma proofs_within_bool n ps :
  bool_decide (NoDup ps) &&
  forallb (fun p => ssz_valid p && is_Ok (to_validator_indices (sma_participants p)) &&
    forallb (fun v => v <? n) (set_indices (sma_participants p))) ps = true -> proofs_within n ps.
Proof.
  intros [Hn%bool_decide_eq_true Hp]%andb_true_iff. split; [done|]. apply Forall_forall.
  intros p Hin%list_elem_of_In. eapply forallb_forall in Hp; [|exact Hin].
  apply andb_true_iff in Hp as [Ht Hb]. split; [by apply proof_typed_bool|].
  intros v Hv%list_elem_of_In. apply Z.ltb_lt. by eapply forallb_forall in Hb.
Qed.

Lemma build_block_total_witness :
  (exists result, build_block (H := sample_crypto) A1.2 2 2 (cp_root A1_checkpoint)
     [cp_root genesis_checkpoint; cp_root A1_checkpoint] sample_payloads = Ok result) \/
  build_block (H := sample_crypto) A1.2 2 2 (cp_root A1_checkpoint)
    [cp_root genesis_checkpoint; cp_root A1_checkpoint] sample_payloads = Err AggregationError \/
  build_block (H := sample_crypto) A1.2 2 2 (cp_root A1_checkpoint)
    [cp_root genesis_checkpoint; cp_root A1_checkpoint] sample_payloads = Err SSZValueError.
Proof.
  apply (build_block_total (H := sample_crypto) A1.2 2 2 (cp_root A1_checkpoint)
    [cp_root genesis_checkpoint; cp_root A1_checkpoint] sample_payloads).
  - exact sample_inv_A1.
  - exact sample_keys_decode.
  - vm_compute. split; [reflexivity|discriminate].
  - discriminate.
  - reflexivity.
  - intros adv E. vm_compute in E. injection E as <-. vm_compute. reflexivity.
  - intros d ps [= -> ->]%list_elem_of_singleton. split_and!; [done|done|].
    apply proofs_within_bool. vm_compute. reflexivity.
Defined.

(** ** Votes *)
Section Walks.
Context (anchor : Bytes32 * Block) (s : Store) (Hi : store_inv anchor s).
Abbreviation blocks := (sto_blocks s).

(** Above the anchor's slot the parent is known. *)
Lemma parent_known r b :
  dget r blocks = Some b -> bk_slot anchor.2 < bk_slot b ->
  is_Some (dget (bk_parent_root b) blocks) /\ ancestor blocks (bk_parent_root b) r.
Proof.
  intros E Hlt. destruct (si_floor _ _ Hi) as [_ Ea].
  pose proof (si_rooted _ _ Hi r (mk_is_Some _ _ E)) as Ha. inversion Ha as [? b1 E1|? ? b1 E1 Hup]; subst.
  - rewrite Ea in E. injection E as <-. lia.
  - rewrite E in E1. injection E1 as <-. destruct (ancestor_known _ _ _ Hup) as [_ [pb Ep]].
    split; [eauto|]. eapply anc_parent; [done|]. by eapply anc_refl.
Qed.

(** An ancestor below [r]'s slot is an ancestor of [r]'s parent. *)
Lemma ancestor_of_parent a r b ba :
  ancestor blocks a r -> dget r blocks = Some b -> dget a blocks = Some ba -> bk_slot ba < bk_slot b ->
  ancestor blocks a (bk_parent_root b).
Proof.
  intros Ha E Ea Hlt. inversion Ha as [? b1 E1|? ? b1 E1 Hup]; subst.
  - rewrite E in Ea. injection Ea as <-. lia.
  - rewrite E in E1. by injection E1 as <-.
Qed.

(** What both walks keep: the block is known, an ancestor of where the walk began,
    and above any ancestor that is not past the lower bound. *)
Definition walked (bound : Z) (from r : Bytes32) : Prop :=
  is_Some (dget r blocks) /\ ancestor blocks r from /\
  forall a ba, ancestor blocks a from -> dget a blocks = Some ba -> bk_slot ba <= bound ->
    ancestor blocks a r.

Lemma walked_refl bound r : is_Some (dget r blocks) -> walked bound r r.
Proof. intros [b E]. split; [eauto|]. split; [by eapply anc_refl|done]. Qed.

Lemma walked_step bound from r b :
  bk_slot anchor.2 <= bound -> walked bound from r -> dget r blocks = Some b -> bound < bk_slot b ->
  walked bound from (bk_parent_root b).
Proof.
  intros Hb (_ & Ha & Hup) E Hlt. destruct (parent_known r b E ltac:(lia)) as [Hk Hp].
  split; [done|]. split; [by eapply ancestor_trans|]. intros a ba Haf Ea Hs.
  apply (ancestor_of_parent a r b ba); [by eapply Hup|done|done|lia].
Qed.

Lemma lookback_walk_ok n bound from r :
  bk_slot anchor.2 <= bound -> walked bound from r ->
  exists r', lookback_walk n blocks bound r = Ok r' /\ walked bound from r'.
Proof.
  intros Hb. revert r. induction n as [|n IH]; intros r Hw; cbn [lookback_walk]; [eauto|].
  pose proof Hw as ([b E] & _). unfold dgetitem. rewrite E. mcbn. rewrite Z.gtb_ltb.
  destruct (Z.ltb_spec bound (bk_slot b)); [|eauto]. apply IH. by eapply walked_step.
Qed.

Lemma justifiable_walk_ok fuel visited fin from r :
  bk_slot anchor.2 <= fin -> behind blocks visited r -> (length blocks <= fuel + length visited)%nat ->
  walked fin from r ->
  exists r' b, justifiable_walk fuel blocks fin r = Ok r' /\ walked fin from r' /\
    dget r' blocks = Some b /\
    (bk_slot b <= fin \/ is_justifiable_after (bk_slot b) fin = Ok true).
Proof.
  intros Hb. revert visited r. induction fuel as [|fuel IH]; intros visited r Hbeh Hf Hw;
    pose proof Hw as ([b E] & _); pose proof (behind_length _ _ _ _ Hbeh E); [lia|].
  cbn [justifiable_walk]. unfold dgetitem. rewrite E. mcbn.
  destruct (Z.leb_spec (bk_slot b) fin); [exists r, b; eauto|].
  destruct (is_justifiable_total (bk_slot b) fin) as [j Ej]; [lia|]. rewrite Ej. mcbn.
  destruct j; [exists r, b; eauto|].
  apply (IH (r :: visited)); [apply behind_step; [apply Hi|done|done]|simpl; lia|by eapply walked_step].
Qed.

Lemma get_attestation_target_ok :
  exists t, get_attestation_target s = Ok t /\ checkpoint_in blocks t /\
    ancestor blocks (cp_root t) (sto_head s) /\
    (cp_slot t <= cp_slot (sto_latest_finalized s) \/
     is_justifiable_after (cp_slot t) (cp_slot (sto_latest_finalized s)) = Ok true) /\
    (ancestor blocks (cp_root (sto_latest_finalized s)) (sto_head s) ->
     ancestor blocks (cp_root (sto_latest_finalized s)) (cp_root t)).
Proof.
  unfold get_attestation_target, dgetitem. destruct (si_safe _ _ Hi) as [sb Es]. rewrite Es. mcbn.
  pose proof (checkpoint_above_anchor _ _ _ Hi (si_finalized _ _ Hi)) as Hfl.
  set (fin := cp_slot (sto_latest_finalized s)) in *.
  destruct (lookback_walk_ok (Z.to_nat JUSTIFICATION_LOOKBACK_SLOTS) (Z.max (bk_slot sb) fin)
    (sto_head s) (sto_head s)) as (r1 & E1 & Hw1); [lia|apply walked_refl, Hi|].
  rewrite E1. mcbn.
  assert (walked fin (sto_head s) r1) as Hw1'.
  { destruct Hw1 as (K1 & A1 & U1). split_and!; [done|done|]. intros a ba Ha Ea Hs. apply (U1 a ba); [done|done|lia]. }
  destruct (justifiable_walk_ok (S (length blocks)) [] fin (sto_head s) r1)
    as (r2 & b2 & E2 & (K2 & A2 & U2) & Eb2 & Hj); [done|apply behind_nil|simpl; lia|done|].
  rewrite E2. mcbn. rewrite Eb2. mcbn. eexists. split; [done|]. split; [by exists b2|]. split; [done|].
  split; [done|]. intros Hf. destruct (si_finalized _ _ Hi) as (bf & Ef & Hs). by apply (U2 _ bf); [done|done|lia].
Qed.
End Walks.
