(* ===== verification/StoreTheorems.v ===== *)
(** * What the store guarantees

    [store_step] is one call of a handler that succeeds; [reachable_store] a run of
    them from a consistent anchor.  The theorems of fork choice: the head is the
    LMD-GHOST head, the safe target has a supermajority at every step, votes are
    admitted exactly when they describe known blocks on one chain, and no call
    crashes. *)

From S2P Require Import Prelude Pydict Uint Ssz SszCorrect Sha256 Merkle Containers.
From S2P Require Import StateTransition Samples StateCorrect StateHistory Proofs Signatures.
From S2P Require Import SignaturesCorrect ForkChoice ForkChoiceCorrect StoreVotes StoreCorrect.
From S2P Require Import StoreHandlers Aggregation Duties SampleStores AggregationCorrect.
From S2P Require Import StoreReachable DutiesCorrect.

Section Steps.
Context `{Crypto} (anchor : Bytes32 * Block).

(** The inputs are values of their SSZ classes; [no_cycle] and [hash not yet known]
    exclude collisions of the hash. *)
Inductive store_step (s : Store) : Store -> Prop :=
| step_block sb s' :
    ssz_valid (sb_block sb) = true -> no_cycle anchor (sb_block sb) ->
    on_block s sb = Ok s' -> store_step s s'
| step_attestation sa is_aggregator s' :
    0 <= sa_validator_index sa -> is_Ok (container_encode (sa_signature sa)) = true ->
    on_gossip_attestation s sa is_aggregator = Ok s' -> store_step s s'
| step_aggregated sa s' :
    ssz_valid (saa_proof sa) = true ->
    on_gossip_aggregated_attestation s sa = Ok s' -> store_step s s'
| step_tick target has_proposal is_aggregator s' aggregates :
    in_range 64 target -> on_tick s target has_proposal is_aggregator = Ok (s', aggregates) ->
    store_step s s'
| step_produce slot validator_index s' b sigs :
    produce_block_with_signatures s slot validator_index = Ok (s', b, sigs) ->
    ssz_valid b = true -> no_cycle anchor b ->
    dget (hash_tree_root b) (sto_blocks s) = None -> store_step s s'.

Context (registry : list Validator).

Definition store_good (s : Store) : Prop := store_ok anchor registry s /\ 0 <= sto_time s.

(** ** One step *)
Lemma update_head_time s s' : update_head s = Ok s' -> sto_time s' = sto_time s.
Proof. by intros (h & fin & ->)%update_head_frame. Qed.

Lemma prune_time s s' : prune_stale_attestation_data s = Ok s' -> sto_time s' = sto_time s.
Proof.
  intros E. unfold prune_stale_attestation_data in E. apply bind_Ok in E as (? & _ & E).
  apply bind_Ok in E as (? & _ & E). by apply bind_Ok in E as (? & _ & [= <-]).
Qed.

(** A block that was not known goes through these stores. *)
Lemma on_block_stages s sb s' :
  on_block s sb = Ok s' -> (s' = s /\ is_Some (dget (hash_tree_root (sb_block sb)) (sto_blocks s))) \/
  exists parent post s1, dget (hash_tree_root (sb_block sb)) (sto_blocks s) = None /\
    dget (bk_parent_root (sb_block sb)) (sto_states s) = Some parent /\
    state_transition parent (sb_block sb) = Ok post /\
    update_head (store_with_block s (hash_tree_root (sb_block sb)) (sb_block sb) post
      (advance_to (sto_latest_justified s) (st_latest_justified post))
      (seed_known (bd_attestations (bk_body (sb_block sb))) (sto_latest_known_aggregated_payloads s)))
      = Ok s1 /\
    (s' = s1 \/ prune_stale_attestation_data s1 = Ok s').
Proof.
  unfold on_block. cbn zeta. intros E. destruct (dmem _ _) eqn:Em; [left; apply dmem_true in Em; by injection E as <-|right].
  apply dmem_false in Em. apply bind_Ok in E as (parent & Ep%of_option_Ok & E).
  destruct (negb _); [done|]. apply bind_Ok in E as (u & _ & E). apply bind_Ok in E as (post & Et & E).
  apply bind_Ok in E as (s1 & E1 & E). exists parent, post, s1. split_and!; try done.
  destruct (_ >? _); [by right|left; congruence].
Qed.

Lemma on_block_good s sb s' :
  store_good s -> ssz_valid (sb_block sb) = true ->
  no_cycle anchor (sb_block sb) -> on_block s sb = Ok s' -> store_good s'.
Proof.
  intros [[Hs Hv] Ht] Hb Ha E.
  destruct (on_block_cases anchor s sb Hs Hb Ha) as [(s2 & E2 & Hs2)|(e & E2 & _)]; [|congruence].
  rewrite E in E2. injection E2 as <-.
  destruct (on_block_stages s sb s' E) as [[-> _]|(parent & post & s1 & Hnew & Hp & Htr & E1 & Hs')]; [done|].
  assert (votes_inv registry s1 /\ sto_time s1 = sto_time s) as [Hv1 Ht1].
  { split; [|by apply update_head_time in E1 as ->]. eapply update_head_votes; [|exact E1].
    destruct (proj2 (store_state_known _ _ _ Hs) (mk_is_Some _ _ Hp)) as [pb Ep].
    eapply block_added_votes; [done|done|by apply (si_entry _ _ Hs _ _ _ Ep Hp)|done|done|].
    by apply seed_known_within, Hv. }
  destruct Hs' as [->|Hpr]; [split; [done|lia]|]. split; [|apply prune_time in Hpr; lia].
  split; [done|by eapply prune_votes].
Qed.

Lemma gossip_time s sa agg s' : on_gossip_attestation s sa agg = Ok s' -> sto_time s' = sto_time s.
Proof.
  unfold on_gossip_attestation. cbn zeta. intros E. apply bind_Ok in E as (u & _ & E).
  apply bind_Ok in E as (st & _ & E). destruct (negb _); [done|]. apply bind_Ok in E as (k & _ & E).
  apply bind_Ok in E as (ok & _ & E). destruct (negb ok); [done|]. by destruct agg; cbn [negb] in E; injection E as <-.
Qed.

Lemma gossip_aggregated_time s sa s' :
  on_gossip_aggregated_attestation s sa = Ok s' -> sto_time s' = sto_time s.
Proof.
  unfold on_gossip_aggregated_attestation. cbn zeta. intros E. apply bind_Ok in E as (u & _ & E).
  apply bind_Ok in E as (l & _ & E). apply bind_Ok in E as (st & _ & E). destruct (negb _); [done|].
  apply bind_Ok in E as (k & _ & E). by apply bind_Ok in E as (u' & _ & [= <-]).
Qed.

Lemma gossip_good s sa agg s' :
  store_good s -> 0 <= sa_validator_index sa -> is_Ok (container_encode (sa_signature sa)) = true ->
  on_gossip_attestation s sa agg = Ok s' -> store_good s'.
Proof.
  intros [[Hs Hv] Ht] H1 H2 E.
  destruct (on_gossip_attestation_cases anchor s sa agg Hs H1) as [(s2 & E2 & Hs2 & _)|[(e & E2)|(k & e & E2 & _)]]; [|congruence..].
  rewrite E in E2. injection E2 as <-.
  split; [split; [done|by apply (gossip_attestation_votes registry anchor s sa agg s')]|]. apply gossip_time in E. lia.
Qed.

Lemma gossip_aggregated_good s sa s' :
  store_good s -> ssz_valid (saa_proof sa) = true ->
  on_gossip_aggregated_attestation s sa = Ok s' -> store_good s'.
Proof.
  intros [[Hs Hv] Ht] H1 E.
  destruct (on_gossip_aggregated_attestation_cases anchor s sa Hs) as [(s2 & E2 & Hs2 & _)|(e & E2)];
    [by apply sma_valid in H1 as [? _]| |congruence].
  rewrite E in E2. injection E2 as <-.
  split; [split; [done|by eapply gossip_aggregated_votes]|]. apply gossip_aggregated_time in E. lia.
Qed.

Lemma tick_good s target hp agg s' l :
  store_good s -> in_range 64 target -> on_tick s target hp agg = Ok (s', l) -> store_good s'.
Proof.
  intros [Hok Ht] Hr E. destruct (on_tick_cases anchor registry s target hp agg Hok Ht Hr)
    as [(s2 & l2 & E2 & Hok2 & Ht2)|(e & E2 & _)]; [|congruence].
  rewrite E in E2. injection E2 as <- <-. split; [done|lia].
Qed.

(** ** Ticks leave the block tree alone *)
Definition same_tree (s s' : Store) : Prop :=
  sto_blocks s' = sto_blocks s /\ sto_states s' = sto_states s /\
  sto_latest_justified s' = sto_latest_justified s.

Lemma accept_same_tree s s' : accept_new_attestations s = Ok s' -> same_tree s s'.
Proof. by intros (h & fin & ->)%update_head_frame. Qed.

Lemma tick_interval_same_tree s hp agg s' l : tick_interval s hp agg = Ok (s', l) -> same_tree s s'.
Proof.
  intros E. unfold tick_interval in E. apply bind_Ok in E as (t & _ & E).
  set (s1 := store_with_time s t) in *.
  assert (forall s2, same_tree s1 s2 -> same_tree s s2) as Hs1 by (intros s2; by unfold s1).
  destruct (_ && hp).
  { apply bind_Ok in E as (s2 & E & [= <- <-]). by apply Hs1, accept_same_tree. }
  destruct (_ && agg).
  { unfold aggregate in E. apply bind_Ok in E as (st & _ & E). apply bind_Ok in E as (rs & _ & E).
    injection E as <- _. by apply Hs1. }
  destruct (_ =? 3).
  { apply bind_Ok in E as (s2 & E & [= <- <-]). apply Hs1. unfold update_safe_target in E.
    apply bind_Ok in E as (? & _ & E). apply bind_Ok in E as (? & _ & E).
    by apply bind_Ok in E as (? & _ & [= <-]). }
  destruct (_ =? 4).
  { apply bind_Ok in E as (s2 & E & [= <- <-]). by apply Hs1, accept_same_tree. }
  injection E as <- <-. by apply Hs1.
Qed.

Lemma on_tick_same_tree s target hp agg s' l : on_tick s target hp agg = Ok (s', l) -> same_tree s s'.
Proof.
  intros E. unfold on_tick in E.
  apply (while_Ok (fun acc => same_tree s acc.1)) in E as [Hs _]; [exact Hs| |by split_and!].
  intros [s1 l1] [s2 l2] H1 _ E2. rewrite tick_step_eq in E2. apply bind_Ok in E2 as (nx & _ & E2).
  apply mbind_pair_Ok in E2 as (s3 & l3 & E3 & [= <- <-]). apply tick_interval_same_tree in E3.
  destruct H1 as (? & ? & ?), E3 as (? & ? & ?). unfold same_tree in *. simpl in *. split_and!; congruence.
Qed.

Lemma produce_good s slot v s' b sigs :
  store_good s -> produce_block_with_signatures s slot v = Ok (s', b, sigs) ->
  ssz_valid b = true -> no_cycle anchor b ->
  dget (hash_tree_root b) (sto_blocks s) = None -> store_good s'.
Proof.
  intros Hg E Hb Ha Hnew. unfold produce_block_with_signatures in E.
  apply bind_Ok in E as (ti & Eti & E). apply mbind_pair_Ok in E as (s1 & l1 & E1 & E).
  apply bind_Ok in E as (s2 & E2 & E). apply bind_Ok in E as (hs & Eh%of_option_Ok & E).
  apply bind_Ok in E as (pr & _ & E). destruct (negb _); [done|].
  apply bind_Ok in E as ([[[fb post] atts] sg] & Ebb & E). injection E as <- <- <-.
  apply (tick_good _ _ _ _ _ _ Hg) in E1 as Hg1; [|by apply uint_new_Ok in Eti as [-> ?]].
  destruct Hg1 as [Hok1 Ht1].
  destruct (accept_ok anchor registry s1 Hok1) as (s2' & E2' & [Hs2 Hv2] & Ht2).
  rewrite E2 in E2'. injection E2' as <-.
  apply on_tick_same_tree in E1 as (B1 & _ & _). apply accept_same_tree in E2 as (B2 & _ & _).
  destruct (build_block_sound _ _ _ _ _ _ _ _ _ _ Ebb) as (Htr & Hpar & _).
  assert (dget (hash_tree_root fb) (sto_blocks s2) = None) as Hnew2 by (by rewrite B2, B1).
  rewrite <- Hpar in Eh. destruct (proj2 (store_state_known _ _ _ Hs2) (mk_is_Some _ _ Eh)) as [pb Ep].
  split; [split|by cbn; lia].
  - eapply block_added_inv; [done|done|done|exact Eh|done|done|apply Hs2].
  - eapply block_added_votes; [done|done|by apply (si_entry _ _ Hs2 _ _ _ Ep Eh)|done|done|apply Hv2].
Qed.

Lemma step_good s s' : store_good s -> store_step s s' -> store_good s'.
Proof.
  intros Hg [sb s1 H1 H2 E|sa agg s1 H1 H2 E|sa s1 H1 E|target hp agg s1 l Hr E|slot v s1 b sigs E H1 H2 H3].
  - by eapply on_block_good.
  - by eapply gossip_good.
  - by eapply gossip_aggregated_good.
  - by eapply tick_good.
  - by eapply produce_good.
Qed.
End Steps.

(** A store reached from the anchor [block] with post-state [state]. *)
Inductive reachable_store `{Crypto} (state : State) (block : Block) : Store -> Prop :=
| reach_create v s : create_store state block v = Ok s -> reachable_store state block s
| reach_step s s' :
    reachable_store state block s -> store_step (hash_tree_root block, block) s s' ->
    reachable_store state block s'.

Lemma create_good `{Crypto} state block v s :
  anchor_consistent state block -> create_store state block v = Ok s ->
  store_good (hash_tree_root block, block) (st_validators state) s.
Proof.
  intros Hc E. pose proof (create_store_inv _ _ _ _ Hc E) as Hs. destruct Hc as (Hinv & _ & Hk & _).
  unfold create_store in E. destruct (negb _); [done|].
  apply bind_Ok in E as (t & [-> Ht]%uint_new_Ok & [= <-]).
  split; [split; [exact Hs|]|by unfold in_range in Ht; cbn in *; lia].
  constructor; cbn; try apply values_ok_nil; [apply Hinv|done|].
  by intros r st [= -> ->]%list_elem_of_singleton.
Qed.

Lemma reachable_good `{Crypto} state block s :
  anchor_consistent state block -> reachable_store state block s ->
  store_good (hash_tree_root block, block) (st_validators state) s.
Proof.
  intros Hc. induction 1 as [v s E|s s' _ IH Hst]; [by eapply create_good|by eapply step_good].
Qed.

(** ** The sample run *)
Lemma sample_anchor : anchor_consistent sample_genesis genesis_block.
Proof.
  split_and!.
  - rewrite <- genesis_eq. apply genesis_inv, sample_registry_limit.
  - reflexivity.
  - exact sample_keys_decode.
  - rewrite genesis_root_eq. vm_compute. discriminate.
Qed.

Lemma reach_sample_block s b s' :
  reachable_store (H := sample_crypto) sample_genesis genesis_block s ->
  ssz_valid b = true -> hash_tree_root b <> bk_parent_root genesis_block ->
  on_block (H := sample_crypto) s (signed b) = Ok s' ->
  reachable_store (H := sample_crypto) sample_genesis genesis_block s'.
Proof.
  intros Hr Hb Hp E. eapply (reach_step (H := sample_crypto)); [exact Hr|].
  by apply (step_block (H := sample_crypto) (hash_tree_root genesis_block, genesis_block) s (signed b)); [|intros _|].
Qed.

Lemma sample_store0 : reachable_store (H := sample_crypto) sample_genesis genesis_block store0.
Proof. apply (reach_create (H := sample_crypto) _ _ None). exact store0_created. Qed.
Lemma sample_storeA1 : reachable_store (H := sample_crypto) sample_genesis genesis_block storeA1.
Proof.
  apply (reach_sample_block store0 A1.1); [exact sample_store0|vm_compute; reflexivity
    |vm_compute; discriminate|exact storeA1_added].
Qed.
Lemma sample_storeA2 : reachable_store (H := sample_crypto) sample_genesis genesis_block storeA2.
Proof.
  apply (reach_sample_block storeA1 A2.1); [exact sample_storeA1|vm_compute; reflexivity
    |vm_compute; discriminate|exact storeA2_added].
Qed.
Lemma sample_storeA3 : reachable_store (H := sample_crypto) sample_genesis genesis_block storeA3.
Proof.
  apply (reach_sample_block storeA2 A3.1); [exact sample_storeA2|vm_compute; reflexivity
    |vm_compute; discriminate|exact storeA3_added].
Qed.
Lemma sample_storeAB : reachable_store (H := sample_crypto) sample_genesis genesis_block storeAB.
Proof.
  apply (reach_sample_block storeA1 B1.1); [exact sample_storeA1|vm_compute; reflexivity
    |vm_compute; discriminate|exact storeAB_added].
Qed.

Lemma sample_storeT5 : reachable_store (H := sample_crypto) sample_genesis genesis_block storeT5.
Proof.
  eapply (reach_step (H := sample_crypto)); [exact sample_storeA1|].
  eapply (step_tick (H := sample_crypto) _ _ 5); [|exact storeT5_ticked].
  vm_compute. split; [discriminate|reflexivity].
Qed.
Lemma sample_storeP1 : reachable_store (H := sample_crypto) sample_genesis genesis_block storeP1.
Proof.
  eapply (reach_step (H := sample_crypto)); [exact sample_storeT5|].
  eapply (step_aggregated (H := sample_crypto)); [|exact storeP1_gossiped]. vm_compute. reflexivity.
Qed.
Lemma sample_storeP2 : reachable_store (H := sample_crypto) sample_genesis genesis_block storeP2.
Proof.
  eapply (reach_step (H := sample_crypto)); [exact sample_storeP1|].
  eapply (step_attestation (H := sample_crypto)); [| |exact storeP2_gossiped].
  - vm_compute. discriminate.
  - vm_compute. reflexivity.
Qed.

Definition sample_root : Bytes32 * Block := (hash_tree_root genesis_block, genesis_block).
Lemma sample_store_inv s :
  reachable_store (H := sample_crypto) sample_genesis genesis_block s -> store_inv sample_root s.
Proof. intros Hr. by apply (reachable_good (H := sample_crypto) _ _ _ sample_anchor Hr). Qed.

(** ** Invariants and errors *)

(** C6: in every store reached from a consistent anchor by blocks, gossip, ticks and
    own blocks, the blocks form a tree rooted at the anchor with parents at earlier
    slots, every block has the sound post-state of its own chain, the justified and
    finalized checkpoints, head and safe target name known blocks, and every proof or
    signature in the pools is well-typed and from the registry. *)
Theorem reachable_store_invariant `{Crypto} (state : State) (block : Block) (s : Store) :
  anchor_consistent state block -> reachable_store state block s ->
  store_inv (hash_tree_root block, block) s /\ votes_inv (st_validators state) s.
Proof. intros Hc Hr. by destruct (reachable_good _ _ _ Hc Hr) as [[? ?] _]. Qed.

Lemma reachable_store_invariant_witness :
  store_inv (hash_tree_root genesis_block, genesis_block) storeA3 /\ votes_inv sample_registry storeA3.
Proof.
  apply (reachable_store_invariant (H := sample_crypto) sample_genesis genesis_block storeA3).
  - exact sample_anchor.
  - exact sample_storeA3.
Defined.

(** On a reachable store no handler crashes, whatever well-typed message arrives.
    A block or a vote is accepted or raises a documented rejection (a block past the
    history limit raises the list limit); a tick can only pass on an exception of
    the prover or of the byte limit on its output. *)
Theorem handlers_raise_only_rejections `{Crypto} (state : State) (block : Block) (s : Store) :
  anchor_consistent state block -> reachable_store state block s ->
  (forall sb e, ssz_valid (sb_block sb) = true ->
     no_cycle (hash_tree_root block, block) (sb_block sb) -> on_block s sb = Err e ->
     (exists r, e = SpecRejectionError r) \/
     (e = SSZValueError /\ HISTORICAL_ROOTS_LIMIT < bk_slot (sb_block sb))) /\
  (forall sa is_aggregator e, 0 <= sa_validator_index sa -> ssz_valid (sa_data sa) = true ->
     ssz_valid (sa_signature sa) = true ->
     on_gossip_attestation s sa is_aggregator = Err e -> exists r, e = SpecRejectionError r) /\
  (forall sa e, ssz_valid (saa_proof sa) = true ->
     on_gossip_aggregated_attestation s sa = Err e -> exists r, e = SpecRejectionError r) /\
  (forall target has_proposal is_aggregator e, in_range 64 target ->
     on_tick s target has_proposal is_aggregator = Err e -> e = AggregationError \/ e = SSZValueError).
Proof.
  intros Hc Hr. destruct (reachable_good _ _ _ Hc Hr) as [[Hs Hv] Ht]. split_and!.
  - intros sb e Hb Ha E. destruct (on_block_cases _ s sb Hs Hb Ha) as [(s' & E' & _)|(e' & E' & He)];
      [congruence|]. rewrite E in E'. injection E' as <-. exact He.
  - intros sa agg e Hi Hd Hsg E. destruct (valid_data_message _ Hd) as [Hslot Hlen].
    destruct (on_gossip_attestation_cases _ s sa agg Hs Hi) as [(s' & E' & _)|[(r & E')|(k & e' & _ & Hk & E')]];
      [congruence|exists r; congruence|].
    destruct (xmss_verify_total _ _ _ _ Hk Hslot Hlen Hsg). congruence.
  - intros sa e [Hp _]%sma_valid E.
    destruct (on_gossip_aggregated_attestation_cases _ s sa Hs Hp) as [(s' & E' & _)|(r & E')];
      [congruence|]. exists r. congruence.
  - intros target hp agg e Hr' E. destruct (on_tick_cases _ _ s target hp agg (conj Hs Hv) Ht Hr')
      as [(s' & l & E' & _)|(e' & E' & He)]; [congruence|]. rewrite E in E'. by injection E' as <-.
Qed.

Lemma handlers_raise_only_rejections_witness :
  on_block (H := sample_crypto) storeA1 (signed A3.1) = Err (SpecRejectionError UNKNOWN_PARENT_BLOCK) /\
  ((exists r, SpecRejectionError UNKNOWN_PARENT_BLOCK = SpecRejectionError r) \/
   (SpecRejectionError UNKNOWN_PARENT_BLOCK = SSZValueError /\ HISTORICAL_ROOTS_LIMIT < bk_slot A3.1)).
Proof.
  split; [vm_compute; reflexivity|].
  apply (proj1 (handlers_raise_only_rejections (H := sample_crypto) sample_genesis genesis_block storeA1
    sample_anchor sample_storeA1) (signed A3.1)).
  - vm_compute. reflexivity.
  - vm_compute. discriminate.
  - vm_compute. reflexivity.
Defined.

(** ** Ancestry and votes *)

(** The ancestry test of the store decides ancestry: for a checkpoint that names
    a known block at its slot, it answers whether that block is an ancestor of the
    descendant's block at or before the descendant's slot, and it always ends. *)
Theorem checkpoint_is_ancestor_decides (anchor : Bytes32 * Block) (s : Store) (a d : Checkpoint) :
  store_inv anchor s ->
  exists answer, _checkpoint_is_ancestor s a d = Ok answer /\
    (answer = true <-> cp_slot a <= cp_slot d /\ ancestor (sto_blocks s) (cp_root a) (cp_root d) /\
       checkpoint_in (sto_blocks s) a).
Proof. apply checkpoint_is_ancestor_ok. Qed.

Lemma checkpoint_is_ancestor_decides_witness :
  exists answer, _checkpoint_is_ancestor storeA3 A1_checkpoint A2_checkpoint = Ok answer /\
    (answer = true <-> 1 <= 2 /\ ancestor (sto_blocks storeA3) (cp_root A1_checkpoint) (cp_root A2_checkpoint) /\
       checkpoint_in (sto_blocks storeA3) A1_checkpoint).
Proof.
  apply (checkpoint_is_ancestor_decides sample_root storeA3 A1_checkpoint A2_checkpoint).
  exact (sample_store_inv _ sample_storeA3).
Defined.

(** C31: a vote is admitted exactly when its source, target and head name known blocks
    at their slots, the source is an ancestor of the target and the target of the
    head, its own slot is not before the head, and it is at most one interval ahead
    of the clock; otherwise it is rejected with one of twelve reasons.  The store is any
    that satisfies the store invariant, as every reachable one does. *)
Theorem validate_attestation_iff (anchor : Bytes32 * Block) (s : Store) (d : AttestationData) :
  store_inv anchor s ->
  (validate_attestation s d = Ok tt <-> vote_valid s d) /\
  forall e, validate_attestation s d = Err e -> exists r, e = SpecRejectionError r /\ r ∈ vote_rejections.
Proof.
  intros Hi. destruct (validate_attestation_cases anchor s d Hi) as [[Hv E]|[Hv (r & E & Hr)]]; rewrite E.
  - by split.
  - split; [by split; [|intros ?%Hv]|]. intros e [= <-]. eauto.
Qed.

Definition sample_vote : AttestationData := vote 0 genesis_checkpoint genesis_checkpoint.
Lemma validate_attestation_iff_witness : vote_valid storeA3 sample_vote.
Proof.
  apply (validate_attestation_iff sample_root storeA3 sample_vote).
  - exact (sample_store_inv _ sample_storeA3).
  - vm_compute. reflexivity.
Defined.

(** ** The head *)

(** C2: recomputing the head always succeeds and yields the LMD-GHOST head: with
    every validator's latest known vote in the table, it is the one leaf reached from
    the justified block by descending, at each block, to the child whose subtree has
    the most votes, ties to the larger root.  It descends from the justified block.  The
    store is any that satisfies the store invariant, as every reachable one does. *)
Theorem update_head_is_lmd_ghost (anchor : Bytes32 * Block) (s : Store) :
  store_inv anchor s ->
  exists votes s', update_head s = Ok s' /\
    vote_table (sto_latest_known_aggregated_payloads s) (cp_slot (sto_latest_finalized s)) votes /\
    (forall h, ghost_head (sto_blocks s) votes None (cp_root (sto_latest_justified s)) h <->
       h = sto_head s') /\
    ancestor (sto_blocks s) (cp_root (sto_latest_justified s)) (sto_head s').
Proof.
  intros Hi. destruct (update_head_ok anchor s Hi) as (votes & h & st & fin & E & Hv & Hg & _).
  exists votes, (store_with_head s h fin). split_and!; [done|done| |by eapply ghost_head_descends].
  intros h'. split; [|by intros ->]. intros (bs & Eb & Hr & Hl). destruct Hg as (bs' & Eb' & Hr' & Hl').
  rewrite Eb in Eb'. injection Eb' as <-. by eapply heaviest_path_unique.
Qed.

Lemma update_head_is_lmd_ghost_witness :
  exists votes s', update_head storeAB = Ok s' /\
    vote_table (sto_latest_known_aggregated_payloads storeAB)
      (cp_slot (sto_latest_finalized storeAB)) votes /\
    (forall h, ghost_head (sto_blocks storeAB) votes None (cp_root (sto_latest_justified storeAB)) h <->
       h = sto_head s') /\
    ancestor (sto_blocks storeAB) (cp_root (sto_latest_justified storeAB)) (sto_head s').
Proof. exact (update_head_is_lmd_ghost sample_root storeAB (sample_store_inv _ sample_storeAB)). Defined.

(** Stores that know the same blocks describe the same tree. *)
Lemma ancestor_ext blocks blocks' a r :
  (forall k, dget k blocks = dget k blocks') -> ancestor blocks a r -> ancestor blocks' a r.
Proof.
  intros He. induction 1 as [r b E|a r b E _ IH]; rewrite He in E; [by eapply anc_refl|by eapply anc_parent].
Qed.

Lemma credits_ext blocks blocks' start x head :
  parents_earlier blocks -> parents_earlier blocks' -> dict_wf blocks -> dict_wf blocks' ->
  (forall k, dget k blocks = dget k blocks') -> credits blocks start x head = credits blocks' start x head.
Proof.
  intros He He' Hw Hw' Hd. apply eq_true_iff_eq. rewrite !credits_true by done. rewrite Hd.
  split; intros [Ha Hb]; (split; [|done]); (eapply ancestor_ext; [|exact Ha]); congruence.
Qed.

Lemma dict_perm_of_dget {K V} `{EqDecision K} (d d' : dict K V) :
  dict_wf d -> dict_wf d' -> (forall k v, dget k d = Some v <-> dget k d' = Some v) -> d ≡ₚ d'.
Proof.
  intros Hw Hw' He. apply NoDup_Permutation; [by eapply NoDup_fmap_1|by eapply NoDup_fmap_1|].
  intros [k v]. split; intros Hin.
  - apply dget_In, He. by apply In_dget.
  - apply dget_In, He. by apply In_dget.
Qed.

Lemma ghost_head_ext blocks blocks' votes votes' start h :
  parents_earlier blocks -> parents_earlier blocks' -> dict_wf blocks -> dict_wf blocks' ->
  (forall k, dget k blocks = dget k blocks') -> dvalues votes ≡ₚ dvalues votes' ->
  ghost_head blocks votes None start h -> ghost_head blocks' votes' None start h.
Proof.
  intros He He' Hw Hw' Hd Hp (bs & Eb & Hr & Hl). exists bs. rewrite <- Hd. split; [done|]. cbn zeta in *.
  assert (forall x, votes_for blocks (bk_slot bs) (dvalues votes) x =
    votes_for blocks' (bk_slot bs) (dvalues votes') x) as Hwt.
  { intros x. rewrite (votes_for_perm blocks' _ (dvalues votes') (dvalues votes)) by done. unfold votes_for.
    do 2 f_equal. apply list_filter_iff. intros d. by rewrite (credits_ext blocks blocks'). }
  assert (forall ok p c, candidate blocks ok p c <-> candidate blocks' ok p c) as Hc
    by (intros ok p c; unfold candidate; by rewrite Hd).
  split; [|intros c; rewrite <- Hc; apply Hl].
  eapply rtc_subrel; [|exact Hr]. intros p c [H1 H2]. split; [by apply Hc|].
  intros c' Hc'%Hc%H2. unfold key_le in *. by rewrite <- !Hwt.
Qed.

(** The head depends on what the store knows, not on the order in which it came:
    two stores with the same blocks, the same checkpoints and the same latest votes
    choose the same head, whatever the order of their dicts. *)
Theorem head_order_independent (a1 a2 : Bytes32 * Block) (s1 s2 s1' s2' : Store) :
  store_inv a1 s1 -> store_inv a2 s2 -> sto_blocks s1 ≡ₚ sto_blocks s2 ->
  sto_latest_justified s1 = sto_latest_justified s2 ->
  (forall v d,
     latest_vote (sto_latest_known_aggregated_payloads s1) (cp_slot (sto_latest_finalized s1)) v d <->
     latest_vote (sto_latest_known_aggregated_payloads s2) (cp_slot (sto_latest_finalized s2)) v d) ->
  update_head s1 = Ok s1' -> update_head s2 = Ok s2' -> sto_head s1' = sto_head s2'.
Proof.
  intros H1 H2 Hb Hj Hv E1 E2.
  destruct (update_head_ok a1 s1 H1) as (v1 & h1 & st1 & f1 & F1 & [W1 T1] & G1 & _).
  destruct (update_head_ok a2 s2 H2) as (v2 & h2 & st2 & f2 & F2 & [W2 T2] & G2 & _).
  rewrite E1 in F1. rewrite E2 in F2. injection F1 as ->. injection F2 as ->. cbn.
  assert (v1 ≡ₚ v2) as Hp.
  { apply dict_perm_of_dget; [done|done|]. intros k d. by rewrite T1, T2. }
  rewrite <- Hj in G2.
  apply (ghost_head_ext (sto_blocks s1) (sto_blocks s2) v1 v2) in G1;
    [|apply H1|apply H2|apply H1|apply H2|intros k; apply dget_perm; [apply H1|done]|by rewrite Hp].
  destruct G1 as (b1 & Eb1 & R1 & L1), G2 as (b2 & Eb2 & R2 & L2). rewrite Eb1 in Eb2. injection Eb2 as <-.
  by eapply heaviest_path_unique.
Qed.

(** The same blocks, received in the other order. *)
Definition storeB1 : Store := Eval vm_compute in
  get (on_block (H := sample_crypto) store0 (signed B1.1)).
Definition storeBA : Store := Eval vm_compute in
  get (on_block (H := sample_crypto) storeB1 (signed A1.1)).

Lemma sample_storeBA : reachable_store (H := sample_crypto) sample_genesis genesis_block storeBA.
Proof.
  apply (reach_sample_block storeB1 A1.1); [|vm_compute; reflexivity|vm_compute; discriminate
    |vm_compute; reflexivity].
  apply (reach_sample_block store0 B1.1); [exact sample_store0|vm_compute; reflexivity
    |vm_compute; discriminate|vm_compute; reflexivity].
Qed.

Lemma head_order_independent_witness : sto_head storeAB = sto_head storeBA.
Proof.
  apply (head_order_independent sample_root sample_root storeAB storeBA storeAB storeBA).
  - exact (sample_store_inv _ sample_storeAB).
  - exact (sample_store_inv _ sample_storeBA).
  - unfold storeAB, storeBA. cbn [sto_blocks]. apply perm_skip, perm_swap.
  - reflexivity.
  - intros v d. change (sto_latest_known_aggregated_payloads storeAB) with
      (sto_latest_known_aggregated_payloads storeBA). reflexivity.
  - vm_compute. reflexivity.
  - vm_compute. reflexivity.
Defined.

(** ** The safe target *)

(** Every block of a GHOST descent past its start passes the threshold. *)
Lemma descent_passes blocks w ok start h x :
  parents_earlier blocks -> rtc (heaviest blocks w ok) start h ->
  ancestor blocks start x -> ancestor blocks x h -> x <> start -> ok x = true.
Proof.
  intros He Hr Hsx Hxh Hne. revert h Hr Hxh.
  apply (rtc_ind_r (fun h => ancestor blocks x h -> ok x = true)); [intros Hxh|intros p c Hr Hc IH Hxh].
  - destruct Hne. destruct (ancestor_known _ _ _ Hsx) as [[bs Es] [bx Ex]].
    destruct (ancestor_slot blocks He _ _ _ _ Hsx Es Ex) as [? Hu],
             (ancestor_slot blocks He _ _ _ _ Hxh Ex Es) as [? _]. symmetry. apply Hu. lia.
  - destruct Hc as [(Hok & bc & Ec & <-) _]. inversion Hxh as [|? ? b E Hup]; subst; [done|].
    rewrite Ec in E. injection E as <-. by apply IH.
Qed.

Lemma min_target_score_two_thirds n k : min_target_score n <= k -> 2 * n <= 3 * k.
Proof. unfold min_target_score, ceil_div. div_lia. Qed.

(** C17: updating the safe target always succeeds, and every block from the justified
    one (excluded) to the new safe target (included) has, among the latest pending
    votes, those of at least two thirds of the head state's registry behind it.  The store
    is any that satisfies the store invariant, as every reachable one does. *)
Theorem safe_target_has_supermajority (anchor : Bytes32 * Block) (s : Store) :
  store_inv anchor s ->
  exists votes s' st bj, update_safe_target s = Ok s' /\
    vote_table (sto_latest_new_aggregated_payloads s) (cp_slot (sto_latest_finalized s)) votes /\
    dget (sto_head s) (sto_states s) = Some st /\
    dget (cp_root (sto_latest_justified s)) (sto_blocks s) = Some bj /\
    ancestor (sto_blocks s) (cp_root (sto_latest_justified s)) (sto_safe_target s') /\
    forall x, ancestor (sto_blocks s) (cp_root (sto_latest_justified s)) x ->
      ancestor (sto_blocks s) x (sto_safe_target s') -> x <> cp_root (sto_latest_justified s) ->
      2 * Zlen (st_validators st) <= 3 * votes_for (sto_blocks s) (bk_slot bj) (dvalues votes) x.
Proof.
  intros Hi. destruct (update_safe_target_ok anchor s Hi) as (votes & st & h & E & Es & Hv & Hg).
  pose proof (ghost_head_descends _ _ _ _ _ Hg) as Hd. destruct Hg as (bj & Ej & Hr & _).
  exists votes, (store_with_safe_target s h), st, bj. split_and!; try done.
  intros x Hx Hxh Hne. apply min_target_score_two_thirds, Z.leb_le.
  by eapply (descent_passes _ _ _ _ _ _ (si_earlier _ _ Hi) Hr).
Qed.

Lemma safe_target_has_supermajority_witness :
  sto_safe_target (get (update_safe_target storeP1)) = cp_root A1_checkpoint /\
  exists votes s' st bj, update_safe_target storeP1 = Ok s' /\
    vote_table (sto_latest_new_aggregated_payloads storeP1)
      (cp_slot (sto_latest_finalized storeP1)) votes /\
    dget (sto_head storeP1) (sto_states storeP1) = Some st /\
    dget (cp_root (sto_latest_justified storeP1)) (sto_blocks storeP1) = Some bj /\
    ancestor (sto_blocks storeP1) (cp_root (sto_latest_justified storeP1)) (sto_safe_target s') /\
    forall x, ancestor (sto_blocks storeP1) (cp_root (sto_latest_justified storeP1)) x ->
      ancestor (sto_blocks storeP1) x (sto_safe_target s') ->
      x <> cp_root (sto_latest_justified storeP1) ->
      2 * Zlen (st_validators st) <= 3 * votes_for (sto_blocks storeP1) (bk_slot bj) (dvalues votes) x.
Proof.
  split; [vm_compute; reflexivity|].
  exact (safe_target_has_supermajority sample_root storeP1 (sample_store_inv _ sample_storeP1)).
Defined.

(** ** Finality in the store *)

(** After recomputing the head, the store's finalized checkpoint is the one the
    new head's own state finalized, whenever that lies at or after the anchor and
    past slot 0; otherwise it is unchanged or the head's known ancestor at that slot.
    It always names a known block at its slot. *)
Theorem update_head_finalizes_on_head_chain (anchor : Bytes32 * Block) (s s' : Store) :
  store_inv anchor s -> update_head s = Ok s' ->
  exists st, dget (sto_head s') (sto_states s) = Some st /\
    checkpoint_in (sto_blocks s) (sto_latest_finalized s') /\
    (sto_latest_finalized s' = sto_latest_finalized s \/
     (ancestor (sto_blocks s) (cp_root (sto_latest_finalized s')) (sto_head s') /\
      cp_slot (sto_latest_finalized s') = st_finalized_slot st)) /\
    (0 < st_finalized_slot st -> bk_slot anchor.2 <= st_finalized_slot st ->
     sto_latest_finalized s' = st_latest_finalized st).
Proof.
  intros Hi E. destruct (update_head_ok anchor s Hi) as (votes & h & st & fin & E' & _ & _ & Es & Hf).
  rewrite E in E'. injection E' as ->. exists st. split; [done|]. cbn. destruct Hf as (H1 & H2 & H3). done.
Qed.

Lemma update_head_finalizes_on_head_chain_witness :
  exists st, dget (sto_head storeA3) (sto_states storeA3) = Some st /\
    checkpoint_in (sto_blocks storeA3) (sto_latest_finalized storeA3) /\
    (sto_latest_finalized storeA3 = sto_latest_finalized storeA3 \/
     (ancestor (sto_blocks storeA3) (cp_root (sto_latest_finalized storeA3)) (sto_head storeA3) /\
      cp_slot (sto_latest_finalized storeA3) = st_finalized_slot st)) /\
    (0 < st_finalized_slot st -> bk_slot genesis_block <= st_finalized_slot st ->
     sto_latest_finalized storeA3 = st_latest_finalized st).
Proof.
  apply (update_head_finalizes_on_head_chain sample_root storeA3 storeA3).
  - exact (sample_store_inv _ sample_storeA3).
  - vm_compute. reflexivity.
Defined.

(** ** Progress *)
Lemma advance_to_slot c d : cp_slot c <= cp_slot (advance_to c d).
Proof. unfold advance_to. destruct (Z.gtb_spec (cp_slot d) (cp_slot c)); lia. Qed.

Lemma tree_grows s root b st j known :
  dget root (sto_blocks s) = None -> forall r x, dget r (sto_blocks s) = Some x ->
  dget r (sto_blocks (store_with_block s root b st j known)) = Some x.
Proof. intros Hn r x E. cbn. by apply dget_added. Qed.

(** No handler ever forgets a block, or moves the store's justified checkpoint to
    an earlier slot. *)
Theorem store_step_monotone `{Crypto} (anchor : Bytes32 * Block) (s s' : Store) :
  store_step anchor s s' ->
  (forall r b, dget r (sto_blocks s) = Some b -> dget r (sto_blocks s') = Some b) /\
  cp_slot (sto_latest_justified s) <= cp_slot (sto_latest_justified s').
Proof.
  intros [sb s1 H1 H2 E|sa agg s1 H1 H2 E|sa s1 H1 E|target hp agg s1 l Hr E|slot v s1 b sigs E H1 H2 H3].
  - destruct (on_block_stages s sb s1 E) as [[-> _]|(parent & post & s2 & Hnew & _ & _ & E1 & Hs')]; [done|].
    apply update_head_frame in E1 as (h & fin & ->).
    assert (same_tree (store_with_block s (hash_tree_root (sb_block sb)) (sb_block sb) post
      (advance_to (sto_latest_justified s) (st_latest_justified post)) (seed_known
      (bd_attestations (bk_body (sb_block sb))) (sto_latest_known_aggregated_payloads s))) s1) as (B & _ & J).
    { destruct Hs' as [->|Hs']; [done|]. unfold prune_stale_attestation_data in Hs'.
      apply bind_Ok in Hs' as (? & _ & Hs'). apply bind_Ok in Hs' as (? & _ & Hs').
      by apply bind_Ok in Hs' as (? & _ & [= <-]). }
    rewrite B, J. split; [by apply tree_grows|apply advance_to_slot].
  - unfold on_gossip_attestation in E. cbn zeta in E. apply bind_Ok in E as (u & _ & E).
    apply bind_Ok in E as (st & _ & E). destruct (negb _); [done|]. apply bind_Ok in E as (k & _ & E).
    apply bind_Ok in E as (ok & _ & E). destruct (negb ok); [done|]. by destruct agg; cbn [negb] in E; injection E as <-.
  - unfold on_gossip_aggregated_attestation in E. cbn zeta in E. apply bind_Ok in E as (u & _ & E).
    apply bind_Ok in E as (l & _ & E). apply bind_Ok in E as (st & _ & E). destruct (negb _); [done|].
    apply bind_Ok in E as (k & _ & E). by apply bind_Ok in E as (u' & _ & [= <-]).
  - apply on_tick_same_tree in E as (B & _ & J). by rewrite B, J.
  - unfold produce_block_with_signatures in E. apply bind_Ok in E as (ti & _ & E).
    apply mbind_pair_Ok in E as (s2 & l1 & E1 & E). apply bind_Ok in E as (s3 & E2 & E).
    apply bind_Ok in E as (hs & _ & E). apply bind_Ok in E as (pr & _ & E). destruct (negb _); [done|].
    apply bind_Ok in E as ([[[fb post] atts] sg] & _ & E). injection E as <- <- <-.
    apply on_tick_same_tree in E1 as (B1 & _ & J1). apply accept_same_tree in E2 as (B2 & _ & J2).
    rewrite <- J1, <- J2. split; [|apply advance_to_slot]. intros r x Hx. apply tree_grows; by rewrite B2, B1.
Qed.

Lemma store_step_monotone_witness :
  (forall r b, dget r (sto_blocks storeA2) = Some b -> dget r (sto_blocks storeA3) = Some b) /\
  cp_slot (sto_latest_justified storeA2) <= cp_slot (sto_latest_justified storeA3).
Proof.
  apply (store_step_monotone (H := sample_crypto) sample_root).
  apply (step_block (H := sample_crypto) sample_root storeA2 (signed A3.1)).
  - vm_compute. reflexivity.
  - vm_compute. discriminate.
  - exact storeA3_added.
Defined.

(** The run behind [storeF7]. *)
Lemma sample_storeF7 : reachable_store (H := sample_crypto) sample_genesis genesis_block storeF7.
Proof.
  eapply (reach_step (H := sample_crypto) _ _ storeF6);
    [eapply (reach_step (H := sample_crypto) _ _ storeF5);
      [eapply (reach_step (H := sample_crypto) _ _ storeF4);
        [eapply (reach_step (H := sample_crypto) _ _ storeF3)|]|]|].
  - apply (reach_sample_block storeF2 B2.1); [|vm_compute; reflexivity|vm_compute; discriminate
      |vm_compute; reflexivity].
    apply (reach_sample_block storeF1 B1.1); [|vm_compute; reflexivity|vm_compute; discriminate
      |vm_compute; reflexivity].
    apply (reach_sample_block storeA3 C3.1); [exact sample_storeA3|vm_compute; reflexivity
      |vm_compute; discriminate|vm_compute; reflexivity].
  - apply (step_tick (H := sample_crypto) _ _ 20 false false _ []);
      [vm_compute; split; [discriminate|reflexivity]|vm_compute; reflexivity].
  - apply (step_aggregated (H := sample_crypto) _ _ (aggregate_of (vote 3 A2_checkpoint C3_checkpoint)));
      vm_compute; reflexivity.
  - apply (step_aggregated (H := sample_crypto) _ _ (aggregate_of (vote 4 genesis_checkpoint B2_checkpoint)));
      vm_compute; reflexivity.
  - apply (step_tick (H := sample_crypto) _ _ 24 false false _ []);
      [vm_compute; split; [discriminate|reflexivity]|vm_compute; reflexivity].
Qed.
