(* ===== verification/SyncTheorems.v ===== *)
(** * The sync service is safe

    Whatever events arrive and whatever the network answers, the store of the service
    satisfies the invariant of reachable stores, the cache and the peers stay consistent,
    the vote buffers bounded, and no event raises. *)

From S2P Require Import Prelude Pydict Uint Ssz SszCorrect Sha256 Merkle Containers StateTransition Samples.
From S2P Require Import StateCorrect StateHistory Proofs Signatures SignaturesCorrect ForkChoice ForkChoiceCorrect.
From S2P Require Import StoreVotes StoreCorrect StoreHandlers Aggregation Duties SampleStores AggregationCorrect.
From S2P Require Import StoreReachable DutiesCorrect StoreTheorems SszRecords Varint Snappy ReqResp ReqRespCorrect.
From S2P Require Import BlockCache PeerManager StateMonad Backfill BackfillCorrect SyncService GossipTopic.

(** ** Recovering the proofs of a block *)
Section Recover.
Context `{Crypto} (registry : list Validator) (Hkeys : keys_decode registry)
  (Hlimit : Zlen registry <= VALIDATOR_REGISTRY_LIMIT).
Let n := Zlen registry.

Lemma keys_within l ks : Forall (fun i => 0 <= i) l -> mapM (attestation_key registry) l = Ok ks -> Forall (fun i => i < n) l.
Proof.
  intros Hl Hm%mapM_Ok. induction Hm as [|i k l ks Hi _ IH]; [constructor|]. inversion Hl; subst.
  constructor; [|by apply IH]. unfold attestation_key in Hi. apply bind_Ok in Hi as (v & Ev%of_option_Ok & _).
  apply lookup_lt_Some in Ev. subst n. lia.
Qed.

Lemma split_within block keys a l ks p :
  Zlen (aa_bits a) <= VALIDATOR_REGISTRY_LIMIT -> to_validator_indices (aa_bits a) = Ok l ->
  mapM (attestation_key registry) l = Ok ks ->
  mma_split_by_message (sb_proof block) (hash_tree_root (aa_data a)) keys (aa_bits a) = Ok p -> proof_within n p.
Proof.
  intros Hb Hl Hk E. unfold mma_split_by_message in E. apply bind_Ok in E as (kb & _ & E).
  apply bind_Ok in E as (wire & _ & E). unfold bytelist_new in E.
  destruct (Z.leb_spec (Zlen wire) BYTE_LIST_512_KIB) as [Hw|]; [|done]. injection E as <-. split; [split|].
  - by apply sma_valid.
  - by exists l.
  - intros v Hv. apply to_validator_indices_Ok in Hl as [-> _].
    assert (Forall (fun i => i < n) (set_indices (aa_bits a))) as Hf.
    { eapply keys_within; [|exact Hk]. apply Forall_forall. by intros i [? _]%elem_of_set_indices. }
    rewrite Forall_forall in Hf. by apply Hf.
Qed.

Lemma recover_within block keys local a l ks p :
  Zlen (aa_bits a) <= VALIDATOR_REGISTRY_LIMIT -> to_validator_indices (aa_bits a) = Ok l ->
  mapM (attestation_key registry) l = Ok ks -> Forall (proof_within n) local ->
  recover_proof registry block keys local a = Ok p -> proof_within n p.
Proof.
  intros Hb Hl Hk Hloc E. unfold recover_proof in E. apply bind_Ok in E as (split & Es & E).
  pose proof (split_within _ _ _ _ _ _ Hb Hl Hk Es) as Hs. destruct local as [|p0 local]; [by injection E as <-|].
  destruct (children_ok registry Hkeys (split :: p0 :: local)) as (cs & Ec & Hf & Hck); [by constructor|].
  rewrite Ec in E. mcbn_in E.
  destruct (sma_aggregate_cases registry cs [] (hash_tree_root (aa_data a)) (ad_slot (aa_data a)))
    as [(q & Eq & Hq & _)|[Eq|Eq]]; [..|rewrite E in Eq; by injection Eq as <-|congruence|congruence].
  - apply Forall_forall. intros c Hc. split; [|by eapply Forall_forall in Hck].
    assert (Forall (proof_within n) (split :: p0 :: local)) as Hall by (by constructor).
    eapply Forall_forall; [exact Hall|]. rewrite <- Hf. by apply list_elem_of_fmap_2.
  - constructor.
  - by intros t ?%elem_of_nil.
  - done.
  - right. intros ->. done.
Qed.

Lemma local_proofs_within pool root ps :
  values_ok (proofs_within n) pool -> dget root (local_proofs_by_root pool) = Some ps -> Forall (proof_within n) ps.
Proof.
  intros Hp. unfold local_proofs_by_root.
  assert (forall d, (forall r qs, dget r d = Some qs -> Forall (proof_within n) qs) ->
    forall r qs, dget r (foldl (fun d e => dset (hash_tree_root e.1) (default [] (dget (hash_tree_root e.1) d) ++ e.2) d) d pool)
      = Some qs -> Forall (proof_within n) qs) as Hf; [|by eapply Hf].
  induction pool as [|[d0 ps0] pool IH]; intros d Hd; [done|]. cbn [foldl]. apply IH.
  - intros k v Hin. apply (Hp k). by right.
  - intros r qs. rewrite dget_dset. case_decide; [|apply Hd]. intros [= <-]. apply Forall_app_2.
    + destruct (dget _ d) eqn:E; [by eapply Hd|constructor].
    + by apply (Hp d0); left.
Qed.

Lemma drop_superseded_within root superseded pool :
  values_ok (proofs_within n) pool -> values_ok (proofs_within n) (drop_superseded root superseded pool).
Proof.
  intros Hp d ps Hin. unfold drop_superseded in Hin. apply list_elem_of_omap in Hin as ([d0 ps0] & Hin & E). cbn [fst snd] in E.
  destruct (Hp _ _ Hin) as [Hn Hf]. destruct (bool_decide _).
  - destruct (sdiff ps0 superseded) as [|q qs] eqn:Es; [done|]. injection E as <- <-. rewrite <- Es. split.
    + by apply NoDup_sdiff.
    + apply Forall_forall. intros p [Hq _]%elem_of_sdiff. by eapply Forall_forall in Hf.
  - injection E as <- <-. by split.
Qed.

Lemma deconstruct_attestation_within store block keys acc a acc' pool l ks :
  Zlen (aa_bits a) <= VALIDATOR_REGISTRY_LIMIT -> to_validator_indices (aa_bits a) = Ok l ->
  mapM (attestation_key registry) l = Ok ks -> values_ok (proofs_within n) pool ->
  values_ok (proofs_within n) acc.1 ->
  deconstruct_attestation store registry block keys (local_proofs_by_root pool) acc a = Ok acc' ->
  values_ok (proofs_within n) acc'.1.
Proof.
  intros Hb Hl Hk Hpool Hacc E. unfold deconstruct_attestation in E. destruct acc as [new aggs]. cbn zeta in E.
  destruct (_ <=? _); [by injection E as <-|]. rewrite Hl in E. mcbn_in E.
  set (local := default [] _) in *.
  assert (Forall (proof_within n) local) as Hloc.
  { subst local. destruct (dget (hash_tree_root (aa_data a)) (local_proofs_by_root pool)) as [ps|] eqn:Ed; cbn; [|constructor].
    exact (local_proofs_within _ _ _ Hpool Ed). }
  apply bind_Ok in E as (li & _ & E). destruct (_ =? 0); [by injection E as <-|].
  destruct (recover_proof _ _ _ _ _) as [p|e] eqn:Er; [|destruct e; try discriminate E; by injection E as <-].
  pose proof (recover_within _ _ _ _ _ _ _ Hb Hl Hk Hloc Er) as Hp. injection E as <-. cbn [fst].
  set (new' := match local with [] => new | _ => _ end).
  assert (values_ok (proofs_within n) new') as Hn' by (subst new'; destruct local; [done|by apply drop_superseded_within]).
  apply values_ok_dset; [done|]. apply proofs_within_sadd; [done|]. by apply proofs_within_get.
Qed.
End Recover.

(** ** Stores *)
Section Store.
Context `{Crypto} (anchor : Bytes32 * Block) (registry : list Validator).

(** A block as it leaves the decoder; if it is past the anchor, its root does not collide
    with that of the anchor's parent.  The parent itself is such a block. *)
Definition block_ok (b : SignedBlock) : Prop :=
  ssz_valid b = true /\ no_cycle anchor (sb_block b).

Lemma valid_signed_block (b : SignedBlock) : ssz_valid b = true -> ssz_valid (sb_block b) = true.
Proof.
  unfold ssz_valid. cbn [ssz_descr ssz_repr ssz_SignedBlock class_of container_class well_typed map].
  cbn [length Nat.eqb combine forallb fst snd]. intros H'. by bool_to_prop.
Qed.

Lemma proofs_within_pool_ok k (pool : ProofPool) : values_ok (proofs_within k) pool -> pool_ok pool.
Proof.
  intros Hp d ps p Hin Hps. destruct (Hp _ _ Hin) as [_ Hf]. rewrite Forall_forall in Hf. by destruct (Hf _ Hps) as [[_ ?] _].
Qed.

Lemma deconstruct_good store block store' aggregates :
  store_good anchor registry store -> ssz_valid (sb_block block) = true ->
  _deconstruct_block_into_store store block = Ok (store', aggregates) -> store_good anchor registry store'.
Proof.
  intros Hg Hb E. pose proof Hg as [[Hs Hv] Ht]. unfold _deconstruct_block_into_store in E.
  destruct (Zlen _ =? 0); [by injection E as <- _|].
  destruct (dget _ (sto_states store)) as [parent|] eqn:Ep; [|by injection E as <- _].
  rewrite (vi_states _ _ Hv _ _ (dget_In _ _ _ Ep)) in E.
  apply bind_Ok in E as (keys & Ek & E). apply bind_Ok in E as ([new aggs] & Ef & E).
  destruct (Zlen aggs =? 0); injection E as <- _; [done|].
  assert (values_ok (proofs_within (Zlen registry)) new) as Hn.
  { refine (foldM_invariant (fun acc : ProofPool * list SignedAggregatedAttestation =>
      values_ok (proofs_within (Zlen registry)) acc.1) _ _ _ _ _ _ Ef); [|apply Hv].
    intros acc a acc' Ha Hacc Ea.
    unfold block_public_keys in Ek. apply bind_Ok in Ek as (aks & Em%mapM_Ok & _).
    destruct (list_elem_of_lookup_1 _ _ Ha) as [i Hi]. destruct (Forall2_lookup_l _ _ _ _ _ Em Hi) as (ks & _ & El).
    apply bind_Ok in El as (l & El & Eks).
    pose proof (valid_body_attestations _ (valid_block_body _ Hb)) as Hat. rewrite Forall_forall in Hat.
    destruct (Hat a Ha) as [Hbits _].
    eapply (deconstruct_attestation_within registry (vi_keys _ _ Hv) (vi_limit _ _ Hv)); [done|done|done|apply Hv|done|exact Ea]. }
  split; [split|done].
  - apply pools_inv; [done|by eapply proofs_within_pool_ok|apply Hs].
  - apply votes_inv_pools; [done|apply Hv|done|apply Hv].
Qed.
End Store.

(** ** The service *)
Section Service.
Context `{Crypto} `{SetOrder} `{Network} (anchor : Bytes32 * Block) (registry : list Validator).
Hypothesis answers_by_root : forall n peer roots blocks b,
  answer_by_root n peer roots = Ok blocks -> b ∈ blocks -> block_ok anchor b.
Hypothesis answers_by_range : forall n peer start count blocks b,
  answer_by_range n peer start count = Ok blocks -> b ∈ blocks -> block_ok anchor b.

Abbreviation good := (store_good anchor registry).

(** A vote as it leaves the decoder *)
Record vote_ok (a : SignedAttestation) : Prop := {
  vo_index : 0 <= sa_validator_index a;
  vo_data : ssz_valid (sa_data a) = true;
  vo_signature : ssz_valid (sa_signature a) = true /\ is_Ok (container_encode (sa_signature a)) = true
}.
Definition aggregated_ok (a : SignedAggregatedAttestation) : Prop := ssz_valid (saa_proof a) = true.

Record service_inv (s : SyncService) : Prop := {
  sv_good : good (sv_store s);
  sv_books : bf_inv (block_ok anchor) (sv_backfill s);
  sv_votes : Forall vote_ok (sv_pending_attestations s) /\ Zlen (sv_pending_attestations s) <= MAX_PENDING_ATTESTATIONS;
  sv_aggregated : Forall aggregated_ok (sv_pending_aggregated_attestations s) /\
    Zlen (sv_pending_aggregated_attestations s) <= MAX_PENDING_ATTESTATIONS
}.

(** While a block is processed the service keeps its store, its phase and its books. *)
Definition at_store (store : Store * SyncState) (books : BackfillState) (s : SyncService) : Prop :=
  service_inv s /\ (sv_store s, sv_state s) = store /\ sv_backfill s = books.

(** ** Processing a block *)
Lemma process_block_ok store0 books store block :
  good store -> block_ok anchor block ->
  triple (at_store store0 books) (process_block store block)
    (fun store' s => at_store store0 books s /\ good store') (fun _ => at_store store0 books).
Proof.
  intros Hg [Hv Hc]. pose proof (valid_signed_block _ Hv) as Hb. unfold process_block.
  eapply (triple_bind _ _ _ (fun store' s => at_store store0 books s /\ good store')).
  { apply triple_raising. intros s Hs. destruct (on_block store block) as [store'|] eqn:E; [|done].
    split; [done|]. by apply (on_block_good anchor registry store block). }
  intros store'. apply triple_pure. intros Hg'.
  eapply (triple_bind _ _ _ (fun _ => at_store store0 books)); [apply triple_raising; intros s Hs; by destruct (dgetitem _ _)|]. intros _.
  eapply (triple_bind _ _ _ (fun _ => at_store store0 books)); [apply triple_raising; intros s Hs; by destruct (dgetitem _ _)|]. intros _.
  eapply (triple_bind _ _ _ (fun _ => at_store store0 books)); [apply triple_raising; intros s Hs; by case_match|]. intros reorg.
  eapply (triple_bind _ _ _ (fun _ => at_store store0 books)).
  { apply triple_modify. intros s [[] E]. by split; [split|]. }
  intros _. eapply (triple_bind _ _ _ (fun r s => at_store store0 books s /\ good r.1)).
  { apply triple_raising. intros s Hs. destruct (_deconstruct_block_into_store store' block) as [[store2 aggs]|] eqn:E; [|done].
    split; [done|]. by eapply (deconstruct_good anchor registry store' block). }
  intros [store2 aggs]. apply triple_pure. intros Hg2.
  eapply (triple_bind _ _ _ (fun _ => at_store store0 books)).
  { apply triple_modify. intros s [[] E]. by split; [split|]. }
  intros _. apply triple_ret. by split.
Qed.

Lemma try_process_ok store0 books store block :
  good store -> block_ok anchor block ->
  triple (at_store store0 books) (catch (store ← process_block store block; mret (Some store)) (fun _ => mret None))
    (fun r s => at_store store0 books s /\ match r with Some store' => good store' | None => True end) never.
Proof.
  intros Hg Hb. eapply (triple_catch _ _ _ _ _ (fun _ => at_store store0 books)).
  - eapply triple_bind; [by apply process_block_ok|]. intros store'. apply triple_ret. tauto.
  - intros e. apply triple_ret. tauto.
Qed.

(** ** The cache *)
Definition cached (s : SyncService) (p : PendingBlock) : Prop := dget (pb_root p) (bc_blocks (service_cache s)) = Some p.
Definition cache_size (s : SyncService) : nat := length (bc_blocks (service_cache s)).
(** The invariant, with the store and the phase the service keeps *)
Definition keeps (store : Store * SyncState) (s : SyncService) : Prop :=
  service_inv s /\ (sv_store s, sv_state s) = store.
(** The invariant, with the phase *)
Definition in_phase (phase : SyncState) (s : SyncService) : Prop := service_inv s /\ sv_state s = phase.

Lemma update_cache_inv store f s :
  keeps store s -> cache_inv (f (service_cache s)) -> cached_good (block_ok anchor) (f (service_cache s)) ->
  keeps store (update_cache f s).
Proof. intros [[Hg [] Hv Ha] E] Hc Hb. by split; [split|]. Qed.

Lemma cached_good_remove root cache :
  cached_good (block_ok anchor) cache -> cached_good (block_ok anchor) (cache_remove root cache).2.
Proof.
  intros Hc r p. unfold cache_remove. destruct (dget root (bc_blocks cache)); [|apply Hc]. cbn. rewrite dget_ddel.
  case_decide; [done|]. apply Hc.
Qed.

Lemma drop_cached_inv store root s : keeps store s -> keeps store (update_cache (fun c => (cache_remove root c).2) s).
Proof.
  intros Hs. pose proof Hs as [[_ [_ Hc Hb _] _ _] _].
  apply update_cache_inv; [done|by apply cache_remove_inv|by apply cached_good_remove].
Qed.

Lemma drop_cached_size root s p :
  service_inv s -> dget root (bc_blocks (service_cache s)) = Some p ->
  cache_size s = S (cache_size (update_cache (fun c => (cache_remove root c).2) s)).
Proof.
  intros [_ [_ Hc _ _] _ _] E. unfold cache_size, service_cache in *. cbn. unfold cache_remove. rewrite E. cbn.
  by eapply ddel_length; [apply Hc|].
Qed.

Lemma drop_cached_other root s p :
  pb_root p <> root -> cached s p -> cached (update_cache (fun c => (cache_remove root c).2) s) p.
Proof.
  intros Hne Hp. unfold cached, service_cache in *. cbn. unfold cache_remove.
  destruct (dget root _); [|done]. cbn. by rewrite dget_ddel, decide_False.
Qed.

(** ** Draining the cache *)
Lemma drain_children_ok store0 k children : forall store unlocked,
  good store -> NoDup (map pb_root children) ->
  triple (fun s => keeps store0 s /\ Forall (cached s) children /\ (cache_size s + length unlocked <= k)%nat)
    (drain_children children store unlocked)
    (fun r s => (keeps store0 s /\ (cache_size s + length r.2 <= k)%nat) /\ good r.1) never.
Proof.
  induction children as [|child children IH]; intros store unlocked Hg Hn; cbn [drain_children].
  { apply triple_ret. tauto. }
  cbn [map] in Hn. apply NoDup_cons in Hn as [Hc Hn].
  assert (forall s, Forall (cached s) children ->
    Forall (cached (update_cache (fun c => (cache_remove (pb_root child) c).2) s)) children) as Hother.
  { intros s Hf. apply Forall_forall. intros p Hp. apply drop_cached_other; [|by eapply Forall_forall in Hf].
    intros E. apply Hc. rewrite <- E. by apply list_elem_of_fmap_2. }
  destruct (dmem _ (sto_blocks store)).
  - eapply (triple_bind _ _ _ (fun _ s => keeps store0 s /\ Forall (cached s) children /\
      (cache_size s + length unlocked <= k)%nat)); [|intros _; by apply IH].
    apply triple_modify. intros s (Hs & Hf & Hk).
    apply Forall_cons in Hf as [Hch Hf]. split_and!; [by apply drop_cached_inv|by apply Hother|].
    pose proof (drop_cached_size _ _ _ (proj1 Hs) Hch). lia.
  - apply triple_from. intros s1 (Hs1 & Hf1 & Hk1). apply Forall_cons in Hf1 as [Hch1 _].
    pose proof (bi_good _ _ (sv_books _ (proj1 Hs1)) _ _ Hch1) as Hbk. clear s1 Hs1 Hk1 Hch1.
    intros s (Hs & Hf & Hk). destruct Hs as [Hi Hst].
    pose proof (try_process_ok store0 (sv_backfill s) store (pb_block child) Hg Hbk s) as Ht.
    unfold mbind at 1, M_bind at 1. destruct (catch _ _ s) as [[[store'|]|e] s'].
    + destruct Ht as [(Hi' & Hst' & Hbf) Hg']; [done|].
      assert (service_cache s' = service_cache s) as Ec by (unfold service_cache; by rewrite Hbf).
      apply (triple_bind (drop_cached (pb_root child)) _ (fun s => keeps store0 s /\ Forall (cached s) (child :: children) /\
        (cache_size s + length unlocked <= k)%nat)
        (fun _ s => keeps store0 s /\ Forall (cached s) children /\ (cache_size s + length (unlocked ++ [pb_root child]) <= k)%nat)).
      * apply triple_modify. intros s2 (Hs2 & Hf2 & Hk2). apply Forall_cons in Hf2 as [Hch2 Hf2].
        split_and!; [by apply drop_cached_inv|by apply Hother|]. rewrite length_app. cbn [length].
        pose proof (drop_cached_size _ _ _ (proj1 Hs2) Hch2). lia.
      * intros _. by apply IH.
      * split_and!; [done| |by unfold cache_size; rewrite Ec].
        eapply Forall_impl; [exact Hf|]. intros p. unfold cached. by rewrite Ec.
    + destruct Ht as [(Hi' & Hst' & Hbf) _]; [done|].
      assert (service_cache s' = service_cache s) as Ec by (unfold service_cache; by rewrite Hbf).
      apply (IH store unlocked Hg Hn s'). split_and!; [done| |by unfold cache_size; rewrite Ec].
      apply Forall_cons in Hf as [_ Hf]. eapply Forall_impl; [exact Hf|]. intros p. unfold cached. by rewrite Ec.
    + destruct Ht. done.
Qed.

Lemma get_children_roots parent cache : cache_inv cache -> NoDup (map pb_root (get_children parent cache)).
Proof.
  intros Hi. rewrite (get_children_perm parent cache Hi). unfold dvalues.
  apply (sublist_NoDup _ (map pb_root (bc_blocks cache).*2)); [|apply fmap_sublist, sublist_filter].
  replace (map pb_root (bc_blocks cache).*2) with (dkeys (bc_blocks cache)); [apply Hi|].
  unfold dkeys. rewrite <- list_fmap_compose. apply Forall_fmap_ext_1, Forall_forall. intros [r p] Hin. cbn.
  symmetry. by apply (ec_key _ _ (ci_entry _ Hi _ _ (In_dget _ _ _ (ci_wf _ Hi) Hin))).
Qed.

(** A parent leaves the queue in each turn, and a child enters it only when it leaves the
    cache: the queue and the cache together bound the turns. *)
Lemma drain_ok store0 fuel : forall unlocked store,
  good store ->
  triple (fun s => keeps store0 s /\ (cache_size s + length unlocked <= fuel)%nat)
    (drain fuel unlocked store) (fun store' s => keeps store0 s /\ good store') never.
Proof.
  induction fuel as [|fuel IH]; intros [|parent unlocked] store Hg; cbn [drain]; try (apply triple_ret; tauto).
  - intros s [_ Hk]. cbn in Hk. lia.
  - eapply (triple_bind _ _ _ (fun children s => (keeps store0 s /\ Forall (cached s) children /\
      (cache_size s + length (@nil Bytes32) <= fuel - length unlocked)%nat /\ (length unlocked <= fuel)%nat) /\
      NoDup (map pb_root children))).
    { apply triple_gets. intros s [Hs Hk]. cbn [length] in Hk.
      assert (cache_inv (service_cache s)) as Hci by apply (sv_books _ (proj1 Hs)). split_and!; [done| |cbn; lia|lia|].
      - apply Forall_forall. intros p Hp. by apply (elem_of_get_children _ _ _ Hci) in Hp as [? _].
      - by apply get_children_roots. }
    intros children. apply triple_pure. intros Hn.
    eapply (triple_bind _ _ _ (fun r s => (keeps store0 s /\ (cache_size s + length (unlocked ++ r.2) <= fuel)%nat) /\ good r.1)).
    + intros s (Hs & Hf & Hk & Hu). pose proof (drain_children_ok store0 (fuel - length unlocked) children store [] Hg Hn s) as Ht.
      destruct (drain_children children store [] s) as [[r|e] s']; [|by apply Ht].
      destruct Ht as [[Hs' Hk'] Hg']; [done|]. split_and!; [done| |done]. rewrite length_app. lia.
    + intros [store' new]. apply triple_pure. intros Hg'. by apply IH.
Qed.

(** ** Head sync *)
Lemma good_head store : good store ->
  exists b, dgetitem (sto_head store) (sto_blocks store) = Ok b /\ 0 <= bk_slot b.
Proof.
  intros [[Hs _] _]. destruct (si_head _ _ Hs) as [b E]. exists b. unfold dgetitem. rewrite E. split; [done|].
  destruct (si_floor _ _ Hs) as [Hfl Ea].
  destruct (ancestor_slot (sto_blocks store) (si_earlier _ _ Hs) anchor.1 (sto_head store) anchor.2 b) as [Hle _];
    [by apply (si_rooted _ _ Hs); eauto|done|done|lia].
Qed.

Lemma good_view store : good store -> exists h, head_slot (store_view store) = Ok h /\ 0 <= h.
Proof. intros Hg. destruct (good_head store Hg) as (b & E & Hb). exists (bk_slot b). cbn. by rewrite E. Qed.

Lemma block_ok_slot b : block_ok anchor b -> in_range 64 (bk_slot (sb_block b)).
Proof. intros [Hv _]. by apply valid_block_slot, valid_signed_block. Qed.

Lemma run_backfill_ok {A} store (m : StoreView -> M BackfillState A) :
  (forall view, (exists h, head_slot view = Ok h /\ 0 <= h) ->
    triple (bf_inv (block_ok anchor)) (m view) (fun _ => bf_inv (block_ok anchor)) never) ->
  triple (keeps store) (run_backfill m) (fun _ => keeps store) never.
Proof.
  intros Hm s [[Hg Hb Hv Ha] E]. unfold run_backfill, zoom. pose proof (Hm _ (good_view _ Hg) _ Hb) as Ht.
  destruct (m (store_view (sv_store s)) (sv_backfill s)) as [[a|e] t]; [|done]. by split; [split|].
Qed.

(** The triples of [BackfillCorrect] as triples on the invariant *)
Lemma books_triple {A} (m : M BackfillState A) :
  (forall s0, triple (inv (block_ok anchor) s0) m (fun _ => inv (block_ok anchor) s0) never) ->
  triple (bf_inv (block_ok anchor)) m (fun _ => bf_inv (block_ok anchor)) never.
Proof.
  intros Hm s Hs. pose proof (Hm s s (conj Hs (framed_refl s))) as Ht. destruct (m s) as [[a|e] t]; [|done]. by destruct Ht.
Qed.

Lemma backfill_fills view :
  (exists h, head_slot view = Ok h /\ 0 <= h) -> fills (block_ok anchor) (backfill view).
Proof.
  intros Hh. unfold backfill. apply fill_ok; [exact answers_by_root|exact answers_by_range|exact block_ok_slot|exact Hh].
Qed.

Lemma cache_block_ok block peer depth :
  block_ok anchor block ->
  triple (bf_inv (block_ok anchor)) (cache_block block peer depth) (fun _ => bf_inv (block_ok anchor)) never.
Proof.
  intros Hb s [Hp Hc Hg Hw]. unfold cache_block.
  pose proof (cache_add_inv block peer depth _ Hc) as Hc'. pose proof (cached_good_add _ block peer depth _ Hc Hg Hb) as Hg'.
  destruct (cache_add block peer depth (bf_cache s)) as [p c]. by split.
Qed.

Lemma head_on_gossip_block_ok store phase block peer :
  good store -> block_ok anchor block ->
  triple (keeps (store, phase)) (head_on_gossip_block block peer store)
    (fun r s => keeps (store, phase) s /\ match r with Some store' => good store' | None => True end) never.
Proof.
  intros Hg Hb. unfold head_on_gossip_block. cbn zeta.
  destruct (dmem _ (sto_blocks store)); [apply triple_ret; tauto|].
  destruct (negb _).
  - destruct (_ <=? cp_slot _); [apply triple_ret; tauto|].
    eapply (triple_bind _ _ _ (fun _ => keeps (store, phase))).
    { apply run_backfill_ok. intros view _. by apply cache_block_ok. }
    intros pending. eapply (triple_bind _ _ _ (fun _ => keeps (store, phase))).
    { apply triple_modify. intros s Hs. pose proof Hs as [[_ [_ Hc Hgd _] _ _] _].
      apply update_cache_inv; [done|by apply mark_orphan_inv|by apply cached_good_mark]. }
    intros _. destruct (good_head store Hg) as (head & -> & Hh).
    eapply (triple_bind _ _ _ (fun h s => keeps (store, phase) s /\ h = head)); [by apply triple_raising|].
    intros h. apply triple_pure. intros ->. eapply (triple_bind _ _ _ (fun _ => keeps (store, phase))).
    { apply run_backfill_ok. intros view Hview. apply books_triple. intros s0.
      apply fill_gap_ok; [by apply backfill_fills|by apply block_ok_slot|done]. }
    intros fetched. eapply (triple_bind _ _ _ (fun _ => keeps (store, phase))).
    { destruct fetched; [by apply triple_ret|]. apply run_backfill_ok. intros view Hview. apply books_triple.
      intros s0. by apply backfill_fills. }
    intros _. apply triple_ret. tauto.
  - eapply (triple_bind _ _ _ (fun r s => keeps (store, phase) s /\ match r with Some store' => good store' | None => True end)).
    { intros s [Hi Hs]. pose proof (try_process_ok (store, phase) (sv_backfill s) store block Hg Hb s) as Ht.
      destruct (catch _ _ s) as [[r|e] s']; [|by destruct Ht]. destruct Ht as [(? & ? & _) ?]; [done|]. by split_and!. }
    intros [store'|]; [|apply triple_ret; tauto]. apply triple_pure. intros Hg'.
    eapply (triple_bind _ _ _ (fun _ => keeps (store, phase))).
    { apply triple_modify. intros s. apply drop_cached_inv. }
    intros _. eapply (triple_bind _ _ _ (fun fuel s => keeps (store, phase) s /\ (cache_size s + 1 <= fuel)%nat)).
    { apply triple_gets. intros s Hs. split; [done|]. unfold cache_size. lia. }
    intros fuel. eapply (triple_bind _ _ _ (fun store2 s => keeps (store, phase) s /\ good store2)); [by apply (drain_ok (store, phase) fuel [hash_tree_root (sb_block block)])|].
    intros store2. apply triple_ret. tauto.
Qed.

(** ** Votes *)
Lemma push_bounded_length {A} (l : list A) x : Zlen (push_bounded l x) <= MAX_PENDING_ATTESTATIONS.
Proof. unfold push_bounded. rewrite length_drop, length_app. unfold MAX_PENDING_ATTESTATIONS. cbn [length]. lia. Qed.
Lemma push_bounded_Forall {A} (P : A -> Prop) l x : Forall P l -> P x -> Forall P (push_bounded l x).
Proof. intros Hl Hx. unfold push_bounded. apply Forall_drop, Forall_app_2; [done|]. by constructor. Qed.

Lemma integrate_cases r :
  (forall e, r = Err e -> exists reason, e = SpecRejectionError reason) ->
  exists i, integrate r = Ok i /\ forall store, i = Integrated store -> r = Ok store.
Proof.
  intros Hr. unfold integrate. destruct r as [store|e]; [eexists; split; [done|]; by intros ? [= <-]|].
  destruct (Hr e eq_refl) as [reason ->]. eexists. split; [done|]. intros store. by destruct (bufferable reason).
Qed.

Lemma take_attestation_ok phase role a :
  vote_ok a -> triple (in_phase phase) (take_attestation role a) (fun _ => in_phase phase) never.
Proof.
  intros [Hi Hd [Hsg Hen]]. unfold take_attestation.
  eapply (triple_bind _ _ _ (fun store s => in_phase phase s /\ good store)); [apply triple_gets; intros s Hs; split; [done|apply Hs]|].
  intros store. apply triple_pure. intros Hg.
  destruct (integrate_cases (on_gossip_attestation store a role)) as (i & -> & Hint).
  { intros e E. destruct Hg as [[Hs _] _]. destruct (valid_data_message _ Hd) as [Hslot Hlen].
    destruct (on_gossip_attestation_cases anchor store a role Hs Hi) as [(s' & E' & _)|[(r & E')|(k & e' & _ & Hk & E')]];
      [congruence|exists r; congruence|]. destruct (xmss_verify_total _ _ _ _ Hk Hslot Hlen Hsg). congruence. }
  eapply (triple_bind _ _ _ (fun j s => in_phase phase s /\ j = i)); [by apply triple_raising|]. intros j. apply triple_pure. intros ->.
  destruct i as [store'| |]; [| |by apply triple_ret]; apply triple_modify; intros s [[Hsg' Hb [Hv Hvl] Ha] Hph]; (split; [split; cbn; try done|done]).
  - by apply (gossip_good anchor registry store a role); [..|apply Hint].
  - split; [by apply push_bounded_Forall|apply push_bounded_length].
Qed.

Lemma take_aggregated_ok phase a :
  aggregated_ok a -> triple (in_phase phase) (take_aggregated a) (fun _ => in_phase phase) never.
Proof.
  intros Hok. unfold take_aggregated.
  eapply (triple_bind _ _ _ (fun store s => in_phase phase s /\ good store)); [apply triple_gets; intros s Hs; split; [done|apply Hs]|].
  intros store. apply triple_pure. intros Hg.
  destruct (integrate_cases (on_gossip_aggregated_attestation store a)) as (i & -> & Hint).
  { intros e E. destruct Hg as [[Hs _] _]. pose proof Hok as [Hp _]%sma_valid.
    destruct (on_gossip_aggregated_attestation_cases anchor store a Hs Hp) as [(s' & E' & _)|(r & E')]; [congruence|].
    exists r. congruence. }
  eapply (triple_bind _ _ _ (fun j s => in_phase phase s /\ j = i)); [by apply triple_raising|]. intros j. apply triple_pure. intros ->.
  destruct i as [store'| |]; [| |by apply triple_ret]; apply triple_modify; intros s [[Hsg' Hb Hv [Ha Hal]] Hph]; (split; [split; cbn; try done|done]).
  - by apply (gossip_aggregated_good anchor registry store a); [..|apply Hint].
  - split; [by apply push_bounded_Forall|apply push_bounded_length].
Qed.

Lemma replay_ok phase : triple (in_phase phase) _replay_pending_attestations (fun _ => in_phase phase) never.
Proof.
  unfold _replay_pending_attestations. eapply (triple_bind _ _ _ (fun _ => in_phase phase)); [by apply triple_gets|]. intros role.
  eapply (triple_bind _ _ _ (fun l s => in_phase phase s /\ Forall vote_ok l)); [apply triple_gets; intros s Hs; split; [done|apply Hs]|].
  intros votes. apply triple_pure. intros Hvotes.
  eapply (triple_bind _ _ _ (fun _ => in_phase phase)); [apply triple_modify; intros s [[] Hph]; (split; [split; cbn; try done; by split|done])|]. intros _.
  eapply (triple_bind _ _ _ (fun _ => in_phase phase)).
  { apply triple_for_each. intros a Ha. apply take_attestation_ok. by eapply Forall_forall in Hvotes. }
  intros _. eapply (triple_bind _ _ _ (fun l s => in_phase phase s /\ Forall aggregated_ok l));
    [apply triple_gets; intros s Hs; split; [done|apply Hs]|].
  intros aggs. apply triple_pure. intros Haggs.
  eapply (triple_bind _ _ _ (fun _ => in_phase phase)); [apply triple_modify; intros s [[] Hph]; (split; [split; cbn; try done; by split|done])|]. intros _.
  apply triple_for_each. intros a Ha. apply take_aggregated_ok. by eapply Forall_forall in Haggs.
Qed.

(** ** The state machine *)

(** Caught up: no orphans, and the head has reached what most peers call finalized. *)
Definition caught_up (s : SyncService) : Prop :=
  orphan_count (service_cache s) = 0 /\
  exists finalized head, get_network_finalized_slot (bf_peers (sv_backfill s)) = Some finalized /\
    head_slot_of s = Ok head /\ finalized <= head.
(** Behind: most peers call a slot above the head finalized. *)
Definition behind_network (s : SyncService) : Prop :=
  exists finalized head, get_network_finalized_slot (bf_peers (sv_backfill s)) = Some finalized /\
    head_slot_of s = Ok head /\ head < finalized.

Lemma service_head s : service_inv s -> exists h, head_slot_of s = Ok h /\ 0 <= h.
Proof. intros Hs. apply good_view, Hs. Qed.

Lemma with_state_inv phase s : service_inv s -> service_inv (with_state phase s).
Proof. by intros []. Qed.

Lemma check_sync_complete_cases s :
  service_inv s ->
  _check_sync_complete s = (Ok tt, s) \/
  (_check_sync_complete s = (Ok tt, with_state SYNCED s) /\ sv_state s = SYNCING /\ caught_up s).
Proof.
  intros Hs. unfold _check_sync_complete. rewrite run_gets.
  destruct (decide (sv_state s = SYNCING)) as [E|E]; [rewrite bool_decide_true by done|rewrite bool_decide_false by done; by left].
  cbn [negb]. rewrite run_gets.
  destruct (orphan_count (service_cache s) >? 0) eqn:Eo; [by left|]. rewrite run_gets.
  destruct (get_network_finalized_slot _) as [fin|] eqn:Ef; [|by left]. rewrite run_gets.
  destruct (service_head s Hs) as (h & Eh & Hh). rewrite Eh, run_raising.
  destruct (Z.leb_spec fin h) as [Hle|]; [right|by left]. split_and!; [|done|].
  - unfold _transition_to. rewrite run_gets. by rewrite E.
  - split; [|by exists fin, h]. unfold orphan_count in *.  rewrite Z.gtb_ltb in Eo. apply Z.ltb_ge in Eo. lia.
Qed.

Lemma on_peer_status_cases peer status s :
  service_inv s ->
  let s1 := update_peers (update_status peer status) s in
  service_inv s1 /\
  (on_peer_status peer status s = (Ok tt, s1) \/
   (on_peer_status peer status s = (Ok tt, with_state SYNCING s1) /\
    (sv_state s = IDLE \/ (sv_state s = SYNCED /\ behind_network s1)))).
Proof.
  intros Hs. cbn zeta. set (s1 := update_peers _ s).
  assert (service_inv s1) as Hs1.
  { destruct Hs as [Hg [] Hv Ha]. split; try done. split; cbn; auto with spec. }
  split; [done|]. unfold on_peer_status. rewrite run_modify. fold s1. rewrite run_gets.
  change (sv_state s1) with (sv_state s).
  destruct (decide (sv_state s = SYNCING)) as [E|E]; [rewrite bool_decide_true by done; by left|].
  rewrite bool_decide_false by done. rewrite run_gets.
  destruct (get_network_finalized_slot _) as [fin|] eqn:Ef; [|by left]. rewrite run_gets.
  destruct (service_head s1 Hs1) as (h & Eh & Hh). rewrite Eh, run_raising.
  destruct (Z.ltb_spec h fin) as [Hlt|Hge]; cbn [orb].
  - right. unfold _transition_to. rewrite run_gets. change (sv_state s1) with (sv_state s).
    destruct (sv_state s); [|done|]; (split; [done|]); [by left|right; split; [done|]]. by exists fin, h.
  - destruct (decide (sv_state s = IDLE)) as [Ei|Ei]; [rewrite bool_decide_true by done|rewrite bool_decide_false by done; by left].
    right. split; [|by left]. unfold _transition_to. rewrite run_gets. change (sv_state s1) with (sv_state s). by rewrite Ei.
Qed.

(** ** Events *)
Definition event_ok (e : NetworkEvent) : Prop :=
  match e with
  | GossipBlockEvent block _ _ => block_ok anchor block
  | GossipAttestationEvent a _ _ => vote_ok a
  | GossipAggregatedAttestationEvent a _ _ => aggregated_ok a
  | _ => True
  end.

(** The moves of the state machine, with what justifies them in the state reached *)
Inductive phase_move (s s' : SyncService) : Prop :=
| move_stay : sv_state s' = sv_state s -> phase_move s s'
| move_start : sv_state s = IDLE -> sv_state s' = SYNCING -> phase_move s s'
| move_behind : sv_state s = SYNCED -> sv_state s' = SYNCING -> behind_network s' -> phase_move s s'
| move_done : sv_state s = SYNCING -> sv_state s' = SYNCED -> caught_up s' -> phase_move s s'.

Lemma gossip_block_event block peer s :
  service_inv s -> block_ok anchor block ->
  exists s', sync_on_gossip_block block peer s = (Ok tt, s') /\ service_inv s' /\ phase_move s s'.
Proof.
  intros Hs Hb. unfold sync_on_gossip_block. rewrite run_gets.
  destruct (negb _); [exists s; split_and!; [done|done|by apply move_stay]|]. rewrite run_gets.
  pose proof (head_on_gossip_block_ok (sv_store s) (sv_state s) block peer (sv_good _ Hs) Hb s) as Hh.
  destruct (head_on_gossip_block block peer (sv_store s) s) as [[r|e] s1] eqn:Eh; [|by destruct Hh].
  destruct Hh as [[Hs1 Est] Hr]; [done|]. injection Est as _ Est. rewrite (run_bind _ _ _ _ _ Eh).
  set (next := match r with None => _ | Some _ => _ end).
  assert (exists s2, next s1 = (Ok tt, s2) /\ in_phase (sv_state s) s2) as (s2 & En & Hs2 & E2).
  { subst next. destruct r as [store|]; [|by exists s1]. rewrite run_modify.
    assert (in_phase (sv_state s) (with_store store s1)) as Hp by (by destruct Hs1; split; [split|]).
    pose proof (replay_ok (sv_state s) _ Hp) as Hrep.
    destruct (_replay_pending_attestations (with_store store s1)) as [[u|e] s2] eqn:Er; [|by destruct Hrep].
    rewrite (run_bind _ _ _ _ _ Er). eexists. split; [done|]. destruct Hrep as [[] ?]. by split; [split|]. }
  rewrite (run_bind _ _ _ _ _ En). destruct (check_sync_complete_cases s2 Hs2) as [E|(E & Ea & Hc)]; rewrite E.
  - exists s2. split_and!; [done|done|by apply move_stay].
  - exists (with_state SYNCED s2). split_and!; [done|by apply with_state_inv|]. apply move_done; [congruence|done|exact Hc].
Qed.

Lemma handle_event_ok e s :
  service_inv s -> event_ok e -> exists s', _handle_event e s = (Ok tt, s') /\ service_inv s' /\ phase_move s s'.
Proof.
  intros Hs He.
  assert (forall m, (forall phase, triple (in_phase phase) m (fun _ => in_phase phase) never) ->
    exists s', m s = (Ok tt, s') /\ service_inv s' /\ phase_move s s') as Hsame.
  { intros m Hm. pose proof (Hm (sv_state s) s (conj Hs eq_refl)) as Ht. destruct (m s) as [[[]|err] s']; [|by destruct Ht].
    destruct Ht as [? ?]. exists s'. split_and!; [done|done|by apply move_stay]. }
  destruct e as [block peer|a|a|peer status|peer|peer]; cbn [_handle_event].
  - by apply gossip_block_event.
  - apply Hsame. intros phase. unfold sync_on_gossip_attestation.
    eapply (triple_bind _ _ _ (fun _ => in_phase phase)); [by apply triple_gets|]. intros st. destruct (negb _); [by apply triple_ret|].
    eapply (triple_bind _ _ _ (fun _ => in_phase phase)); [by apply triple_gets|]. intros role. by apply take_attestation_ok.
  - apply Hsame. intros phase. unfold sync_on_gossip_aggregated_attestation.
    eapply (triple_bind _ _ _ (fun _ => in_phase phase)); [by apply triple_gets|]. intros st. destruct (negb _); [by apply triple_ret|].
    by apply take_aggregated_ok.
  - destruct (on_peer_status_cases peer status s Hs) as [Hs1 [E|[E Hm]]]; rewrite E.
    + eexists. split_and!; [done|done|by apply move_stay].
    + eexists. split_and!; [done|by apply with_state_inv|]. destruct Hm as [Hm|[Hm Hb]]; [by apply move_start|].
      by apply move_behind.
  - apply Hsame. intros phase. apply triple_modify. intros s0 [[Hg [] Hv Ha] E]. split; [|done]. split; try done. split; cbn; auto with spec.
  - apply Hsame. intros phase. apply triple_modify. intros s0 [[Hg [] Hv Ha] E]. split; [|done]. split; try done. split; cbn; auto with spec.
Qed.
End Service.

(** * What the sync service guarantees

    The request/response client as the network of backfill, runs of the service over
    arbitrary events, and two behaviours that its documentation excludes. *)

(** ** Networks *)

(** What the clients of a network rely on: the blocks it answers are [good]. *)
Class NetworkOk `{Network} (good : SignedBlock -> Prop) : Prop := {
  answers_root n peer roots blocks b : answer_by_root n peer roots = Ok blocks -> b ∈ blocks -> good b;
  answers_range n peer start count blocks b : answer_by_range n peer start count = Ok blocks -> b ∈ blocks -> good b
}.

(** [ReqRespClient] over the connections of the moment, with the outcomes of closing the
    streams; a range of no blocks is not asked for. *)
Definition client_network (connections : nat -> PeerId -> option connection) (closings : nat -> PeerId -> result unit) (draws : nat -> Z) : Network := {|
  answer_by_root := fun n peer roots => Ok (request_blocks_by_root (connections n peer) (closings n peer) roots);
  answer_by_range := fun n peer start count => request_blocks_by_range (connections n peer) start count;
  random_draw := draws
|}.

Definition decoded_block (b : SignedBlock) : Prop := ssz_valid b = true.

Lemma read_roots_decoded n : forall chunks blocks out b,
  Forall decoded_block blocks -> read_root_responses n chunks blocks = Ok out -> b ∈ out -> decoded_block b.
Proof.
  induction n as [|n IH]; intros chunks blocks out b Hb E Hin; cbn [read_root_responses] in E.
  { injection E as <-. by eapply Forall_forall in Hb. }
  destruct (stream_read chunks) as [response rest]. destruct (_ =? 0); [injection E as <-; by eapply Forall_forall in Hb|].
  destruct (response_decode response) as [[code ssz]|e].
  - destruct code; [|injection E as <-; by eapply Forall_forall in Hb..|by eapply IH].
    destruct (container_decode ssz) as [block|e] eqn:Ed.
    + eapply IH; [|exact E|exact Hin]. apply Forall_app_2; [done|]. constructor; [|done].
      by apply (container_decode_Ok block ssz wf_SignedBlock).
    + destruct e; try discriminate E. injection E as <-. by eapply Forall_forall in Hb.
  - destruct e; try discriminate E. injection E as <-. by eapply Forall_forall in Hb.
Qed.

(** The client decodes what it returns. *)
#[export] Instance client_network_ok connections closings draws : NetworkOk (H := client_network connections closings draws) decoded_block.
Proof.
  split.
  - intros n peer roots blocks b E Hin. cbn in E. injection E as <-. unfold request_blocks_by_root in Hin.
    destruct (_ =? 0); [by apply elem_of_nil in Hin|]. destruct (connections n peer) as [c|]; [|by apply elem_of_nil in Hin].
    destruct (_do_blocks_by_root_request c _ roots) as [blocks|] eqn:E; [|by apply elem_of_nil in Hin].
    unfold _do_blocks_by_root_request in E. apply bind_Ok in E as (received & E & (_ & _ & [= ->])%bind_Ok). apply bind_Ok in E as (? & _ & E). apply bind_Ok in E as (? & _ & E).
    apply bind_Ok in E as (? & _ & E). apply bind_Ok in E as (chunks & _ & E).
    by eapply read_roots_decoded; [|exact E|].
  - intros n peer start count blocks b E Hin. cbn in E. unfold request_blocks_by_range in E.
    destruct (count =? 0) eqn:E0; [injection E as <-; by apply elem_of_nil in Hin|].
    destruct (_ <? count) eqn:E1; [injection E as <-; by apply elem_of_nil in Hin|].
    destruct (_ <? start + count); [injection E as <-; by apply elem_of_nil in Hin|].
    destruct (connections n peer) as [c|]; [|injection E as <-; by apply elem_of_nil in Hin].
    destruct (_do_blocks_by_range_request c start count) as [bs|e] eqn:Ed.
    + injection E as <-. destruct (decide (0 <= count)) as [Hc|Hc].
      * apply (do_range_chain _ _ _ _ Hc) in Ed as [_ Hv _ _]. by eapply Forall_forall in Hv.
      * unfold _do_blocks_by_range_request in Ed. apply bind_Ok in Ed as (? & _ & Ed). apply bind_Ok in Ed as (? & _ & Ed).
        apply bind_Ok in Ed as (chunks & _ & Ed). replace (Z.to_nat count) with O in Ed by lia. cbn [read_range_responses] in Ed.
        mcbn_in Ed. destruct (_ && _); [done|]. injection Ed as <-. by apply elem_of_nil in Hin.
    + destruct e; try discriminate E; injection E as <-; by apply elem_of_nil in Hin.
Qed.

(** C22: backfill over the request/response client ends without an exception whatever its
    peers send: at most 512 levels deep it leaves the cache consistent and full of
    decoded blocks, the scores in range, and it has released every request slot and every
    pending root it took, so that nothing is blocked for the next call. *)
Theorem backfill_keeps_books (connections : nat -> PeerId -> option connection) (closings : nat -> PeerId -> result unit) (draws : nat -> Z)
    (view : StoreView) (r : fill_request) (s : BackfillState) :
  (exists h, head_slot view = Ok h /\ 0 <= h) -> request_ok r -> bf_inv decoded_block s ->
  exists s', backfill (H := client_network connections closings draws) view r s = (Ok tt, s') /\
    bf_inv decoded_block s' /\ framed s s'.
Proof.
  intros Hv Hr Hs. apply (backfill_ok (H := client_network connections closings draws) view decoded_block); [| | |done..].
  - apply (answers_root (NetworkOk := client_network_ok connections closings draws)).
  - apply (answers_range (NetworkOk := client_network_ok connections closings draws)).
  - intros b Hb. by apply valid_block_slot, valid_signed_block.
Qed.

(** A backfill over one connected peer that serves two blocks of the range *)
Definition one_peer : BackfillState := {|
  bf_peers := add_peer {| pi_peer_id := [Byte.x01]; pi_state := CONNECTED |} [];
  bf_cache := empty_cache; bf_pending := []; bf_max_range_slot := None; bf_requests := 0; bf_draws := 0 |}.
Definition at_genesis : StoreView := {| has_root := fun _ => false; head_slot := Ok 0 |}.
Definition honest_network : Network := client_network (fun _ _ => Some (serving serving_node bytewise whole)) (fun _ _ => Ok tt) (fun _ => 0).

Lemma backfill_keeps_books_witness : exists s',
  backfill (H := honest_network) at_genesis (Range 2 6) one_peer = (Ok tt, s') /\
  bf_inv decoded_block s' /\ framed one_peer s'.
Proof.
  apply (backfill_keeps_books (fun _ _ => Some (serving serving_node bytewise whole)) (fun _ _ => Ok tt) (fun _ => 0) at_genesis (Range 2 6) one_peer).
  - exists 0. split; [reflexivity|lia].
  - cbn. lia.
  - split; cbn [one_peer bf_peers bf_cache bf_max_range_slot].
    + apply add_peer_inv, peers_inv_nil.
    + exact empty_cache_inv.
    + done.
    + done.
Defined.

(** In it both blocks are cached and the watermark is at the end of the range. *)
Example honest_backfill :
  let s := (backfill (H := honest_network) at_genesis (Range 2 6) one_peer).2 in
  (dvalues (bc_blocks (bf_cache s))) ≫= (fun p => [bk_slot (sb_block (pb_block p))]) = [5; 7] /\
  bf_max_range_slot s = Some 7.
Proof. vm_compute. split; reflexivity. Qed.

(** ** Runs *)
Section Runs.
Context `{Crypto} `{SetOrder} `{Network}.

(** A service at its start ([__post_init__]) *)
Definition service_start (store : Store) (is_aggregator has_publisher genesis_start : bool)
    (database : option (list (list db_write))) : SyncService := {|
  sv_store := store;
  sv_backfill := {| bf_peers := []; bf_cache := empty_cache; bf_pending := []; bf_max_range_slot := None;
                    bf_requests := 0; bf_draws := 0 |};
  sv_state := if genesis_start then SYNCING else IDLE;
  sv_is_aggregator := is_aggregator; sv_has_publisher := has_publisher; sv_blocks_processed := 0;
  sv_pending_attestations := []; sv_pending_aggregated_attestations := []; sv_pending_block_aggregates := [];
  sv_published := []; sv_database := database; sv_reorg_depths := []
|}.

Lemma service_start_inv anchor registry store aggregator publisher genesis database :
  store_good anchor registry store -> service_inv anchor registry (service_start store aggregator publisher genesis database).
Proof.
  intros Hg. split; cbn; [done| |by split..]. split; cbn; [apply peers_inv_nil|apply empty_cache_inv|done|done].
Qed.

Lemma run_events_ok anchor registry events : forall s,
  NetworkOk (block_ok anchor) -> service_inv anchor registry s -> Forall (event_ok anchor) events ->
  exists s', for_each events _handle_event s = (Ok tt, s') /\ service_inv anchor registry s' /\
    (sv_state s' = IDLE -> sv_state s = IDLE).
Proof.
  induction events as [|e events IH]; intros s Hn Hs He; [by exists s|]. apply Forall_cons in He as [He Hes].
  destruct (handle_event_ok anchor registry answers_root answers_range e s Hs He) as (s1 & E1 & Hs1 & Hm).
  destruct (IH s1 Hn Hs1 Hes) as (s2 & E2 & Hs2 & Hi). exists s2. cbn [for_each]. rewrite (run_bind _ _ _ _ _ E1).
  split_and!; [done|done|]. intros E%Hi. destruct Hm; congruence.
Qed.
End Runs.

(** C9: from a reachable store, whatever well-formed gossip, status, connection and
    disconnection events arrive in whatever order, and whatever well-formed blocks the
    network answers, no event raises: the store keeps the invariant of reachable stores,
    the cache holds at most its limit of blocks with an exact index, the scores stay in
    range, at most 1024 votes of each kind are buffered, and a service that starts out of
    IDLE, as every node starts it ([genesis_start]), never returns to it.  A block is
    well-formed ([block_ok]) when it is a decoded value and, if its slot is past the anchor's,
    does not hash to the anchor's parent root. *)
Theorem sync_service_safe `{Crypto} `{SetOrder} `{Network} (state : State) (block : Block) (store : Store)
    (is_aggregator has_publisher genesis_start : bool) (database : option (list (list db_write))) (events : list NetworkEvent) :
  let anchor := (hash_tree_root block, block) in
  anchor_consistent state block -> reachable_store state block store -> NetworkOk (block_ok anchor) ->
  Forall (event_ok anchor) events ->
  exists s, for_each events _handle_event (service_start store is_aggregator has_publisher genesis_start database) = (Ok tt, s) /\
    service_inv anchor (st_validators state) s /\ (genesis_start = true -> sv_state s <> IDLE).
Proof.
  intros anchor Hc Hr Hn He. pose proof (reachable_good _ _ _ Hc Hr) as Hg.
  destruct (run_events_ok anchor (st_validators state) events _ Hn (service_start_inv anchor _ store is_aggregator has_publisher
    genesis_start database Hg) He) as (s & E & Hs & Hi).
  exists s. split_and!; [done|done|]. intros -> ?%Hi. done.
Qed.

(** C26: the phase of the service moves only as its documentation's state machine allows,
    and for its reasons: out of IDLE when a status arrives, to SYNCED when no orphan waits
    and the head has reached the slot most peers call finalized, back to SYNCING when
    most peers call a slot above the head finalized. *)
Theorem sync_phase_moves_justified `{Crypto} `{SetOrder} `{Network} (state : State) (block : Block) (store : Store)
    (is_aggregator has_publisher genesis_start : bool) (database : option (list (list db_write)))
    (events : list NetworkEvent) (event : NetworkEvent) :
  let anchor := (hash_tree_root block, block) in
  anchor_consistent state block -> reachable_store state block store -> NetworkOk (block_ok anchor) ->
  Forall (event_ok anchor) events -> event_ok anchor event ->
  exists s s', for_each events _handle_event (service_start store is_aggregator has_publisher genesis_start database) = (Ok tt, s) /\
    _handle_event event s = (Ok tt, s') /\ phase_move s s'.
Proof.
  intros anchor Hc Hr Hn Hes He. pose proof (reachable_good _ _ _ Hc Hr) as Hg.
  destruct (run_events_ok anchor (st_validators state) events _ Hn (service_start_inv anchor _ store is_aggregator has_publisher
    genesis_start database Hg) Hes) as (s & E & Hs & _).
  destruct (handle_event_ok anchor (st_validators state) answers_root answers_range event s Hs He) as (s' & E' & _ & Hm).
  by exists s, s'.
Qed.

(** ** Samples *)

(** A network that knows [A1] and always draws the first candidate *)
Definition a1_network : Network := {|
  answer_by_root := fun _ _ _ => Ok [signed A1.1];
  answer_by_range := fun _ _ _ _ => Ok [signed A1.1];
  random_draw := fun _ => 0
|}.

Lemma a1_ok : block_ok sample_root (signed A1.1).
Proof. split; [vm_compute; reflexivity|intros _; vm_compute; discriminate]. Qed.
Lemma a2_ok : block_ok sample_root (signed A2.1).
Proof. split; [vm_compute; reflexivity|intros _; vm_compute; discriminate]. Qed.
Lemma a1_network_ok : NetworkOk (H := a1_network) (block_ok sample_root).
Proof.
  assert (forall blocks b, Ok [signed A1.1] = Ok blocks -> b ∈ blocks -> block_ok sample_root b) as Ha.
  { intros blocks b E Hin. apply (f_equal (fun r => match r with Ok l => l | Err _ => [] end)) in E. cbn beta iota in E.
    rewrite <- E in Hin. apply list_elem_of_singleton in Hin as ->. exact a1_ok. }
  split; intros; by eapply Ha.
Qed.

Definition sample_peer : PeerId := [Byte.x01].
Definition sample_topic : GossipTopic := GossipTopic.block [Byte.x30].
Definition sample_status : Status := {| ss_finalized := genesis_checkpoint; ss_head := A2_checkpoint |}.
Definition sample_events : list NetworkEvent :=
  [PeerConnectedEvent sample_peer; PeerStatusEvent sample_peer sample_status; GossipBlockEvent (signed A2.1) sample_peer sample_topic].

Lemma sample_events_ok : Forall (event_ok sample_root) sample_events.
Proof. constructor; [exact I|]. constructor; [exact I|]. constructor; [exact a2_ok|constructor]. Qed.

Lemma sync_service_safe_witness : exists s,
  for_each sample_events (_handle_event (H := sample_crypto) (H0 := insertion_order) (H1 := a1_network))
    (service_start store0 false false false None) = (Ok tt, s) /\
  service_inv sample_root sample_registry s /\ (false = true -> sv_state s <> IDLE).
Proof.
  apply (sync_service_safe (H := sample_crypto) (H0 := insertion_order) (H1 := a1_network) sample_genesis genesis_block store0
    false false false None sample_events).
  - exact sample_anchor.
  - exact sample_store0.
  - exact a1_network_ok.
  - exact sample_events_ok.
Defined.

Lemma sync_phase_moves_justified_witness : exists s s',
  for_each sample_events (_handle_event (H := sample_crypto) (H0 := insertion_order) (H1 := a1_network))
    (service_start store0 false false false None) = (Ok tt, s) /\
  _handle_event (H := sample_crypto) (H0 := insertion_order) (H1 := a1_network) (GossipBlockEvent (signed A1.1) sample_peer sample_topic) s = (Ok tt, s') /\
  phase_move s s'.
Proof.
  apply (sync_phase_moves_justified (H := sample_crypto) (H0 := insertion_order) (H1 := a1_network) sample_genesis genesis_block store0
    false false false None sample_events (GossipBlockEvent (signed A1.1) sample_peer sample_topic)).
  - exact sample_anchor.
  - exact sample_store0.
  - exact a1_network_ok.
  - exact sample_events_ok.
  - exact a1_ok.
Defined.

(** ** Two behaviours *)

(** What the service holds: the roots of the store and of the cache, and the phase *)
Definition outline (s : SyncService) : list Bytes32 * list Bytes32 * list Bytes32 * SyncState :=
  (dkeys (sto_blocks (sv_store s)), dkeys (bc_blocks (service_cache s)), bc_orphans (service_cache s), sv_state s).

Definition run_sample (events : list NetworkEvent) : SyncService :=
  (for_each events (_handle_event (H := sample_crypto) (H0 := insertion_order) (H1 := a1_network))
    (service_start store0 false false true None)).2.

(** Backfill has fetched [A1], whose parent the store knows, and yet neither [A1] nor
    its child [A2] is imported, not even when [A2] is gossiped again. *)
Example backfilled_blocks_are_not_imported :
  let s := run_sample (sample_events ++ [GossipBlockEvent (signed A2.1) sample_peer sample_topic]) in
  outline s = ([genesis_root], [hash_tree_root A2.1; hash_tree_root A1.1], [hash_tree_root A2.1], SYNCING) /\
  bk_parent_root A1.1 = genesis_root.
Proof. split; vm_compute; reflexivity. Qed.

(** Gossip of [A1] itself imports both, and the service is synced. *)
Example gossiped_parent_imports_both :
  outline (run_sample (sample_events ++ [GossipBlockEvent (signed A1.1) sample_peer sample_topic])) =
    ([genesis_root; hash_tree_root A1.1; hash_tree_root A2.1], [], [], SYNCED).
Proof. vm_compute. reflexivity. Qed.
