(* ===== verification/EventSource.v ===== *)
(** * The event source and the network service
      (node/networking/client/event_source/, networking/service/service.py)

    The event source turns connections and gossip into the events that the network service
    hands to the sync service, and publishes what the node produces.  Its coroutines are
    tasks that wait in a list: a step runs one of them up to the next point where it waits
    for the network, for a lock or for another component, so that steps of different tasks
    interleave as on the event loop.  What the network answers is an argument of the step.
    A stream is the list of chunks that its reads return, as in ReqResp.v; a connection is
    a number.  Queues are recorded whole, with the number of items taken from them. *)

From S2P Require Import GossipTopic Prelude Pydict Uint Ssz Sha256 Merkle Containers StateTransition Proofs Signatures.
From S2P Require Import ForkChoice Aggregation SszRecords Varint Snappy ReqResp BlockCache PeerManager StateMonad Backfill SyncService.
From S2P Require Import GossipRpc GossipState Gossipsub Multistream.
From Stdlib Require Import String.

Local Open Scope Z_scope.
Local Open Scope list_scope.

(** ** The codec of votes (crypto/xmss/containers.py, lstar/containers/attestation.py)

    A signature declares itself of fixed size, and checks the lengths of its lists. *)
Definition SIGNATURE_LENGTH_BYTES : Z :=
  LOG_LIFETIME * HASH_LENGTH_FIELD_ELEMENTS * P_BYTES + RAND_LENGTH_FIELD_ELEMENTS * P_BYTES +
  DIMENSION * HASH_LENGTH_FIELD_ELEMENTS * P_BYTES + 3 * BYTES_PER_LENGTH_OFFSET.
Definition signature_lengths (v : ssz_value) : bool :=
  match v with
  | VContainer [VContainer [VList siblings]; _; VList hashes] => (Zlen siblings =? LOG_LIFETIME) && (Zlen hashes =? DIMENSION)
  | _ => false
  end.
Definition signature_class : SSZType :=
  let base := class_of (ssz_descr Signature) in
  let deser s scope :=
    '(v, rest) ← deserialize base s scope;
    check! signature_lengths v else SSZSerializationError;;
    Ok (v, rest) in
  {| is_fixed_size := true; fixed_byte_length := SIGNATURE_LENGTH_BYTES; well_typed v := well_typed base v && signature_lengths v;
     serialize := serialize base; deserialize := deser; decode_bytes := default_decode_bytes deser |}.
Definition SignedAttestation_class : SSZType :=
  container_class [uint_class 64; class_of (ssz_descr AttestationData); signature_class].

Definition digest_of (v : ssz_value) : option (list Z) :=
  match v with VVector l => mapM (fun e => match e with VFp z => Some z | _ => None end) l | _ => None end.
Definition signature_of (v : ssz_value) : option Signature :=
  match v with
  | VContainer [VContainer [VList siblings]; rho; VList hashes] =>
      path ← mapM digest_of siblings; rho ← digest_of rho; hashes ← mapM digest_of hashes;
      Some {| sig_path := path; sig_rho := rho; sig_hashes := hashes |}
  | _ => None
  end.
Definition SignedAttestation_encode (a : SignedAttestation) : result bytes :=
  Ssz.encode_bytes SignedAttestation_class (VContainer [VUint (sa_validator_index a); ssz_repr (sa_data a); ssz_repr (sa_signature a)]).
Definition SignedAttestation_decode (data : bytes) : result SignedAttestation :=
  v ← Ssz.decode_bytes SignedAttestation_class data;
  of_option TypeError
    match v with
    | VContainer [VUint index; d; s] =>
        d ← ssz_of d; s ← signature_of s;
        Some {| sa_validator_index := index; sa_data := d; sa_signature := s |}
    | _ => None
    end.

(** ** Protocols *)
Definition GOSSIPSUB_PROTOCOL_ID_V12 : ProtocolId := str "/meshsub/1.2.0".
Definition GOSSIPSUB_DEFAULT_PROTOCOL_ID : ProtocolId := GOSSIPSUB_PROTOCOL_ID_V12.
Definition REQRESP_PROTOCOL_IDS : list ProtocolId :=
  [str STATUS_PROTOCOL_V1; str BLOCKS_BY_ROOT_PROTOCOL_V1; str BLOCKS_BY_RANGE_PROTOCOL_V1].
Definition SUPPORTED_PROTOCOLS : list ProtocolId := GOSSIPSUB_DEFAULT_PROTOCOL_ID :: REQRESP_PROTOCOL_IDS.

(** ** State *)

(** What [start_serving] still has to do: the boot nodes left to dial, each with the outcome
    of connecting, and the outcome of binding when there is an address to listen on. *)
Definition boot_rest : Type := list (result (PeerId * nat)) * option (result unit).
(** Who awaits [_setup_gossipsub_stream]: a task of its own, or a dial, which [start_serving]
    may await in turn. *)
Inductive caller := Background | Dialer (boot : option boot_rest).

Inductive task :=
| AcceptStreams (peer_id : PeerId) (connection : nat)
| ForwardEvents
| Connecting (outcome : result (PeerId * nat)) (boot : option boot_rest)
| FinishDial (peer_id : PeerId) (connection : nat) (boot : option boot_rest)
| SetupStream (peer_id : PeerId) (connection : nat) (awaited_by : caller)
| OpeningStream (peer_id : PeerId) (connection lock : nat) (awaited_by : caller)
| Probing (bound : result unit)
| ReceiveLoop (peer_id : PeerId) (buffer : bytes) (wrapper : QuicStreamAdapter)
| ServeRequest (protocol_id : ProtocolId) (wrapper : QuicStreamAdapter).

(** Dials and [start_serving] run in the task of their caller, which [stop] does not cancel. *)
Definition cancelled_by_stop (t : task) : bool :=
  match t with
  | Connecting _ _ | FinishDial _ _ _ | SetupStream _ _ (Dialer _) | OpeningStream _ _ _ (Dialer _) | Probing _ => false
  | _ => true
  end.
(** [start_serving] has not returned. *)
Definition still_serving (t : task) : bool :=
  match t with
  | Connecting _ (Some _) | FinishDial _ _ (Some _) | SetupStream _ _ (Dialer (Some _)) | OpeningStream _ _ _ (Dialer (Some _))
  | Probing _ => true
  | _ => false
  end.
(** The streams being opened: the peer, and the lock that the task holds *)
Definition opening (t : task) : option (PeerId * nat) := match t with OpeningStream q _ lock _ => Some (q, lock) | _ => None end.
Definition openings (tasks : list task) : list (PeerId * nat) := omap opening tasks.

Record LiveNetworkEventSource := {
  es_events : list NetworkEvent;
  es_taken : nat;
  es_connections : dict PeerId nat;
  es_client : dict PeerId nat;
  es_closed : list nat;
  es_our_status : option Status;
  es_network_name : bytes;
  es_stopped : bool;
  es_gossip_handler : bytes;
  es_reqresp_handler : RequestHandler;
  es_responses : list (list bytes);
  es_gossipsub : GossipsubBehavior;
  es_forwarded : nat;
  es_locks : dict PeerId nat;
  es_held : list nat;
  es_next_lock : nat;
  es_tasks : list task
}.

Definition no_handler : RequestHandler :=
  {| our_status := None; block_lookup := None; block_by_slot_lookup := None; current_slot_lookup := None |}.
(** [__post_init__]: stopped until dialing or listening *)
Definition new_source (params : GossipsubParameters) : LiveNetworkEventSource := {|
  es_events := []; es_taken := 0; es_connections := []; es_client := []; es_closed := []; es_our_status := None;
  es_network_name := str "0x00000000"; es_stopped := true; es_gossip_handler := str "0x00000000"; es_reqresp_handler := no_handler;
  es_responses := []; es_gossipsub := new_behavior params; es_forwarded := 0; es_locks := []; es_held := []; es_next_lock := 0;
  es_tasks := [] |}.

Definition put (event : NetworkEvent) (s : LiveNetworkEventSource) : LiveNetworkEventSource := {|
  es_events := es_events s ++ [event]; es_taken := es_taken s; es_connections := es_connections s; es_client := es_client s;
  es_closed := es_closed s; es_our_status := es_our_status s; es_network_name := es_network_name s; es_stopped := es_stopped s;
  es_gossip_handler := es_gossip_handler s; es_reqresp_handler := es_reqresp_handler s; es_responses := es_responses s;
  es_gossipsub := es_gossipsub s; es_forwarded := es_forwarded s; es_locks := es_locks s; es_held := es_held s;
  es_next_lock := es_next_lock s; es_tasks := es_tasks s |}.
Definition with_taken (taken : nat) (s : LiveNetworkEventSource) : LiveNetworkEventSource := {|
  es_events := es_events s; es_taken := taken; es_connections := es_connections s; es_client := es_client s;
  es_closed := es_closed s; es_our_status := es_our_status s; es_network_name := es_network_name s; es_stopped := es_stopped s;
  es_gossip_handler := es_gossip_handler s; es_reqresp_handler := es_reqresp_handler s; es_responses := es_responses s;
  es_gossipsub := es_gossipsub s; es_forwarded := es_forwarded s; es_locks := es_locks s; es_held := es_held s;
  es_next_lock := es_next_lock s; es_tasks := es_tasks s |}.
Definition with_connections (connections client : dict PeerId nat) (closed : list nat) (s : LiveNetworkEventSource)
    : LiveNetworkEventSource := {|
  es_events := es_events s; es_taken := es_taken s; es_connections := connections; es_client := client;
  es_closed := closed; es_our_status := es_our_status s; es_network_name := es_network_name s; es_stopped := es_stopped s;
  es_gossip_handler := es_gossip_handler s; es_reqresp_handler := es_reqresp_handler s; es_responses := es_responses s;
  es_gossipsub := es_gossipsub s; es_forwarded := es_forwarded s; es_locks := es_locks s; es_held := es_held s;
  es_next_lock := es_next_lock s; es_tasks := es_tasks s |}.
Definition with_handler (status : option Status) (handler : RequestHandler) (s : LiveNetworkEventSource) : LiveNetworkEventSource := {|
  es_events := es_events s; es_taken := es_taken s; es_connections := es_connections s; es_client := es_client s;
  es_closed := es_closed s; es_our_status := status; es_network_name := es_network_name s; es_stopped := es_stopped s;
  es_gossip_handler := es_gossip_handler s; es_reqresp_handler := handler; es_responses := es_responses s;
  es_gossipsub := es_gossipsub s; es_forwarded := es_forwarded s; es_locks := es_locks s; es_held := es_held s;
  es_next_lock := es_next_lock s; es_tasks := es_tasks s |}.
Definition with_name (name : bytes) (s : LiveNetworkEventSource) : LiveNetworkEventSource := {|
  es_events := es_events s; es_taken := es_taken s; es_connections := es_connections s; es_client := es_client s;
  es_closed := es_closed s; es_our_status := es_our_status s; es_network_name := name; es_stopped := es_stopped s;
  es_gossip_handler := name; es_reqresp_handler := es_reqresp_handler s; es_responses := es_responses s;
  es_gossipsub := es_gossipsub s; es_forwarded := es_forwarded s; es_locks := es_locks s; es_held := es_held s;
  es_next_lock := es_next_lock s; es_tasks := es_tasks s |}.
Definition with_stopped (stopped : bool) (s : LiveNetworkEventSource) : LiveNetworkEventSource := {|
  es_events := es_events s; es_taken := es_taken s; es_connections := es_connections s; es_client := es_client s;
  es_closed := es_closed s; es_our_status := es_our_status s; es_network_name := es_network_name s; es_stopped := stopped;
  es_gossip_handler := es_gossip_handler s; es_reqresp_handler := es_reqresp_handler s; es_responses := es_responses s;
  es_gossipsub := es_gossipsub s; es_forwarded := es_forwarded s; es_locks := es_locks s; es_held := es_held s;
  es_next_lock := es_next_lock s; es_tasks := es_tasks s |}.
Definition with_gossipsub (gossipsub : GossipsubBehavior) (s : LiveNetworkEventSource) : LiveNetworkEventSource := {|
  es_events := es_events s; es_taken := es_taken s; es_connections := es_connections s; es_client := es_client s;
  es_closed := es_closed s; es_our_status := es_our_status s; es_network_name := es_network_name s; es_stopped := es_stopped s;
  es_gossip_handler := es_gossip_handler s; es_reqresp_handler := es_reqresp_handler s; es_responses := es_responses s;
  es_gossipsub := gossipsub; es_forwarded := es_forwarded s; es_locks := es_locks s; es_held := es_held s;
  es_next_lock := es_next_lock s; es_tasks := es_tasks s |}.
Definition with_forwarded (forwarded : nat) (s : LiveNetworkEventSource) : LiveNetworkEventSource := {|
  es_events := es_events s; es_taken := es_taken s; es_connections := es_connections s; es_client := es_client s;
  es_closed := es_closed s; es_our_status := es_our_status s; es_network_name := es_network_name s; es_stopped := es_stopped s;
  es_gossip_handler := es_gossip_handler s; es_reqresp_handler := es_reqresp_handler s; es_responses := es_responses s;
  es_gossipsub := es_gossipsub s; es_forwarded := forwarded; es_locks := es_locks s; es_held := es_held s;
  es_next_lock := es_next_lock s; es_tasks := es_tasks s |}.
Definition with_locks (locks : dict PeerId nat) (held : list nat) (next_lock : nat) (s : LiveNetworkEventSource)
    : LiveNetworkEventSource := {|
  es_events := es_events s; es_taken := es_taken s; es_connections := es_connections s; es_client := es_client s;
  es_closed := es_closed s; es_our_status := es_our_status s; es_network_name := es_network_name s; es_stopped := es_stopped s;
  es_gossip_handler := es_gossip_handler s; es_reqresp_handler := es_reqresp_handler s; es_responses := es_responses s;
  es_gossipsub := es_gossipsub s; es_forwarded := es_forwarded s; es_locks := locks; es_held := held; es_next_lock := next_lock;
  es_tasks := es_tasks s |}.
Definition with_tasks (tasks : list task) (responses : list (list bytes)) (s : LiveNetworkEventSource) : LiveNetworkEventSource := {|
  es_events := es_events s; es_taken := es_taken s; es_connections := es_connections s; es_client := es_client s;
  es_closed := es_closed s; es_our_status := es_our_status s; es_network_name := es_network_name s; es_stopped := es_stopped s;
  es_gossip_handler := es_gossip_handler s; es_reqresp_handler := es_reqresp_handler s; es_responses := responses;
  es_gossipsub := es_gossipsub s; es_forwarded := es_forwarded s; es_locks := es_locks s; es_held := es_held s;
  es_next_lock := es_next_lock s; es_tasks := tasks |}.

Abbreviation E := (M LiveNetworkEventSource).
Definition spawn_task (t : task) : E unit := modify (fun s => with_tasks (es_tasks s ++ [t]) (es_responses s) s).
Definition on_gossipsub {A} (m : M GossipsubBehavior A) : E A := zoom es_gossipsub with_gossipsub m.

(** ** Configuration *)
Definition set_status (status : Status) : E unit :=
  modify (fun s => with_handler (Some status)
    {| our_status := Some status; block_lookup := block_lookup (es_reqresp_handler s);
       block_by_slot_lookup := block_by_slot_lookup (es_reqresp_handler s); current_slot_lookup := current_slot_lookup (es_reqresp_handler s) |} s).
Definition set_network_name (network_name : bytes) : E unit := modify (with_name network_name).
Definition set_block_lookup (lookup : Bytes32 -> result (option SignedBlock)) : E unit :=
  modify (fun s => with_handler (es_our_status s)
    {| our_status := our_status (es_reqresp_handler s); block_lookup := Some lookup;
       block_by_slot_lookup := block_by_slot_lookup (es_reqresp_handler s); current_slot_lookup := current_slot_lookup (es_reqresp_handler s) |} s).
Definition set_current_slot_lookup (slot : Z) : E unit :=
  modify (fun s => with_handler (es_our_status s)
    {| our_status := our_status (es_reqresp_handler s); block_lookup := block_lookup (es_reqresp_handler s);
       block_by_slot_lookup := block_by_slot_lookup (es_reqresp_handler s); current_slot_lookup := Some slot |} s).

(** ** Gossip *)
Definition _emit_gossip_block (block : SignedBlock) (peer_id : PeerId) : E unit :=
  name ← gets es_network_name;
  modify (put (GossipBlockEvent block peer_id {| gt_kind := BLOCK; gt_network_name := name; gt_subnet_id := None |})).
Definition _emit_gossip_attestation (attestation : SignedAttestation) (peer_id : PeerId) : E unit :=
  name ← gets es_network_name;
  modify (put (GossipAttestationEvent attestation peer_id {| gt_kind := ATTESTATION_SUBNET; gt_network_name := name; gt_subnet_id := None |})).
Definition _emit_gossip_aggregated_attestation (signed_attestation : SignedAggregatedAttestation) (peer_id : PeerId) : E unit :=
  name ← gets es_network_name;
  modify (put (GossipAggregatedAttestationEvent signed_attestation peer_id
    {| gt_kind := AGGREGATED_ATTESTATION; gt_network_name := name; gt_subnet_id := None |})).

(** [except SSZSerializationError: raise GossipMessageError] *)
Definition ssz_as_gossip_error {A} (m : E A) : E A :=
  catch m (fun e => match e with SSZSerializationError => raising (Err GossipMessageError) | _ => raising (Err e) end).

Definition _handle_gossipsub_message (peer_id : PeerId) (topic_id : TopicId) (data : bytes) : E unit :=
  catch
    (handler_name ← gets es_gossip_handler;
     topic ← raising (get_topic handler_name topic_id);
     ssz_as_gossip_error
       match gt_kind topic with
       | BLOCK => block ← raising (container_decode data); _emit_gossip_block block peer_id
       | ATTESTATION_SUBNET => attestation ← raising (SignedAttestation_decode data); _emit_gossip_attestation attestation peer_id
       | AGGREGATED_ATTESTATION => aggregate ← raising (container_decode data); _emit_gossip_aggregated_attestation aggregate peer_id
       end)
    (fun e => match e with GossipMessageError => mret tt | _ => raising (Err e) end).

(** One turn of [_forward_gossipsub_events]: whether the loop goes on.  It waits when the
    queue is empty. *)
Definition forward_turn : E bool :=
  stopped ← gets es_stopped;
  if stopped : bool then mret false
  else
    gossip_stopped ← gets (fun s => gs_stopped (es_gossipsub s));
    if gossip_stopped : bool then mret false
    else
      event ← gets (fun s => gs_event_queue (es_gossipsub s) !! es_forwarded s);
      match event with
      | None => mret true
      | Some event =>
          _ ← modify (fun s => with_forwarded (S (es_forwarded s)) s);
          _ ← match event with
              | GossipsubMessageEvent peer_id topic data _ => catch (_handle_gossipsub_message peer_id topic data) (fun _ => mret tt)
              | GossipsubPeerEvent _ _ _ => mret tt
              end;
          mret true
      end.

(** [__anext__]; [None] when it waits for an event *)
Definition anext : E (option NetworkEvent) :=
  stopped ← gets es_stopped;
  if stopped : bool then raising (Err StopAsyncIteration)
  else
    event ← gets (fun s => es_events s !! es_taken s);
    match event with
    | None => mret None
    | Some event => _ ← modify (fun s => with_taken (S (es_taken s)) s); mret (Some event)
    end.

(** ** Connections *)
Definition register (peer_id : PeerId) (connection : nat) : E unit :=
  _ ← modify (fun s => with_connections (dset peer_id connection (es_connections s)) (dset peer_id connection (es_client s)) (es_closed s) s);
  _ ← modify (put (PeerConnectedEvent peer_id));
  spawn_task (AcceptStreams peer_id connection).

(** [outcome] is that of [connection_manager.connect]: the verified peer and its
    connection.  What follows the registration catches its own exceptions, so that the
    value that is returned in the end is known. *)
Definition dial (outcome : result (PeerId * nat)) : E (option PeerId) :=
  _ ← modify (with_stopped false);
  _ ← spawn_task (Connecting outcome None);
  mret match outcome with Ok (peer_id, _) => Some peer_id | Err _ => None end.
(** [bound] is the outcome of binding the listener. *)
Definition listen (bound : result unit) : E unit :=
  _ ← modify (with_stopped false);
  raising bound.
Definition _handle_inbound_connection (peer_id : PeerId) (connection : nat) : E unit := register peer_id connection.

(** [answers] are the peer's answers on the streams of the two attempts. *)
Definition _exchange_status (peer_id : PeerId) (answers : connection * connection) : E unit :=
  status ← gets es_our_status;
  match status with
  | None => mret tt
  | Some our =>
      connected ← gets (fun s => match dget peer_id (es_client s) with Some _ => Some answers | None => None end);
      match send_status connected our with
      | None => mret tt
      | Some peer_status => modify (put (PeerStatusEvent peer_id peer_status))
      end
  end.

Section Source.
Context `{Environment} `{SetOrder}.

Definition subscribe_gossip_topic (topic : TopicId) : E unit := on_gossipsub (subscribe topic).
Definition start_gossipsub : E unit :=
  _ ← on_gossipsub start;
  spawn_task ForwardEvents.

(** [start_serving] from its loop over the boot nodes on, up to where it waits: for the
    connection to the next boot node, which a dial awaits to its end, or for the listener to
    bind.  Gossipsub starts last.  The task that is left of it *)
Definition serve_boot (boot : boot_rest) : E (list task) :=
  match boot with
  | (outcome :: bootnodes, listening) => _ ← modify (with_stopped false); mret [Connecting outcome (Some (bootnodes, listening))]
  | ([], Some bound) => _ ← modify (with_stopped false); mret [Probing bound]
  | ([], None) => _ ← start_gossipsub; mret []
  end.
(** A dial that ends returns to its caller. *)
Definition resume (awaited_by : caller) : E (list task) :=
  match awaited_by with Background | Dialer None => mret [] | Dialer (Some boot) => serve_boot boot end.

(** [_setup_gossipsub_stream] up to the opening of the stream: the tasks that are left of it *)
Definition setup_begin (peer_id : PeerId) (connection : nat) (awaited_by : caller) : E (list task) :=
  _ ← modify (fun s => match dget peer_id (es_locks s) with
                       | Some _ => s
                       | None => with_locks (dset peer_id (es_next_lock s) (es_locks s)) (es_held s) (S (es_next_lock s)) s
                       end);
  lock ← gets (fun s => default 0%nat (dget peer_id (es_locks s)));
  held ← gets (fun s => bool_decide (lock ∈ es_held s));
  if held : bool then mret [SetupStream peer_id connection awaited_by]
  else
    peer_state ← gets (fun s => dget peer_id (gs_peers (es_gossipsub s)));
    if match peer_state with Some p => ps_outbound_stream p | None => false end then resume awaited_by
    else
      _ ← modify (fun s => with_locks (es_locks s) (lock :: es_held s) (es_next_lock s) s);
      mret [OpeningStream peer_id connection lock awaited_by].

(** The rest of [_setup_gossipsub_stream], once the stream is open or was refused *)
Definition setup_finish (peer_id : PeerId) (lock : nat) (opened : result unit) : E unit :=
  _ ← catch (_ ← raising opened; on_gossipsub (Gossipsub.add_peer peer_id false)) (fun _ => mret tt);
  modify (fun s => with_locks (es_locks s) (filter (fun l => l <> lock) (es_held s)) (es_next_lock s) s).

(** [bootnodes] are the outcomes of connecting to them; [listening] that of binding, when
    there is an address to listen on.  [serving_result] is what it returns or raises once none
    of its tasks is left. *)
Definition start_serving (status : Status) (slot : Z) (bootnodes : list (result (PeerId * nat))) (listening : option (result unit)) : E unit :=
  _ ← set_status status;
  _ ← set_current_slot_lookup slot;
  _ ← modify (with_stopped false);
  rest ← serve_boot (bootnodes, listening);
  for_each rest spawn_task.
Definition serving_result (listening : option (result unit)) : result unit := default (Ok tt) listening.

(** [closing] is the outcome of [connection.close()]. *)
Definition disconnect (peer_id : PeerId) (closing : result unit) : E unit :=
  found ← gets (fun s => dget peer_id (es_connections s));
  _ ← modify (fun s => with_connections (ddel peer_id (es_connections s)) (es_client s) (es_closed s) s);
  _ ← modify (fun s => with_locks (ddel peer_id (es_locks s)) (es_held s) (es_next_lock s) s);
  match found with
  | None => mret tt
  | Some connection =>
      _ ← modify (fun s => with_connections (es_connections s) (ddel peer_id (es_client s)) (es_closed s ++ [connection]) s);
      _ ← raising closing;
      modify (put (PeerDisconnectedEvent peer_id))
  end.

(** The background tasks are cancelled and release their locks; dials go on. *)
Definition stop_source : E unit :=
  _ ← modify (with_stopped true);
  cancelled ← gets (fun s => filter (fun t => cancelled_by_stop t = true) (es_tasks s));
  _ ← modify (fun s => with_tasks (filter (fun t => cancelled_by_stop t = false) (es_tasks s)) (es_responses s) s);
  _ ← modify (fun s => with_locks (es_locks s) (filter (fun l => l ∉ (openings cancelled).*2) (es_held s)) (es_next_lock s) s);
  on_gossipsub stop.

(** ** Streams *)

(** [None] when the negotiation fails, which closes the stream *)
Definition _negotiate_inbound_stream (chunks : list bytes) : option (ProtocolId * QuicStreamAdapter) :=
  match negotiate_server SUPPORTED_PROTOCOLS (new_adapter chunks) with
  | (Ok protocol_id, wrapper) => Some (protocol_id, wrapper)
  | (Err _, _) => None
  end.

Definition _handle_gossipsub_inbound_stream (peer_id : PeerId) (connection : nat) (wrapper : QuicStreamAdapter) : E unit :=
  peer_state ← gets (fun s => dget peer_id (gs_peers (es_gossipsub s)));
  _ ← on_gossipsub (Gossipsub.add_peer peer_id true);
  _ ← (if match peer_state with Some p => ps_inbound_stream p | None => false end then mret tt
       else spawn_task (ReceiveLoop peer_id [] wrapper));
  spawn_task (SetupStream peer_id connection Background).
Definition _handle_reqresp_inbound_stream (protocol_id : ProtocolId) (wrapper : QuicStreamAdapter) : E unit :=
  spawn_task (ServeRequest protocol_id wrapper).

(** One turn of [_accept_streams], given what [accept_stream] returns or raises and what
    closing a stream that is not served does: whether the loop goes on.  An exception ends
    it. *)
Definition accept_turn (peer_id : PeerId) (connection : nat) (accepted : result (list bytes)) (closing : result unit) : E bool :=
  let closed := match closing with Ok _ => true | Err _ => false end in
  running ← gets (fun s => negb (es_stopped s) && dmem peer_id (es_connections s));
  if negb running then mret false
  else
    match accepted with
    | Err _ => mret false
    | Ok chunks =>
        match _negotiate_inbound_stream chunks with
        | None => mret closed
        | Some (protocol_id, wrapper) =>
            if bool_decide (protocol_id ∈ [GOSSIPSUB_DEFAULT_PROTOCOL_ID; GOSSIPSUB_PROTOCOL_ID_V12]) then
              _ ← _handle_gossipsub_inbound_stream peer_id connection wrapper; mret true
            else if bool_decide (protocol_id ∈ REQRESP_PROTOCOL_IDS) then
              _ ← _handle_reqresp_inbound_stream protocol_id wrapper; mret true
            else mret closed
        end
    end.

(** What the adapter still delivers *)
Definition remaining (wrapper : QuicStreamAdapter) : list bytes :=
  (if Zlen (qa_buffer wrapper) =? 0 then [] else [qa_buffer wrapper]) ++ qa_incoming wrapper.
Definition protocol_name (protocol_id : ProtocolId) : string := string_of_list_byte protocol_id.
Definition serve_request (protocol_id : ProtocolId) (wrapper : QuicStreamAdapter) : E unit :=
  handler ← gets es_reqresp_handler;
  modify (fun s => with_tasks (es_tasks s) (es_responses s ++ [handle_stream handler (remaining wrapper) (protocol_name protocol_id)]) s).

(** One turn of a receive loop, which reads 65536 bytes at most: the loop that is left *)
Definition receive_turn (peer_id : PeerId) (buffer : bytes) (wrapper : QuicStreamAdapter) : E (list task) :=
  let '(chunk, wrapper) := Multistream.read 65536 wrapper in
  chunk ← raising chunk;
  next ← on_gossipsub (receive_chunk peer_id buffer chunk);
  mret match next with Some buffer => [ReceiveLoop peer_id buffer wrapper] | None => [] end.

Definition publish (topic : TopicId) (data : bytes) : E unit :=
  connections ← gets es_connections;
  if Zlen connections =? 0 then mret tt
  else catch (on_gossipsub (Gossipsub.publish topic data)) (fun _ => mret tt).

(** ** Tasks *)

(** What the network answers to the task that runs *)
Record answers := {
  an_status : connection * connection;
  an_opened : result unit;
  an_accepted : result (list bytes);
  an_closing : result unit
}.

(** One step of a task: what is left of it, put back in its place *)
Definition task_step (t : task) (a : answers) : E (list task) :=
  match t with
  | AcceptStreams peer_id connection =>
      continue ← accept_turn peer_id connection (an_accepted a) (an_closing a);
      mret (if continue : bool then [t] else [])
  | ForwardEvents => continue ← forward_turn; mret (if continue : bool then [t] else [])
  | Connecting outcome boot =>
      match outcome with
      | Err _ => resume (Dialer boot)
      | Ok (peer_id, connection) => _ ← register peer_id connection; mret [FinishDial peer_id connection boot]
      end
  | FinishDial peer_id connection boot => _ ← _exchange_status peer_id (an_status a); mret [SetupStream peer_id connection (Dialer boot)]
  | SetupStream peer_id connection awaited_by => setup_begin peer_id connection awaited_by
  | OpeningStream peer_id connection lock awaited_by => _ ← setup_finish peer_id lock (an_opened a); resume awaited_by
  | Probing bound => match bound with Ok _ => _ ← start_gossipsub; mret [] | Err _ => mret [] end
  | ReceiveLoop peer_id buffer wrapper => receive_turn peer_id buffer wrapper
  | ServeRequest protocol_id wrapper => _ ← serve_request protocol_id wrapper; mret []
  end.

(** The event loop runs task [i]; a task it spawns comes last. *)
Definition run_task (i : nat) (a : answers) : E unit :=
  found ← gets (fun s => es_tasks s !! i);
  match found with
  | None => mret tt
  | Some t =>
      before ← gets (fun s => (take i (es_tasks s), drop (S i) (es_tasks s)));
      _ ← modify (fun s => with_tasks [] (es_responses s) s);
      rest ← task_step t a;
      modify (fun s => with_tasks (before.1 ++ rest ++ before.2 ++ es_tasks s) (es_responses s) s)
  end.

(** ** What happens to the event source *)
Inductive source_op :=
| OpDial (outcome : result (PeerId * nat))
| OpListen (bound : result unit)
| OpInbound (peer : PeerId) (connection : nat)
| OpSetStatus (status : Status)
| OpSubscribe (topic : TopicId)
| OpStartGossipsub
| OpServe (status : Status) (slot : Z) (bootnodes : list (result (PeerId * nat))) (listening : option (result unit))
| OpRun (i : nat) (a : answers)
| OpNext
| OpPublish (topic : TopicId) (data : bytes)
| OpHeartbeat
| OpBroadcast
| OpDisconnect (peer : PeerId) (closing : result unit)
| OpStop.

(** An exception of [listen], [__anext__] or [disconnect] goes to the caller. *)
Definition source_step (op : source_op) : E unit :=
  match op with
  | OpDial outcome => _ ← dial outcome; mret tt
  | OpListen bound => catch (listen bound) (fun _ => mret tt)
  | OpInbound peer connection => _handle_inbound_connection peer connection
  | OpSetStatus status => set_status status
  | OpSubscribe topic => subscribe_gossip_topic topic
  | OpStartGossipsub => start_gossipsub
  | OpServe status slot bootnodes listening => start_serving status slot bootnodes listening
  | OpRun i a => run_task i a
  | OpNext => catch (_ ← anext; mret tt) (fun _ => mret tt)
  | OpPublish topic data => publish topic data
  | OpHeartbeat => on_gossipsub heartbeat_turn
  | OpBroadcast => on_gossipsub run_background_task
  | OpDisconnect peer closing => catch (disconnect peer closing) (fun _ => mret tt)
  | OpStop => stop_source
  end.
End Source.

(** ** The network service *)
Record NetworkService := { ns_source : LiveNetworkEventSource; ns_sync : SyncService; ns_network_name : bytes; ns_running : bool }.
Definition with_source (source : LiveNetworkEventSource) (s : NetworkService) : NetworkService :=
  {| ns_source := source; ns_sync := ns_sync s; ns_network_name := ns_network_name s; ns_running := ns_running s |}.
Definition with_sync (sync : SyncService) (s : NetworkService) : NetworkService :=
  {| ns_source := ns_source s; ns_sync := sync; ns_network_name := ns_network_name s; ns_running := ns_running s |}.
Definition with_running (running : bool) (s : NetworkService) : NetworkService :=
  {| ns_source := ns_source s; ns_sync := ns_sync s; ns_network_name := ns_network_name s; ns_running := running |}.
Definition stop_service : M NetworkService unit := modify (with_running false).

Section Service.
Context `{Crypto} `{SetOrder} `{Network} `{Environment}.

(** One turn of [run]: whether the loop goes on.  It waits when there is no event, and
    clears the flag however it ends. *)
Definition run_turn : M NetworkService bool :=
  catch
    (event ← catch (event ← zoom ns_source with_source anext; mret (Some event))
                   (fun e => match e with StopAsyncIteration => mret None | _ => raising (Err e) end);
     match event with
     | None => _ ← modify (with_running false); mret false
     | Some None => mret true
     | Some (Some event) =>
         running ← gets ns_running;
         if negb running then _ ← modify (with_running false); mret false
         else _ ← zoom ns_sync with_sync (_handle_event event); mret true
     end)
    (fun e => _ ← modify (with_running false); raising (Err e)).

Definition publish_block (block : SignedBlock) : M NetworkService unit :=
  name ← gets ns_network_name;
  ssz_bytes ← raising (container_encode block);
  compressed ← raising (Snappy.compress ssz_bytes);
  topic_id ← raising (to_topic_id (GossipTopic.block name));
  zoom ns_source with_source (publish topic_id compressed).
Definition publish_attestation (attestation : SignedAttestation) (subnet_id : Z) : M NetworkService unit :=
  name ← gets ns_network_name;
  ssz_bytes ← raising (SignedAttestation_encode attestation);
  compressed ← raising (Snappy.compress ssz_bytes);
  topic_id ← raising (to_topic_id (attestation_subnet name subnet_id));
  zoom ns_source with_source (publish topic_id compressed).
Definition publish_aggregated_attestation (signed_attestation : SignedAggregatedAttestation) : M NetworkService unit :=
  name ← gets ns_network_name;
  ssz_bytes ← raising (container_encode signed_attestation);
  compressed ← raising (Snappy.compress ssz_bytes);
  topic_id ← raising (to_topic_id (committee_aggregation name));
  zoom ns_source with_source (publish topic_id compressed).
End Service.
