(* ===== verification/Run.v ===== *)
(** * The run sequence (cli/run.py, cli/bootstrap.py)

    What the command line starts: the boot anchor, the event source with its subscriptions,
    the node around them, and serving.  The outcomes of dialing and binding, the answers to
    the HTTP requests of checkpoint sync, the clock and the order of a set of subnets are
    arguments.  [node.run()], the task group, is where the sequence ends. *)

From S2P Require Import GossipTopic Prelude Pydict Uint Ssz Sha256 Merkle Containers StateTransition Proofs Signatures.
From S2P Require Import ForkChoice Aggregation SszRecords ReqResp BlockCache PeerManager StateMonad Backfill SyncService Storage ChainService ValidatorService Node.
From S2P Require Import GossipState Gossipsub EventSource CheckpointSync Identity Rlp Enr.
From Stdlib Require Import String.

Local Open Scope Z_scope.
Local Open Scope list_scope.

(** ** Forks (spec/forks/registry.py, lstar/spec.py) *)
Record Fork := { fk_name : bytes; fk_version : Z; fk_gossip_digest : bytes }.

(** [any(earlier >= later for earlier, later in pairwise(versions))] *)
Fixpoint not_increasing (versions : list Z) : bool :=
  match versions with
  | earlier :: ((later :: _) as rest) => (earlier >=? later) || not_increasing rest
  | _ => false
  end.
Definition ForkRegistry_new (forks : list Fork) : result (list Fork) :=
  check! negb (Zlen forks =? 0) else ValueError;;
  check! negb (not_increasing (map fk_version forks)) else ValueError;;
  let names := map fk_name forks in
  check! Zlen (sunion [] names) =? Zlen names else ValueError;;
  Ok forks.
Definition current (self : list Fork) : result Fork := of_option IndexError (last self).

(** The network name that topics carry *)
Definition GOSSIP_DIGEST : bytes := str "12345678".
Definition LstarSpec : Fork := {| fk_name := str "lstar"; fk_version := 4; fk_gossip_digest := GOSSIP_DIGEST |}.

(** ** The boot configuration *)
Record NodeBootstrap `{Signer} := {
  nb_genesis : CheckpointSync.GenesisConfig;
  nb_registry : dict Z ValidatorEntry;
  nb_bootnode_multiaddrs : list bytes;
  nb_listen_address : option bytes;
  nb_checkpoint_sync_url : option bytes;
  nb_node_id : bytes;
  nb_is_aggregator : bool;
  nb_aggregate_subnet_ids : list Z;
  nb_api_port : option Z
}.

(** ** The command line (cli/args.py, cli/bootstrap.py) *)
Record CliArgs := {
  ca_genesis_path : bytes;
  ca_bootnodes : list bytes;
  ca_listen_address : bytes;
  ca_checkpoint_sync_url : option bytes;
  ca_validator_keys_path : option bytes;
  ca_node_id : bytes;
  ca_verbose : bool;
  ca_no_color : bool;
  ca_is_aggregator : bool;
  ca_aggregate_subnet_ids_raw : option bytes;
  ca_api_port : Z
}.

(** [str.strip()], on the characters of a string *)
Definition str_space (c : Z) : bool := ascii_space c || ((0x1C <=? c) && (c <=? 0x1F)) || unicode_space c.
Fixpoint str_lstrip (codes : list Z) : list Z :=
  match codes with
  | c :: rest => if str_space c then str_lstrip rest else codes
  | [] => []
  end.
Definition str_strip (s : bytes) : list Z := rev (str_lstrip (rev (str_lstrip (utf8_codes s)))).

(** The numbers between the commas; a [ValueError] becomes a [CliValidationError], which is
    one as well. *)
Definition parse_subnet_ids (raw : bytes) : result (list Z) :=
  mapM (fun text => n ← int_of_codes text; uint_new 64 n) (filter (fun text => text <> []) (map str_strip (GossipTopic.split Byte.x2c raw))).

(** [from_yaml_file] and [from_keys_directory] are the outcomes of loading a genesis file and the
    keys of a node from a directory. *)
Definition from_cli_args `{Signer} `{EnrCrypto} (from_yaml_file : bytes -> result CheckpointSync.GenesisConfig)
    (from_keys_directory : bytes -> bytes -> result (dict Z ValidatorEntry)) (args : CliArgs) : result NodeBootstrap :=
  check! negb (ca_is_aggregator args && bool_decide (ca_validator_keys_path args = None)) else ValueError;;
  aggregate_subnet_ids ←
    match ca_aggregate_subnet_ids_raw args with
    | None | Some [] => Ok []
    | Some raw =>
        check! ca_is_aggregator args else ValueError;;
        parse_subnet_ids raw
    end;
  genesis ← from_yaml_file (ca_genesis_path args);
  registry ← match ca_validator_keys_path args with None => Ok [] | Some directory => from_keys_directory (ca_node_id args) directory end;
  _ ← (if Zlen registry >? 0 then _ ← registry_indices registry; Ok tt else Ok tt);
  check! negb (ca_is_aggregator args && (Zlen registry =? 0)) else ValueError;;
  bootnode_multiaddrs ← resolve_bootnodes (ca_bootnodes args);
  Ok {| nb_genesis := genesis; nb_registry := registry; nb_bootnode_multiaddrs := bootnode_multiaddrs;
        nb_listen_address := match ca_listen_address args with [] => None | address => Some address end;
        nb_checkpoint_sync_url := ca_checkpoint_sync_url args; nb_node_id := ca_node_id args; nb_is_aggregator := ca_is_aggregator args;
        nb_aggregate_subnet_ids := aggregate_subnet_ids;
        nb_api_port := if ca_api_port args >? 0 then Some (ca_api_port args) else None |}.

Section Run.
Context `{Signer} `{Environment} `{SetOrder} `{Disk}.
Context (http : nat -> bytes -> result (Z * bytes)) (set_iter_int : list Z -> list Z).

Definition build_anchor (self : NodeBootstrap) : result Anchor :=
  match nb_checkpoint_sync_url self with
  | None => anchor_from_genesis (nb_genesis self)
  | Some url => from_checkpoint http url (nb_genesis self) (primary_index (nb_registry self))
  end.

(** The subnets of the own validators, and those asked for by an aggregator *)
Definition boot_subnets (boot : NodeBootstrap) : result (list Z) :=
  indices ← registry_indices (nb_registry boot);
  owned ← mapM (fun index => compute_subnet_id index ATTESTATION_COMMITTEE_COUNT) indices;
  let subnets := sunion [] owned in
  Ok (if nb_is_aggregator boot then sunion subnets (nb_aggregate_subnet_ids boot) else subnets).

(** [_build_event_source], after [LiveNetworkEventSource.create()] *)
Definition _build_event_source (boot : NodeBootstrap) : M LiveNetworkEventSource unit :=
  _ ← set_network_name GOSSIP_DIGEST;
  block_topic ← raising (to_topic_id (GossipTopic.block GOSSIP_DIGEST));
  _ ← subscribe_gossip_topic block_topic;
  subnets ← raising (boot_subnets boot);
  for_each (set_iter_int subnets) (fun subnet_id =>
    topic ← raising (to_topic_id (attestation_subnet GOSSIP_DIGEST subnet_id));
    subscribe_gossip_topic topic).

(** The node is configured without a database path. *)
Definition node_config (boot : NodeBootstrap) (anchor : Anchor) : NodeConfig := {|
  nc_genesis_time := gc_genesis_time (nb_genesis boot);
  nc_validators := an_validators anchor;
  nc_validator_index := primary_index (nb_registry boot);
  nc_is_aggregator := nb_is_aggregator boot;
  nc_anchor_store := an_store anchor
|}.

(** [run_node] up to [node.run()]: [dialing] and [binding] are the outcomes of the transport
    for an address, [now] the reading of the clock at boot and [slot] the one that a lookup
    returns when a request asks for the slot.  [meanwhile] is what the event loop runs while
    [start_serving] waits, its own steps included; it has to bring it to its end. *)
Definition run_node (params : GossipsubParameters) (now slot : Z) (dialing : bytes -> result (PeerId * nat)) (binding : bytes -> result unit)
    (meanwhile : list source_op) (boot : NodeBootstrap) : result (Node * LiveNetworkEventSource) :=
  anchor ← build_anchor boot;
  let '(built, event_source) := _build_event_source boot (new_source params) in
  _ ← built;
  node ← (from_genesis (node_config boot anchor) now None).1;
  let listening := option_map binding (nb_listen_address boot) in
  let '(served, event_source) :=
    (_ ← start_serving (an_initial_status anchor) slot (map dialing (nb_bootnode_multiaddrs boot)) listening;
     for_each meanwhile source_step) event_source in
  _ ← served;
  check! negb (existsb still_serving (es_tasks event_source)) else OutOfFuel;;
  _ ← serving_result listening;
  Ok (node, event_source).
End Run.
