(* ===== verification/EventSourceCorrect.v ===== *)
(** * The event source: invariant

    What holds however the tasks of the event source interleave: nothing raises, the
    registries agree, the events tell the connections and the gossip apart from nothing
    else, and one stream at most is being opened per lock. *)

From S2P Require Import GossipTopic Prelude Pydict Uint Ssz SszCorrect Sha256 Merkle Containers StateTransition.
From S2P Require Import Proofs Signatures ForkChoice Aggregation SszRecords Varint Snappy ReqResp BlockCache.
From S2P Require Import PeerManager StateMonad Backfill SyncService GossipRpc GossipRpcCorrect GossipState.
From S2P Require Import GossipStateCorrect Gossipsub GossipsubTheorems Multistream EventSource.
From S2P Require Import SnappyCorrect Samples SampleStores SignaturesCorrect SyncTheorems.

Local Open Scope Z_scope.
Local Open Scope list_scope.

(** ** The queue of gossipsub only grows, and only [start] and [stop] change its lifecycle *)
Definition extends (s s' : GossipsubBehavior) : Prop := gs_event_queue s `prefix_of` gs_event_queue s' /\ gs_stopped s' = gs_stopped s.
#[local] Instance extends_preorder : PreOrder extends.
Proof. split; [by intros s|]. intros s1 s2 s3 [H1 E1] [H2 E2]. split; [by etrans|congruence]. Qed.
Definition grows {A} (m : M GossipsubBehavior A) : Prop := forall s, extends s (m s).2.

Lemma grows_bind {A B} (m : M GossipsubBehavior A) (k : A -> M GossipsubBehavior B) : grows m -> (forall a, grows (k a)) -> grows (m ≫= k).
Proof.
  intros Hm Hk s. specialize (Hm s). unfold mbind, M_bind. destruct (m s) as [[a|e] s']; [|done]. by etrans; [|apply Hk].
Qed.
Lemma grows_ret {A} (a : A) : grows (mret a).
Proof. intros s. done. Qed.
Lemma grows_gets {A} (f : GossipsubBehavior -> A) : grows (gets f).
Proof. intros s. done. Qed.
Lemma grows_raising {A} (r : result A) : grows (raising r).
Proof. intros s. done. Qed.
Lemma grows_modify f : (forall s, extends s (f s)) -> grows (modify f).
Proof. intros Hf s. apply Hf. Qed.
Lemma grows_catch {A} (m : M GossipsubBehavior A) h : grows m -> (forall e, grows (h e)) -> grows (catch m h).
Proof. intros Hm Hh s. specialize (Hm s). unfold catch. destruct (m s) as [[a|e] s']; [done|]. by etrans; [|apply Hh]. Qed.
Lemma grows_for_each {A} (l : list A) body : (forall x, grows (body x)) -> grows (for_each l body).
Proof. intros Hb. induction l as [|x l IH]; [apply grows_ret|]. by apply grows_bind. Qed.
Lemma grows_read_time `{Environment} : grows read_time.
Proof. intros s. done. Qed.
Lemma grows_next_sample `{Environment} : grows next_sample.
Proof. intros s. done. Qed.

Ltac grows_step :=
  match goal with
  | |- grows (_ ≫= _) => apply grows_bind; [|intros ?]
  | |- grows (mret _) => apply grows_ret
  | |- grows (gets _) => apply grows_gets
  | |- grows (raising _) => apply grows_raising
  | |- grows (catch _ _) => apply grows_catch; [|intros ?]
  | |- grows (for_each _ _) => apply grows_for_each; intros ?
  | |- grows (modify _) => apply grows_modify; intros ?; split; [first [done | by apply prefix_app_r]|done]
  | |- grows read_time => apply grows_read_time
  | |- grows next_sample => apply grows_next_sample
  | |- grows (match ?x with _ => _ end) => destruct x
  | |- grows (let '(_, _) := ?x in _) => destruct x
  | |- grows (if ?x then _ else _) => destruct x
  | |- grows ?m => progress cbn beta zeta
  end.
Ltac grows_auto := repeat (grows_step || solve [eauto with grows]).
Create HintDb grows.

#[local] Instance gossip_op_eq_dec : EqDecision gossip_op.
Proof. solve_decision. Defined.

Section Growth.
Context `{Environment} `{SetOrder}.

Lemma grows_get_peer q : grows (get_peer q).
Proof. apply grows_gets. Qed.
#[local] Hint Resolve grows_get_peer : grows.
Lemma grows_send q rpc : grows (_send_rpc q rpc).
Proof. unfold _send_rpc. grows_auto. Qed.
#[local] Hint Resolve grows_send : grows.
Lemma grows_spawn b : grows (spawn b).
Proof. unfold spawn. grows_auto. Qed.
Lemma grows_broadcast b : grows (_broadcast_subscription b).
Proof. unfold _broadcast_subscription. grows_auto. Qed.
Lemma grows_remove_peer q : grows (remove_peer q).
Proof. unfold remove_peer. grows_auto. Qed.
Lemma grows_record t d i : grows (record_message t d i).
Proof. unfold record_message. grows_auto. Qed.
#[local] Hint Resolve grows_spawn grows_broadcast grows_remove_peer grows_record : grows.
Lemma grows_forward q m i p : grows (forward_message q m i p).
Proof. unfold forward_message. grows_auto. Qed.
#[local] Hint Resolve grows_forward : grows.
Lemma grows_subscription q sub : grows (_handle_subscription q sub).
Proof. unfold _handle_subscription. grows_auto. Qed.
Lemma grows_message q m : grows (_handle_message q m).
Proof. unfold _handle_message. grows_auto. Qed.
Lemma grows_graft q g : grows (_handle_graft q g).
Proof. unfold _handle_graft, _reject_graft. grows_auto. Qed.
Lemma grows_prune q g : grows (_handle_prune q g).
Proof. unfold _handle_prune. grows_auto. Qed.
Lemma grows_ihave q g : grows (_handle_ihave q g).
Proof. unfold _handle_ihave. grows_auto. Qed.
Lemma grows_serve q ids : forall l, grows (serve_messages q ids l).
Proof. induction ids as [|i ids IH]; intros l; cbn [serve_messages]; grows_auto. Qed.
#[local] Hint Resolve grows_serve : grows.
Lemma grows_iwant q g : grows (_handle_iwant q g).
Proof. unfold _handle_iwant. grows_auto. Qed.
Lemma grows_idontwant q g : grows (_handle_idontwant q g).
Proof. unfold _handle_idontwant. grows_auto. Qed.
#[local] Hint Resolve grows_subscription grows_message grows_graft grows_prune grows_ihave grows_iwant grows_idontwant : grows.
Lemma grows_control q c : grows (_handle_control q c).
Proof. unfold _handle_control. grows_auto. Qed.
#[local] Hint Resolve grows_control : grows.
Lemma grows_rpc q r : grows (_handle_rpc q r).
Proof. unfold _handle_rpc. grows_auto. Qed.
#[local] Hint Resolve grows_rpc : grows.
Lemma grows_drain fuel q : forall b, grows (drain_frames fuel q b).
Proof. induction fuel as [|fuel IH]; intros [|x b]; cbn [drain_frames]; grows_auto. Qed.
#[local] Hint Resolve grows_drain : grows.
Lemma grows_receive q b c : grows (receive_chunk q b c).
Proof. unfold receive_chunk. grows_auto. Qed.
Lemma grows_heartbeat : grows heartbeat_turn.
Proof. unfold heartbeat_turn, _heartbeat, _maintain_mesh, maintain_fanout, _emit_gossip. grows_auto. Qed.
#[local] Hint Resolve grows_receive grows_heartbeat : grows.

Lemma grows_loop q chunks : forall b, grows (receive_loop q b chunks).
Proof. induction chunks as [|c chunks IH]; intros b; cbn [receive_loop]; grows_auto. Qed.

Lemma gossip_step_extends op : op <> Start -> op <> Stop -> grows (gossip_step op).
Proof.
  intros H1 H2. destruct op; cbn [gossip_step]; try done;
    unfold subscribe, unsubscribe, Gossipsub.add_peer, Gossipsub.publish, run_background_task; grows_auto.
Qed.
Lemma gossip_step_grows op s : gs_event_queue s `prefix_of` gs_event_queue (gossip_step op s).2.
Proof.
  destruct (decide (op = Start \/ op = Stop)) as [[->| ->]|Hop]; [done| |apply gossip_step_extends; intros ->; tauto].
  cbn [gossip_step]. unfold stop. rewrite run_modify, run_gets. etrans; [|apply grows_for_each; intros q; apply grows_remove_peer]. done.
Qed.
End Growth.

(** ** What the events say *)

(** The event of a gossip message: its topic names our network and its kind, and its data
    is the encoding of a value of that kind. *)
Definition gossip_event (name : bytes) (e : GossipsubEvent) : option NetworkEvent :=
  match e with
  | GossipsubMessageEvent peer_id topic data _ =>
      match get_topic name topic with
      | Ok t =>
          let topic := {| gt_kind := gt_kind t; gt_network_name := name; gt_subnet_id := None |} in
          match gt_kind t with
          | BLOCK => match container_decode data with Ok block => Some (GossipBlockEvent block peer_id topic) | Err _ => None end
          | ATTESTATION_SUBNET =>
              match SignedAttestation_decode data with Ok a => Some (GossipAttestationEvent a peer_id topic) | Err _ => None end
          | AGGREGATED_ATTESTATION =>
              match container_decode data with Ok a => Some (GossipAggregatedAttestationEvent a peer_id topic) | Err _ => None end
          end
      | Err _ => None
      end
  | GossipsubPeerEvent _ _ _ => None
  end.
Definition is_gossip (e : NetworkEvent) : bool :=
  match e with GossipBlockEvent _ _ _ | GossipAttestationEvent _ _ _ | GossipAggregatedAttestationEvent _ _ _ => true | _ => false end.

(** Whether a peer is connected, according to the events *)
Definition connected (peer : PeerId) (events : list NetworkEvent) : bool :=
  foldl (fun b e => match e with
                    | PeerConnectedEvent q => bool_decide (q = peer) || b
                    | PeerDisconnectedEvent q => negb (bool_decide (q = peer)) && b
                    | _ => b
                    end) false events.
Definition status_after_connect (events : list NetworkEvent) : Prop :=
  forall before peer status after, events = before ++ PeerStatusEvent peer status :: after -> PeerConnectedEvent peer ∈ before.

(** ** Histories *)

(** Topics are Python strings. *)
Definition source_op_ok (op : source_op) : Prop :=
  match op with OpSubscribe t | OpPublish t _ => utf8_valid t = true | _ => True end.
(** Closing the connection of a peer to disconnect raises. *)
Definition failed_close (op : source_op) : bool := match op with OpDisconnect _ (Err _) => true | _ => false end.
(** How often a peer is disconnected *)
Definition disconnects (q : PeerId) (op : source_op) : bool := match op with OpDisconnect peer _ => bool_decide (peer = q) | _ => false end.
Definition disconnections (q : PeerId) (ops : list source_op) : nat := length (filter (fun op => disconnects q op = true) ops).
(** The tasks that open a stream to a peer *)
Definition openings_to (q : PeerId) (tasks : list task) : nat := length (filter (fun o => o.1 = q) (openings tasks)).

(** Every lock has had one peer, [owners] by number; a peer has had one, and one more after
    each of its [d q] disconnections. *)
Definition count_owned (q : PeerId) (owners : list PeerId) : nat := length (filter (fun x => x = q) owners).
Definition locks_owned (d : PeerId -> nat) (tasks : list task) (s : LiveNetworkEventSource) : Prop :=
  exists owners, length owners = es_next_lock s /\
    (forall q l, dget q (es_locks s) = Some l -> owners !! l = Some q) /\
    (forall q l, (q, l) ∈ openings tasks -> owners !! l = Some q) /\
    forall q, (count_owned q owners + (if dmem q (es_locks s) then 0 else 1) <= S (d q))%nat.

Lemma lookup_prefix_filter (q x : PeerId) owners locks : Forall (fun l => (l < length owners)%nat) locks ->
  filter (fun l => (owners ++ [x]) !! l = Some q) locks = filter (fun l => owners !! l = Some q) locks.
Proof.
  induction 1 as [|l locks Hl _ IH]; [done|]. rewrite !filter_cons, IH. by rewrite lookup_app_l by done.
Qed.
Lemma owned_bound q owners locks : NoDup locks -> Forall (fun l => owners !! l = Some q) locks -> (length locks <= count_owned q owners)%nat.
Proof.
  intros Hn Hf. assert (length (filter (fun l => owners !! l = Some q) (seq 0 (length owners))) = count_owned q owners) as <-.
  { clear. unfold count_owned. induction owners as [|x owners IH] using rev_ind; [done|].
    rewrite length_app, Nat.add_1_r, seq_S, !filter_app, !length_app, <- IH. f_equal.
    - f_equal. apply lookup_prefix_filter, Forall_forall. intros l Hl%elem_of_seq. lia.
    - rewrite !filter_cons, !filter_nil. rewrite lookup_app_r, Nat.sub_diag by done. cbn.
      destruct (decide (x = q)) as [->|Hx]; [by rewrite decide_True|]. by rewrite decide_False by congruence. }
  apply submseteq_length, NoDup_submseteq; [done|]. intros l Hl. rewrite Forall_forall in Hf. apply list_elem_of_filter.
  split; [by apply Hf|]. apply elem_of_seq. specialize (Hf l Hl). apply lookup_lt_Some in Hf. lia.
Qed.

Section Histories.
Context `{Environment} `{SetOrder}.

Context (p : GossipsubParameters) (Hp : params_ok p) (name : bytes) (told : bool) (d : PeerId -> nat).

(** [tasks] are the tasks that are alive, the one that runs included; [told] says that no
    close of a connection fails, [d] how often each peer was disconnected. *)
Record source_inv (tasks : list task) (s : LiveNetworkEventSource) : Prop := {
  si_gossip : reachable p (es_gossipsub s);
  si_client : es_client s = es_connections s;
  si_name : es_network_name s = name;
  si_handler : es_gossip_handler s = name;
  si_connected q : dmem q (es_connections s) = true -> connected q (es_events s) = true;
  si_told q : told = true -> dmem q (es_connections s) = connected q (es_events s);
  si_forwarded : (es_forwarded s <= length (gs_event_queue (es_gossipsub s)))%nat;
  si_gossip_events : filter (fun e => is_gossip e = true) (es_events s) =
    omap (gossip_event name) (take (es_forwarded s) (gs_event_queue (es_gossipsub s)));
  si_status : status_after_connect (es_events s);
  si_dials q c boot : FinishDial q c boot ∈ tasks -> PeerConnectedEvent q ∈ es_events s;
  si_held : es_held s ≡ₚ (openings tasks).*2;
  si_distinct : NoDup (es_held s);
  si_owned : locks_owned d tasks s
}.
(** The tasks of the list and those set aside *)
Definition holding (ctx : list task) (s : LiveNetworkEventSource) : Prop := source_inv (ctx ++ es_tasks s) s.

Ltac fields := cbn [es_gossipsub es_client es_connections es_network_name es_gossip_handler es_events es_forwarded es_tasks es_held es_locks
  es_next_lock es_responses es_stopped with_gossipsub put with_taken with_connections with_handler with_name with_stopped with_forwarded with_locks with_tasks] in *.
Ltac si_split Hs := destruct Hs as [Hg Hc Hn Hh Hk Hto Hf He Hst Hd Hl Hnd Hown]; fields; split; fields; try done.

Lemma owned_tasks tasks tasks' s : (forall o, o ∈ openings tasks' -> o ∈ openings tasks) -> locks_owned d tasks s -> locks_owned d tasks' s.
Proof. intros Hsub (owners & H1 & H2 & H3 & H4). exists owners. split_and!; auto. Qed.

Lemma inv_perm tasks tasks' s : tasks ≡ₚ tasks' -> source_inv tasks s -> source_inv tasks' s.
Proof.
  intros Ht Hs. assert (openings tasks ≡ₚ openings tasks') as Ho by (unfold openings; by rewrite Ht). si_split Hs.
  - intros q c boot. rewrite <- Ht. apply Hd.
  - by rewrite Hl, Ho.
  - apply (owned_tasks tasks); [|done]. intros o. by rewrite Ho.
Qed.

Lemma connected_snoc q e events : connected q (events ++ [e]) =
  match e with
  | PeerConnectedEvent x => bool_decide (x = q) || connected q events
  | PeerDisconnectedEvent x => negb (bool_decide (x = q)) && connected q events
  | _ => connected q events
  end.
Proof. unfold connected. rewrite foldl_app. by destruct e. Qed.

Lemma status_snoc e events : status_after_connect events ->
  match e with PeerStatusEvent q _ => PeerConnectedEvent q ∈ events | _ => True end -> status_after_connect (events ++ [e]).
Proof.
  intros Hs He before q st after E. destruct after as [|x after] using rev_ind.
  - apply app_inj_tail in E as [-> ->]. exact He.
  - rewrite app_comm_cons, app_assoc in E. apply app_inj_tail in E as [-> _]. by eapply Hs.
Qed.

(** A step of gossipsub *)
Lemma gossip_move op tasks s : op_ok op -> source_inv tasks s ->
  exists g, gossip_step op (es_gossipsub s) = (Ok tt, g) /\ source_inv tasks (with_gossipsub g s).
Proof.
  intros Ho Hs. pose proof (si_gossip _ _ Hs) as Hr.
  pose proof (gossip_step_safe p Hp 0 op Ho _ (gossip_reachable_inv p Hp 0 _ Hr)) as Hstep.
  pose proof (gossip_step_grows op (es_gossipsub s)) as [more Hgrow].
  destruct (gossip_step op (es_gossipsub s)) as [[[]|e] g] eqn:E; [|done]. cbn in Hgrow. exists g. split; [done|]. si_split Hs.
  - destruct Hr as (ops & Hops & Erun). exists (ops ++ [op]). split; [apply Forall_app; split; [done|by constructor]|]. rewrite for_each_app.
    rewrite (run_bind _ _ _ _ _ Erun). cbn [for_each]. by rewrite (run_bind _ _ _ _ _ E).
  - rewrite Hgrow, length_app. lia.
  - rewrite Hgrow, take_app_le by done. exact He.
Qed.

(** A value is returned and the tasks set aside stay so. *)
Definition keeps_source {A} (m : M LiveNetworkEventSource A) : Prop :=
  forall ctx s, holding ctx s -> exists a s', m s = (Ok a, s') /\ holding ctx s' /\ es_events s `prefix_of` es_events s'.

Lemma ks_ret {A} (a : A) : keeps_source (mret a).
Proof. intros ctx s Hs. by exists a, s. Qed.
Lemma ks_bind {A B} (m : M LiveNetworkEventSource A) (k : A -> M LiveNetworkEventSource B) :
  keeps_source m -> (forall a, keeps_source (k a)) -> keeps_source (m ≫= k).
Proof.
  intros Hm Hk ctx s Hs. destruct (Hm ctx s Hs) as (a & s1 & E1 & H1 & P1). destruct (Hk a ctx s1 H1) as (b & s2 & E2 & H2 & P2).
  exists b, s2. split_and!; [by rewrite (run_bind _ _ _ _ _ E1)|done|by etrans].
Qed.
Lemma ks_gets {A} (f : LiveNetworkEventSource -> A) : keeps_source (gets f).
Proof. intros ctx s Hs. by exists (f s), s. Qed.
Lemma ks_modify f : (forall ctx s, holding ctx s -> holding ctx (f s) /\ es_events s `prefix_of` es_events (f s)) -> keeps_source (modify f).
Proof. intros Hf ctx s Hs. destruct (Hf ctx s Hs) as [H1 H2]. by exists tt, (f s). Qed.
Lemma ks_for_each {A} (l : list A) body : (forall x, keeps_source (body x)) -> keeps_source (for_each l body).
Proof. intros Hb. induction l as [|x l IH]; [apply ks_ret|]. by apply ks_bind. Qed.
(** Reading before a step *)
Lemma ks_reading {A B} (f : LiveNetworkEventSource -> A) (k : A -> M LiveNetworkEventSource B) :
  (forall ctx s, holding ctx s -> exists a s', k (f s) s = (Ok a, s') /\ holding ctx s' /\ es_events s `prefix_of` es_events s') ->
  keeps_source (gets f ≫= k).
Proof. intros Hk ctx s Hs. rewrite run_gets. by apply Hk. Qed.
Lemma ks_catch {A} (m : M LiveNetworkEventSource A) h : keeps_source m -> keeps_source (catch m h).
Proof. intros Hm ctx s Hs. destruct (Hm ctx s Hs) as (a & s' & E & H1 & P1). exists a, s'. unfold catch. by rewrite E. Qed.

Lemma ks_gossip op {A} (m : M GossipsubBehavior A) : op_ok op -> gossip_step op = (_ ← m; mret tt) -> keeps_source (on_gossipsub m).
Proof.
  intros Ho E ctx s Hs. destruct (gossip_move op _ s Ho Hs) as (g & Eg & Hg). rewrite E in Eg. unfold mbind, M_bind in Eg.
  unfold on_gossipsub, zoom. destruct (m (es_gossipsub s)) as [[a|e] g'] eqn:Em; [|done]. injection Eg as ->. by exists a, (with_gossipsub g s).
Qed.
Lemma ks_gossip_unit op : op_ok op -> keeps_source (on_gossipsub (gossip_step op)).
Proof.
  intros Ho ctx s Hs. destruct (gossip_move op _ s Ho Hs) as (g & Eg & Hg). unfold on_gossipsub, zoom. rewrite Eg. by exists tt, (with_gossipsub g s).
Qed.

Lemma ks_stopped b : keeps_source (modify (with_stopped b)).
Proof. apply ks_modify. intros ctx s Hs. split; [|done]. unfold holding in *. si_split Hs. Qed.
Lemma ks_handler f g : keeps_source (modify (fun s => with_handler (f s) (g s) s)).
Proof. apply ks_modify. intros ctx s Hs. split; [|done]. unfold holding in *. si_split Hs. Qed.
Lemma ks_taken f : keeps_source (modify (fun s => with_taken (f s) s)).
Proof. apply ks_modify. intros ctx s Hs. split; [|done]. unfold holding in *. si_split Hs. Qed.

(** A task that is not a dial to finish nor opens a stream *)
Definition plain (t : task) : bool := match t with FinishDial _ _ _ | OpeningStream _ _ _ _ => false | _ => true end.
(** A task that does not open a stream *)
Lemma unopening_inv t tasks s : opening t = None -> (forall q c boot, t = FinishDial q c boot -> PeerConnectedEvent q ∈ es_events s) ->
  source_inv (t :: tasks) s <-> source_inv tasks s.
Proof.
  intros Ht Hin. assert (openings (t :: tasks) = openings tasks) as Eo by (unfold openings; cbn; by rewrite Ht).
  split; intros Hs; si_split Hs; try (by rewrite Hl, Eo); try (eapply owned_tasks; [|exact Hown]; by rewrite Eo).
  - intros q c boot Hq. apply (Hd q c boot). by right.
  - intros q c boot [Hq|Hq]%elem_of_cons; [by apply (Hin q c boot)|by eapply Hd].
Qed.
Lemma plain_opening t : plain t = true -> opening t = None.
Proof. by destruct t. Qed.
Lemma drop_task t tasks s : opening t = None -> source_inv (t :: tasks) s -> source_inv tasks s.
Proof.
  intros Ht Hs. apply (unopening_inv t tasks s Ht); [|done]. intros q c boot ->. apply (si_dials _ _ Hs q c boot). by left.
Qed.
Lemma add_plain t tasks s : plain t = true -> source_inv tasks s -> source_inv (t :: tasks) s.
Proof. intros Ht Hs. apply unopening_inv; [by apply plain_opening| |done]. intros q c boot ->. done. Qed.
Lemma add_plains ts tasks s : Forall (fun t => plain t = true) ts -> source_inv tasks s -> source_inv (ts ++ tasks) s.
Proof. intros Ht Hs. induction Ht as [|t ts Ht _ IH]; [done|]. by apply add_plain. Qed.

Lemma spawn_plain t : plain t = true -> keeps_source (spawn_task t).
Proof.
  intros Ht. apply ks_modify. intros ctx s Hs. split; [|done]. unfold holding in *. fields.
  apply (inv_perm (t :: ctx ++ es_tasks s)); [rewrite app_assoc; apply Permutation_cons_append|].
  assert (source_inv (ctx ++ es_tasks s) (with_tasks (es_tasks s ++ [t]) (es_responses s) s)) as H1 by (clear Ht; si_split Hs).
  by apply add_plain.
Qed.

(** *** Connections *)
Lemma dmem_dset (q x : PeerId) (c : nat) conns : dmem x (dset q c conns) = bool_decide (q = x) || dmem x conns.
Proof.
  unfold dmem. rewrite dget_dset. destruct (decide (x = q)) as [->|Hx]; [by rewrite (bool_decide_true (q = q)), bool_decide_true by (done || by eexists)|].
  by rewrite (bool_decide_false (q = x)) by congruence.
Qed.
Lemma dmem_ddel (q x : PeerId) (conns : dict PeerId nat) : dmem x (ddel q conns) = negb (bool_decide (q = x)) && dmem x conns.
Proof.
  unfold dmem. rewrite dget_ddel. destruct (decide (x = q)) as [->|Hx]; [by rewrite (bool_decide_true (q = q)), bool_decide_false by (done || by intros [? ?])|].
  by rewrite (bool_decide_false (q = x)) by congruence.
Qed.

(** A peer event is recorded with the change of the registries that it reports. *)
Lemma peer_event_inv tasks s e conns closed :
  source_inv tasks s -> is_gossip e = false -> (forall q st, e <> PeerStatusEvent q st) ->
  (forall q, dmem q conns = true -> connected q (es_events s ++ [e]) = true) ->
  (forall q, told = true -> dmem q conns = connected q (es_events s ++ [e])) ->
  source_inv tasks (put e (with_connections conns conns closed s)).
Proof.
  intros Hs Hg' Hne Hconn Htold. si_split Hs.
  - rewrite filter_app, He. rewrite (filter_cons_False _ e []) by congruence. by rewrite filter_nil, app_nil_r.
  - apply status_snoc; [done|]. destruct e; try done. by destruct (Hne peer_id status).
  - intros q c boot Hq. apply elem_of_app. left. by eapply Hd.
Qed.

Lemma register_keeps q c ctx s : holding ctx s -> exists s', register q c s = (Ok tt, s') /\ holding ctx s' /\
  es_events s' = es_events s ++ [PeerConnectedEvent q].
Proof.
  intros Hs. unfold register. rewrite !run_modify. set (s1 := put _ _).
  assert (holding ctx s1) as H1.
  { unfold holding, s1. fields. rewrite (si_client _ _ Hs). apply (peer_event_inv _ s); [exact Hs|done|done|..]; intros x.
    - rewrite connected_snoc, dmem_dset. intros [->|Hx]%orb_true_iff; [done|]. by rewrite (si_connected _ _ Hs x Hx), orb_true_r.
    - intros Ht. rewrite connected_snoc, dmem_dset. f_equal. by apply (si_told _ _ Hs). }
  destruct (spawn_plain (AcceptStreams q c) eq_refl ctx s1 H1) as (a & s2 & E2 & H2 & _). exists s2.
  unfold spawn_task, modify in E2. injection E2 as _ <-. done.
Qed.

Lemma dial_keeps outcome : keeps_source (dial outcome).
Proof. apply ks_bind; [apply ks_stopped|]. intros _. apply ks_bind; [by apply spawn_plain|]. intros _. apply ks_ret. Qed.
Lemma inbound_keeps q c : keeps_source (_handle_inbound_connection q c).
Proof.
  intros ctx s Hs. destruct (register_keeps q c ctx s Hs) as (s1 & E1 & H1 & Ee1). exists tt, s1. split_and!; [done|done|].
  rewrite Ee1. by apply prefix_app_r.
Qed.

Lemma exchange_keeps q answers ctx s : holding ctx s -> PeerConnectedEvent q ∈ es_events s ->
  exists s', _exchange_status q answers s = (Ok tt, s') /\ holding ctx s' /\ es_events s `prefix_of` es_events s'.
Proof.
  intros Hs Hin. unfold _exchange_status. rewrite run_gets. destruct (es_our_status s) as [our|]; [|by exists s]. rewrite run_gets.
  destruct (send_status _ our) as [st|]; [|by exists s]. eexists. split; [done|]. split; [|by apply prefix_app_r].
  unfold holding in *. si_split Hs.
  - intros x. rewrite connected_snoc. apply Hk.
  - intros x. rewrite connected_snoc. apply Hto.
  - rewrite filter_app, He. rewrite filter_cons_False by done. by rewrite filter_nil, app_nil_r.
  - by apply status_snoc.
  - intros x c boot Hx. apply elem_of_app. left. by eapply Hd.
Qed.

(** *** Gossip *)
Lemma handle_message_effect q topic data id s : es_network_name s = name -> es_gossip_handler s = name ->
  catch (_handle_gossipsub_message q topic data) (fun _ => mret tt) s =
  (Ok tt, match gossip_event name (GossipsubMessageEvent q topic data id) with Some e => put e s | None => s end).
Proof.
  intros Hn Hh. unfold catch, _handle_gossipsub_message. unfold catch at 1. rewrite run_gets, Hh. cbn [gossip_event].
  destruct (get_topic name topic) as [t|e] eqn:Et.
  - rewrite run_raising. unfold ssz_as_gossip_error, catch. destruct (gt_kind t).
    + destruct (container_decode data) as [b|e]; [rewrite run_raising; unfold _emit_gossip_block; by rewrite run_gets, Hn|].
      unfold mbind, M_bind, raising. by destruct e.
    + destruct (SignedAttestation_decode data) as [a|e]; [rewrite run_raising; unfold _emit_gossip_attestation; by rewrite run_gets, Hn|].
      unfold mbind, M_bind, raising. by destruct e.
    + destruct (container_decode data) as [a|e]; [rewrite run_raising; unfold _emit_gossip_aggregated_attestation; by rewrite run_gets, Hn|].
      unfold mbind, M_bind, raising. by destruct e.
  - unfold mbind, M_bind, raising. by destruct e.
Qed.

Lemma gossip_event_is_gossip e ev : gossip_event name e = Some ev -> is_gossip ev = true.
Proof.
  destruct e as [q topic data id|]; [|done]. cbn [gossip_event]. destruct (get_topic name topic) as [t|]; [|done]. cbn zeta.
  destruct (gt_kind t); [destruct (container_decode data)|destruct (SignedAttestation_decode data)|destruct (container_decode data)];
    intros E; try discriminate; by injection E as <-.
Qed.

(** The forwarding of the event at the head of the queue *)
Lemma forward_turn_effect e s : es_network_name s = name -> es_gossip_handler s = name -> es_stopped s = false -> gs_stopped (es_gossipsub s) = false ->
  gs_event_queue (es_gossipsub s) !! es_forwarded s = Some e ->
  forward_turn s = (Ok true, let s1 := with_forwarded (S (es_forwarded s)) s in match gossip_event name e with Some ev => put ev s1 | None => s1 end).
Proof.
  intros Hn Hh Hs Hgs Ee. unfold forward_turn. rewrite run_gets, Hs, run_gets, Hgs, run_gets, Ee, run_modify.
  destruct e as [q topic data id|q topic b]; [|done].
  rewrite (run_bind _ _ _ _ _ (handle_message_effect q topic data id (with_forwarded (S (es_forwarded s)) s) Hn Hh)). done.
Qed.

Lemma forward_keeps : keeps_source forward_turn.
Proof.
  intros ctx s Hs. destruct (es_stopped s) eqn:E1; [exists false, s; split_and!; [unfold forward_turn; by rewrite run_gets, E1|done|done]|].
  destruct (gs_stopped (es_gossipsub s)) eqn:E2;
    [exists false, s; split_and!; [unfold forward_turn; by rewrite run_gets, E1, run_gets, E2|done|done]|].
  destruct (gs_event_queue (es_gossipsub s) !! es_forwarded s) as [e|] eqn:E3;
    [|exists true, s; split_and!; [unfold forward_turn; by rewrite run_gets, E1, run_gets, E2, run_gets, E3|done|done]].
  exists true. eexists. split; [by apply forward_turn_effect; [apply (si_name _ _ Hs)|apply (si_handler _ _ Hs)|..]|]. cbn zeta.
  pose proof (lookup_lt_Some _ _ _ E3) as Hlt. pose proof (take_S_r _ _ _ E3) as Et.
  assert (omap (gossip_event name) (take (S (es_forwarded s)) (gs_event_queue (es_gossipsub s))) =
    filter (fun e => is_gossip e = true) (es_events s) ++ match gossip_event name e with Some ev => [ev] | None => [] end) as Ho.
  { rewrite Et, omap_app, (si_gossip_events _ _ Hs). cbn. by destruct (gossip_event name e). }
  destruct (gossip_event name e) as [ev|] eqn:Eg.
  - pose proof (gossip_event_is_gossip e ev Eg) as Hg'. split; [|by apply prefix_app_r]. unfold holding in *. si_split Hs.
    + intros x. rewrite connected_snoc. destruct ev; try done; apply Hk.
    + intros x. rewrite connected_snoc. destruct ev; try done; apply Hto.
    + rewrite filter_app, filter_cons_True by done. by rewrite Ho.
    + apply status_snoc; [done|]. by destruct ev.
    + intros x c boot Hx. apply elem_of_app. left. by eapply Hd.
  - split; [|done]. unfold holding in *. si_split Hs. rewrite Ho. by rewrite app_nil_r.
Qed.

(** *** Streams *)
Lemma start_keeps : keeps_source start_gossipsub.
Proof. apply ks_bind; [apply (ks_gossip_unit Start I)|]. intros _. by apply spawn_plain. Qed.

(** What a dial returns to: tasks that open no stream *)
Lemma serve_boot_keeps boot ctx s : holding ctx s ->
  exists rest s', serve_boot boot s = (Ok rest, s') /\ holding ctx s' /\ es_events s `prefix_of` es_events s' /\ Forall (fun t => plain t = true) rest.
Proof.
  intros Hs. destruct boot as [[|outcome bootnodes] [bound|]]; cbn [serve_boot].
  - destruct (ks_stopped false ctx s Hs) as ([] & s1 & E1 & H1 & P1). rewrite (run_bind _ _ _ _ _ E1). eexists _, s1. split; [reflexivity|]. split; [done|]. split; [done|]. by repeat constructor.
  - destruct (start_keeps ctx s Hs) as ([] & s1 & E1 & H1 & P1). rewrite (run_bind _ _ _ _ _ E1). eexists _, s1. split; [reflexivity|]. split; [done|]. split; [done|]. by repeat constructor.
  - destruct (ks_stopped false ctx s Hs) as ([] & s1 & E1 & H1 & P1). rewrite (run_bind _ _ _ _ _ E1). eexists _, s1. split; [reflexivity|]. split; [done|]. split; [done|]. by repeat constructor.
  - destruct (ks_stopped false ctx s Hs) as ([] & s1 & E1 & H1 & P1). rewrite (run_bind _ _ _ _ _ E1). eexists _, s1. split; [reflexivity|]. split; [done|]. split; [done|]. by repeat constructor.
Qed.
Lemma resume_keeps k ctx s : holding ctx s ->
  exists rest s', resume k s = (Ok rest, s') /\ holding (rest ++ ctx) s'.
Proof.
  intros Hs. destruct k as [|[boot|]]; cbn [resume]; [by exists [], s| |by exists [], s].
  destruct (serve_boot_keeps boot ctx s Hs) as (rest & s1 & E1 & H1 & _ & Hp1). exists rest, s1. split; [done|].
  unfold holding. rewrite <- app_assoc. by apply add_plains.
Qed.

(** A peer that has no lock gets a new one. *)
Lemma new_lock_owned tasks s q : dget q (es_locks s) = None -> locks_owned d tasks s ->
  locks_owned d tasks (with_locks (dset q (es_next_lock s) (es_locks s)) (es_held s) (S (es_next_lock s)) s).
Proof.
  intros Eq (owners & Hlen & Hl & Ho & Hc). exists (owners ++ [q]). fields. split_and!.
  - rewrite length_app. cbn. lia.
  - intros x l. rewrite dget_dset. destruct (decide (x = q)) as [->|Hx].
    + intros [= <-]. by rewrite lookup_app_r, Hlen, Nat.sub_diag by lia.
    + intros Hx'. apply lookup_app_l_Some. by apply Hl.
  - intros x l Hx. apply lookup_app_l_Some. by apply Ho.
  - intros x. specialize (Hc x). unfold count_owned in *. rewrite filter_app, length_app, filter_cons, filter_nil, dmem_dset. cbn.
    destruct (decide (q = x)) as [<-|Hx]; cbn.
    + unfold dmem in Hc. rewrite Eq in Hc. rewrite bool_decide_eq_false_2 in Hc by (by intros [? ?]). rewrite bool_decide_eq_true_2 by done. cbn. lia.
    + rewrite bool_decide_eq_false_2 by done. cbn. lia.
Qed.

Lemma setup_begin_keeps q c k ctx s : holding ctx s ->
  exists rest s', setup_begin q c k s = (Ok rest, s') /\ holding (rest ++ ctx) s'.
Proof.
  intros Hs. unfold setup_begin. rewrite run_modify. set (s1 := match dget q (es_locks s) with Some _ => s | None => _ end).
  assert (holding ctx s1 /\ exists l, dget q (es_locks s1) = Some l) as (H1 & [l El]).
  { subst s1. destruct (dget q (es_locks s)) as [l|] eqn:E; [split; [done|by exists l]|]. split; [|exists (es_next_lock s); apply dget_dset_eq].
    unfold holding in *. fields. pose proof (new_lock_owned _ s q E (si_owned _ _ Hs)) as Hnew. si_split Hs. }
  clearbody s1. rewrite run_gets, El. change (default 0%nat (Some l)) with l. rewrite run_gets. cbn beta. destruct (bool_decide_reflect (l ∈ es_held s1)) as [Hin|Hin].
  { exists [SetupStream q c k], s1. split; [done|]. by apply add_plain. }
  rewrite run_gets. destruct (match dget q (gs_peers (es_gossipsub s1)) with Some _ => _ | None => _ end); [by apply resume_keeps|].
  rewrite run_modify. eexists _, _. split; [done|]. unfold holding in *. si_split H1.
  - intros x cx boot [Hx|Hx]%elem_of_cons; [done|]. by eapply Hd.
  - unfold openings. cbn. by rewrite Hl.
  - by constructor.
  - destruct Hown as (owners & O1 & O2 & O3 & O4). exists owners. split_and!; try done. intros x l' [[= -> ->]|Hx]%elem_of_cons; [by apply O2|by apply O3].
Qed.

Lemma remove_lock (l : nat) held : NoDup (l :: held) -> filter (fun x => x <> l) (l :: held) = held.
Proof.
  intros Hn. inversion Hn as [|x y Hl Hn']; subst. rewrite filter_cons_False by (by intros ?). clear Hn Hn'.
  induction held as [|x held IH]; [done|]. apply not_elem_of_cons in Hl as [Hx Hl]. rewrite filter_cons_True by congruence. by rewrite IH.
Qed.

Lemma setup_finish_keeps q c l k opened ctx s : holding (OpeningStream q c l k :: ctx) s ->
  exists s', setup_finish q l opened s = (Ok tt, s') /\ holding ctx s'.
Proof.
  intros Hs. unfold setup_finish.
  assert (exists s1, catch (_ ← raising opened; on_gossipsub (Gossipsub.add_peer q false)) (fun _ => mret tt) s = (Ok tt, s1) /\
    holding (OpeningStream q c l k :: ctx) s1) as (s1 & E1 & H1).
  { destruct opened as [[]|e]; [|by exists s]. destruct (ks_catch _ (fun _ => mret tt) (ks_gossip_unit (AddPeer q false) I) _ s Hs) as ([] & s1 & E1 & H1 & _).
    exists s1. split; [|done]. rewrite <- E1. reflexivity. }
  rewrite (run_bind _ _ _ _ _ E1). eexists. split; [done|]. unfold holding in *. si_split H1.
  - intros x cx boot Hx. apply (Hd x cx boot). by right.
  - assert (es_held s1 ≡ₚ l :: (openings (ctx ++ es_tasks s1)).*2) as Hl' by exact Hl.
    assert (NoDup (l :: (openings (ctx ++ es_tasks s1)).*2)) as Hn' by (by rewrite <- Hl').
    rewrite Hl'. by rewrite (remove_lock l _ Hn').
  - by apply NoDup_filter.
  - destruct Hown as (owners & O1 & O2 & O3 & O4). exists owners. split_and!; try done. intros x l' Hx. apply O3. by right.
Qed.

Lemma gossip_inbound_keeps q c wrapper : keeps_source (_handle_gossipsub_inbound_stream q c wrapper).
Proof.
  apply ks_bind; [apply ks_gets|]. intros ps. apply ks_bind; [apply (ks_gossip_unit (AddPeer q true) I)|]. intros _.
  apply ks_bind; [destruct (match ps with Some _ => _ | None => _ end); [apply ks_ret|by apply spawn_plain]|]. intros _. by apply spawn_plain.
Qed.
Lemma accept_keeps q c accepted closing : keeps_source (accept_turn q c accepted closing).
Proof.
  apply ks_bind; [apply ks_gets|]. intros running. destruct (negb running); [apply ks_ret|]. destruct accepted as [chunks|]; [|apply ks_ret].
  destruct (_negotiate_inbound_stream chunks) as [[protocol wrapper]|]; [|apply ks_ret].
  destruct (bool_decide (protocol ∈ [_; _])); [apply ks_bind; [apply gossip_inbound_keeps|intros _; apply ks_ret]|].
  destruct (bool_decide _); [|apply ks_ret]. apply ks_bind; [by apply spawn_plain|intros _; apply ks_ret].
Qed.
Lemma serve_keeps protocol wrapper : keeps_source (serve_request protocol wrapper).
Proof.
  apply ks_bind; [apply ks_gets|]. intros h. apply ks_modify. intros ctx s Hs. split; [|done]. unfold holding in *. fields. si_split Hs.
Qed.

Lemma read_Ok n wrapper : exists data wrapper', Multistream.read n wrapper = (Ok data, wrapper').
Proof.
  unfold Multistream.read. rewrite run_gets. destruct (negb _); [by do 2 eexists|]. unfold next_chunk, mbind at 1, M_bind at 1.
  destruct (stream_read (qa_incoming wrapper)) as [chunk rest]. destruct (_ =? 0); [by do 2 eexists|]. destruct (_ >? _); by do 2 eexists.
Qed.
Lemma receive_keeps q buffer wrapper ctx s : holding ctx s ->
  exists rest s', receive_turn q buffer wrapper s = (Ok rest, s') /\ holding ctx s' /\ (rest = [] \/ exists b w, rest = [ReceiveLoop q b w]).
Proof.
  intros Hs. unfold receive_turn. destruct (read_Ok 65536 wrapper) as (chunk & wrapper' & ->). rewrite run_raising.
  destruct (ks_gossip (Receive q buffer chunk) (receive_chunk q buffer chunk) I eq_refl ctx s Hs) as (next & s1 & E1 & H1 & _).
  rewrite (run_bind _ _ _ _ _ E1). eexists _, s1. split; [done|]. split; [done|]. destruct next; [right; by do 2 eexists|by left].
Qed.

Lemma task_step_keeps t a ctx s : holding (t :: ctx) s -> exists rest s', task_step t a s = (Ok rest, s') /\ holding (rest ++ ctx) s'.
Proof.
  intros Hs. destruct t as [q c| |outcome boot|q c boot|q c k|q c l k|bound|q buffer wrapper|protocol wrapper]; cbn [task_step].
  - destruct (accept_keeps q c (an_accepted a) (an_closing a) _ s Hs) as (b & s1 & E1 & H1 & _). rewrite (run_bind _ _ _ _ _ E1). eexists _, s1. split; [done|].
    destruct b; [exact H1|by eapply drop_task; [|exact H1]].
  - destruct (forward_keeps _ s Hs) as (b & s1 & E1 & H1 & _). rewrite (run_bind _ _ _ _ _ E1). eexists _, s1. split; [done|].
    destruct b; [exact H1|by eapply drop_task; [|exact H1]].
  - apply drop_task in Hs; [|done]. destruct outcome as [[q c]|e]; [|by apply resume_keeps].
    destruct (register_keeps q c _ s Hs) as (s1 & E1 & H1 & Ee). rewrite (run_bind _ _ _ _ _ E1). eexists _, s1. split; [done|].
    apply unopening_inv; [done| |done]. intros x cx bx [= <- <- <-]. rewrite Ee. apply elem_of_app. right. by left.
  - destruct (exchange_keeps q (an_status a) _ s Hs) as (s1 & E1 & H1 & _); [apply (si_dials _ _ Hs q c boot); by left|].
    rewrite (run_bind _ _ _ _ _ E1). eexists _, s1. split; [done|]. apply add_plain; [done|]. by eapply drop_task; [|exact H1].
  - apply drop_task in Hs; [|done]. by apply setup_begin_keeps.
  - destruct (setup_finish_keeps q c l k (an_opened a) ctx s Hs) as (s1 & E1 & H1). rewrite (run_bind _ _ _ _ _ E1). by apply resume_keeps.
  - apply drop_task in Hs; [|done]. destruct bound as [u|e]; [|by exists [], s].
    destruct (start_keeps ctx s Hs) as ([] & s1 & E1 & H1 & _). rewrite (run_bind _ _ _ _ _ E1). by exists [], s1.
  - destruct (receive_keeps q buffer wrapper _ s Hs) as (rest & s1 & E1 & H1 & Hr). exists rest, s1. split; [done|].
    apply drop_task in H1; [|done]. destruct Hr as [->|(b & w & ->)]; [exact H1|by apply add_plain].
  - destruct (serve_keeps protocol wrapper _ s Hs) as ([] & s1 & E1 & H1 & _). rewrite (run_bind _ _ _ _ _ E1). exists [], s1. split; [done|].
    by eapply drop_task; [|exact H1].
Qed.

Lemma run_task_keeps i a s : source_inv (es_tasks s) s -> exists s', run_task i a s = (Ok tt, s') /\ source_inv (es_tasks s') s'.
Proof.
  intros Hs. unfold run_task. rewrite run_gets. destruct (es_tasks s !! i) as [t|] eqn:Ei; [|by exists s]. rewrite run_gets, run_modify.
  assert (holding (t :: take i (es_tasks s) ++ drop (S i) (es_tasks s)) (with_tasks [] (es_responses s) s)) as H1.
  { unfold holding. fields. rewrite app_nil_r. apply (inv_perm (es_tasks s)); [|si_split Hs]. rewrite <- (take_drop_middle _ _ _ Ei) at 1. by rewrite Permutation_middle. }
  destruct (task_step_keeps t a _ _ H1) as (rest & s2 & E2 & H2). rewrite (run_bind _ _ _ _ _ E2). eexists. split; [done|]. fields.
  unfold holding in H2. apply (inv_perm ((rest ++ take i (es_tasks s) ++ drop (S i) (es_tasks s)) ++ es_tasks s2)); [|si_split H2].
  cbn [fst snd]. rewrite !app_assoc. do 2 apply Permutation_app_tail. apply Permutation_app_comm.
Qed.

(** *** Operations *)
Definition keeps_inv (m : M LiveNetworkEventSource unit) : Prop :=
  forall s, source_inv (es_tasks s) s -> exists s', m s = (Ok tt, s') /\ source_inv (es_tasks s') s'.
Lemma ki_keeps (m : M LiveNetworkEventSource unit) : keeps_source m -> keeps_inv m.
Proof. intros Hm s Hs. destruct (Hm [] s Hs) as ([] & s' & E & H1 & _). by exists s'. Qed.

Lemma serving_keeps status slot bootnodes listening : keeps_inv (start_serving status slot bootnodes listening).
Proof.
  apply ki_keeps, ks_bind; [apply ks_handler|]. intros _. apply ks_bind; [apply ks_handler|]. intros _.
  apply ks_bind; [apply ks_stopped|]. intros _ ctx s Hs.
  destruct (serve_boot_keeps (bootnodes, listening) ctx s Hs) as (rest & s1 & E1 & H1 & P1 & Hr). rewrite (run_bind _ _ _ _ _ E1).
  assert (keeps_source (for_each rest spawn_task)) as Hf.
  { clear -Hr. induction Hr as [|t rest Ht _ IH]; [apply ks_ret|]. apply ks_bind; [by apply spawn_plain|]. by intros _. }
  destruct (Hf ctx s1 H1) as ([] & s2 & E2 & H2 & P2). exists tt, s2. split_and!; [done|done|by etrans].
Qed.

Lemma next_keeps : keeps_inv (catch (_ ← anext; mret tt) (fun _ => mret tt)).
Proof.
  intros s Hs. unfold anext, catch, mbind at 1, M_bind at 1. rewrite run_gets. destruct (es_stopped s); [by exists s|]. rewrite run_gets.
  destruct (es_events s !! es_taken s); [|by exists s]. rewrite run_modify. eexists. split; [done|]. si_split Hs.
Qed.

Lemma stop_split tasks :
  tasks ≡ₚ filter (fun t => cancelled_by_stop t = true) tasks ++ filter (fun t => cancelled_by_stop t = false) tasks.
Proof.
  induction tasks as [|t tasks IH]; [done|]. rewrite !filter_cons.
  destruct (cancelled_by_stop t); [rewrite decide_True, decide_False by done|rewrite decide_False, decide_True by done; rewrite <- Permutation_middle];
    by apply Permutation_cons.
Qed.
Lemma openings_split tasks :
  openings tasks ≡ₚ openings (filter (fun t => cancelled_by_stop t = true) tasks) ++ openings (filter (fun t => cancelled_by_stop t = false) tasks).
Proof. unfold openings. rewrite <- omap_app. by rewrite <- stop_split. Qed.
Lemma cancelled_locks (held cancelled kept : list nat) : held ≡ₚ cancelled ++ kept -> NoDup held -> filter (fun l => l ∉ cancelled) held ≡ₚ kept.
Proof.
  intros Hperm Hn. rewrite Hperm in Hn. rewrite Hperm, filter_app. apply NoDup_app in Hn as (_ & Hd & _).
  assert (filter (fun l => l ∉ cancelled) cancelled = []) as ->.
  { destruct (filter _ cancelled) as [|l f] eqn:E; [done|]. assert (l ∈ filter (fun l => l ∉ cancelled) cancelled) as [Hl1 Hl2]%list_elem_of_filter
      by (rewrite E; by left). done. }
  assert (filter (fun l => l ∉ cancelled) kept = kept) as ->; [|done].
  clear -Hd. induction kept as [|l kept IH]; [done|]. rewrite filter_cons, decide_True.
  - f_equal. apply IH. intros x Hx Hin. apply (Hd x Hx). by right.
  - intros Hc. apply (Hd l Hc). by left.
Qed.

Lemma stop_keeps : keeps_inv stop_source.
Proof.
  intros s Hs. unfold stop_source. rewrite run_modify, run_gets, !run_modify. set (s1 := with_locks _ _ _ _).
  assert (holding [] s1) as H1.
  { unfold holding, s1. fields. pose proof (openings_split (es_tasks s)) as Ho. si_split Hs.
    - intros q c boot [_ Hq]%list_elem_of_filter. by eapply Hd.
    - apply cancelled_locks; [|done]. by rewrite Hl, Ho, fmap_app.
    - by apply NoDup_filter.
    - apply (owned_tasks (es_tasks s)); [|done]. intros o Hin. rewrite Ho. apply elem_of_app. by right. }
  destruct (ks_gossip_unit Stop I [] s1 H1) as ([] & s2 & E2 & H2 & _). by exists s2.
Qed.

Lemma source_step_keeps op : source_op_ok op -> (forall q, disconnects q op = false) -> keeps_inv (source_step op).
Proof.
  intros Ho Hdis. destruct op; cbn [source_step source_op_ok] in *.
  - apply ki_keeps, ks_bind; [apply dial_keeps|]. intros _. apply ks_ret.
  - intros s Hs. destruct (ks_stopped false [] s Hs) as ([] & s1 & E1 & H1 & _). exists s1. split; [|done]. unfold modify in E1. injection E1 as <-.
    by destruct bound as [[]|].
  - apply ki_keeps, inbound_keeps.
  - apply ki_keeps, ks_handler.
  - by apply ki_keeps, (ks_gossip_unit (Subscribe topic)).
  - apply ki_keeps, start_keeps.
  - apply serving_keeps.
  - intros s Hs. by apply run_task_keeps.
  - apply next_keeps.
  - apply ki_keeps, ks_bind; [apply ks_gets|]. intros conns. destruct (_ =? 0); [apply ks_ret|].
    by apply ks_catch, (ks_gossip_unit (Publish topic data)).
  - apply ki_keeps, (ks_gossip_unit Heartbeat I).
  - apply ki_keeps, (ks_gossip_unit RunTask I).
  - specialize (Hdis peer). cbn in Hdis. by rewrite bool_decide_eq_true_2 in Hdis.
  - apply stop_keeps.
Qed.
End Histories.

(** *** Disconnections *)
Section Disconnections.
Context `{Environment} `{SetOrder} (p : GossipsubParameters) (Hp : params_ok p) (name : bytes) (told : bool).
Abbreviation inv := (source_inv p name told).

Lemma ddel_absent (q : PeerId) (conns : dict PeerId nat) : dget q conns = None -> ddel q conns = conns.
Proof.
  intros Ec%dget_None. induction conns as [|[k v] conns IH]; [done|]. unfold ddel in *. cbn in Ec.
  apply not_elem_of_cons in Ec as [Hk Ec]. rewrite filter_cons_True by (cbn; congruence). by rewrite IH.
Qed.
Lemma drop_lock_owned d d' q tasks s s' :
  es_locks s' = ddel q (es_locks s) -> es_next_lock s' = es_next_lock s -> (forall x, d' x = (d x + if bool_decide (q = x) then 1 else 0)%nat) ->
  locks_owned d tasks s -> locks_owned d' tasks s'.
Proof.
  intros El En Hd' (owners & O1 & O2 & O3 & O4). exists owners. rewrite El, En. split_and!; [done| |done|].
  - intros x l. rewrite dget_ddel. destruct (decide (x = q)); [done|apply O2].
  - intros x. specialize (O4 x). rewrite dmem_ddel, Hd'. destruct (bool_decide (q = x)), (dmem x (es_locks s)); cbn in *; lia.
Qed.

(** The registries lose the peer; it is reported gone unless the close raises. *)
Lemma disconnect_result q closing s : (disconnect q closing s).1 = if dmem q (es_connections s) then closing else Ok tt.
Proof.
  unfold disconnect, dmem. rewrite run_gets, !run_modify. destruct (dget q (es_connections s)) as [c|].
  - rewrite bool_decide_eq_true_2 by (by eexists). rewrite run_modify. by destruct closing as [[]|e].
  - by rewrite bool_decide_eq_false_2 by (by intros [? ?]).
Qed.

Ltac updated := cbn [es_gossipsub es_client es_connections es_network_name es_gossip_handler es_events es_forwarded es_tasks es_held es_locks
  es_next_lock es_responses es_stopped put with_connections with_locks fst snd modify mret M_ret raising].
Lemma disconnect_keeps d d' q closing s : (told = true -> closing = Ok tt) ->
  (forall x, d' x = (d x + if bool_decide (q = x) then 1 else 0)%nat) ->
  inv d (es_tasks s) s -> inv d' (es_tasks (disconnect q closing s).2) (disconnect q closing s).2.
Proof.
  intros Hclose Hd' [Hg Hc Hn Hh Hk Hto Hf He Hst Hdl Hl Hnd Hown]. unfold disconnect. rewrite run_gets, !run_modify.
  destruct (dget q (es_connections s)) as [c|] eqn:Ec.
  - rewrite run_modify. assert (forall x, dmem x (ddel q (es_connections s)) = true -> bool_decide (q = x) = false /\ connected x (es_events s) = true) as Hx.
    { intros x. rewrite dmem_ddel. intros [Hne Hx]%andb_true_iff. split; [by apply negb_true_iff|by apply Hk]. }
    destruct closing as [[]|e].
    + rewrite run_raising. split; updated; try done.
      * by rewrite Hc.
      * intros x [Hne Hx']%Hx. rewrite connected_snoc. by rewrite Hne, Hx'.
      * intros x Ht. rewrite connected_snoc, dmem_ddel. f_equal. by apply Hto.
      * rewrite filter_app, He. rewrite filter_cons_False by done. by rewrite filter_nil, app_nil_r.
      * by apply status_snoc.
      * intros x cx boot Hin. apply elem_of_app. left. by eapply Hdl.
      * by apply (drop_lock_owned d d' q _ s).
    + split; updated; try done.
      * by rewrite Hc.
      * intros x Hx'. by apply Hx.
      * intros x Ht. by specialize (Hclose Ht).
      * by apply (drop_lock_owned d d' q _ s).
  - rewrite (ddel_absent _ _ Ec). split; updated; try done. by apply (drop_lock_owned d d' q _ s).
Qed.

Lemma locks_owned_mono d d' tasks s : (forall q, (d q <= d' q)%nat) -> inv d tasks s -> inv d' tasks s.
Proof.
  intros Hle [Hg Hc Hn Hh Hk Hto Hf He Hst Hdl Hl Hnd (owners & O1 & O2 & O3 & O4)]. split; try done.
  exists owners. split_and!; try done. intros q. specialize (O4 q). specialize (Hle q). lia.
Qed.

Lemma source_run_keeps ops : forall d s, Forall source_op_ok ops -> (told = true -> existsb failed_close ops = false) ->
  inv d (es_tasks s) s ->
  exists s', for_each ops source_step s = (Ok tt, s') /\ inv (fun q => (d q + disconnections q ops)%nat) (es_tasks s') s'.
Proof.
  induction ops as [|op ops IH]; intros d s Ho Ht Hs.
  - exists s. split; [done|]. eapply locks_owned_mono; [|exact Hs]. intros q. cbn. lia.
  - apply Forall_cons in Ho as [Ho Hops]. cbn [existsb] in Ht.
    assert (told = true -> failed_close op = false /\ existsb failed_close ops = false) as Ht' by (intros Hb; by apply orb_false_iff, Ht).
    assert (exists s1, source_step op s = (Ok tt, s1) /\ inv (fun q => (d q + disconnections q [op])%nat) (es_tasks s1) s1) as (s1 & E1 & Hs1).
    { assert ((exists peer closing, op = OpDisconnect peer closing) \/ forall q, disconnects q op = false) as [(peer & closing & ->)|Hdis]
        by (destruct op; try (by right); left; by eexists _, _).
      - exists (disconnect peer closing s).2. cbn [source_step]. split.
        + unfold catch. by destruct (disconnect peer closing s) as [[[]|e] s1].
        + apply (disconnect_keeps d); [|intros q|done].
          * intros Hb. destruct (Ht' Hb) as [Hc _]. by destruct closing as [[]|e].
          * unfold disconnections. rewrite filter_cons, filter_nil. cbn [disconnects]. by destruct (bool_decide (peer = q)).
      - destruct (source_step_keeps p Hp name told d op Ho Hdis s Hs) as (s1 & E1 & Hs1). exists s1. split; [done|].
        eapply locks_owned_mono; [|exact Hs1]. intros q. lia. }
    cbn [for_each]. rewrite (run_bind _ _ _ _ _ E1).
    destruct (IH _ s1 Hops (fun Hb => proj2 (Ht' Hb)) Hs1) as (s2 & E2 & Hs2). exists s2. split; [done|].
    eapply locks_owned_mono; [|exact Hs2]. intros q. unfold disconnections. rewrite (filter_cons _ op ops), (filter_cons _ op []), filter_nil.
    case_decide; cbn; lia.
Qed.

Lemma new_source_inv : inv (fun _ => 0%nat) [] (with_name name (new_source p)).
Proof.
  split; cbn; try done; try (by constructor).
  - by exists [].
  - intros before q st after E. by destruct before.
  - by intros q c boot ?%not_elem_of_nil.
  - exists []. split_and!; try done. by intros q l ?%not_elem_of_nil.
Qed.

Lemma openings_bounded d tasks s q : inv d tasks s -> (openings_to q tasks <= S (d q))%nat.
Proof.
  intros Hs. destruct (si_owned _ _ _ _ _ _ Hs) as (owners & _ & _ & Ho & Hc). specialize (Hc q).
  assert (NoDup (openings tasks).*2) as Hn by (rewrite <- (si_held _ _ _ _ _ _ Hs); apply (si_distinct _ _ _ _ _ _ Hs)).
  unfold openings_to. rewrite <- (length_fmap snd).
  assert (length (filter (fun o => o.1 = q) (openings tasks)).*2 <= count_owned q owners)%nat as Hle; [|lia].
  apply owned_bound.
  - eapply sublist_NoDup; [exact Hn|]. apply fmap_sublist, sublist_filter.
  - apply Forall_fmap, Forall_forall. intros [x l] [Hx Hin]%list_elem_of_filter. cbn in *. subst x. by apply Ho.
Qed.
End Disconnections.

(** C15: however dials, connections, streams, gossip, disconnections and shutdown interleave,
    no task of the event source raises, and what it tells the node is right.  The registries
    of the source and of the request client agree; a registered peer was last reported
    connected, and when no close of a connection has failed a peer is registered exactly
    when it was last reported connected (a disconnection whose close raises passes the
    exception on and is not reported); a status is only reported of a peer that was reported
    before; the gossip events are those of the messages that gossipsub delivered, in order,
    once each, for our network and decoded, a message that is not being dropped alone; and
    at most one task opens a gossip stream to a peer, and one more after each time that the
    peer was disconnected. *)
Theorem event_source_invariant `{Environment} `{SetOrder} (p : GossipsubParameters) (name : bytes) (ops : list source_op) :
  params_ok p -> Forall source_op_ok ops ->
  exists s, for_each ops source_step (with_name name (new_source p)) = (Ok tt, s) /\
    es_client s = es_connections s /\
    (forall q, dmem q (es_connections s) = true -> connected q (es_events s) = true) /\
    (existsb failed_close ops = false -> forall q, dmem q (es_connections s) = connected q (es_events s)) /\
    (forall q closing, (disconnect q closing s).1 = if dmem q (es_connections s) then closing else Ok tt) /\
    status_after_connect (es_events s) /\
    filter (fun e => is_gossip e = true) (es_events s) = omap (gossip_event name) (take (es_forwarded s) (gs_event_queue (es_gossipsub s))) /\
    forall q, (openings_to q (es_tasks s) <= 1 + disconnections q ops)%nat.
Proof.
  intros Hp Ho. set (told := negb (existsb failed_close ops)).
  destruct (source_run_keeps p Hp name told ops (fun _ => 0%nat) (with_name name (new_source p)) Ho) as (s & E & Hs).
  { intros Hb. by apply negb_true_iff in Hb. }
  { apply new_source_inv. }
  exists s. split_and!; [done|apply Hs|apply Hs| |intros q closing; apply disconnect_result|apply Hs|apply Hs|].
  - intros Hb q. apply (si_told _ _ _ _ _ _ Hs). unfold told. by rewrite Hb.
  - intros q. by apply (openings_bounded _ _ _ _ _ _ q) in Hs.
Qed.

(** ** A node that dials a peer *)
Section Sample.
#[local] Existing Instance still.
#[local] Existing Instance insertion_order.

Definition zero_checkpoint : Checkpoint := {| cp_root := ZERO_HASH; cp_slot := 0 |}.
Definition sample_own_status : Status := {| ss_finalized := zero_checkpoint; ss_head := zero_checkpoint |}.
(** The peer answers the status with its own and opens a gossip stream, on which it joins a topic. *)
Definition status_answer : connection := fun _ _ =>
  match container_encode sample_own_status with
  | Ok ssz => match response_encode SUCCESS ssz with Ok response => Ok [response] | Err e => Err e end
  | Err e => Err e
  end.
Definition joining (topic : TopicId) : bytes :=
  match frame {| rpc_subscriptions := [{| so_subscribe := true; so_topic_id := topic |}]; rpc_publish := [];
                 rpc_control := Some {| cm_ihave := []; cm_iwant := []; cm_graft := [{| cg_topic_id := topic |}]; cm_prune := []; cm_idontwant := [] |} |}
  with Ok data => data | Err _ => [] end.
Definition hello (message : bytes) : bytes := qa_written (_write_negotiation_message message (new_adapter [])).2.
Definition peer_answers (topic : TopicId) : answers := {|
  an_status := (status_answer, status_answer); an_opened := Ok tt;
  an_accepted := Ok [hello MULTISTREAM_PROTOCOL_ID ++ hello GOSSIPSUB_PROTOCOL_ID_V12 ++ joining topic]; an_closing := Ok tt |}.
(** Task 0 connects and exchanges the status, and task 1 accepts the stream of the peer; of
    the two that then set up the outgoing stream, the dial waits for the lock that 3 holds,
    and finds the stream open, so that gossipsub starts.  Task 1 reads what the peer sent,
    and task 2 forwards the event of its subscription. *)
Definition dial_ops (peer : PeerId) (topic : TopicId) : list source_op :=
  [OpSubscribe topic; OpServe sample_own_status 1 [Ok (peer, 7%nat)] None] ++
  ((fun i => OpRun i (peer_answers topic)) <$> [0; 0; 1; 3; 0; 3; 0; 1; 2; 2]%nat) ++ [OpNext; OpNext].
Definition source_at (peer : PeerId) (topic : TopicId) (name : bytes) : LiveNetworkEventSource :=
  (for_each (dial_ops peer topic) source_step (with_name name (new_source default_parameters))).2.

Lemma event_source_invariant_witness : exists s,
  for_each (dial_ops peer_b topic_a) source_step (with_name [Byte.x30] (new_source default_parameters)) = (Ok tt, s) /\
  dmem peer_b (es_connections s) = connected peer_b (es_events s) /\ status_after_connect (es_events s) /\
  es_events s = [PeerConnectedEvent peer_b; PeerStatusEvent peer_b sample_own_status] /\ get_mesh_peers topic_a (gs_mesh (es_gossipsub s)) = [peer_b].
Proof.
  destruct (event_source_invariant default_parameters [Byte.x30] (dial_ops peer_b topic_a)) as (s & E & _ & _ & Hc & _ & Hst & _).
  { apply default_parameters_ok. }
  { repeat constructor. }
  exists s. split; [exact E|]. split; [apply Hc; reflexivity|]. split; [exact Hst|]. vm_compute in E. injection E as <-. split; reflexivity.
Defined.

(** Where the close of the connection raises, the peer is gone and the node is not told. *)
Example failed_close_hides_disconnection :
  let '(outcome, s) := disconnect peer_b (Err AssertionError) (source_at peer_b topic_a [Byte.x30]) in
  outcome = Err AssertionError /\ es_connections s = [] /\ connected peer_b (es_events s) = true.
Proof. vm_compute. repeat split. Qed.
End Sample.

(** * From one node to another

    The network service of one node, its event source and gossipsub on one side, gossipsub,
    the event source and the network service of another node on the other: what the first
    publishes, the second hands to its sync service. *)

(** The message that carries a block *)
Definition block_message (name : bytes) (block : SignedBlock) : result Message :=
  ssz_bytes ← container_encode block;
  compressed ← Snappy.compress ssz_bytes;
  topic_id ← to_topic_id (GossipTopic.block name);
  Ok (topic_message topic_id compressed).

Section Nodes.
Context `{Environment} `{SetOrder}.

(** States that an event source of the network [name] can be in *)
Definition source_reachable (p : GossipsubParameters) (name : bytes) (s : LiveNetworkEventSource) : Prop :=
  exists ops, Forall source_op_ok ops /\ for_each ops source_step (with_name name (new_source p)) = (Ok tt, s).

Lemma source_reachable_inv p name s : params_ok p -> source_reachable p name s -> exists d, source_inv p name false d (es_tasks s) s.
Proof.
  intros Hp (ops & Ho & E). destruct (source_run_keeps p Hp name false ops (fun _ => 0%nat) (with_name name (new_source p)) Ho) as (s' & E' & Hs).
  { done. }
  { apply new_source_inv. }
  rewrite E in E'. injection E' as <-. by eexists.
Qed.

Lemma block_topic_ok name : slash ∉ name -> utf8_valid name = true -> topic_ok (GossipTopic.block name).
Proof. by intros. Qed.

(** What the message of a block holds *)
Lemma block_message_parts name block : slash ∉ name -> utf8_valid name = true -> ssz_valid block = true ->
  exists m ssz, block_message name block = Ok m /\ container_encode block = Ok ssz /\ Snappy.compress ssz = Ok (ms_data m) /\
    to_topic_id (GossipTopic.block name) = Ok (ms_topic m) /\ m = topic_message (ms_topic m) (ms_data m) /\
    GossipsubTheorems.contents m = ssz /\ container_decode ssz = Ok block /\ utf8_valid (ms_topic m) = true /\
    get_topic name (ms_topic m) = Ok (GossipTopic.block name).
Proof.
  intros Hs Hu Hv. destruct (container_encode_total block Hv) as (ssz & Ee & Hl & Ed).
  destruct (snappy_compress_ok ssz) as (out & Ec & Edc & _). { pose proof (encodable_size (A := SignedBlock)). lia. }
  destruct (topic_parts (GossipTopic.block name) (block_topic_ok name Hs Hu)) as (kind & Et & Hk & Ha & Ef).
  exists (topic_message (join_topic name kind) out), ssz. cbn [ms_topic ms_data topic_message]. split_and!; try done.
  - unfold block_message. rewrite Ee. mcbn. rewrite Ec. mcbn. by rewrite Et.
  - unfold GossipsubTheorems.contents, _try_decompress. cbn [ms_data topic_message]. by rewrite Edc.
  - by apply join_valid.
  - unfold get_topic, from_string_validated. cbn [gt_network_name GossipTopic.block] in Ef. rewrite Ef. mcbn. unfold validate_fork.
    cbn. by rewrite bool_decide_true.
Qed.

(** The event of a message that carries a block *)
Lemma block_event name block m a id : slash ∉ name -> utf8_valid name = true -> ssz_valid block = true -> block_message name block = Ok m ->
  gossip_event name (GossipsubMessageEvent a (ms_topic m) (GossipsubTheorems.contents m) id) = Some (GossipBlockEvent block a (GossipTopic.block name)).
Proof.
  intros Hs Hu Hv Em. destruct (block_message_parts name block Hs Hu Hv) as (m' & ssz & Em' & _ & _ & _ & _ & Hc & Hd & _ & Ht).
  rewrite Em in Em'. injection Em' as <-. cbn [gossip_event]. rewrite Ht. cbn [gt_kind GossipTopic.block]. by rewrite Hc, Hd.
Qed.
End Nodes.

(** C8: a block that one node publishes is the block that another node processes.  Node B
    is in the mesh of node A for the block topic of their network and connected to it, has
    not seen the message, accepts its size and has no other event pending.  Then publishing
    succeeds, and however the stream that A wrote to B is cut, once B has received it and
    forwarded the event, the next turn of its network service hands exactly that block to
    its sync service, as coming from A. *)
Theorem published_block_arrives `{Crypto} `{Network} `{Environment} `{SetOrder} (pa pb : GossipsubParameters) (A B : NetworkService)
    (a b : PeerId) (name : bytes) (block : SignedBlock) (m : Message) (ps : PeerState) :
  params_ok pa -> params_ok pb -> slash ∉ name -> utf8_valid name = true -> ssz_valid block = true ->
  source_reachable pa name (ns_source A) -> source_reachable pb name (ns_source B) -> ns_network_name A = name ->
  block_message name block = Ok m -> rpc_weight (publish_rpc [m]) <= MAX_PAYLOAD_SIZE ->
  let ga := es_gossipsub (ns_source A) in let gb := es_gossipsub (ns_source B) in
  es_connections (ns_source A) <> [] -> subscribed (ms_topic m) (gs_mesh ga) = true -> b ∈ get_mesh_peers (ms_topic m) (gs_mesh ga) ->
  dget b (gs_peers ga) = Some ps -> ps_outbound_stream ps = true -> seen_has (message_id_of m) (gs_seen_cache ga) = false ->
  is_Some (dget a (gs_peers gb)) -> ~ dropped m gb -> es_stopped (ns_source B) = false -> gs_stopped gb = false ->
  es_forwarded (ns_source B) = length (gs_event_queue gb) -> es_taken (ns_source B) = length (es_events (ns_source B)) -> ns_running B = true ->
  exists A' sent, publish_block block A = (Ok tt, A') /\ gs_written (es_gossipsub (ns_source A')) = gs_written ga ++ sent /\
    forall chunks, concat chunks = concat (to_peer b sent) -> Forall (fun c => c <> []) chunks ->
      exists B1 B2, zoom ns_source with_source (on_gossipsub (_receive_loop a chunks)) B = (Ok tt, B1) /\
        zoom ns_source with_source forward_turn B1 = (Ok true, B2) /\
        forall sync, sync_on_gossip_block block (Some a) (ns_sync B) = (Ok tt, sync) ->
          exists B3, run_turn B2 = (Ok true, B3) /\ ns_sync B3 = sync.
Proof.
  intros Hpa Hpb Hs Hu Hv Ha Hb Hn Em Hw ga gb Hc Hj Hmesh Eps Hout Hseen Hpeer Hd Hst Hgst Hfw Htk Hrun.
  destruct (source_reachable_inv pa name _ Hpa Ha) as [da Ia]. destruct (source_reachable_inv pb name _ Hpb Hb) as [db Ib].
  destruct (block_message_parts name block Hs Hu Hv) as (m' & ssz & Em' & Ee & Ec & Et & Emm & _ & _ & Hut & _).
  rewrite Em in Em'. injection Em' as <-.
  destruct (published_arrives pa pb ga gb a b (ms_topic m) (ms_data m) ps) as (ga' & sent & Ep & Ew & Hrecv);
    try done; [apply Ia|apply Ib|by rewrite <- Emm..|].
  exists (with_source (with_gossipsub ga' (ns_source A)) A), sent. split; [|split; [done|]].
  { unfold publish_block. rewrite run_gets, Hn, Ee, run_raising, Ec, run_raising, Et, run_raising. unfold zoom, EventSource.publish. rewrite run_gets.
    destruct (es_connections (ns_source A)) as [|x l] eqn:El; [done|]. cbn [List.length]. rewrite (proj2 (Z.eqb_neq _ _)) by lia.
    unfold catch, on_gossipsub, zoom. fold ga. by rewrite Ep. }
  intros chunks Hch Hne. destruct (Hrecv chunks Hch Hne) as (gb' & Er & Eq). rewrite <- Emm in Eq.
  set (sb1 := with_gossipsub gb' (ns_source B)).
  assert (gs_stopped gb' = false) as Hgst'.
  { pose proof (proj2 (grows_loop a chunks [] gb)) as Hg. unfold _receive_loop in Er. rewrite Er in Hg. cbn in Hg. congruence. }
  assert (gs_event_queue (es_gossipsub sb1) !! es_forwarded sb1 =
    Some (GossipsubMessageEvent a (ms_topic m) (GossipsubTheorems.contents m) (message_id_of m))) as El.
  { cbn. rewrite Eq, Hfw, lookup_app_r by done. by rewrite Nat.sub_diag. }
  pose proof (forward_turn_effect name _ sb1 (si_name _ _ _ _ _ _ Ib) (si_handler _ _ _ _ _ _ Ib) Hst Hgst' El) as Ef. cbn zeta in Ef.
  rewrite (block_event name block m a _ Hs Hu Hv Em) in Ef.
  set (sb2 := put _ _) in Ef. exists (with_source sb1 B), (with_source sb2 B). split; [unfold zoom, on_gossipsub, zoom; fold gb; by rewrite Er|].
  split; [unfold zoom; cbn [ns_source with_source]; by rewrite Ef|]. intros sync Hsync.
  assert (anext sb2 = (Ok (Some (GossipBlockEvent block a (GossipTopic.block name))), with_taken (S (es_taken sb2)) sb2)) as En.
  { unfold anext. rewrite run_gets. change (es_stopped sb2) with (es_stopped (ns_source B)). rewrite Hst, run_gets.
    change (es_events sb2 !! es_taken sb2) with ((es_events (ns_source B) ++ [GossipBlockEvent block a (GossipTopic.block name)]) !! es_taken (ns_source B)).
    rewrite Htk, lookup_app_r, Nat.sub_diag by done. done. }
  exists (with_sync sync (with_source (with_taken (S (es_taken sb2)) sb2) B)). split; [|done]. unfold run_turn, catch at 1.
  assert (catch (event ← zoom ns_source with_source anext; mret (Some event))
    (fun e => match e with StopAsyncIteration => mret None | _ => raising (Err e) end) (with_source sb2 B) =
    (Ok (Some (Some (GossipBlockEvent block a (GossipTopic.block name)))), with_source (with_taken (S (es_taken sb2)) sb2) B)) as Ec'.
  { unfold catch, mbind, M_bind, zoom. cbn [ns_source with_source]. by rewrite En. }
  rewrite (run_bind _ _ _ _ _ Ec'), run_gets. cbn [ns_running with_source]. rewrite Hrun. cbn [negb].
  unfold mbind, M_bind, zoom. cbn [ns_sync with_source _handle_event]. by rewrite Hsync.
Qed.

(** ** Two nodes *)
Section Sample.
#[local] Existing Instance still.
#[local] Existing Instance insertion_order.
#[local] Existing Instance sample_crypto.
#[local] Existing Instance a1_network.

Definition sample_name : bytes := [Byte.x30].
Definition sample_message : Message :=
  match block_message sample_name (signed A1.1) with Ok m => m | Err _ => topic_message [] [] end.
(** A node that has dialed [peer], which is in its mesh of the block topic; its store holds
    the genesis block, and a block that waits for its parent [A1] is in its cache. *)
Definition sample_node (peer : PeerId) : NetworkService := {|
  ns_source := source_at peer (ms_topic sample_message) sample_name; ns_sync := run_sample sample_events;
  ns_network_name := sample_name; ns_running := true |}.

Lemma sample_node_reachable peer : source_reachable default_parameters sample_name (ns_source (sample_node peer)).
Proof.
  exists (dial_ops peer (ms_topic sample_message)). assert (Forall source_op_ok (dial_ops peer (ms_topic sample_message))) as Ho by repeat constructor.
  split; [done|]. destruct (source_run_keeps default_parameters default_parameters_ok sample_name false _ (fun _ => 0%nat)
    (with_name sample_name (new_source default_parameters)) Ho) as (s' & E & _).
  { done. }
  { apply new_source_inv. }
  cbn [sample_node ns_source]. unfold source_at. by rewrite E.
Qed.

(** B learns of [A1] from A and imports both blocks. *)
Lemma published_block_arrives_witness : exists A' sent,
  publish_block (signed A1.1) (sample_node peer_c) = (Ok tt, A') /\
  gs_written (es_gossipsub (ns_source A')) = gs_written (es_gossipsub (ns_source (sample_node peer_c))) ++ sent /\
  forall chunks, concat chunks = concat (to_peer peer_c sent) -> Forall (fun c => c <> []) chunks ->
    exists B1 B2 B3, zoom ns_source with_source (on_gossipsub (_receive_loop peer_b chunks)) (sample_node peer_b) = (Ok tt, B1) /\
      zoom ns_source with_source forward_turn B1 = (Ok true, B2) /\ run_turn B2 = (Ok true, B3) /\
      outline (ns_sync B3) = ([genesis_root; hash_tree_root A1.1; hash_tree_root A2.1], [], [], SYNCED).
Proof.
  assert (exists ps, dget peer_c (gs_peers (es_gossipsub (ns_source (sample_node peer_c)))) = Some ps /\ ps_outbound_stream ps = true)
    as (ps & Eps & Ho).
  { eexists. split; [vm_compute; reflexivity|reflexivity]. }
  assert (exists sync, sync_on_gossip_block (signed A1.1) (Some peer_b) (ns_sync (sample_node peer_b)) = (Ok tt, sync) /\
    outline sync = ([genesis_root; hash_tree_root A1.1; hash_tree_root A2.1], [], [], SYNCED)) as (sync & Es & Hs).
  { eexists. split; [vm_compute; reflexivity|vm_compute; reflexivity]. }
  destruct (published_block_arrives default_parameters default_parameters (sample_node peer_c) (sample_node peer_b) peer_b peer_c
    sample_name (signed A1.1) sample_message ps default_parameters_ok default_parameters_ok) as (A' & sent & E & Ew & Hrecv).
  - vm_compute. intros Hin. inversion Hin as [|? ? ? Hin']. inversion Hin'.
  - reflexivity.
  - vm_compute. reflexivity.
  - apply sample_node_reachable.
  - apply sample_node_reachable.
  - reflexivity.
  - vm_compute. reflexivity.
  - vm_compute. discriminate.
  - vm_compute. discriminate.
  - vm_compute. reflexivity.
  - vm_compute. left.
  - exact Eps.
  - exact Ho.
  - vm_compute. reflexivity.
  - vm_compute. eauto.
  - vm_compute. intros [?|[?|[?|?]]]; discriminate.
  - vm_compute. reflexivity.
  - vm_compute. reflexivity.
  - vm_compute. reflexivity.
  - vm_compute. reflexivity.
  - reflexivity.
  - exists A', sent. split; [exact E|]. split; [exact Ew|]. intros chunks Hc Hne. destruct (Hrecv chunks Hc Hne) as (B1 & B2 & E1 & E2 & Hturn).
    destruct (Hturn sync Es) as (B3 & E3 & Ens). exists B1, B2, B3. split_and!; [exact E1|exact E2|exact E3|]. rewrite Ens. exact Hs.
Defined.
End Sample.
