(* ===== verification/RunCorrect.v ===== *)
(** * What a running node hears and serves

    The run sequence subscribes to topics and sets the request handler once; this file
    follows both through everything that the event source and gossipsub do afterwards. *)

From S2P Require Import GossipTopic Prelude Pydict Uint Ssz SszCorrect Sha256 Merkle Containers StateTransition Proofs Signatures.
From S2P Require Import ForkChoice Aggregation SszRecords Varint Snappy ReqResp ReqRespCorrect BlockCache PeerManager StateMonad Backfill SyncService.
From S2P Require Import Storage ChainService ValidatorService Node GossipRpc GossipState Gossipsub GossipsubTheorems Multistream EventSource EventSourceCorrect.
From S2P Require Import Identity Rlp Enr CheckpointSync Run.
From Stdlib Require Import String.

Local Open Scope Z_scope.
Local Open Scope list_scope.

(** ** Invariants, whether or not a method raises *)
Section Keeping.
Context {S : Type} (P : S -> Prop).

Definition preserves {A} (m : M S A) : Prop := forall s, P s -> P (m s).2.
Lemma preserve_ret {A} (a : A) : preserves (mret a).
Proof. by intros s. Qed.
Lemma preserve_raising {A} (r : result A) : preserves (raising r).
Proof. by intros s. Qed.
Lemma preserve_bind {A B} (m : M S A) (k : A -> M S B) : preserves m -> (forall a, preserves (k a)) -> preserves (m ≫= k).
Proof. intros Hm Hk s Hs. specialize (Hm s Hs). unfold mbind, M_bind. destruct (m s) as [[a|e] s']; [by apply Hk|done]. Qed.
(** What is read was read from a state of the invariant. *)
Lemma preserve_gets {A B} (f : S -> A) (k : A -> M S B) : (forall s, P s -> preserves (k (f s))) -> preserves (gets f ≫= k).
Proof. intros Hk s Hs. rewrite run_gets. by apply Hk. Qed.
Lemma preserve_raised {A B} (r : result A) (k : A -> M S B) : (forall a, r = Ok a -> preserves (k a)) -> preserves (raising r ≫= k).
Proof. intros Hk s Hs. destruct r as [a|e]; [by apply Hk|done]. Qed.
Lemma preserve_modify (f : S -> S) : (forall s, P s -> P (f s)) -> preserves (modify f).
Proof. intros Hf s. apply Hf. Qed.
Lemma preserve_catch {A} (m : M S A) h : preserves m -> (forall e, preserves (h e)) -> preserves (catch m h).
Proof. intros Hm Hh s Hs. specialize (Hm s Hs). unfold catch. destruct (m s) as [[a|e] s']; [done|by apply Hh]. Qed.
Lemma preserve_for_each {A} (l : list A) body : (forall x, preserves (body x)) -> preserves (for_each l body).
Proof. intros Hb. induction l as [|x l IH]; [apply preserve_ret|]. by apply preserve_bind. Qed.
End Keeping.

Ltac preserve_step leaf :=
  match goal with
  | |- preserves _ (gets _ ≫= _) => apply preserve_gets; intros ? ?
  | |- preserves _ (raising _ ≫= _) => apply preserve_raised; intros ? ?
  | |- preserves _ (_ ≫= _) => apply preserve_bind; [|intros ?]
  | |- preserves _ (mret _) => apply preserve_ret
  | |- preserves _ (gets _) => intros ? ?; assumption
  | |- preserves _ (raising _) => apply preserve_raising
  | |- preserves _ (catch _ _) => apply preserve_catch; [|intros ?]
  | |- preserves _ (for_each _ _) => apply preserve_for_each; intros ?
  | |- preserves _ (modify _) => apply preserve_modify; leaf
  | |- preserves _ (match ?x with _ => _ end) => destruct x eqn:?
  | |- preserves _ (let '(_, _) := ?x in _) => destruct x eqn:?
  | |- preserves _ (if ?x then _ else _) => destruct x eqn:?
  | |- preserves _ _ => progress cbn beta zeta
  end.

(** ** Gossip arrives on subscribed topics only *)
Definition event_on (topics : list TopicId) (e : GossipsubEvent) : Prop :=
  match e with GossipsubMessageEvent _ topic _ _ => topic ∈ topics | GossipsubPeerEvent _ _ _ => True end.
Definition on_topics (topics : list TopicId) (s : GossipsubBehavior) : Prop :=
  me_subscriptions (gs_mesh s) = topics /\ Forall (event_on topics) (gs_event_queue s).

Lemma add_to_mesh_topics t q m : me_subscriptions (add_to_mesh t q m).2 = me_subscriptions m.
Proof. unfold add_to_mesh. destruct (dget _ _); [|done]. by destruct (tm_add_peer _ _). Qed.
Lemma remove_from_mesh_topics t q m : me_subscriptions (remove_from_mesh t q m).2 = me_subscriptions m.
Proof. unfold remove_from_mesh. destruct (dget _ _); [|done]. by destruct (tm_remove_peer _ _). Qed.
Lemma fill_fanout_topics `{SetOrder} pick t l m m' : fill_fanout pick t l m = Ok m' -> me_subscriptions m' = me_subscriptions m.
Proof.
  unfold fill_fanout. intros E. destruct (dget _ _); [|by injection E as <-]. destruct (_ <? _); [|by injection E as <-].
  by apply bind_Ok in E as (? & _ & [= <-]).
Qed.
Lemma update_fanout_topics `{SetOrder} pick now t l m peers m' : update_fanout pick now t l m = Ok (peers, m') -> me_subscriptions m' = me_subscriptions m.
Proof.
  unfold update_fanout. intros E. destruct (subscribed _ _); [by injection E as <- <-|]. apply bind_Ok in E as (m1 & E & [= <- <-]).
  by apply fill_fanout_topics in E.
Qed.

Section Topics.
Context `{Environment} `{SetOrder} (topics : list TopicId).
Abbreviation kept := (preserves (on_topics topics)).

Ltac leaf :=
  let s := fresh "s" in intros s [? ?]; split;
  [cbn; rewrite ?add_to_mesh_topics, ?remove_from_mesh_topics; done
  |cbn; first [done | apply Forall_app; split; [done|apply Forall_singleton; done]]].
Ltac kept_auto := repeat (preserve_step leaf || solve [eauto with kept]).
Create HintDb kept.

Lemma kept_read_time : kept read_time.
Proof. intros s Hs. done. Qed.
Lemma kept_next_sample : kept next_sample.
Proof. intros s Hs. done. Qed.
Lemma kept_get_peer q : kept (get_peer q).
Proof. intros s Hs. done. Qed.
#[local] Hint Resolve kept_read_time kept_next_sample kept_get_peer : kept.
Lemma kept_send q rpc : kept (_send_rpc q rpc).
Proof. unfold _send_rpc. kept_auto. Qed.
Lemma kept_spawn b : kept (spawn b).
Proof. unfold spawn. kept_auto. Qed.
Lemma kept_remove_peer q : kept (remove_peer q).
Proof. unfold remove_peer. kept_auto. Qed.
Lemma kept_record t d i : kept (record_message t d i).
Proof. unfold record_message. kept_auto. Qed.
#[local] Hint Resolve kept_send kept_spawn kept_remove_peer kept_record : kept.
Lemma kept_broadcast b : kept (_broadcast_subscription b).
Proof. unfold _broadcast_subscription. kept_auto. Qed.
Lemma kept_forward q m i p : kept (forward_message q m i p).
Proof. unfold forward_message. kept_auto. Qed.
#[local] Hint Resolve kept_broadcast kept_forward : kept.
Lemma kept_subscription q sub : kept (_handle_subscription q sub).
Proof. unfold _handle_subscription. kept_auto. Qed.
Lemma kept_message q m : kept (_handle_message q m).
Proof.
  unfold _handle_message. kept_auto. apply preserve_modify. intros s' [E1 E2]. split; [done|]. cbn. apply Forall_app. split; [done|]. apply Forall_singleton.
  cbn. match goal with Hj : negb (subscribed _ _) = false, Hs : on_topics _ _ |- _ => destruct Hs as [<- _];
    apply negb_false_iff, bool_decide_eq_true in Hj; exact Hj end.
Qed.
Lemma kept_graft q g : kept (_handle_graft q g).
Proof. unfold _handle_graft, _reject_graft. kept_auto. Qed.
Lemma kept_prune q g : kept (_handle_prune q g).
Proof. unfold _handle_prune. kept_auto. Qed.
Lemma kept_ihave q g : kept (_handle_ihave q g).
Proof. unfold _handle_ihave. kept_auto. Qed.
Lemma kept_serve q ids : forall l, kept (serve_messages q ids l).
Proof. induction ids as [|i ids IH]; intros l; cbn [serve_messages]; kept_auto. Qed.
#[local] Hint Resolve kept_serve : kept.
Lemma kept_iwant q g : kept (_handle_iwant q g).
Proof. unfold _handle_iwant. kept_auto. Qed.
Lemma kept_idontwant q g : kept (_handle_idontwant q g).
Proof. unfold _handle_idontwant. kept_auto. Qed.
#[local] Hint Resolve kept_subscription kept_message kept_graft kept_prune kept_ihave kept_iwant kept_idontwant : kept.
Lemma kept_rpc q r : kept (_handle_rpc q r).
Proof. unfold _handle_rpc, _handle_control. kept_auto. Qed.
#[local] Hint Resolve kept_rpc : kept.
Lemma kept_drain fuel q : forall b, kept (drain_frames fuel q b).
Proof. induction fuel as [|fuel IH]; intros [|x b]; cbn [drain_frames]; kept_auto. Qed.
#[local] Hint Resolve kept_drain : kept.
Lemma kept_receive q b c : kept (receive_chunk q b c).
Proof. unfold receive_chunk. kept_auto. Qed.
Lemma kept_maintain_fanout t : kept (maintain_fanout t).
Proof.
  unfold maintain_fanout. kept_auto. apply preserve_modify. intros s' [E1 E2]. split; [|done]. cbn.
  match goal with Hf : fill_fanout _ _ _ (gs_mesh ?s) = Ok _, Hs : on_topics _ ?s |- _ => apply fill_fanout_topics in Hf; rewrite Hf; apply Hs end.
Qed.
#[local] Hint Resolve kept_receive kept_maintain_fanout : kept.
Lemma kept_heartbeat : kept heartbeat_turn.
Proof. unfold heartbeat_turn, _heartbeat, _maintain_mesh, _emit_gossip. kept_auto. Qed.
Lemma kept_publish t d : kept (Gossipsub.publish t d).
Proof.
  unfold Gossipsub.publish. kept_auto. apply preserve_modify. intros s' [E1 E2]. split; [|done]. cbn.
  match goal with Hf : update_fanout _ _ _ _ (gs_mesh ?s) = Ok _, Hs : on_topics _ ?s |- _ => apply update_fanout_topics in Hf; rewrite Hf; apply Hs end.
Qed.
Lemma kept_add_peer q inbound : kept (Gossipsub.add_peer q inbound).
Proof. unfold Gossipsub.add_peer. kept_auto. Qed.
Lemma kept_background : kept run_background_task.
Proof. unfold run_background_task. kept_auto. Qed.
Lemma kept_start : kept start.
Proof. unfold start. kept_auto. Qed.
Lemma kept_stop : kept stop.
Proof. unfold stop. kept_auto. Qed.
End Topics.
#[export] Hint Resolve kept_receive kept_heartbeat kept_publish kept_add_peer kept_background kept_start kept_stop : kept.

(** ** The event source after boot *)
Definition aggregated (e : NetworkEvent) : Prop := match e with GossipAggregatedAttestationEvent _ _ _ => True | _ => False end.
(** The topics parse to something else than aggregated votes. *)
Definition not_aggregation (topic : TopicId) : Prop :=
  forall t, get_topic GOSSIP_DIGEST topic = Ok t -> gt_kind t <> AGGREGATED_ATTESTATION.
Definition no_lookups (status : Status) (h : RequestHandler) : Prop :=
  our_status h = Some status /\ block_lookup h = None /\ block_by_slot_lookup h = None.

Record wired (topics : list TopicId) (status : Status) (s : LiveNetworkEventSource) : Prop := {
  wi_topics : on_topics topics (es_gossipsub s);
  wi_name : es_gossip_handler s = GOSSIP_DIGEST;
  wi_handler : no_lookups status (es_reqresp_handler s);
  wi_events : Forall (fun e => ~ aggregated e) (es_events s)
}.

(** What happens to the source of a running node: nobody subscribes, sets a status or
    starts serving again. *)
Definition running (op : source_op) : bool :=
  match op with OpSubscribe _ | OpSetStatus _ | OpServe _ _ _ _ => false | _ => true end.

Section Source.
Context `{Environment} `{SetOrder} (topics : list TopicId) (status : Status) (Hplain : Forall not_aggregation topics).
Abbreviation kept := (preserves (wired topics status)).

Lemma kept_gossipsub {A} (m : M GossipsubBehavior A) : preserves (on_topics topics) m -> kept (on_gossipsub m).
Proof. intros Hm s [H1 H2 H3 H4]. unfold on_gossipsub, zoom. specialize (Hm _ H1). destruct (m (es_gossipsub s)) as [r g]. by split. Qed.
#[local] Hint Resolve kept_gossipsub : kept.

Ltac leaf :=
  let s := fresh "s" in intros s [? ? ? ?]; try case_match; split; cbn;
  first [done | apply Forall_app; split; [done|apply Forall_singleton; by intros []]].
Ltac kept_auto := repeat (preserve_step leaf || solve [eauto with kept]).

Lemma kept_task t : kept (spawn_task t).
Proof. unfold spawn_task. kept_auto. Qed.
#[local] Hint Resolve kept_task : kept.
Lemma kept_register q c : kept (register q c).
Proof. unfold register. kept_auto. Qed.
#[local] Hint Resolve kept_register : kept.
Lemma kept_dial outcome : kept (dial outcome).
Proof. unfold dial. kept_auto. Qed.

Lemma kept_gossip_message q topic data : topic ∈ topics -> kept (_handle_gossipsub_message q topic data).
Proof.
  intros Ht. unfold _handle_gossipsub_message, ssz_as_gossip_error, _emit_gossip_block, _emit_gossip_attestation, _emit_gossip_aggregated_attestation.
  apply preserve_catch; [|intros e; kept_auto]. apply preserve_gets. intros s Hs. rewrite (wi_name _ _ _ Hs). apply preserve_raised. intros t E.
  rewrite Forall_forall in Hplain. specialize (Hplain _ Ht t E). destruct (gt_kind t); [..|done]; kept_auto.
Qed.
Lemma kept_forward_turn : kept forward_turn.
Proof.
  unfold forward_turn. do 2 (apply preserve_gets; intros ? _; match goal with |- context [if ?b then _ else _] => destruct b end; [apply preserve_ret|]).
  apply preserve_gets. intros s3 [[_ Hq] _ _ _]. destruct (_ !! _) as [e|] eqn:E; [|apply preserve_ret].
  apply preserve_bind; [kept_auto|]. intros _. apply preserve_bind; [|intros _; apply preserve_ret].
  rewrite Forall_forall in Hq. specialize (Hq e (list_elem_of_lookup_2 _ _ _ E)). destruct e; [|apply preserve_ret].
  apply preserve_catch; [by apply kept_gossip_message|]. intros e. apply preserve_ret.
Qed.
Lemma kept_accept q c accepted closing : kept (accept_turn q c accepted closing).
Proof. unfold accept_turn, _handle_gossipsub_inbound_stream, _handle_reqresp_inbound_stream. kept_auto. Qed.
Lemma kept_start_gossipsub : kept start_gossipsub.
Proof. unfold start_gossipsub. kept_auto. Qed.
#[local] Hint Resolve kept_start_gossipsub : kept.
Lemma kept_serve_boot boot : kept (serve_boot boot).
Proof. unfold serve_boot. kept_auto. Qed.
#[local] Hint Resolve kept_serve_boot : kept.
Lemma kept_resume k : kept (resume k).
Proof. unfold resume. kept_auto. Qed.
#[local] Hint Resolve kept_resume : kept.
Lemma kept_task_step t a : kept (task_step t a).
Proof.
  destruct t; cbn [task_step].
  - apply preserve_bind; [apply kept_accept|]. intros b. apply preserve_ret.
  - apply preserve_bind; [apply kept_forward_turn|]. intros b. apply preserve_ret.
  - kept_auto.
  - unfold _exchange_status. kept_auto.
  - unfold setup_begin. kept_auto.
  - unfold setup_finish. kept_auto.
  - kept_auto.
  - unfold receive_turn. kept_auto.
  - unfold serve_request. kept_auto.
Qed.
Lemma kept_run i a : kept (run_task i a).
Proof.
  unfold run_task. apply preserve_gets. intros s _. destruct (_ !! _); [|apply preserve_ret]. apply preserve_gets. intros s' _.
  apply preserve_bind; [kept_auto|]. intros _. apply preserve_bind; [apply kept_task_step|]. intros rest. kept_auto.
Qed.

Lemma kept_source_step op : running op = true -> kept (source_step op).
Proof.
  intros Hr. destruct op; try done; cbn [source_step].
  - apply preserve_bind; [apply kept_dial|]. intros _. apply preserve_ret.
  - unfold listen. kept_auto.
  - unfold _handle_inbound_connection. kept_auto.
  - apply kept_start_gossipsub.
  - apply kept_run.
  - unfold anext. kept_auto.
  - unfold EventSource.publish. kept_auto.
  - kept_auto.
  - kept_auto.
  - unfold disconnect. kept_auto.
  - unfold stop_source. kept_auto.
Qed.
Lemma kept_source_run ops : forallb running ops = true -> kept (for_each ops source_step).
Proof.
  induction ops as [|op ops IH]; cbn [forallb for_each]; [intros _; apply preserve_ret|]. intros [H1 H2]%andb_true_iff.
  apply preserve_bind; [by apply kept_source_step|]. intros _. by apply IH.
Qed.
End Source.

(** ** The topics of the boot *)
Definition block_or_subnet (subnets : list Z) (topic : TopicId) : Prop :=
  to_topic_id (GossipTopic.block GOSSIP_DIGEST) = Ok topic \/
  exists subnet_id, subnet_id ∈ subnets /\ to_topic_id (attestation_subnet GOSSIP_DIGEST subnet_id) = Ok topic.

Lemma digest_ok : slash ∉ GOSSIP_DIGEST /\ utf8_valid GOSSIP_DIGEST = true.
Proof. split; [|reflexivity]. apply (bool_decide_unpack _). vm_compute. exact I. Qed.
(** A topic of the own network parses to what it was made of. *)
Lemma own_topic t topic t' : topic_ok t -> to_topic_id t = Ok topic -> get_topic GOSSIP_DIGEST topic = Ok t' -> t' = t.
Proof.
  intros Ht E E'. destruct (topic_roundtrip t Ht) as (id & Eid & _ & _ & Hg). rewrite E in Eid. injection Eid as ->. rewrite Hg in E'.
  case_bool_decide; congruence.
Qed.
Lemma block_or_subnet_plain subnets topic : Forall (in_range 64) subnets -> block_or_subnet subnets topic -> not_aggregation topic.
Proof.
  destruct digest_ok as [Hs Hu]. intros Hr [E|(n & Hn & E)] t Et.
  - assert (topic_ok (GossipTopic.block GOSSIP_DIGEST)) as Ht by (split_and!; done). by rewrite (own_topic _ _ _ Ht E Et).
  - rewrite Forall_forall in Hr. assert (topic_ok (attestation_subnet GOSSIP_DIGEST n)) as Ht.
    { split_and!; [done|done|]. exists n. split; [done|by apply Hr]. }
    by rewrite (own_topic _ _ _ Ht E Et).
Qed.
Lemma aggregation_topic : exists topic, to_topic_id (committee_aggregation GOSSIP_DIGEST) = Ok topic /\ ~ not_aggregation topic.
Proof.
  destruct (topic_roundtrip (committee_aggregation GOSSIP_DIGEST)) as (id & E & _ & _ & Hg); [split_and!; apply digest_ok || done|].
  exists id. split; [done|]. intros Hn. apply (Hn (committee_aggregation GOSSIP_DIGEST)); [|done]. by rewrite Hg, bool_decide_eq_true_2.
Qed.

Lemma boot_subnets_range `{Signer} boot subnets : Forall (in_range 64) (nb_aggregate_subnet_ids boot) ->
  boot_subnets boot = Ok subnets -> Forall (in_range 64) subnets.
Proof.
  intros Ha E. unfold boot_subnets in E. apply bind_Ok in E as (indices & _ & E). apply bind_Ok in E as (owned & Eo & [= <-]).
  assert (Forall (in_range 64) owned) as Ho.
  { apply mapM_Ok in Eo. clear -Eo. induction Eo as [|i n l k En _ IH]; constructor; [|done].
    unfold compute_subnet_id in En. destruct (negb _); [|done]. by apply uint_new_Ok in En as [-> ?]. }
  rewrite Forall_forall in *. destruct (nb_is_aggregator boot); intros n; rewrite ?elem_of_sunion; rewrite ?elem_of_nil; naive_solver.
Qed.

(** The source while it is built *)
Record building (subnets : list Z) (s : LiveNetworkEventSource) : Prop := {
  bu_topics : Forall (block_or_subnet subnets) (me_subscriptions (gs_mesh (es_gossipsub s)));
  bu_queue : gs_event_queue (es_gossipsub s) = [];
  bu_name : es_gossip_handler s = GOSSIP_DIGEST;
  bu_handler : block_lookup (es_reqresp_handler s) = None /\ block_by_slot_lookup (es_reqresp_handler s) = None;
  bu_events : es_events s = []
}.

Section Boot.
Context `{Signer} `{Environment} `{SetOrder} `{Disk}.
Context (http : nat -> bytes -> result (Z * bytes)) (set_iter_int : list Z -> list Z) (Hiter : forall l, set_iter_int l ≡ₚ l).

Lemma subscribe_building subnets topic : block_or_subnet subnets topic -> preserves (building subnets) (subscribe_gossip_topic topic).
Proof.
  intros Ht s [B1 B2 B3 B4 B5]. unfold subscribe_gossip_topic, on_gossipsub, zoom, subscribe. rewrite run_gets.
  destruct (subscribed _ _) eqn:Es; [by split|]. rewrite run_modify. unfold spawn. rewrite run_gets.
  assert (Forall (block_or_subnet subnets) (me_subscriptions (mesh_subscribe topic (gs_mesh (es_gossipsub s))))) as Hm; [|destruct (gs_stopped _); by split].
  unfold mesh_subscribe. rewrite Es. destruct (dget topic _); cbn; unfold sadd; (case_decide; [done|]); (apply Forall_app; split; [done|]); by apply Forall_singleton.
Qed.

Lemma build_source_ok boot params subnets s : boot_subnets boot = Ok subnets ->
  _build_event_source set_iter_int boot (new_source params) = (Ok tt, s) -> building subnets s.
Proof.
  intros Eb E. unfold _build_event_source in E. unfold set_network_name in E. rewrite run_modify in E.
  destruct (to_topic_id (GossipTopic.block GOSSIP_DIGEST)) as [topic|] eqn:Et; [|done]. rewrite run_raising in E.
  assert (building subnets (with_name GOSSIP_DIGEST (new_source params))) as Hb by (split; try done; constructor).
  apply (subscribe_building subnets topic (or_introl Et)) in Hb. unfold mbind, M_bind in E.
  destruct (subscribe_gossip_topic topic _) as [[u|e] s1]; [|done]. cbn [snd] in Hb. rewrite Eb in E. cbn [raising] in E.
  assert (Forall (fun n => n ∈ subnets) (set_iter_int subnets)) as Hin by (apply Forall_forall; intros n; by rewrite Hiter).
  revert s1 Hb E. induction Hin as [|n l Hn _ IH]; intros s1 Hb E; cbn [for_each] in E; [by injection E as <-|].
  unfold mbind, M_bind in E. destruct (to_topic_id (attestation_subnet _ n)) as [t|] eqn:En; [|done].
  pose proof (subscribe_building subnets t (or_intror (ex_intro _ n (conj Hn En))) s1 Hb) as Hb2.
  destruct (subscribe_gossip_topic t s1) as [[u'|e] s2]; [|done]. by eapply IH.
Qed.

Lemma start_serving_ok subnets topics status slot bootnodes listening s : building subnets s ->
  me_subscriptions (gs_mesh (es_gossipsub s)) = topics -> wired topics status (start_serving status slot bootnodes listening s).2.
Proof.
  intros [B1 B2 B3 [B4 B4'] B5] Et. unfold start_serving, set_status. rewrite run_modify. set (s1 := with_handler _ _ s).
  assert (wired topics status s1) as Hw by (split; cbn; [split; [done|by rewrite B2]|done|done|by rewrite B5]). clearbody s1. revert s1 Hw.
  change (preserves (wired topics status) (set_current_slot_lookup slot ≫= fun _ => modify (with_stopped false) ≫= fun _ =>
    serve_boot (bootnodes, listening) ≫= fun rest => for_each rest spawn_task)).
  apply preserve_bind. { apply preserve_modify. intros s1 [? ? (? & ? & ?) ?]. by split. } intros _.
  apply preserve_bind. { apply preserve_modify. intros s1 [? ? ? ?]. by split. } intros _.
  apply preserve_bind; [apply kept_serve_boot|]. intros rest. apply preserve_for_each. intros t. apply kept_task.
Qed.
End Boot.

(** ** A handler without lookups refuses every request for blocks *)
Definition refusal (written : bytes) : Prop := exists code message, code <> SUCCESS /\ response_encode code message = Ok written.
Lemma send_error_refuses code message : code <> SUCCESS -> Forall refusal (send_error code message).1.
Proof.
  intros Hc. unfold send_error. destruct (response_encode code _) as [w|e] eqn:E; [|constructor]. cbn. apply Forall_singleton. by eexists _, _.
Qed.
Lemma blocks_refused h status chunks protocol : no_lookups status h ->
  protocol = BLOCKS_BY_ROOT_PROTOCOL_V1 \/ protocol = BLOCKS_BY_RANGE_PROTOCOL_V1 -> Forall refusal (handle_stream h chunks protocol).
Proof.
  intros (_ & Hl & Hl') Hp. unfold handle_stream.
  assert (forall ssz, Forall refusal (_dispatch h protocol ssz).1) as Hd.
  { intros ssz. unfold _dispatch, handle_blocks_by_root, handle_blocks_by_range. rewrite Hl, Hl'.
    destruct Hp as [->| ->].
    - change (Forall refusal (match container_decode (A := BlocksByRootRequest) ssz with
        | Err _ => send_error INVALID_REQUEST "Invalid BlocksByRootRequest message" | Ok _ => send_error SERVER_ERROR "Block lookup not available" end).1).
      destruct (container_decode ssz); by apply send_error_refuses.
    - change (Forall refusal (match container_decode (A := BlocksByRangeRequest) ssz with
        | Err _ => send_error INVALID_REQUEST "Invalid BlocksByRangeRequest message" | Ok _ => send_error SERVER_ERROR "Block lookup not available" end).1).
      destruct (container_decode ssz); by apply send_error_refuses. }
  destruct (_read_request chunks) as [ssz|e]; unfold lift; cbn [mbind io_bind app]; [|by apply send_error_refuses].
  assert (forall m : io unit, Forall refusal m.1 -> Forall refusal (match (let '(more, r) := m in ([] ++ more, r)) with
    | (written, Ok _) => written | (written, Err _) => written ++ (send_error SERVER_ERROR "Internal error").1 end)) as Hm.
  { intros [w [u|e]] Hw; cbn [fst app] in *; [done|]. apply Forall_app. split; [done|]. by apply send_error_refuses. }
  destruct (_ =? 0); apply Hm; [by apply send_error_refuses|apply Hd].
Qed.

(** ** Forks *)

(** The current fork of a registry is its newest. *)
Lemma current_is_newest forks registry : ForkRegistry_new forks = Ok registry ->
  exists fork, current registry = Ok fork /\ forall f, f ∈ forks -> f = fork \/ fk_version f < fk_version fork.
Proof.
  unfold ForkRegistry_new. destruct (Z.eqb_spec (Zlen forks) 0) as [|Hn]; [done|]. cbn [negb]. destruct (not_increasing _) eqn:Ei; [done|].
  cbn [negb]. destruct (_ =? _); [|done]. intros [= <-]. unfold current. induction forks as [|f forks IH]; [done|]. destruct forks as [|g forks].
  { exists f. split; [done|]. intros h ->%list_elem_of_singleton. by left. }
  cbn [map not_increasing] in Ei. apply orb_false_iff in Ei as [Hlt Ei]. rewrite Z.geb_leb in Hlt. apply Z.leb_gt in Hlt.
  destruct IH as (fork & E & Hf); [done|done|]. exists fork. split; [done|]. intros h [->|Hh]%elem_of_cons; [right|by apply Hf].
  destruct (Hf g ltac:(left)) as [->|]; lia.
Qed.
Example lstar_is_current : (registry ← ForkRegistry_new [LstarSpec]; current registry) = Ok LstarSpec.
Proof. reflexivity. Qed.

(** ** The command line *)

(** What is resolved from the command line: an aggregator has validators, extra subnets are
    64-bit numbers and belong to an aggregator, and the boot nodes are resolved in order. *)
Theorem cli_args_resolved `{Signer} `{EnrCrypto} from_yaml_file from_keys_directory (args : CliArgs) (boot : NodeBootstrap) :
  from_cli_args from_yaml_file from_keys_directory args = Ok boot ->
  Forall (in_range 64) (nb_aggregate_subnet_ids boot) /\ (nb_aggregate_subnet_ids boot <> [] -> nb_is_aggregator boot = true) /\
  (nb_is_aggregator boot = true -> nb_registry boot <> [] /\
     exists directory, from_keys_directory (nb_node_id boot) directory = Ok (nb_registry boot)) /\
  Forall2 (fun bootnode address => resolve_bootnode bootnode = Ok address) (ca_bootnodes args) (nb_bootnode_multiaddrs boot).
Proof.
  unfold from_cli_args. destruct (negb (ca_is_aggregator args && _)) eqn:Ek; [|done]. intros E. apply bind_Ok in E as (ids & Ei & E).
  apply bind_Ok in E as (g & _ & E). apply bind_Ok in E as (reg & Er & E). apply bind_Ok in E as (u & _ & E).
  destruct (negb (ca_is_aggregator args && (Zlen reg =? 0))) eqn:Ea; [|done]. apply bind_Ok in E as (addresses & Ead & [= <-]).
  cbn [nb_aggregate_subnet_ids nb_is_aggregator nb_registry nb_bootnode_multiaddrs nb_node_id]. split_and!.
  - assert (ids = [] \/ exists raw, parse_subnet_ids raw = Ok ids) as [->|(raw & Ep)]; [|constructor|].
    { destruct (ca_aggregate_subnet_ids_raw args) as [[|c raw]|]; [left; congruence| |left; congruence].
      right. destruct (ca_is_aggregator args); [by eexists|done]. }
    apply mapM_Ok in Ep. clear -Ep. induction Ep as [|text n l k En _ IH]; constructor; [|done]. apply bind_Ok in En as (m & _ & En).
    by apply uint_new_Ok in En as [-> ?].
  - intros Hn. destruct (ca_aggregate_subnet_ids_raw args) as [[|c raw]|]; [congruence| |congruence]. by destruct (ca_is_aggregator args).
  - intros Hag. rewrite Hag in Ea, Ek. cbn in Ea, Ek. split; [by intros ->|]. destruct (ca_validator_keys_path args); [by eexists|].
    by rewrite bool_decide_eq_true_2 in Ek.
  - by apply mapM_Ok.
Qed.

(** C38: what a node hears and serves when the command line runs it.  However the event
    loop runs the tasks while the boot nodes are dialed one after the other and the listener
    binds, and however the event source goes on after the boot (as long as nobody subscribes,
    sets a status or serves again, which nothing in the program does), the node is subscribed
    to the block topic and to topics of its subnets and never to the one on which aggregated
    votes are published, so that no aggregated vote reaches it; every request for blocks by
    root or by range is answered with errors only, since no lookup is ever installed; and the
    status it serves stays the one of the boot. *)
Theorem running_node_hears_and_serves `{Signer} `{EnrCrypto} `{Environment} `{SetOrder} `{Disk} (http : nat -> bytes -> result (Z * bytes))
    from_yaml_file from_keys_directory (args : CliArgs) (set_iter_int : list Z -> list Z) (params : GossipsubParameters) (now slot : Z) (dialing : bytes -> result (PeerId * nat))
    (binding : bytes -> result unit) (meanwhile : list source_op) (boot : NodeBootstrap) (node : Node) (source : LiveNetworkEventSource) (ops : list source_op) :
  (forall l, set_iter_int l ≡ₚ l) -> from_cli_args from_yaml_file from_keys_directory args = Ok boot ->
  run_node http set_iter_int params now slot dialing binding meanwhile boot = Ok (node, source) ->
  forallb running meanwhile = true -> forallb running ops = true ->
  let s := (for_each ops source_step source).2 in
  exists anchor subnets aggregation, build_anchor http boot = Ok anchor /\ boot_subnets boot = Ok subnets /\
    to_topic_id (committee_aggregation GOSSIP_DIGEST) = Ok aggregation /\
    Forall (block_or_subnet subnets) (me_subscriptions (gs_mesh (es_gossipsub s))) /\
    aggregation ∉ me_subscriptions (gs_mesh (es_gossipsub s)) /\ Forall (fun e => ~ aggregated e) (es_events s) /\
    our_status (es_reqresp_handler s) = Some (an_initial_status anchor) /\
    forall chunks protocol, protocol = BLOCKS_BY_ROOT_PROTOCOL_V1 \/ protocol = BLOCKS_BY_RANGE_PROTOCOL_V1 ->
      Forall refusal (handle_stream (es_reqresp_handler s) chunks protocol).
Proof.
  intros Hiter (Hids & _)%cli_args_resolved E Hmean Hops. cbn zeta. unfold run_node in E. apply bind_Ok in E as (anchor & Ea & E).
  destruct (_build_event_source set_iter_int boot (new_source params)) as [built s0] eqn:Eb.
  apply bind_Ok in E as ([] & -> & E). apply bind_Ok in E as (nd & _ & E).
  cbv zeta in E. set (listening := option_map binding (nb_listen_address boot)) in *.
  set (bootnodes := map dialing (nb_bootnode_multiaddrs boot)) in *.
  destruct ((_ ← start_serving (an_initial_status anchor) slot bootnodes listening; for_each meanwhile source_step) s0) as [served s1] eqn:Es.
  apply bind_Ok in E as ([] & -> & E). destruct (negb _); [|done]. apply bind_Ok in E as ([] & _ & [= <- <-]).
  assert (exists subnets, boot_subnets boot = Ok subnets) as [subnets Esub].
  { unfold _build_event_source, mbind, M_bind in Eb. destruct (boot_subnets boot) as [l|e]; [by exists l|].
    destruct (set_network_name _ _) as [[]?]; [|done]. destruct (raising _ _) as [[]?]; [|done]. by destruct (subscribe_gossip_topic _ _) as [[]?]. }
  pose proof (build_source_ok set_iter_int Hiter boot params subnets s0 Esub Eb) as Hb.
  pose proof (start_serving_ok subnets _ (an_initial_status anchor) slot bootnodes listening s0 Hb eq_refl) as Hw.
  pose proof (boot_subnets_range boot subnets Hids Esub) as Hrange.
  assert (Forall not_aggregation (me_subscriptions (gs_mesh (es_gossipsub s0)))) as Hplain.
  { eapply Forall_impl; [exact (bu_topics _ _ Hb)|]. intros t. by apply block_or_subnet_plain. }
  assert (wired (me_subscriptions (gs_mesh (es_gossipsub s0))) (an_initial_status anchor) s1) as Hw1.
  { unfold mbind, M_bind in Es. destruct (start_serving _ _ _ _ s0) as [[[]|e] s2]; [|done]. cbn [snd] in Hw.
    apply (kept_source_run _ _ Hplain meanwhile Hmean) in Hw. by rewrite Es in Hw. }
  clear Hw. apply (kept_source_run _ _ Hplain ops Hops) in Hw1 as Hw. destruct Hw as [[Ht _] _ Hh He]. destruct aggregation_topic as (agg & Eagg & Hagg).
  exists anchor, subnets, agg. rewrite Ht. split_and!; [done|done|done|apply Hb| |done|apply Hh|intros; by eapply blocks_refused].
  intros Hin. rewrite Forall_forall in Hplain. by apply Hagg, Hplain.
Qed.

(** An aggregator with a validator that follows another subnet as well dials a peer. *)
Section Sample.
#[local] Existing Instance still.
#[local] Existing Instance insertion_order.
Definition idle_signer : Signer := {|
  secret_key := unit; prepared_interval := fun _ => (0, 0); advance_key := fun k => Ok k; sign_message := fun _ _ _ => Err ValueError |}.
Definition working_disk : Disk := {| sqlite_fails := fun _ => false |}.
#[local] Existing Instance sample_curve.
#[local] Existing Instance sample_enr_crypto.
#[local] Existing Instance idle_signer.
Definition aggregator_args : CliArgs := {|
  ca_genesis_path := str "config.yaml"; ca_bootnodes := [str "/ip4/127.0.0.1"]; ca_listen_address := []; ca_checkpoint_sync_url := None; ca_validator_keys_path := Some (str "keys");
  ca_node_id := str "lean_spec_0"; ca_verbose := false; ca_no_color := false; ca_is_aggregator := true;
  ca_aggregate_subnet_ids_raw := Some (str "3, ,"); ca_api_port := 5052 |}.
Definition sample_genesis_config : CheckpointSync.GenesisConfig := {| gc_genesis_time := 0; gc_genesis_validators := [] |}.
Definition one_key : dict Z ValidatorEntry := [(5, {| ve_index := 5; ve_attestation_secret_key := tt; ve_proposal_secret_key := tt |})].
Definition aggregator_boot : NodeBootstrap := {|
  nb_genesis := sample_genesis_config; nb_registry := one_key; nb_bootnode_multiaddrs := [str "/ip4/127.0.0.1"];
  nb_listen_address := None; nb_checkpoint_sync_url := None; nb_node_id := str "lean_spec_0"; nb_is_aggregator := true;
  nb_aggregate_subnet_ids := [3]; nb_api_port := Some 5052 |}.
Definition block_topic_id : TopicId := Eval vm_compute in match to_topic_id (GossipTopic.block GOSSIP_DIGEST) with Ok t => t | Err _ => [] end.
Definition boot_ops : list source_op := (fun i => OpRun i (peer_answers block_topic_id)) <$> [0; 0; 1; 3; 0; 3; 0]%nat.
Definition started : result (Node * LiveNetworkEventSource) :=
  run_node (H2 := working_disk) (fun _ _ => Err RequestError) (fun l => l) default_parameters 0 1 (fun _ => Ok (peer_b, 7%nat))
    (fun _ => Ok tt) boot_ops aggregator_boot.
Definition later_ops : list source_op := (fun i => OpRun i (peer_answers block_topic_id)) <$> [1; 2; 2]%nat.

Lemma running_node_hears_and_serves_witness : exists node source aggregation, started = Ok (node, source) /\
  to_topic_id (committee_aggregation GOSSIP_DIGEST) = Ok aggregation /\
  let s := (for_each later_ops source_step source).2 in
  aggregation ∉ me_subscriptions (gs_mesh (es_gossipsub s)) /\ Zlen (me_subscriptions (gs_mesh (es_gossipsub s))) = 3 /\
  get_mesh_peers block_topic_id (gs_mesh (es_gossipsub s)) = [peer_b].
Proof.
  destruct started as [[node source]|e] eqn:E; [|exfalso; vm_compute in E; discriminate].
  destruct (running_node_hears_and_serves (H4 := working_disk) (fun _ _ => Err RequestError) (fun _ => Ok sample_genesis_config) (fun _ _ => Ok one_key) aggregator_args
    (fun l => l) default_parameters 0 1
    (fun _ => Ok (peer_b, 7%nat)) (fun _ => Ok tt) boot_ops aggregator_boot node source later_ops) as (anchor & subnets & agg & _ & _ & Ea & _ & Hn & _).
  - done.
  - vm_compute. reflexivity.
  - exact E.
  - reflexivity.
  - reflexivity.
  - exists node, source, agg. split; [done|]. split; [exact Ea|]. cbn zeta. split; [exact Hn|]. vm_compute in E. injection E as <- <-. vm_compute. split; reflexivity.
Defined.
End Sample.
