(* ===== verification/DutyTheorems.v ===== *)
(** * What ticks, aggregation and attesting guarantee

    A tick runs every interval once; an aggregation round merges all the evidence it
    has; a produced vote validates.  The last section shows, on reachable stores,
    behaviours that the source's comments do not expect. *)

From S2P Require Import Prelude Pydict Uint Ssz SszCorrect Sha256 Merkle Containers.
From S2P Require Import StateTransition Samples StateCorrect StateHistory Proofs Signatures.
From S2P Require Import SignaturesCorrect ForkChoice ForkChoiceCorrect StoreVotes StoreCorrect.
From S2P Require Import StoreHandlers Aggregation Duties SampleStores AggregationCorrect.
From S2P Require Import StoreReachable DutiesCorrect StoreTheorems.

(** ** Ticks *)
Section Ticks.
Context `{Crypto}.

Lemma tick_interval_time s hp agg s' l :
  tick_interval s hp agg = Ok (s', l) -> sto_time s' = sto_time s + 1.
Proof.
  intros E. unfold tick_interval in E. apply bind_Ok in E as (t & [-> _]%uint_new_Ok & E).
  assert (forall s1, accept_new_attestations (store_with_time s (sto_time s + 1)) = Ok s1 ->
    sto_time s1 = sto_time s + 1) as Ha by (by intros s1 (h & fin & ->)%update_head_frame).
  destruct (_ && hp); [apply bind_Ok in E as (s2 & E & [= <- <-]); auto|].
  destruct (_ && agg).
  { unfold aggregate in E. apply bind_Ok in E as (st & _ & E). apply bind_Ok in E as (rs & _ & E).
    by injection E as <- _. }
  destruct (_ =? 3).
  { apply bind_Ok in E as (s2 & E & [= <- <-]). unfold update_safe_target in E.
    apply bind_Ok in E as (? & _ & E). apply bind_Ok in E as (? & _ & E).
    by apply bind_Ok in E as (? & _ & [= <-]). }
  destruct (_ =? 4); [apply bind_Ok in E as (s2 & E & [= <- <-]); auto|]. by injection E as <- <-.
Qed.

(** The intervals after [time], up to [target]. *)
Definition intervals (time target : Z) : list Z :=
  map (fun k => time + 1 + Z.of_nat k) (seq 0 (Z.to_nat (target - time))).

(** One interval, collecting the aggregates. *)
Definition tick_at (target : Z) (has_proposal is_aggregator : bool)
    (acc : Store * list SignedAggregatedAttestation) (interval : Z)
    : result (Store * list SignedAggregatedAttestation) :=
  '(s', l') ← tick_interval acc.1 (has_proposal && (interval =? target)) is_aggregator;
  Ok (s', acc.2 ++ l').

Lemma tick_at_eq target hp agg s l i :
  tick_at target hp agg (s, l) i =
    ('(s', l') ← tick_interval s (hp && (i =? target)) agg; Ok (s', l ++ l')).
Proof. done. Qed.

Lemma intervals_step time target :
  time < target -> intervals time target = (time + 1) :: intervals (time + 1) target.
Proof.
  intros Hlt. unfold intervals. replace (Z.to_nat (target - time)) with (S (Z.to_nat (target - (time + 1)))) by lia.
  cbn [seq map]. f_equal; [lia|]. rewrite <- seq_shift, map_map. apply map_ext. intros k. lia.
Qed.

Lemma tick_loop_eq fuel target hp agg s l :
  0 <= sto_time s -> in_range 64 target -> fuel = Z.to_nat (target - sto_time s) ->
  while fuel (fun acc => sto_time acc.1 <? target) (tick_step target hp agg) (s, l) =
    foldM (tick_at target hp agg) (s, l) (intervals (sto_time s) target).
Proof.
  intros Ht Hr. revert s l Ht. induction fuel as [|fuel IH]; intros s l Ht Hf; cbn [while fst];
    destruct (Z.ltb_spec (sto_time s) target) as [Hlt|Hge]; try lia;
    try (unfold intervals; by replace (Z.to_nat (target - sto_time s)) with 0%nat by lia).
  rewrite tick_step_eq, intervals_step by done. cbn [foldM]. rewrite tick_at_eq.
  unfold in_range, max_value in Hr.
  rewrite uint_new_in_range by (unfold in_range, max_value; lia). mcbn.
  destruct (tick_interval s _ agg) as [[s' l']|e] eqn:E; mcbn; [|done].
  apply tick_interval_time in E. rewrite <- E. apply IH; lia.
Qed.

(** Advancing the clock runs every interval up to the target once, in order, with
    the proposal signalled at the last interval only; the loop never runs out of fuel. *)
Theorem on_tick_runs_every_interval (s : Store) (target : Z) (has_proposal is_aggregator : bool) :
  0 <= sto_time s -> in_range 64 target ->
  on_tick s target has_proposal is_aggregator =
    foldM (tick_at target has_proposal is_aggregator) (s, []) (intervals (sto_time s) target).
Proof. intros Ht Hr. by apply tick_loop_eq. Qed.
End Ticks.

Lemma on_tick_runs_every_interval_witness :
  intervals 0 3 = [1; 2; 3] /\
  on_tick (H := sample_crypto) storeA1 3 true true =
    foldM (tick_at (H := sample_crypto) 3 true true) (storeA1, []) (intervals 0 3).
Proof.
  split; [reflexivity|]. apply (on_tick_runs_every_interval (H := sample_crypto) storeA1 3 true true).
  - vm_compute. discriminate.
  - vm_compute. split; [discriminate|reflexivity].
Defined.

(** ** Aggregation *)

(** On a reachable store an aggregation round yields one proof per merged vote
    data, and each proof's participants are exactly the validators the store has
    evidence of: a pending proof, a known proof or a raw signature for that data.
    The pending pool then holds those proofs alone, the raw signatures of merged data
    are dropped, and data left unmerged had no signer that its proofs did not cover.
    The only exceptions are the prover's. *)
Theorem aggregate_merges_all_evidence `{Crypto} (state : State) (block : Block) (s : Store) :
  anchor_consistent state block -> reachable_store state block s ->
  (exists s' aggs, aggregate s = Ok (s', aggs) /\
     NoDup (map saa_data aggs) /\
     (forall a, a ∈ aggs -> forall v, covers (saa_proof a) v <-> evidence s (saa_data a) v) /\
     sto_latest_new_aggregated_payloads s' = map (fun a => (saa_data a, [saa_proof a])) aggs /\
     (forall d, dget d (sto_attestation_signatures s') =
        if bool_decide (d ∈ map saa_data aggs) then None else dget d (sto_attestation_signatures s)) /\
     (forall d, d ∈ fresh_data s -> d ∉ map saa_data aggs ->
        forall v, evidence s d v -> exists p, p ∈ data_proofs s d /\ covers p v)) \/
  aggregate s = Err AggregationError \/ aggregate s = Err SSZValueError.
Proof.
  intros Hc Hr. destruct (reachable_good _ _ _ Hc Hr) as [[Hs Hv] _].
  destruct (proj1 (store_state_known _ _ _ Hs) (si_head _ _ Hs)) as [st Est].
  pose proof (values_ok_get _ _ _ _ (vi_states _ _ Hv) Est) as Hst. simpl in Hst.
  destruct (aggregate_cases (st_validators state) (vi_keys _ _ Hv) s st Est Hst
    (fun d _ => votes_inv_data _ s d Hv) (vi_limit _ _ Hv)) as [(aggs & E & Hn & Ha & Hu)|(e & E & [->| ->])];
    [left|by right; left|by right; right].
  eexists _, aggs. split; [exact E|]. cbn. split_and!; [done| |done| |done].
  - intros a Hin v. by destruct (Ha a Hin) as (_ & _ & ?).
  - intros d. rewrite dget_dfilter. unfold dmem.
    assert (is_Some (dget d (merged_pool aggs)) <-> d ∈ map saa_data aggs) as Hk
      by (by rewrite dget_is_Some, merged_pool_keys).
    rewrite (bool_decide_ext _ _ Hk). by case_bool_decide.
Qed.

Lemma aggregate_merges_all_evidence_witness :
  (exists s', aggregate (H := sample_crypto) storeP2 =
     Ok (s', [{| saa_data := vote_A1; saa_proof := sample_proof [true; true; true] |}])) /\
  ((exists s' aggs, aggregate (H := sample_crypto) storeP2 = Ok (s', aggs) /\
     NoDup (map saa_data aggs) /\
     (forall a, a ∈ aggs -> forall v, covers (saa_proof a) v <-> evidence storeP2 (saa_data a) v) /\
     sto_latest_new_aggregated_payloads s' = map (fun a => (saa_data a, [saa_proof a])) aggs /\
     (forall d, dget d (sto_attestation_signatures s') =
        if bool_decide (d ∈ map saa_data aggs) then None else dget d (sto_attestation_signatures storeP2)) /\
     (forall d, d ∈ fresh_data storeP2 -> d ∉ map saa_data aggs ->
        forall v, evidence storeP2 d v -> exists p, p ∈ data_proofs storeP2 d /\ covers p v)) \/
  aggregate (H := sample_crypto) storeP2 = Err AggregationError \/
  aggregate (H := sample_crypto) storeP2 = Err SSZValueError).
Proof.
  split; [eexists; vm_compute; reflexivity|].
  apply (aggregate_merges_all_evidence (H := sample_crypto) sample_genesis genesis_block storeP2).
  - exact sample_anchor.
  - exact sample_storeP2.
Defined.

(** ** Attesting *)

(** The head state's justified checkpoint is the placeholder of genesis, or a block
    from the anchor's slot on. *)
Definition source_known (anchor : Bytes32 * Block) (hs : State) : Prop :=
  (st_head_slot hs = 0 /\ cp_root (st_latest_justified hs) = ZERO_HASH) \/
  (0 < st_head_slot hs /\ cp_root (st_latest_justified hs) <> ZERO_HASH /\
   bk_slot anchor.2 <= st_justified_slot hs).

(** The vote's source: known, and an ancestor of the head. *)
Lemma source_checkpoint anchor s hb hs :
  store_inv anchor s -> dget (sto_head s) (sto_blocks s) = Some hb ->
  dget (sto_head s) (sto_states s) = Some hs -> source_known anchor hs ->
  let source := if bool_decide (cp_root (st_latest_justified hs) = ZERO_HASH)
    then {| cp_root := sto_head s; cp_slot := cp_slot (st_latest_justified hs) |}
    else st_latest_justified hs in
  checkpoint_in (sto_blocks s) source /\ ancestor (sto_blocks s) (cp_root source) (sto_head s).
Proof.
  intros Hi Eb Es Hk. destruct (si_entry _ _ Hi _ _ _ Eb Es) as [_ Hinv _ Hslot Hhist].
  pose proof (inv_order _ Hinv). pose proof (inv_justified _ Hinv). destruct Hk as [[Hh Hz]|(Hh & Hz & Hfl)].
  - rewrite bool_decide_eq_true_2 by done. split; [|by eapply anc_refl]. exists hb. split; [done|cbn]. lia.
  - rewrite bool_decide_eq_false_2 by done. destruct (inv_on_chain _ Hinv Hh) as [Hr _].
    unfold root_at in Hr. bool_to_prop. destruct (Hhist _ _ Hfl Hr Hz) as [Ha (bh & Eh & Hs)].
    split; [by exists bh|done].
Qed.

(** When the head state's justified slot is not past the attestation target, a
    validator's vote for a current slot is produced and passes the validation other
    nodes apply to it; when it is past the target, the only outcome is the sanity
    check's [AssertionError].  Nothing else can go wrong. *)
Theorem produced_vote_validates (anchor : Bytes32 * Block) (s : Store) (hb : Block) (hs : State)
    (slot : Z) :
  store_inv anchor s -> dget (sto_head s) (sto_blocks s) = Some hb ->
  dget (sto_head s) (sto_states s) = Some hs -> source_known anchor hs ->
  bk_slot hb <= slot -> slot * INTERVALS_PER_SLOT <= sto_time s + GOSSIP_DISPARITY_INTERVALS ->
  exists target, get_attestation_target s = Ok target /\
    if st_justified_slot hs <=? cp_slot target
    then exists d, produce_attestation_data s slot = Ok d /\ ad_target d = target /\ vote_valid s d
    else produce_attestation_data s slot = Err AssertionError.
Proof.
  intros Hi Eb Es Hk Hs Ht. destruct (get_attestation_target_ok anchor s Hi) as (t & Et & Htin & Hta & _).
  exists t. split; [done|]. unfold produce_attestation_data, dgetitem. rewrite Eb. mcbn. rewrite Et. mcbn.
  rewrite Es. mcbn. destruct (source_checkpoint anchor s hb hs Hi Eb Es Hk) as [Hsin Hsa]. cbn zeta in *.
  set (src := if bool_decide _ then _ else _) in *.
  assert (cp_slot src = st_justified_slot hs) as Esrc by (unfold src; by case_bool_decide).
  rewrite Esrc. destruct (Z.leb_spec (st_justified_slot hs) (cp_slot t)) as [Hle|Hgt]; [|done].
  eexists. split; [done|]. split; [done|]. constructor; cbn; try done.
  - by exists hb.
  - destruct (ancestor_linear _ _ _ _ Hsa Hta) as [?|Hrev]; [done|].
    destruct Hsin as (bsrc & Ebs & Hbs), Htin as (bt & Ebt & Hbt).
    destruct (ancestor_slot _ (si_earlier _ _ Hi) _ _ _ _ Hrev Ebt Ebs) as [? Hu].
    rewrite Hu by lia. by eapply anc_refl.
Qed.

Lemma produced_vote_validates_witness :
  exists target, get_attestation_target storeT5 = Ok target /\
    if st_justified_slot A1.2 <=? cp_slot target
    then exists d, produce_attestation_data storeT5 1 = Ok d /\ ad_target d = target /\ vote_valid storeT5 d
    else produce_attestation_data storeT5 1 = Err AssertionError.
Proof.
  apply (produced_vote_validates sample_root storeT5 A1.1 A1.2 1).
  - exact (sample_store_inv _ sample_storeT5).
  - vm_compute. reflexivity.
  - vm_compute. reflexivity.
  - right. vm_compute. split_and!; [reflexivity|discriminate|discriminate].
  - vm_compute. discriminate.
  - vm_compute. discriminate.
Defined.

(** C36: attesting on any reachable store.  There is always a target, a known block on the
    chain of the head that is final or may be justified; the vote for it is produced exactly
    when the justified slot of the head's state is not past it, and then has the head, the
    target and that state's justified slot as its source; otherwise the only outcome is the
    [AssertionError] of the sanity check, which does happen.  A vote for a slot from the
    head's on and within the clock's horizon, whose source is a block of the store, passes
    the validation that other nodes apply to it. *)
Theorem attestation_outcome `{Crypto} (state : State) (block : Block) (s : Store) (slot : Z) :
  anchor_consistent state block -> reachable_store state block s ->
  exists hb hs target, dget (sto_head s) (sto_blocks s) = Some hb /\ dget (sto_head s) (sto_states s) = Some hs /\
    get_attestation_target s = Ok target /\ checkpoint_in (sto_blocks s) target /\
    ancestor (sto_blocks s) (cp_root target) (sto_head s) /\
    (cp_slot target <= cp_slot (sto_latest_finalized s) \/
     is_justifiable_after (cp_slot target) (cp_slot (sto_latest_finalized s)) = Ok true) /\
    (st_justified_slot hs <= cp_slot target ->
       exists d, produce_attestation_data s slot = Ok d /\ ad_slot d = slot /\ ad_target d = target /\
         ad_head d = {| cp_root := sto_head s; cp_slot := bk_slot hb |} /\ cp_slot (ad_source d) = st_justified_slot hs /\
         (source_known (hash_tree_root block, block) hs -> bk_slot hb <= slot ->
          slot * INTERVALS_PER_SLOT <= sto_time s + GOSSIP_DISPARITY_INTERVALS -> validate_attestation s d = Ok tt)) /\
    (cp_slot target < st_justified_slot hs -> produce_attestation_data s slot = Err AssertionError).
Proof.
  intros Hc Hr. destruct (reachable_good _ _ _ Hc Hr) as [[Hi _] _]. destruct (si_head _ _ Hi) as [hb Eb].
  destruct (proj1 (store_state_known _ _ _ Hi) (si_head _ _ Hi)) as [hs Es].
  destruct (get_attestation_target_ok _ s Hi) as (t & Et & Htin & Hta & Hj & _). exists hb, hs, t.
  assert (produce_attestation_data s slot = if st_justified_slot hs <=? cp_slot t then
    Ok {| ad_slot := slot; ad_head := {| cp_root := sto_head s; cp_slot := bk_slot hb |}; ad_target := t;
          ad_source := if bool_decide (cp_root (st_latest_justified hs) = ZERO_HASH)
            then {| cp_root := sto_head s; cp_slot := cp_slot (st_latest_justified hs) |} else st_latest_justified hs |}
    else Err AssertionError) as Ep.
  { unfold produce_attestation_data, dgetitem. rewrite Eb. mcbn. rewrite Et. mcbn. rewrite Es. mcbn. by case_bool_decide. }
  split_and!; try done.
  - intros Hle. rewrite (proj2 (Z.leb_le _ _)) in Ep by done. eexists. split_and!; [exact Ep|done|done|done|by case_bool_decide|].
    intros Hk Hs Ht. destruct (produced_vote_validates _ s hb hs slot Hi Eb Es Hk Hs Ht) as (t' & Et' & Hd).
    rewrite Et in Et'. injection Et' as <-. rewrite (proj2 (Z.leb_le _ _)) in Hd by done. destruct Hd as (d & Ed & _ & Hv).
    rewrite Ep in Ed. injection Ed as Ed. rewrite Ed. by destruct (validate_attestation_cases _ s d Hi) as [[_ E]|[Hn _]]; [exact E|].
  - intros Hlt. by rewrite (proj2 (Z.leb_gt _ _)) in Ep.
Qed.

(** After [A1] and [A2] arrive, [A2] having justified [A1], the safe target is still
    genesis, so the target is behind the head's justified slot; and a vote that is valid *)
Lemma attestation_outcome_witness :
  produce_attestation_data storeA2 3 = Err AssertionError /\
  exists d, produce_attestation_data storeT5 1 = Ok d /\ validate_attestation storeT5 d = Ok tt.
Proof.
  destruct (attestation_outcome (H := sample_crypto) sample_genesis genesis_block storeA2 3 sample_anchor sample_storeA2)
    as (hb & hs & target & Eb & Es & Et & _ & _ & _ & _ & Hfail).
  destruct (attestation_outcome (H := sample_crypto) sample_genesis genesis_block storeT5 1 sample_anchor sample_storeT5)
    as (hb' & hs' & target' & Eb' & Es' & Et' & _ & _ & _ & Hvote & _).
  split.
  - apply Hfail. vm_compute in Es, Et. injection Es as <-. injection Et as <-. vm_compute. reflexivity.
  - vm_compute in Eb', Es', Et'. injection Eb' as <-. injection Es' as <-. injection Et' as <-.
    destruct Hvote as (d & Ed & _ & _ & _ & _ & Hv); [vm_compute; discriminate|]. exists d. split; [exact Ed|]. apply Hv.
    + right. vm_compute. split_and!; [reflexivity|discriminate|discriminate].
    + vm_compute. discriminate.
    + vm_compute. discriminate.
Defined.

(** ** Behaviours the comments do not expect *)

(** A lone pending proof, here the votes of validators 0 and 1, disappears in an
    aggregation round: the pending pool is replaced by the merged proofs, and the
    known pool did not have it. *)
Theorem aggregation_drops_lone_proofs :
  reachable_store (H := sample_crypto) sample_genesis genesis_block storeP1 /\
  dget vote_A1 (sto_latest_new_aggregated_payloads storeP1) = Some [sample_proof [true; true]] /\
  exists s', aggregate (H := sample_crypto) storeP1 = Ok (s', []) /\
    sto_latest_new_aggregated_payloads s' = [] /\ sto_latest_known_aggregated_payloads s' = [].
Proof.
  split; [exact sample_storeP1|]. split; [vm_compute; reflexivity|]. eexists.
  split; [vm_compute; reflexivity|]. vm_compute. split; reflexivity.
Qed.

(** Pruning can change the head.  Validator 0 voted for [C3] and later for the
    orphaned [B2]: only the later vote counts, and it supports no child of the
    justified block.  Pruning drops it, the earlier vote counts again, and the head
    moves from [A3] to [C3]. *)
Theorem pruning_can_change_the_head :
  reachable_store (H := sample_crypto) sample_genesis genesis_block storeF7 /\
  exists s1 pruned s2, update_head storeF7 = Ok s1 /\ sto_head s1 = cp_root A3_checkpoint /\
    prune_stale_attestation_data storeF7 = Ok pruned /\
    update_head pruned = Ok s2 /\ sto_head s2 = cp_root C3_checkpoint.
Proof.
  split; [exact sample_storeF7|]. eexists _, _, _. split; [vm_compute; reflexivity|].
  split; [vm_compute; reflexivity|]. split; [vm_compute; reflexivity|].
  split; vm_compute; reflexivity.
Qed.
