(* ===== verification/EndToEnd.v ===== *)
(** * A vote from the signer's key to the store

    The scheme, the registry and the store put together: the store runs with the
    verifier of crypto/xmss as its [Crypto] interface, and the vote of a validator
    whose public key the registry holds, signed with the matching secret key, is
    accepted from gossip. *)

From S2P Require Import Prelude Pydict Uint Ssz SszCorrect Sha256 Merkle Containers StateTransition.
From S2P Require Import Poseidon Shake128 Proofs Xmss XmssCorrect XmssTrees XmssTheorems XmssVerifier.
From S2P Require Import Signatures SignaturesCorrect ForkChoice SampleStores.

Section Vote.
Context (c : XmssConfig) (ph : PoseidonXmss) (Hok : scheme_ok c ph) (Hlengths : scheme_lengths c = true).
Context (prover : Prover).

Lemma key_ok_repr pk sk s e :
  key_ok c ph pk sk s e -> well_typed (class_of PublicKey_type) (key_repr pk) = true.
Proof.
  intros Hk. unfold scheme_lengths in Hlengths. bool_to_prop.
  destruct (ko_parameter _ _ _ _ _ _ Hk) as [Hp Ep]. pose proof (ko_root _ _ _ _ _ _ Hk) as Hr.
  apply key_repr_typed; [|rewrite Ep]; congruence.
Qed.

(** The registry gives back the key it stores the encoding of. *)
Lemma registered_key pk sk s e validators i v :
  key_ok c ph pk sk s e -> validators !! Z.to_nat i = Some v ->
  PublicKey_encode_bytes (key_repr pk) = Ok (val_attestation_public_key v) ->
  attestation_key validators i = Ok (key_repr pk).
Proof.
  intros Hk Ev Eb. unfold attestation_key. rewrite Ev. mcbn.
  apply (ok_decode _ (class_of_ok _ wf_PublicKey)). split; [by eapply key_ok_repr|done].
Qed.

Lemma signed_vote_verifies pk sk s e slot message sg :
  key_ok c ph pk sk s e -> length message = 32%nat -> sign c ph sk slot message = Ok sg ->
  scheme_verify c ph (key_repr pk) slot message sg = Ok true.
Proof.
  intros Hk Hm Es. unfold scheme_verify. rewrite PublicKey_of_repr. mcbn.
  assert (Decision (signable c sk slot)) as [Hs|Hs] by (unfold signable; apply _).
  - destruct (sign_ok c ph Hok pk sk s e slot message Hk Hm Hs) as [?|(? & ? & _ & ?)]; congruence.
  - rewrite (sign_outside c ph sk slot message Hs) in Es. discriminate.
Qed.
End Vote.

(** C10: an honest vote is accepted.  With the verifier of the scheme behind the store,
    a vote that passes validation, cast by a validator whose registered key is the
    encoding of a public key and signed with the secret key that goes with it, is
    accepted by the gossip handler; an aggregator keeps the signature in its pool. *)
Theorem honest_vote_is_accepted (c : XmssConfig) (ph : PoseidonXmss) (Hok : scheme_ok c ph)
    (Hlengths : scheme_lengths c = true) (prover : Prover) (store : Store) (target_state : State)
    (data : AttestationData) (i : Z) (v : Validator) (pk : PublicKey) (sk : SecretKey)
    (signature : Signature) (is_aggregator : bool) :
  validate_attestation store data = Ok tt -> ssz_valid data = true ->
  dget (cp_root (ad_target data)) (sto_states store) = Some target_state ->
  0 <= i -> st_validators target_state !! Z.to_nat i = Some v ->
  PublicKey_encode_bytes (key_repr pk) = Ok (val_attestation_public_key v) ->
  held_key c ph pk sk -> sign c ph sk (ad_slot data) (hash_tree_root data) = Ok signature ->
  exists store',
    on_gossip_attestation (H := xmss_crypto c ph Hok Hlengths prover) store
      {| sa_validator_index := i; sa_data := data; sa_signature := signature |} is_aggregator = Ok store' /\
    (if is_aggregator then
       exists pool, dget data (sto_attestation_signatures store') = Some pool /\
         {| se_validator_index := i; se_signature := signature |} ∈ pool
     else store' = store).
Proof.
  intros Hval Hd Est Hi Ev Eb Hheld Es. destruct (held_key_ok c ph pk sk Hok Hheld) as (s & e & Hk).
  unfold on_gossip_attestation. cbn zeta. cbn [sa_validator_index sa_data sa_signature].
  rewrite Hval. mcbn. rewrite Est. mcbn. unfold is_within_registry.
  pose proof (lookup_lt_Some _ _ _ Ev) as Hlt. rewrite (proj2 (Z.ltb_lt _ _)) by lia. cbn [negb]. mcbn.
  rewrite (registered_key c ph Hlengths pk sk s e _ i v Hk Ev Eb). mcbn.
  cbn [xmss_verify xmss_crypto].
  rewrite (signed_vote_verifies c ph Hok pk sk s e _ _ _ Hk (proj2 (valid_data_message _ Hd)) Es). mcbn. cbn [negb].
  destruct is_aggregator; eexists; (split; [done|]); [|done].
  cbn [sto_attestation_signatures store_with_pools]. rewrite dget_dset_eq.
  eexists. split; [done|]. apply elem_of_sadd. by left.
Qed.

(** ** A registry of one validator with a small key *)
Definition toy_key_bytes : bytes := Eval vm_compute in
  match PublicKey_encode_bytes (key_repr toy_keys.1) with Ok b => b | Err _ => [] end.
Definition toy_validator : Validator :=
  {| val_attestation_public_key := toy_key_bytes; val_proposal_public_key := toy_key_bytes; val_index := 0 |}.
Definition toy_genesis : State := Eval vm_compute in generate_genesis 0 [toy_validator].
Definition toy_block : Block := Eval vm_compute in {|
  bk_slot := 0; bk_proposer_index := 0; bk_parent_root := ZERO_HASH;
  bk_state_root := hash_tree_root toy_genesis; bk_body := {| bd_attestations := [] |}
|}.
Definition toy_store : Store := Eval vm_compute in get (create_store toy_genesis toy_block (Some 0)).
Definition toy_checkpoint : Checkpoint := Eval vm_compute in {| cp_root := hash_tree_root toy_block; cp_slot := 0 |}.
Definition toy_vote : AttestationData :=
  {| ad_slot := 0; ad_head := toy_checkpoint; ad_target := toy_checkpoint; ad_source := toy_checkpoint |}.
Definition toy_signature : Signature := Eval vm_compute in
  match sign toy_config toy_poseidon toy_keys.2 0 (hash_tree_root toy_vote) with
  | Ok sg => sg
  | Err _ => {| sig_path := []; sig_rho := []; sig_hashes := [] |}
  end.

Lemma honest_vote_is_accepted_witness :
  exists store', on_gossip_attestation
    (H := xmss_crypto toy_config toy_poseidon toy_scheme_ok eq_refl sample_prover) toy_store
    {| sa_validator_index := 0; sa_data := toy_vote; sa_signature := toy_signature |} true = Ok store'.
Proof.
  destruct (honest_vote_is_accepted toy_config toy_poseidon toy_scheme_ok eq_refl sample_prover toy_store
    toy_genesis toy_vote 0 toy_validator toy_keys.1 toy_keys.2 toy_signature true) as (store' & H & _).
  - vm_compute. reflexivity.
  - vm_compute. reflexivity.
  - vm_compute. reflexivity.
  - lia.
  - reflexivity.
  - vm_compute. reflexivity.
  - exact toy_held.
  - vm_compute. reflexivity.
  - exists store'. exact H.
Defined.
