(* ===== verification/SyncSteps.v ===== *)
(** * The sync service as a transition system

    To the rest of the node an event is a sequence of few kinds of steps: a block joins
    the store and its batch the database, or a vote joins the pools.  [handle_event_steps]
    refines the handlers to them, so that an invariant of the node has three cases to
    check and not the whole of the handlers. *)

From S2P Require Import Prelude Pydict Uint Ssz SszCorrect Sha256 Merkle Containers.
From S2P Require Import StateTransition Samples StateCorrect StateHistory Proofs Signatures.
From S2P Require Import SignaturesCorrect ForkChoice ForkChoiceCorrect StoreVotes StoreCorrect.
From S2P Require Import StoreHandlers Aggregation Duties SampleStores AggregationCorrect.
From S2P Require Import StoreReachable DutiesCorrect StoreTheorems DutyTheorems.
From S2P Require Import SszRecords Varint Snappy ReqResp ReqRespCorrect BlockCache PeerManager StateMonad.
From S2P Require Import Backfill BackfillCorrect SyncService SyncTheorems.

(** What the other services see: the store, the batches written, the role *)
Definition sync_view : Type := Store * option (list (list db_write)) * bool.
Definition view_of (s : SyncService) : sync_view := (sv_store s, sv_database s, sv_is_aggregator s).

Section Steps.
Context `{Crypto} `{SetOrder} `{Network} (anchor : Bytes32 * Block) (registry : list Validator).

Inductive sync_step : sync_view -> sync_view -> Prop :=
| sync_block store database role b store1 store2 aggregates :
    block_ok anchor b -> dget (hash_tree_root (sb_block b)) (sto_blocks store) = None ->
    on_block store b = Ok store1 -> _deconstruct_block_into_store store1 b = Ok (store2, aggregates) ->
    sync_step (store, database, role)
      (store2, (fun batches => batches ++ [_persist_block store2 (sb_block b)]) <$> database, role)
| sync_vote store database role a is_aggregator store' :
    vote_ok a -> on_gossip_attestation store a is_aggregator = Ok store' ->
    sync_step (store, database, role) (store', database, role)
| sync_aggregated store database role a store' :
    aggregated_ok a -> on_gossip_aggregated_attestation store a = Ok store' ->
    sync_step (store, database, role) (store', database, role).

Abbreviation steps := (rtc sync_step).
Abbreviation good := (store_good anchor registry).

Lemma sync_step_good v v' : sync_step v v' -> good v.1.1 -> good v'.1.1.
Proof.
  intros [store db role b store1 store2 aggs [Hv Hc] _ E1 E2|store db role a agg store' [Hi _ [_ Hen]] E|store db role a store' Ha E] Hg; cbn in *.
  - pose proof (valid_signed_block _ Hv) as Hb.
    eapply deconstruct_good; [by apply (on_block_good anchor registry store b)|done|exact E2].
  - by apply (gossip_good anchor registry store a agg).
  - by apply (gossip_aggregated_good anchor registry store a).
Qed.

Lemma steps_good v v' : steps v v' -> good v.1.1 -> good v'.1.1.
Proof. induction 1; eauto using sync_step_good. Qed.

(** The store a handler holds in a variable, beside the service's own batches *)
Definition reached (v0 : sync_view) (store : Store) (s : SyncService) : Prop :=
  steps v0 (store, sv_database s, sv_is_aggregator s).
Definition at_view (v0 : sync_view) (s : SyncService) : Prop := reached v0 (sv_store s) s.

(** The handlers return by [handle_event_ok]; here exceptions need no postcondition. *)
Abbreviation whenever := (fun _ _ => True).

Lemma reached_same v0 store s s' :
  sv_database s' = sv_database s -> sv_is_aggregator s' = sv_is_aggregator s -> reached v0 store s -> reached v0 store s'.
Proof. intros Ed Er. unfold reached. by rewrite Ed, Er. Qed.

(** ** Blocks *)
Lemma process_block_steps v0 store block :
  block_ok anchor block -> dmem (hash_tree_root (sb_block block)) (sto_blocks store) = false ->
  triple (reached v0 store) (process_block store block) (fun store' => reached v0 store') (fun _ => reached v0 store).
Proof.
  intros Hb Hnew. apply dmem_false in Hnew. unfold process_block.
  eapply (triple_bind _ _ _ (fun store1 s => reached v0 store s /\ on_block store block = Ok store1)).
  { apply triple_raising. intros s Hs. by destruct (on_block store block). }
  intros store1. apply triple_pure. intros E1.
  do 3 (eapply (triple_bind _ _ _ (fun _ => reached v0 store));
    [apply triple_raising; intros s Hs; by case_match|]; intros ?).
  eapply (triple_bind _ _ _ (fun _ => reached v0 store)); [by apply triple_modify|]. intros _.
  eapply (triple_bind _ _ _ (fun r s => reached v0 store s /\ _deconstruct_block_into_store store1 block = Ok r)).
  { apply triple_raising. intros s Hs. by destruct (_deconstruct_block_into_store store1 block). }
  intros [store2 aggs]. apply triple_pure. intros E2.
  eapply (triple_bind _ _ _ (fun _ => reached v0 store2)); [|intros _; by apply triple_ret].
  apply triple_modify. intros s Hs. eapply rtc_r; [exact Hs|]. by eapply sync_block.
Qed.

Lemma try_process_steps v0 store block :
  block_ok anchor block -> dmem (hash_tree_root (sb_block block)) (sto_blocks store) = false ->
  triple (reached v0 store) (catch (store ← process_block store block; mret (Some store)) (fun _ => mret None))
    (fun r => reached v0 (default store r)) never.
Proof.
  intros Hb Hnew. eapply (triple_catch _ _ _ _ _ (fun _ => reached v0 store)).
  - eapply triple_bind; [by apply process_block_steps|]. intros store'. by apply triple_ret.
  - intros e. by apply triple_ret.
Qed.

Lemma drop_cached_steps v0 store root :
  triple (reached v0 store) (drop_cached root) (fun _ => reached v0 store) never.
Proof. apply triple_modify. intros s. by apply reached_same. Qed.

Lemma drain_children_steps v0 children : forall store unlocked,
  Forall (fun p => block_ok anchor (pb_block p) /\ pb_root p = hash_tree_root (sb_block (pb_block p))) children ->
  triple (reached v0 store) (drain_children children store unlocked) (fun r => reached v0 r.1) never.
Proof.
  induction children as [|child children IH]; intros store unlocked Hc; cbn [drain_children]; [by apply triple_ret|].
  apply Forall_cons in Hc as [[Hb Er] Hc]. destruct (dmem _ (sto_blocks store)) eqn:Em.
  - eapply (triple_bind _ _ _ (fun _ => reached v0 store)); [apply drop_cached_steps|]. intros _. by apply IH.
  - rewrite Er in Em. eapply triple_bind; [by apply try_process_steps|]. intros [store'|]; cbn [default id]; [|by apply IH].
    eapply (triple_bind _ _ _ (fun _ => reached v0 store')); [apply drop_cached_steps|]. intros _. by apply IH.
Qed.

(** ** Events *)
Section Events.
Hypothesis network_ok : NetworkOk (block_ok anchor).
Variable v0 : sync_view.
Hypothesis good0 : good v0.1.1.

Abbreviation inv := (service_inv anchor registry).

Lemma reached_good store s : reached v0 store s -> good store.
Proof. intros Hs. by apply (steps_good _ _ Hs). Qed.

Lemma children_blocks parent s :
  inv s ->
  let children := get_children parent (service_cache s) in
  Forall (cached s) children /\ NoDup (map pb_root children) /\
  Forall (fun p => block_ok anchor (pb_block p) /\ pb_root p = hash_tree_root (sb_block (pb_block p))) children.
Proof.
  intros Hs. cbn zeta. pose proof (bi_cache _ _ (sv_books _ _ _ Hs)) as Hci. split_and!.
  - apply Forall_forall. intros p Hp. by apply (elem_of_get_children _ _ _ Hci) in Hp as [? _].
  - by apply get_children_roots.
  - apply Forall_forall. intros p Hp. apply (elem_of_get_children _ _ _ Hci) in Hp as [Hp _].
    split; [by apply (bi_good _ _ (sv_books _ _ _ Hs) _ _ Hp)|]. by rewrite (ec_root _ _ (ci_entry _ Hci _ _ Hp)).
Qed.

Lemma drain_steps fuel : forall unlocked store,
  triple (fun s => inv s /\ reached v0 store s) (drain fuel unlocked store) (fun store' => reached v0 store') whenever.
Proof.
  induction fuel as [|fuel IH]; intros [|parent unlocked] store; cbn [drain]; try (apply triple_ret; tauto); [done|].
  intros s [Hs Hr]. rewrite run_gets. destruct (children_blocks parent s Hs) as (Hc & Hn & Hb).
  pose proof (drain_children_ok anchor registry (sv_store s, sv_state s) (cache_size s) _ store [] (reached_good _ _ Hr) Hn) as Hk.
  pose proof (drain_children_steps v0 _ store [] Hb) as Hst.
  refine (triple_bind _ _ (fun s0 => keeps anchor registry (sv_store s, sv_state s) s0 /\
      Forall (cached s0) (get_children parent (service_cache s)) /\ (cache_size s0 + length (@nil Bytes32) <= cache_size s)%nat /\ reached v0 store s0)
    (fun r s => inv s /\ reached v0 r.1 s) _ whenever _ _ s _).
  - eapply triple_consequence; [apply (triple_and _ _ _ _ _ _ _ Hk Hst)|..]; [tauto| |done].
    intros r s' [[[[? _] _] _] ?]. done.
  - intros [store' new]. apply IH.
  - split_and!; try done. cbn. lia.
Qed.

Lemma run_backfill_steps {A} store (m : StoreView -> M BackfillState A) :
  triple (reached v0 store) (run_backfill m) (fun _ => reached v0 store) whenever.
Proof. intros s Hs. unfold run_backfill, zoom. by destruct (m _ _) as [[a|e] t]. Qed.

Lemma head_on_gossip_block_steps store block peer :
  block_ok anchor block ->
  triple (fun s => keeps anchor registry (store, sv_state s) s /\ reached v0 store s) (head_on_gossip_block block peer store)
    (fun r => reached v0 (default store r)) whenever.
Proof.
  intros Hb. unfold head_on_gossip_block. cbn zeta.
  destruct (dmem _ (sto_blocks store)) eqn:Em; [apply triple_ret; by intros s [_ ?]|].
  destruct (negb _).
  - destruct (_ <=? cp_slot _); [apply triple_ret; by intros s [_ ?]|].
    apply (triple_consequence _ _ (reached v0 store) _ (fun r => reached v0 (default store r)) _ whenever); [|by intros s [_ ?]|done..].
    eapply (triple_bind _ _ _ (fun _ => reached v0 store)); [apply run_backfill_steps|]. intros pending.
    eapply (triple_bind _ _ _ (fun _ => reached v0 store)); [by apply triple_modify|]. intros _.
    eapply (triple_bind _ _ _ (fun _ => reached v0 store)); [apply triple_raising; intros s Hs; by case_match|]. intros head.
    eapply (triple_bind _ _ _ (fun _ => reached v0 store)); [apply run_backfill_steps|]. intros fetched.
    eapply (triple_bind _ _ _ (fun _ => reached v0 store)); [|intros _; by apply triple_ret].
    destruct fetched; [by apply triple_ret|apply run_backfill_steps].
  - intros s [[Hs Est] Hr].
    pose proof (try_process_ok anchor registry (store, sv_state s) (sv_backfill s) store block (reached_good _ _ Hr) Hb s) as Hk.
    pose proof (try_process_steps v0 store block Hb Em s Hr) as Ht.
    destruct (catch _ _ s) as [[r|e] s1] eqn:Ec; [|by destruct Ht]. rewrite (run_bind _ _ _ _ _ Ec).
    destruct Hk as [(Hs1 & Est1 & _) _]; [by split_and!|]. destruct r as [store'|]; [|exact Ht]. cbn in Ht.
    unfold drop_cached. rewrite run_modify, run_gets. set (s2 := update_cache _ s1).
    assert (inv s2) as Hs2 by apply (drop_cached_inv anchor registry (store, sv_state s) _ s1 (conj Hs1 Est1)).
    pose proof (drain_steps (S (length (bc_blocks (service_cache s2)))) [hash_tree_root (sb_block block)] store' s2 (conj Hs2 Ht)) as Hd.
    unfold mbind, M_bind. by destruct (drain _ _ _ s2) as [[store2|e] s3].
Qed.

(** ** Votes *)
Lemma take_attestation_steps role a :
  vote_ok a -> triple (at_view v0) (take_attestation role a) (fun _ => at_view v0) whenever.
Proof.
  intros Ha s Hs. unfold take_attestation. rewrite run_gets. unfold mbind, M_bind, raising.
  destruct (on_gossip_attestation (sv_store s) a role) as [store'|[]] eqn:E; cbn; try done; [|by destruct (bufferable _)].
  eapply rtc_r; [exact Hs|]. by eapply sync_vote.
Qed.

Lemma take_aggregated_steps a :
  aggregated_ok a -> triple (at_view v0) (take_aggregated a) (fun _ => at_view v0) whenever.
Proof.
  intros Ha s Hs. unfold take_aggregated. rewrite run_gets. unfold mbind, M_bind, raising.
  destruct (on_gossip_aggregated_attestation (sv_store s) a) as [store'|[]] eqn:E; cbn; try done; [|by destruct (bufferable _)].
  eapply rtc_r; [exact Hs|]. by eapply sync_aggregated.
Qed.

(** A step of the votes keeps the invariant, the phase and the view. *)
Definition tracked (phase : SyncState) (s : SyncService) : Prop := in_phase anchor registry phase s /\ at_view v0 s.

Lemma tracked_triple {A} phase (m : M SyncService A) :
  triple (in_phase anchor registry phase) m (fun _ => in_phase anchor registry phase) never ->
  triple (at_view v0) m (fun _ => at_view v0) whenever ->
  triple (tracked phase) m (fun _ => tracked phase) never.
Proof. intros Hm Hm'. eapply triple_consequence; [apply (triple_and _ _ _ _ _ _ _ Hm Hm')|..]; [done|done|]. by intros e s [? _]. Qed.

Lemma clear_votes_tracked phase f s :
  (forall s, inv s -> inv (f s)) -> (forall s, view_of (f s) = view_of s /\ sv_state (f s) = sv_state s) ->
  tracked phase s -> tracked phase (f s).
Proof.
  intros Hf Hv [[Hs Hp] Hr]. destruct (Hv s) as [Ev Es]. split; [by split; [apply Hf|congruence]|].
  unfold at_view, reached in *. by injection Ev as -> -> ->.
Qed.

Lemma replay_steps phase : triple (tracked phase) _replay_pending_attestations (fun _ => tracked phase) never.
Proof.
  unfold _replay_pending_attestations. eapply (triple_bind _ _ _ (fun _ => tracked phase)); [by apply triple_gets|]. intros role.
  eapply (triple_bind _ _ _ (fun l s => tracked phase s /\ Forall vote_ok l)); [apply triple_gets; intros s Hs; split; [done|apply Hs]|].
  intros votes. apply triple_pure. intros Hvotes.
  eapply (triple_bind _ _ _ (fun _ => tracked phase)).
  { apply triple_modify. intros s. apply (clear_votes_tracked phase (fun s => with_buffers [] (sv_pending_aggregated_attestations s) s)); [|done].
    intros s' []. split; cbn; try done; by split. }
  intros _. eapply (triple_bind _ _ _ (fun _ => tracked phase)).
  { apply triple_for_each. intros a Ha. rewrite Forall_forall in Hvotes.
    apply tracked_triple; [by apply take_attestation_ok, Hvotes|by apply take_attestation_steps, Hvotes]. }
  intros _. eapply (triple_bind _ _ _ (fun l s => tracked phase s /\ Forall aggregated_ok l));
    [apply triple_gets; intros s Hs; split; [done|apply Hs]|].
  intros aggs. apply triple_pure. intros Haggs.
  eapply (triple_bind _ _ _ (fun _ => tracked phase)).
  { apply triple_modify. intros s. apply (clear_votes_tracked phase (fun s => with_buffers (sv_pending_attestations s) [] s)); [|done].
    intros s' []. split; cbn; try done; by split. }
  intros _. apply triple_for_each. intros a Ha. rewrite Forall_forall in Haggs.
  apply tracked_triple; [by apply take_aggregated_ok, Haggs|by apply take_aggregated_steps, Haggs].
Qed.

(** ** The handlers *)
Lemma transition_steps phase : triple (at_view v0) (_transition_to phase) (fun _ => at_view v0) whenever.
Proof. intros s Hs. unfold _transition_to. rewrite run_gets. by destruct (_ || _). Qed.

Lemma check_complete_steps : triple (at_view v0) _check_sync_complete (fun _ => at_view v0) whenever.
Proof.
  intros s Hs. unfold _check_sync_complete. rewrite run_gets. destruct (negb _); [done|]. rewrite run_gets.
  destruct (_ >? 0); [done|]. rewrite run_gets. destruct (get_network_finalized_slot _); [|done].
  rewrite run_gets. destruct (head_slot_of s); [|done]. rewrite run_raising. destruct (_ : bool); [by apply transition_steps|done].
Qed.

Lemma gossip_block_steps block peer :
  block_ok anchor block ->
  triple (fun s => inv s /\ at_view v0 s) (sync_on_gossip_block block peer) (fun _ => at_view v0) whenever.
Proof.
  intros Hb s [Hs Hr]. unfold sync_on_gossip_block. rewrite run_gets. destruct (negb _); [done|]. rewrite run_gets.
  pose proof (head_on_gossip_block_ok anchor registry answers_root answers_range (sv_store s) (sv_state s) block peer (sv_good _ _ _ Hs) Hb s
    (conj Hs eq_refl)) as Hk.
  pose proof (head_on_gossip_block_steps (sv_store s) block peer Hb s (conj (conj Hs eq_refl) Hr)) as Ht.
  destruct (head_on_gossip_block block peer (sv_store s) s) as [[r|e] s1] eqn:Eh; [|by destruct Hk].
  rewrite (run_bind _ _ _ _ _ Eh). destruct Hk as [[Hs1 Est1] Hg].
  refine (triple_bind _ _ (fun s' => s' = s1) (fun _ => at_view v0) _ _ _ (fun _ => check_complete_steps) s1 eq_refl).
  intros ? ->. destruct r as [store|]; cbn in Ht.
  - rewrite run_modify. pose proof (replay_steps (sv_state s1) (with_store store s1)) as Hrep.
    unfold mbind, M_bind. destruct (_replay_pending_attestations (with_store store s1)) as [[u|e] s2]; [|done].
    apply Hrep. split; [|done]. destruct Hs1. by split; [split|].
  - injection Est1 as E _. change (at_view v0 s1). unfold at_view. by rewrite E.
Qed.

Lemma event_steps e :
  event_ok anchor e -> triple (fun s => inv s /\ at_view v0 s) (_handle_event e) (fun _ => at_view v0) whenever.
Proof.
  intros He. destruct e as [block peer|a|a|peer status|peer|peer]; cbn [_handle_event event_ok] in *.
  - by apply gossip_block_steps.
  - intros s [_ Hr]. unfold sync_on_gossip_attestation. rewrite run_gets. destruct (negb _); [done|].
    rewrite run_gets. by apply take_attestation_steps.
  - intros s [_ Hr]. unfold sync_on_gossip_aggregated_attestation. rewrite run_gets. destruct (negb _); [done|].
    by apply take_aggregated_steps.
  - intros s [_ Hr]. unfold on_peer_status. rewrite run_modify, run_gets. destruct (bool_decide _); [done|].
    rewrite run_gets. destruct (get_network_finalized_slot _); [|done]. rewrite run_gets.
    destruct (head_slot_of _); [|done]. rewrite run_raising. destruct (_ : bool); [by apply transition_steps|done].
  - apply triple_modify. by intros s [_ ?].
  - apply triple_modify. by intros s [_ ?].
Qed.
End Events.

(** An event returns, keeps the invariant, and is a sequence of steps on the view. *)
Lemma handle_event_steps e s :
  NetworkOk (block_ok anchor) -> service_inv anchor registry s -> event_ok anchor e ->
  exists s', _handle_event e s = (Ok tt, s') /\ service_inv anchor registry s' /\ steps (view_of s) (view_of s').
Proof.
  intros Hn Hs He. destruct (handle_event_ok anchor registry answers_root answers_range e s Hs He) as (s' & E & Hs' & _).
  exists s'. split_and!; [done|done|].
  pose proof (event_steps Hn (view_of s) (sv_good _ _ _ Hs) e He s (conj Hs (rtc_refl _ _))) as Ht. by rewrite E in Ht.
Qed.

Lemma events_steps events : forall s,
  NetworkOk (block_ok anchor) -> service_inv anchor registry s -> Forall (event_ok anchor) events ->
  exists s', for_each events _handle_event s = (Ok tt, s') /\ service_inv anchor registry s' /\ steps (view_of s) (view_of s').
Proof.
  induction events as [|e events IH]; intros s Hn Hs He; [by exists s|]. apply Forall_cons in He as [He Hes].
  destruct (handle_event_steps e s Hn Hs He) as (s1 & E1 & Hs1 & Hst1).
  destruct (IH s1 Hn Hs1 Hes) as (s2 & E2 & Hs2 & Hst2). exists s2. cbn [for_each]. rewrite (run_bind _ _ _ _ _ E1).
  split_and!; [done|done|by etrans].
Qed.

(** ** Time *)
Lemma deconstruct_frame store block store' aggregates :
  _deconstruct_block_into_store store block = Ok (store', aggregates) ->
  exists new, store' = store_with_pools store (sto_attestation_signatures store) new (sto_latest_known_aggregated_payloads store).
Proof.
  intros E. assert (store = store_with_pools store (sto_attestation_signatures store) (sto_latest_new_aggregated_payloads store)
    (sto_latest_known_aggregated_payloads store)) as Hsame by (by destruct store).
  unfold _deconstruct_block_into_store in E. case_match; [injection E as <- _; eauto|].
  case_match; [|injection E as <- _; eauto]. apply bind_Ok in E as (keys & _ & E). apply bind_Ok in E as ([new aggs] & _ & E).
  case_match; injection E as <- _; eauto.
Qed.

Lemma on_block_time store b store' : on_block store b = Ok store' -> sto_time store' = sto_time store.
Proof.
  intros [[-> _]|(parent & post & s1 & _ & _ & _ & E1 & Hs)]%on_block_stages; [done|]. apply update_head_time in E1. cbn in E1.
  destruct Hs as [->|E]; [done|]. apply prune_time in E. congruence.
Qed.

(** Events leave the clock of the store and the role alone. *)
Lemma step_clock v v' : sync_step v v' -> sto_time v'.1.1 = sto_time v.1.1 /\ v'.2 = v.2.
Proof.
  intros [store db role b store1 store2 aggs _ _ E1 E2|store db role a agg store' _ E|store db role a store' _ E]; cbn; (split; [|done]).
  - apply deconstruct_frame in E2 as [new ->]. cbn. by eapply on_block_time.
  - by eapply gossip_time.
  - by eapply gossip_aggregated_time.
Qed.

Lemma steps_clock v v' : steps v v' -> sto_time v'.1.1 = sto_time v.1.1 /\ v'.2 = v.2.
Proof. induction 1 as [|x y z Hs _ [IH1 IH2]]; [done|]. apply step_clock in Hs as [? ?]. by rewrite IH1, IH2. Qed.
End Steps.
