(* ===== verification/ChainCorrect.v ===== *)
(** * The clock and the chain service are correct

    The accessors of the clock agree, and the store of the node follows the clock
    whatever the other tasks do between two intervals. *)

From S2P Require Import Prelude Pydict Uint Ssz SszCorrect Sha256 Merkle Containers.
From S2P Require Import StateTransition Samples StateCorrect StateHistory Proofs Signatures.
From S2P Require Import SignaturesCorrect ForkChoice ForkChoiceCorrect StoreVotes StoreCorrect.
From S2P Require Import StoreHandlers Aggregation Duties SampleStores AggregationCorrect.
From S2P Require Import StoreReachable DutiesCorrect StoreTheorems DutyTheorems.
From S2P Require Import SszRecords Varint Snappy ReqResp ReqRespCorrect BlockCache PeerManager StateMonad.
From S2P Require Import Backfill BackfillCorrect SyncService SyncTheorems SyncSteps ChainService.

(** ** The clock *)

(** A reading the unsigned types can hold *)
Record clock_ok (genesis_time now : Z) : Prop := {
  ck_genesis : 0 <= genesis_time;
  ck_now : 0 <= now;
  ck_width : milliseconds now < 2 ^ 64
}.

(** Milliseconds since genesis *)
Definition elapsed (genesis_time now : Z) : Z := Z.max 0 (milliseconds now - genesis_time * 1000).

Section Clock.
Context (genesis_time now : Z) (Hok : clock_ok genesis_time now).
Let e := elapsed genesis_time now.

Lemma elapsed_range : in_range 64 e.
Proof using Hok. destruct Hok. subst e. unfold elapsed, in_range. lia. Qed.

Lemma since_genesis_eq : _milliseconds_since_genesis genesis_time now = Ok e.
Proof using Hok.
  pose proof elapsed_range as Hr. unfold _milliseconds_since_genesis. subst e. unfold elapsed in *.
  destruct (Z.ltb_spec (milliseconds now) (genesis_time * 1000)).
  - by replace (Z.max _ _) with 0 by lia.
  - rewrite uint_new_in_range; [|by replace (_ - _) with (Z.max 0 (milliseconds now - genesis_time * 1000)) by lia]. f_equal. lia.
Qed.

Lemma elapsed_div d : 0 < d -> uint_floordiv 64 e d = Ok (e / d).
Proof using Hok.
  intros Hd. pose proof elapsed_range as Hr. unfold uint_floordiv. destruct (Z.eqb_spec d 0); [lia|]. cbn [negb].
  apply uint_new_in_range. unfold in_range in *. split; [apply Z.div_pos; lia|].
  apply Z.div_lt_upper_bound; nia.
Qed.

Lemma total_intervals_eq : total_intervals genesis_time now = Ok (e / 800).
Proof using Hok. unfold total_intervals. rewrite since_genesis_eq. mcbn. by apply elapsed_div. Qed.

Lemma current_slot_eq : current_slot genesis_time now = Ok (e / 4000).
Proof using Hok. unfold current_slot. rewrite since_genesis_eq. mcbn. by apply elapsed_div. Qed.

Lemma current_interval_eq : current_interval genesis_time now = Ok (e mod 4000 / 800).
Proof using Hok.
  unfold current_interval. rewrite since_genesis_eq. mcbn. unfold uint_mod.
  pose proof (Z.mod_pos_bound e 4000 ltac:(lia)) as Hm. change MILLISECONDS_PER_SLOT with 4000. cbn [Z.eqb negb].
  rewrite uint_new_in_range by (unfold in_range; lia). mcbn. unfold uint_floordiv. change MILLISECONDS_PER_INTERVAL with 800.
  cbn [Z.eqb negb]. apply uint_new_in_range. unfold in_range.
  split; [apply Z.div_pos; lia|apply Z.div_lt_upper_bound; lia].
Qed.

Lemma current_time_eq : current_time now = Ok (now / 1000000).
Proof using Hok.
  destruct Hok as [Hg Hn Hw]. unfold current_time, milliseconds in *. rewrite Z.quot_div_nonneg in * by lia.
  apply uint_new_in_range. split; [apply Z.div_pos; lia|]. 
  assert (now / 1000000 <= now / 1000) by (apply Z.div_le_compat_l; lia). lia.
Qed.

(** The test of the services, in seconds, agrees with the milliseconds. *)
Lemma before_genesis : now / 1000000 < genesis_time <-> milliseconds now < genesis_time * 1000.
Proof using Hok.
  destruct Hok as [Hg Hn Hw]. unfold milliseconds. rewrite Z.quot_div_nonneg by lia.
  change 1000000 with (1000 * 1000) at 1. rewrite <- Z.div_div by lia. split; intros Hl.
  - pose proof (Z.mod_pos_bound (now / 1000) 1000 ltac:(lia)). pose proof (Z.div_mod (now / 1000) 1000 ltac:(lia)). lia.
  - apply Z.div_lt_upper_bound; lia.
Qed.

Lemma sleep_eq :
  seconds_until_next_interval genesis_time now =
    Ok (if milliseconds now <? genesis_time * 1000 then genesis_time * 1000 - milliseconds now else 800 - e mod 800).
Proof using Hok. unfold seconds_until_next_interval. case_match; [done|]. rewrite since_genesis_eq. done. Qed.
End Clock.

(** The accessors of the clock split time the same way: the total number of intervals
    is five per slot plus the interval in the slot, which is 0 to 4, the interval holds
    the current millisecond, and a sleeper wakes at the first millisecond of the next
    interval (of the first one, before genesis), having slept at most one interval
    after genesis and never zero. *)
Theorem slot_clock_consistent (genesis_time now now' : Z) :
  clock_ok genesis_time now -> clock_ok genesis_time now' ->
  exists total slot interval sleep,
    total_intervals genesis_time now = Ok total /\ current_slot genesis_time now = Ok slot /\
    current_interval genesis_time now = Ok interval /\ seconds_until_next_interval genesis_time now = Ok sleep /\
    total = INTERVALS_PER_SLOT * slot + interval /\ 0 <= interval < INTERVALS_PER_SLOT /\ 0 < sleep /\
    (genesis_time * 1000 <= milliseconds now ->
       slot * MILLISECONDS_PER_SLOT + interval * MILLISECONDS_PER_INTERVAL <= milliseconds now - genesis_time * 1000
         < slot * MILLISECONDS_PER_SLOT + (interval + 1) * MILLISECONDS_PER_INTERVAL /\
       sleep <= MILLISECONDS_PER_INTERVAL) /\
    (milliseconds now' = milliseconds now + sleep ->
       total_intervals genesis_time now' = Ok (if milliseconds now <? genesis_time * 1000 then 0 else total + 1)) /\
    (now <= now' -> exists total', total_intervals genesis_time now' = Ok total' /\ total <= total').
Proof.
  intros Hok Hok'. rewrite total_intervals_eq, current_slot_eq, current_interval_eq, sleep_eq by done.
  rewrite (total_intervals_eq _ now') by done. eexists _, _, _, _. split_and!; try done.
  all: change MILLISECONDS_PER_SLOT with 4000 || idtac; change MILLISECONDS_PER_INTERVAL with 800 || idtac;
       change INTERVALS_PER_SLOT with 5 || idtac.
  all: assert (0 <= elapsed genesis_time now) as He by (unfold elapsed; lia).
  - Z.to_euclidean_division_equations. lia.
  - Z.to_euclidean_division_equations. lia.
  - Z.to_euclidean_division_equations. lia.
  - destruct (Z.ltb_spec (milliseconds now) (genesis_time * 1000)); [lia|]. Z.to_euclidean_division_equations. lia.
  - intros Hg. destruct (Z.ltb_spec (milliseconds now) (genesis_time * 1000)); [lia|].
    assert (milliseconds now - genesis_time * 1000 = elapsed genesis_time now) as -> by (unfold elapsed; lia).
    split; Z.to_euclidean_division_equations; lia.
  - intros Hm. unfold elapsed at 1. rewrite Hm. f_equal. destruct (Z.ltb_spec (milliseconds now) (genesis_time * 1000)).
    + by replace (Z.max _ _) with 0 by lia.
    + set (x := elapsed genesis_time now) in *. assert (milliseconds now - genesis_time * 1000 = x) as Hx by (subst x; unfold elapsed; lia).
      pose proof (Z.mod_pos_bound x 800 ltac:(lia)). rewrite Z.max_r by lia.
      replace (milliseconds now + (800 - x mod 800) - genesis_time * 1000) with (x + (800 - x mod 800)) by lia.
      clear Hx Hm. clearbody x. Z.to_euclidean_division_equations. lia.
  - intros Hn. eexists. split; [done|]. apply Z.div_le_mono; [lia|]. unfold elapsed, milliseconds.
    destruct Hok, Hok'. rewrite !Z.quot_div_nonneg by lia.
    assert (now / 1000 <= now' / 1000) by (apply Z.div_le_mono; lia). lia.
Qed.

Lemma slot_clock_consistent_witness : exists total slot interval sleep,
  total_intervals 1000 1013700500 = Ok total /\ current_slot 1000 1013700500 = Ok slot /\
  current_interval 1000 1013700500 = Ok interval /\ seconds_until_next_interval 1000 1013700500 = Ok sleep /\
  total = INTERVALS_PER_SLOT * slot + interval /\ 0 <= interval < INTERVALS_PER_SLOT /\ 0 < sleep /\
  (1000 * 1000 <= milliseconds 1013700500 ->
     slot * MILLISECONDS_PER_SLOT + interval * MILLISECONDS_PER_INTERVAL <= milliseconds 1013700500 - 1000 * 1000
       < slot * MILLISECONDS_PER_SLOT + (interval + 1) * MILLISECONDS_PER_INTERVAL /\
     sleep <= MILLISECONDS_PER_INTERVAL) /\
  (milliseconds 1014400000 = milliseconds 1013700500 + sleep ->
     total_intervals 1000 1014400000 = Ok (if milliseconds 1013700500 <? 1000 * 1000 then 0 else total + 1)) /\
  (1013700500 <= 1014400000 -> exists total', total_intervals 1000 1014400000 = Ok total' /\ total <= total').
Proof. apply (slot_clock_consistent 1000 1013700500 1014400000); split; vm_compute; congruence. Defined.

(** ** The chain service *)
(** A tick behind its target is the loop, from the time the catch-up skips to. *)
Lemma tick_to_eq `{Crypto} `{SetOrder} `{Network} `{World} target s :
  0 <= sto_time (sync_store s) -> in_range 64 target -> sto_time (sync_store s) < target ->
  _tick_to target s =
    tick_loop (Z.to_nat INTERVALS_PER_SLOT) target
      (if 5 <? target - sto_time (sync_store s) then store_with_time (sync_store s) (target - 5) else sync_store s) [] s.
Proof.
  intros Ht Hr Hlt. unfold _tick_to. rewrite run_gets. unfold in_range in Hr. rewrite (proj2 (Z.leb_gt _ _)) by lia.
  unfold uint_sub. rewrite (uint_new_in_range 64 (target - sto_time (sync_store s))) by (unfold in_range; lia). rewrite run_raising.
  generalize (Z.to_nat INTERVALS_PER_SLOT). intros fuel. change INTERVALS_PER_SLOT with 5. rewrite Z.gtb_ltb.
  destruct (Z.ltb_spec 5 (target - sto_time (sync_store s))); [|reflexivity].
  rewrite (uint_new_in_range 64 (target - 5)) by (unfold in_range; lia). reflexivity.
Qed.

Section Chain.
Context `{Crypto} `{SetOrder} `{Network} `{World} (anchor : Bytes32 * Block) (registry : list Validator).
Hypothesis network_ok : NetworkOk (block_ok anchor).
Hypothesis events_ok : forall n, Forall (event_ok anchor) (events_at n).

Definition chain_inv (s : ChainService) : Prop := service_inv anchor registry (ch_sync s).
Definition chain_time (s : ChainService) : Z := sto_time (sync_store s).
Definition chain_role (s : ChainService) : bool := sv_is_aggregator (ch_sync s).

(** What a yield leaves alone *)
Record ticked (time : Z) (s s' : ChainService) : Prop := {
  tk_inv : chain_inv s';
  tk_time : chain_time s' = time;
  tk_role : chain_role s' = chain_role s;
  tk_running : ch_running s' = ch_running s;
  tk_readings : ch_readings s' = ch_readings s
}.

Lemma yield_ok s : chain_inv s -> exists s', yield_to_loop s = (Ok tt, s') /\ ticked (chain_time s) s s'.
Proof.
  intros Hs. unfold yield_to_loop.
  destruct (events_steps anchor registry (events_at (ch_yields s)) (ch_sync s) network_ok Hs (events_ok _)) as (s' & -> & Hs' & Hst).
  eexists. split; [done|]. apply steps_clock in Hst as [Ht Hr]. by split.
Qed.

(** A node that does not aggregate never calls the prover. *)
Lemma tick_interval_follower s hp :
  store_ok anchor registry s -> in_range 64 (sto_time s + 1) -> exists s', tick_interval s hp false = Ok (s', []).
Proof.
  intros Hok Hr. unfold tick_interval, uint_add. rewrite uint_new_in_range by done. mcbn.
  assert (store_ok anchor registry (store_with_time s (sto_time s + 1))) as Hok1.
  { destruct Hok. split; [by apply time_inv|by apply votes_inv_time]. }
  destruct (accept_ok _ _ _ Hok1) as (sa & -> & _), (safe_target_ok _ _ _ Hok1) as (st & -> & _). mcbn.
  rewrite andb_false_r. repeat case_match; eauto.
Qed.

Lemma set_store_inv store s : chain_inv s -> store_good anchor registry store -> chain_inv (set_store store s).
Proof. intros [] Hg. by split. Qed.

(** The result of a run of ticks: the time reached, or an exception of the prover *)
Definition tick_result {A} (time : Z) (s : ChainService) (r : result A * ChainService) : Prop :=
  match r with
  | (Ok _, s') => ticked time s s'
  | (Err e, s') => chain_inv s' /\ aggregation_error e /\ chain_role s = true
  end.

Lemma tick_loop_ok target fuel : forall store l s,
  in_range 64 target -> chain_inv s -> store_good anchor registry store -> (Z.to_nat (target - sto_time store) <= fuel)%nat ->
  (sto_time store <= target) -> (chain_time s = sto_time store \/ sto_time store < target) ->
  tick_result target s (tick_loop fuel target store l s).
Proof.
  induction fuel as [|fuel IH]; intros store l s Hr Hs Hg Hf Hle Hor; cbn [tick_loop];
    destruct (Z.ltb_spec (sto_time store) target) as [Hlt|Hge]; try lia; try (split; try done; lia).
  rewrite run_gets. destruct Hg as [Hok Ht]. fold (chain_role s).
  assert (in_range 64 (sto_time store + 1)) as Hr1 by (unfold in_range in *; lia).
  destruct (tick_interval_cases anchor registry store false (chain_role s) Hok Hr1) as [(store1 & l1 & E & Hok1 & Ht1)|(e & E & He)].
  - rewrite E, run_raising. cbn beta iota. rewrite run_modify.
    assert (chain_inv (set_store store1 s)) as Hs1 by (apply set_store_inv; [done|split; [done|lia]]).
    destruct (yield_ok _ Hs1) as (s2 & Ey & [Hi2 Ht2 Hr2 Hn2 Hd2]). rewrite (run_bind _ _ _ _ _ Ey), run_gets.
    fold (chain_time s2). change (chain_time (set_store store1 s)) with (sto_time store1) in Ht2.
    change (chain_role s2 = chain_role s) in Hr2. change (ch_running s2 = ch_running s) in Hn2.
    change (ch_readings s2 = ch_readings s) in Hd2.
    unshelve epose proof (IH (sync_store s2) (l ++ l1) s2 Hr Hi2 _ _ _ _) as Hloop; [apply Hi2|fold (chain_time s2); lia..|by left|].
    unfold tick_result in *. destruct (tick_loop fuel target _ _ s2) as [[l'|e] s3].
    + destruct Hloop. split; try done; congruence.
    + destruct Hloop as (? & ? & ?). split_and!; [done|done|congruence].
  - rewrite E. unfold mbind, M_bind, raising. cbn. split_and!; [done|done|].
    destruct (chain_role s) eqn:Er; [done|]. destruct (tick_interval_follower store false Hok Hr1). congruence.
Qed.

Lemma tick_to_ok target s :
  in_range 64 target -> chain_inv s -> tick_result (Z.max (chain_time s) target) s (_tick_to target s).
Proof.
  intros Hr Hs. unfold chain_time.
  pose proof (sv_good _ _ _ Hs) as [Hok Ht]. change (0 <= sto_time (sync_store s)) in Ht.
  destruct (Z.leb_spec target (sto_time (sync_store s))) as [Hle|Hlt].
  - unfold _tick_to. rewrite run_gets, (proj2 (Z.leb_le _ _)) by lia. split; try done; unfold chain_time; lia.
  - rewrite Z.max_r, tick_to_eq by (done || lia). unfold in_range in Hr. change (Z.to_nat INTERVALS_PER_SLOT) with (Z.to_nat 5).
    destruct (Z.ltb_spec 5 (target - sto_time (sync_store s))); apply tick_loop_ok; cbn; try done; try lia.
    split; [|cbn; lia]. destruct Hok. split; [by apply time_inv|by apply votes_inv_time].
Qed.

(** ** Runs *)
Section Run.
Context (genesis_time : Z).
Hypothesis readings_ok : forall n, clock_ok genesis_time (wall_clock n).

Lemma read_ok {A} (f : Z -> result A) a s :
  chain_inv s -> f (wall_clock (ch_readings s)) = Ok a ->
  exists s', read_clock f s = (Ok a, s') /\ chain_inv s' /\ chain_time s' = chain_time s /\
    chain_role s' = chain_role s /\ ch_readings s' = S (ch_readings s).
Proof. intros Hs E. unfold read_clock. rewrite E. eexists. by split_and!. Qed.

Lemma total_range n : in_range 64 (elapsed genesis_time (wall_clock n) / 800).
Proof using readings_ok.
  pose proof (elapsed_range genesis_time (wall_clock n) (readings_ok n)) as He. unfold in_range in *.
  split; [apply Z.div_pos; lia|apply Z.div_lt_upper_bound; lia].
Qed.

(** The interval a reading shows is due. *)
Definition due (n : nat) : Z := elapsed genesis_time (wall_clock n) / 800.

(** What holds between two turns; [start] is the time of the store at the start. *)
Record follows (start : Z) (role : bool) (last : Z) (s : ChainService) : Prop := {
  fl_inv : chain_inv s;
  fl_time : chain_time s = Z.max start last;
  fl_role : chain_role s = role;
  fl_last : last = 0 \/ exists n, (n < ch_readings s)%nat /\ last = due n
}.

Definition run_result (start : Z) (role : bool) (r : result Z * ChainService) : Prop :=
  match r with
  | (Ok last, s) => follows start role last s
  | (Err e, s) => chain_inv s /\ aggregation_error e /\ role = true
  end.

Lemma initial_tick_ok s :
  chain_inv s -> run_result (chain_time s) (chain_role s) (_initial_tick genesis_time s).
Proof using network_ok events_ok readings_ok.
  intros Hs. unfold _initial_tick.
  destruct (read_ok current_time _ s Hs (current_time_eq genesis_time _ (readings_ok _))) as (s1 & E1 & Hs1 & Ht1 & Hr1 & Hn1).
  rewrite (run_bind _ _ _ _ _ E1). destruct (_ <? genesis_time).
  { split; [done| |done|by left]. pose proof (proj2 (sv_good _ _ _ Hs1)). change (0 <= chain_time s1) in H3. lia. }
  destruct (read_ok (total_intervals genesis_time) _ s1 Hs1 (total_intervals_eq genesis_time _ (readings_ok _))) as (s2 & E2 & Hs2 & Ht2 & Hr2 & Hn2).
  rewrite (run_bind _ _ _ _ _ E2). pose proof (tick_to_ok _ s2 (total_range (ch_readings s1)) Hs2) as Ht.
  unfold mbind, M_bind. destruct (_tick_to _ s2) as [[l|e] s3]; cbn in *.
  - destruct Ht as [Hi Htt Htr _ Hrd]. split; [done|congruence|congruence|]. right. exists (ch_readings s1). split; [lia|done].
  - destruct Ht as (? & ? & ?). split_and!; [done|done|congruence].
Qed.

(** A turn after genesis leaves the store at or past the interval it read. *)
Lemma turn_ok start role last s :
  follows start role last s ->
  match chain_turn genesis_time last s with
  | (Ok last', s') => follows start role last' s' /\ last <= last' /\
      (genesis_time <= wall_clock (S (ch_readings s)) / 1000000 -> due (ch_readings s) <= chain_time s')
  | (Err e, s') => chain_inv s' /\ aggregation_error e /\ role = true
  end.
Proof using network_ok events_ok readings_ok.
  intros [Hs Htm Hro Hla]. unfold chain_turn.
  destruct (read_ok (total_intervals genesis_time) _ s Hs (total_intervals_eq genesis_time _ (readings_ok _))) as (s1 & E1 & Hs1 & Ht1 & Hr1 & Hn1).
  rewrite (run_bind _ _ _ _ _ E1).
  destruct (read_ok current_time _ s1 Hs1 (current_time_eq genesis_time _ (readings_ok _))) as (s2 & E2 & Hs2 & Ht2 & Hr2 & Hn2).
  rewrite (run_bind _ _ _ _ _ E2). fold (due (ch_readings s)). rewrite Hn1.
  destruct (_ || _) eqn:Ew.
  - destruct (read_ok (seconds_until_next_interval genesis_time) _ s2 Hs2 (sleep_eq genesis_time _ (readings_ok _))) as (s3 & E3 & Hs3 & Ht3 & Hr3 & Hn3).
    rewrite (run_bind _ _ _ _ _ E3). destruct (yield_ok s3 Hs3) as (s4 & E4 & [Hs4 Ht4 Hr4 _ Hn4]).
    rewrite (run_bind _ _ _ _ _ E4). cbn. split; [|split; [lia|]].
    + split; [done|congruence|congruence|]. destruct Hla as [?|(n & Hn & ?)]; [by left|right]. exists n. split; [lia|done].
    + intros Hg. apply orb_true_iff in Ew as [Ew%Z.ltb_lt|Ew%Z.leb_le]; lia.
  - apply orb_false_iff in Ew as [_ Ew%Z.leb_gt]. pose proof (tick_to_ok _ s2 (total_range (ch_readings s)) Hs2) as Ht.
    fold (due (ch_readings s)) in Ht. unfold mbind, M_bind. destruct (_tick_to _ s2) as [[l|e] s3]; cbn beta iota delta [modify tick_result] in *.
    + destruct Ht as [[Hg Hb Hv Ha] Htt Htr _ Hrd]. set (s4 := with_sync _ s3).
      assert (chain_inv s4 /\ chain_time s4 = chain_time s3 /\ chain_role s4 = chain_role s3) as (H1' & H2' & H3').
      { subst s4. unfold chain_inv, chain_time, chain_role, sync_store. cbn. unfold publish_aggregates.
        destruct (sv_has_publisher _); split_and!; try done; by split. }
      destruct (read_ok (current_slot genesis_time) _ s4 H1' (current_slot_eq genesis_time _ (readings_ok _)))
        as (s5 & E5 & Hs5 & Ht5 & Hr5 & Hn5). rewrite E5.
      split; [|split; lia]. split; [done|lia|congruence|]. right. exists (ch_readings s). split; [|done].
      rewrite Hn5. subst s4. cbn. lia.
    + destruct Ht as (? & ? & ?). split_and!; [done|done|congruence].
Qed.

Lemma loop_ok start role turns : forall last s,
  follows start role last s -> run_result start role (chain_loop genesis_time turns last s).
Proof using network_ok events_ok readings_ok.
  induction turns as [|turns IH]; intros last s Hf; cbn [chain_loop]; [done|]. rewrite run_gets.
  destruct (negb _); [done|]. pose proof (turn_ok start role last s Hf) as Ht. unfold mbind, M_bind.
  destruct (chain_turn genesis_time last s) as [[last'|e] s']; [|done]. apply IH, Ht.
Qed.

Lemma run_ok turns s :
  chain_inv s -> run_result (chain_time s) (chain_role s) (chain_run genesis_time turns s).
Proof using network_ok events_ok readings_ok.
  intros Hs. unfold chain_run. rewrite run_modify.
  pose proof (initial_tick_ok (with_running true s) Hs) as Hi. unfold mbind, M_bind.
  destruct (_initial_tick genesis_time (with_running true s)) as [[last|e] s1]; [|exact Hi]. exact (loop_ok _ _ turns _ _ Hi).
Qed.
End Run.
End Chain.

Definition chain_start (sync : SyncService) : ChainService :=
  {| ch_sync := sync; ch_running := false; ch_readings := 0; ch_yields := 0 |}.

(** C21: run for any number of turns from a reachable store, with any readings of the
    clock (which may step back) and any well-formed events handled by other tasks while
    it yields, the chain service keeps the invariant of the sync service and the store
    exactly at the last interval it handled, or at its own time when that is later; a
    further turn after genesis leaves the store at or past the interval it read.  Only
    an aggregating node can be stopped by an exception, and only by the prover's. *)
Theorem chain_follows_clock `{Crypto} `{SetOrder} `{Network} `{World} (state : State) (block : Block) (store : Store)
    (is_aggregator has_publisher genesis_start : bool) (database : option (list (list db_write)))
    (genesis_time : Z) (turns : nat) :
  let anchor := (hash_tree_root block, block) in
  anchor_consistent state block -> reachable_store state block store -> NetworkOk (block_ok anchor) ->
  (forall n, Forall (event_ok anchor) (events_at n)) -> (forall n, clock_ok genesis_time (wall_clock n)) ->
  exists r s, chain_run genesis_time turns
      (chain_start (service_start store is_aggregator has_publisher genesis_start database)) = (r, s) /\
    service_inv anchor (st_validators state) (ch_sync s) /\
    match r with
    | Ok last =>
        sto_time (sync_store s) = Z.max (sto_time store) last /\
        (last = 0 \/ exists n, (n < ch_readings s)%nat /\ total_intervals genesis_time (wall_clock n) = Ok last) /\
        forall last' s' interval now,
          chain_turn genesis_time last s = (Ok last', s') ->
          total_intervals genesis_time (wall_clock (ch_readings s)) = Ok interval ->
          current_time (wall_clock (S (ch_readings s))) = Ok now -> genesis_time <= now ->
          interval <= sto_time (sync_store s')
    | Err e => aggregation_error e /\ is_aggregator = true
    end.
Proof.
  intros anchor Hc Hr Hn He Hck. pose proof (reachable_good _ _ _ Hc Hr) as Hg.
  set (s0 := chain_start _).
  assert (chain_inv anchor (st_validators state) s0) as Hs0 by (by apply service_start_inv).
  pose proof (run_ok anchor (st_validators state) Hn He genesis_time Hck turns s0 Hs0) as Hrun.
  destruct (chain_run genesis_time turns s0) as [r s] eqn:E. exists r, s. split; [done|].
  destruct r as [last|e]; [|by destruct Hrun as (? & ? & ?)]. pose proof Hrun as [Hi Ht _ Hl].
  split_and!; [done|exact Ht| |].
  - destruct Hl as [?|(n & Hlt & ->)]; [by left|right]. exists n. split; [done|]. by apply total_intervals_eq.
  - intros last' s' interval now Et Ei En Hnow.
    pose proof (turn_ok anchor (st_validators state) Hn He genesis_time Hck _ _ last s Hrun) as Htn. rewrite Et in Htn.
    destruct Htn as (_ & _ & Hdue). rewrite (total_intervals_eq genesis_time) in Ei by apply Hck. injection Ei as <-.
    rewrite (current_time_eq genesis_time) in En by apply Hck. injection En as <-. by apply Hdue.
Qed.

(** A clock that steps back, and a block that arrives during the first yield *)
Definition sample_world : World := {|
  wall_clock := fun n => if (n <? 4)%nat then 1013700500 else 1009900000;
  events_at := fun n => if (n =? 0)%nat then [GossipBlockEvent (signed A1.1) sample_peer sample_topic] else []
|}.

Definition sample_chain (turns : nat) : result Z * ChainService :=
  chain_run (H := sample_crypto) (H0 := insertion_order) (H1 := a1_network) (H2 := sample_world) 1000 turns
    (chain_start (service_start store0 false false true None)).

(** 13.7 seconds after genesis the 17th interval is due: the store jumps to the 12th and
    ticks five times, and the block that arrived after the first tick is in it. *)
Example sample_chain_ticks :
  let '(r, s) := sample_chain 3 in
  r = Ok 17 /\ sto_time (sync_store s) = 17 /\ ch_yields s = 8%nat /\
  dkeys (sto_blocks (sync_store s)) = [genesis_root; hash_tree_root A1.1] /\ sto_head (sync_store s) = hash_tree_root A1.1.
Proof. vm_compute. repeat split. Qed.

Lemma chain_follows_clock_witness : exists r s,
  sample_chain 3 = (r, s) /\ service_inv sample_root sample_registry (ch_sync s) /\
  match r with
  | Ok last =>
      sto_time (sync_store s) = Z.max (sto_time store0) last /\
      (last = 0 \/ exists n, (n < ch_readings s)%nat /\ total_intervals 1000 (wall_clock (World := sample_world) n) = Ok last) /\
      forall last' s' interval now,
        chain_turn (H := sample_crypto) (H0 := insertion_order) (H1 := a1_network) (H2 := sample_world) 1000 last s = (Ok last', s') ->
        total_intervals 1000 (wall_clock (World := sample_world) (ch_readings s)) = Ok interval ->
        current_time (wall_clock (World := sample_world) (S (ch_readings s))) = Ok now -> 1000 <= now ->
        interval <= sto_time (sync_store s')
  | Err e => aggregation_error e /\ false = true
  end.
Proof.
  apply (chain_follows_clock (H := sample_crypto) (H0 := insertion_order) (H1 := a1_network) (H2 := sample_world)
    sample_genesis genesis_block store0 false false true None 1000 3).
  - exact sample_anchor.
  - exact sample_store0.
  - exact a1_network_ok.
  - intros [|n]; cbn; [constructor; [exact a1_ok|constructor]|constructor].
  - intros n. unfold wall_clock, sample_world. destruct (n <? 4)%nat; split; vm_compute; congruence.
Defined.
