(* ===== verification/Persistence.v ===== *)
(** * What the node persists is enough to restart

    Every step of the node keeps a snapshot from which the head of the last imported
    block, its state and the checkpoints can be loaded: pruning never removes them, since
    the head stays above every slot that was ever finalized. *)

From stdpp Require Import strings.
From S2P Require Import Prelude Pydict Uint Ssz SszCorrect Sha256 Merkle Containers.
From S2P Require Import StateTransition Samples StateCorrect StateHistory Proofs SszRecords StateTyped Signatures.
From S2P Require Import SignaturesCorrect ForkChoice ForkChoiceCorrect StoreVotes StoreCorrect.
From S2P Require Import StoreHandlers Aggregation Duties SampleStores AggregationCorrect.
From S2P Require Import StoreReachable DutiesCorrect StoreTheorems DutyTheorems.
From S2P Require Import Varint Snappy ReqResp ReqRespCorrect BlockCache PeerManager StateMonad.
From S2P Require Import Backfill BackfillCorrect SyncService SyncTheorems SyncSteps Storage StorageCorrect.

(** ** Roots *)
Lemma wf_Block : wf_type (ssz_descr Block) /\ small_type (ssz_descr Block).
Proof. cbn. unfold wf_bits, small_limit. solve_descr. Qed.

Lemma state_root_length (s : State) : ssz_valid s = true -> is_root (hash_tree_root s).
Proof.
  intros Hv. destruct wf_State as [Hw Hs]. destruct (well_typed_hashes _ _ Hw Hs Hv) as (r & E & Hl).
  with_strategy transparent [hash_tree_root] unfold hash_tree_root. by rewrite E.
Qed.

Lemma block_root_length (b : Block) : ssz_valid b = true -> is_root (hash_tree_root b).
Proof.
  intros Hv. destruct wf_Block as [Hw Hs]. destruct (well_typed_hashes _ _ Hw Hs Hv) as (r & E & Hl).
  with_strategy transparent [hash_tree_root] unfold hash_tree_root. by rewrite E.
Qed.

(** ** What an import does to the pointers *)
Lemma update_head_facts s s' :
  update_head s = Ok s' -> dict_wf (sto_blocks s) -> parents_earlier (sto_blocks s) ->
  is_Some (dget (cp_root (sto_latest_justified s)) (sto_blocks s)) ->
  exists h fin st, s' = store_with_head s h fin /\ dget h (sto_states s) = Some st /\
    (cp_slot fin = st_finalized_slot st \/ fin = sto_latest_finalized s) /\
    ancestor (sto_blocks s) (cp_root (sto_latest_justified s)) h.
Proof.
  intros E Hwf He Hj. unfold update_head in E. apply bind_Ok in E as (votes & _ & E).
  apply bind_Ok in E as (h & Eh & E). apply bind_Ok in E as (st & Est & E).
  apply bind_Ok in E as (fr & _ & E). apply bind_Ok in E as (fb & _ & [= <-]).
  destruct (compute_lmd_ghost_head_ok s Hwf He (cp_root (sto_latest_justified s)) votes None Hj) as (h' & Eh' & Hg & _).
  rewrite Eh in Eh'. injection Eh' as <-. unfold dgetitem in Est. apply of_option_Ok in Est.
  eexists h, _, st. split_and!; [done|done| |by eapply ghost_head_descends]. case_match; [by left|by right].
Qed.

(** The blocks, the states and the pointers of two stores agree. *)
Definition same_chain (s s' : Store) : Prop :=
  sto_blocks s' = sto_blocks s /\ sto_states s' = sto_states s /\ sto_latest_justified s' = sto_latest_justified s /\
  sto_latest_finalized s' = sto_latest_finalized s /\ sto_head s' = sto_head s.

Lemma prune_same_chain s s' : prune_stale_attestation_data s = Ok s' -> same_chain s s'.
Proof.
  intros E. unfold prune_stale_attestation_data in E. apply bind_Ok in E as (? & _ & E).
  apply bind_Ok in E as (? & _ & E). by apply bind_Ok in E as (? & _ & [= <-]).
Qed.

Lemma gossip_same_chain `{Crypto} s sa agg s' : on_gossip_attestation s sa agg = Ok s' -> same_chain s s'.
Proof.
  unfold on_gossip_attestation. cbn zeta. intros E. apply bind_Ok in E as (u & _ & E).
  apply bind_Ok in E as (st & _ & E). destruct (negb _); [done|]. apply bind_Ok in E as (k & _ & E).
  apply bind_Ok in E as (ok & _ & E). destruct (negb ok); [done|]. by destruct agg; cbn [negb] in E; injection E as <-.
Qed.

Lemma gossip_aggregated_same_chain `{Crypto} s sa s' : on_gossip_aggregated_attestation s sa = Ok s' -> same_chain s s'.
Proof.
  unfold on_gossip_aggregated_attestation. cbn zeta. intros E. apply bind_Ok in E as (u & _ & E).
  apply bind_Ok in E as (l & _ & E). apply bind_Ok in E as (st & _ & E). destruct (negb _); [done|].
  apply bind_Ok in E as (k & _ & E). by apply bind_Ok in E as (u' & _ & [= <-]).
Qed.

(** ** The chain the store holds *)
Record chain_ok (s : Store) : Prop := {
  ch_blocks r b : dget r (sto_blocks s) = Some b -> ssz_valid b = true;
  ch_states r st : dget r (sto_states s) = Some st ->
    ssz_valid st = true /\ st_justified_slot st <= cp_slot (sto_latest_justified s);
  ch_order : cp_slot (sto_latest_finalized s) <= cp_slot (sto_latest_justified s)
}.

Lemma chain_ok_same s s' : same_chain s s' -> chain_ok s -> chain_ok s'.
Proof. intros (E1 & E2 & E3 & E4 & _) [H1 H2 H3]. split; rewrite ?E1, ?E2, ?E3, ?E4; done. Qed.

Lemma advance_to_le self candidate :
  cp_slot self <= cp_slot (advance_to self candidate) /\ cp_slot candidate <= cp_slot (advance_to self candidate).
Proof. unfold advance_to. rewrite Z.gtb_ltb. destruct (Z.ltb_spec (cp_slot self) (cp_slot candidate)); lia. Qed.

Section Importing.
Context `{Crypto} (anchor : Bytes32 * Block) (registry : list Validator).
Abbreviation good := (store_good anchor registry).

(** A new block joins, the head moves onto the justified chain. *)
Lemma on_block_imports s b s' :
  good s -> chain_ok s -> block_ok anchor b -> dget (hash_tree_root (sb_block b)) (sto_blocks s) = None ->
  on_block s b = Ok s' ->
  let root := hash_tree_root (sb_block b) in
  exists post, ssz_valid post = true /\ st_slot post = bk_slot (sb_block b) /\
    sto_blocks s' = dset root (sb_block b) (sto_blocks s) /\ sto_states s' = dset root post (sto_states s) /\
    cp_slot (sto_latest_justified s) <= cp_slot (sto_latest_justified s') /\ chain_ok s' /\
    ancestor (sto_blocks s') (cp_root (sto_latest_justified s')) (sto_head s').
Proof.
  intros Hg Hch [Hv Hc] Hnew E root. pose proof (valid_signed_block _ Hv) as Hb.
  pose proof (on_block_good anchor registry s b s' Hg Hb Hc E) as [[Hs' _] _].
  destruct (on_block_stages s b s' E) as [[_ [? ?]]|(parent & post & s1 & _ & Hp & Htr & E1 & Hs)]; [congruence|].
  set (sB := store_with_block s _ _ post _ _) in E1.
  assert (same_chain s1 s') as Hsame by (destruct Hs as [->|Hs]; [done|by apply prune_same_chain]).
  pose proof (update_head_frame _ _ E1) as (h0 & fin0 & E0). destruct Hsame as (Eb & Es & Ej & Ef & Eh).
  assert (sto_blocks s' = sto_blocks sB /\ sto_latest_justified s' = sto_latest_justified sB) as [EbB EjB] by (by rewrite Eb, Ej, E0).
  destruct (update_head_facts sB s1 E1) as (h & fin & st & -> & Est & Hfin & Hanc); [rewrite <- EbB; apply Hs'..| |].
  { rewrite <- EbB, <- EjB. destruct (si_justified _ _ Hs') as (jb & Ejb & _). eauto. }
  clear h0 fin0 E0. cbn in Eb, Es, Ej, Ef, Eh. destruct Hg as [[Hgs _] _].
  destruct (proj2 (store_state_known _ _ _ Hgs) (mk_is_Some _ _ Hp)) as [pb Epb].
  pose proof (si_entry _ _ Hgs _ _ _ Epb Hp) as Hentry.
  destruct (ch_states _ Hch _ _ Hp) as [Hpv _].
  pose proof (transition_valid parent (sb_block b) post (eo_inv _ _ _ _ _ Hentry) Hpv Hb Htr) as Hpost.
  assert (st_slot post = bk_slot (sb_block b) /\ state_inv post) as [Hslot Hpinv].
  { destruct (state_transition_cases parent (sb_block b) (eo_inv _ _ _ _ _ Hentry) Hb)
      as [(r & votes & t & E' & _ & _ & _ & _ & _ & Hi3 & _)|(e & E' & _)]; [|congruence].
    rewrite Htr in E'. injection E' as ->. by split. }
  pose proof (advance_to_le (sto_latest_justified s) (st_latest_justified post)) as [Hadv1 Hadv2].
  assert (forall r st0, dget r (sto_states s') = Some st0 -> ssz_valid st0 = true /\ st_justified_slot st0 <= cp_slot (sto_latest_justified s')) as Hstates.
  { intros r st0. rewrite Es, Ej, dget_dset. case_decide; [intros [= <-]; split; [done|lia]|]. intros Er.
    destruct (ch_states _ Hch _ _ Er). split; [done|]. lia. }
  exists post. split_and!; [done|done|exact Eb|exact Es|rewrite Ej; lia| |].
  - split.
    + intros r b0. rewrite Eb, dget_dset. case_decide; [by intros [= <-]|]. apply (ch_blocks _ Hch).
    + exact Hstates.
    + rewrite Ef. destruct Hfin as [Hfin| ->].
      * rewrite Hfin. assert (dget h (sto_states s') = Some st) as Est' by (by rewrite Es).
        destruct (Hstates _ _ Est') as [_ Hj]. destruct (proj2 (store_state_known _ _ h Hs') (mk_is_Some _ _ Est')) as [hb Ehb].
        pose proof (inv_order _ (eo_inv _ _ _ _ _ (si_entry _ _ Hs' _ _ _ Ehb Est'))). lia.
      * cbn. pose proof (ch_order _ Hch). rewrite Ej. lia.
  - rewrite Eb, Ej, Eh. exact Hanc.
Qed.

(** ** Snapshots that can be loaded *)

(** The head of some earlier store, its state and the pointers are there. *)
Record loadable (s : Store) (sn : Snapshot) (h : Bytes32) (b : Block) (st : State) (j f : Checkpoint) : Prop := {
  ld_head : sn_head sn = Some h;
  ld_block : dget h (sn_blocks sn) = Some b /\ dget h (sto_blocks s) = Some b;
  ld_state : dget h (sn_states sn) = Some st /\ dget h (sto_states s) = Some st;
  ld_justified : sn_justified sn = Some j;
  ld_finalized : sn_finalized sn = Some f;
  ld_chain : ancestor (sto_blocks s) (cp_root j) h;
  ld_checkpoints : checkpoint_in (sto_blocks s) j /\ checkpoint_in (sto_blocks s) f
}.

Record persisted (s : Store) (sn : Snapshot) : Prop := {
  pe_snapshot : snapshot_ok sn;
  pe_floor : exists floor, floor <= cp_slot (sto_latest_justified s) /\
    forall r b st, dget r (sto_blocks s) = Some b -> dget r (sto_states s) = Some st -> floor <= bk_slot b ->
      dget r (sn_blocks sn) = Some b /\ dget r (sn_states sn) = Some st;
  pe_loadable : exists h b st j f, loadable s sn h b st j f
}.

Lemma persisted_same s s' sn :
  sto_blocks s' = sto_blocks s -> sto_states s' = sto_states s ->
  cp_slot (sto_latest_justified s) <= cp_slot (sto_latest_justified s') -> persisted s sn -> persisted s' sn.
Proof.
  intros Eb Es Ej [Hs (floor & Hf & Hin) (h & b & st & j & f & [])]. split; [done| |].
  - exists floor. rewrite Eb, Es. split; [lia|done].
  - exists h, b, st, j, f. split; rewrite ?Eb, ?Es; done.
Qed.

Lemma dget_kept {K V} `{EqDecision K} (p : K * V -> bool) k v (d : dict K V) :
  dget k d = Some v -> p (k, v) = false -> dget k (filter (fun row => p row = false) d) = Some v.
Proof.
  intros E Hp. induction d as [|[k' w] d IH]; [done|]. cbn in E. rewrite filter_cons. case_decide as Hk.
  - injection E as ->. subst k'. rewrite decide_True by done. cbn. by rewrite decide_True.
  - case_decide; [cbn; rewrite decide_False by done|]; by apply IH.
Qed.

Lemma expired_late slot keep row_slot root : slot <= row_slot -> expired slot keep row_slot root = false.
Proof. intros Hs. unfold expired. by rewrite (proj2 (Z.ltb_ge _ _)) by lia. Qed.

(** The snapshot of a batch before it prunes *)
Definition imported (s : Store) (b : Block) (post : State) (sn : Snapshot) : Snapshot := {|
  sn_blocks := dset (hash_tree_root b) b (sn_blocks sn);
  sn_states := dset (hash_tree_root b) post (sn_states sn);
  sn_justified := Some (sto_latest_justified s);
  sn_finalized := Some (sto_latest_finalized s);
  sn_head := Some (sto_head s);
  sn_genesis_time := sn_genesis_time sn;
  sn_slot_index := dset (bk_slot b) (hash_tree_root b) (sn_slot_index sn);
  sn_state_root_index := dset (hash_tree_root post) (hash_tree_root b) (sn_state_root_index sn)
|}.

Lemma persist_block_eq s b post sn :
  dget (hash_tree_root b) (sto_states s) = Some post ->
  apply_writes (_persist_block s b) sn =
    if cp_slot (sto_latest_finalized s) >? 0
    then sn_prune (cp_slot (sto_latest_finalized s)) [cp_root (sto_latest_finalized s)] (imported s b post sn)
    else imported s b post sn.
Proof. intros E. unfold _persist_block. rewrite E. by destruct (_ >? 0). Qed.

(** What survives the batch: everything from the finalized slot on *)
Lemma import_keeps s b post sn r b0 st0 :
  dget r (sn_blocks (imported s b post sn)) = Some b0 -> dget r (sn_states (imported s b post sn)) = Some st0 ->
  cp_slot (sto_latest_finalized s) <= bk_slot b0 -> bk_slot b0 <= st_slot st0 ->
  dget (hash_tree_root b) (sto_states s) = Some post ->
  let sn' := apply_writes (_persist_block s b) sn in
  dget r (sn_blocks sn') = Some b0 /\ dget r (sn_states sn') = Some st0.
Proof.
  intros Eb Es Hf Hle Ep. cbn zeta. rewrite (persist_block_eq _ _ _ _ Ep). destruct (_ >? 0); [|done].
  split; (apply dget_kept; [done|]); apply expired_late; cbn; lia.
Qed.

Lemma good_entry s r b st :
  good s -> dget r (sto_blocks s) = Some b -> dget r (sto_states s) = Some st ->
  r = hash_tree_root b /\ 0 <= bk_slot b <= HISTORICAL_ROOTS_LIMIT /\ bk_slot b <= st_slot st.
Proof.
  intros [[Hs _] _] Eb Es. destruct (si_entry _ _ Hs _ _ _ Eb Es) as [Hr Hi _ Hsl _]. split; [done|]. rewrite <- Hsl.
  pose proof (inv_head _ Hi). pose proof (inv_history_limit _ Hi). lia.
Qed.

Lemma good_checkpoint s c :
  good s -> chain_ok s -> checkpoint_in (sto_blocks s) c -> ssz_valid c = true /\ 0 <= cp_slot c <= HISTORICAL_ROOTS_LIMIT.
Proof.
  intros Hg Hc (b & Eb & Ec). pose proof Hg as [[Hs _] _].
  destruct (proj1 (store_state_known _ _ (cp_root c) Hs) (mk_is_Some _ _ Eb)) as [st Est].
  destruct (good_entry s _ b st Hg Eb Est) as (Hr & Hsl & _). rewrite <- Ec. split; [|done]. apply checkpoint_valid. split.
  - rewrite Hr. apply block_root_length. by apply (ch_blocks _ Hc _ _ Eb).
  - unfold in_range, HISTORICAL_ROOTS_LIMIT in *. lia.
Qed.

Lemma persist_writes_ok s b post :
  good s -> chain_ok s -> ssz_valid b = true -> st_slot post = bk_slot b ->
  dget (hash_tree_root b) (sto_blocks s) = Some b -> dget (hash_tree_root b) (sto_states s) = Some post ->
  Forall write_ok (_persist_block s b).
Proof.
  intros Hg Hc Hb Hsl Eb Ep. pose proof Hg as [[Hs _] _].
  destruct (good_entry s _ _ _ Hg Eb Ep) as (_ & Hr & _). pose proof (block_root_length b Hb) as Hroot.
  destruct (good_checkpoint s _ Hg Hc (si_justified _ _ Hs)) as [Hj _], (good_checkpoint s _ Hg Hc (si_finalized _ _ Hs)) as [Hf Hfr].
  destruct (ch_states _ Hc _ _ Ep) as [Hpost _]. unfold HISTORICAL_ROOTS_LIMIT in *.
  assert (is_root (sto_head s)) as Hhead.
  { destruct (si_head _ _ Hs) as [hb Eh]. destruct (proj1 (store_state_known _ _ (sto_head s) Hs) (mk_is_Some _ _ Eh)) as [st Est].
    destruct (good_entry s _ _ _ Hg Eh Est) as (-> & _ & _). apply block_root_length. by apply (ch_blocks _ Hc _ _ Eh). }
  unfold _persist_block. rewrite Ep. apply Forall_app_2; [|apply Forall_app_2; [|apply Forall_app_2]].
  - constructor; [|constructor]. split; [done|]. unfold slot_ok. lia.
  - constructor; [|constructor; [done|constructor]]. split; [done|]. unfold slot_ok. lia.
  - constructor; [split; [unfold slot_ok; lia|done]|]. by repeat constructor.
  - destruct (_ >? 0); [|constructor]. constructor; [|constructor]. cbn. unfold slot_ok. lia.
Qed.

Lemma import_persisted s sn b post s' :
  good s' -> chain_ok s' -> ssz_valid b = true -> st_slot post = bk_slot b ->
  sto_blocks s' = dset (hash_tree_root b) b (sto_blocks s) -> sto_states s' = dset (hash_tree_root b) post (sto_states s) ->
  cp_slot (sto_latest_justified s) <= cp_slot (sto_latest_justified s') ->
  ancestor (sto_blocks s') (cp_root (sto_latest_justified s')) (sto_head s') ->
  persisted s sn ->
  Forall write_ok (_persist_block s' b) /\ persisted s' (apply_writes (_persist_block s' b) sn).
Proof.
  intros Hg Hc Hb Hsl Eb Es Hj Hanc [Hsn (floor & Hfl & Hin) _]. pose proof Hg as [[Hs _] _].
  assert (dget (hash_tree_root b) (sto_blocks s') = Some b) as Ebb by (by rewrite Eb, dget_dset_eq).
  assert (dget (hash_tree_root b) (sto_states s') = Some post) as Ess by (by rewrite Es, dget_dset_eq).
  pose proof (persist_writes_ok s' b post Hg Hc Hb Hsl Ebb Ess) as Hw. split; [done|].
  assert (forall r b0 st0, dget r (sto_blocks s') = Some b0 -> dget r (sto_states s') = Some st0 ->
    Z.max floor (cp_slot (sto_latest_finalized s')) <= bk_slot b0 ->
    let sn' := apply_writes (_persist_block s' b) sn in dget r (sn_blocks sn') = Some b0 /\ dget r (sn_states sn') = Some st0) as Hkept.
  { intros r b0 st0 E1 E2 Hle. destruct (good_entry s' r b0 st0 Hg E1 E2) as (_ & _ & Hst).
    apply (import_keeps s' b post sn); [..|done]; try lia; cbn [imported sn_blocks sn_states]; rewrite Eb, dget_dset in E1;
      rewrite Es, dget_dset in E2; rewrite dget_dset; case_decide; try done; by apply (Hin r b0 st0); [..|lia]. }
  split.
  - by apply apply_writes_snapshot_ok.
  - exists (Z.max floor (cp_slot (sto_latest_finalized s'))). pose proof (ch_order _ Hc). split; [lia|done].
  - destruct (si_head _ _ Hs) as [hb Eh]. destruct (proj1 (store_state_known _ _ (sto_head s') Hs) (mk_is_Some _ _ Eh)) as [st Est].
    destruct (si_justified _ _ Hs) as (jb & Ejb & Ejs).
    destruct (ancestor_slot _ (si_earlier _ _ Hs) _ _ jb hb Hanc Ejb Eh) as [Hle _]. pose proof (ch_order _ Hc).
    destruct (Hkept _ hb st Eh Est) as [K1 K2]; [lia|].
    exists (sto_head s'), hb, st, (sto_latest_justified s'), (sto_latest_finalized s').
    split; try done; try (rewrite (persist_block_eq _ _ _ _ Ess); by destruct (_ >? 0)). split; apply Hs.
Qed.

(** ** Steps *)
Abbreviation node_view := (Store * Snapshot)%type.

Definition view_ok (v : node_view) : Prop := good v.1 /\ chain_ok v.1 /\ persisted v.1 v.2.

Lemma same_chain_justified s s' : same_chain s s' -> cp_slot (sto_latest_justified s) <= cp_slot (sto_latest_justified s').
Proof. intros (_ & _ & -> & _). lia. Qed.

Lemma sync_step_persists v v' batches sn :
  sync_step anchor v v' -> v.1.2 = Some batches -> view_ok (v.1.1, sn) ->
  exists more, v'.1.2 = Some (batches ++ more) /\ Forall (Forall write_ok) more /\
    view_ok (v'.1.1, foldl (fun s ws => apply_writes ws s) sn more).
Proof.
  intros Hst Eb (Hg & Hc & Hp). pose proof (sync_step_good anchor registry _ _ Hst Hg) as Hg'.
  destruct Hst as [store db role b store1 store2 aggs Hbok Hnew E1 E2|store db role a agg store' Ha E|store db role a store' Ha E]; cbn in *.
  - destruct (on_block_imports store b store1 Hg Hc Hbok Hnew E1) as (post & Hpv & Hsl & Ebk & Est & Hj & Hc1 & Hanc).
    apply deconstruct_frame in E2 as [new ->]. pose proof (valid_signed_block _ (proj1 Hbok)) as Hb.
    assert (chain_ok (store_with_pools store1 (sto_attestation_signatures store1) new (sto_latest_known_aggregated_payloads store1))) as Hc2
      by (by apply (chain_ok_same store1)).
    destruct (import_persisted store sn (sb_block b) post _ Hg' Hc2 Hb Hsl Ebk Est Hj Hanc Hp) as [Hw Hp2].
    rewrite Eb. eexists [_]. split; [done|]. split; [by constructor|]. by split_and!.
  - apply gossip_same_chain in E as Hsame. rewrite Eb. exists []. rewrite app_nil_r. split; [done|]. split; [by apply Forall_nil|]. split; [done|]. split.
    + by apply (chain_ok_same store).
    + apply (persisted_same store); [apply Hsame|apply Hsame|by apply same_chain_justified|done].
  - apply gossip_aggregated_same_chain in E as Hsame. rewrite Eb. exists []. rewrite app_nil_r. split; [done|]. split; [by apply Forall_nil|]. split; [done|]. split.
    + by apply (chain_ok_same store).
    + apply (persisted_same store); [apply Hsame|apply Hsame|by apply same_chain_justified|done].
Qed.
End Importing.
