(* ===== verification/CheckpointCorrect.v ===== *)
(** * The HTTP API: what it answers

    A store that was reached from a consistent anchor pairs every block with the state of
    its state root, and never forgets a block.  On such a store no request fails on the side
    of the server: the tree, the checkpoints and the finalized block with its state are
    served as the store has them, and nothing but the aggregator flag can be written. *)

From S2P Require Import Prelude Pydict Uint Ssz SszCorrect Sha256 Merkle Containers StateTransition Samples.
From S2P Require Import StateCorrect StateHistory Proofs SszRecords StateTyped Signatures SignaturesCorrect.
From S2P Require Import ForkChoice ForkChoiceCorrect StoreVotes StoreCorrect StoreHandlers Aggregation Duties.
From S2P Require Import SampleStores AggregationCorrect StoreReachable DutiesCorrect StoreTheorems Varint Snappy.
From S2P Require Import ReqResp BlockCache PeerManager StateMonad Backfill SyncService SyncTheorems Storage.
From S2P Require Import Persistence GossipTopic ChainService ValidatorService Node Api CheckpointSync Rlp Enr.
From S2P Require Import GossipState Gossipsub EventSource Run.
From Stdlib Require Import String.

Local Open Scope Z_scope.
Local Open Scope list_scope.

(** ** Blocks and states are paired *)
Lemma transition_pairs s b s' : state_inv s -> ssz_valid b = true -> state_transition s b = Ok s' ->
  bk_state_root b = hash_tree_root s' /\ st_config s' = st_config s.
Proof.
  intros Hi Hb E. destruct (state_transition_cases s b Hi Hb) as [(r & votes & t & E' & _ & _ & _ & Hr & _)|(e & E' & _)]; [|congruence].
  rewrite E in E'. by injection E' as ->.
Qed.

(** Every block of the store is a value of its class and names the root of its state. *)
Record paired (config : Containers.GenesisConfig) (s : Store) : Prop := {
  pa_blocks r b : dget r (sto_blocks s) = Some b -> ssz_valid b = true;
  pa_states r st : dget r (sto_states s) = Some st -> ssz_valid st = true /\ st_config st = config;
  pa_roots r b st : dget r (sto_blocks s) = Some b -> dget r (sto_states s) = Some st -> bk_state_root b = hash_tree_root st
}.
(** Nothing is forgotten. *)
Definition keeps_blocks (s s' : Store) : Prop :=
  (forall r b, dget r (sto_blocks s) = Some b -> dget r (sto_blocks s') = Some b) /\
  (forall r st, dget r (sto_states s) = Some st -> dget r (sto_states s') = Some st).
#[local] Instance keeps_blocks_preorder : PreOrder keeps_blocks.
Proof. split; [by intros s|]. intros s1 s2 s3 [H1 H2] [H3 H4]. split; eauto. Qed.

Lemma paired_same config s s' : sto_blocks s' = sto_blocks s -> sto_states s' = sto_states s ->
  paired config s -> paired config s' /\ keeps_blocks s s'.
Proof. intros E1 E2 [H1 H2 H3]. split; split; rewrite ?E1, ?E2; done. Qed.

Section Pairing.
Context `{Crypto} (anchor : Bytes32 * Block) (registry : list Validator) (config : Containers.GenesisConfig).
Abbreviation good := (store_good anchor registry).

(** A block joins the store with its post-state. *)
Lemma paired_added s s' b parent post : good s -> paired config s -> ssz_valid b = true ->
  dget (hash_tree_root b) (sto_blocks s) = None -> dget (bk_parent_root b) (sto_states s) = Some parent ->
  state_transition parent b = Ok post ->
  sto_blocks s' = dset (hash_tree_root b) b (sto_blocks s) -> sto_states s' = dset (hash_tree_root b) post (sto_states s) ->
  paired config s' /\ keeps_blocks s s'.
Proof.
  intros [[Hs _] _] [H1 H2 H3] Hb Hnew Hp Htr Eb Es. destruct (proj2 (store_state_known _ _ _ Hs) (mk_is_Some _ _ Hp)) as [pb Epb].
  pose proof (eo_inv _ _ _ _ _ (si_entry _ _ Hs _ _ _ Epb Hp)) as Hi. destruct (H2 _ _ Hp) as [Hpv Hc].
  destruct (transition_pairs parent b post Hi Hb Htr) as [Hr Hc']. pose proof (transition_valid parent b post Hi Hpv Hb Htr) as Hv.
  assert (dget (hash_tree_root b) (sto_states s) = None) as Hnew'.
  { destruct (dget (hash_tree_root b) (sto_states s)) eqn:E; [|done]. destruct (proj2 (store_state_known _ _ (hash_tree_root b) Hs) (mk_is_Some _ _ E)). congruence. }
  split; split; rewrite ?Eb, ?Es.
  - intros r b0. rewrite dget_dset. case_decide; [by intros [= <-]|]. apply H1.
  - intros r st. rewrite dget_dset. case_decide; [intros [= <-]; split; congruence|]. apply H2.
  - intros r b0 st. rewrite !dget_dset. case_decide; [by intros [= <-] [= <-]|]. apply H3.
  - intros r b0 E. rewrite dget_dset_ne; [done|]. congruence.
  - intros r st E. rewrite dget_dset_ne; [done|]. congruence.
Qed.

Lemma produce_stages s slot v s' b sigs : produce_block_with_signatures s slot v = Ok (s', b, sigs) ->
  exists s2 parent post, sto_blocks s2 = sto_blocks s /\ sto_states s2 = sto_states s /\
    dget (bk_parent_root b) (sto_states s2) = Some parent /\ state_transition parent b = Ok post /\
    sto_blocks s' = dset (hash_tree_root b) b (sto_blocks s) /\ sto_states s' = dset (hash_tree_root b) post (sto_states s).
Proof.
  unfold produce_block_with_signatures. intros E. apply bind_Ok in E as (ti & Eti & E). apply mbind_pair_Ok in E as (s1 & l1 & E1 & E).
  apply bind_Ok in E as (s2 & E2 & E). apply bind_Ok in E as (hs & Eh%of_option_Ok & E). apply bind_Ok in E as (pr & _ & E).
  destruct (negb _); [done|]. apply bind_Ok in E as ([[[fb post] atts] sg] & Ebb & E). injection E as <- <- <-.
  apply on_tick_same_tree in E1 as (B1 & S1 & _). apply accept_same_tree in E2 as (B2 & S2 & _).
  destruct (build_block_sound _ _ _ _ _ _ _ _ _ _ Ebb) as (Htr & Hpar & _). exists s2, hs, post. rewrite Hpar.
  split_and!; try congruence; cbn; by rewrite ?B2, ?B1, ?S2, ?S1.
Qed.

Lemma step_paired s s' : good s -> paired config s -> store_step anchor s s' -> paired config s' /\ keeps_blocks s s'.
Proof.
  intros Hg Hp [sb s1 H1 H2 E|sa agg s1 H1 H2 E|sa s1 H1 E|target hp agg s1 l Hr E|slot v s1 b sigs E H1 H2 H3].
  - destruct (on_block_stages s sb s1 E) as [[-> _]|(parent & post & s2 & Hnew & Hpar & Htr & E1 & Hs)]; [by apply paired_same|].
    assert (sto_blocks s1 = sto_blocks s2 /\ sto_states s1 = sto_states s2) as [Eb Es].
    { destruct Hs as [->|(Eb & Es & _)%prune_same_chain]; done. }
    pose proof (update_head_frame _ _ E1) as (h & fin & ->). cbn in Eb, Es. by eapply paired_added.
  - apply gossip_same_chain in E as (Eb & Es & _). by apply paired_same.
  - apply gossip_aggregated_same_chain in E as (Eb & Es & _). by apply paired_same.
  - apply on_tick_same_tree in E as (Eb & Es & _). by apply paired_same.
  - apply produce_stages in E as (s2 & parent & post & Eb2 & Es2 & Hpar & Htr & Eb & Es). rewrite Es2 in Hpar. by eapply paired_added.
Qed.

Lemma steps_paired s s' : good s -> paired config s -> rtc (store_step anchor) s s' -> good s' /\ paired config s' /\ keeps_blocks s s'.
Proof.
  intros Hg Hp Hr. induction Hr as [s|s1 s2 s3 H1 _ IH]; [done|]. destruct (step_paired _ _ Hg Hp H1) as [Hp2 Hk].
  destruct (IH (step_good _ _ _ _ Hg H1) Hp2) as (? & ? & ?). split_and!; [done|done|by etrans].
Qed.
End Pairing.

Lemma create_paired state block v s : ssz_valid state = true -> ssz_valid block = true ->
  create_store state block v = Ok s -> paired (st_config state) s.
Proof.
  intros Hs Hb E. unfold create_store in E. destruct (negb (bool_decide _)) eqn:Er; [done|]. apply bind_Ok in E as (t & _ & [= <-]).
  apply negb_false_iff, bool_decide_eq_true in Er. split; cbn; intros; repeat case_decide; simplify_eq; done.
Qed.
Lemma reachable_paired `{Crypto} state block s : anchor_consistent state block -> ssz_valid state = true -> ssz_valid block = true ->
  reachable_store state block s -> paired (st_config state) s.
Proof.
  intros Hc Hs Hb Hr. induction Hr as [v s E|s s' Hr IH Hst]; [by eapply create_paired|].
  by eapply (step_paired (hash_tree_root block, block) (st_validators state)); [by apply reachable_good|..].
Qed.

(** ** The finalized block *)

(** The block of the finalized checkpoint and its state can anchor another store. *)
Lemma finalized_entry `{Crypto} state block s : anchor_consistent state block -> ssz_valid state = true -> ssz_valid block = true ->
  reachable_store state block s ->
  exists b st, dget (cp_root (sto_latest_finalized s)) (sto_blocks s) = Some b /\
    dget (cp_root (sto_latest_finalized s)) (sto_states s) = Some st /\
    sto_latest_finalized s = {| cp_root := hash_tree_root b; cp_slot := bk_slot b |} /\
    anchor_consistent st b /\ st_validators st = st_validators state.
Proof.
  intros Hc Hsv Hbv Hr. destruct (reachable_good _ _ _ Hc Hr) as [[Hs Hv] _].
  destruct (si_finalized _ _ Hs) as (b & Eb & Esl). destruct (proj1 (store_state_known _ _ _ Hs) (mk_is_Some _ _ Eb)) as [st Est].
  exists b, st. destruct (si_entry _ _ Hs _ _ _ Eb Est) as [Hroot Hi Hk Hsl _]. split_and!; [done|done| | |].
  - rewrite <- Hroot, Esl. by destruct (sto_latest_finalized s).
  - split_and!; [done|done|done|]. rewrite <- Hroot. intros Hself.
    pose proof (si_rooted _ _ Hs _ (mk_is_Some _ _ Eb)) as Ha. inversion Ha as [r b' E1 E2|a r b' E1 E2]; subst; simplify_eq.
    + destruct (si_floor _ _ Hs) as [_ Ef]. cbn in Ef. simplify_eq. destruct Hc as (_ & _ & _ & Hc). cbn in *. congruence.
    + rewrite Hself in E2. assert (bk_slot b < bk_slot b); [|lia]. eapply (si_earlier _ _ Hs); [exact Eb|]. by rewrite Hself.
  - by apply (vi_states _ _ Hv _ _ (dget_In _ _ _ Est)).
Qed.

Lemma empty_proof_valid b : ssz_valid b = true -> ssz_valid {| sb_block := b; sb_proof := {| mma_proof := [] |} |} = true.
Proof.
  unfold ssz_valid. intros Hb. cbn [ssz_descr ssz_repr ssz_SignedBlock class_of container_class well_typed map].
  cbn [List.length Nat.eqb combine forallb fst snd sb_block sb_proof]. rewrite Hb. vm_compute. reflexivity.
Qed.

(** ** The weights of the tree *)
Lemma block_weights_ok anchor s : store_inv anchor s ->
  exists votes weights, compute_block_weights s = Ok weights /\
    vote_table (sto_latest_known_aggregated_payloads s) (cp_slot (sto_latest_finalized s)) votes /\
    forall r, default 0 (dget r weights) = votes_for (sto_blocks s) (cp_slot (sto_latest_finalized s)) (dvalues votes) r.
Proof.
  intros Hs. destruct (extract_table _ (cp_slot (sto_latest_finalized s)) (si_known _ _ Hs)) as (votes & E & Ht).
  unfold compute_block_weights. rewrite E. mcbn. unfold _accumulate_ancestor_weights.
  destruct (accumulate_ok (sto_blocks s) (si_earlier _ _ Hs) (S (List.length (sto_blocks s))) (cp_slot (sto_latest_finalized s))
    (dvalues votes) []) as (w & Ew & Hw); [lia|]. exists votes, w. split_and!; [done|done|]. intros r. rewrite <- (Z.add_0_l (votes_for _ _ _ _)).
  apply Hw.
Qed.

(** ** Requests *)
Section Serving.
Context `{Crypto} (metrics_output : bytes) (state : State) (block : Block) (svc : SyncService).
Context (Hc : anchor_consistent state block) (Hsv : ssz_valid state = true) (Hbv : ssz_valid block = true).
Context (Hr : reachable_store state block (sv_store svc)).
Abbreviation store := (sv_store svc).
Abbreviation context := node_context.

Definition get_request (path : bytes) : Request := {| rq_method := GET; rq_path := path; rq_json := Err JSONDecodeError |}.

Lemma finalized_state_Ok : exists st data, finalized_state context svc = (Ok (ssz_response data), svc) /\
  dget (cp_root (sto_latest_finalized store)) (sto_states store) = Some st /\ container_decode data = Ok st.
Proof.
  destruct (finalized_entry _ _ _ Hc Hsv Hbv Hr) as (b & st & Eb & Est & _).
  destruct (pa_states _ _ (reachable_paired _ _ _ Hc Hsv Hbv Hr) _ _ Est) as [Hv _].
  destruct (container_encode_total st Hv) as (data & Ee & _ & Ed). exists st, data. split_and!; [|done|done].
  unfold finalized_state, require_store. cbn [context ac_store_getter node_context]. rewrite run_bind with (a := store) (s' := svc) by done.
  rewrite Est. cbn [of_option]. rewrite run_raising, Ee. done.
Qed.
Lemma finalized_block_Ok : exists b data, finalized_block context svc = (Ok (ssz_response data), svc) /\
  dget (cp_root (sto_latest_finalized store)) (sto_blocks store) = Some b /\
  container_decode data = Ok {| sb_block := b; sb_proof := {| mma_proof := [] |} |}.
Proof.
  destruct (finalized_entry _ _ _ Hc Hsv Hbv Hr) as (b & st & Eb & Est & _).
  pose proof (pa_blocks _ _ (reachable_paired _ _ _ Hc Hsv Hbv Hr) _ _ Eb) as Hv.
  destruct (container_encode_total _ (empty_proof_valid b Hv)) as (data & Ee & _ & Ed). exists b, data. split_and!; [|done|done].
  unfold finalized_block, require_store. cbn [context ac_store_getter node_context]. rewrite run_bind with (a := store) (s' := svc) by done.
  unfold require_signed_block_getter. cbn [ac_signed_block_getter node_context of_option]. rewrite run_raising, run_gets. unfold signed_block_for_root.
  rewrite Eb. cbn [mbind option_bind of_option]. rewrite run_raising, Ee. done.
Qed.

(** The tree that is served: the blocks from the finalized slot on, in the order of the
    store, with the latest votes that count for them *)
Definition tree_view (body : ForkChoiceBody) : Prop :=
  exists votes, vote_table (sto_latest_known_aggregated_payloads store) (cp_slot (sto_latest_finalized store)) votes /\
    Forall2 (fun n entry => dget entry.1 (sto_blocks store) = Some entry.2 /\ fn_root n = entry.1 /\ fn_slot n = bk_slot entry.2 /\
        fn_parent_root n = bk_parent_root entry.2 /\ fn_proposer_index n = bk_proposer_index entry.2 /\
        fn_weight n = votes_for (sto_blocks store) (cp_slot (sto_latest_finalized store)) (dvalues votes) entry.1)
      (fb_nodes body) (filter (fun entry => cp_slot (sto_latest_finalized store) <= bk_slot entry.2) (sto_blocks store)) /\
    fb_head body = sto_head store /\ fb_justified body = checkpoint_body (sto_latest_justified store) /\
    fb_finalized body = checkpoint_body (sto_latest_finalized store) /\ fb_safe_target body = sto_safe_target store /\
    fb_validator_count body = Some (Zlen (st_validators state)).

Lemma fork_choice_Ok : exists body, fork_choice context svc = (Ok (json_response (ForkChoiceJson body)), svc) /\ tree_view body.
Proof.
  destruct (reachable_good _ _ _ Hc Hr) as [[Hs Hv] _]. destruct (block_weights_ok _ _ Hs) as (votes & w & Ew & Ht & Hw).
  destruct (proj1 (store_state_known _ _ _ Hs) (si_head _ _ Hs)) as [hs Eh].
  eexists. split.
  { unfold fork_choice, require_store. cbn [context ac_store_getter node_context]. rewrite run_bind with (a := store) (s' := svc) by done.
    rewrite Ew, run_raising. reflexivity. }
  exists votes. cbn [fb_nodes fb_head fb_justified fb_finalized fb_safe_target fb_validator_count]. split_and!; try done.
  - apply Forall2_fmap_l, Forall_Forall2_diag, Forall_forall.
    intros [r b] Hin. apply list_elem_of_filter in Hin as [_ Hin]. cbn. split_and!; try done. by apply In_dget; [apply Hs|].
  - rewrite Eh. cbn. do 2 f_equal. by rewrite (vi_states _ _ Hv _ _ (dget_In _ _ _ Eh)).
Qed.

(** The status of an exception *)
Definition status_of (e : exn) : Z := match e with HTTPException status => status | _ => 500 end.
(** A request to set the flag, with a body that cannot be read for another reason than that
    it is not JSON *)
Definition unreadable (request : Request) (e : exn) : Prop :=
  rq_method request = POST /\ rq_path request = str "/lean/v0/admin/aggregator" /\ rq_json request = Err e /\ e <> JSONDecodeError.
(** What a handler gives: a response and at most another flag, or a refusal *)
Inductive handled (request : Request) : result Response * SyncService -> Prop :=
| handled_ok response flag : re_status response = 200 -> (rq_method request <> POST -> flag = sv_is_aggregator svc) ->
    handled request (Ok response, with_aggregator flag svc)
| handled_bad e : e = HTTPException 400 \/ unreadable request e -> handled request (Err e, svc).

Lemma unchanged : with_aggregator (sv_is_aggregator svc) svc = svc.
Proof. by destruct svc. Qed.
Lemma handled_read request response : re_status response = 200 -> handled request (Ok response, svc).
Proof. intros Hs. rewrite <- unchanged. by apply handled_ok. Qed.

Lemma toggle_handled request : rq_method request = POST -> rq_path request = str "/lean/v0/admin/aggregator" ->
  handled request (aggregator_toggle context request svc).
Proof.
  intros Hm Hp. unfold aggregator_toggle. rewrite run_bind with (a := tt) (s' := svc) by done.
  destruct (rq_json request) as [body|e] eqn:Ej.
  2: { destruct e; apply handled_bad; first [by left | by right; split_and!]. }
  rewrite run_raising. destruct body; try (apply handled_bad; by left). destruct (dget _ members) as [enabled|]; [|apply handled_bad; by left].
  cbn [of_option]. rewrite run_raising. destruct enabled; try (apply handled_bad; by left). rewrite run_gets, run_modify.
  apply handled_ok; [done|]. intros Hg. congruence.
Qed.

Lemma resolved request : (exists e, resolve metrics_output context request = Err e /\ (e = HTTPException 404 \/ e = HTTPException 405)) \/
  exists h, resolve metrics_output context request = Ok h /\ handled request (h request svc).
Proof.
  assert (Forall (fun route => allows route.1.1 (rq_method request) = true -> route.1.2 = rq_path request ->
    handled request (route.2 request svc)) (routes metrics_output context)) as Hall.
  { destruct finalized_state_Ok as (st & d1 & E1 & _), finalized_block_Ok as (b & d2 & E2 & _), fork_choice_Ok as (body & E3 & _).
    repeat constructor; cbn [fst snd]; intros Hm Hpath; rewrite ?E1, ?E2, ?E3;
      first [by apply handled_read | apply toggle_handled; [by destruct (rq_method request)|done]]. }
  unfold resolve. destruct (filter _ _) as [|r0 l0] eqn:El; [left; eauto|]. destruct (List.find _ _) as [route|] eqn:Ef; cbn; [|left; eauto].
  right. exists route.2. split; [done|]. apply List.find_some in Ef as [Hin Hm]. rewrite Forall_forall in Hall.
  rewrite <- El in Hin. apply list_elem_of_In, list_elem_of_filter in Hin as [Hpath%bool_decide_eq_true Hin]. by apply Hall.
Qed.

Lemma serve_cases request : exists response flag, serve metrics_output context request svc = (Ok response, with_aggregator flag svc) /\
  (rq_method request <> POST -> flag = sv_is_aggregator svc) /\
  (re_status response ∈ [200; 400; 404; 405] \/ exists e, unreadable request e /\ re_status response = status_of e).
Proof.
  destruct (resolved request) as [(e & E & He)|(h & E & Hh)]; unfold serve, catch.
  - rewrite E. cbn. do 2 eexists. split; [by rewrite unchanged|]. split; [done|]. left. cbn. destruct He as [->| ->]; set_solver.
  - rewrite E, run_raising. inversion Hh as [response flag Hs Hf Heq|e He Heq].
    + exists response, flag. split_and!; [done|done|]. left. rewrite Hs. set_solver.
    + cbn. do 2 eexists. split; [by rewrite unchanged|]. split; [done|]. cbn. destruct He as [->|He]; [left; set_solver|right]. by exists e.
Qed.

Lemma unreadable_served request e : unreadable request e ->
  exists response, serve metrics_output context request svc = (Ok response, svc) /\ re_status response = status_of e.
Proof.
  intros (Hm & Hp & Hj & He). unfold serve, catch.
  assert (resolve metrics_output context request = Ok (aggregator_toggle context)) as ->.
  { destruct request as [method path body]. cbn in *. subst. reflexivity. }
  rewrite run_raising. unfold aggregator_toggle. rewrite run_bind with (a := tt) (s' := svc) by done. rewrite Hj.
  destruct e; try done; by eexists.
Qed.
End Serving.

(** C27: the HTTP API over a node with a reachable store.  Every request is answered, with
    200, 400, 404 or 405, except for one to set the aggregator flag whose body cannot be read
    for another reason than malformed JSON: that is answered with the status of the exception,
    which is 500 unless the exception is one of aiohttp (so a body that is not valid UTF-8 is
    a server error, and the flag stays as it is).  A request changes nothing but the
    aggregator flag, and only a POST changes that.  The finalized
    block and state that are served decode to those of the store, and the fork-choice view
    lists the blocks from the finalized slot on with the latest votes that count for each. *)
Theorem api_answers `{Crypto} (metrics_output : bytes) (state : State) (block : Block) (svc : SyncService) :
  anchor_consistent state block -> ssz_valid state = true -> ssz_valid block = true -> reachable_store state block (sv_store svc) ->
  let serving := serve metrics_output node_context in
  (forall request, exists response flag, serving request svc = (Ok response, with_aggregator flag svc) /\
     (rq_method request <> POST -> flag = sv_is_aggregator svc) /\
     (re_status response ∈ [200; 400; 404; 405] \/ exists e, unreadable request e /\ re_status response = status_of e)) /\
  (forall request e, unreadable request e -> exists response, serving request svc = (Ok response, svc) /\ re_status response = status_of e) /\
  (exists (b : Block) (st : State) block_bytes state_bytes,
     serving (get_request FINALIZED_BLOCK_ENDPOINT) svc = (Ok (ssz_response block_bytes), svc) /\
     serving (get_request FINALIZED_STATE_ENDPOINT) svc = (Ok (ssz_response state_bytes), svc) /\
     sto_latest_finalized (sv_store svc) = {| cp_root := hash_tree_root b; cp_slot := bk_slot b |} /\
     container_decode block_bytes = Ok {| sb_block := b; sb_proof := {| mma_proof := [] |} |} /\ container_decode state_bytes = Ok st /\
     bk_state_root b = hash_tree_root st) /\
  exists body, serving (get_request (str "/lean/v0/fork_choice")) svc = (Ok (json_response (ForkChoiceJson body)), svc) /\
    tree_view state svc body.
Proof.
  intros Hc Hsv Hbv Hr. cbn zeta. split_and!.
  - by eapply serve_cases.
  - apply unreadable_served.
  - destruct (finalized_entry _ _ _ Hc Hsv Hbv Hr) as (b & st & Eb & Est & Hf & _).
    destruct (finalized_block_Ok _ _ _ Hc Hsv Hbv Hr) as (b' & d1 & E1 & Eb' & D1).
    destruct (finalized_state_Ok _ _ _ Hc Hsv Hbv Hr) as (st' & d2 & E2 & Est' & D2). simplify_eq.
    exists b, st, d1, d2. split_and!; try done.
    + unfold serve, catch. change (resolve _ _ _) with (Ok (fun _ : Request => finalized_block node_context)). rewrite run_raising. by rewrite E1.
    + unfold serve, catch. change (resolve _ _ _) with (Ok (fun _ : Request => finalized_state node_context)). rewrite run_raising. by rewrite E2.
    + by eapply (pa_roots _ _ (reachable_paired _ _ _ Hc Hsv Hbv Hr)).
  - destruct (fork_choice_Ok _ _ _ Hc Hr) as (body & E & Hv). exists body. split; [|done].
    unfold serve, catch. change (resolve _ _ _) with (Ok (fun _ : Request => fork_choice node_context)). rewrite run_raising. by rewrite E.
Qed.

(** A node with a few blocks *)
Definition sample_service : SyncService :=
  nd_sync (wire {| nc_genesis_time := 0; nc_validators := sample_registry; nc_validator_index := None; nc_is_aggregator := false;
                   nc_anchor_store := None |} storeA3 false).
Lemma sample_genesis_valid : ssz_valid sample_genesis = true.
Proof. vm_compute. reflexivity. Qed.
Lemma sample_block_valid : ssz_valid genesis_block = true.
Proof. vm_compute. reflexivity. Qed.

(** A body that is not text *)
Definition binary_body : Request :=
  {| rq_method := POST; rq_path := str "/lean/v0/admin/aggregator"; rq_json := Err UnicodeError |}.
Lemma api_answers_witness :
  (exists body, serve [] node_context (get_request (str "/lean/v0/fork_choice")) sample_service =
      (Ok (json_response (ForkChoiceJson body)), sample_service) /\ tree_view sample_genesis sample_service body) /\
  exists response, serve [] node_context binary_body sample_service = (Ok response, sample_service) /\ re_status response = 500.
Proof.
  destruct (api_answers (H := sample_crypto) [] sample_genesis genesis_block sample_service) as (_ & Hu & _ & Hf).
  - exact sample_anchor.
  - exact sample_genesis_valid.
  - exact sample_block_valid.
  - exact sample_storeA3.
  - split; [exact Hf|]. apply (Hu binary_body UnicodeError). by split_and!.
Defined.
(** The flag can be toggled, and only by a boolean. *)
Example toggled : forall metrics_output, exists response,
  serve metrics_output node_context
    {| rq_method := POST; rq_path := str "/lean/v0/admin/aggregator"; rq_json := Ok (JObject [(str "enabled", JBool true)]) |} sample_service =
  (Ok response, with_aggregator true sample_service) /\ re_body response = Json (AggregatorToggleBody true false).
Proof. intros m. eexists. split; reflexivity. Qed.
Example not_toggled_by_one : forall metrics_output, exists response,
  serve metrics_output node_context
    {| rq_method := POST; rq_path := str "/lean/v0/admin/aggregator"; rq_json := Ok (JObject [(str "enabled", JNumber (str "1"))]) |} sample_service =
  (Ok response, sample_service) /\ re_status response = 400.
Proof. intros m. eexists. split; reflexivity. Qed.

(** * Checkpoint sync joins the chain

    A node that boots from another one over its HTTP API starts at the finalized checkpoint
    of that node, with a store from which everything that is proved of reachable stores
    holds again; and what it accepts of an arbitrary source was checked. *)

(** ** What is accepted of an arbitrary source *)
Lemma fetch_block_Err get url e : fetch_finalized_block get url = Err e -> e = CheckpointSyncError.
Proof. unfold fetch_finalized_block. intros E. destruct (_ ≫= _); [done|]. congruence. Qed.

(** The exceptions of a request that httpx documents *)
Definition transport_error {A} (outcome : result A) : Prop := forall e, outcome = Err e -> e = RequestError.
Lemma fetch_state_Err get url e : (forall u, transport_error (get u)) -> fetch_finalized_state get url = Err e -> e = CheckpointSyncError.
Proof.
  intros Ht E. unfold fetch_finalized_state in E. cbn zeta in E. set (u := _ ++ _) in E. unfold get_content in E. specialize (Ht u).
  destruct (get u) as [[status content]|e'] eqn:Eg; cbn [mbind result_bind] in E.
  - destruct (_ && _); cbn [mbind result_bind] in E; [|congruence]. destruct (container_decode (A := State) content); congruence.
  - rewrite (Ht e' eq_refl) in E. cbn [mbind result_bind] in E. congruence.
Qed.

Lemma create_store_Err state block v e : bk_state_root block = hash_tree_root state -> create_store state block v = Err e -> e = SSZValueError.
Proof.
  intros Hr E. unfold create_store in E. rewrite bool_decide_eq_true_2 in E by done. cbn [negb] in E. destruct (interval_from_slot _) eqn:Ei; [done|].
  cbn in E. injection E as <-. unfold interval_from_slot in Ei. by apply uint_new_Err in Ei.
Qed.

(** Whatever a source answers, an anchor is a decoded pair of a block and the state of its
    state root, with validators and the genesis time of the node; anything else raises
    [CheckpointSyncError], except for a slot whose interval does not fit in 64 bits. *)
Theorem checkpoint_sync_checks (http : nat -> bytes -> result (Z * bytes)) (url : bytes) (genesis : CheckpointSync.GenesisConfig) (v : option Z) :
  (forall anchor, from_checkpoint http url genesis v = Ok anchor ->
     exists sb st store, fetch_finalized_block (http 0%nat) url = Ok sb /\ fetch_finalized_state (http 1%nat) url = Ok st /\
       0 < Zlen (st_validators st) <= VALIDATOR_REGISTRY_LIMIT /\ genesis_time (st_config st) = gc_genesis_time genesis /\
       bk_state_root (sb_block sb) = hash_tree_root st /\ create_store st (sb_block sb) v = Ok store /\ an_store anchor = Some store /\
       an_validators anchor = st_validators st) /\
  ((forall n u, transport_error (http n u)) -> forall e, from_checkpoint http url genesis v = Err e ->
     e = CheckpointSyncError \/ e = SSZValueError).
Proof.
  unfold from_checkpoint. split.
  - intros anchor E. apply bind_Ok in E as (sb & E1 & E). apply bind_Ok in E as (st & E2 & E). unfold verify_checkpoint_state in E.
    destruct (Z.eqb_spec (Zlen (st_validators st)) 0); [done|]. destruct (Z.gtb_spec (Zlen (st_validators st)) VALIDATOR_REGISTRY_LIMIT); [done|].
    destruct (Z.eqb_spec (genesis_time (st_config st)) (gc_genesis_time genesis)); [|done].
    destruct (bool_decide _) eqn:Er; [|done]. apply bool_decide_eq_true in Er. apply bind_Ok in E as (store & Es & E).
    apply bind_Ok in E as (hd & _ & [= <-]). exists sb, st, store. split_and!; try done; lia.
  - intros Ht e E. destruct (fetch_finalized_block _ _) as [sb|e1] eqn:E1; cbn [mbind result_bind] in E; [|left; injection E as <-; by eapply fetch_block_Err].
    destruct (fetch_finalized_state _ _) as [st|e2] eqn:E2; cbn [mbind result_bind] in E; [|left; injection E as <-; by eapply fetch_state_Err; [apply Ht|]].
    destruct (verify_checkpoint_state st); [|left; congruence]. destruct (_ =? _); [|left; congruence].
    destruct (bool_decide _) eqn:Er; [|left; congruence]. apply bool_decide_eq_true in Er.
    destruct (create_store _ _ _) as [store|e3] eqn:E3; cbn [mbind result_bind] in E; [|right; injection E as <-; by eapply create_store_Err].
    exfalso. unfold create_store in E3. destruct (negb _); [done|]. apply bind_Ok in E3 as (t & _ & [= <-]). cbn [mbind result_bind] in E.
    unfold dgetitem in E. cbn in E. by rewrite decide_True in E.
Qed.

(** ** Booting from a node *)

(** The HTTP client of a node reaches the API of [source n] with its request number [n]:
    the source may have moved on between the two.  [render] prints bodies that are no raw
    bytes. *)
Definition source_http (render : payload -> bytes) (metrics_output url : bytes) (source : nat -> SyncService) : nat -> bytes -> result (Z * bytes) :=
  fun n u =>
    let base_url := rstrip slash url in
    if startswith base_url u then
      match (serve metrics_output node_context (get_request (drop (List.length base_url) u)) (source n)).1 with
      | Ok response => Ok (re_status response, match re_body response with Raw data => data | body => render body end)
      | Err _ => Err RequestError
      end
    else Err RequestError.

Lemma startswith_base base path : startswith base (base ++ path) = true.
Proof. apply bool_decide_eq_true. by rewrite take_app_length. Qed.

Section Joining.
Context `{Crypto} (state : State) (block : Block) (render : payload -> bytes) (metrics_output url : bytes) (source : nat -> SyncService).
Context (Hc : anchor_consistent state block) (Hsv : ssz_valid state = true) (Hbv : ssz_valid block = true).
Abbreviation http := (source_http render metrics_output url source).
Abbreviation finalized n := (sto_latest_finalized (sv_store (source n))).

Lemma reach_source path n : http n (rstrip slash url ++ path) =
  match (serve metrics_output node_context (get_request path) (source n)).1 with
  | Ok response => Ok (re_status response, match re_body response with Raw data => data | body => render body end)
  | Err _ => Err RequestError
  end.
Proof. unfold source_http. cbn zeta. by rewrite startswith_base, drop_app_length. Qed.

Lemma fetch_block_from n : reachable_store state block (sv_store (source n)) ->
  exists b, dget (cp_root (finalized n)) (sto_blocks (sv_store (source n))) = Some b /\
    fetch_finalized_block (http n) url = Ok {| sb_block := b; sb_proof := {| mma_proof := [] |} |}.
Proof.
  intros Hr. destruct (finalized_block_Ok _ _ _ Hc Hsv Hbv Hr) as (b & data & E & Eb & Ed). exists b. split; [done|].
  unfold fetch_finalized_block, get_content. cbn zeta. rewrite reach_source. unfold serve, catch.
  change (resolve _ _ _) with (Ok (fun _ : Request => finalized_block node_context)). rewrite run_raising, E.
  cbn [fst re_status re_body ssz_response mbind result_bind]. change (_ && _) with true. cbn [mbind result_bind]. by rewrite Ed.
Qed.
Lemma fetch_state_from n : reachable_store state block (sv_store (source n)) ->
  exists st, dget (cp_root (finalized n)) (sto_states (sv_store (source n))) = Some st /\ fetch_finalized_state (http n) url = Ok st.
Proof.
  intros Hr. destruct (finalized_state_Ok _ _ _ Hc Hsv Hbv Hr) as (st & data & E & Est & Ed). exists st. split; [done|].
  unfold fetch_finalized_state, get_content. cbn zeta. rewrite reach_source. unfold serve, catch.
  change (resolve _ _ _) with (Ok (fun _ : Request => finalized_state node_context)). rewrite run_raising, E.
  cbn [fst re_status re_body ssz_response mbind result_bind]. change (_ && _) with true. cbn [mbind result_bind]. by rewrite Ed.
Qed.

Lemma create_store_from st b v : state_inv st -> st_head_slot st = bk_slot b -> bk_state_root b = hash_tree_root st ->
  exists s, create_store st b v = Ok s /\ sto_head s = hash_tree_root b /\ sto_blocks s = [(hash_tree_root b, b)] /\
    sto_latest_finalized s = {| cp_root := hash_tree_root b; cp_slot := bk_slot b |}.
Proof.
  intros Hi Hsl Hr. unfold create_store. rewrite bool_decide_eq_true_2 by done. cbn [negb]. unfold interval_from_slot.
  pose proof (inv_head _ Hi). pose proof (inv_history_limit _ Hi).
  rewrite uint_new_in_range; [by eexists|]. unfold in_range, HISTORICAL_ROOTS_LIMIT, INTERVALS_PER_SLOT in *. lia.
Qed.

Context `{Signer} (boot : NodeBootstrap) (Hurl : nb_checkpoint_sync_url boot = Some url).
Context (Hr0 : reachable_store state block (sv_store (source 0))).
Context (Hsteps : rtc (store_step (hash_tree_root block, block)) (sv_store (source 0)) (sv_store (source 1))).
Context (Hn : 0 < Zlen (st_validators state)) (Ht : genesis_time (st_config state) = gc_genesis_time (nb_genesis boot)).

Lemma later_reachable : reachable_store state block (sv_store (source 1)).
Proof. eapply rtc_ind_r; [exact Hr0| |exact Hsteps]. intros s1 s2 _ Hst IH. by eapply reach_step. Qed.

Lemma joined : finalized 0 = finalized 1 ->
  exists st b store anchor, build_anchor http boot = Ok anchor /\ an_validators anchor = st_validators state /\
    an_initial_status anchor = {| ss_finalized := finalized 0; ss_head := finalized 0 |} /\ an_store anchor = Some store /\
    create_store st b (primary_index (nb_registry boot)) = Ok store /\ sto_latest_finalized store = finalized 0 /\
    anchor_consistent st b /\ ssz_valid st = true /\ ssz_valid b = true.
Proof.
  intros Hf. pose proof later_reachable as Hr1.
  destruct (finalized_entry _ _ _ Hc Hsv Hbv Hr0) as (b & st0 & Eb & Est0 & Hfin & Hac & Hval).
  destruct (fetch_block_from 0 Hr0) as (b' & Eb' & Fb). destruct (fetch_state_from 1 Hr1) as (st & Est & Fs). simplify_eq.
  pose proof (reachable_paired _ _ _ Hc Hsv Hbv Hr0) as Hp0.
  destruct (steps_paired _ _ _ _ _ (reachable_good _ _ _ Hc Hr0) Hp0 Hsteps) as (_ & Hp1 & [Hkb Hks]).
  rewrite <- Hf in Est. pose proof (Hks _ _ Est0) as Est1. simplify_eq.
  destruct (pa_states _ _ Hp0 _ _ Est0) as [Hstv Hconf]. pose proof (pa_blocks _ _ Hp0 _ _ Eb) as Hbv'.
  pose proof (pa_roots _ _ Hp0 _ _ _ Eb Est0) as Hroot. destruct Hac as (Hi & Hsl & Hk & Hself).
  destruct (create_store_from st b (primary_index (nb_registry boot)) Hi Hsl Hroot) as (store & Es & Eh & Ebl & Ef).
  exists st, b, store. eexists. unfold build_anchor, from_checkpoint. rewrite Hurl, Fb. cbn [mbind result_bind]. rewrite Fs. cbn [mbind result_bind].
  unfold verify_checkpoint_state. rewrite (proj2 (Z.eqb_neq _ _)), Z.gtb_ltb, (proj2 (Z.ltb_ge _ _)) by (rewrite ?Hval; try apply Hc; lia).
  cbn [sb_block]. rewrite (proj2 (Z.eqb_eq _ _)) by (by rewrite Hconf). rewrite bool_decide_eq_true_2 by done. rewrite Es. cbn [mbind result_bind].
  unfold dgetitem. rewrite Eh, Ebl. cbn [dget]. rewrite decide_True by done. cbn [of_option mbind result_bind]. split; [reflexivity|].
  cbn [an_validators an_initial_status an_store]. split_and!; try done; by rewrite Ef, ?Hfin.
Qed.

Lemma refused : (forall b st, dget (cp_root (finalized 0)) (sto_blocks (sv_store (source 0))) = Some b ->
    dget (cp_root (finalized 1)) (sto_states (sv_store (source 1))) = Some st -> bk_state_root b <> hash_tree_root st) ->
  build_anchor http boot = Err CheckpointSyncError.
Proof.
  intros Hd. destruct (fetch_block_from 0 Hr0) as (b & Eb & Fb). destruct (fetch_state_from 1 later_reachable) as (st & Est & Fs).
  unfold build_anchor, from_checkpoint. rewrite Hurl, Fb. cbn [mbind result_bind]. rewrite Fs. cbn [mbind result_bind].
  destruct (verify_checkpoint_state st); [|done]. destruct (_ =? _); [|done]. cbn [sb_block]. by rewrite bool_decide_eq_false_2 by eauto.
Qed.
End Joining.

(** C13: checkpoint sync joins the chain of its source.  Let a node serve its API over a
    reachable store, and another boot from it, with the genesis time of that chain.  When the
    finalized checkpoint did not move between the two requests, the boot succeeds, and the
    node starts with that checkpoint as head, finalized and served status, in a store created
    from its block and state as a consistent anchor, so that whatever holds of reachable stores
    holds of it; when block and state do not pair, the boot raises [CheckpointSyncError]. *)
Theorem checkpoint_sync_joins_chain `{Crypto} `{Signer} `{Disk} (state : State) (block : Block) (render : payload -> bytes)
    (metrics_output url : bytes) (source : nat -> SyncService) (boot : NodeBootstrap) :
  anchor_consistent state block -> ssz_valid state = true -> ssz_valid block = true -> 0 < Zlen (st_validators state) ->
  reachable_store state block (sv_store (source 0%nat)) ->
  rtc (store_step (hash_tree_root block, block)) (sv_store (source 0%nat)) (sv_store (source 1%nat)) ->
  nb_checkpoint_sync_url boot = Some url -> genesis_time (st_config state) = gc_genesis_time (nb_genesis boot) ->
  let http := source_http render metrics_output url source in
  let finalized n := sto_latest_finalized (sv_store (source n)) in
  (finalized 0%nat = finalized 1%nat ->
     exists st b anchor, build_anchor http boot = Ok anchor /\ an_validators anchor = st_validators state /\
       an_initial_status anchor = {| ss_finalized := finalized 0%nat; ss_head := finalized 0%nat |} /\
       anchor_consistent st b /\ ssz_valid st = true /\ ssz_valid b = true /\
       forall now, exists node, from_genesis (node_config boot anchor) now None = (Ok node, None) /\
         reachable_store st b (sv_store (nd_sync node)) /\ sto_head (sv_store (nd_sync node)) = cp_root (finalized 0%nat) /\
         sto_latest_finalized (sv_store (nd_sync node)) = finalized 0%nat) /\
  ((forall b st, dget (cp_root (finalized 0%nat)) (sto_blocks (sv_store (source 0%nat))) = Some b ->
      dget (cp_root (finalized 1%nat)) (sto_states (sv_store (source 1%nat))) = Some st -> bk_state_root b <> hash_tree_root st) ->
     build_anchor http boot = Err CheckpointSyncError).
Proof.
  intros Hc Hsv Hbv Hn Hr Hst Hu Ht. cbn zeta. split; [|by eapply refused].
  intros Hf. destruct (joined state block render metrics_output url source Hc Hsv Hbv boot Hu Hr Hst Hn Ht Hf)
    as (st & b & store & anchor & Ea & Hv & Hs & Es & Ec & Efin & Hac & Hstv & Hbv2).
  exists st, b, anchor. split_and!; try done; try apply Hac. intros now. eexists. split.
  { unfold from_genesis, node_config. cbn [with_database nc_anchor_store]. rewrite Es. reflexivity. }
  cbn [nd_sync wire sv_store]. split_and!; [by eapply reach_create| |done].
  unfold create_store in Ec. destruct (negb _); [done|]. apply bind_Ok in Ec as (t & _ & [= <-]). cbn in Efin |- *. by rewrite <- Efin.
Qed.

(** A node without validators boots from one whose finalized slot is 1. *)
Definition no_signer : Signer := {|
  secret_key := unit; prepared_interval := fun _ => (0, 0); advance_key := fun k => Ok k; sign_message := fun _ _ _ => Err ValueError |}.
Definition no_disk : Disk := {| sqlite_fails := fun _ => false |}.
Definition sample_boot : NodeBootstrap (H := no_signer) := {|
  nb_genesis := {| gc_genesis_time := genesis_time (st_config sample_genesis); gc_genesis_validators := [] |};
  nb_registry := []; nb_bootnode_multiaddrs := []; nb_listen_address := None;
  nb_checkpoint_sync_url := Some (str "http://source:5052/"); nb_node_id := []; nb_is_aggregator := false; nb_aggregate_subnet_ids := [];
  nb_api_port := None |}.

Lemma checkpoint_sync_joins_chain_witness : exists st b anchor,
  build_anchor (H := no_signer) (source_http (fun _ => []) [] (str "http://source:5052/") (fun _ => sample_service)) sample_boot = Ok anchor /\
  an_validators anchor = sample_registry /\ anchor_consistent st b /\
  (an_initial_status anchor).(ss_head) = sto_latest_finalized storeA3 /\ cp_slot (sto_latest_finalized storeA3) = 1.
Proof.
  destruct (proj1 (checkpoint_sync_joins_chain (H := sample_crypto) (H0 := no_signer) (H1 := no_disk) sample_genesis genesis_block (fun _ => []) []
    (str "http://source:5052/") (fun _ => sample_service) sample_boot sample_anchor sample_genesis_valid sample_block_valid
    ltac:(vm_compute; reflexivity) sample_storeA3 (rtc_refl _ _) eq_refl eq_refl) eq_refl) as (st & b & anchor & E & Hv & Hs & Hc & _).
  exists st, b, anchor. split; [exact E|]. split; [exact Hv|]. split; [exact Hc|]. split; [by rewrite Hs|vm_compute; reflexivity].
Defined.
