(* ===== verification/NodeCorrect.v ===== *)
(** * A node restarts from what it persisted

    Runs of the node from its genesis boot, over any events and ticks, and the boot that
    follows a stop or a crash.  The restart always finds a chain to resume; the last
    section shows what the resumed store cannot do. *)

From stdpp Require Import strings.
From S2P Require Import Prelude Pydict Uint Ssz SszCorrect Sha256 Merkle Containers.
From S2P Require Import StateTransition Samples StateCorrect StateHistory Proofs SszRecords StateTyped Signatures.
From S2P Require Import SignaturesCorrect ForkChoice ForkChoiceCorrect StoreVotes StoreCorrect.
From S2P Require Import StoreHandlers Aggregation Duties SampleStores AggregationCorrect.
From S2P Require Import StoreReachable DutiesCorrect StoreTheorems DutyTheorems.
From S2P Require Import Varint Snappy ReqResp ReqRespCorrect BlockCache PeerManager StateMonad.
From S2P Require Import Backfill BackfillCorrect SyncService SyncTheorems SyncSteps Storage StorageCorrect.
From S2P Require Import ChainService ChainCorrect ValidatorService Persistence Node.

(** ** Ticks *)
Section Ticks.
Context `{Crypto} (anchor : Bytes32 * Block) (registry : list Validator).
Abbreviation good := (store_good anchor registry).

(** A tick moves the head or leaves the chain alone. *)
Lemma tick_interval_shape s hp agg s' l :
  tick_interval s hp agg = Ok (s', l) -> same_chain s s' \/ exists sB, same_chain s sB /\ update_head sB = Ok s'.
Proof.
  intros E. unfold tick_interval in E. apply bind_Ok in E as (t & _ & E).
  assert (forall s1, accept_new_attestations (store_with_time s t) = Ok s1 -> exists sB, same_chain s sB /\ update_head sB = Ok s1) as Ha
    by (intros s1 E1; eexists; split; [|exact E1]; done).
  destruct (_ && hp); [apply bind_Ok in E as (s2 & E & [= <- <-]); eauto|].
  destruct (_ && agg).
  { left. unfold aggregate in E. apply bind_Ok in E as (st & _ & E). apply bind_Ok in E as (rs & _ & E). by injection E as <- _. }
  destruct (_ =? 3).
  { left. apply bind_Ok in E as (s2 & E & [= <- <-]). unfold update_safe_target in E.
    apply bind_Ok in E as (? & _ & E). apply bind_Ok in E as (? & _ & E). by apply bind_Ok in E as (? & _ & [= <-]). }
  destruct (_ =? 4); [apply bind_Ok in E as (s2 & E & [= <- <-]); eauto|]. left. by injection E as <- _.
Qed.

Lemma update_head_chain_ok s sB s' :
  store_inv anchor s -> same_chain s sB -> chain_ok s -> update_head sB = Ok s' -> chain_ok s'.
Proof.
  intros Hs (Eb & Es & Ej & Ef & _) Hc E. destruct (si_justified _ _ Hs) as (jb & Ejb & _).
  destruct (update_head_facts sB s' E) as (h & fin & st & -> & Est & Hfin & _); rewrite ?Eb, ?Ej; [apply Hs|apply Hs|eauto|].
  destruct Hc as [H1 H2 H3]. split; cbn; rewrite ?Eb, ?Es, ?Ej; [done|done|]. destruct Hfin as [Hfin| ->]; [|by rewrite Ef].
  rewrite Es in Est. destruct (H2 _ _ Est) as [_ Hj]. destruct (proj2 (store_state_known _ _ h Hs) (mk_is_Some _ _ Est)) as [hb Ehb].
  pose proof (inv_order _ (eo_inv _ _ _ _ _ (si_entry _ _ Hs _ _ _ Ehb Est))). lia.
Qed.

Lemma tick_view_ok s hp agg s' l sn :
  in_range 64 (sto_time s + 1) -> tick_interval s hp agg = Ok (s', l) ->
  view_ok anchor registry (s, sn) -> view_ok anchor registry (s', sn).
Proof.
  intros Hr E ([Hok Ht] & Hc & Hp). cbn [fst snd] in *.
  destruct (tick_interval_cases anchor registry s hp agg Hok Hr) as [(s2 & l2 & E2 & Hok' & Ht')|(e & E2 & _)]; [|congruence].
  rewrite E in E2. injection E2 as <- <-. destruct (tick_interval_same_tree s hp agg s' l E) as (Eb & Es & Ej).
  split; [split; [done|cbn; lia]|]. split; cbn.
  - destruct (tick_interval_shape s hp agg s' l E) as [Hsame|(sB & Hsame & Eu)]; [by apply (chain_ok_same s)|].
    by apply (update_head_chain_ok s sB); [apply Hok|..].
  - apply (persisted_same s); [done|done|by rewrite Ej|done].
Qed.
End Ticks.

(** ** Runs of the node *)
Section Runs.
Context `{Crypto} `{SetOrder} `{Network} (anchor : Bytes32 * Block) (registry : list Validator).

(** An event from the network, or a tick of the clock *)
Inductive node_step (s : SyncService) : SyncService -> Prop :=
| node_event event s' : event_ok anchor event -> _handle_event event s = (Ok tt, s') -> node_step s s'
| node_tick has_proposal role store aggregates :
    in_range 64 (sto_time (sv_store s) + 1) -> tick_interval (sv_store s) has_proposal role = Ok (store, aggregates) ->
    node_step s (with_store store s).

(** What a run does to the store, with the last import on the side: the block and
    the store it left.  The database plays no part. *)
Definition import_view : Type := Store * option (Block * Store).
Inductive import_step : import_view -> import_view -> Prop :=
| import_block store last b store1 store2 aggregates :
    dget (hash_tree_root (sb_block b)) (sto_blocks store) = None ->
    on_block store b = Ok store1 -> _deconstruct_block_into_store store1 b = Ok (store2, aggregates) ->
    import_step (store, last) (store2, Some (sb_block b, store2))
| import_vote store last a is_aggregator store' :
    on_gossip_attestation store a is_aggregator = Ok store' -> import_step (store, last) (store', last)
| import_aggregated store last a store' :
    on_gossip_aggregated_attestation store a = Ok store' -> import_step (store, last) (store', last)
| import_tick store last has_proposal role store' aggregates :
    tick_interval store has_proposal role = Ok (store', aggregates) -> import_step (store, last) (store', last).

(** The head and the checkpoints of a snapshot are those the last import left, or
    the initial ones before any import. *)
Definition points_at (sn0 : Snapshot) (last : option (Block * Store)) (sn : Snapshot) : Prop :=
  (sn_head sn, sn_justified sn, sn_finalized sn) =
  match last with
  | Some (_, at_import) =>
      (Some (sto_head at_import), Some (sto_latest_justified at_import), Some (sto_latest_finalized at_import))
  | None => (sn_head sn0, sn_justified sn0, sn_finalized sn0)
  end.

Definition imports_tracked (store0 : Store) (sn0 : Snapshot) (store : Store) (batches : list (list db_write)) : Prop :=
  exists last, rtc import_step (store0, None) (store, last) /\
    points_at sn0 last (foldl (fun sn ws => apply_writes ws sn) sn0 batches).

Lemma persist_points_at sn0 store b sn : points_at sn0 (Some (b, store)) (apply_writes (_persist_block store b) sn).
Proof.
  unfold points_at, _persist_block. destruct (dget _ (sto_states store)), (_ >? 0); reflexivity.
Qed.

Lemma sync_step_tracked store0 sn0 v v' batches :
  sync_step anchor v v' -> v.1.2 = Some batches -> imports_tracked store0 sn0 v.1.1 batches ->
  exists batches', v'.1.2 = Some batches' /\ imports_tracked store0 sn0 v'.1.1 batches'.
Proof.
  intros Hst Eb (last & Hr & Hp).
  destruct Hst as [store db role b store1 store2 aggs Hbok Hnew E1 E2|store db role a agg store' Ha E|store db role a store' Ha E]; cbn in *; subst.
  - eexists. split; [done|]. exists (Some (sb_block b, store2)). split; [by eapply rtc_r, import_block|].
    rewrite foldl_app. apply persist_points_at.
  - exists batches. split; [done|]. exists last. split; [by eapply rtc_r, import_vote|done].
  - exists batches. split; [done|]. exists last. split; [by eapply rtc_r, import_aggregated|done].
Qed.

Lemma sync_steps_tracked store0 sn0 v v' batches :
  rtc (sync_step anchor) v v' -> v.1.2 = Some batches -> imports_tracked store0 sn0 v.1.1 batches ->
  exists batches', v'.1.2 = Some batches' /\ imports_tracked store0 sn0 v'.1.1 batches'.
Proof.
  intros Hst. revert batches. induction Hst as [v|v1 v2 v3 Hs _ IH]; intros batches Eb Ht; [by exists batches|].
  destruct (sync_step_tracked _ _ _ _ _ Hs Eb Ht) as (more & Em & Ht'). by apply (IH _ Em).
Qed.

(** The node holds its invariant, and its database what a restart needs. *)
Definition node_ok (store0 : Store) (sn0 : Snapshot) (s : SyncService) : Prop :=
  service_inv anchor registry s /\
  exists batches, sv_database s = Some batches /\ Forall (Forall write_ok) batches /\
    imports_tracked store0 sn0 (sv_store s) batches /\
    view_ok anchor registry (sv_store s, foldl (fun sn ws => apply_writes ws sn) sn0 batches).

Lemma steps_persist v v' batches sn0 :
  rtc (sync_step anchor) v v' -> v.1.2 = Some batches -> Forall (Forall write_ok) batches ->
  view_ok anchor registry (v.1.1, foldl (fun sn ws => apply_writes ws sn) sn0 batches) ->
  exists batches', v'.1.2 = Some batches' /\ Forall (Forall write_ok) batches' /\
    view_ok anchor registry (v'.1.1, foldl (fun sn ws => apply_writes ws sn) sn0 batches').
Proof.
  intros Hst. revert batches. induction Hst as [v|v1 v2 v3 Hs _ IH]; intros batches Eb Hw Hv; [by exists batches|].
  destruct (sync_step_persists anchor registry _ _ batches _ Hs Eb Hv) as (more & Em & Hm & Hv').
  apply (IH _ Em); [by apply Forall_app_2|by rewrite foldl_app].
Qed.

Lemma node_step_ok store0 sn0 s s' :
  NetworkOk (block_ok anchor) -> node_step s s' -> node_ok store0 sn0 s -> node_ok store0 sn0 s'.
Proof.
  intros Hn Hst [Hs (batches & Eb & Hw & Hi & Hv)]. destruct Hst as [event s' He E|hp role store aggs Hr E].
  - destruct (handle_event_steps anchor registry event s Hn Hs He) as (s2 & E2 & Hs2 & Hsteps). rewrite E in E2. injection E2 as <-.
    split; [done|]. destruct (steps_persist (view_of s) (view_of s') batches sn0 Hsteps Eb Hw Hv) as (batches' & Eb' & Hw' & Hv').
    destruct (sync_steps_tracked store0 sn0 _ _ batches Hsteps Eb Hi) as (batches2 & Eb2 & Hi'). cbn in Eb', Eb2.
    rewrite Eb' in Eb2. injection Eb2 as <-. by exists batches'.
  - destruct (tick_view_ok anchor registry _ _ _ _ _ _ Hr E Hv) as (Hg & Hc & Hp).
    split; [destruct Hs; by split|]. exists batches. split_and!; [done|done| |done].
    destruct Hi as (last & Hst & Hpt). exists last. split; [by eapply rtc_r, import_tick|done].
Qed.

Lemma node_steps_ok store0 sn0 s s' :
  NetworkOk (block_ok anchor) -> rtc node_step s s' -> node_ok store0 sn0 s -> node_ok store0 sn0 s'.
Proof. intros Hn. induction 1; eauto using node_step_ok. Qed.
End Runs.

(** ** Booting *)
Section Boot.
Context `{Disk}.

Definition genesis_snapshot (state : State) (genesis_time : Z) : Snapshot :=
  let block := genesis_block_of state in
  let root := hash_tree_root block in
  let checkpoint := {| cp_root := root; cp_slot := 0 |} in {|
  sn_blocks := [(root, block)]; sn_states := [(root, state)];
  sn_justified := Some checkpoint; sn_finalized := Some checkpoint; sn_head := Some root;
  sn_genesis_time := Some genesis_time; sn_slot_index := [(0, root)];
  sn_state_root_index := [(hash_tree_root state, root)] |}.

Lemma genesis_block_valid state : ssz_valid state = true -> ssz_valid (genesis_block_of state) = true.
Proof.
  intros Hs. apply block_valid. cbn. split_and!; try done. apply state_root_length, Hs.
Qed.

Lemma genesis_snapshot_ok state genesis_time :
  ssz_valid state = true -> in_range 64 genesis_time -> snapshot_ok (genesis_snapshot state genesis_time).
Proof.
  intros Hs Ht. pose proof (genesis_block_valid _ Hs) as Hb. pose proof (block_root_length _ Hb) as Hr.
  split; cbn; try (by repeat constructor); try (by intros ? [= <-]); intros ? [= <-]; by apply checkpoint_valid.
Qed.

(** The batch of a genesis boot, up to the genesis time *)
Definition genesis_writes (state : State) : list db_write :=
  let block := genesis_block_of state in
  let root := hash_tree_root block in
  let checkpoint := {| cp_root := root; cp_slot := 0 |} in
  [SyncService.put_block block root; SyncService.put_state state root; SyncService.put_head_root root;
   SyncService.put_justified_checkpoint checkpoint; SyncService.put_finalized_checkpoint checkpoint;
   SyncService.put_block_root_by_slot 0 root; SyncService.put_block_root_by_state_root (hash_tree_root state) root].

Lemma genesis_writes_ok state : ssz_valid state = true -> st_slot state = 0 -> Forall write_ok (genesis_writes state).
Proof.
  intros Hs Hsl. pose proof (genesis_block_valid _ Hs) as Hb. pose proof (block_root_length _ Hb) as Hr.
  assert (ssz_valid {| cp_root := hash_tree_root (genesis_block_of state); cp_slot := 0 |} = true) as Hc by (by apply checkpoint_valid).
  unfold genesis_writes. cbn zeta. rewrite !Forall_cons, Forall_nil. cbn [write_ok genesis_block_of bk_slot]. unfold slot_ok.
  rewrite Hsl. by split_and!.
Qed.

(** Without failures a batch commits. *)
Lemma batch_write_ok {A} (body : M Connection A) s s' (Q : A -> Prop) c :
  settled s c -> ~ disk_failed ->
  (forall t0, triple (holds t0 s) body (fun a c => Q a /\ holds t0 s' c) (failed t0 StorageWriteError)) ->
  exists a c', batch_write body c = (Ok a, c') /\ Q a /\ settled s' c'.
Proof.
  intros [Hc Hr] Hd Hb. unfold batch_write. unfold mbind at 1, M_bind at 1.
  specialize (Hb (cn_committed c) c). destruct (body c) as [[a|e] c1].
  - destruct Hb as [Ha [Hc1 Hr1]]; [split; [done|by rewrite Hc]|]. unfold mbind, M_bind, commit.
    destruct (sqlite_fails _) eqn:Ef; [destruct Hd; by eexists|]. cbn. by eexists _, _.
  - destruct Hb as (_ & _ & ?); [split; [done|by rewrite Hc]|]. done.
Qed.

Lemma batch_write_ext {A} (m m' : M Connection A) c : m c = m' c -> batch_write m c = batch_write m' c.
Proof. intros E. unfold batch_write, mbind, M_bind. by rewrite E. Qed.

Lemma persist_genesis_ok state genesis_time vi store c :
  ssz_valid state = true -> st_slot state = 0 -> in_range 64 genesis_time -> ~ disk_failed ->
  create_store state (genesis_block_of state) vi = Ok store -> settled empty_snapshot c ->
  exists c', persist_genesis state (genesis_block_of state) store genesis_time c = (Ok tt, c') /\
    settled (genesis_snapshot state genesis_time) c'.
Proof.
  intros Hs Hsl Ht Hd Hst Hc. unfold create_store in Hst. destruct (negb _); [done|].
  apply bind_Ok in Hst as (t & _ & [= <-]).
  destruct (batch_write_ok (for_each (genesis_writes state) run_write ≫= fun _ => put_genesis_time genesis_time) empty_snapshot
    (genesis_snapshot state genesis_time) (fun _ => True) c Hc Hd) as ([] & c' & E & _ & Hc').
  - intros t0. eapply triple_bind; [by apply run_writes_ok, genesis_writes_ok|]. intros [].
    apply (triple_consequence _ _ (holds t0 (apply_writes (genesis_writes state) empty_snapshot)) _
      (fun _ => holds t0 (genesis_snapshot state genesis_time)) _ (failed t0 StorageWriteError)); [|done|done|done].
    unfold put_genesis_time. rewrite (proj2 (to_bytes_le_Ok 8 genesis_time (time_row genesis_time)) (conj Ht eq_refl)).
    apply put_key_ok. intros tb []. by split; cbn; rewrite ?dget_dset_eq, ?dget_dset_ne by done.
  - exists c'. split; [|done]. rewrite <- E. apply batch_write_ext.
    exact (eq_sym (for_each_bind (genesis_writes state) run_write (fun _ => put_genesis_time genesis_time) c)).
Qed.

Lemma reads_run {A} (m : M Connection (option A)) s c value :
  ~ disk_failed -> settled s c -> reads s m value -> exists c', m c = (Ok value, c') /\ settled s c'.
Proof.
  intros Hd Hc Hm. specialize (Hm c Hc). destruct (m c) as [[a|e] c']; [destruct Hm as [-> ?]; eauto|]. by destruct Hm as (_ & _ & ?).
Qed.

(** Loading finds nothing in a fresh database, and the persisted head otherwise. *)
Lemma load_fresh vi time now c :
  ~ disk_failed -> settled empty_snapshot c ->
  exists c', _try_load_store_from_database vi time now c = (Ok None, c') /\ settled empty_snapshot c'.
Proof.
  intros Hd Hc. destruct (reads_run _ _ c _ Hd Hc (get_head_reads _ empty_snapshot_ok)) as (c1 & E1 & Hc1).
  exists c1. split; [|done]. unfold _try_load_store_from_database. by rewrite (run_bind _ _ _ _ _ E1).
Qed.

Lemma load_head s sn h b st j f vi genesis_time now c :
  ~ disk_failed -> settled sn c -> snapshot_ok sn -> loadable s sn h b st j f ->
  clock_ok genesis_time now -> 0 <= bk_slot b <= HISTORICAL_ROOTS_LIMIT ->
  exists c', _try_load_store_from_database vi (Some genesis_time) now c =
    (Ok (Some (resumed_store (Z.max (elapsed genesis_time now / 800) (bk_slot b * INTERVALS_PER_SLOT)) vi h b st j f)), c').
Proof.
  intros Hd Hc Hs [Lh [Lb _] [Ls _] Lj Lf _ _] Hck Hsl. unfold _try_load_store_from_database.
  destruct (reads_run _ _ c _ Hd Hc (get_head_reads sn Hs)) as (c1 & E1 & Hc1). rewrite (run_bind _ _ _ _ _ E1), Lh.
  destruct (reads_run _ _ c1 _ Hd Hc1 (get_block_reads sn Hs h)) as (c2 & E2 & Hc2). rewrite (run_bind _ _ _ _ _ E2), Lb.
  destruct (reads_run _ _ c2 _ Hd Hc2 (get_state_reads sn Hs h)) as (c3 & E3 & Hc3). rewrite (run_bind _ _ _ _ _ E3), Ls.
  destruct (reads_run _ _ c3 _ Hd Hc3 (get_justified_reads sn Hs)) as (c4 & E4 & Hc4). rewrite (run_bind _ _ _ _ _ E4), Lj.
  destruct (reads_run _ _ c4 _ Hd Hc4 (get_finalized_reads sn Hs)) as (c5 & E5 & Hc5). rewrite (run_bind _ _ _ _ _ E5), Lf.
  exists c5. rewrite (run_bind (mret (Some genesis_time)) _ c5 (Some genesis_time) c5 eq_refl). cbn [default id].
  rewrite total_intervals_eq by done. rewrite run_raising. unfold interval_from_slot.
  rewrite uint_new_in_range by (unfold in_range, HISTORICAL_ROOTS_LIMIT, INTERVALS_PER_SLOT in *; lia). by rewrite run_raising.
Qed.

Lemma with_database_some {A} (d : A) (m : M Connection A) c r c' :
  m c = (r, c') -> with_database d m (Some c) = (r, Some c').
Proof. intros E. unfold with_database. by rewrite E. Qed.

Lemma wire_start config store : nd_sync (wire config store true) = service_start store (nc_is_aggregator config) true true (Some []).
Proof. done. Qed.

(** ** The first boot *)
Record config_ok (config : NodeConfig) : Prop := {
  cf_fresh : nc_anchor_store config = None;
  cf_time : in_range 64 (nc_genesis_time config);
  cf_registry : Zlen (nc_validators config) <= VALIDATOR_REGISTRY_LIMIT /\
    Forall (fun v => ssz_valid v = true) (nc_validators config)
}.

Definition config_state (config : NodeConfig) : State := generate_genesis (nc_genesis_time config) (nc_validators config).
Definition config_anchor (config : NodeConfig) : Bytes32 * Block :=
  (hash_tree_root (genesis_block_of (config_state config)), genesis_block_of (config_state config)).

Lemma config_state_valid config : config_ok config -> ssz_valid (config_state config) = true.
Proof. intros [_ Ht [Hl Hv]]. by apply genesis_valid. Qed.

Lemma boot_fresh config now c :
  config_ok config -> ~ disk_failed -> settled empty_snapshot c ->
  exists store c', create_store (config_state config) (genesis_block_of (config_state config)) (nc_validator_index config) = Ok store /\
    from_genesis config now (Some c) = (Ok (wire config store true), Some c') /\
    settled (genesis_snapshot (config_state config) (nc_genesis_time config)) c'.
Proof.
  intros Hcf Hd Hc. pose proof (config_state_valid _ Hcf) as Hv. destruct Hcf as [Ha Ht _].
  destruct (load_fresh (nc_validator_index config) (Some (nc_genesis_time config)) now c Hd Hc) as (c1 & E1 & Hc1).
  assert (exists store, create_store (config_state config) (genesis_block_of (config_state config)) (nc_validator_index config) = Ok store) as [store Est].
  { unfold create_store. cbn [genesis_block_of bk_state_root bk_slot]. rewrite bool_decide_eq_true_2 by done. cbn [negb].
    unfold interval_from_slot. rewrite uint_new_in_range by done. by eexists. }
  destruct (persist_genesis_ok (config_state config) (nc_genesis_time config) (nc_validator_index config) store c1 Hv eq_refl Ht Hd Est Hc1)
    as (c2 & E2 & Hc2).
  exists store, c2. split_and!; [done| |done]. unfold from_genesis.
  rewrite (run_bind _ _ _ _ _ (with_database_some None _ _ _ _ E1)), Ha.
  assert (genesis_store config (Some c1) = (Ok store, Some c2)) as Eg.
  { unfold genesis_store. fold (config_state config). rewrite Est, run_raising.
    by rewrite (run_bind _ _ _ _ _ (with_database_some tt _ _ _ _ E2)). }
  rewrite (run_bind _ _ _ _ _ Eg). done.
Qed.
End Boot.

(** ** The start of a run *)
Section Start.
Context `{Crypto} `{SetOrder} `{Network}.

Lemma genesis_view_ok config store :
  config_ok config -> anchor_consistent (config_state config) (genesis_block_of (config_state config)) ->
  create_store (config_state config) (genesis_block_of (config_state config)) (nc_validator_index config) = Ok store ->
  view_ok (config_anchor config) (nc_validators config)
    (store, genesis_snapshot (config_state config) (nc_genesis_time config)).
Proof.
  intros Hcf Hc Est. pose proof (create_good _ _ _ _ Hc Est) as Hg. pose proof (config_state_valid _ Hcf) as Hv.
  pose proof (genesis_block_valid _ Hv) as Hb. pose proof (proj1 Hg) as [Hinv _].
  unfold create_store in Est. destruct (negb _); [done|]. apply bind_Ok in Est as (t & _ & [= <-]).
  set (root := hash_tree_root (genesis_block_of (config_state config))) in *.
  assert (forall r (A : Type) (x y : A), dget r [(root, x)] = Some y -> r = root /\ y = x) as Hone
    by (intros r A x y; cbn; case_decide; [by intros [= <-]|done]).
  split; [exact Hg|]. split.
  - split; cbn [fst sto_blocks sto_states sto_latest_justified sto_latest_finalized].
    + intros r b E. by apply Hone in E as [_ ->].
    + intros r st E. apply Hone in E as [_ ->]. done.
    + done.
  - assert (forall (A : Type) (x : A), dget root [(root, x)] = Some x) as Hget by (intros A x; cbn; by rewrite decide_True).
    split.
    + by apply genesis_snapshot_ok; [|apply Hcf].
    + exists 0. split; [done|]. intros r b st E1 E2 _. by apply Hone in E1 as [-> ->], E2 as [_ ->]; cbn [snd genesis_snapshot sn_blocks sn_states].
    + eexists root, _, _, _, _. split; cbn [snd genesis_snapshot sn_head sn_blocks sn_states sn_justified sn_finalized fst sto_blocks sto_states];
        try reflexivity; [split; apply Hget|split; apply Hget|eapply anc_refl, Hget|split; (eexists; split; [apply Hget|done])].
Qed.

Lemma start_node_ok config store :
  config_ok config -> anchor_consistent (config_state config) (genesis_block_of (config_state config)) ->
  create_store (config_state config) (genesis_block_of (config_state config)) (nc_validator_index config) = Ok store ->
  node_ok (config_anchor config) (nc_validators config) store (genesis_snapshot (config_state config) (nc_genesis_time config))
    (nd_sync (wire config store true)).
Proof.
  intros Hcf Hc Est. rewrite wire_start. split; [by apply service_start_inv; apply (create_good _ _ _ _ Hc Est)|].
  exists []. split_and!; [done|by apply Forall_nil| |by apply genesis_view_ok].
  exists None. split; [apply rtc_refl|done].
Qed.

Lemma accepted_all `{Disk} batches rs sn :
  length rs = length batches -> Forall (fun r => r = Ok tt \/ (r = Err StorageWriteError /\ disk_failed)) rs -> ~ disk_failed ->
  apply_accepted batches rs sn = foldl (fun sn ws => apply_writes ws sn) sn batches /\ rs = repeat (Ok tt) (length batches).
Proof.
  intros Hl Hf Hd. revert rs sn Hl Hf. induction batches as [|ws batches IH]; intros [|r rs] sn Hl Hf; try done.
  apply Forall_cons in Hf as [[->|[_ ?]] Hf]; [|done]. cbn [apply_accepted is_Ok foldl length repeat].
  destruct (IH rs (apply_writes ws sn)) as [-> ->]; [by injection Hl|done|done].
Qed.
End Start.

(** C12: a node can always resume, while its disk does not fail.  Boot a node from
    genesis on an empty database, run it over any well-formed events and ticks, and boot
    again on what its batches have committed: the second boot resumes at the head, with
    the justified and the finalized checkpoint, that the last block imported in the run
    left in the store (at genesis when there was no import), with that head's block and
    post-state as the store still holds them (pruning never removed them) and the
    justified checkpoint below it, and anchors the store there at the time of the clock. *)
Theorem node_resumes_from_database `{Crypto} `{SetOrder} `{Network} `{Disk} (config : NodeConfig) (now now' : Z) (s : SyncService) :
  config_ok config -> anchor_consistent (config_state config) (genesis_block_of (config_state config)) ->
  NetworkOk (block_ok (config_anchor config)) -> ~ disk_failed -> clock_ok (nc_genesis_time config) now' ->
  exists node c, from_genesis config now (Some (connect empty_tables)) = (Ok node, Some c) /\
    (rtc (node_step (config_anchor config)) (nd_sync node) s ->
     exists batches c' node' c'' h b st justified finalized last,
       sv_database s = Some batches /\ run_batches batches c = (repeat (Ok tt) (length batches), c') /\
       from_genesis config now' (Some (connect (cn_committed c'))) = (Ok node', Some c'') /\
       nd_store node' = resumed_store (Z.max (elapsed (nc_genesis_time config) now' / 800) (bk_slot b * INTERVALS_PER_SLOT))
                          (nc_validator_index config) h b st justified finalized /\
       rtc import_step (nd_store node, None) (sv_store s, last) /\
       (h, justified, finalized) =
         match last with
         | Some (_, at_import) => (sto_head at_import, sto_latest_justified at_import, sto_latest_finalized at_import)
         | None => let root := hash_tree_root (genesis_block_of (config_state config)) in
             (root, {| cp_root := root; cp_slot := 0 |}, {| cp_root := root; cp_slot := 0 |})
         end /\
       dget h (sto_blocks (sv_store s)) = Some b /\ dget h (sto_states (sv_store s)) = Some st /\
       ancestor (sto_blocks (sv_store s)) (cp_root justified) h /\
       checkpoint_in (sto_blocks (sv_store s)) justified /\ checkpoint_in (sto_blocks (sv_store s)) finalized).
Proof.
  intros Hcf Hc Hn Hd Hck.
  assert (settled empty_snapshot (connect empty_tables)) as Hempty by (split; [done|exact empty_represents]).
  destruct (boot_fresh config now _ Hcf Hd Hempty) as (store & c & Est & Eb & Hset). exists (wire config store true), c. split; [done|].
  intros Hrun. destruct (node_steps_ok _ _ _ _ _ _ Hn Hrun (start_node_ok config store Hcf Hc Est)) as (Hs & batches & Edb & Hw & Hi & Hg & Hch & Hp).
  cbn [fst snd] in *. set (sn0 := genesis_snapshot _ _) in *.
  assert (snapshot_ok sn0) as Hsn0 by (by apply genesis_snapshot_ok; [apply config_state_valid|apply Hcf]).
  pose proof (run_batches_ok batches sn0 c Hw Hsn0 Hset) as Hrb. destruct (run_batches batches c) as [rs c'] eqn:Erb.
  destruct Hrb as ([Hwk Hrep] & Hok & Hlen & Hrs). destruct (accepted_all batches rs sn0 Hlen Hrs Hd) as [Eacc Ers]. rewrite Eacc in *.
  destruct (pe_loadable _ _ Hp) as (h & b & st & j & f & Hl). destruct Hi as (last & Hst & Hpt).
  assert (settled (foldl (fun sn ws => apply_writes ws sn) sn0 batches) (connect (cn_committed c'))) as Hset' by done.
  destruct (good_entry _ _ _ h b st Hg (proj2 (ld_block _ _ _ _ _ _ _ Hl)) (proj2 (ld_state _ _ _ _ _ _ _ Hl))) as (_ & Hslot & _).
  destruct (load_head _ _ h b st j f (nc_validator_index config) (nc_genesis_time config) now' _ Hd Hset' Hok Hl Hck Hslot) as (c2 & Eload).
  destruct Hl as [Eh [_ ?] [_ ?] Ej Ef Hanc [Hj Hf]]. unfold points_at in Hpt. rewrite Eh, Ej, Ef in Hpt.
  eexists batches, c', _, _, h, b, st, j, f, last. split; [done|]. split; [by rewrite <- Ers|]. split.
  { unfold from_genesis. rewrite (run_bind _ _ _ _ _ (with_database_some None _ _ _ _ Eload)). reflexivity. }
  split_and!; try done. destruct last as [[bl at_import]|]; by injection Hpt as -> -> ->.
Qed.

(** ** A sample run: three blocks, of which the second becomes justified *)
Definition reliable_disk : Disk := {| sqlite_fails := fun _ => false |}.
Definition sample_config : NodeConfig := {|
  nc_genesis_time := 1000; nc_validators := sample_registry; nc_validator_index := None; nc_is_aggregator := false;
  nc_anchor_store := None |}.

#[local] Existing Instance sample_crypto.
#[local] Existing Instance insertion_order.
#[local] Existing Instance a1_network.
#[local] Existing Instance reliable_disk.

Lemma sample_config_state : config_state sample_config = sample_genesis.
Proof. vm_compute. reflexivity. Qed.
Lemma sample_config_block : genesis_block_of sample_genesis = genesis_block.
Proof. vm_compute. reflexivity. Qed.
Lemma sample_config_anchor : config_anchor sample_config = sample_root.
Proof. unfold config_anchor. rewrite sample_config_state, sample_config_block. vm_compute. reflexivity. Qed.
Lemma sample_config_ok : config_ok sample_config.
Proof. split; [reflexivity|vm_compute; split; congruence|split; [vm_compute; congruence|repeat constructor; vm_compute; reflexivity]]. Qed.

Definition sample_boot : result Node * option Connection := from_genesis sample_config 1001000000 (Some (connect empty_tables)).
Definition sample_blocks : list NetworkEvent :=
  [GossipBlockEvent (signed A1.1) sample_peer sample_topic; GossipBlockEvent (signed A2.1) sample_peer sample_topic; GossipBlockEvent (signed A3.1) sample_peer sample_topic].
Definition sample_outcome : result unit * SyncService :=
  match sample_boot.1 with
  | Ok node => for_each sample_blocks _handle_event (nd_sync node)
  | Err e => (Err e, service_start store0 false true true None)
  end.
Definition sample_sync : SyncService := sample_outcome.2.
Definition sample_disk_after : Tables :=
  match sample_boot.2 with
  | Some c => cn_committed (run_batches (default [] (sv_database sample_sync)) c).2
  | None => empty_tables
  end.
Definition sample_reboot : result Node * option Connection :=
  from_genesis sample_config 1017000000 (Some (connect sample_disk_after)).

Lemma events_run anchor events : forall s,
  Forall (event_ok anchor) events -> (for_each events _handle_event s).1 = Ok tt ->
  rtc (node_step anchor) s (for_each events _handle_event s).2.
Proof.
  induction events as [|e events IH]; intros s Hev E; [apply rtc_refl|]. apply Forall_cons in Hev as [He Hev].
  cbn [for_each] in *. unfold mbind, M_bind in *. destruct (_handle_event e s) as [[[]|err] s'] eqn:Ee; [|done].
  eapply rtc_l; [by eapply node_event|by apply IH].
Qed.

Lemma a3_ok : block_ok sample_root (signed A3.1).
Proof. split; [vm_compute; reflexivity|intros _; vm_compute; discriminate]. Qed.

Lemma sample_blocks_ok : Forall (event_ok sample_root) sample_blocks.
Proof. constructor; [exact a1_ok|]. constructor; [exact a2_ok|]. constructor; [exact a3_ok|constructor]. Qed.
Lemma sample_outcome_ok : sample_outcome.1 = Ok tt.
Proof. vm_compute. reflexivity. Qed.

Lemma sample_run node : sample_boot.1 = Ok node -> rtc (node_step (config_anchor sample_config)) (nd_sync node) sample_sync.
Proof.
  intros E. rewrite sample_config_anchor. unfold sample_sync. pose proof sample_outcome_ok as Ho.
  unfold sample_outcome in *. rewrite E in *. apply events_run; [exact sample_blocks_ok|exact Ho].
Qed.

Lemma node_resumes_from_database_witness :
  exists node c batches c' node' c'' h b st justified finalized last,
    from_genesis sample_config 1001000000 (Some (connect empty_tables)) = (Ok node, Some c) /\
    sv_database sample_sync = Some batches /\ run_batches batches c = (repeat (Ok tt) (length batches), c') /\
    from_genesis sample_config 1017000000 (Some (connect (cn_committed c'))) = (Ok node', Some c'') /\
    nd_store node' = resumed_store (Z.max (elapsed 1000 1017000000 / 800) (bk_slot b * INTERVALS_PER_SLOT))
                       None h b st justified finalized /\
    rtc import_step (nd_store node, None) (sv_store sample_sync, last) /\
    (h, justified, finalized) =
      match last with
      | Some (_, at_import) => (sto_head at_import, sto_latest_justified at_import, sto_latest_finalized at_import)
      | None => let root := hash_tree_root (genesis_block_of (config_state sample_config)) in
          (root, {| cp_root := root; cp_slot := 0 |}, {| cp_root := root; cp_slot := 0 |})
      end.
Proof.
  destruct (node_resumes_from_database sample_config 1001000000 1017000000 sample_sync) as (node & c & E & Hrun).
  - exact sample_config_ok.
  - rewrite sample_config_state, sample_config_block. exact sample_anchor.
  - rewrite sample_config_anchor. exact a1_network_ok.
  - intros [n Hf]. discriminate Hf.
  - split; vm_compute; congruence.
  - destruct (Hrun (sample_run node (f_equal fst E))) as (batches & c' & node' & c'' & h & b & st & j & f & last & Eb & Er & Ef & Es & Ei & El & _).
    exists node, c, batches, c', node', c'', h, b, st, j, f, last. split_and!; [exact E|exact Eb|exact Er|exact Ef|exact Es|exact Ei|exact El].
Defined.

(** The reboot resumes at [A3] alone, with [A2] justified and [A1] finalized. *)
Example sample_reboot_store :
  match sample_reboot.1 with
  | Ok node => dkeys (sto_blocks (nd_store node)) = [hash_tree_root A3.1] /\
      sto_latest_justified (nd_store node) = A2_checkpoint /\ sto_latest_finalized (nd_store node) = A1_checkpoint /\
      sto_time (nd_store node) = 21
  | Err _ => False
  end.
Proof. vm_compute. repeat split. Qed.

(** ** What a resumed store cannot do *)


Section Stops.
Context `{Crypto} `{SetOrder} `{Network} `{World} (vi : option Z) (h : Bytes32) (b : Block) (st : State) (j f : Checkpoint).
Hypothesis quiet : forall n, events_at n = [].
Hypothesis head_not_justified : cp_root j <> h.
Abbreviation resumed time := (resumed_store time vi h b st j f).




End Stops.


Definition quiet_world : World := {| wall_clock := fun n => 1017000000 + 800000 * Z.of_nat n; events_at := fun _ => [] |}.

(** The sample node, rebooted, stops on the first interval that needs the head. *)
Example sample_reboot_stops :
  match sample_reboot.1 with
  | Ok node => (chain_run (H2 := quiet_world) 1000 5 (chain_start (nd_sync node))).1 = Err AssertionError
  | Err _ => False
  end.
Proof. vm_compute. reflexivity. Qed.

