(* ===== verification/ValidatorCorrect.v ===== *)
(** * The validator service is correct

    One-time keys: what the service signs, as the list of the uses of the keys.  The
    attestation key of a validator signs once per slot on any clock that does not go
    back; the proposal key too when the sleeps of the loop reach the boundary they ask
    for and the two readings of a turn fall in one slot.  The loop that prepares a key
    ends exactly for the slots that the key can still sign. *)

From S2P Require Import Prelude Pydict Uint Ssz Sha256 Merkle Containers StateTransition Proofs Signatures.
From S2P Require Import ForkChoice Aggregation Duties SszRecords BlockCache PeerManager StateMonad Backfill SyncService.
From S2P Require Import ChainService ValidatorService ChainCorrect.
From S2P Require Import Poseidon Xmss XmssCorrect XmssTrees XmssTheorems Samples SignaturesCorrect SampleStores SyncTheorems.

(** ** The clock does not go back *)
Definition slot_at (genesis_time now : Z) : Z := elapsed genesis_time now / 4000.
Definition interval_at (genesis_time now : Z) : Z := elapsed genesis_time now / 800.

Lemma elapsed_mono g t t' : 0 <= t -> t <= t' -> elapsed g t <= elapsed g t'.
Proof.
  intros H0 Ht. unfold elapsed, milliseconds. rewrite !Z.quot_div_nonneg by lia.
  pose proof (Z.div_le_mono t t' 1000 ltac:(lia) Ht). lia.
Qed.

Lemma interval_in_slot g t : interval_at g t = 5 * slot_at g t + elapsed g t mod 4000 / 800 /\ 0 <= slot_at g t.
Proof. unfold interval_at, slot_at. assert (0 <= elapsed g t) by (unfold elapsed; lia). Z.to_euclidean_division_equations. lia. Qed.

(** ** What a method signs *)
Section Uses.
Context `{Crypto} `{SetOrder} `{Network} `{Signer} `{Tasks} (genesis_time : Z) (sign_fuel : nat).
Context (on_block : option (SignedBlock -> M SyncService unit)) (on_attestation : option (SignedAttestation -> M SyncService unit)).

(** A use of a key: the validator, the key, the slot *)
Definition key_use (p : Z * key_field * Z * Bytes32) : Z * key_field * Z := p.1.
Definition uses (s : ValidatorService) : list (Z * key_field * Z) := map key_use (vs_signed s).

Record registry_ok (r : dict Z ValidatorEntry) : Prop := {
  ro_wf : dict_wf r;
  ro_index : forall i entry, dget i r = Some entry -> ve_index entry = i
}.

(** [s'] is [s] after work that reads no clock and signs [l]. *)
Record signed (l : list (Z * key_field * Z)) (s s' : ValidatorService) : Prop := {
  sg_readings : vs_readings s' = vs_readings s;
  sg_attested : vs_attested_slots s' = vs_attested_slots s;
  sg_slept : vs_slept s' = vs_slept s;
  sg_slot_read : vs_slot_read s' = vs_slot_read s;
  sg_registry : registry_ok (vs_registry s) -> registry_ok (vs_registry s');
  sg_uses : uses s' = uses s ++ l
}.

Lemma signed_refl s : signed [] s s.
Proof. split; try done. by rewrite app_nil_r. Qed.

Lemma signed_trans l1 l2 s1 s2 s3 : signed l1 s1 s2 -> signed l2 s2 s3 -> signed (l1 ++ l2) s1 s3.
Proof. intros [] []. split; try congruence; [auto|]. rewrite app_assoc. congruence. Qed.

(** [m], run at [s], signs one of [P]. *)
Definition signs {A} (P : list (Z * key_field * Z) -> Prop) (m : M ValidatorService A) (s : ValidatorService) : Prop :=
  registry_ok (vs_registry s) -> exists l, P l /\ signed l s (m s).2.
Definition silent {A} (m : M ValidatorService A) : Prop := forall s, signs (eq []) m s.

Lemma signs_weaken {A} (P Q : list (Z * key_field * Z) -> Prop) (m : M ValidatorService A) s :
  signs P m s -> (forall l, P l -> Q l) -> signs Q m s.
Proof. intros Hm HPQ Hr. destruct (Hm Hr) as (l & Hl & Hs). eauto. Qed.

Lemma signs_silent {A} (P : list (Z * key_field * Z) -> Prop) (m : M ValidatorService A) s : P [] -> silent m -> signs P m s.
Proof. intros HP Hm. apply (signs_weaken (eq [])); [apply Hm|by intros ? <-]. Qed.

(** Composition: an exception ends the work with what was signed so far. *)
Lemma signs_bind {A B} P Q R (m : M ValidatorService A) (f : A -> M ValidatorService B) s :
  signs P m s -> (forall a s', m s = (Ok a, s') -> signs Q (f a) s') ->
  (forall l, P l -> R l) -> (forall l l', P l -> Q l' -> R (l ++ l')) -> signs R (m ≫= f) s.
Proof.
  intros Hm Hf HP HR Hr. destruct (Hm Hr) as (l & Hl & Hs). unfold mbind, M_bind.
  destruct (m s) as [[a|e] s1] eqn:E; cbn [snd] in *; [|eauto].
  destruct (Hf a s1 eq_refl (sg_registry _ _ _ Hs Hr)) as (l' & Hl' & Hs'). exists (l ++ l'). split; [auto|by eapply signed_trans].
Qed.

Lemma signs_after_silent {A B} P (m : M ValidatorService A) (f : A -> M ValidatorService B) s :
  P [] -> silent m -> (forall a s', m s = (Ok a, s') -> signs P (f a) s') -> signs P (m ≫= f) s.
Proof. intros HP Hm Hf. eapply signs_bind; [apply Hm|exact Hf|by intros ? <-|by intros ? ? <-]. Qed.

Lemma signs_then_silent {A B} P (m : M ValidatorService A) (f : A -> M ValidatorService B) s :
  signs P m s -> (forall a, silent (f a)) -> signs P (m ≫= f) s.
Proof. intros Hm Hf. eapply signs_bind; [exact Hm|intros a s' _; apply Hf|done|]. intros l l' Hl <-. by rewrite app_nil_r. Qed.

Lemma silent_bind {A B} (m : M ValidatorService A) (f : A -> M ValidatorService B) :
  silent m -> (forall a, silent (f a)) -> silent (m ≫= f).
Proof. intros Hm Hf s. apply signs_after_silent; [done|done|]. intros a s' _. apply Hf. Qed.

Lemma silent_ret {A} (a : A) : silent (mret a).
Proof. intros s _. exists []. split; [done|apply signed_refl]. Qed.
Lemma silent_raising {A} (r : result A) : silent (raising r).
Proof. intros s _. exists []. split; [done|apply signed_refl]. Qed.
Lemma silent_gets {A} (f : ValidatorService -> A) : silent (gets f).
Proof. intros s _. exists []. split; [done|apply signed_refl]. Qed.
Lemma silent_modify (f : ValidatorService -> ValidatorService) : (forall s, signed [] s (f s)) -> silent (modify f).
Proof. intros Hf s _. exists []. split; [done|apply Hf]. Qed.

Ltac untouched := intros; split; cbn; try done; by rewrite app_nil_r.
Lemma put_sync_signed sync s : signed [] s (put_sync sync s).
Proof. untouched. Qed.
Lemma count_produced_signed a b s : signed [] s (count_produced a b s).
Proof. untouched. Qed.
Lemma put_gate_signed b s : signed [] s (put_gate b s).
Proof. untouched. Qed.

Lemma silent_await : silent await.
Proof.
  intros s _. exists []. split; [done|]. unfold await. destruct (for_each _ _ _) as [r sync]. untouched.
Qed.
Lemma silent_on_sync {A} (m : M SyncService A) : silent (on_sync m).
Proof. intros s _. exists []. split; [done|]. unfold on_sync, zoom. destruct (m _) as [r t]. apply put_sync_signed. Qed.

Create HintDb silent.
#[local] Hint Resolve silent_ret silent_raising silent_gets silent_await silent_on_sync : silent.
Ltac silent :=
  repeat first
    [ apply silent_bind; [|intros ?]
    | progress eauto with silent
    | apply silent_modify; intros ?; first [apply put_sync_signed|apply count_produced_signed|apply put_gate_signed]
    | case_match ].

Lemma silent_emit {A} (callback : option (A -> M SyncService unit)) a : silent (emit callback a).
Proof. unfold emit. silent. Qed.
Lemma silent_synced slot : silent (_is_synced_for_duties slot).
Proof. unfold _is_synced_for_duties. silent. Qed.
Lemma silent_wait n slot : silent (wait_for_block n slot).
Proof. induction n; cbn [wait_for_block]; silent. Qed.
#[local] Hint Resolve silent_emit silent_synced silent_wait : silent.

Definition at_most (u : Z * key_field * Z) (l : list (Z * key_field * Z)) : Prop := l = [] \/ l = [u].

Lemma replace_key_index field key (entry : ValidatorEntry) : ve_index (replace_key field key entry) = ve_index entry.
Proof. by destruct field. Qed.

Lemma sign_with_key_uses entry slot message field s :
  signs (at_most (ve_index entry, field, slot)) (_sign_with_key sign_fuel entry slot message field) s.
Proof.
  unfold _sign_with_key. apply signs_after_silent; [by left|apply silent_raising|]. intros key s1 _.
  apply signs_after_silent; [by left|apply silent_raising|]. intros signature s2 _.
  apply signs_then_silent; [|intros; apply silent_ret]. intros Hr.
  exists [(ve_index entry, field, slot)]. split; [by right|]. split; try done; cbn.
  - intros _. split; [apply dset_wf, Hr|]. unfold registry_add. intros i e. rewrite dget_dset, replace_key_index. case_decide.
    + intros [= <-]. by rewrite replace_key_index.
    + apply Hr.
  - unfold uses. cbn. by rewrite map_app.
Qed.

(** The entry a lookup finds is the validator's. *)
Lemma lookup_uses {A} P (f : ValidatorEntry -> M ValidatorService A) i s :
  P [] -> (forall entry, ve_index entry = i -> signs P (f entry) s) ->
  signs P (entry ← gets (fun s => registry_get i (vs_registry s)); entry ← raising (of_option ValueError entry); f entry) s.
Proof.
  intros HP Hf Hr. specialize (fun entry Hi => Hf entry Hi Hr). rewrite run_gets. unfold registry_get.
  destruct (dget i (vs_registry s)) as [entry|] eqn:E; [|by apply (signs_silent P (raising (Err ValueError))); [|apply silent_raising|]].
  apply Hf. by apply (ro_index _ Hr).
Qed.

Lemma sign_block_uses block i proofs s :
  signs (at_most (i, proposal_secret_key, bk_slot block)) (_sign_block sign_fuel block i proofs) s.
Proof.
  unfold _sign_block. apply lookup_uses; [by left|]. intros entry <-. apply signs_then_silent; [apply sign_with_key_uses|].
  intros signature. silent.
Qed.

Lemma signs_skipping P m s : signs P m s -> signs P (skipping m) s.
Proof.
  intros Hm Hr. destruct (Hm Hr) as (l & Hl & Hs). exists l. split; [done|]. unfold skipping, catch.
  destruct (m s) as [[a|e] s']; [done|]. by destruct e.
Qed.

Lemma build_block_slot state slot i parent known payloads b post atts sigs :
  build_block state slot i parent known payloads = Ok (b, post, atts, sigs) -> bk_slot b = slot.
Proof. unfold build_block. intros E. repeat (apply bind_Ok in E as (? & _ & E)). by injection E as <- _ _ _. Qed.

Lemma produced_slot store slot i store' b sigs :
  produce_block_with_signatures store slot i = Ok (store', b, sigs) -> bk_slot b = slot.
Proof.
  unfold produce_block_with_signatures. intros E.
  apply bind_Ok in E as (ti & _ & E). apply mbind_pair_Ok in E as (s1 & l1 & _ & E).
  apply bind_Ok in E as (s2 & _ & E). apply bind_Ok in E as (hs & _ & E).
  apply bind_Ok in E as (pr & _ & E). destruct (negb _); [done|].
  apply bind_Ok in E as ([[[fb post] atts] sg] & Ebb & E). injection E as _ <- _. by apply build_block_slot in Ebb.
Qed.

Lemma maybe_produce_uses slot s :
  signs (fun l => exists i, at_most (i, proposal_secret_key, slot) l) (_maybe_produce_block sign_fuel on_block slot) s.
Proof.
  unfold _maybe_produce_block.
  assert ((fun l => exists i, at_most (i, proposal_secret_key, slot) l) []) as Hnil by (exists 0; by left).
  apply signs_after_silent; [done|apply silent_gets|]. intros store s1 _. destruct (dget _ _) as [head_state|]; [|by apply signs_silent; [|apply silent_ret]].
  destruct (_ =? _); [by apply signs_silent; [|apply silent_ret]|].
  apply signs_after_silent; [done|apply silent_raising|]. intros i s2 _.
  apply signs_after_silent; [done|apply silent_gets|]. intros indices s3 _.
  apply signs_after_silent; [done|apply silent_raising|]. intros ? s4 _.
  apply signs_after_silent; [done|apply silent_gets|]. intros ours s5 _.
  destruct (negb ours); [by apply signs_silent; [|apply silent_ret]|]. apply signs_skipping.
  apply (signs_weaken (at_most (i, proposal_secret_key, slot))); [|eauto].
  apply signs_after_silent; [by left|apply silent_raising|]. intros [[store' block] signatures] s6 E.
  injection E as E _. apply produced_slot in E as <-.
  apply signs_after_silent; [by left|apply silent_modify; intros; apply put_sync_signed|]. intros ? s7 _.
  apply signs_then_silent; [apply sign_block_uses|]. intros signed_block. silent.
Qed.

Lemma attest_uses store slot i s :
  signs (at_most (i, attestation_secret_key, slot)) (attest sign_fuel on_attestation store slot i) s.
Proof.
  unfold attest. apply lookup_uses; [by left|]. intros entry <-.
  apply signs_after_silent; [by left|apply silent_raising|]. intros data s1 E. injection E as E _.
  assert (ad_slot data = slot) as <-.
  { unfold produce_attestation_data in E. repeat (apply bind_Ok in E as (? & _ & E)). destruct (_ <=? _); [|done]. by injection E as <-. }
  apply signs_then_silent; [apply sign_with_key_uses|]. intros signature. silent.
Qed.

(** One attestation at most for each of distinct validators *)
Definition one_each (slot : Z) (indices : list Z) (l : list (Z * key_field * Z)) : Prop :=
  exists js, js ⊆+ indices /\ l = map (fun i => (i, attestation_secret_key, slot)) js.

Lemma attest_all_uses store slot indices s :
  signs (one_each slot indices) (for_each indices (attest sign_fuel on_attestation store slot)) s.
Proof.
  revert s. induction indices as [|i indices IH]; intros s; cbn [for_each].
  - apply signs_silent; [by exists []|apply silent_ret].
  - eapply signs_bind; [apply attest_uses|intros; apply IH|..].
    + intros l [->| ->]; [exists []|exists [i]]; (split; [|done]); [apply submseteq_nil_l|apply submseteq_skip, submseteq_nil_l].
    + intros l l' [->| ->] (js & Hj & ->); [exists js|exists (i :: js)]; (split; [|done]); [by apply submseteq_cons|by apply submseteq_skip].
Qed.

Lemma produce_attestations_uses slot s :
  signs (fun l => exists indices, NoDup indices /\ one_each slot indices l)
    (_produce_attestations sign_fuel on_attestation slot) s.
Proof.
  assert (exists indices, NoDup indices /\ one_each slot indices []) as Hnil by (exists []; split; [constructor|by exists []]).
  unfold _produce_attestations. do 2 (apply signs_after_silent; [done|silent|]; intros ? ? _).
  apply signs_after_silent; [done|silent|]. intros store0 s3 _. apply signs_after_silent; [done|silent|]. intros store s4 _.
  apply signs_after_silent; [done|silent|]. intros ? s5 _. destruct (dget _ _); [|by apply signs_silent; [|silent]].
  intros Hr. revert Hr. apply signs_after_silent; [done|silent|]. intros r s6 E. injection E as <- <-.
  intros Hr. unfold registry_indices. destruct (_ <=? _); [|by apply (signs_silent _ (raising (Err SSZValueError))); [|silent|]].
  eapply signs_weaken; [apply (attest_all_uses store slot (dkeys (vs_registry s5)))|..|exact Hr].
  intros l Hl. exists (dkeys (vs_registry s5)). split; [apply Hr|done].
Qed.
End Uses.

#[global] Instance key_field_dec : EqDecision key_field.
Proof. solve_decision. Defined.

(** ** The turns of the loop *)
Section Turns.
Context `{Crypto} `{SetOrder} `{Network} `{Signer} `{Tasks} (genesis_time : Z) (sign_fuel : nat).
Context (on_block : option (SignedBlock -> M SyncService unit)) (on_attestation : option (SignedAttestation -> M SyncService unit)).
Hypothesis readings_ok : forall n, clock_ok genesis_time (time_fn n).
Hypothesis forward : forall n m, (n <= m)%nat -> time_fn n <= time_fn m.

Abbreviation slotn n := (slot_at genesis_time (time_fn n)).
Abbreviation intn n := (interval_at genesis_time (time_fn n)).
Abbreviation later s n := (vs_readings s <= n)%nat.

(** Every sleep reached the next interval, and every turn read its slot and its
    interval in one slot. *)
Definition punctual (s : ValidatorService) : Prop :=
  Forall (fun n => intn n < intn (S n)) (vs_slept s) /\ Forall (fun n => slotn n = slotn (S n)) (vs_slot_read s).

Definition attests (u : Z * key_field * Z) : Prop := u.1.2 = attestation_secret_key.
#[local] Instance attests_dec u : Decision (attests u).
Proof. unfold attests. apply _. Defined.

(** No key signs twice for a slot. *)
Record safe (s : ValidatorService) : Prop := {
  sf_registry : registry_ok (vs_registry s);
  sf_attestations : NoDup (filter attests (uses s));
  sf_all : punctual s -> NoDup (uses s)
}.

(** What holds within a turn: the slots attested and proposed are past or current. *)
Record base (s : ValidatorService) : Prop := {
  bs_safe : safe s;
  bs_attested : forall i slot, (i, attestation_secret_key, slot) ∈ uses s ->
    slot ∈ vs_attested_slots s \/ forall n, later s n -> slot < slotn n;
  bs_past : forall slot n, slot ∈ vs_attested_slots s -> later s n -> slot <= slotn n;
  bs_proposed : punctual s -> forall i slot n, (i, proposal_secret_key, slot) ∈ uses s -> later s n -> 5 * slot <= intn n
}.

(** Between two turns: proposals are for the interval handled last, or earlier. *)
Record between (last : option Z) (s : ValidatorService) : Prop := {
  bt_base : base s;
  bt_last : forall l n, last = Some l -> later s n -> l <= intn n;
  bt_proposed : punctual s -> forall i slot, (i, proposal_secret_key, slot) ∈ uses s -> exists l, last = Some l /\ 5 * slot <= l
}.

Lemma slotn_mono n m : (n <= m)%nat -> slotn n <= slotn m.
Proof using readings_ok forward.
  intros Hnm. apply Z.div_le_mono; [lia|]. apply elapsed_mono; [apply readings_ok|by apply forward].
Qed.
Lemma intn_mono n m : (n <= m)%nat -> intn n <= intn m.
Proof using readings_ok forward.
  intros Hnm. apply Z.div_le_mono; [lia|]. apply elapsed_mono; [apply readings_ok|by apply forward].
Qed.

(** A later state with the same keys, slots and uses, and no fewer readings and notes *)
Record waited (s s' : ValidatorService) : Prop := {
  wt_readings : (vs_readings s <= vs_readings s')%nat;
  wt_attested : vs_attested_slots s' = vs_attested_slots s;
  wt_registry : registry_ok (vs_registry s) -> registry_ok (vs_registry s');
  wt_punctual : punctual s' -> punctual s;
  wt_uses : uses s' = uses s
}.

Lemma signed_waited s s' : signed [] s s' -> waited s s'.
Proof.
  intros [Hr Ha Hs Ht Hg Hu]. split; [by rewrite Hr|done|done| |by rewrite Hu, app_nil_r].
  unfold punctual. by rewrite Hs, Ht.
Qed.

Lemma waited_safe s s' : waited s s' -> safe s -> safe s'.
Proof. intros [Hr Ha Hg Hp Hu] [Q1 Q2 Q3]. split; [auto|by rewrite Hu|rewrite Hu; auto]. Qed.
Lemma waited_base s s' : waited s s' -> base s -> base s'.
Proof.
  intros Hw [Q1 Q2 Q3 Q4]. pose proof Hw as [Hr Ha Hg Hp Hu]. split; [by eapply waited_safe|..]; rewrite ?Ha, ?Hu.
  - intros i slot Hi. destruct (Q2 i slot Hi) as [?|Hl]; [by left|right]. intros n Hn. apply Hl. lia.
  - intros slot n Hs Hn. apply Q3; [done|lia].
  - intros Hpu i slot n Hi Hn. apply (Q4 (Hp Hpu) i); [done|lia].
Qed.
Lemma waited_between last s s' : waited s s' -> between last s -> between last s'.
Proof.
  intros Hw [Q1 Q2 Q3]. pose proof Hw as [Hr Ha Hg Hp Hu]. split; [by eapply waited_base|..].
  - intros l n Hl Hn. apply (Q2 l n Hl). lia.
  - rewrite Hu. intros Hpu i slot Hi. by apply (Q3 (Hp Hpu) i).
Qed.

(** Silent work keeps what [waited] keeps. *)
Lemma silent_triple {A} (m : M ValidatorService A) (P : ValidatorService -> Prop) :
  silent m -> (forall s s', signed [] s s' -> P s -> P s') -> (forall s, P s -> base s) ->
  triple P m (fun _ => P) (fun _ => safe).
Proof.
  intros Hm HP Hb s Hs. destruct (Hm s (sf_registry _ (bs_safe _ (Hb s Hs)))) as (l & <- & Hsg).
  destruct (m s) as [[a|e] s']; cbn [snd] in Hsg; [by eapply HP|]. eapply waited_safe; [by apply signed_waited|by apply bs_safe, Hb].
Qed.

(** ** The readings *)
Definition bump (s : ValidatorService) : ValidatorService := (consult (fun _ => Ok tt) s).2.

Lemma bump_waited s : waited s (bump s).
Proof. split; try done; cbn; lia. Qed.
Lemma note_sleep_waited s : waited s (note_sleep s).
Proof. split; try done. intros [Hp Hq]. apply Forall_cons in Hp as [_ Hp]. by split. Qed.
Lemma note_slot_waited s : waited s (note_slot s).
Proof. split; try done. intros [Hp Hq]. apply Forall_cons in Hq as [_ Hq]. by split. Qed.

Lemma consult_total s : consult (total_intervals genesis_time) s = (Ok (intn (vs_readings s)), bump s).
Proof using readings_ok. unfold consult. by rewrite total_intervals_eq. Qed.
Lemma consult_interval s : consult (current_interval genesis_time) s = (Ok (intn (vs_readings s) - 5 * slotn (vs_readings s)), bump s).
Proof using readings_ok.
  unfold consult. rewrite current_interval_eq by done.
  destruct (interval_in_slot genesis_time (time_fn (vs_readings s))) as [E _]. do 3 f_equal. lia.
Qed.
Lemma read_slot_run s : read_slot genesis_time s = (Ok (slotn (vs_readings s)), bump (note_slot s)).
Proof using readings_ok. unfold read_slot. rewrite run_modify. unfold consult. by rewrite current_slot_eq. Qed.

(** The interval to handle is past the one handled last, when the clock is punctual. *)
Definition due_after (last : option Z) (s : ValidatorService) : Prop :=
  punctual s -> forall l n, last = Some l -> later s n -> l < intn n.

Lemma sleep_ok last :
  triple (between last) (sleep_until_next_interval genesis_time)
    (fun _ s => between last s /\ exists n, vs_readings s = S n /\ n ∈ vs_slept s /\ forall l, last = Some l -> l <= intn n) (fun _ => safe).
Proof using readings_ok.
  intros s Hs. unfold sleep_until_next_interval. rewrite run_modify. unfold mbind, M_bind, consult.
  rewrite sleep_eq by done.
  set (s1 := bump (note_sleep s)).
  assert (between last s1) as Hs1 by (eapply waited_between; [apply bump_waited|eapply waited_between; [apply note_sleep_waited|done]]).
  change (match await s1 with (Ok a, s') => between last s' /\ exists n, vs_readings s' = S n /\ n ∈ vs_slept s' /\ forall l, last = Some l -> l <= intn n | (Err e, s') => safe s' end).
  destruct (silent_await s1 (sf_registry _ (bs_safe _ (bt_base _ _ Hs1)))) as (l & <- & Hsg).
  destruct (await s1) as [[[]|e] s2]; cbn [snd] in Hsg.
  - split; [eapply waited_between; [by apply signed_waited|done]|]. exists (vs_readings s).
    rewrite (sg_readings _ _ _ Hsg), (sg_slept _ _ _ Hsg). split_and!; [done|left|].
    intros l Hl. by apply (bt_last _ _ Hs).
  - eapply waited_safe; [by apply signed_waited|apply Hs1].
Qed.

Lemma wait_ok last :
  triple (between last) (wait_for_interval genesis_time last)
    (fun t s => between last s /\ due_after last s /\ (forall n, later s n -> t <= intn n) /\ forall l, last = Some l -> l <= t) (fun _ => safe).
Proof using readings_ok forward.
  intros s Hs. unfold wait_for_interval. rewrite (run_bind _ _ _ _ _ (consult_total s)).
  pose proof (waited_between _ _ _ (bump_waited s) Hs) as Hs1. set (t := intn (vs_readings s)).
  destruct (match last with Some l => t <=? l | None => false end) eqn:Ea.
  - pose proof (sleep_ok last (bump s) Hs1) as Hsl. unfold mbind, M_bind.
    destruct (sleep_until_next_interval genesis_time (bump s)) as [[[]|e] s2]; [|done]. destruct Hsl as (Hs2 & m & Hm & Hin & Hl).
    rewrite consult_total. split_and!.
    + eapply waited_between; [apply bump_waited|done].
    + intros Hp l n -> Hn. change (vs_readings (bump s2)) with (S (vs_readings s2)) in Hn.
      destruct (wt_punctual _ _ (bump_waited s2) Hp) as [Hsl _].
      rewrite Forall_forall in Hsl. specialize (Hsl m Hin). rewrite Hm in Hn.
      pose proof (intn_mono (S m) n ltac:(lia)). 
      specialize (Hl l eq_refl). lia.
    + intros n Hn. apply intn_mono. cbn in Hn. lia.
    + intros l El. by apply (bt_last _ _ Hs2).
  - cbn. split_and!; [done| | |].
    + intros _ l n -> Hn. apply Z.leb_gt in Ea. pose proof (intn_mono (vs_readings s) n). cbn in Hn. lia.
    + intros n Hn. apply intn_mono. cbn in Hn. lia.
    + intros l ->. apply Z.leb_gt in Ea. lia.
Qed.

(** ** The duties of a turn *)
Record turn (slot : Z) (s : ValidatorService) : Prop := {
  tn_base : base s;
  tn_slot : 0 <= slot /\ forall n, later s n -> slot <= slotn n;
  tn_fresh : slot ∉ vs_attested_slots s -> forall i, (i, attestation_secret_key, slot) ∉ uses s
}.
(** The first interval of the slot: no proposal yet *)
Definition opens (slot : Z) (s : ValidatorService) : Prop :=
  punctual s -> (forall i, (i, proposal_secret_key, slot) ∉ uses s) /\ forall n, later s n -> 5 * slot <= intn n.

Lemma waited_turn slot s s' : waited s s' -> turn slot s -> turn slot s'.
Proof.
  intros Hw [Q1 [Q2 Q3] Q4]. pose proof Hw as [Hr Ha Hg Hp Hu]. split; [by eapply waited_base|split; [done|]|by rewrite Ha, Hu].
  intros n Hn. apply Q3. lia.
Qed.
Lemma waited_opens slot s s' : waited s s' -> opens slot s -> opens slot s'.
Proof.
  intros [Hr Ha Hg Hp Hu] Ho Hpu. destruct (Ho (Hp Hpu)) as [Q1 Q2]. rewrite Hu. split; [done|]. intros n Hn. apply Q2. lia.
Qed.

Lemma begin_turn last s :
  between last s -> due_after last s ->
  let s1 := bump (note_slot s) in let s2 := bump s1 in let slot := slotn (vs_readings s) in
  turn slot s2 /\ (intn (vs_readings s1) - 5 * slotn (vs_readings s1) = 0 -> opens slot s2).
Proof using readings_ok forward.
  intros Hs Hd s1 s2 slot. assert (waited s s2) as Hw.
  { pose proof (note_slot_waited s) as W1. pose proof (bump_waited (note_slot s)) as W2. pose proof (bump_waited s1) as W3.
    split; [cbn; lia|done|done| |done]. intros Hp. by apply (wt_punctual _ _ W1), (wt_punctual _ _ W2), (wt_punctual _ _ W3). }
  split.
  - split; [eapply waited_base; [done|apply Hs]|split; [apply interval_in_slot|]|].
    + intros n Hn. apply slotn_mono. cbn in Hn. lia.
    + rewrite (wt_attested _ _ Hw), (wt_uses _ _ Hw). intros Ha i Hi.
      destruct (bs_attested _ (bt_base _ _ Hs) i slot Hi) as [?|Hl]; [done|]. specialize (Hl (vs_readings s) (le_n _)). subst slot. lia.
  - intros Hi Hp. cbn in Hi. pose proof Hp as [_ Hq]. apply Forall_cons in Hq as [Hq _]. cbn in Hq.
    destruct (interval_in_slot genesis_time (time_fn (vs_readings s))) as [E1 _].
    pose proof (Z.mod_pos_bound (elapsed genesis_time (time_fn (vs_readings s))) 4000 ltac:(lia)).
    assert (0 <= elapsed genesis_time (time_fn (vs_readings s)) mod 4000 / 800) by (apply Z.div_pos; lia).
    pose proof (intn_mono (vs_readings s) (S (vs_readings s)) ltac:(lia)) as Hm.
    split.
    + intros i Hu. rewrite (wt_uses _ _ Hw) in Hu.
      destruct (bt_proposed _ _ Hs (wt_punctual _ _ Hw Hp) i slot Hu) as (l & -> & Hl).
      specialize (Hd (wt_punctual _ _ Hw Hp) l (vs_readings s) eq_refl (le_n _)). subst slot. lia.
    + intros n Hn. cbn in Hn. pose proof (intn_mono (vs_readings s) n ltac:(lia)). subst slot. lia.
Qed.

Lemma proposed_turn slot i l s s' :
  turn slot s -> opens slot s -> at_most (i, proposal_secret_key, slot) l -> signed l s s' -> turn slot s'.
Proof.
  intros Ht Ho [->| ->] Hs; [eapply waited_turn; [by apply signed_waited|done]|].
  destruct Hs as [Hr Ha Hsl Hsr Hg Hu], Ht as [[[Q1 Q2 Q3] Q4 Q5 Q6] [Q7 Q8] Q9].
  assert (punctual s' -> punctual s) as Hp by (unfold punctual; by rewrite Hsl, Hsr).
  split; [split; [split|..]|split|]; rewrite ?Ha, ?Hr, ?Hu; try done.
  - auto.
  - rewrite filter_app, filter_cons_False, filter_nil, app_nil_r by (cbn; discriminate). done.
  - intros Hpu. destruct (Ho (Hp Hpu)) as [Hf _]. apply NoDup_app. split_and!; [auto| |apply NoDup_singleton].
    intros u Hu' ->%list_elem_of_singleton. by apply (Hf i).
  - intros j sl [Hj|Hj%list_elem_of_singleton]%elem_of_app; [|done]. destruct (Q4 j sl Hj); [by left|by right].
  - intros Hpu j sl n [Hj|Hj%list_elem_of_singleton]%elem_of_app Hn; [by apply (Q6 (Hp Hpu) j)|]. injection Hj as _ ->.
    apply (Ho (Hp Hpu)). lia.
  - intros Hna j [Hj|Hj%list_elem_of_singleton]%elem_of_app; [by apply (Q9 Hna j)|done].
Qed.

Lemma propose_ok slot interval :
  triple (fun s => turn slot s /\ (interval = 0 -> opens slot s)) (propose genesis_time sign_fuel on_block slot interval)
    (fun _ => turn slot) (fun _ => safe).
Proof using readings_ok forward.
  unfold propose. destruct (Z.eqb_spec interval 0) as [->|]; [|by apply triple_ret; intros s []].
  eapply (triple_bind _ _ _ (fun _ s => turn slot s /\ opens slot s)).
  { eapply triple_consequence; [apply (silent_triple _ (fun s => turn slot s /\ opens slot s))|..]; try done.
    - apply silent_synced.
    - intros s s' Hw%signed_waited [? ?]. split; [by eapply waited_turn|by eapply waited_opens].
    - intros s [? ?]. by apply tn_base with slot.
    - intros s [? ?]. auto. }
  intros synced. eapply (triple_bind _ _ _ (fun _ => turn slot)).
  - destruct synced; [|by apply triple_ret; intros s []]. intros s [Ht Ho].
    destruct (maybe_produce_uses sign_fuel on_block slot s (sf_registry _ (bs_safe _ (tn_base _ _ Ht)))) as (l & (i & Hl) & Hs).
    pose proof (proposed_turn slot i l s _ Ht Ho Hl Hs) as Ht'.
    destruct (_maybe_produce_block _ _ _ _) as [[u|e] s']; [done|]. apply Ht'.
  - intros _ s Ht. rewrite consult_interval. eapply waited_turn; [apply bump_waited|done].
Qed.

(** The state after the attestations of a slot, before it is marked *)
Lemma attested_safe slot indices l s s' :
  turn slot s -> slot ∉ vs_attested_slots s -> NoDup indices -> one_each slot indices l -> signed l s s' -> safe s'.
Proof.
  intros [[[Q1 Q2 Q3] _ _ _] _ Q9] Hna Hnd (js & Hj & ->) [Hr Ha Hsl Hsr Hg Hu].
  assert (NoDup (map (fun i => (i, attestation_secret_key, slot)) js)) as Hl.
  { apply NoDup_fmap_2; [by intros ? ? [= ->]|].
    apply submseteq_Permutation in Hj as (k & Hk). rewrite Hk in Hnd. by apply NoDup_app in Hnd as []. }
  split; [auto|rewrite Hu..].
  - rewrite filter_app. apply NoDup_app. split_and!; [done| |by apply NoDup_filter].
    intros [[i f] sl] [_ Hi]%list_elem_of_filter [_ (j & Hj' & _)%list_elem_of_fmap]%list_elem_of_filter.
    injection Hj' as -> -> ->. by apply (Q9 Hna j).
  - intros Hpu. apply NoDup_app. split_and!; [apply Q3; unfold punctual in *; by rewrite <- Hsl, <- Hsr| |done].
    intros u Hi (j & -> & _)%list_elem_of_fmap. by apply (Q9 Hna j).
Qed.

Lemma attested_base slot indices l s s' :
  turn slot s -> slot ∉ vs_attested_slots s -> NoDup indices -> one_each slot indices l -> signed l s s' ->
  base (mark_attested slot s').
Proof.
  intros Ht Hna Hnd Hl Hs. pose proof (attested_safe _ _ _ _ _ Ht Hna Hnd Hl Hs) as [S1 S2 S3].
  destruct Ht as [[_ Q4 Q5 Q6] [Q7 Q8] Q9], Hl as (js & Hj & ->), Hs as [Hr Ha Hsl Hsr Hg Hu].
  assert (punctual s' -> punctual s) as Hp by (unfold punctual; by rewrite Hsl, Hsr).
  split; [by split| | |]; cbn; unfold uses in *; cbn; rewrite ?Ha, ?Hr.
  - intros i sl Hi. rewrite Hu in Hi. setoid_rewrite list_elem_of_filter. setoid_rewrite elem_of_sadd.
    apply elem_of_app in Hi as [Hi|(j & Hj' & _)%list_elem_of_fmap].
    + destruct (Q4 i sl Hi) as [Hin|Hlt]; [|by right]. destruct (Z.le_gt_cases (Z.max 0 (slot - 4)) sl) as [?|Hgt].
      * left. split; [done|by right].
      * right. intros n Hn. specialize (Q8 n Hn). lia.
    + injection Hj' as _ ->. left. split; [unfold ATTESTED_SLOT_RETENTION; lia|by left].
  - intros sl n [_ Hi]%list_elem_of_filter Hn. apply elem_of_sadd in Hi as [->|Hi]; [auto|by apply Q5].
  - intros Hpu i sl n Hi Hn. rewrite Hu in Hi. apply elem_of_app in Hi as [Hi|(j & Hj' & _)%list_elem_of_fmap]; [|done].
    by apply (Q6 (Hp Hpu) i).
Qed.

Lemma attest_once_ok slot interval :
  triple (turn slot) (attest_once sign_fuel on_attestation slot interval) (fun _ => base) (fun _ => safe).
Proof.
  intros s Ht. unfold attest_once. rewrite run_gets. destruct (_ && _) eqn:E; [|by apply tn_base with slot].
  apply andb_true_iff in E as [_ Hna%negb_true_iff%bool_decide_eq_false].
  pose proof (silent_triple _ (fun s => turn slot s /\ slot ∉ vs_attested_slots s) (silent_synced slot)) as Hsy.
  unfold mbind, M_bind. specialize (Hsy ltac:(intros s1 s2 Hsg [Ht1 Hn1]; split;
    [eapply waited_turn; [by apply signed_waited|done]|by rewrite (sg_attested _ _ _ Hsg)]) ltac:(intros ? [Ht1 _]; by apply tn_base with slot) s (conj Ht Hna)).
  destruct (_is_synced_for_duties slot s) as [[[]|e] s1]; [| |done]; destruct Hsy as [Ht1 Hn1]; [|by apply tn_base with slot].
  destruct (produce_attestations_uses sign_fuel on_attestation slot s1 (sf_registry _ (bs_safe _ (tn_base _ _ Ht1))))
    as (l & (indices & Hnd & Hl) & Hs).
  destruct (_produce_attestations _ _ _ _) as [[u|e] s2]; cbn [snd] in Hs; [by eapply attested_base|by eapply attested_safe].
Qed.

Lemma duty_turn_ok last :
  triple (between last) (duty_turn genesis_time sign_fuel on_block on_attestation last) between (fun _ => safe).
Proof using readings_ok forward.
  unfold duty_turn. eapply triple_bind; [apply wait_ok|]. intros total s (Hs & Hd & Ht & Hl). rewrite run_gets.
  destruct (Zlen (vs_registry s) =? 0).
  { cbn. split; [apply Hs|intros l n [= <-]; auto|]. intros Hp i slot Hi.
    destruct (bt_proposed _ _ Hs Hp i slot Hi) as (l & El & Hle). exists total. split; [done|]. specialize (Hl l El). lia. }
  rewrite (run_bind _ _ _ _ _ (read_slot_run s)), (run_bind _ _ _ _ _ (consult_interval _)).
  pose proof (propose_ok _ _ _ (begin_turn last s Hs Hd)) as Hp. unfold mbind, M_bind.
  destruct (propose _ _ _ _ _ _) as [[interval|e] s1]; [|done].
  pose proof (attest_once_ok _ interval s1 Hp) as Ha. destruct (attest_once _ _ _ _ _) as [[u|e] s2]; [|done].
  rewrite consult_total. cbn. split; [eapply waited_base; [apply bump_waited|done]|..].
  - intros l n [= <-] Hn. apply intn_mono. cbn in Hn. lia.
  - intros Hpu i slot Hi. eexists. split; [done|]. by apply (bs_proposed _ Ha Hpu i).
Qed.

Lemma duty_loop_safe turns : forall last s,
  between last s -> safe (duty_loop genesis_time sign_fuel on_block on_attestation turns last s).2.
Proof using readings_ok forward.
  induction turns as [|turns IH]; intros last s Hs; cbn [duty_loop]; [apply Hs|]. rewrite run_gets.
  destruct (negb _); [apply Hs|]. pose proof (duty_turn_ok last s Hs) as Ht. unfold mbind, M_bind.
  destruct (duty_turn _ _ _ _ _ _) as [[last'|e] s']; [by apply IH|done].
Qed.
End Turns.

(** A service that has not signed *)
Record idle `{Signer} (s : ValidatorService) : Prop := {
  id_registry : registry_ok (vs_registry s);
  id_signed : vs_signed s = [];
  id_attested : vs_attested_slots s = [];
  id_slept : vs_slept s = [];
  id_slot_read : vs_slot_read s = []
}.

(** C7: one-time keys sign once.  A signature of the scheme consumes the key of its slot.
    Over any number of turns of the service, whatever the other tasks do while it sleeps
    and awaits, whatever the callbacks do, and also when an exception stops it, on a
    clock that does not go back:
    the attestation key of each validator signs at most one message per slot; and if every
    sleep ends in a later interval and no turn crosses a slot boundary between reading
    its slot and its interval, no key of any validator signs twice for a slot. *)
Theorem one_time_keys_sign_once `{Crypto} `{SetOrder} `{Network} `{Signer} `{Tasks} (genesis_time : Z) (sign_fuel : nat)
    (on_block : option (SignedBlock -> M SyncService unit)) (on_attestation : option (SignedAttestation -> M SyncService unit))
    (turns : nat) (s : ValidatorService) :
  (forall n, clock_ok genesis_time (time_fn n)) -> (forall n m, (n <= m)%nat -> time_fn n <= time_fn m) -> idle s ->
  let s' := (validator_run genesis_time sign_fuel on_block on_attestation turns s).2 in
  (forall p q i slot m m', vs_signed s' !! p = Some (i, attestation_secret_key, slot, m) ->
     vs_signed s' !! q = Some (i, attestation_secret_key, slot, m') -> p = q) /\
  (punctual genesis_time s' ->
   forall p q i field slot m m', vs_signed s' !! p = Some (i, field, slot, m) ->
     vs_signed s' !! q = Some (i, field, slot, m') -> p = q).
Proof.
  intros Hok Hf [I1 I2 I3 I4 I5] s'.
  assert (safe genesis_time s') as [_ Ha Hn].
  { subst s'. unfold validator_run. rewrite run_modify. apply duty_loop_safe; [done|done|].
    split; [split; [split|..]|..]; cbn; unfold uses; cbn; rewrite ?I2, ?I3; try done; cbn; try set_solver.
    all: intros; constructor. }
  split.
  - intros p q i slot m m' Hp Hq. apply (NoDup_filter_lookup attests (uses s') p q (i, attestation_secret_key, slot)); try done; unfold uses.
    + by rewrite list_lookup_fmap, Hp.
    + by rewrite list_lookup_fmap, Hq.
  - intros Hpu p q i field slot m m' Hp Hq. apply (NoDup_lookup _ _ _ (i, field, slot) (Hn Hpu)); unfold uses.
    + by rewrite list_lookup_fmap, Hp.
    + by rewrite list_lookup_fmap, Hq.
Qed.

(** ** The signature scheme behind the service *)
Definition xmss_signer (c : XmssConfig) (ph : PoseidonXmss) (randbelow : nat -> Z) (n : nat) : Signer := {|
  secret_key := SecretKey;
  prepared_interval := get_prepared_interval c;
  advance_key := fun sk => advance_preparation c ph randbelow sk n;
  sign_message := sign c ph |}.

Lemma prepare_key_more `{Signer} fuel fuel' slot (sk key : secret_key) :
  prepare_key fuel slot sk = Ok key -> (fuel <= fuel')%nat -> prepare_key fuel' slot sk = Ok key.
Proof.
  revert fuel' sk. induction fuel as [|fuel IH]; intros [|fuel'] sk E Hf; try done; try lia; cbn [prepare_key] in *;
    destruct (prepared_interval sk) as [a b]; destruct (_ && _); try done.
  apply bind_Ok in E as (sk1 & E1 & E). rewrite E1. mcbn. apply IH; [done|lia].
Qed.

Section Preparation.
Context (c : XmssConfig) (ph : PoseidonXmss) (randbelow : nat -> Z) (n : nat) (Hok : scheme_ok c ph).
#[local] Instance the_signer : Signer := xmss_signer c ph randbelow n.
Abbreviation W := (cf_LEAVES_PER_BOTTOM_TREE c).

(** The slots a key can sign now or after sliding its window forward *)
Definition open_slot (sk : SecretKey) (slot : Z) : Prop :=
  (get_prepared_interval c sk).1 <= slot < (get_activation_interval sk).2.

Lemma prepare_key_ok pk slot fuel : forall (sk : SecretKey) s e,
  held_key c ph pk sk -> key_ok c ph pk sk s e -> open_slot sk slot ->
  (Z.to_nat (slot / W - sk_left_bottom_tree_index sk) <= fuel)%nat ->
  exists key, held_key c ph pk key /\ signable c key slot /\ prepare_key fuel slot sk = Ok key.
Proof using Hok.
  pose proof (leaves_range c ph Hok) as HW. unfold open_slot, get_prepared_interval, get_activation_interval. cbn [fst snd].
  induction fuel as [|fuel IH]; intros sk s e Hh Hk Hslot Hf; cbn [prepare_key]; cbn [prepared_interval the_signer xmss_signer];
    unfold get_prepared_interval; destruct (ko_window _ _ _ _ _ _ Hk) as (Hs & He & Ha & Hn);
    destruct (ko_prepared _ _ _ _ _ _ Hk) as [Hl1 Hl2]; rewrite Ha, Hn in Hslot;
    set (li := sk_left_bottom_tree_index sk) in *;
    assert (li <= slot / W < e) as Hb by (split; [apply Z.div_le_lower_bound; lia|apply Z.div_lt_upper_bound; nia]);
    pose proof (Z.div_mod slot W ltac:(lia)); pose proof (Z.mod_pos_bound slot W ltac:(lia));
    destruct (_ && _) eqn:E.
  1,3: exists sk; split_and!; [done| |done]; unfold signable, get_prepared_interval, get_activation_interval; cbn [fst snd];
    rewrite Ha, Hn; bool_to_prop; split; nia.
  - exfalso. apply andb_false_iff in E as [E%Z.leb_gt|E%Z.ltb_ge]; nia.
  - assert (li + 2 <= slot / W) by (apply andb_false_iff in E as [E%Z.leb_gt|E%Z.ltb_ge]; [lia|apply Z.div_le_lower_bound; lia]).
    destruct (advance_preparation_ok c ph Hok randbelow pk sk s e n Hk) as (sk1 & E1 & Hk1 & Hl). rewrite (proj2 (Z.leb_le _ _)) in Hl by (fold li; lia).
    cbn [advance_key the_signer xmss_signer]. rewrite E1. mcbn. apply (IH sk1 s e); [by eapply held_advanced|done| |rewrite Hl; fold li; lia].
    destruct (ko_window _ _ _ _ _ _ Hk1) as (_ & _ & -> & ->). rewrite Hl. fold li. nia.
Qed.

Lemma prepare_key_diverges pk slot fuel : forall (sk : SecretKey) s e,
  key_ok c ph pk sk s e -> ~ open_slot sk slot -> prepare_key fuel slot sk = Err OutOfFuel.
Proof using Hok.
  pose proof (leaves_range c ph Hok) as HW. unfold open_slot, get_prepared_interval, get_activation_interval. cbn [fst snd].
  induction fuel as [|fuel IH]; intros sk s e Hk Hslot; cbn [prepare_key]; cbn [prepared_interval the_signer xmss_signer];
    unfold get_prepared_interval; destruct (ko_window _ _ _ _ _ _ Hk) as (Hs & He & Ha & Hn);
    destruct (ko_prepared _ _ _ _ _ _ Hk) as [Hl1 Hl2]; rewrite Ha, Hn in Hslot; set (li := sk_left_bottom_tree_index sk) in *;
    (destruct (_ && _) eqn:E; [exfalso; bool_to_prop; apply Hslot; nia|]); [done|].
  destruct (advance_preparation_ok c ph Hok randbelow pk sk s e n Hk) as (sk1 & E1 & Hk1 & Hl). fold li in Hl.
  cbn [advance_key the_signer xmss_signer]. rewrite E1. mcbn. apply (IH sk1 s e); [done|].
  destruct (ko_window _ _ _ _ _ _ Hk1) as (_ & _ & -> & ->). rewrite Hl. intros Ho. apply Hslot. destruct (li + 3 <=? e); nia.
Qed.
End Preparation.

(** C23: the service signs the slots its key has left, and hangs on the others.  For a slot
    from the start of the prepared window to the end of the activation window, the loop
    that slides the window ends within one slide per bottom tree, and the call either
    reports that no encoding was found, leaving the registry alone, or returns a signature
    that verifies under the public key, with the slid key in the registry.  For any other
    slot, an expired key included, the loop never ends: it runs out of every fuel. *)
Theorem service_signs_open_slots (c : XmssConfig) (ph : PoseidonXmss) (randbelow : nat -> Z) (n : nat)
    (pk : PublicKey) (entry : ValidatorEntry (H := xmss_signer c ph randbelow n)) (field : key_field) (slot : Z)
    (message : Bytes32) (s : ValidatorService (H := xmss_signer c ph randbelow n)) :
  let sk : SecretKey := entry_key (H := xmss_signer c ph randbelow n) field entry in
  scheme_ok c ph -> held_key c ph pk sk -> length message = 32%nat ->
  (open_slot c sk slot ->
   exists key : SecretKey, held_key c ph pk key /\ signable c key slot /\
     forall fuel, (Z.to_nat (slot / cf_LEAVES_PER_BOTTOM_TREE c - sk_left_bottom_tree_index sk) <= fuel)%nat ->
       _sign_with_key fuel entry slot message field s = (Err RuntimeError, s) \/
       exists signature,
         _sign_with_key fuel entry slot message field s =
           (Ok signature, put_registry (registry_add (replace_key (H := xmss_signer c ph randbelow n) field key entry) (vs_registry s))
                            (ve_index entry, field, slot, message) s) /\
         verify c ph pk slot message signature = Ok true) /\
  (~ open_slot c sk slot -> forall fuel, _sign_with_key fuel entry slot message field s = (Err OutOfFuel, s)).
Proof.
  intros sk Hok Hh Hm. destruct (held_key_ok c ph pk sk Hok Hh) as (a & e & Hk). split.
  - intros Ho. set (fuel0 := Z.to_nat _).
    destruct (prepare_key_ok c ph randbelow n Hok pk slot fuel0 sk a e Hh Hk Ho (le_n _)) as (key & Hkey & Hsig & Ep).
    exists key. split_and!; [done|done|]. intros fuel Hf. unfold _sign_with_key. fold sk.
    rewrite (prepare_key_more (H := xmss_signer c ph randbelow n) fuel0 fuel slot sk key Ep Hf), run_raising.
    destruct (held_key_ok c ph pk key Hok Hkey) as (a' & e' & Hk').
    destruct (sign_ok c ph Hok pk key a' e' slot message Hk' Hm Hsig) as [E|(sg & E & _ & Hv)];
      cbn [sign_message xmss_signer]; rewrite E; [by left|right; by exists sg].
  - intros Ho fuel. unfold _sign_with_key. fold sk.
    pose proof (prepare_key_diverges c ph randbelow n Hok pk slot fuel sk a e Hk Ho) as E. unfold the_signer in E. by rewrite E.
Qed.

(** ** A sample run: the genesis store, some of the validators, a reading every 100 ms *)
Definition toy_signer : Signer := xmss_signer toy_config toy_poseidon Z.of_nat 0.
(** A clock whose readings are those of a prompt host: each sleep ends at its boundary. *)
Definition prompt_tasks : Tasks := {|
  time_fn := fun n => 1004000000 + 800000 * Z.max 0 ((Z.of_nat (Nat.min n 100) - 1) / 6); others_at := fun _ => [] |}.
(** A clock that advances half an interval at each reading *)
Definition slow_tasks : Tasks := {| time_fn := fun n => 1004000000 + 400000 * Z.of_nat n; others_at := fun _ => [] |}.

#[local] Existing Instance sample_crypto.
#[local] Existing Instance insertion_order.
#[local] Existing Instance a1_network.
#[local] Existing Instance toy_signer.
Definition toy_entry (i : Z) : ValidatorEntry :=
  {| ve_index := i; ve_attestation_secret_key := toy_keys.2; ve_proposal_secret_key := toy_keys.2 |}.
Definition idle_service (indices : list Z) : ValidatorService := {|
  vs_sync := service_start store0 false true true None; vs_registry := map (fun i => (i, toy_entry i)) indices; vs_running := false;
  vs_blocks_produced := 0; vs_attestations_produced := 0; vs_attested_slots := []; vs_duty_gate_closed := false;
  vs_readings := 0; vs_awaits := 0; vs_signed := []; vs_slept := []; vs_slot_read := [] |}.
Abbreviation sample_duties tasks indices turns :=
  ((validator_run (H3 := tasks) 1000 3 None None turns (idle_service indices)).2).

(** A slot of two validators: the proposer's block, then both votes, once. *)
Example sample_slot_duties :
  uses (sample_duties prompt_tasks [0; 1] 5) =
    [(1, proposal_secret_key, 1); (0, attestation_secret_key, 1); (1, attestation_secret_key, 1)].
Proof. vm_compute. reflexivity. Qed.
Lemma sample_slept : vs_slept (sample_duties prompt_tasks [0; 1] 5) = [24; 18; 12; 6]%nat.
Proof. vm_compute. reflexivity. Qed.
Lemma sample_slot_read : vs_slot_read (sample_duties prompt_tasks [0; 1] 5) = [26; 20; 14; 8; 1]%nat.
Proof. vm_compute. reflexivity. Qed.

(** When the slot and the interval are read on the two sides of a boundary, the turn is
    spent on the slot that ended: validator 2, who proposes in slot 2, signs no block,
    although the service read interval 0 of slot 2. *)
Example crossing_misses_the_proposal :
  let s := sample_duties slow_tasks [2] 5 in
  current_slot 1000 (time_fn (Tasks := slow_tasks) 9) = Ok 1 /\ current_slot 1000 (time_fn (Tasks := slow_tasks) 10) = Ok 2 /\
  current_interval 1000 (time_fn (Tasks := slow_tasks) 10) = Ok 0 /\ 9%nat ∈ vs_slot_read s /\
  uses s = [(2, attestation_secret_key, 1); (2, attestation_secret_key, 2); (2, attestation_secret_key, 3)].
Proof. split; [|split; [|split; [|split]]]; [vm_compute; reflexivity..| |vm_compute; reflexivity].
  vm_compute. repeat (first [apply list_elem_of_here|apply list_elem_of_further]). Qed.

Lemma sample_punctual : punctual (H3 := prompt_tasks) 1000 (sample_duties prompt_tasks [0; 1] 5).
Proof.
  unfold punctual. rewrite sample_slept, sample_slot_read. split.
  - do 4 (constructor; [vm_compute; reflexivity|]). constructor.
  - do 5 (constructor; [vm_compute; reflexivity|]). constructor.
Qed.

Lemma sample_block_signed : exists m, vs_signed (sample_duties prompt_tasks [0; 1] 5) !! 0%nat = Some (1, proposal_secret_key, 1, m).
Proof. eexists. vm_compute. reflexivity. Qed.

(** The proposer of slot 1 signs one block, the first message of the run. *)
Lemma one_time_keys_sign_once_witness :
  exists m, vs_signed (sample_duties prompt_tasks [0; 1] 5) !! 0%nat = Some (1, proposal_secret_key, 1, m) /\
    forall q m', vs_signed (sample_duties prompt_tasks [0; 1] 5) !! q = Some (1, proposal_secret_key, 1, m') -> q = 0%nat.
Proof.
  pose proof sample_punctual as Hp. destruct sample_block_signed as [m0 E0]. exists m0. split; [exact E0|]. intros q m' Eq.
  assert (forall n m, (n <= m)%nat -> time_fn (Tasks := prompt_tasks) n <= time_fn (Tasks := prompt_tasks) m) as Hmono.
  { intros n m Hnm. unfold time_fn, prompt_tasks.
    pose proof (Z.div_le_mono (Z.of_nat (Nat.min n 100) - 1) (Z.of_nat (Nat.min m 100) - 1) 6 ltac:(lia) ltac:(lia)). lia. }
  refine (proj2 (one_time_keys_sign_once (H3 := prompt_tasks) 1000 3 None None 5 (idle_service [0; 1]) _ Hmono _) Hp q 0%nat 1 proposal_secret_key 1 m' m0 Eq E0).
  - intros n. split; [lia|specialize (Hmono 0%nat n ltac:(lia)); change (1004000000 <= time_fn (Tasks := prompt_tasks) n) in Hmono; lia|].
    unfold time_fn, prompt_tasks, milliseconds. set (k := Z.of_nat (Nat.min n 100)). assert (k <= 100) as Hk by lia. clearbody k. clear n.
    rewrite Z.quot_div_nonneg by lia. pose proof (Z.div_le_mono (k - 1) 99 6 ltac:(lia) ltac:(lia)) as Hd. change (99 / 6) with 16 in Hd.
    apply Z.div_lt_upper_bound; lia.
  - split; try reflexivity. split; [change (NoDup [0; 1]); apply (bool_decide_unpack _); vm_compute; exact I|].
    intros i entry E. unfold idle_service, vs_registry, map, dget in E. repeat case_decide; [by injection E as <-..|done].
Defined.

(** Slot 2 is signed with the toy key; slot 40 is past its end. *)
Lemma service_signs_open_slots_witness :
  (exists key : SecretKey, held_key toy_config toy_poseidon toy_keys.1 key /\ signable toy_config key 2) /\
  forall fuel, _sign_with_key fuel (toy_entry 1) 40 (toy_message Byte.x05) attestation_secret_key (idle_service [1]) =
    (Err OutOfFuel, idle_service [1]).
Proof.
  pose proof (service_signs_open_slots toy_config toy_poseidon Z.of_nat 0 toy_keys.1 (toy_entry 1) attestation_secret_key) as Hs.
  split.
  - destruct (Hs 2 (toy_message Byte.x05) (idle_service [1]) toy_scheme_ok toy_held eq_refl) as [Ho _].
    destruct Ho as (key & Hk & Hsig & _); [vm_compute; intuition congruence|]. exists key. exact (conj Hk Hsig).
  - destruct (Hs 40 (toy_message Byte.x05) (idle_service [1]) toy_scheme_ok toy_held eq_refl) as [_ Hd].
    apply Hd. vm_compute. intuition congruence.
Defined.
